(* ===== verification/_CoqProject ===== *)
-Q . S2P
Prelude.v
GoStrings.v
GoFloat.v
GoIO.v
GoPath.v
GoNet.v
Domain.v
Lifecycle.v
Sandbox.v
Store.v
StoreIface.v
Recovery.v
Resize.v
Headroom.v
MemAxis.v
Governor.v
Chain.v
AllowList.v
PktLine.v
GitSSH.v
Broker.v
PathPolicy.v
Proxy.v
Ring.v
Sessions.v
Wire.v
DataPlane.v
Sni.v
Volumes.v
VolumeGuard.v
Disks.v
Perimeter.v
Service.v
Fork.v
Reap.v
ReapRace.v
CreateBoot.v
ServiceSteps.v
Netns.v
Handoff.v
HandoffRace.v
Refresher.v
ImageCache.v
ImageRace.v
PortScan.v
PortFwd.v
PortState.v
Hypervisor.v
DriverResize.v
GoJson.v
Artifact.v
ForkConfig.v
Snapshots.v
Forks.v
ProjectConfig.v
CacheLease.v
CacheDisk.v
BuilderIO.v
