(* ===== verification/Prelude.v ===== *)
(** * Verification of the nexus sandbox runtime

    nexus (src/) runs coding agents in microVM sandboxes.  A host process per command
    changes durable sandbox records through a file store; a supervisor per sandbox
    owns the VM, its network perimeter and its credentials; a governor resizes the
    VM from telemetry; after a crash a recovery pass reconciles records with what
    the VM monitor reports.  This library models the parts that carry the program's
    own decisions as executable functions and proves what makes them correct.

    ** Files and the code they model

    Foundations, shared by all components:
    - Prelude: results of fallible calls, machine integers with their wrap-around,
      time and saturating durations, the tactics and hints of the development.
    - GoStrings, GoFloat, GoIO, GoPath, GoNet: what the code uses of Go's strings,
      strconv, float64, io, encoding/binary, encoding/base64, path and net/netip.
      White space and letter case are those of ASCII; errors whose text the callers
      do not inspect are not distinguished.

    The durable core (internal/core):
    - Domain, Sandbox: domain/state.go, id.go, sandbox.go -- states, identifiers
      (UUIDv7 in Crockford base32), records, handles.
    - Lifecycle: lifecycle/ -- the transition table, the machine and the --rm intent.
    - Store, StoreIface: store/ -- the file store over a file system with failing calls
      and power cuts; the class [RecordStore] is what clients rely on, its instance
      discharges it.
    - Recovery: recovery/recover.go -- reconciliation of one sandbox and of all,
      against the class [RecordStore], with driver and supervisor answers as
      inputs and calls as events.

    Sizing:
    - Resize: resize/types.go and vmcfg/vmcfg.go -- samples, bounds, boot sizes.
    - Headroom, MemAxis, Governor: govern/ -- host headroom, the memory axis, the CPU
      and disk axes, and the sampling loop as a step relation.

    The perimeter:
    - Chain, AllowList: perimeter/netfilter/blocks.go and acl.go -- policy chains, the
      decision on a connection, DNS observation, the denial ledger, as a step relation.
    - PktLine, GitSSH: gitssh/ -- the push command section, command parsing, the
      allowlist, frames and the relay session as a list of effects.
    - Broker: perimeter/cred/cred.go -- placeholders and tokens, with the sharing of
      entries by pointer.
    - PathPolicy, Proxy: perimeter/mitm/proxy.go and allowset.go -- path policies and
      the pipeline of request handlers.

    - Sni: perimeter/sni/ and buildDialer of perimeter/supervisor.go -- peeking at a TLS
      client hello and the tunnel request.

    The guest (cmd/nexus-agent) and its connection to the host:
    - Ring, Sessions: ring.go and session.go -- the output ring as a window of the
      stream, the session table with its retention sweep.
    - Wire, DataPlane: internal/core/agent/wire/wire.go, agent/exec.go and dataplane.go
      -- the frame codec, the sending loop of a session as a step relation interleaved
      with its process, the host's pump, and the input in the other direction.

    The service (internal/core/service and internal/core/volumestore), which composes the
    parts above:
    - Volumes, VolumeGuard: volumestore/ and service/volume_guard.go -- volume records,
      locks by inode, pruning; the guard of read-write volumes.
    - Disks: service/disk.go, shadow_intent.go, resource_index.go, fork_shadow_plan.go,
      diskname/ -- the names of a sandbox's files and the index over them.
    - Perimeter: service/secret.go and startSupervisor of service.go -- secrets, and the
      assembly of AllowList, Proxy and Broker from a record.
    - Service: service/service.go -- Create, List, Start, Stop, Pause, Resume, Snapshot and
      Remove over Store, Lifecycle, Volumes, Broker and Perimeter.
    - Fork: Fork, RestoreFromSnapshot and SnapshotRemove of service.go, with the leases of
      intent.go.
    - CreateBoot: service/create.go -- CreateAndBoot as a sequence of actions that keep
      their state on errors, with its deferred functions.
    - ServiceSteps: service/supervisor.go -- the methods that assign the supervisor's fields, and the calls of all
      methods of the service as one step relation.
    - Reap, ReapRace: service/reap.go -- one run of the reaper; reapers and creators
      interleaved step by step, with the theorem that a run of [Reap] is a run of
      those steps.

    The driver and the supervisor (internal/core/driver/cloudhypervisor, internal/supervisor):
    - Hypervisor, DriverResize: driver.go, client.go, ch_virtiofs.go, driver_resize.go -- starting, stopping and
      observing a machine against a hypervisor that is an interface with laws; memory, balloon and disk sizes.
    - Netns: ch_netns.go and its control protocol -- identity of a child process, the swap of its connection.
    - Handoff, HandoffRace: the hand-off of a machine to a new supervisor and its re-acquisition, as functions and
      with the processes interleaved.
    - GoJson, Artifact: encoding/json at the level of bytes, and artifact/ -- snapshot records on a file system that knows what
      is synchronised.
    - Snapshots, ForkConfig, Forks: snapshot.go, fork.go, fork_disk.go, fork_net.go -- taking and removing
      snapshots, the rewriting of a machine's configuration, children of a snapshot.

    Further components:
    - Refresher: perimeter/cred -- refreshers of tokens in several processes over one store.
    - ImageCache, ImageRace: image/cache.go and service/image_gc.go -- the image cache and its collection, alone and with
      writers and collectors interleaved.
    - PortScan, PortFwd, PortState: portfwd/ -- discovery in the guest, the client's forwards, the state files
      between the supervisors and the client.
    - ProjectConfig: config/ -- decoding, checking and resolving a project's configuration.
    - CacheLease, CacheDisk, BuilderIO: builder/cachedisk.go, lifecycle.go, vmbuilder.go, admission.go, sizedfs.go and
      supervisor/cachedisk_lease.go -- leases on cache disks as flocks of shared descriptions, the fencing of disks
      against lost writes, a build in a machine, admission, size-checked contexts.

    Definitions keep the source's names; a method is named after its receiver where
    the name alone is ambiguous.  State is a record, an operation a function on it
    that also returns its result; calls to the outside (VM monitor, ssh, hooks) are
    events in order; readings of clocks, random bytes, DNS and iteration order over
    maps are arguments.

    ** What the theorems show

    - Recovery never stops, deletes or reaps a sandbox whose VM is live or whose state
      is unknown; it adopts what it observes along a lifecycle edge; removal is
      write-ahead logged; a second run changes nothing.
    - The store's writes are atomic under power cuts and its updates under failing
      calls; records round trip; every readable record lies in its own directory.
    - The lifecycle function agrees with its table on every input; exactly the durable
      states are reachable.
    - Resizes stay within bounds, follow the signal, respect cooldown and headroom, and
      a shrink needs five samples in a row.
    - A connection is permitted exactly on an allow, a grant not denied by name, or a
      DNS justification without opinion; the highest block and its most specific rule
      decide; the runtime sets stay justified and bounded.
    - A push reaches a remote only with allowed refs (within the buffer bound); ssh
      runs only the git service on an allowlisted repository; a real token leaves
      only for a host its placeholder was registered for and after every check, in the
      pipeline of intercepted requests; the broker is a finite map.
    - In the guest a reader of a session's output gets exactly the stream; the sweep
      keeps running sessions and bounds what completed ones retain.
    - Starting boots at most one machine, and only for a record that may start; removal
      is write-ahead; no method of the service leaves the lifecycle or changes what
      is frozen in a record.
    - Creating a sandbox ends with a running sandbox with the policy that was asked for,
      or, as far as deleting works, without a file or record of it; a forked child has the
      hosts, egress mode and repository of its parent, none of its secrets, and files that
      are leased until its record is durable.
    - The reaper deletes only what no record and no lease claims and, shadow disks
      excepted, no process or socket, also when it runs beside creators, as long as no key
      is used twice.
    - Volumes in use survive pruning; the guard admits one read-write user; the volume
      store keeps its invariant under any failing calls.
    - A GitHub token is resolved for GitHub hosts only, and no request of a GitHub secret
      host leaves the perimeter outside the policy of the record.
    - Client hellos are parsed without out-of-range access, replayed unchanged when they
      arrive whole and tunnelled to the name they ask for; frames round trip; a session's
      output arrives in order and once, and complete unless the ring overran; its input
      arrives complete; replaying an exited session ends.
    - A hand-off in which nothing fails and the answer is flushed ends with the new supervisor as the only owner or leaves
      the old one; no hand-off costs the machine; a swapped connection comes to be used.
    - A driver that starts a machine leaves it running or leaves nothing; recovery with this driver spares live
      machines; memory stays between boot size and total; growing a disk keeps file, device and file system in order.
    - A snapshot that can be restored is complete whenever a power cut fell; a forked child shares no disk, tap or socket
      with its parent; snapshot records are written atomically and JSON texts round trip.
    - No refresh token is consumed twice while saves succeed and no grant is lost; cached images have the content of their name and survive collectors of other
      processes; the client's forwards come to be those wanted, and the merged state is that of the supervisors.
    - A cache disk is leased to one builder at a time through hand-offs and deaths, and never handed out with lost writes; a
      machine that came up is stopped; admission agrees with the governor; a context file is sent whole or the
      build is cancelled.
    - A configuration is accepted only with known fields and consistent egress rules.
    - Some theorems and lemmas record defects: the reset of the DNS map that lifts named denies,
      IPv4-mapped prefixes that never match, the unchecked tail of a long command
      section, the letter case of GraphQL keys, the spawn that is not retried, the
      field a record drops, the overflow of a far-future timestamp, the exit code a
      session loses when its process id is reused; the reaper against a handle that is
      used again and against records of a newer version, two starts that share a
      volume, the scopes of secret hosts that survive a removal, the branch limit a
      fork loses, the scratch disk without a lease, pinned volumes that are pruned,
      a volume without its backing, the lock of a removed volume, handles that share
      shadow disks, path policies dropped beside a repository, and server names that
      inject into the tunnel request; forwards that a second machine or a restarted master loses, sandboxes whose files
      collide, an IPv6 address taken for a port; the wedged monitor that survives a stop, the floor an adoption loses, the
      disk growth that is never finished; the snapshot identifier that deletes everything, children over a newer disk,
      children left behind by a failed fork; the misspelt field that makes a mount writable; cache disks served before they
      have a file system, after a marker was lost, not readable or removed too early; the hand-off whose answer is not flushed,
      the machine that stays paused after a cancelled snapshot or runs without a record after a failed boot, the image
      collected without a lock, the tunnel of a suffix host that swaps every placeholder, output lost to a slow host, the
      refresh token presented again after a lost answer.

    ** Bounds and fuel

    - Recursion is structural except in GoNet (v6_loop: nine turns, one more than the
      eight groups of an address), GoPath (path.Match: the length of the pattern, of
      which every turn consumes at least a byte) and PktLine (refs_loop: one more
      than the length of the input, of which every turn consumes four bytes).  In Sni
      (names_loop, ext_loop), DataPlane (pump_loop, inbound_loop) and Disks (glob_parse,
      class_ranges) the fuel is likewise bounded by the length of the input, of which every turn
      consumes at least a byte, and so it is in Reap (pid_matches), PortScan (needle_loop) and GoJson (json_fuel, twice
      the length and two more, for a turn per value and per separator); the polling loops of Hypervisor and CacheLease take the
      list of their turns and end with the deadline; stream_closed needs a turn per unread byte and two more,
      which attach_exited_replays proves to be enough.
    - 64-bit integers wrap where the code computes with values it does not control;
      lengths are unbounded naturals where the code's own limits keep them small.

    ** Assumptions of the interleaved models

    One directory listing, one record write and one lock probe are one step each.  In
    ReapRace keys are not used twice; without that the theorem is false, as the lemma
    reap_races_handle_reuse shows.  The process and socket answers of the host are
    arbitrary at every step.  ImageRace lets a process run one operation at a time; a
    removal may take the artifact and leave the directory.  A call of a refresher under the store's lock is one step.  In CacheLease an operation of the registry is one step, as its lock makes it;
    descriptors other than those of lock files are left out.  In HandoffRace the answer of a
    hand-off is buffered before it is flushed and may be lost at any point.

    ** Parameters

    Code that is not in this repository is a parameter with laws: the hypervisor (Hypervisor, Snapshots, each with an
    instance), SHA-256, the YAML library, the text of instants.  The iteration order over maps is an argument.  The crash
    model of Artifact and CacheDisk: what was synchronised stays, what was not may be lost or cut off.

    ** What is not modelled

    The command line and the editor plug-ins, the supervisor's boot, seeding of guests and relays, agent profiles, image
    builds by external tools (buildkit, OCI export, packing of ext4 images, worktree disks), the certificate authority
    of the state directory, the mcp server, the processes of the client agent, the guest's control plane, the user-mode
    network stack, TLS and third_party code are input and output around the parts above, or calls to libraries.  Within the
    modelled parts: resolving the image, the tools that write disks and the seeding of a guest are answers of the world in
    CreateBoot, where the volume store of the options is that of the service; the egress log and the persisting of the
    proxy's certificate authority are left out of Perimeter; file copies, dialling and cancellation are left out of
    DataPlane; rewriteConfigDiskPath, which only tests call, is left out of ForkConfig; the in-process perimeter of a
    builder, which the production driver does not use, is left out of CacheDisk; removals whose errors the driver drops
    (clearState of Hypervisor) are taken to work; letter case and blanks are those of ASCII; names of volumes are single
    path components.  Where GoJson is not used, JSON
    texts are represented by what they decode to.  Locks are atomic sections; where the code releases a lock
    between two sections the step relations allow others in between. *)

From stdpp Require Import prelude gmap strings list.
From Stdlib Require Import ZArith Lia Wf_nat.

#[global] Open Scope Z_scope.

(** ** Results of fallible code

    A Go function returning [(T, error)] is a function into [result E T]: [Ok v]
    for a nil error, [Err e] otherwise.  The error type keeps the distinctions
    the callers branch on. *)

Inductive result (E A : Type) : Type :=
| Ok (a : A)
| Err (e : E).
Arguments Ok {E A} a.
Arguments Err {E A} e.

Declare Scope go_scope.
Delimit Scope go_scope with go.
#[global] Open Scope go_scope.

Definition rbind {E A B} (c : result E A) (k : A → result E B) : result E B :=
  match c with Ok a => k a | Err e => Err e end.

Notation "'let*' x := c 'in' k" := (rbind c (fun x => k))
  (at level 10, x pattern, c at level 100, k at level 200) : go_scope.

Definition is_ok {E A} (r : result E A) : bool :=
  match r with Ok _ => true | Err _ => false end.

Lemma Ok_inj {E A} (a b : A) : @Ok E A a = Ok b → a = b.
Proof. by injection 1. Qed.

Lemma rbind_ok_inv {E A B} (c : result E A) (k : A → result E B) b :
  rbind c k = Ok b → ∃ a, c = Ok a ∧ k a = Ok b.
Proof. destruct c; simpl; [eauto|discriminate]. Qed.

(** An invariant of every step holds along every run. *)
Lemma rtc_invariant {A} (R : relation A) (P : A → Prop) :
  (∀ x y, R x y → P x → P y) → ∀ x y, rtc R x y → P x → P y.
Proof. intros HR x y. induction 1; eauto. Qed.

(** Every run of [step] from a state reaches [P]: no run ends or goes on for ever outside it. *)
Inductive eventually {A} (step : relation A) (P : A → Prop) (x : A) : Prop :=
| eventually_now : P x → eventually step P x
| eventually_later : (∃ y, step x y) → (∀ y, step x y → eventually step P y) → eventually step P x.

(** A measure that every step outside [P] decreases, with an invariant. *)
Lemma eventually_measure {A} (step : relation A) (P I : A → Prop) (m : A → nat) :
  (∀ x, I x → P x ∨ (∃ y, step x y) ∧ ∀ y, step x y → I y ∧ (m y < m x)%nat) →
  ∀ x, I x → eventually step P x.
Proof.
  intros H x. induction x as [x IH] using (well_founded_ind (well_founded_ltof _ m)).
  intros Hx. destruct (H x Hx) as [?|[Hs Hd]]; [by apply eventually_now|].
  apply eventually_later; [done|]. intros y Hy. destruct (Hd y Hy) as [HI Hm]. by apply IH.
Qed.

(** ** Machine integers

    Fixed-width integers are [Z] with the wrap-around written out. *)

Definition wrap_u (w z : Z) : Z := z mod 2 ^ w.
Definition wrap_s (w z : Z) : Z := (z + 2 ^ (w - 1)) mod 2 ^ w - 2 ^ (w - 1).

Abbreviation u8 := (wrap_u 8).
Abbreviation u16 := (wrap_u 16).
Abbreviation u32 := (wrap_u 32).
Abbreviation u64 := (wrap_u 64).
Abbreviation i32 := (wrap_s 32).
Abbreviation i64 := (wrap_s 64).

Definition max_i64 : Z := 2 ^ 63 - 1.
Definition min_i64 : Z := - 2 ^ 63.

Lemma wrap_u_small w z : 0 ≤ z < 2 ^ w → wrap_u w z = z.
Proof. apply Z.mod_small. Qed.

Lemma i64_small z : - 2 ^ 63 ≤ z < 2 ^ 63 → i64 z = z.
Proof.
  intros H. unfold wrap_s. change (2 ^ (64 - 1)) with (2 ^ 63).
  rewrite Z.mod_small; lia.
Qed.

Lemma i32_small z : - 2 ^ 31 ≤ z < 2 ^ 31 → i32 z = z.
Proof.
  intros H. unfold wrap_s. change (2 ^ (32 - 1)) with (2 ^ 31).
  rewrite Z.mod_small; lia.
Qed.

Lemma i32_of_u32 z : - 2 ^ 31 ≤ z < 2 ^ 31 → i32 (u32 z) = z.
Proof.
  intros H. unfold wrap_s, wrap_u. change (2 ^ (32 - 1)) with (2 ^ 31).
  rewrite Zplus_mod_idemp_l, Z.mod_small; lia.
Qed.

Lemma i64_range z : - 2 ^ 63 ≤ i64 z < 2 ^ 63.
Proof.
  unfold wrap_s. change (2 ^ (64 - 1)) with (2 ^ 63).
  pose proof (Z.mod_pos_bound (z + 2 ^ 63) (2 ^ 64) ltac:(lia)). lia.
Qed.

Lemma u64_range z : 0 ≤ u64 z < 2 ^ 64.
Proof. apply Z.mod_pos_bound. lia. Qed.

(** ** Time

    [time.Time] is the number of nanoseconds since the zero [time.Time] (so the
    zero value is 0 and [IsZero] is a comparison); [time.Duration] is an [int64]
    of nanoseconds and [Sub] saturates at its bounds, as documented. *)

Abbreviation Time := Z (only parsing).
Abbreviation Duration := Z (only parsing).

Definition zero_time : Time := 0.
Definition IsZero (t : Time) : bool := t =? 0.
Definition clamp_i64 (z : Z) : Z := Z.max min_i64 (Z.min max_i64 z).
Definition Sub (a b : Time) : Duration := clamp_i64 (a - b).
Definition Before (a b : Time) : bool := a <? b.
Definition Second : Duration := 1000000000.
Definition Minute : Duration := 60 * Second.

Lemma Sub_small a b : - 2 ^ 63 ≤ a - b < 2 ^ 63 → Sub a b = a - b.
Proof. unfold Sub, clamp_i64, max_i64, min_i64. lia. Qed.

Lemma Sub_lt_iff a b d : - 2 ^ 63 < d < 2 ^ 63 → Sub a b < d ↔ a - b < d.
Proof. unfold Sub, clamp_i64, max_i64, min_i64. lia. Qed.

(** ** Tactics of the development *)

(** Case analysis on the innermost scrutinee of a match or if of the goal or of a
    hypothesis, keeping the equation. *)
Ltac split_match :=
  match goal with
  | |- context [match ?x with _ => _ end] =>
      lazymatch x with
      | context [match _ with _ => _ end] => fail
      | _ => destruct x eqn:?
      end
  | H : context [match ?x with _ => _ end] |- _ =>
      lazymatch x with
      | context [match _ with _ => _ end] => fail
      | _ => destruct x eqn:?
      end
  end.

Ltac split_matches := repeat (split_match; simplify_eq/=).

(** Turns boolean comparisons of the context into propositions. *)
Ltac reflect_bools :=
  repeat match goal with
  | H : (_ && _)%bool = true |- _ => apply andb_prop in H; destruct H
  | H : (_ || _)%bool = false |- _ => apply orb_false_elim in H; destruct H
  | H : negb _ = true |- _ => apply negb_true_iff in H
  | H : negb _ = false |- _ => apply negb_false_iff in H
  | H : (_ <? _) = true |- _ => apply Z.ltb_lt in H
  | H : (_ <? _) = false |- _ => apply Z.ltb_ge in H
  | H : (_ <=? _) = true |- _ => apply Z.leb_le in H
  | H : (_ <=? _) = false |- _ => apply Z.leb_gt in H
  | H : (_ =? _) = true |- _ => apply Z.eqb_eq in H
  | H : (_ =? _) = false |- _ => apply Z.eqb_neq in H
  | H : bool_decide _ = true |- _ => apply bool_decide_eq_true in H
  | H : bool_decide _ = false |- _ => apply bool_decide_eq_false in H
  end.

Create HintDb nexus discriminated.
#[export] Hint Resolve i64_range u64_range : nexus.
