(* ===== verification/GoStrings.v ===== *)
(** * The Go [strings] package, as far as nexus uses it

    Go strings and byte slices are byte sequences: a [string] is Rocq's [string]
    (a sequence of 8-bit characters) and a [[]byte] is [bytes], the list of the
    same characters.  Case mapping and white space are those of the ASCII range,
    which is the alphabet of the host names, paths, references and identifiers
    the modelled code handles; bytes above 0x7f are left unchanged. *)

From stdpp Require Import prelude strings list.
From Stdlib Require Import ZArith Ascii Lia.
From S2P Require Import Prelude.

Abbreviation bytes := (list ascii).

Definition chars : string → bytes := String.list_ascii_of_string.
Definition of_chars : bytes → string := String.string_of_list_ascii.

Lemma chars_of_chars l : chars (of_chars l) = l.
Proof. apply String.list_ascii_of_string_of_list_ascii. Qed.
Lemma of_chars_chars s : of_chars (chars s) = s.
Proof. apply String.string_of_list_ascii_of_string. Qed.
Lemma chars_inj s t : chars s = chars t → s = t.
Proof. intros H. by rewrite <- (of_chars_chars s), <- (of_chars_chars t), H. Qed.
Lemma chars_app s t : chars (s +:+ t) = chars s ++ chars t.
Proof. induction s as [|c s IH]; [done|]. simpl. by rewrite IH. Qed.
Lemma of_chars_app l k : of_chars (l ++ k) = of_chars l +:+ of_chars k.
Proof. induction l as [|c l IH]; [done|]. simpl. by rewrite IH. Qed.

(** ** Bytes as numbers *)

Definition byte_val (a : ascii) : Z := Z.of_N (N_of_ascii a).
Definition byte_of (z : Z) : ascii := ascii_of_N (Z.to_N (z mod 256)).

Lemma byte_val_range a : 0 ≤ byte_val a < 256.
Proof. unfold byte_val. pose proof (N_ascii_bounded a). lia. Qed.

Lemma byte_of_val a : byte_of (byte_val a) = a.
Proof.
  unfold byte_of. rewrite Z.mod_small by apply byte_val_range.
  unfold byte_val. rewrite N2Z.id. apply ascii_N_embedding.
Qed.

Lemma byte_val_of z : byte_val (byte_of z) = z mod 256.
Proof.
  unfold byte_val, byte_of. pose proof (Z.mod_pos_bound z 256 ltac:(lia)).
  rewrite N_ascii_embedding by lia. lia.
Qed.

Lemma byte_val_inj a b : byte_val a = byte_val b → a = b.
Proof. intros H. by rewrite <- (byte_of_val a), <- (byte_of_val b), H. Qed.

(** ** Prefixes and suffixes *)

Fixpoint strip_prefix (p l : bytes) : option bytes :=
  match p, l with
  | [], _ => Some l
  | a :: p', b :: l' => if decide (a = b) then strip_prefix p' l' else None
  | _ :: _, [] => None
  end.

Definition strip_suffix (s l : bytes) : option bytes :=
  reverse <$> strip_prefix (reverse s) (reverse l).

Lemma strip_prefix_Some p l r : strip_prefix p l = Some r ↔ l = p ++ r.
Proof.
  revert l; induction p as [|a p IH]; intros [|b l]; simpl.
  - naive_solver.
  - naive_solver.
  - naive_solver.
  - case_decide; [subst; rewrite IH; naive_solver|naive_solver].
Qed.

Lemma strip_suffix_Some s l r : strip_suffix s l = Some r ↔ l = r ++ s.
Proof.
  unfold strip_suffix. rewrite fmap_Some. split.
  - intros (r' & H & ->). apply strip_prefix_Some in H.
    apply (f_equal reverse) in H. rewrite reverse_involutive in H.
    by rewrite H, reverse_app, reverse_involutive.
  - intros ->. exists (reverse r). rewrite reverse_involutive. split; [|done].
    apply strip_prefix_Some. by rewrite reverse_app.
Qed.

Definition CutPrefix (s p : string) : option string :=
  of_chars <$> strip_prefix (chars p) (chars s).
Definition HasPrefix (s p : string) : bool := bool_decide (is_Some (CutPrefix s p)).
Definition TrimPrefix (s p : string) : string := default s (CutPrefix s p).

Definition CutSuffix (s p : string) : option string :=
  of_chars <$> strip_suffix (chars p) (chars s).
Definition HasSuffix (s p : string) : bool := bool_decide (is_Some (CutSuffix s p)).
Definition TrimSuffix (s p : string) : string := default s (CutSuffix s p).

Lemma CutPrefix_Some s p r : CutPrefix s p = Some r ↔ s = p +:+ r.
Proof.
  unfold CutPrefix. rewrite fmap_Some. setoid_rewrite strip_prefix_Some. split.
  - intros (l & Hl & ->). apply chars_inj. by rewrite chars_app, chars_of_chars.
  - intros ->. exists (chars r). by rewrite chars_app, of_chars_chars.
Qed.

Lemma CutSuffix_Some s p r : CutSuffix s p = Some r ↔ s = r +:+ p.
Proof.
  unfold CutSuffix. rewrite fmap_Some. setoid_rewrite strip_suffix_Some. split.
  - intros (l & Hl & ->). apply chars_inj. by rewrite chars_app, chars_of_chars.
  - intros ->. exists (chars r). by rewrite chars_app, of_chars_chars.
Qed.

Lemma HasPrefix_true s p : HasPrefix s p = true ↔ ∃ r, s = p +:+ r.
Proof.
  unfold HasPrefix. rewrite bool_decide_eq_true. unfold is_Some.
  by setoid_rewrite CutPrefix_Some.
Qed.

Lemma HasSuffix_true s p : HasSuffix s p = true ↔ ∃ r, s = r +:+ p.
Proof.
  unfold HasSuffix. rewrite bool_decide_eq_true. unfold is_Some.
  by setoid_rewrite CutSuffix_Some.
Qed.

Lemma TrimPrefix_app p r : TrimPrefix (p +:+ r) p = r.
Proof. unfold TrimPrefix. by rewrite (proj2 (CutPrefix_Some _ _ r)). Qed.

Lemma TrimSuffix_app r p : TrimSuffix (r +:+ p) p = r.
Proof. unfold TrimSuffix. by rewrite (proj2 (CutSuffix_Some _ _ r)). Qed.

(** ** Searching *)

(** [strings.Index]: position of the first occurrence of [sub]. *)
Fixpoint index_from (sub l : bytes) (i : nat) : option nat :=
  match strip_prefix sub l with
  | Some _ => Some i
  | None => match l with [] => None | _ :: l' => index_from sub l' (S i) end
  end.

Definition Index (s sub : string) : option nat := index_from (chars sub) (chars s) 0.
Definition Contains (s sub : string) : bool := bool_decide (is_Some (Index s sub)).

Lemma index_from_Some sub l i n :
  index_from sub l i = Some n →
  ∃ pre post, l = pre ++ sub ++ post ∧ n = (i + length pre)%nat.
Proof.
  revert i; induction l as [|c l IH]; intros i; simpl;
    destruct (strip_prefix sub _) as [post|] eqn:Hs.
  - apply strip_prefix_Some in Hs. intros [= <-]. exists [], post. split; [done|simpl; lia].
  - done.
  - apply strip_prefix_Some in Hs. intros [= <-]. exists [], post. split; [done|simpl; lia].
  - intros H. destruct (IH _ H) as (pre & post & -> & ->).
    exists (c :: pre), post. simpl. split; [done|lia].
Qed.

Lemma index_from_app sub pre post i : is_Some (index_from sub (pre ++ sub ++ post) i).
Proof.
  revert i; induction pre as [|c pre IH]; intros i; simpl.
  - assert (H : strip_prefix sub (sub ++ post) = Some post) by (by apply strip_prefix_Some).
    destruct (sub ++ post); simpl; rewrite H; eauto.
  - destruct (strip_prefix sub _); eauto.
Qed.

Lemma Contains_true s sub : Contains s sub = true ↔ ∃ a b, s = a +:+ sub +:+ b.
Proof.
  unfold Contains, Index. rewrite bool_decide_eq_true. split.
  - intros [n Hn]. apply index_from_Some in Hn as (pre & post & Heq & _).
    exists (of_chars pre), (of_chars post). apply chars_inj.
    by rewrite !chars_app, !chars_of_chars.
  - intros (a & b & ->). rewrite !chars_app. apply index_from_app.
Qed.

(** [strings.IndexByte]. *)
Fixpoint index_byte (c : ascii) (l : bytes) : option nat :=
  match l with
  | [] => None
  | d :: l' => if decide (c = d) then Some 0%nat else S <$> index_byte c l'
  end.

(** [strings.Count] of a one-byte separator. *)
Definition count_byte (c : ascii) (s : string) : Z :=
  Z.of_nat (length (filter (λ d, d = c) (chars s))).

(** ** Splitting on a one-byte separator *)

(** [break_at c l] is [Some (a, b)] when [l = a ++ c :: b] and [a] has no [c]. *)
Fixpoint break_at (c : ascii) (l : bytes) : option (bytes * bytes) :=
  match l with
  | [] => None
  | d :: l' =>
      if decide (d = c) then Some ([], l')
      else match break_at c l' with
           | Some (a, b) => Some (d :: a, b)
           | None => None
           end
  end.

Lemma break_at_Some c l a b : break_at c l = Some (a, b) → l = a ++ c :: b ∧ c ∉ a.
Proof.
  revert a; induction l as [|d l IH]; intros a; simpl; [done|].
  case_decide; [intros [= <- <-]; subst; split; [done|set_solver]|].
  destruct (break_at c l) as [[a' b']|]; [|done].
  intros [= <- <-]. destruct (IH a' eq_refl) as [-> ?]. split; [done|set_solver].
Qed.

Lemma break_at_None c l : break_at c l = None → c ∉ l.
Proof.
  induction l as [|d l IH]; simpl; [set_solver|].
  case_decide; [done|]. destruct (break_at c l) as [[??]|]; [done|set_solver].
Qed.

Lemma break_at_app c a b : c ∉ a → break_at c (a ++ c :: b) = Some (a, b).
Proof.
  induction a as [|d a IH]; intros Hc; simpl; [by rewrite decide_True|].
  rewrite decide_False by set_solver. by rewrite IH by set_solver.
Qed.

Lemma break_at_notin c l : c ∉ l → break_at c l = None.
Proof.
  induction l as [|d l IH]; intros Hc; simpl; [done|].
  rewrite decide_False by set_solver. by rewrite IH by set_solver.
Qed.

(** [strings.Cut]. *)
Definition Cut (s : string) (c : ascii) : option (string * string) :=
  (λ ab, (of_chars ab.1, of_chars ab.2)) <$> break_at c (chars s).

(** [strings.SplitN s sep n] for [n > 0]; [n] is an upper bound on the number of
    pieces. *)
Fixpoint split_n (n : nat) (c : ascii) (l : bytes) : list bytes :=
  match n with
  | O => []
  | S O => [l]
  | S n' => match break_at c l with
            | Some (a, b) => a :: split_n n' c b
            | None => [l]
            end
  end.

Definition SplitN (s : string) (c : ascii) (n : nat) : list string :=
  of_chars <$> split_n n c (chars s).

(** [strings.Split]: at most one more piece than there are bytes. *)
Definition Split (s : string) (c : ascii) : list string :=
  SplitN s c (S (S (length (chars s)))).

(** ** Concatenation *)

Lemma str_app_assoc a b c : (a +:+ b) +:+ c = a +:+ b +:+ c.
Proof. apply chars_inj. rewrite !chars_app. by rewrite <- app_assoc. Qed.

Lemma str_app_empty_r s : s +:+ "" = s.
Proof. apply chars_inj. rewrite chars_app. apply app_nil_r. Qed.

Lemma Cut_Some s a b : Cut s "/"%char = Some (a, b) → s = a +:+ "/" +:+ b.
Proof.
  unfold Cut. destruct (break_at "/"%char (chars s)) as [[x y]|] eqn:E; [|done].
  intros H. injection H as <- <-. apply break_at_Some in E as [E _]. apply chars_inj.
  rewrite !chars_app, !chars_of_chars, E. done.
Qed.

Lemma SplitN_2_join p n :
  "/"%char ∉ chars p → SplitN (p +:+ "/" +:+ n) "/"%char 2 = [p; n].
Proof.
  intros Hp. unfold SplitN. rewrite !chars_app.
  change (chars "/" ++ chars n) with ("/"%char :: chars n). cbn [split_n].
  rewrite break_at_app by done. simpl. by rewrite !of_chars_chars.
Qed.

Lemma SplitN_2_inv h p n :
  SplitN h "/"%char 2 = [p; n] → h = p +:+ "/" +:+ n ∧ "/"%char ∉ chars p.
Proof.
  unfold SplitN. cbn [split_n]. destruct (break_at "/"%char (chars h)) as [[a b]|] eqn:E; [|done].
  apply break_at_Some in E as [Heq Hn]. intros [= <- <-]. rewrite chars_of_chars. split; [|done].
  apply chars_inj. rewrite !chars_app, !chars_of_chars. exact Heq.
Qed.

(** ** Trimming and case *)

Fixpoint drop_while (f : ascii → bool) (l : bytes) : bytes :=
  match l with [] => [] | c :: l' => if f c then drop_while f l' else l end.
Definition drop_end_while (f : ascii → bool) (l : bytes) : bytes :=
  reverse (drop_while f (reverse l)).

(** [unicode.IsSpace] on ASCII: tab, newline, vertical tab, form feed, carriage
    return, space. *)
Definition is_space (c : ascii) : bool :=
  let n := byte_val c in ((9 <=? n) && (n <=? 13)) || (n =? 32).

Definition TrimSpace (s : string) : string :=
  of_chars (drop_end_while is_space (drop_while is_space (chars s))).
Definition TrimRightByte (s : string) (c : ascii) : string :=
  of_chars (drop_end_while (λ d, bool_decide (d = c)) (chars s)).

Definition lower_byte (c : ascii) : ascii :=
  let n := byte_val c in if (65 <=? n) && (n <=? 90) then byte_of (n + 32) else c.
Definition upper_byte (c : ascii) : ascii :=
  let n := byte_val c in if (97 <=? n) && (n <=? 122) then byte_of (n - 32) else c.

Definition ToLower (s : string) : string := of_chars (lower_byte <$> chars s).
Definition ToUpper (s : string) : string := of_chars (upper_byte <$> chars s).
Definition EqualFold (s t : string) : bool := bool_decide (ToLower s = ToLower t).

Lemma lower_byte_idemp c : lower_byte (lower_byte c) = lower_byte c.
Proof. by destruct c as [[] [] [] [] [] [] [] []]; vm_compute. Qed.

Lemma ToLower_app s t : ToLower (s +:+ t) = ToLower s +:+ ToLower t.
Proof. unfold ToLower. by rewrite chars_app, fmap_app, of_chars_app. Qed.

Lemma ToLower_idemp s : ToLower (ToLower s) = ToLower s.
Proof.
  unfold ToLower. rewrite chars_of_chars, <- list_fmap_compose. f_equal.
  apply list_fmap_ext. intros i c _. apply lower_byte_idemp.
Qed.


(** ** strconv *)

Definition digit_val (c : ascii) : option Z :=
  let n := byte_val c in if (48 <=? n) && (n <=? 57) then Some (n - 48) else None.

Fixpoint digits_val (l : bytes) (acc : Z) : option Z :=
  match l with
  | [] => Some acc
  | c :: l' => match digit_val c with
               | Some d => digits_val l' (acc * 10 + d)
               | None => None
               end
  end.

Inductive num_error := ErrSyntax | ErrRange.

(** [strconv.ParseInt(s, 10, 64)]: an optional sign and at least one digit. *)
Definition ParseInt (s : string) : result num_error Z :=
  let '(neg, l) :=
    match chars s with
    | c :: l => if byte_val c =? 45 then (true, l)
                else if byte_val c =? 43 then (false, l) else (false, c :: l)
    | [] => (false, [])
    end in
  match l with
  | [] => Err ErrSyntax
  | _ => match digits_val l 0 with
         | None => Err ErrSyntax
         | Some v =>
             let v := if (neg : bool) then - v else v in
             if (- 2 ^ 63 <=? v) && (v <? 2 ^ 63) then Ok v else Err ErrRange
         end
  end.

Lemma ParseInt_range s v : ParseInt s = Ok v → - 2 ^ 63 ≤ v < 2 ^ 63.
Proof.
  unfold ParseInt. destruct (match chars s with [] => _ | _ => _ end) as [neg l].
  destruct l as [|c l]; [done|]. destruct (digits_val (c :: l) 0) as [w|]; [|done].
  cbv zeta. set (x := if neg then - w else w).
  destruct (Z.leb_spec (- 2 ^ 63) x), (Z.ltb_spec x (2 ^ 63)); simpl; by intros [= <-].
Qed.

(** ** Lines, as [bufio.Scanner] splits them: the newline and one carriage return
    before it are dropped, and a final line need not be terminated. *)
Definition strip_cr (l : bytes) : bytes :=
  match reverse l with c :: r => if byte_val c =? 13 then reverse r else l | [] => [] end.

Definition scan_lines (l : bytes) : list bytes :=
  let pieces := split_n (S (S (length l))) "010"%char l in
  strip_cr <$> match reverse pieces with [] :: r => reverse r | _ => pieces end.
