(* ===== verification/GoFloat.v ===== *)
(** * Go's [float64]

    IEEE 754 binary64 as the Standard Library's [SpecFloat] computes it: precision
    53, maximal exponent 1024, rounding to nearest, ties to even.  A constant such
    as [0.20] of the source is the rounded quotient [1/5], which is the float the
    compiler picks.  The order lemmas reduce comparisons to a lexicographic order on
    integers, so that facts about thresholds are proved by [lia]. *)

From stdpp Require Import prelude.
From Stdlib Require Import ZArith SpecFloat Lia.
From S2P Require Import Prelude.

Abbreviation float64 := spec_float.

Definition f64_prec : Z := 53.
Definition f64_emax : Z := 1024.

(** [float64(n)] of an integer. *)
Definition f64_of_Z (n : Z) : float64 := binary_normalize f64_prec f64_emax n 0 false.
Definition f64_div (a b : float64) : float64 := SFdiv f64_prec f64_emax a b.
Definition f64_mul (a b : float64) : float64 := SFmul f64_prec f64_emax a b.
Definition f64_ltb (a b : float64) : bool := SFltb a b.
Definition f64_leb (a b : float64) : bool := SFleb a b.

(** The literal whose exact value is [n/d]. *)
Definition f64_lit (n d : Z) : float64 := f64_div (f64_of_Z n) (f64_of_Z d).

(** [int64(x)]: truncation toward zero; a value outside the range (or a NaN)
    gives the minimal integer, as the amd64 conversion instruction does. *)
Definition f64_trunc (x : float64) : option Z :=
  match x with
  | S754_zero _ => Some 0
  | S754_finite s m e =>
      let v := if 0 <=? e then Zpos m * 2 ^ e else Zpos m / 2 ^ (- e) in
      Some (if s then - v else v)
  | _ => None
  end.

Definition i64_of_f64 (x : float64) : Z :=
  match f64_trunc x with
  | Some v => if (- 2 ^ 63 <=? v) && (v <? 2 ^ 63) then v else min_i64
  | None => min_i64
  end.

Lemma i64_of_f64_range x : - 2 ^ 63 ≤ i64_of_f64 x < 2 ^ 63.
Proof.
  unfold i64_of_f64, min_i64. destruct (f64_trunc x) as [v|]; [|lia].
  destruct (Z.leb_spec (- 2 ^ 63) v), (Z.ltb_spec v (2 ^ 63)); simpl; lia.
Qed.

(** ** Comparison as an order on integers *)

(** Class, exponent and mantissa, signed, so that [<] on floats is lexicographic. *)
Definition f64_rank (x : float64) : option (Z * Z * Z) :=
  match x with
  | S754_zero _ => Some (0, 0, 0)
  | S754_infinity s => Some (if s then -2 else 2, 0, 0)
  | S754_nan => None
  | S754_finite false m e => Some (1, e, Zpos m)
  | S754_finite true m e => Some (-1, - e, Zneg m)
  end.

Definition rank_lt (a b : Z * Z * Z) : Prop :=
  a.1.1 < b.1.1 ∨ a.1.1 = b.1.1 ∧ (a.1.2 < b.1.2 ∨ a.1.2 = b.1.2 ∧ a.2 < b.2).

Lemma f64_ltb_rank x y :
  f64_ltb x y = true ↔
  match f64_rank x, f64_rank y with Some a, Some b => rank_lt a b | _, _ => False end.
Proof.
  unfold f64_ltb, SFltb, rank_lt.
  destruct x as [[]|[]| |[] m e], y as [[]|[]| |[] m' e']; simpl; try (split; [done|lia]);
    try (split; [lia|done]); try (split; lia).
  - destruct (Z.compare_spec e e') as [<-|He|He].
    + change (Pos.compare_cont Eq m m') with (Pos.compare m m');
      destruct (Pos.compare_spec m m') as [<-|Hm|Hm]; simpl; split; try done; lia.
    + simpl; split; try done; lia.
    + simpl; split; try done; lia.
  - destruct (Z.compare_spec e e') as [<-|He|He].
    + change (Pos.compare_cont Eq m m') with (Pos.compare m m');
      destruct (Pos.compare_spec m m') as [<-|Hm|Hm]; simpl; split; try done; lia.
    + simpl; split; try done; lia.
    + simpl; split; try done; lia.
Qed.

Lemma rank_lt_trans a b c : rank_lt a b → rank_lt b c → rank_lt a c.
Proof. unfold rank_lt. lia. Qed.

Lemma rank_lt_irrefl a : ¬ rank_lt a a.
Proof. unfold rank_lt. lia. Qed.

Lemma f64_ltb_trans x y z : f64_ltb x y = true → f64_ltb y z = true → f64_ltb x z = true.
Proof.
  rewrite !f64_ltb_rank. destruct (f64_rank x), (f64_rank y), (f64_rank z); try done.
  apply rank_lt_trans.
Qed.

Lemma f64_ltb_irrefl x : f64_ltb x x = false.
Proof.
  destruct (f64_ltb x x) eqn:E; [|done]. apply f64_ltb_rank in E.
  destruct (f64_rank x); [|done]. by apply rank_lt_irrefl in E.
Qed.

Lemma f64_leb_rank x y :
  f64_leb x y = true ↔
  match f64_rank x, f64_rank y with Some a, Some b => ¬ rank_lt b a | _, _ => False end.
Proof.
  unfold f64_leb, SFleb, rank_lt.
  destruct x as [[]|[]| |[] m e], y as [[]|[]| |[] m' e']; simpl; try (split; [done|lia]);
    try (split; [lia|done]); try (split; lia).
  all: destruct (Z.compare_spec e e') as [<-|He|He]; [|simpl; split; try done; lia..];
    change (Pos.compare_cont Eq m m') with (Pos.compare m m');
    destruct (Pos.compare_spec m m') as [<-|Hm|Hm]; simpl; split; try done; lia.
Qed.

(** [a <= x] and [x < b] give [a < b]: the form in which two thresholds exclude
    each other. *)
Lemma f64_leb_ltb a x b : f64_leb a x = true → f64_ltb x b = true → f64_ltb a b = true.
Proof.
  rewrite f64_leb_rank, !f64_ltb_rank.
  destruct (f64_rank x), (f64_rank a), (f64_rank b); try done. unfold rank_lt. lia.
Qed.
