(* ===== verification/GoIO.v ===== *)
(** * Byte streams and encodings of the Go library

    A reader is the list of bytes it will still deliver before it fails; [ReadFull]
    takes a given number of them.  Big-endian integers ([encoding/binary]), [%04x]
    and base64 ([encoding/base64], standard alphabet with padding), each with its
    round trip. *)

From stdpp Require Import prelude strings list.
From Stdlib Require Import ZArith Ascii Lia.
From S2P Require Import Prelude GoStrings.

(** ** io.ReadFull *)

(** On failure the bytes that did arrive are in the buffer. *)
Definition ReadFull (n : nat) (r : bytes) : result bytes (bytes * bytes) :=
  if (n <=? length r)%nat then Ok (take n r, drop n r) else Err r.

Lemma ReadFull_app n l r : n = length l → ReadFull n (l ++ r) = Ok (l, r).
Proof.
  intros ->. unfold ReadFull.
  destruct (Nat.leb_spec (length l) (length (l ++ r))) as [_|H]; [|rewrite length_app in H; lia].
  by rewrite take_app_length, drop_app_length.
Qed.

Lemma ReadFull_ok n r a b : ReadFull n r = Ok (a, b) → r = a ++ b ∧ length a = n.
Proof.
  unfold ReadFull. destruct (Nat.leb_spec n (length r)); [|done]. intros H'; simplify_eq.
  by rewrite take_drop, length_take_le.
Qed.

(** ** Big-endian integers *)

Fixpoint put_be (n : nat) (z : Z) : bytes :=
  match n with O => [] | S n' => byte_of (Z.shiftr z (8 * Z.of_nat n')) :: put_be n' z end.

Definition get_be (l : bytes) : Z := fold_left (λ acc c, acc * 256 + byte_val c) l 0.

Lemma length_put_be n z : length (put_be n z) = n.
Proof. induction n; simpl; congruence. Qed.

Lemma fold_be_put n z acc :
  0 ≤ z →
  fold_left (λ acc c, acc * 256 + byte_val c) (put_be n z) acc =
  acc * 256 ^ Z.of_nat n + z mod 256 ^ Z.of_nat n.
Proof.
  intros Hz. revert acc. induction n as [|n IH]; intros acc; cbn [put_be fold_left].
  { change (256 ^ Z.of_nat 0) with 1. rewrite Z.mod_1_r. lia. }
  rewrite IH, byte_val_of, Z.shiftr_div_pow2 by lia.
  assert (H256 : 2 ^ (8 * Z.of_nat n) = 256 ^ Z.of_nat n).
  { rewrite Z.pow_mul_r by lia. done. }
  rewrite H256. replace (Z.of_nat (S n)) with (Z.succ (Z.of_nat n)) by lia.
  rewrite Z.pow_succ_r by lia.
  assert (0 < 256 ^ Z.of_nat n) by (apply Z.pow_pos_nonneg; lia).
  rewrite (Z.mul_comm 256 (256 ^ Z.of_nat n)), (Z.rem_mul_r z) by lia. nia.
Qed.

Lemma get_put_be n z : 0 ≤ z < 256 ^ Z.of_nat n → get_be (put_be n z) = z.
Proof. intros H. unfold get_be. rewrite fold_be_put, Z.mod_small by lia. lia. Qed.

(** [binary.BigEndian.PutUint32] and [Uint32]. *)
Definition PutUint32 (z : Z) : bytes := put_be 4 (u32 z).
Definition Uint32 (l : bytes) : Z := get_be l.

Lemma Uint32_Put z : Uint32 (PutUint32 z) = u32 z.
Proof. apply get_put_be. unfold wrap_u. change (256 ^ Z.of_nat 4) with (2 ^ 32). apply Z.mod_pos_bound. lia. Qed.

Lemma length_PutUint32 z : length (PutUint32 z) = 4%nat.
Proof. apply length_put_be. Qed.

(** ** Hexadecimal *)

(** A check of finitely many digits, by evaluation. *)
Lemma digits_forall (f : Z → bool) n d :
  forallb f (seqZ 0 n) = true → 0 ≤ d < n → f d = true.
Proof. rewrite forallb_forall. intros H Hd. apply H, list_elem_of_In, elem_of_seqZ. lia. Qed.

Definition hex_digit (d : Z) : ascii := byte_of (if d <? 10 then d + 48 else d + 87).
Definition hex_val (c : ascii) : option Z :=
  let n := byte_val c in
  if (48 <=? n) && (n <=? 57) then Some (n - 48)
  else if (97 <=? n) && (n <=? 102) then Some (n - 97 + 10)
  else if (65 <=? n) && (n <=? 70) then Some (n - 65 + 10)
  else None.

Lemma hex_val_digit d : 0 ≤ d < 16 → hex_val (hex_digit d) = Some d.
Proof.
  intros Hd. pose proof (digits_forall (λ d, bool_decide (hex_val (hex_digit d) = Some d)) 16 d eq_refl Hd) as H.
  by apply bool_decide_eq_true in H.
Qed.

Lemma hex_val_range c d : hex_val c = Some d → 0 ≤ d < 16.
Proof. unfold hex_val. intros H. split_matches; reflect_bools; lia. Qed.

(** [hex.DecodeString] *)
Fixpoint hex_decode (l : bytes) : option bytes :=
  match l with
  | [] => Some []
  | a :: b :: l =>
      match hex_val a, hex_val b with
      | Some x, Some y => (byte_of (16 * x + y) ::.) <$> hex_decode l
      | _, _ => None
      end
  | _ => None
  end.

Fixpoint hex_encode (l : bytes) : bytes :=
  match l with
  | [] => []
  | c :: l => hex_digit (byte_val c / 16) :: hex_digit (byte_val c mod 16) :: hex_encode l
  end.

Lemma hex_decode_encode l : hex_decode (hex_encode l) = Some l.
Proof.
  induction l as [|c l IH]; [done|]. simpl.
  pose proof (byte_val_range c). rewrite !hex_val_digit by (try apply Z.mod_pos_bound; try split; try apply Z.div_pos; try apply Z.div_lt_upper_bound; lia).
  rewrite IH. simpl. f_equal. f_equal. rewrite <- Z.div_mod by lia. apply byte_of_val.
Qed.

(** [fmt.Sprintf "%04x"] for values below 65536. *)
Definition Sprintf_04x (z : Z) : bytes :=
  hex_digit <$> [z / 4096 mod 16; z / 256 mod 16; z / 16 mod 16; z mod 16].

(** ** base64.StdEncoding *)

Definition b64_char (d : Z) : ascii :=
  byte_of (if d <? 26 then d + 65 else if d <? 52 then d + 71 else if d <? 62 then d - 4
           else if d =? 62 then 43 else 47).
Definition b64_val (c : ascii) : option Z :=
  let n := byte_val c in
  if (65 <=? n) && (n <=? 90) then Some (n - 65)
  else if (97 <=? n) && (n <=? 122) then Some (n - 71)
  else if (48 <=? n) && (n <=? 57) then Some (n + 4)
  else if n =? 43 then Some 62 else if n =? 47 then Some 63 else None.

Lemma b64_val_char d : 0 ≤ d < 64 → b64_val (b64_char d) = Some d.
Proof.
  intros Hd. pose proof (digits_forall (λ d, bool_decide (b64_val (b64_char d) = Some d)) 64 d eq_refl Hd) as H.
  by apply bool_decide_eq_true in H.
Qed.

Fixpoint b64_encode (l : bytes) : bytes :=
  match l with
  | a :: b :: c :: l =>
      let n := byte_val a * 65536 + byte_val b * 256 + byte_val c in
      (b64_char <$> [n / 262144; n / 4096 mod 64; n / 64 mod 64; n mod 64]) ++ b64_encode l
  | [a; b] => let n := byte_val a * 1024 + byte_val b * 4 in
              (b64_char <$> [n / 4096; n / 64 mod 64; n mod 64]) ++ ["="%char]
  | [a] => let n := byte_val a * 16 in (b64_char <$> [n / 64; n mod 64]) ++ ["="%char; "="%char]
  | [] => []
  end.

(** Groups of four; padding only closes the last one.  The bits left over in a padded
    group are ignored. *)
Fixpoint b64_groups (l : bytes) : option bytes :=
  match l with
  | [] => Some []
  | a :: b :: c :: d :: l =>
      match b64_val a, b64_val b, b64_val c, b64_val d with
      | Some x, Some y, Some z, Some w =>
          let n := x * 262144 + y * 4096 + z * 64 + w in
          app [byte_of (n / 65536); byte_of (n / 256); byte_of n] <$> b64_groups l
      | Some x, Some y, Some z, None =>
          if bool_decide (d = "="%char ∧ l = []) then
            let n := x * 4096 + y * 64 + z in Some [byte_of (n / 1024); byte_of (n / 4)]
          else None
      | Some x, Some y, None, None =>
          if bool_decide (c = "="%char ∧ d = "="%char ∧ l = [])
          then Some [byte_of ((x * 64 + y) / 16)] else None
      | _, _, _, _ => None
      end
  | _ => None
  end.

(** Line breaks are skipped. *)
Definition not_newline (c : ascii) : bool := negb ((byte_val c =? 10) || (byte_val c =? 13)).
Definition b64_decode (l : bytes) : option bytes := b64_groups (List.filter not_newline l).

Definition EncodeToString (s : string) : string := of_chars (b64_encode (chars s)).
Definition DecodeString (s : string) : option string := of_chars <$> b64_decode (chars s).

Lemma b64_char_not_newline d : 0 ≤ d < 64 → not_newline (b64_char d) = true.
Proof. apply (digits_forall (λ d, not_newline (b64_char d))). by vm_compute. Qed.

Ltac divmod_lia := Z.to_euclidean_division_equations; lia.

(** Induction three bytes at a time. *)
Lemma bytes_ind3 (P : bytes → Prop) :
  P [] → (∀ a, P [a]) → (∀ a b, P [a; b]) → (∀ a b c l, P l → P (a :: b :: c :: l)) → ∀ l, P l.
Proof.
  intros H0 H1 H2 H3 l. revert l. fix IH 1. intros [|a [|b [|c l]]]; [done|done|done|]. apply H3, IH.
Qed.

Lemma b64_encode_no_newline l : List.filter not_newline (b64_encode l) = b64_encode l.
Proof.
  induction l as [|a|a b|a b c l IH] using bytes_ind3; [done|..]; cbn [b64_encode fmap list_fmap app];
    pose proof (byte_val_range a); try pose proof (byte_val_range b); try pose proof (byte_val_range c);
    cbn [List.filter]; rewrite !b64_char_not_newline by divmod_lia; [done|done|by rewrite IH].
Qed.

Lemma byte_of_eq z a : z mod 256 = byte_val a → byte_of z = a.
Proof. intros H. apply byte_val_inj. by rewrite byte_val_of. Qed.

Lemma b64_groups_encode l : b64_groups (b64_encode l) = Some l.
Proof.
  induction l as [|a|a b|a b c l IH] using bytes_ind3; [done|..]; cbn [b64_encode fmap list_fmap app];
    pose proof (byte_val_range a); try pose proof (byte_val_range b); try pose proof (byte_val_range c);
    cbn [b64_groups]; rewrite !b64_val_char by divmod_lia;
    try (change (b64_val "="%char) with (@None Z); cbv iota beta zeta; rewrite bool_decide_true by done).
  - rewrite (byte_of_eq _ a) by divmod_lia. done.
  - rewrite (byte_of_eq _ a), (byte_of_eq _ b) by divmod_lia. done.
  - rewrite IH, (byte_of_eq _ a), (byte_of_eq _ b), (byte_of_eq _ c) by divmod_lia. done.
Qed.

Lemma DecodeString_Encode s : DecodeString (EncodeToString s) = Some s.
Proof.
  unfold DecodeString, EncodeToString, b64_decode.
  rewrite chars_of_chars, b64_encode_no_newline, b64_groups_encode. simpl. by rewrite of_chars_chars.
Qed.

Example base64_hello : EncodeToString "user:pass" = "dXNlcjpwYXNz"%string.
Proof. reflexivity. Qed.
Example base64_padded : DecodeString "eDp5eg==" = Some "x:yz"%string.
Proof. reflexivity. Qed.
Example base64_bad_padding : DecodeString "eDp5eg=" = None.
Proof. reflexivity. Qed.
