(* ===== verification/GoPath.v ===== *)
(** * Go's [path.Match] and [path.Clean]

    [Match] follows the library's algorithm: the pattern is scanned chunk by chunk, a
    star skipping to the first place where the next chunk matches; a malformed
    pattern is an error even after the text has failed to match.  [Clean] is
    described by its effect on the slash-separated elements. *)

From stdpp Require Import prelude strings list.
From Stdlib Require Import ZArith Ascii Lia.
From S2P Require Import Prelude GoStrings.

(** ** utf8.DecodeRuneInString *)

Definition RuneError : Z := 0xfffd.

Definition cont_byte (lo hi : Z) (c : ascii) : option Z :=
  let n := byte_val c in if (lo <=? n) && (n <=? hi) then Some (n - 128) else None.

(** The rune and the number of bytes it takes; an invalid sequence is [RuneError] of
    width one. *)
Definition DecodeRune (l : bytes) : Z * nat :=
  match l with
  | [] => (RuneError, 0%nat)
  | a :: l =>
      let n := byte_val a in
      if n <? 128 then (n, 1%nat)
      else if (194 <=? n) && (n <=? 223) then
        match l with
        | b :: _ => match cont_byte 128 191 b with
                    | Some x => ((n - 192) * 64 + x, 2%nat) | None => (RuneError, 1%nat) end
        | _ => (RuneError, 1%nat)
        end
      else if (224 <=? n) && (n <=? 239) then
        match l with
        | b :: c :: _ =>
            match cont_byte (if n =? 224 then 160 else 128) (if n =? 237 then 159 else 191) b,
                  cont_byte 128 191 c with
            | Some x, Some y => ((n - 224) * 4096 + x * 64 + y, 3%nat)
            | _, _ => (RuneError, 1%nat)
            end
        | _ => (RuneError, 1%nat)
        end
      else if (240 <=? n) && (n <=? 244) then
        match l with
        | b :: c :: d :: _ =>
            match cont_byte (if n =? 240 then 144 else 128) (if n =? 244 then 143 else 191) b,
                  cont_byte 128 191 c, cont_byte 128 191 d with
            | Some x, Some y, Some z => ((n - 240) * 262144 + x * 4096 + y * 64 + z, 4%nat)
            | _, _, _ => (RuneError, 1%nat)
            end
        | _ => (RuneError, 1%nat)
        end
      else (RuneError, 1%nat)
  end.

(** ** path.Match *)

Definition is_char (c : ascii) (l : bytes) : bool :=
  match l with d :: _ => bool_decide (d = c) | [] => false end.

(** [getEsc]: one possibly escaped character of a class; [None] for ErrBadPattern. *)
Definition getEsc (chunk : bytes) : option (Z * bytes) :=
  if bool_decide (chunk = []) || is_char "-"%char chunk || is_char "]"%char chunk then None
  else
    let chunk := if is_char "\"%char chunk then drop 1 chunk else chunk in
    if bool_decide (chunk = []) then None
    else
      let '(r, n) := DecodeRune chunk in
      let nchunk := drop n chunk in
      if (r =? RuneError) && (n =? 1)%nat || bool_decide (nchunk = []) then None
      else Some (r, nchunk).

(** The loop over the ranges of a class.  Each turn consumes at least one byte, so the
    length of the chunk is enough fuel. *)
Fixpoint class_ranges (fuel : nat) (chunk : bytes) (r : Z) (first matched : bool)
    : option (bool * bytes) :=
  match fuel with
  | O => None
  | S fuel =>
      if is_char "]"%char chunk && negb first then Some (matched, drop 1 chunk)
      else
        match getEsc chunk with
        | None => None
        | Some (lo, chunk) =>
            match (if is_char "-"%char chunk then getEsc (drop 1 chunk) else Some (lo, chunk)) with
            | None => None
            | Some (hi, chunk) =>
                class_ranges fuel chunk r false (matched || ((lo <=? r) && (r <=? hi)))
            end
        end
  end.

(** [matchChunk].  [s] is [None] once the match has failed: the rest of the chunk is
    only checked.  The result is [None] for ErrBadPattern, [Some None] for no match.
    Each turn consumes at least one byte of the chunk. *)
Fixpoint matchChunk (fuel : nat) (chunk : bytes) (s : option bytes) : option (option bytes) :=
  match chunk, fuel with
  | [], _ => Some s
  | _, O => None
  | c :: chunk', S fuel =>
      let s := match s with Some [] => None | _ => s end in
      if bool_decide (c = "["%char) then
        let r := match s with Some s => (DecodeRune s).1 | None => 0 end in
        let s := (λ s, drop (DecodeRune s).2 s) <$> s in
        let negated := is_char "^"%char chunk' in
        let body := if negated then drop 1 chunk' else chunk' in
        match class_ranges (S (length body)) body r true false with
        | None => None
        | Some (m, chunk') =>
            matchChunk fuel chunk' (if Bool.eqb m negated then None else s)
        end
      else if bool_decide (c = "?"%char) then
        let s := match s with
                 | Some s => if is_char "/"%char s then None else Some (drop (DecodeRune s).2 s)
                 | None => None
                 end in
        matchChunk fuel chunk' s
      else
        let lit := if bool_decide (c = "\"%char)
                   then match chunk' with [] => None | d :: chunk' => Some (d, chunk') end
                   else Some (c, chunk') in
        match lit with
        | None => None
        | Some (d, chunk') =>
            let s := match s with
                     | Some (e :: s) => if bool_decide (d = e) then Some s else None
                     | _ => None
                     end in
            matchChunk fuel chunk' s
        end
  end.

Definition match_chunk (chunk s : bytes) : option (option bytes) :=
  matchChunk (length chunk) chunk (Some s).

(** [scanChunk] after its stars: the bytes up to the next star outside a class. *)
Fixpoint scan_lit (l : bytes) (inrange : bool) : bytes * bytes :=
  match l with
  | [] => ([], [])
  | c :: l' =>
      if bool_decide (c = "\"%char) then
        match l' with
        | d :: l'' => let '(a, b) := scan_lit l'' inrange in (c :: d :: a, b)
        | [] => ([c], [])
        end
      else if bool_decide (c = "*"%char) && negb inrange then ([], l)
      else
        let inrange := if bool_decide (c = "["%char) then true
                       else if bool_decide (c = "]"%char) then false else inrange in
        let '(a, b) := scan_lit l' inrange in (c :: a, b)
  end.

Definition scanChunk (pattern : bytes) : bool * bytes * bytes :=
  let rest := drop_while (λ c, bool_decide (c = "*"%char)) pattern in
  let '(chunk, pattern') := scan_lit rest false in
  (is_char "*"%char pattern, chunk, pattern').

(** The loop of a star: drop bytes other than a slash until the chunk matches, at the
    end of the text if it is the last.  [None] for a bad pattern. *)
Fixpoint star_loop (chunk : bytes) (last : bool) (name : bytes) : option (option bytes) :=
  match name with
  | [] => Some None
  | c :: name' =>
      if bool_decide (c = "/"%char) then Some None
      else match match_chunk chunk name' with
           | None => None
           | Some (Some t) => if last && negb (bool_decide (t = [])) then star_loop chunk last name'
                              else Some (Some t)
           | Some None => star_loop chunk last name'
           end
  end.

(** Whether the rest of a pattern is well formed.  Each turn consumes a star or a
    nonempty chunk. *)
Fixpoint pattern_ok (fuel : nat) (pattern : bytes) : bool :=
  match pattern, fuel with
  | [], _ => true
  | _, O => false
  | _, S fuel =>
      let '(_, chunk, pattern) := scanChunk pattern in
      match match_chunk chunk [] with None => false | Some _ => pattern_ok fuel pattern end
  end.

Fixpoint match_loop (fuel : nat) (pattern name : bytes) : option bool :=
  match pattern, fuel with
  | [], _ => Some (bool_decide (name = []))
  | _, O => None
  | _, S fuel =>
      let '(star, chunk, pattern) := scanChunk pattern in
      if star && bool_decide (chunk = []) then Some (negb (bool_decide ("/"%char ∈ name)))
      else
        let last := bool_decide (pattern = []) in
        let fail := if pattern_ok (length pattern) pattern then Some false else None in
        let after_here :=
          if star : bool then
            match star_loop chunk last name with
            | None => None
            | Some (Some t) => match_loop fuel pattern t
            | Some None => fail
            end
          else fail in
        match match_chunk chunk name with
        | Some (Some t) => if bool_decide (t = []) || negb last then match_loop fuel pattern t
                           else after_here
        | None => None
        | Some None => after_here
        end
  end.

(** [path.Match]: [None] for ErrBadPattern. *)
Definition path_Match (pattern name : string) : option bool :=
  match_loop (length (chars pattern)) (chars pattern) (chars name).

Example Match_star : path_Match "refs/heads/nexus/*" "refs/heads/nexus/foo" = Some true.
Proof. reflexivity. Qed.
Example Match_star_slash : path_Match "refs/heads/nexus/*" "refs/heads/nexus/foo/bar" = Some false.
Proof. reflexivity. Qed.
Example Match_class : path_Match "v[0-9].?\*x*y" "v3.a*xzzy" = Some true.
Proof. reflexivity. Qed.
Example Match_backtrack : path_Match "a*b*c" "axbybzc" = Some true.
Proof. reflexivity. Qed.
Example Match_bad : path_Match "a[" "b" = None.
Proof. reflexivity. Qed.

(** A pattern without metacharacters matches itself only. *)
Definition literal (l : bytes) : Prop := Forall (λ c, c ∉ ["*"; "?"; "["; "\"]%char) l.

Lemma literal_cons c l :
  literal (c :: l) → c ≠ "*"%char ∧ c ≠ "?"%char ∧ c ≠ "["%char ∧ c ≠ "\"%char ∧ literal l.
Proof.
  intros [H Hl]%Forall_cons. rewrite !not_elem_of_cons in H. naive_solver.
Qed.

Lemma scan_lit_literal l b : literal l → scan_lit l b = (l, []).
Proof.
  revert b. induction l as [|c l IH]; intros b Hl; [done|].
  apply literal_cons in Hl as (Hs & _ & _ & He & Hl). cbn [scan_lit].
  rewrite bool_decide_false, (bool_decide_false (c = "*"%char)) by done. cbn [andb].
  by rewrite IH.
Qed.

Lemma matchChunk_literal fuel l s :
  literal l → (length l ≤ fuel)%nat →
  matchChunk fuel l s = Some (match l, s with [], _ => s | _, Some s => strip_prefix l s | _, None => None end).
Proof.
  revert l s. induction fuel as [|fuel IH]; intros [|c l] s Hl Hf; try done; [simpl in Hf; lia|].
  simpl in Hf. apply literal_cons in Hl as (_ & Hq & Hb & He & Hl). cbn [matchChunk].
  rewrite !bool_decide_false by done. rewrite IH by (done || lia).
  destruct s as [[|e s]|]; [by destruct l| |by destruct l].
  cbn [strip_prefix]. case_bool_decide as H.
  - subst. destruct l; cbn; by rewrite ?decide_True.
  - destruct l; cbn; by rewrite ?decide_False.
Qed.

Lemma path_Match_literal p name :
  literal (chars p) → path_Match p name = Some (bool_decide (p = name)).
Proof.
  intros Hl. unfold path_Match. destruct (chars p) as [|c l] eqn:Hp.
  { apply (f_equal of_chars) in Hp. rewrite of_chars_chars in Hp. subst p. cbn [match_loop length].
    f_equal. apply bool_decide_ext. split; intros H.
    - apply chars_inj. by rewrite H.
    - by subst name. }
  cbn [length match_loop]. unfold scanChunk.
  pose proof Hl as Hl'. apply literal_cons in Hl' as (Hs & _).
  cbn [drop_while]. rewrite bool_decide_false by done. rewrite scan_lit_literal by done.
  cbn [is_char]. rewrite bool_decide_false by done. cbn [andb].
  unfold match_chunk. rewrite matchChunk_literal by done. cbn [pattern_ok length].
  destruct (strip_prefix (c :: l) (chars name)) as [t|] eqn:Ht.
  - apply strip_prefix_Some in Ht. rewrite (bool_decide_true ([] = [])) by done.
    rewrite orb_false_r. case_bool_decide as Ht'.
    + subst t. rewrite app_nil_r in Ht. rewrite bool_decide_true; [by destruct l|].
      apply chars_inj. congruence.
    + rewrite bool_decide_false; [done|]. intros ->. rewrite Hp in Ht.
      rewrite <- (app_nil_r (c :: l)) in Ht at 1. by apply (app_inv_head (c :: l)) in Ht.
  - rewrite bool_decide_false; [done|]. intros ->. rewrite Hp in Ht.
    assert (strip_prefix (c :: l) (c :: l) = Some []) by (apply strip_prefix_Some; by rewrite app_nil_r).
    congruence.
Qed.

(** ** path.Clean *)

(** One element against the stack of those kept, the last kept first.  In a rooted
    path a dot-dot at the root is dropped, in a relative one it is kept. *)
Definition clean_step (rooted : bool) (stack : list string) (e : string) : list string :=
  if String.eqb e "" || String.eqb e "." then stack
  else if String.eqb e ".." then
    match stack with
    | top :: rest => if String.eqb top ".." then e :: stack else rest
    | [] => if rooted then [] else [e]
    end
  else e :: stack.

Definition path_Clean (p : string) : string :=
  let rooted := HasPrefix p "/" in
  let kept := reverse (fold_left (clean_step rooted) (Split p "/"%char) []) in
  if rooted then "/" +:+ String.concat "/" kept
  else match kept with [] => "."%string | _ => String.concat "/" kept end.

Example Clean_dots : path_Clean "/a/./b/../../c/" = "/c"%string.
Proof. reflexivity. Qed.
Example Clean_root : path_Clean "/../x//y" = "/x/y"%string.
Proof. reflexivity. Qed.
Example Clean_relative : path_Clean "../a/../../b" = "../../b"%string.
Proof. reflexivity. Qed.

(** An element a cleaned rooted path may have. *)
Definition plain_segment (e : string) : Prop :=
  e ≠ ""%string ∧ e ≠ "."%string ∧ e ≠ ".."%string ∧ "/"%char ∉ chars e.


(** *** Splitting and joining *)

Fixpoint join_bytes (c : ascii) (ls : list bytes) : bytes :=
  match ls with [] => [] | [l] => l | l :: ls => l ++ c :: join_bytes c ls end.

Lemma chars_concat ss : chars (String.concat "/" ss) = join_bytes "/"%char (chars <$> ss).
Proof.
  induction ss as [|s [|t ss] IH]; [done|done|].
  change (String.concat "/" (s :: t :: ss)) with (s +:+ "/" +:+ String.concat "/" (t :: ss)).
  rewrite !chars_app, IH. done.
Qed.

Lemma split_n_join c ls n :
  Forall (λ l, c ∉ l) ls → ls ≠ [] → (length ls ≤ n)%nat → split_n n c (join_bytes c ls) = ls.
Proof.
  revert n. induction ls as [|l [|k ls] IH]; intros n Hall Hne Hn; [done|..].
  - apply Forall_inv in Hall. destruct n as [|[|n]]; [simpl in Hn; lia|done|].
    cbn [join_bytes split_n]. by rewrite (break_at_notin c l Hall).
  - apply Forall_cons in Hall as [Hl Hall]. destruct n as [|[|n]]; [simpl in Hn; lia..|].
    change (join_bytes c (l :: k :: ls)) with (l ++ c :: join_bytes c (k :: ls)).
    change (split_n (S (S n)) c (l ++ c :: join_bytes c (k :: ls))) with
      (match break_at c (l ++ c :: join_bytes c (k :: ls)) with
       | Some (a, b) => a :: split_n (S n) c b | None => [l ++ c :: join_bytes c (k :: ls)] end).
    rewrite break_at_app by done. f_equal. apply IH; [done..|]. simpl in *. lia.
Qed.

Lemma split_n_notin c n l : (length l < n)%nat → Forall (λ k, c ∉ k) (split_n n c l).
Proof.
  revert l. induction n as [|n IH]; intros l Hn; [lia|]. destruct n as [|n].
  { destruct l; [|simpl in Hn; lia]. apply Forall_singleton, not_elem_of_nil. }
  change (split_n (S (S n)) c l) with
    (match break_at c l with Some (a, b) => a :: split_n (S n) c b | None => [l] end).
  destruct (break_at c l) as [[a b]|] eqn:E.
  - apply break_at_Some in E as [-> Ha]. constructor; [done|]. apply IH.
    rewrite length_app in Hn. simpl in Hn. lia.
  - apply Forall_singleton. by apply break_at_None.
Qed.

Lemma length_join_bytes c ls : (length ls ≤ S (length (join_bytes c ls)))%nat.
Proof.
  induction ls as [|l [|k ls] IH]; [simpl; lia..|].
  change (join_bytes c (l :: k :: ls)) with (l ++ c :: join_bytes c (k :: ls)).
  rewrite length_app. simpl in *. lia.
Qed.

Lemma Split_concat ss :
  Forall (λ s, "/"%char ∉ chars s) ss → ss ≠ [] → Split (String.concat "/" ss) "/"%char = ss.
Proof.
  intros Hall Hne. unfold Split, SplitN. rewrite chars_concat, split_n_join.
  - rewrite <- list_fmap_compose. rewrite <- (list_fmap_id ss) at 2.
    apply list_fmap_ext. intros i s _. apply of_chars_chars.
  - by apply Forall_fmap.
  - by destruct ss.
  - pose proof (length_join_bytes "/"%char (chars <$> ss)). lia.
Qed.

Lemma Split_notin s : Forall (λ k, "/"%char ∉ chars k) (Split s "/"%char).
Proof.
  unfold Split, SplitN. apply Forall_fmap. eapply Forall_impl; [apply split_n_notin; lia|].
  intros l Hl. simpl. by rewrite chars_of_chars.
Qed.

Lemma Split_rooted ss :
  Forall (λ s, "/"%char ∉ chars s) ss → ss ≠ [] →
  Split ("/" +:+ String.concat "/" ss) "/"%char = ""%string :: ss.
Proof.
  intros Hall Hne. replace ("/" +:+ String.concat "/" ss) with (String.concat "/" ("" :: ss)%string).
  - apply Split_concat; [|done]. constructor; [apply not_elem_of_nil|done].
  - by destruct ss.
Qed.

Lemma join_split_n c n l : (0 < n)%nat → join_bytes c (split_n n c l) = l.
Proof.
  revert l. induction n as [|[|n] IH]; intros l Hn; [lia|done|].
  change (split_n (S (S n)) c l) with
    (match break_at c l with Some (a, b) => a :: split_n (S n) c b | None => [l] end).
  destruct (break_at c l) as [[a b]|] eqn:E; [|done].
  apply break_at_Some in E as [-> _]. specialize (IH b ltac:(lia)).
  destruct (split_n (S n) c b) as [|k ks] eqn:Eb.
  - exfalso. destruct n; [done|]. cbn [split_n] in Eb. by destruct (break_at c b) as [[]|].
  - change (join_bytes c (a :: k :: ks)) with (a ++ c :: join_bytes c (k :: ks)). by rewrite IH.
Qed.

Lemma concat_Split s : String.concat "/" (Split s "/"%char) = s.
Proof.
  apply chars_inj. rewrite chars_concat. unfold Split, SplitN. rewrite <- list_fmap_compose.
  erewrite (list_fmap_ext _ id).
  - rewrite list_fmap_id, join_split_n by lia. done.
  - intros i x _. apply chars_of_chars.
Qed.

(** *** Fixed points of Clean *)

Lemma clean_step_plain stack e :
  Forall plain_segment stack → "/"%char ∉ chars e → Forall plain_segment (clean_step true stack e).
Proof.
  intros Hs He. unfold clean_step.
  destruct (String.eqb_spec e ""); [done|]. destruct (String.eqb_spec e "."); [done|]. cbn [orb].
  destruct (String.eqb_spec e ".."); [|by constructor].
  destruct stack as [|top rest]; [done|]. apply Forall_cons in Hs as [(_ & _ & Ht & _) Hs].
  by destruct (String.eqb_spec top "..").
Qed.

Lemma clean_fold_plain l stack :
  Forall plain_segment stack → Forall (λ s, "/"%char ∉ chars s) l →
  Forall plain_segment (fold_left (clean_step true) l stack).
Proof.
  revert stack. induction l as [|e l IH]; intros stack Hs Hl; [done|].
  apply Forall_cons in Hl as [He Hl]. apply IH; [by apply clean_step_plain|done].
Qed.

Lemma clean_fold_id rooted l stack :
  Forall plain_segment l → fold_left (clean_step rooted) l stack = reverse l ++ stack.
Proof.
  revert stack. induction l as [|e l IH]; intros stack Hl; [done|].
  apply Forall_cons in Hl as [(H1 & H2 & H3 & _) Hl]. cbn [fold_left].
  rewrite IH by done. rewrite reverse_cons, <- app_assoc. f_equal. unfold clean_step.
  destruct (String.eqb_spec e ""), (String.eqb_spec e "."), (String.eqb_spec e ".."); done.
Qed.

Lemma HasPrefix_app p r : HasPrefix (p +:+ r) p = true.
Proof. apply HasPrefix_true. eauto. Qed.

(** A rooted path is its own cleaning exactly if it is a list of plain segments: no
    empty one, no dot, no dot-dot. *)
Lemma Clean_rooted_fixed p :
  HasPrefix p "/" = true →
  path_Clean p = p ↔ ∃ segs, Forall plain_segment segs ∧ p = "/" +:+ String.concat "/" segs.
Proof.
  intros Hp. unfold path_Clean. rewrite Hp. split.
  - intros Heq. eexists. split; [|by rewrite Heq].
    apply Forall_reverse. apply clean_fold_plain; [done|]. apply Split_notin.
  - intros (segs & Hsegs & ->). destruct segs as [|s segs]; [done|].
    rewrite Split_rooted; [|by eapply Forall_impl; [exact Hsegs|]; intros x (_ & _ & _ & Hx)|done].
    change (fold_left (clean_step true) (""%string :: s :: segs) [])
      with (fold_left (clean_step true) (s :: segs) []).
    rewrite clean_fold_id by done. rewrite app_nil_r, reverse_involutive. done.
Qed.
