(* ===== verification/GoNet.v ===== *)
(** * Go's [net/netip] and [net.SplitHostPort], as far as the perimeter uses them

    An address is the invalid zero value, an IPv4 address (32-bit integer) or an IPv6
    address (128-bit integer with a zone).  [ParseAddr], [ParsePrefix], [Unmap],
    [Contains] and [SplitHostPort] follow the library's algorithms; every parse
    error is [None], since the callers branch only on success. *)

From stdpp Require Import prelude countable strings list pretty.
From Stdlib Require Import ZArith Ascii Lia.
From S2P Require Import Prelude GoStrings GoIO.

Inductive Addr :=
| AddrInvalid
| AddrV4 (v : Z)
| AddrV6 (v : Z) (zone : string).

#[global] Instance Addr_eq_dec : EqDecision Addr.
Proof. solve_decision. Defined.

#[global] Instance Addr_countable : Countable Addr.
Proof.
  refine (inj_countable'
    (λ a, match a with
          | AddrInvalid => inl (inl tt)
          | AddrV4 v => inl (inr v)
          | AddrV6 v z => inr (v, z)
          end)
    (λ x, match x with
          | inl (inl _) => AddrInvalid
          | inl (inr v) => AddrV4 v
          | inr (v, z) => AddrV6 v z
          end) _).
  by intros [].
Defined.

Definition is_4in6 (v : Z) : bool := Z.shiftr v 32 =? 0xffff.

(** [Addr.Unmap] drops the mapping prefix (and with it the zone). *)
Definition Unmap (a : Addr) : Addr :=
  match a with
  | AddrV6 v _ => if is_4in6 v then AddrV4 (Z.land v 0xffffffff) else a
  | _ => a
  end.

Definition BitLen (a : Addr) : Z :=
  match a with AddrInvalid => 0 | AddrV4 _ => 32 | AddrV6 _ _ => 128 end.

Lemma Unmap_idemp a : Unmap (Unmap a) = Unmap a.
Proof.
  destruct a as [| |v z]; [reflexivity..|]. cbn [Unmap]. destruct (is_4in6 v) eqn:E; [reflexivity|].
  cbn [Unmap]. by rewrite E.
Qed.

Lemma Unmap_not_mapped a v z : Unmap a = AddrV6 v z → is_4in6 v = false.
Proof.
  destruct a as [| |w y]; cbn [Unmap]; [discriminate..|].
  destruct (is_4in6 w) eqn:E; [discriminate|]. intros H. injection H as <- _. exact E.
Qed.

(** ** Parsing *)

Definition v4_field (l : bytes) : option Z :=
  match l with
  | [] => None
  | [c] => digit_val c
  | c :: _ => if byte_val c =? 48 then None
              else match digits_val l 0 with
                   | Some v => if 255 <? v then None else Some v
                   | None => None
                   end
  end.

(** Four decimal fields without leading zeros. *)
Definition parse_v4 (l : bytes) : option Z :=
  match split_n (S (S (length l))) "."%char l with
  | [a; b; c; d] =>
      match v4_field a, v4_field b, v4_field c, v4_field d with
      | Some a, Some b, Some c, Some d => Some (((a * 256 + b) * 256 + c) * 256 + d)
      | _, _, _, _ => None
      end
  | _ => None
  end.

(** The longest run of hex digits: its value, its length and the rest. *)
Fixpoint hex_run (l : bytes) (acc : Z) (off : nat) : Z * nat * bytes :=
  match l with
  | c :: l' => match hex_val c with
               | Some d => hex_run l' (acc * 16 + d) (S off)
               | None => (acc, off, l)
               end
  | [] => (acc, off, [])
  end.

(** The loop over colon-separated fields.  [gs] are the 16-bit groups read so far and
    [ell] the number of them before the ellipsis, if one was seen. *)
Fixpoint v6_loop (fuel : nat) (s : bytes) (gs : list Z) (ell : option nat)
    : option (list Z * option nat * bytes) :=
  match fuel with
  | O => Some (gs, ell, s)
  | S fuel =>
      if (8 <=? length gs)%nat then Some (gs, ell, s)
      else
        let '(acc, off, rest) := hex_run s 0 0 in
        if (off =? 0)%nat || (4 <? off)%nat then None
        else match rest with
        | c :: rest' =>
            if byte_val c =? 46 then
              if (bool_decide (ell = None) && negb (length gs =? 6)%nat) || (6 <? length gs)%nat
              then None
              else match parse_v4 s with
                   | Some v => Some (gs ++ [Z.shiftr v 16; Z.land v 0xffff], ell, [])
                   | None => None
                   end
            else
              let gs := gs ++ [acc] in
              if negb (byte_val c =? 58) then None
              else match rest' with
              | [] => None
              | d :: rest'' =>
                  if byte_val d =? 58 then
                    match ell with
                    | Some _ => None
                    | None => match rest'' with
                              | [] => Some (gs, Some (length gs), [])
                              | _ => v6_loop fuel rest'' gs (Some (length gs))
                              end
                    end
                  else v6_loop fuel rest' gs ell
              end
        | [] => Some (gs ++ [acc], ell, [])
        end
  end.

Definition groups_val (gs : list Z) : Z := fold_left (λ acc g, acc * 65536 + g) gs 0.

Definition parse_v6 (l : bytes) : option Addr :=
  let zoned := match break_at "%"%char l with
               | Some (s, []) => None
               | Some (s, z) => Some (s, of_chars z)
               | None => Some (l, ""%string)
               end in
  match zoned with
  | None => None
  | Some (s, zone) =>
      let '(s, ell) := match s with
                       | a :: b :: s' => if (byte_val a =? 58) && (byte_val b =? 58)
                                         then (s', Some 0%nat) else (s, None)
                       | _ => (s, None)
                       end in
      match s, ell with
      | [], Some _ => Some (AddrV6 0 zone)
      | _, _ =>
          match v6_loop 9 s [] ell with
          | Some (gs, ell, []) =>
              match ell with
              | None => if (length gs =? 8)%nat then Some (AddrV6 (groups_val gs) zone) else None
              | Some k =>
                  if (8 <=? length gs)%nat then None
                  else Some (AddrV6 (groups_val
                    (take k gs ++ replicate (8 - length gs)%nat 0 ++ drop k gs)) zone)
              end
          | _ => None
          end
      end
  end.

(** The first of dot, colon and percent decides. *)
Fixpoint addr_kind (l : bytes) : option bool :=
  match l with
  | [] => None
  | c :: l' => let n := byte_val c in
               if n =? 46 then Some true else if n =? 58 then Some false
               else if n =? 37 then None else addr_kind l'
  end.

Definition ParseAddr (s : string) : option Addr :=
  let l := chars s in
  match addr_kind l with
  | Some true => AddrV4 <$> parse_v4 l
  | Some false => parse_v6 l
  | None => None
  end.

Record Prefix := mkPrefix { pf_addr : Addr; pf_bits : Z }.

(** The part before and after the last occurrence of a byte. *)
Definition break_last (c : ascii) (l : bytes) : option (bytes * bytes) :=
  (λ ab, (reverse ab.2, reverse ab.1)) <$> break_at c (reverse l).

Definition ParsePrefix (s : string) : option Prefix :=
  match break_last "/"%char (chars s) with
  | None => None
  | Some (a, b) =>
      match ParseAddr (of_chars a) with
      | None => None
      | Some ip =>
          let zoned := match ip with AddrV6 _ z => negb (String.eqb z "") | _ => false end in
          if (zoned : bool) then None
          else
            let bad := match b with
                       | c :: _ :: _ => (byte_val c <? 49) || (57 <? byte_val c)
                       | _ => false
                       end in
            if (bad : bool) then None
            else match ParseInt (of_chars b) with
                 | Err _ => None
                 | Ok bits => if (bits <? 0) || (BitLen ip <? bits) then None
                              else Some (mkPrefix ip bits)
                 end
      end
  end.

(** [Prefix.Contains]: same family, no zone, equal leading bits. *)
Definition prefix_Contains (p : Prefix) (ip : Addr) : bool :=
  match pf_addr p, ip with
  | AddrV4 a, AddrV4 b => Z.shiftr (Z.lxor a b) (32 - pf_bits p) =? 0
  | AddrV6 a _, AddrV6 b z =>
      String.eqb z "" && (Z.shiftr (Z.lxor a b) (128 - pf_bits p) =? 0)
  | _, _ => false
  end.

(** [netip.AddrFromSlice]. *)
Definition bytes_val (l : bytes) : Z := fold_left (λ acc c, acc * 256 + byte_val c) l 0.

Definition AddrFromSlice (l : bytes) : option Addr :=
  if (length l =? 4)%nat then Some (AddrV4 (bytes_val l))
  else if (length l =? 16)%nat then Some (AddrV6 (bytes_val l) "")
  else None.

(** ** Printing *)

Definition v4_String (v : Z) : string :=
  pretty (Z.shiftr v 24) +:+ "." +:+ pretty (Z.land (Z.shiftr v 16) 255) +:+ "." +:+
  pretty (Z.land (Z.shiftr v 8) 255) +:+ "." +:+ pretty (Z.land v 255).

(** At most four digits, no leading zeros. *)
Definition hex_String (g : Z) : string :=
  of_chars (if g <? 16 then [hex_digit g]
            else if g <? 256 then [hex_digit (g / 16); hex_digit (g mod 16)]
            else if g <? 4096 then [hex_digit (g / 256); hex_digit (g / 16 mod 16); hex_digit (g mod 16)]
            else [hex_digit (g / 4096); hex_digit (g / 256 mod 16); hex_digit (g / 16 mod 16);
                  hex_digit (g mod 16)]).

Definition v6_groups (v : Z) : list Z :=
  (λ i, Z.land (Z.shiftr v (112 - 16 * Z.of_nat i)) 0xffff) <$> seq 0 8.

Fixpoint zero_run (gs : list Z) : nat :=
  match gs with g :: gs' => if g =? 0 then S (zero_run gs') else O | [] => O end.

(** The first longest run of at least two zero groups. *)
Fixpoint best_zero_run (gs : list Z) (i : nat) (best : option (nat * nat)) : option (nat * nat) :=
  match gs with
  | [] => best
  | _ :: gs' =>
      let l := zero_run gs in
      let best := if (2 <=? l)%nat && (match best with Some (_, n) => n <? l | None => true end)%nat
                  then Some (i, l) else best in
      best_zero_run gs' (S i) best
  end.

Definition v6_String (v : Z) : string :=
  let gs := v6_groups v in
  match best_zero_run gs 0 None with
  | None => String.concat ":" (hex_String <$> gs)
  | Some (i, n) => String.concat ":" (hex_String <$> take i gs) +:+ "::" +:+
                   String.concat ":" (hex_String <$> drop (i + n) gs)
  end.

Definition Addr_String (a : Addr) : string :=
  match a with
  | AddrInvalid => "invalid IP"
  | AddrV4 v => v4_String v
  | AddrV6 v z =>
      (if is_4in6 v then "::ffff:" +:+ v4_String (Z.land v 0xffffffff) else v6_String v) +:+
      (if String.eqb z "" then "" else "%" +:+ z)
  end.

(** ** host:port *)

Definition SplitHostPort (hostport : string) : option (string * string) :=
  let l := chars hostport in
  match break_last ":"%char l with
  | None => None
  | Some (before, port) =>
      match l with
      | c :: l' =>
          if byte_val c =? 91 then
            match break_at "]"%char l with
            | None => None
            | Some (h, after) =>
                (* the first ']' must sit just before the last ':' *)
                if negb (bool_decide (h ++ ["]"%char] = before)) then None
                else
                  let host := drop 1 h in
                  if bool_decide ("["%char ∈ l') then None
                  else if bool_decide ("]"%char ∈ after) then None
                  else Some (of_chars host, of_chars port)
            end
          else if bool_decide (":"%char ∈ before) then None
          else if bool_decide ("["%char ∈ l) then None
          else if bool_decide ("]"%char ∈ l) then None
          else Some (of_chars before, of_chars port)
      | [] => None
      end
  end.

Example ParseAddr_v4 : ParseAddr "10.1.2.3" = Some (AddrV4 167838211).
Proof. reflexivity. Qed.
Example ParseAddr_v4_leading_zero : ParseAddr "10.01.2.3" = None.
Proof. reflexivity. Qed.
Example ParseAddr_v6_ellipsis : ParseAddr "2001:db8::1" = Some (AddrV6 (0x20010db8 * 2 ^ 96 + 1) "").
Proof. reflexivity. Qed.
Example ParseAddr_mapped : Unmap <$> ParseAddr "::ffff:10.1.2.3" = Some (AddrV4 167838211).
Proof. reflexivity. Qed.
Example ParseAddr_double_ellipsis : ParseAddr "1::2::3" = None.
Proof. reflexivity. Qed.
Example Addr_String_v6 : Addr_String (AddrV6 (0x20010db8 * 2 ^ 96 + 1) "") = "2001:db8::1"%string.
Proof. reflexivity. Qed.
Example SplitHostPort_v6 : SplitHostPort "[::1]:443" = Some ("::1", "443")%string.
Proof. reflexivity. Qed.
Example SplitHostPort_bare_v6 : SplitHostPort "::1" = None.
Proof. reflexivity. Qed.

(** ** An address prints to a nonempty text *)

Lemma app_nonempty_l s t : s ≠ ""%string → s +:+ t ≠ ""%string.
Proof. by destruct s. Qed.

Lemma app_nonempty_r s t : t ≠ ""%string → s +:+ t ≠ ""%string.
Proof. by destruct s. Qed.

Lemma hex_String_nonempty g : hex_String g ≠ ""%string.
Proof. unfold hex_String. by repeat case_match. Qed.

Lemma v4_String_nonempty v : v4_String v ≠ ""%string.
Proof. unfold v4_String. by apply app_nonempty_r, app_nonempty_l. Qed.

Lemma v6_String_nonempty v : v6_String v ≠ ""%string.
Proof.
  unfold v6_String. destruct (best_zero_run _ _ _) as [[i n]|].
  - by apply app_nonempty_r, app_nonempty_l.
  - unfold v6_groups. cbn [seq fmap list_fmap String.concat]. apply app_nonempty_l, hex_String_nonempty.
Qed.

Lemma Addr_String_nonempty a : Addr_String a ≠ ""%string.
Proof.
  destruct a as [|v|v z]; cbn [Addr_String]; [done|apply v4_String_nonempty|].
  apply app_nonempty_l. destruct (is_4in6 v); [by apply app_nonempty_l|apply v6_String_nonempty].
Qed.
