(* ===== verification/Domain.v ===== *)
(** * internal/core/domain: states, identifiers, handles and the sandbox record

    Models [state.go], [id.go] and [sandbox.go]: the five durable states with
    their wire strings, UUIDv7 identifiers with their Crockford base32 text form,
    prefix resolution, handles, and the [Sandbox] record every other component
    reads and writes. *)

From stdpp Require Import prelude gmap strings list.
From Stdlib Require Import ZArith Ascii Lia.
From S2P Require Import Prelude GoStrings.

(** ** States *)

(** [State] is an [int] with five constants starting at 1.  [StateZero] is the
    zero value of the type, the only other value the program produces (an
    uninitialised struct, the result of a failed [ParseState]). *)
Inductive State := StateZero | Created | Running | Paused | Stopped | Error.

#[global] Instance State_eq_dec : EqDecision State.
Proof. solve_decision. Defined.

Definition state_int (s : State) : Z :=
  match s with
  | StateZero => 0 | Created => 1 | Running => 2 | Paused => 3 | Stopped => 4 | Error => 5
  end.

Definition AllStates : list State := [Created; Running; Paused; Stopped; Error].

Definition State_String (s : State) : string :=
  match s with
  | Created => "created"
  | Running => "running"
  | Paused => "paused"
  | Stopped => "stopped"
  | Error => "error"
  | StateZero => "State(0)"
  end.

Definition ParseState (s : string) : result string State :=
  if String.eqb s "created" then Ok Created
  else if String.eqb s "running" then Ok Running
  else if String.eqb s "paused" then Ok Paused
  else if String.eqb s "stopped" then Ok Stopped
  else if String.eqb s "error" then Ok Error
  else Err "unknown state".

Definition State_Valid (s : State) : bool :=
  match s with
  | Created | Running | Paused | Stopped | Error => true
  | StateZero => false
  end.

(** The JSON text of a state is its wire string; an invalid state does not
    marshal.  The JSON string is represented by its contents. *)
Definition State_MarshalJSON (s : State) : result string string :=
  if negb (State_Valid s) then Err "marshal State: invalid state value"
  else Ok (State_String s).

Definition State_UnmarshalJSON (s : string) : result string State :=
  match ParseState s with
  | Ok st => Ok st
  | Err e => Err ("unmarshal State: " +:+ e)
  end.

Lemma State_Valid_AllStates s : State_Valid s = true ↔ s ∈ AllStates.
Proof. rewrite <- (bool_decide_eq_true (s ∈ AllStates)). by destruct s. Qed.

Lemma ParseState_String s : State_Valid s = true → ParseState (State_String s) = Ok s.
Proof. by destruct s. Qed.

Lemma ParseState_Ok str s : ParseState str = Ok s → str = State_String s ∧ State_Valid s = true.
Proof.
  unfold ParseState. repeat case_match; intros [= <-]; simpl;
  repeat match goal with H : String.eqb _ _ = true |- _ => apply String.eqb_eq in H end; auto.
Qed.

(** ** Crockford base32 *)

(** A [SandboxID] is a [[16]byte]. *)
Abbreviation SandboxID := (list ascii) (only parsing).
Definition wf_id (id : SandboxID) : Prop := length id = 16%nat.

Definition crockfordAlphabet : string := "0123456789ABCDEFGHJKMNPQRSTVWXYZ".

Definition alphabet_at (v : Z) : ascii :=
  default Ascii.zero (chars crockfordAlphabet !! Z.to_nat v).

(** [crockfordDecodeTable] as [init] fills it: alphabet characters, their
    lower-case variants for characters from 'A' on, then the confusables, which
    are written last and so take precedence; every other entry is -1. *)
Definition decode_alphabet (c : ascii) : Z :=
  match index_byte c (chars crockfordAlphabet) with
  | Some i => Z.of_nat i
  | None =>
      if 65 <=? byte_val c - 32 then
        match index_byte (byte_of (byte_val c - 32)) (chars crockfordAlphabet) with
        | Some i => Z.of_nat i
        | None => -1
        end
      else -1
  end.

Definition crockfordDecodeTable (c : ascii) : Z :=
  let n := byte_val c in
  if (n =? 73) || (n =? 105) || (n =? 76) || (n =? 108) then 1
  else if (n =? 79) || (n =? 111) then 0
  else decode_alphabet c.

Definition byte_at (b : bytes) (i : Z) : Z :=
  match b !! Z.to_nat i with Some c => byte_val c | None => 0 end.

(** The 5-bit group [i] of the 128 bits: a 16-bit window starting at the group's
    first byte, shifted down. *)
Definition crockford_group (b : bytes) (i : Z) : Z :=
  let bitStart := i * 5 in
  let byteIdx := bitStart / 8 in
  let bitOff := bitStart mod 8 in
  let w := (if byteIdx <? 16 then Z.shiftl (byte_at b byteIdx) 8 else 0) in
  let w := (if byteIdx + 1 <? 16 then Z.lor w (byte_at b (byteIdx + 1)) else w) in
  let shift := 16 - 5 - bitOff in
  Z.land (Z.shiftr w shift) 0x1F.

Definition crockfordEncode (b : bytes) : string :=
  of_chars ((λ i, alphabet_at (crockford_group b (Z.of_nat i))) <$> seq 0 26).

(** [b[i] |= v]. *)
Definition or_byte (b : bytes) (i v : Z) : bytes :=
  <[Z.to_nat i := byte_of (Z.lor (byte_at b i) v)]> b.

(** The loop body of [crockfordDecode] at position [i]. *)
Definition crockford_place (b : bytes) (i val : Z) : bytes :=
  let bitStart := i * 5 in
  let byteIdx := bitStart / 8 in
  let bitOff := bitStart mod 8 in
  let placed := u16 (Z.shiftl val (16 - 5 - bitOff)) in
  let b := if byteIdx <? 16 then or_byte b byteIdx (u8 (Z.shiftr placed 8)) else b in
  if byteIdx + 1 <? 16 then or_byte b (byteIdx + 1) (u8 (Z.land placed 0xFF)) else b.

Fixpoint crockford_loop (i : Z) (s : bytes) (b : bytes) : result string bytes :=
  match s with
  | [] => Ok b
  | c :: s' =>
      let val := crockfordDecodeTable c in
      if val <? 0 then Err "crockford decode: invalid character"
      else crockford_loop (i + 1) s' (crockford_place b i val)
  end.

Definition crockfordDecode (s : string) : result string bytes :=
  if negb (Z.of_nat (length (chars s)) =? 26) then Err "crockford decode: expected 26 chars"
  else crockford_loop 0 (chars s) (replicate 16 Ascii.zero).

(** ** UUIDv7 *)

(** [newUUIDv7] at wall-clock millisecond [ms] with the ten bytes [rnd] read from
    the system's random source. *)
Definition put_u64 (z : Z) : bytes :=
  (λ k, byte_of (Z.shiftr (u64 z) (56 - 8 * Z.of_nat k))) <$> seq 0 8.

Definition newUUIDv7 (ms : Z) (rnd : bytes) : SandboxID :=
  let uuid := put_u64 (Z.shiftl (u64 ms) 16) ++ replicate 8 Ascii.zero in
  let uuid := <[6%nat := byte_of (Z.lor 0x70 (Z.land (byte_at rnd 0) 0x0F))]> uuid in
  let uuid := <[7%nat := byte_of (byte_at rnd 1)]> uuid in
  let uuid := <[8%nat := byte_of (Z.lor 0x80 (Z.land (byte_at rnd 2) 0x3F))]> uuid in
  take 9 uuid ++ take 7 (drop 3 rnd).

Definition NewSandboxID (ms : Z) (rnd : bytes) : SandboxID := newUUIDv7 ms rnd.

Definition SandboxID_String (id : SandboxID) : string := "sb-" +:+ crockfordEncode id.

Definition ParseSandboxID (s : string) : result string SandboxID :=
  match CutPrefix s "sb-" with
  | None => Err "sandbox ID must start with sb-"
  | Some encoded => crockfordDecode encoded
  end.

(** ** Prefix resolution *)

Inductive resolve_error :=
| ErrNoMatch (prefix : string)
| ErrAmbiguous (prefix : string) (candidates : list SandboxID).

(** [id.String()[3:]] is the encoded form. *)
Definition prefix_matches (search : string) (id : SandboxID) : bool :=
  HasPrefix (crockfordEncode id) search.

Definition ResolvePrefix (prefix : string) (candidates : list SandboxID)
    : result resolve_error SandboxID :=
  let search := ToUpper (TrimPrefix prefix "sb-") in
  match filter (λ id, prefix_matches search id = true) candidates with
  | [] => Err (ErrNoMatch prefix)
  | [id] => Ok id
  | matches => Err (ErrAmbiguous prefix matches)
  end.

(** ** Round trip of identifiers *)

Lemma decode_alphabet_at v : 0 ≤ v < 32 → crockfordDecodeTable (alphabet_at v) = v.
Proof.
  intros Hv.
  assert (H : forallb (λ n, crockfordDecodeTable (alphabet_at (Z.of_nat n)) =? Z.of_nat n)
                (seq 0 32) = true) by (by vm_compute).
  rewrite forallb_forall in H. specialize (H (Z.to_nat v)).
  rewrite Z2Nat.id in H by lia. apply Z.eqb_eq, H, in_seq. lia.
Qed.

Lemma testbit_small z k : 0 ≤ z < 256 → 8 ≤ k → Z.testbit z k = false.
Proof.
  intros Hz Hk. apply Z.bits_above_log2; [lia|].
  destruct (Z.eq_dec z 0) as [->|]; [simpl; lia|].
  apply Z.lt_le_trans with 8; [|lia]. apply Z.log2_lt_pow2; lia.
Qed.

(** The bits of a group moved back to its place in the window. *)
Lemma placed_testbit (x y s k : Z) :
  0 ≤ x < 256 → 0 ≤ y < 256 → 0 ≤ s → 0 ≤ k →
  Z.testbit (u16 (Z.shiftl (Z.land (Z.shiftr (Z.lor (Z.shiftl x 8) y) s) 0x1F) s)) k =
  (k <? 16) && (s <=? k) && (k <? s + 5) &&
  (if k <? 8 then Z.testbit y k else Z.testbit x (k - 8)).
Proof.
  intros Hx Hy Hs Hk. unfold wrap_u. rewrite <- Z.land_ones by lia.
  rewrite Z.land_spec, Z.testbit_ones_nonneg by lia.
  rewrite Z.shiftl_spec by lia. destruct (Z.leb_spec s k); cycle 1.
  { rewrite Z.testbit_neg_r by lia. by rewrite andb_false_r. }
  rewrite Z.land_spec, Z.shiftr_spec, Z.lor_spec by lia.
  change 0x1F with (Z.ones 5). rewrite Z.testbit_ones_nonneg by lia.
  replace (k - s + s) with k by lia. rewrite Z.shiftl_spec by lia.
  destruct (Z.ltb_spec k 8).
  - rewrite (Z.testbit_neg_r x) by lia. simpl.
    destruct (Z.ltb_spec (k - s) 5), (Z.ltb_spec k 16), (Z.ltb_spec k (s + 5)); try lia;
      by destruct (Z.testbit y k).
  - rewrite (testbit_small y) by lia.
    destruct (Z.ltb_spec (k - s) 5), (Z.ltb_spec k 16), (Z.ltb_spec k (s + 5)); try lia;
      by destruct (Z.testbit x (k - 8)).
Qed.

Lemma mask_testbit s k :
  0 ≤ s → 0 ≤ k → Z.testbit (Z.shiftl 0x1F s) k = (s <=? k) && (k <? s + 5).
Proof.
  intros Hs Hk. rewrite Z.shiftl_spec by lia. change 0x1F with (Z.ones 5).
  destruct (Z.leb_spec s k); [|by rewrite Z.testbit_neg_r by lia].
  rewrite Z.testbit_ones_nonneg by lia.
  destruct (Z.ltb_spec (k - s) 5), (Z.ltb_spec k (s + 5)); try lia; done.
Qed.

(** Placing a 5-bit group back restores the bits of the window it was cut from:
    the two bytes written are masks of the two bytes read. *)
Lemma window_masks (x y s : Z) :
  0 ≤ x < 256 → 0 ≤ y < 256 → 0 ≤ s →
  let placed := u16 (Z.shiftl (Z.land (Z.shiftr (Z.lor (Z.shiftl x 8) y) s) 0x1F) s) in
  u8 (Z.shiftr placed 8) = Z.land x (Z.shiftr (Z.shiftl 0x1F s) 8) ∧
  u8 (Z.land placed 0xFF) = Z.land y (Z.land (Z.shiftl 0x1F s) 0xFF).
Proof.
  intros Hx Hy Hs placed. unfold wrap_u at 1 2. split; apply Z.bits_inj'; intros k Hk;
    rewrite <- Z.land_ones by lia; rewrite !Z.land_spec, Z.testbit_ones_nonneg by lia.
  - rewrite !Z.shiftr_spec by lia. unfold placed. rewrite placed_testbit, mask_testbit by lia.
    replace (k + 8 - 8) with k by lia.
    destruct (Z.ltb_spec k 8), (Z.ltb_spec (k + 8) 8), (Z.ltb_spec (k + 8) 16); try lia;
      rewrite ?(testbit_small x) by lia; rewrite ?andb_true_r, ?andb_false_r; simpl; try done.
    apply andb_comm.
  - unfold placed. rewrite placed_testbit, mask_testbit by lia. change 0xFF with (Z.ones 8).
    rewrite Z.testbit_ones_nonneg by lia.
    destruct (Z.ltb_spec k 8), (Z.ltb_spec k 16); try lia;
      rewrite ?(testbit_small y) by lia; rewrite ?andb_true_r, ?andb_false_r; simpl; try done.
    apply andb_comm.
Qed.

Lemma crockford_group_range b i : 0 ≤ crockford_group b i < 32.
Proof.
  unfold crockford_group. change 0x1F with (Z.ones 5). rewrite Z.land_ones by lia.
  change 32 with (2 ^ 5). apply Z.mod_pos_bound. lia.
Qed.

Lemma byte_at_range b i : 0 ≤ byte_at b i < 256.
Proof. unfold byte_at. destruct (b !! _); [apply byte_val_range|lia]. Qed.

Definition place_group (id b : bytes) (i : nat) : bytes :=
  crockford_place b (Z.of_nat i) (crockford_group id (Z.of_nat i)).

Lemma crockford_loop_groups id is_ b i :
  (∀ k n, is_ !! k = Some n → n = (i + k)%nat) →
  crockford_loop (Z.of_nat i) ((λ i, alphabet_at (crockford_group id (Z.of_nat i))) <$> is_) b =
  Ok (fold_left (place_group id) is_ b).
Proof.
  revert i b; induction is_ as [|n is_ IH]; intros i b Hseq; [done|].
  assert (n = i) as -> by (specialize (Hseq 0%nat n eq_refl); lia).
  simpl. pose proof (crockford_group_range id (Z.of_nat i)).
  rewrite decode_alphabet_at by done. case_match; reflect_bools; [lia|].
  replace (Z.of_nat i + 1) with (Z.of_nat (S i)) by lia.
  apply IH. intros k m Hk. specialize (Hseq (S k) m Hk). lia.
Qed.

(** One step of encode-then-decode, with the masks of [window_masks]. *)
Lemma place_group_masks id b i :
  let byteIdx := Z.of_nat i * 5 / 8 in
  let m := Z.shiftl 0x1F (16 - 5 - Z.of_nat i * 5 mod 8) in
  byteIdx + 1 < 16 →
  place_group id b i =
    or_byte (or_byte b byteIdx (Z.land (byte_at id byteIdx) (Z.shiftr m 8)))
      (byteIdx + 1) (Z.land (byte_at id (byteIdx + 1)) (Z.land m 0xFF)).
Proof.
  intros byteIdx m Hlt. unfold place_group, crockford_place, crockford_group.
  fold byteIdx. set (off := Z.of_nat i * 5 mod 8).
  pose proof (Z.mod_pos_bound (Z.of_nat i * 5) 8 ltac:(lia)) as Hoff. fold off in Hoff.
  destruct (Z.ltb_spec byteIdx 16); [|lia]. destruct (Z.ltb_spec (byteIdx + 1) 16); [|lia].
  destruct (window_masks (byte_at id byteIdx) (byte_at id (byteIdx + 1)) (16 - 5 - off))
    as [-> ->]; try apply byte_at_range; [lia|done].
Qed.

Lemma place_group_last id b i :
  let byteIdx := Z.of_nat i * 5 / 8 in
  let m := Z.shiftl 0x1F (16 - 5 - Z.of_nat i * 5 mod 8) in
  byteIdx = 15 →
  place_group id b i = or_byte b 15 (Z.land (byte_at id 15) (Z.shiftr m 8)).
Proof.
  intros byteIdx m Heq. unfold place_group, crockford_place, crockford_group.
  fold byteIdx. rewrite Heq. set (off := Z.of_nat i * 5 mod 8).
  pose proof (Z.mod_pos_bound (Z.of_nat i * 5) 8 ltac:(lia)) as Hoff. fold off in Hoff.
  cbn [Z.ltb Z.add Z.compare Pos.compare Pos.compare_cont Pos.add Pos.succ].
  destruct (window_masks (byte_at id 15) 0 (16 - 5 - off)) as [H _];
    [apply byte_at_range|lia|lia|]. rewrite Z.lor_0_r in H.
  change (15 <? 16) with true. change (15 + 1 <? 16) with false. cbv iota. by rewrite H.
Qed.

(** The masks accumulated into one byte cover all of its bits. *)
Definition or_masks (x : ascii) (ms : list Z) : ascii :=
  fold_left (λ acc m, byte_of (Z.lor (byte_val acc) (Z.land (byte_val x) m))) ms Ascii.zero.

Definition masks_cover (ms : list Z) : bool :=
  forallb (λ n, bool_decide (or_masks (byte_of (Z.of_nat n)) ms = byte_of (Z.of_nat n)))
    (seq 0 256).

Lemma or_masks_cover x ms : masks_cover ms = true → or_masks x ms = x.
Proof.
  intros H. unfold masks_cover in H. rewrite forallb_forall in H.
  specialize (H (Z.to_nat (byte_val x))). pose proof (byte_val_range x).
  rewrite Z2Nat.id, byte_of_val in H by lia. apply bool_decide_eq_true in H; [done|].
  apply in_seq. lia.
Qed.

(** Encode-then-decode, tracked symbolically: the partially decoded array is the
    identifier with, for every byte, the masks written so far. *)
Definition add_mask (i m : Z) (mss : list (list Z)) : list (list Z) :=
  alter (λ ms, ms ++ [m]) (Z.to_nat i) mss.

Definition add_masks (mss : list (list Z)) (i : nat) : list (list Z) :=
  let byteIdx := Z.of_nat i * 5 / 8 in
  let m := Z.shiftl 0x1F (16 - 5 - Z.of_nat i * 5 mod 8) in
  if byteIdx + 1 <? 16
  then add_mask (byteIdx + 1) (Z.land m 0xFF) (add_mask byteIdx (Z.shiftr m 8) mss)
  else add_mask 15 (Z.shiftr m 8) mss.

Definition masked (id : bytes) (mss : list (list Z)) : bytes := zip_with or_masks id mss.

Lemma or_masks_snoc x ms m :
  or_masks x (ms ++ [m]) = byte_of (Z.lor (byte_val (or_masks x ms)) (Z.land (byte_val x) m)).
Proof. unfold or_masks. by rewrite fold_left_app. Qed.

Lemma or_byte_masked id mss i m :
  or_byte (masked id mss) i (Z.land (byte_at id i) m) = masked id (add_mask i m mss).
Proof.
  unfold or_byte, masked, add_mask, byte_at. apply list_eq. intros k.
  rewrite (lookup_zip_with or_masks id (alter _ _ _)).
  destruct (decide (k = Z.to_nat i)) as [->|Hne]; cycle 1.
  { rewrite list_lookup_insert_ne, list_lookup_alter_ne by done. by rewrite lookup_zip_with. }
  rewrite list_lookup_alter_eq. rewrite lookup_zip_with.
  destruct (id !! Z.to_nat i) as [x|] eqn:Hx; simpl; cycle 1.
  { rewrite list_insert_ge; [by rewrite lookup_zip_with, Hx|].
    apply lookup_ge_None in Hx. rewrite length_zip_with. lia. }
  destruct (mss !! Z.to_nat i) as [ms|] eqn:Hms; simpl; cycle 1.
  { rewrite list_insert_ge; [by rewrite lookup_zip_with, Hx; simpl; rewrite Hms|].
    apply lookup_ge_None in Hms. rewrite length_zip_with. lia. }
  rewrite list_lookup_insert_eq; [by rewrite or_masks_snoc|].
  rewrite length_zip_with. apply lookup_lt_Some in Hx, Hms. lia.
Qed.

Lemma place_group_masked id mss i :
  (i < 26)%nat → place_group id (masked id mss) i = masked id (add_masks mss i).
Proof.
  intros Hi. unfold add_masks. destruct (Z.ltb_spec (Z.of_nat i * 5 / 8 + 1) 16) as [Hlt|Hge].
  - rewrite place_group_masks by done. by rewrite !or_byte_masked.
  - rewrite place_group_last; [by rewrite or_byte_masked|].
    assert (Z.of_nat i * 5 / 8 < 16) by (apply Z.div_lt_upper_bound; lia). lia.
Qed.

Lemma fold_place_groups id is_ mss :
  Forall (λ i, (i < 26)%nat) is_ →
  fold_left (place_group id) is_ (masked id mss) = masked id (fold_left add_masks is_ mss).
Proof.
  intros H. revert mss. induction H as [|i is_ Hi _ IH]; intros mss; [done|].
  simpl. by rewrite place_group_masked, IH.
Qed.

Lemma masked_cover id mss :
  length id = length mss → forallb masks_cover mss = true → masked id mss = id.
Proof.
  unfold masked. revert mss. induction id as [|x id IH]; intros [|ms mss]; try done; simpl.
  intros [= Hlen] [Hm Hms]%andb_prop. by rewrite or_masks_cover, IH.
Qed.

Theorem crockfordDecode_crockfordEncode id :
  wf_id id → crockfordDecode (crockfordEncode id) = Ok id.
Proof.
  intros Hlen. unfold crockfordDecode, crockfordEncode. rewrite chars_of_chars, length_fmap.
  change (Z.of_nat (length (seq 0 26)) =? 26) with true. cbv iota delta [negb].
  change 0 with (Z.of_nat 0) at 1. rewrite crockford_loop_groups.
  2:{ intros k n H. apply lookup_seq in H. lia. }
  f_equal. replace (replicate 16 Ascii.zero) with (masked id (replicate 16 [])).
  2:{ unfold wf_id in Hlen. unfold masked.
      by do 16 (destruct id as [|? id]; [discriminate|]); destruct id. }
  rewrite fold_place_groups by (apply Forall_forall; intros i Hi%elem_of_seq; lia).
  apply masked_cover; [by rewrite Hlen|by vm_compute].
Qed.

(** ** Identifiers as text *)

Lemma CutPrefix_app p r : CutPrefix (p +:+ r) p = Some r.
Proof. by apply CutPrefix_Some. Qed.

(** printing a sandbox identifier and parsing it back gives the identifier: the
    26 Crockford characters of the 16 bytes lose no bit, and the [sb-] prefix and
    the decoder's confusable letters do not interfere. *)
Lemma ParseSandboxID_String id : wf_id id → ParseSandboxID (SandboxID_String id) = Ok id.
Proof.
  intros Hid. unfold ParseSandboxID, SandboxID_String.
  rewrite CutPrefix_app. by apply crockfordDecode_crockfordEncode.
Qed.

Lemma crockfordEncode_inj id1 id2 :
  wf_id id1 → wf_id id2 → crockfordEncode id1 = crockfordEncode id2 → id1 = id2.
Proof.
  intros H1 H2 Heq. apply crockfordDecode_crockfordEncode in H1, H2. congruence.
Qed.

Lemma length_crockfordEncode id : length (chars (crockfordEncode id)) = 26%nat.
Proof. unfold crockfordEncode. by rewrite chars_of_chars, length_fmap. Qed.

Lemma upper_alphabet_at v : upper_byte (alphabet_at v) = alphabet_at v.
Proof.
  unfold alphabet_at. generalize (Z.to_nat v) as n; intros n.
  assert (H : Forall (λ c, upper_byte c = c) (chars crockfordAlphabet)).
  { apply Forall_forall. intros c Hc. revert c Hc. apply Forall_forall.
    apply (bool_decide_unpack _). by vm_compute. }
  destruct (_ !! n) as [c|] eqn:Hc; [|done]. simpl.
  eapply Forall_lookup_1 in H; [|exact Hc]. done.
Qed.

Lemma ToUpper_crockfordEncode id : ToUpper (crockfordEncode id) = crockfordEncode id.
Proof.
  unfold ToUpper, crockfordEncode. rewrite chars_of_chars. f_equal.
  rewrite <- list_fmap_compose. apply list_fmap_ext. intros ? ? _. apply upper_alphabet_at.
Qed.

Lemma HasPrefix_same_length s t :
  length (chars s) = length (chars t) → HasPrefix s t = true → s = t.
Proof.
  intros Hlen [r Hr]%HasPrefix_true. subst s. rewrite chars_app, length_app in Hlen.
  destruct (chars r) eqn:E; [|simpl in Hlen; lia].
  apply chars_inj. by rewrite chars_app, E, app_nil_r.
Qed.

Lemma HasPrefix_refl s : HasPrefix s s = true.
Proof.
  apply HasPrefix_true. exists ""%string. apply chars_inj. by rewrite chars_app, app_nil_r.
Qed.

Lemma ResolvePrefix_complete id candidates :
  Forall wf_id candidates → id ∈ candidates → NoDup candidates →
  filter (λ c, prefix_matches (crockfordEncode id) c = true) candidates = [id].
Proof.
  intros Hwf Hin Hnd.
  assert (Hid : wf_id id) by (by eapply Forall_forall in Hwf).
  assert (Honly : ∀ c, c ∈ candidates →
            prefix_matches (crockfordEncode id) c = true ↔ c = id).
  { intros c Hc. unfold prefix_matches. split; [|intros ->; apply HasPrefix_refl].
    intros Hp. apply crockfordEncode_inj; [by eapply Forall_forall in Hwf|done|].
    apply HasPrefix_same_length; [by rewrite !length_crockfordEncode|done]. }
  clear Hwf. induction candidates as [|c l IH]; [set_solver|].
  apply NoDup_cons in Hnd as [Hc Hnd]. rewrite filter_cons.
  destruct (decide (c = id)) as [->|Hne].
  - rewrite decide_True by (apply Honly; set_solver). f_equal.
    assert (∀ d, d ∈ filter (λ c, prefix_matches (crockfordEncode id) c = true) l → False).
    { intros d [Hd Hdl]%list_elem_of_filter. apply Honly in Hd; set_solver. }
    destruct (filter _ l) as [|d ?]; [done|]. exfalso. eapply H, elem_of_cons; eauto.
  - rewrite decide_False by (rewrite Honly; set_solver).
    apply IH; [set_solver|done|]. intros d Hd. apply Honly. set_solver.
Qed.

(** prefix resolution finds a sandbox by its full printed identifier whatever
    else is stored. *)
Lemma ResolvePrefix_full_id id candidates :
  Forall wf_id candidates → id ∈ candidates → NoDup candidates →
  ResolvePrefix (SandboxID_String id) candidates = Ok id.
Proof.
  intros Hwf Hin Hnd. unfold ResolvePrefix, SandboxID_String.
  rewrite TrimPrefix_app, ToUpper_crockfordEncode.
  by rewrite ResolvePrefix_complete.
Qed.

Lemma ResolvePrefix_spec prefix candidates :
  let search := ToUpper (TrimPrefix prefix "sb-") in
  match ResolvePrefix prefix candidates with
  | Ok id => id ∈ candidates ∧ prefix_matches search id = true ∧
             ∀ c, c ∈ candidates → prefix_matches search c = true → c = id
  | Err (ErrNoMatch _) => ∀ c, c ∈ candidates → prefix_matches search c = false
  | Err (ErrAmbiguous _ ms) =>
      (2 ≤ length ms)%nat ∧
      ∀ c, c ∈ ms ↔ c ∈ candidates ∧ prefix_matches search c = true
  end.
Proof.
  intros search. unfold ResolvePrefix. fold search.
  assert (Hf : ∀ c, c ∈ filter (λ id, prefix_matches search id = true) candidates ↔
             c ∈ candidates ∧ prefix_matches search c = true)
    by (intros c; rewrite list_elem_of_filter; tauto).
  destruct (filter _ candidates) as [|a [|b l]].
  - intros c Hc. destruct (prefix_matches search c) eqn:E; [|done].
    exfalso. eapply (not_elem_of_nil c), Hf; eauto.
  - assert (Ha := proj1 (Hf a)). destruct Ha as [Ha1 Ha2]; [set_solver|].
    split; [done|]. split; [done|]. intros c Hc Hp.
    assert (c ∈ [a]) by (by apply Hf). set_solver.
  - split; [simpl; lia|]. intros c. apply Hf.
Qed.

(** prefix resolution, on every input: a success is the only candidate whose
    encoded identifier starts with the upper-cased prefix, [ErrNoMatch] means there
    is none, and [ErrAmbiguous] lists exactly the two or more there are. *)
Lemma ResolvePrefix_cases prefix candidates :
  let search := ToUpper (TrimPrefix prefix "sb-") in
  match ResolvePrefix prefix candidates with
  | Ok id => id ∈ candidates ∧ prefix_matches search id = true ∧
             ∀ c, c ∈ candidates → prefix_matches search c = true → c = id
  | Err (ErrNoMatch _) => ∀ c, c ∈ candidates → prefix_matches search c = false
  | Err (ErrAmbiguous _ ms) =>
      (2 ≤ length ms)%nat ∧
      ∀ c, c ∈ ms ↔ c ∈ candidates ∧ prefix_matches search c = true
  end.
Proof. apply ResolvePrefix_spec. Qed.

(** ** Witnesses *)

Lemma ParseSandboxID_String_witness :
  ParseSandboxID (SandboxID_String (replicate 16 "Z"%char)) = Ok (replicate 16 "Z"%char).
Proof. apply ParseSandboxID_String. reflexivity. Defined.

Lemma ResolvePrefix_full_id_witness :
  ResolvePrefix (SandboxID_String (replicate 16 "A"%char))
    [replicate 16 "B"%char; replicate 16 "A"%char] = Ok (replicate 16 "A"%char).
Proof.
  apply ResolvePrefix_full_id.
  - repeat constructor.
  - right. left.
  - apply (bool_decide_unpack _). vm_compute. exact I.
Defined.
