(* ===== verification/Lifecycle.v ===== *)
(** * internal/core/lifecycle: the sandbox state machine

    Models [transitions.go] (triggers, initiators, the transition table),
    [machine.go] ([Machine]'s methods over the table) and [intent.go] (the --rm
    decision).  The machine has no state of its own; what a sandbox goes through
    is the step relation [lifecycle_step], whose reachable states and traces the
    safety theorems are about. *)

From stdpp Require Import prelude gmap strings list sorting relations.
From Stdlib Require Import ZArith Ascii Lia.
From S2P Require Import Prelude GoStrings Domain.

Inductive Trigger :=
| TriggerStart | TriggerPause | TriggerResume | TriggerStop | TriggerSubstrateLost
| TriggerFail | TriggerReset | TriggerPrimaryCommandExit | TriggerSnapshot | TriggerFork.

#[global] Instance Trigger_eq_dec : EqDecision Trigger.
Proof. solve_decision. Defined.

Definition trigger_string (t : Trigger) : string :=
  match t with
  | TriggerStart => "start"
  | TriggerPause => "pause"
  | TriggerResume => "resume"
  | TriggerStop => "stop"
  | TriggerSubstrateLost => "substrate_lost"
  | TriggerFail => "fail"
  | TriggerReset => "reset"
  | TriggerPrimaryCommandExit => "primary_command_exit"
  | TriggerSnapshot => "snapshot"
  | TriggerFork => "fork"
  end.

Inductive Initiator := InitiatorUser | InitiatorSystem.

Record Edge := mkEdge {
  e_from : State;
  e_to : State;
  e_trigger : Trigger;
  e_initiator : Initiator;
  e_removal : bool;
}.

(** The transition table, row by row. *)
Definition table : list Edge := [
  mkEdge Created Running TriggerStart InitiatorUser false;
  mkEdge Running Paused TriggerPause InitiatorUser false;
  mkEdge Paused Running TriggerResume InitiatorUser false;
  mkEdge Running Stopped TriggerStop InitiatorUser false;
  mkEdge Stopped Running TriggerStart InitiatorUser false;
  mkEdge Running Running TriggerSnapshot InitiatorUser false;
  mkEdge Stopped Stopped TriggerSnapshot InitiatorUser false;
  mkEdge Paused Stopped TriggerSubstrateLost InitiatorSystem false;
  mkEdge Running Stopped TriggerSubstrateLost InitiatorSystem false;
  mkEdge Created Error TriggerFail InitiatorSystem false;
  mkEdge Running Error TriggerFail InitiatorSystem false;
  mkEdge Paused Error TriggerFail InitiatorSystem false;
  mkEdge Stopped Error TriggerFail InitiatorSystem false;
  mkEdge Error Error TriggerFail InitiatorSystem false;
  mkEdge Error Stopped TriggerReset InitiatorUser false;
  mkEdge Running StateZero TriggerPrimaryCommandExit InitiatorSystem true
].

(** ** Machine *)

Record Transition := mkTransition { t_remove : bool; t_next : State }.

Record IllegalTransitionError := mkIllegal {
  it_from : State;
  it_trigger : Trigger;
  it_legal : list Trigger;
}.

(** [%q] of a text without characters to escape. *)
Definition quoted (s : string) : string :=
  String (Ascii.ascii_of_nat 34) s +:+ String (Ascii.ascii_of_nat 34) "".

(** [IllegalTransitionError.Error]. *)
Definition IllegalTransitionError_Error (e : IllegalTransitionError) : string :=
  let start := "illegal transition: trigger " +:+ quoted (trigger_string (it_trigger e)) +:+
    " is not valid from state " +:+ quoted (State_String (it_from e)) in
  match it_legal e with
  | [] => start +:+ " (no triggers are valid from this state)"
  | legal => start +:+ "; valid triggers from this state are: [" +:+
      String.concat " " (trigger_string <$> legal) +:+ "]"
  end.

Definition edge_matches (from : State) (t : Trigger) (e : Edge) : bool :=
  bool_decide (e_from e = from) && bool_decide (e_trigger e = t).

(** The linear scan every method performs: the first matching row. *)
Fixpoint find_edge (tbl : list Edge) (from : State) (t : Trigger) : option Edge :=
  match tbl with
  | [] => None
  | e :: tbl' => if edge_matches from t e then Some e else find_edge tbl' from t
  end.

Definition Can (from : State) (t : Trigger) : bool :=
  bool_decide (is_Some (find_edge table from t)).

Definition trigger_le (a b : Trigger) : Prop :=
  String.leb (trigger_string a) (trigger_string b) = true.

#[global] Instance trigger_le_dec : RelDecision trigger_le.
Proof. intros a b. apply bool_eq_dec. Defined.

(** The [seen] map deduplicates and the sort makes its iteration order
    irrelevant. *)
Definition LegalTriggers (from : State) : list Trigger :=
  merge_sort trigger_le
    (remove_dups (e_trigger <$> filter (λ e, e_from e = from) table)).

Definition Next (from : State) (t : Trigger) : result IllegalTransitionError Transition :=
  match find_edge table from t with
  | Some e => Ok (mkTransition (e_removal e) (e_to e))
  | None => Err (mkIllegal from t (LegalTriggers from))
  end.

Definition InitiatorOf (from : State) (t : Trigger) : result IllegalTransitionError Initiator :=
  match find_edge table from t with
  | Some e => Ok (e_initiator e)
  | None => Err (mkIllegal from t (LegalTriggers from))
  end.

(** [Machine.All] returns a copy of the table. *)
Definition All : list Edge := table.

(** ** Intent *)

Record Intent := mkIntent { RemoveOnExit : bool }.
Record ExitOutcome := mkExitOutcome { eo_remove : bool; eo_next : State }.

Inductive exit_error :=
| ExitIllegal (e : IllegalTransitionError)
| ExitTableBug (next : State).

Definition OnPrimaryCommandExit (intent : Intent) (from : State) (exitCode : Z)
    : result exit_error ExitOutcome :=
  if negb (RemoveOnExit intent) then Ok (mkExitOutcome false from)
  else match Next from TriggerPrimaryCommandExit with
       | Err e => Err (ExitIllegal e)
       | Ok tr => if negb (t_remove tr) then Err (ExitTableBug (t_next tr))
                  else Ok (mkExitOutcome true StateZero)
       end.

(** ** What a sandbox goes through *)

(** One durable transition: a trigger the machine accepts, that is not a
    removal. *)
Inductive lifecycle_step : State → State → Prop :=
| step_trigger from t to :
    Next from t = Ok (mkTransition false to) → lifecycle_step from to.

Definition reachable : State → Prop := rtc lifecycle_step Created.

(** ** Facts about the table *)

Definition edge_key (e : Edge) : State * Trigger := (e_from e, e_trigger e).

Lemma table_keys_NoDup : NoDup (edge_key <$> table).
Proof. apply (bool_decide_unpack _). by vm_compute. Qed.

Lemma edge_matches_true from t e : edge_matches from t e = true ↔ edge_key e = (from, t).
Proof.
  unfold edge_matches, edge_key. rewrite andb_true_iff, !bool_decide_eq_true.
  split; [intros [-> ->]; done|by intros [= -> ->]].
Qed.

Lemma find_edge_Some tbl from t e :
  find_edge tbl from t = Some e → e ∈ tbl ∧ edge_key e = (from, t).
Proof.
  induction tbl as [|d tbl IH]; simpl; [done|]. destruct (edge_matches from t d) eqn:E.
  - intros [= <-]. apply edge_matches_true in E. split; [set_solver|done].
  - intros H. destruct (IH H). split; [set_solver|done].
Qed.

Lemma find_edge_unique tbl from t e :
  NoDup (edge_key <$> tbl) → e ∈ tbl → edge_key e = (from, t) →
  find_edge tbl from t = Some e.
Proof.
  induction tbl as [|d tbl IH]; simpl; [set_solver|].
  intros [Hd Hnd]%NoDup_cons [->|Hin]%elem_of_cons Hk.
  - by rewrite (proj2 (edge_matches_true _ _ _) Hk).
  - destruct (edge_matches from t d) eqn:E; [|by apply IH].
    apply edge_matches_true in E. exfalso. apply Hd. rewrite E, <- Hk.
    by apply list_elem_of_fmap_2.
Qed.

Lemma find_edge_spec from t e :
  find_edge table from t = Some e ↔ e ∈ table ∧ edge_key e = (from, t).
Proof.
  split; [apply find_edge_Some|]. intros [??].
  apply find_edge_unique; [apply table_keys_NoDup|done|done].
Qed.

Lemma Can_spec from t : Can from t = true ↔ ∃ e, e ∈ table ∧ edge_key e = (from, t).
Proof.
  unfold Can. rewrite bool_decide_eq_true. unfold is_Some.
  by setoid_rewrite find_edge_spec.
Qed.

Lemma LegalTriggers_elem from t : t ∈ LegalTriggers from ↔ Can from t = true.
Proof.
  unfold LegalTriggers. rewrite (merge_sort_Permutation trigger_le).
  rewrite elem_of_remove_dups, list_elem_of_fmap, Can_spec.
  setoid_rewrite list_elem_of_filter. unfold edge_key. split.
  - intros (e & -> & ? & ?). exists e. by subst.
  - intros (e & ? & [= <- <-]). eauto.
Qed.

(** The scan finds the same row whatever the order of the rows: no row of the
    table shadows another. *)
Lemma find_edge_Permutation tbl from t :
  tbl ≡ₚ table → find_edge tbl from t = find_edge table from t.
Proof.
  intros Hp. apply option_eq. intros e. rewrite find_edge_spec. split.
  - intros H%find_edge_Some. by rewrite <- Hp.
  - intros [Hin Hk]. apply find_edge_unique; [|by rewrite Hp|done].
    rewrite Hp. apply table_keys_NoDup.
Qed.

Lemma Next_Ok_cases from t tr :
  Next from t = Ok tr →
  t_remove tr = true ∧ t_next tr = StateZero ∨
  t_remove tr = false ∧ State_Valid (t_next tr) = true.
Proof. destruct from, t; vm_compute; intros [= <-]; auto. Qed.

Lemma LegalTriggers_sorted from : StronglySorted trigger_le (LegalTriggers from).
Proof.
  apply Sorted_StronglySorted.
  - intros [] [] []; by vm_compute.
  - unfold LegalTriggers. apply Sorted_merge_sort. intros [] []; vm_compute; auto.
Qed.

(** [Machine.Next] on every pair of state and trigger.  It succeeds exactly
    when [Can] says the trigger is legal, and then the transition is either a
    removal carrying the zero state or a move to one of the five durable states;
    otherwise the error names the state, the trigger, and exactly the legal
    triggers of that state in lexicographic order. *)
Lemma Next_spec from t :
  match Next from t with
  | Ok tr => Can from t = true ∧
      (t_remove tr = true ∧ t_next tr = StateZero ∨
       t_remove tr = false ∧ State_Valid (t_next tr) = true)
  | Err e => Can from t = false ∧ it_from e = from ∧ it_trigger e = t ∧
      StronglySorted trigger_le (it_legal e) ∧
      (∀ u, u ∈ it_legal e ↔ Can from u = true)
  end.
Proof.
  destruct (Next from t) as [tr|e] eqn:E.
  - split; [|by eapply Next_Ok_cases]. unfold Next, Can in *. by destruct (find_edge _ _ _).
  - unfold Next, Can in *. destruct (find_edge table from t) eqn:F; [done|].
    injection E as <-. simpl. repeat split; try apply LegalTriggers_elem; try done.
    apply LegalTriggers_sorted.
Qed.

(** the --rm decision on every input.  Without [RemoveOnExit] the exit of the
    primary command changes nothing; with it the sandbox is removed exactly when
    it is running, whatever the exit code, and every other state is reported as an
    illegal transition -- the table-bug branch is never taken. *)
Lemma OnPrimaryCommandExit_spec intent from exitCode :
  OnPrimaryCommandExit intent from exitCode =
  if RemoveOnExit intent then
    if bool_decide (from = Running) then Ok (mkExitOutcome true StateZero)
    else Err (ExitIllegal (mkIllegal from TriggerPrimaryCommandExit (LegalTriggers from)))
  else Ok (mkExitOutcome false from).
Proof. unfold OnPrimaryCommandExit. destruct (RemoveOnExit intent); [|done]. by destruct from. Qed.

(** ** Reachability *)

Lemma lifecycle_step_valid a b : lifecycle_step a b → State_Valid b = true.
Proof. intros [from t to H]. apply Next_Ok_cases in H as [[? ?]|[? ?]]; simpl in *; congruence. Qed.

Lemma step_to_Running s : State_Valid s = true → rtc lifecycle_step s Running.
Proof.
  assert (Hstop : rtc lifecycle_step Stopped Running)
    by (eapply rtc_once, (step_trigger _ TriggerStart); reflexivity).
  destruct s; intros H; try discriminate H; try done.
  - eapply rtc_once, (step_trigger _ TriggerStart). reflexivity.
  - eapply rtc_once, (step_trigger _ TriggerResume). reflexivity.
  - eapply rtc_l; [|exact Hstop]. apply (step_trigger _ TriggerReset). reflexivity.
Qed.

Lemma step_from_Running s : State_Valid s = true → s ≠ Created → rtc lifecycle_step Running s.
Proof.
  destruct s; intros H Hne; try discriminate H; try done.
  - eapply rtc_once, (step_trigger _ TriggerPause). reflexivity.
  - eapply rtc_once, (step_trigger _ TriggerStop). reflexivity.
  - eapply rtc_once, (step_trigger _ TriggerFail). reflexivity.
Qed.

(** exactly the five durable states are reachable from creation, and from
    each of them the sandbox can be brought (back) to running: there is no
    transient state and no state to get stuck in. *)
Lemma reachable_durable_states s :
  (reachable s ↔ State_Valid s = true) ∧ (reachable s → rtc lifecycle_step s Running).
Proof.
  assert (Hv : reachable s → State_Valid s = true).
  { unfold reachable. intros H. apply rtc_inv_r in H as [<-|(y & _ & H)]; [done|].
    by eapply lifecycle_step_valid. }
  split; [split; [exact Hv|]|intros Hr; by apply step_to_Running, Hv].
  intros H. destruct (decide (s = Created)) as [->|Hne]; [by constructor|].
  unfold reachable. etrans; [by apply step_to_Running|by apply step_from_Running].
Qed.

(** a sandbox that was never started does not become stopped: from [Created],
    every sequence of transitions that visits neither [Running] nor [Error] stays
    in [Created]. *)
Lemma created_stays_until_run_or_error s :
  rtc (λ a b, lifecycle_step a b ∧ b ≠ Running ∧ b ≠ Error) Created s → s = Created.
Proof.
  intros H. remember Created as c eqn:Hc. revert Hc.
  induction H as [|a b c [Hs [H1 H2]] _ IH]; intros ->; [done|].
  inversion Hs as [from t to Hn]; subst. destruct t; vm_compute in Hn; congruence.
Qed.

(** An autonomous (system-initiated) transition removes, stops or fails a sandbox;
    it never starts, resumes or pauses one. *)
Lemma system_never_starts from t tr :
  InitiatorOf from t = Ok InitiatorSystem → Next from t = Ok tr →
  t_remove tr = true ∨ t_next tr = Stopped ∨ t_next tr = Error.
Proof. destruct from, t; vm_compute; intros ? [= <-]; simplify_eq; auto. Qed.

(** [stopped] does not imply that the sandbox ever ran: a failure before the first
    start, once acknowledged, leads there. *)
Theorem stopped_without_running :
  rtc (λ a b, lifecycle_step a b ∧ b ≠ Running) Created Stopped.
Proof.
  eapply rtc_l; [split; [apply (step_trigger _ TriggerFail); reflexivity|done]|].
  eapply rtc_l; [split; [apply (step_trigger _ TriggerReset); reflexivity|done]|].
  constructor.
Qed.
