(* ===== verification/Sandbox.v ===== *)
(** * internal/core/domain: the sandbox record

    Models [sandbox.go]: the one durable entity of nexus with its frozen
    envelope, its setters (Go assignments [rec.F = v]), the branch-policy default
    and the "<project>/<name>" handle. *)

From stdpp Require Import prelude gmap strings list.
From Stdlib Require Import ZArith Ascii Lia.
From S2P Require Import Prelude GoStrings Domain.

(** [StopReason] is a string with two constants; the empty string means that no
    reason is recorded. *)
Inductive StopReason := StopReasonNone | StopReasonClean | StopReasonMemoryLost.

#[global] Instance StopReason_eq_dec : EqDecision StopReason.
Proof. solve_decision. Defined.

Record LiveMount := mkLiveMount {
  lm_HostPath : string;
  lm_GuestPath : string;
  lm_ReadOnly : bool;
  lm_IsFile : bool;
}.

Record VolumeAttachment := mkVolumeAttachment {
  va_Name : string;
  va_GuestPath : string;
  va_Kind : string;
  va_ReadOnly : bool;
}.

Record Provenance := mkProvenance {
  pv_ParentID : SandboxID;
  pv_SourceSnapshot : string;
}.

Record EgressGitHubPolicy := mkEgressGitHubPolicy { gh_Owner : string; gh_Name : string }.

Record EgressHostPolicy := mkEgressHostPolicy {
  ehp_GitHub : option EgressGitHubPolicy;
  ehp_Paths : list string;
}.

Record Envelope := mkEnvelope {
  ImageDigest : string;
  AllowedHosts : list string;
  SSHPublicKey : string;
  SecretHosts : list string;
  SecretHostSuffixes : list string;
  SecretSpecs : list string;
  OpenEgress : bool;
  AllowedRepo : string;
  AllowedBranches : list string;
  PathPolicies : gmap string (gmap string EgressHostPolicy);
}.

(** Map-valued and slice-valued fields do not distinguish nil from empty, as the
    field comments of the source state. *)
Record Sandbox := mkSandbox {
  ID : SandboxID;
  Name : string;
  Project : string;
  Labels : gmap string string;
  SState : State;
  SEnvelope : Envelope;
  InstanceID : string;
  SRemoveOnExit : bool;
  RemovalMarker : bool;
  SStopReason : StopReason;
  SProvenance : option Provenance;
  SupervisorPID : Z;
  SupervisorSock : string;
  NetnsChildPID : Z;
  NetnsChildPGID : Z;
  GuestTapName : string;
  CHAPISocket : string;
  NetnsChildStartTime : Z;
  NetnsControlSocket : string;
  NetnsControlToken : string;
  CacheDiskSlot : string;
  CreatorPID : Z;
  BaseRef : string;
  MountedVolumes : list VolumeAttachment;
  LiveMounts : list LiveMount;
  AgentName : string;
  ExtraAgentNames : list string;
}.

(** ** Assignments to fields *)

Definition set_SState (v : State) (s : Sandbox) : Sandbox :=
  let 'mkSandbox id nm pj lb _ env iid roe rm sr pv spid ssock ncpid ncpg tap chs ncst ncs nct cds
    cpid br mv lm an ean := s in
  mkSandbox id nm pj lb v env iid roe rm sr pv spid ssock ncpid ncpg tap chs ncst ncs nct cds cpid
    br mv lm an ean.

Definition set_InstanceID (v : string) (s : Sandbox) : Sandbox :=
  let 'mkSandbox id nm pj lb st env _ roe rm sr pv spid ssock ncpid ncpg tap chs ncst ncs nct cds
    cpid br mv lm an ean := s in
  mkSandbox id nm pj lb st env v roe rm sr pv spid ssock ncpid ncpg tap chs ncst ncs nct cds cpid
    br mv lm an ean.

Definition set_RemovalMarker (v : bool) (s : Sandbox) : Sandbox :=
  let 'mkSandbox id nm pj lb st env iid roe _ sr pv spid ssock ncpid ncpg tap chs ncst ncs nct cds
    cpid br mv lm an ean := s in
  mkSandbox id nm pj lb st env iid roe v sr pv spid ssock ncpid ncpg tap chs ncst ncs nct cds cpid
    br mv lm an ean.

Definition set_SStopReason (v : StopReason) (s : Sandbox) : Sandbox :=
  let 'mkSandbox id nm pj lb st env iid roe rm _ pv spid ssock ncpid ncpg tap chs ncst ncs nct cds
    cpid br mv lm an ean := s in
  mkSandbox id nm pj lb st env iid roe rm v pv spid ssock ncpid ncpg tap chs ncst ncs nct cds cpid
    br mv lm an ean.

Definition set_SupervisorPID (v : Z) (s : Sandbox) : Sandbox :=
  let 'mkSandbox id nm pj lb st env iid roe rm sr pv _ ssock ncpid ncpg tap chs ncst ncs nct cds
    cpid br mv lm an ean := s in
  mkSandbox id nm pj lb st env iid roe rm sr pv v ssock ncpid ncpg tap chs ncst ncs nct cds cpid
    br mv lm an ean.

Definition set_SupervisorSock (v : string) (s : Sandbox) : Sandbox :=
  let 'mkSandbox id nm pj lb st env iid roe rm sr pv spid _ ncpid ncpg tap chs ncst ncs nct cds
    cpid br mv lm an ean := s in
  mkSandbox id nm pj lb st env iid roe rm sr pv spid v ncpid ncpg tap chs ncst ncs nct cds cpid br
    mv lm an ean.

Definition set_NetnsChildPID (v : Z) (s : Sandbox) : Sandbox :=
  let 'mkSandbox id nm pj lb st env iid roe rm sr pv spid ssock _ ncpg tap chs ncst ncs nct cds
    cpid br mv lm an ean := s in
  mkSandbox id nm pj lb st env iid roe rm sr pv spid ssock v ncpg tap chs ncst ncs nct cds cpid br
    mv lm an ean.

Definition set_NetnsChildPGID (v : Z) (s : Sandbox) : Sandbox :=
  let 'mkSandbox id nm pj lb st env iid roe rm sr pv spid ssock ncpid _ tap chs ncst ncs nct cds
    cpid br mv lm an ean := s in
  mkSandbox id nm pj lb st env iid roe rm sr pv spid ssock ncpid v tap chs ncst ncs nct cds cpid
    br mv lm an ean.

Definition set_NetnsChildStartTime (v : Z) (s : Sandbox) : Sandbox :=
  let 'mkSandbox id nm pj lb st env iid roe rm sr pv spid ssock ncpid ncpg tap chs _ ncs nct cds
    cpid br mv lm an ean := s in
  mkSandbox id nm pj lb st env iid roe rm sr pv spid ssock ncpid ncpg tap chs v ncs nct cds cpid
    br mv lm an ean.

Definition set_GuestTapName (v : string) (s : Sandbox) : Sandbox :=
  let 'mkSandbox id nm pj lb st env iid roe rm sr pv spid ssock ncpid ncpg _ chs ncst ncs nct cds
    cpid br mv lm an ean := s in
  mkSandbox id nm pj lb st env iid roe rm sr pv spid ssock ncpid ncpg v chs ncst ncs nct cds cpid
    br mv lm an ean.

Definition set_CHAPISocket (v : string) (s : Sandbox) : Sandbox :=
  let 'mkSandbox id nm pj lb st env iid roe rm sr pv spid ssock ncpid ncpg tap _ ncst ncs nct cds
    cpid br mv lm an ean := s in
  mkSandbox id nm pj lb st env iid roe rm sr pv spid ssock ncpid ncpg tap v ncst ncs nct cds cpid
    br mv lm an ean.

(** ** Branch policy and handles *)

Definition UnresolvedBranchSentinel : string :=
  "refs/heads/" +:+ String Ascii.zero "unresolved".

Definition ResolvedAllowedBranches (e : Envelope) : list string :=
  match AllowedBranches e with
  | [] => ["refs/heads/nexus/**"]
  | bs => bs
  end.

Definition slash : ascii := "/"%char.

Definition Handle (s : Sandbox) : string := Project s +:+ "/" +:+ Name s.

Definition ParseHandle (handle : string) : result string (string * string) :=
  match SplitN handle slash 2 with
  | [p; n] => if String.eqb p "" || String.eqb n "" then Err "invalid handle"
              else Ok (p, n)
  | _ => Err "invalid handle"
  end.

(** handles print and parse back, and parsing accepts nothing else: a
    successful [ParseHandle] splits the text at its first slash into two non-empty
    parts. *)
Lemma ParseHandle_spec handle p n :
  ParseHandle handle = Ok (p, n) ↔
  handle = p +:+ "/" +:+ n ∧ slash ∉ chars p ∧ p ≠ "" ∧ n ≠ "".
Proof.
  unfold ParseHandle. split.
  - destruct (SplitN handle slash 2) as [|a [|b [|]]] eqn:E; try discriminate.
    apply SplitN_2_inv in E as [-> Hp].
    destruct (String.eqb_spec a ""), (String.eqb_spec b ""); try discriminate.
    by intros [= <- <-].
  - intros (-> & Hp & Hpe & Hne). rewrite SplitN_2_join by done.
    by rewrite (proj2 (String.eqb_neq _ _) Hpe), (proj2 (String.eqb_neq _ _) Hne).
Qed.
