(* ===== verification/Store.v ===== *)
(** * internal/core/store: durable sandbox records

    Models [filestore.go]: the on-disk record and its two conversions, the
    two-phase versioned decode, the atomic record write (temp file, fsync, rename,
    directory fsync) with its failure and crash points, and every operation of
    [FileStore] over the directory tree [root/sandboxes/<id>/].

    The file system is a map from directory names to entries.  A file holds a
    document ([Doc]) rather than its JSON text: what [encoding/json] does with the
    record type is the identity on documents, except that text that is not a
    record, or is cut short, decodes to an error.  Each system call that can fail
    is a field of [IO], so every error path of the code is a path of the model. *)

From stdpp Require Import prelude gmap strings list sorting.
From Stdlib Require Import ZArith Ascii Lia.
From S2P Require Import Prelude GoStrings Domain Sandbox.

(** ** The on-disk record *)

Definition currentSchemaVersion : Z := 1.

Record provenanceRecord := mkProvenanceRecord {
  pr_ParentID : SandboxID;
  pr_SourceSnapshot : string;
}.

Record record := mkRecord {
  r_SchemaVersion : Z;
  r_ID : SandboxID;
  r_Name : string;
  r_Project : string;
  r_Labels : gmap string string;
  r_MotiveID : string;
  r_State : State;
  r_Envelope : Envelope;
  r_InstanceID : string;
  r_RemoveOnExit : bool;
  r_RemovalMarker : bool;
  r_StopReason : StopReason;
  r_Provenance : option provenanceRecord;
  r_SupervisorPID : Z;
  r_SupervisorSock : string;
  r_CreatorPID : Z;
  r_BaseRef : string;
  r_MountedVolumes : list VolumeAttachment;
  r_LiveMounts : list LiveMount;
  r_AgentName : string;
  r_NetnsChildPID : Z;
  r_NetnsChildPGID : Z;
  r_NetnsChildStartTime : Z;
  r_GuestTapName : string;
  r_CHAPISocket : string;
  r_NetnsControlSocket : string;
  r_NetnsControlToken : string;
  r_CacheDiskSlot : string;
}.

Definition toRecord (sb : Sandbox) : record := {|
  r_SchemaVersion := currentSchemaVersion;
  r_ID := ID sb;
  r_Name := Name sb;
  r_Project := Project sb;
  r_Labels := Labels sb;
  r_MotiveID := "";
  r_State := SState sb;
  r_Envelope := SEnvelope sb;
  r_InstanceID := InstanceID sb;
  r_RemoveOnExit := SRemoveOnExit sb;
  r_RemovalMarker := RemovalMarker sb;
  r_StopReason := SStopReason sb;
  r_Provenance :=
    (λ p, mkProvenanceRecord (pv_ParentID p) (pv_SourceSnapshot p)) <$> SProvenance sb;
  r_SupervisorPID := SupervisorPID sb;
  r_SupervisorSock := SupervisorSock sb;
  r_CreatorPID := CreatorPID sb;
  r_BaseRef := BaseRef sb;
  r_MountedVolumes := MountedVolumes sb;
  r_LiveMounts := LiveMounts sb;
  r_AgentName := AgentName sb;
  r_NetnsChildPID := NetnsChildPID sb;
  r_NetnsChildPGID := NetnsChildPGID sb;
  r_NetnsChildStartTime := NetnsChildStartTime sb;
  r_GuestTapName := GuestTapName sb;
  r_CHAPISocket := CHAPISocket sb;
  r_NetnsControlSocket := NetnsControlSocket sb;
  r_NetnsControlToken := NetnsControlToken sb;
  r_CacheDiskSlot := CacheDiskSlot sb;
|}.

(** The legacy [MotiveID] becomes the "motive" label unless that label is already
    set (a missing key reads as the empty string). *)
Definition migrate_labels (r : record) : gmap string string :=
  if negb (String.eqb (r_MotiveID r) "") then
    if String.eqb (default ""%string (r_Labels r !! "motive"%string)) ""
    then <["motive"%string := r_MotiveID r]> (r_Labels r)
    else r_Labels r
  else r_Labels r.

Definition toDomain (r : record) : Sandbox := {|
  ID := r_ID r;
  Name := r_Name r;
  Project := r_Project r;
  Labels := migrate_labels r;
  SState := r_State r;
  SEnvelope := r_Envelope r;
  InstanceID := r_InstanceID r;
  SRemoveOnExit := r_RemoveOnExit r;
  RemovalMarker := r_RemovalMarker r;
  SStopReason := r_StopReason r;
  SProvenance :=
    (λ p, mkProvenance (pr_ParentID p) (pr_SourceSnapshot p)) <$> r_Provenance r;
  SupervisorPID := r_SupervisorPID r;
  SupervisorSock := r_SupervisorSock r;
  CreatorPID := r_CreatorPID r;
  BaseRef := r_BaseRef r;
  MountedVolumes := r_MountedVolumes r;
  LiveMounts := r_LiveMounts r;
  AgentName := r_AgentName r;
  NetnsChildPID := r_NetnsChildPID r;
  NetnsChildPGID := r_NetnsChildPGID r;
  NetnsChildStartTime := r_NetnsChildStartTime r;
  GuestTapName := r_GuestTapName r;
  CHAPISocket := r_CHAPISocket r;
  NetnsControlSocket := r_NetnsControlSocket r;
  NetnsControlToken := r_NetnsControlToken r;
  CacheDiskSlot := r_CacheDiskSlot r;
  ExtraAgentNames := [];
|}.

(** ** Files *)

(** The document in a record file: not decodable even for its version, or a
    version with the record it decodes to (none when the full decode fails). *)
Inductive Doc :=
| DocBad
| DocVersion (v : Z) (body : option record).

(** A file's contents and whether they have reached stable storage. *)
Record File := mkFile { f_data : Doc; f_synced : bool }.

(** One sandbox directory: the lock file, [record.json] as a reader sees it,
    [record.json] as the directory on stable storage has it, and the temporary
    file of a write in progress. *)
Record SandboxDir := mkSandboxDir {
  sd_lock : bool;
  sd_record : option File;
  sd_disk : option File;
  sd_tmp : option File;
}.

(** An entry of [root/sandboxes]. *)
Inductive Entry := EntFile | EntDir (d : SandboxDir).

Abbreviation FS := (gmap string Entry).

Definition set_lock (d : SandboxDir) : SandboxDir :=
  mkSandboxDir true (sd_record d) (sd_disk d) (sd_tmp d).
Definition set_tmp (t : option File) (d : SandboxDir) : SandboxDir :=
  mkSandboxDir (sd_lock d) (sd_record d) (sd_disk d) t.
Definition partial_remove (lr : bool * bool) (d : SandboxDir) : SandboxDir :=
  mkSandboxDir (if lr.1 then false else sd_lock d) (if lr.2 then None else sd_record d)
    (if lr.2 then None else sd_disk d) (sd_tmp d).
Definition empty_dir : SandboxDir := mkSandboxDir false None None None.

(** ** Errors *)

Inductive store_error (E : Type) :=
| ErrCtx
| ErrNotFound
| ErrAlreadyExists
| ErrSchemaTooNew (found max : Z)
| ErrDecode
| ErrInvalidState
| ErrIO (op : string)
| ErrCallback (e : E)
| ErrResolve (e : resolve_error)
| ErrHandle.
Arguments ErrCtx {E}.
Arguments ErrNotFound {E}.
Arguments ErrAlreadyExists {E}.
Arguments ErrSchemaTooNew {E} _ _.
Arguments ErrDecode {E}.
Arguments ErrInvalidState {E}.
Arguments ErrIO {E} _.
Arguments ErrCallback {E} _.
Arguments ErrResolve {E} _.
Arguments ErrHandle {E}.

(** ** Atomic record writes *)

(** The system calls of [writeRecord], in program order. *)
Inductive wr_op := OpCreateTemp | OpWrite | OpSyncFile | OpClose | OpRename | OpSyncDir.

Definition write_record_prog : list wr_op :=
  [OpCreateTemp; OpWrite; OpSyncFile; OpClose; OpRename; OpSyncDir].

(** Effect of a successful call on the sandbox directory, for document [doc].  A
    rename changes what readers see at once; the directory on stable storage
    follows at the directory fsync. *)
Definition exec_op (doc : Doc) (op : wr_op) (d : SandboxDir) : SandboxDir :=
  match op with
  | OpCreateTemp => set_tmp (Some (mkFile DocBad false)) d
  | OpWrite => set_tmp (Some (mkFile doc false)) d
  | OpSyncFile => set_tmp ((λ f, mkFile (f_data f) true) <$> sd_tmp d) d
  | OpClose => d
  | OpRename => mkSandboxDir (sd_lock d) (sd_tmp d) (sd_disk d) None
  | OpSyncDir => mkSandboxDir (sd_lock d) (sd_record d) (sd_record d) (sd_tmp d)
  end.

(** Effect of a failed call: a failed write may have written a part. *)
Definition fail_op (op : wr_op) (d : SandboxDir) : SandboxDir :=
  match op with
  | OpWrite => set_tmp (Some (mkFile DocBad false)) d
  | _ => d
  end.

Fixpoint run_ops (fails : wr_op → bool) (doc : Doc) (ops : list wr_op) (d : SandboxDir)
    : SandboxDir * option wr_op :=
  match ops with
  | [] => (d, None)
  | op :: ops' =>
      if fails op then (fail_op op d, Some op)
      else run_ops fails doc ops' (exec_op doc op d)
  end.

Definition op_name (op : wr_op) : string :=
  match op with
  | OpCreateTemp => "create temp file"
  | OpWrite => "write temp file"
  | OpSyncFile => "fsync temp file"
  | OpClose => "close temp file"
  | OpRename => "rename"
  | OpSyncDir => "fsync dir"
  end.

(** [json.Marshal] of a record fails exactly when its state does not marshal. *)
Definition marshal_record (r : record) : option Doc :=
  if State_Valid (r_State r) then Some (DocVersion (r_SchemaVersion r) (Some r)) else None.

Definition writeRecord {E} (fails : wr_op → bool) (r : record) (d : SandboxDir)
    : SandboxDir * result (store_error E) unit :=
  match marshal_record r with
  | None => (d, Err (ErrIO "marshal record"))
  | Some doc =>
      match run_ops fails doc write_record_prog d with
      | (d', None) => (d', Ok tt)
      | (d', Some op) => (set_tmp None d', Err (ErrIO (op_name op)))
      end
  end.

(** The two-phase decode of a record file. *)
Definition readRecord {E} (f : option File) : result (store_error E) record :=
  match f with
  | None => Err ErrNotFound
  | Some f =>
      match f_data f with
      | DocBad => Err ErrDecode
      | DocVersion v body =>
          if currentSchemaVersion <? v then Err (ErrSchemaTooNew v currentSchemaVersion)
          else match body with None => Err ErrDecode | Some r => Ok r end
      end
  end.

Definition validateState {E} (s : State) : result (store_error E) unit :=
  if bool_decide (s ∈ AllStates) then Ok tt else Err ErrInvalidState.

(** ** Operations *)

(** What the operating system answers during one operation: [true] makes the call
    fail.  [io_removeall] is [Some (l, r)] when [os.RemoveAll] fails after it has
    removed the lock file (if [l]) and [record.json] (if [r]). *)
Record IO := mkIO {
  io_ctx : bool;
  io_mkdir : bool;
  io_sync_parent : bool;
  io_lock_init : bool;
  io_lock_open : bool;
  io_lock_acquire : bool;
  io_readdir : bool;
  io_read : string → bool;
  io_write : wr_op → bool;
  io_stat : bool;
  io_removeall : option (bool * bool);
}.

Definition io_none : IO :=
  mkIO false false false false false false false (λ _, false) (λ _, false) false None.

(** No system call fails and the context is live. *)
Definition healthy (io : IO) : Prop :=
  io_ctx io = false ∧ io_mkdir io = false ∧ io_sync_parent io = false ∧
  io_lock_init io = false ∧ io_lock_open io = false ∧ io_lock_acquire io = false ∧
  io_readdir io = false ∧ (∀ n, io_read io n = false) ∧ (∀ op, io_write io op = false) ∧
  io_stat io = false ∧ io_removeall io = None.

(** [sandboxDir]: the directory name of a sandbox. *)
Definition sandboxDir (id : SandboxID) : string := SandboxID_String id.

(** Reading [<name>/record.json]. *)
Definition read_at {E} (io : IO) (fs : FS) (name : string) : result (store_error E) record :=
  if io_read io name then Err (ErrIO "read record")
  else match fs !! name with
       | None => Err ErrNotFound
       | Some EntFile => Err (ErrIO "not a directory")
       | Some (EntDir d) => readRecord (sd_record d)
       end.

Definition Create {E} (io : IO) (sb : Sandbox) (fs : FS) : FS * result (store_error E) unit :=
  if io_ctx io then (fs, Err ErrCtx)
  else match validateState (SState sb) with
  | Err e => (fs, Err e)
  | Ok _ =>
      let name := sandboxDir (ID sb) in
      match fs !! name with
      | Some _ => (fs, Err ErrAlreadyExists)
      | None =>
          if io_mkdir io then (fs, Err (ErrIO "mkdir"))
          else
            let fs := <[name := EntDir empty_dir]> fs in
            if io_sync_parent io then (fs, Err (ErrIO "fsync dir"))
            else if io_lock_init io then (fs, Err (ErrIO "init lock file"))
            else
              let '(d, res) := writeRecord (io_write io) (toRecord sb) (set_lock empty_dir) in
              (<[name := EntDir d]> fs, res)
      end
  end.

Definition Get {E} (io : IO) (id : SandboxID) (fs : FS) : result (store_error E) Sandbox :=
  if io_ctx io then Err ErrCtx
  else match read_at io fs (sandboxDir id) with
       | Err e => Err e
       | Ok r => Ok (toDomain r)
       end.

(** [os.ReadDir] returns the entries sorted by name. *)
Definition name_le (a b : string * Entry) : Prop := String.leb a.1 b.1 = true.
#[global] Instance name_le_dec : RelDecision name_le.
Proof. intros a b. apply bool_eq_dec. Defined.
Definition dir_entries (fs : FS) : list (string * Entry) := merge_sort name_le (map_to_list fs).

(** The loop body of [List]: a directory whose record reads contributes, anything
    else is skipped. *)
Definition list_entry (io : IO) (fs : FS) (e : string * Entry) : option Sandbox :=
  match e.2 with
  | EntFile => None
  | EntDir _ => match read_at (E:=Empty_set) io fs e.1 with
                | Ok r => Some (toDomain r)
                | Err _ => None
                end
  end.

Definition List_ {E} (io : IO) (fs : FS) : result (store_error E) (list Sandbox) :=
  if io_ctx io then Err ErrCtx
  else if io_readdir io then Err (ErrIO "read dir")
  else Ok (omap (list_entry io fs) (dir_entries fs)).

(** [sb.Labels[k] != v] for some pair makes the match fail; a missing key reads
    as the empty string. *)
Definition labels_match (labels : gmap string string) (sb : Sandbox) : bool :=
  forallb (λ kv, String.eqb (default ""%string (Labels sb !! kv.1)) kv.2) (map_to_list labels).

Definition GetByLabels {E} (io : IO) (labels : gmap string string) (fs : FS)
    : result (store_error E) (list Sandbox) :=
  if io_ctx io then Err ErrCtx
  else if bool_decide (labels = ∅) then Ok []
  else let* all := List_ io fs in Ok (filter (λ sb, labels_match labels sb = true) all).

Definition GetByMotive {E} (io : IO) (motiveID : string) (fs : FS)
    : result (store_error E) (list Sandbox) :=
  if String.eqb motiveID "" then Ok []
  else GetByLabels io {["motive"%string := motiveID]} fs.

(** [OpenLock] opens the lock file of a sandbox, creating it when missing. *)
Definition open_lock {E} (io : IO) (name : string) (fs : FS)
    : result (store_error E) SandboxDir :=
  match fs !! name with
  | None => Err ErrNotFound
  | Some EntFile => Err (ErrIO "open lock")
  | Some (EntDir d) => if io_lock_open io then Err (ErrIO "open lock") else Ok (set_lock d)
  end.

(** [Update] runs its callback on the record read under the lock.  The callback's
    captured variables are the first component of its result; they are set only
    if the callback ran. *)
Definition Update {A E} (io : IO) (id : SandboxID) (fn : Sandbox → A * result E Sandbox)
    (fs : FS) : FS * option A * result (store_error E) unit :=
  let name := sandboxDir id in
  if io_ctx io then (fs, None, Err ErrCtx)
  else match open_lock io name fs with
  | Err e => (fs, None, Err e)
  | Ok d =>
      let fs := <[name := EntDir d]> fs in
      if io_lock_acquire io then (fs, None, Err (ErrIO "acquire lock"))
      else match read_at io fs name with
      | Err e => (fs, None, Err e)
      | Ok r =>
          match fn (toDomain r) with
          | (a, Err e) => (fs, Some a, Err (ErrCallback e))
          | (a, Ok sb) =>
              match validateState (SState sb) with
              | Err e => (fs, Some a, Err e)
              | Ok _ =>
                  let '(d', res) := writeRecord (io_write io) (toRecord sb) d in
                  (<[name := EntDir d']> fs, Some a, res)
              end
          end
      end
  end.

Definition Delete {E} (io : IO) (id : SandboxID) (fs : FS) : FS * result (store_error E) unit :=
  let name := sandboxDir id in
  if io_ctx io then (fs, Err ErrCtx)
  else if io_stat io then (fs, Err (ErrIO "stat"))
  else match fs !! name with
  | None => (fs, Err ErrNotFound)
  | Some _ =>
      match open_lock (E:=E) io name fs with
      | Err _ => (fs, Err (ErrIO "open lock"))
      | Ok d =>
          let fs := <[name := EntDir d]> fs in
          if io_lock_acquire io then (fs, Err (ErrIO "acquire lock"))
          else match io_removeall io with
          | Some lr => (<[name := EntDir (partial_remove lr d)]> fs, Err (ErrIO "remove"))
          | None =>
              let fs := delete name fs in
              if io_sync_parent io then (fs, Err (ErrIO "fsync dir")) else (fs, Ok tt)
          end
      end
  end.

Definition SetRemovalMarker (io : IO) (id : SandboxID) (fs : FS)
    : FS * result (store_error Empty_set) unit :=
  let '(fs', _, res) := Update (A:=unit) io id (λ sb, (tt, Ok (set_RemovalMarker true sb))) fs in
  (fs', res).

Definition ClearRemovalMarker (io : IO) (id : SandboxID) (fs : FS)
    : FS * result (store_error Empty_set) unit :=
  let '(fs', _, res) := Update (A:=unit) io id (λ sb, (tt, Ok (set_RemovalMarker false sb))) fs in
  (fs', res).

Definition ResolveByPrefix {E} (io : IO) (prefix : string) (fs : FS)
    : result (store_error E) Sandbox :=
  let* all := List_ io fs in
  match ResolvePrefix prefix (ID <$> all) with
  | Err e => Err (ErrResolve e)
  | Ok id => Get io id fs
  end.

Definition handle_matches (project name : string) (sb : Sandbox) : bool :=
  String.eqb (Project sb) project && String.eqb (Name sb) name.

Fixpoint find_sandbox (f : Sandbox → bool) (l : list Sandbox) : option Sandbox :=
  match l with
  | [] => None
  | sb :: l' => if f sb then Some sb else find_sandbox f l'
  end.

Definition ResolveByHandle {E} (io : IO) (handle : string) (fs : FS)
    : result (store_error E) Sandbox :=
  match ParseHandle handle with
  | Err _ => Err ErrHandle
  | Ok (project, name) =>
      let* all := List_ io fs in
      match find_sandbox (handle_matches project name) all with
      | Some sb => Ok sb
      | None => Err ErrNotFound
      end
  end.

(** ** Abstract view: a partial map from identifiers to sandboxes *)

(** What survives a trip through the record. *)
Definition persisted (sb : Sandbox) : Sandbox :=
  let 'mkSandbox id nm pj lb st env iid roe rm sr pv spid ssock ncpid ncpg tap chs ncst ncs nct
    cds cpid br mv lm an _ := sb in
  mkSandbox id nm pj lb st env iid roe rm sr pv spid ssock ncpid ncpg tap chs ncst ncs nct cds
    cpid br mv lm an [].

Definition dir_sandbox (d : SandboxDir) : option Sandbox :=
  match readRecord (E:=Empty_set) (sd_record d) with Ok r => Some (toDomain r) | Err _ => None end.

Definition lookup_sandbox (fs : FS) (id : SandboxID) : option Sandbox :=
  match fs !! sandboxDir id with
  | Some (EntDir d) => dir_sandbox d
  | _ => None
  end.

Lemma toDomain_toRecord sb : toDomain (toRecord sb) = persisted sb.
Proof. destruct sb as [??????????[[??]|]????????????????]; reflexivity. Qed.

Lemma persisted_idemp sb : persisted (persisted sb) = persisted sb.
Proof. by destruct sb. Qed.

Lemma migrate_labels_spec r :
  migrate_labels r !! "motive"%string =
  match r_Labels r !! "motive"%string with
  | Some m => if String.eqb m "" && negb (String.eqb (r_MotiveID r) "")
              then Some (r_MotiveID r) else Some m
  | None => if String.eqb (r_MotiveID r) "" then None else Some (r_MotiveID r)
  end.
Proof.
  unfold migrate_labels. destruct (String.eqb (r_MotiveID r) ""); simpl.
  - destruct (r_Labels r !! _); by rewrite ?andb_false_r.
  - destruct (r_Labels r !! _) as [m|] eqn:E; simpl; [|by rewrite lookup_insert_eq].
    rewrite andb_true_r. destruct (String.eqb m ""); [by rewrite lookup_insert_eq|done].
Qed.

Lemma string_app_inj_l (p s t : string) : p +:+ s = p +:+ t → s = t.
Proof. induction p as [|c p IH]; simpl; [done|]. intros [= H]. auto. Qed.

Lemma sandboxDir_inj id1 id2 :
  wf_id id1 → wf_id id2 → sandboxDir id1 = sandboxDir id2 → id1 = id2.
Proof.
  unfold sandboxDir, SandboxID_String. intros H1 H2 H%string_app_inj_l.
  by apply crockfordEncode_inj.
Qed.

Lemma readRecord_ok_indep {E1 E2} f r :
  readRecord (E:=E1) f = Ok r → readRecord (E:=E2) f = Ok r.
Proof. unfold readRecord. repeat case_match; by intros [= <-]. Qed.

Lemma validateState_ok {E} s : validateState (E:=E) s = Ok tt ↔ State_Valid s = true.
Proof.
  unfold validateState. rewrite State_Valid_AllStates. case_bool_decide; naive_solver.
Qed.

(** ** The atomic write *)

Definition new_file (r : record) : File :=
  mkFile (DocVersion (r_SchemaVersion r) (Some r)) true.

Lemma writeRecord_spec {E} fails r d :
  State_Valid (r_State r) = true →
  match writeRecord (E:=E) fails r d with
  | (d', Ok _) => sd_record d' = Some (new_file r) ∧ sd_disk d' = Some (new_file r)
  | (d', Err _) => sd_record d' = sd_record d ∨ sd_record d' = Some (new_file r)
  end ∧ sd_lock (writeRecord (E:=E) fails r d).1 = sd_lock d.
Proof.
  intros Hs. unfold writeRecord, marshal_record. rewrite Hs.
  unfold write_record_prog, run_ops. by repeat case_match; simplify_eq/=; auto.
Qed.

Lemma writeRecord_healthy {E} fails r d :
  State_Valid (r_State r) = true → (∀ op, fails op = false) →
  ∃ d', writeRecord (E:=E) fails r d = (d', Ok tt).
Proof.
  intros Hs Hf. unfold writeRecord, marshal_record. rewrite Hs.
  unfold write_record_prog, run_ops. rewrite !Hf. eauto.
Qed.

(** What a file can be after a power cut: its contents if they were synced, else
    possibly cut short. *)
Definition file_outcomes (f : option File) : list (option Doc) :=
  match f with
  | None => [None]
  | Some f => if f_synced f then [Some (f_data f)] else [Some (f_data f); Some DocBad]
  end.

(** After a power cut [record.json] is the file of the directory on stable storage,
    or the file last renamed over it. *)
Definition crash_outcomes (d : SandboxDir) : list (option Doc) :=
  file_outcomes (sd_disk d) ++ file_outcomes (sd_record d).

(** No write in progress: readers and stable storage agree on a synced record. *)
Definition settled (d : SandboxDir) : Prop :=
  sd_disk d = sd_record d ∧ ∀ f, sd_record d = Some f → f_synced f = true.

Lemma settled_outcomes d o :
  settled d → o ∈ crash_outcomes d → o = f_data <$> sd_record d.
Proof.
  intros [H1 H2]. unfold crash_outcomes. rewrite H1. unfold file_outcomes.
  destruct (sd_record d) as [f|]; simpl; [rewrite (H2 f) by done|]; set_solver.
Qed.

(** C34: a record write is atomic under a kill of the process and under a power
    cut.  After any number of the system calls of [writeRecord], a live reader sees
    the old document or the new one, and so does a reader after a power cut; once
    all calls have returned, only the new one can be found. *)
Theorem writeRecord_crash_atomic k doc d :
  settled d →
  let d' := (run_ops (λ _, false) doc (take k write_record_prog) d).1 in
  (f_data <$> sd_record d' = f_data <$> sd_record d ∨ f_data <$> sd_record d' = Some doc) ∧
  (∀ o, o ∈ crash_outcomes d' → o = f_data <$> sd_record d ∨ o = Some doc) ∧
  ((6 ≤ k)%nat → ∀ o, o ∈ crash_outcomes d' → o = Some doc).
Proof.
  intros Hs d'. pose proof (settled_outcomes d) as Hold. destruct Hs as [Hdisk Hsync].
  assert (Hs : settled d) by done.
  assert (Hfo : ∀ o, o ∈ file_outcomes (sd_disk d) → o = f_data <$> sd_record d).
  { intros o Ho. apply Hold; [done|]. unfold crash_outcomes. set_solver. }
  assert (Hfr : ∀ o, o ∈ file_outcomes (sd_record d) → o = f_data <$> sd_record d).
  { intros o Ho. apply Hold; [done|]. unfold crash_outcomes. set_solver. }
  assert (Hk : (6 ≤ k)%nat ∨ (k < 6)%nat) by lia.
  destruct Hk as [Hk|Hk].
  - subst d'. rewrite take_ge by (simpl; lia). simpl. unfold crash_outcomes. simpl. split; [auto|].
    setoid_rewrite elem_of_cons. setoid_rewrite list_elem_of_singleton. naive_solver.
  - do 6 (destruct k as [|k]; [cbn in d'; subst d'; simpl; unfold crash_outcomes; simpl;
      split_and!; [auto|setoid_rewrite elem_of_app;
        setoid_rewrite list_elem_of_singleton || idtac; naive_solver|lia]|]). lia.
Qed.

(** ** Operations against the abstract view *)

Lemma lookup_insert_dir fs id d :
  lookup_sandbox (<[sandboxDir id := EntDir d]> fs) id = dir_sandbox d.
Proof. unfold lookup_sandbox. by rewrite lookup_insert_eq. Qed.

Lemma lookup_insert_other fs id id' e :
  wf_id id → wf_id id' → id' ≠ id →
  lookup_sandbox (<[sandboxDir id := e]> fs) id' = lookup_sandbox fs id'.
Proof.
  intros H1 H2 Hne. unfold lookup_sandbox.
  rewrite lookup_insert_ne; [done|]. intros Heq. by apply Hne, sandboxDir_inj.
Qed.

Lemma lookup_delete_other fs id id' :
  wf_id id → wf_id id' → id' ≠ id →
  lookup_sandbox (delete (sandboxDir id) fs) id' = lookup_sandbox fs id'.
Proof.
  intros H1 H2 Hne. unfold lookup_sandbox.
  rewrite lookup_delete_ne; [done|]. intros Heq. by apply Hne, sandboxDir_inj.
Qed.

Lemma dir_sandbox_set_lock d : dir_sandbox (set_lock d) = dir_sandbox d.
Proof. done. Qed.

Lemma dir_sandbox_new d sb :
  sd_record d = Some (new_file (toRecord sb)) → dir_sandbox d = Some (persisted sb).
Proof. unfold dir_sandbox. intros ->. by rewrite <- toDomain_toRecord. Qed.

Lemma open_lock_ok {E} io name fs d :
  open_lock (E:=E) io name fs = Ok d → ∃ d0, fs !! name = Some (EntDir d0) ∧ d = set_lock d0.
Proof. unfold open_lock. repeat case_match; intros [= <-]; eauto. Qed.

Lemma dir_sandbox_read {E} d r :
  readRecord (E:=E) (sd_record d) = Ok r → dir_sandbox d = Some (toDomain r).
Proof. intros H. unfold dir_sandbox. by rewrite (readRecord_ok_indep _ _ H). Qed.

Lemma readRecord_missing {E} d e :
  readRecord (E:=E) (sd_record d) = Err e → dir_sandbox d = None.
Proof.
  unfold dir_sandbox. destruct (readRecord (E:=Empty_set) (sd_record d)) as [r|] eqn:Er; [|done].
  apply (readRecord_ok_indep (E2:=E)) in Er. congruence.
Qed.

Ltac same_lookup :=
  unfold lookup_sandbox; rewrite lookup_insert_eq, dir_sandbox_set_lock;
  match goal with H : _ !! sandboxDir _ = Some (EntDir _) |- _ => rewrite H end; done.

(** An error of the store itself, not one returned by the callback. *)
Definition own_failure {E A} (res : result (store_error E) A) : bool :=
  match res with Ok _ | Err (ErrCallback _) => false | Err _ => true end.

Lemma own_failure_open_lock {E A} io name fs e :
  open_lock (E:=E) io name fs = Err e → own_failure (Err e : result (store_error E) A) = true.
Proof. unfold open_lock. repeat case_match; by intros [= <-]. Qed.

Lemma own_failure_readRecord {E A} f e :
  readRecord (E:=E) f = Err e → own_failure (Err e : result (store_error E) A) = true.
Proof. unfold readRecord. repeat case_match; by intros [= <-]. Qed.

Lemma own_failure_validateState {E A} st e :
  validateState (E:=E) st = Err e → own_failure (Err e : result (store_error E) A) = true.
Proof. unfold validateState. repeat case_match; by intros [= <-]. Qed.

Lemma own_failure_writeRecord {E} fails r d d' e :
  writeRecord (E:=E) fails r d = (d', Err e) →
  own_failure (Err e : result (store_error E) unit) = true.
Proof. unfold writeRecord. repeat case_match; by intros [= <- <-]. Qed.

(** How [Update] acts on the updated identifier, whatever the operating system
    answers. *)
Definition update_effect {A E} (fn : Sandbox → A * result E Sandbox)
    (before after : option Sandbox) (out : option A) (res : result (store_error E) unit) : Prop :=
  match out with
  | None => after = before ∧ own_failure res = true
  | Some a =>
      ∃ sb, before = Some sb ∧ (fn sb).1 = a ∧
      match (fn sb).2 with
      | Err e => after = before ∧ res = Err (ErrCallback e)
      | Ok sb' =>
          match res with
          | Ok _ => after = Some (persisted sb') ∧ State_Valid (SState sb') = true
          | Err _ => own_failure res = true ∧
                     (after = before ∨
                      after = Some (persisted sb') ∧ State_Valid (SState sb') = true)
          end
      end
  end.

Lemma Update_effect {A E} io id (fn : Sandbox → A * result E Sandbox) fs fs' out res :
  Update io id fn fs = (fs', out, res) →
  update_effect fn (lookup_sandbox fs id) (lookup_sandbox fs' id) out res.
Proof.
  unfold Update. destruct (io_ctx io); [by intros [= <- <- <-]|].
  destruct (open_lock io (sandboxDir id) fs) as [d|e] eqn:El;
    [|intros [= <- <- <-]; split; [done|exact (own_failure_open_lock _ _ _ _ El)]].
  apply open_lock_ok in El as (d0 & Hd0 & ->).
  destruct (io_lock_acquire io); [intros [= <- <- <-]; split; [same_lookup|done]|].
  unfold read_at. rewrite lookup_insert_eq.
  destruct (io_read io _); [intros [= <- <- <-]; split; [same_lookup|done]|].
  destruct (readRecord (sd_record (set_lock d0))) as [r|e] eqn:Er;
    [|intros [= <- <- <-]; split; [same_lookup|exact (own_failure_readRecord _ _ Er)]].
  apply dir_sandbox_read in Er. rewrite dir_sandbox_set_lock in Er.
  assert (Hb : lookup_sandbox fs id = Some (toDomain r))
    by (unfold lookup_sandbox; by rewrite Hd0).
  rewrite Hb. destruct (fn (toDomain r)) as [a [sb'|e]] eqn:Ef; cycle 1.
  { intros [= <- <- <-]. exists (toDomain r).
    by rewrite Ef, lookup_insert_dir, dir_sandbox_set_lock, Er. }
  destruct (validateState (SState sb')) as [[]|e] eqn:Ev; cycle 1.
  { intros [= <- <- <-]. exists (toDomain r).
    rewrite Ef, lookup_insert_dir, dir_sandbox_set_lock, Er. simpl.
    split; [done|split; [done|]]. split; [exact (own_failure_validateState (A:=unit) _ _ Ev)|by left]. }
  apply validateState_ok in Ev.
  destruct (writeRecord_spec (E:=E) (io_write io) (toRecord sb') (set_lock d0) Ev) as [Hw _].
  destruct (writeRecord _ _ _) as [d' [[]|e]] eqn:Ew; intros [= <- <- <-];
    exists (toDomain r); rewrite Ef, lookup_insert_dir; (split; [done|split; [done|]]).
  - split; [|done]. by apply dir_sandbox_new, Hw.
  - split; [exact (own_failure_writeRecord _ _ _ _ _ Ew)|].
    destruct Hw as [Hw|Hw]; [left|right; split; [by apply dir_sandbox_new|done]].
    rewrite <- Er. unfold dir_sandbox. by rewrite Hw.
Qed.

Lemma Update_frame {A E} io id id' (fn : Sandbox → A * result E Sandbox) fs :
  wf_id id → wf_id id' → id' ≠ id →
  lookup_sandbox (Update io id fn fs).1.1 id' = lookup_sandbox fs id'.
Proof.
  intros H1 H2 Hne. unfold Update. repeat (case_match; simplify_eq/=); try done;
    by rewrite !lookup_insert_other.
Qed.

Lemma Update_healthy {A E} io id (fn : Sandbox → A * result E Sandbox) fs sb :
  healthy io → lookup_sandbox fs id = Some sb →
  (Update io id fn fs).1.2 = Some (fn sb).1 ∧
  ∀ sb', (fn sb).2 = Ok sb' → State_Valid (SState sb') = true → (Update io id fn fs).2 = Ok tt.
Proof.
  intros (Hc & _ & _ & _ & Hlo & Hla & _ & Hr & Hw & _) Hl.
  unfold lookup_sandbox in Hl.
  destruct (fs !! sandboxDir id) as [[|d]|] eqn:Hd; try discriminate.
  unfold dir_sandbox in Hl.
  destruct (readRecord (E:=Empty_set) (sd_record d)) as [r|] eqn:Er; [|done].
  injection Hl as <-. apply (readRecord_ok_indep (E2:=E)) in Er.
  unfold Update, open_lock, read_at. rewrite Hc, Hd, Hlo, Hla, lookup_insert_eq, Hr. simpl.
  rewrite Er. destruct (fn (toDomain r)) as [a [sb'|e]] eqn:Ef; [|by split].
  destruct (validateState (SState sb')) as [[]|] eqn:Ev; simpl.
  - apply validateState_ok in Ev.
    destruct (writeRecord_healthy (E:=E) (io_write io) (toRecord sb') (set_lock d) Ev Hw) as [d' ->].
    split; [done|]. auto.
  - split; [done|]. intros sb'' [= <-] Hv. apply (validateState_ok (E:=E)) in Hv. congruence.
Qed.

(** C26: [Update] is an atomic read-modify-write.  For every answer of the operating
    system: other sandboxes are untouched; if the callback did not run the record
    is unchanged and an error is returned; if it ran, it ran on the stored record,
    and then a callback error is returned as is with the record unchanged, success
    means the callback's (valid) record is what is stored, and any other error
    leaves either the old record or the new one.  With no failing call, an existing
    sandbox always has the callback run and its valid result stored. *)
Theorem Update_atomic {A E} io id (fn : Sandbox → A * result E Sandbox) fs :
  wf_id id →
  let '(fs', out, res) := Update io id fn fs in
  update_effect fn (lookup_sandbox fs id) (lookup_sandbox fs' id) out res ∧
  (∀ id', wf_id id' → id' ≠ id → lookup_sandbox fs' id' = lookup_sandbox fs id') ∧
  (∀ sb, healthy io → lookup_sandbox fs id = Some sb → out = Some (fn sb).1 ∧
     ∀ sb', (fn sb).2 = Ok sb' → State_Valid (SState sb') = true → res = Ok tt).
Proof.
  intros Hid. destruct (Update io id fn fs) as [[fs' out] res] eqn:E1. split_and!.
  - by eapply Update_effect.
  - intros id' Hid' Hne. pose proof (Update_frame io id id' fn fs Hid Hid' Hne) as H.
    by rewrite E1 in H.
  - intros sb Hh Hl. pose proof (Update_healthy io id fn fs sb Hh Hl) as H.
    by rewrite E1 in H.
Qed.

(** [Create].  With no failing call, a sandbox in a durable state whose
    directory does not exist is stored and found by [Get]; an existing directory,
    even one left without a record by an interrupted create, yields
    [ErrAlreadyExists] and nothing changes; in every case the other sandboxes are
    untouched. *)
Lemma Create_spec {E} io sb fs :
  wf_id (ID sb) →
  let '(fs', res) := Create (E:=E) io sb fs in
  (∀ id', wf_id id' → id' ≠ ID sb → lookup_sandbox fs' id' = lookup_sandbox fs id') ∧
  (is_Some (fs !! sandboxDir (ID sb)) → fs' = fs ∧ is_ok res = false) ∧
  (healthy io → State_Valid (SState sb) = true → fs !! sandboxDir (ID sb) = None →
     res = Ok tt ∧ Get (E:=E) io (ID sb) fs' = Ok (persisted sb)).
Proof.
  intros Hid. destruct (Create io sb fs) as [fs' res] eqn:Ec. split_and!.
  - intros id' Hid' Hne. unfold Create in Ec.
    repeat (case_match; simplify_eq/=); try done; by rewrite !lookup_insert_other.
  - intros [e He]. unfold Create in Ec. rewrite He in Ec. repeat (case_match; simplify_eq/=); done.
  - intros (Hc & Hm & Hsp & Hli & _ & _ & _ & Hr & Hw & _) Hv Hfree. unfold Create in Ec.
    rewrite Hc, Hfree, Hm, Hsp, Hli in Ec.
    rewrite (proj2 (validateState_ok _)) in Ec by done.
    destruct (writeRecord_spec (E:=E) (io_write io) (toRecord sb) (set_lock empty_dir) Hv) as [Hs _].
    destruct (writeRecord_healthy (E:=E) (io_write io) (toRecord sb) (set_lock empty_dir) Hv Hw)
      as [d' Hd']. rewrite Hd' in Ec, Hs. simplify_eq/=. destruct Hs as [Hs _]. split; [done|].
    unfold Get, read_at. rewrite Hc, Hr, lookup_insert_eq, Hs. simpl.
    by rewrite toDomain_toRecord.
Qed.

Lemma Delete_frame {E} io id id' fs :
  wf_id id → wf_id id' → id' ≠ id →
  lookup_sandbox (Delete (E:=E) io id fs).1 id' = lookup_sandbox fs id'.
Proof.
  intros H1 H2 Hne. unfold Delete. repeat (case_match; simplify_eq/=); try done;
    by rewrite ?lookup_delete_other, ?lookup_insert_other by done.
Qed.

Lemma Delete_healthy {E} io id fs d :
  healthy io → fs !! sandboxDir id = Some (EntDir d) →
  Delete (E:=E) io id fs = (delete (sandboxDir id) fs, Ok tt).
Proof.
  intros (Hc & _ & Hsp & _ & Hlo & Hla & _ & _ & _ & Hst & Hra) Hd.
  unfold Delete, open_lock. rewrite Hc, Hst, Hd, Hlo, Hla, Hra, Hsp.
  by rewrite delete_insert_eq.
Qed.

Lemma lookup_sandbox_dir fs id sb :
  lookup_sandbox fs id = Some sb → ∃ d, fs !! sandboxDir id = Some (EntDir d).
Proof. unfold lookup_sandbox. destruct (fs !! _) as [[|d]|]; [done|eauto|done]. Qed.

Lemma lookup_sandbox_deleted fs id : lookup_sandbox (delete (sandboxDir id) fs) id = None.
Proof. unfold lookup_sandbox. by rewrite lookup_delete_eq. Qed.

Lemma Get_lookup {E} io id fs sb :
  healthy io → Get (E:=E) io id fs = Ok sb ↔ lookup_sandbox fs id = Some sb.
Proof.
  intros (Hc & _ & _ & _ & _ & _ & _ & Hr & _). unfold Get, read_at, lookup_sandbox, dir_sandbox.
  rewrite Hc, Hr. destruct (fs !! _) as [[|d]|]; [done| |done].
  destruct (readRecord (sd_record d)) as [r|e] eqn:Er.
  - rewrite (readRecord_ok_indep _ _ Er). split; by intros [= <-].
  - destruct (readRecord (E:=Empty_set) (sd_record d)) as [r'|e'] eqn:Er'; [|done].
    apply (readRecord_ok_indep (E2:=E)) in Er'. congruence.
Qed.

(** ** Listing and resolving *)

Lemma dir_entries_elem fs n e : (n, e) ∈ dir_entries fs ↔ fs !! n = Some e.
Proof.
  unfold dir_entries. rewrite (merge_sort_Permutation name_le). apply elem_of_map_to_list.
Qed.

Lemma List_elem {E} io fs sb :
  healthy io →
  ∃ l, List_ (E:=E) io fs = Ok l ∧
  (sb ∈ l ↔ ∃ n d, fs !! n = Some (EntDir d) ∧ dir_sandbox d = Some sb).
Proof.
  intros (Hc & _ & _ & _ & _ & _ & Hrd & Hr & _). unfold List_. rewrite Hc, Hrd.
  eexists; split; [done|]. rewrite list_elem_of_omap. split.
  - intros ([n e] & Hin%dir_entries_elem & He). unfold list_entry, read_at in He. simpl in He.
    destruct e as [|d]; [done|]. rewrite Hr, Hin in He. exists n, d. split; [done|].
    unfold dir_sandbox. by repeat case_match; simplify_eq.
  - intros (n & d & Hn & Hd). exists (n, EntDir d). split; [by apply dir_entries_elem|].
    unfold list_entry, read_at. simpl. rewrite Hr, Hn. done.
Qed.

Lemma find_sandbox_spec f l :
  match find_sandbox f l with
  | Some sb => sb ∈ l ∧ f sb = true
  | None => ∀ sb, sb ∈ l → f sb = false
  end.
Proof.
  induction l as [|x l IH]; simpl; [by intros ? ?%elem_of_nil|].
  destruct (f x) eqn:E; [by rewrite elem_of_cons; auto|].
  destruct (find_sandbox f l) as [sb|].
  - rewrite elem_of_cons. naive_solver.
  - intros sb [->|Hin]%elem_of_cons; auto.
Qed.

(** ** The directory invariant *)

(** Every readable record lies in the directory named by its own identifier. *)
Definition store_wf (fs : FS) : Prop :=
  ∀ n d sb, fs !! n = Some (EntDir d) → dir_sandbox d = Some sb →
            n = sandboxDir (ID sb) ∧ wf_id (ID sb).

Lemma store_wf_lookup fs id sb :
  store_wf fs → wf_id id → lookup_sandbox fs id = Some sb → ID sb = id.
Proof.
  intros Hwf Hid Hl. destruct (lookup_sandbox_dir _ _ _ Hl) as [d Hd].
  unfold lookup_sandbox in Hl. rewrite Hd in Hl.
  destruct (Hwf _ _ _ Hd Hl) as [Hn Hw]. symmetry. by apply sandboxDir_inj.
Qed.

Lemma ID_persisted sb : ID (persisted sb) = ID sb.
Proof. by destruct sb. Qed.
Lemma SState_persisted sb : SState (persisted sb) = SState sb.
Proof. by destruct sb. Qed.

Lemma store_wf_insert fs n d :
  store_wf fs →
  (∀ sb, dir_sandbox d = Some sb → n = sandboxDir (ID sb) ∧ wf_id (ID sb)) →
  store_wf (<[n := EntDir d]> fs).
Proof.
  intros Hwf Hd m d' sb. destruct (decide (m = n)) as [->|Hne].
  - rewrite lookup_insert_eq. intros [= <-]. apply Hd.
  - rewrite lookup_insert_ne by done. apply Hwf.
Qed.

Lemma store_wf_delete fs n : store_wf fs → store_wf (delete n fs).
Proof. intros Hwf m d sb [_ Hm]%lookup_delete_Some. by apply Hwf. Qed.

Lemma store_wf_reinsert fs n d d' :
  store_wf fs → fs !! n = Some (EntDir d) → sd_record d' = sd_record d ∨ sd_record d' = None →
  store_wf (<[n := EntDir d']> fs).
Proof.
  intros Hwf Hn Hd. apply store_wf_insert; [done|]. intros sb Hsb.
  unfold dir_sandbox in Hsb. destruct Hd as [Hd|Hd]; rewrite Hd in Hsb; [|done].
  by eapply Hwf.
Qed.

Lemma store_wf_write {E} fs sb d fails :
  store_wf fs → wf_id (ID sb) → State_Valid (SState sb) = true →
  (∀ sb0, dir_sandbox d = Some sb0 → ID sb0 = ID sb) →
  store_wf (<[sandboxDir (ID sb) := EntDir (writeRecord (E:=E) fails (toRecord sb) d).1]> fs).
Proof.
  intros Hwf Hid Hv Hd. destruct (writeRecord_spec (E:=E) fails (toRecord sb) d Hv) as [Hw _].
  destruct (writeRecord _ _ _) as [d' res]. simpl. apply store_wf_insert; [done|].
  assert (sd_record d' = sd_record d ∨ sd_record d' = Some (new_file (toRecord sb)))
    as [Heq|Heq] by (destruct res; [right; apply Hw|exact Hw]).
  - intros sb0 H0. unfold dir_sandbox in H0, Hd. rewrite Heq in H0. by rewrite (Hd _ H0).
  - intros sb0 H0. rewrite (dir_sandbox_new _ _ Heq) in H0. injection H0 as <-.
    by rewrite ID_persisted.
Qed.

Lemma Create_store_wf {E} io sb fs :
  wf_id (ID sb) → store_wf fs → store_wf (Create (E:=E) io sb fs).1.
Proof.
  intros Hid Hwf. unfold Create. destruct (io_ctx io); [done|].
  destruct (validateState (SState sb)) as [[]|e] eqn:Ev; [|done].
  apply validateState_ok in Ev. destruct (fs !! _); [done|].
  assert (He : store_wf (<[sandboxDir (ID sb) := EntDir empty_dir]> fs))
    by (by apply store_wf_insert).
  destruct (io_mkdir io); [done|]. destruct (io_sync_parent io); [done|].
  destruct (io_lock_init io); [done|].
  pose proof (store_wf_write (E:=E) _ sb (set_lock empty_dir) (io_write io) He Hid Ev) as H.
  destruct (writeRecord _ _ _). by apply H.
Qed.

Lemma Update_store_wf {A E} io id (fn : Sandbox → A * result E Sandbox) fs :
  wf_id id → (∀ sb sb', (fn sb).2 = Ok sb' → ID sb' = ID sb) → store_wf fs →
  store_wf (Update io id fn fs).1.1.
Proof.
  intros Hid Hfn Hwf. unfold Update. destruct (io_ctx io); [done|].
  destruct (open_lock io (sandboxDir id) fs) as [d|e] eqn:El; [|done].
  apply open_lock_ok in El as (d0 & Hd0 & ->).
  assert (Hl : store_wf (<[sandboxDir id := EntDir (set_lock d0)]> fs))
    by (eapply store_wf_reinsert; eauto).
  destruct (io_lock_acquire io); [done|]. unfold read_at. rewrite lookup_insert_eq.
  destruct (io_read io _); [done|].
  destruct (readRecord (sd_record (set_lock d0))) as [r|e] eqn:Er; [|done].
  apply dir_sandbox_read in Er. rewrite dir_sandbox_set_lock in Er.
  destruct (Hwf _ _ _ Hd0 Er) as [Hn Hw].
  apply sandboxDir_inj in Hn; [|done..].
  destruct (fn (toDomain r)) as [a [sb'|e]] eqn:Ef; [|done].
  specialize (Hfn (toDomain r) sb'). rewrite Ef in Hfn. specialize (Hfn eq_refl).
  destruct (validateState (SState sb')) as [[]|e] eqn:Ev; [|done]. apply validateState_ok in Ev.
  pose proof (store_wf_write (E:=E) _ sb' (set_lock d0) (io_write io) Hl) as H.
  destruct (writeRecord _ _ _). assert (Heq : ID sb' = id) by congruence. rewrite Heq in H.
  apply H; [done|done|]. intros sb0 H0. rewrite dir_sandbox_set_lock, Er in H0.
  injection H0 as <-. congruence.
Qed.

Lemma Delete_store_wf {E} io id fs : store_wf fs → store_wf (Delete (E:=E) io id fs).1.
Proof.
  intros Hwf. unfold Delete. destruct (io_ctx io), (io_stat io); try done.
  destruct (fs !! _); [|done].
  destruct (open_lock io (sandboxDir id) fs) as [d|e'] eqn:El; [|done].
  apply open_lock_ok in El as (d0 & Hd0 & ->).
  assert (Hl : store_wf (<[sandboxDir id := EntDir (set_lock d0)]> fs))
    by (eapply store_wf_reinsert; eauto).
  destruct (io_lock_acquire io); [done|]. destruct (io_removeall io) as [lr|].
  - eapply store_wf_reinsert; [done|by rewrite lookup_insert_eq|].
    simpl. destruct lr.2; auto.
  - destruct (io_sync_parent io); by apply store_wf_delete.
Qed.

(** What a [Delete] can do to the deleted identifier. *)
Lemma Delete_effect {E} io id fs :
  let '(fs', res) := Delete (E:=E) io id fs in
  (lookup_sandbox fs' id = lookup_sandbox fs id ∨ lookup_sandbox fs' id = None) ∧
  (res = Ok tt → is_Some (fs !! sandboxDir id) ∧ fs' !! sandboxDir id = None).
Proof.
  unfold Delete. cbv zeta. destruct (io_ctx io), (io_stat io); try by (split; [left|]).
  destruct (fs !! sandboxDir id) as [e|] eqn:Hd; [|by (split; [left|])].
  destruct (open_lock (E:=E) io (sandboxDir id) fs) as [d|e'] eqn:El; [|by (split; [left|])].
  apply open_lock_ok in El as (d0 & Hd0 & ->).
  destruct (io_lock_acquire io); [split; [left; same_lookup|done]|].
  destruct (io_removeall io) as [[l []]|].
  - split; [|done]. right. by rewrite lookup_insert_dir.
  - split; [|done]. left. unfold lookup_sandbox. by rewrite lookup_insert_eq, Hd0.
  - destruct (io_sync_parent io); (split; [right; apply lookup_sandbox_deleted|]); [done|].
    intros _. rewrite lookup_delete_eq. eauto.
Qed.

(** ** Claims about the store *)

(** what a sandbox keeps when it is written to disk and read back: every field
    except [ExtraAgentNames], which is dropped; so the round trip is the identity
    exactly on the sandboxes without extra agent names. *)
Lemma record_roundtrip sb :
  toDomain (toRecord sb) = persisted sb ∧
  (toDomain (toRecord sb) = sb ↔ ExtraAgentNames sb = []).
Proof.
  rewrite toDomain_toRecord. split; [done|]. destruct sb; simpl. split; [congruence|by intros ->].
Qed.

(** the directory invariant -- every readable record lies in the directory
    named by its own identifier -- holds of an empty store and is preserved by
    every operation, whichever of its system calls fail; for [Update] provided the
    callback does not change the identifier. *)
Lemma store_wf_invariant {A E} io fs :
  store_wf ∅ ∧
  (store_wf fs →
    (∀ sb, wf_id (ID sb) → store_wf (Create (E:=E) io sb fs).1) ∧
    (∀ id (fn : Sandbox → A * result E Sandbox), wf_id id →
       (∀ sb sb', (fn sb).2 = Ok sb' → ID sb' = ID sb) → store_wf (Update io id fn fs).1.1) ∧
    (∀ id, store_wf (Delete (E:=E) io id fs).1) ∧
    (∀ id, wf_id id → store_wf (SetRemovalMarker io id fs).1) ∧
    (∀ id, wf_id id → store_wf (ClearRemovalMarker io id fs).1)).
Proof.
  split; [by intros n d sb|]. intros Hwf.
  assert (Hset : ∀ b id, wf_id id →
    store_wf (Update (A:=unit) (E:=Empty_set) io id
      (λ sb, (tt, Ok (set_RemovalMarker b sb))) fs).1.1).
  { intros b id Hid. apply Update_store_wf; [done| |done].
    intros [] sb' [= <-]. done. }
  split_and!; intros; [by apply Create_store_wf|by apply Update_store_wf|by apply Delete_store_wf|..].
  - specialize (Hset true id). unfold SetRemovalMarker.
    destruct (Update _ _ _ _) as [[??]?]. by apply Hset.
  - specialize (Hset false id). unfold ClearRemovalMarker.
    destruct (Update _ _ _ _) as [[??]?]. by apply Hset.
Qed.

Lemma List_lookup {E} io fs sb :
  healthy io → store_wf fs →
  ∃ l, List_ (E:=E) io fs = Ok l ∧
  (sb ∈ l ↔ wf_id (ID sb) ∧ lookup_sandbox fs (ID sb) = Some sb).
Proof.
  intros Hh Hwf. destruct (List_elem (E:=E) io fs sb Hh) as (l & Hl & Hin).
  exists l. split; [done|]. rewrite Hin. split.
  - intros (n & d & Hn & Hd). destruct (Hwf _ _ _ Hn Hd) as [-> Hw]. split; [done|].
    unfold lookup_sandbox. by rewrite Hn.
  - intros [Hw Hlk]. destruct (lookup_sandbox_dir _ _ _ Hlk) as [d Hd].
    exists (sandboxDir (ID sb)), d. split; [done|]. unfold lookup_sandbox in Hlk.
    by rewrite Hd in Hlk.
Qed.

Lemma labels_match_spec labels sb :
  labels_match labels sb = true ↔
  ∀ k v, labels !! k = Some v → default ""%string (Labels sb !! k) = v.
Proof.
  unfold labels_match. rewrite forallb_forall. split.
  - intros H k v Hk. apply String.eqb_eq, (H (k, v)).
    by apply list_elem_of_In, elem_of_map_to_list.
  - intros H [k v] Hin. apply list_elem_of_In, elem_of_map_to_list in Hin.
    by apply String.eqb_eq, H.
Qed.

Lemma List_lookup_all {E} io fs :
  healthy io → store_wf fs →
  ∃ l, List_ (E:=E) io fs = Ok l ∧
  ∀ sb, sb ∈ l ↔ wf_id (ID sb) ∧ lookup_sandbox fs (ID sb) = Some sb.
Proof.
  intros Hh Hwf. destruct (List_ (E:=E) io fs) as [l|] eqn:El.
  - exists l. split; [done|]. intros sb.
    destruct (List_lookup (E:=E) io fs sb Hh Hwf) as (l' & Hl' & Hin). congruence.
  - destruct Hh as (Hc & _ & _ & _ & _ & _ & Hrd & _). unfold List_ in El.
    by rewrite Hc, Hrd in El.
Qed.

Lemma GetByLabels_spec {E} io fs labels :
  healthy io → store_wf fs →
  ∃ l, GetByLabels (E:=E) io labels fs = Ok l ∧
  ∀ sb, sb ∈ l ↔ labels ≠ ∅ ∧ wf_id (ID sb) ∧ lookup_sandbox fs (ID sb) = Some sb ∧
                 ∀ k v, labels !! k = Some v → default ""%string (Labels sb !! k) = v.
Proof.
  intros Hh Hwf. destruct (List_lookup_all (E:=E) io fs Hh Hwf) as (l & Hl & Hin).
  unfold GetByLabels. destruct Hh as [Hc _]. rewrite Hc. case_bool_decide as He.
  { exists []. split; [done|]. intros sb. rewrite elem_of_nil. naive_solver. }
  rewrite Hl. simpl. eexists; split; [done|]. intros sb.
  rewrite list_elem_of_filter, labels_match_spec, Hin. tauto.
Qed.

(** [List], [GetByLabels], [GetByMotive] and [ResolveByHandle] return exactly
    the stored sandboxes they are asked for: with no failing call and the directory
    invariant, [List] is the set of stored sandboxes, [GetByLabels] those of them
    that carry every requested label (none for an empty request), [GetByMotive]
    those with that motive label, and [ResolveByHandle] fails only when no stored
    sandbox has the handle. *)
Lemma listing_spec {E} io fs :
  healthy io → store_wf fs →
  (∃ l, List_ (E:=E) io fs = Ok l ∧
     ∀ sb, sb ∈ l ↔ wf_id (ID sb) ∧ lookup_sandbox fs (ID sb) = Some sb) ∧
  (∀ labels, ∃ l, GetByLabels (E:=E) io labels fs = Ok l ∧
     ∀ sb, sb ∈ l ↔ labels ≠ ∅ ∧ wf_id (ID sb) ∧ lookup_sandbox fs (ID sb) = Some sb ∧
                    ∀ k v, labels !! k = Some v → default ""%string (Labels sb !! k) = v) ∧
  (∀ m, ∃ l, GetByMotive (E:=E) io m fs = Ok l ∧
     ∀ sb, sb ∈ l ↔ m ≠ ""%string ∧ wf_id (ID sb) ∧ lookup_sandbox fs (ID sb) = Some sb ∧
                    default ""%string (Labels sb !! "motive"%string) = m) ∧
  (∀ h p n, ParseHandle h = Ok (p, n) →
     match ResolveByHandle (E:=E) io h fs with
     | Ok sb => lookup_sandbox fs (ID sb) = Some sb ∧ Project sb = p ∧ Name sb = n
     | Err e => e = ErrNotFound ∧
         ∀ sb, wf_id (ID sb) → lookup_sandbox fs (ID sb) = Some sb →
               ¬ (Project sb = p ∧ Name sb = n)
     end).
Proof.
  intros Hh Hwf. destruct (List_lookup_all (E:=E) io fs Hh Hwf) as (l & Hl & Hin).
  split_and!.
  - eauto.
  - intros labels. by apply GetByLabels_spec.
  - intros m. unfold GetByMotive. destruct (String.eqb_spec m "") as [->|Hm].
    { exists []. split; [done|]. intros sb. rewrite elem_of_nil. naive_solver. }
    destruct (GetByLabels_spec (E:=E) io fs {["motive"%string := m]} Hh Hwf) as (l' & Hl' & Hin').
    exists l'. split; [done|]. intros sb. rewrite Hin'. clear Hin'.
    split; (intros (_ & ? & ? & H); split_and!; try done).
    + apply H, lookup_singleton_eq.
    + by intros k v [<- <-]%lookup_singleton_Some.
  - intros h p n Hp. unfold ResolveByHandle. rewrite Hp, Hl. simpl.
    pose proof (find_sandbox_spec (handle_matches p n) l) as Hf.
    destruct (find_sandbox _ l) as [sb|].
    + destruct Hf as [Hf1 Hf2]. apply Hin in Hf1 as [_ Hf1].
      apply andb_prop in Hf2 as [?%String.eqb_eq ?%String.eqb_eq]. done.
    + split; [done|]. intros sb Hw Hlk [H1 H2].
      specialize (Hf sb (proj2 (Hin sb) (conj Hw Hlk))). unfold handle_matches in Hf.
      by rewrite H1, H2, !String.eqb_refl in Hf.
Qed.

(** ** Witnesses: the claims at a concrete store *)

Definition example_id : SandboxID := replicate 16 "A"%char.

Definition example_sandbox : Sandbox :=
  mkSandbox example_id "web" "acme" {["motive"%string := "m1"%string]} Running
    (mkEnvelope "" [] "" [] [] [] false "" [] ∅) "vm-1" false false StopReasonNone None
    4242 "/run/nexus.sock" 77 77 "tap0" "/run/ch.sock" 1 "/run/netns.sock" "tok" "" 1 "" [] [] "" [].

Definition example_fs : FS := (Create (E:=Empty_set) io_none example_sandbox ∅).1.

Lemma example_healthy : healthy io_none.
Proof. done. Defined.

Lemma example_store_wf : store_wf example_fs.
Proof. apply Create_store_wf; [reflexivity|by intros n d sb]. Defined.

Lemma example_lookup : lookup_sandbox example_fs example_id = Some (persisted example_sandbox).
Proof. vm_compute. reflexivity. Defined.

Lemma writeRecord_crash_atomic_witness :
  f_data <$> sd_record (run_ops (λ _, false) DocBad (take 4 write_record_prog) empty_dir).1 = None.
Proof.
  destruct (writeRecord_crash_atomic 4 DocBad empty_dir) as [[H|H] _]; [done|exact H|discriminate H].
Defined.

Lemma Update_atomic_witness :
  (Update (A:=unit) (E:=Empty_set) io_none example_id
     (λ sb, (tt, Ok (set_SState Paused sb))) example_fs).2 = Ok tt.
Proof.
  pose proof (Update_atomic (A:=unit) (E:=Empty_set) io_none example_id
    (λ sb, (tt, Ok (set_SState Paused sb))) example_fs eq_refl) as H.
  destruct (Update _ _ _ _) as [[fs' out] res]. destruct H as (_ & _ & H).
  destruct (H (persisted example_sandbox) example_healthy example_lookup) as [_ Hok].
  by eapply Hok.
Defined.

Lemma Create_spec_witness :
  Get (E:=Empty_set) io_none example_id example_fs = Ok (persisted example_sandbox).
Proof.
  pose proof (Create_spec (E:=Empty_set) io_none example_sandbox ∅ eq_refl) as H.
  unfold example_fs. destruct (Create _ _ _) as [fs' res]. destruct H as (_ & _ & H).
  by apply H.
Defined.

Lemma store_wf_invariant_witness : store_wf (Delete (E:=Empty_set) io_none example_id example_fs).1.
Proof.
  destruct (store_wf_invariant (A:=unit) (E:=Empty_set) io_none example_fs) as [_ H].
  destruct (H example_store_wf) as (_ & _ & Hd & _). exact (Hd example_id).
Defined.

Lemma listing_spec_witness :
  ∃ l, List_ (E:=Empty_set) io_none example_fs = Ok l ∧ persisted example_sandbox ∈ l.
Proof.
  destruct (listing_spec (E:=Empty_set) io_none example_fs example_healthy example_store_wf)
    as [(l & Hl & Hin) _].
  exists l. split; [exact Hl|]. apply Hin. split; [reflexivity|exact example_lookup].
Defined.
