(* ===== verification/StoreIface.v ===== *)
(** * The store as other components see it

    [store.go] declares the [Store] interface; recovery is written against it, not
    against [FileStore].  [RecordStore] is that interface with the laws its doc
    comments promise, stated on the abstract view (a partial map from identifiers
    to sandboxes).  [FileStore_RecordStore] discharges them for [Store.v]. *)

From stdpp Require Import prelude gmap strings list.
From Stdlib Require Import ZArith Lia.
From S2P Require Import Prelude GoStrings Domain Sandbox Store.

Class RecordStore (S IO : Type) := {
  st_lookup : S → SandboxID → option Sandbox;
  st_healthy : IO → Prop;
  st_ok : S → Prop;
  st_list : ∀ E, IO → S → result (store_error E) (list Sandbox);
  st_update : ∀ A E, IO → SandboxID → (Sandbox → A * result E Sandbox) → S →
              S * option A * result (store_error E) unit;
  st_delete : ∀ E, IO → SandboxID → S → S * result (store_error E) unit;

  (** the callback runs at most once, on the stored record, and its result is
      written whole or not at all *)
  st_update_effect : ∀ A E io id (fn : Sandbox → A * result E Sandbox) s s' out res,
    st_update A E io id fn s = (s', out, res) →
    update_effect fn (st_lookup s id) (st_lookup s' id) out res;
  st_update_frame : ∀ A E io id id' (fn : Sandbox → A * result E Sandbox) s,
    wf_id id → wf_id id' → id' ≠ id →
    st_lookup (st_update A E io id fn s).1.1 id' = st_lookup s id';
  st_update_runs : ∀ A E io id (fn : Sandbox → A * result E Sandbox) s sb,
    st_healthy io → st_lookup s id = Some sb →
    (st_update A E io id fn s).1.2 = Some (fn sb).1 ∧
    ∀ sb', (fn sb).2 = Ok sb' → State_Valid (SState sb') = true →
           (st_update A E io id fn s).2 = Ok tt;
  st_update_ok : ∀ A E io id (fn : Sandbox → A * result E Sandbox) s,
    wf_id id → (∀ sb sb', (fn sb).2 = Ok sb' → ID sb' = ID sb) → st_ok s →
    st_ok (st_update A E io id fn s).1.1;

  st_delete_effect : ∀ E io id s,
    let '(s', res) := st_delete E io id s in
    (st_lookup s' id = st_lookup s id ∨ st_lookup s' id = None) ∧
    (res = Ok tt → st_lookup s' id = None);
  st_delete_frame : ∀ E io id id' s,
    wf_id id → wf_id id' → id' ≠ id →
    st_lookup (st_delete E io id s).1 id' = st_lookup s id';
  st_delete_runs : ∀ E io id s sb,
    st_healthy io → st_lookup s id = Some sb → (st_delete E io id s).2 = Ok tt;
  st_delete_ok : ∀ E io id s, st_ok s → st_ok (st_delete E io id s).1;

  st_list_spec : ∀ E io s, st_healthy io → st_ok s →
    ∃ l, st_list E io s = Ok l ∧
    ∀ sb, sb ∈ l ↔ wf_id (ID sb) ∧ st_lookup s (ID sb) = Some sb;
  st_lookup_ID : ∀ s id sb, st_ok s → wf_id id → st_lookup s id = Some sb → ID sb = id;
}.

Lemma Delete_lookup_effect {E} io id fs :
  let '(fs', res) := Delete (E:=E) io id fs in
  (lookup_sandbox fs' id = lookup_sandbox fs id ∨ lookup_sandbox fs' id = None) ∧
  (res = Ok tt → lookup_sandbox fs' id = None).
Proof.
  pose proof (Delete_effect (E:=E) io id fs) as H. destruct (Delete io id fs) as [fs' res].
  destruct H as [H1 H2]. split; [done|]. intros [_ Hn]%H2. unfold lookup_sandbox. by rewrite Hn.
Qed.

Lemma Delete_runs {E} io id fs sb :
  healthy io → lookup_sandbox fs id = Some sb → (Delete (E:=E) io id fs).2 = Ok tt.
Proof.
  intros Hh [d Hd]%lookup_sandbox_dir. by rewrite (Delete_healthy (E:=E) io id fs d).
Qed.

#[global] Instance FileStore_RecordStore : RecordStore FS IO := {
  st_lookup := lookup_sandbox;
  st_healthy := healthy;
  st_ok := store_wf;
  st_list := @List_;
  st_update := @Update;
  st_delete := @Delete;
  st_update_effect := @Update_effect;
  st_update_frame := @Update_frame;
  st_update_runs := @Update_healthy;
  st_update_ok := @Update_store_wf;
  st_delete_effect := @Delete_lookup_effect;
  st_delete_frame := @Delete_frame;
  st_delete_runs := @Delete_runs;
  st_delete_ok := @Delete_store_wf;
  st_list_spec := @List_lookup_all;
  st_lookup_ID := store_wf_lookup;
}.
