(* ===== verification/Recovery.v ===== *)
(** * internal/core/recovery: reconciling records with the live substrate

    Models [recover.go]: the whole per-sandbox handler [recoverByID] (the callback
    run under the store lock, then the replacement spawn, then stop, delete and
    reap), the decisions it calls ([applyAdopt], [applySupervisorLiveness],
    [adoptionTrigger], [applyAbsent], [spawnReplacement]) and [Recover].

    The store is any [RecordStore].  The driver, the supervisor check and the spawner
    are code of other components, given by their answers ([Env]); the calls made to
    them are recorded, in order, in a log of [Event]s. *)

From stdpp Require Import prelude gmap strings list pretty.
From Stdlib Require Import ZArith Lia.
From S2P Require Import Prelude GoStrings Domain Lifecycle Sandbox Store StoreIface.

(** ** Driver observations ([driver.go]) *)

Inductive RunState := RSUnknown | RSRunning | RSPaused | RSAbsent.

#[global] Instance RunState_eq_dec : EqDecision RunState.
Proof. solve_decision. Defined.

Record Observation := mkObservation { o_State : RunState; o_InstanceID : string }.

(** ** Outcomes *)

Inductive OutcomeKind :=
| OutcomeAdopted | OutcomeResolvedStopped | OutcomeRemoved | OutcomeTerminal
| OutcomeIndeterminate | OutcomeUnchanged | OutcomeAdoptable.

#[global] Instance OutcomeKind_eq_dec : EqDecision OutcomeKind.
Proof. solve_decision. Defined.

Record SandboxOutcome := mkOutcome { so_ID : SandboxID; so_Kind : OutcomeKind; so_Reason : string }.

Definition add_reason (r : string) (o : SandboxOutcome) : SandboxOutcome :=
  mkOutcome (so_ID o) (so_Kind o) (so_Reason o +:+ r).

Inductive CAOutcome := CAUnknown | CARecovered | CALost.

(** [errSkipWrite] is the only error the callback returns. *)
Inductive skip_write := errSkipWrite.

Inductive Event :=
| EvObserve (id : SandboxID)
| EvCheckSupervisor (pid : Z) (sock : string)
| EvSpawn (sb : Sandbox)
| EvStop (id : SandboxID)
| EvDelete (id : SandboxID)
| EvReap (id : SandboxID).

(** Calls that end or destroy a VM, its record or its disks. *)
Definition destructive (e : Event) : bool :=
  match e with EvStop _ | EvDelete _ | EvReap _ => true | _ => false end.

(** Calls that only ask. *)
Definition passive (e : Event) : bool :=
  match e with EvObserve _ | EvCheckSupervisor _ _ => true | _ => false end.

Lemma passive_not_destructive l :
  Forall (λ e, passive e = true) l → Forall (λ e, destructive e = false) l.
Proof. intros H. eapply Forall_impl; [exact H|]. by intros []. Qed.

Section recovery.
Context {S IO : Type} `{!RecordStore S IO}.

(** [env_spawn] also acts on the store: a replacement supervisor records itself
    there. *)
Record Env := mkEnv {
  env_observe : SandboxID → Observation * option string;
  env_checkSupervisor : option (Z → string → result string bool);
  env_spawn : option (Sandbox → S → S * result string CAOutcome);
  env_stop : SandboxID → option string;
  env_store_text : store_error skip_write → string;
}.

Implicit Types (env : Env) (s : S) (rec sb : Sandbox) (out : SandboxOutcome).

(** ** Adopting a live VM *)

Definition adoptionTrigger (from to : State) : result string Trigger :=
  let fail := Err ("no adoption edge from " +:+ State_String from +:+ " to " +:+ State_String to) in
  match to with
  | Running => match from with
               | Created | Stopped => Ok TriggerStart
               | Paused => Ok TriggerResume
               | _ => fail
               end
  | Paused => match from with Running => Ok TriggerPause | _ => fail end
  | _ => fail
  end.

(** The three assignments that end [applyAdopt]. *)
Definition adopt_record (instanceID : string) rec : Sandbox :=
  set_SStopReason StopReasonNone (set_RemovalMarker false (set_InstanceID instanceID rec)).

Definition applyAdopt rec (observed : State) (instanceID : string)
    : bool * Sandbox * SandboxOutcome :=
  let stateCorrect := bool_decide (SState rec = observed) in
  let idCorrect := String.eqb (InstanceID rec) instanceID in
  let markerSet := RemovalMarker rec in
  let vm := "VM " +:+ State_String observed in
  if stateCorrect && idCorrect && negb markerSet then
    (false, rec, mkOutcome (ID rec) OutcomeAdopted (vm +:+ "; record matches observed state"))
  else
    let reason :=
      if stateCorrect && idCorrect then vm +:+ "; record matches observed state"
      else vm +:+ "; record corrected from " +:+ State_String (SState rec) in
    let reason :=
      if markerSet then reason +:+
        " (note: removal marker was set; removal is abandoned because VM is alive)"
      else reason in
    let adopted rec :=
      (true, adopt_record instanceID rec, mkOutcome (ID rec) OutcomeAdopted reason) in
    if negb stateCorrect then
      match adoptionTrigger (SState rec) observed with
      | Err e => (false, rec, mkOutcome (ID rec) OutcomeIndeterminate
          ("VM observed " +:+ State_String observed +:+
           " but no lifecycle edge exists from stored state " +:+ State_String (SState rec) +:+
           ": " +:+ e +:+ "; VM left alone"))
      | Ok trigger =>
          match Next (SState rec) trigger with
          | Err e => (false, rec, mkOutcome (ID rec) OutcomeIndeterminate
              ("machine transition error: " +:+ IllegalTransitionError_Error e +:+
               "; VM left alone"))
          | Ok tr => adopted (set_SState (t_next tr) rec)
          end
      end
    else adopted rec.

(** The supervisor cross-check; the events it causes come first. *)
Definition applySupervisorLiveness env rec out
    : list Event * bool * Sandbox * SandboxOutcome :=
  if negb (bool_decide (so_Kind out = OutcomeAdopted)) then ([], false, rec, out)
  else match env_checkSupervisor env with
  | None => ([], false, rec, out)
  | Some check =>
      if SupervisorPID rec <=? 0 then ([], false, rec, out)
      else
        let pid := SupervisorPID rec in
        let ev := [EvCheckSupervisor pid (SupervisorSock rec)] in
        match check pid (SupervisorSock rec) with
        | Err e => (ev, false, rec, add_reason (" (supervisor liveness check error: " +:+ e +:+
                      "; supervisor status not determined)") out)
        | Ok true => (ev, false, rec, out)
        | Ok false =>
            (ev, true, set_SupervisorSock "" (set_SupervisorPID 0 rec),
             mkOutcome (so_ID out) OutcomeAdoptable
               ("VM " +:+ State_String (SState rec) +:+ " but supervisor pid " +:+ pretty pid +:+
                " is dead; sandbox needs a replacement supervisor"))
        end
  end.

(** ** The VM is absent *)

(** The assignments common to both substrate-lost cases. *)
Definition lose_substrate (next : State) rec : Sandbox :=
  set_CHAPISocket "" (set_GuestTapName "" (set_NetnsChildStartTime 0 (set_NetnsChildPGID 0
    (set_NetnsChildPID 0 (set_SStopReason StopReasonMemoryLost (set_SState next rec)))))).

Definition applyAbsent rec : bool * bool * Sandbox * SandboxOutcome :=
  let unchanged (r : string) := (false, false, rec, mkOutcome (ID rec) OutcomeUnchanged r) in
  let unclear (r : string) := (false, false, rec, mkOutcome (ID rec) OutcomeIndeterminate r) in
  let lost (st : State) (errp r : string) :=
    match Next st TriggerSubstrateLost with
    | Err e => unclear (errp +:+ "substrate_lost transition unavailable: " +:+
                        IllegalTransitionError_Error e)
    | Ok tr => (true, false, lose_substrate (t_next tr) rec,
                mkOutcome (ID rec) OutcomeResolvedStopped r)
    end in
  if RemovalMarker rec then
    (false, false, rec, mkOutcome (ID rec) OutcomeTerminal
      ("removal marker was set when the process crashed; " +:+
       "removal is terminal and must not be retried; manual cleanup required"))
  else if SRemoveOnExit rec then
    match Next (SState rec) TriggerPrimaryCommandExit with
    | Err _ => unchanged ("--rm flag set but sandbox was never running (stored state " +:+
                 State_String (SState rec) +:+ "); " +:+
                 "removal only applies after a running VM exits; nothing to remove")
    | Ok tr =>
        if negb (t_remove tr) then
          unclear ("--rm: machine returned a non-removal transition from state " +:+
                   State_String (SState rec) +:+ "; no action taken")
        else (true, true, set_RemovalMarker true rec, mkOutcome (ID rec) OutcomeRemoved
                "removed per --rm flag; removal was requested and had not started")
    end
  else match SState rec with
  | Paused => lost Paused "" ("paused sandbox lost its substrate; memory was destroyed " +:+
                "(host reboot, VMM kill, or power loss); resolved to stopped")
  | Running => lost Running "running "
      ("running VM was absent; substrate lost (host reboot, VMM kill, or power loss); " +:+
       "resolved to stopped; memory lost")
  | _ => unchanged ("stored state " +:+ State_String (SState rec) +:+
                    "; VM absent; no action needed")
  end.

(** ** The callback *)

(** The variables the callback captures, with the calls it makes. *)
Record Captured := mkCaptured {
  c_events : list Event;
  c_outcome : SandboxOutcome;
  c_needDelete : bool;
  c_adoptable : option Sandbox;
}.

Definition live_branch env (ev : list Event) (observed : State) (iid : string) rec
    : Captured * result skip_write Sandbox :=
  let '(wrote, rec, out) := applyAdopt rec observed iid in
  let '(ev', wroteSup, rec, out) := applySupervisorLiveness env rec out in
  let adoptable := if bool_decide (so_Kind out = OutcomeAdoptable) then Some rec else None in
  (mkCaptured (ev ++ ev') out false adoptable,
   if negb wrote && negb wroteSup then Err errSkipWrite else Ok rec).

Definition recover_callback env (id : SandboxID) rec : Captured * result skip_write Sandbox :=
  let ev := [EvObserve id] in
  let '(obs, obsErr) := env_observe env id in
  match obsErr with
  | Some e => (mkCaptured ev (mkOutcome id OutcomeIndeterminate
                 ("driver observe error: " +:+ e +:+ "; no action taken")) false None,
               Err errSkipWrite)
  | None =>
      match o_State obs with
      | RSUnknown => (mkCaptured ev (mkOutcome id OutcomeIndeterminate
                        "driver could not determine VM state; no action taken") false None,
                      Err errSkipWrite)
      | RSRunning => live_branch env ev Running (o_InstanceID obs) rec
      | RSPaused => live_branch env ev Paused (o_InstanceID obs) rec
      | RSAbsent =>
          let '(wrote, del, rec, out) := applyAbsent rec in
          (mkCaptured ev out del None, if negb wrote then Err errSkipWrite else Ok rec)
      end
  end.

(** ** After the lock is released *)

Definition ca_reason (ca : CAOutcome) : string :=
  match ca with
  | CARecovered => "; the MITM CA was re-seeded from its persisted copy, " +:+
      "so in-guest TLS sessions continue uninterrupted"
  | CALost => "; NOTE: the MITM CA could not be recovered from the crashed supervisor, " +:+
      "so in-guest TLS sessions will FAIL until the guest re-imports the new CA " +:+
      "(plain networking is restored)"
  | CAUnknown => "; NOTE: could not determine whether the MITM CA survived this recovery — " +:+
      "check the replacement supervisor's log for supervisor.reacquire.ca_recovered or .ca_lost " +:+
      "before assuming in-guest TLS still works"
  end.

Definition spawnReplacement env sb out s : list Event * SandboxOutcome * S :=
  match env_spawn env with
  | None => ([], add_reason " (no adopt spawner wired; sandbox reported but not adopted)" out, s)
  | Some spawn =>
      if String.eqb (NetnsControlSocket sb) "" then
        ([], add_reason (" (sandbox predates the netns control socket, so its perimeter cannot " +:+
          "be rebuilt; the VM is left running and untouched — restart it manually to restore " +:+
          "guest networking)") out, s)
      else
        match spawn sb s with
        | (s, Err e) => ([EvSpawn sb], add_reason (" (adopt spawn failed: " +:+ e +:+
                           "; VM left running and untouched)") out, s)
        | (s, Ok ca) =>
            let out := mkOutcome (so_ID out) OutcomeAdopted (so_Reason out) in
            let out := add_reason
              " — a replacement supervisor was started and has rebuilt the perimeter" out in
            ([EvSpawn sb], add_reason (ca_reason ca) out, s)
        end
  end.

(** What [recoverByID] does once the callback's result is written or skipped: spawn
    for an adoptable sandbox, then stop, delete and reap for a removed one. *)
Definition after_lock env (io2 : IO) (id : SandboxID) (c : Captured) s
    : list Event * SandboxOutcome * S :=
  let '(evS, out, s) :=
    match c_adoptable c with
    | Some sb => spawnReplacement env sb (c_outcome c) s
    | None => ([], c_outcome c, s)
    end in
  let log := c_events c ++ evS in
  if c_needDelete c then
    let out := match env_stop env id with
               | Some e => add_reason (" (note: Stop before delete failed: " +:+ e +:+
                             "; proceeding with delete)") out
               | None => out
               end in
    match st_delete skip_write io2 id s with
    | (s, Err e) => (log ++ [EvStop id; EvDelete id],
                     mkOutcome id OutcomeIndeterminate
                       ("--rm: failed to delete sandbox: " +:+ env_store_text env e), s)
    | (s, Ok _) => (log ++ [EvStop id; EvDelete id; EvReap id], out, s)
    end
  else (log, out, s).

(** [io1] answers the system calls of [Update], [io2] those of [Delete].  A
    callback that did not run leaves the captured variables at their zero values. *)
Definition recoverByID env (io1 io2 : IO) (id : SandboxID) s
    : list Event * SandboxOutcome * S :=
  let '(s, cap, res) := st_update Captured skip_write io1 id (recover_callback env id) s in
  let c := default (mkCaptured [] (mkOutcome [] OutcomeUnchanged "") false None) cap in
  match res with
  | Ok _ | Err (ErrCallback errSkipWrite) => after_lock env io2 id c s
  | Err ErrNotFound => (c_events c, mkOutcome id OutcomeUnchanged
                          "sandbox not found; may have been deleted concurrently", s)
  | Err e => (c_events c, mkOutcome id OutcomeIndeterminate
                ("lock or write error: " +:+ env_store_text env e), s)
  end.

(** The loop of [Recover] over the listed identifiers; [ios] gives the answers of
    the operating system for each of them. *)
Fixpoint recover_loop env (ios : SandboxID → IO * IO) (ids : list SandboxID) s
    : list Event * list SandboxOutcome * S :=
  match ids with
  | [] => ([], [], s)
  | id :: ids =>
      let '(ev, out, s) := recoverByID env (ios id).1 (ios id).2 id s in
      let '(ev', outs, s) := recover_loop env ios ids s in
      (ev ++ ev', out :: outs, s)
  end.

Definition Recover env (io : IO) (ios : SandboxID → IO * IO) s
    : result (store_error Empty_set) (list Event * list SandboxOutcome * S) :=
  let* sandboxes := st_list Empty_set io s in
  Ok (recover_loop env ios (ID <$> sandboxes) s).

(** ** The callback, branch by branch *)

Lemma adoption_machine from to t :
  adoptionTrigger from to = Ok t → Next from t = Ok (mkTransition false to).
Proof. destruct from, to; simpl; intros [= <-]; reflexivity. Qed.

Lemma applyAdopt_spec rec observed iid :
  State_Valid observed = true →
  match applyAdopt rec observed iid with
  | (false, rec', out) =>
      rec' = rec ∧
      (so_Kind out = OutcomeAdopted ∧
         SState rec = observed ∧ InstanceID rec = iid ∧ RemovalMarker rec = false ∨
       so_Kind out = OutcomeIndeterminate ∧
         SState rec ≠ observed ∧ is_ok (adoptionTrigger (SState rec) observed) = false)
  | (true, rec', out) =>
      rec' = adopt_record iid (set_SState observed rec) ∧ so_Kind out = OutcomeAdopted ∧
      (SState rec = observed ∨ is_ok (adoptionTrigger (SState rec) observed) = true)
  end.
Proof.
  intros Hv. unfold applyAdopt. case_bool_decide as Hst; simpl.
  - destruct (String.eqb_spec (InstanceID rec) iid) as [Hid|Hid], (RemovalMarker rec) eqn:Hm; simpl;
      (split; [destruct rec; simpl in *; by subst|auto]).
  - destruct (adoptionTrigger (SState rec) observed) as [t|e] eqn:Ht; simpl; [|by split; [|right]].
    rewrite (adoption_machine _ _ _ Ht). simpl. split; [done|]. auto.
Qed.

Lemma applyAbsent_spec rec :
  match applyAbsent rec with
  | (wrote, del, rec', out) =>
      (wrote = false → rec' = rec) ∧ (del = true → wrote = true) ∧
      (del = true ↔ RemovalMarker rec = false ∧ SRemoveOnExit rec = true ∧ SState rec = Running) ∧
      (del = true → rec' = set_RemovalMarker true rec ∧ so_Kind out = OutcomeRemoved) ∧
      (wrote = true → del = false →
         RemovalMarker rec = false ∧ SRemoveOnExit rec = false ∧
         (SState rec = Running ∨ SState rec = Paused) ∧
         rec' = lose_substrate Stopped rec ∧ so_Kind out = OutcomeResolvedStopped) ∧
      (wrote = false → so_Kind out = if RemovalMarker rec then OutcomeTerminal else OutcomeUnchanged)
  end.
Proof.
  unfold applyAbsent. destruct (RemovalMarker rec); [naive_solver|].
  destruct (SRemoveOnExit rec), (SState rec) eqn:Hs; simpl; naive_solver.
Qed.

Lemma applySupervisorLiveness_spec env rec out :
  match applySupervisorLiveness env rec out with
  | (ev, wrote, rec', out') =>
      Forall (λ e, e = EvCheckSupervisor (SupervisorPID rec) (SupervisorSock rec)) ev ∧
      (wrote = false → rec' = rec ∧ so_Kind out' = so_Kind out) ∧
      (wrote = true →
         rec' = set_SupervisorSock "" (set_SupervisorPID 0 rec) ∧ so_Kind out = OutcomeAdopted ∧
         so_Kind out' = OutcomeAdoptable ∧ 0 < SupervisorPID rec ∧
         ∃ check, env_checkSupervisor env = Some check ∧
                  check (SupervisorPID rec) (SupervisorSock rec) = Ok false)
  end.
Proof.
  assert (Hskip : ∀ o, so_Kind o = so_Kind out → Forall (λ e, e =
    EvCheckSupervisor (SupervisorPID rec) (SupervisorSock rec)) [] ∧
    (false = false → rec = rec ∧ so_Kind o = so_Kind out)) by (split; [constructor|auto]).
  unfold applySupervisorLiveness. case_bool_decide as Hk; simpl; [|naive_solver].
  destruct (env_checkSupervisor env) as [check|]; [|naive_solver].
  destruct (Z.leb_spec (SupervisorPID rec) 0); [naive_solver|].
  destruct (check (SupervisorPID rec) _) as [[]|e] eqn:Hc; simpl;
    (split; [by repeat constructor|]); naive_solver.
Qed.

(** What one run of the handler can do.  Either the store call failed, and the
    record is untouched or carries the callback's result; or the callback ran on
    the stored record, its result was written (or skipped), and the steps after
    the lock follow. *)
Lemma recoverByID_cases env io1 io2 id s :
  ∃ s1,
  (wf_id id → ∀ id', wf_id id' → id' ≠ id → st_lookup s1 id' = st_lookup s id') ∧
  ((∃ log out, recoverByID env io1 io2 id s = (log, out, s1) ∧
      (so_Kind out = OutcomeIndeterminate ∨ so_Kind out = OutcomeUnchanged) ∧
      (log = [] ∨ ∃ rec, st_lookup s id = Some rec ∧ log = c_events (recover_callback env id rec).1) ∧
      (st_lookup s1 id = st_lookup s id ∨
       ∃ rec rec', st_lookup s id = Some rec ∧ (recover_callback env id rec).2 = Ok rec' ∧
                   st_lookup s1 id = Some (persisted rec'))) ∨
   (∃ rec, st_lookup s id = Some rec ∧
      recoverByID env io1 io2 id s = after_lock env io2 id (recover_callback env id rec).1 s1 ∧
      st_lookup s1 id = match (recover_callback env id rec).2 with
                        | Ok rec' => Some (persisted rec')
                        | Err _ => Some rec
                        end)).
Proof.
  unfold recoverByID.
  pose proof (st_update_frame Captured skip_write io1 id) as Hfr.
  destruct (st_update Captured skip_write io1 id (recover_callback env id) s)
    as [[s1 cap] res] eqn:Eu. exists s1.
  split; [intros Hid id' Hid' Hne; specialize (Hfr id' (recover_callback env id) s Hid Hid' Hne);
          by rewrite Eu in Hfr|].
  apply st_update_effect in Eu. destruct cap as [c|]; simpl in Eu.
  - destruct Eu as (rec & Hrec & Hc & Hr). rewrite Hrec.
    destruct (recover_callback env id rec) as [c' r] eqn:Ecb. simpl in Hc, Hr. subst c'.
    destruct r as [rec'|[]].
    + destruct res as [[]|e]; [right; exists rec; rewrite Ecb; simpl; naive_solver|].
      left. destruct Hr as [Hown Hl].
      destruct e as [| | | | | | |[]| |]; [..|done| |]; eexists _, _;
        (split; [reflexivity|]); (split; [simpl; auto|]);
        (split; [right; exists rec; by rewrite Ecb|]);
        (destruct Hl as [Hl|[Hl _]]; [left; congruence|right; exists rec, rec'; by rewrite Ecb]).
    + destruct Hr as [Hl ->]. right. exists rec. rewrite Ecb, Hl. done.
  - destruct Eu as [Hl Hown]. left.
    destruct res as [|[| | | | | | |[]| |]]; [done|..|done| |]; eexists _, _;
      (split; [reflexivity|]); simpl; auto.
Qed.

(** ** Shapes of the callback's result *)

Definition observed env id : option RunState :=
  match env_observe env id with
  | (obs, None) => Some (o_State obs)
  | (_, Some _) => None
  end.

Lemma callback_unknown env id rec :
  observed env id = None ∨ observed env id = Some RSUnknown →
  let '(c, r) := recover_callback env id rec in
  c_events c = [EvObserve id] ∧ so_Kind (c_outcome c) = OutcomeIndeterminate ∧
  c_needDelete c = false ∧ c_adoptable c = None ∧ r = Err errSkipWrite.
Proof.
  unfold observed, recover_callback. destruct (env_observe env id) as [obs [e|]]; [done|].
  intros [|[= ->]]; done.
Qed.

Definition live_state (rs : RunState) : option State :=
  match rs with RSRunning => Some Running | RSPaused => Some Paused | _ => None end.

Lemma callback_live env id rec rs st :
  observed env id = Some rs → live_state rs = Some st →
  recover_callback env id rec =
  live_branch env [EvObserve id] st (o_InstanceID (env_observe env id).1) rec.
Proof.
  unfold observed, recover_callback. destruct (env_observe env id) as [obs [e|]]; [done|].
  intros [= <-] Hlive. simpl. by destruct (o_State obs); simplify_eq/=.
Qed.

Lemma callback_absent env id rec :
  observed env id = Some RSAbsent →
  recover_callback env id rec =
  let '(wrote, del, rec, out) := applyAbsent rec in
  (mkCaptured [EvObserve id] out del None, if negb wrote then Err errSkipWrite else Ok rec).
Proof.
  unfold observed, recover_callback. destruct (env_observe env id) as [obs [e|]]; [done|].
  by intros [= ->].
Qed.

(** The record as it is once the callback's result has been written or skipped. *)
Definition written rec (r : result skip_write Sandbox) : Sandbox :=
  match r with Ok rec' => rec' | Err _ => rec end.

Definition adoptable_state (st : State) rec : bool :=
  bool_decide (SState rec = st) || is_ok (adoptionTrigger (SState rec) st).

Lemma live_branch_spec env ev st iid rec :
  State_Valid st = true →
  let '(c, r) := live_branch env ev st iid rec in
  let rec' := written rec r in
  c_needDelete c = false ∧
  (∃ ev', c_events c = ev ++ ev' ∧ Forall (λ e, passive e = true) ev') ∧
  (match c_adoptable c with
   | None => so_Kind (c_outcome c) = OutcomeAdopted ∨ so_Kind (c_outcome c) = OutcomeIndeterminate
   | Some sb => r = Ok sb ∧ so_Kind (c_outcome c) = OutcomeAdoptable ∧ SupervisorPID sb = 0
   end) ∧
  if adoptable_state st rec then
    SState rec' = st ∧ InstanceID rec' = iid ∧ RemovalMarker rec' = false ∧ ID rec' = ID rec ∧
    so_Kind (c_outcome c) ≠ OutcomeIndeterminate
  else r = Err errSkipWrite ∧ so_Kind (c_outcome c) = OutcomeIndeterminate.
Proof.
  intros Hv. unfold live_branch, adoptable_state.
  pose proof (applyAdopt_spec rec st iid Hv) as Ha.
  destruct (applyAdopt rec st iid) as [[wrote rec1] out1].
  pose proof (applySupervisorLiveness_spec env rec1 out1) as Hs.
  destruct (applySupervisorLiveness env rec1 out1) as [[[ev' wroteSup] rec2] out2].
  destruct Hs as (Hev & Hs0 & Hs1). simpl. split; [done|].
  split. { exists ev'. split; [done|]. eapply Forall_impl; [exact Hev|]. by intros ? ->. }
  destruct wrote.
  - destruct Ha as (-> & Hk & Hst). split.
    + destruct wroteSup.
      * destruct Hs1 as (-> & _ & -> & _); [done|]. rewrite bool_decide_eq_true_2 by done.
        split; [by rewrite andb_false_r|]. split; [done|]. by destruct rec.
      * destruct Hs0 as [-> Hk2]; [done|]. rewrite Hk in Hk2.
        rewrite bool_decide_eq_false_2 by congruence. auto.
    + assert (Hcond : bool_decide (SState rec = st) || is_ok (adoptionTrigger (SState rec) st) = true).
      { destruct Hst as [Hst|Hst]; [by rewrite bool_decide_eq_true_2|by rewrite Hst, orb_true_r]. }
      rewrite Hcond. simpl. destruct wroteSup.
      * destruct Hs1 as (-> & _ & -> & _); [done|]. destruct rec; simpl. done.
      * destruct Hs0 as [-> ->]; [done|]. rewrite Hk. destruct rec; simpl. done.
  - destruct Ha as [-> [(Hk & Hst & Hid & Hm)|(Hk & Hst & Hno)]].
    + rewrite (bool_decide_eq_true_2 (SState rec = st)) by done. simpl. destruct wroteSup; simpl.
      * destruct Hs1 as (-> & _ & -> & _); [done|]. rewrite bool_decide_eq_true_2 by done.
        by destruct rec; simplify_eq/=.
      * destruct Hs0 as [-> ->]; [done|]. rewrite Hk. rewrite bool_decide_eq_false_2 by done.
        by auto 10.
    + rewrite (bool_decide_eq_false_2 (SState rec = st)) by done. rewrite Hno. simpl.
      destruct wroteSup; [destruct Hs1 as (_ & Hk' & _); [done|congruence]|].
      destruct Hs0 as [-> ->]; [done|]. rewrite Hk. simpl. by auto.
Qed.

Lemma ID_written env id rec :
  ID (written rec (recover_callback env id rec).2) = ID rec ∧
  (is_ok (recover_callback env id rec).2 = true →
   State_Valid (SState (written rec (recover_callback env id rec).2)) = true).
Proof.
  destruct (observed env id) as [rs|] eqn:Ho; [destruct (live_state rs) as [st|] eqn:Hl|].
  - rewrite (callback_live _ _ _ _ _ Ho Hl).
    assert (Hv : State_Valid st = true) by (by destruct rs; simplify_eq/=).
    pose proof (live_branch_spec env [EvObserve id] st (o_InstanceID (env_observe env id).1) rec Hv)
      as H. destruct (live_branch _ _ _ _ _) as [c r]. destruct H as (_ & _ & _ & H). simpl.
    destruct (adoptable_state st rec); [|destruct H as [-> _]; done].
    destruct H as (-> & _ & _ & -> & _). done.
  - destruct rs; try discriminate Hl.
    + pose proof (callback_unknown env id rec (or_intror Ho)) as H.
      destruct (recover_callback env id rec) as [c r]. by destruct H as (_ & _ & _ & _ & ->).
    + rewrite (callback_absent _ _ _ Ho). pose proof (applyAbsent_spec rec) as H.
      destruct (applyAbsent rec) as [[[[] []] rec'] out]; simpl.
      all: destruct H as (Hw & Hdw & Hd & Hrm & Hstop & _).
      * destruct Hrm as [-> _]; [done|]. destruct Hd as [Hd _]. destruct Hd as (_ & _ & Hs); [done|].
        destruct rec; simpl in *. by rewrite Hs.
      * destruct Hstop as (_ & _ & _ & -> & _); [done..|]. by destruct rec.
      * done.
      * done.
  - pose proof (callback_unknown env id rec (or_introl Ho)) as H.
    destruct (recover_callback env id rec) as [c r]. by destruct H as (_ & _ & _ & _ & ->).
Qed.

Lemma ID_callback env id rec rec' :
  (recover_callback env id rec).2 = Ok rec' → ID rec' = ID rec.
Proof. intros H. destruct (ID_written env id rec) as [H1 _]. by rewrite H in H1. Qed.

(** With no failing call the handler always gets past the lock. *)
Lemma recoverByID_healthy env io1 io2 id s rec :
  st_healthy io1 → st_lookup s id = Some rec →
  let r := (recover_callback env id rec).2 in
  ∃ s1, recoverByID env io1 io2 id s = after_lock env io2 id (recover_callback env id rec).1 s1 ∧
  (wf_id id → ∀ id', wf_id id' → id' ≠ id → st_lookup s1 id' = st_lookup s id') ∧
  st_lookup s1 id = match r with Ok rec' => Some (persisted rec') | Err _ => Some rec end.
Proof.
  intros Hh Hl r. destruct (st_update_runs _ _ io1 id (recover_callback env id) s rec Hh Hl)
    as [Hrun Hok].
  unfold recoverByID in *.
  destruct (st_update Captured skip_write io1 id (recover_callback env id) s)
    as [[s1' cap] res] eqn:Eu. simpl in Hrun, Hok. subst cap.
  pose proof (st_update_effect _ _ _ _ _ _ _ _ _ Eu) as (rec0 & Hl0 & _ & He).
  rewrite Hl in Hl0. injection Hl0 as <-. simpl in *.
  exists s1'. split.
  - destruct (recover_callback env id rec) as [c [rec'|[]]] eqn:Ecb; simpl in *.
    + by rewrite (Hok rec' eq_refl) by (pose proof (proj2 (ID_written env id rec)) as Hv;
        rewrite Ecb in Hv; by apply Hv).
    + by destruct He as [_ ->].
  - split; [intros Hid id' Hid' Hne; pose proof (st_update_frame Captured skip_write io1 id id'
      (recover_callback env id) s Hid Hid' Hne) as Hf; by rewrite Eu in Hf|].
    subst r. destruct (recover_callback env id rec) as [c [rec'|[]]] eqn:Ecb; simpl in *.
    + pose proof (proj2 (ID_written env id rec)) as Hv. rewrite Ecb in Hv. simpl in Hv.
      rewrite (Hok rec' eq_refl (Hv eq_refl)) in He. by destruct He as [-> _].
    + destruct He as [-> _]. done.
Qed.

Lemma after_lock_quiet env io2 id c s :
  c_needDelete c = false → c_adoptable c = None →
  after_lock env io2 id c s = (c_events c, c_outcome c, s).
Proof. intros Hd Ha. unfold after_lock. rewrite Ha, Hd. by rewrite app_nil_r. Qed.

(** The spawn, if any, is the only thing that happens after the lock for a sandbox
    that is not removed. *)
Lemma after_lock_live env io2 id c s :
  c_needDelete c = false →
  let '(log, out, s') := after_lock env io2 id c s in
  (log = c_events c ∧ s' = s ∧ so_Kind out = so_Kind (c_outcome c)) ∨
  (∃ spawn sb r, env_spawn env = Some spawn ∧ c_adoptable c = Some sb ∧
     NetnsControlSocket sb ≠ ""%string ∧ log = c_events c ++ [EvSpawn sb] ∧ spawn sb s = (s', r) ∧
     so_Kind out = if is_ok r then OutcomeAdopted else so_Kind (c_outcome c)).
Proof.
  intros Hd. unfold after_lock. rewrite Hd.
  destruct (c_adoptable c) as [sb|]; [|left; by rewrite app_nil_r].
  unfold spawnReplacement. destruct (env_spawn env) as [spawn|]; [|left; by rewrite app_nil_r].
  destruct (String.eqb_spec (NetnsControlSocket sb) "") as [Hn|Hn]; [left; by rewrite app_nil_r|].
  destruct (spawn sb s) as [s' [ca|e]] eqn:Es; right; exists spawn, sb; eexists; eauto 10.
Qed.

(** a VM whose state the driver cannot determine is left alone.  On an observe
    error or an [Unknown] state, whatever the stored record, the configuration and
    the answers of the operating system: no record changes, no call other than
    the observation is made, and the outcome is never a claim about the sandbox
    (indeterminate, or unchanged when its record is gone). *)
Lemma recover_unknown_no_action env io1 io2 id s :
  wf_id id → observed env id = None ∨ observed env id = Some RSUnknown →
  let '(log, out, s') := recoverByID env io1 io2 id s in
  (∀ id', wf_id id' → st_lookup s' id' = st_lookup s id') ∧
  Forall (λ e, e = EvObserve id) log ∧
  (so_Kind out = OutcomeIndeterminate ∨ so_Kind out = OutcomeUnchanged).
Proof.
  intros Hid Hobs. destruct (recoverByID_cases env io1 io2 id s) as (s1 & Hfr & H).
  assert (Hall : st_lookup s1 id = st_lookup s id →
                 ∀ id', wf_id id' → st_lookup s1 id' = st_lookup s id').
  { intros He id' Hid'. destruct (decide (id' = id)) as [->|Hne]; [done|by apply Hfr]. }
  destruct H as [(log & out & -> & Hk & Hlog & Hl)|(rec & Hrec & -> & Hl)].
  - split_and!; [apply Hall|..|done].
    + destruct Hl as [Hl|(rec & rec' & Hr & Hcb & _)]; [done|].
      pose proof (callback_unknown env id rec Hobs) as Hu.
      destruct (recover_callback env id rec) as [c r]. simpl in *.
      destruct Hu as (_ & _ & _ & _ & ->). done.
    + destruct Hlog as [->|(rec & _ & ->)]; [constructor|].
      pose proof (callback_unknown env id rec Hobs) as Hu.
      destruct (recover_callback env id rec) as [c r]. simpl. destruct Hu as (-> & _). by constructor.
  - pose proof (callback_unknown env id rec Hobs) as Hu.
    destruct (recover_callback env id rec) as [c r]. destruct Hu as (He & Hk & Hd & Ha & ->).
    simpl. rewrite after_lock_quiet by done. rewrite He, Hk.
    split; [apply Hall; by rewrite Hl|]. split; [by constructor|auto].
Qed.

Lemma live_run_safe env io1 io2 id s rs st :
  observed env id = Some rs → live_state rs = Some st →
  let '(log, out, s') := recoverByID env io1 io2 id s in
  Forall (λ e, destructive e = false) log ∧
  ((∀ spawn sb s0, env_spawn env = Some spawn →
      is_Some (st_lookup s0 id) → is_Some (st_lookup (spawn sb s0).1 id)) →
   is_Some (st_lookup s id) → is_Some (st_lookup s' id)).
Proof.
  intros Ho Hl. assert (Hv : State_Valid st = true) by (by destruct rs; simplify_eq/=).
  assert (Hlive : ∀ rec, let c := (recover_callback env id rec).1 in
    c_needDelete c = false ∧ Forall (λ e, destructive e = false) (c_events c)).
  { intros rec. rewrite (callback_live _ _ _ _ _ Ho Hl).
    pose proof (live_branch_spec env [EvObserve id] st (o_InstanceID (env_observe env id).1) rec Hv)
      as H. destruct (live_branch _ _ _ _ _) as [c r]. simpl. destruct H as (Hd & (ev' & -> & He) & _).
    split; [done|]. constructor; [done|by apply passive_not_destructive]. }
  destruct (recoverByID_cases env io1 io2 id s) as (s1 & _ & H).
  destruct H as [(log & out & -> & _ & Hlog & Hlk)|(rec & Hrec & -> & Hlk)].
  - split; [destruct Hlog as [->|(rec & _ & ->)]; [constructor|apply Hlive]|].
    intros _ Hs. destruct Hlk as [->|(rec & rec' & _ & _ & ->)]; [done|eauto].
  - destruct (Hlive rec) as [Hd He]. pose proof (after_lock_live env io2 id _ s1 Hd) as Ha.
    destruct (after_lock _ _ _ _ _) as [[log out] s'].
    assert (Hs1 : is_Some (st_lookup s1 id))
      by (rewrite Hlk; destruct (recover_callback env id rec).2; eauto).
    destruct Ha as [(-> & -> & _)|(spawn & sb & r & Hsp & _ & _ & -> & Hrun & _)]; [done|].
    split; [apply Forall_app; split; [done|by repeat constructor]|].
    intros Hk _. specialize (Hk spawn sb s1 Hsp Hs1). by rewrite Hrun in Hk.
Qed.

(** C1: recovery never stops or destroys a live VM.  When the driver reports the VM
    running or paused then, whatever the stored record says (a removal marker and
    --rm included) and whatever fails, neither Stop nor Delete nor the disk reap is
    called, and the record still exists afterwards provided the spawned replacement
    supervisor does not itself remove it. *)
Theorem recover_never_harms_live_vm env io1 io2 id s rs st :
  observed env id = Some rs → live_state rs = Some st →
  let '(log, out, s') := recoverByID env io1 io2 id s in
  Forall (λ e, destructive e = false) log ∧
  ((∀ spawn sb s0, env_spawn env = Some spawn →
      is_Some (st_lookup s0 id) → is_Some (st_lookup (spawn sb s0).1 id)) →
   is_Some (st_lookup s id) → is_Some (st_lookup s' id)).
Proof. apply live_run_safe. Qed.

(** the substrate wins.  With no failing call and a stored record, a VM observed
    live in state [st] leaves, under the lock, a record that says exactly that --
    state [st], the observed instance, no removal marker -- whenever the lifecycle
    has an edge for it; otherwise the outcome is indeterminate and the record is
    unchanged.  After the lock at most the replacement supervisor is spawned. *)
Lemma recover_adopts_observed env io1 io2 id s rec rs st :
  st_healthy io1 → st_lookup s id = Some rec →
  observed env id = Some rs → live_state rs = Some st →
  let '(log, out, s') := recoverByID env io1 io2 id s in
  ∃ s1 rec1, st_lookup s1 id = Some rec1 ∧
  (s' = s1 ∨ ∃ spawn sb r, env_spawn env = Some spawn ∧ spawn sb s1 = (s', r) ∧ EvSpawn sb ∈ log) ∧
  if adoptable_state st rec then
    SState rec1 = st ∧ InstanceID rec1 = o_InstanceID (env_observe env id).1 ∧
    RemovalMarker rec1 = false ∧ (so_Kind out = OutcomeAdopted ∨ so_Kind out = OutcomeAdoptable)
  else rec1 = rec ∧ so_Kind out = OutcomeIndeterminate.
Proof.
  intros Hh Hrec Ho Hl. assert (Hv : State_Valid st = true) by (by destruct rs; simplify_eq/=).
  destruct (recoverByID_healthy env io1 io2 id s rec Hh Hrec) as (s1 & -> & _ & Hlk).
  rewrite (callback_live _ _ _ _ _ Ho Hl) in Hlk |- *.
  pose proof (live_branch_spec env [EvObserve id] st (o_InstanceID (env_observe env id).1) rec Hv)
    as H. destruct (live_branch _ _ _ _ _) as [c r]. destruct H as (Hd & _ & Had & Hst).
  simpl in Hlk |- *. pose proof (after_lock_live env io2 id c s1 Hd) as Ha.
  destruct (after_lock _ _ _ _ _) as [[log out] s'].
  assert (Hkind : so_Kind out = so_Kind (c_outcome c) ∨
                  is_Some (c_adoptable c) ∧ so_Kind out = OutcomeAdopted)
    by (destruct Ha as [(_ & _ & ->)|(? & ? & [] & _ & -> & _ & _ & _ & ->)]; eauto).
  exists s1, (match r with Ok rec' => persisted rec' | Err _ => rec end).
  split; [rewrite Hlk; by destruct r|].
  split; [destruct Ha as [(_ & -> & _)|(sp & sb & res & Hsp & _ & _ & -> & Hrun & _)];
          [by left|right; exists sp, sb, res; split_and!; try done;
           apply elem_of_app; right; by constructor]|].
  destruct (adoptable_state st rec).
  - destruct Hst as (Hs & Hi & Hm & _ & Hnk). split_and!.
    1-3: destruct r as [rec'|]; simpl in *; [destruct rec'|]; done.
    destruct Hkind as [->|[_ ->]]; [|by left]. destruct (c_adoptable c); naive_solver.
  - destruct Hst as [-> Hk]. split; [done|]. destruct Hkind as [->|[Hs _]]; [done|].
    destruct (c_adoptable c) as [sb|]; [by destruct Had|by destruct Hs].
Qed.

(** an absent VM, case by case.  With no failing call and a stored record: a
    removal marker makes the sandbox terminal and nothing is touched; --rm removes
    exactly a sandbox stored as running (stop, delete and reap, in this order);
    otherwise a running or paused sandbox becomes stopped with its memory lost and
    its network identity cleared; everything else is left as it is. *)
Lemma recover_absent_resolution env io1 io2 id s rec :
  st_healthy io1 → st_healthy io2 → st_lookup s id = Some rec → observed env id = Some RSAbsent →
  let '(log, out, s') := recoverByID env io1 io2 id s in
  if RemovalMarker rec then
    so_Kind out = OutcomeTerminal ∧ st_lookup s' id = Some rec ∧ log = [EvObserve id]
  else if SRemoveOnExit rec then
    if bool_decide (SState rec = Running) then
      so_Kind out = OutcomeRemoved ∧ st_lookup s' id = None ∧
      log = [EvObserve id; EvStop id; EvDelete id; EvReap id]
    else so_Kind out = OutcomeUnchanged ∧ st_lookup s' id = Some rec ∧ log = [EvObserve id]
  else if bool_decide (SState rec = Running ∨ SState rec = Paused) then
    so_Kind out = OutcomeResolvedStopped ∧
    st_lookup s' id = Some (persisted (lose_substrate Stopped rec)) ∧ log = [EvObserve id]
  else so_Kind out = OutcomeUnchanged ∧ st_lookup s' id = Some rec ∧ log = [EvObserve id].
Proof.
  intros Hh1 Hh2 Hrec Ho.
  destruct (recoverByID_healthy env io1 io2 id s rec Hh1 Hrec) as (s1 & -> & _ & Hlk).
  rewrite (callback_absent _ _ _ Ho) in Hlk |- *.
  unfold applyAbsent in *. destruct (RemovalMarker rec) eqn:Hm; [done|].
  destruct (SRemoveOnExit rec) eqn:Hroe, (SState rec) eqn:Hst; simpl in *; try done.
  unfold after_lock. simpl.
  pose proof (st_delete_runs skip_write io2 id s1 _ Hh2 Hlk) as Hdel.
  pose proof (st_delete_effect skip_write io2 id s1) as Heff.
  destruct (st_delete skip_write io2 id s1) as [s2 res]. simpl in Hdel. subst res.
  destruct Heff as [_ Hnone]. destruct (env_stop env id); simpl; auto.
Qed.

(** removal is write-ahead logged and never retried.  If recovery called Stop at
    all then, whatever fails afterwards, the record is either gone or carries the
    removal marker; and a sandbox carrying the marker whose VM is absent is left
    entirely alone by every later run. *)
Lemma recover_removal_wal env io1 io2 id s :
  wf_id id → observed env id = Some RSAbsent →
  let '(log, out, s') := recoverByID env io1 io2 id s in
  (EvStop id ∈ log →
     st_lookup s' id = None ∨ ∃ rec, st_lookup s' id = Some rec ∧ RemovalMarker rec = true) ∧
  (∀ rec, st_lookup s id = Some rec → RemovalMarker rec = true →
     (∀ id', wf_id id' → st_lookup s' id' = st_lookup s id') ∧
     Forall (λ e, e = EvObserve id) log).
Proof.
  intros Hid Ho. pose proof (callback_absent env id) as Hcb.
  destruct (recoverByID_cases env io1 io2 id s) as (s1 & Hfr & H).
  destruct H as [(log & out & -> & _ & Hlog & Hlk)|(rec & Hrec & -> & Hlk)].
  - assert (Hl : Forall (λ e, e = EvObserve id) log).
    { destruct Hlog as [->|(rec & _ & ->)]; [constructor|]. rewrite Hcb by done.
      destruct (applyAbsent rec) as [[[? ?] ?] ?]. by repeat constructor. }
    split.
    + intros Hin. exfalso. eapply Forall_forall in Hl; [|exact Hin]. done.
    + intros rec Hrec Hm. split; [|done]. intros id' Hid'.
      destruct (decide (id' = id)) as [->|Hne]; [|by apply Hfr].
      destruct Hlk as [->|(rec0 & rec' & H1 & H2 & _)]; [done|]. exfalso.
      rewrite Hrec in H1. injection H1 as <-. rewrite Hcb in H2 by done.
      unfold applyAbsent in H2. by rewrite Hm in H2.
  - rewrite Hcb in Hlk |- * by done. unfold after_lock.
    pose proof (applyAbsent_spec rec) as Hab. unfold applyAbsent in Hlk, Hab |- *.
    destruct (RemovalMarker rec) eqn:Hm; simpl in *.
    { split; [set_solver|]. intros rec0 Hrec0 _. split; [|by repeat constructor].
      intros id' Hid'. destruct (decide (id' = id)) as [->|Hne]; [congruence|by apply Hfr]. }
    assert (Hno : ∀ rec0 : Sandbox, st_lookup s id = Some rec0 → RemovalMarker rec0 = true → False)
      by (intros rec0 Hr0 Hm0; congruence).
    destruct (SRemoveOnExit rec) eqn:Hroe, (SState rec) eqn:Hst; simpl in *;
      try (split; [set_solver|by intros ? ? ?; exfalso; eauto]).
    pose proof (st_delete_effect skip_write io2 id s1) as Heff.
    destruct (st_delete skip_write io2 id s1) as [s2 [[]|e]]; simpl;
      (split; [|by intros ? ? ?; exfalso; eauto]); intros _.
    + left. by apply Heff.
    + destruct Heff as [[->| ->] _]; [|by left]. right. eexists. split; [exact Hlk|]. by destruct rec.
Qed.

(** ** Fixed points of recovery *)

(** The callback has nothing to write and nothing is left to do after the lock. *)
Definition quiet env id rec : Prop :=
  (recover_callback env id rec).2 = Err errSkipWrite ∧
  c_needDelete (recover_callback env id rec).1 = false ∧
  c_adoptable (recover_callback env id rec).1 = None.

Definition supervisor_dead env rec : bool :=
  match env_checkSupervisor env with
  | Some check =>
      (0 <? SupervisorPID rec) &&
      match check (SupervisorPID rec) (SupervisorSock rec) with Ok false => true | _ => false end
  | None => false
  end.

Lemma quiet_run env io1 io2 id s :
  wf_id id →
  (∀ rec, st_lookup s id = Some rec → quiet env id rec) →
  let '(log, out, s') := recoverByID env io1 io2 id s in
  (∀ id', wf_id id' → st_lookup s' id' = st_lookup s id') ∧
  (log = [] ∨ ∃ rec, st_lookup s id = Some rec ∧ log = c_events (recover_callback env id rec).1).
Proof.
  intros Hid Hq. destruct (recoverByID_cases env io1 io2 id s) as (s1 & Hfr & H).
  assert (Hall : st_lookup s1 id = st_lookup s id →
                 ∀ id', wf_id id' → st_lookup s1 id' = st_lookup s id').
  { intros He id' Hid'. destruct (decide (id' = id)) as [->|Hne]; [done|by apply Hfr]. }
  destruct H as [(log & out & -> & _ & Hlog & Hl)|(rec & Hrec & -> & Hl)].
  - split; [|done]. apply Hall. destruct Hl as [Hl|(rec & rec' & Hr & Hcb & _)]; [done|].
    destruct (Hq rec Hr) as [Hq' _]. congruence.
  - destruct (Hq rec Hrec) as (Hr & Hd & Ha). rewrite after_lock_quiet by done.
    rewrite Hr in Hl. split; [apply Hall; by rewrite Hl|]. eauto.
Qed.

Lemma supervisor_alive_skip env rec out :
  supervisor_dead env rec = false →
  (applySupervisorLiveness env rec out).1.1.2 = false ∧
  (applySupervisorLiveness env rec out).1.2 = rec ∧
  so_Kind (applySupervisorLiveness env rec out).2 = so_Kind out.
Proof.
  unfold supervisor_dead, applySupervisorLiveness. case_bool_decide; simpl; [|done].
  destruct (env_checkSupervisor env) as [check|]; [|done].
  destruct (Z.leb_spec (SupervisorPID rec) 0); [done|].
  destruct (Z.ltb_spec 0 (SupervisorPID rec)); [|lia].
  by destruct (check _ _) as [[]|].
Qed.

Lemma quiet_live env id rec rs st :
  observed env id = Some rs → live_state rs = Some st →
  SState rec = st → InstanceID rec = o_InstanceID (env_observe env id).1 →
  RemovalMarker rec = false → supervisor_dead env rec = false →
  quiet env id rec ∧ so_Kind (c_outcome (recover_callback env id rec).1) = OutcomeAdopted.
Proof.
  intros Ho Hl Hst Hid Hm Hsup. unfold quiet. rewrite (callback_live _ _ _ _ _ Ho Hl).
  unfold live_branch, applyAdopt. rewrite bool_decide_eq_true_2 by done.
  rewrite Hid, String.eqb_refl, Hm. simpl.
  set (out := mkOutcome _ _ _). pose proof (supervisor_alive_skip env rec out Hsup) as (H1 & H2 & H3).
  destruct (applySupervisorLiveness env rec out) as [[[ev w] rec'] out']. simpl in *. subst.
  rewrite H3. done.
Qed.

Lemma quiet_noedge env id rec rs st :
  observed env id = Some rs → live_state rs = Some st →
  adoptable_state st rec = false → quiet env id rec.
Proof.
  intros Ho Hl Ha. unfold quiet. rewrite (callback_live _ _ _ _ _ Ho Hl).
  assert (Hv : State_Valid st = true) by (by destruct rs; simplify_eq/=).
  pose proof (live_branch_spec env [EvObserve id] st (o_InstanceID (env_observe env id).1) rec Hv)
    as H. destruct (live_branch _ _ _ _ _) as [c r]. destruct H as (Hd & _ & Had & Hst).
  rewrite Ha in Hst. destruct Hst as [-> Hk]. simpl. split_and!; [done..|].
  destruct (c_adoptable c); [by destruct Had|done].
Qed.

Lemma quiet_absent env id rec :
  observed env id = Some RSAbsent →
  RemovalMarker rec = true ∨ (SState rec ≠ Running ∧ (SState rec = Paused → SRemoveOnExit rec = true)) →
  quiet env id rec.
Proof.
  intros Ho Hc. unfold quiet. rewrite (callback_absent _ _ _ Ho). unfold applyAbsent.
  destruct (RemovalMarker rec); [done|]. destruct Hc as [|[Hc1 Hc2]]; [done|].
  destruct (SRemoveOnExit rec), (SState rec); simpl; try done. by specialize (Hc2 eq_refl).
Qed.

(** The record left under the lock for a live VM does not name a dead supervisor. *)
Lemma live_written_alive env ev st iid rec :
  State_Valid st = true → adoptable_state st rec = true →
  supervisor_dead env (written rec (live_branch env ev st iid rec).2) = false.
Proof.
  intros Hv Had. unfold live_branch. pose proof (applyAdopt_spec rec st iid Hv) as Ha.
  destruct (applyAdopt rec st iid) as [[wrote rec1] out1].
  assert (Hk : so_Kind out1 = OutcomeAdopted ∧ (wrote = false → rec1 = rec)).
  { destruct wrote; [naive_solver|]. destruct Ha as [-> [Ha|(_ & Hn & Hno)]]; [naive_solver|].
    unfold adoptable_state in Had. by rewrite bool_decide_eq_false_2, Hno in Had. }
  destruct Hk as [Hk Hrec1]. unfold applySupervisorLiveness, supervisor_dead.
  rewrite bool_decide_eq_true_2 by done. simpl.
  destruct (env_checkSupervisor env) as [check|] eqn:Hck; [|done].
  assert (Hw : written rec (if negb wrote && negb false then Err errSkipWrite else Ok rec1) = rec1)
    by (destruct wrote; [done|]; simpl; by rewrite Hrec1).
  destruct (Z.leb_spec (SupervisorPID rec1) 0); cbn [snd].
  - rewrite Hw. by destruct (Z.ltb_spec 0 (SupervisorPID rec1)); [lia|].
  - destruct (check (SupervisorPID rec1) (SupervisorSock rec1)) as [[]|e] eqn:Hc; cbn [snd].
    + rewrite Hw, Hc. apply andb_false_r.
    + rewrite andb_false_r. simpl. by destruct rec1.
    + rewrite Hw, Hc. apply andb_false_r.
Qed.

Lemma supervisor_dead_persisted env rec :
  supervisor_dead env (persisted rec) = supervisor_dead env rec.
Proof. by destruct rec. Qed.

(** What the spawned replacement supervisor does to the record of its sandbox: it
    leaves the lifecycle fields alone and does not leave the identity of a dead
    supervisor behind. *)
Definition spawn_settles env id : Prop :=
  ∀ spawn sb s0 rec0, env_spawn env = Some spawn → st_lookup s0 id = Some rec0 →
    supervisor_dead env rec0 = false →
    ∃ rec1, st_lookup (spawn sb s0).1 id = Some rec1 ∧ SState rec1 = SState rec0 ∧
            InstanceID rec1 = InstanceID rec0 ∧ RemovalMarker rec1 = RemovalMarker rec0 ∧
            supervisor_dead env rec1 = false.

Lemma reaches_quiet_live env io1 io2 id s rec rs st :
  st_healthy io1 → spawn_settles env id → st_lookup s id = Some rec →
  observed env id = Some rs → live_state rs = Some st → adoptable_state st rec = true →
  let '(_, _, s') := recoverByID env io1 io2 id s in
  ∀ rec, st_lookup s' id = Some rec → quiet env id rec.
Proof.
  intros Hh1 Hsp Hrec Ho Hl Had.
  assert (Hv : State_Valid st = true) by (by destruct rs; simplify_eq/=).
  destruct (recoverByID_healthy env io1 io2 id s rec Hh1 Hrec) as (s1 & -> & _ & Hlk).
  rewrite (callback_live _ _ _ _ _ Ho Hl) in Hlk |- *.
  set (iid := o_InstanceID (env_observe env id).1) in *.
  pose proof (live_written_alive env [EvObserve id] st iid rec Hv Had) as Hal.
  pose proof (live_branch_spec env [EvObserve id] st iid rec Hv) as H.
  destruct (live_branch _ _ _ _ _) as [c r]. destruct H as (Hd & _ & _ & Hst).
  rewrite Had in Hst. destruct Hst as (Hs & Hi & Hm & _ & _). simpl in *.
  pose proof (after_lock_live env io2 id c s1 Hd) as Ha.
  destruct (after_lock _ _ _ _ _) as [[log out] s'].
  assert (∃ rec1, st_lookup s1 id = Some rec1 ∧ SState rec1 = st ∧ InstanceID rec1 = iid ∧
    RemovalMarker rec1 = false ∧ supervisor_dead env rec1 = false)
    as (rec1 & Hl1 & Hs1 & Hi1 & Hm1 & Hd1).
  { destruct r as [rec'|]; simpl in *; [exists (persisted rec')|exists rec]; [|done].
    rewrite supervisor_dead_persisted. by destruct rec'. }
  destruct Ha as [(_ & -> & _)|(sp & sb & res & Hspe & _ & _ & _ & Hrun & _)]; intros rec0 Hr0.
  - rewrite Hl1 in Hr0. injection Hr0 as <-. by apply (quiet_live env id rec1 rs st).
  - destruct (Hsp sp sb s1 rec1 Hspe Hl1 Hd1) as (rec2 & Hl2 & E1 & E2 & E3 & E4).
    rewrite Hrun in Hl2. simpl in Hl2. rewrite Hl2 in Hr0. injection Hr0 as <-.
    subst iid. apply (quiet_live env id rec2 rs st); congruence.
Qed.

Lemma reaches_quiet_absent env io1 io2 id s rec :
  st_healthy io1 → st_healthy io2 → st_lookup s id = Some rec →
  observed env id = Some RSAbsent →
  let '(_, _, s') := recoverByID env io1 io2 id s in
  ∀ rec, st_lookup s' id = Some rec → quiet env id rec.
Proof.
  intros Hh1 Hh2 Hrec Ho.
  destruct (recoverByID_healthy env io1 io2 id s rec Hh1 Hrec) as (s1 & -> & _ & Hlk).
  rewrite (callback_absent _ _ _ Ho) in Hlk |- *. pose proof (applyAbsent_spec rec) as Hab.
  destruct (applyAbsent rec) as [[[[] []] rec'] out] eqn:Eab;
    destruct Hab as (Hw & Hdw & Hdel & Hrm & Hstop & Hk); simpl in *; [| |by specialize (Hdw eq_refl)|].
  - unfold after_lock. simpl. pose proof (st_delete_runs skip_write io2 id s1 _ Hh2 Hlk) as Hrun.
    pose proof (st_delete_effect skip_write io2 id s1) as Heff.
    destruct (st_delete skip_write io2 id s1) as [s2 res]. simpl in Hrun. subst res.
    destruct Heff as [_ Hnone]. intros rec0. by rewrite Hnone.
  - rewrite Hlk. intros rec0 [= <-].
    destruct Hstop as (_ & _ & _ & -> & _); [done..|].
    apply quiet_absent; [done|]. right. by destruct rec.
  - rewrite Hlk. intros rec0 [= <-].
    unfold quiet. by rewrite (callback_absent _ _ _ Ho), Eab.
Qed.

(** After one complete run the sandbox is at a fixed point of recovery. *)
Lemma recover_reaches_quiet env io1 io2 id s :
  wf_id id → st_healthy io1 → st_healthy io2 → spawn_settles env id →
  let '(_, _, s') := recoverByID env io1 io2 id s in
  ∀ rec, st_lookup s' id = Some rec → quiet env id rec.
Proof.
  intros Hid Hh1 Hh2 Hsp.
  assert (Hkeep : (∀ rec, st_lookup s id = Some rec → quiet env id rec) →
    let '(_, _, s') := recoverByID env io1 io2 id s in
    ∀ rec, st_lookup s' id = Some rec → quiet env id rec).
  { intros Hq. pose proof (quiet_run env io1 io2 id s Hid Hq) as H.
    destruct (recoverByID _ _ _ _ _) as [[log out] s']. destruct H as [H _]. by rewrite H. }
  destruct (st_lookup s id) as [rec|] eqn:Hrec; [|by apply Hkeep].
  assert (Hunk : observed env id = None ∨ observed env id = Some RSUnknown → quiet env id rec).
  { intros Hu. pose proof (callback_unknown env id rec Hu) as H. unfold quiet.
    destruct (recover_callback env id rec). naive_solver. }
  destruct (observed env id) as [rs|] eqn:Ho; [|apply Hkeep; intros ? [= <-]; auto].
  destruct (live_state rs) as [st|] eqn:Hl.
  - destruct (adoptable_state st rec) eqn:Had; [by eapply reaches_quiet_live|].
    apply Hkeep. intros ? [= <-]. by eapply quiet_noedge.
  - destruct rs; try discriminate Hl; [apply Hkeep; intros ? [= <-]; auto|].
    by eapply reaches_quiet_absent.
Qed.


(** Under the lock the handler only asks. *)
Lemma callback_passive env id rec :
  Forall (λ e, passive e = true) (c_events (recover_callback env id rec).1).
Proof.
  destruct (observed env id) as [rs|] eqn:Ho; [destruct (live_state rs) as [st|] eqn:Hl|].
  - rewrite (callback_live _ _ _ _ _ Ho Hl).
    assert (Hv : State_Valid st = true) by (by destruct rs; simplify_eq/=).
    pose proof (live_branch_spec env [EvObserve id] st (o_InstanceID (env_observe env id).1) rec Hv)
      as H. destruct (live_branch _ _ _ _ _) as [c r]. simpl. destruct H as (_ & (ev' & -> & He) & _).
    by constructor.
  - destruct rs; try discriminate Hl.
    + pose proof (callback_unknown env id rec (or_intror Ho)) as H.
      destruct (recover_callback env id rec). destruct H as [H _]. simpl. rewrite H. by constructor.
    + rewrite (callback_absent _ _ _ Ho). destruct (applyAbsent rec) as [[[]]]. by repeat constructor.
  - pose proof (callback_unknown env id rec (or_introl Ho)) as H.
    destruct (recover_callback env id rec). destruct H as [H _]. simpl. rewrite H. by constructor.
Qed.

(** recovery is idempotent.  After one run without failing calls, a second run
    against the same substrate changes no record and destroys nothing, whichever
    of its own calls fail -- provided a spawned replacement supervisor keeps the
    lifecycle fields and does not leave a dead supervisor's identity behind. *)
Lemma recover_idempotent env io1 io2 io3 io4 id s :
  wf_id id → st_healthy io1 → st_healthy io2 → spawn_settles env id →
  let '(_, _, s1) := recoverByID env io1 io2 id s in
  let '(log, _, s2) := recoverByID env io3 io4 id s1 in
  (∀ id', wf_id id' → st_lookup s2 id' = st_lookup s1 id') ∧
  Forall (λ e, destructive e = false) log.
Proof.
  intros Hid Hh1 Hh2 Hsp. pose proof (recover_reaches_quiet env io1 io2 id s Hid Hh1 Hh2 Hsp) as Hq.
  destruct (recoverByID env io1 io2 id s) as [[log1 out1] s1].
  pose proof (quiet_run env io3 io4 id s1 Hid Hq) as Hr.
  destruct (recoverByID env io3 io4 id s1) as [[log2 out2] s2]. destruct Hr as [Hr Hlog].
  split; [done|]. destruct Hlog as [->|(rec & Hrec & ->)]; [constructor|].
  apply passive_not_destructive, callback_passive.
Qed.

(** a sandbox whose replacement supervisor could not be started is reported
    as adoptable once only.  If the spawner fails and leaves the store alone, the
    first run reports [OutcomeAdoptable]; the run also cleared the dead supervisor's
    identity, so the next run reports plain [OutcomeAdopted] and does not try to
    spawn again, although no supervisor is running. *)
Lemma adoptable_not_retried env io1 io2 id s rec rs st spawn :
  wf_id id → st_healthy io1 → st_lookup s id = Some rec →
  observed env id = Some rs → live_state rs = Some st →
  SState rec = st → InstanceID rec = o_InstanceID (env_observe env id).1 →
  RemovalMarker rec = false → supervisor_dead env rec = true →
  env_spawn env = Some spawn → (∀ sb s0, ∃ e, spawn sb s0 = (s0, Err e)) →
  let '(_, out1, s1) := recoverByID env io1 io2 id s in
  let '(log2, out2, s2) := recoverByID env io1 io2 id s1 in
  so_Kind out1 = OutcomeAdoptable ∧ so_Kind out2 = OutcomeAdopted ∧
  (∀ sb, EvSpawn sb ∉ log2).
Proof.
  intros Hid Hh Hrec Ho Hl Hst Hiid Hm Hdead Hsp Hfail.
  assert (Hcb : ∃ out ev, recover_callback env id rec =
    (mkCaptured ev out false (Some (set_SupervisorSock "" (set_SupervisorPID 0 rec))),
     Ok (set_SupervisorSock "" (set_SupervisorPID 0 rec))) ∧ so_Kind out = OutcomeAdoptable).
  { rewrite (callback_live _ _ _ _ _ Ho Hl). unfold live_branch, applyAdopt.
    rewrite bool_decide_eq_true_2 by done. rewrite Hiid, String.eqb_refl, Hm. simpl.
    unfold supervisor_dead in Hdead. unfold applySupervisorLiveness. simpl.
    destruct (env_checkSupervisor env) as [check|]; [|done].
    apply andb_prop in Hdead as [Hpid Hd]. apply Z.ltb_lt in Hpid.
    destruct (Z.leb_spec (SupervisorPID rec) 0); [lia|].
    destruct (check _ _) as [[]|]; try done. simpl. eauto. }
  destruct Hcb as (out & ev & Hcb & Hk).
  destruct (recoverByID_healthy env io1 io2 id s rec Hh Hrec) as (s1 & -> & _ & Hlk).
  rewrite Hcb in Hlk |- *. simpl in Hlk. set (sb := set_SupervisorSock _ _) in *.
  pose proof (after_lock_live env io2 id (mkCaptured ev out false (Some sb)) s1 eq_refl) as Ha.
  simpl. destruct (after_lock _ _ _ _ s1) as [[log1 out1] s1'].
  assert (s1' = s1 ∧ so_Kind out1 = OutcomeAdoptable) as [-> Hk1].
  { destruct Ha as [(_ & -> & ->)|(sp & sb' & r & Hsp' & _ & _ & _ & Hrun & ->)]; [done|].
    rewrite Hsp in Hsp'. injection Hsp' as <-. destruct (Hfail sb' s1) as [e He].
    rewrite He in Hrun. injection Hrun as <- <-. done. }
  destruct (quiet_live env id (persisted sb) rs st Ho Hl) as [(Hq1 & Hq2 & Hq3) Hka];
    [by destruct rec..| |].
  { rewrite supervisor_dead_persisted. unfold supervisor_dead.
    destruct (env_checkSupervisor env); [|done]. by destruct rec. }
  destruct (recoverByID_healthy env io1 io2 id s1 _ Hh Hlk) as (s2 & -> & _ & _).
  rewrite after_lock_quiet by done. split_and!; [done..|].
  intros sb' Hin. pose proof (callback_passive env id (persisted sb)) as Hp.
  eapply Forall_forall in Hp; [|exact Hin]. done.
Qed.

(** ** All sandboxes *)

(** The destructive calls of a log are about identifiers satisfying [P]. *)
Definition destroys_only (P : SandboxID → Prop) (log : list Event) : Prop :=
  Forall (λ e, match e with EvStop i | EvDelete i | EvReap i => P i | _ => True end) log.

Lemma passive_destroys P l : Forall (λ e, passive e = true) l → destroys_only P l.
Proof. intros H. eapply Forall_impl; [exact H|]. by intros []. Qed.

Lemma not_destructive_destroys P l : Forall (λ e, destructive e = false) l → destroys_only P l.
Proof. intros H. eapply Forall_impl; [exact H|]. by intros []. Qed.

Definition spawn_keeps env : Prop :=
  ∀ spawn sb s0 id, env_spawn env = Some spawn →
    is_Some (st_lookup s0 id) → is_Some (st_lookup (spawn sb s0).1 id).

Lemma spawnReplacement_keeps env sb out s id :
  spawn_keeps env → is_Some (st_lookup s id) →
  is_Some (st_lookup (spawnReplacement env sb out s).2 id) ∧
  destroys_only (λ _, False) (spawnReplacement env sb out s).1.1.
Proof.
  intros Hk Hs. unfold spawnReplacement, destroys_only.
  destruct (env_spawn env) as [spawn|] eqn:E; [|by split; [|constructor]].
  destruct (String.eqb _ _); [by split; [|constructor]|]. specialize (Hk spawn sb s id E Hs).
  by destruct (spawn sb s) as [s' [ca|e]]; (split; [done|repeat constructor]).
Qed.

(** Recovering one sandbox leaves the records of the others in place and makes
    destructive calls for that sandbox only. *)
Lemma recoverByID_other env io1 io2 id id' s :
  spawn_keeps env → wf_id id → wf_id id' → id' ≠ id → is_Some (st_lookup s id') →
  let '(log, _, s') := recoverByID env io1 io2 id s in
  is_Some (st_lookup s' id') ∧ destroys_only (λ i, i = id) log.
Proof.
  intros Hk Hid Hid' Hne Hs. destruct (recoverByID_cases env io1 io2 id s) as (s1 & Hfr & H).
  specialize (Hfr Hid id' Hid' Hne). rewrite <- Hfr in Hs.
  destruct H as [(log & out & -> & _ & Hlog & _)|(rec & _ & -> & _)].
  { split; [done|]. destruct Hlog as [->|(rec & _ & ->)]; [constructor|].
    apply passive_destroys, callback_passive. }
  pose proof (callback_passive env id rec) as Hp. destruct (recover_callback env id rec) as [c r].
  simpl in *. clear Hfr. unfold after_lock.
  assert (Hsp : ∃ evS out s2, match c_adoptable c with
      | Some sb => spawnReplacement env sb (c_outcome c) s1
      | None => ([], c_outcome c, s1) end = (evS, out, s2) ∧
    is_Some (st_lookup s2 id') ∧ destroys_only (λ i, i = id) (c_events c ++ evS)).
  { destruct (c_adoptable c) as [sb|].
    - destruct (spawnReplacement_keeps env sb (c_outcome c) s1 id' Hk Hs) as [H1 H2].
      destruct (spawnReplacement _ _ _ _) as [[evS out] s2]. eexists _, _, _.
      split; [done|]. split; [done|]. apply Forall_app. split; [by apply passive_destroys|].
      eapply Forall_impl; [exact H2|]. by intros [].
    - eexists _, _, _. split; [done|]. split; [done|]. rewrite app_nil_r. by apply passive_destroys. }
  destruct Hsp as (evS & out & s2 & -> & Hs2 & Hev).
  destruct (c_needDelete c); [|done].
  pose proof (st_delete_frame skip_write io2 id id' s2 Hid Hid' Hne) as Hdf.
  destruct (st_delete skip_write io2 id s2) as [s3 [u|e]]; simpl in Hdf;
    (split; [by rewrite Hdf|]; apply Forall_app; split; [done|by repeat constructor]).
Qed.

Lemma recover_loop_protects env ios ids s :
  spawn_keeps env → Forall wf_id ids →
  let '(log, outs, s') := recover_loop env ios ids s in
  length outs = length ids ∧
  ∀ id rs st, wf_id id → observed env id = Some rs → live_state rs = Some st →
    is_Some (st_lookup s id) → is_Some (st_lookup s' id) ∧ destroys_only (λ i, i ≠ id) log.
Proof.
  intros Hk. revert s; induction ids as [|i ids IH]; intros s0 Hwf; simpl.
  { split; [done|]. intros. split; [done|constructor]. }
  apply Forall_cons in Hwf as [Hi Hwf].
  pose proof (λ rs st, live_run_safe env (ios i).1 (ios i).2 i s0 rs st) as Hsame.
  pose proof (λ id', recoverByID_other env (ios i).1 (ios i).2 i id' s0 Hk Hi) as Hother.
  destruct (recoverByID env (ios i).1 (ios i).2 i s0) as [[ev out] s1].
  specialize (IH s1 Hwf). destruct (recover_loop env ios ids s1) as [[ev' outs] s2].
  destruct IH as [IHl IH]. split; [simpl; by rewrite IHl|].
  intros id rs st Hid Ho Hlv Hs.
  assert (is_Some (st_lookup s1 id) ∧ destroys_only (λ i, i ≠ id) ev) as [Hs1 Hev].
  { destruct (decide (id = i)) as [->|Hne].
    - destruct (Hsame rs st Ho Hlv) as [H1 H2]. split; [|by apply not_destructive_destroys].
      apply H2; [|done]. intros spawn sb s3 Hspawn. by apply Hk.
    - destruct (Hother id Hid Hne Hs) as [H1 H2]. split; [done|].
      eapply Forall_impl; [exact H2|]. intros []; simpl; congruence. }
  destruct (IH id rs st Hid Ho Hlv Hs1) as [H1 H2]. split; [done|]. by apply Forall_app.
Qed.

(** a recovery of all sandboxes is safe for every live VM.  Without failing
    calls to list the store, [Recover] examines every stored sandbox and returns
    one outcome for each; and for every sandbox whose VM the driver reports running
    or paused, no run for any sandbox stops it, deletes its record or reaps its
    disks, and its record is still there at the end. *)
Lemma Recover_protects_live_vms env io ios s :
  st_healthy io → st_ok s → spawn_keeps env →
  ∃ log outs s' l, Recover env io ios s = Ok (log, outs, s') ∧
  st_list Empty_set io s = Ok l ∧ length outs = length l ∧
  (∀ id rec, wf_id id → st_lookup s id = Some rec → rec ∈ l) ∧
  ∀ id rs st, wf_id id → observed env id = Some rs → live_state rs = Some st →
    is_Some (st_lookup s id) →
    is_Some (st_lookup s' id) ∧ destroys_only (λ i, i ≠ id) log.
Proof.
  intros Hh Hok Hk. destruct (st_list_spec Empty_set io s Hh Hok) as (l & Hl & Hin).
  unfold Recover. rewrite Hl. simpl.
  pose proof (recover_loop_protects env ios (ID <$> l) s Hk) as Hloop.
  destruct (recover_loop env ios (ID <$> l) s) as [[log outs] s'].
  destruct Hloop as [Hlen Hsafe].
  { apply Forall_fmap, Forall_forall. intros sb Hsb. by apply Hin in Hsb as [? _]. }
  exists log, outs, s', l. split_and!; [done..|by rewrite Hlen, length_fmap| |done].
  intros id rec Hid Hrec. apply Hin. pose proof (st_lookup_ID s id rec Hok Hid Hrec) as Heq.
  by rewrite Heq.
Qed.

End recovery.

(** ** Witnesses: the claims at a stored sandbox, over the file store *)

Definition example_env (rs : RunState) (alive : bool) : Env (S:=FS) :=
  mkEnv (λ _, (mkObservation rs "vm-1", None)) (Some (λ _ _, Ok alive))
    (Some (λ _ s, (s, Err "refused"%string))) (λ _, None) (λ _, ""%string).

Lemma example_spawn_keeps rs alive : spawn_keeps (IO:=IO) (example_env rs alive).
Proof. by intros spawn sb s0 id [= <-] ?. Defined.

Lemma recover_unknown_no_action_witness :
  lookup_sandbox (recoverByID (example_env RSUnknown true) io_none io_none example_id example_fs).2
    example_id = Some (persisted example_sandbox).
Proof.
  pose proof (recover_unknown_no_action (example_env RSUnknown true) io_none io_none example_id
    example_fs eq_refl (or_intror eq_refl)) as H.
  destruct (recoverByID _ _ _ _ _) as [[log out] s']. destruct H as (H & _).
  etrans; [exact (H example_id eq_refl)|exact example_lookup].
Defined.

Lemma recover_never_harms_live_vm_witness :
  is_Some (lookup_sandbox
    (recoverByID (example_env RSRunning false) io_none io_none example_id example_fs).2 example_id).
Proof.
  pose proof (recover_never_harms_live_vm (example_env RSRunning false) io_none io_none example_id
    example_fs RSRunning Running eq_refl eq_refl) as H.
  destruct (recoverByID _ _ _ _ _) as [[log out] s']. apply H.
  - by intros spawn sb s0 [= <-] ?.
  - exists (persisted example_sandbox). exact example_lookup.
Defined.

Lemma recover_adopts_observed_witness :
  so_Kind (recoverByID (example_env RSPaused true) io_none io_none example_id example_fs).1.2
  = OutcomeAdopted ∨
  so_Kind (recoverByID (example_env RSPaused true) io_none io_none example_id example_fs).1.2
  = OutcomeAdoptable.
Proof.
  pose proof (recover_adopts_observed (example_env RSPaused true) io_none io_none example_id
    example_fs (persisted example_sandbox) RSPaused Paused example_healthy example_lookup eq_refl
    eq_refl)
    as H.
  destruct (recoverByID _ _ _ _ _) as [[log out] s']. destruct H as (s1 & rec1 & _ & _ & H).
  apply H.
Defined.

Lemma recover_absent_resolution_witness :
  so_Kind (recoverByID (example_env RSAbsent true) io_none io_none example_id example_fs).1.2
  = OutcomeResolvedStopped.
Proof.
  pose proof (recover_absent_resolution (example_env RSAbsent true) io_none io_none example_id
    example_fs (persisted example_sandbox) example_healthy example_healthy
    example_lookup eq_refl) as H.
  destruct (recoverByID _ _ _ _ _) as [[log out] s']. apply H.
Defined.

Lemma recover_removal_wal_witness :
  ∃ log out s', recoverByID (example_env RSAbsent true) io_none io_none example_id example_fs
    = (log, out, s') ∧ (EvStop example_id ∈ log → lookup_sandbox s' example_id = None ∨
      ∃ rec, lookup_sandbox s' example_id = Some rec ∧ RemovalMarker rec = true).
Proof.
  pose proof (recover_removal_wal (example_env RSAbsent true) io_none io_none example_id
    example_fs eq_refl eq_refl) as H.
  destruct (recoverByID _ _ _ _ _) as [[log out] s']. exists log, out, s'. split; [done|apply H].
Defined.

Lemma example_settles rs alive : spawn_settles (IO:=IO) (example_env rs alive) example_id.
Proof. intros spawn sb s0 rec0 [= <-] Hl Hd. exists rec0. done. Defined.

Lemma recover_idempotent_witness :
  let '(_, _, s1) := recoverByID (example_env RSAbsent true) io_none io_none example_id example_fs in
  let '(_, _, s2) := recoverByID (example_env RSAbsent true) io_none io_none example_id s1 in
  lookup_sandbox s2 example_id = lookup_sandbox s1 example_id.
Proof.
  pose proof (recover_idempotent (example_env RSAbsent true) io_none io_none io_none io_none
    example_id example_fs eq_refl example_healthy example_healthy (example_settles _ _)) as H.
  destruct (recoverByID _ _ _ _ _) as [[log1 out1] s1].
  destruct (recoverByID _ _ _ _ s1) as [[log2 out2] s2]. by apply H.
Defined.

Lemma adoptable_not_retried_witness :
  let '(_, out1, s1) :=
    recoverByID (example_env RSRunning false) io_none io_none example_id example_fs in
  let '(_, out2, _) := recoverByID (example_env RSRunning false) io_none io_none example_id s1 in
  so_Kind out1 = OutcomeAdoptable ∧ so_Kind out2 = OutcomeAdopted.
Proof.
  pose proof (adoptable_not_retried (example_env RSRunning false) io_none io_none example_id
    example_fs (persisted example_sandbox) RSRunning Running _ eq_refl example_healthy example_lookup eq_refl
    eq_refl eq_refl eq_refl eq_refl eq_refl eq_refl (λ sb s0, ex_intro _ _ eq_refl)) as H.
  destruct (recoverByID _ _ _ _ _) as [[log1 out1] s1].
  destruct (recoverByID _ _ _ _ s1) as [[log2 out2] s2]. split; apply H.
Defined.

Lemma Recover_protects_live_vms_witness :
  ∃ log outs s' l, Recover (example_env RSRunning false) io_none (λ _, (io_none, io_none))
    example_fs = Ok (log, outs, s') ∧ length outs = length (l : list Sandbox).
Proof.
  destruct (Recover_protects_live_vms (RecordStore0:=FileStore_RecordStore) (example_env RSRunning false) io_none
    (λ _, (io_none, io_none)) example_fs example_healthy example_store_wf
    (example_spawn_keeps _ _)) as (log & outs & s' & l & H1 & _ & H2 & _).
  exists log, outs, s', l. split; [exact H1|exact H2].
Defined.
