(* ===== verification/Resize.v ===== *)
(** * internal/core/resize, internal/core/vmcfg: telemetry, bounds and boot sizing

    Models the data the governor works on -- [Sample], [DiskSample] and [Bounds] of
    [resize/types.go] -- and [vmcfg.Resolve], which derives the bounds of every VM
    from the requested sizes. *)

From stdpp Require Import prelude strings list pretty.
From Stdlib Require Import ZArith Lia.
From S2P Require Import Prelude GoFloat.

(** [Sample.Trigger] is a string of which the host compares four values; any other
    text behaves like the empty one. *)
Inductive SampleTrigger := TriggerNone | TriggerPSIMemory | TriggerPSICPU | TriggerHeartbeat.

#[global] Instance SampleTrigger_eq_dec : EqDecision SampleTrigger.
Proof. solve_decision. Defined.

Record DiskSample := mkDiskSample {
  ds_Index : Z;
  ds_UsedBytes : Z;
  ds_TotalBytes : Z;
  ds_Supported : bool;
}.

Record Sample := mkSample {
  Timestamp : Time;
  MemAvailableBytes : Z;
  MemTotalBytes : Z;
  MemPSISomeAvg10 : float64;
  MemPSIFullAvg10 : float64;
  MemPSISupported : bool;
  CPUPSISomeAvg10 : float64;
  CPUPSISupported : bool;
  DiskUsedBytes : Z;
  DiskTotalBytes : Z;
  DiskSupported : bool;
  DiskStats : list DiskSample;
  SwapTotalBytes : Z;
  SwapFreeBytes : Z;
  SwapInPages : Z;
  VCPUCount : Z;
  VCPUOnline : Z;
  STrigger : SampleTrigger;
}.

Definition zero_sample : Sample :=
  mkSample zero_time 0 0 (SpecFloat.S754_zero false) (SpecFloat.S754_zero false) false
    (SpecFloat.S754_zero false) false 0 0 false [] 0 0 0 0 0 TriggerNone.

Definition IsTriggered (s : Sample) : bool :=
  bool_decide (STrigger s = TriggerPSIMemory) || bool_decide (STrigger s = TriggerPSICPU).

Record Bounds := mkBounds {
  MemMinBytes : Z;
  MemMaxBytes : Z;
  VCPUMin : Z;
  VCPUMax : Z;
  DiskMaxBytes : Z;
}.

Definition SampleMaxAge : Duration := 60 * Second.

(** ** vmcfg *)

Record VMConfig := mkVMConfig {
  BootMemMiB : Z;
  BootVCPUs : Z;
  MemMaxMiB : Z;
  VCPUsMax : Z;
  DiskMaxGiB : Z;
  Nested : bool;
}.

Record VMResult := mkVMResult {
  vr_Bounds : Bounds;
  vr_MemoryMaxMiB : Z;
  vr_VCPUMax : Z;
  vr_PID1Args : string;
}.

Definition NestedMemMaxFloorMiB : Z := 8192.

Definition Resolve (c : VMConfig) : VMResult :=
  let bootMem := if BootMemMiB c =? 0 then 512 else BootMemMiB c in
  let bootCPUs := if BootVCPUs c =? 0 then 1 else BootVCPUs c in
  let memMax :=
    if MemMaxMiB c =? 0 then
      let m := u32 (bootMem * 4) in
      let floor := if Nested c then NestedMemMaxFloorMiB else 4096 in
      if m <? floor then floor else m
    else MemMaxMiB c in
  let vcpuMax :=
    if VCPUsMax c =? 0 then
      let v := u32 (bootCPUs * 4) in if v <? 4 then 4 else v
    else VCPUsMax c in
  let diskMax := if DiskMaxGiB c =? 0 then 100 else DiskMaxGiB c in
  let bounds := mkBounds
    (i64 (bootMem * 1024 * 1024)) (i64 (memMax * 1024 * 1024))
    (i32 bootCPUs) (i32 vcpuMax) (i64 (diskMax * 1024 * 1024 * 1024)) in
  mkVMResult bounds memMax vcpuMax
    (" --mem-ceiling=" +:+ pretty (i64 (memMax * 1024 * 1024))).

Definition u32_range (z : Z) : Prop := 0 ≤ z < 2 ^ 32.

(** the bounds every VM boots with.  With default ceilings and boot sizes below a
    quarter of the 32-bit range, the resolved bounds are strictly ordered (so the
    governor is active on both axes), the ceiling is at least four times the boot
    size and never below the documented floors, and no conversion overflows. *)
Lemma Resolve_default_bounds c :
  0 ≤ BootMemMiB c < 2 ^ 30 → 0 ≤ BootVCPUs c < 2 ^ 28 →
  MemMaxMiB c = 0 → VCPUsMax c = 0 → DiskMaxGiB c = 0 →
  let b := vr_Bounds (Resolve c) in
  0 < MemMinBytes b < MemMaxBytes b ∧ 4 * MemMinBytes b ≤ MemMaxBytes b ∧
  MemMaxBytes b = vr_MemoryMaxMiB (Resolve c) * 2 ^ 20 ∧
  (if Nested c then 8192 else 4096) ≤ vr_MemoryMaxMiB (Resolve c) ∧
  0 < VCPUMin b < VCPUMax b ∧ 4 * VCPUMin b ≤ VCPUMax b ∧ 4 ≤ VCPUMax b ∧
  DiskMaxBytes b = 100 * 2 ^ 30.
Proof.
  intros Hm Hv Hm0 Hv0 Hd0 b. unfold b, Resolve, NestedMemMaxFloorMiB. rewrite Hm0, Hv0, Hd0. simpl.
  set (bm := if BootMemMiB c =? 0 then 512 else BootMemMiB c).
  set (bv := if BootVCPUs c =? 0 then 1 else BootVCPUs c).
  assert (Hbm : 0 < bm < 2 ^ 30) by (unfold bm; destruct (Z.eqb_spec (BootMemMiB c) 0); lia).
  assert (Hbv : 0 < bv < 2 ^ 28) by (unfold bv; destruct (Z.eqb_spec (BootVCPUs c) 0); lia).
  rewrite (wrap_u_small 32 (bm * 4)) by lia. rewrite (wrap_u_small 32 (bv * 4)) by lia.
  rewrite (i32_small bv) by lia.
  set (mm := if bm * 4 <? _ then _ else _). set (vm := if bv * 4 <? 4 then 4 else bv * 4).
  assert (Hmm : mm < 2 ^ 32 ∧ 4 * bm ≤ mm ∧ (if Nested c then 8192 else 4096) ≤ mm).
  { unfold mm. destruct (Nested c); destruct (Z.ltb_spec (bm * 4) 8192), (Z.ltb_spec (bm * 4) 4096);
      lia. }
  assert (Hvm : 4 * bv ≤ vm ∧ 4 ≤ vm ∧ vm < 2 ^ 31)
    by (unfold vm; destruct (Z.ltb_spec (bv * 4) 4); lia).
  rewrite !i64_small by lia. rewrite (i32_small vm) by lia. lia.
Qed.

Lemma Resolve_default_bounds_witness :
  let b := vr_Bounds (Resolve (mkVMConfig 0 0 0 0 0 false)) in
  0 < MemMinBytes b < MemMaxBytes b.
Proof. apply (Resolve_default_bounds (mkVMConfig 0 0 0 0 0 false)); simpl; lia. Defined.
