(* ===== verification/Headroom.v ===== *)
(** * internal/core/govern: host memory headroom ([hostheadroom.go])

    Models [hostMemAvailFloor], [parseKB], [readMeminfo] and
    [procfsHeadroom.HasHeadroom] over the text of a meminfo file.  A file that
    cannot be opened or read, and a line longer than the scanner's buffer, are the
    [None] contents. *)

From stdpp Require Import prelude strings list.
From Stdlib Require Import ZArith Ascii Lia.
From S2P Require Import Prelude GoStrings GoFloat.

Definition hostMemAvailFloorMin : Z := 1 * 1024 * 1024 * 1024.
Definition hostMemAvailFloorPct : float64 := f64_lit 5 100.

Definition hostMemAvailFloor (memTotal : Z) : Z :=
  let fivePct := i64_of_f64 (f64_mul (f64_of_Z memTotal) hostMemAvailFloorPct) in
  if hostMemAvailFloorMin <? fivePct then fivePct else hostMemAvailFloorMin.

Definition parseKB (s : string) : result num_error Z :=
  let s := TrimSpace s in
  let s := TrimSuffix s " kB" in
  let s := TrimSpace s in
  let* kb := ParseInt s in
  Ok (i64 (kb * 1024)).

Inductive meminfo_error :=
| MIRead
| MIParse (field : string) (e : num_error)
| MINotFound (field : string).

(** The scan loop; the two options are the fields seen so far. *)
Fixpoint scan_meminfo (lines : list bytes) (avail total : option Z)
    : result meminfo_error (option Z * option Z) :=
  match lines with
  | [] => Ok (avail, total)
  | l :: lines =>
      match Cut (of_chars l) ":"%char with
      | None => scan_meminfo lines avail total
      | Some (key, val) =>
          let key := TrimSpace key in
          let cont avail total :=
            match avail, total with
            | Some _, Some _ => Ok (avail, total)
            | _, _ => scan_meminfo lines avail total
            end in
          if String.eqb key "MemAvailable" then
            match parseKB val with
            | Err e => Err (MIParse "MemAvailable" e)
            | Ok v => cont (Some v) total
            end
          else if String.eqb key "MemTotal" then
            match parseKB val with
            | Err e => Err (MIParse "MemTotal" e)
            | Ok v => cont avail (Some v)
            end
          else cont avail total
      end
  end.

Definition readMeminfo (contents : option bytes) : result meminfo_error (Z * Z) :=
  match contents with
  | None => Err MIRead
  | Some text =>
      let* r := scan_meminfo (scan_lines text) None None in
      match r with
      | (None, _) => Err (MINotFound "MemAvailable")
      | (Some _, None) => Err (MINotFound "MemTotal")
      | (Some a, Some t) => Ok (a, t)
      end
  end.

Definition HasHeadroom (contents : option bytes) (growBytes : Z) : result meminfo_error bool :=
  let* r := readMeminfo contents in
  let '(avail, total) := r in
  Ok (hostMemAvailFloor total <=? i64 (avail - growBytes)).

(** ** What a positive answer means *)

(** Some line reads [name: <n> kB] for the value [v]. *)
Definition field_line (lines : list bytes) (name : string) (v : Z) : Prop :=
  ∃ l key val, l ∈ lines ∧ Cut (of_chars l) ":"%char = Some (key, val) ∧
               TrimSpace key = name ∧ parseKB val = Ok v.

(** A field of the result is the one handed in, or was read from a line. *)
Definition field_from (lines : list bytes) (name : string) (old new : option Z) : Prop :=
  new = old ∨ ∃ v, new = Some v ∧ field_line lines name v.

Lemma field_line_later l lines name v : field_line lines name v → field_line (l :: lines) name v.
Proof. intros (l' & k & w & ? & ?). exists l', k, w. rewrite elem_of_cons. tauto. Qed.

Lemma field_from_later l lines name old new :
  field_from lines name old new → field_from (l :: lines) name old new.
Proof. intros [|(v & ? & ?%(field_line_later l))]; [by left|right; eauto]. Qed.

Lemma field_line_here l lines key val v :
  Cut (of_chars l) ":"%char = Some (key, val) → parseKB val = Ok v →
  field_line (l :: lines) (TrimSpace key) v.
Proof. intros. exists l, key, val. rewrite elem_of_cons. auto. Qed.

Lemma field_from_here l lines key val v new :
  Cut (of_chars l) ":"%char = Some (key, val) → parseKB val = Ok v →
  field_from lines (TrimSpace key) (Some v) new → ∀ old,
  field_from (l :: lines) (TrimSpace key) old new.
Proof.
  intros Hc Hp [->|(v' & -> & H)] old; right; eauto using field_line_later, field_line_here.
Qed.

Lemma scan_meminfo_sound lines avail total a t :
  scan_meminfo lines avail total = Ok (a, t) →
  field_from lines "MemAvailable" avail a ∧ field_from lines "MemTotal" total t.
Proof.
  revert avail total. induction lines as [|l lines IH]; intros avail total; cbn [scan_meminfo].
  { intros [= <- <-]. split; by left. }
  destruct (Cut (of_chars l) _) as [[key val]|] eqn:Ec;
    [|intros H; destruct (IH _ _ H); auto using field_from_later].
  assert (Hcont : ∀ av to, match av, to with
      | Some _, Some _ => Ok (av, to) | _, _ => scan_meminfo lines av to end = Ok (a, t) →
      field_from lines "MemAvailable" av a ∧ field_from lines "MemTotal" to t).
  { intros [] [] H; simplify_eq; auto. split; by left. }
  destruct (String.eqb_spec (TrimSpace key) "MemAvailable") as [Ek|_];
    [|destruct (String.eqb_spec (TrimSpace key) "MemTotal") as [Ek|_]].
  - destruct (parseKB val) as [v|e] eqn:Ep; [|done]. intros H. destruct (Hcont (Some v) total H) as [H1 H2].
    rewrite <- Ek in H1. split; [rewrite <- Ek|by apply field_from_later].
    eapply field_from_here; eauto.
  - destruct (parseKB val) as [v|e] eqn:Ep; [|done]. intros H. destruct (Hcont avail (Some v) H) as [H1 H2].
    rewrite <- Ek in H2. split; [by apply field_from_later|rewrite <- Ek].
    eapply field_from_here; eauto.
  - intros H. destruct (Hcont avail total H). auto using field_from_later.
Qed.

Lemma hostMemAvailFloor_min total : hostMemAvailFloorMin ≤ hostMemAvailFloor total.
Proof. unfold hostMemAvailFloor. case_match; reflect_bools; lia. Qed.

(** the host headroom check is fail-conservative.  A positive answer means that
    the file was read and has both fields, that the available memory it states,
    less the requested growth, is at least the floor -- one GiB and five per cent
    of the total -- and is not an artefact of wrap-around for a growth within the
    range of a sandbox (at most 2^62 bytes); every read or parse problem is an
    error, never a positive answer. *)
Lemma HasHeadroom_true_means contents growBytes :
  HasHeadroom contents growBytes = Ok true → 0 ≤ growBytes ≤ 2 ^ 62 →
  ∃ text avail total, contents = Some text ∧
  field_line (scan_lines text) "MemAvailable" avail ∧
  field_line (scan_lines text) "MemTotal" total ∧
  hostMemAvailFloor total ≤ i64 (avail - growBytes) ∧
  1024 * 1024 * 1024 ≤ i64 (avail - growBytes) ∧
  (0 ≤ avail → growBytes + hostMemAvailFloor total ≤ avail).
Proof.
  unfold HasHeadroom, readMeminfo. destruct contents as [text|]; [|done].
  destruct (scan_meminfo _ _ _) as [[[a|] [t|]]|e] eqn:Es; simpl; try done.
  intros [= Hle%Z.leb_le] Hg. exists text, a, t.
  destruct (scan_meminfo_sound _ _ _ _ _ Es) as
    [[|(v & [= <-] & H1)] [|(v' & [= <-] & H2)]]; try done.
  pose proof (hostMemAvailFloor_min t) as Hmin. unfold hostMemAvailFloorMin in Hmin.
  split_and!; [done..|lia|].
  intros Ha. assert (Hr : - 2 ^ 63 ≤ a < 2 ^ 63).
  { destruct H1 as (_ & _ & val & _ & _ & _ & Hp). unfold parseKB in Hp.
    destruct (ParseInt _); simpl in Hp; [|done]. injection Hp as <-. apply i64_range. }
  rewrite i64_small in Hle by lia. lia.
Qed.

Definition example_meminfo : bytes :=
  chars "MemTotal:       16000000 kB" ++ ["010"%char] ++ chars "MemAvailable:   8000000 kB".

Lemma HasHeadroom_true_means_witness :
  ∃ avail total, field_line (scan_lines example_meminfo) "MemAvailable" avail ∧
                 field_line (scan_lines example_meminfo) "MemTotal" total.
Proof.
  destruct (HasHeadroom_true_means (Some example_meminfo) (256 * 1024 * 1024))
    as (text & a & t & [= <-] & H1 & H2 & _); [vm_compute; reflexivity|lia|].
  exists a, t. split; [exact H1|exact H2].
Defined.
