(* ===== verification/MemAxis.v ===== *)
(** * internal/core/govern: the memory axis ([memory.go])

    Models the memory control law: the three sample predicates, the deficit-scaled
    grow and shrink steps, block alignment, and [Governor.evaluate] as a function
    from the governor's state and the answers of its collaborators ([MemOracle]:
    clock, resizer, headroom reader) to the new state and the calls made.

    Log lines are not modelled; the block of [evaluate] that only logs a blocked
    shrink is therefore absent.  The sample counters are Go [int]s that grow by one
    per sample and are left unbounded. *)

From stdpp Require Import prelude strings list.
From Stdlib Require Import ZArith Lia.
From S2P Require Import Prelude GoFloat Resize.

(** ** Constants *)

Definition memoryEvalInterval : Duration := 5 * Second.
Definition memoryPressurePollInterval : Duration := 2 * Second.
Definition memoryGrowConsecutive : Z := 1.
Definition memoryShrinkConsecutive : Z := 5.
Definition memoryGrowCooldown : Duration := 60 * Second.
Definition memoryShrinkCooldown : Duration := 120 * Second.
Definition defaultGrowThreshold : float64 := f64_lit 20 100.
Definition criticalGrowThreshold : float64 := f64_lit 8 100.
Definition loadedGrowThreshold : float64 := f64_lit 35 100.
Definition defaultShrinkThreshold : float64 := f64_lit 45 100.
Definition psiGrowPressure : float64 := f64_of_Z 10.
Definition psiCriticalPressure : float64 := f64_of_Z 10.
Definition defaultSwapPressureRatio : float64 := f64_lit 20 100.
Definition cpuGrowPressure : float64 := f64_of_Z 15.
Definition minGrowStepBytes : Z := 256 * 1024 * 1024.
Definition minShrinkStepBytes : Z := 512 * 1024 * 1024.
Definition memHotplugAlignBytes : Z := 256 * 1024 * 1024.
Definition safeMemFloorBytes : Z := 2 * 1024 * 1024 * 1024.

(** ** Sample predicates *)

(** [float64(a) / float64(b)]. *)
Definition f64_ratio (a b : Z) : float64 := f64_div (f64_of_Z a) (f64_of_Z b).

Definition mem_ratio (s : Sample) : float64 := f64_ratio (MemAvailableBytes s) (MemTotalBytes s).

Definition mem_psi_stall (s : Sample) : bool :=
  MemPSISupported s && f64_leb psiGrowPressure (MemPSISomeAvg10 s).

Definition sampleWantsGrow (s : Sample) (prevSwapUsed : Z) : bool :=
  if MemTotalBytes s =? 0 then false
  else if bool_decide (STrigger s = TriggerPSIMemory) then true
  else if mem_psi_stall s then true
  else
    let ratio := mem_ratio s in
    if f64_ltb ratio defaultGrowThreshold then true
    else
      let cpuLoaded := (CPUPSISupported s && f64_leb cpuGrowPressure (CPUPSISomeAvg10 s)) ||
                       bool_decide (STrigger s = TriggerPSICPU) in
      if cpuLoaded && f64_ltb ratio loadedGrowThreshold then true
      else if (0 <? SwapTotalBytes s) && (SwapFreeBytes s <=? SwapTotalBytes s) then
        let swapUsed := SwapTotalBytes s - SwapFreeBytes s in
        (prevSwapUsed <? swapUsed) &&
        f64_leb defaultSwapPressureRatio (f64_ratio swapUsed (MemTotalBytes s))
      else false.

Definition sampleWantsShrink (s : Sample) (prevSwapUsed prevSwapInPages : Z) : bool :=
  if MemTotalBytes s =? 0 then false
  else if bool_decide (STrigger s = TriggerPSIMemory) then false
  else if mem_psi_stall s then false
  else if prevSwapInPages <? SwapInPages s then false
  else if (0 <? SwapTotalBytes s) && (SwapFreeBytes s <=? SwapTotalBytes s) &&
          (prevSwapUsed <? SwapTotalBytes s - SwapFreeBytes s) then false
  else f64_ltb defaultShrinkThreshold (mem_ratio s).

Definition sampleIsCritical (s : Sample) : bool :=
  if MemTotalBytes s =? 0 then false
  else if bool_decide (STrigger s = TriggerPSIMemory) then true
  else if MemPSISupported s && f64_leb psiCriticalPressure (MemPSIFullAvg10 s) then true
  else f64_ltb (mem_ratio s) criticalGrowThreshold.

(** ** Steps and alignment *)

(** [int64(float64(total) * threshold)]. *)
Definition target_avail (s : Sample) : Z :=
  i64_of_f64 (f64_mul (f64_of_Z (MemTotalBytes s)) defaultShrinkThreshold).

Definition growStep (minBytes maxBytes current : Z) (s : Sample) : Z :=
  let delta := i64 (maxBytes - minBytes) in
  let stepCap := Z.quot delta 2 in
  let stepCap := if bool_decide (STrigger s = TriggerPSIMemory)
                 then i64 (maxBytes - current) else stepCap in
  let stepCap := if stepCap <? minGrowStepBytes then minGrowStepBytes else stepCap in
  let stepCap := if delta <? stepCap then delta else stepCap in
  let step := minGrowStepBytes in
  let step :=
    if 0 <? MemTotalBytes s then
      let deficit := i64 (target_avail s - i64 (MemAvailableBytes s)) in
      if step <? deficit then deficit else step
    else step in
  let step := if stepCap <? step then stepCap else step in
  let remaining := i64 (maxBytes - current) in
  let step := if remaining <? step then remaining else step in
  if step <? 0 then 0 else step.

Definition shrinkStep (minBytes maxBytes current : Z) (s : Sample) : Z :=
  let delta := i64 (maxBytes - minBytes) in
  let stepCap := Z.quot delta 2 in
  let stepCap := if stepCap <? minShrinkStepBytes then minShrinkStepBytes else stepCap in
  let stepCap := if delta <? stepCap then delta else stepCap in
  let step := minShrinkStepBytes in
  let step :=
    if 0 <? MemTotalBytes s then
      let surplus := i64 (i64 (MemAvailableBytes s) - target_avail s) in
      if step <? surplus then surplus else step
    else step in
  let step := if stepCap <? step then stepCap else step in
  let remaining := i64 (current - minBytes) in
  let step := if remaining <? step then remaining else step in
  if step <? 0 then 0 else step.

Definition alignUp (n align : Z) : Z :=
  if align <=? 0 then n
  else
    let rem := Z.rem n align in
    if rem =? 0 then n
    else if rem <? 0 then i64 (n - rem)
    else i64 (n + (align - rem)).

Definition alignDown (n align : Z) : Z :=
  if align <=? 0 then n
  else
    let rem := Z.rem n align in
    if rem =? 0 then n
    else if rem <? 0 then i64 (n - rem - align)
    else i64 (n - rem).

(** ** The governor's memory state *)

Record MemGov := mkMemGov {
  g_growCount : Z;
  g_shrinkCount : Z;
  g_lastResizeTime : Time;
  g_lastResizeWasShrink : bool;
  g_grewOnce : bool;
  g_latest : Sample;
  g_lastSampleTime : Time;
  g_prevSwapUsed : Z;
  g_prevSwapInPages : Z;
}.

Definition mem_gov_init : MemGov := mkMemGov 0 0 zero_time false false zero_sample zero_time 0 0.

Definition set_counts (grow shrink : Z) (g : MemGov) : MemGov :=
  mkMemGov grow shrink (g_lastResizeTime g) (g_lastResizeWasShrink g) (g_grewOnce g)
    (g_latest g) (g_lastSampleTime g) (g_prevSwapUsed g) (g_prevSwapInPages g).

Definition set_resized (t : Time) (wasShrink grew : bool) (g : MemGov) : MemGov :=
  mkMemGov (g_growCount g) (g_shrinkCount g) t wasShrink grew
    (g_latest g) (g_lastSampleTime g) (g_prevSwapUsed g) (g_prevSwapInPages g).

(** The answers of the collaborators during one evaluation: the clock at the
    freshness check, at the cooldown check and after the resize, the resizer's
    current size, and the headroom reader.  The reply of [ResizeMemory] only decides
    what is logged. *)
Record MemOracle := mkMemOracle {
  mo_now : Time;
  mo_now_cooldown : Time;
  mo_now_after : Time;
  mo_current : Z;
  mo_headroom : Z → result string bool;
}.

Inductive MemCall := CallHeadroom (growBytes : Z) | CallResizeMemory (target : Z).

(** ** evaluate *)

Definition mem_active (b : Bounds) : bool :=
  negb ((MemMinBytes b =? 0) || (MemMaxBytes b =? 0) || (MemMaxBytes b <=? MemMinBytes b)).

Definition mem_fresh (o : MemOracle) (g : MemGov) : bool :=
  negb (IsZero (g_lastSampleTime g) || (SampleMaxAge <? Sub (mo_now o) (g_lastSampleTime g))).

Definition mem_wants_grow (g : MemGov) : bool := sampleWantsGrow (g_latest g) (g_prevSwapUsed g).
Definition mem_wants_shrink (g : MemGov) : bool :=
  sampleWantsShrink (g_latest g) (g_prevSwapUsed g) (g_prevSwapInPages g).

(** The counter update. *)
Definition mem_count (g : MemGov) : MemGov :=
  if mem_wants_grow g then set_counts (g_growCount g + 1) 0 g
  else if mem_wants_shrink g then set_counts 0 (g_shrinkCount g + 1) g
  else set_counts 0 0 g.

Definition mem_critical (current maxBytes : Z) (g : MemGov) : bool :=
  sampleIsCritical (g_latest g) && (current <? maxBytes).

Definition mem_cooling (o : MemOracle) (critical : bool) (g : MemGov) : bool :=
  let firstGrow := negb (g_grewOnce g) && (0 <? g_growCount g) in
  negb critical && negb firstGrow && negb (IsZero (g_lastResizeTime g)) &&
  (Sub (mo_now_cooldown o) (g_lastResizeTime g) <?
   (if g_lastResizeWasShrink g then memoryShrinkCooldown else memoryGrowCooldown)).

(** The proposed target before alignment: [inl] ends the evaluation with the given
    state, [inr (target, isShrink)] goes on. *)
Definition mem_propose (minBytes maxBytes current : Z) (critical : bool) (g : MemGov)
    : MemGov + Z * bool :=
  if mem_wants_grow g && (memoryGrowConsecutive <=? g_growCount g) then
    if maxBytes <=? current then inl (set_counts 0 (g_shrinkCount g) g)
    else if critical && (current <? safeMemFloorBytes) then inr (safeMemFloorBytes, false)
    else inr (i64 (current + growStep minBytes maxBytes current (g_latest g)), false)
  else if mem_wants_shrink g && (memoryShrinkConsecutive <=? g_shrinkCount g) then
    if current <=? minBytes then inl g
    else inr (i64 (current - shrinkStep minBytes maxBytes current (g_latest g)), true)
  else inl g.

(** Block alignment with the forward-progress guards, then the clamp. *)
Definition mem_align (current target : Z) (isShrink : bool) : Z :=
  if isShrink then
    let t := alignDown target memHotplugAlignBytes in
    if current <=? t then i64 (current - memHotplugAlignBytes) else t
  else
    let t := alignUp target memHotplugAlignBytes in
    if t <=? current then i64 (current + memHotplugAlignBytes) else t.

Definition mem_clamp (minBytes maxBytes t : Z) : Z :=
  let t := if t <? minBytes then minBytes else t in
  if maxBytes <? t then maxBytes else t.

(** Admission, counter reset, resize and bookkeeping. *)
Definition mem_commit (o : MemOracle) (current target : Z) (isShrink : bool) (g : MemGov)
    : MemGov * list MemCall :=
  let resize (calls : list MemCall) :=
    let g := set_counts 0 0 g in
    (set_resized (mo_now_after o) isShrink (negb isShrink || g_grewOnce g) g,
     calls ++ [CallResizeMemory target]) in
  if isShrink then resize []
  else
    let h := [CallHeadroom (i64 (target - current))] in
    match mo_headroom o (i64 (target - current)) with
    | Err _ => (g, h)
    | Ok false => (g, h)
    | Ok true => resize h
    end.

Definition evaluate (b : Bounds) (o : MemOracle) (g : MemGov) : MemGov * list MemCall :=
  if negb (mem_fresh o g) then (g, [])
  else if negb (mem_active b) then (g, [])
  else
    let minBytes := MemMinBytes b in
    let maxBytes := MemMaxBytes b in
    let current := if mo_current o =? 0 then minBytes else mo_current o in
    let g := mem_count g in
    let critical := mem_critical current maxBytes g in
    if mem_cooling o critical g then (g, [])
    else match mem_propose minBytes maxBytes current critical g with
    | inl g => (g, [])
    | inr (target, isShrink) =>
        let target := mem_clamp minBytes maxBytes (mem_align current target isShrink) in
        if target =? current then (g, []) else mem_commit o current target isShrink g
    end.

(** ** Thresholds *)

Lemma grow_below_shrink_threshold x :
  f64_ltb x defaultGrowThreshold = true → f64_ltb defaultShrinkThreshold x = false.
Proof.
  intros H. destruct (f64_ltb defaultShrinkThreshold x) eqn:E; [|done].
  pose proof (f64_ltb_trans _ _ _ E H) as Ht. vm_compute in Ht. discriminate.
Qed.

Lemma loaded_below_shrink_threshold x :
  f64_ltb x loadedGrowThreshold = true → f64_ltb defaultShrinkThreshold x = false.
Proof.
  intros H. destruct (f64_ltb defaultShrinkThreshold x) eqn:E; [|done].
  pose proof (f64_ltb_trans _ _ _ E H) as Ht. vm_compute in Ht. discriminate.
Qed.

Lemma critical_below_grow_threshold x :
  f64_ltb x criticalGrowThreshold = true → f64_ltb x defaultGrowThreshold = true.
Proof. intros H. eapply f64_ltb_trans; [exact H|]. vm_compute. reflexivity. Qed.

(** no sample asks for more and for less memory at once, and the two signals
    are ordered by urgency: whatever the swap history, a sample that wants to grow
    does not want to shrink; one whose available memory is critically low also
    wants to grow; and a sample under a memory stall, or whose swap use or swap-in
    counter has advanced, never wants to shrink. *)
Lemma grow_shrink_exclusive s prevSwapUsed prevSwapInPages :
  (sampleWantsGrow s prevSwapUsed = true →
     sampleWantsShrink s prevSwapUsed prevSwapInPages = false) ∧
  (MemTotalBytes s ≠ 0 → f64_ltb (mem_ratio s) criticalGrowThreshold = true →
     sampleWantsGrow s prevSwapUsed = true) ∧
  (mem_psi_stall s = true → sampleWantsShrink s prevSwapUsed prevSwapInPages = false) ∧
  (prevSwapInPages < SwapInPages s → sampleWantsShrink s prevSwapUsed prevSwapInPages = false) ∧
  (0 < SwapTotalBytes s → SwapFreeBytes s ≤ SwapTotalBytes s →
     prevSwapUsed < SwapTotalBytes s - SwapFreeBytes s →
     sampleWantsShrink s prevSwapUsed prevSwapInPages = false).
Proof.
  unfold sampleWantsGrow, sampleWantsShrink. cbv zeta.
  destruct (Z.eqb_spec (MemTotalBytes s) 0) as [|Ht]; [done|].
  case_bool_decide as Htr; [done|]. destruct (mem_psi_stall s); [done|].
  split_and!.
  - destruct (f64_ltb (mem_ratio s) defaultGrowThreshold) eqn:E1.
    { intros _. rewrite grow_below_shrink_threshold by done. by repeat case_match. }
    destruct (f64_ltb (mem_ratio s) loadedGrowThreshold) eqn:E2.
    { intros _. rewrite loaded_below_shrink_threshold by done. by repeat case_match. }
    rewrite andb_false_r. destruct ((0 <? _) && _); [|done]. simpl.
    destruct (prevSwapUsed <? _); [|done]. intros _. by destruct (prevSwapInPages <? _).
  - intros _ Hc. by rewrite critical_below_grow_threshold.
  - done.
  - intros Hp. by destruct (Z.ltb_spec prevSwapInPages (SwapInPages s)); [|lia].
  - intros H1 H2 H3. destruct (prevSwapInPages <? _); [done|].
    by rewrite (proj2 (Z.ltb_lt _ _) H1), (proj2 (Z.leb_le _ _) H2), (proj2 (Z.ltb_lt _ _) H3).
Qed.

(** ** Steps stay in range *)

Definition mem_range (z : Z) : Prop := 0 ≤ z < 2 ^ 62.

Lemma growStep_bounds minBytes maxBytes current s :
  mem_range minBytes → mem_range maxBytes → mem_range current →
  minBytes < maxBytes → current < maxBytes →
  0 < growStep minBytes maxBytes current s ≤ maxBytes - current.
Proof.
  unfold mem_range. intros H1 H2 H3 Hlt Hc. unfold growStep. cbv zeta.
  rewrite !(i64_small (maxBytes - minBytes)), !(i64_small (maxBytes - current)) by lia.
  set (deficit := i64 (target_avail s - _)). unfold minGrowStepBytes.
  pose proof (Z.quot_pos (maxBytes - minBytes) 2 ltac:(lia) ltac:(lia)).
  repeat case_match; reflect_bools; lia.
Qed.

Lemma shrinkStep_bounds minBytes maxBytes current s :
  mem_range minBytes → mem_range maxBytes → mem_range current →
  minBytes < maxBytes → minBytes < current →
  0 < shrinkStep minBytes maxBytes current s ≤ current - minBytes.
Proof.
  unfold mem_range. intros H1 H2 H3 Hlt Hc. unfold shrinkStep. cbv zeta.
  rewrite !(i64_small (maxBytes - minBytes)), !(i64_small (current - minBytes)) by lia.
  set (surplus := i64 (i64 _ - target_avail s)). unfold minShrinkStepBytes.
  pose proof (Z.quot_pos (maxBytes - minBytes) 2 ltac:(lia) ltac:(lia)).
  repeat case_match; reflect_bools; lia.
Qed.

Lemma alignUp_spec n :
  0 ≤ n < 2 ^ 62 →
  n ≤ alignUp n memHotplugAlignBytes < n + memHotplugAlignBytes ∧
  alignUp n memHotplugAlignBytes mod memHotplugAlignBytes = 0.
Proof.
  intros Hn. change memHotplugAlignBytes with 268435456. unfold alignUp. simpl. rewrite Z.rem_mod_nonneg by lia.
  pose proof (Z.mod_pos_bound n 268435456 ltac:(lia)) as Hb.
  destruct (Z.eqb_spec (n mod 268435456) 0); [split; [lia|done]|].
  destruct (Z.ltb_spec (n mod 268435456) 0); [lia|]. rewrite i64_small by lia. split; [lia|].
  replace (n + (268435456 - n mod 268435456)) with ((n / 268435456 + 1) * 268435456)
    by (pose proof (Z.div_mod n 268435456 ltac:(lia)); lia).
  apply Z.mod_mul. lia.
Qed.

Lemma alignDown_spec n :
  0 ≤ n < 2 ^ 62 →
  n - memHotplugAlignBytes < alignDown n memHotplugAlignBytes ≤ n ∧
  alignDown n memHotplugAlignBytes mod memHotplugAlignBytes = 0.
Proof.
  intros Hn. change memHotplugAlignBytes with 268435456. unfold alignDown. simpl. rewrite Z.rem_mod_nonneg by lia.
  pose proof (Z.mod_pos_bound n 268435456 ltac:(lia)) as Hb.
  destruct (Z.eqb_spec (n mod 268435456) 0); [split; [lia|done]|].
  destruct (Z.ltb_spec (n mod 268435456) 0); [lia|]. rewrite i64_small by lia. split; [lia|].
  replace (n - n mod 268435456) with (n / 268435456 * 268435456)
    by (pose proof (Z.div_mod n 268435456 ltac:(lia)); lia).
  apply Z.mod_mul. lia.
Qed.

(** ** evaluate *)

Definition mem_current (b : Bounds) (o : MemOracle) : Z :=
  if mo_current o =? 0 then MemMinBytes b else mo_current o.

Definition block_aligned (t : Z) : Prop := t mod memHotplugAlignBytes = 0.

(** The target the code arrives at: between the bounds, strictly on the side of the
    move, and on a block boundary unless it is a bound. *)
Lemma mem_target_spec minBytes maxBytes current critical g target isShrink :
  mem_range minBytes → mem_range maxBytes → mem_range current → minBytes < maxBytes →
  mem_propose minBytes maxBytes current critical g = inr (target, isShrink) →
  let t := mem_clamp minBytes maxBytes (mem_align current target isShrink) in
  minBytes ≤ t ≤ maxBytes ∧ (block_aligned t ∨ t = minBytes ∨ t = maxBytes) ∧
  if isShrink then t < current ∧ mem_wants_shrink g = true ∧ memoryShrinkConsecutive ≤ g_shrinkCount g
  else current < t ∧ mem_wants_grow g = true ∧ memoryGrowConsecutive ≤ g_growCount g.
Proof.
  intros H1 H2 H3 Hlt. unfold mem_propose.
  assert (Hclamp : ∀ t, (minBytes ≤ mem_clamp minBytes maxBytes t ≤ maxBytes) ∧
    (mem_clamp minBytes maxBytes t = t ∨ mem_clamp minBytes maxBytes t = minBytes ∧ t < minBytes ∨
     mem_clamp minBytes maxBytes t = maxBytes ∧ maxBytes < t)).
  { intros t. unfold mem_clamp. repeat case_match; reflect_bools; lia. }
  destruct (mem_wants_grow g && _) eqn:Eg.
  - destruct (Z.leb_spec maxBytes current); [done|].
    apply andb_prop in Eg as [Eg Ec]. apply Z.leb_le in Ec.
    intros Hp. assert (Ht : isShrink = false ∧ current < target < 2 ^ 62).
    { pose proof (growStep_bounds minBytes maxBytes current (g_latest g) H1 H2 H3 Hlt ltac:(lia)).
      unfold mem_range in *. destruct (critical && _) eqn:Ecr.
      - apply andb_prop in Ecr as [_ Ecr%Z.ltb_lt]. unfold safeMemFloorBytes in *.
        simplify_eq. split; [done|lia].
      - injection Hp as <- <-. split; [done|]. rewrite i64_small by lia. lia. }
    destruct Ht as [-> Ht]. cbv zeta. unfold mem_align.
    destruct (alignUp_spec target) as [Hup Hal]; [unfold mem_range in *; lia|].
    destruct (Z.leb_spec (alignUp target memHotplugAlignBytes) current); [lia|].
    destruct (Hclamp (alignUp target memHotplugAlignBytes)) as [Hb Hcases];
      destruct Hcases as [Heq|[[Heq ?]|[Heq ?]]]; rewrite Heq in *.
    + split; [lia|]. split; [by left|]. split; [lia|done].
    + split; [lia|]. split; [auto|]. split; [lia|done].
    + split; [lia|]. split; [auto|]. split; [lia|done].
  - destruct (mem_wants_shrink g && _) eqn:Es; [|done].
    destruct (Z.leb_spec current minBytes); [done|].
    apply andb_prop in Es as [Es Ec]. apply Z.leb_le in Ec. intros [= <- <-].
    pose proof (shrinkStep_bounds minBytes maxBytes current (g_latest g) H1 H2 H3 Hlt ltac:(lia)).
    unfold mem_range in *. rewrite (i64_small (current - _)) by lia. cbv zeta. unfold mem_align.
    set (target := current - shrinkStep minBytes maxBytes current (g_latest g)) in *.
    destruct (alignDown_spec target) as [Hdn Hal]; [lia|].
    destruct (Z.leb_spec current (alignDown target memHotplugAlignBytes)); [lia|].
    destruct (Hclamp (alignDown target memHotplugAlignBytes)) as [Hb Hcases];
      destruct Hcases as [Heq|[[Heq ?]|[Heq ?]]]; rewrite Heq in *.
    + split; [lia|]. split; [by left|]. split; [lia|done].
    + split; [lia|]. split; [auto|]. split; [lia|done].
    + split; [lia|]. split; [auto|]. split; [lia|done].
Qed.

Lemma evaluate_resize_cases b o g :
  mem_range (MemMinBytes b) → mem_range (MemMaxBytes b) → mem_range (mo_current o) →
  let current := mem_current b o in
  let '(g', calls) := evaluate b o g in
  calls = [] ∨
  ∃ t, MemMinBytes b ≤ t ≤ MemMaxBytes b ∧
    (block_aligned t ∨ t = MemMinBytes b ∨ t = MemMaxBytes b) ∧
    ((calls = [CallHeadroom (t - current)] ∧ mo_headroom o (t - current) ≠ Ok true) ∨
     (calls = [CallHeadroom (t - current); CallResizeMemory t] ∧ current < t ∧
        mo_headroom o (t - current) = Ok true ∧ mem_wants_grow g = true) ∨
     (calls = [CallResizeMemory t] ∧ t < current ∧ mem_wants_shrink g = true ∧
        memoryShrinkConsecutive ≤ g_shrinkCount g + 1)).
Proof.
  intros H1 H2 H3 current. unfold evaluate. fold (mem_current b o). fold current.
  destruct (mem_fresh o g); [|by left]. simpl. destruct (mem_active b) eqn:Ha; [|by left]. simpl.
  assert (Hlt : MemMinBytes b < MemMaxBytes b)
    by (unfold mem_active in Ha; apply negb_true_iff in Ha; reflect_bools; lia).
  assert (Hcur : mem_range current) by (unfold current, mem_current; case_match; done).
  destruct (mem_cooling _ _ _); [by left|].
  destruct (mem_propose _ _ _ _ _) as [g1|[target isShrink]] eqn:Ep; [by left|].
  pose proof (mem_target_spec _ _ _ _ _ _ _ H1 H2 Hcur Hlt Ep) as (Hb & Hal & Hdir).
  set (t := mem_clamp _ _ _) in *. destruct (Z.eqb_spec t current); [by left|]. unfold mem_commit.
  assert (Hsub : i64 (t - current) = t - current) by (apply i64_small; unfold mem_range in *; lia).
  assert (Hwg : mem_wants_grow (mem_count g) = mem_wants_grow g)
    by (unfold mem_count; repeat case_match; done).
  assert (Hws : mem_wants_shrink (mem_count g) = mem_wants_shrink g)
    by (unfold mem_count; repeat case_match; done).
  destruct isShrink.
  - right. exists t. rewrite Hws in Hdir. destruct Hdir as (Hd1 & Hd2 & Hd3).
    split; [done|]. split; [done|]. right; right. split_and!; [done..|].
    unfold mem_count in Hd3. unfold memoryShrinkConsecutive in *. repeat case_match; simpl in *; lia.
  - rewrite Hsub, Hwg in *. destruct Hdir as (Hd1 & Hd2 & _).
    destruct (mo_headroom o (t - current)) as [[]|e] eqn:Eh; right; exists t;
      (split; [done|]); (split; [done|]).
    + right; left. done.
    + left. by rewrite Eh.
    + left. by rewrite Eh.
Qed.

(** every memory resize the governor asks for is safe.  One evaluation makes at
    most one resize call.  Its target lies within the configured bounds, is on a
    hotplug block boundary unless it is itself a bound, and really moves the size
    in the signalled direction.  A grow is requested only when a sample wants it and
    the host headroom check for exactly the added bytes has just answered yes; an
    error or a no ends the evaluation without a resize.  A shrink is requested only
    when the sample wants it and at least five have done so in a row. *)
Lemma evaluate_memory_safe b o g :
  mem_range (MemMinBytes b) → mem_range (MemMaxBytes b) → mem_range (mo_current o) →
  let current := mem_current b o in
  let '(g', calls) := evaluate b o g in
  calls = [] ∨
  ∃ t, MemMinBytes b ≤ t ≤ MemMaxBytes b ∧
    (block_aligned t ∨ t = MemMinBytes b ∨ t = MemMaxBytes b) ∧
    ((calls = [CallHeadroom (t - current)] ∧ mo_headroom o (t - current) ≠ Ok true) ∨
     (calls = [CallHeadroom (t - current); CallResizeMemory t] ∧ current < t ∧
        mo_headroom o (t - current) = Ok true ∧ mem_wants_grow g = true) ∨
     (calls = [CallResizeMemory t] ∧ t < current ∧ mem_wants_shrink g = true ∧
        memoryShrinkConsecutive ≤ g_shrinkCount g + 1)).
Proof. apply evaluate_resize_cases. Qed.

Lemma mem_count_frame g :
  g_lastResizeTime (mem_count g) = g_lastResizeTime g ∧
  g_lastResizeWasShrink (mem_count g) = g_lastResizeWasShrink g ∧
  g_grewOnce (mem_count g) = g_grewOnce g ∧ g_latest (mem_count g) = g_latest g ∧
  (0 < g_growCount (mem_count g) → 0 ≤ g_growCount g → mem_wants_grow g = true).
Proof. unfold mem_count. repeat case_match; simpl; split_and!; try done; lia. Qed.

Lemma mem_propose_inl minBytes maxBytes current critical g g' :
  mem_propose minBytes maxBytes current critical g = inl g' →
  g_lastResizeTime g' = g_lastResizeTime g.
Proof. unfold mem_propose. repeat case_match; intros [= <-]; done. Qed.

(** the cooldown between memory resizes.  A resize is requested only if none was
    made before, or the sample is critical and there is room, or it is the first
    grow of this governor, or the cooldown of the previous resize (60 s after a
    grow, 120 s after a shrink) has passed.  Every requested resize, successful or
    not, records its time and direction and resets both sample counters, and
    nothing else moves the recorded time. *)
Lemma evaluate_respects_cooldown b o g :
  0 ≤ g_growCount g →
  let '(g', calls) := evaluate b o g in
  ((∃ t, CallResizeMemory t ∈ calls) →
     (IsZero (g_lastResizeTime g) = true ∨
      sampleIsCritical (g_latest g) = true ∧ mem_current b o < MemMaxBytes b ∨
      g_grewOnce g = false ∧ mem_wants_grow g = true ∨
      (if g_lastResizeWasShrink g then memoryShrinkCooldown else memoryGrowCooldown)
        ≤ Sub (mo_now_cooldown o) (g_lastResizeTime g)) ∧
     g_lastResizeTime g' = mo_now_after o ∧ g_growCount g' = 0 ∧ g_shrinkCount g' = 0) ∧
  ((∀ t, CallResizeMemory t ∉ calls) → g_lastResizeTime g' = g_lastResizeTime g).
Proof.
  intros Hnn. unfold evaluate. fold (mem_current b o).
  assert (Hno : ∀ g', g_lastResizeTime g' = g_lastResizeTime g → ∀ P : Prop,
    ((∃ t, CallResizeMemory t ∈ []) → P) ∧
    ((∀ t, CallResizeMemory t ∉ []) → g_lastResizeTime g' = g_lastResizeTime g)).
  { intros g' Hg P. split; [by intros [t Ht%elem_of_nil]|done]. }
  destruct (mem_fresh o g); [|by apply Hno]. destruct (mem_active b); [|by apply Hno]. simpl.
  destruct (mem_count_frame g) as (Hf1 & Hf2 & Hf3 & Hf4 & Hf5).
  destruct (mem_cooling _ _ _) eqn:Ec; [by apply Hno|].
  destruct (mem_propose _ _ _ _ _) as [g1|[target isShrink]] eqn:Ep.
  { apply mem_propose_inl in Ep. apply Hno. congruence. }
  set (t := mem_clamp _ _ _) in *. destruct (Z.eqb_spec t (mem_current b o)); [by apply Hno|].
  assert (Hcool : IsZero (g_lastResizeTime g) = true ∨
      sampleIsCritical (g_latest g) = true ∧ mem_current b o < MemMaxBytes b ∨
      g_grewOnce g = false ∧ mem_wants_grow g = true ∨
      (if g_lastResizeWasShrink g then memoryShrinkCooldown else memoryGrowCooldown)
        ≤ Sub (mo_now_cooldown o) (g_lastResizeTime g)).
  { unfold mem_cooling, mem_critical in Ec. rewrite Hf1, Hf2, Hf3, Hf4 in Ec.
    destruct (sampleIsCritical (g_latest g)) eqn:Ecr, (Z.ltb_spec (mem_current b o) (MemMaxBytes b));
      simpl in Ec; try by right; left.
    all: destruct (g_grewOnce g) eqn:Eg, (Z.ltb_spec 0 (g_growCount (mem_count g)));
      simpl in Ec; try (by right; right; left; auto).
    all: destruct (IsZero (g_lastResizeTime g)); [by left|]; right; right; right;
      simpl in Ec; by apply Z.ltb_ge in Ec. }
  unfold mem_commit. destruct isShrink.
  - split; [intros _; split; [exact Hcool|done]|]. intros Hn. exfalso. eapply Hn. by left.
  - destruct (mo_headroom o _) as [[]|e].
    + split; [intros _; split; [exact Hcool|done]|]. intros Hn. exfalso. eapply Hn. right. by left.
    + split; [|done]. intros [t' Ht]. by apply list_elem_of_singleton in Ht.
    + split; [|done]. intros [t' Ht]. by apply list_elem_of_singleton in Ht.
Qed.

(** the alignment of the requested size rests on the alignment of the bounds,
    which nothing establishes.  With the bounds [vmcfg.Resolve] computes for a
    sandbox of 700 MiB, five comfortable samples make the governor ask for a size
    that is not a multiple of the hotplug block. *)
Lemma unaligned_bound_unaligned_request :
  ∃ o g t, (evaluate (vr_Bounds (Resolve (mkVMConfig 700 0 0 0 0 false))) o g).2 =
           [CallResizeMemory t] ∧ ¬ block_aligned t.
Proof.
  exists (mkMemOracle (10 * Second) (10 * Second) (10 * Second) (768 * 1024 * 1024)
            (λ _, Ok true)).
  exists (mkMemGov 0 4 zero_time false false
    (mkSample (10 * Second) (600 * 1024 * 1024) (768 * 1024 * 1024) (f64_of_Z 0) (f64_of_Z 0) true
      (f64_of_Z 0) true 0 0 false [] 0 0 0 1 1 TriggerNone) (10 * Second) 0 0).
  exists (700 * 1024 * 1024). split; [vm_compute; reflexivity|]. by vm_compute.
Qed.

(** ** Witnesses *)

Definition example_bounds : Bounds := mkBounds (512 * 2 ^ 20) (4096 * 2 ^ 20) 1 4 (100 * 2 ^ 30).

Definition example_starved : Sample :=
  mkSample (10 * Second) (50 * 1024 * 1024) (512 * 1024 * 1024) (f64_of_Z 0) (f64_of_Z 0) true
    (f64_of_Z 0) true 0 0 false [] 0 0 0 1 1 TriggerNone.

Definition example_gov : MemGov :=
  mkMemGov 0 0 zero_time false false example_starved (10 * Second) 0 0.

Definition example_oracle : MemOracle :=
  mkMemOracle (11 * Second) (11 * Second) (11 * Second) (512 * 2 ^ 20) (λ _, Ok true).

Lemma evaluate_memory_safe_witness :
  ∃ t, MemMinBytes example_bounds ≤ t ≤ MemMaxBytes example_bounds ∧
       (evaluate example_bounds example_oracle example_gov).2 =
         [CallHeadroom (t - 512 * 2 ^ 20); CallResizeMemory t].
Proof.
  pose proof (evaluate_memory_safe example_bounds example_oracle example_gov
    ltac:(unfold mem_range; simpl; lia) ltac:(unfold mem_range; simpl; lia)
    ltac:(unfold mem_range; simpl; lia)) as H.
  assert (Hc : (evaluate example_bounds example_oracle example_gov).2 =
    [CallHeadroom (256 * 2 ^ 20); CallResizeMemory (768 * 2 ^ 20)]) by (vm_compute; reflexivity).
  destruct (evaluate example_bounds example_oracle example_gov) as [g' calls]. simpl in Hc.
  destruct H as [H|(t & Hb & _ & H)]; [congruence|]. exists t. split; [exact Hb|].
  simpl. destruct H as [[H _]|[[H _]|[H _]]]; [congruence|exact H|congruence].
Defined.

Lemma evaluate_respects_cooldown_witness :
  g_lastResizeTime (evaluate example_bounds example_oracle example_gov).1 = 11 * Second.
Proof.
  pose proof (evaluate_respects_cooldown example_bounds example_oracle example_gov
    ltac:(simpl; lia)) as H.
  assert (Hc : (evaluate example_bounds example_oracle example_gov).2 =
    [CallHeadroom (256 * 2 ^ 20); CallResizeMemory (768 * 2 ^ 20)]) by (vm_compute; reflexivity).
  destruct (evaluate example_bounds example_oracle example_gov) as [g' calls]. simpl in Hc.
  subst calls. destruct H as [H _]. apply H. exists (768 * 2 ^ 20). right. left.
Defined.

Lemma grow_shrink_exclusive_witness : sampleWantsShrink example_starved 0 0 = false.
Proof. refine (proj1 (grow_shrink_exclusive example_starved 0 0) _). vm_compute. reflexivity. Defined.
