(* ===== verification/Governor.v ===== *)
(** * internal/core/govern: CPU and disk axes and the sampling loop

    Models [cpu.go], [disk.go] and the deterministic core of [loop.go]: the CPU and
    disk evaluations, and the governor that accepts a sample and runs its axes in
    registration order ([acceptSample], [ingestSample], [pollOnce]), together with
    the adaptive interval and the reconnect backoff of [runPoll] and [runStream].

    The channels and goroutines of the stream transport are not modelled: what
    reaches the governor is a sequence of samples and poll results.  Log lines and
    the log-once flags that only they read are modelled where the flag is state of
    the struct. *)

From stdpp Require Import prelude strings list.
From Stdlib Require Import ZArith Lia.
From S2P Require Import Prelude GoFloat Resize MemAxis.

(** ** CPU axis *)

Definition cpuEvalInterval : Duration := 5 * Second.
Definition cpuGrowConsecutive : Z := 1.
Definition cpuShrinkConsecutive : Z := 5.
Definition cpuGrowCooldown : Duration := 60 * Second.
Definition cpuShrinkCooldown : Duration := 120 * Second.
Definition cpuShrinkPressure : float64 := f64_of_Z 2.
Definition cpuGrowWindow : Duration := (cpuGrowConsecutive - 1) * cpuEvalInterval.
Definition cpuShrinkWindow : Duration := (cpuShrinkConsecutive - 1) * cpuEvalInterval.

Record cpuAxis := mkCpuAxis {
  ca_growSince : Time;
  ca_shrinkSince : Time;
  ca_lastResizeTime : Time;
  ca_lastResizeWasShrink : bool;
  ca_currentVCPUs : Z;
}.

Definition NewCPUAxis (currentVCPUs : Z) : cpuAxis :=
  mkCpuAxis zero_time zero_time zero_time false currentVCPUs.

Definition cpuSampleWantsGrow (s : Sample) : bool :=
  CPUPSISupported s && f64_leb cpuGrowPressure (CPUPSISomeAvg10 s).

Definition cpuSampleWantsShrink (s : Sample) : bool :=
  CPUPSISupported s && f64_ltb (CPUPSISomeAvg10 s) cpuShrinkPressure.

Definition set_windows (grow shrink : Time) (a : cpuAxis) : cpuAxis :=
  mkCpuAxis grow shrink (ca_lastResizeTime a) (ca_lastResizeWasShrink a) (ca_currentVCPUs a).
Definition set_cpu_resized (t : Time) (wasShrink : bool) (a : cpuAxis) : cpuAxis :=
  mkCpuAxis (ca_growSince a) (ca_shrinkSince a) t wasShrink (ca_currentVCPUs a).
Definition set_vcpus (n : Z) (a : cpuAxis) : cpuAxis :=
  mkCpuAxis (ca_growSince a) (ca_shrinkSince a) (ca_lastResizeTime a) (ca_lastResizeWasShrink a) n.

(** Clock readings before and after the resize, and the resizer. *)
Record CpuOracle := mkCpuOracle {
  co_now : Time;
  co_now_after : Time;
  co_resize : Z → result string Z;
}.

Definition cpu_active (b : Bounds) : bool :=
  negb ((VCPUMin b =? 0) || (VCPUMax b =? 0) || (VCPUMax b <=? VCPUMin b)).

(** The run windows after this sample. *)
Definition cpu_windows (now : Time) (s : Sample) (a : cpuAxis) : cpuAxis :=
  if cpuSampleWantsGrow s then
    set_windows (if IsZero (ca_growSince a) then now else ca_growSince a) zero_time a
  else if cpuSampleWantsShrink s then
    set_windows zero_time (if IsZero (ca_shrinkSince a) then now else ca_shrinkSince a) a
  else set_windows zero_time zero_time a.

Definition cpu_cooling (now : Time) (a : cpuAxis) : bool :=
  negb (IsZero (ca_lastResizeTime a)) &&
  (Sub now (ca_lastResizeTime a) <?
   (if ca_lastResizeWasShrink a then cpuShrinkCooldown else cpuGrowCooldown)).

Definition cpu_propose (minV maxV current : Z) (now : Time) (s : Sample) (a : cpuAxis)
    : cpuAxis + Z * bool :=
  if cpuSampleWantsGrow s && negb (IsZero (ca_growSince a)) &&
     (cpuGrowWindow <=? Sub now (ca_growSince a)) then
    if maxV <=? current then inl (set_windows zero_time (ca_shrinkSince a) a)
    else inr (i32 (current + 1), false)
  else if cpuSampleWantsShrink s && negb (IsZero (ca_shrinkSince a)) &&
          (cpuShrinkWindow <=? Sub now (ca_shrinkSince a)) then
    if current <=? minV then inl a else inr (i32 (current - 1), true)
  else inl a.

(** [Evaluate]; the list is the [ResizeCPU] calls made. *)
Definition cpu_Evaluate (b : Bounds) (s : Sample) (o : CpuOracle) (a : cpuAxis)
    : cpuAxis * list Z :=
  if negb (CPUPSISupported s) then (a, [])
  else if negb (cpu_active b) then (a, [])
  else
    let a := if negb (VCPUOnline s =? 0) && negb (VCPUOnline s =? ca_currentVCPUs a)
             then set_vcpus (VCPUOnline s) a else a in
    let current := if ca_currentVCPUs a =? 0 then VCPUMin b else ca_currentVCPUs a in
    let now := co_now o in
    let a := cpu_windows now s a in
    if cpu_cooling now a then (a, [])
    else match cpu_propose (VCPUMin b) (VCPUMax b) current now s a with
    | inl a => (a, [])
    | inr (target, isShrink) =>
        let target := if target <? VCPUMin b then VCPUMin b else target in
        let target := if VCPUMax b <? target then VCPUMax b else target in
        if target =? current then (a, [])
        else
          let a := set_windows zero_time zero_time a in
          let a := set_cpu_resized (co_now_after o) isShrink a in
          match co_resize o target with
          | Err _ => (a, [target])
          | Ok newCurrent => (set_vcpus newCurrent a, [target])
          end
    end.

(** ** Disk axis *)

Definition diskGiB : Z := Z.shiftl 1 30.
Definition diskGrowThreshold : float64 := f64_lit 80 100.
Definition diskGrowStep : Z := 16 * diskGiB.
Definition diskDefaultMax : Z := 100 * diskGiB.
Definition diskGrowCooldown : Duration := 30 * Second.
Definition diskBootDelay : Duration := 15 * Second.

Record DiskAxis := mkDiskAxis {
  da_diskIndex : Z;
  da_startTime : Time;
  da_lastGrow : Time;
  da_growErrLogged : bool;
}.

Definition NewDiskAxis (diskIndex : Z) (now : Time) : DiskAxis :=
  mkDiskAxis diskIndex now zero_time false.

Definition set_growErr (e : bool) (a : DiskAxis) : DiskAxis :=
  mkDiskAxis (da_diskIndex a) (da_startTime a) (da_lastGrow a) e.
Definition set_lastGrow (t : Time) (a : DiskAxis) : DiskAxis :=
  mkDiskAxis (da_diskIndex a) (da_startTime a) t (da_growErrLogged a).

Fixpoint find_disk (i : Z) (l : list DiskSample) : option DiskSample :=
  match l with
  | [] => None
  | d :: l' => if ds_Index d =? i then Some d else find_disk i l'
  end.

(** The telemetry of this disk: the per-disk entry when the sample has any, the
    legacy fields otherwise; [None] when the disk is not among the entries. *)
Definition disk_telemetry (s : Sample) (i : Z) : option (Z * Z * bool) :=
  match DiskStats s with
  | [] => Some (DiskUsedBytes s, DiskTotalBytes s, DiskSupported s)
  | l => (λ d, (ds_UsedBytes d, ds_TotalBytes d, ds_Supported d)) <$> find_disk i l
  end.

Definition disk_ceiling (b : Bounds) : Z :=
  if (0 <? DiskMaxBytes b) && (DiskMaxBytes b <? diskDefaultMax) then DiskMaxBytes b
  else diskDefaultMax.

Record DiskOracle := mkDiskOracle {
  do_now : Time;
  do_grow : Z → Z → result string unit;
}.

(** [Evaluate]; the list is the [GrowDisk] calls made. *)
Definition disk_Evaluate (b : Bounds) (s : Sample) (o : DiskOracle) (a : DiskAxis)
    : DiskAxis * list (Z * Z) :=
  match disk_telemetry s (da_diskIndex a) with
  | None => (set_growErr true a, [])
  | Some (used, total, supported) =>
      if negb supported then (a, [])
      else
        let now := do_now o in
        if Sub now (da_startTime a) <? diskBootDelay then (a, [])
        else if total =? 0 then (a, [])
        else if negb (f64_ltb diskGrowThreshold (f64_ratio used total)) then (a, [])
        else if negb (IsZero (da_lastGrow a)) && (Sub now (da_lastGrow a) <? diskGrowCooldown)
        then (a, [])
        else
          let ceiling := disk_ceiling b in
          let current := i64 total in
          if ceiling <=? current then (a, [])
          else
            let target := i64 (current + diskGrowStep) in
            let target := if ceiling <? target then ceiling else target in
            match do_grow o (da_diskIndex a) target with
            | Err _ => (set_growErr true a, [(da_diskIndex a, target)])
            | Ok _ => (set_lastGrow now (set_growErr false a), [(da_diskIndex a, target)])
            end
  end.

(** ** The governor *)

Inductive Axis := AxMemory | AxCPU (a : cpuAxis) | AxDisk (a : DiskAxis).

Record Governor := mkGovernor {
  gv_bounds : Bounds;
  gv_mem : MemGov;
  gv_axes : list Axis;
  gv_agentOutdated : bool;
  gv_pollErrLogged : bool;
}.

Definition set_mem (m : MemGov) (g : Governor) : Governor :=
  mkGovernor (gv_bounds g) m (gv_axes g) (gv_agentOutdated g) (gv_pollErrLogged g).
Definition set_axes (l : list Axis) (g : Governor) : Governor :=
  mkGovernor (gv_bounds g) (gv_mem g) l (gv_agentOutdated g) (gv_pollErrLogged g).
Definition set_outdated (v : bool) (g : Governor) : Governor :=
  mkGovernor (gv_bounds g) (gv_mem g) (gv_axes g) v (gv_pollErrLogged g).
Definition set_pollErr (v : bool) (g : Governor) : Governor :=
  mkGovernor (gv_bounds g) (gv_mem g) (gv_axes g) (gv_agentOutdated g) v.

(** [New] and [RegisterAxis]: the memory axis is always first. *)
Definition New (b : Bounds) : Governor := mkGovernor b mem_gov_init [AxMemory] false false.
Definition RegisterAxis (a : Axis) (g : Governor) : Governor := set_axes (gv_axes g ++ [a]) g.
Definition AxisCount (g : Governor) : Z := Z.of_nat (length (gv_axes g)).

Inductive GovCall := GovMem (c : MemCall) | GovCPU (target : Z) | GovDisk (index target : Z).

(** What the collaborators of the axis at each position answer. *)
Record GovOracle := mkGovOracle {
  go_now : Time;
  go_mem : nat → MemOracle;
  go_cpu : nat → CpuOracle;
  go_disk : nat → DiskOracle;
}.

Definition eval_axis (b : Bounds) (o : GovOracle) (i : nat) (m : MemGov) (a : Axis)
    : MemGov * Axis * list GovCall :=
  match a with
  | AxMemory => let '(m, cs) := evaluate b (go_mem o i) m in (m, AxMemory, GovMem <$> cs)
  | AxCPU c => let '(c, cs) := cpu_Evaluate b (g_latest m) (go_cpu o i) c in
               (m, AxCPU c, GovCPU <$> cs)
  | AxDisk d => let '(d, cs) := disk_Evaluate b (g_latest m) (go_disk o i) d in
                (m, AxDisk d, (λ p, GovDisk p.1 p.2) <$> cs)
  end.

Fixpoint eval_axes (b : Bounds) (o : GovOracle) (i : nat) (m : MemGov) (l : list Axis)
    : MemGov * list Axis * list GovCall :=
  match l with
  | [] => (m, [], [])
  | a :: l =>
      let '(m, a, cs) := eval_axis b o i m a in
      let '(m, l, cs') := eval_axes b o (S i) m l in
      (m, a :: l, cs ++ cs')
  end.

(** The swap counters move to the previous sample, then the sample is stored. *)
Definition store_sample (now : Time) (s : Sample) (m : MemGov) : MemGov :=
  let l := g_latest m in
  let prevSwapUsed :=
    if (0 <? SwapTotalBytes l) && (SwapFreeBytes l <=? SwapTotalBytes l)
    then SwapTotalBytes l - SwapFreeBytes l else 0 in
  mkMemGov (g_growCount m) (g_shrinkCount m) (g_lastResizeTime m) (g_lastResizeWasShrink m)
    (g_grewOnce m) s now prevSwapUsed (SwapInPages l).

Definition acceptSample (o : GovOracle) (s : Sample) (g : Governor) : Governor * list GovCall :=
  let m := store_sample (go_now o) s (gv_mem g) in
  let '(m, axes, cs) := eval_axes (gv_bounds g) o 0 m (gv_axes g) in
  (set_axes axes (set_mem m g), cs).

(** The age of a sample as the code computes it: a negative age is negated in 64-bit
    arithmetic. *)
Definition sample_age (now ts : Time) : Duration :=
  let age := Sub now ts in if age <? 0 then i64 (- age) else age.

(** [now] is the clock reading of the age check, before those of [o]. *)
Definition ingestSample (now : Time) (o : GovOracle) (s : Sample) (g : Governor)
    : Governor * list GovCall :=
  if SampleMaxAge <? sample_age now (Timestamp s) then (set_outdated true g, [])
  else acceptSample o s (set_outdated false g).

(** [pollOnce] once the poll has returned; a cancelled context ends it. *)
Definition pollOnce (cancelled : bool) (poll : result string Sample) (now : Time) (o : GovOracle)
    (g : Governor) : Governor * list GovCall :=
  if cancelled then (g, [])
  else match poll with
  | Err _ => (set_pollErr true g, [])
  | Ok s => ingestSample now o s (set_pollErr false g)
  end.

(** The pause before the next poll of [runPoll] and [pollFallback]. *)
Definition next_interval (g : Governor) : Duration :=
  if mem_wants_grow (gv_mem g) then memoryPressurePollInterval else memoryEvalInterval.

Definition streamBackoffMin : Duration := 1 * Second.
Definition streamBackoffMax : Duration := 30 * Second.

(** [backoff = min(backoff*2, streamBackoffMax)]. *)
Definition next_backoff (backoff : Duration) : Duration := Z.min (i64 (backoff * 2)) streamBackoffMax.

(** ** CPU: bounds, direction, gate and cooldown *)

Definition cpu_current (b : Bounds) (s : Sample) (a : cpuAxis) : Z :=
  let v := if negb (VCPUOnline s =? 0) && negb (VCPUOnline s =? ca_currentVCPUs a)
           then VCPUOnline s else ca_currentVCPUs a in
  if v =? 0 then VCPUMin b else v.

Definition vcpu_range (z : Z) : Prop := 0 ≤ z < 2 ^ 30.

Lemma cpu_windows_frame now s a :
  ca_lastResizeTime (cpu_windows now s a) = ca_lastResizeTime a ∧
  ca_lastResizeWasShrink (cpu_windows now s a) = ca_lastResizeWasShrink a ∧
  ca_currentVCPUs (cpu_windows now s a) = ca_currentVCPUs a ∧
  ca_shrinkSince (cpu_windows now s a) =
    (if negb (cpuSampleWantsGrow s) && cpuSampleWantsShrink s then
       if IsZero (ca_shrinkSince a) then now else ca_shrinkSince a else zero_time).
Proof. unfold cpu_windows. by repeat case_match. Qed.

(** The clamp at the end of [Evaluate]. *)
Definition clampV (minV maxV t : Z) : Z :=
  let t := if t <? minV then minV else t in if maxV <? t then maxV else t.

Lemma cpu_target_spec minV maxV current now s a target isShrink :
  vcpu_range minV → vcpu_range maxV → vcpu_range current → minV < maxV →
  cpu_propose minV maxV current now s a = inr (target, isShrink) →
  let t := clampV minV maxV target in
  minV ≤ t ≤ maxV ∧
  if isShrink then
    cpuSampleWantsShrink s = true ∧ t < current ∧ (current ≤ maxV → t = current - 1) ∧
    IsZero (ca_shrinkSince a) = false ∧ cpuShrinkWindow ≤ Sub now (ca_shrinkSince a)
  else cpuSampleWantsGrow s = true ∧ current < t ∧ (minV ≤ current → t = current + 1).
Proof.
  unfold vcpu_range. intros H1 H2 H3 Hlt. unfold cpu_propose, clampV.
  destruct (cpuSampleWantsGrow s && _ && _) eqn:Eg.
  - destruct (Z.leb_spec maxV current); [done|]. intros [= <- <-]. rewrite i32_small by lia.
    reflect_bools. split; [repeat case_match; reflect_bools; lia|]. split; [done|].
    repeat case_match; reflect_bools; lia.
  - destruct (cpuSampleWantsShrink s && _ && _) eqn:Es; [|done].
    destruct (Z.leb_spec current minV); [done|]. intros [= <- <-]. rewrite i32_small by lia.
    reflect_bools. split; [repeat case_match; reflect_bools; lia|]. split; [done|].
    split; [repeat case_match; reflect_bools; lia|].
    split; [repeat case_match; reflect_bools; lia|done].
Qed.

(** every vCPU resize the governor asks for is safe.  Without CPU pressure data
    the axis does nothing at all.  Otherwise one evaluation makes at most one
    request, for a count within the bounds that differs from the current one in
    the direction of the signal, by exactly one vCPU when the current count is
    within the bounds; never within the cooldown of the previous resize (there is no
    bypass); and a shrink only once the guest has been idle for 20 seconds of wall
    time in a row. *)
Lemma cpu_Evaluate_safe b s o a :
  vcpu_range (VCPUMin b) → vcpu_range (VCPUMax b) → vcpu_range (cpu_current b s a) →
  let current := cpu_current b s a in
  let '(a', calls) := cpu_Evaluate b s o a in
  (CPUPSISupported s = false → a' = a ∧ calls = []) ∧
  (calls = [] ∨ ∃ t, calls = [t] ∧ VCPUMin b ≤ t ≤ VCPUMax b ∧
     (IsZero (ca_lastResizeTime a) = true ∨
      (if ca_lastResizeWasShrink a then cpuShrinkCooldown else cpuGrowCooldown)
        ≤ Sub (co_now o) (ca_lastResizeTime a)) ∧
     (cpuSampleWantsGrow s = true ∧ current < t ∧ (VCPUMin b ≤ current → t = current + 1) ∨
      cpuSampleWantsShrink s = true ∧ t < current ∧ (current ≤ VCPUMax b → t = current - 1) ∧
        20 * Second ≤ Sub (co_now o) (if IsZero (ca_shrinkSince a) then co_now o
                                      else ca_shrinkSince a))).
Proof.
  intros H1 H2 H3 current. unfold cpu_Evaluate.
  destruct (CPUPSISupported s) eqn:Ep; simpl; [|by split; [|left]].
  destruct (cpu_active b) eqn:Ha; simpl; [|by split; [|left]].
  assert (Hlt : VCPUMin b < VCPUMax b)
    by (unfold cpu_active in Ha; apply negb_true_iff in Ha; reflect_bools; lia).
  set (a1 := if negb (VCPUOnline s =? 0) && _ then _ else a).
  assert (Hcur : (if ca_currentVCPUs a1 =? 0 then VCPUMin b else ca_currentVCPUs a1) = current)
    by (unfold a1, current, cpu_current;
        by destruct (negb (VCPUOnline s =? 0) && negb (VCPUOnline s =? ca_currentVCPUs a))).
  rewrite Hcur. clear Hcur.
  assert (Hf : ca_lastResizeTime a1 = ca_lastResizeTime a ∧
    ca_lastResizeWasShrink a1 = ca_lastResizeWasShrink a ∧ ca_shrinkSince a1 = ca_shrinkSince a)
    by (unfold a1; by destruct (negb (VCPUOnline s =? 0) && _)).
  destruct Hf as (Hf1 & Hf2 & Hf3). clearbody a1.
  destruct (cpu_windows_frame (co_now o) s a1) as (Hw1 & Hw2 & _ & Hw4).
  destruct (cpu_cooling _ _) eqn:Ec; [split; [done|by left]|].
  unfold cpu_cooling in Ec. rewrite Hw1, Hw2, Hf1, Hf2 in Ec.
  assert (Hcool : IsZero (ca_lastResizeTime a) = true ∨
      (if ca_lastResizeWasShrink a then cpuShrinkCooldown else cpuGrowCooldown)
        ≤ Sub (co_now o) (ca_lastResizeTime a)).
  { destruct (IsZero (ca_lastResizeTime a)); [by left|right]. by apply Z.ltb_ge in Ec. }
  destruct (cpu_propose _ _ _ _ _ _) as [a2|[target isShrink]] eqn:Epr; [split; [done|by left]|].
  pose proof (cpu_target_spec _ _ _ _ _ _ _ _ H1 H2 H3 Hlt Epr) as (Hb & Hdir).
  fold (clampV (VCPUMin b) (VCPUMax b) target). set (t := clampV _ _ _) in *.
  destruct (Z.eqb_spec t current); [split; [done|by left]|].
  assert (Hres : cpuSampleWantsGrow s = true ∧ current < t ∧ (VCPUMin b ≤ current → t = current + 1) ∨
      cpuSampleWantsShrink s = true ∧ t < current ∧ (current ≤ VCPUMax b → t = current - 1) ∧
        20 * Second ≤ Sub (co_now o) (if IsZero (ca_shrinkSince a) then co_now o
                                      else ca_shrinkSince a)).
  { destruct isShrink; [right|left; done]. destruct Hdir as (Hd1 & Hd2 & Hd3 & Hd4 & Hd5).
    split; [done|]. split; [done|]. split; [done|]. rewrite Hw4, Hf3 in Hd4, Hd5.
    destruct (negb (cpuSampleWantsGrow s) && cpuSampleWantsShrink s); [exact Hd5|done]. }
  destruct (co_resize o t); (split; [done|right; exists t; done]).
Qed.

(** ** Disk *)

Lemma disk_ceiling_range b : 0 < disk_ceiling b ≤ diskDefaultMax.
Proof.
  unfold disk_ceiling. change diskDefaultMax with 107374182400.
  repeat case_match; reflect_bools; lia.
Qed.

(** the disk axis only ever grows, and within its ceiling.  At most one request is
    made per evaluation, for this axis' own disk, and only if the guest reports
    this disk as supported and more than 80% full, the boot delay and the 30 s
    cooldown have passed; the target is larger than the current size, at most 16 GiB
    larger, and never above the ceiling of 100 GiB or the configured lower one.  A
    disk the sample does not mention is left alone. *)
Lemma disk_Evaluate_grow_only b s o a :
  (∀ used total sup, disk_telemetry s (da_diskIndex a) = Some (used, total, sup) →
     0 ≤ total < 2 ^ 63) →
  let '(a', calls) := disk_Evaluate b s o a in
  calls = [] ∨
  ∃ used total t, disk_telemetry s (da_diskIndex a) = Some (used, total, true) ∧
    calls = [(da_diskIndex a, t)] ∧
    f64_ltb diskGrowThreshold (f64_ratio used total) = true ∧
    total < t ≤ total + 16 * 2 ^ 30 ∧ t ≤ disk_ceiling b ∧ t ≤ 100 * 2 ^ 30 ∧
    diskBootDelay ≤ Sub (do_now o) (da_startTime a) ∧
    (IsZero (da_lastGrow a) = true ∨ diskGrowCooldown ≤ Sub (do_now o) (da_lastGrow a)) ∧
    da_lastGrow a' = (if is_ok (do_grow o (da_diskIndex a) t) then do_now o else da_lastGrow a).
Proof.
  intros Htot. unfold disk_Evaluate.
  destruct (disk_telemetry s (da_diskIndex a)) as [[[used total] []]|] eqn:Et; simpl; try by left.
  specialize (Htot used total true eq_refl).
  destruct (Z.ltb_spec (Sub (do_now o) (da_startTime a)) diskBootDelay); [by left|].
  destruct (Z.eqb_spec total 0); [by left|].
  destruct (f64_ltb diskGrowThreshold (f64_ratio used total)) eqn:Er; simpl; [|by left].
  destruct (negb (IsZero (da_lastGrow a)) && _) eqn:Ec; [by left|].
  rewrite (i64_small total) by lia. pose proof (disk_ceiling_range b) as Hc.
  change diskDefaultMax with 107374182400 in Hc.
  destruct (Z.leb_spec (disk_ceiling b) total); [by left|].
  change diskGrowStep with 17179869184. rewrite (i64_small (total + _)) by lia.
  set (t := if disk_ceiling b <? total + 17179869184 then disk_ceiling b else _).
  assert (Ht : total < t ≤ total + 17179869184 ∧ t ≤ disk_ceiling b)
    by (unfold t; case_match; reflect_bools; lia).
  assert (Hcool : IsZero (da_lastGrow a) = true ∨ diskGrowCooldown ≤ Sub (do_now o) (da_lastGrow a)).
  { destruct (IsZero (da_lastGrow a)); [by left|right]. by apply Z.ltb_ge in Ec. }
  destruct (do_grow o (da_diskIndex a) t) eqn:Eg; right; exists used, total, t; rewrite Eg;
    split_and!; try done; lia.
Qed.

(** ** Freshness *)

(** only fresh samples reach the axes.  For a timestamp within 292 years of the
    host clock, a sample is accepted exactly when it is at most 60 s away from the
    clock in either direction; a stale one changes nothing but the outdated flag
    and makes no call. *)
Lemma ingestSample_fresh now o s g :
  - 2 ^ 63 < now - Timestamp s < 2 ^ 63 →
  if Z.abs (now - Timestamp s) <=? 60 * Second
  then ingestSample now o s g = acceptSample o s (set_outdated false g)
  else ingestSample now o s g = (set_outdated true g, []).
Proof.
  intros Hr. unfold ingestSample, sample_age. rewrite Sub_small by lia.
  change SampleMaxAge with (60 * Second). cbv zeta.
  assert (Ha : (if now - Timestamp s <? 0 then i64 (- (now - Timestamp s)) else now - Timestamp s)
               = Z.abs (now - Timestamp s)).
  { destruct (Z.ltb_spec (now - Timestamp s) 0); [rewrite i64_small by lia|]; lia. }
  rewrite Ha. destruct (Z.leb_spec (Z.abs (now - Timestamp s)) (60 * Second)),
    (Z.ltb_spec (60 * Second) (Z.abs (now - Timestamp s))); done || lia.
Qed.

(** the freshness check has a hole.  For a timestamp 292 years or more ahead of
    the host clock the age saturates at the least 64-bit duration, its negation
    wraps around to itself, and the sample is accepted as fresh. *)
Lemma far_future_sample_accepted now o s g :
  2 ^ 63 ≤ Timestamp s - now →
  ingestSample now o s g = acceptSample o s (set_outdated false g).
Proof.
  intros Hf. unfold ingestSample, sample_age.
  assert (Hs : Sub now (Timestamp s) = - 2 ^ 63)
    by (unfold Sub, clamp_i64, max_i64, min_i64; lia).
  rewrite Hs. reflexivity.
Qed.

(** ** Five in a row *)

(** The evaluations a governor has been through, most recent first: whether each
    one that ran found that its sample wants to shrink. *)
Inductive mem_run (b : Bounds) : MemGov → list bool → Prop :=
| mem_run_init : mem_run b mem_gov_init []
| mem_run_step m h now s o m' cs :
    mem_run b m h → evaluate b o (store_sample now s m) = (m', cs) →
    mem_run b m' (if mem_fresh o (store_sample now s m) && mem_active b
                  then mem_wants_shrink (store_sample now s m) :: h else h).

Fixpoint streak (h : list bool) : Z :=
  match h with true :: h' => 1 + streak h' | _ => 0 end.

Lemma streak_nonneg h : 0 ≤ streak h.
Proof. induction h as [|[] h IH]; simpl; lia. Qed.

(** What one evaluation does to the shrink counter. *)
Lemma evaluate_shrinkCount b o m :
  let '(m', _) := evaluate b o m in
  if mem_fresh o m && mem_active b then
    g_shrinkCount m' = 0 ∨ g_shrinkCount m' = g_shrinkCount m + 1 ∧ mem_wants_shrink m = true
  else g_shrinkCount m' = g_shrinkCount m.
Proof.
  unfold evaluate. fold (mem_current b o). destruct (mem_fresh o m); simpl; [|done].
  destruct (mem_active b); simpl; [|done].
  assert (Hc : g_shrinkCount (mem_count m) = 0 ∨
    g_shrinkCount (mem_count m) = g_shrinkCount m + 1 ∧ mem_wants_shrink m = true).
  { unfold mem_count. destruct (mem_wants_grow m); [by left|].
    destruct (mem_wants_shrink m); [by right|by left]. }
  destruct (mem_cooling _ _ _); [done|].
  destruct (mem_propose _ _ _ _ _) as [m1|[target isShrink]] eqn:Ep.
  { unfold mem_propose in Ep. by repeat case_match; simplify_eq. }
  set (t := mem_clamp _ _ _). destruct (t =? mem_current b o); [done|]. unfold mem_commit.
  destruct isShrink; [by left|]. by destruct (mo_headroom _ _) as [[]|]; [left|..].
Qed.

Lemma mem_run_streak b m h : mem_run b m h → 0 ≤ g_shrinkCount m ≤ streak h.
Proof.
  induction 1 as [|m h now s o m' cs _ IH He]; [simpl; lia|].
  pose proof (evaluate_shrinkCount b o (store_sample now s m)) as H. rewrite He in H.
  change (g_shrinkCount (store_sample now s m)) with (g_shrinkCount m) in H.
  pose proof (streak_nonneg h). destruct (mem_fresh _ _ && mem_active b); [|by rewrite H].
  destruct (mem_wants_shrink (store_sample now s m)); simpl; destruct H as [H|[H ?]]; try done; lia.
Qed.

Lemma streak_prefix n h : Z.of_nat n ≤ streak h → take n h = replicate n true.
Proof.
  revert h; induction n as [|n IH]; intros h Hn; [done|].
  destruct h as [|[] h]; simpl in *; [lia|f_equal; apply IH; lia|lia].
Qed.

(** the governor never shrinks memory on less than five comfortable samples in a
    row.  Along every history of evaluations from a fresh governor, with any clock,
    samples, resizer sizes and headroom answers in between, a request for a smaller
    size is made only if this sample and the four evaluated before it all wanted to
    shrink. *)
Lemma shrink_needs_five_in_a_row b m h now s o t :
  mem_range (MemMinBytes b) → mem_range (MemMaxBytes b) → mem_range (mo_current o) →
  mem_run b m h → CallResizeMemory t ∈ (evaluate b o (store_sample now s m)).2 →
  t < mem_current b o →
  mem_wants_shrink (store_sample now s m) = true ∧ take 4 h = [true; true; true; true].
Proof.
  intros H1 H2 H3 Hrun Hin Hlt. pose proof (mem_run_streak _ _ _ Hrun) as Hs.
  pose proof (evaluate_resize_cases b o (store_sample now s m) H1 H2 H3) as He.
  destruct (evaluate b o (store_sample now s m)) as [m' cs]. simpl in Hin.
  destruct He as [->|(t' & _ & _ & [[-> _]|[(-> & Hgt & _)|(-> & _ & Hw & Hc)]])].
  - by apply elem_of_nil in Hin.
  - by apply list_elem_of_singleton in Hin.
  - apply elem_of_cons in Hin as [|Hin%list_elem_of_singleton]; [done|]. injection Hin as ->. lia.
  - split; [done|]. change (g_shrinkCount (store_sample now s m)) with (g_shrinkCount m) in Hc.
    unfold memoryShrinkConsecutive in Hc. apply (streak_prefix 4). lia.
Qed.

(** ** Backoff and axes *)

Lemma next_backoff_range x :
  streamBackoffMin ≤ x ≤ streamBackoffMax →
  streamBackoffMin ≤ next_backoff x ≤ streamBackoffMax ∧ x ≤ next_backoff x.
Proof.
  unfold next_backoff, streamBackoffMin, streamBackoffMax, Second. intros Hx.
  rewrite i64_small by lia. lia.
Qed.

(** the reconnect backoff starts at one second, never leaves the range of one to
    thirty seconds, never decreases while the stream stays down, and has reached its
    cap after five failures. *)
Lemma backoff_bounded n :
  let wait k := Nat.iter k next_backoff streamBackoffMin in
  streamBackoffMin ≤ wait n ≤ streamBackoffMax ∧ wait n ≤ wait (S n) ∧
  ((5 ≤ n)%nat → wait n = streamBackoffMax).
Proof.
  cbv zeta. assert (Hr : streamBackoffMin ≤ Nat.iter n next_backoff streamBackoffMin
                          ≤ streamBackoffMax).
  { induction n as [|n IH]; [vm_compute; split; congruence|]. simpl. by apply next_backoff_range. }
  split; [done|]. split; [simpl; by apply next_backoff_range|].
  intros Hn. clear Hr. induction Hn as [|n Hn IH]; [by vm_compute|].
  simpl. rewrite IH. by vm_compute.
Qed.

Definition axis_kind (a : Axis) : Z :=
  match a with AxMemory => 0 | AxCPU _ => 1 | AxDisk _ => 2 end.

Lemma eval_axes_kinds b o i m l :
  axis_kind <$> (eval_axes b o i m l).1.2 = axis_kind <$> l.
Proof.
  revert i m; induction l as [|a l IH]; intros i m; simpl; [done|].
  destruct (eval_axis b o i m a) as [[m1 a1] cs] eqn:Ea.
  specialize (IH (S i) m1). destruct (eval_axes b o (S i) m1 l) as [[m2 l2] cs2]. simpl in *.
  f_equal; [|exact IH]. unfold eval_axis in Ea. repeat case_match; by simplify_eq/=.
Qed.

(** the wiring of the axes survives every sample.  Whatever a poll or a pushed
    sample does, the governor keeps its bounds and has the same axes in the same
    order -- so the memory axis, registered by [New], is always evaluated first. *)
Lemma axes_stable cancelled poll now o g :
  let g' := (pollOnce cancelled poll now o g).1 in
  AxisCount g' = AxisCount g ∧ gv_bounds g' = gv_bounds g ∧
  axis_kind <$> gv_axes g' = axis_kind <$> gv_axes g.
Proof.
  cbv zeta. assert (Hacc : ∀ s g, axis_kind <$> gv_axes (acceptSample o s g).1 =
    axis_kind <$> gv_axes g ∧ gv_bounds (acceptSample o s g).1 = gv_bounds g).
  { intros s0 g0. unfold acceptSample.
    pose proof (eval_axes_kinds (gv_bounds g0) o 0 (store_sample (go_now o) s0 (gv_mem g0))
      (gv_axes g0)) as H. destruct (eval_axes _ _ _ _ _) as [[m l] cs]. done. }
  assert (Hk : axis_kind <$> gv_axes (pollOnce cancelled poll now o g).1 = axis_kind <$> gv_axes g ∧
    gv_bounds (pollOnce cancelled poll now o g).1 = gv_bounds g).
  { unfold pollOnce. destruct cancelled; [done|]. destruct poll as [s|e]; [|done].
    unfold ingestSample. destruct (_ <? _); [done|]. exact (Hacc s (set_outdated false (set_pollErr false g))). }
  destruct Hk as [Hk Hb]. split_and!; [|done..].
  unfold AxisCount. apply (f_equal length) in Hk. rewrite !length_fmap in Hk. by rewrite Hk.
Qed.

(** ** Witnesses *)

Definition example_busy : Sample :=
  mkSample (10 * Second) (2 ^ 29) (2 ^ 30) (f64_of_Z 0) (f64_of_Z 0) true (f64_of_Z 40) true
    (9 * 2 ^ 30) (10 * 2 ^ 30) true [] 0 0 0 4 1 TriggerNone.

Lemma cpu_Evaluate_safe_witness :
  (cpu_Evaluate example_bounds example_busy
     (mkCpuOracle (10 * Second) (10 * Second) (λ t, Ok t)) (NewCPUAxis 1)).2 = [2].
Proof.
  pose proof (cpu_Evaluate_safe example_bounds example_busy
    (mkCpuOracle (10 * Second) (10 * Second) (λ t, Ok t)) (NewCPUAxis 1)
    ltac:(unfold vcpu_range; simpl; lia) ltac:(unfold vcpu_range; simpl; lia)
    ltac:(unfold vcpu_range; vm_compute; split; congruence)) as H.
  assert (Hne : (cpu_Evaluate example_bounds example_busy
     (mkCpuOracle (10 * Second) (10 * Second) (λ t, Ok t)) (NewCPUAxis 1)).2 ≠ [])
    by (vm_compute; discriminate).
  destruct (cpu_Evaluate _ _ _ _) as [a' calls]. simpl in *.
  destruct H as [_ [H|(t & -> & _ & _ & [(_ & _ & Ht)|(H & _)])]]; [done| |].
  - by rewrite Ht.
  - vm_compute in H. discriminate.
Defined.

Lemma disk_Evaluate_grow_only_witness :
  (disk_Evaluate example_bounds example_busy (mkDiskOracle (60 * Second) (λ _ _, Ok tt))
     (NewDiskAxis 0 (1 * Second))).2 ≠ [] ∧
  ∃ t, (disk_Evaluate example_bounds example_busy (mkDiskOracle (60 * Second) (λ _ _, Ok tt))
     (NewDiskAxis 0 (1 * Second))).2 = [(0, t)] ∧ 10 * 2 ^ 30 < t.
Proof.
  assert (Hne : (disk_Evaluate example_bounds example_busy (mkDiskOracle (60 * Second)
    (λ _ _, Ok tt)) (NewDiskAxis 0 (1 * Second))).2 ≠ []) by (vm_compute; discriminate).
  split; [exact Hne|].
  pose proof (disk_Evaluate_grow_only example_bounds example_busy
    (mkDiskOracle (60 * Second) (λ _ _, Ok tt)) (NewDiskAxis 0 (1 * Second))) as H.
  destruct (disk_Evaluate _ _ _ _) as [a' calls]. simpl in *.
  destruct H as [H|(used & total & t & [= <- <-] & -> & _ & Ht & _)];
    [intros used total sup [= <- <- <-]; lia|done|]. exists t. split; [reflexivity|lia].
Defined.

Lemma ingestSample_fresh_witness :
  ingestSample (200 * Second) (mkGovOracle 0 (λ _, example_oracle)
    (λ _, mkCpuOracle 0 0 (λ t, Ok t)) (λ _, mkDiskOracle 0 (λ _ _, Ok tt))) example_busy
    (New example_bounds) = (set_outdated true (New example_bounds), []).
Proof.
  apply (ingestSample_fresh (200 * Second) _ example_busy (New example_bounds)).
  simpl. unfold Second. lia.
Defined.

Definition example_far : Sample :=
  mkSample (2 ^ 64) (2 ^ 29) (2 ^ 30) (f64_of_Z 0) (f64_of_Z 0) true (f64_of_Z 40) true
    0 0 true [] 0 0 0 4 1 TriggerNone.

Definition example_gov_oracle : GovOracle :=
  mkGovOracle 0 (λ _, example_oracle) (λ _, mkCpuOracle 0 0 (λ t, Ok t))
    (λ _, mkDiskOracle 0 (λ _ _, Ok tt)).

Lemma far_future_sample_accepted_witness :
  ingestSample 0 example_gov_oracle example_far (New example_bounds) =
  acceptSample example_gov_oracle example_far (set_outdated false (New example_bounds)).
Proof. apply far_future_sample_accepted. simpl. lia. Defined.

Definition example_comfy : Sample :=
  mkSample (10 * Second) (3 * 2 ^ 30) (4 * 2 ^ 30) (f64_of_Z 0) (f64_of_Z 0) true (f64_of_Z 5) true
    0 0 true [] 0 0 0 4 1 TriggerNone.

Definition example_big : MemOracle :=
  mkMemOracle (11 * Second) (11 * Second) (11 * Second) (4 * 2 ^ 30) (λ _, Ok true).

Fixpoint example_history (n : nat) : MemGov :=
  match n with
  | O => mem_gov_init
  | S n => (evaluate example_bounds example_big
              (store_sample (10 * Second) example_comfy (example_history n))).1
  end.

Lemma example_run n : (n ≤ 4)%nat → mem_run example_bounds (example_history n) (replicate n true).
Proof.
  intros Hn. induction n as [|n IH]; [constructor|].
  assert (Hb : (mem_fresh example_big (store_sample (10 * Second) example_comfy (example_history n))
    && mem_active example_bounds) = true ∧
    mem_wants_shrink (store_sample (10 * Second) example_comfy (example_history n)) = true).
  { do 4 (destruct n as [|n]; [vm_compute; split; reflexivity|]). lia. }
  destruct Hb as [Hb Hw].
  pose proof (mem_run_step example_bounds _ _ (10 * Second) example_comfy example_big _ _
    (IH ltac:(lia)) (surjective_pairing _)) as H.
  rewrite Hb, Hw in H. exact H.
Defined.

Lemma shrink_needs_five_in_a_row_witness :
  take 4 (replicate 4 true) = [true; true; true; true].
Proof.
  apply (shrink_needs_five_in_a_row example_bounds (example_history 4) (replicate 4 true)
    (10 * Second) example_comfy example_big (2816 * 2 ^ 20)).
  - unfold mem_range. simpl. lia.
  - unfold mem_range. simpl. lia.
  - unfold mem_range. simpl. lia.
  - apply example_run. lia.
  - vm_compute. left.
  - vm_compute. reflexivity.
Defined.
