(* ===== verification/Chain.v ===== *)
(** * internal/core/perimeter/netfilter: policy chains ([blocks.go])

    Models blocks, their compilation ([NewChain], [addNameRule], [addIPRule]) and the
    three decision walks ([DecideName], [DecideIP], [DecideAddr]), with
    [AllowDomainPatterns].  The theorems relate the loops that track a current best
    rule to the declarative rule order: first opinion among blocks, most specific
    rule within a block, deny on ties.  The texts of compilation errors name the block
    and the entry, without the quotes of [%q] and the library's own message. *)

From stdpp Require Import prelude countable strings list.
From Stdlib Require Import ZArith Ascii Lia.
From S2P Require Import Prelude GoStrings GoNet.

Inductive Verdict := VerdictNone | VerdictAllow | VerdictDeny.

#[global] Instance Verdict_eq_dec : EqDecision Verdict.
Proof. solve_decision. Defined.

Definition Verdict_String (v : Verdict) : string :=
  match v with VerdictAllow => "allow" | VerdictDeny => "deny" | VerdictNone => "none" end.

Record Block := mkBlock {
  b_Origin : string;
  b_Name : string;
  b_AllowDomains : list string;
  b_DenyDomains : list string;
  b_AllowIPs : list string;
  b_DenyIPs : list string;
}.

Record Match := mkMatch {
  m_Origin : string;
  m_Block : string;
  m_Entry : string;
  m_Verdict : Verdict;
}.

Definition no_match : Match := mkMatch "" "" "" VerdictNone.

Definition Match_String (m : Match) : string :=
  let label := if String.eqb (m_Block m) "" then m_Origin m else m_Origin m +:+ " " +:+ m_Block m in
  label +:+ ": " +:+ Verdict_String (m_Verdict m) +:+ " " +:+ m_Entry m.

Record nameRule := mkNameRule {
  nr_entry : string;
  nr_pattern : string;
  nr_labels : Z;
  nr_wildcard : bool;
  nr_subtree : bool;
  nr_deny : bool;
}.

(** [nameRule.match]: whether the name matches, and whether exactly. *)
Definition nameRule_match (r : nameRule) (name : string) : bool * bool :=
  if nr_wildcard r then (HasSuffix name ("." +:+ nr_pattern r), false)
  else if nr_subtree r then
    if String.eqb name (nr_pattern r) then (true, true)
    else (HasSuffix name ("." +:+ nr_pattern r), false)
  else let eq := String.eqb name (nr_pattern r) in (eq, eq).

Record ipRule := mkIpRule {
  ir_entry : string;
  ir_addr : Addr;
  ir_prefix : Prefix;
  ir_exact : bool;
  ir_deny : bool;
}.

Definition ipRule_contains (r : ipRule) (ip : Addr) : bool :=
  if ir_exact r then bool_decide (ir_addr r = ip) else prefix_Contains (ir_prefix r) ip.

Record compiledBlock := mkCompiled {
  cb_origin : string;
  cb_name : string;
  cb_names : list nameRule;
  cb_ips : list ipRule;
}.

Record Chain := mkChain { ch_blocks : list Block; ch_compiled : list compiledBlock }.

(** ** Compilation *)

Definition normalizeDomain (s : string) : string := ToLower (TrimSuffix (TrimSpace s) ".").

(** The rule an entry compiles to, if any. *)
Definition compile_name (entry : string) (deny : bool) : option nameRule :=
  let p := normalizeDomain entry in
  if String.eqb p "" || String.eqb p "*." then None
  else
    let '(pattern, wildcard) :=
      match CutPrefix p "*." with Some rest => (rest, true) | None => (p, false) end in
    let subtree := negb wildcard && deny in
    Some (mkNameRule p pattern (count_byte "."%char pattern + 1) wildcard subtree deny).

Definition addNameRule (cb : compiledBlock) (entry : string) (deny : bool) : compiledBlock :=
  match compile_name entry deny with
  | None => cb
  | Some r => mkCompiled (cb_origin cb) (cb_name cb) (cb_names cb ++ [r]) (cb_ips cb)
  end.

Definition no_prefix : Prefix := mkPrefix AddrInvalid 0.

Definition addIPRule (cb : compiledBlock) (entry : string) (deny : bool)
    : result string compiledBlock :=
  let e := TrimSpace entry in
  if String.eqb e "" then Ok cb
  else
    let add r := Ok (mkCompiled (cb_origin cb) (cb_name cb) (cb_names cb) (cb_ips cb ++ [r])) in
    if Contains e "/" then
      match ParsePrefix e with
      | None => Err ("parsing CIDR entry " +:+ entry)
      | Some p => add (mkIpRule e AddrInvalid p false deny)
      end
    else
      match ParseAddr e with
      | None => Err ("parsing IP entry " +:+ entry)
      | Some a => add (mkIpRule e (Unmap a) no_prefix true deny)
      end.

Fixpoint addIPRules (cb : compiledBlock) (entries : list string) (deny : bool)
    : result string compiledBlock :=
  match entries with
  | [] => Ok cb
  | e :: entries => let* cb := addIPRule cb e deny in addIPRules cb entries deny
  end.

Definition compile_block (b : Block) : result string compiledBlock :=
  let cb := mkCompiled (b_Origin b) (b_Name b) [] [] in
  let cb := fold_left (λ cb e, addNameRule cb e false) (b_AllowDomains b) cb in
  let cb := fold_left (λ cb e, addNameRule cb e true) (b_DenyDomains b) cb in
  let* cb := addIPRules cb (b_AllowIPs b) false in
  addIPRules cb (b_DenyIPs b) true.

(** [blockLabel]: origin plus name when present. *)
Definition blockLabel (b : Block) : string :=
  if String.eqb (b_Name b) "" then b_Origin b else b_Origin b +:+ " " +:+ b_Name b.

Fixpoint compile_blocks (bs : list Block) : result string (list compiledBlock) :=
  match bs with
  | [] => Ok []
  | b :: bs =>
      match compile_block b with
      | Err e => Err ("block " +:+ blockLabel b +:+ ": " +:+ e)
      | Ok cb => let* cbs := compile_blocks bs in Ok (cb :: cbs)
      end
  end.

Definition NewChain (blocks : list Block) : result string Chain :=
  let* cbs := compile_blocks blocks in Ok (mkChain blocks cbs).

(** ** Decisions *)

(** The loop shared by [decideName] and [decideIP]: keep the current best unless the
    candidate beats it. *)
Definition pick_best {R} (matches : R → bool) (beats : R → R → bool) (l : list R) : option R :=
  fold_left (λ best r, if matches r then
                         match best with
                         | None => Some r
                         | Some b => if beats r b then Some r else best
                         end
                       else best) l None.

Definition moreSpecificName (name : string) (r best : nameRule) : bool :=
  let exact := (nameRule_match r name).2 in
  let bestExact := (nameRule_match best name).2 in
  if negb (nr_labels r =? nr_labels best) then nr_labels best <? nr_labels r
  else if negb (Bool.eqb exact bestExact) then exact
  else nr_deny r && negb (nr_deny best).

Definition moreSpecificIP (r best : ipRule) : bool :=
  if negb (Bool.eqb (ir_exact r) (ir_exact best)) then ir_exact r
  else if negb (ir_exact r) && negb (pf_bits (ir_prefix r) =? pf_bits (ir_prefix best))
  then pf_bits (ir_prefix best) <? pf_bits (ir_prefix r)
  else ir_deny r && negb (ir_deny best).

Definition verdictFor (cb : compiledBlock) (entry : string) (deny : bool) : Verdict * Match :=
  let v := if deny then VerdictDeny else VerdictAllow in
  (v, mkMatch (cb_origin cb) (cb_name cb) entry v).

Definition decideName (cb : compiledBlock) (name : string) : Verdict * Match :=
  match pick_best (λ r, (nameRule_match r name).1) (moreSpecificName name) (cb_names cb) with
  | None => (VerdictNone, no_match)
  | Some r => verdictFor cb (nr_entry r) (nr_deny r)
  end.

Definition decideIP (cb : compiledBlock) (ip : Addr) : Verdict * Match :=
  match pick_best (λ r, ipRule_contains r ip) moreSpecificIP (cb_ips cb) with
  | None => (VerdictNone, no_match)
  | Some r => verdictFor cb (ir_entry r) (ir_deny r)
  end.

(** The walk from the highest block down: the first opinion decides. *)
Fixpoint first_opinion {M} (none : M) (f : compiledBlock → Verdict * M) (l : list compiledBlock)
    : Verdict * M :=
  match l with
  | [] => (VerdictNone, none)
  | cb :: l => let '(v, m) := f cb in
               if bool_decide (v = VerdictNone) then first_opinion none f l else (v, m)
  end.

Definition DecideName (c : Chain) (name : string) : Verdict * Match :=
  let name := normalizeDomain name in
  if String.eqb name "" then (VerdictNone, no_match)
  else first_opinion no_match (λ cb, decideName cb name) (reverse (ch_compiled c)).

Definition DecideIP (c : Chain) (ip : Addr) : Verdict * Match :=
  first_opinion no_match (λ cb, decideIP cb (Unmap ip)) (reverse (ch_compiled c)).

(** One block's opinion on a named connection to an address: name and address rules
    together, a deny in either space overriding an allow in the other.  The flag
    says that the verdict came from the name. *)
Definition decideBoth (name : string) (ip : Addr) (cb : compiledBlock)
    : Verdict * (Match * bool) :=
  let '(nv, nm) := if String.eqb name "" then (VerdictNone, no_match) else decideName cb name in
  let '(iv, im) := decideIP cb ip in
  match nv, iv with
  | VerdictNone, VerdictNone => (VerdictNone, (no_match, false))
  | _, VerdictNone => (nv, (nm, true))
  | VerdictNone, _ => (iv, (im, false))
  | VerdictDeny, _ => (nv, (nm, true))
  | _, VerdictDeny => (iv, (im, false))
  | _, _ => (nv, (nm, true))
  end.

Definition DecideAddr (c : Chain) (name : string) (ip : Addr) : Verdict * (Match * bool) :=
  first_opinion (no_match, false) (decideBoth (normalizeDomain name) (Unmap ip))
    (reverse (ch_compiled c)).

(** [apexDeniedAbove] with the blocks above the current one, highest first. *)
Definition apexDeniedAbove (above : list compiledBlock) (apex : string) : bool :=
  bool_decide ((first_opinion no_match (λ cb, decideName cb apex) above).1 = VerdictDeny).

(** The loop over one block's allow entries. *)
Fixpoint block_patterns (above : list compiledBlock) (entries : list string) (out : list string)
    : list string :=
  match entries with
  | [] => out
  | e :: entries =>
      let p := normalizeDomain e in
      if String.eqb p "" || String.eqb p "*." || bool_decide (p ∈ out) ||
         apexDeniedAbove above (TrimPrefix p "*.")
      then block_patterns above entries out
      else block_patterns above entries (out ++ [p])
  end.

Fixpoint chain_patterns (blocks : list Block) (compiled : list compiledBlock) (out : list string)
    : list string :=
  match blocks, compiled with
  | b :: blocks, _ :: compiled =>
      chain_patterns blocks compiled (block_patterns (reverse compiled) (b_AllowDomains b) out)
  | _, _ => out
  end.

Definition AllowDomainPatterns (c : Chain) : list string :=
  chain_patterns (ch_blocks c) (ch_compiled c) [].

Definition allowIPCounts (c : Chain) : Z * Z :=
  let rules := filter (λ r, ir_deny r = false) (concat (cb_ips <$> ch_compiled c)) in
  (Z.of_nat (length (filter (λ r, ir_exact r = true) rules)),
   Z.of_nat (length (filter (λ r, ir_exact r = false) rules))).

(** ** Picking the best rule *)

Lemma pick_best_snoc {R} (matches : R → bool) beats l r :
  pick_best matches beats (l ++ [r]) =
  if matches r then
    match pick_best matches beats l with
    | None => Some r
    | Some b => if beats r b then Some r else Some b
    end
  else pick_best matches beats l.
Proof.
  unfold pick_best. rewrite fold_left_app. simpl.
  destruct (matches r); [|done]. by destruct (fold_left _ l None).
Qed.

(** For a transitive, irreflexive comparison the loop returns a matching rule that no
    matching rule beats, and nothing only if nothing matches. *)
Lemma pick_best_spec {R} (matches : R → bool) (beats : R → R → bool) l :
  (∀ a b c, beats a b = true → beats b c = true → beats a c = true) →
  (∀ a, beats a a = false) →
  match pick_best matches beats l with
  | None => ∀ r, r ∈ l → matches r = false
  | Some b => b ∈ l ∧ matches b = true ∧ ∀ r, r ∈ l → matches r = true → beats r b = false
  end.
Proof.
  intros Ht Hi. induction l as [|r l IH] using rev_ind; [by intros r ?%elem_of_nil|].
  rewrite pick_best_snoc.
  assert (Hin : ∀ x, x ∈ l ++ [r] ↔ x ∈ l ∨ x = r)
    by (intros x; by rewrite elem_of_app, list_elem_of_singleton).
  destruct (matches r) eqn:Hm; destruct (pick_best matches beats l) as [b|];
    [destruct (beats r b) eqn:Hrb| | |]; setoid_rewrite Hin.
  - destruct IH as (Hb & Hmb & Hbest). split; [auto|]. split; [done|].
    intros r' [Hr'| ->] Hm'; [|done]. destruct (beats r' r) eqn:E; [|done].
    rewrite <- (Hbest r' Hr' Hm'). symmetry. by eapply Ht.
  - destruct IH as (Hb & Hmb & Hbest). split; [auto|]. split; [done|]. intros r' [Hr'| ->] ?; auto.
  - split; [auto|]. split; [done|]. intros r' [Hr'| ->] Hm'; [|done]. rewrite IH in Hm'; done.
  - destruct IH as (Hb & Hmb & Hbest). split; [auto|]. split; [done|].
    intros r' [Hr'| ->] Hm'; [auto|congruence].
  - intros r' [Hr'| ->]; auto.
Qed.

(** ** Specificity as a lexicographic order *)

Definition lex3_lt (a b : Z * Z * Z) : bool :=
  (a.1.1 <? b.1.1) || ((a.1.1 =? b.1.1) && ((a.1.2 <? b.1.2) || ((a.1.2 =? b.1.2) && (a.2 <? b.2)))).

Lemma lex3_lt_true a b :
  lex3_lt a b = true ↔
  a.1.1 < b.1.1 ∨ a.1.1 = b.1.1 ∧ (a.1.2 < b.1.2 ∨ a.1.2 = b.1.2 ∧ a.2 < b.2).
Proof.
  unfold lex3_lt.
  rewrite orb_true_iff, andb_true_iff, orb_true_iff, andb_true_iff, !Z.ltb_lt, !Z.eqb_eq. tauto.
Qed.

Lemma lex3_lt_trans a b c : lex3_lt a b = true → lex3_lt b c = true → lex3_lt a c = true.
Proof. rewrite !lex3_lt_true. lia. Qed.

Lemma lex3_lt_irrefl a : lex3_lt a a = false.
Proof. destruct (lex3_lt a a) eqn:E; [|done]. apply lex3_lt_true in E. lia. Qed.

Definition b2z (b : bool) : Z := if b then 1 else 0.

(** Depth, exactness, deny. *)
Definition name_rank (name : string) (r : nameRule) : Z * Z * Z :=
  (nr_labels r, b2z (nameRule_match r name).2, b2z (nr_deny r)).

(** Exactness, prefix length (of a prefix rule), deny. *)
Definition ip_rank (r : ipRule) : Z * Z * Z :=
  (b2z (ir_exact r), if ir_exact r then 0 else pf_bits (ir_prefix r), b2z (ir_deny r)).

Lemma moreSpecificName_rank name r b :
  moreSpecificName name r b = lex3_lt (name_rank name b) (name_rank name r).
Proof.
  unfold moreSpecificName, name_rank, lex3_lt. cbn [fst snd].
  destruct (Z.eqb_spec (nr_labels r) (nr_labels b)) as [->|Hne]; cbn [negb].
  - rewrite Z.ltb_irrefl, Z.eqb_refl.
    by destruct (nameRule_match r name).2, (nameRule_match b name).2, (nr_deny r), (nr_deny b).
  - destruct (Z.eqb_spec (nr_labels b) (nr_labels r)); [congruence|]. by rewrite orb_false_r.
Qed.

Lemma moreSpecificIP_rank r b : moreSpecificIP r b = lex3_lt (ip_rank b) (ip_rank r).
Proof.
  unfold moreSpecificIP, ip_rank, lex3_lt. cbn [fst snd].
  destruct (ir_exact r), (ir_exact b); simpl; try done; [by destruct (ir_deny r), (ir_deny b)|].
  destruct (Z.eqb_spec (pf_bits (ir_prefix r)) (pf_bits (ir_prefix b))) as [->|Hne]; simpl.
  - rewrite Z.ltb_irrefl, Z.eqb_refl. by destruct (ir_deny r), (ir_deny b).
  - destruct (Z.eqb_spec (pf_bits (ir_prefix b)) (pf_bits (ir_prefix r))); [congruence|].
    by rewrite orb_false_r.
Qed.

(** The verdict of the most specific rule among those that match: at least as specific
    as every other, and a deny if an equally specific one is. *)
Definition best_verdict {R} (matches : R → bool) (rank : R → Z * Z * Z) (deny : R → bool)
    (entry : R → string) (l : list R) (vm : Verdict * Match) : Prop :=
  match vm.1 with
  | VerdictNone => ∀ r, r ∈ l → matches r = false
  | v => ∃ r, r ∈ l ∧ matches r = true ∧ v = (if deny r then VerdictDeny else VerdictAllow) ∧
           m_Entry vm.2 = entry r ∧ m_Verdict vm.2 = v ∧
           ∀ r', r' ∈ l → matches r' = true → lex3_lt (rank r) (rank r') = false
  end.

Lemma pick_best_verdict {R} (matches : R → bool) beats rank deny entry l cb :
  (∀ r b, beats r b = lex3_lt (rank b) (rank r)) →
  best_verdict matches rank deny entry l
    (match pick_best matches beats l with
     | None => (VerdictNone, no_match)
     | Some r => verdictFor cb (entry r) (deny r)
     end).
Proof.
  intros Hrank. assert (H : match pick_best matches beats l with
    | None => ∀ r, r ∈ l → matches r = false
    | Some b => b ∈ l ∧ matches b = true ∧ ∀ r, r ∈ l → matches r = true → beats r b = false end).
  { apply pick_best_spec; intros; rewrite !Hrank in *;
      [by eapply lex3_lt_trans|apply lex3_lt_irrefl]. }
  unfold best_verdict. destruct (pick_best matches beats l) as [r|]; [|exact H].
  destruct H as (Hin & Hm & Hbest).
  destruct (deny r) eqn:Hd; cbn; rewrite ?Hd; exists r; rewrite Hd; split_and!; try done;
    intros r' H1 H2; rewrite <- Hrank; auto.
Qed.

(** within a block the most specific matching rule decides.  For names: more labels
    beat fewer, an exact match beats a suffix match of equal depth, and on a full
    tie a deny wins; for addresses: an exact address beats a prefix, a longer prefix
    a shorter one, and on a tie a deny wins.  The attribution names that rule, and a
    block has no opinion only if none of its rules matches -- whatever the order in
    which the rules were added. *)
Lemma block_most_specific_wins cb name ip :
  best_verdict (λ r, (nameRule_match r name).1) (name_rank name) nr_deny nr_entry (cb_names cb)
    (decideName cb name) ∧
  best_verdict (λ r, ipRule_contains r ip) ip_rank ir_deny ir_entry (cb_ips cb)
    (decideIP cb ip).
Proof.
  split; apply pick_best_verdict; intros; [apply moreSpecificName_rank|apply moreSpecificIP_rank].
Qed.

(** ** Precedence between blocks *)

Lemma first_opinion_spec {M} (none : M) f l :
  match first_opinion none f l with
  | (VerdictNone, m) => m = none ∧ ∀ cb, cb ∈ l → (f cb).1 = VerdictNone
  | vm => ∃ above cb below, l = above ++ cb :: below ∧ f cb = vm ∧
            ∀ cb', cb' ∈ above → (f cb').1 = VerdictNone
  end.
Proof.
  induction l as [|cb l IH]; simpl; [split; [done|by intros ? ?%elem_of_nil]|].
  destruct (f cb) as [v m] eqn:Ef. case_bool_decide as Hv.
  - subst v. destruct (first_opinion none f l) as [[] m'].
    + destruct IH as [-> IH]. split; [done|].
      intros cb' [->|Hin]%elem_of_cons; [by rewrite Ef|auto].
    + destruct IH as (above & cb' & below & -> & Hf & Hab). exists (cb :: above), cb', below.
      split; [done|]. split; [done|]. intros c [->|Hin]%elem_of_cons; [by rewrite Ef|auto].
    + destruct IH as (above & cb' & below & -> & Hf & Hab). exists (cb :: above), cb', below.
      split; [done|]. split; [done|]. intros c [->|Hin]%elem_of_cons; [by rewrite Ef|auto].
  - destruct v; [done|..]; exists [], cb, l; (split; [done|]); (split; [done|]);
      by intros c ?%elem_of_nil.
Qed.

(** What one block says about a named connection. *)
Lemma decideBoth_cases name ip cb :
  let nv := if String.eqb name "" then VerdictNone else (decideName cb name).1 in
  let iv := (decideIP cb ip).1 in
  let v := (decideBoth name ip cb).1 in
  let byName := (decideBoth name ip cb).2.2 in
  (v = VerdictNone ↔ nv = VerdictNone ∧ iv = VerdictNone) ∧
  (v = VerdictDeny ↔ nv = VerdictDeny ∨ iv = VerdictDeny) ∧
  (v = VerdictAllow ↔ (nv = VerdictAllow ∨ iv = VerdictAllow) ∧
                      nv ≠ VerdictDeny ∧ iv ≠ VerdictDeny) ∧
  (byName = true ↔ nv = VerdictDeny ∨ nv = VerdictAllow ∧ iv ≠ VerdictDeny).
Proof.
  unfold decideBoth. destruct (String.eqb name "").
  - destruct (decideIP cb ip) as [[] im]; simpl; naive_solver.
  - destruct (decideName cb name) as [[] nm], (decideIP cb ip) as [[] im]; simpl; naive_solver.
Qed.

(** precedence holds across both rule spaces.  The verdict on a connection is that
    of the highest block any of whose rules matches its name or its address; in that
    block a deny in either space overrides an allow in the other; every lower block
    is ignored; and only if no rule of any block matches is there no opinion.  The
    verdict is attributed to the name exactly when the name rules produced it. *)
Lemma DecideAddr_precedence c name ip :
  let nm := normalizeDomain name in
  let nv cb := if String.eqb nm "" then VerdictNone else (decideName cb nm).1 in
  let iv cb := (decideIP cb (Unmap ip)).1 in
  match DecideAddr c name ip with
  | (VerdictNone, _) =>
      ∀ cb, cb ∈ ch_compiled c → nv cb = VerdictNone ∧ iv cb = VerdictNone
  | (v, (m, byName)) =>
      ∃ below cb above, ch_compiled c = below ++ cb :: above ∧
      (∀ cb', cb' ∈ above → nv cb' = VerdictNone ∧ iv cb' = VerdictNone) ∧
      (v = VerdictDeny ↔ nv cb = VerdictDeny ∨ iv cb = VerdictDeny) ∧
      (byName = true ↔ nv cb = VerdictDeny ∨ nv cb = VerdictAllow ∧ iv cb ≠ VerdictDeny)
  end.
Proof.
  cbv zeta. unfold DecideAddr. set (nm := normalizeDomain name). set (a := Unmap ip).
  pose proof (first_opinion_spec (no_match, false) (decideBoth nm a) (reverse (ch_compiled c))) as H.
  assert (Hnone : ∀ cb, (decideBoth nm a cb).1 = VerdictNone →
    (if String.eqb nm "" then VerdictNone else (decideName cb nm).1) = VerdictNone ∧
    (decideIP cb a).1 = VerdictNone).
  { intros cb Hcb. by apply (decideBoth_cases nm a cb). }
  assert (Hfound : ∀ v m byName, (∃ above cb below,
      reverse (ch_compiled c) = above ++ cb :: below ∧ decideBoth nm a cb = (v, (m, byName)) ∧
      ∀ cb', cb' ∈ above → (decideBoth nm a cb').1 = VerdictNone) →
    ∃ below cb above, ch_compiled c = below ++ cb :: above ∧
      (∀ cb', cb' ∈ above → (if String.eqb nm "" then VerdictNone else (decideName cb' nm).1)
        = VerdictNone ∧ (decideIP cb' a).1 = VerdictNone) ∧
      (v = VerdictDeny ↔ (if String.eqb nm "" then VerdictNone else (decideName cb nm).1) = VerdictDeny
        ∨ (decideIP cb a).1 = VerdictDeny) ∧
      (byName = true ↔ (if String.eqb nm "" then VerdictNone else (decideName cb nm).1) = VerdictDeny
        ∨ (if String.eqb nm "" then VerdictNone else (decideName cb nm).1) = VerdictAllow
          ∧ (decideIP cb a).1 ≠ VerdictDeny)).
  { intros v m byName (above & cb & below & Hrev & Hdec & Hab).
    exists (reverse below), cb, (reverse above). split; [|split; [|split]].
    - rewrite <- (reverse_involutive (ch_compiled c)), Hrev.
      rewrite reverse_app, reverse_cons, <- app_assoc. done.
    - intros cb' Hin. rewrite elem_of_reverse in Hin. auto.
    - pose proof (decideBoth_cases nm a cb) as Hc. rewrite Hdec in Hc. apply Hc.
    - pose proof (decideBoth_cases nm a cb) as Hc. rewrite Hdec in Hc. apply Hc. }
  destruct (first_opinion _ _ _) as [[] [m byName]]; [|by eapply Hfound..].
  intros cb Hin. apply Hnone, H. by apply elem_of_reverse.
Qed.

(** ** What an entry matches *)

(** the names an entry covers, on normalised names (lower case, no surrounding
    space, no trailing dot).  A wildcard covers the strict subdomains and never the
    apex; a bare allow covers exactly its name; a bare deny covers its name and
    every subdomain. *)
Lemma entry_coverage entry deny r name :
  compile_name entry deny = Some r →
  let p := normalizeDomain entry in
  (nameRule_match r name).1 = true ↔
  match CutPrefix p "*." with
  | Some base => ∃ sub, name = sub +:+ "." +:+ base
  | None => name = p ∨ deny = true ∧ ∃ sub, name = sub +:+ "." +:+ p
  end.
Proof.
  unfold compile_name. set (p := normalizeDomain entry).
  destruct (String.eqb p "" || String.eqb p "*."); [done|].
  destruct (CutPrefix p "*.") as [base|]; intros H; injection H as <-;
    unfold nameRule_match; cbn [nr_wildcard nr_subtree nr_pattern fst negb andb].
  - apply HasSuffix_true.
  - destruct deny.
    + destruct (String.eqb_spec name p) as [->|Hne]; cbn [fst].
      { split; [by left|done]. }
      rewrite HasSuffix_true. split; [intros [sub Hs]; right; eauto|].
      intros [Hs|[_ Hs]]; [done|exact Hs].
    + cbn [fst]. rewrite String.eqb_eq. split; [by left|]. intros [Hs|[Hs _]]; done.
Qed.

(** ** Prefixes in IPv4-mapped form *)

Lemma mapped_top_bits v w k :
  is_4in6 v = true → 0 ≤ k ≤ 32 → Z.shiftr (Z.lxor v w) k = 0 → is_4in6 w = true.
Proof.
  unfold is_4in6. intros Hv%Z.eqb_eq Hk Hx. apply Z.eqb_eq. rewrite <- Hv.
  assert (H32 : Z.shiftr (Z.lxor v w) 32 = 0).
  { replace 32 with (k + (32 - k)) by lia. rewrite <- Z.shiftr_shiftr by lia. rewrite Hx.
    apply Z.shiftr_0_l. }
  rewrite Z.shiftr_lxor in H32. apply Z.lxor_eq in H32. done.
Qed.

Lemma mapped_prefix_excludes p v z ip :
  pf_addr p = AddrV6 v z → is_4in6 v = true → 96 ≤ pf_bits p ≤ 128 →
  prefix_Contains p (Unmap ip) = false.
Proof.
  intros Hp Hv Hb. unfold prefix_Contains. rewrite Hp.
  destruct (Unmap ip) as [| |w y] eqn:Hu; [done..|].
  destruct (String.eqb y ""); [|done].
  destruct (Z.eqb_spec (Z.shiftr (Z.lxor v w) (128 - pf_bits p)) 0) as [H0|]; [|done].
  apply mapped_top_bits in H0; [|done|lia]. apply Unmap_not_mapped in Hu. congruence.
Qed.

(** a CIDR rule written in IPv4-mapped form never matches.  Exact addresses are
    unmapped when a block is compiled, and so is every destination before a
    decision; a prefix is not, so a rule such as a deny of ::ffff:10.0.0.0/104
    compiles without error and changes the block's verdict on no destination. *)
Lemma mapped_prefix_never_matches cb entry deny p v z ip :
  Contains (TrimSpace entry) "/" = true → ParsePrefix (TrimSpace entry) = Some p →
  pf_addr p = AddrV6 v z → is_4in6 v = true → 96 ≤ pf_bits p ≤ 128 →
  ∃ cb', addIPRule cb entry deny = Ok cb' ∧ decideIP cb' (Unmap ip) = decideIP cb (Unmap ip).
Proof.
  intros Hc Hpp Hp Hv Hb. unfold addIPRule. rewrite Hc, Hpp.
  destruct (String.eqb_spec (TrimSpace entry) "") as [He|_]; [by rewrite He in Hc|].
  eexists. split; [done|]. unfold decideIP. cbn [cb_ips]. rewrite pick_best_snoc.
  unfold ipRule_contains at 1. cbn [ir_exact ir_prefix].
  rewrite (mapped_prefix_excludes p v z ip) by done. done.
Qed.

(** ** Pre-resolved patterns *)

Lemma block_patterns_spec above entries out p :
  p ∈ block_patterns above entries out →
  p ∈ out ∨ apexDeniedAbove above (TrimPrefix p "*.") = false ∧
            ∃ e, e ∈ entries ∧ p = normalizeDomain e ∧ p ≠ ""%string ∧ p ≠ "*."%string.
Proof.
  revert out. induction entries as [|e entries IH]; intros out; cbn [block_patterns]; [auto|].
  set (q := normalizeDomain e).
  destruct (String.eqb_spec q ""); [|destruct (String.eqb_spec q "*.")]; cbn [orb];
    try (intros [?|(? & e' & ? & ?)]%IH; [auto|right; split; [done|exists e'; rewrite elem_of_cons; auto]]).
  case_bool_decide; cbn [orb];
    [intros [?|(? & e' & ? & ?)]%IH; [auto|right; split; [done|exists e'; rewrite elem_of_cons; auto]]|].
  destruct (apexDeniedAbove above (TrimPrefix q "*.")) eqn:Ea.
  { intros [?|(? & e' & ? & ?)]%IH; [auto|right; split; [done|exists e'; rewrite elem_of_cons; auto]]. }
  intros [Hin|(? & e' & ? & ?)]%IH;
    [|right; split; [done|exists e'; rewrite elem_of_cons; auto]].
  apply elem_of_app in Hin as [|Hq%list_elem_of_singleton]; [auto|]. subst p.
  right. split; [done|]. exists e. rewrite elem_of_cons. auto.
Qed.

Lemma block_patterns_NoDup above entries out :
  NoDup out → NoDup (block_patterns above entries out).
Proof.
  revert out. induction entries as [|e entries IH]; intros out Hnd; cbn [block_patterns]; [done|].
  set (q := normalizeDomain e). case_bool_decide as Hin; rewrite ?orb_true_r; cbn [orb]; [auto|].
  rewrite orb_false_r. destruct (_ || _ || _); [auto|]. apply IH, NoDup_app. split_and!; [done| |].
  - intros x Hx ->%list_elem_of_singleton. done.
  - apply NoDup_singleton.
Qed.

(** ** Witnesses *)

Lemma entry_coverage_witness :
  ∃ r, compile_name " *.Example.com. " false = Some r ∧
       (nameRule_match r "api.example.com").1 = true.
Proof.
  eexists. split; [by vm_compute|].
  apply (entry_coverage " *.Example.com. " false _ "api.example.com"); [by vm_compute|].
  exists "api"%string. by vm_compute.
Defined.

Lemma mapped_prefix_never_matches_witness :
  let cb := mkCompiled "policy" "lan" [] [] in
  ∃ cb', addIPRule cb "::ffff:10.0.0.0/104" true = Ok cb' ∧
         decideIP cb' (Unmap (AddrV4 0x0a010203)) = decideIP cb (Unmap (AddrV4 0x0a010203)).
Proof.
  eapply mapped_prefix_never_matches; [by vm_compute|by vm_compute|reflexivity|by vm_compute|].
  simpl. lia.
Defined.
