(* ===== verification/AllowList.v ===== *)
(** * internal/core/perimeter/netfilter: the allow list ([acl.go])

    Models [AllowList]: the decision on one connection ([Allow]), the denial ledger
    with its eviction, DNS observation, policy edits, grants and the time-boxed
    bypass.  A critical section is a function on the state.  [Allow] has two, the
    decision (read-only) and the recording of a denial: [Allow] here runs them
    back to back, and the step relation [acl_step] lets any other operation come
    between.  A clock reading is an argument, the hooks [OnDenial] and [OnEgress]
    are events, and the order in which Go iterates over the denial map is an
    argument of the eviction.  The refresh goroutine is the operation
    [refreshDomains] over the answers of the resolver and the chain it started
    from.  The texts of errors omit the quotes [%q] adds. *)

From stdpp Require Import prelude countable gmap strings list sorting pretty.
From Stdlib Require Import ZArith Ascii Lia.
From S2P Require Import Prelude GoStrings GoNet Chain.

Definition originCustom : string := "custom".
Definition maxObservedNames : Z := 4096.
Definition maxDenialHosts : Z := 256.

Record Denial := mkDenial {
  d_Host : string;
  d_IP : string;
  d_Port : string;
  d_Count : Z;
  d_FirstSeen : Time;
  d_LastSeen : Time;
  d_Rule : string;
}.

Record AllowList := mkAllowList {
  al_chain : Chain;
  al_resolved : gmap Addr string;
  al_observed : gmap Addr string;
  al_granted : gset Addr;
  al_allowAllUntil : Time;
  al_lastName : gmap Addr string;
  al_denials : gmap string Denial;
}.

Inductive AclEvent :=
| OnDenial (d : Denial)
| OnEgress (host verdict reason : string) (ts : Time).

Definition set_chain (c : Chain) (al : AllowList) : AllowList :=
  mkAllowList c (al_resolved al) (al_observed al) (al_granted al) (al_allowAllUntil al)
    (al_lastName al) (al_denials al).
Definition set_resolved (r : gmap Addr string) (al : AllowList) : AllowList :=
  mkAllowList (al_chain al) r (al_observed al) (al_granted al) (al_allowAllUntil al)
    (al_lastName al) (al_denials al).
Definition set_observed (o : gmap Addr string) (al : AllowList) : AllowList :=
  mkAllowList (al_chain al) (al_resolved al) o (al_granted al) (al_allowAllUntil al)
    (al_lastName al) (al_denials al).
Definition set_granted (g : gset Addr) (al : AllowList) : AllowList :=
  mkAllowList (al_chain al) (al_resolved al) (al_observed al) g (al_allowAllUntil al)
    (al_lastName al) (al_denials al).
Definition set_until (t : Time) (al : AllowList) : AllowList :=
  mkAllowList (al_chain al) (al_resolved al) (al_observed al) (al_granted al) t
    (al_lastName al) (al_denials al).
Definition set_lastName (l : gmap Addr string) (al : AllowList) : AllowList :=
  mkAllowList (al_chain al) (al_resolved al) (al_observed al) (al_granted al) (al_allowAllUntil al)
    l (al_denials al).
Definition set_denials (d : gmap string Denial) (al : AllowList) : AllowList :=
  mkAllowList (al_chain al) (al_resolved al) (al_observed al) (al_granted al) (al_allowAllUntil al)
    (al_lastName al) d.

(** ** Construction *)

Definition empty_chain : Chain := mkChain [] [].

Definition NewAllowListFromChain (c : option Chain) : AllowList :=
  mkAllowList (default empty_chain c) ∅ ∅ ∅ zero_time ∅ ∅.

Definition NewAllowList (ips cidrs domains : list string) : result string AllowList :=
  let* c := NewChain [mkBlock originCustom "" domains [] (ips ++ cidrs) []] in
  Ok (NewAllowListFromChain (Some c)).

Fixpoint SplitEntries (entries : list string) : list string * list string :=
  match entries with
  | [] => ([], [])
  | e :: entries =>
      let '(ips, cidrs) := SplitEntries entries in
      let e := TrimSpace e in
      if String.eqb e "" then (ips, cidrs)
      else if Contains e "/" then (ips, e :: cidrs) else (e :: ips, cidrs)
  end.

(** ** Policy edits *)

Definition name_allowed (c : Chain) (name : string) : Prop := (DecideName c name).1 = VerdictAllow.
#[global] Instance name_allowed_dec c name : Decision (name_allowed c name).
Proof. unfold name_allowed. apply _. Defined.

(** Installs a chain and drops the observed entries it no longer allows. *)
Definition setChainLocked (c : Chain) (al : AllowList) : AllowList :=
  set_observed (filter (λ an, name_allowed c an.2) (al_observed al)) (set_chain c al).

Definition SetChain (c : option Chain) (al : AllowList) : AllowList :=
  setChainLocked (default empty_chain c) al.

(** Position of the highest custom block. *)
Definition lastCustomIdx (blocks : list Block) : option nat :=
  match list_find (λ b, b_Origin b = originCustom) (reverse blocks) with
  | Some (i, _) => Some (length blocks - 1 - i)%nat
  | None => None
  end.

Definition mutateCustomLocked (fn : Block → Block) (al : AllowList) : result string AllowList :=
  let blocks := ch_blocks (al_chain al) in
  let blocks := match lastCustomIdx blocks with
                | Some i => alter fn i blocks
                | None => blocks ++ [fn (mkBlock originCustom "" [] [] [] [])]
                end in
  let* c := NewChain blocks in
  Ok (setChainLocked c al).

(** On an error the previous chain stays installed. *)
Definition or_unchanged (al : AllowList) (r : result string AllowList)
    : AllowList * result string unit :=
  match r with Ok al' => (al', Ok tt) | Err e => (al, Err e) end.

Definition SetPolicy (ips cidrs domains : list string) (al : AllowList)
    : AllowList * result string unit :=
  or_unchanged al (mutateCustomLocked
    (λ b, mkBlock (b_Origin b) (b_Name b) domains (b_DenyDomains b) (ips ++ cidrs) (b_DenyIPs b)) al).

Definition AddDomain (domain : string) (al : AllowList) : AllowList * result string unit :=
  or_unchanged al (mutateCustomLocked
    (λ b, mkBlock (b_Origin b) (b_Name b) (b_AllowDomains b ++ [domain]) (b_DenyDomains b)
            (b_AllowIPs b) (b_DenyIPs b)) al).

Definition clean_domains (domains : list string) : list string :=
  filter (λ d, d ≠ ""%string) ((λ d, TrimSuffix (TrimSpace d) ".") <$> domains).

Definition SetDeniedDomains (domains : list string) (al : AllowList) : AllowList :=
  (or_unchanged al (mutateCustomLocked
    (λ b, mkBlock (b_Origin b) (b_Name b) (b_AllowDomains b) (clean_domains domains)
            (b_AllowIPs b) (b_DenyIPs b)) al)).1.

Definition DeniedDomains (al : AllowList) : list string :=
  match lastCustomIdx (ch_blocks (al_chain al)) with
  | Some i => match ch_blocks (al_chain al) !! i with Some b => b_DenyDomains b | None => [] end
  | None => []
  end.

(** [now] is the clock at the call. *)
Definition AllowAllFor (now : Time) (d : Duration) (al : AllowList) : AllowList :=
  set_until (if d <=? 0 then zero_time else now + d) al.

Definition AllowAllUntil (now : Time) (al : AllowList) : Time :=
  if IsZero (al_allowAllUntil al) || negb (Before now (al_allowAllUntil al)) then zero_time
  else al_allowAllUntil al.

Definition grant (ip : Addr) (al : AllowList) : AllowList :=
  set_granted ({[ip]} ∪ al_granted al) al.

(** ** The denial ledger *)

(** The eviction loop over the ledger in iteration order [order]. *)
Fixpoint oldest_denial (order : list (string * Denial)) (oldest : string) (seen : Time) : string :=
  match order with
  | [] => oldest
  | (host, d) :: order =>
      if String.eqb oldest "" || Before (d_LastSeen d) seen
      then oldest_denial order host (d_LastSeen d)
      else oldest_denial order oldest seen
  end.

Definition evictOldestDenialLocked (order : list (string * Denial)) (al : AllowList) : AllowList :=
  set_denials (delete (oldest_denial order "" zero_time) (al_denials al)) al.

Definition str_of_map (m : gmap Addr string) (ip : Addr) : string := default ""%string (m !! ip).

(** [order] is the order in which Go iterates over the ledger, should it evict. *)
Definition recordDenial (order : gmap string Denial → list (string * Denial)) (now : Time)
    (ip : Addr) (port rule : string) (al : AllowList) : AllowList * Denial * list AclEvent :=
  let n := str_of_map (al_lastName al) ip in
  let host := if String.eqb n "" then Addr_String ip else n in
  let '(al, d, fresh) :=
    match al_denials al !! host with
    | Some d => (al, d, false)
    | None =>
        let al := if maxDenialHosts <=? Z.of_nat (size (al_denials al))
                  then evictOldestDenialLocked (order (al_denials al)) al else al in
        (al, mkDenial host "" "" 0 now zero_time "", true)
    end in
  let d := mkDenial (d_Host d) (Addr_String ip) port (d_Count d + 1) (d_FirstSeen d) now rule in
  (set_denials (<[host := d]> (al_denials al)) al, d, if fresh then [OnDenial d] else []).

(** Most recent first, ties by host. *)
Definition denial_le (a b : Denial) : Prop :=
  d_LastSeen b < d_LastSeen a ∨
  d_LastSeen a = d_LastSeen b ∧ String.leb (d_Host a) (d_Host b) = true.
#[global] Instance denial_le_dec : RelDecision denial_le.
Proof. intros a b. unfold denial_le. apply _. Defined.

Definition Denials (al : AllowList) : list Denial :=
  merge_sort denial_le ((map_to_list (al_denials al)).*2).

(** ** The decision *)

Definition deny (order : gmap string Denial → list (string * Denial)) (now : Time) (ip : Addr)
    (port : string) (m : option Match) (al : AllowList)
    : AllowList * result string unit * list AclEvent :=
  let '(rule, reason) := match m with
                         | Some m => (Match_String m, "blocked by deny list"%string)
                         | None => (""%string, "not in allow list"%string)
                         end in
  let '(al, d, ev) := recordDenial order now ip port rule al in
  let text := if String.eqb (d_Host d) (d_IP d)
              then "destination " +:+ Addr_String ip +:+ " " +:+ reason
              else "destination " +:+ d_Host d +:+ " (" +:+ Addr_String ip +:+ ") " +:+ reason in
  (al, Err text, ev ++ [OnEgress (d_Host d) "deny" reason now]).

Definition bypassed (now : Time) (al : AllowList) : bool :=
  negb (IsZero (al_allowAllUntil al)) && Before now (al_allowAllUntil al).

(** The name a connection is attributed to: the last DNS answer for its address,
    else the name the resolver found it under. *)
Definition attributed_name (ip : Addr) (al : AllowList) : string :=
  let n := str_of_map (al_lastName al) ip in
  if String.eqb n "" then str_of_map (al_resolved al) ip else n.

Definition split_addr (addr : string) : string * string :=
  default (addr, ""%string) (SplitHostPort addr).

Definition Allow (order : gmap string Denial → list (string * Denial)) (now : Time) (addr : string)
    (al : AllowList) : AllowList * result string unit * list AclEvent :=
  let '(host, port) := split_addr addr in
  match ParseAddr host with
  | None => (al, Err ("destination " +:+ addr +:+ " is not a literal IP"), [])
  | Some ip =>
      let ip := Unmap ip in
      let name := attributed_name ip al in
      let displayHost := if String.eqb name "" then host else name in
      let permit reason := (al, Ok tt, [OnEgress displayHost "allow" reason now]) in
      if bypassed now al then permit "open egress bypass"%string
      else
        let '(v, (m, byName)) := DecideAddr (al_chain al) name ip in
        let rest :=
          if bool_decide (ip ∈ al_granted al) then permit "runtime grant"%string
          else match v with
          | VerdictDeny => deny order now ip port (Some m) al
          | VerdictAllow => permit "allowed by ip policy"%string
          | VerdictNone =>
              if bool_decide (is_Some (al_observed al !! ip)) ||
                 bool_decide (is_Some (al_resolved al !! ip))
              then permit "dns-observed"%string
              else deny order now ip port None al
          end in
        if (byName : bool) then
          match v with
          | VerdictDeny => deny order now ip port (Some m) al
          | VerdictAllow => permit "allowed by domain policy"%string
          | VerdictNone => rest
          end
        else rest
  end.

(** ** DNS *)

(** The answers of the resolver ([None] for a failure) for the apex of each pattern. *)
Definition resolve_patterns (lookup_ip : string → option (list Addr)) (patterns : list string)
    : gmap Addr string :=
  let add (acc : gmap Addr string) (pattern : string) :=
    let host := TrimPrefix pattern "*." in
    match lookup_ip host with
    | None => acc
    | Some ips => fold_left (λ acc ip, <[Unmap ip := host]> acc) ips acc
    end in
  fold_left add patterns ∅.

(** [chain] is the one installed when the refresh began: the lock is not held while
    the resolver runs. *)
Definition refreshDomains (lookup_ip : string → option (list Addr)) (chain : Chain) (al : AllowList)
    : AllowList :=
  set_resolved (resolve_patterns lookup_ip (AllowDomainPatterns chain)) al.

Definition ObserveDNSAnswer (name : string) (ip : bytes) (al : AllowList) : AllowList :=
  let name := TrimSuffix name "." in
  match AddrFromSlice ip with
  | None => al
  | Some addr =>
      let addr := Unmap addr in
      let last := if maxObservedNames <=? Z.of_nat (size (al_lastName al)) then ∅
                  else al_lastName al in
      let al := set_lastName (<[addr := name]> last) al in
      if bool_decide (name_allowed (al_chain al) name)
      then set_observed (<[addr := name]> (al_observed al)) al else al
  end.

Definition Size (al : AllowList) : Z * Z :=
  let '(exact, prefixes) := allowIPCounts (al_chain al) in
  (exact + Z.of_nat (size (al_resolved al)) + Z.of_nat (size (al_observed al)) +
   Z.of_nat (size (al_granted al)), prefixes).


(** ** What decides a connection *)

Lemma deny_frame order now ip port m al :
  ∃ ds text ev, deny order now ip port m al = (set_denials ds al, Err text, ev).
Proof.
  unfold deny, recordDenial. destruct (al_denials al !! _).
  - destruct m; eauto.
  - destruct (maxDenialHosts <=? _); destruct m; eexists _, _, _; reflexivity.
Qed.

(** C27: when a connection is permitted.  A destination that is not a literal address is
    refused.  Outside an open bypass window an address passes exactly if the chain
    allows it, or an explicit grant covers it and no name rule denies it, or the
    chain has no opinion and its address comes from a DNS answer (observed or
    resolved) for an allowed name: the filter is fail-closed, a deny by name cannot
    be overridden by a grant, a deny by address only by a grant, never by DNS.  A
    decision leaves the policy and the DNS state alone, and a permitted
    connection leaves the ledger alone too. *)
Theorem Allow_permits_exactly order now addr al :
  let '(al', r, _) := Allow order now addr al in
  (∃ ds, al' = set_denials ds al) ∧ (is_ok r = true → al' = al) ∧
  match ParseAddr (split_addr addr).1 with
  | None => is_ok r = false ∧ al' = al
  | Some ip0 =>
      let ip := Unmap ip0 in
      let '(v, (_, byName)) := DecideAddr (al_chain al) (attributed_name ip al) ip in
      is_ok r = true ↔
        bypassed now al = true ∨
        v = VerdictAllow ∨
        (ip ∈ al_granted al ∧ ¬ (v = VerdictDeny ∧ byName = true)) ∨
        (v = VerdictNone ∧ (is_Some (al_observed al !! ip) ∨ is_Some (al_resolved al !! ip)))
  end.
Proof.
  unfold Allow. destruct (split_addr addr) as [host port]. cbn [fst].
  assert (Hself : al = set_denials (al_denials al) al) by (by destruct al).
  destruct (ParseAddr host) as [ip0|]; [|split_and!; eauto; done]. cbv zeta.
  set (ip := Unmap ip0). destruct (DecideAddr _ _ _) as [v [m byName]] eqn:Hd.
  destruct (bypassed now al) eqn:Hb; [split_and!; eauto; naive_solver|].
  assert (Hn : v = VerdictNone → byName = false).
  { intros ->. unfold DecideAddr in Hd.
    pose proof (first_opinion_spec (no_match, false)
      (decideBoth (normalizeDomain (attributed_name ip al)) (Unmap ip))
      (reverse (ch_compiled (al_chain al)))) as H.
    rewrite Hd in H. destruct H as [H _]. by simplify_eq. }
  destruct (deny_frame order now ip port (Some m) al) as (ds1 & t1 & e1 & ->).
  destruct (deny_frame order now ip port None al) as (ds2 & t2 & e2 & ->).
  repeat case_bool_decide; destruct v, byName; try (by specialize (Hn eq_refl)); cbn [orb is_ok];
    (split; [eauto|split; [done|]]); naive_solver.
Qed.

(** ** Eviction *)

(** A ledger well-formed: keyed by host, never the empty one, and counting. *)
Definition denials_wf (m : gmap string Denial) : Prop :=
  map_Forall (λ host d, host ≠ ""%string ∧ d_Host d = host ∧ 1 ≤ d_Count d) m.

(** The loop keeps an entry of the map that is no younger than those it has passed. *)
Lemma oldest_denial_from order oldest d0 :
  oldest ≠ ""%string → Forall (λ hd, hd.1 ≠ ""%string) order →
  ∃ d, (oldest_denial order oldest (d_LastSeen d0), d) ∈ (oldest, d0) :: order ∧
       Forall (λ hd, d_LastSeen d ≤ d_LastSeen hd.2) ((oldest, d0) :: order).
Proof.
  revert oldest d0. induction order as [|[h d] order IH]; intros oldest d0 Hne Hall; simpl.
  { exists d0. rewrite list_elem_of_singleton. split; [done|]. by repeat constructor. }
  apply Forall_cons in Hall as [Hh Hall]. simpl in Hh.
  destruct (String.eqb_spec oldest ""); [done|]. cbn [orb]. unfold Before.
  destruct (d_LastSeen d <? d_LastSeen d0) eqn:Hlt; reflect_bools.
  - destruct (IH h d Hh Hall) as (d' & Hin & Hmin). exists d'. split.
    { rewrite elem_of_cons. by right. }
    pose proof (Forall_inv Hmin) as Hm; simpl in Hm. constructor; [simpl; lia|done].
  - destruct (IH oldest d0 Hne Hall) as (d' & Hin & Hmin). exists d'. split.
    { rewrite !elem_of_cons in *. tauto. }
    apply Forall_cons in Hmin as [Hm Hmin]; simpl in Hm. constructor; [done|]. constructor; [simpl; lia|done].
Qed.

(** Whatever the iteration order, the entry evicted is one least recently seen. *)
Lemma oldest_denial_least (m : gmap string Denial) order :
  denials_wf m → m ≠ ∅ → order ≡ₚ map_to_list m →
  ∃ d, m !! oldest_denial order "" zero_time = Some d ∧
       map_Forall (λ _ d', d_LastSeen d ≤ d_LastSeen d') m.
Proof.
  intros Hwf Hne Hp.
  assert (Hin : ∀ h d, (h, d) ∈ order ↔ m !! h = Some d).
  { intros h d. by rewrite Hp, elem_of_map_to_list. }
  assert (Hall : Forall (λ hd, hd.1 ≠ ""%string) order).
  { apply Forall_forall. intros [h d] Hh%Hin. by apply (Hwf h d). }
  destruct order as [|[h d0] order].
  { symmetry in Hp. apply Permutation_nil_r in Hp. by apply map_to_list_empty_iff in Hp. }
  cbn [oldest_denial]. rewrite String.eqb_refl. cbn [orb].
  apply Forall_cons in Hall as [Hh Hall].
  destruct (oldest_denial_from order h d0 Hh Hall) as (d & Hd%Hin & Hmin).
  exists d. split; [done|]. intros h' d' Hh'%Hin.
  rewrite Forall_forall in Hmin. by apply (Hmin (h', d')).
Qed.

(** ** The invariant *)

(** Go may iterate over the ledger in any order. *)
Definition iteration_order (order : gmap string Denial → list (string * Denial)) : Prop :=
  ∀ m, order m ≡ₚ map_to_list m.

Record acl_inv (al : AllowList) : Prop := {
  inv_chain : compile_blocks (ch_blocks (al_chain al)) = Ok (ch_compiled (al_chain al));
  inv_observed : map_Forall (λ _ name, name_allowed (al_chain al) name) (al_observed al);
  inv_lastName : Z.of_nat (size (al_lastName al)) ≤ maxObservedNames;
  inv_denials : denials_wf (al_denials al);
  inv_denials_size : Z.of_nat (size (al_denials al)) ≤ maxDenialHosts;
}.

Lemma NewChain_compiled blocks c :
  NewChain blocks = Ok c → ch_blocks c = blocks ∧ compile_blocks blocks = Ok (ch_compiled c).
Proof.
  unfold NewChain. destruct (compile_blocks blocks) as [cbs|]; simpl; [|done].
  intros H; by injection H as <-.
Qed.

Definition chain_ok (c : Chain) : Prop := compile_blocks (ch_blocks c) = Ok (ch_compiled c).

Lemma setChainLocked_inv c al : chain_ok c → acl_inv al → acl_inv (setChainLocked c al).
Proof.
  intros Hc [??? ? ?]. constructor; cbn; try done.
  intros ip name [_ H]%map_lookup_filter_Some. exact H.
Qed.

Lemma mutateCustomLocked_inv fn al :
  acl_inv al → acl_inv (or_unchanged al (mutateCustomLocked fn al)).1.
Proof.
  intros Hal. unfold or_unchanged, mutateCustomLocked.
  set (bs := match lastCustomIdx _ with Some _ => _ | None => _ end).
  destruct (NewChain bs) as [c|] eqn:Hc; simpl; [|done].
  apply NewChain_compiled in Hc as [<- Hc]. by apply setChainLocked_inv.
Qed.

Lemma map_size_insert_le {K A} `{Countable K} (m : gmap K A) k x :
  (size (<[k := x]> m) ≤ S (size m))%nat.
Proof. rewrite map_size_insert. destruct (m !! k); simpl; lia. Qed.

Lemma ObserveDNSAnswer_inv name ip al : acl_inv al → acl_inv (ObserveDNSAnswer name ip al).
Proof.
  intros [Hc Ho Hl Hd Hs]. unfold ObserveDNSAnswer. set (n := TrimSuffix name ".").
  destruct (AddrFromSlice ip) as [a|]; [|done]. cbv zeta.
  set (last := if maxObservedNames <=? Z.of_nat (size (al_lastName al)) then ∅ else al_lastName al).
  assert (Hlast : Z.of_nat (size (<[Unmap a:=n]> last)) ≤ maxObservedNames).
  { pose proof (map_size_insert_le last (Unmap a) n) as Hins.
    assert (Z.of_nat (size last) < maxObservedNames); [|lia]. subst last.
    destruct (maxObservedNames <=? _) eqn:E; reflect_bools; [by rewrite map_size_empty|lia]. }
  case_bool_decide as Hn; constructor; cbn; try done.
  apply map_Forall_insert_2; done.
Qed.

(** The ledger after recording: the host's entry counted up, one entry evicted if the
    host is new and the ledger full. *)
Lemma recordDenial_inv order now ip port rule al :
  iteration_order order → acl_inv al → acl_inv (recordDenial order now ip port rule al).1.1.
Proof.
  intros Hord [Hc Ho Hl Hd Hs]. unfold recordDenial.
  set (n := str_of_map _ ip). set (host := if String.eqb n "" then _ else _).
  assert (Hhost : host ≠ ""%string).
  { subst host. destruct (String.eqb_spec n ""); [apply Addr_String_nonempty|done]. }
  destruct (al_denials al !! host) as [d|] eqn:Hh.
  - destruct (Hd host d Hh) as (_ & Hhd & Hcnt). constructor; cbn; try done.
    + apply map_Forall_insert_2; [cbn; split_and!; [done|done|lia]|done].
    + by rewrite map_size_insert, Hh.
  - destruct (maxDenialHosts <=? _) eqn:E; reflect_bools; constructor; cbn; try done.
    + apply map_Forall_insert_2; [done|]. by apply map_Forall_delete.
    + assert (al_denials al ≠ ∅) as Hne.
      { intros He. rewrite He, map_size_empty in E. unfold maxDenialHosts in E. lia. }
      destruct (oldest_denial_least (al_denials al) (order (al_denials al))) as (d & Hd1 & _); try done.
      pose proof (map_size_insert_le (delete (oldest_denial (order (al_denials al)) "" zero_time)
        (al_denials al)) host (mkDenial host (Addr_String ip) port (0 + 1) now now rule)) as H1.
      rewrite map_size_delete, Hd1 in H1. simpl in H1. unfold maxDenialHosts in *. lia.
    + by apply map_Forall_insert_2.
    + rewrite map_size_insert, Hh. lia.
Qed.

(** ** Reachable states *)

(** The operations, each one critical section.  A denial may be recorded against a
    state later than the one it was decided on, and a refresh may install what it
    resolved for a chain since replaced. *)
Inductive acl_step : AllowList → AllowList → Prop :=
| step_SetChain c al :
    chain_ok (default empty_chain c) → acl_step al (SetChain c al)
| step_SetPolicy ips cidrs domains al : acl_step al (SetPolicy ips cidrs domains al).1
| step_AddDomain d al : acl_step al (AddDomain d al).1
| step_SetDeniedDomains ds al : acl_step al (SetDeniedDomains ds al)
| step_AllowAllFor now d al : acl_step al (AllowAllFor now d al)
| step_grant ip al : acl_step al (grant ip al)
| step_refresh lookup_ip c al : acl_step al (refreshDomains lookup_ip c al)
| step_observe name ip al : acl_step al (ObserveDNSAnswer name ip al)
| step_deny order now ip port rule al :
    iteration_order order → acl_step al (recordDenial order now ip port rule al).1.1.

Lemma acl_step_inv al al' : acl_step al al' → acl_inv al → acl_inv al'.
Proof.
  intros [] Hal; try by (destruct Hal; constructor).
  - by apply setChainLocked_inv.
  - by apply mutateCustomLocked_inv.
  - by apply mutateCustomLocked_inv.
  - by apply mutateCustomLocked_inv.
  - by apply ObserveDNSAnswer_inv.
  - by apply recordDenial_inv.
Qed.

Lemma NewAllowListFromChain_inv c :
  chain_ok (default empty_chain c) → acl_inv (NewAllowListFromChain c).
Proof. intros Hc. by constructor. Qed.

(** from construction on, whatever operations run in whatever order, the installed
    chain is the compilation of its blocks, every observed address is justified by a
    name the installed chain allows (a policy change revokes the others at once),
    the map of DNS answers holds at most 4096 entries and the ledger at most 256,
    keyed by host, each entry counting at least one refusal. *)
Lemma acl_invariant c al :
  chain_ok (default empty_chain c) → rtc acl_step (NewAllowListFromChain c) al → acl_inv al.
Proof.
  intros Hc Hsteps. remember (NewAllowListFromChain c) as al0 eqn:H0.
  assert (Hinv : acl_inv al0) by (subst; by apply NewAllowListFromChain_inv). clear H0.
  induction Hsteps; eauto using acl_step_inv.
Qed.

(** ** Edits of domains cannot fail *)

Definition ip_entry_ok (e : string) : bool :=
  let e := TrimSpace e in
  String.eqb e "" ||
  (if Contains e "/" then bool_decide (is_Some (ParsePrefix e)) else bool_decide (is_Some (ParseAddr e))).

Lemma addIPRule_ok cb e d : is_ok (addIPRule cb e d) = ip_entry_ok e.
Proof.
  unfold addIPRule, ip_entry_ok. destruct (String.eqb _ ""); [done|]. cbn [orb].
  destruct (Contains _ "/"); [destruct (ParsePrefix _)|destruct (ParseAddr _)]; done.
Qed.

Lemma addIPRules_ok es d : ∀ cb, is_ok (addIPRules cb es d) = forallb ip_entry_ok es.
Proof.
  induction es as [|e es IH]; intros cb; cbn [addIPRules forallb]; [done|].
  rewrite <- (addIPRule_ok cb e d). destruct (addIPRule cb e d); simpl; [apply IH|done].
Qed.

Definition block_ok (b : Block) : Prop :=
  forallb ip_entry_ok (b_AllowIPs b) = true ∧ forallb ip_entry_ok (b_DenyIPs b) = true.

Lemma compile_block_ok b : is_ok (compile_block b) = true ↔ block_ok b.
Proof.
  unfold compile_block, block_ok. cbv zeta.
  set (cb := fold_left _ (b_DenyDomains b) _).
  rewrite <- (addIPRules_ok (b_AllowIPs b) false cb).
  destruct (addIPRules cb (b_AllowIPs b) false) as [cb'|]; simpl; [|naive_solver].
  rewrite addIPRules_ok. tauto.
Qed.

Lemma compile_blocks_ok bs : is_ok (compile_blocks bs) = true ↔ Forall block_ok bs.
Proof.
  induction bs as [|b bs IH]; simpl; [by split|]. rewrite Forall_cons, <- IH, <- compile_block_ok.
  destruct (compile_block b); simpl; [|naive_solver]. destruct (compile_blocks bs); simpl; naive_solver.
Qed.

(** An edit that keeps a block's origin and its addresses. *)
Definition domain_edit (fn : Block → Block) : Prop :=
  ∀ b, b_Origin (fn b) = b_Origin b ∧ b_AllowIPs (fn b) = b_AllowIPs b ∧ b_DenyIPs (fn b) = b_DenyIPs b.

Definition custom_block : Block := mkBlock originCustom "" [] [] [] [].

Lemma lastCustomIdx_origins bs bs' :
  b_Origin <$> bs = b_Origin <$> bs' → lastCustomIdx bs = lastCustomIdx bs'.
Proof.
  intros H. unfold lastCustomIdx.
  assert (Hlen : length bs = length bs') by (apply (f_equal length) in H; by rewrite !length_fmap in H).
  assert (Hf : ∀ l, fst <$> list_find (λ b, b_Origin b = originCustom) (reverse l)
                  = fst <$> list_find (λ o, o = originCustom) (reverse (b_Origin <$> l))).
  { intros l. rewrite <- fmap_reverse, list_find_fmap.
    unfold compose. by destruct (list_find _ (reverse l)) as [[]|]. }
  pose proof (Hf bs) as H1. pose proof (Hf bs') as H2. rewrite H, <- H2 in H1. rewrite Hlen.
  destruct (list_find _ (reverse bs)) as [[i ?]|], (list_find _ (reverse bs')) as [[j ?]|];
    by simplify_eq/=.
Qed.

Lemma lastCustomIdx_Some bs i :
  lastCustomIdx bs = Some i → ∃ b, bs !! i = Some b ∧ b_Origin b = originCustom.
Proof.
  unfold lastCustomIdx. destruct (list_find _ (reverse bs)) as [[j b]|] eqn:E; [|done].
  intros H. simplify_eq. apply list_find_Some in E as (Hl & Ho & _).
  rewrite reverse_lookup in Hl by (rewrite <- length_reverse; by eapply lookup_lt_Some).
  exists b. split; [|done]. rewrite <- Hl. f_equal. lia.
Qed.

Lemma lastCustomIdx_snoc bs b :
  b_Origin b = originCustom → lastCustomIdx (bs ++ [b]) = Some (length bs).
Proof.
  intros Hb. unfold lastCustomIdx. rewrite reverse_snoc, length_app. cbn [list_find length].
  rewrite decide_True by done. f_equal. lia.
Qed.

(** The edited block is again the one the flat API operates on. *)
Lemma mutateCustomLocked_domains fn al :
  acl_inv al → domain_edit fn →
  ∃ c i b, mutateCustomLocked fn al = Ok (setChainLocked c al) ∧
    lastCustomIdx (ch_blocks c) = Some i ∧ ch_blocks c !! i = Some (fn b) ∧
    (lastCustomIdx (ch_blocks (al_chain al)) = None ∧ b = custom_block ∨
     lastCustomIdx (ch_blocks (al_chain al)) = Some i ∧ ch_blocks (al_chain al) !! i = Some b).
Proof.
  intros [Hc _ _ _ _] Hfn. unfold mutateCustomLocked. set (bs := ch_blocks (al_chain al)) in *.
  assert (Hok : Forall block_ok bs).
  { apply compile_blocks_ok. by rewrite Hc. }
  assert (Hnew : ∀ bs', Forall block_ok bs' → ∃ c, NewChain bs' = Ok c ∧ ch_blocks c = bs').
  { intros bs' Hbs'%compile_blocks_ok. unfold NewChain.
    destruct (compile_blocks bs') as [cbs|]; [|done]. by eexists. }
  destruct (lastCustomIdx bs) as [i|] eqn:Hi.
  - destruct (lastCustomIdx_Some _ _ Hi) as (b & Hb & _).
    destruct (Hnew (alter fn i bs)) as (c & Hnc & Hcb).
    { apply Forall_alter; [done|]. intros x _. unfold block_ok.
      destruct (Hfn x) as (_ & -> & ->). done. }
    exists c, i, b. cbv zeta. rewrite Hnc, Hcb. split_and!; [done| | |by right].
    + rewrite <- Hi. apply lastCustomIdx_origins.
      rewrite (list_fmap_alter _ _ id) by (apply Forall_true; intros; apply Hfn).
      apply list_eq. intros j. rewrite list_lookup_alter. case_decide; [|done].
      subst. by rewrite option_fmap_id.
    + by rewrite list_lookup_alter_eq, Hb.
  - destruct (Hnew (bs ++ [fn custom_block])) as (c & Hnc & Hcb).
    { apply Forall_app. split; [done|]. apply Forall_singleton. unfold block_ok.
      destruct (Hfn custom_block) as (_ & -> & ->). done. }
    exists c, (length bs), custom_block. cbv zeta. fold custom_block. rewrite Hnc, Hcb.
    split_and!; [done| | |by left].
    + apply lastCustomIdx_snoc. by destruct (Hfn custom_block) as (-> & _).
    + by rewrite lookup_app_r, Nat.sub_diag by done.
Qed.

(** an edit of domains always takes effect.  In a reachable state [SetDeniedDomains],
    which discards the recompilation's error, installs exactly the cleaned list, and
    [AddDomain] never fails: it installs the new entry after those already there.
    Either way the block's other lists stay. *)
Lemma domain_edits_take_effect ds d al :
  acl_inv al →
  DeniedDomains (SetDeniedDomains ds al) = clean_domains ds ∧
  (AddDomain d al).2 = Ok tt ∧
  DeniedDomains (AddDomain d al).1 = DeniedDomains al ∧
  ∃ i b, ch_blocks (al_chain (AddDomain d al).1) !! i = Some b ∧ b_Origin b = originCustom ∧
         last (b_AllowDomains b) = Some d.
Proof.
  intros Hinv. split.
  - unfold SetDeniedDomains.
    destruct (mutateCustomLocked_domains (λ b, mkBlock (b_Origin b) (b_Name b) (b_AllowDomains b)
      (clean_domains ds) (b_AllowIPs b) (b_DenyIPs b)) al) as (c & i & b & -> & Hi & Hl & _);
      [done|by intros b|].
    unfold DeniedDomains. cbn [or_unchanged fst al_chain setChainLocked set_observed set_chain].
    by rewrite Hi, Hl.
  - unfold AddDomain.
    destruct (mutateCustomLocked_domains (λ b, mkBlock (b_Origin b) (b_Name b)
      (b_AllowDomains b ++ [d]) (b_DenyDomains b) (b_AllowIPs b) (b_DenyIPs b)) al)
      as (c & i & b & -> & Hi & Hl & Hold); [done|by intros b|].
    unfold DeniedDomains. cbn [or_unchanged fst snd al_chain setChainLocked set_observed set_chain].
    rewrite Hi, Hl. split; [done|]. split.
    + destruct Hold as [[-> ->]|[-> ->]]; done.
    + destruct (lastCustomIdx_Some _ _ Hi) as (b' & Hl' & Ho).
      rewrite Hl in Hl'. injection Hl' as <-. eexists _, _. split; [exact Hl|].
      split; [exact Ho|]. cbn. by rewrite last_snoc.
Qed.

(** ** The attribution map reset *)

(** A deny by name refuses, grants or not. *)
Lemma Allow_named_deny order now addr al ip m :
  ParseAddr (split_addr addr).1 = Some ip → bypassed now al = false →
  DecideAddr (al_chain al) (attributed_name (Unmap ip) al) (Unmap ip) = (VerdictDeny, (m, true)) →
  is_ok (Allow order now addr al).1.2 = false.
Proof.
  intros Hp Hb Hd. unfold Allow. destruct (split_addr addr) as [host port]. simpl in Hp.
  rewrite Hp. cbv zeta. rewrite Hb, Hd.
  destruct (deny_frame order now (Unmap ip) port (Some m) al) as (? & ? & ? & ->). done.
Qed.

Lemma first_opinion_address c ip :
  (first_opinion (no_match, false) (decideBoth "" ip) c).1 =
  (first_opinion no_match (λ cb, decideIP cb ip) c).1 ∧
  (first_opinion (no_match, false) (decideBoth "" ip) c).2.2 = false.
Proof.
  induction c as [|cb c [IH1 IH2]]; cbn [first_opinion]; [done|].
  unfold decideBoth at 1 3. cbn [String.eqb].
  destruct (decideIP cb ip) as [[] m]; case_bool_decide; done.
Qed.

(** Without a name the address rules alone decide. *)
Lemma DecideAddr_unnamed c ip :
  (DecideAddr c "" ip).1 = (DecideIP c ip).1 ∧ (DecideAddr c "" ip).2.2 = false.
Proof. apply first_opinion_address. Qed.

Lemma observe_resets name b a ip al :
  maxObservedNames ≤ Z.of_nat (size (al_lastName al)) → AddrFromSlice b = Some a → Unmap a ≠ ip →
  let al' := ObserveDNSAnswer name b al in
  al_lastName al' !! ip = None ∧ al_resolved al' = al_resolved al ∧ al_chain al' = al_chain al ∧
  al_granted al' = al_granted al.
Proof.
  intros Hs Hb Hne. unfold ObserveDNSAnswer. rewrite Hb. apply Z.leb_le in Hs. rewrite Hs. cbv zeta.
  case_bool_decide; cbn; by rewrite lookup_insert_ne.
Qed.

(** one DNS answer can lift a deny by name.  Once the map of DNS answers is full,
    the next answer, for any name and any other address, empties it; a
    destination refused for its name is then judged by its address alone, and is
    permitted if some block allows the address.  The map thus decides connections
    and does not only attribute denials. *)
Lemma full_name_map_lifts_named_deny order now addr ip name b a al :
  maxObservedNames ≤ Z.of_nat (size (al_lastName al)) →
  ParseAddr (split_addr addr).1 = Some ip → AddrFromSlice b = Some a → Unmap a ≠ Unmap ip →
  al_resolved al !! Unmap ip = None → (DecideIP (al_chain al) (Unmap ip)).1 = VerdictAllow →
  is_ok (Allow order now addr al).1.2 = false →
  is_ok (Allow order now addr (ObserveDNSAnswer name b al)).1.2 = true.
Proof.
  intros Hs Hp Hb Hne Hr Hip _.
  destruct (observe_resets name b a (Unmap ip) al Hs Hb Hne) as (Hl & Hres & Hch & Hg).
  unfold Allow. destruct (split_addr addr) as [host port]. simpl in Hp. rewrite Hp. cbv zeta.
  set (al' := ObserveDNSAnswer name b al) in *.
  assert (Hnm : attributed_name (Unmap ip) al' = ""%string).
  { unfold attributed_name, str_of_map. by rewrite Hl, Hres, Hr. }
  destruct (bypassed now al'); [done|]. rewrite Hnm, Hch.
  destruct (DecideAddr_unnamed (al_chain al) (Unmap ip)) as [Hv Hby].
  destruct (DecideAddr (al_chain al) "" (Unmap ip)) as [v [m byName]]. simpl in Hv, Hby.
  rewrite Hby, Hv, Hip. by case_bool_decide.
Qed.

(** ** Witnesses *)

(** A base block that allows 10.0.0.0/8 under a policy that denies a domain. *)
Definition guard_blocks : list Block :=
  [mkBlock "base" "" [] [] ["10.0.0.0/8"] []; mkBlock "policy" "blocklist" [] ["evil.com"] [] []]%string.
Definition guard_chain : Chain :=
  match NewChain guard_blocks with Ok c => c | Err _ => empty_chain end.

Definition answers : gmap Addr string :=
  list_to_map ((λ i, (AddrV4 i, "x.org"%string)) <$> seqZ 0 4095).

Definition full_acl : AllowList :=
  set_lastName (<[AddrV4 0x0a010203 := "evil.com"%string]> answers)
    (NewAllowListFromChain (Some guard_chain)).

Lemma size_answers : size answers = 4095%nat.
Proof.
  unfold answers. rewrite map_size_list_to_map.
  - rewrite length_fmap. rewrite length_seqZ. lia.
  - rewrite <- list_fmap_compose. apply NoDup_fmap_2; [by intros ?? [=]|apply NoDup_seqZ].
Qed.

Lemma full_acl_size : Z.of_nat (size (al_lastName full_acl)) = 4096.
Proof.
  cbn [full_acl set_lastName al_lastName]. rewrite map_size_insert_None, size_answers; [lia|].
  unfold answers. apply not_elem_of_list_to_map_1. rewrite <- list_fmap_compose.
  intros (i & Hi & Hin%elem_of_seqZ)%list_elem_of_fmap. simpl in Hi. simplify_eq. lia.
Qed.

Lemma acl_invariant_witness :
  let al := recordDenial map_to_list 5 (AddrV4 1) "80" ""
              (ObserveDNSAnswer "evil.com." (byte_of <$> [10; 1; 2; 3])
                (NewAllowListFromChain (Some guard_chain))) in
  acl_inv al.1.1.
Proof.
  apply (acl_invariant (Some guard_chain)); [by vm_compute|].
  eapply rtc_l; [apply step_observe|]. eapply rtc_l; [apply step_deny; by intros m|]. apply rtc_refl.
Defined.

Lemma domain_edits_take_effect_witness :
  DeniedDomains (SetDeniedDomains [" ads.example. "; "."]%string (NewAllowListFromChain None))
  = ["ads.example"%string].
Proof.
  apply (domain_edits_take_effect [" ads.example. "; "."]%string "x.org"
    (NewAllowListFromChain None)).
  by apply NewAllowListFromChain_inv.
Defined.

Lemma full_name_map_lifts_named_deny_witness :
  is_ok (Allow map_to_list 0 "10.1.2.3:443" full_acl).1.2 = false ∧
  is_ok (Allow map_to_list 0 "10.1.2.3:443"
           (ObserveDNSAnswer "y.org" (byte_of <$> [1; 2; 3; 4]) full_acl)).1.2 = true.
Proof.
  assert (Hden : is_ok (Allow map_to_list 0 "10.1.2.3:443" full_acl).1.2 = false).
  { apply (Allow_named_deny _ _ _ _ (AddrV4 0x0a010203)
      (mkMatch "policy" "blocklist" "evil.com" VerdictDeny)); [done..|].
    assert (attributed_name (AddrV4 0x0a010203) full_acl = "evil.com"%string) as Hn.
    { unfold attributed_name, str_of_map. cbn [full_acl set_lastName al_lastName].
      by rewrite lookup_insert_eq. }
    cbn [Unmap]. rewrite Hn. by vm_compute. }
  split; [exact Hden|].
  apply (full_name_map_lifts_named_deny map_to_list 0 "10.1.2.3:443" (AddrV4 0x0a010203) "y.org"
    (byte_of <$> [1; 2; 3; 4]) (AddrV4 0x01020304)); [|by vm_compute..|exact Hden].
  by rewrite full_acl_size.
Defined.
