(* ===== verification/PktLine.v ===== *)
(** * internal/core/gitssh: the push command section ([pktline.go])

    [RefMatchesGlob], [ParseHex4] and [ParseRefUpdates], which reads the ref-update
    commands of a push, checks each ref against the allowed branches and returns the
    bytes it consumed for replay.  The HTTPS proxy contains a copy of the same loop
    (internal/core/perimeter/mitm/proxy.go).

    The reader is the list of bytes it will deliver.  A turn of the loop consumes at
    least four of them, so one more than their number is enough fuel: the theorems
    below hold for it, whatever the input. *)

From stdpp Require Import prelude strings list.
From Stdlib Require Import ZArith Ascii Lia.
From S2P Require Import Prelude GoStrings GoIO GoPath.

Definition RefMatchesGlob (pattern ref : string) : bool :=
  match CutSuffix pattern "/**" with
  | Some prefix => String.eqb ref prefix || HasPrefix ref (prefix +:+ "/")
  | None => match path_Match pattern ref with Some matched => matched | None => false end
  end.

Fixpoint hex4_loop (l : bytes) (val : Z) : option Z :=
  match l with
  | [] => Some val
  | c :: l => match hex_val c with
              | Some d => hex4_loop l (Z.lor (Z.shiftl val 4) d)
              | None => None
              end
  end.

Definition ParseHex4 (b : bytes) : option Z :=
  if negb (length b =? 4)%nat then None else hex4_loop b 0.

Definition maxPkt : Z := 64 * 1024.

(** The ref a packet updates; [None] for the lines the loop skips. *)
Definition packet_ref (data : bytes) : option string :=
  let line := TrimRightByte (of_chars data) "010"%char in
  match SplitN line " "%char 3 with
  | [_; _; ref] =>
      let ref := match break_at "000"%char (chars ref) with Some (a, _) => of_chars a | None => ref end in
      let ref := TrimSpace ref in
      if String.eqb ref "" then None else Some ref
  | _ => None
  end.

Definition ref_allowed (allowedBranches : list string) (ref : string) : bool :=
  existsb (λ pattern, RefMatchesGlob pattern ref) allowedBranches.

Record ref_parse := mkRefParse {
  rp_buf : bytes;
  rp_deniedRef : string;
  rp_malformed : bool;
  rp_rest : bytes;       (** what the reader still holds *)
}.

Definition blen (l : bytes) : Z := Z.of_nat (length l).

Fixpoint refs_loop (fuel : nat) (allowedBranches : list string) (r buf : bytes) : ref_parse :=
  match fuel with
  | O => mkRefParse buf "" true r
  | S fuel =>
      if maxPkt <? blen buf then mkRefParse buf "" false r
      else
        match ReadFull 4 r with
        | Err _ => mkRefParse buf "" false []
        | Ok (lenBuf, r) =>
            let buf := buf ++ lenBuf in
            match ParseHex4 lenBuf with
            | None => mkRefParse buf "" true r
            | Some pktLen =>
                if (pktLen =? 0) || (pktLen =? 1) || (pktLen =? 2) then mkRefParse buf "" false r
                else
                  let dataLen := pktLen - 4 in
                  if dataLen <=? 0 then refs_loop fuel allowedBranches r buf
                  else if maxPkt <? blen buf + dataLen then mkRefParse buf "" true r
                  else
                    let n := Z.to_nat dataLen in
                    match ReadFull n r with
                    | Err part =>
                        let data := part ++ replicate (n - length part) "000"%char in
                        mkRefParse (buf ++ data) "" false []
                    | Ok (data, r) =>
                        let buf := buf ++ data in
                        match packet_ref data with
                        | None => refs_loop fuel allowedBranches r buf
                        | Some ref =>
                            if ref_allowed allowedBranches ref
                            then refs_loop fuel allowedBranches r buf
                            else mkRefParse buf ref false r
                        end
                    end
            end
        end
  end.

Definition ParseRefUpdates (r : bytes) (allowedBranches : list string) : ref_parse :=
  refs_loop (S (length r)) allowedBranches r [].

(** The relay and the proxy let the push through. *)
Definition push_accepted (rp : ref_parse) : bool :=
  negb (rp_malformed rp) && String.eqb (rp_deniedRef rp) "".

(** ** Length prefixes *)

Lemma land_shiftl4 a d : 0 ≤ d < 16 → Z.land (Z.shiftl a 4) d = 0.
Proof.
  intros Hd. apply Z.bits_inj'. intros n Hn. rewrite Z.land_spec, Z.bits_0.
  destruct (Z.lt_ge_cases n 4) as [H4|H4]; [by rewrite Z.shiftl_spec_low|].
  rewrite (Z.bits_above_log2 d); [apply andb_false_r|lia|].
  destruct (Z.eq_dec d 0) as [->|]; [simpl; lia|].
  apply Z.log2_lt_pow2; [lia|]. assert (2 ^ 4 ≤ 2 ^ n) by (apply Z.pow_le_mono_r; lia). lia.
Qed.

Lemma lor_shiftl4 a d : 0 ≤ d < 16 → Z.lor (Z.shiftl a 4) d = a * 16 + d.
Proof.
  intros Hd. pose proof (land_shiftl4 a d Hd) as H0.
  rewrite <- Z.lxor_lor, <- Z.add_nocarry_lxor by done. by rewrite Z.shiftl_mul_pow2.
Qed.

Lemma hex4_loop_digits ds val :
  Forall (λ d, 0 ≤ d < 16) ds → 0 ≤ val →
  hex4_loop (hex_digit <$> ds) val = Some (fold_left (λ acc d, acc * 16 + d) ds val).
Proof.
  revert val. induction ds as [|d ds IH]; intros val Hds Hval; [done|].
  apply Forall_cons in Hds as [Hd Hds]. cbn [fmap list_fmap hex4_loop fold_left].
  rewrite hex_val_digit, lor_shiftl4 by lia. apply IH; [done|lia].
Qed.

Lemma ParseHex4_Sprintf n : 0 ≤ n < 65536 → ParseHex4 (Sprintf_04x n) = Some n.
Proof.
  intros Hn. unfold ParseHex4. change (length (Sprintf_04x n) =? 4)%nat with true. cbn [negb].
  unfold Sprintf_04x. rewrite hex4_loop_digits; [|repeat constructor; divmod_lia|lia].
  cbn [fold_left]. f_equal. divmod_lia.
Qed.

Lemma hex4_loop_nonneg l : ∀ val n, 0 ≤ val → hex4_loop l val = Some n → 0 ≤ n.
Proof.
  induction l as [|c l IH]; intros val n Hval; cbn [hex4_loop]; [intros [= <-]; done|].
  destruct (hex_val c) as [d|] eqn:Hd; [|done]. apply hex_val_range in Hd.
  apply IH. rewrite lor_shiftl4 by lia. lia.
Qed.

Lemma ParseHex4_nonneg l n : ParseHex4 l = Some n → 0 ≤ n ∧ length l = 4%nat.
Proof.
  unfold ParseHex4. destruct (Nat.eqb_spec (length l) 4); [|done]. cbn [negb].
  intros H. split; [by eapply hex4_loop_nonneg|done].
Qed.

(** ** What an accepted push has shown *)

(** A packet as read: its header and its data.  A length of three or four is a
    keep-alive without data. *)
Definition packet_ok (allowed : list string) (p : bytes * bytes) : Prop :=
  ∃ n, ParseHex4 p.1 = Some n ∧
  (p.2 = [] ∧ (n = 3 ∨ n = 4) ∨
   p.2 ≠ [] ∧ n = 4 + blen p.2 ∧
   ∀ ref, packet_ref p.2 = Some ref → ref_allowed allowed ref = true).

Definition raw (ps : list (bytes * bytes)) : bytes := concat ((λ p, p.1 ++ p.2) <$> ps).

(** Why the loop stopped without a complaint. *)
Inductive stopped (r : bytes) (ps : list (bytes * bytes)) (rp : ref_parse) (buf : bytes) : Prop :=
| stop_terminator term n :
    ParseHex4 term = Some n → 0 ≤ n ≤ 2 → rp_buf rp = buf ++ raw ps ++ term →
    r = raw ps ++ term ++ rp_rest rp → stopped r ps rp buf
| stop_full : maxPkt < blen (rp_buf rp) → stopped r ps rp buf
| stop_eof : rp_rest rp = [] → stopped r ps rp buf.

Lemma stopped_cons h data r ps rp buf :
  stopped r ps rp (buf ++ h ++ data) → stopped (h ++ data ++ r) ((h, data) :: ps) rp buf.
Proof.
  intros [term n Hn Hr Hb ->|Hf|He]; [|by apply stop_full|by apply stop_eof].
  eapply stop_terminator; [done..| |]; unfold raw; cbn [fmap list_fmap concat fst snd];
    rewrite ?Hb; unfold raw; by rewrite <- !app_assoc.
Qed.

Lemma packet_ref_nonempty data ref : packet_ref data = Some ref → ref ≠ ""%string.
Proof.
  unfold packet_ref. intros H. destruct (SplitN _ _ _) as [|? [|? [|x []]]]; try done.
  revert H. set (y := TrimSpace _). by destruct (String.eqb_spec y ""); intros [= <-].
Qed.

(** A refusal names the first ref that is not allowed. *)
Lemma refs_loop_spec allowed fuel r buf :
  (length r < fuel)%nat →
  let rp := refs_loop fuel allowed r buf in
  (push_accepted rp = true → ∃ ps, Forall (packet_ok allowed) ps ∧ stopped r ps rp buf) ∧
  (rp_deniedRef rp ≠ ""%string → ref_allowed allowed (rp_deniedRef rp) = false).
Proof.
  revert r buf. induction fuel as [|fuel IH]; intros r buf Hf; [lia|]. cbn [refs_loop].
  destruct (maxPkt <? blen buf) eqn:Hfull; reflect_bools.
  { split; [|done]. exists []. split; [done|by apply stop_full]. }
  destruct (ReadFull 4 r) as [[h r']|] eqn:Hh; [|split; [|done]; exists []; split; [done|by apply stop_eof]].
  apply ReadFull_ok in Hh as [-> Hlen]. rewrite length_app in Hf.
  destruct (ParseHex4 h) as [n|] eqn:Hn; [|done].
  pose proof (ParseHex4_nonneg _ _ Hn) as [Hpos _].
  destruct ((n =? 0) || (n =? 1) || (n =? 2)) eqn:Hterm.
  { split; [|done]. exists []. split; [done|]. eapply stop_terminator; [exact Hn| |done..].
    rewrite !orb_true_iff, !Z.eqb_eq in Hterm. lia. }
  rewrite !orb_false_iff, !Z.eqb_neq in Hterm.
  assert (Hnext : ∀ data r'', (length r'' < fuel)%nat → packet_ok allowed (h, data) → r' = data ++ r'' →
    let rp := refs_loop fuel allowed r'' (buf ++ h ++ data) in
    (push_accepted rp = true → ∃ ps, Forall (packet_ok allowed) ps ∧ stopped (h ++ r') ps rp buf) ∧
    (rp_deniedRef rp ≠ ""%string → ref_allowed allowed (rp_deniedRef rp) = false)).
  { intros data r'' Hl Hok ->. destruct (IH r'' (buf ++ h ++ data) Hl) as [IH1 IH2].
    split; [|done]. intros Ha. destruct (IH1 Ha) as (ps & Hps & Hst).
    exists ((h, data) :: ps). split; [by constructor|by apply stopped_cons]. }
  destruct (n - 4 <=? 0) eqn:Hd; reflect_bools.
  { specialize (Hnext [] r'). rewrite app_nil_r in Hnext. apply Hnext; [lia| |done].
    exists n. split; [done|]. left. split; [done|lia]. }
  destruct (maxPkt <? _) eqn:Hbig; [done|].
  destruct (ReadFull _ r') as [[data r'']|part] eqn:Hdata;
    [|split; [|done]; exists []; split; [done|by apply stop_eof]].
  apply ReadFull_ok in Hdata as [-> Hdl]. rewrite length_app in Hf. rewrite <- app_assoc.
  assert (Hok : (∀ ref, packet_ref data = Some ref → ref_allowed allowed ref = true) →
                packet_ok allowed (h, data)).
  { intros Href. exists n. split; [done|]. right. cbn. unfold blen. split_and!; [|lia|done].
    intros ->. simpl in Hdl. lia. }
  destruct (packet_ref data) as [ref|] eqn:Href; [|apply Hnext; [lia|by apply Hok|done]].
  destruct (ref_allowed allowed ref) eqn:Hra; [|].
  - apply Hnext; [lia| |done]. apply Hok. intros ref' [= <-]. done.
  - split; [|done]. unfold push_accepted. cbn. intros He%String.eqb_eq.
    by apply packet_ref_nonempty in Href.
Qed.

(** C30: a push that is let through within the buffer bound was checked completely.  If
    bytes remain to be streamed (the pack) and at most 64 KiB were buffered, the
    buffer is a sequence of packets closed by a flush or delimiter packet, every ref
    any of them updates matches an allowed pattern, and buffer and rest are
    exactly the input: nothing is lost, added or reordered on replay.  With no
    allowed pattern no packet can update a ref. *)
Theorem accepted_push_is_checked r allowed :
  let rp := ParseRefUpdates r allowed in
  push_accepted rp = true → rp_rest rp ≠ [] → blen (rp_buf rp) ≤ maxPkt →
  ∃ ps term n,
    rp_buf rp = raw ps ++ term ∧ Forall (packet_ok allowed) ps ∧
    ParseHex4 term = Some n ∧ 0 ≤ n ≤ 2 ∧ r = rp_buf rp ++ rp_rest rp.
Proof.
  cbv zeta. intros Ha Hrest Hlen. unfold ParseRefUpdates in *.
  destruct (refs_loop_spec allowed (S (length r)) r [] ltac:(lia)) as [Hspec _].
  destruct (Hspec Ha) as (ps & Hps & [term n Hn Hr Hb Heq|Hfull|He]); [|lia|done].
  exists ps, term, n. rewrite Hb. simpl. split_and!; [done..|lia|lia|]. by rewrite <- app_assoc.
Qed.

(** ** Well-formed command sections *)

Definition pkt_line (data : bytes) : bytes := Sprintf_04x (4 + blen data) ++ data.
Definition flush_pkt : bytes := Sprintf_04x 0.
(** Data that a packet can carry: its length prefix has four digits. *)
Definition packet_data (d : bytes) : Prop := d ≠ [] ∧ 4 + blen d < 65536.
Definition command_section (datas : list bytes) : bytes := concat (pkt_line <$> datas).

Lemma length_Sprintf_04x n : length (Sprintf_04x n) = 4%nat.
Proof. done. Qed.

Lemma length_pkt_line d : length (pkt_line d) = (4 + length d)%nat.
Proof. unfold pkt_line. by rewrite length_app, length_Sprintf_04x. Qed.

(** One turn of the loop on a data packet. *)
Lemma refs_loop_packet fuel allowed data r buf :
  packet_data data → blen buf + 4 + blen data ≤ maxPkt →
  refs_loop (S fuel) allowed (pkt_line data ++ r) buf =
  match packet_ref data with
  | Some ref => if ref_allowed allowed ref then refs_loop fuel allowed r (buf ++ pkt_line data)
                else mkRefParse (buf ++ pkt_line data) ref false r
  | None => refs_loop fuel allowed r (buf ++ pkt_line data)
  end.
Proof.
  intros [Hne Hmax] Hlen. cbn [refs_loop].
  assert (Hd : 0 < blen data) by (unfold blen; destruct data; [done|simpl; lia]).
  destruct (Z.ltb_spec maxPkt (blen buf)) as [|_]; [lia|].
  unfold pkt_line. rewrite <- app_assoc, ReadFull_app by done.
  rewrite ParseHex4_Sprintf by (unfold maxPkt, blen in *; lia).
  destruct (Z.eqb_spec (4 + blen data) 0), (Z.eqb_spec (4 + blen data) 1),
    (Z.eqb_spec (4 + blen data) 2); try lia. cbn [orb].
  destruct (Z.leb_spec (4 + blen data - 4) 0); [lia|].
  replace (blen (buf ++ Sprintf_04x (4 + blen data))) with (blen buf + 4)
    by (unfold blen; rewrite length_app, length_Sprintf_04x; lia).
  destruct (Z.ltb_spec maxPkt (blen buf + 4 + (4 + blen data - 4))); [lia|].
  rewrite ReadFull_app by (unfold blen; lia). rewrite <- app_assoc. done.
Qed.

Lemma refs_loop_section fuel allowed datas r buf :
  Forall packet_data datas → (length datas ≤ fuel)%nat →
  blen buf + blen (command_section datas) ≤ maxPkt →
  (∀ data ref, data ∈ datas → packet_ref data = Some ref → ref_allowed allowed ref = true) →
  refs_loop fuel allowed (command_section datas ++ r) buf =
  refs_loop (fuel - length datas) allowed r (buf ++ command_section datas).
Proof.
  revert fuel buf. induction datas as [|d datas IH]; intros fuel buf Hne Hf Hlen Hok.
  { rewrite app_nil_r. simpl. by rewrite Nat.sub_0_r. }
  destruct fuel as [|fuel]; [simpl in Hf; lia|]. apply Forall_cons in Hne as [Hd Hne].
  change (command_section (d :: datas)) with (pkt_line d ++ command_section datas) in *.
  unfold blen in Hlen. rewrite length_app in Hlen. unfold pkt_line in Hlen at 1.
  rewrite length_app, length_Sprintf_04x in Hlen. rewrite <- app_assoc, refs_loop_packet;
    [|done|unfold blen; lia].
  assert (Hnext : refs_loop fuel allowed (command_section datas ++ r) (buf ++ pkt_line d) =
    refs_loop (S fuel - length (d :: datas)) allowed r (buf ++ pkt_line d ++ command_section datas)).
  { rewrite IH; [|done|simpl in Hf; lia| |].
    - rewrite <- app_assoc. done.
    - unfold blen, pkt_line. rewrite !length_app, length_Sprintf_04x. lia.
    - intros data ref Hin. apply Hok. rewrite elem_of_cons. by right. }
  destruct (packet_ref d) as [ref|] eqn:Href; [|done].
  rewrite (Hok d ref); [done| |done]. rewrite elem_of_cons. by left.
Qed.

Lemma command_section_app a d b :
  command_section (a ++ d :: b) = command_section a ++ pkt_line d ++ command_section b.
Proof. unfold command_section. by rewrite fmap_app, concat_app. Qed.

Lemma length_command_section datas : (length datas ≤ length (command_section datas))%nat.
Proof.
  induction datas as [|d datas IH]; [done|].
  change (command_section (d :: datas)) with (pkt_line d ++ command_section datas).
  unfold pkt_line at 1. rewrite !length_app, length_Sprintf_04x. simpl. lia.
Qed.

(** a well-formed command section of at most 64 KiB is decided exactly.  If all its
    refs are allowed it is accepted, buffered up to and including its flush packet,
    with the pack left in the reader; otherwise it is refused and the first ref that
    matches no pattern is the one named. *)
Lemma wellformed_push_decided allowed datas pack :
  Forall packet_data datas → blen (command_section datas) ≤ maxPkt →
  let r := command_section datas ++ flush_pkt ++ pack in
  ((∀ data ref, data ∈ datas → packet_ref data = Some ref → ref_allowed allowed ref = true) →
   ParseRefUpdates r allowed = mkRefParse (command_section datas ++ flush_pkt) "" false pack) ∧
  (∀ before data after ref,
     datas = before ++ data :: after →
     (∀ d ref, d ∈ before → packet_ref d = Some ref → ref_allowed allowed ref = true) →
     packet_ref data = Some ref → ref_allowed allowed ref = false →
     rp_deniedRef (ParseRefUpdates r allowed) = ref ∧
     push_accepted (ParseRefUpdates r allowed) = false).
Proof.
  intros Hne Hlen. cbv zeta. unfold ParseRefUpdates. split.
  - intros Hok.
    rewrite refs_loop_section; [|done| |unfold blen in *; simpl; lia|done];
      [|rewrite length_app; pose proof (length_command_section datas); lia].
    set (fuel := (S _ - _)%nat). assert (∃ f, fuel = S f) as [f ->].
    { exists (pred fuel). subst fuel. rewrite length_app.
      pose proof (length_command_section datas). lia. }
    cbn [refs_loop]. destruct (Z.ltb_spec maxPkt (blen ([] ++ command_section datas))) as [H|_]; [simpl in H; lia|].
    rewrite ReadFull_app by done. by change (ParseHex4 flush_pkt) with (Some 0).
  - intros before data after ref -> Hok Href Hden.
    rewrite command_section_app in *. apply Forall_app in Hne as [Hnb Hna].
    apply Forall_cons in Hna as [Hnd _].
    unfold blen in Hlen. rewrite !length_app, length_pkt_line in Hlen.
    rewrite <- !app_assoc, refs_loop_section; [|done| |unfold blen; simpl; lia|done];
      [|rewrite length_app; pose proof (length_command_section before); lia].
    set (fuel := (S _ - _)%nat). assert (∃ f, fuel = S f) as [f ->].
    { exists (pred fuel). subst fuel. rewrite length_app.
      pose proof (length_command_section before). lia. }
    rewrite refs_loop_packet, Href, Hden by (done || unfold blen; simpl; lia).
    unfold push_accepted. cbn. split; [done|].
    apply packet_ref_nonempty in Href. by destruct (String.eqb_spec ref "").
Qed.

(** ** The buffer bound *)

Definition keep_alive : bytes := Sprintf_04x 4.

Lemma refs_loop_keep_alives k fuel allowed r buf :
  (k < fuel)%nat → blen buf + 4 * (Z.of_nat k - 1) ≤ maxPkt →
  refs_loop fuel allowed (concat (replicate k keep_alive) ++ r) buf =
  refs_loop (fuel - k) allowed r (buf ++ concat (replicate k keep_alive)).
Proof.
  revert fuel buf. induction k as [|k IH]; intros fuel buf Hf Hlen.
  { by rewrite app_nil_r, Nat.sub_0_r. }
  destruct fuel as [|fuel]; [lia|]. cbn [replicate concat]. rewrite <- app_assoc.
  cbn [refs_loop]. destruct (Z.ltb_spec maxPkt (blen buf)); [lia|].
  rewrite ReadFull_app by done. change (ParseHex4 keep_alive) with (Some 4). cbn [Z.eqb orb Z.sub Z.leb].
  change (4 - 4 <=? 0) with true. cbv iota.
  rewrite IH; [by rewrite <- app_assoc|lia|].
  unfold blen in *. rewrite length_app. change (length keep_alive) with 4%nat. lia.
Qed.

(** past 64 KiB the check stops and the push is let through.  Nothing bounds empty
    packets: after 16385 of them the loop ends as if the command section were over,
    and whatever commands follow are left in the reader, to be streamed unchecked,
    for any branch policy. *)
Lemma keep_alives_bypass_check allowed r :
  let pad := concat (replicate (Z.to_nat 16385) keep_alive) in
  ParseRefUpdates (pad ++ r) allowed = mkRefParse pad "" false r.
Proof.
  cbv zeta. unfold ParseRefUpdates. set (k := Z.to_nat 16385).
  assert (Hk : Z.of_nat k = 16385) by (subst k; lia).
  assert (Hlen : length (concat (replicate k keep_alive)) = (4 * k)%nat).
  { clear. induction k as [|k IH]; [done|]. cbn [replicate concat]. rewrite length_app, IH.
    change (length keep_alive) with 4%nat. lia. }
  rewrite refs_loop_keep_alives;
    [|rewrite length_app, Hlen; lia|rewrite Hk; unfold blen, maxPkt; simpl; lia].
  set (fuel := (S _ - _)%nat). assert (∃ f, fuel = S f) as [f ->].
  { exists (pred fuel). subst fuel. rewrite length_app, Hlen. lia. }
  cbn [refs_loop]. destruct (Z.ltb_spec maxPkt (blen ([] ++ concat (replicate k keep_alive)))) as [|H];
    [done|]. exfalso. revert H. unfold blen, maxPkt. cbn [app]. rewrite Hlen. lia.
Qed.

(** A packet that ends early is not checked, and the bytes that never arrived are
    replayed as zeros. *)
Lemma short_packet_padded allowed n part :
  0 < n → 4 + n < 65536 → blen part < n →
  ParseRefUpdates (Sprintf_04x (4 + n) ++ part) allowed =
  mkRefParse (Sprintf_04x (4 + n) ++ part ++ replicate (Z.to_nat n - length part) "000"%char) "" false [].
Proof.
  intros Hn Hmax Hpart. unfold ParseRefUpdates. cbn [refs_loop].
  change (maxPkt <? blen []) with false. cbv iota. rewrite ReadFull_app by done.
  rewrite ParseHex4_Sprintf by lia.
  destruct (Z.eqb_spec (4 + n) 0), (Z.eqb_spec (4 + n) 1), (Z.eqb_spec (4 + n) 2); try lia. cbn [orb].
  destruct (Z.leb_spec (4 + n - 4) 0); [lia|].
  change (blen ([] ++ Sprintf_04x (4 + n))) with 4.
  destruct (Z.ltb_spec maxPkt (4 + (4 + n - 4))) as [Hbig|_]; [unfold maxPkt in Hbig; lia|].
  replace (4 + n - 4) with n by lia. unfold ReadFull.
  destruct (Nat.leb_spec (Z.to_nat n) (length part)); [unfold blen in Hpart; lia|]. done.
Qed.

(** ** Witnesses *)

Definition example_update (ref : string) : bytes :=
  chars ("0000000000000000000000000000000000000000 1111111111111111111111111111111111111111 " +:+ ref).

Lemma accepted_push_is_checked_witness :
  ∃ ps term n,
    rp_buf (ParseRefUpdates (command_section [example_update "refs/heads/nexus/a"] ++ flush_pkt ++ chars "PACK")
              ["refs/heads/nexus/**"%string]) = raw ps ++ term ∧
    Forall (packet_ok ["refs/heads/nexus/**"%string]) ps ∧ ParseHex4 term = Some n ∧ 0 ≤ n ≤ 2.
Proof.
  destruct (accepted_push_is_checked
    (command_section [example_update "refs/heads/nexus/a"] ++ flush_pkt ++ chars "PACK")
    ["refs/heads/nexus/**"%string]) as (ps & term & n & H1 & H2 & H3 & H4 & _);
    [by vm_compute|by vm_compute|by vm_compute|].
  exists ps, term, n. auto.
Defined.

Lemma wellformed_push_decided_witness :
  ParseRefUpdates (command_section [example_update "refs/heads/nexus/a"] ++ flush_pkt ++ chars "PACK")
    ["refs/heads/nexus/**"%string] =
    mkRefParse (command_section [example_update "refs/heads/nexus/a"] ++ flush_pkt) "" false (chars "PACK").
Proof.
  apply (wellformed_push_decided ["refs/heads/nexus/**"%string] [example_update "refs/heads/nexus/a"]
           (chars "PACK")).
  - apply Forall_singleton. by vm_compute.
  - by vm_compute.
  - intros data ref ->%list_elem_of_singleton Href. vm_compute in Href. injection Href as <-. by vm_compute.
Defined.
