(* ===== verification/GitSSH.v ===== *)
(** * internal/core/gitssh: the git-over-ssh relay

    [command.go] (ParseCommand), [policy.go] (DeriveAllowlist), [wire.go] (frames)
    and the session handler of [relay.go].  A session is a function of the request,
    the bytes the guest sends and what the host answers (agent, ssh process), to
    the list of its effects in order.  The copying of ssh's output to the guest is
    not modelled; the race between the command section and an early exit of ssh is
    an input.  A request arrives decoded: its JSON text is left to the library. *)

From stdpp Require Import prelude strings list pretty.
From Stdlib Require Import ZArith Ascii Lia.
From S2P Require Import Prelude GoStrings GoIO GoPath PktLine.

(** ** Commands *)

Record ParsedCommand := mkParsedCommand {
  pc_Service : string;
  pc_GitHost : string;
  pc_BareHost : string;
  pc_OwnerRepo : string;
  pc_RawPath : string;
}.

Inductive command_error :=
| LooksLikeOption (arg : string)
| ArgvTooShort (n : Z)
| BadService (cmd : string)
| EmptyPath
| NoOwnerRepo (path : string)
| ExtraSegments (path : string)
| EmptyOwnerOrRepo (path : string).

Definition parse_service (cmdArg : string) : option (string * string) :=
  match CutPrefix cmdArg "git-receive-pack " with
  | Some rest => Some ("git-receive-pack"%string, rest)
  | None => match CutPrefix cmdArg "git-upload-pack " with
            | Some rest => Some ("git-upload-pack"%string, rest)
            | None => None
            end
  end.

(** Strips one pair of equal quotes. *)
Definition unquote (s : string) : string :=
  match chars s with
  | q :: l =>
      match reverse l with
      | q' :: l' => if (bool_decide (q = "'"%char) || bool_decide (q = "034"%char)) && bool_decide (q = q')
                    then of_chars (reverse l') else s
      | [] => s
      end
  | [] => s
  end.

Definition ParseCommand (argv : list string) : result command_error ParsedCommand :=
  match List.find (λ arg, HasPrefix arg "-") argv with
  | Some arg => Err (LooksLikeOption arg)
  | None =>
  match argv with
  | hostArg :: cmdArg :: _ =>
  match parse_service cmdArg with
  | None => Err (BadService cmdArg)
  | Some (service, rest) =>
      let pathStr := unquote rest in
      if String.eqb pathStr "" then Err EmptyPath
      else
        let rawPath := if HasPrefix pathStr "/" then pathStr else "/" +:+ pathStr in
        match Split (TrimPrefix rawPath "/") "/"%char with
        | [] | [_] => Err (NoOwnerRepo rawPath)
        | [owner; repo] =>
            let repo := TrimSuffix repo ".git" in
            if String.eqb owner "" || String.eqb repo "" then Err (EmptyOwnerOrRepo rawPath)
            else
              let bareHost := match Cut hostArg "@"%char with Some (_, h) => h | None => hostArg end in
              Ok (mkParsedCommand service hostArg (ToLower bareHost)
                    (owner +:+ "/" +:+ repo) rawPath)
        | _ => Err (ExtraSegments rawPath)
        end
  end
  | _ => Err (ArgvTooShort (Z.of_nat (length argv)))
  end
  end.

(** ** The allowlist *)

Record HostPolicy := mkHostPolicy { hp_Host : string; hp_Paths : list string }.
Record AllowedRepo := mkAllowedRepo { ar_SSHHost : string; ar_OwnerRepo : string }.
#[global] Instance AllowedRepo_eq_dec : EqDecision AllowedRepo.
Proof. solve_decision. Defined.

(** The owner/repo a path pattern of the policy names, if it names one. *)
Definition path_owner_repo (rawPath : string) : option string :=
  let path := TrimPrefix rawPath "/" in
  let path := TrimSuffix path "/**" in
  let path := TrimSuffix path ".git/**" in
  let path := TrimSuffix path ".git" in
  match SplitN path "/"%char 3 with
  | owner :: repo :: _ =>
      let bad s := String.eqb s "" || String.eqb s "." || String.eqb s ".." in
      if bad owner || bad repo then None
      else
        let repo := TrimSuffix repo ".git" in
        if String.eqb repo "" then None else Some (owner +:+ "/" +:+ repo)
  | _ => None
  end.

(** The result so far doubles as the set of keys already seen. *)
Fixpoint derive_paths (paths : list string) (out : list AllowedRepo) : list AllowedRepo :=
  match paths with
  | [] => out
  | p :: paths =>
      match path_owner_repo p with
      | None => derive_paths paths out
      | Some ownerRepo =>
          let a := mkAllowedRepo "git@github.com" ownerRepo in
          if bool_decide (a ∈ out) then derive_paths paths out
          else derive_paths paths (out ++ [a])
      end
  end.

Fixpoint derive_policies (policies : list HostPolicy) (out : list AllowedRepo) : list AllowedRepo :=
  match policies with
  | [] => out
  | p :: policies =>
      derive_policies policies
        (if EqualFold (hp_Host p) "github.com" then derive_paths (hp_Paths p) out else out)
  end.

Definition DeriveAllowlist (policies : list HostPolicy) : list AllowedRepo :=
  derive_policies policies [].

Definition repoAllowed (allowlist : list AllowedRepo) (gitHost ownerRepo : string) : bool :=
  existsb (λ a, EqualFold (ar_SSHHost a) gitHost && EqualFold (ar_OwnerRepo a) ownerRepo) allowlist.

(** ** Frames *)

Definition FrameTypeStdout : Z := 1.
Definition FrameTypeExit : Z := 2.

Definition WriteFrame (ft : Z) (payload : bytes) : bytes :=
  PutUint32 (1 + blen payload) ++ [byte_of ft] ++ payload.

Definition WriteStdout (data : bytes) : bytes := WriteFrame FrameTypeStdout data.
Definition WriteExitFrame (code : Z) : bytes := WriteFrame FrameTypeExit (PutUint32 (u32 code)).

Inductive frame_error := HeaderError | ZeroLength | BodyError.

(** The frame's type, its payload and what the reader still holds. *)
Definition ReadFrame (r : bytes) : result frame_error (Z * bytes * bytes) :=
  match ReadFull 4 r with
  | Err _ => Err HeaderError
  | Ok (hdr, r) =>
      let total := Uint32 hdr in
      if total =? 0 then Err ZeroLength
      else match ReadFull (Z.to_nat total) r with
           | Ok (t :: payload, r) => Ok (byte_val t, payload, r)
           | _ => Err BodyError
           end
  end.

Definition maxRequestSize : Z := 4 * 1024.

Definition writeFrame (payload : bytes) : bytes := PutUint32 (blen payload) ++ payload.

Inductive request_error := RequestHeader | RequestTooLarge (n : Z) | RequestPayload.

(** The framing of [ReadRequest]: the JSON text and the rest of the stream. *)
Definition ReadRequest_payload (r : bytes) : result request_error (bytes * bytes) :=
  match ReadFull 4 r with
  | Err _ => Err RequestHeader
  | Ok (hdr, r) =>
      let n := Uint32 hdr in
      if maxRequestSize <? n then Err (RequestTooLarge n)
      else match ReadFull (Z.to_nat n) r with
           | Err _ => Err RequestPayload
           | Ok (buf, r) => Ok (buf, r)
           end
  end.

(** ** Refusals *)

(** The ERR packet and the exit frame of a refusal. *)
Definition err_pkt (msg : string) : bytes :=
  let errLine := chars ("ERR " +:+ msg) in Sprintf_04x (4 + blen errLine) ++ errLine.

Definition writePktErrFrame (msg : string) : list bytes := [WriteStdout (err_pkt msg); WriteExitFrame 1].

Definition writePktErrFrameAfterCommands (commandSection : bytes) (msg : string) : list bytes :=
  if negb (Contains (of_chars commandSection) "side-band") then writePktErrFrame msg
  else
    let inner := err_pkt msg in
    let outer := Sprintf_04x (4 + 1 + blen inner) ++ ["001"%char] ++ inner in
    [WriteStdout (outer ++ flush_pkt); WriteExitFrame 1].

(** ** A session *)

Record Request := mkRequest { rq_Argv : list string; rq_Cwd : string; rq_GitProtocol : string }.

(** The fields a session reads; identifiers for logs and the listener's path are left
    out, and the egress hook is the event [Egress]. *)
Record RelayConfig := mkRelayConfig {
  rc_Allowlist : list AllowedRepo;
  rc_AllowedBranches : list string;
  rc_SSHAuthSock : string;
  rc_UID : Z;
  rc_SSHExec : string;
}.

Inductive session_event :=
| Egress (host verdict reason : string)
| Send (frame : bytes)
| ExecSSH (exe : string) (args env : list string)
| KillSSH
| Stdin (data : bytes).   (** everything copied to ssh's standard input *)

(** What the host side answers during a session. *)
Record Host := mkHost {
  h_probe : string → bool;         (** [probeSSHAgent] on a socket *)
  h_home : string;                 (** the HOME variable *)
  h_pipes : bool;                  (** both pipes could be created *)
  h_start : option string;         (** the error of starting ssh *)
  h_early_exit : option Z;         (** ssh exits before the command section is parsed *)
  h_exit : Z;                      (** exit code of ssh *)
}.

(** [fmt.Sprintf "%d"] *)
Definition auth_candidates (inherited : string) (uid : Z) : list string :=
  (if String.eqb inherited "" then [] else [inherited]) ++
  ["/run/user/" +:+ pretty uid +:+ "/gnupg/S.gpg-agent.ssh";
   "/run/user/" +:+ pretty uid +:+ "/ssh-agent.sock"].

Definition resolveSSHAuthSock (probe : string → bool) (inherited : string) (uid : Z) : option string :=
  List.find (λ sock, negb (String.eqb sock "") && probe sock) (auth_candidates inherited uid).

Definition buildSSHEnv (home authSock gitProtocol : string) : list string :=
  ["SSH_AUTH_SOCK=" +:+ authSock] ++
  (if String.eqb gitProtocol "" then [] else ["GIT_PROTOCOL=" +:+ gitProtocol]) ++
  (if String.eqb home "" then [] else ["HOME=" +:+ home]).

Definition ssh_args (cmd : ParsedCommand) : list string :=
  ["-o"; "BatchMode=yes"; "-o"; "StrictHostKeyChecking=accept-new"; "--"; pc_GitHost cmd;
   pc_Service cmd +:+ " '" +:+ pc_RawPath cmd +:+ "'"]%string.

(** The session once ssh runs: [r] are the bytes the guest sends after its request. *)
Definition relay_started (cfg : RelayConfig) (h : Host) (cmd : ParsedCommand) (r : bytes)
    : list session_event :=
  let allow := Egress (pc_BareHost cmd) "allow" ("git SSH: " +:+ pc_Service cmd +:+ " " +:+ pc_OwnerRepo cmd) in
  let finish := [allow; Send (WriteExitFrame (h_exit h))] in
  if String.eqb (pc_Service cmd) "git-receive-pack" then
    match h_early_exit h with
    | Some code => [Send (WriteExitFrame code)]
    | None =>
        let rp := ParseRefUpdates r (rc_AllowedBranches cfg) in
        if rp_malformed rp then
          [KillSSH; Egress (pc_BareHost cmd) "deny" "git SSH receive-pack: malformed pkt-line"] ++
          (Send <$> writePktErrFrameAfterCommands (rp_buf rp)
             ("nexus: refused: push pkt-line header malformed or too large" +:+ of_chars ["010"%char]))
        else if negb (String.eqb (rp_deniedRef rp) "") then
          [KillSSH; Egress (pc_BareHost cmd) "deny"
             ("git SSH receive-pack: ref " +:+ rp_deniedRef rp +:+ " not in AllowedBranches")] ++
          (Send <$> writePktErrFrameAfterCommands (rp_buf rp)
             ("nexus: refused: ref " +:+ rp_deniedRef rp +:+ " not in allowed branches" +:+ of_chars ["010"%char]))
        else Stdin (rp_buf rp ++ rp_rest rp) :: finish
    end
  else Stdin r :: finish.

(** The text of a parse error, as far as the relay sends it: without the quoted
    arguments. *)
Definition command_error_text (e : command_error) : string :=
  match e with
  | LooksLikeOption arg => "argv element looks like an SSH option: " +:+ arg
  | ArgvTooShort n => "argv too short: need at least 2 elements, got " +:+ pretty n
  | BadService c => "argv[1] must start with git-receive-pack or git-upload-pack, got: " +:+ c
  | EmptyPath => "path is empty"
  | NoOwnerRepo p => "path does not contain owner/repo: " +:+ p
  | ExtraSegments p => "path has more than owner/repo segments: " +:+ p
  | EmptyOwnerOrRepo p => "empty owner or repo in path: " +:+ p
  end.

Definition newline : string := of_chars ["010"%char].

(** [req] is [None] when the request could not be read. *)
Definition serveSession (cfg : RelayConfig) (h : Host) (req : option Request) (r : bytes)
    : list session_event :=
  match req with
  | None => []
  | Some req =>
  match ParseCommand (rq_Argv req) with
  | Err e => Send <$> writePktErrFrame ("nexus: " +:+ command_error_text e +:+ newline)
  | Ok cmd =>
      if negb (repoAllowed (rc_Allowlist cfg) (pc_GitHost cmd) (pc_OwnerRepo cmd)) then
        (Send <$> writePktErrFrame
           ("nexus: refused by egress policy: " +:+ pc_GitHost cmd +:+ " " +:+ pc_OwnerRepo cmd +:+
            " not in .nexus/config.yaml egress.policy" +:+ newline)) ++
        [Egress (pc_BareHost cmd) "deny" ("git SSH: " +:+ pc_OwnerRepo cmd +:+ " not in policy")]
      else
        match resolveSSHAuthSock (h_probe h) (rc_SSHAuthSock cfg) (rc_UID cfg) with
        | None =>
            (Send <$> writePktErrFrame
               ("nexus: SSH agent not reachable; reconnect with ssh -A or start ssh-agent" +:+ newline)) ++
            [Egress (pc_BareHost cmd) "deny" "git SSH: SSH agent not reachable"]
        | Some authSock =>
            if negb (h_pipes h) then [Send (WriteExitFrame 1)]
            else
              match h_start h with
              | Some err => Send <$> writePktErrFrame ("nexus: failed to start ssh: " +:+ err +:+ newline)
              | None =>
                  let exe := if String.eqb (rc_SSHExec cfg) "" then "ssh"%string else rc_SSHExec cfg in
                  ExecSSH exe (ssh_args cmd) (buildSSHEnv (h_home h) authSock (rq_GitProtocol req)) ::
                  relay_started cfg h cmd r
              end
        end
  end
  end.

(** ** What is checked is what is forwarded *)

Lemma TrimSuffix_cases s p : s = TrimSuffix s p ∨ s = TrimSuffix s p +:+ p.
Proof.
  unfold TrimSuffix. destruct (CutSuffix s p) as [r|] eqn:E; simpl; [|by left].
  right. by apply CutSuffix_Some.
Qed.

(** The path forwarded is the checked owner/repo, up to the suffix .git. *)
Lemma ParseCommand_path argv cmd :
  ParseCommand argv = Ok cmd →
  (pc_Service cmd = "git-receive-pack" ∨ pc_Service cmd = "git-upload-pack")%string ∧
  ∃ suffix, (suffix = "" ∨ suffix = ".git")%string ∧
            pc_RawPath cmd = "/" +:+ pc_OwnerRepo cmd +:+ suffix.
Proof.
  unfold ParseCommand. destruct (List.find _ argv); [done|].
  destruct argv as [|hostArg [|cmdArg rest]]; [done..|].
  destruct (parse_service cmdArg) as [[service path]|] eqn:Hs; [|done].
  destruct (String.eqb (unquote path) ""); [done|].
  set (rawPath := if HasPrefix _ "/" then _ else _).
  assert (Hraw : ∃ t, rawPath = "/" +:+ t).
  { subst rawPath. destruct (HasPrefix (unquote path) "/") eqn:E; [|eauto].
    by apply HasPrefix_true in E. }
  destruct Hraw as [t Ht]. rewrite Ht, TrimPrefix_app.
  destruct (Split t "/"%char) as [|owner [|repo [|x l]]] eqn:Hsplit; [done..| |done].
  destruct (_ || _); [done|]. intros H. injection H as <-. cbn [pc_Service pc_RawPath pc_OwnerRepo].
  split.
  { unfold parse_service in Hs. split_matches; auto. }
  pose proof (concat_Split t) as Hjoin. rewrite Hsplit in Hjoin.
  change (String.concat "/" [owner; repo]) with (owner +:+ "/" +:+ repo) in Hjoin.
  destruct (TrimSuffix_cases repo ".git") as [Hr|Hr].
  - exists ""%string. split; [by left|]. rewrite str_app_empty_r, <- Hr. by rewrite Hjoin.
  - exists ".git"%string. split; [by right|]. rewrite <- Hjoin. rewrite Hr at 1.
    by rewrite !str_app_assoc.
Qed.

Lemma lower_byte_quote c : lower_byte c = "'"%char ↔ c = "'"%char.
Proof.
  split; [|by intros ->]. intros H. apply byte_val_inj. apply (f_equal byte_val) in H.
  unfold lower_byte in H. revert H. pose proof (byte_val_range c). change (byte_val "'"%char) with 39.
  destruct (_ && _) eqn:E; [|done]. reflect_bools. rewrite byte_val_of, Z.mod_small by lia. lia.
Qed.

Lemma EqualFold_quote s t :
  EqualFold s t = true → "'"%char ∉ chars s → "'"%char ∉ chars t.
Proof.
  unfold EqualFold. intros H%bool_decide_eq_true Hs Ht. apply Hs.
  apply (f_equal chars) in H. unfold ToLower in H. rewrite !chars_of_chars in H.
  apply (list_elem_of_fmap_2 lower_byte) in Ht. change (lower_byte "'"%char) with "'"%char in Ht.
  rewrite <- H in Ht. apply list_elem_of_fmap in Ht as (c & Hc & Hin). symmetry in Hc.
  apply (proj1 (lower_byte_quote c)) in Hc. by subst c.
Qed.

Lemma repoAllowed_true l h o :
  repoAllowed l h o = true ↔
  ∃ a, a ∈ l ∧ EqualFold (ar_SSHHost a) h = true ∧ EqualFold (ar_OwnerRepo a) o = true.
Proof.
  unfold repoAllowed. rewrite existsb_exists. setoid_rewrite andb_true_iff.
  setoid_rewrite <- list_elem_of_In. done.
Qed.

(** An answer to the guest or a log entry, without effect on ssh. *)
Definition is_reply (e : session_event) : Prop :=
  match e with Send _ | Egress _ _ _ => True | _ => False end.

Lemma replies_sent (l : list bytes) : Forall is_reply (Send <$> l).
Proof. by apply Forall_fmap, Forall_true. Qed.

(** A session either runs ssh, for a repository the allowlist has, or only answers. *)
Lemma serveSession_cases cfg h rq cmd r :
  ParseCommand (rq_Argv rq) = Ok cmd →
  Forall is_reply (serveSession cfg h (Some rq) r) ∨
  repoAllowed (rc_Allowlist cfg) (pc_GitHost cmd) (pc_OwnerRepo cmd) = true ∧
  ∃ exe env, serveSession cfg h (Some rq) r = ExecSSH exe (ssh_args cmd) env :: relay_started cfg h cmd r.
Proof.
  intros Hcmd. unfold serveSession. rewrite Hcmd. pose proof replies_sent as Hs.
  destruct (repoAllowed _ _ _); cbn [negb]; [|left; apply Forall_app; split; [done|by constructor]].
  destruct (resolveSSHAuthSock _ _ _); [|left; apply Forall_app; split; [done|by constructor]].
  destruct (h_pipes h); cbn [negb]; [|left; by constructor].
  destruct (h_start h); [by left|]. right. eauto.
Qed.

(** After its start ssh is not started again, and gets input only from an accepted
    push or a fetch. *)
Lemma relay_started_spec cfg h cmd r e :
  e ∈ relay_started cfg h cmd r →
  let rp := ParseRefUpdates r (rc_AllowedBranches cfg) in
  match e with
  | ExecSSH _ _ _ => False
  | Stdin data => if String.eqb (pc_Service cmd) "git-receive-pack"
                  then push_accepted rp = true ∧ data = rp_buf rp ++ rp_rest rp else data = r
  | _ => True
  end.
Proof.
  unfold relay_started, push_accepted. set (rp := ParseRefUpdates r _).
  assert (Hs : ∀ l : list bytes, e ∈ Send <$> l → is_reply e).
  { intros l H. pose proof (replies_sent l) as Hl. rewrite Forall_forall in Hl. by apply Hl. }
  destruct (String.eqb (pc_Service cmd) "git-receive-pack").
  - destruct (h_early_exit h); [by intros ->%list_elem_of_singleton|].
    destruct (rp_malformed rp), (String.eqb (rp_deniedRef rp) ""); cbn [negb andb];
      rewrite ?elem_of_app, ?elem_of_cons, ?elem_of_nil;
      try (intros [[->|[->|[]]]|H%Hs]; [done|done|by destruct e]);
      intros [->|[->|[->|[]]]]; done.
  - rewrite !elem_of_cons, elem_of_nil. by intros [->|[->|[->|[]]]].
Qed.

Lemma refused_push_killed cfg h cmd r :
  pc_Service cmd = "git-receive-pack"%string →
  push_accepted (ParseRefUpdates r (rc_AllowedBranches cfg)) = false → h_early_exit h = None →
  KillSSH ∈ relay_started cfg h cmd r ∧ Send (WriteExitFrame 1) ∈ relay_started cfg h cmd r.
Proof.
  intros Hsv Ha He. unfold relay_started. rewrite Hsv, He, String.eqb_refl.
  set (rp := ParseRefUpdates r _) in *.
  assert (Herr : ∀ sec msg, Send (WriteExitFrame 1) ∈ Send <$> writePktErrFrameAfterCommands sec msg).
  { intros sec msg. apply list_elem_of_fmap_2. unfold writePktErrFrameAfterCommands, writePktErrFrame.
    destruct (negb _); rewrite !elem_of_cons; auto. }
  unfold push_accepted in Ha. destruct (rp_malformed rp); cbn [negb andb] in Ha; [|rewrite Ha; cbn [negb]];
    rewrite !elem_of_app, !elem_of_cons; auto.
Qed.

(** C29: what the relay forwards is what it checked.  Whenever a session runs ssh, the
    host argument and the repository match an entry of the allowlist up to letter
    case; the host cannot be taken for an option; and the remote command is exactly
    the git service on that owner/repo, quoted, with at most a .git suffix added: no
    further path segment, option or command reaches the remote shell.  If the entry
    has no quote character, neither has the forwarded path. *)
Theorem relay_forwards_what_it_checked cfg h req r exe args env :
  ExecSSH exe args env ∈ serveSession cfg h req r →
  ∃ a host service ownerRepo suffix,
    a ∈ rc_Allowlist cfg ∧ EqualFold (ar_SSHHost a) host = true ∧
    EqualFold (ar_OwnerRepo a) ownerRepo = true ∧
    HasPrefix host "-" = false ∧
    (service = "git-receive-pack" ∨ service = "git-upload-pack")%string ∧
    (suffix = "" ∨ suffix = ".git")%string ∧
    args = ["-o"; "BatchMode=yes"; "-o"; "StrictHostKeyChecking=accept-new"; "--"; host;
            service +:+ " '/" +:+ ownerRepo +:+ suffix +:+ "'"]%string ∧
    ("'"%char ∉ chars (ar_OwnerRepo a) → "'"%char ∉ chars ("/" +:+ ownerRepo +:+ suffix)).
Proof.
  destruct req as [rq|]; [|by intros ?%elem_of_nil].
  intros Hev. assert (∃ cmd, ParseCommand (rq_Argv rq) = Ok cmd) as [cmd Hcmd].
  { cbn [serveSession] in Hev. destruct (ParseCommand _); [eauto|].
    pose proof (replies_sent) as Hs. setoid_rewrite Forall_forall in Hs. by apply Hs in Hev. }
  destruct (serveSession_cases cfg h rq cmd r Hcmd)
    as [Hall|[(a & Hin & Hh & Ho)%repoAllowed_true (exe' & env' & Heq)]].
  { rewrite Forall_forall in Hall. by apply Hall in Hev. }
  rewrite Heq in Hev. apply elem_of_cons in Hev as [Hev|Hev%relay_started_spec]; [|done].
  injection Hev as -> -> ->.
  destruct (ParseCommand_path _ _ Hcmd) as (Hs & suffix & Hsuf & Hraw).
  exists a, (pc_GitHost cmd), (pc_Service cmd), (pc_OwnerRepo cmd), suffix.
  split_and!; try done.
  - unfold ParseCommand in Hcmd. destruct (List.find _ _) eqn:Hf; [done|].
    destruct (rq_Argv rq) as [|host [|c l]]; [done..|].
    cbn [List.find] in Hf. destruct (HasPrefix host "-") eqn:Hd; [done|].
    split_matches; done.
  - unfold ssh_args. rewrite Hraw. by rewrite !str_app_assoc.
  - intros Hq. apply (EqualFold_quote _ _ Ho) in Hq. rewrite !chars_app, !elem_of_app.
    destruct Hsuf; subst suffix; set_solver.
Qed.

(** ** Standard input of ssh *)

(** ssh receives input only after the check.  A session copies bytes to ssh only
    once ssh runs, in one stream; for a push they are the buffered command section and
    the rest, and only if the section was accepted; for a fetch they are what the
    guest sent.  A push that is refused kills ssh, sends it nothing, and tells the
    guest with exit code 1. *)
Lemma relay_input_only_after_check cfg h rq cmd r :
  ParseCommand (rq_Argv rq) = Ok cmd →
  let ev := serveSession cfg h (Some rq) r in
  let rp := ParseRefUpdates r (rc_AllowedBranches cfg) in
  (∀ data, Stdin data ∈ ev →
     (∃ exe env, ExecSSH exe (ssh_args cmd) env ∈ ev) ∧
     if String.eqb (pc_Service cmd) "git-receive-pack"
     then push_accepted rp = true ∧ data = rp_buf rp ++ rp_rest rp
     else data = r) ∧
  (pc_Service cmd = "git-receive-pack"%string → push_accepted rp = false →
   (∃ exe args env, ExecSSH exe args env ∈ ev) → h_early_exit h = None →
   KillSSH ∈ ev ∧ Send (WriteExitFrame 1) ∈ ev ∧ ∀ data, Stdin data ∉ ev).
Proof.
  intros Hcmd. cbv zeta.
  destruct (serveSession_cases cfg h rq cmd r Hcmd) as [Hall|(_ & exe & env & Heq)].
  { rewrite Forall_forall in Hall. split; [by intros d ?%Hall|by intros _ _ (? & ? & ? & ?%Hall)]. }
  assert (Hin : ∀ d, Stdin d ∈ serveSession cfg h (Some rq) r → Stdin d ∈ relay_started cfg h cmd r).
  { intros d. rewrite Heq, elem_of_cons. by intros [?|?]. }
  split.
  - intros d Hd%Hin. split; [|by apply relay_started_spec in Hd].
    exists exe, env. rewrite Heq, elem_of_cons. by left.
  - intros Hsv Ha _ He. destruct (refused_push_killed cfg h cmd r Hsv Ha He) as [H1 H2].
    rewrite Heq at 1 2. rewrite !elem_of_cons. split; [by right|]. split; [by right|].
    intros d Hd%Hin%relay_started_spec. rewrite Hsv, String.eqb_refl in Hd. destruct Hd. congruence.
Qed.

(** ** Framing *)

(** frames and requests survive the wire.  A frame that was written is read back
    with its type and payload, leaving the stream after it; an exit code comes back
    as the same 32-bit value; and a request of at most 4096 bytes is read back, a
    longer one refused before its payload is read. *)
Lemma frame_roundtrip ft payload code req r :
  0 ≤ ft < 256 → 1 + blen payload < 2 ^ 32 → - 2 ^ 31 ≤ code < 2 ^ 31 → blen req < 2 ^ 32 →
  ReadFrame (WriteFrame ft payload ++ r) = Ok (ft, payload, r) ∧
  ReadFrame (WriteExitFrame code ++ r) = Ok (FrameTypeExit, PutUint32 code, r) ∧
  i32 (Uint32 (PutUint32 code)) = code ∧
  ReadRequest_payload (writeFrame req ++ r) =
    if maxRequestSize <? blen req then Err (RequestTooLarge (blen req)) else Ok (req, r).
Proof.
  intros Hft Hp Hc Hreq.
  assert (Hframe : ∀ ft pl, 0 ≤ ft < 256 → 1 + blen pl < 2 ^ 32 →
    ReadFrame (WriteFrame ft pl ++ r) = Ok (ft, pl, r)).
  { intros f pl Hf Hpl. unfold ReadFrame, WriteFrame.
    rewrite <- !app_assoc, ReadFull_app by (by rewrite length_PutUint32).
    rewrite Uint32_Put, wrap_u_small by (unfold blen in *; lia).
    destruct (Z.eqb_spec (1 + blen pl) 0); [unfold blen in *; lia|].
    change ([byte_of f] ++ pl ++ r) with ((byte_of f :: pl) ++ r).
    rewrite ReadFull_app by (unfold blen; simpl; lia).
    by rewrite byte_val_of, Z.mod_small. }
  split; [by apply Hframe|]. split; [|split].
  - unfold WriteExitFrame, PutUint32 at 1. rewrite Hframe; [|done|].
    + do 3 f_equal. unfold PutUint32, wrap_u. by rewrite Z.mod_mod.
    + unfold blen. rewrite length_put_be. lia.
  - rewrite Uint32_Put. by apply i32_of_u32.
  - unfold ReadRequest_payload, writeFrame. rewrite <- app_assoc, ReadFull_app by (by rewrite length_PutUint32).
    rewrite Uint32_Put, wrap_u_small by (unfold blen in *; lia).
    destruct (maxRequestSize <? blen req); [done|]. rewrite ReadFull_app by (unfold blen; lia). done.
Qed.

(** ** The derived allowlist *)

Lemma derive_paths_spec paths out a :
  a ∈ derive_paths paths out ↔
  a ∈ out ∨ ar_SSHHost a = "git@github.com"%string ∧
            ∃ p, p ∈ paths ∧ path_owner_repo p = Some (ar_OwnerRepo a).
Proof.
  revert out. induction paths as [|p paths IH]; intros out; cbn [derive_paths].
  { split; [by left|]. intros [?|(_ & p & ?%elem_of_nil & _)]; done. }
  setoid_rewrite elem_of_cons.
  destruct (path_owner_repo p) as [o|] eqn:Hp; [|rewrite IH; naive_solver].
  destruct a as [ah ao]. case_bool_decide as Hin.
  - rewrite IH. cbn. split; [naive_solver|]. intros [H|(-> & q & [->|Hq] & Hqo)]; [by left| |naive_solver].
    left. congruence.
  - rewrite IH, elem_of_app, list_elem_of_singleton. cbn. split; [naive_solver|].
    intros [H|(-> & q & [->|Hq] & Hqo)]; [by left; left| |naive_solver]. left. right. congruence.
Qed.

Lemma derive_paths_NoDup paths out : NoDup out → NoDup (derive_paths paths out).
Proof.
  revert out. induction paths as [|p paths IH]; intros out Hnd; cbn [derive_paths]; [done|].
  destruct (path_owner_repo p); [|auto]. case_bool_decide as Hin; [auto|]. apply IH, NoDup_app.
  split; [done|]. split; [|apply NoDup_singleton]. by intros x Hx ->%list_elem_of_singleton.
Qed.

Lemma derive_policies_spec ps out a :
  a ∈ derive_policies ps out ↔
  a ∈ out ∨ ar_SSHHost a = "git@github.com"%string ∧
            ∃ p path, p ∈ ps ∧ EqualFold (hp_Host p) "github.com" = true ∧ path ∈ hp_Paths p ∧
                      path_owner_repo path = Some (ar_OwnerRepo a).
Proof.
  revert out. induction ps as [|p ps IH]; intros out; cbn [derive_policies].
  { split; [by left|]. intros [?|(_ & p & q & ?%elem_of_nil & _)]; done. }
  rewrite IH. setoid_rewrite elem_of_cons. destruct (EqualFold (hp_Host p) "github.com") eqn:Hh.
  - rewrite derive_paths_spec. naive_solver.
  - split; [intros [?|(? & q & path & ? & ?)]; [by left|right; eauto 10]|].
    intros [?|(? & q & path & [->|?] & ? & ? & ?)]; [by left|congruence|right; eauto 10].
Qed.

Lemma derive_policies_NoDup ps out : NoDup out → NoDup (derive_policies ps out).
Proof.
  revert out. induction ps as [|p ps IH]; intros out Hnd; cbn [derive_policies]; [done|].
  apply IH. destruct (EqualFold _ _); [by apply derive_paths_NoDup|done].
Qed.

(** the relay's allowlist has exactly the owner/repo pairs that the github.com
    entries of the egress policy name, once each, all for git@github.com; policies
    of other hosts contribute nothing. *)
Lemma DeriveAllowlist_spec ps :
  NoDup (DeriveAllowlist ps) ∧
  ∀ a, a ∈ DeriveAllowlist ps ↔
    ar_SSHHost a = "git@github.com"%string ∧
    ∃ p path, p ∈ ps ∧ EqualFold (hp_Host p) "github.com" = true ∧ path ∈ hp_Paths p ∧
              path_owner_repo path = Some (ar_OwnerRepo a).
Proof.
  split; [apply derive_policies_NoDup, NoDup_nil_2|]. intros a. unfold DeriveAllowlist.
  rewrite derive_policies_spec, elem_of_nil. naive_solver.
Qed.

(** ** Witnesses *)

Definition example_cfg : RelayConfig :=
  mkRelayConfig (DeriveAllowlist [mkHostPolicy "GitHub.com" ["/acme/app/**"]]%string)
    ["refs/heads/nexus/**"]%string "/tmp/agent" 1000 "".
Definition example_host : Host := mkHost (λ _, true) "/root" true None None 0.
Definition example_request : Request :=
  mkRequest ["git@github.com"; "git-receive-pack 'acme/app.git'"]%string "/w" "".
Definition example_push : bytes := command_section [example_update "refs/heads/main"] ++ flush_pkt.

Lemma relay_forwards_what_it_checked_witness :
  ∃ a, a ∈ rc_Allowlist example_cfg ∧ EqualFold (ar_SSHHost a) "git@github.com" = true.
Proof.
  destruct (relay_forwards_what_it_checked example_cfg example_host (Some example_request) example_push
    "ssh" ["-o"; "BatchMode=yes"; "-o"; "StrictHostKeyChecking=accept-new"; "--"; "git@github.com";
           "git-receive-pack '/acme/app.git'"]%string ["SSH_AUTH_SOCK=/tmp/agent"; "HOME=/root"]%string)
    as (a & host & service & o & suf & Hin & Hh & _ & _ & _ & _ & Hargs & _).
  { apply list_elem_of_here. }
  exists a. split; [done|]. injection Hargs as <- _. exact Hh.
Defined.

Lemma relay_input_only_after_check_witness :
  KillSSH ∈ serveSession example_cfg example_host (Some example_request) example_push.
Proof.
  eapply (relay_input_only_after_check example_cfg example_host example_request _ example_push).
  - by vm_compute.
  - done.
  - by vm_compute.
  - eexists _, _, _. apply list_elem_of_here.
  - done.
Defined.

Lemma frame_roundtrip_witness :
  ReadFrame (WriteFrame FrameTypeStdout (chars "hello") ++ chars "x") =
  Ok (FrameTypeStdout, chars "hello", chars "x").
Proof.
  apply (frame_roundtrip FrameTypeStdout (chars "hello") 7 [] (chars "x")); by vm_compute.
Defined.
