(* ===== verification/Broker.v ===== *)
(** * internal/core/perimeter/cred: the credential broker ([cred.go])

    The broker maps placeholders, the only credentials a guest holds, to real tokens.
    Its two maps share entries by pointer: a heap of entries and two maps of
    locations model the sharing.  The abstract broker is a finite map from
    (sandbox, host) to a placeholder and a token; the refinement theorem shows that
    every operation is the expected one on that map, and that resolution reads it.

    Placeholders are minted outside (crypto/rand): an operation takes the minted
    text, and the theorems assume that it is not in use. *)

From stdpp Require Import prelude countable gmap fin_maps strings list.
From Stdlib Require Import ZArith Ascii Lia.
From S2P Require Import Prelude GoStrings Domain.

Abbreviation scope := (list ascii * string)%type (only parsing).

Record entry := mkEntry {
  e_realToken : string;
  e_placeholder : string;
  e_sandboxID : SandboxID;
  e_hosts : gset string;
}.

Record Broker := mkBroker {
  bk_heap : gmap positive entry;
  bk_byPlaceholder : gmap string positive;
  bk_byScope : gmap scope positive;
}.

(** 2099-12-31T23:59:59Z. *)
Definition syntheticExpiry : Time := 66238041599 * Second.

Record PlaceholderRecord := mkPlaceholderRecord {
  ph_Placeholder : string;
  ph_ExpiresAt : Time;
  ph_SandboxID : SandboxID;
  ph_Host : string;
}.

Inductive cred_error :=
| HostEmpty
| MintFailed
| UnknownPlaceholder
| ForeignPlaceholder
| NotRegistered (sandboxID : SandboxID) (host : string).

Definition NewBroker : Broker := mkBroker ∅ ∅ ∅.

Definition set_heap (h : gmap positive entry) (b : Broker) : Broker :=
  mkBroker h (bk_byPlaceholder b) (bk_byScope b).
Definition set_hosts (hs : gset string) (e : entry) : entry :=
  mkEntry (e_realToken e) (e_placeholder e) (e_sandboxID e) hs.
Definition set_token (t : string) (e : entry) : entry :=
  mkEntry t (e_placeholder e) (e_sandboxID e) (e_hosts e).

(** Removes the host from an entry, and the entry's placeholder once it has none. *)
Definition drop_host (l : positive) (host : string) (b : Broker) : Broker :=
  match bk_heap b !! l with
  | None => b
  | Some e =>
      let e' := set_hosts (e_hosts e ∖ {[host]}) e in
      mkBroker (<[l := e']> (bk_heap b))
        (if bool_decide (e_hosts e' = ∅) then delete (e_placeholder e) (bk_byPlaceholder b)
         else bk_byPlaceholder b)
        (bk_byScope b)
  end.

(** [minted] is the outcome of the mint function. *)
Definition register (sandboxID : SandboxID) (host realToken : string) (minted : option string)
    (b : Broker) : Broker * result cred_error PlaceholderRecord :=
  if String.eqb host "" then (b, Err HostEmpty)
  else
    match minted with
    | None => (b, Err MintFailed)
    | Some ph =>
        let sc := (sandboxID, host) in
        let l := fresh (dom (bk_heap b)) in
        let b := set_heap (<[l := mkEntry realToken ph sandboxID {[host]}]> (bk_heap b)) b in
        let b := match bk_byScope b !! sc with Some old => drop_host old host b | None => b end in
        (mkBroker (bk_heap b) (<[ph := l]> (bk_byPlaceholder b)) (<[sc := l]> (bk_byScope b)),
         Ok (mkPlaceholderRecord ph syntheticExpiry sandboxID host))
    end.

Definition RegisterPlaceholder := register.
Definition RegisterJWTPlaceholder := register.

Definition lookup_placeholder (placeholder : string) (b : Broker) : option (positive * entry) :=
  match bk_byPlaceholder b !! placeholder with
  | None => None
  | Some l => (λ e, (l, e)) <$> bk_heap b !! l
  end.

Definition Resolve (placeholder : string) (b : Broker) : option string :=
  (λ le, e_realToken le.2) <$> lookup_placeholder placeholder b.

Definition ResolveScoped (placeholder : string) (sandboxID : SandboxID) (host : string) (b : Broker)
    : option string :=
  match lookup_placeholder placeholder b with
  | None => None
  | Some (_, e) =>
      if negb (bool_decide (e_sandboxID e = sandboxID)) || negb (bool_decide (host ∈ e_hosts e))
      then None else Some (e_realToken e)
  end.

Definition RegisterPlaceholderForHost (sandboxID : SandboxID) (placeholder host : string) (b : Broker)
    : Broker * result cred_error unit :=
  if String.eqb host "" then (b, Err HostEmpty)
  else
    match lookup_placeholder placeholder b with
    | None => (b, Err UnknownPlaceholder)
    | Some (l, e) =>
        if negb (bool_decide (e_sandboxID e = sandboxID)) then (b, Err ForeignPlaceholder)
        else
          let sc := (sandboxID, host) in
          let b := match bk_byScope b !! sc with
                   | Some old => if bool_decide (old = l) then b else drop_host old host b
                   | None => b
                   end in
          (mkBroker (alter (λ e, set_hosts ({[host]} ∪ e_hosts e) e) l (bk_heap b))
             (bk_byPlaceholder b) (<[sc := l]> (bk_byScope b)), Ok tt)
    end.

Definition lookup_scope (sc : scope) (b : Broker) : option (positive * entry) :=
  match bk_byScope b !! sc with
  | None => None
  | Some l => (λ e, (l, e)) <$> bk_heap b !! l
  end.

Definition Placeholder (sandboxID : SandboxID) (host : string) (b : Broker) : option string :=
  (λ le, e_placeholder le.2) <$> lookup_scope (sandboxID, host) b.

Definition SetRealToken (sandboxID : SandboxID) (host newRealToken : string) (b : Broker)
    : Broker * result cred_error unit :=
  if String.eqb host "" then (b, Err HostEmpty)
  else
    match bk_byScope b !! (sandboxID, host) with
    | None => (b, Err (NotRegistered sandboxID host))
    | Some l => (set_heap (alter (set_token newRealToken) l (bk_heap b)) b, Ok tt)
    end.

Definition Revoke (sandboxID : SandboxID) (host : string) (b : Broker) : Broker :=
  match bk_byScope b !! (sandboxID, host) with
  | None => b
  | Some l =>
      let b := drop_host l host b in
      mkBroker (bk_heap b) (bk_byPlaceholder b) (delete (sandboxID, host) (bk_byScope b))
  end.

(** ** The invariant *)

(** The two maps agree: a placeholder leads to an entry that carries it and covers at
    least one host; a scope leads to an entry of its sandbox that covers its host
    and is reachable by its placeholder; and a reachable entry owns the scopes of all
    hosts it covers. *)
Record broker_inv (b : Broker) : Prop := {
  bi_placeholder ph l : bk_byPlaceholder b !! ph = Some l →
    ∃ e, bk_heap b !! l = Some e ∧ e_placeholder e = ph ∧ e_hosts e ≠ ∅;
  bi_scope sb host l : bk_byScope b !! (sb, host) = Some l →
    ∃ e, bk_heap b !! l = Some e ∧ e_sandboxID e = sb ∧ host ∈ e_hosts e ∧
         bk_byPlaceholder b !! e_placeholder e = Some l;
  bi_owned ph l e host : bk_byPlaceholder b !! ph = Some l → bk_heap b !! l = Some e →
    host ∈ e_hosts e → bk_byScope b !! (e_sandboxID e, host) = Some l;
}.

Lemma NewBroker_inv : broker_inv NewBroker.
Proof. constructor; intros *; cbn; by rewrite ?lookup_empty. Qed.

(** ** The abstract broker *)

(** What a scope resolves to. *)
Definition abs_broker (b : Broker) : gmap scope (string * string) :=
  omap (λ l, (λ e, (e_placeholder e, e_realToken e)) <$> bk_heap b !! l) (bk_byScope b).

Lemma abs_lookup b sc l e :
  bk_byScope b !! sc = Some l → bk_heap b !! l = Some e →
  abs_broker b !! sc = Some (e_placeholder e, e_realToken e).
Proof. intros H1 H2. unfold abs_broker. rewrite lookup_omap, H1. simpl. by rewrite H2. Qed.

Lemma abs_lookup_inv b sb host ph t :
  broker_inv b → abs_broker b !! (sb, host) = Some (ph, t) →
  ∃ l e, bk_byScope b !! (sb, host) = Some l ∧ bk_heap b !! l = Some e ∧ e_placeholder e = ph ∧
         e_realToken e = t ∧ e_sandboxID e = sb ∧ host ∈ e_hosts e ∧ bk_byPlaceholder b !! ph = Some l.
Proof.
  intros Hinv. unfold abs_broker. rewrite lookup_omap.
  destruct (bk_byScope b !! (sb, host)) as [l|] eqn:Hl; simpl; [|done].
  destruct (bi_scope b Hinv sb host l Hl) as (e & He & Hsb & Hh & Hph). rewrite He. simpl.
  intros H. injection H as <- <-. exists l, e. split_and!; done.
Qed.

Lemma abs_lookup_None b sb host :
  broker_inv b → abs_broker b !! (sb, host) = None → bk_byScope b !! (sb, host) = None.
Proof.
  intros Hinv. unfold abs_broker. rewrite lookup_omap.
  destruct (bk_byScope b !! (sb, host)) as [l|] eqn:Hl; simpl; [|done].
  destruct (bi_scope b Hinv sb host l Hl) as (e & He & _). by rewrite He.
Qed.

(** ** Dropping a scope *)

Lemma Revoke_no_scope sb host b : bk_byScope (Revoke sb host b) !! (sb, host) = None.
Proof.
  unfold Revoke. destruct (bk_byScope b !! (sb, host)) eqn:E; [|done]. cbn. apply lookup_delete_eq.
Qed.

Lemma Revoke_dom sb host b : dom (bk_heap (Revoke sb host b)) = dom (bk_heap b).
Proof.
  unfold Revoke, drop_host. destruct (bk_byScope b !! (sb, host)) as [l|]; [|done]. cbn.
  destruct (bk_heap b !! l) as [e|] eqn:He; cbn; [|done].
  rewrite dom_insert_L. apply elem_of_dom_2 in He. set_solver.
Qed.

(** A scope dropped, spelled out. *)
Lemma Revoke_eq sb host b l :
  broker_inv b → bk_byScope b !! (sb, host) = Some l →
  ∃ e, bk_heap b !! l = Some e ∧ e_sandboxID e = sb ∧ host ∈ e_hosts e ∧
       bk_byPlaceholder b !! e_placeholder e = Some l ∧
       Revoke sb host b =
         mkBroker (<[l := set_hosts (e_hosts e ∖ {[host]}) e]> (bk_heap b))
           (if bool_decide (e_hosts e ∖ {[host]} = ∅) then delete (e_placeholder e) (bk_byPlaceholder b)
            else bk_byPlaceholder b)
           (delete (sb, host) (bk_byScope b)).
Proof.
  intros Hinv Hl. destruct (bi_scope b Hinv sb host l Hl) as (e & He & Hsb & Hh & Hph).
  exists e. split_and!; [done..|]. unfold Revoke, drop_host. by rewrite Hl, He.
Qed.

Lemma Revoke_inv sb host b : broker_inv b → broker_inv (Revoke sb host b).
Proof.
  intros Hinv. destruct (bk_byScope b !! (sb, host)) as [l|] eqn:Hl; [|unfold Revoke; by rewrite Hl].
  destruct (Revoke_eq sb host b l Hinv Hl) as (e & He & Hsb & Hh & Hph & ->).
  set (e' := set_hosts (e_hosts e ∖ {[host]}) e). set (bp := if bool_decide _ then _ else _).
  assert (Hbp : ∀ ph l', bp !! ph = Some l' → bk_byPlaceholder b !! ph = Some l' ∧
                         (l' = l → e_hosts e' ≠ ∅)).
  { intros ph l' Hp. subst bp. case_bool_decide as Hempty.
    - apply lookup_delete_Some in Hp as [Hne Hp]. split; [done|]. intros ->.
      destruct (bi_placeholder b Hinv ph l Hp) as (e2 & He2 & Hp2 & _). congruence.
    - done. }
  assert (Hbp2 : ∀ ph l', bk_byPlaceholder b !! ph = Some l' → (ph = e_placeholder e → e_hosts e' ≠ ∅) →
                          bp !! ph = Some l').
  { intros ph l' Hp Hne. subst bp. case_bool_decide; [|done]. apply lookup_delete_Some.
    split; [|done]. intros <-. by apply Hne. }
  constructor; cbn.
  - intros ph l' [Hp Hne]%Hbp. destruct (bi_placeholder b Hinv ph l' Hp) as (e2 & He2 & Hp2 & Hn2).
    destruct (decide (l' = l)) as [->|Hll]; [|by rewrite lookup_insert_ne; eauto].
    rewrite lookup_insert_eq. exists e'. simplify_eq. auto.
  - intros sb' host' l' [Hne Hs]%lookup_delete_Some.
    destruct (bi_scope b Hinv sb' host' l' Hs) as (e2 & He2 & Hsb2 & Hh2 & Hp2).
    destruct (decide (l' = l)) as [->|Hll].
    + rewrite lookup_insert_eq. assert (e2 = e) as -> by congruence. exists e'.
      assert (host' ∈ e_hosts e') by (cbn; set_unfold; split; [done|congruence]).
      split_and!; [done..|]. apply Hbp2; [done|]. intros _. set_solver.
    + rewrite lookup_insert_ne by done. exists e2. split_and!; [done..|]. apply Hbp2; [done|].
      intros Heq. exfalso. rewrite Heq, Hph in Hp2. congruence.
  - intros ph l' e2 host' [Hp Hne]%Hbp Hl' Hin. destruct (decide (l' = l)) as [->|Hll].
    + rewrite lookup_insert_eq in Hl'. injection Hl' as <-. cbn in Hin |- *.
      apply lookup_delete_Some. split; [set_solver|]. eapply (bi_owned b Hinv); [exact Hp|done|set_solver].
    + rewrite lookup_insert_ne in Hl' by done. pose proof (bi_owned b Hinv _ _ _ _ Hp Hl' Hin) as Hs.
      apply lookup_delete_Some. split; [|done]. intros Heq. rewrite <- Heq in Hs. congruence.
Qed.

Lemma Revoke_abs sb host b :
  broker_inv b → abs_broker (Revoke sb host b) = delete (sb, host) (abs_broker b).
Proof.
  intros Hinv. destruct (bk_byScope b !! (sb, host)) as [l|] eqn:Hl.
  - destruct (Revoke_eq sb host b l Hinv Hl) as (e & He & _ & _ & _ & ->).
    apply map_eq. intros sc. unfold abs_broker. cbn. rewrite lookup_omap.
    destruct (decide ((sb, host) = sc)) as [<-|Hne].
    + by rewrite !lookup_delete_eq.
    + rewrite !lookup_delete_ne, lookup_omap by done.
      destruct (bk_byScope b !! sc) as [l'|]; [|done]. simpl.
      destruct (decide (l = l')) as [<-|Hll]; [by rewrite lookup_insert_eq, He|by rewrite lookup_insert_ne].
  - unfold Revoke. rewrite Hl. symmetry. apply delete_id. unfold abs_broker. by rewrite lookup_omap, Hl.
Qed.

(** ** Adding a scope *)

Lemma register_eq sb host tok ph b :
  broker_inv b → host ≠ ""%string →
  let b0 := Revoke sb host b in
  let l := fresh (dom (bk_heap b0)) in
  (register sb host tok (Some ph) b).1 =
    mkBroker (<[l := mkEntry tok ph sb {[host]}]> (bk_heap b0)) (<[ph := l]> (bk_byPlaceholder b0))
      (<[(sb, host) := l]> (bk_byScope b0)).
Proof.
  intros Hinv Hhost. cbv zeta. rewrite Revoke_dom. set (l := fresh (dom (bk_heap b))).
  unfold register. destruct (String.eqb_spec host ""); [done|]. fold l. cbn.
  assert (Hfresh : bk_heap b !! l = None) by (apply not_elem_of_dom, is_fresh).
  destruct (bk_byScope b !! (sb, host)) as [old|] eqn:Hold; [|unfold Revoke; by rewrite Hold].
  destruct (Revoke_eq sb host b old Hinv Hold) as (e & He & _ & _ & _ & ->).
  assert (Hne : l ≠ old) by (intros Heq; congruence).
  unfold drop_host. cbn. rewrite lookup_insert_ne, He by done. cbn.
  by rewrite insert_insert_ne, insert_delete_eq.
Qed.

Lemma register_inv sb host tok ph b :
  broker_inv b → bk_byPlaceholder b !! ph = None → broker_inv (register sb host tok (Some ph) b).1.
Proof.
  intros Hinv Hph. destruct (decide (host = ""%string)) as [->|Hhost]; [done|].
  rewrite register_eq by done. pose proof (Revoke_inv sb host b Hinv) as Hinv0.
  pose proof (Revoke_no_scope sb host b) as Hns.
  assert (Hph0 : bk_byPlaceholder (Revoke sb host b) !! ph = None).
  { destruct (bk_byScope b !! (sb, host)) as [old|] eqn:Hold; [|unfold Revoke; by rewrite Hold].
    destruct (Revoke_eq sb host b old Hinv Hold) as (e & _ & _ & _ & _ & ->). cbn.
    case_bool_decide; [|done]. rewrite lookup_delete. by case_decide. }
  set (b0 := Revoke sb host b) in *. set (l := fresh (dom (bk_heap b0))).
  assert (Hfresh : bk_heap b0 !! l = None) by (apply not_elem_of_dom, is_fresh).
  constructor; cbn.
  - intros ph' l'. rewrite !lookup_insert_Some. intros [[<- <-]|[Hne Hp]].
    + eexists. split; [apply lookup_insert_eq|]. cbn. split; [done|set_solver].
    + destruct (bi_placeholder b0 Hinv0 ph' l' Hp) as (e & He & ?). exists e.
      split; [|done]. apply lookup_insert_Some. right. split; [congruence|done].
  - intros sb' host' l'. rewrite lookup_insert_Some. intros [[[= <- <-] <-]|[Hne Hs]].
    + rewrite lookup_insert_eq. eexists. split; [done|]. cbn. rewrite lookup_insert_eq.
      split_and!; [done|set_solver|done].
    + destruct (bi_scope b0 Hinv0 sb' host' l' Hs) as (e & He & ? & ? & Hp). exists e.
      rewrite lookup_insert_ne by congruence. split_and!; [done..|].
      rewrite lookup_insert_ne by congruence. done.
  - intros ph' l' e host'. rewrite !lookup_insert_Some. intros [[<- <-]|[Hne Hp]] [[Hl <-]|[Hnl He]] Hin;
      try done.
    + cbn in *. left. set_unfold. by subst host'.
    + subst l'. destruct (bi_placeholder b0 Hinv0 ph' l Hp) as (e' & He' & _). congruence.
    + right. pose proof (bi_owned b0 Hinv0 _ _ _ _ Hp He Hin) as Hs. split; [|done].
      intros Heq. rewrite <- Heq in Hs. congruence.
Qed.

Lemma register_abs sb host tok ph b :
  broker_inv b → host ≠ ""%string →
  abs_broker (register sb host tok (Some ph) b).1 = <[(sb, host) := (ph, tok)]> (abs_broker b).
Proof.
  intros Hinv Hhost. rewrite register_eq by done.
  pose proof (Revoke_inv sb host b Hinv) as Hinv0.
  rewrite <- (insert_delete_eq (abs_broker b)), <- Revoke_abs by done. set (b0 := Revoke sb host b) in *.
  set (l := fresh (dom (bk_heap b0))).
  assert (Hfresh : bk_heap b0 !! l = None) by (apply not_elem_of_dom, is_fresh).
  apply map_eq. intros [sb' host']. unfold abs_broker. cbn. rewrite lookup_omap.
  destruct (decide ((sb, host) = (sb', host'))) as [<-|Hne].
  - rewrite !lookup_insert_eq. simpl. by rewrite lookup_insert_eq.
  - rewrite !lookup_insert_ne, lookup_omap by done.
    destruct (bk_byScope b0 !! (sb', host')) as [l'|] eqn:Hs; [|done]. simpl.
    destruct (bi_scope b0 Hinv0 _ _ _ Hs) as (e & He & _). by rewrite lookup_insert_ne by congruence.
Qed.

(** A second host on the same placeholder. *)
Definition extend (l : positive) (sb : SandboxID) (host : string) (b : Broker) : Broker :=
  mkBroker (alter (λ e, set_hosts ({[host]} ∪ e_hosts e) e) l (bk_heap b))
    (bk_byPlaceholder b) (<[(sb, host) := l]> (bk_byScope b)).

Lemma extend_own l e host b :
  bk_heap b !! l = Some e → host ∈ e_hosts e → bk_byScope b !! (e_sandboxID e, host) = Some l →
  extend l (e_sandboxID e) host b = b.
Proof.
  intros He Hh Hs. unfold extend. destruct b as [h bp bs]. cbn in *. f_equal; [|by apply insert_id].
  apply map_eq. intros l'. destruct (decide (l = l')) as [<-|Hne]; [|by rewrite lookup_alter_ne].
  rewrite lookup_alter_eq, He. simpl. destruct e as [t p s hs]. cbn in *.
  unfold set_hosts. cbn. do 2 f_equal. set_solver.
Qed.

Lemma ForHost_eq sb ph host b l e :
  broker_inv b → host ≠ ""%string → lookup_placeholder ph b = Some (l, e) → e_sandboxID e = sb →
  (RegisterPlaceholderForHost sb ph host b).1 =
    if bool_decide (bk_byScope b !! (sb, host) = Some l) then b else extend l sb host (Revoke sb host b).
Proof.
  intros Hinv Hhost Hlp Hsb. unfold RegisterPlaceholderForHost.
  destruct (String.eqb_spec host ""); [done|]. rewrite Hlp, bool_decide_true by done. cbn [negb].
  destruct (bk_byScope b !! (sb, host)) as [old|] eqn:Hold.
  - destruct (Revoke_eq sb host b old Hinv Hold) as (e0 & He0 & Hsb0 & Hh0 & _ & Hrev).
    destruct (decide (old = l)) as [->|Hne].
    + rewrite !bool_decide_true by done. cbn. subst sb. rewrite <- Hsb0.
      apply extend_own; [done|done|by rewrite Hsb0].
    + rewrite !bool_decide_false by congruence. rewrite Hrev. unfold drop_host. rewrite He0. cbn.
      unfold extend. cbn. by rewrite insert_delete_eq.
  - rewrite bool_decide_false by done. unfold Revoke. by rewrite Hold.
Qed.

Lemma lookup_placeholder_Some ph b l e :
  lookup_placeholder ph b = Some (l, e) ↔ bk_byPlaceholder b !! ph = Some l ∧ bk_heap b !! l = Some e.
Proof.
  unfold lookup_placeholder. destruct (bk_byPlaceholder b !! ph) as [l'|]; [|naive_solver].
  destruct (bk_heap b !! l') as [e'|] eqn:E; simpl; naive_solver.
Qed.

Lemma Revoke_keeps ph b l e sb host :
  broker_inv b → lookup_placeholder ph b = Some (l, e) → bk_byScope b !! (sb, host) ≠ Some l →
  lookup_placeholder ph (Revoke sb host b) = Some (l, e).
Proof.
  intros Hinv [Hp He]%lookup_placeholder_Some Hne. apply lookup_placeholder_Some.
  destruct (bk_byScope b !! (sb, host)) as [old|] eqn:Hold; [|unfold Revoke; by rewrite Hold].
  destruct (Revoke_eq sb host b old Hinv Hold) as (e0 & He0 & _ & _ & Hp0 & ->). cbn.
  assert (old ≠ l) by congruence. rewrite lookup_insert_ne by done. split; [|done].
  case_bool_decide; [|done]. apply lookup_delete_Some. split; [|done]. intros <-. congruence.
Qed.

Lemma extend_inv ph l e host b :
  broker_inv b → lookup_placeholder ph b = Some (l, e) → bk_byScope b !! (e_sandboxID e, host) = None →
  broker_inv (extend l (e_sandboxID e) host b).
Proof.
  intros Hinv [Hp He]%lookup_placeholder_Some Hnone.
  assert (Hh : ∀ l', alter (λ e, set_hosts ({[host]} ∪ e_hosts e) e) l (bk_heap b) !! l' =
    if decide (l = l') then Some (set_hosts ({[host]} ∪ e_hosts e) e) else bk_heap b !! l').
  { intros l'. case_decide as Hll; [subst; by rewrite lookup_alter_eq, He|by rewrite lookup_alter_ne]. }
  destruct (bi_placeholder b Hinv ph l Hp) as (e1 & He1 & Hph & _).
  assert (e1 = e) as -> by congruence.
  constructor; cbn; setoid_rewrite Hh.
  - intros ph' l' Hp'. destruct (bi_placeholder b Hinv ph' l' Hp') as (e' & He' & Hph' & Hne).
    case_decide as Hll; [|eauto]. subst l'. eexists. split; [done|].
    assert (e' = e) as -> by congruence. cbn. split; [done|set_solver].
  - intros sb' host' l'. rewrite lookup_insert_Some. intros [[[= <- <-] <-]|[Hne Hs]].
    + rewrite decide_True by done. eexists. split; [done|]. cbn.
      split; [done|]. split; [set_solver|]. by rewrite Hph.
    + destruct (bi_scope b Hinv sb' host' l' Hs) as (e' & He' & ? & ? & Hp').
      case_decide as Hll; [|eauto]. subst l'. assert (e' = e) as -> by congruence.
      eexists. split; [done|]. cbn. split; [done|]. split; [set_solver|done].
  - intros ph' l' e' host' Hp' He' Hin. apply lookup_insert_Some. case_decide as Hll.
    + subst l'. injection He' as <-. cbn in *. apply elem_of_union in Hin as [->%elem_of_singleton|Hin].
      * by left.
      * right. pose proof (bi_owned b Hinv _ _ _ _ Hp' He Hin). split; [congruence|done].
    + right. pose proof (bi_owned b Hinv _ _ _ _ Hp' He' Hin) as Hs. split; [|done].
      intros Heq. rewrite <- Heq in Hs. congruence.
Qed.

Lemma extend_abs ph l e host b :
  broker_inv b → lookup_placeholder ph b = Some (l, e) →
  abs_broker (extend l (e_sandboxID e) host b) =
  <[(e_sandboxID e, host) := (ph, e_realToken e)]> (abs_broker b).
Proof.
  intros Hinv [Hp He]%lookup_placeholder_Some.
  destruct (bi_placeholder b Hinv ph l Hp) as (e1 & He1 & Hph & _).
  assert (e1 = e) as -> by congruence.
  apply map_eq. intros sc. unfold abs_broker, extend. cbn. rewrite lookup_omap.
  destruct (decide ((e_sandboxID e, host) = sc)) as [<-|Hne].
  - rewrite !lookup_insert_eq. simpl. rewrite lookup_alter_eq, He. simpl. by rewrite Hph.
  - rewrite !lookup_insert_ne, lookup_omap by done. destruct (bk_byScope b !! sc) as [l'|]; [|done]. simpl.
    destruct (decide (l = l')) as [<-|Hll]; [by rewrite lookup_alter_eq, He|by rewrite lookup_alter_ne].
Qed.

Lemma ForHost_spec sb ph host b l e :
  broker_inv b → host ≠ ""%string → lookup_placeholder ph b = Some (l, e) → e_sandboxID e = sb →
  broker_inv (RegisterPlaceholderForHost sb ph host b).1 ∧
  abs_broker (RegisterPlaceholderForHost sb ph host b).1 =
    <[(sb, host) := (ph, e_realToken e)]> (abs_broker b).
Proof.
  intros Hinv Hhost Hlp Hsb. rewrite (ForHost_eq sb ph host b l e) by done.
  case_bool_decide as Hs.
  - split; [done|]. symmetry. apply insert_id.
    destruct (bi_scope b Hinv _ _ _ Hs) as (e' & He' & _).
    apply lookup_placeholder_Some in Hlp as [Hp He]. assert (e' = e) as -> by congruence.
    destruct (bi_placeholder b Hinv ph l Hp) as (e1 & He1 & Hph & _).
    assert (e1 = e) as -> by congruence.
    rewrite (abs_lookup b _ l e) by done. by rewrite Hph.
  - subst sb. pose proof (Revoke_inv (e_sandboxID e) host b Hinv) as Hinv0.
    pose proof (Revoke_keeps ph b l e (e_sandboxID e) host Hinv Hlp Hs) as Hlp0.
    split; [eapply extend_inv; [done|exact Hlp0|apply Revoke_no_scope]|].
    rewrite (extend_abs ph l e host) by done. rewrite Revoke_abs by done. apply insert_delete_eq.
Qed.

(** ** Rotation *)

Lemma set_token_lookup b l t l' e :
  alter (set_token t) l (bk_heap b) !! l' = Some e →
  ∃ e0, bk_heap b !! l' = Some e0 ∧ e = if decide (l = l') then set_token t e0 else e0.
Proof.
  destruct (decide (l = l')) as [<-|Hne].
  - rewrite lookup_alter_eq. destruct (bk_heap b !! l); simpl; [|done]. intros [= <-]. eauto.
  - rewrite lookup_alter_ne by done. eauto.
Qed.

Lemma set_token_fields b l t l' e0 :
  bk_heap b !! l' = Some e0 →
  ∃ e, alter (set_token t) l (bk_heap b) !! l' = Some e ∧ e_placeholder e = e_placeholder e0 ∧
       e_sandboxID e = e_sandboxID e0 ∧ e_hosts e = e_hosts e0 ∧
       e_realToken e = if decide (l = l') then t else e_realToken e0.
Proof.
  intros H. destruct (decide (l = l')) as [<-|Hne].
  - rewrite lookup_alter_eq, H. simpl. eexists. split; [done|]. done.
  - rewrite lookup_alter_ne by done. eauto 10.
Qed.

Lemma set_token_inv b l t : broker_inv b → broker_inv (set_heap (alter (set_token t) l (bk_heap b)) b).
Proof.
  intros Hinv. constructor; cbn.
  - intros ph l' Hp. destruct (bi_placeholder b Hinv ph l' Hp) as (e0 & He0 & ? & ?).
    destruct (set_token_fields b l t l' e0 He0) as (e & He & Hp1 & _ & Hh1 & _).
    exists e. rewrite Hp1, Hh1. auto.
  - intros sb host l' Hs. destruct (bi_scope b Hinv sb host l' Hs) as (e0 & He0 & ? & ? & ?).
    destruct (set_token_fields b l t l' e0 He0) as (e & He & Hp1 & Hs1 & Hh1 & _).
    exists e. rewrite Hp1, Hs1, Hh1. auto.
  - intros ph l' e host Hp He Hin. destruct (set_token_lookup b l t l' e He) as (e0 & He0 & ->).
    case_decide; cbn in *; by eapply (bi_owned b Hinv).
Qed.

(** Every scope that shares the placeholder gets the new token. *)
Definition rotate (ph t : string) (m : gmap scope (string * string)) : gmap scope (string * string) :=
  (λ pt, if bool_decide (pt.1 = ph) then (ph, t) else pt) <$> m.

Lemma set_token_abs b sb host l e t :
  broker_inv b → bk_byScope b !! (sb, host) = Some l → bk_heap b !! l = Some e →
  abs_broker (set_heap (alter (set_token t) l (bk_heap b)) b) = rotate (e_placeholder e) t (abs_broker b).
Proof.
  intros Hinv Hs He. apply map_eq. intros [sb' host']. unfold abs_broker, rotate. cbn.
  rewrite lookup_fmap, !lookup_omap. destruct (bk_byScope b !! (sb', host')) as [l'|] eqn:Hs'; [|done]. simpl.
  destruct (bi_scope b Hinv _ _ _ Hs) as (e1 & He1 & _ & _ & Hp1). assert (e1 = e) as -> by congruence.
  destruct (bi_scope b Hinv _ _ _ Hs') as (e2 & He2 & _ & _ & Hp2).
  destruct (set_token_fields b l t l' e2 He2) as (e3 & He3 & Hp3 & _ & _ & Ht3).
  rewrite He3, He2. simpl. rewrite Hp3, Ht3. case_decide as Hll; case_bool_decide as Hpp; simpl; try done.
  - by rewrite Hpp.
  - subst l'. congruence.
  - rewrite Hpp in Hp2. congruence.
Qed.

(** ** Refinement *)

Lemma ResolveScoped_abs b ph sb host t :
  broker_inv b → ResolveScoped ph sb host b = Some t ↔ abs_broker b !! (sb, host) = Some (ph, t).
Proof.
  intros Hinv. unfold ResolveScoped. split.
  - destruct (lookup_placeholder ph b) as [[l e]|] eqn:Hlp; [|done].
    apply lookup_placeholder_Some in Hlp as [Hp He].
    case_bool_decide as Hsb; [|done]. case_bool_decide as Hh; [|done]. cbn. intros [= <-].
    pose proof (bi_owned b Hinv _ _ _ _ Hp He Hh) as Hs. rewrite Hsb in Hs.
    destruct (bi_placeholder b Hinv ph l Hp) as (e1 & He1 & Hph & _).
    assert (e1 = e) as -> by congruence. rewrite (abs_lookup b _ l e) by done. by rewrite Hph.
  - intros (l & e & Hs & He & Hph & Ht & Hsb & Hh & Hp)%abs_lookup_inv; [|done].
    assert (lookup_placeholder ph b = Some (l, e)) as -> by (by apply lookup_placeholder_Some).
    rewrite !bool_decide_true by done. cbn. by rewrite Ht.
Qed.

Lemma lookup_placeholder_abs b ph l e :
  broker_inv b → lookup_placeholder ph b = Some (l, e) →
  ∃ h, abs_broker b !! (e_sandboxID e, h) = Some (ph, e_realToken e).
Proof.
  intros Hinv [Hp He]%lookup_placeholder_Some. destruct (bi_placeholder b Hinv ph l Hp) as (e1 & He1 & Hph & Hne).
  assert (e1 = e) as -> by congruence. apply set_choose_L in Hne as [h Hh].
  pose proof (bi_owned b Hinv _ _ _ _ Hp He Hh) as Hs. exists h. rewrite (abs_lookup b _ l e) by done. by rewrite Hph.
Qed.

Lemma abs_lookup_placeholder b ph sb host t :
  broker_inv b → abs_broker b !! (sb, host) = Some (ph, t) →
  ∃ l e, lookup_placeholder ph b = Some (l, e) ∧ e_sandboxID e = sb ∧ e_realToken e = t.
Proof.
  intros Hinv (l & e & Hs & He & Hph & Ht & Hsb & Hh & Hp)%abs_lookup_inv; [|done].
  exists l, e. split; [by apply lookup_placeholder_Some|done].
Qed.

Lemma Resolve_abs b ph t : broker_inv b → Resolve ph b = Some t ↔ ∃ sc, abs_broker b !! sc = Some (ph, t).
Proof.
  intros Hinv. unfold Resolve. split.
  - destruct (lookup_placeholder ph b) as [[l e]|] eqn:Hlp; simpl; [|done]. intros [= <-].
    destruct (lookup_placeholder_abs b ph l e Hinv Hlp) as [h Hh]. eauto.
  - intros [[sb' host'] (l & e & -> & _ & <-)%abs_lookup_placeholder]; done.
Qed.

Lemma Placeholder_abs b sb host : Placeholder sb host b = fst <$> abs_broker b !! (sb, host).
Proof.
  unfold Placeholder, lookup_scope, abs_broker. rewrite lookup_omap.
  destruct (bk_byScope b !! (sb, host)) as [l|]; [|done]. simpl. by destruct (bk_heap b !! l).
Qed.

(** One operation on the broker, with its effect on the abstract map. *)
Inductive broker_step : Broker → Broker → Prop :=
| step_register sb host tok ph b :
    bk_byPlaceholder b !! ph = None → broker_step b (register sb host tok (Some ph) b).1
| step_mint_failed sb host tok b : broker_step b (register sb host tok None b).1
| step_for_host sb ph host b : broker_step b (RegisterPlaceholderForHost sb ph host b).1
| step_set_token sb host t b : broker_step b (SetRealToken sb host t b).1
| step_revoke sb host b : broker_step b (Revoke sb host b).

Lemma broker_step_inv b b' : broker_step b b' → broker_inv b → broker_inv b'.
Proof.
  intros [sb host tok ph b0 Hph|sb host tok b0|sb ph host b0|sb host t b0|sb host b0] Hinv.
  - by apply register_inv.
  - unfold register. by destruct (String.eqb host "").
  - destruct (String.eqb_spec host "") as [->|Hhost]; [done|].
    destruct (lookup_placeholder ph b0) as [[l e]|] eqn:Hlp.
    + destruct (decide (e_sandboxID e = sb)) as [Hsb|Hsb]; [by eapply ForHost_spec|].
      unfold RegisterPlaceholderForHost. destruct (String.eqb_spec host ""); [done|].
      by rewrite Hlp, bool_decide_false.
    + unfold RegisterPlaceholderForHost. destruct (String.eqb_spec host ""); [done|]. by rewrite Hlp.
  - unfold SetRealToken. destruct (String.eqb host ""); [done|].
    destruct (bk_byScope b0 !! (sb, host)); [|done]. by apply set_token_inv.
  - by apply Revoke_inv.
Qed.

(** ** The operations on the abstract map *)

(** Each case of an operation: the state unchanged with an error, or the map it leaves. *)
Definition register_spec (b : Broker) (m : gmap scope (string * string)) : Prop :=
  ∀ sb host tok minted, let r := register sb host tok minted b in
  (host = ""%string → r = (b, Err HostEmpty)) ∧
  (host ≠ ""%string → minted = None → r = (b, Err MintFailed)) ∧
  (∀ ph, host ≠ ""%string → minted = Some ph →
     r.2 = Ok (mkPlaceholderRecord ph syntheticExpiry sb host) ∧ abs_broker r.1 = <[(sb, host) := (ph, tok)]> m).

Definition for_host_spec (b : Broker) (m : gmap scope (string * string)) : Prop :=
  ∀ sb ph host, let r := RegisterPlaceholderForHost sb ph host b in
  (host = ""%string → r = (b, Err HostEmpty)) ∧
  (host ≠ ""%string → (∀ sc t, m !! sc ≠ Some (ph, t)) → r = (b, Err UnknownPlaceholder)) ∧
  (∀ sb' host0 t, host ≠ ""%string → m !! (sb', host0) = Some (ph, t) → sb' ≠ sb → r = (b, Err ForeignPlaceholder)) ∧
  (∀ host0 t, host ≠ ""%string → m !! (sb, host0) = Some (ph, t) → r.2 = Ok tt ∧ abs_broker r.1 = <[(sb, host) := (ph, t)]> m).

Definition set_token_spec (b : Broker) (m : gmap scope (string * string)) : Prop :=
  ∀ sb host t, let r := SetRealToken sb host t b in
  (host = ""%string → r = (b, Err HostEmpty)) ∧
  (host ≠ ""%string → m !! (sb, host) = None → r = (b, Err (NotRegistered sb host))) ∧
  (∀ ph t0, host ≠ ""%string → m !! (sb, host) = Some (ph, t0) → r.2 = Ok tt ∧ abs_broker r.1 = rotate ph t m).

Definition resolution_spec (b : Broker) (m : gmap scope (string * string)) : Prop :=
  (∀ ph sb host t, ResolveScoped ph sb host b = Some t ↔ m !! (sb, host) = Some (ph, t)) ∧
  (∀ ph t, Resolve ph b = Some t ↔ ∃ sc, m !! sc = Some (ph, t)) ∧
  (∀ sb host, Placeholder sb host b = fst <$> m !! (sb, host)).

Lemma for_host_refines b : broker_inv b → for_host_spec b (abs_broker b).
Proof.
  intros Hinv sb ph host. cbv zeta. unfold RegisterPlaceholderForHost.
  destruct (String.eqb_spec host "") as [->|Hhost]; [split_and!; done|]. split_and!; [done|..].
  - intros _ Hno. destruct (lookup_placeholder ph b) as [[l e]|] eqn:Hlp; [|done].
    destruct (lookup_placeholder_abs b ph l e Hinv Hlp) as [h Hh]. by destruct (Hno _ _ Hh).
  - intros sb' host0 t _ (l & e & -> & He & _)%abs_lookup_placeholder Hne; [|done]. by rewrite bool_decide_false by congruence.
  - intros host0 t _ (l & e & Hlp & He & <-)%abs_lookup_placeholder; [|done].
    destruct (ForHost_spec sb ph host b l e Hinv Hhost Hlp He) as [_ Habs].
    unfold RegisterPlaceholderForHost in Habs. destruct (String.eqb_spec host ""); [done|]. rewrite Hlp in *.
    split; [by rewrite bool_decide_true|done].
Qed.

Lemma set_token_refines b : broker_inv b → set_token_spec b (abs_broker b).
Proof.
  intros Hinv sb host t. cbv zeta. unfold SetRealToken.
  destruct (String.eqb_spec host "") as [->|Hhost]; [split_and!; done|]. split_and!; [done|..].
  - intros _ Hn%abs_lookup_None; [|done]. by rewrite Hn.
  - intros ph t0 _ (l & e & Hs & He & Hph & _)%abs_lookup_inv; [|done]. rewrite Hs. split; [done|].
    cbn [fst]. rewrite (set_token_abs b sb host l e) by done. by rewrite Hph.
Qed.

Lemma register_refines b : broker_inv b → register_spec b (abs_broker b).
Proof.
  intros Hinv sb host tok minted. cbv zeta. split_and!.
  - by intros ->.
  - intros Hhost ->. unfold register. by destruct (String.eqb_spec host "").
  - intros ph Hhost ->. split; [|by apply register_abs]. unfold register. by destruct (String.eqb_spec host "").
Qed.

(** C28: in every reachable state the maps of the broker agree, and each operation is the expected one on the abstract
    map, refusals included.  Registration with an unused placeholder replaces the scope's; a further host shares
    placeholder and token, unless the placeholder is unknown or of another sandbox; rotation changes the token of every
    scope that shares the placeholder and no placeholder, unless the scope is not registered; an empty host is always
    refused and every refusal leaves the broker as it was; revocation removes one scope and leaves the others.  A scoped
    lookup yields a token exactly if the placeholder is the one registered for that sandbox and host, an unscoped one
    exactly if some scope has it, and the placeholder handed out is that of the scope. *)
Theorem broker_refines b :
  rtc broker_step NewBroker b →
  broker_inv b ∧ register_spec b (abs_broker b) ∧ for_host_spec b (abs_broker b) ∧ set_token_spec b (abs_broker b) ∧
  (∀ sb host, abs_broker (Revoke sb host b) = delete (sb, host) (abs_broker b)) ∧ resolution_spec b (abs_broker b).
Proof.
  intros Hsteps. assert (Hinv : broker_inv b).
  { refine (rtc_invariant broker_step broker_inv _ _ _ Hsteps NewBroker_inv). intros x y. apply broker_step_inv. }
  split; [done|]. split; [by apply register_refines|]. split; [by apply for_host_refines|].
  split; [by apply set_token_refines|]. split; [intros; by apply Revoke_abs|].
  split_and!; [intros; by apply ResolveScoped_abs|intros; by apply Resolve_abs|intros; apply Placeholder_abs].
Qed.

(** ** Witnesses *)

Definition example_broker : Broker :=
  let sb := replicate 16 "A"%char in
  let b := (register sb "github.com" "gho_real" (Some "ph1"%string) NewBroker).1 in
  (RegisterPlaceholderForHost sb "ph1" "api.github.com" b).1.

Lemma example_broker_reachable : rtc broker_step NewBroker example_broker.
Proof.
  eapply rtc_l; [by apply (step_register (replicate 16 "A"%char) "github.com" "gho_real" "ph1")|].
  eapply rtc_l; [apply (step_for_host (replicate 16 "A"%char) "ph1" "api.github.com")|]. apply rtc_refl.
Qed.

Lemma broker_refines_witness :
  abs_broker (SetRealToken (replicate 16 "A"%char) "github.com" "gho_new" example_broker).1 =
  rotate "ph1" "gho_new" (abs_broker example_broker) ∧
  ResolveScoped "ph1" (replicate 16 "A"%char) "api.github.com" example_broker = Some "gho_real"%string.
Proof.
  destruct (broker_refines example_broker example_broker_reachable) as (_ & _ & _ & Hset & _ & Hres & _). split.
  - by apply (Hset (replicate 16 "A"%char) "github.com"%string "gho_new"%string) with (t0 := "gho_real"%string).
  - by apply Hres.
Defined.
