(* ===== verification/PathPolicy.v ===== *)
(** * internal/core/perimeter/mitm: path policies ([proxy.go])

    The pure part of the credential-swapping proxy: canonical paths, the GitHub
    built-in policy, glob patterns, policy lookup and the GraphQL token-validation
    query, with [domain.IsGitHubHost].  The request pipeline that uses them is in
    Proxy. *)

From stdpp Require Import prelude gmap strings list.
From Stdlib Require Import ZArith Ascii Lia.
From S2P Require Import Prelude GoStrings GoIO GoPath.

(** [domain.IsGitHubHost] *)
Definition IsGitHubHost (h : string) : bool :=
  let h := TrimRightByte (ToLower (TrimSpace h)) "."%char in
  String.eqb h "github.com" || String.eqb h "githubusercontent.com" ||
  HasSuffix h ".github.com" || HasSuffix h ".githubusercontent.com".

Definition matchesDotSuffix (host : string) (suffixes : list string) : bool :=
  existsb (λ s, HasSuffix host s) suffixes.

(** ** Canonical paths *)

Definition segment_char (c : ascii) : bool :=
  let n := byte_val c in
  ((65 <=? n) && (n <=? 90)) || ((97 <=? n) && (n <=? 122)) || ((48 <=? n) && (n <=? 57)) ||
  bool_decide (c = "."%char) || bool_decide (c = "_"%char) || bool_decide (c = "~"%char) ||
  bool_decide (c = "-"%char).

Definition segmentOK (s : string) : bool := forallb segment_char (chars s).

Definition isCanonicalPath (decoded escaped : string) : bool :=
  String.eqb (path_Clean decoded) decoded &&
  forallb (λ seg, String.eqb seg "" || segmentOK seg) (Split escaped "/"%char).

Definition allDigits (s : string) : bool :=
  negb (String.eqb s "") && forallb (λ c, (48 <=? byte_val c) && (byte_val c <=? 57)) (chars s).

(** ** The GitHub built-in policy *)

Definition isGitHubPublicArtifactPath (method path : string) : bool :=
  if negb (String.eqb method "GET") && negb (String.eqb method "HEAD") then false
  else
    match Split (TrimPrefix path "/") "/"%char with
    | s0 :: s1 :: s2 :: s3 :: rest =>
        if String.eqb s0 "" || String.eqb s1 "" then false
        else if String.eqb s2 "archive" then negb (String.eqb s3 "")
        else if String.eqb s2 "releases" then
          match rest with
          | s4 :: _ => String.eqb s3 "download" && negb (String.eqb s4 "")
          | [] => false
          end
        else false
    | _ => false
    end.

Definition gitHubHostCarveOut (host method path : string) : bool :=
  if String.eqb host "github.com" then isGitHubPublicArtifactPath method path
  else if String.eqb host "api.github.com" then
    (String.eqb method "GET" && String.eqb path "/") || HasPrefix path "/graphql"
  else false.

Definition is_GET (method : string) : bool := String.eqb method "GET".
Definition is_POST (method : string) : bool := String.eqb method "POST".
Definition is_PATCH (method : string) : bool := String.eqb method "PATCH".
Definition is_DELETE (method : string) : bool := String.eqb method "DELETE".

(** The shapes below /releases/ with a numeric id. *)
Definition release_path_allowed (method suf : string) : bool :=
  match CutPrefix suf "assets/" with
  | Some rest => allDigits rest && (is_GET method || is_PATCH method || is_DELETE method)
  | None =>
      match Cut suf "/"%char with
      | Some (id, sub) => allDigits id && (String.eqb sub "assets" && is_GET method)
      | None => allDigits suf && (is_GET method || is_PATCH method || is_DELETE method)
      end
  end.

Definition api_path_allowed (method path owner repo : string) : bool :=
  let repoBase := "/repos/" +:+ owner +:+ "/" +:+ repo in
  let relBase := repoBase +:+ "/releases" in
  if is_GET method && String.eqb path "/user" then true
  else if is_GET method && String.eqb path repoBase then true
  else if (is_GET method || is_POST method) && String.eqb path (repoBase +:+ "/pulls") then true
  else if is_GET method && String.eqb path relBase then true
  else if is_POST method && String.eqb path relBase then true
  else if is_GET method && String.eqb path (relBase +:+ "/latest") then true
  else if is_GET method && HasPrefix path (relBase +:+ "/tags/") then true
  else if is_GET method && String.eqb path (repoBase +:+ "/stacks") then true
  else if is_POST method && String.eqb path (repoBase +:+ "/stacks") then true
  else if is_POST method && HasPrefix path "/stacks/" then
    match SplitN (TrimPrefix path "/stacks/") "/"%char 2 with
    | [id; verb] => allDigits id && (String.eqb verb "add" || String.eqb verb "unstack")
    | _ => false
    end
  else if is_GET method && HasPrefix path (repoBase +:+ "/pulls/") then
    match Cut (TrimPrefix path (repoBase +:+ "/pulls/")) "/"%char with
    | Some (prNum, sub) => allDigits prNum && (String.eqb sub "reviews" || String.eqb sub "comments")
    | None => allDigits (TrimPrefix path (repoBase +:+ "/pulls/"))
    end
  else if is_PATCH method && HasPrefix path (repoBase +:+ "/pulls/") then
    allDigits (TrimPrefix path (repoBase +:+ "/pulls/"))
  else if HasPrefix path "/graphql" then true
  else match CutPrefix path (relBase +:+ "/") with
       | None => false
       | Some suf => release_path_allowed method suf
       end.

Definition gitHubPathAllowed (host method path owner repo : string) : bool :=
  if String.eqb host "github.com" then
    let prefix := "/" +:+ owner +:+ "/" +:+ repo +:+ ".git/" in
    (is_GET method && String.eqb path (prefix +:+ "info/refs")) ||
    (is_POST method && String.eqb path (prefix +:+ "git-upload-pack")) ||
    (is_POST method && String.eqb path (prefix +:+ "git-receive-pack")) ||
    isGitHubPublicArtifactPath method path
  else if String.eqb host "api.github.com" then api_path_allowed method path owner repo
  else if String.eqb host "uploads.github.com" then
    match CutPrefix path ("/repos/" +:+ owner +:+ "/" +:+ repo +:+ "/releases/") with
    | None => false
    | Some suf =>
        is_POST method &&
        match Cut suf "/"%char with
        | Some (id, sub) => allDigits id && String.eqb sub "assets"
        | None => false
        end
    end
  else false.

(** ** Glob patterns *)

Record GlobPattern := mkGlobPattern { gp_method : string; gp_segs : list string }.

Inductive glob_error := NotRooted | BadSegment (seg : string).

Fixpoint first_bad_segment (segs : list string) : option string :=
  match segs with
  | [] => None
  | s :: segs => if String.eqb s "*" || String.eqb s "**" || segmentOK s
                 then first_bad_segment segs else Some s
  end.

Definition CompileGlobPattern (pattern : string) : result glob_error GlobPattern :=
  let '(method, p) :=
    match Cut pattern " "%char with
    | Some (m, rest) => if String.eqb m "" then (""%string, pattern) else (ToUpper m, rest)
    | None => (""%string, pattern)
    end in
  if negb (HasPrefix p "/") then Err NotRooted
  else
    let segs := Split p "/"%char in
    match first_bad_segment (drop 1 segs) with
    | Some s => Err (BadSegment s)
    | None => Ok (mkGlobPattern method segs)
    end.

(** A double star tries every suffix. *)
Fixpoint matchGlobSegs (pat segs : list string) : bool :=
  match pat with
  | [] => match segs with [] => true | _ => false end
  | p :: pat' =>
      if String.eqb p "**" then
        (fix try segs := matchGlobSegs pat' segs ||
                         match segs with [] => false | _ :: segs' => try segs' end) segs
      else
        match segs with
        | [] => false
        | s :: segs' => if negb (String.eqb p "*") && negb (String.eqb p s) then false
                        else matchGlobSegs pat' segs'
        end
  end.

Definition matchPath (gp : GlobPattern) (method reqPath : string) : bool :=
  if negb (String.eqb (gp_method gp) "") && negb (EqualFold (gp_method gp) method) then false
  else matchGlobSegs (gp_segs gp) (Split reqPath "/"%char).

(** ** Policies per placeholder and host *)

Record GitHubPolicy := mkGitHubPolicy { gh_Owner : string; gh_Name : string }.
Record HostPathPolicy := mkHostPathPolicy {
  hpp_GitHub : option GitHubPolicy;
  hpp_Patterns : list GlobPattern;
}.
Abbreviation PathPolicies := (gmap string (gmap string HostPathPolicy)) (only parsing).

Definition githubWildcardHost : string := "*.github.com".

Definition buildPathPolicies (pp : PathPolicies) (allowedRepo : string) : result string PathPolicies :=
  if String.eqb allowedRepo "" then Ok pp
  else
    match Cut allowedRepo "/"%char with
    | Some (owner, name) =>
        if String.eqb owner "" || String.eqb name "" then Err "not in owner/repo format"%string
        else Ok (<[""%string := {[githubWildcardHost :=
                     mkHostPathPolicy (Some (mkGitHubPolicy owner name)) []]}]> pp)
    | None => Err "not in owner/repo format"%string
    end.

Definition lookupInMap (host : string) (hostMap : gmap string HostPathPolicy) : option HostPathPolicy :=
  match hostMap !! host with
  | Some pol => Some pol
  | None => if IsGitHubHost host then hostMap !! githubWildcardHost else None
  end.

Definition lookupPolicy (pp : PathPolicies) (placeholder host : string) : option HostPathPolicy :=
  match pp !! placeholder ≫= lookupInMap host with
  | Some pol => Some pol
  | None => if String.eqb placeholder "" then None else pp !! ""%string ≫= lookupInMap host
  end.

Definition extractPlaceholder (authHeader : string) : string :=
  match CutPrefix authHeader "Bearer " with
  | Some rest => rest
  | None =>
      match CutPrefix authHeader "token " with
      | Some rest => rest
      | None =>
          match CutPrefix authHeader "Basic " with
          | Some rest =>
              match DecodeString rest with
              | None => ""%string
              | Some raw => match Cut raw ":"%char with Some (_, pass) => pass | None => ""%string end
              end
          | None => ""%string
          end
      end
  end.

(** ** The GraphQL token-validation query *)

Definition githubTokenValidationQueries : list string :=
  ["queryUserCurrent{viewer{login}}"; "query{viewer{login}}"; "{viewer{login}}"]%string.

Definition stripASCIIWhitespace (s : string) : string :=
  of_chars (List.filter (λ c, negb (existsb (Ascii.eqb c) [" "; "009"; "010"; "013"; ","]%char)) (chars s)).

(** What encoding/json makes of a body: nothing, a value that is not an object, or the
    members of an object in their order.  A value is its text and, for a string,
    what it denotes. *)
Record jval := mkJval { j_raw : string; j_string : option string }.
Inductive json_doc :=
| JInvalid
| JNull
| JNotObject
| JObject (members : list (string * jval)).

Definition hasDuplicateTopLevelJSONKeys (doc : json_doc) : bool :=
  match doc with JObject ms => negb (bool_decide (NoDup ms.*1)) | _ => false end.

(** Decoding into the struct: a member sets the field whose name it equals up to case,
    the last one winning; a query that is neither a string nor null is an error. *)
Fixpoint decode_members (ms : list (string * jval)) (query variables : string)
    : option (string * string) :=
  match ms with
  | [] => Some (query, variables)
  | (k, v) :: ms =>
      if EqualFold k "query" then
        match j_string v with
        | Some q => decode_members ms q variables
        | None => if String.eqb (j_raw v) "null" then decode_members ms query variables else None
        end
      else if EqualFold k "variables" then decode_members ms query (j_raw v)
      else decode_members ms query variables
  end.

Definition decode_query (doc : json_doc) : option (string * string) :=
  match doc with
  | JObject ms => decode_members ms "" ""
  | JNull => Some (""%string, ""%string)
  | _ => None
  end.

Definition maxGraphQLValidationBody : Z := 4096.

(** [body] is the request's body, if it has one, and [doc] what it parses to. *)
Definition isGitHubTokenValidationQuery (method : string) (body : option bytes) (doc : json_doc) : bool :=
  match body with
  | None => false
  | Some buf =>
      if negb (String.eqb method "POST") || (maxGraphQLValidationBody <? Z.of_nat (length buf)) then false
      else if hasDuplicateTopLevelJSONKeys doc then false
      else
        match decode_query doc with
        | None => false
        | Some (query, variables) =>
            let v := TrimSpace variables in
            if negb (String.eqb v "") && negb (String.eqb v "null") && negb (String.eqb v "{}") then false
            else existsb (String.eqb (stripASCIIWhitespace query)) githubTokenValidationQueries
        end
  end.

(** ** Globs *)

(** What a compiled pattern means. *)
Inductive glob_match : list string → list string → Prop :=
| gm_nil : glob_match [] []
| gm_star s pat segs : glob_match pat segs → glob_match ("*"%string :: pat) (s :: segs)
| gm_lit s pat segs : s ≠ "**"%string → glob_match pat segs → glob_match (s :: pat) (s :: segs)
| gm_double pre pat segs : glob_match pat segs → glob_match ("**"%string :: pat) (pre ++ segs).

Lemma matchGlobSegs_double pat segs :
  matchGlobSegs ("**"%string :: pat) segs = true ↔
  ∃ pre rest, segs = pre ++ rest ∧ matchGlobSegs pat rest = true.
Proof.
  cbn [matchGlobSegs]. rewrite String.eqb_refl. split.
  - induction segs as [|s segs IH]; rewrite orb_true_iff; intros [H|H]; try done.
    + by exists [], [].
    + by exists [], (s :: segs).
    + destruct (IH H) as (pre & rest & -> & Hr). by exists (s :: pre), rest.
  - intros (pre & rest & -> & H). induction pre as [|s pre IH]; cbn [app].
    + destruct rest; by rewrite H.
    + rewrite IH. apply orb_true_r.
Qed.

(** C40: the glob matcher decides the documented meaning of a pattern: a star stands for
    exactly one segment, a double star for any number of segments including none, any
    other segment for itself. *)
Lemma matchGlobSegs_correct pat segs : matchGlobSegs pat segs = true ↔ glob_match pat segs.
Proof.
  split.
  - revert segs. induction pat as [|p pat IH]; intros segs; [by destruct segs; [constructor|]|].
    destruct (String.eqb_spec p "**") as [->|Hd].
    { rewrite matchGlobSegs_double. intros (pre & rest & -> & H). constructor. by apply IH. }
    cbn [matchGlobSegs]. destruct (String.eqb_spec p "**"); [done|].
    destruct segs as [|s segs]; [done|].
    destruct (String.eqb_spec p "*") as [->|]; cbn [negb andb]; [intros H; constructor; by apply IH|].
    destruct (String.eqb_spec p s) as [->|]; cbn [negb]; [|done]. intros H. by constructor; [|apply IH].
  - intros H. induction H as [|s pat segs H IH|s pat segs Hs H IH|pre pat segs H IH]; [done|..].
    + cbn [matchGlobSegs]. change (String.eqb "*" "**") with false. cbv iota.
      by change (String.eqb "*" "*") with true.
    + cbn [matchGlobSegs]. destruct (String.eqb_spec s "**"); [done|].
      by rewrite String.eqb_refl, andb_false_r.
    + apply matchGlobSegs_double. eauto.
Qed.

(** ** Canonical paths *)

(** The characters of a joined text are those of its parts and the separators. *)
Lemma join_chars (P : ascii → Prop) l :
  Forall (λ s, "/"%char ∉ chars s) l →
  (∀ s, s ∈ l → ∀ c, c ∈ chars s → P c) ↔
  (∀ c, c ∈ join_bytes "/"%char (chars <$> l) → c = "/"%char ∨ P c).
Proof.
  intros Hn. induction l as [|s [|t l] IH].
  - split; [by intros _ c ?%elem_of_nil|by intros _ x ?%elem_of_nil].
  - cbn. setoid_rewrite list_elem_of_singleton. apply Forall_inv in Hn. split.
    + intros H c Hc. right. by eapply H.
    + intros H x -> c Hc. destruct (H c Hc) as [->|]; done.
  - apply Forall_cons in Hn as [Hs Hn]. specialize (IH Hn).
    change (chars <$> s :: t :: l) with (chars s :: (chars <$> t :: l)).
    change (join_bytes "/"%char (chars s :: (chars <$> t :: l)))
      with (chars s ++ "/"%char :: join_bytes "/"%char (chars <$> t :: l)).
    setoid_rewrite elem_of_app. setoid_rewrite elem_of_cons at 2.
    setoid_rewrite elem_of_cons at 1. split.
    + intros H c [Hc|[->|Hc]]; [right; eapply H; eauto|by left|].
      apply IH; [|done]. intros x Hx. apply H. by right.
    + intros H x [->|Hx] c Hc.
      * destruct (H c (or_introl Hc)) as [->|]; done.
      * revert x Hx c Hc. apply IH. intros c Hc. apply H. auto.
Qed.

(** a rooted path passes the canonical-path check exactly if it is a list of plain
    segments, none empty, dot or dot-dot, and its wire form consists of letters,
    digits, dots, underscores, tildes and hyphens between the slashes: no percent
    escapes, backslashes, semicolons or non-ASCII bytes. *)
Lemma isCanonicalPath_spec decoded escaped :
  HasPrefix decoded "/" = true →
  isCanonicalPath decoded escaped = true ↔
    (∃ segs, Forall plain_segment segs ∧ decoded = "/" +:+ String.concat "/" segs) ∧
    ∀ c, c ∈ chars escaped → c = "/"%char ∨ segment_char c = true.
Proof.
  intros Hp. unfold isCanonicalPath. rewrite andb_true_iff, String.eqb_eq, Clean_rooted_fixed by done.
  enough (forallb (λ seg, String.eqb seg "" || segmentOK seg) (Split escaped "/"%char) = true ↔
          ∀ c, c ∈ chars escaped → c = "/"%char ∨ segment_char c = true) as -> by done.
  assert (Hok : ∀ seg, String.eqb seg "" || segmentOK seg = true ↔
                       ∀ c, c ∈ chars seg → segment_char c = true).
  { intros seg. unfold segmentOK. rewrite orb_true_iff, forallb_forall, String.eqb_eq.
    setoid_rewrite <- list_elem_of_In. split; [|by right].
    intros [->|H]; [|done]. by intros c ?%elem_of_nil. }
  rewrite forallb_forall. setoid_rewrite Hok. setoid_rewrite <- list_elem_of_In.
  assert (He : chars escaped = join_bytes "/"%char (chars <$> Split escaped "/"%char))
    by (by rewrite <- chars_concat, concat_Split).
  rewrite He. apply join_chars, Split_notin.
Qed.

(** ** Confinement of the GitHub policy *)

Definition repo_base (owner repo : string) : string := "/repos/" +:+ owner +:+ "/" +:+ repo.

(** A path equal to a base or below it. *)
Definition under (base path : string) : Prop := path = base ∨ ∃ rest, path = base +:+ "/" +:+ rest.

Lemma under_sub base x : under base (base +:+ "/" +:+ x).
Proof. right. eauto. Qed.

Lemma under_prefix base x path : HasPrefix path (base +:+ "/" +:+ x) = true → under base path.
Proof. intros [r ->]%HasPrefix_true. right. exists (x +:+ r). by rewrite !str_app_assoc. Qed.

(** What the policy lets through on the API host. *)
Definition api_confined (method path owner repo : string) : Prop :=
  under (repo_base owner repo) path ∨
  (method = "GET" ∧ path = "/user")%string ∨
  (method = "POST"%string ∧ ∃ id verb, allDigits id = true ∧ (verb = "add" ∨ verb = "unstack")%string ∧
     path = "/stacks/" +:+ id +:+ "/" +:+ verb) ∨
  HasPrefix path "/graphql" = true.

(** One case of a switch that compares the path: what its guard says. *)
Ltac guard_case :=
  match goal with
  | |- (if ?c && String.eqb ?a ?b then true else _) = _ → _ =>
      destruct (c && String.eqb a b) eqn:?Hc;
        [apply andb_prop in Hc as [Hm ->%String.eqb_eq]; intros _;
         first [right; left; split; [by apply String.eqb_eq|done]|left; by left|
                left; apply under_sub|left; rewrite str_app_assoc; apply under_sub]|clear Hc]
  end.

Lemma stacks_path method path :
  match SplitN (TrimPrefix path "/stacks/") "/"%char 2 with
  | [id; verb] => allDigits id && (String.eqb verb "add" || String.eqb verb "unstack")
  | _ => false
  end = true →
  is_POST method = true → HasPrefix path "/stacks/" = true →
  method = "POST"%string ∧ ∃ id verb, allDigits id = true ∧ (verb = "add" ∨ verb = "unstack")%string ∧
    path = "/stacks/" +:+ id +:+ "/" +:+ verb.
Proof.
  intros H Hm [rest ->]%HasPrefix_true. rewrite TrimPrefix_app in H. split; [by apply String.eqb_eq|].
  destruct (SplitN rest "/"%char 2) as [|id [|verb []]] eqn:Hs; try done.
  apply andb_prop in H as [Hd Hv]. exists id, verb. apply SplitN_2_inv in Hs as [-> _].
  split; [done|]. split; [|done]. apply orb_prop in Hv as [Hv|Hv]; apply String.eqb_eq in Hv; auto.
Qed.

Lemma api_path_allowed_confined method path owner repo :
  api_path_allowed method path owner repo = true → api_confined method path owner repo.
Proof.
  unfold api_path_allowed, api_confined. fold (repo_base owner repo). set (base := repo_base owner repo).
  repeat guard_case.
  destruct (is_GET method && HasPrefix path _) eqn:Hc.
  { apply andb_prop in Hc as [_ Hc]. rewrite str_app_assoc in Hc.
    intros _. left. by apply (under_prefix base "releases/tags/"). }
  clear Hc. repeat guard_case.
  destruct (is_POST method && HasPrefix path "/stacks/") eqn:Hc.
  { apply andb_prop in Hc as [Hm Hc]. intros H. right; right; left. by apply stacks_path. }
  clear Hc. destruct (is_GET method && HasPrefix path _) eqn:Hc.
  { apply andb_prop in Hc as [_ Hc]. intros _. left. by apply (under_prefix base "pulls/"). }
  clear Hc. destruct (is_PATCH method && HasPrefix path _) eqn:Hc.
  { apply andb_prop in Hc as [_ Hc]. intros _. left. by apply (under_prefix base "pulls/"). }
  clear Hc. destruct (HasPrefix path "/graphql") eqn:Hg; [auto|].
  destruct (CutPrefix path _) as [suf|] eqn:Hc; [|done]. apply CutPrefix_Some in Hc as ->.
  intros _. left. rewrite !str_app_assoc. apply under_sub.
Qed.

(** the GitHub policy confines a sandbox to its repository.  Whatever method and
    path it lets through address that repository (its git endpoints, its part of the
    API, its release uploads), with four exceptions: reads of public archives and
    release assets, the user's own record, additions to a numbered stack, and
    /graphql, which the next handler decides by its body. *)
Lemma github_policy_confines host method path owner repo :
  gitHubPathAllowed host method path owner repo = true →
  (host = "github.com"%string ∧
     (isGitHubPublicArtifactPath method path = true ∨
      ∃ service, service ∈ ["info/refs"; "git-upload-pack"; "git-receive-pack"]%string ∧
                 path = "/" +:+ owner +:+ "/" +:+ repo +:+ ".git/" +:+ service)) ∨
  (host = "api.github.com"%string ∧ api_confined method path owner repo) ∨
  (host = "uploads.github.com"%string ∧ method = "POST"%string ∧
     ∃ id, allDigits id = true ∧ path = repo_base owner repo +:+ "/releases/" +:+ id +:+ "/assets").
Proof.
  unfold gitHubPathAllowed. destruct (String.eqb_spec host "github.com") as [->|].
  { intros H. left. split; [done|]. rewrite !orb_true_iff, !andb_true_iff, !String.eqb_eq in H.
    destruct H as [[[[_ ->]|[_ ->]]|[_ ->]]|H]; [right..|by left];
      [exists "info/refs"%string|exists "git-upload-pack"%string|exists "git-receive-pack"%string];
      (split; [rewrite !elem_of_cons; auto|by rewrite !str_app_assoc]). }
  destruct (String.eqb_spec host "api.github.com") as [->|].
  { intros H. right; left. split; [done|]. by apply api_path_allowed_confined. }
  destruct (String.eqb_spec host "uploads.github.com") as [->|]; [|done].
  destruct (CutPrefix path _) as [suf|] eqn:Hc; [|done]. apply CutPrefix_Some in Hc as ->.
  intros [Hm%String.eqb_eq H]%andb_prop. destruct (Cut suf "/"%char) as [[id sub]|] eqn:Hcut; [|done].
  apply andb_prop in H as [Hd ->%String.eqb_eq]. right; right. split; [done|]. split; [done|].
  exists id. split; [done|]. apply Cut_Some in Hcut as ->. unfold repo_base. by rewrite !str_app_assoc.
Qed.

(** ** The query check and letter case *)

(** the duplicate-key check of the GraphQL gate is blind to letter case.  A body whose
    member "query" holds any document at all passes, if a later member "Query" holds
    the permitted one: the two keys differ, so they are not duplicates, and the
    decoder takes the last member that equals the field name up to case. *)
Lemma graphql_gate_case_bypass evil buf :
  Z.of_nat (length buf) ≤ maxGraphQLValidationBody →
  isGitHubTokenValidationQuery "POST" (Some buf)
    (JObject [("query", mkJval "" (Some evil)); ("Query", mkJval "" (Some "{viewer{login}}"))]%string) = true.
Proof.
  intros Hlen. unfold isGitHubTokenValidationQuery.
  destruct (Z.ltb_spec maxGraphQLValidationBody (Z.of_nat (length buf))); [lia|]. by vm_compute.
Qed.

(** With keys that differ in more than case, a passing body has a permitted query. *)
Lemma graphql_gate_sound method body doc :
  isGitHubTokenValidationQuery method body doc = true →
  method = "POST"%string ∧
  ∃ query variables, decode_query doc = Some (query, variables) ∧
    stripASCIIWhitespace query ∈ githubTokenValidationQueries.
Proof.
  unfold isGitHubTokenValidationQuery. destruct body as [buf|]; [|done].
  destruct (String.eqb_spec method "POST"); cbn [negb orb]; [|done].
  destruct (_ <? _); [done|]. destruct (hasDuplicateTopLevelJSONKeys doc); [done|].
  destruct (decode_query doc) as [[q v]|]; [|done]. destruct (_ && _ && _); [done|].
  intros (x & Hx & Heq%String.eqb_eq)%existsb_exists. split; [done|]. exists q, v.
  split; [done|]. rewrite Heq. by apply list_elem_of_In.
Qed.

(** ** Witnesses *)

Lemma isCanonicalPath_spec_witness :
  isCanonicalPath "/repos/acme/app" "/repos/acme/app" = true.
Proof.
  apply (isCanonicalPath_spec "/repos/acme/app" "/repos/acme/app"); [done|]. split.
  - exists ["repos"; "acme"; "app"]%string. split; [|done].
    repeat constructor; try done; vm_compute; intros H; repeat (apply elem_of_cons in H as [H|H]; [done|]);
      by apply elem_of_nil in H.
  - intros c Hc. assert (Hall : Forall (λ c, c = "/"%char ∨ segment_char c = true) (chars "/repos/acme/app"))
      by (apply (bool_decide_unpack _); by vm_compute).
    rewrite Forall_forall in Hall. by apply Hall.
Defined.

Lemma github_policy_confines_witness :
  api_confined "POST" "/repos/acme/app/pulls" "acme" "app".
Proof.
  destruct (github_policy_confines "api.github.com" "POST" "/repos/acme/app/pulls" "acme" "app")
    as [[H _]|[[_ H]|[H _]]]; [by vm_compute|discriminate H|exact H|discriminate H].
Defined.

Lemma graphql_gate_case_bypass_witness :
  isGitHubTokenValidationQuery "POST" (Some [])
    (JObject [("query", mkJval "" (Some "mutation{deleteRepo}"));
              ("Query", mkJval "" (Some "{viewer{login}}"))]%string) = true.
Proof. apply (graphql_gate_case_bypass "mutation{deleteRepo}" []). by vm_compute. Defined.
