(* ===== verification/Proxy.v ===== *)
(** * internal/core/perimeter/mitm: the request pipeline ([proxy.go], [allowset.go])

    The handlers [New] registers on the proxy, in their order: the CONNECT decision,
    the path policy, the branch check of a push, the GraphQL gate and the swap of
    placeholder credentials.  The proxy library runs the request handlers in order
    and stops at the first that answers; TLS, transports and the CA are not modelled.
    What encoding/json makes of a body is an argument. *)

From stdpp Require Import prelude countable gmap strings list.
From Stdlib Require Import ZArith Ascii Lia.
From S2P Require Import Prelude GoStrings GoIO GoPath GoNet Domain PktLine Broker PathPolicy.

(** ** The host set *)

Abbreviation MutableAllowSet := (gset string) (only parsing).

Definition NewMutableAllowSet (initial : list string) : MutableAllowSet := list_to_set (ToLower <$> initial).
Definition allow_Add (host : string) (s : MutableAllowSet) : MutableAllowSet := {[ToLower host]} ∪ s.
Definition allow_Has (s : MutableAllowSet) (host : string) : bool := bool_decide (ToLower host ∈ s).

(** ** Construction *)

(** The configuration without its CA material, transport, logger and hooks; the broker
    is an argument of the handlers. *)
Record Config := mkConfig {
  cf_SandboxID : SandboxID;
  cf_AllowedHosts : list string;
  cf_SecretHosts : list string;
  cf_SecretHostSuffixes : list string;
  cf_AllowAll : bool;
  cf_PathPolicies : PathPolicies;
  cf_AllowedRepo : string;
  cf_AllowedBranches : list string;
}.

Record Proxy := mkProxy {
  px_sandboxID : SandboxID;
  px_allowSet : MutableAllowSet;
  px_secretSet : gset string;
  px_secretSuffixes : list string;
  px_allowAll : bool;
  px_policies : PathPolicies;
  px_hasAnyGitHubPolicy : bool;
  px_branches : list string;
}.

Definition is_github_entry (hp : string * HostPathPolicy) : bool :=
  bool_decide (is_Some (hpp_GitHub hp.2)) || String.eqb hp.1 githubWildcardHost || IsGitHubHost hp.1.

Definition hasAnyGitHubPolicy (policies : PathPolicies) : bool :=
  existsb (λ php, existsb is_github_entry (map_to_list php.2)) (map_to_list policies).

(** [New], without its CA. *)
Definition New (cfg : Config) : result string Proxy :=
  let* policies := buildPathPolicies (cf_PathPolicies cfg) (cf_AllowedRepo cfg) in
  let secret := ToLower <$> cf_SecretHosts cfg in
  Ok (mkProxy (cf_SandboxID cfg)
        (fold_left (λ s h, allow_Add h s) secret (NewMutableAllowSet (cf_AllowedHosts cfg)))
        (list_to_set secret) (ToLower <$> cf_SecretHostSuffixes cfg) (cf_AllowAll cfg) policies
        (hasAnyGitHubPolicy policies) (cf_AllowedBranches cfg)).

Definition AllowHost (host : string) (px : Proxy) : Proxy :=
  mkProxy (px_sandboxID px) (allow_Add host (px_allowSet px)) (px_secretSet px) (px_secretSuffixes px)
    (px_allowAll px) (px_policies px) (px_hasAnyGitHubPolicy px) (px_branches px).

(** ** Requests *)

(** An absent Authorization header reads as the empty text. *)
Record HTTPRequest := mkHTTPRequest {
  r_Method : string;
  r_Host : string;
  r_URLHost : string;
  r_Path : string;
  r_EscapedPath : string;
  r_Authorization : string;
  r_Body : option bytes;
}.

Definition set_auth (a : string) (req : HTTPRequest) : HTTPRequest :=
  mkHTTPRequest (r_Method req) (r_Host req) (r_URLHost req) (r_Path req) (r_EscapedPath req) a (r_Body req).
Definition set_body (b : bytes) (req : HTTPRequest) : HTTPRequest :=
  mkHTTPRequest (r_Method req) (r_Host req) (r_URLHost req) (r_Path req) (r_EscapedPath req)
    (r_Authorization req) (Some b).

Definition stripHost (addr : string) : string :=
  match SplitHostPort addr with Some (h, _) => h | None => addr end.

Definition reqHost (req : HTTPRequest) : string :=
  let host := if String.eqb (r_Host req) "" then r_URLHost req else r_Host req in
  TrimSuffix (stripHost host) ".".

(** ** CONNECT *)

Inductive ConnectAction := ConnectMitm | ConnectHijack | OkConnect | RejectConnect.

(** The action, and the proxy with the host added for a suffix match. *)
Definition handleConnect (host : string) (px : Proxy) : Proxy * ConnectAction :=
  let lh := ToLower (stripHost host) in
  if bool_decide (lh ∈ px_secretSet px) then (px, ConnectMitm)
  else if matchesDotSuffix lh (px_secretSuffixes px) then (AllowHost lh px, ConnectHijack)
  else if px_allowAll px then (px, OkConnect)
  else if allow_Has (px_allowSet px) lh then (px, ConnectMitm)
  else (px, RejectConnect).

(** ** The handlers *)

(** Whether a request satisfies the policy found for it. *)
Definition policy_allows (pol : HostPathPolicy) (host method path : string) : bool :=
  if gitHubHostCarveOut host method path then true
  else match hpp_GitHub pol with
       | Some gh => gitHubPathAllowed host method path (gh_Owner gh) (gh_Name gh)
       | None => existsb (λ gp, matchPath gp method path) (hpp_Patterns pol)
       end.

(** True to refuse. *)
Definition path_handler (px : Proxy) (req : HTTPRequest) : bool :=
  let host := ToLower (reqHost req) in
  match lookupPolicy (px_policies px) (extractPlaceholder (r_Authorization req)) host with
  | None => false
  | Some pol =>
      if negb (isCanonicalPath (r_Path req) (r_EscapedPath req)) then true
      else negb (policy_allows pol host (r_Method req) (r_Path req))
  end.

(** The bytes consumed by the check are put back in front of the body. *)
Definition branch_handler (px : Proxy) (req : HTTPRequest) : HTTPRequest * bool :=
  if negb (String.eqb (reqHost req) "github.com") then (req, false)
  else if negb (String.eqb (r_Method req) "POST") || negb (HasSuffix (r_Path req) "/git-receive-pack")
  then (req, false)
  else
    match r_Body req with
    | None => (req, false)
    | Some body =>
        let rp := ParseRefUpdates body (px_branches px) in
        (set_body (rp_buf rp ++ rp_rest rp) req, negb (push_accepted rp))
    end.

Section Pipeline.
Variable json_of : bytes → json_doc.

Definition body_json (req : HTTPRequest) : json_doc :=
  match r_Body req with Some b => json_of b | None => JInvalid end.

Definition graphql_handler (px : Proxy) (req : HTTPRequest) : bool :=
  let h := reqHost req in
  if (negb (String.eqb h "api.github.com") && negb (String.eqb h "github.com")) ||
     negb (HasPrefix (r_Path req) "/graphql")
  then false
  else negb (isGitHubTokenValidationQuery (r_Method req) (r_Body req) (body_json req)).

Definition swapAuthorization (authHeader : string) (sandboxID : SandboxID) (host : string)
    (broker : option Broker) (scoped : bool) : option string :=
  match broker with
  | None => None
  | Some b =>
      let resolve ph := if scoped then ResolveScoped ph sandboxID host b else Resolve ph b in
      match CutPrefix authHeader "Bearer " with
      | Some ph => (λ t, "Bearer " +:+ t) <$> resolve ph
      | None =>
          match CutPrefix authHeader "token " with
          | Some ph => (λ t, "token " +:+ t) <$> resolve ph
          | None =>
              match CutPrefix authHeader "Basic " with
              | Some enc =>
                  match DecodeString enc with
                  | None => None
                  | Some raw =>
                      match Cut raw ":"%char with
                      | None => None
                      | Some (user, pass) =>
                          (λ t, "Basic " +:+ EncodeToString (user +:+ ":" +:+ t)) <$> resolve pass
                      end
                  end
              | None => None
              end
          end
      end
  end.

Definition swap_handler (px : Proxy) (broker : option Broker) (req : HTTPRequest) : HTTPRequest :=
  let host := reqHost req in
  let lhost := ToLower host in
  let isSuffix := matchesDotSuffix lhost (px_secretSuffixes px) in
  if negb (allow_Has (px_allowSet px) host) && negb isSuffix then req
  else if String.eqb lhost "github.com" && isGitHubPublicArtifactPath (r_Method req) (r_Path req)
  then set_auth "" req
  else
    match swapAuthorization (r_Authorization req) (px_sandboxID px) host broker (negb isSuffix) with
    | None => req
    | Some swapped => set_auth swapped req
    end.

(** The request that goes upstream, or [None] for a refusal. *)
Definition handleRequest (px : Proxy) (broker : option Broker) (req : HTTPRequest) : option HTTPRequest :=
  if bool_decide (px_policies px ≠ ∅) && path_handler px req then None
  else
    let '(req, refused) := branch_handler px req in
    if refused then None
    else if px_hasAnyGitHubPolicy px && graphql_handler px req then None
    else Some (swap_handler px broker req).
End Pipeline.

(** [makeH2SuffixHijack]: a request inside the tunnel of a suffix-matched host goes to the host of the CONNECT, with the
    placeholder resolved without its scope; none of the handlers above sees it. *)
Definition hijack_request (px : Proxy) (broker : option Broker) (connectHost : string) (req : HTTPRequest) : HTTPRequest :=
  let auth := match swapAuthorization (r_Authorization req) (px_sandboxID px) (ToLower (stripHost connectHost)) broker false with
              | Some swapped => swapped
              | None => r_Authorization req
              end in
  mkHTTPRequest (r_Method req) connectHost connectHost (r_Path req) (r_EscapedPath req) auth (r_Body req).

(** A request in the tunnel of a CONNECT: what goes upstream. *)
Definition tunnel_request (json_of : bytes → json_doc) (px : Proxy) (broker : option Broker) (connectHost : string) (req : HTTPRequest) : option HTTPRequest :=
  let '(px, action) := handleConnect connectHost px in
  match action with
  | ConnectMitm => handleRequest json_of px broker req
  | ConnectHijack => Some (hijack_request px broker connectHost req)
  | OkConnect => Some req
  | RejectConnect => None
  end.

(** ** When a real token leaves *)

(** A swap resolved the placeholder the policy lookup saw. *)
Lemma swap_resolves auth sb host b scoped new :
  swapAuthorization auth sb host (Some b) scoped = Some new →
  is_Some (if scoped then ResolveScoped (extractPlaceholder auth) sb host b
           else Resolve (extractPlaceholder auth) b).
Proof.
  unfold swapAuthorization, extractPlaceholder. intros H.
  destruct (CutPrefix auth "Bearer ") as [ph|]; [apply fmap_Some in H as (t & H & _); by rewrite H|].
  destruct (CutPrefix auth "token ") as [ph|]; [apply fmap_Some in H as (t & H & _); by rewrite H|].
  destruct (CutPrefix auth "Basic ") as [enc|]; [|done].
  destruct (DecodeString enc) as [raw|]; [|done]. destruct (Cut raw ":"%char) as [[user pass]|]; [|done].
  apply fmap_Some in H as (t & H & _). by rewrite H.
Qed.

Lemma branch_handler_fields px req req' refused :
  branch_handler px req = (req', refused) →
  r_Method req' = r_Method req ∧ r_Path req' = r_Path req ∧ reqHost req' = reqHost req ∧
  r_Authorization req' = r_Authorization req.
Proof.
  unfold branch_handler. intros H. destruct (negb _) in H; [by simplify_eq|].
  destruct (_ || _) in H; [by simplify_eq|]. destruct (r_Body req); by simplify_eq.
Qed.

Lemma branch_handler_accepts px req req' body :
  branch_handler px req = (req', false) →
  reqHost req = "github.com"%string → r_Method req = "POST"%string →
  HasSuffix (r_Path req) "/git-receive-pack" = true → r_Body req = Some body →
  push_accepted (ParseRefUpdates body (px_branches px)) = true.
Proof.
  unfold branch_handler. intros H Hh Hm Hp Hb. rewrite Hh, Hm, Hp, Hb in H. cbn in H.
  injection H as _ H. by apply negb_false_iff in H.
Qed.

Lemma swap_handler_swapped px broker req :
  matchesDotSuffix (ToLower (reqHost req)) (px_secretSuffixes px) = false →
  r_Authorization (swap_handler px broker req) ≠ r_Authorization req →
  r_Authorization (swap_handler px broker req) ≠ ""%string →
  ∃ b t, broker = Some b ∧
    ResolveScoped (extractPlaceholder (r_Authorization req)) (px_sandboxID px) (reqHost req) b = Some t.
Proof.
  unfold swap_handler. intros Hsuf. rewrite Hsuf. cbn [negb andb].
  destruct (negb _ && true); [done|]. destruct (_ && _); [done|].
  destruct (swapAuthorization _ _ _ _ _) as [new|] eqn:Hs; [|done]. intros _ _.
  destruct broker as [b|]; [|done]. apply swap_resolves in Hs as [t Ht]. eauto.
Qed.

Lemma swap_handler_body px broker req : r_Body (swap_handler px broker req) = r_Body req.
Proof.
  unfold swap_handler. destruct (_ && _); [done|]. destruct (_ && _); [done|].
  by destruct (swapAuthorization _ _ _ _ _).
Qed.

(** C3: no real token without every check, in the pipeline of intercepted requests.  Suppose the
    hosts registered with the broker are lower case and the target is not one of the
    suffix-matched hosts, which have a pipeline of their own ([suffix_tunnel_unchecked]).  If a
    request goes upstream with its credential replaced, then its host, exactly as
    written, is one the placeholder was registered for, in this sandbox; the path
    is canonical and satisfies the policy of that placeholder and host, if there is
    one; a push to github.com passed the branch check; and, under any GitHub policy, a
    GraphQL request forwards a body whose query, as the gate decodes it, is one of
    the permitted ones.  Handlers that compare hosts with case
    thus cannot be evaded by a spelling like GitHub.com: such a request gets no
    token. *)
Theorem real_token_only_after_checks json_of px b req req' :
  broker_inv b →
  (∀ sb host pt, abs_broker b !! (sb, host) = Some pt → ToLower host = host) →
  matchesDotSuffix (ToLower (reqHost req)) (px_secretSuffixes px) = false →
  handleRequest json_of px (Some b) req = Some req' →
  r_Authorization req' ≠ r_Authorization req → r_Authorization req' ≠ ""%string →
  let host := reqHost req in
  let ph := extractPlaceholder (r_Authorization req) in
  (∃ t, abs_broker b !! (px_sandboxID px, host) = Some (ph, t)) ∧ ToLower host = host ∧
  (∀ pol, lookupPolicy (px_policies px) ph host = Some pol →
     isCanonicalPath (r_Path req) (r_EscapedPath req) = true ∧
     policy_allows pol host (r_Method req) (r_Path req) = true) ∧
  (∀ body, host = "github.com"%string → r_Method req = "POST"%string →
     HasSuffix (r_Path req) "/git-receive-pack" = true → r_Body req = Some body →
     push_accepted (ParseRefUpdates body (px_branches px)) = true) ∧
  (px_hasAnyGitHubPolicy px = true → (host = "api.github.com" ∨ host = "github.com")%string →
     HasPrefix (r_Path req) "/graphql" = true →
     ∃ query variables, decode_query (body_json json_of req') = Some (query, variables) ∧
       stripASCIIWhitespace query ∈ githubTokenValidationQueries).
Proof.
  intros Hinv Hlow Hsuf Hreq Hsw Hne. cbv zeta. unfold handleRequest in Hreq.
  destruct (bool_decide (px_policies px ≠ ∅) && path_handler px req) eqn:Hpath; [done|].
  destruct (branch_handler px req) as [req1 refused] eqn:Hbr. destruct refused; [done|].
  destruct (px_hasAnyGitHubPolicy px && _) eqn:Hgq; [done|]. injection Hreq as <-.
  destruct (branch_handler_fields _ _ _ _ Hbr) as (Hm & Hp & Hh & Ha).
  rewrite <- Ha in Hsw. destruct (swap_handler_swapped px (Some b) req1) as (b' & t & [= <-] & Ht);
    [by rewrite Hh|done|done|]. rewrite Hh, Ha in Ht.
  assert (Habs : abs_broker b !! (px_sandboxID px, reqHost req) =
                 Some (extractPlaceholder (r_Authorization req), t)) by (by apply ResolveScoped_abs).
  pose proof (Hlow _ _ _ Habs) as Hl.
  split; [eauto|]. split; [done|]. split; [|split].
  - intros pol Hpol. apply andb_false_iff in Hpath as [Hemp|Hpath].
    + apply bool_decide_eq_false, dec_stable in Hemp. unfold lookupPolicy in Hpol.
      rewrite Hemp, !lookup_empty in Hpol. simpl in Hpol. by destruct (String.eqb _ "").
    + unfold path_handler in Hpath. rewrite Hl, Hpol in Hpath.
      destruct (isCanonicalPath _ _); [|done]. by apply negb_false_iff in Hpath.
  - intros body. by eapply branch_handler_accepts.
  - intros Hany Hhost Hg. rewrite Hany in Hgq. cbn [andb] in Hgq. unfold graphql_handler in Hgq.
    rewrite Hh, Hp, Hg in Hgq. assert (negb (String.eqb (reqHost req) "api.github.com") &&
      negb (String.eqb (reqHost req) "github.com") = false) as Hneg by (by destruct Hhost as [-> | ->]).
    rewrite Hneg in Hgq. cbn in Hgq. apply negb_false_iff, graphql_gate_sound in Hgq as [_ Hgq].
    unfold body_json in *. by rewrite swap_handler_body.
Qed.

(** ** Suffix-matched hosts *)

(** In the tunnel of a suffix-matched host every placeholder the broker knows is replaced, whatever host and sandbox it
    was registered for, and no path, branch or GraphQL check is made. *)
Lemma suffix_tunnel_unchecked json_of px b connectHost req ph t :
  let lh := ToLower (stripHost connectHost) in
  lh ∉ px_secretSet px → matchesDotSuffix lh (px_secretSuffixes px) = true →
  r_Authorization req = "Bearer " +:+ ph → Resolve ph b = Some t →
  ∃ req', tunnel_request json_of px (Some b) connectHost req = Some req' ∧ r_Authorization req' = "Bearer " +:+ t ∧
    r_Host req' = connectHost ∧ r_Path req' = r_Path req.
Proof.
  cbv zeta. intros Hs Hm Ha Hr. unfold tunnel_request, handleConnect. rewrite bool_decide_false by done. rewrite Hm.
  eexists. split; [reflexivity|]. split; [|done]. unfold hijack_request. cbn [r_Authorization]. rewrite Ha.
  unfold swapAuthorization. rewrite (CutPrefix_app "Bearer " ph), Hr. done.
Qed.

(** ** Witness *)

Definition example_config : Config :=
  mkConfig (replicate 16 "A"%char) [] ["github.com"; "api.github.com"]%string [] true ∅ "acme/app"
    ["refs/heads/nexus/**"]%string.
Definition example_proxy : Proxy :=
  match New example_config with
  | Ok px => px
  | Err _ => mkProxy [] ∅ ∅ [] false ∅ false []
  end.
Definition example_push_request : HTTPRequest :=
  mkHTTPRequest "POST" "github.com" "" "/acme/app.git/git-receive-pack" "/acme/app.git/git-receive-pack"
    "Bearer ph1" (Some (command_section [example_update "refs/heads/nexus/a"] ++ flush_pkt)).

Lemma real_token_only_after_checks_witness :
  let px := example_proxy in
  r_Authorization <$> handleRequest (λ _, JInvalid) px (Some example_broker) example_push_request =
    Some "Bearer gho_real"%string ∧
  push_accepted (ParseRefUpdates (command_section [example_update "refs/heads/nexus/a"] ++ flush_pkt)
                   (px_branches px)) = true.
Proof.
  split; [by vm_compute|].
  eapply (real_token_only_after_checks (λ _, JInvalid) example_proxy example_broker example_push_request);
    [| |by vm_compute|reflexivity|by vm_compute|by vm_compute|by vm_compute|by vm_compute|by vm_compute|reflexivity].
  - apply broker_step_inv with (b := (register (replicate 16 "A"%char) "github.com" "gho_real"
      (Some "ph1"%string) NewBroker).1); [apply step_for_host|].
    apply register_inv; [apply NewBroker_inv|done].
  - intros sb host pt H.
    assert (Hall : map_Forall (λ (sc : scope) _, ToLower sc.2 = sc.2) (abs_broker example_broker))
      by (apply (bool_decide_unpack _); by vm_compute).
    exact (Hall (sb, host) pt H).
Defined.

(** The token registered for github.com, sent to another host through a secret suffix. *)
Example github_token_to_suffix_host :
  let px := mkProxy (px_sandboxID example_proxy) ∅ (px_secretSet example_proxy) [".cursor.sh"] false (px_policies example_proxy) true [] in
  r_Authorization <$> tunnel_request (λ _, JInvalid) px (Some example_broker) "api2.cursor.sh:443" example_push_request =
    Some "Bearer gho_real"%string.
Proof. vm_compute. reflexivity. Qed.
