(* ===== verification/Ring.v ===== *)
(** * cmd/nexus-agent: the output ring ([ring.go])

    A session's output in the guest: a circular buffer with a count of all bytes ever
    written.  The abstract ring is the whole stream; the representation relation says
    that the buffer holds its last bytes.  Reading from an offset returns the bytes
    of the stream at that offset, or from the oldest one still held.

    Indices and capacity are naturals, the count a 64-bit unsigned integer.
    The blocking of [WaitNext] is its guard. *)

From stdpp Require Import prelude strings list.
From Stdlib Require Import ZArith Ascii Lia.
From S2P Require Import Prelude GoStrings.

Record Ring := mkRing {
  rg_buf : bytes;
  rg_cap : nat;
  rg_head : nat;
  rg_used : nat;
  rg_tot : Z;
  rg_done : bool;
}.

Definition newRing (capacity : nat) : Ring := mkRing (replicate capacity "000"%char) capacity 0 0 0 false.

(** One turn of the loop of [Write]. *)
Definition write_byte (r : Ring) (b : ascii) : Ring :=
  let tail := ((rg_head r + rg_used r) mod rg_cap r)%nat in
  let buf := <[tail := b]> (rg_buf r) in
  if (rg_used r <? rg_cap r)%nat
  then mkRing buf (rg_cap r) (rg_head r) (S (rg_used r)) (rg_tot r) (rg_done r)
  else mkRing buf (rg_cap r) ((rg_head r + 1) mod rg_cap r) (rg_used r) (rg_tot r) (rg_done r).

Definition Write (p : bytes) (r : Ring) : Ring :=
  match p with
  | [] => r
  | _ => let r' := fold_left write_byte p r in
         mkRing (rg_buf r') (rg_cap r') (rg_head r') (rg_used r')
           (u64 (rg_tot r' + Z.of_nat (length p))) (rg_done r')
  end.

Definition Close (r : Ring) : Ring :=
  mkRing (rg_buf r) (rg_cap r) (rg_head r) (rg_used r) (rg_tot r) true.

Definition ringChunk : Z := 64 * 1024.

Definition oldestLocked (r : Ring) : Z :=
  if rg_tot r <=? Z.of_nat (rg_used r) then 0 else rg_tot r - Z.of_nat (rg_used r).

Definition snapshotLocked (from : Z) (r : Ring) : bytes * Z :=
  let oldest := oldestLocked r in
  let from := if from <? oldest then oldest else from in
  if rg_tot r <=? from then ([], rg_tot r)
  else
    let n := Z.min (rg_tot r - from) ringChunk in
    let start := ((rg_head r + Z.to_nat (from - oldest)) mod rg_cap r)%nat in
    ((λ i, default "000"%char (rg_buf r !! ((start + i) mod rg_cap r)%nat)) <$> seq 0 (Z.to_nat n),
     from + n).

(** [None] while the reader has to wait. *)
Definition WaitNext (from : Z) (r : Ring) : option (bytes * Z * bool) :=
  if (from =? rg_tot r) && negb (rg_done r) then None
  else Some (snapshotLocked from r, rg_done r).

(** ** The stream a ring represents *)

Record ring_rep (r : Ring) (s : bytes) : Prop := {
  rr_cap : (0 < rg_cap r)%nat;
  rr_len : length (rg_buf r) = rg_cap r;
  rr_head : (rg_head r < rg_cap r)%nat;
  rr_used : rg_used r = (length s `min` rg_cap r)%nat;
  rr_data i : (i < rg_used r)%nat →
    rg_buf r !! ((rg_head r + i) mod rg_cap r)%nat = s !! (length s - rg_used r + i)%nat;
}.

Lemma newRing_rep c : (0 < c)%nat → ring_rep (newRing c) [].
Proof. intros Hc. constructor; cbn; [done|apply length_replicate|lia|lia|]. intros i Hi. lia. Qed.

Lemma mod_wrap h i c :
  (h < c)%nat → (i ≤ c)%nat → ((h + i) mod c)%nat = if decide (h + i < c)%nat then (h + i)%nat else (h + i - c)%nat.
Proof.
  intros Hh Hi. case_decide; [by apply Nat.mod_small|].
  replace (h + i)%nat with (h + i - c + 1 * c)%nat at 1 by lia.
  rewrite Nat.Div0.mod_add. apply Nat.mod_small. lia.
Qed.

Lemma write_byte_rep r s b : ring_rep r s → ring_rep (write_byte r b) (s ++ [b]).
Proof.
  intros [Hc Hl Hh Hu Hd]. unfold write_byte. destruct (Nat.ltb_spec (rg_used r) (rg_cap r)) as [Hlt|Hge].
  - assert (Hlen : length s = rg_used r) by lia.
    constructor; cbn; [done|by rewrite length_insert|done|rewrite length_app; simpl; lia|].
    intros i Hi. rewrite length_app. cbn [length].
    destruct (decide (i = rg_used r)) as [->|Hne].
    + rewrite list_lookup_insert_eq by (rewrite Hl; apply Nat.mod_upper_bound; lia).
      rewrite lookup_app_r by lia. by replace (_ - length s)%nat with 0%nat by lia.
    + specialize (Hd i ltac:(lia)). rewrite mod_wrap in Hd by lia. rewrite !mod_wrap by lia.
      rewrite list_lookup_insert_ne by (repeat case_decide; lia).
      rewrite Hd, lookup_app_l by lia. f_equal. lia.
  - assert (Hcap : rg_used r = rg_cap r) by lia.
    assert (Hls : (rg_cap r ≤ length s)%nat) by lia.
    constructor; cbn; [done|by rewrite length_insert|apply Nat.mod_upper_bound; lia|rewrite length_app; simpl; lia|].
    intros i Hi. rewrite length_app. cbn [length]. rewrite Hcap in *.
    assert (Htail : ((rg_head r + rg_cap r) mod rg_cap r)%nat = rg_head r).
    { rewrite mod_wrap by lia. case_decide; lia. }
    rewrite Htail, Nat.Div0.add_mod_idemp_l.
    replace (rg_head r + 1 + i)%nat with (rg_head r + (i + 1))%nat by lia.
    destruct (decide (i = rg_cap r - 1)%nat) as [->|Hne].
    + replace (rg_cap r - 1 + 1)%nat with (rg_cap r) by lia. rewrite Htail.
      rewrite list_lookup_insert_eq by lia. rewrite lookup_app_r by lia.
      by replace (_ - length s)%nat with 0%nat by lia.
    + specialize (Hd (i + 1)%nat ltac:(lia)). rewrite mod_wrap in Hd by lia. rewrite mod_wrap by lia.
      rewrite list_lookup_insert_ne by (repeat case_decide; lia).
      rewrite Hd, lookup_app_l by lia. f_equal. lia.
Qed.

Lemma write_bytes_rep p r s : ring_rep r s → ring_rep (fold_left write_byte p r) (s ++ p).
Proof.
  revert r s. induction p as [|b p IH]; intros r s Hr; cbn [fold_left]; [by rewrite app_nil_r|].
  replace (s ++ b :: p) with ((s ++ [b]) ++ p) by (by rewrite <- app_assoc). apply IH, write_byte_rep, Hr.
Qed.

Lemma fold_write_tot p r : rg_tot (fold_left write_byte p r) = rg_tot r ∧ rg_done (fold_left write_byte p r) = rg_done r.
Proof.
  revert r. induction p as [|b p IH]; intros r; cbn [fold_left]; [done|].
  destruct (IH (write_byte r b)) as [-> ->]. unfold write_byte. by destruct (_ <? _)%nat.
Qed.

(** The ring of a stream that fits the counter. *)
Definition ring_of (r : Ring) (s : bytes) : Prop :=
  ring_rep r s ∧ rg_tot r = Z.of_nat (length s) ∧ Z.of_nat (length s) < 2 ^ 64.

Lemma Write_ring_of p r s :
  ring_of r s → Z.of_nat (length (s ++ p)) < 2 ^ 64 → ring_of (Write p r) (s ++ p).
Proof.
  intros (Hr & Ht & Hs) Hlen. unfold Write. destruct p as [|b p]; [by rewrite app_nil_r|].
  set (q := b :: p) in *. pose proof (write_bytes_rep q r s Hr) as [????].
  destruct (fold_write_tot q r) as [Htot _]. split; [|split; [|done]].
  - by constructor.
  - cbn [rg_tot]. rewrite Htot, Ht. rewrite length_app in *. rewrite wrap_u_small by lia. lia.
Qed.

(** ** Reading *)

(** The offset a read starts at: the one asked for, or the oldest byte still held. *)
Definition read_start (r : Ring) (s : bytes) (from : Z) : Z :=
  Z.max from (Z.of_nat (length s) - Z.of_nat (rg_used r)).

Lemma oldestLocked_eq r s : ring_of r s → oldestLocked r = Z.of_nat (length s) - Z.of_nat (rg_used r).
Proof.
  intros ([_ _ _ Hu _] & Ht & _). unfold oldestLocked. rewrite Ht.
  destruct (Z.leb_spec (Z.of_nat (length s)) (Z.of_nat (rg_used r))); lia.
Qed.

(** A read returns the bytes of the stream at its start, at most a chunk of them, and
    the offset after them; nothing once it is past the end. *)
Lemma snapshot_spec r s from :
  ring_of r s → 0 ≤ from →
  let start := read_start r s from in
  let n := Z.min (Z.of_nat (length s) - start) ringChunk in
  snapshotLocked from r =
    if Z.of_nat (length s) <=? start then ([], Z.of_nat (length s))
    else (take (Z.to_nat n) (drop (Z.to_nat start) s), start + n).
Proof.
  intros Hr Hfrom. cbv zeta. unfold snapshotLocked. rewrite (oldestLocked_eq r s Hr).
  destruct Hr as ([Hc Hl Hh Hu Hd] & Ht & Hlt). rewrite Ht. unfold read_start.
  set (oldest := Z.of_nat (length s) - Z.of_nat (rg_used r)).
  assert (Hst : (if from <? oldest then oldest else from) = Z.max from oldest)
    by (destruct (Z.ltb_spec from oldest); lia).
  rewrite Hst. set (start := Z.max from oldest).
  destruct (Z.leb_spec (Z.of_nat (length s)) start) as [|Hs]; [done|]. f_equal.
  set (n := Z.to_nat (Z.min (Z.of_nat (length s) - start) ringChunk)). apply list_eq. intros i. destruct (decide (i < n)%nat) as [Hi|Hi].
  - rewrite list_lookup_fmap, lookup_seq_lt by done. cbn [fmap option_fmap option_map].
    rewrite lookup_take_lt, lookup_drop by done. rewrite Nat.Div0.add_mod_idemp_l. cbn [Nat.add].
    specialize (Hd (Z.to_nat (start - oldest) + i)%nat ltac:(subst n start oldest; lia)).
    rewrite Nat.add_assoc in Hd. rewrite Hd.
    replace (length s - rg_used r + (Z.to_nat (start - oldest) + i))%nat with (Z.to_nat start + i)%nat
      by (subst start oldest; lia).
    destruct (s !! (Z.to_nat start + i)%nat) eqn:E; [done|].
    apply lookup_ge_None in E. subst n start oldest. lia.
  - rewrite lookup_ge_None_2 by (rewrite length_fmap, length_seq; lia).
    symmetry. apply lookup_ge_None_2. rewrite length_take. lia.
Qed.

(** A writer, the closing of the ring and one reader that keeps its offset.  The reader
    is never lapped: at each read at most a buffer's worth is unread. *)
Inductive reader_step : Ring * bytes * Z * bytes → Ring * bytes * Z * bytes → Prop :=
| rs_write p r s off got :
    Z.of_nat (length (s ++ p)) < 2 ^ 64 → reader_step (r, s, off, got) (Write p r, s ++ p, off, got)
| rs_close r s off got : reader_step (r, s, off, got) (Close r, s, off, got)
| rs_read data off' d r s off got :
    WaitNext off r = Some (data, off', d) → Z.of_nat (length s) - off ≤ Z.of_nat (rg_cap r) →
    reader_step (r, s, off, got) (r, s, off', got ++ data).

Lemma take_snoc_slice (s : bytes) a n :
  take a s ++ take n (drop a s) = take (a + n) s.
Proof. by rewrite take_take_drop. Qed.

Lemma reader_step_inv st st' :
  reader_step st st' →
  let '(r, s, off, got) := st in
  let '(r', s', off', got') := st' in
  ring_of r s ∧ 0 ≤ off ≤ Z.of_nat (length s) ∧ got = take (Z.to_nat off) s →
  ring_of r' s' ∧ 0 ≤ off' ≤ Z.of_nat (length s') ∧ got' = take (Z.to_nat off') s'.
Proof.
  intros [p r s off got Hlen|r s off got|data off' d r s off got Hw Hlap]; intros (Hr & Hoff & Hgot).
  - split; [by apply Write_ring_of|]. rewrite length_app. split; [lia|].
    rewrite take_app_le by lia. done.
  - split; [|done]. destruct Hr as ([????] & ? & ?). split; [by constructor|done].
  - split; [done|]. unfold WaitNext in Hw. destruct (_ && _); [done|].
    injection Hw as Hsnap _. pose proof (snapshot_spec r s off Hr ltac:(lia)) as Hspec.
    cbv zeta in Hspec.
    rewrite Hsnap in Hspec. destruct Hr as ([_ _ _ Hu _] & _ & _).
    assert (Hstart : read_start r s off = off) by (unfold read_start; lia).
    rewrite Hstart in Hspec. revert Hspec.
    destruct (Z.leb_spec (Z.of_nat (length s)) off) as [Hend|Hlt]; intros Hspec.
    + injection Hspec as -> ->. rewrite app_nil_r. split; [lia|].
      replace (Z.of_nat (length s)) with off by lia. done.
    + injection Hspec as -> ->. split; [unfold ringChunk; lia|]. rewrite Hgot, take_snoc_slice.
      f_equal. unfold ringChunk. lia.
Qed.

(** a reader gets exactly the stream.  Whatever the interleaving of writes and
    reads, a reader that starts at offset zero and is never lapped has received the
    first bytes of the output up to its offset, in order, without gap or
    repetition, across any number of wrap-arounds of the buffer; and when a read
    reports the end without data it has received everything. *)
Lemma reader_gets_stream c r s off got :
  (0 < c)%nat → rtc reader_step (newRing c, [], 0, []) (r, s, off, got) →
  got = take (Z.to_nat off) s ∧ 0 ≤ off ≤ Z.of_nat (length s) ∧
  (∀ off', WaitNext off r = Some ([], off', true) → got = s).
Proof.
  intros Hc Hsteps.
  assert (Hinv : ring_of r s ∧ 0 ≤ off ≤ Z.of_nat (length s) ∧ got = take (Z.to_nat off) s).
  { remember (newRing c, [], 0, []) as st0 eqn:H0. remember (r, s, off, got) as st1 eqn:H1.
    assert (Hbase : let '(r, s, off, got) := st0 in
      ring_of r s ∧ 0 ≤ off ≤ Z.of_nat (length s) ∧ got = take (Z.to_nat off) s).
    { subst st0. split; [|done]. split; [by apply newRing_rep|done]. }
    clear H0. revert H1 Hbase.
    induction Hsteps as [st|st [[[r2 s2] off2] got2] st3 Hstep _ IH]; intros ->; [done|].
    intros Hbase. apply IH; [done|]. pose proof (reader_step_inv _ _ Hstep) as Hi.
    destruct st as [[[r0 s0] off0] got0]. auto. }
  destruct Hinv as (Hr & Hoff & Hgot). split; [done|]. split; [done|].
  intros off' Hw. unfold WaitNext in Hw. destruct (_ && _); [done|]. injection Hw as Hsnap _.
  rewrite (snapshot_spec r s off Hr) in Hsnap by lia. cbv zeta in Hsnap. rewrite Hgot. apply take_ge. revert Hsnap.
  destruct (Z.leb_spec (Z.of_nat (length s)) (read_start r s off)) as [Hend|Hlt]; intros Hsnap.
  - destruct Hr as ([Hcap _ _ Hu _] & _ & _). unfold read_start in Hend. lia.
  - injection Hsnap as Hnil _. apply (f_equal length) in Hnil.
    rewrite length_take, length_drop in Hnil. unfold ringChunk, read_start in *. simpl in Hnil. lia.
Qed.

(** ** Witness *)

(** A buffer of four bytes, wrapped. *)
Definition example_ring : Ring := Write (chars "cdef") (Write (chars "ab") (newRing 4)).

Lemma reader_gets_stream_witness :
  rtc reader_step (newRing 4, [], 0, []) (example_ring, chars "abcdef", 6, chars "abcdef") ∧
  chars "abcdef" = take 6 (chars "abcdef").
Proof.
  assert (Hrun : rtc reader_step (newRing 4, [], 0, []) (example_ring, chars "abcdef", 6, chars "abcdef")).
  { eapply rtc_l; [by apply (rs_write (chars "ab"))|].
    eapply rtc_l; [by apply (rs_read (chars "ab") 2 false)|].
    eapply rtc_l; [by apply (rs_write (chars "cdef"))|].
    eapply rtc_l; [by apply (rs_read (chars "cdef") 6 false)|]. apply rtc_refl. }
  split; [exact Hrun|]. apply (reader_gets_stream 4 _ _ _ _ ltac:(lia) Hrun).
Defined.
