(* ===== verification/Sessions.v ===== *)
(** * cmd/nexus-agent: the session table ([session.go])

    Sessions live on a heap; the table indexes them by identifier and by process id.
    [add] registers a session and sweeps, [notifyExit] delivers an exit code, the
    sweep evicts completed sessions by age and by the bytes their rings retain.

    Times are nanoseconds since the Unix epoch.  The order in which Go iterates over
    the table is an argument of the sweep; sessions that ended at the same instant
    are sorted in that order. *)

From stdpp Require Import prelude countable gmap strings list sorting.
From Stdlib Require Import ZArith Lia.
From S2P Require Import Prelude.

Definition sessionRetentionTTL : Duration := 5 * Minute.
Definition sessionRetentionBudget : Z := 64 * 1024 * 1024.

(** [ss_exitCh] is the channel of capacity one the exit code is delivered on. *)
Record Session := mkSession {
  ss_id : string;
  ss_pid : Z;
  ss_ringCap : Z;
  ss_exitCode : Z;
  ss_exited : bool;
  ss_exitedAt : Time;
  ss_exitCh : option Z;
}.

Abbreviation Ptr := positive (only parsing).

Record SessionTable := mkSessionTable {
  st_heap : gmap Ptr Session;
  st_byID : gmap string Ptr;
  st_byPID : gmap Z Ptr;
  st_oneShot : gmap Z positive;   (** process id to channel *)
}.

Definition set_sessions (h : gmap Ptr Session) (t : SessionTable) : SessionTable :=
  mkSessionTable h (st_byID t) (st_byPID t) (st_oneShot t).

Definition setExited (p : Ptr) (code : Z) (now : Time) (t : SessionTable) : SessionTable :=
  set_sessions (alter (λ s, mkSession (ss_id s) (ss_pid s) (ss_ringCap s) code true now (ss_exitCh s)) p
                  (st_heap t)) t.

(** ** The sweep *)

Definition evict (s : Session) (t : SessionTable) : SessionTable :=
  mkSessionTable (st_heap t) (delete (ss_id s) (st_byID t)) (delete (ss_pid s) (st_byPID t)) (st_oneShot t).

Definition expired (now : Time) (s : Session) : bool := sessionRetentionTTL <=? Sub now (ss_exitedAt s).

(** Pass 1, over the sessions in iteration order: what is left of the table, and the
    completed sessions retained. *)
Fixpoint sweep_ttl (now : Time) (l : list Session) (t : SessionTable) : SessionTable * list Session :=
  match l with
  | [] => (t, [])
  | s :: l =>
      if negb (ss_exited s) then sweep_ttl now l t
      else if expired now s then sweep_ttl now l (evict s t)
      else let '(t, retained) := sweep_ttl now l t in (t, s :: retained)
  end.

Definition ring_bytes (l : list Session) : Z := foldr (λ s n, ss_ringCap s + n) 0 l.

(** Pass 2: evict from the front until the rest fits the budget. *)
Fixpoint sweep_budget (l : list Session) (totalBytes : Z) (t : SessionTable) : SessionTable :=
  match l with
  | [] => t
  | s :: l => if totalBytes <=? sessionRetentionBudget then t
              else sweep_budget l (totalBytes - ss_ringCap s) (evict s t)
  end.

Definition ended_before (a b : Session) : Prop := ss_exitedAt a ≤ ss_exitedAt b.
#[global] Instance ended_before_dec : RelDecision ended_before.
Proof. intros a b. unfold ended_before. apply _. Defined.
#[global] Instance ended_before_trans : Transitive ended_before.
Proof. intros a b c. unfold ended_before. lia. Qed.
#[global] Instance ended_before_total : Total ended_before.
Proof. intros a b. unfold ended_before. lia. Qed.

(** The sessions of the table in the order of the pointers [order]. *)
Definition sessions_of (t : SessionTable) (order : list Ptr) : list Session :=
  omap (λ p, st_heap t !! p) order.

Definition sweepExited (now : Time) (order : list Ptr) (t : SessionTable) : SessionTable :=
  let '(t, retained) := sweep_ttl now (sessions_of t order) t in
  let totalBytes := ring_bytes retained in
  if totalBytes <=? sessionRetentionBudget then t
  else sweep_budget (merge_sort ended_before retained) totalBytes t.

(** ** Registration and exits *)

Definition add (now : Time) (order : gmap string Ptr → list Ptr) (p : Ptr) (t : SessionTable) : SessionTable :=
  match st_heap t !! p with
  | None => t
  | Some s =>
      let t := mkSessionTable (st_heap t) (<[ss_id s := p]> (st_byID t)) (<[ss_pid s := p]> (st_byPID t))
                 (st_oneShot t) in
      sweepExited now (order (st_byID t)) t
  end.

(** [pid] is what start returned, [None] if it failed. *)
Definition spawn (now : Time) (order : gmap string Ptr → list Ptr) (p : Ptr) (pid : option Z)
    (t : SessionTable) : SessionTable * bool :=
  match pid with
  | None => (t, false)
  | Some pid =>
      let t := set_sessions (alter (λ s, mkSession (ss_id s) pid (ss_ringCap s) (ss_exitCode s) (ss_exited s)
                                          (ss_exitedAt s) (ss_exitCh s)) p (st_heap t)) t in
      (add now order p t, true)
  end.

Definition get (id : string) (t : SessionTable) : option Ptr := st_byID t !! id.

Inductive exit_event := OneShotExit (ch : positive) (code : Z).

Definition notifyExit (pid code : Z) (t : SessionTable) : SessionTable * list exit_event :=
  match st_byPID t !! pid with
  | None =>
      (mkSessionTable (st_heap t) (st_byID t) (st_byPID t) (delete pid (st_oneShot t)),
       match st_oneShot t !! pid with Some ch => [OneShotExit ch code] | None => [] end)
  | Some p =>
      (set_sessions (alter (λ s, match ss_exitCh s with
                                 | None => mkSession (ss_id s) (ss_pid s) (ss_ringCap s) (ss_exitCode s)
                                             (ss_exited s) (ss_exitedAt s) (Some code)
                                 | Some _ => s
                                 end) p (st_heap t)) t, [])
  end.

Definition spawnOneShot (pid : option Z) (ch : positive) (t : SessionTable) : SessionTable * bool :=
  match pid with
  | None => (t, false)
  | Some pid => (mkSessionTable (st_heap t) (st_byID t) (st_byPID t) (<[pid := ch]> (st_oneShot t)), true)
  end.

(** ** What a sweep does *)

(** The index by identifier is exact. *)
Definition table_wf (t : SessionTable) : Prop :=
  map_Forall (λ id p, ∃ s, st_heap t !! p = Some s ∧ ss_id s = id) (st_byID t).

(** The sessions in the table. *)
Definition in_table (t : SessionTable) (s : Session) : Prop :=
  ∃ p, st_byID t !! ss_id s = Some p ∧ st_heap t !! p = Some s.

Lemma sweep_ttl_spec now l t :
  let '(t', retained) := sweep_ttl now l t in
  retained = List.filter (λ s, ss_exited s && negb (expired now s)) l ∧
  t' = fold_left (λ t s, evict s t) (List.filter (λ s, ss_exited s && expired now s) l) t.
Proof.
  revert t. induction l as [|s l IH]; intros t; cbn [sweep_ttl List.filter]; [done|].
  destruct (ss_exited s); cbn [negb andb]; [|apply IH].
  destruct (expired now s); cbn [negb]; [apply IH|].
  specialize (IH t). destruct (sweep_ttl now l t) as [t' retained]. destruct IH as [-> ->]. done.
Qed.

Lemma sweep_budget_spec l t :
  ∃ gone kept, l = gone ++ kept ∧ ring_bytes kept ≤ sessionRetentionBudget ∧
    sweep_budget l (ring_bytes l) t = fold_left (λ t s, evict s t) gone t.
Proof.
  revert t. induction l as [|s l IH]; intros t.
  { exists [], []. by unfold sessionRetentionBudget. }
  cbn [sweep_budget]. destruct (ring_bytes (s :: l) <=? sessionRetentionBudget) eqn:E; reflect_bools.
  { by exists [], (s :: l). }
  replace (ring_bytes (s :: l) - ss_ringCap s) with (ring_bytes l) by (cbn [ring_bytes foldr]; unfold ring_bytes; lia).
  destruct (IH (evict s t)) as (gone & kept & -> & Hk & Hs). exists (s :: gone), kept. done.
Qed.

Lemma evict_all_byID l t id :
  st_byID (fold_left (λ t s, evict s t) l t) !! id =
  if decide (id ∈ ss_id <$> l) then None else st_byID t !! id.
Proof.
  revert t. induction l as [|s l IH]; intros t; cbn [fold_left].
  { by rewrite decide_False by (by apply not_elem_of_nil). }
  rewrite IH. cbn [fmap list_fmap st_byID evict]. destruct (decide (id ∈ ss_id <$> l)) as [Hin|Hin].
  - by rewrite decide_True by (apply elem_of_cons; by right).
  - destruct (decide (id = ss_id s)) as [->|Hne].
    + rewrite lookup_delete_eq, decide_True by (apply elem_of_cons; by left). done.
    + rewrite lookup_delete_ne, decide_False by (rewrite ?elem_of_cons; naive_solver). done.
Qed.

Lemma evict_all_heap l t : st_heap (fold_left (λ t s, evict s t) l t) = st_heap t.
Proof. revert t. induction l as [|s l IH]; intros t; cbn [fold_left]; [done|]. by rewrite IH. Qed.

Lemma sessions_ids t l :
  Forall (λ ip, ∃ s, st_heap t !! ip.2 = Some s ∧ ss_id s = ip.1) l →
  ss_id <$> sessions_of t l.*2 = l.*1.
Proof.
  unfold sessions_of. induction l as [|[id p] l IH]; intros Hl; [done|].
  apply Forall_cons in Hl as [(s & Hs & Hid) Hl]. cbn in Hs, Hid |- *. rewrite Hs. cbn.
  rewrite Hid. f_equal. by apply IH.
Qed.

Section Sweep.
Context (t : SessionTable) (order : list Ptr).
Context (Hwf : table_wf t) (Hord : order ≡ₚ (map_to_list (st_byID t)).*2).

Lemma sessions_in_table s : s ∈ sessions_of t order ↔ in_table t s.
Proof.
  unfold sessions_of, in_table. rewrite list_elem_of_omap. split.
  - intros (p & Hp & Hs). rewrite Hord in Hp. apply list_elem_of_fmap in Hp as ([id p'] & -> & Hin).
    apply elem_of_map_to_list in Hin. cbn in *. destruct (Hwf id p' Hin) as (s' & Hs' & Hid).
    assert (s' = s) as -> by congruence. exists p'. by rewrite Hid.
  - intros (p & Hp & Hs). exists p. split; [|done]. rewrite Hord.
    apply list_elem_of_fmap. exists (ss_id s, p). split; [done|]. by apply elem_of_map_to_list.
Qed.

Lemma sessions_NoDup : NoDup (ss_id <$> sessions_of t order).
Proof.
  assert (Hp : sessions_of t order ≡ₚ sessions_of t (map_to_list (st_byID t)).*2)
    by (unfold sessions_of; by rewrite Hord).
  rewrite Hp, sessions_ids; [apply NoDup_fst_map_to_list|].
  apply Forall_forall. intros [id p] Hin%elem_of_map_to_list. by apply Hwf.
Qed.

Lemma in_table_id s s' : in_table t s → in_table t s' → ss_id s = ss_id s' → s = s'.
Proof. intros (p & Hp & Hs) (p' & Hp' & Hs') Hid. rewrite Hid in Hp. congruence. Qed.

(** Evicting sessions of the table removes exactly them. *)
Lemma evicted_in_table l s :
  (∀ x, x ∈ l → in_table t x) →
  in_table (fold_left (λ t s, evict s t) l t) s ↔ in_table t s ∧ s ∉ l.
Proof.
  intros Hl. unfold in_table at 1. rewrite evict_all_heap. setoid_rewrite evict_all_byID. split.
  - intros (p & Hp & Hs). destruct (decide _) as [|Hn] in Hp; [done|]. split; [by exists p|].
    intros Hin. apply Hn. by apply list_elem_of_fmap_2.
  - intros [(p & Hp & Hs) Hn]. exists p. rewrite decide_False; [done|].
    intros (x & Hid & Hx)%list_elem_of_fmap. apply Hn.
    rewrite (in_table_id s x); [done|by exists p|auto|done].
Qed.

(** The sweep as a list of evictions and the completed sessions it keeps. *)
Lemma sweepExited_evicts now :
  ∃ gone kept,
    sweepExited now order t =
      fold_left (λ t s, evict s t)
        (List.filter (λ s, ss_exited s && expired now s) (sessions_of t order) ++ gone) t ∧
    gone ++ kept ≡ₚ List.filter (λ s, ss_exited s && negb (expired now s)) (sessions_of t order) ∧
    ring_bytes kept ≤ sessionRetentionBudget ∧
    (∀ g k, g ∈ gone → k ∈ kept → ended_before g k).
Proof.
  unfold sweepExited. pose proof (sweep_ttl_spec now (sessions_of t order) t) as Hsp.
  destruct (sweep_ttl now (sessions_of t order) t) as [t1 retained]. destruct Hsp as [-> ->].
  set (R := List.filter (λ s, ss_exited s && negb (expired now s)) (sessions_of t order)).
  destruct (ring_bytes R <=? sessionRetentionBudget) eqn:E; reflect_bools.
  { exists [], R. rewrite app_nil_r. split_and!; [done..|]. by intros g k ?%elem_of_nil. }
  assert (Hsum : ring_bytes R = ring_bytes (merge_sort ended_before R)).
  { assert (Hperm : ∀ l l', l ≡ₚ l' → ring_bytes l = ring_bytes l').
    { intros l l' Hl. induction Hl; cbn [ring_bytes foldr] in *; unfold ring_bytes in *; cbn; lia. }
    apply Hperm. by rewrite merge_sort_Permutation. }
  rewrite Hsum. destruct (sweep_budget_spec (merge_sort ended_before R)
    (fold_left (λ t s, evict s t) (List.filter (λ s, ss_exited s && expired now s) (sessions_of t order)) t))
    as (gone & kept & Heq & Hk & ->).
  exists gone, kept. rewrite fold_left_app, <- Heq. split; [done|]. split; [apply merge_sort_Permutation|].
  split; [done|]. pose proof (StronglySorted_merge_sort ended_before R) as Hso. rewrite Heq in Hso.
  intros g k Hg Hk'. by eapply StronglySorted_app_1_elem_of.
Qed.

Lemma filter_sublist (f : Session → bool) (l : list Session) : List.filter f l `sublist_of` l.
Proof. induction l as [|s l IH]; cbn [List.filter]; [done|]. destruct (f s); by constructor. Qed.

(** The same, session by session. *)
Lemma sweep_outcome now :
  ∃ gone kept,
    (∀ s, s ∈ gone ∨ s ∈ kept ↔ in_table t s ∧ ss_exited s = true ∧ expired now s = false) ∧
    NoDup (ss_id <$> gone ++ kept) ∧ ring_bytes kept ≤ sessionRetentionBudget ∧
    (∀ g k, g ∈ gone → k ∈ kept → ended_before g k) ∧
    (∀ s, in_table (sweepExited now order t) s ↔
          in_table t s ∧ ¬ (ss_exited s = true ∧ expired now s = true) ∧ s ∉ gone).
Proof.
  destruct (sweepExited_evicts now) as (gone & kept & Heq & Hperm & Hsum & Hlt).
  exists gone, kept.
  assert (HR : ∀ s, s ∈ gone ∨ s ∈ kept ↔ in_table t s ∧ ss_exited s = true ∧ expired now s = false).
  { intros s. rewrite <- elem_of_app, Hperm, list_elem_of_In, filter_In, <- list_elem_of_In, andb_true_iff,
      negb_true_iff. by rewrite sessions_in_table. }
  assert (HE : ∀ s, s ∈ List.filter (λ s, ss_exited s && expired now s) (sessions_of t order) ↔
                    in_table t s ∧ ss_exited s = true ∧ expired now s = true).
  { intros s. rewrite list_elem_of_In, filter_In, <- list_elem_of_In, andb_true_iff.
    by rewrite sessions_in_table. }
  split; [done|]. split; [|split; [done|split; [done|]]].
  - rewrite Hperm. eapply sublist_NoDup; [apply sessions_NoDup|apply fmap_sublist, filter_sublist].
  - intros s. rewrite Heq, evicted_in_table, not_elem_of_app, HE; [tauto|].
    intros x [Hx|Hx]%elem_of_app; [by apply HE|by apply HR; left].
Qed.
End Sweep.

(** a sweep keeps running sessions and bounds what completed ones retain.  The table
    of sessions by identifier stays exact; a running session stays in it; every completed
    session left is younger than the retention time; the rings of those left hold at
    most 64 MiB together; and a session given up for the budget ended no later than
    any that is kept. *)
Lemma sweep_bounds now order t :
  table_wf t → order ≡ₚ (map_to_list (st_byID t)).*2 →
  let t' := sweepExited now order t in
  (∀ s, in_table t' s → in_table t s) ∧
  (∀ s, in_table t s → ss_exited s = false → in_table t' s) ∧
  (∀ s, in_table t' s → ss_exited s = true → expired now s = false) ∧
  (∃ kept, NoDup (ss_id <$> kept) ∧ (∀ s, s ∈ kept ↔ in_table t' s ∧ ss_exited s = true) ∧
           ring_bytes kept ≤ sessionRetentionBudget) ∧
  (∀ s k, in_table t s → ss_exited s = true → expired now s = false → ¬ in_table t' s →
          in_table t' k → ss_exited k = true → ended_before s k).
Proof.
  intros Hwf Hord. cbv zeta.
  destruct (sweep_outcome t order Hwf Hord now) as (gone & kept & HR & Hnd & Hsum & Hlt & Hin).
  rewrite fmap_app in Hnd. apply NoDup_app in Hnd as (_ & Hdis & Hnd).
  assert (Hkept : ∀ s, s ∈ kept ↔ in_table (sweepExited now order t) s ∧ ss_exited s = true).
  { intros s. rewrite Hin. split.
    - intros Hk. destruct (proj1 (HR s)) as (? & ? & Hx); [by right|]. split_and!; [done| | |done].
      + intros [_ ?]. congruence.
      + intros Hg. apply (Hdis (ss_id s)); by apply list_elem_of_fmap_2.
    - intros [(Ht & HnE & Hng) Hex]. destruct (expired now s) eqn:Hx; [by destruct HnE|].
      by destruct (proj2 (HR s)) as [Hg|Hk]. }
  split_and!.
  - intros s Hs. by apply Hin.
  - intros s Hs Hr. apply Hin. split_and!; [done| |].
    + intros [? _]. congruence.
    + intros Hg. destruct (proj1 (HR s)) as (_ & ? & _); [by left|]. congruence.
  - intros s Hs Hex. destruct (proj1 (HR s)) as (_ & _ & ?); [right; by apply Hkept|done].
  - exists kept. done.
  - intros s k Hs Hex Hx Hns Hk Hkex. apply Hlt; [|by apply Hkept].
    destruct (proj2 (HR s)) as [Hg|Hk']; [done|done|]. exfalso. apply Hns. by apply Hkept.
Qed.

(** ** Process ids *)

(** Evicting a completed session also forgets whichever session now has its process
    id: once the kernel has reused it, the new session, although running and still in
    the table, no longer receives its exit code. *)
Lemma sweep_orphans_reused_pid :
  let old := mkSession "old" 77 1024 0 true 0 None in
  let new := mkSession "new" 77 1024 0 false 0 None in
  let t := mkSessionTable {[1%positive := old; 2%positive := new]}
             {["old"%string := 1%positive]} {[77 := 1%positive]} ∅ in
  let order (m : gmap string positive) := (map_to_list m).*2 in
  let t' := add (10 * Minute) order 2 t in
  get "new" t' = Some 2%positive ∧ st_byPID t' !! 77 = None ∧
  (notifyExit 77 0 t').1 = t'.
Proof. cbv zeta. split_and!; by vm_compute. Qed.

(** ** Witness *)

Definition example_table : SessionTable :=
  mkSessionTable {[1%positive := mkSession "a" 10 1024 0 true 0 None;
                   2%positive := mkSession "b" 11 1024 0 false 0 None]}
    (<["a"%string := 1%positive]> {["b"%string := 2%positive]}) {[10 := 1%positive; 11 := 2%positive]} ∅.

Lemma sweep_bounds_witness :
  in_table (sweepExited (10 * Minute) (map_to_list (st_byID example_table)).*2 example_table)
    (mkSession "b" 11 1024 0 false 0 None).
Proof.
  destruct (sweep_bounds (10 * Minute) (map_to_list (st_byID example_table)).*2 example_table)
    as (_ & H & _).
  - intros id p. unfold example_table. cbn. rewrite lookup_insert_Some, lookup_singleton_Some.
    intros [[<- <-]|[_ [<- <-]]]; by eexists.
  - done.
  - apply H; [|done]. by exists 2%positive.
Defined.
