(* ===== verification/Wire.v ===== *)
(** * internal/core/agent/wire: the frames of the agent's data plane ([wire.go])

    Every frame is a four-byte payload length, a type byte and the payload.  A writer
    returns the bytes it hands to the connection, or an error before writing any; a
    reader takes a frame off the bytes the connection still delivers.

    Lengths of the payloads are naturals; the length field is 32 bits wide and the
    identifiers' length field 16, and the writers' own limits keep both exact. *)

From stdpp Require Import prelude strings list.
From Stdlib Require Import ZArith Ascii Lia.
From S2P Require Import Prelude GoStrings GoIO.

Definition DataPort : Z := 1025.
Definition MaxDataPayload : Z := 64 * 1024.
Definition headerLen : nat := 5.

Definition FrameHandshake : Z := 1.
Definition FrameHandshakeAck : Z := 2.
Definition FrameData : Z := 3.
Definition FrameWinsize : Z := 4.
Definition FrameExit : Z := 5.
Definition FrameStdinClose : Z := 6.

Definition StreamStdin : Z := 0.
Definition StreamStdout : Z := 1.
Definition StreamStderr : Z := 2.

Definition AckAlive : Z := 0.
Definition AckExited : Z := 1.

Record Handshake := mkHandshake { hs_SessionID : bytes; hs_ResumeFromOffset : Z }.
Record HandshakeAck := mkHandshakeAck { ack_Status : Z; ack_ExitCode : Z }.
Record Data := mkData { data_Tag : Z; data_Payload : bytes }.
Record Winsize := mkWinsize { ws_Rows : Z; ws_Cols : Z; ws_XPixels : Z; ws_YPixels : Z }.
Record Exit := mkExit { exit_Code : Z }.

(** The tagged union; its constructor is the [Type] field. *)
Inductive Frame :=
| FHandshake (h : Handshake)
| FHandshakeAck (a : HandshakeAck)
| FData (d : Data)
| FWinsize (w : Winsize)
| FExit (e : Exit)
| FStdinClose.

Inductive wire_error :=
| ErrDataPayloadTooLarge
| ErrSessionIDTooLong
| ErrUnknownFrameType (ft : Z)
| ErrEOF                       (** closed between frames *)
| ErrUnexpectedEOF             (** closed within a header *)
| ErrTruncatedPayload (ft : Z) (** closed within a payload *)
| ErrShortPayload.             (** a payload too short for its type *)

#[global] Instance wire_error_eq_dec : EqDecision wire_error.
Proof. solve_decision. Defined.

(** ** Writer *)

Definition frame_bytes (payloadLen ft : Z) (payload : bytes) : bytes :=
  PutUint32 payloadLen ++ [byte_of ft] ++ payload.

Definition PutUint16 (z : Z) : bytes := put_be 2 (u16 z).
Definition PutUint64 (z : Z) : bytes := put_be 8 (u64 z).
Definition Uint16 (l : bytes) : Z := get_be (take 2 l).
Definition Uint64 (l : bytes) : Z := get_be (take 8 l).

Definition zlen (l : bytes) : Z := Z.of_nat (length l).

Definition WriteHandshake (h : Handshake) : result wire_error bytes :=
  let sid := hs_SessionID h in
  if 65535 <? zlen sid then Err ErrSessionIDTooLong
  else
    let payloadLen := 2 + zlen sid + 8 in
    Ok (frame_bytes payloadLen FrameHandshake
          (PutUint16 (zlen sid) ++ sid ++ PutUint64 (hs_ResumeFromOffset h))).

Definition WriteHandshakeAck (a : HandshakeAck) : result wire_error bytes :=
  Ok (frame_bytes 5 FrameHandshakeAck (byte_of (ack_Status a) :: PutUint32 (ack_ExitCode a))).

Definition WriteData (tag : Z) (payload : bytes) : result wire_error bytes :=
  if MaxDataPayload <? zlen payload then Err ErrDataPayloadTooLarge
  else Ok (frame_bytes (1 + zlen payload) FrameData (byte_of tag :: payload)).

Definition WriteWinsize (ws : Winsize) : result wire_error bytes :=
  Ok (frame_bytes 8 FrameWinsize
        (PutUint16 (ws_Rows ws) ++ PutUint16 (ws_Cols ws) ++ PutUint16 (ws_XPixels ws) ++ PutUint16 (ws_YPixels ws))).

Definition WriteStdinClose : result wire_error bytes := Ok (frame_bytes 0 FrameStdinClose []).

Definition WriteExit (e : Exit) : result wire_error bytes :=
  Ok (frame_bytes 4 FrameExit (PutUint32 (exit_Code e))).

(** The writer of a frame's type. *)
Definition WriteFrame (f : Frame) : result wire_error bytes :=
  match f with
  | FHandshake h => WriteHandshake h
  | FHandshakeAck a => WriteHandshakeAck a
  | FData d => WriteData (data_Tag d) (data_Payload d)
  | FWinsize w => WriteWinsize w
  | FExit e => WriteExit e
  | FStdinClose => WriteStdinClose
  end.

(** ** Reader *)

Definition decodeHandshake (p : bytes) : result wire_error Frame :=
  if zlen p <? 2 then Err ErrShortPayload
  else
    let sidLen := Uint16 p in
    if zlen p <? 2 + sidLen + 8 then Err ErrShortPayload
    else Ok (FHandshake (mkHandshake (take (Z.to_nat sidLen) (drop 2 p))
                           (Uint64 (drop (Z.to_nat (2 + sidLen)) p)))).

Definition decodeHandshakeAck (p : bytes) : result wire_error Frame :=
  match p with
  | st :: code =>
      if zlen p <? 5 then Err ErrShortPayload
      else Ok (FHandshakeAck (mkHandshakeAck (byte_val st) (i32 (Uint32 (take 4 code)))))
  | [] => Err ErrShortPayload
  end.

Definition decodeData (p : bytes) : result wire_error Frame :=
  match p with
  | tag :: data => Ok (FData (mkData (byte_val tag) data))
  | [] => Err ErrShortPayload
  end.

Definition decodeWinsize (p : bytes) : result wire_error Frame :=
  if zlen p <? 8 then Err ErrShortPayload
  else Ok (FWinsize (mkWinsize (Uint16 p) (Uint16 (drop 2 p)) (Uint16 (drop 4 p)) (Uint16 (drop 6 p)))).

Definition decodeExit (p : bytes) : result wire_error Frame :=
  if zlen p <? 4 then Err ErrShortPayload
  else Ok (FExit (mkExit (i32 (Uint32 (take 4 p))))).

(** [io.ReadFull] of a number of bytes given as a machine integer. *)
Definition readPayload (n : Z) (r : bytes) : option (bytes * bytes) :=
  if n <=? zlen r then Some (take (Z.to_nat n) r, drop (Z.to_nat n) r) else None.

(** The frame and the bytes after it. *)
Definition ReadFrame (r : bytes) : result wire_error (Frame * bytes) :=
  match ReadFull headerLen r with
  | Err [] => Err ErrEOF
  | Err _ => Err ErrUnexpectedEOF
  | Ok (hdr, r) =>
      let payloadLen := Uint32 (take 4 hdr) in
      let ft := byte_val (default "000"%char (hdr !! 4%nat)) in
      match readPayload payloadLen r with
      | None => Err (ErrTruncatedPayload ft)
      | Some (payload, r) =>
          let* f := (if ft =? FrameHandshake then decodeHandshake payload
                     else if ft =? FrameHandshakeAck then decodeHandshakeAck payload
                     else if ft =? FrameData then decodeData payload
                     else if ft =? FrameWinsize then decodeWinsize payload
                     else if ft =? FrameExit then decodeExit payload
                     else if ft =? FrameStdinClose then Ok FStdinClose
                     else Err (ErrUnknownFrameType ft)) in
          Ok (f, r)
      end
  end.

(** ** What the fields of a frame range over *)

Definition is_u8 (z : Z) : Prop := 0 ≤ z < 2 ^ 8.
Definition is_u16 (z : Z) : Prop := 0 ≤ z < 2 ^ 16.
Definition is_i32 (z : Z) : Prop := - 2 ^ 31 ≤ z < 2 ^ 31.
Definition is_u64 (z : Z) : Prop := 0 ≤ z < 2 ^ 64.

Definition frame_wf (f : Frame) : Prop :=
  match f with
  | FHandshake h => is_u64 (hs_ResumeFromOffset h)
  | FHandshakeAck a => is_u8 (ack_Status a) ∧ is_i32 (ack_ExitCode a)
  | FData d => is_u8 (data_Tag d)
  | FWinsize w => is_u16 (ws_Rows w) ∧ is_u16 (ws_Cols w) ∧ is_u16 (ws_XPixels w) ∧ is_u16 (ws_YPixels w)
  | FExit e => is_i32 (exit_Code e)
  | FStdinClose => True
  end.

(** ** Round trip *)

Lemma zlen_app a b : zlen (a ++ b) = zlen a + zlen b.
Proof. unfold zlen. rewrite length_app. lia. Qed.

Lemma zlen_nonneg l : 0 ≤ zlen l.
Proof. unfold zlen. lia. Qed.

Lemma zlen_put_be n z : zlen (put_be n z) = Z.of_nat n.
Proof. unfold zlen. by rewrite length_put_be. Qed.

Lemma u_small w z : 0 ≤ z < 2 ^ w → wrap_u w z = z.
Proof. apply wrap_u_small. Qed.

Lemma take_put_be n z l : take n (put_be n z ++ l) = put_be n z.
Proof. rewrite take_app_le, take_ge by (rewrite length_put_be; lia). done. Qed.

Lemma Uint16_Put z l : is_u16 z → Uint16 (PutUint16 z ++ l) = z.
Proof.
  intros Hz. unfold Uint16, PutUint16. rewrite take_put_be, wrap_u_small by exact Hz.
  by apply get_put_be.
Qed.

Lemma Uint64_Put z l : is_u64 z → Uint64 (PutUint64 z ++ l) = z.
Proof.
  intros Hz. unfold Uint64, PutUint64. rewrite take_put_be, wrap_u_small by exact Hz.
  by apply get_put_be.
Qed.

Lemma i32_Uint32_Put z l : is_i32 z → i32 (Uint32 (take 4 (PutUint32 z ++ l))) = z.
Proof.
  intros Hz. change (PutUint32 z) with (put_be 4 (u32 z)). rewrite take_put_be.
  change (put_be 4 (u32 z)) with (PutUint32 z). by rewrite Uint32_Put, i32_of_u32.
Qed.

Lemma drop_put_be n z l : drop n (put_be n z ++ l) = l.
Proof. rewrite drop_app_ge; rewrite length_put_be; [|lia]. by rewrite Nat.sub_diag. Qed.

(** Selects the decoder of a concrete frame type. *)
Ltac dispatch :=
  cbv [FrameHandshake FrameHandshakeAck FrameData FrameWinsize FrameExit FrameStdinClose];
  cbn [Z.eqb Pos.eqb].

Lemma header_fields n ft :
  0 ≤ n < 2 ^ 32 → is_u8 ft →
  Uint32 (take 4 (PutUint32 n ++ [byte_of ft])) = n ∧
  byte_val (default "000"%char ((PutUint32 n ++ [byte_of ft]) !! 4%nat)) = ft.
Proof.
  intros Hn Hft. split.
  - change (PutUint32 n) with (put_be 4 (u32 n)). rewrite take_put_be.
    change (put_be 4 (u32 n)) with (PutUint32 n). rewrite Uint32_Put. by apply wrap_u_small.
  - rewrite lookup_app_r by (rewrite length_PutUint32; lia). rewrite length_PutUint32. cbn.
    rewrite byte_val_of. by apply Z.mod_small.
Qed.

(** The header of a frame is read back whatever follows. *)
Lemma ReadFrame_frame n ft payload r :
  n = zlen payload → n < 2 ^ 32 → is_u8 ft →
  ReadFrame (frame_bytes n ft payload ++ r) =
  (let* f := (if ft =? FrameHandshake then decodeHandshake payload
              else if ft =? FrameHandshakeAck then decodeHandshakeAck payload
              else if ft =? FrameData then decodeData payload
              else if ft =? FrameWinsize then decodeWinsize payload
              else if ft =? FrameExit then decodeExit payload
              else if ft =? FrameStdinClose then Ok FStdinClose
              else Err (ErrUnknownFrameType ft)) in
   Ok (f, r)).
Proof.
  intros Hn Hlt Hft. unfold ReadFrame, frame_bytes.
  replace ((PutUint32 n ++ [byte_of ft] ++ payload) ++ r) with ((PutUint32 n ++ [byte_of ft]) ++ (payload ++ r))
    by (by rewrite <- !app_assoc).
  rewrite ReadFull_app by (by rewrite length_app, length_PutUint32).
  destruct (header_fields n ft) as [-> ->]; [pose proof (zlen_nonneg payload); lia|done|].
  unfold readPayload. rewrite zlen_app, (proj2 (Z.leb_le _ _)) by (pose proof (zlen_nonneg r); lia).
  rewrite Hn. unfold zlen. rewrite Nat2Z.id, take_app_length, drop_app_length. done.
Qed.

Lemma zlen_PutUint16 z : zlen (PutUint16 z) = 2.
Proof. apply zlen_put_be. Qed.
Lemma zlen_PutUint32 z : zlen (PutUint32 z) = 4.
Proof. apply zlen_put_be. Qed.
Lemma zlen_PutUint64 z : zlen (PutUint64 z) = 8.
Proof. apply zlen_put_be. Qed.

Lemma drop_PutUint16 n z l : drop (2 + n) (PutUint16 z ++ l) = drop n l.
Proof. rewrite <- drop_drop. unfold PutUint16. by rewrite drop_put_be. Qed.

Lemma decodeHandshake_payload sid off :
  zlen sid ≤ 65535 → is_u64 off →
  decodeHandshake (PutUint16 (zlen sid) ++ sid ++ PutUint64 off) = Ok (FHandshake (mkHandshake sid off)).
Proof.
  intros Hs Hoff. pose proof (zlen_nonneg sid). unfold decodeHandshake.
  rewrite !zlen_app, Uint16_Put, zlen_PutUint16, zlen_PutUint64 by (unfold is_u16; lia).
  rewrite !(proj2 (Z.ltb_ge _ _)) by lia.
  replace (Z.to_nat (2 + zlen sid)) with (2 + length sid)%nat by (unfold zlen; lia).
  rewrite drop_PutUint16, drop_app_length. change 2%nat with (2 + 0)%nat at 1. rewrite drop_PutUint16, drop_0.
  unfold zlen. rewrite Nat2Z.id, take_app_length, <- (app_nil_r (PutUint64 off)), Uint64_Put; done.
Qed.

Lemma decodeHandshakeAck_payload st code :
  is_u8 st → is_i32 code →
  decodeHandshakeAck (byte_of st :: PutUint32 code) = Ok (FHandshakeAck (mkHandshakeAck st code)).
Proof.
  intros Hst Hcode. cbn [decodeHandshakeAck]. change (byte_of st :: PutUint32 code) with ([byte_of st] ++ PutUint32 code).
  rewrite zlen_app, zlen_PutUint32. change (zlen [byte_of st] + 4 <? 5) with false. cbv iota.
  rewrite byte_val_of, Z.mod_small, <- (app_nil_r (PutUint32 code)), i32_Uint32_Put; done.
Qed.

Lemma decodeWinsize_payload rows cols xp yp :
  is_u16 rows → is_u16 cols → is_u16 xp → is_u16 yp →
  decodeWinsize (PutUint16 rows ++ PutUint16 cols ++ PutUint16 xp ++ PutUint16 yp) =
  Ok (FWinsize (mkWinsize rows cols xp yp)).
Proof.
  intros Hr Hc Hx Hy. unfold decodeWinsize. rewrite !zlen_app, !zlen_PutUint16. change (2 + (2 + (2 + 2)) <? 8) with false.
  cbv iota. change (@drop ascii 6) with (@drop ascii (2 + (2 + (2 + 0)))). change (@drop ascii 4) with (@drop ascii (2 + (2 + 0))).
  change (@drop ascii 2) with (@drop ascii (2 + 0)).
  rewrite !drop_PutUint16, !drop_0, !Uint16_Put by done.
  rewrite <- (app_nil_r (PutUint16 yp)), Uint16_Put; done.
Qed.

Lemma decodeExit_payload code : is_i32 code → decodeExit (PutUint32 code) = Ok (FExit (mkExit code)).
Proof.
  intros Hcode. unfold decodeExit. rewrite zlen_PutUint32. change (4 <? 4) with false. cbv iota.
  rewrite <- (app_nil_r (PutUint32 code)), i32_Uint32_Put; done.
Qed.

(** The writer of every frame fails only on a limit, and the reader inverts it. *)
Lemma WriteFrame_decoded f b r :
  frame_wf f → WriteFrame f = Ok b → ReadFrame (b ++ r) = Ok (f, r).
Proof.
  destruct f as [[sid off]|[st code]|[tag p]|[rows cols xp yp]|[code]|]; cbn [frame_wf]; intros Hwf Hw.
  - cbn in Hwf. cbn [WriteFrame] in Hw. unfold WriteHandshake in Hw. cbn [hs_SessionID hs_ResumeFromOffset] in Hw.
    destruct (Z.ltb_spec 65535 (zlen sid)) as [|Hs]; [done|]. pose proof (zlen_nonneg sid). apply Ok_inj in Hw as <-.
    rewrite ReadFrame_frame;
      [|by rewrite !zlen_app, zlen_PutUint16, zlen_PutUint64, Z.add_assoc|lia|done].
    dispatch. by rewrite decodeHandshake_payload.
  - destruct Hwf as [Hst Hcode]. apply Ok_inj in Hw as <-. rewrite ReadFrame_frame by done.
    dispatch. by rewrite decodeHandshakeAck_payload.
  - cbn [WriteFrame] in Hw. unfold WriteData in Hw. cbn [data_Tag data_Payload] in *.
    destruct (Z.ltb_spec MaxDataPayload (zlen p)) as [|Hp]; [done|]. unfold MaxDataPayload in Hp.
    apply Ok_inj in Hw as <-. rewrite ReadFrame_frame; [|unfold zlen; cbn [length]; lia|lia|done].
    dispatch. cbn [decodeData rbind]. rewrite byte_val_of, Z.mod_small; done.
  - destruct Hwf as (? & ? & ? & ?). apply Ok_inj in Hw as <-. rewrite ReadFrame_frame by done.
    dispatch. by rewrite decodeWinsize_payload.
  - apply Ok_inj in Hw as <-. rewrite ReadFrame_frame by done. dispatch. by rewrite decodeExit_payload.
  - apply Ok_inj in Hw as <-. by rewrite ReadFrame_frame.
Qed.

(** ** Truncated connections *)

Definition frame_type (f : Frame) : Z :=
  match f with
  | FHandshake _ => FrameHandshake
  | FHandshakeAck _ => FrameHandshakeAck
  | FData _ => FrameData
  | FWinsize _ => FrameWinsize
  | FExit _ => FrameExit
  | FStdinClose => FrameStdinClose
  end.

(** What a writer hands over is a header with the exact length of the payload. *)
Lemma WriteFrame_shape f b :
  WriteFrame f = Ok b → ∃ p, b = frame_bytes (zlen p) (frame_type f) p ∧ zlen p < 2 ^ 32.
Proof.
  destruct f as [[sid off]|[st code]|[tag p]|[rows cols xp yp]|[code]|]; cbn [WriteFrame frame_type]; intros Hw.
  - unfold WriteHandshake in Hw. cbn [hs_SessionID hs_ResumeFromOffset] in Hw.
    destruct (Z.ltb_spec 65535 (zlen sid)) as [|Hs]; [done|]. apply Ok_inj in Hw as <-.
    set (p := PutUint16 (zlen sid) ++ sid ++ PutUint64 off).
    assert (Hp : zlen p = 2 + zlen sid + 8) by (unfold p; rewrite !zlen_app, zlen_PutUint16, zlen_PutUint64; lia).
    exists p. rewrite Hp. split; [done|lia].
  - apply Ok_inj in Hw as <-. by exists (byte_of st :: PutUint32 code).
  - unfold WriteData in Hw. cbn [data_Tag data_Payload] in Hw.
    destruct (Z.ltb_spec MaxDataPayload (zlen p)) as [|Hp]; [done|]. unfold MaxDataPayload in Hp.
    apply Ok_inj in Hw as <-. assert (Hq : zlen (byte_of tag :: p) = 1 + zlen p) by (unfold zlen; cbn [length]; lia).
    exists (byte_of tag :: p). rewrite Hq. split; [done|lia].
  - apply Ok_inj in Hw as <-. by exists (PutUint16 rows ++ PutUint16 cols ++ PutUint16 xp ++ PutUint16 yp).
  - apply Ok_inj in Hw as <-. by exists (PutUint32 code).
  - apply Ok_inj in Hw as <-. by exists [].
Qed.

(** The error of a connection that closes [k] bytes into a frame. *)
Definition truncation_error (f : Frame) (k : nat) : wire_error :=
  if (k =? 0)%nat then ErrEOF else if (k <? headerLen)%nat then ErrUnexpectedEOF
  else ErrTruncatedPayload (frame_type f).

Lemma frame_type_u8 f : is_u8 (frame_type f).
Proof. by destruct f. Qed.

Lemma ReadFrame_truncated f b k :
  WriteFrame f = Ok b → (k < length b)%nat → ReadFrame (take k b) = Err (truncation_error f k).
Proof.
  intros Hw Hk. destruct (WriteFrame_shape f b Hw) as (p & -> & Hp). pose proof (frame_type_u8 f) as Hft.
  unfold frame_bytes in *. set (hdr := PutUint32 (zlen p) ++ [byte_of (frame_type f)]).
  assert (Hhdr : length hdr = headerLen) by (unfold hdr; by rewrite length_app, length_PutUint32).
  rewrite (app_assoc (PutUint32 _)) in *. fold hdr in Hk |- *. rewrite length_app in Hk.
  unfold ReadFrame, truncation_error. destruct (Nat.ltb_spec k headerLen) as [Hlt|Hge].
  - unfold ReadFull. rewrite length_take_le by (rewrite length_app; lia).
    rewrite (proj2 (Nat.leb_gt _ _)) by lia. destruct k as [|k]; [done|].
    destruct (take (S k) (hdr ++ p)) eqn:E; [|done].
    apply (f_equal length) in E. rewrite length_take_le in E by (rewrite length_app; lia). done.
  - replace (k =? 0)%nat with false by (symmetry; apply Nat.eqb_neq; unfold headerLen in Hge; lia).
    rewrite take_app_ge, Hhdr by lia. rewrite ReadFull_app by done.
    unfold hdr. destruct (header_fields (zlen p) (frame_type f)) as [-> ->]; [|done|].
    { pose proof (zlen_nonneg p). lia. }
    unfold readPayload. rewrite (proj2 (Z.leb_gt _ _)); [done|]. unfold zlen. rewrite length_take_le; lia.
Qed.

(** When a writer refuses a frame. *)
Definition over_limit (f : Frame) : Prop :=
  match f with
  | FHandshake h => 65535 < zlen (hs_SessionID h)
  | FData d => MaxDataPayload < zlen (data_Payload d)
  | _ => False
  end.

Lemma WriteFrame_total f : (∃ b, WriteFrame f = Ok b ∧ ¬ over_limit f) ∨ (∃ e, WriteFrame f = Err e ∧ over_limit f).
Proof.
  destruct f as [h|?|d|?|?|]; cbn [WriteFrame over_limit];
    try (left; eexists; split; [reflexivity|tauto]).
  - unfold WriteHandshake. destruct (Z.ltb_spec 65535 (zlen (hs_SessionID h))); [right|left]; eexists; split; try done; lia.
  - unfold WriteData. destruct (Z.ltb_spec MaxDataPayload (zlen (data_Payload d))); [right|left]; eexists; split; try done; lia.
Qed.

(** C39: the wire codec.  A frame within the writers' limits is written, and read back
    exactly, with what follows left for the next read; a connection that closes in
    the middle of it yields an error and never a frame: end of file exactly
    between frames, an unexpected end within the header, and otherwise a truncated
    payload that names the frame's type.  A writer refuses a frame exactly when it
    is over its limit. *)
Lemma wire_roundtrip f :
  frame_wf f →
  (over_limit f ∧ ∃ e, WriteFrame f = Err e) ∨
  (¬ over_limit f ∧ ∃ b, WriteFrame f = Ok b ∧ (∀ r, ReadFrame (b ++ r) = Ok (f, r)) ∧
     ∀ k, (k < length b)%nat → ReadFrame (take k b) = Err (truncation_error f k)).
Proof.
  intros Hwf. destruct (WriteFrame_total f) as [(b & Hb & Hl)|(e & He & Hl)]; [right|left; eauto].
  split; [done|]. exists b. split; [done|]. split.
  - intros r. by apply WriteFrame_decoded.
  - intros k Hk. by apply ReadFrame_truncated.
Qed.

(** Only the writer checks [MaxDataPayload]: a data frame of any 32-bit length is read. *)
Lemma ReadFrame_no_limit tag p r :
  is_u8 tag → zlen p < 2 ^ 32 - 1 →
  ReadFrame (frame_bytes (1 + zlen p) FrameData (byte_of tag :: p) ++ r) = Ok (FData (mkData tag p), r).
Proof.
  intros Ht Hp. rewrite ReadFrame_frame; [|unfold zlen; cbn [length]; lia|lia|done].
  dispatch. cbn [decodeData rbind]. rewrite byte_val_of, Z.mod_small; done.
Qed.

Lemma wire_roundtrip_witness :
  frame_wf (FExit (mkExit (-1))) ∧
  ∃ b, WriteFrame (FExit (mkExit (-1))) = Ok b ∧ ReadFrame (take 7 b) = Err (ErrTruncatedPayload FrameExit).
Proof.
  assert (Hwf : frame_wf (FExit (mkExit (-1)))) by (unfold frame_wf, is_i32; cbn; lia).
  split; [exact Hwf|]. destruct (wire_roundtrip _ Hwf) as [[[] _]|(_ & b & Hb & _ & Ht)].
  exists b. split; [exact Hb|]. apply Ht. cbn in Hb. injection Hb as <-. cbn. lia.
Defined.
