(* ===== verification/DataPlane.v ===== *)
(** * The data plane between host and guest

    [cmd/nexus-agent/dataplane.go] serves a session's output from its ring and feeds its
    input; [internal/core/agent/exec.go] ([runDataPump]) is the other end.  A
    connection is the list of frames sent over it, or the bytes they are written as.

    - Guest to host: the turns of [streamRingToWriter] interleave with the process
      writing output and exiting; the host's loop reads frames until the exit code.
    - Host to guest: what the host's two sending goroutines write under their mutex is a
      sequence of chunks and resizes; the guest's loop turns frames into writes to the
      process's input, its closing and resizes of its terminal.

    The dials, the session lookup failing over to file copies and cancellation are not
    modelled. *)

From stdpp Require Import prelude strings list.
From Stdlib Require Import ZArith Ascii Lia.
From S2P Require Import Prelude GoStrings GoIO Ring Wire.

(** What a sequence of frames is on the wire: a writer that refuses a frame sends
    nothing, and the callers on this path ignore its error or never hit it. *)
Definition frame_wire (f : Frame) : bytes := match WriteFrame f with Ok b => b | Err _ => [] end.
Definition wire_bytes (fs : list Frame) : bytes := concat (frame_wire <$> fs).

(** ** The host's receiving loop *)

Inductive pump_error := PumpRead (e : wire_error) | PumpNotAck | PumpOutOfFuel.

(** The exit code, and what was written to standard output and error. *)
Fixpoint pump_loop (fuel : nat) (r stdout stderr : bytes) : result pump_error (Z * bytes * bytes) :=
  match fuel with
  | O => Err PumpOutOfFuel
  | S fuel =>
      match ReadFrame r with
      | Err e => Err (PumpRead e)
      | Ok (FData d, r) =>
          if data_Tag d =? StreamStdout then pump_loop fuel r (stdout ++ data_Payload d) stderr
          else if data_Tag d =? StreamStderr then pump_loop fuel r stdout (stderr ++ data_Payload d)
          else pump_loop fuel r stdout stderr
      | Ok (FExit e, _) => Ok (exit_Code e, stdout, stderr)
      | Ok (_, r) => pump_loop fuel r stdout stderr
      end
  end.

(** [r] is what the guest sends on the connection. *)
Definition runDataPump (r : bytes) : result pump_error (Z * bytes * bytes) :=
  match ReadFrame r with
  | Err e => Err (PumpRead e)
  | Ok (FHandshakeAck _, r) => pump_loop (S (length r)) r [] []
  | Ok _ => Err PumpNotAck
  end.

(** ** The guest's sending loop *)

(** One turn of [streamRingToWriter]: the frames sent, the new offset, and whether the
    loop ends.  [None] while it waits for output. *)
Definition stream_turn (off : Z) (ring : Ring) : option (list Frame * Z * bool) :=
  match WaitNext off ring with
  | None => None
  | Some (data, off', done) =>
      Some (match data with [] => [] | _ => [FData (mkData StreamStdout data)] end, off',
            done && bool_decide (data = []))
  end.

(** The loop over a ring nobody writes to any more. *)
Fixpoint stream_closed (fuel : nat) (off : Z) (ring : Ring) : option (list Frame) :=
  match fuel with
  | O => None
  | S fuel =>
      match stream_turn off ring with
      | None => None
      | Some (fs, off', fin) => if fin then Some fs else app fs <$> stream_closed fuel off' ring
      end
  end.

(** Attaching to a session that has exited. *)
Definition handleDataConn_exited (fuel : nat) (ring : Ring) (code from : Z) : option (list Frame) :=
  fs ← stream_closed fuel from ring;
  Some (FHandshakeAck (mkHandshakeAck AckExited code) :: fs ++ [FExit (mkExit code)]).

(** A session that nobody knows. *)
Definition handleDataConn_unknown : list Frame := [FHandshakeAck (mkHandshakeAck AckExited (-1))].

(** A live session with one attached connection.  [cn_out] is all output of the process
    so far, [cn_exit] the code stored by [setExited], [cn_lost] how many bytes the ring had
    overwritten before the sending loop came to them. *)
Record Conn := mkConn {
  cn_ring : Ring;
  cn_out : bytes;
  cn_exit : option Z;
  cn_off : Z;
  cn_open : bool;
  cn_sent : list Frame;
  cn_lost : Z;
}.

Definition handleDataConn_alive (ring : Ring) (out : bytes) (from : Z) : Conn :=
  mkConn ring out None from true [FHandshakeAck (mkHandshakeAck AckAlive 0)] 0.

(** The process writes until it has exited; [setExited] stores the code before it closes
    the ring; the sending loop sends the exit frame when it ends.  The
    ring overwrites its oldest bytes when it is full, sent or not; a loop that has fallen behind
    goes on with the oldest byte the ring holds. *)
Inductive conn_step : Conn → Conn → Prop :=
| cs_output p c :
    cn_exit c = None → Z.of_nat (length (cn_out c ++ p)) < 2 ^ 64 →
    conn_step c (mkConn (Write p (cn_ring c)) (cn_out c ++ p) None (cn_off c) (cn_open c) (cn_sent c) (cn_lost c))
| cs_exit code c :
    cn_exit c = None → is_i32 code →
    conn_step c (mkConn (Close (cn_ring c)) (cn_out c) (Some code) (cn_off c) (cn_open c) (cn_sent c) (cn_lost c))
| cs_turn fs off' fin c :
    cn_open c = true → stream_turn (cn_off c) (cn_ring c) = Some (fs, off', fin) →
    conn_step c (mkConn (cn_ring c) (cn_out c) (cn_exit c) off' (negb fin)
                   (cn_sent c ++ fs ++ (if fin then [FExit (mkExit (default 0 (cn_exit c)))] else []))
                   (cn_lost c + Z.max 0 (oldestLocked (cn_ring c) - cn_off c))).

(** ** The sending loop delivers the stream *)

(** The frames of a list of chunks of output. *)
Definition out_frames (ds : list bytes) : list Frame := (λ d, FData (mkData StreamStdout d)) <$> ds.
Definition chunks_ok (ds : list bytes) : Prop := Forall (λ d, zlen d ≤ MaxDataPayload) ds.

Lemma frame_wire_ok f b : WriteFrame f = Ok b → frame_wire f = b.
Proof. unfold frame_wire. by intros ->. Qed.

Lemma frame_wire_read f r :
  frame_wf f → ¬ over_limit f → ReadFrame (frame_wire f ++ r) = Ok (f, r).
Proof.
  intros Hwf Hl. unfold frame_wire. destruct (WriteFrame_total f) as [(b & Hb & _)|(e & _ & Ho)]; [|done].
  rewrite Hb. by apply WriteFrame_decoded.
Qed.

Lemma frame_wire_length f : frame_wf f → ¬ over_limit f → (headerLen ≤ length (frame_wire f))%nat.
Proof.
  intros Hwf Hl. unfold frame_wire. destruct (WriteFrame_total f) as [(b & Hb & _)|(e & _ & Ho)]; [|done].
  rewrite Hb. destruct (WriteFrame_shape f b Hb) as (p & -> & _). unfold frame_bytes, headerLen.
  rewrite !length_app, length_PutUint32. cbn [length]. lia.
Qed.

Lemma wire_bytes_cons f fs : wire_bytes (f :: fs) = frame_wire f ++ wire_bytes fs.
Proof. done. Qed.

Lemma wire_bytes_app a b : wire_bytes (a ++ b) = wire_bytes a ++ wire_bytes b.
Proof. unfold wire_bytes. by rewrite fmap_app, concat_app. Qed.

(** The host's loop appends the chunks and stops at the exit code. *)
Lemma pump_loop_frames ds code fuel r stdout stderr :
  chunks_ok ds → is_i32 code → (length (wire_bytes (out_frames ds ++ [FExit (mkExit code)]) ++ r) < fuel)%nat →
  pump_loop fuel (wire_bytes (out_frames ds ++ [FExit (mkExit code)]) ++ r) stdout stderr =
  Ok (code, stdout ++ concat ds, stderr).
Proof.
  intros Hds Hcode. revert fuel stdout. induction Hds as [|d ds Hd Hds IH]; intros fuel stdout Hf;
    (destruct fuel as [|fuel]; [lia|]).
  - cbn [out_frames fmap list_fmap app concat pump_loop]. rewrite wire_bytes_cons, <- app_assoc, frame_wire_read by (done || tauto).
    cbn [exit_Code]. by rewrite app_nil_r.
  - cbn [out_frames fmap list_fmap app concat pump_loop]. fold (out_frames ds).
    assert (Hwf : frame_wf (FData (mkData StreamStdout d))) by done.
    assert (Hl : ¬ over_limit (FData (mkData StreamStdout d))) by (cbn; lia).
    rewrite wire_bytes_cons, <- app_assoc, frame_wire_read by done. cbn [data_Tag data_Payload].
    change (StreamStdout =? StreamStdout) with true. cbv iota. rewrite IH, app_assoc; [done|].
    cbn [out_frames fmap list_fmap app] in Hf. fold (out_frames ds) in Hf. rewrite wire_bytes_cons, <- app_assoc, length_app in Hf.
    pose proof (frame_wire_length _ Hwf Hl). unfold headerLen in *. lia.
Qed.

Lemma runDataPump_frames a ds code :
  frame_wf (FHandshakeAck a) → chunks_ok ds → is_i32 code →
  runDataPump (wire_bytes (FHandshakeAck a :: out_frames ds ++ [FExit (mkExit code)])) = Ok (code, concat ds, []).
Proof.
  intros Ha Hds Hcode. unfold runDataPump. rewrite wire_bytes_cons, frame_wire_read by (done || tauto).
  rewrite <- (app_nil_r (wire_bytes _)), pump_loop_frames; [done|done|done|lia].
Qed.

(** One turn sends the next bytes of the stream; it ends the loop only at its end. *)
Lemma stream_turn_spec off ring s fs off' fin :
  ring_of ring s → 0 ≤ off → read_start ring s off ≤ Z.of_nat (length s) →
  stream_turn off ring = Some (fs, off', fin) →
  ∃ ds, fs = out_frames ds ∧ chunks_ok ds ∧ read_start ring s off ≤ off' ≤ Z.of_nat (length s) ∧
    concat ds = take (Z.to_nat (off' - read_start ring s off)) (drop (Z.to_nat (read_start ring s off)) s) ∧
    (fin = true → off' = Z.of_nat (length s) ∧ rg_done ring = true) ∧
    (rg_done ring = true → fin = false → off < off').
Proof.
  intros Hr Hoff Hst Ht. unfold stream_turn, WaitNext in Ht.
  destruct ((off =? rg_tot ring) && negb (rg_done ring)) eqn:Ew; [done|].
  rewrite (snapshot_spec ring s off Hr Hoff) in Ht.
  set (start := read_start ring s off) in *. assert (Hs0 : off ≤ start) by (unfold start, read_start; lia).
  destruct (Z.leb_spec (Z.of_nat (length s)) start) as [Hend|Hlt]; cbn [fst snd] in Ht; simplify_eq.
  - exists []. rewrite bool_decide_true, andb_true_r by done. repeat split; try done; try lia.
    + constructor.
    + replace (Z.of_nat (length s) - start) with 0 by lia. done.
    + congruence.
  - set (n := Z.min (Z.of_nat (length s) - start) ringChunk) in *.
    assert (Hn : 0 < n) by (unfold n, ringChunk; lia).
    assert (Hlen : length (take (Z.to_nat n) (drop (Z.to_nat start) s)) = Z.to_nat n).
    { rewrite length_take_le; [done|]. rewrite length_drop. unfold n, start, read_start in *. lia. }
    exists [take (Z.to_nat n) (drop (Z.to_nat start) s)].
    assert (Hne : take (Z.to_nat n) (drop (Z.to_nat start) s) ≠ []) by (intros E; rewrite E in Hlen; cbn in Hlen; lia).
    rewrite (bool_decide_false (_ = [])), andb_false_r by done. repeat split; try done; try lia.
    + by destruct (take (Z.to_nat n) (drop (Z.to_nat start) s)).
    + constructor; [|constructor]. unfold zlen, MaxDataPayload. rewrite Hlen. unfold n, ringChunk. lia.
    + cbn [concat]. rewrite app_nil_r. f_equal. lia.
Qed.

(** ** Attaching to an exited session *)

Lemma Z_take_drop (s : bytes) a b : 
  0 ≤ a ≤ b → take (Z.to_nat (b - a)) (drop (Z.to_nat a) s) ++ drop (Z.to_nat b) s = drop (Z.to_nat a) s.
Proof.
  intros Hab. replace (Z.to_nat b) with (Z.to_nat a + Z.to_nat (b - a))%nat by lia.
  by rewrite <- drop_drop, take_drop.
Qed.

Lemma read_start_mid ring s off off' :
  read_start ring s off ≤ off' → read_start ring s off' = off'.
Proof. unfold read_start. lia. Qed.

Lemma stream_closed_spec ring s off fuel :
  ring_of ring s → rg_done ring = true → 0 ≤ off →
  (Z.to_nat (Z.of_nat (length s) - off) + 1 < fuel)%nat →
  ∃ ds, stream_closed fuel off ring = Some (out_frames ds) ∧ chunks_ok ds ∧
    concat ds = drop (Z.to_nat (read_start ring s off)) s.
Proof.
  intros Hr Hd. revert off. induction fuel as [|fuel IH]; intros off Hoff Hf; [lia|]. cbn [stream_closed].
  destruct (stream_turn off ring) as [[[fs off'] fin]|] eqn:Et; last first.
  { unfold stream_turn, WaitNext in Et. rewrite Hd, andb_false_r in Et. by destruct (snapshotLocked off ring). }
  destruct (Z.leb_spec (read_start ring s off) (Z.of_nat (length s))) as [Hle|Hgt].
  - destruct (stream_turn_spec off ring s fs off' fin Hr Hoff Hle Et) as (ds & -> & Hds & Hoff' & Hc & Hfin & Hprog).
    assert (Hs0 : 0 ≤ read_start ring s off) by (unfold read_start; lia). destruct fin.
    + destruct (Hfin eq_refl) as [-> _]. exists ds. split; [done|]. split; [done|]. rewrite Hc. apply take_ge. rewrite length_drop. lia.
    + specialize (Hprog Hd eq_refl). destruct (IH off' ltac:(lia) ltac:(lia)) as (ds' & -> & Hds' & Hc').
      exists (ds ++ ds'). split; [unfold out_frames; by rewrite fmap_app|]. split; [by apply Forall_app|].
      rewrite concat_app, Hc, Hc', (read_start_mid ring s off off') by lia. apply Z_take_drop; lia.
  - unfold stream_turn, WaitNext in Et. rewrite Hd, andb_false_r in Et. rewrite (snapshot_spec ring s off Hr Hoff) in Et.
    rewrite (proj2 (Z.leb_le _ _)) in Et by lia. cbn [fst snd] in Et. rewrite bool_decide_true in Et by done.
    simplify_eq/=. exists []. split; [done|]. split; [constructor|]. symmetry. apply drop_ge. lia.
Qed.

(** C38: attaching to an exited session always ends, and replays the ring.  The sending loop
    terminates within one turn per unread byte plus two, and the host that reads what it sent
    gets the stored exit code and the output from the requested offset on, or from the
    oldest byte the ring still holds; an offset beyond the output gets none. *)
Lemma attach_exited_replays ring s code from fuel :
  ring_of ring s → rg_done ring = true → is_i32 code → is_u64 from →
  (Z.to_nat (Z.of_nat (length s) - from) + 1 < fuel)%nat →
  ∃ fs, handleDataConn_exited fuel ring code from = Some fs ∧
    runDataPump (wire_bytes fs) = Ok (code, drop (Z.to_nat (read_start ring s from)) s, []).
Proof.
  intros Hr Hd Hcode [Hfrom _] Hf.
  destruct (stream_closed_spec ring s from fuel Hr Hd Hfrom Hf) as (ds & Hs & Hds & Hc).
  unfold handleDataConn_exited. rewrite Hs. cbn [mbind option_bind]. eexists. split; [reflexivity|].
  rewrite runDataPump_frames, Hc; [done|by split|done|done].
Qed.

(** ** A live session *)

(** What was sent is the acknowledgement, chunks that make up the output between the first offset and the current one but
    for the bytes lost, and the exit code once the loop has ended.  Bytes are lost only when more was written since the
    first offset than the ring holds. *)
Definition conn_inv (from : Z) (c : Conn) : Prop :=
  ring_of (cn_ring c) (cn_out c) ∧ rg_done (cn_ring c) = bool_decide (is_Some (cn_exit c)) ∧
  (∀ code, cn_exit c = Some code → is_i32 code) ∧ 0 ≤ from ≤ cn_off c ∧ cn_off c ≤ Z.of_nat (length (cn_out c)) ∧
  0 ≤ cn_lost c ∧ (cn_lost c = 0 ∨ Z.of_nat (rg_cap (cn_ring c)) < Z.of_nat (length (cn_out c)) - from) ∧
  ∃ ds, chunks_ok ds ∧ concat ds `sublist_of` take (Z.to_nat (cn_off c - from)) (drop (Z.to_nat from) (cn_out c)) ∧
    Z.of_nat (length (concat ds)) + cn_lost c = cn_off c - from ∧
    if cn_open c then cn_sent c = FHandshakeAck (mkHandshakeAck AckAlive 0) :: out_frames ds
    else ∃ code, cn_exit c = Some code ∧ cn_off c = Z.of_nat (length (cn_out c)) ∧
      cn_sent c = FHandshakeAck (mkHandshakeAck AckAlive 0) :: out_frames ds ++ [FExit (mkExit code)].

Lemma sublist_length_eq {A} (l1 l2 : list A) : l1 `sublist_of` l2 → (length l2 ≤ length l1)%nat → l1 = l2.
Proof.
  induction 1 as [|x l1 l2 Hs IH|x l1 l2 Hs IH]; intros Hl; [done|f_equal; apply IH; cbn in Hl; lia|].
  pose proof (sublist_length _ _ Hs). cbn in Hl. lia.
Qed.

Lemma take_drop_app (s p : bytes) a b :
  0 ≤ a ≤ b → b ≤ Z.of_nat (length s) →
  take (Z.to_nat (b - a)) (drop (Z.to_nat a) (s ++ p)) = take (Z.to_nat (b - a)) (drop (Z.to_nat a) s).
Proof.
  intros Hab Hb. rewrite drop_app_le by lia. rewrite take_app_le; [done|]. rewrite length_drop. lia.
Qed.

Lemma take_drop_split (s : bytes) a b c :
  0 ≤ a ≤ b → b ≤ c →
  take (Z.to_nat (b - a)) (drop (Z.to_nat a) s) ++ take (Z.to_nat (c - b)) (drop (Z.to_nat b) s) =
  take (Z.to_nat (c - a)) (drop (Z.to_nat a) s).
Proof.
  intros Hab Hbc. replace (Z.to_nat b) with (Z.to_nat a + Z.to_nat (b - a))%nat by lia.
  rewrite <- drop_drop, take_take_drop. f_equal. lia.
Qed.

Lemma ring_of_Close r s : ring_of r s → ring_of (Close r) s.
Proof. intros ([????] & ? & ?). split; [by constructor|done]. Qed.

Lemma Write_cap_done p r : rg_done (Write p r) = rg_done r.
Proof. unfold Write. destruct p; [done|]. cbn [rg_done]. by destruct (fold_write_tot (a :: p) r). Qed.

Lemma Write_cap p r : rg_cap (Write p r) = rg_cap r.
Proof.
  assert (H : ∀ p r, rg_cap (fold_left write_byte p r) = rg_cap r).
  { clear. induction p as [|b p IH]; intros r; cbn [fold_left]; [done|]. rewrite IH. unfold write_byte. by destruct (_ <? _)%nat. }
  unfold Write. destruct p; [done|]. cbn [rg_cap]. apply H.
Qed.

(** The bytes a turn skips, and the output between two offsets with a gap in it. *)
Lemma skipped_eq r s off : ring_of r s → Z.max 0 (oldestLocked r - off) = read_start r s off - off.
Proof. intros Hr. rewrite (oldestLocked_eq r s Hr). unfold read_start. lia. Qed.

Lemma sublist_gap (s got more : bytes) a b m c :
  0 ≤ a ≤ b → b ≤ m ≤ c →
  got `sublist_of` take (Z.to_nat (b - a)) (drop (Z.to_nat a) s) → more = take (Z.to_nat (c - m)) (drop (Z.to_nat m) s) →
  got ++ more `sublist_of` take (Z.to_nat (c - a)) (drop (Z.to_nat a) s).
Proof.
  intros Hab Hbm Hg ->. rewrite <- (take_drop_split s a b c), <- (take_drop_split s b m c) by lia.
  apply sublist_app; [done|]. apply sublist_inserts_l. done.
Qed.

Lemma conn_step_inv from c c' : conn_step c c' → conn_inv from c → conn_inv from c'.
Proof.
  intros Hstep (Hr & Hd & Hex & Hfrom & Hoff & Hl0 & Hl & ds & Hds & Hc & Hlen' & Hsent).
  destruct Hstep as [p c He Hlen|code c He Hcode|fs off' fin c Ho Ht].
  - split; [by apply Write_ring_of|]. cbn. rewrite Write_cap_done, Write_cap, Hd, He. split; [done|]. split; [done|].
    rewrite length_app. split; [lia|]. split; [lia|]. split; [lia|]. split; [lia|]. exists ds. rewrite take_drop_app by lia. do 3 (split; [done|]).
    destruct (cn_open c); [done|]. destruct Hsent as (code & ? & _). congruence.
  - split; [by apply ring_of_Close|]. cbn. split; [done|]. split; [by intros ? [= <-]|]. do 4 (split; [done|]).
    exists ds. do 3 (split; [done|]). destruct (cn_open c); [done|]. destruct Hsent as (? & ? & _). congruence.
  - rewrite Ho in Hsent. pose proof (skipped_eq _ _ (cn_off c) Hr) as Hskip.
    assert (Hle : read_start (cn_ring c) (cn_out c) (cn_off c) ≤ Z.of_nat (length (cn_out c))) by (unfold read_start; lia).
    assert (Hge : cn_off c ≤ read_start (cn_ring c) (cn_out c) (cn_off c)) by (unfold read_start; lia).
    destruct (stream_turn_spec (cn_off c) (cn_ring c) (cn_out c) fs off' fin Hr ltac:(lia) Hle Ht) as (ds' & -> & Hds' & Hoff' & Hc' & Hfin & _).
    assert (Hcl : Z.of_nat (length (concat ds')) = off' - read_start (cn_ring c) (cn_out c) (cn_off c)).
    { rewrite Hc', length_take_le; [lia|]. rewrite length_drop. lia. }
    split; [done|]. cbn. rewrite Hskip. split; [done|]. split; [done|]. split; [lia|]. split; [lia|]. split; [lia|].
    split. { destruct Hr as ([_ _ _ Hu _] & _ & _). unfold read_start in *. lia. }
    exists (ds ++ ds'). split; [by apply Forall_app|]. rewrite concat_app.
    split; [by eapply sublist_gap with (b := cn_off c) (m := read_start (cn_ring c) (cn_out c) (cn_off c)); [lia|lia|..]|].
    split; [rewrite length_app; lia|]. rewrite Hsent. destruct fin; cbn [negb].
    + destruct (Hfin eq_refl) as [Hend Hdone]. rewrite Hd in Hdone. apply bool_decide_eq_true in Hdone as [code Hcode].
      exists code. rewrite Hcode. split; [done|]. split; [done|]. cbn [default]. unfold out_frames.
      by rewrite fmap_app, <- !app_assoc.
    + unfold out_frames. by rewrite app_nil_r, fmap_app.
Qed.

(** C37: the output of a process reaches the host.  Whatever the interleaving of the process's writes, its exit and the
    sending loop, once the guest has finished the connection the host that reads the bytes sent returns the process's
    exit code and, on standard output, the output from the requested offset to its end in order, without the bytes that
    the ring had overwritten before they were sent.  If none were lost, and none are lost when no more than the capacity
    of the ring was written from the offset on, it is exactly that output. *)
Lemma session_output_delivered ring out from c :
  ring_of ring out → rg_done ring = false → 0 ≤ from ≤ Z.of_nat (length out) →
  rtc conn_step (handleDataConn_alive ring out from) c → cn_open c = false →
  let sent := drop (Z.to_nat from) (cn_out c) in
  ∃ code got, cn_exit c = Some code ∧ runDataPump (wire_bytes (cn_sent c)) = Ok (code, got, []) ∧
    got `sublist_of` sent ∧ Z.of_nat (length got) + cn_lost c = Z.of_nat (length sent) ∧
    (cn_lost c = 0 → got = sent) ∧ (Z.of_nat (length sent) ≤ Z.of_nat (rg_cap (cn_ring c)) → got = sent).
Proof.
  intros Hr Hd Hfrom Hsteps Hclosed. cbv zeta.
  assert (Hinv : conn_inv from c).
  { apply (rtc_invariant _ (conn_inv from) (conn_step_inv from) _ _ Hsteps).
    do 3 (split; [done|]). cbn. split; [lia|]. split; [lia|]. split; [lia|]. split; [by left|]. exists []. rewrite Z.sub_diag. repeat split; try constructor. }
  destruct Hinv as (_ & _ & Hex & Hf & Hoff & Hl0 & Hl & ds & Hds & Hc & Hlen & Hsent). rewrite Hclosed in Hsent.
  destruct Hsent as (code & Hcode & Hend & ->). exists code, (concat ds). split; [done|].
  split; [by rewrite runDataPump_frames; [|by split|done|by apply Hex]|].
  rewrite Hend, take_ge in Hc by (rewrite length_drop; lia). split; [done|].
  assert (Hls : length (drop (Z.to_nat from) (cn_out c)) = (length (cn_out c) - Z.to_nat from)%nat) by apply length_drop.
  assert (Heq : cn_lost c = 0 → concat ds = drop (Z.to_nat from) (cn_out c)) by (intros E; apply sublist_length_eq; [done|lia]).
  split; [lia|]. split; [done|]. intros Hcap. apply Heq. destruct Hl; [done|lia].
Qed.

(** A host that reads slowly loses output: six bytes are written into a ring of four before the loop's first turn. *)
Lemma slow_host_loses_output :
  ∃ c, rtc conn_step (handleDataConn_alive (newRing 4) [] 0) c ∧ cn_open c = false ∧ cn_out c = chars "abcdef" ∧
    runDataPump (wire_bytes (cn_sent c)) = Ok (0, chars "cdef", []).
Proof.
  eexists. split.
  - eapply rtc_l; [by apply (cs_output (chars "abcdef"))|]. eapply rtc_l; [by apply (cs_exit 0); [|unfold is_i32]|].
    eapply rtc_l; [by apply (cs_turn [FData (mkData StreamStdout (chars "cdef"))] 6 false)|].
    eapply rtc_l; [by apply (cs_turn [] 6 true)|]. apply rtc_refl.
  - split; [done|]. split; [done|]. vm_compute. reflexivity.
Qed.

(** ** Host to guest *)

Inductive host_action := SendChunk (p : bytes) | SendWinsize (w : Winsize).

Definition host_frame (a : host_action) : Frame :=
  match a with SendChunk p => FData (mkData StreamStdin p) | SendWinsize w => FWinsize w end.

(** The sending goroutines of [runDataPump]: chunks of standard input and window sizes, the
    closing of standard input when its source ended cleanly, window sizes after it. *)
Definition host_sends (acts : list host_action) (late : list Winsize) : list Frame :=
  (host_frame <$> acts) ++ FStdinClose :: (FWinsize <$> late).

Inductive guest_input := InWrite (p : bytes) | InClose | InResize (w : Winsize).

(** The inbound loop of [handleDataConn].  A session has a terminal ([pty]) or an input
    pipe; the pipe is closed at most once, at the latest when the loop ends, and writes
    to the closed pipe fail without effect. *)
Fixpoint inbound_loop (fuel : nat) (pty closed : bool) (r : bytes) : list guest_input :=
  let backstop := if pty || closed then [] else [InClose] in
  match fuel with
  | O => []
  | S fuel =>
      match ReadFrame r with
      | Err _ => backstop
      | Ok (FData d, r) =>
          if negb (data_Tag d =? StreamStdin) then inbound_loop fuel pty closed r
          else if pty || negb closed then InWrite (data_Payload d) :: inbound_loop fuel pty closed r
          else inbound_loop fuel pty closed r
      | Ok (FStdinClose, r) =>
          if pty || closed then inbound_loop fuel pty closed r
          else InClose :: inbound_loop fuel pty true r
      | Ok (FWinsize w, r) =>
          if pty then InResize w :: inbound_loop fuel pty closed r else inbound_loop fuel pty closed r
      | Ok (FExit _, _) => backstop
      | Ok (_, r) => inbound_loop fuel pty closed r
      end
  end.

(** Chunks come out of a buffer of [MaxDataPayload] bytes; window sizes are 16 bits wide. *)
Definition action_ok (a : host_action) : Prop :=
  match a with SendChunk p => zlen p ≤ MaxDataPayload | SendWinsize w => frame_wf (FWinsize w) end.

Definition pty_input (a : host_action) : guest_input :=
  match a with SendChunk p => InWrite p | SendWinsize w => InResize w end.
Definition pipe_input (a : host_action) : option guest_input :=
  match a with SendChunk p => Some (InWrite p) | SendWinsize _ => None end.

Lemma host_frame_ok a : action_ok a → frame_wf (host_frame a) ∧ ¬ over_limit (host_frame a).
Proof. destruct a as [p|w]; cbn; [|tauto]. intros Hp. split; [done|lia]. Qed.

(** A frame that can be sent is taken off the front of the connection. *)
Lemma wire_bytes_read f fs : frame_wf f → ¬ over_limit f → ReadFrame (wire_bytes (f :: fs)) = Ok (f, wire_bytes fs).
Proof. intros Hwf Hl. rewrite wire_bytes_cons. by apply frame_wire_read. Qed.

Lemma wire_bytes_fuel f fs fuel :
  frame_wf f → ¬ over_limit f → (length (wire_bytes (f :: fs)) < S fuel)%nat → (length (wire_bytes fs) < fuel)%nat.
Proof.
  intros Hwf Hl. rewrite wire_bytes_cons, length_app. pose proof (frame_wire_length f Hwf Hl). unfold headerLen in *. lia.
Qed.

Lemma inbound_late pty closed late fuel :
  pty = true ∨ closed = true → Forall (λ w, frame_wf (FWinsize w)) late →
  (length (wire_bytes (FWinsize <$> late)) < fuel)%nat →
  inbound_loop fuel pty closed (wire_bytes (FWinsize <$> late)) = if pty then InResize <$> late else [].
Proof.
  intros Hp Hlate. revert fuel. induction Hlate as [|w late Hw _ IH]; intros fuel Hf; (destruct fuel as [|fuel]; [lia|]);
    cbn [inbound_loop fmap list_fmap].
  - change (ReadFrame (wire_bytes [])) with (@Err wire_error (Frame * bytes) ErrEOF). cbv iota.
    destruct Hp as [-> | ->]; [done|by destruct pty].
  - rewrite wire_bytes_read by (done || tauto).
    rewrite IH by (apply wire_bytes_fuel in Hf; [done|done|tauto]). by destruct pty.
Qed.

Lemma inbound_acts pty acts rest fuel :
  Forall action_ok acts → (length (wire_bytes ((host_frame <$> acts) ++ rest)) < fuel)%nat →
  ∃ fuel', (length (wire_bytes rest) < fuel')%nat ∧
    inbound_loop fuel pty false (wire_bytes ((host_frame <$> acts) ++ rest)) =
    (if pty then pty_input <$> acts else omap pipe_input acts) ++ inbound_loop fuel' pty false (wire_bytes rest).
Proof.
  intros Hacts. revert fuel. induction Hacts as [|a acts Ha _ IH]; intros fuel Hf.
  { exists fuel. split; [done|]. by destruct pty. }
  destruct fuel as [|fuel]; [lia|]. destruct (host_frame_ok a Ha) as [Hwf Hl].
  cbn [fmap list_fmap app] in Hf |- *. pose proof (wire_bytes_fuel _ _ _ Hwf Hl Hf) as Hf'.
  destruct (IH fuel Hf') as (fuel' & Hfuel' & Heq). exists fuel'. split; [done|].
  cbn [inbound_loop]. rewrite wire_bytes_read by done.
  destruct a as [p|w]; cbn [host_frame data_Tag data_Payload];
    [change (StreamStdin =? StreamStdin) with true; rewrite orb_true_r; cbn [negb]|];
    rewrite Heq; by destruct pty.
Qed.

(** input reaches the process complete, in order and exactly once.  For every interleaving
    of chunks of standard input with window sizes, the process behind a pipe reads exactly the
    concatenated chunks and then end of file, closed once; the process on a terminal
    gets the same writes and all resizes, in the order they were sent. *)
Lemma session_input_delivered acts late fuel :
  Forall action_ok acts → Forall (λ w, frame_wf (FWinsize w)) late →
  (length (wire_bytes (host_sends acts late)) < fuel)%nat →
  inbound_loop fuel false false (wire_bytes (host_sends acts late)) = omap pipe_input acts ++ [InClose] ∧
  inbound_loop fuel true false (wire_bytes (host_sends acts late)) = (pty_input <$> acts) ++ (InResize <$> late).
Proof.
  intros Hacts Hlate Hf. unfold host_sends in *.
  assert (Hc : ∀ pty fuel', (length (wire_bytes (FStdinClose :: (FWinsize <$> late))) < fuel')%nat →
    inbound_loop fuel' pty false (wire_bytes (FStdinClose :: (FWinsize <$> late))) =
    if pty then InResize <$> late else [InClose]).
  { intros pty [|fuel'] Hf'; [lia|]. pose proof (wire_bytes_fuel FStdinClose _ _ I (λ H, H) Hf').
    cbn [inbound_loop]. rewrite wire_bytes_read by (done || tauto). destruct pty; cbn [orb].
    - rewrite inbound_late; auto.
    - rewrite inbound_late; auto. }
  split.
  - destruct (inbound_acts false acts _ fuel Hacts Hf) as (fuel' & Hf' & ->). by rewrite Hc.
  - destruct (inbound_acts true acts _ fuel Hacts Hf) as (fuel' & Hf' & ->). by rewrite Hc.
Qed.

(** ** Witnesses *)

Lemma newRing_ring_of c : (0 < c)%nat → ring_of (newRing c) [].
Proof. intros Hc. split; [by apply newRing_rep|done]. Qed.

Lemma example_ring_of : ring_of example_ring (chars "abcdef").
Proof.
  unfold example_ring. apply (Write_ring_of (chars "cdef") _ (chars "ab")); [|done].
  apply (Write_ring_of (chars "ab") _ []); [|done]. apply newRing_ring_of. lia.
Qed.

(** The four bytes a small ring still holds. *)
Lemma attach_exited_replays_witness :
  ∃ fs, handleDataConn_exited 8 (Close example_ring) 7 0 = Some fs ∧
    runDataPump (wire_bytes fs) = Ok (7, chars "cdef", []).
Proof.
  destruct (attach_exited_replays (Close example_ring) (chars "abcdef") 7 0 8) as (fs & Hfs & Hrun).
  - apply ring_of_Close, example_ring_of.
  - reflexivity.
  - unfold is_i32. lia.
  - unfold is_u64. lia.
  - vm_compute. lia.
  - exists fs. split; [exact Hfs|exact Hrun].
Defined.

Lemma session_output_delivered_witness :
  ∃ c, rtc conn_step (handleDataConn_alive (newRing 4) [] 0) c ∧ cn_open c = false ∧
    runDataPump (wire_bytes (cn_sent c)) = Ok (3, chars "abcd", []).
Proof.
  assert (Hrun : ∃ c, rtc conn_step (handleDataConn_alive (newRing 4) [] 0) c ∧ cn_open c = false ∧
    cn_exit c = Some 3 ∧ cn_out c = chars "abcd" ∧ cn_lost c = 0).
  { eexists. split.
    - eapply rtc_l; [by apply (cs_output (chars "ab"))|].
      eapply rtc_l; [by apply (cs_turn [FData (mkData StreamStdout (chars "ab"))] 2 false)|].
      eapply rtc_l; [by apply (cs_output (chars "cd"))|].
      eapply rtc_l; [by apply (cs_exit 3); [|unfold is_i32]|].
      eapply rtc_l; [by apply (cs_turn [FData (mkData StreamStdout (chars "cd"))] 4 false)|].
      eapply rtc_l; [by apply (cs_turn [] 4 true)|]. apply rtc_refl.
    - done. }
  destruct Hrun as (c & Hrun & Hopen & Hex & Hout & Hlost). exists c. split; [exact Hrun|]. split; [exact Hopen|].
  destruct (session_output_delivered (newRing 4) [] 0 c (newRing_ring_of 4 ltac:(lia)) eq_refl ltac:(cbn; lia) Hrun Hopen)
    as (code & got & Hcode & -> & _ & _ & Hgot & _).
  rewrite Hex in Hcode. injection Hcode as <-. by rewrite (Hgot Hlost), Hout.
Defined.

Lemma session_input_delivered_witness :
  inbound_loop 200 false false (wire_bytes (host_sends [SendChunk (chars "ls"); SendWinsize (mkWinsize 24 80 0 0);
     SendChunk (chars "-l")] [])) = [InWrite (chars "ls"); InWrite (chars "-l"); InClose].
Proof.
  apply (session_input_delivered [SendChunk (chars "ls"); SendWinsize (mkWinsize 24 80 0 0); SendChunk (chars "-l")] [] 200).
  - repeat constructor; cbn; unfold zlen, MaxDataPayload, is_u16; cbn; lia.
  - constructor.
  - vm_compute. lia.
Defined.
