(* ===== verification/Sni.v ===== *)
(** * internal/core/perimeter/sni: peeking at the TLS client hello ([sni.go], [bridge.go])

    The bytes come from the guest.  Indexing and slicing are partial, as in Go: out of
    range they are the outcome [Panic], and a theorem says that no input reaches it.
    A connection is the list of bytes it will still deliver before it fails. *)

From stdpp Require Import prelude strings list.
From Stdlib Require Import ZArith Ascii Lia.
From S2P Require Import Prelude GoStrings GoIO.

Inductive sni_error :=
| ErrNoSNI
| ErrRead          (** the connection ended within the record *)
| ErrMalformed     (** not a handshake record, too long, truncated, or not a client hello *)
| Panic.

#[global] Instance sni_error_eq_dec : EqDecision sni_error.
Proof. solve_decision. Defined.

Definition blen (l : bytes) : Z := Z.of_nat (length l).

(** [l[i]], [l[a:b]] and [binary.BigEndian.Uint16]. *)
Definition at_ (l : bytes) (i : Z) : result sni_error Z :=
  if (0 <=? i) && (i <? blen l) then Ok (byte_val (default "000"%char (l !! Z.to_nat i))) else Err Panic.

Definition slice (l : bytes) (a b : Z) : result sni_error bytes :=
  if (0 <=? a) && (a <=? b) && (b <=? blen l) then Ok (take (Z.to_nat (b - a)) (drop (Z.to_nat a) l)) else Err Panic.

Definition uint16_at (l : bytes) (a : Z) : result sni_error Z :=
  let* s := slice l a (a + 2) in Ok (get_be s).

Definition maxClientHelloRecord : Z := 16384.

(** ** The server_name extension *)

(** The loop over the entries of the name list.  Out of fuel counts as a panic, so that a bound on the turns is part of
    what the safety lemmas show. *)
Fixpoint names_loop (fuel : nat) (l : bytes) (pos : Z) : result sni_error bytes :=
  match fuel with
  | O => Err Panic
  | S fuel =>
      if blen l <? pos + 3 then Err ErrNoSNI
      else
        let* nameType := at_ l pos in
        let* nameLen := uint16_at l (pos + 1) in
        let pos := pos + 3 in
        if blen l <? pos + nameLen then Err ErrMalformed
        else if nameType =? 0 then slice l pos (pos + nameLen)
        else names_loop fuel l (pos + nameLen)
  end.

Definition parseSNIExtension (data : bytes) : result sni_error bytes :=
  if blen data <? 2 then Err ErrMalformed
  else
    let* listLen := uint16_at data 0 in
    if blen data <? 2 + listLen then Err ErrMalformed
    else
      let* l := slice data 2 (2 + listLen) in
      names_loop (S (length l)) l 0.

(** ** The client hello *)

(** The walk over the extensions, which end at [extEnd]. *)
Fixpoint ext_loop (fuel : nat) (hello : bytes) (extEnd pos : Z) : result sni_error bytes :=
  match fuel with
  | O => Err Panic
  | S fuel =>
      if extEnd <? pos + 4 then Err ErrNoSNI
      else
        let* extType := uint16_at hello pos in
        let* extDataLen := uint16_at hello (pos + 2) in
        let pos := pos + 4 in
        if extEnd <? pos + extDataLen then Err ErrMalformed
        else
          let* extData := slice hello pos (pos + extDataLen) in
          if extType =? 0 then parseSNIExtension extData
          else ext_loop fuel hello extEnd (pos + extDataLen)
  end.

(** From the session identifier on. *)
Definition parse_hello (hello : bytes) : result sni_error bytes :=
  if blen hello <? 35 then Err ErrMalformed
  else
    let pos := 34 in
    let* sidLen := at_ hello pos in
    let pos := pos + 1 in
    if blen hello <? pos + sidLen then Err ErrMalformed
    else
      let pos := pos + sidLen in
      if blen hello <? pos + 2 then Err ErrMalformed
      else
        let* csLen := uint16_at hello pos in
        let pos := pos + 2 in
        if blen hello <? pos + csLen then Err ErrMalformed
        else
          let pos := pos + csLen in
          if blen hello <? pos + 1 then Err ErrMalformed
          else
            let* cmLen := at_ hello pos in
            let pos := pos + 1 in
            if blen hello <? pos + cmLen then Err ErrMalformed
            else
              let pos := pos + cmLen in
              if blen hello <? pos + 2 then Err ErrNoSNI
              else
                let* extLen := uint16_at hello pos in
                let pos := pos + 2 in
                let extEnd := pos + extLen in
                if blen hello <? extEnd then Err ErrMalformed
                else ext_loop (S (length hello)) hello extEnd pos.

(** The three-byte length of the handshake message. *)
Definition len24 (b1 b2 b3 : Z) : Z := Z.lor (Z.lor (Z.shiftl b1 16) (Z.shiftl b2 8)) b3.

Definition extractSNI (data : bytes) : result sni_error bytes :=
  if blen data <? 5 then Err ErrMalformed
  else
    let* ty := at_ data 0 in
    if negb (ty =? 0x16) then Err ErrMalformed
    else
      let* recordLen := uint16_at data 3 in
      if blen data <? 5 + recordLen then Err ErrMalformed
      else
        let* payload := slice data 5 (5 + recordLen) in
        if blen payload <? 4 then Err ErrMalformed
        else
          let* hty := at_ payload 0 in
          if negb (hty =? 1) then Err ErrMalformed
          else
            let* b1 := at_ payload 1 in
            let* b2 := at_ payload 2 in
            let* b3 := at_ payload 3 in
            let helloLen := len24 b1 b2 b3 in
            if blen payload <? 4 + helloLen then Err ErrMalformed
            else
              let* hello := slice payload 4 (4 + helloLen) in
              parse_hello hello.

(** ** Peeking *)

Record PeekConn := mkPeekConn { pc_buf : bytes; pc_pos : nat; pc_conn : bytes }.

(** All that can still be read. *)
Definition PeekConn_Read (n : nat) (c : PeekConn) : bytes * PeekConn :=
  if (pc_pos c <? length (pc_buf c))%nat
  then let b := take n (drop (pc_pos c) (pc_buf c)) in
       (b, mkPeekConn (pc_buf c) (pc_pos c + length b) (pc_conn c))
  else (take n (pc_conn c), mkPeekConn (pc_buf c) (pc_pos c) (drop n (pc_conn c))).

(** What a short read leaves in a buffer of [n] bytes: the bytes that came, then zeros. *)
Definition short_buf (n : nat) (got : bytes) : bytes := got ++ replicate (n - length got) "000"%char.

Definition ParseSNI (raw : bytes) : result sni_error bytes * PeekConn :=
  match ReadFull 5 raw with
  | Err got => (Err ErrRead, mkPeekConn (short_buf 5 got) 0 [])
  | Ok (hdr, raw) =>
      if negb (byte_val (default "000"%char (hdr !! 0%nat)) =? 0x16) then (Err ErrMalformed, mkPeekConn hdr 0 raw)
      else
        let recordLen := get_be (drop 3 hdr) in
        if maxClientHelloRecord <? recordLen then (Err ErrMalformed, mkPeekConn hdr 0 raw)
        else
          match ReadFull (Z.to_nat recordLen) raw with
          | Err got => (Err ErrRead, mkPeekConn (hdr ++ short_buf (Z.to_nat recordLen) got) 0 [])
          | Ok (body, raw) => (extractSNI (hdr ++ body), mkPeekConn (hdr ++ body) 0 raw)
          end
  end.

(** ** The tunnel request *)

(** [net.JoinHostPort]. *)
Definition JoinHostPort (host port : string) : string :=
  if Contains host ":" || Contains host "%" then "[" +:+ host +:+ "]:" +:+ port else host +:+ ":" +:+ port.

Definition crlf : string := of_chars ["013"%char; "010"%char].

(** What [Bridge] sends to the proxy before it splices. *)
Definition connect_request (host : string) : string :=
  let target := JoinHostPort host "443" in
  "CONNECT " +:+ target +:+ " HTTP/1.1" +:+ crlf +:+ "Host: " +:+ target +:+ crlf +:+ crlf.

(** The outbound dialer on port 443: [None] if the connection is rejected, else the
    request to the proxy and the connection that is spliced to it. *)
Definition buildDialer_443 (raw : bytes) : option (string * PeekConn) :=
  match ParseSNI raw with
  | (Ok host, replay) => Some (connect_request (of_chars host), replay)
  | (Err _, _) => None
  end.

(** ** No panic *)

Lemma blen_nonneg l : 0 ≤ blen l.
Proof. unfold blen. lia. Qed.

Lemma at_ok l i : 0 ≤ i < blen l → ∃ v, at_ l i = Ok v ∧ 0 ≤ v < 256.
Proof.
  intros Hi. unfold at_. rewrite (proj2 (Z.leb_le _ _)), (proj2 (Z.ltb_lt _ _)) by lia. cbn.
  eexists. split; [done|]. apply byte_val_range.
Qed.

Lemma slice_ok l a b : 0 ≤ a ≤ b → b ≤ blen l → ∃ s, slice l a b = Ok s ∧ blen s = b - a.
Proof.
  intros Hab Hb. unfold slice. rewrite !(proj2 (Z.leb_le _ _)) by lia. cbn. eexists. split; [done|].
  unfold blen in *. rewrite length_take, length_drop. lia.
Qed.

Lemma get_be_nonneg l : 0 ≤ get_be l.
Proof.
  unfold get_be. cut (∀ acc, 0 ≤ acc → 0 ≤ fold_left (λ acc c, acc * 256 + byte_val c) l acc); [auto with lia|].
  induction l as [|c l IH]; intros acc Ha; [done|]. cbn. apply IH. pose proof (byte_val_range c). lia.
Qed.

Lemma uint16_ok l a : 0 ≤ a → a + 2 ≤ blen l → ∃ v, uint16_at l a = Ok v ∧ 0 ≤ v.
Proof.
  intros Ha Hb. unfold uint16_at. destruct (slice_ok l a (a + 2)) as (s & -> & _); [lia|lia|].
  eexists. split; [done|]. apply get_be_nonneg.
Qed.

(** Discharges one access of a parser whose bounds checks are in the context. *)
Ltac step_access :=
  match goal with
  | |- context [at_ ?l ?i] =>
      let v := fresh "v" in let E := fresh "E" in
      destruct (at_ok l i) as (v & E & ?); [lia|]; rewrite E; clear E; cbn [rbind]
  | |- context [uint16_at ?l ?a] =>
      let v := fresh "v" in let E := fresh "E" in
      destruct (uint16_ok l a) as (v & E & ?); [lia|lia|]; rewrite E; clear E; cbn [rbind]
  | |- context [slice ?l ?a ?b] =>
      let s := fresh "s" in let E := fresh "E" in
      destruct (slice_ok l a b) as (s & E & ?); [lia|lia|]; rewrite E; clear E; cbn [rbind]
  | |- context [if ?a <? ?b then _ else _] => destruct (Z.ltb_spec a b); [by intros [=]|]
  | |- context [if negb ?c then _ else _] => destruct c; cbn [negb]; [|by intros [=]]
  end.

Lemma names_loop_safe fuel l pos : 0 ≤ pos ≤ blen l → blen l < pos + Z.of_nat fuel → names_loop fuel l pos ≠ Err Panic.
Proof.
  revert pos. induction fuel as [|fuel IH]; intros pos Hpos Hf; cbn [names_loop]; [|repeat step_access].
  - lia.
  - destruct (_ =? 0); [by repeat step_access|]. apply IH; lia.
Qed.

Lemma parseSNIExtension_safe data : parseSNIExtension data ≠ Err Panic.
Proof. unfold parseSNIExtension. repeat step_access. apply names_loop_safe; unfold blen; lia. Qed.

Lemma ext_loop_safe fuel hello extEnd pos :
  0 ≤ pos ≤ extEnd → extEnd ≤ blen hello → extEnd < pos + Z.of_nat fuel → ext_loop fuel hello extEnd pos ≠ Err Panic.
Proof.
  revert pos. induction fuel as [|fuel IH]; intros pos Hpos Hend Hf; cbn [ext_loop]; [|repeat step_access].
  - lia.
  - destruct (_ =? 0); [apply parseSNIExtension_safe|]. apply IH; lia.
Qed.

Lemma parse_hello_safe hello : parse_hello hello ≠ Err Panic.
Proof. unfold parse_hello. cbv zeta. repeat step_access. apply ext_loop_safe; unfold blen in *; lia. Qed.

Lemma land_shiftl_low a n d : 0 ≤ n → 0 ≤ d < 2 ^ n → Z.land (Z.shiftl a n) d = 0.
Proof.
  intros Hn Hd. apply Z.bits_inj'. intros k Hk. rewrite Z.land_spec, Z.bits_0.
  destruct (Z.ltb_spec k n) as [Hlt|Hge]; [by rewrite Z.shiftl_spec_low|].
  destruct (decide (d = 0)) as [->|Hd0]; [by rewrite Z.bits_0, andb_false_r|].
  rewrite (Z.bits_above_log2 d k), andb_false_r; [done|lia|].
  pose proof (proj1 (Z.log2_lt_pow2 d n ltac:(lia)) ltac:(lia)). lia.
Qed.

Lemma len24_eq b1 b2 b3 : 0 ≤ b2 < 256 → 0 ≤ b3 < 256 → len24 b1 b2 b3 = b1 * 65536 + b2 * 256 + b3.
Proof.
  intros H2 H3. unfold len24. rewrite <- Z.lor_assoc.
  assert (Hlow : Z.lor (Z.shiftl b2 8) b3 = b2 * 256 + b3).
  { rewrite <- Z.lxor_lor, <- Z.add_nocarry_lxor; rewrite ?Z.shiftl_mul_pow2; try lia.
    all: change (b2 * 2 ^ 8) with (b2 * 2 ^ 8); rewrite <- Z.shiftl_mul_pow2 by lia; apply land_shiftl_low; lia. }
  rewrite Hlow. rewrite <- Z.lxor_lor, <- Z.add_nocarry_lxor; rewrite ?Z.shiftl_mul_pow2; try lia.
  all: rewrite <- Z.shiftl_mul_pow2 by lia; apply land_shiftl_low; lia.
Qed.

Lemma len24_nonneg b1 b2 b3 : 0 ≤ b1 → 0 ≤ b2 < 256 → 0 ≤ b3 < 256 → 0 ≤ len24 b1 b2 b3.
Proof. intros. rewrite len24_eq by done. lia. Qed.

Lemma extractSNI_safe data : extractSNI data ≠ Err Panic.
Proof.
  unfold extractSNI. do 13 step_access. cbv zeta.
  match goal with H : context [len24 ?a ?b ?c] |- _ =>
    pose proof (len24_nonneg a b c ltac:(lia) ltac:(lia) ltac:(lia)) end.
  repeat step_access. apply parse_hello_safe.
Qed.

(** ** Client hellos as they are sent *)

Definition enc16 (v : Z) : bytes := put_be 2 v.

Definition enc_ext (e : Z * bytes) : bytes := enc16 (fst e) ++ enc16 (blen (snd e)) ++ snd e.
Definition enc_name (n : Z * bytes) : bytes := byte_of (fst n) :: enc16 (blen (snd n)) ++ snd n.
Definition enc_exts (es : list (Z * bytes)) : bytes := concat (enc_ext <$> es).
Definition enc_names (ns : list (Z * bytes)) : bytes := concat (enc_name <$> ns).

(** The data of a server_name extension. *)
Definition server_name (ns : list (Z * bytes)) : bytes := enc16 (blen (enc_names ns)) ++ enc_names ns.

(** [ch_fixed] is the version and the random bytes; [ch_trailing] whatever follows the
    extensions within the message. *)
Record ClientHello := mkClientHello {
  ch_fixed : bytes;
  ch_session_id : bytes;
  ch_ciphers : bytes;
  ch_compression : bytes;
  ch_exts : list (Z * bytes);
  ch_trailing : bytes;
}.

Definition enc_hello (c : ClientHello) : bytes :=
  ch_fixed c ++ (byte_of (blen (ch_session_id c)) :: ch_session_id c) ++
  (enc16 (blen (ch_ciphers c)) ++ ch_ciphers c) ++
  (byte_of (blen (ch_compression c)) :: ch_compression c) ++
  (enc16 (blen (enc_exts (ch_exts c))) ++ enc_exts (ch_exts c)) ++ ch_trailing c.

Definition enc_handshake (c : ClientHello) : bytes := byte_of 1 :: put_be 3 (blen (enc_hello c)) ++ enc_hello c.

Definition enc_record (version : bytes) (c : ClientHello) : bytes :=
  byte_of 0x16 :: version ++ enc16 (blen (enc_handshake c)) ++ enc_handshake c.

Definition is_u16 (v : Z) : Prop := 0 ≤ v < 65536.

Definition hello_wf (c : ClientHello) : Prop :=
  length (ch_fixed c) = 34%nat ∧ blen (ch_session_id c) < 256 ∧ is_u16 (blen (ch_ciphers c)) ∧
  blen (ch_compression c) < 256 ∧ Forall (λ e, is_u16 (fst e) ∧ is_u16 (blen (snd e))) (ch_exts c) ∧
  is_u16 (blen (enc_exts (ch_exts c))) ∧ blen (enc_handshake c) ≤ maxClientHelloRecord.

(** The data of the first entry of a type: extensions and names are tagged lists. *)
Fixpoint lookup_type (ty : Z) (l : list (Z * bytes)) : option bytes :=
  match l with [] => None | (t, d) :: l => if t =? ty then Some d else lookup_type ty l end.

(** *** Accesses at a known position *)

Lemma blen_app a b : blen (a ++ b) = blen a + blen b.
Proof. unfold blen. rewrite length_app. lia. Qed.

Lemma at_app pre c post : at_ (pre ++ c :: post) (blen pre) = Ok (byte_val c).
Proof.
  unfold at_. rewrite blen_app. assert (Hc : 0 < blen (c :: post)) by (unfold blen; cbn [length]; lia).
  rewrite (proj2 (Z.leb_le _ _)), (proj2 (Z.ltb_lt _ _)) by (pose proof (blen_nonneg pre); lia). cbn [andb].
  unfold blen. rewrite Nat2Z.id, list_lookup_middle by done. done.
Qed.

Lemma slice_app pre m post a b :
  a = blen pre → b = blen pre + blen m → slice (pre ++ m ++ post) a b = Ok m.
Proof.
  intros -> ->. unfold slice. rewrite !blen_app.
  rewrite !(proj2 (Z.leb_le _ _)) by (pose proof (blen_nonneg pre); pose proof (blen_nonneg m); pose proof (blen_nonneg post); lia).
  cbn [andb]. f_equal. replace (blen pre + blen m - blen pre) with (blen m) by lia. unfold blen. rewrite !Nat2Z.id.
  by rewrite drop_app_length, take_app_length.
Qed.

Lemma slice_tail pre m a b : a = blen pre → b = blen pre + blen m → slice (pre ++ m) a b = Ok m.
Proof. intros Ha Hb. pose proof (slice_app pre m [] a b Ha Hb) as H. by rewrite app_nil_r in H. Qed.

Lemma blen_enc16 v : blen (enc16 v) = 2.
Proof. unfold blen, enc16. by rewrite length_put_be. Qed.

Lemma uint16_app pre v post a : a = blen pre → is_u16 v → uint16_at (pre ++ enc16 v ++ post) a = Ok v.
Proof.
  intros -> Hv. unfold uint16_at. rewrite slice_app by (rewrite ?blen_enc16; done). cbn [rbind].
  f_equal. by apply get_put_be.
Qed.

Lemma names_loop_spec ns pre post fuel :
  Forall (λ n, 0 ≤ fst n < 256 ∧ is_u16 (blen (snd n))) ns → (length ns < fuel)%nat → blen post < 3 →
  names_loop fuel (pre ++ enc_names ns ++ post) (blen pre) =
  match lookup_type 0 ns with Some h => Ok h | None => Err ErrNoSNI end.
Proof.
  intros Hns. revert pre fuel. induction Hns as [|[t nm] ns [Ht Hn] Hns IH]; intros pre fuel Hf Hpost;
    (destruct fuel as [|fuel]; [cbn in Hf; lia|]); cbn [names_loop lookup_type].
  - cbn [enc_names fmap list_fmap concat app]. rewrite blen_app, (proj2 (Z.ltb_lt _ _)) by lia. done.
  - cbn [fst snd] in Ht, Hn. set (rest := enc_names ns ++ post).
    assert (Hl : pre ++ enc_names ((t, nm) :: ns) ++ post = pre ++ byte_of t :: enc16 (blen nm) ++ nm ++ rest).
    { unfold rest, enc_names. cbn [fmap list_fmap concat]. unfold enc_name at 1. cbn [fst snd]. by rewrite <- !app_assoc. }
    rewrite Hl. clear Hl.
    pose proof (blen_nonneg rest). pose proof (blen_nonneg nm).
    assert (Hb : blen (pre ++ byte_of t :: enc16 (blen nm) ++ nm ++ rest) = blen pre + 3 + blen nm + blen rest).
    { rewrite blen_app. change (byte_of t :: enc16 (blen nm) ++ nm ++ rest) with ([byte_of t] ++ enc16 (blen nm) ++ nm ++ rest).
      rewrite !blen_app, blen_enc16. change (blen [byte_of t]) with 1. lia. }
    rewrite Hb. rewrite (proj2 (Z.ltb_ge _ (blen pre + 3))) by lia.
    rewrite at_app, byte_val_of, Z.mod_small by lia. cbn [rbind].
    rewrite (cons_middle (byte_of t)), (app_assoc pre).
    rewrite uint16_app by (rewrite ?blen_app; done || (change (blen [byte_of t]) with 1; lia)). cbn [rbind].
    rewrite (proj2 (Z.ltb_ge _ _)) by lia. destruct (t =? 0).
    + rewrite (app_assoc (pre ++ _)). apply slice_app; rewrite !blen_app, blen_enc16; change (blen [byte_of t]) with 1; lia.
    + rewrite (app_assoc (pre ++ _)), (app_assoc ((pre ++ _) ++ _)).
      replace (blen pre + 3 + blen nm) with (blen (((pre ++ [byte_of t]) ++ enc16 (blen nm)) ++ nm))
        by (rewrite !blen_app, blen_enc16; change (blen [byte_of t]) with 1; lia).
      unfold rest. apply IH; [cbn in Hf; lia|done].
Qed.

(** Every entry takes at least a byte. *)
Lemma length_concat_ge {A} (enc : A → bytes) (l : list A) :
  (∀ x, (0 < length (enc x))%nat) → (length l ≤ length (concat (enc <$> l)))%nat.
Proof.
  intros Henc. induction l as [|x l IH]; cbn; [lia|]. rewrite length_app. specialize (Henc x). lia.
Qed.

Lemma length_enc_names ns : (length ns ≤ length (enc_names ns))%nat.
Proof. apply length_concat_ge. intros x. cbn. lia. Qed.
Lemma length_enc_exts es : (length es ≤ length (enc_exts es))%nat.
Proof. apply length_concat_ge. intros x. unfold enc_ext. rewrite length_app. cbn. lia. Qed.

Definition names_wf (ns : list (Z * bytes)) : Prop :=
  Forall (λ n, 0 ≤ fst n < 256 ∧ is_u16 (blen (snd n))) ns ∧ is_u16 (blen (enc_names ns)).

Lemma parseSNIExtension_spec ns :
  names_wf ns →
  parseSNIExtension (server_name ns) = match lookup_type 0 ns with Some h => Ok h | None => Err ErrNoSNI end.
Proof.
  intros [Hns Hlen]. unfold parseSNIExtension, server_name.
  rewrite blen_app, blen_enc16. pose proof (blen_nonneg (enc_names ns)).
  rewrite (proj2 (Z.ltb_ge _ 2)) by lia. pose proof (uint16_app [] _ (enc_names ns) 0 eq_refl Hlen) as E. cbn [app] in E. rewrite E. cbn [rbind].
  rewrite (proj2 (Z.ltb_ge _ _)) by lia.
  assert (Hsl : slice (enc16 (blen (enc_names ns)) ++ enc_names ns) 2 (2 + blen (enc_names ns)) = Ok (enc_names ns)).
  { by apply slice_tail. }
  rewrite Hsl. cbn [rbind].
  pose proof (names_loop_spec ns [] [] (S (length (enc_names ns))) Hns) as Hloop.
  cbn [app] in Hloop. rewrite app_nil_r in Hloop. apply Hloop; [|done]. pose proof (length_enc_names ns). lia.
Qed.

Lemma ext_loop_spec es pre post fuel :
  Forall (λ e, is_u16 (fst e) ∧ is_u16 (blen (snd e))) es → (length es < fuel)%nat →
  ext_loop fuel (pre ++ enc_exts es ++ post) (blen pre + blen (enc_exts es)) (blen pre) =
  match lookup_type 0 es with Some d => parseSNIExtension d | None => Err ErrNoSNI end.
Proof.
  intros Hes. revert pre fuel. induction Hes as [|[t d] es [Ht Hd] Hes IH]; intros pre fuel Hf;
    (destruct fuel as [|fuel]; [cbn in Hf; lia|]); cbn [ext_loop lookup_type].
  - change (blen (enc_exts [])) with 0. by rewrite (proj2 (Z.ltb_lt _ _)) by lia.
  - cbn [fst snd] in Ht, Hd. set (rest := enc_exts es ++ post).
    assert (Hl : pre ++ enc_exts ((t, d) :: es) ++ post = pre ++ enc16 t ++ enc16 (blen d) ++ d ++ rest).
    { unfold rest, enc_exts. cbn [fmap list_fmap concat]. unfold enc_ext at 1. cbn [fst snd]. by rewrite <- !app_assoc. }
    assert (He : blen (enc_exts ((t, d) :: es)) = 4 + blen d + blen (enc_exts es)).
    { unfold enc_exts. cbn [fmap list_fmap concat]. unfold enc_ext at 1. cbn [fst snd]. rewrite !blen_app, !blen_enc16. lia. }
    rewrite Hl, He. clear Hl He. pose proof (blen_nonneg d). pose proof (blen_nonneg (enc_exts es)).
    rewrite (proj2 (Z.ltb_ge _ (blen pre + 4))) by lia. rewrite uint16_app by done. cbn [rbind].
    rewrite (app_assoc pre). rewrite uint16_app by (rewrite ?blen_app, ?blen_enc16; done). cbn [rbind].
    rewrite (proj2 (Z.ltb_ge _ _)) by lia.
    rewrite (app_assoc (pre ++ _)). rewrite slice_app by (rewrite !blen_app, !blen_enc16; lia). cbn [rbind].
    destruct (t =? 0); [done|]. rewrite (app_assoc ((pre ++ _) ++ _)).
    replace (blen pre + 4 + blen d) with (blen (((pre ++ enc16 t) ++ enc16 (blen d)) ++ d))
      by (rewrite !blen_app, !blen_enc16; lia).
    replace (blen pre + (4 + blen d + blen (enc_exts es)))
      with (blen (((pre ++ enc16 t) ++ enc16 (blen d)) ++ d) + blen (enc_exts es))
      by (rewrite !blen_app, !blen_enc16; lia).
    unfold rest. apply IH. cbn in Hf. lia.
Qed.

Lemma at_app_byte pre v post a : a = blen pre → 0 ≤ v < 256 → at_ (pre ++ byte_of v :: post) a = Ok v.
Proof. intros -> Hv. by rewrite at_app, byte_val_of, Z.mod_small. Qed.

Lemma blen_cons c l : blen (c :: l) = 1 + blen l.
Proof. unfold blen. cbn [length]. lia. Qed.

Lemma parse_hello_spec c :
  hello_wf c →
  parse_hello (enc_hello c) =
  match lookup_type 0 (ch_exts c) with Some d => parseSNIExtension d | None => Err ErrNoSNI end.
Proof.
  intros (Hfix & Hsid & Hcs & Hcm & Hes & Hexl & _). destruct c as [fx sid cs cm es tr].
  cbn [ch_fixed ch_session_id ch_ciphers ch_compression ch_exts ch_trailing] in *.
  assert (Hfb : blen fx = 34) by (unfold blen; lia).
  pose proof (blen_nonneg sid). pose proof (blen_nonneg cs). pose proof (blen_nonneg cm). pose proof (blen_nonneg tr).
  pose proof (blen_nonneg (enc_exts es)).
  set (p1 := fx ++ byte_of (blen sid) :: sid). set (p2 := p1 ++ enc16 (blen cs) ++ cs).
  set (p3 := p2 ++ byte_of (blen cm) :: cm). set (p4 := p3 ++ enc16 (blen (enc_exts es))).
  assert (Hp1 : blen p1 = 35 + blen sid) by (unfold p1; rewrite blen_app, blen_cons; lia).
  assert (Hp2 : blen p2 = blen p1 + 2 + blen cs) by (unfold p2; rewrite !blen_app, blen_enc16; lia).
  assert (Hp3 : blen p3 = blen p2 + 1 + blen cm) by (unfold p3; rewrite blen_app, blen_cons; lia).
  assert (Hp4 : blen p4 = blen p3 + 2) by (unfold p4; rewrite blen_app, blen_enc16; lia).
  set (m := enc_hello _).
  assert (E1 : m = p1 ++ enc16 (blen cs) ++ cs ++ byte_of (blen cm) :: cm ++ enc16 (blen (enc_exts es)) ++ enc_exts es ++ tr).
  { unfold m, enc_hello, p1. cbn [ch_fixed ch_session_id ch_ciphers ch_compression ch_exts ch_trailing]. by rewrite <- !app_assoc. }
  assert (E2 : m = p2 ++ byte_of (blen cm) :: cm ++ enc16 (blen (enc_exts es)) ++ enc_exts es ++ tr).
  { rewrite E1. unfold p2. by rewrite <- !app_assoc. }
  assert (E3 : m = p3 ++ enc16 (blen (enc_exts es)) ++ enc_exts es ++ tr).
  { rewrite E2. unfold p3. by rewrite <- !app_assoc. }
  assert (E4 : m = p4 ++ enc_exts es ++ tr) by (rewrite E3; unfold p4; by rewrite <- !app_assoc).
  assert (Hm : blen m = blen p4 + blen (enc_exts es) + blen tr) by (rewrite E4, !blen_app; lia).
  assert (F0 : at_ m 34 = Ok (blen sid)) by (apply (at_app_byte fx); lia).
  assert (F1 : uint16_at m (34 + 1 + blen sid) = Ok (blen cs)) by (rewrite E1; apply uint16_app; [lia|done]).
  assert (F2 : at_ m (34 + 1 + blen sid + 2 + blen cs) = Ok (blen cm)) by (rewrite E2; apply at_app_byte; lia).
  assert (F3 : uint16_at m (34 + 1 + blen sid + 2 + blen cs + 1 + blen cm) = Ok (blen (enc_exts es)))
    by (rewrite E3; apply uint16_app; [lia|done]).
  clearbody m. unfold parse_hello. cbv zeta.
  rewrite (proj2 (Z.ltb_ge (blen m) 35)), F0 by lia. cbn [rbind].
  rewrite (proj2 (Z.ltb_ge (blen m) (34 + 1 + blen sid))), (proj2 (Z.ltb_ge (blen m) (34 + 1 + blen sid + 2))), F1 by lia.
  cbn [rbind]. rewrite (proj2 (Z.ltb_ge (blen m) (34 + 1 + blen sid + 2 + blen cs))),
    (proj2 (Z.ltb_ge (blen m) (34 + 1 + blen sid + 2 + blen cs + 1))), F2 by lia.
  cbn [rbind]. rewrite (proj2 (Z.ltb_ge (blen m) (34 + 1 + blen sid + 2 + blen cs + 1 + blen cm))),
    (proj2 (Z.ltb_ge (blen m) (34 + 1 + blen sid + 2 + blen cs + 1 + blen cm + 2))), F3 by lia.
  cbn [rbind]. rewrite (proj2 (Z.ltb_ge _ _)) by lia.
  replace (34 + 1 + blen sid + 2 + blen cs + 1 + blen cm + 2) with (blen p4) by lia. rewrite E4 at 2.
  apply ext_loop_spec; [done|]. rewrite E4, !length_app. pose proof (length_enc_exts es). lia.
Qed.

Lemma len24_put v a b c : 0 ≤ v < 2 ^ 24 → put_be 3 v = [a; b; c] → len24 (byte_val a) (byte_val b) (byte_val c) = v.
Proof.
  intros Hv Hp. rewrite len24_eq by apply byte_val_range.
  assert (Hg : get_be (put_be 3 v) = v) by (by apply get_put_be).
  rewrite Hp in Hg. cbn in Hg. lia.
Qed.

Lemma extractSNI_spec version c :
  length version = 2%nat → hello_wf c →
  extractSNI (enc_record version c) =
  match lookup_type 0 (ch_exts c) with Some d => parseSNIExtension d | None => Err ErrNoSNI end.
Proof.
  intros Hver Hwf. rewrite <- parse_hello_spec by done. destruct Hwf as (_ & _ & _ & _ & _ & _ & Hmax).
  set (h := enc_hello c). assert (Hh : blen (enc_handshake c) = 4 + blen h).
  { unfold enc_handshake. rewrite blen_cons, blen_app. unfold blen at 1. rewrite length_put_be. fold h. lia. }
  pose proof (blen_nonneg h). unfold maxClientHelloRecord in Hmax. set (hs := enc_handshake c) in *.
  destruct version as [|v1 [|v2 [|]]]; try done.
  assert (Hrec : enc_record [v1; v2] c = [byte_of 0x16; v1; v2] ++ enc16 (blen hs) ++ hs) by done.
  rewrite Hrec. unfold extractSNI. rewrite !blen_app, blen_enc16. change (blen [byte_of 0x16; v1; v2]) with 3.
  rewrite (proj2 (Z.ltb_ge _ 5)) by lia.
  assert (Hty : at_ ([byte_of 0x16; v1; v2] ++ enc16 (blen hs) ++ hs) 0 = Ok 0x16) by (by apply (at_app_byte [])).
  rewrite Hty. cbn [rbind]. change (negb (0x16 =? 0x16)) with false. cbv iota. rewrite uint16_app by (done || (unfold is_u16; lia)). cbn [rbind].
  rewrite (proj2 (Z.ltb_ge _ _)) by lia.
  assert (Hsl : slice ([byte_of 0x16; v1; v2] ++ enc16 (blen hs) ++ hs) 5 (5 + blen hs) = Ok hs).
  { rewrite (app_assoc [_; _; _]). by apply slice_tail. }
  rewrite Hsl. cbn [rbind]. rewrite (proj2 (Z.ltb_ge _ 4)) by lia.
  destruct (put_be 3 (blen h)) as [|b1 [|b2 [|b3 [|]]]] eqn:Ep; try (apply (f_equal length) in Ep; rewrite length_put_be in Ep; done).
  assert (Hhs : hs = [byte_of 1; b1; b2; b3] ++ h) by (unfold hs, enc_handshake; fold h; by rewrite Ep).
  assert (A0 : at_ hs 0 = Ok 1) by (rewrite Hhs; by apply (at_app_byte [])).
  assert (A1 : at_ hs 1 = Ok (byte_val b1)) by (rewrite Hhs; apply (at_app [byte_of 1])).
  assert (A2 : at_ hs 2 = Ok (byte_val b2)) by (rewrite Hhs; apply (at_app [byte_of 1; b1])).
  assert (A3 : at_ hs 3 = Ok (byte_val b3)) by (rewrite Hhs; apply (at_app [byte_of 1; b1; b2])).
  rewrite A0. cbn [rbind]. change (negb (1 =? 1)) with false. cbv iota. rewrite A1, A2, A3. cbn [rbind].
  rewrite (len24_put (blen h) b1 b2 b3) by (done || lia).
  rewrite (proj2 (Z.ltb_ge _ _)) by lia.
  assert (Hs2 : slice hs 4 (4 + blen h) = Ok h) by (rewrite Hhs at 1; by apply slice_tail).
  by rewrite Hs2.
Qed.

(** ** Transparency *)

(** What the replaying connection still delivers; every read takes it off the front. *)
Definition peek_stream (c : PeekConn) : bytes := drop (pc_pos c) (pc_buf c) ++ pc_conn c.

Lemma PeekConn_Read_stream n c :
  let '(b, c') := PeekConn_Read n c in b ++ peek_stream c' = peek_stream c.
Proof.
  unfold PeekConn_Read. destruct (Nat.ltb_spec (pc_pos c) (length (pc_buf c))) as [Hlt|Hge]; unfold peek_stream; cbn.
  - rewrite app_assoc, <- drop_drop. f_equal.
    destruct (decide (n ≤ length (drop (pc_pos c) (pc_buf c)))%nat) as [Hn|Hn].
    + rewrite length_take_le by done. apply take_drop.
    + rewrite take_ge by lia. rewrite drop_all. by rewrite app_nil_r.
  - rewrite drop_ge by lia. cbn. apply take_drop.
Qed.

Lemma ParseSNI_replay raw res pc :
  ParseSNI raw = (res, pc) → res ≠ Err ErrRead → peek_stream pc = raw.
Proof.
  unfold ParseSNI. destruct (ReadFull 5 raw) as [[hdr r]|got] eqn:Eh; [|by intros [= <- <-]].
  apply ReadFull_ok in Eh as [-> _].
  destruct (negb _); [by intros [= <- <-]|]. destruct (maxClientHelloRecord <? _); [by intros [= <- <-]|].
  destruct (ReadFull _ r) as [[body r']|got] eqn:Eb; [|by intros [= <- <-]].
  apply ReadFull_ok in Eb as [-> _]. intros Heq _. apply pair_eq in Heq as [_ <-].
  unfold peek_stream. cbn [pc_pos pc_buf pc_conn]. by rewrite drop_0, <- app_assoc.
Qed.

Lemma extractSNI_not_read data : extractSNI data ≠ Err ErrRead.
Proof.
  assert (Hat : ∀ l i, at_ l i ≠ Err ErrRead) by (intros; unfold at_; by destruct (_ && _)).
  assert (Hsl : ∀ l a b, slice l a b ≠ Err ErrRead) by (intros; unfold slice; by destruct (_ && _)).
  assert (Hu : ∀ l a, uint16_at l a ≠ Err ErrRead).
  { intros l a. unfold uint16_at. specialize (Hsl l a (a + 2)). destruct (slice l a (a + 2)); [done|]. cbn. congruence. }
  assert (Hbind : ∀ {A B} (m : result sni_error A) (k : A → result sni_error B),
    m ≠ Err ErrRead → (∀ a, k a ≠ Err ErrRead) → rbind m k ≠ Err ErrRead).
  { intros A B [a|e] k Hm Hk; cbn; [apply Hk|congruence]. }
  assert (Hns : ∀ fuel l pos, names_loop fuel l pos ≠ Err ErrRead).
  { induction fuel as [|fuel IH]; intros; [done|]. cbn. destruct (_ <? _); [done|].
    apply Hbind; [done|intros ty]. apply Hbind; [done|intros n]. cbv zeta. destruct (_ <? _); [done|]. by destruct (ty =? 0). }
  assert (Hpe : ∀ d, parseSNIExtension d ≠ Err ErrRead).
  { intros d. unfold parseSNIExtension. destruct (_ <? _); [done|]. apply Hbind; [done|intros n]. destruct (_ <? _); [done|].
    by apply Hbind. }
  assert (Hex : ∀ fuel h e p, ext_loop fuel h e p ≠ Err ErrRead).
  { induction fuel as [|fuel IH]; intros; [done|]. cbn. destruct (_ <? _); [done|]. apply Hbind; [done|intros ty].
    apply Hbind; [done|intros n]. cbv zeta. destruct (_ <? _); [done|]. apply Hbind; [done|intros d]. by destruct (ty =? 0). }
  unfold extractSNI, parse_hello. cbv zeta.
  repeat first [done | apply Hex | apply Hbind; [done|intros ?] | match goal with |- context [if ?b then _ else _] => destruct b end].
Qed.

(** C36: peeking at a guest's first TLS record is safe and transparent.  On every input the
    parser returns without an out-of-range access; unless the connection ended within
    the record, the connection handed on delivers exactly the bytes the guest
    sent; and it is tunnelled only if a server name was found. *)
Lemma sni_peek_safe_and_transparent raw res pc :
  ParseSNI raw = (res, pc) →
  res ≠ Err Panic ∧ (res ≠ Err ErrRead → peek_stream pc = raw) ∧
  (∀ n, let '(b, pc') := PeekConn_Read n pc in b ++ peek_stream pc' = peek_stream pc) ∧
  (is_Some (buildDialer_443 raw) ↔ is_ok res = true).
Proof.
  intros Hp. split; [|split; [by apply ParseSNI_replay|split; [intros n; apply PeekConn_Read_stream|]]].
  - revert Hp. unfold ParseSNI. destruct (ReadFull 5 raw) as [[hdr r]|got]; [|by intros [= <- <-]].
    destruct (negb _); [by intros [= <- <-]|]. destruct (maxClientHelloRecord <? _); [by intros [= <- <-]|].
    destruct (ReadFull _ r) as [[body r']|got]; [|by intros [= <- <-]]. intros [= <- <-]. apply extractSNI_safe.
  - unfold buildDialer_443. rewrite Hp. destruct res as [h|e]; cbn.
    + split; [done|by eauto].
    + split; [intros H; by apply is_Some_None in H|done].
Qed.

(** *** Well-formed hellos *)

Lemma ParseSNI_record version c rest :
  length version = 2%nat → hello_wf c →
  ParseSNI (enc_record version c ++ rest) = (extractSNI (enc_record version c), mkPeekConn (enc_record version c) 0 rest).
Proof.
  intros Hver Hwf. destruct Hwf as (_ & _ & _ & _ & _ & _ & Hmax). unfold maxClientHelloRecord in Hmax.
  destruct version as [|v1 [|v2 [|]]]; try done. set (hs := enc_handshake c) in *. pose proof (blen_nonneg hs).
  set (hdr := byte_of 0x16 :: [v1; v2] ++ enc16 (blen hs)).
  assert (Hrec : enc_record [v1; v2] c = hdr ++ hs) by done. rewrite Hrec, <- app_assoc. unfold ParseSNI.
  rewrite (ReadFull_app 5 hdr) by done.
  change (negb (byte_val (default "000"%char (hdr !! 0%nat)) =? 0x16)) with false. cbv iota.
  change (drop 3 hdr) with (enc16 (blen hs)). unfold enc16. rewrite get_put_be by (change (256 ^ Z.of_nat 2) with 65536; lia).
  rewrite (proj2 (Z.ltb_ge _ _)) by (unfold maxClientHelloRecord; lia).
  rewrite (ReadFull_app _ hs) by (unfold blen; lia). done.
Qed.

(** The server name a client hello asks for. *)
Definition hello_name (c : ClientHello) (ns : list (Z * bytes)) : Prop :=
  lookup_type 0 (ch_exts c) = Some (server_name ns) ∧ names_wf ns.

(** a well-formed client hello is tunnelled to the name it asks for.  Whatever session
    identifier, cipher suites and other extensions it carries, the proxy is asked
    for the first host name of its first server_name extension, and is then given
    the guest's bytes unchanged; without that extension, or without a host name in it, the
    connection is rejected. *)
Lemma sni_tunnels_to_client_name version c rest :
  length version = 2%nat → hello_wf c →
  let raw := enc_record version c ++ rest in
  (lookup_type 0 (ch_exts c) = None → buildDialer_443 raw = None) ∧
  (∀ ns, hello_name c ns →
     match lookup_type 0 ns with
     | None => buildDialer_443 raw = None
     | Some h => ∃ pc, buildDialer_443 raw = Some (connect_request (of_chars h), pc) ∧ peek_stream pc = raw
     end).
Proof.
  intros Hver Hwf raw. unfold buildDialer_443, raw. rewrite ParseSNI_record by done. rewrite extractSNI_spec by done. split.
  - by intros ->.
  - intros ns [-> Hns]. rewrite parseSNIExtension_spec by done. destruct (lookup_type 0 ns) as [h|]; [|done].
    eexists. split; [done|]. done.
Qed.

(** The name is not checked before it is written into the tunnel request. *)
Definition injecting_name : string := "a HTTP/1.1" +:+ crlf +:+ crlf +:+ "GET /".
Definition example_hello (host : string) : ClientHello :=
  mkClientHello (replicate 34 "000"%char) [] (chars "ab") ["000"%char] [(0, server_name [(0, chars host)])] [].

Lemma sni_request_injection :
  ∃ pc rest, buildDialer_443 (enc_record ["003"%char; "001"%char] (example_hello injecting_name)) =
    Some ("CONNECT a HTTP/1.1" +:+ crlf +:+ crlf +:+ "GET /:443 HTTP/1.1" +:+ crlf +:+ rest, pc).
Proof. do 2 eexists. vm_compute. reflexivity. Qed.

(** A record cut short is replayed with zeros the guest never sent. *)
Lemma sni_truncated_replay_padded :
  ∃ pc, ParseSNI ["022"%char; "003"%char] = (Err ErrRead, pc) ∧
    peek_stream pc = ["022"%char; "003"%char; "000"%char; "000"%char; "000"%char].
Proof. eexists. split; reflexivity. Qed.

(** ** Witnesses *)

Lemma example_hello_wf : hello_wf (example_hello "github.com").
Proof. unfold hello_wf, is_u16, maxClientHelloRecord. repeat split; try (by vm_compute); try (vm_compute; lia). repeat constructor; vm_compute; by (lia || done). Qed.

Lemma sni_peek_safe_and_transparent_witness :
  let raw := enc_record ["003"%char; "001"%char] (example_hello "github.com") in
  ∃ pc, ParseSNI raw = (Ok (chars "github.com"), pc) ∧ peek_stream pc = raw.
Proof.
  cbv zeta. set (raw := enc_record _ _). assert (Hres : fst (ParseSNI raw) = Ok (chars "github.com")) by (vm_compute; reflexivity).
  destruct (ParseSNI raw) as [res pc] eqn:Hp. cbn [fst] in Hres.
  exists pc. rewrite Hres. split; [done|].
  destruct (sni_peek_safe_and_transparent raw res pc Hp) as (_ & Ht & _). apply Ht. by rewrite Hres.
Defined.

Lemma sni_tunnels_to_client_name_witness :
  ∃ pc, buildDialer_443 (enc_record ["003"%char; "001"%char] (example_hello "github.com") ++ chars "more") =
    Some (connect_request "github.com", pc).
Proof.
  destruct (sni_tunnels_to_client_name ["003"%char; "001"%char] (example_hello "github.com") (chars "more") eq_refl example_hello_wf)
    as [_ Hn].
  destruct (Hn [(0, chars "github.com")]) as (pc & Hpc & _).
  - split; [reflexivity|]. split; [repeat constructor; vm_compute; done|]. split; vm_compute; done.
  - exists pc. exact Hpc.
Defined.
