(* ===== verification/Volumes.v ===== *)
(** * internal/core/volumestore: named volumes ([store.go], [guard.go], [prune.go])

    A volume is a directory with a record ([meta.json]), a backing file or directory and
    a lock file.  The lock is advisory and belongs to the inode of the lock file: the
    model keeps inodes and the set of inodes that other processes hold locked, so an
    operation that waits for a held lock runs into its deadline.

    Every operation takes the system calls that fail as an argument.  Texts of records
    are represented by what they decode to; a host path pinned by a volume
    lies outside the store and is not tracked. *)

From stdpp Require Import prelude gmap strings list sorting.
From Stdlib Require Import ZArith Ascii Lia.
From S2P Require Import Prelude GoStrings Domain Sandbox.

Definition KindDisk : string := "disk".
Definition KindDir : string := "dir".
Definition DefaultDiskSizeBytes : Z := 10 * 1024 * 1024 * 1024.

Record Attachment := mkAttachment { at_SandboxID : string; at_AttachedAt : Time }.

Record VolumeRecord := mkVolumeRecord {
  vr_Name : string;
  vr_Kind : string;
  vr_SizeBytes : Z;
  vr_HostPath : string;
  vr_Attachments : list Attachment;
  vr_CreatedAt : Time;
}.

Definition set_Attachments (l : list Attachment) (r : VolumeRecord) : VolumeRecord :=
  mkVolumeRecord (vr_Name r) (vr_Kind r) (vr_SizeBytes r) (vr_HostPath r) l (vr_CreatedAt r).
Definition set_SizeBytes (n : Z) (r : VolumeRecord) : VolumeRecord :=
  mkVolumeRecord (vr_Name r) (vr_Kind r) n (vr_HostPath r) (vr_Attachments r) (vr_CreatedAt r).

Inductive MetaFile := MetaDoc (r : VolumeRecord) | MetaCorrupt.

Record VolDir := mkVolDir {
  vd_meta : option MetaFile;
  vd_disk : bool;           (** disk.ext4 *)
  vd_data : bool;           (** data/ *)
  vd_lock : option positive; (** the inode of the lock file *)
}.

Definition new_dir : VolDir := mkVolDir None false false None.
Definition set_meta (m : option MetaFile) (d : VolDir) := mkVolDir m (vd_disk d) (vd_data d) (vd_lock d).
Definition set_disk (b : bool) (d : VolDir) := mkVolDir (vd_meta d) b (vd_data d) (vd_lock d).
Definition set_data (b : bool) (d : VolDir) := mkVolDir (vd_meta d) (vd_disk d) b (vd_lock d).
Definition set_lock (i : option positive) (d : VolDir) := mkVolDir (vd_meta d) (vd_disk d) (vd_data d) i.

Record VolumeStore := mkVols {
  vs_dirs : gmap string VolDir;
  vs_held : gset positive;   (** inodes locked by other processes, or by a lock handed out *)
  vs_fresh : positive;       (** the next inode *)
}.

Definition set_dirs (m : gmap string VolDir) (s : VolumeStore) := mkVols m (vs_held s) (vs_fresh s).
Definition alter_dir (f : VolDir → VolDir) (v : string) (s : VolumeStore) := set_dirs (alter f v (vs_dirs s)) s.

Inductive vol_call :=
| CMkdir | COpenLock | CFlock | CReadMeta | CWriteTmp | CRename | CStatfs | CCreateFile | CTruncate | CFormat
| CMkdirData | CRemoveDisk | CRemoveData | CRemoveMeta | CRemoveLock | CRemoveDir | CReadDir | CRemoveAll.

Definition Fails := vol_call → bool.

Inductive vol_error :=
| VErrName | VErrUnknownKind | VErrKindConflict (existing requested : string)
| VErrNotExist | VErrDecode | VErrLockTimeout | VErrInsufficientDisk
| VErrInUse (ids : list string) | VErrCall (c : vol_call).

(** ** Records *)

Definition name_char (first : bool) (c : ascii) : bool :=
  let n := byte_val c in
  ((97 <=? n) && (n <=? 122)) || ((48 <=? n) && (n <=? 57)) ||
  negb first && ((n =? 46) || (n =? 95) || (n =? 45)).

(** [^[a-z0-9][a-z0-9._\-]*$] *)
Definition validateName (name : string) : bool :=
  match chars name with [] => false | c :: l => name_char true c && forallb (name_char false) l end.

Definition readRecord (io : Fails) (name : string) (s : VolumeStore) : result vol_error VolumeRecord :=
  match vs_dirs s !! name ≫= vd_meta with
  | None => Err VErrNotExist
  | Some m => if io CReadMeta then Err (VErrCall CReadMeta)
              else match m with MetaDoc r => Ok r | MetaCorrupt => Err VErrDecode end
  end.

(** Written beside the old record and renamed over it; the directory is that of the
    name in the record. *)
Definition writeRecord (io : Fails) (rec : VolumeRecord) (s : VolumeStore) : VolumeStore * result vol_error unit :=
  match vs_dirs s !! vr_Name rec with
  | None => (s, Err (VErrCall CWriteTmp))
  | Some d =>
      if io CWriteTmp then (s, Err (VErrCall CWriteTmp))
      else if io CRename then (s, Err (VErrCall CRename))
      else (set_dirs (<[vr_Name rec := set_meta (Some (MetaDoc rec)) d]> (vs_dirs s)) s, Ok tt)
  end.

(** [store.OpenLock] and [TryExclusive] within the deadline: the inode of the lock.  The name is one component of a path
    (see [component] below). *)
Definition lock_volume (io : Fails) (name : string) (s : VolumeStore) : VolumeStore * result vol_error positive :=
  match vs_dirs s !! name with
  | None => (s, Err VErrNotExist)
  | Some d =>
      if io COpenLock then (s, Err (VErrCall COpenLock))
      else
        let '(s, i) := match vd_lock d with
                       | Some i => (s, i)
                       | None => (mkVols (<[name := set_lock (Some (vs_fresh s)) d]> (vs_dirs s)) (vs_held s)
                                    (Pos.succ (vs_fresh s)), vs_fresh s)
                       end in
        if io CFlock then (s, Err (VErrCall CFlock))
        else if bool_decide (i ∈ vs_held s) then (s, Err VErrLockTimeout) else (s, Ok i)
  end.

(** A lock handed to the caller, and its release. *)
Definition hold_lock (i : positive) (s : VolumeStore) := mkVols (vs_dirs s) ({[i]} ∪ vs_held s) (vs_fresh s).
Definition release_lock (i : positive) (s : VolumeStore) := mkVols (vs_dirs s) (vs_held s ∖ {[i]}) (vs_fresh s).

(** ** Create *)

Section Create.
Context (io : Fails) (free floor : Z) (now : Time).

Definition FreeSpaceFloorBytes : Z := floor.

Definition checkFreeSpace (sizeBytes : Z) : result vol_error unit :=
  if io CStatfs then Err (VErrCall CStatfs)
  else if i64 (free - sizeBytes) <? FreeSpaceFloorBytes then Err VErrInsufficientDisk else Ok tt.

(** [preallocateFile]: the file exists once it is created, also when sizing it fails. *)
Definition preallocateFile (name : string) (s : VolumeStore) : VolumeStore * result vol_error unit :=
  if io CCreateFile then (s, Err (VErrCall CCreateFile))
  else let s := alter_dir (set_disk true) name s in
       (s, if io CTruncate then Err (VErrCall CTruncate) else Ok tt).

Definition materialise (rec : VolumeRecord) (s : VolumeStore) : VolumeStore * result vol_error unit :=
  let name := vr_Name rec in
  if bool_decide (vr_Kind rec = KindDisk) then
    match preallocateFile name s with
    | (s, Err e) => (s, Err e)
    | (s, Ok _) => if io CFormat then (alter_dir (set_disk false) name s, Err (VErrCall CFormat)) else (s, Ok tt)
    end
  else if bool_decide (vr_Kind rec = KindDir) then
    if io CMkdirData then (s, Err (VErrCall CMkdirData))
    else if bool_decide (vr_HostPath rec = "") then (alter_dir (set_data true) name s, Ok tt) else (s, Ok tt)
  else (s, Ok tt).

Definition existing_or (name kind : string) (r : result vol_error VolumeRecord)
    : option (result vol_error VolumeRecord) :=
  match r with
  | Ok existing => Some (if bool_decide (vr_Kind existing = kind) then Ok existing
                         else Err (VErrKindConflict (vr_Kind existing) kind))
  | Err VErrNotExist => None
  | Err e => Some (Err e)
  end.

Definition new_record (name kind : string) (sizeBytes : Z) (hostPath : string) : VolumeRecord :=
  mkVolumeRecord name kind (if bool_decide (kind = KindDisk) then sizeBytes else 0)
    (if bool_decide (kind = KindDir) then hostPath else "") [] now.

Definition Create (name kind : string) (sizeBytes : Z) (hostPath : string) (s : VolumeStore)
    : VolumeStore * result vol_error VolumeRecord :=
  if negb (validateName name) then (s, Err VErrName)
  else if negb (bool_decide (kind = KindDisk) || bool_decide (kind = KindDir)) then (s, Err VErrUnknownKind)
  else match existing_or name kind (readRecord io name s) with
  | Some r => (s, r)
  | None =>
      if io CMkdir then (s, Err (VErrCall CMkdir))
      else
        let s := match vs_dirs s !! name with
                 | Some _ => s | None => set_dirs (<[name := new_dir]> (vs_dirs s)) s end in
        match lock_volume io name s with
        | (s, Err e) => (s, Err e)
        | (s, Ok _) =>
            match existing_or name kind (readRecord io name s) with
            | Some r => (s, r)
            | None =>
                let sizeBytes := if sizeBytes <=? 0 then DefaultDiskSizeBytes else sizeBytes in
                match (if bool_decide (kind = KindDisk) then checkFreeSpace sizeBytes else Ok tt) with
                | Err e => (s, Err e)
                | Ok _ =>
                    let rec := new_record name kind sizeBytes hostPath in
                    match writeRecord io rec s with
                    | (s, Err e) => (s, Err e)
                    | (s, Ok _) =>
                        match materialise rec s with
                        | (s, Err e) => (s, Err e)
                        | (s, Ok _) => (s, Ok rec)
                        end
                    end
                end
            end
        end
  end.
End Create.

(** ** Reading *)

Definition Get (io : Fails) (name : string) (s : VolumeStore) : result vol_error VolumeRecord := readRecord io name s.

(** [os.ReadDir] returns the entries in the order of their names. *)
Definition str_le (a b : string) : Prop := String.leb a b = true.
#[global] Instance str_le_dec : RelDecision str_le.
Proof. intros a b. unfold str_le. apply _. Defined.
Definition volume_names (s : VolumeStore) : list string := merge_sort str_le (map_to_list (vs_dirs s)).*1.

(** The records that can be read. *)
Definition List_volumes (io : Fails) (s : VolumeStore) : result vol_error (list VolumeRecord) :=
  if io CReadDir then Err (VErrCall CReadDir)
  else Ok (omap (λ name, match readRecord io name s with Ok r => Some r | Err _ => None end)
             (volume_names s)).

(** ** Removal *)

Definition attached_ids (r : VolumeRecord) : list string := at_SandboxID <$> vr_Attachments r.

(** Calls that change a directory, in order; a failing one leaves what is left. *)
Fixpoint run_calls (io : Fails) (name : string) (steps : list (vol_call * (VolDir → VolDir))) (s : VolumeStore)
    : VolumeStore * result vol_error unit :=
  match steps with
  | [] => (s, Ok tt)
  | (c, f) :: steps => if io c then (s, Err (VErrCall c)) else run_calls io name steps (alter_dir f name s)
  end.

Definition rm_steps : list (vol_call * (VolDir → VolDir)) :=
  [(CRemoveDisk, set_disk false); (CRemoveData, set_data false); (CRemoveMeta, set_meta None); (CRemoveLock, set_lock None)].

Definition remove_volume (io : Fails) (name : string) (s : VolumeStore) : VolumeStore * result vol_error unit :=
  match run_calls io name rm_steps s with
  | (s, Err e) => (s, Err e)
  | (s, Ok _) => if io CRemoveDir then (s, Err (VErrCall CRemoveDir)) else (set_dirs (delete name (vs_dirs s)) s, Ok tt)
  end.

Definition Rm (io : Fails) (name : string) (s : VolumeStore) : VolumeStore * result vol_error unit :=
  match lock_volume io name s with
  | (s, Err e) => (s, Err e)
  | (s, Ok _) =>
      match readRecord io name s with
      | Err e => (s, Err e)
      | Ok rec => match attached_ids rec with
                  | [] => remove_volume io name s
                  | ids => (s, Err (VErrInUse ids))
                  end
      end
  end.

(** ** Attachments *)

Definition is_attached (sandboxID : string) (rec : VolumeRecord) : bool :=
  existsb (λ a, bool_decide (at_SandboxID a = sandboxID)) (vr_Attachments rec).

Definition add_attachment (sandboxID : string) (now : Time) (rec : VolumeRecord) : VolumeRecord :=
  set_Attachments (vr_Attachments rec ++ [mkAttachment sandboxID now]) rec.

Definition Attach (io : Fails) (now : Time) (name sandboxID : string) (s : VolumeStore)
    : VolumeStore * result vol_error unit :=
  match lock_volume io name s with
  | (s, Err e) => (s, Err e)
  | (s, Ok _) =>
      match readRecord io name s with
      | Err e => (s, Err e)
      | Ok rec => if is_attached sandboxID rec then (s, Ok tt) else writeRecord io (add_attachment sandboxID now rec) s
      end
  end.

(** The lock is still held when it returns without an error. *)
Definition AttachLocked (io : Fails) (now : Time) (name sandboxID : string) (s : VolumeStore)
    : VolumeStore * result vol_error positive :=
  match lock_volume io name s with
  | (s, Err e) => (s, Err e)
  | (s, Ok i) =>
      match readRecord io name s with
      | Err e => (s, Err e)
      | Ok rec =>
          if is_attached sandboxID rec then (hold_lock i s, Ok i)
          else match writeRecord io (add_attachment sandboxID now rec) s with
               | (s, Err e) => (s, Err e)
               | (s, Ok _) => (hold_lock i s, Ok i)
               end
      end
  end.

(** The caller holds the lock. *)
Definition AttachAndPrune (io : Fails) (now : Time) (name sandboxID : string) (prune : list string) (s : VolumeStore)
    : VolumeStore * result vol_error unit :=
  match readRecord io name s with
  | Err e => (s, Err e)
  | Ok rec =>
      let kept := List.filter (λ a, negb (bool_decide (at_SandboxID a ∈ prune))) (vr_Attachments rec) in
      let rec := set_Attachments kept rec in
      writeRecord io (if is_attached sandboxID rec then rec else add_attachment sandboxID now rec) s
  end.

(** A volume that is gone is not an error for [UpdateSizeBytes] and [Detach]. *)
Definition update_locked (io : Fails) (f : VolumeRecord → VolumeRecord) (name : string) (s : VolumeStore)
    : VolumeStore * result vol_error unit :=
  match lock_volume io name s with
  | (s, Err VErrNotExist) => (s, Ok tt)
  | (s, Err e) => (s, Err e)
  | (s, Ok _) =>
      match readRecord io name s with
      | Err VErrNotExist => (s, Ok tt)
      | Err e => (s, Err e)
      | Ok rec => writeRecord io (f rec) s
      end
  end.

Definition UpdateSizeBytes (io : Fails) (name : string) (newSizeBytes : Z) (s : VolumeStore) :=
  update_locked io (set_SizeBytes newSizeBytes) name s.

Definition detach_record (sandboxID : string) (rec : VolumeRecord) : VolumeRecord :=
  set_Attachments (List.filter (λ a, negb (bool_decide (at_SandboxID a = sandboxID))) (vr_Attachments rec)) rec.

Definition Detach (io : Fails) (name sandboxID : string) (s : VolumeStore) :=
  update_locked io (detach_record sandboxID) name s.

(** ** Prune *)

Record PruneOptions := mkPruneOptions { po_Apply : bool; po_IncludeDetached : bool }.

Record PruneResult := mkPruneResult {
  pr_StubsDeleted : list string;
  pr_OrphanedFilesDeleted : list (string * string);  (** the volume and the file in it *)
  pr_DetachedCandidates : list string;
  pr_DetachedDeleted : list string;
}.

Definition no_result : PruneResult := mkPruneResult [] [] [] [].

Section Prune.
Context (io : string → Fails) (opts : PruneOptions).

(** The identifiers of the sandboxes that exist, and which of them name a volume in
    their record. *)
Definition liveIDs (sbs : list Sandbox) : gset string := list_to_set ((λ sb, SandboxID_String (ID sb)) <$> sbs).
Definition recordRefs (sbs : list Sandbox) (name : string) : gset string :=
  list_to_set ((λ sb, SandboxID_String (ID sb)) <$>
    List.filter (λ sb, existsb (λ va, bool_decide (va_Name va = name)) (MountedVolumes sb)) sbs).

Definition isLive (rec : VolumeRecord) (live : gset string) (refs : string → gset string) : bool :=
  bool_decide (set_Exists (λ id, id ∈ live) (refs (vr_Name rec))) ||
  existsb (λ a, bool_decide (at_SandboxID a ∈ live)) (vr_Attachments rec).

Definition is_regular (m : option MetaFile) : bool := match m with Some _ => true | None => false end.

(** The result of the attempt to lock an entry without waiting: whether to go on. *)
Definition probe_lock (name : string) (d : VolDir) (s : VolumeStore) : bool :=
  match vd_lock d with
  | None => true
  | Some i => negb (io name COpenLock) && negb (io name CFlock) && negb (bool_decide (i ∈ vs_held s))
  end.

(** [os.Remove] of a directory succeeds if nothing is left in it. *)
Definition remove_if_empty (name : string) (s : VolumeStore) : VolumeStore :=
  match vs_dirs s !! name with
  | Some (mkVolDir None false false None) => if io name CRemoveDir then s else set_dirs (delete name (vs_dirs s)) s
  | _ => s
  end.

Definition orphan_files (name : string) (d : VolDir) : list (string * string) :=
  (if vd_disk d then [(name, "disk.ext4")] else []) ++ (if vd_data d then [(name, "data")] else []).

Definition orphan_steps (d : VolDir) : list (vol_call * (VolDir → VolDir)) :=
  (if vd_disk d then [(CRemoveDisk, set_disk false)] else []) ++ (if vd_data d then [(CRemoveData, set_data false)] else []).

Definition pruneEntry (live : gset string) (refs : string → gset string) (name : string) (s : VolumeStore)
    (res : PruneResult) : VolumeStore * result vol_error PruneResult :=
  match vs_dirs s !! name with
  | None => (s, Ok res)
  | Some d =>
      if negb (probe_lock name d s) then (s, Ok res)
      else
        let metaOK := is_regular (vd_meta d) in
        let backingOK := vd_disk d || vd_data d in
        let 'mkPruneResult stubs orphans cands deleted := res in
        if metaOK && negb backingOK then
          if po_Apply opts then
            if io name CRemoveMeta then (s, Err (VErrCall CRemoveMeta))
            else (remove_if_empty name (alter_dir (set_meta None) name s),
                  Ok (mkPruneResult (stubs ++ [name]) orphans cands deleted))
          else (s, Ok (mkPruneResult (stubs ++ [name]) orphans cands deleted))
        else if negb metaOK && backingOK then
          if po_Apply opts then
            match run_calls (io name) name (orphan_steps d) s with
            | (s, Err e) => (s, Err e)
            | (s, Ok _) => (remove_if_empty name s, Ok (mkPruneResult stubs (orphans ++ orphan_files name d) cands deleted))
            end
          else (s, Ok (mkPruneResult stubs (orphans ++ orphan_files name d) cands deleted))
        else if metaOK && backingOK then
          match readRecord (io name) name s with
          | Err _ => (s, Ok res)
          | Ok rec =>
              if isLive rec live refs then (s, Ok res)
              else if po_IncludeDetached opts && po_Apply opts then
                if io name CRemoveAll then (s, Err (VErrCall CRemoveAll))
                else (set_dirs (delete name (vs_dirs s)) s, Ok (mkPruneResult stubs orphans cands (deleted ++ [name])))
              else (s, Ok (mkPruneResult stubs orphans (cands ++ [name]) deleted))
          end
        else (s, Ok res)
  end.

Fixpoint prune_loop (live : gset string) (refs : string → gset string) (names : list string) (s : VolumeStore)
    (res : PruneResult) : VolumeStore * result vol_error PruneResult :=
  match names with
  | [] => (s, Ok res)
  | name :: names =>
      match pruneEntry live refs name s res with
      | (s, Err e) => (s, Err e)
      | (s, Ok res) => prune_loop live refs names s res
      end
  end.

(** [sbs] is what the listing of sandboxes returned. *)
Definition Prune (ioRoot : Fails) (sbs : list Sandbox) (s : VolumeStore) : VolumeStore * result vol_error PruneResult :=
  if ioRoot CReadDir then (s, Err (VErrCall CReadDir))
  else prune_loop (liveIDs sbs) (recordRefs sbs)
         (volume_names s) s no_result.
End Prune.

(** ** What the operations keep *)

(** Every readable record carries the name of its directory, inodes are allocated once. *)
Definition vols_wf (s : VolumeStore) : Prop :=
  (∀ v d r, vs_dirs s !! v = Some d → vd_meta d = Some (MetaDoc r) → vr_Name r = v) ∧
  (∀ v d i, vs_dirs s !! v = Some d → vd_lock d = Some i → (i < vs_fresh s)%positive) ∧
  (∀ v v' d d' i, vs_dirs s !! v = Some d → vs_dirs s !! v' = Some d' →
     vd_lock d = Some i → vd_lock d' = Some i → v = v').

Lemma readRecord_Ok io name s r :
  readRecord io name s = Ok r → ∃ d, vs_dirs s !! name = Some d ∧ vd_meta d = Some (MetaDoc r).
Proof.
  unfold readRecord. destruct (vs_dirs s !! name) as [d|] eqn:Ed; cbn; [|done].
  destruct (vd_meta d) as [[r'|]|] eqn:Em; [|by destruct (io CReadMeta)|done].
  destruct (io CReadMeta); [done|]. intros [= ->]. eauto.
Qed.

Lemma readRecord_NotExist io name s :
  readRecord io name s = Err VErrNotExist ↔ vs_dirs s !! name ≫= vd_meta = None.
Proof.
  unfold readRecord. destruct (vs_dirs s !! name ≫= vd_meta) as [m|]; [|done].
  destruct (io CReadMeta), m; split; by intros [=].
Qed.

(** *** Pruning *)

Section PruneLemmas.
Context (io : string → Fails) (opts : PruneOptions) (live : gset string) (refs : string → gset string).

Lemma run_calls_frame iov name steps s :
  vs_held (run_calls iov name steps s).1 = vs_held s ∧ vs_fresh (run_calls iov name steps s).1 = vs_fresh s ∧
  ∀ v, v ≠ name → vs_dirs (run_calls iov name steps s).1 !! v = vs_dirs s !! v.
Proof.
  revert s. induction steps as [|[c f] steps IH]; intros s; cbn; [done|]. destruct (iov c); [done|].
  destruct (IH (alter_dir f name s)) as (H1 & H2 & H3). split; [done|]. split; [done|].
  intros v Hv. rewrite H3 by done. cbn. by apply lookup_alter_ne.
Qed.

Lemma remove_if_empty_frame name s :
  vs_held (remove_if_empty io name s) = vs_held s ∧ vs_fresh (remove_if_empty io name s) = vs_fresh s ∧
  ∀ v, v ≠ name → vs_dirs (remove_if_empty io name s) !! v = vs_dirs s !! v.
Proof.
  unfold remove_if_empty. destruct (vs_dirs s !! name) as [[[] [] [] []]|]; try done.
  destruct (io name CRemoveDir); [done|]. cbn. split; [done|]. split; [done|]. intros v Hv. by apply lookup_delete_ne.
Qed.

(** An entry is pruned without touching any other volume or any lock. *)
Lemma pruneEntry_frame name s res :
  let s' := (pruneEntry io opts live refs name s res).1 in
  vs_held s' = vs_held s ∧ vs_fresh s' = vs_fresh s ∧ ∀ v, v ≠ name → vs_dirs s' !! v = vs_dirs s !! v.
Proof.
  unfold pruneEntry. destruct (vs_dirs s !! name) as [d|] eqn:Ed; [|done].
  destruct (negb (probe_lock io name d s)); [done|]. destruct res as [stubs orphans cands deleted].
  destruct (_ && negb _).
  { destruct (po_Apply opts); [|done]. destruct (io name CRemoveMeta); [done|]. cbn.
    destruct (remove_if_empty_frame name (alter_dir (set_meta None) name s)) as (H1 & H2 & H3).
    split; [done|]. split; [done|]. intros v Hv. rewrite H3 by done. cbn. by apply lookup_alter_ne. }
  destruct (negb _ && _).
  { destruct (po_Apply opts); [|done]. pose proof (run_calls_frame (io name) name (orphan_steps d) s) as (H1 & H2 & H3).
    destruct (run_calls (io name) name (orphan_steps d) s) as [s1 [u|e]]; [|done]. cbn in *.
    destruct (remove_if_empty_frame name s1) as (R1 & R2 & R3).
    split; [congruence|]. split; [congruence|]. intros v Hv. by rewrite R3, H3. }
  destruct (_ && _); [|done]. destruct (readRecord _ _ _) as [rec|e]; [|done]. destruct (isLive _ _ _); [done|].
  destruct (_ && _); [|done]. destruct (io name CRemoveAll); [done|]. cbn. split; [done|]. split; [done|].
  intros v Hv. by apply lookup_delete_ne.
Qed.

(** What protects a volume from pruning. *)
Definition kept (v : string) (d : VolDir) (held : gset positive) : Prop :=
  po_Apply opts = false ∨ (∃ i, vd_lock d = Some i ∧ i ∈ held) ∨
  (is_Some (vd_meta d) ∧ vd_disk d || vd_data d = true ∧
   (po_IncludeDetached opts = false ∨ ∃ r, vd_meta d = Some (MetaDoc r) ∧ isLive r live refs = true)).

Lemma pruneEntry_keeps name s res d :
  vs_dirs s !! name = Some d → kept name d (vs_held s) →
  vs_dirs (pruneEntry io opts live refs name s res).1 !! name = Some d.
Proof.
  intros Hd Hk. unfold pruneEntry. rewrite Hd. destruct (probe_lock io name d s) eqn:Ep; cbn [negb]; [|done].
  destruct res as [stubs orphans cands deleted]. destruct Hk as [Ha|[(i & Hi & Hheld)|([m Hm] & Hb & Hk)]].
  - rewrite Ha. split_matches; try done; by rewrite ?andb_false_r in *.
  - unfold probe_lock in Ep. rewrite Hi in Ep. rewrite bool_decide_true, !andb_false_r in Ep by done. done.
  - rewrite Hm, Hb. cbn. destruct (readRecord (io name) name s) as [rec|e] eqn:Er; [|done].
    apply readRecord_Ok in Er as (d' & Hd' & Hm'). assert (d' = d) as -> by congruence. destruct Hk as [Hk|(r & Hr & Hl)].
    + rewrite Hk. cbn. by destruct (isLive rec live refs).
    + assert (rec = r) as -> by congruence. by rewrite Hl.
Qed.

Lemma prune_loop_keeps names s res v d :
  vs_dirs s !! v = Some d → kept v d (vs_held s) →
  vs_dirs (prune_loop io opts live refs names s res).1 !! v = Some d.
Proof.
  revert s res. induction names as [|name names IH]; intros s res Hd Hk; cbn; [done|].
  pose proof (pruneEntry_frame name s res) as (Hh & _ & Hf). pose proof (pruneEntry_keeps name s res d) as Hkeep.
  assert (Hv : vs_dirs (pruneEntry io opts live refs name s res).1 !! v = Some d).
  { destruct (decide (v = name)) as [->|Hne]; [by apply Hkeep|by rewrite Hf]. }
  destruct (pruneEntry io opts live refs name s res) as [s1 [res1|e]]; cbn in *; [|done].
  apply IH; [done|by rewrite Hh].
Qed.
End PruneLemmas.

(** A sandbox refers to a volume from its own record or from the volume's. *)
Definition referenced (sbs : list Sandbox) (r : VolumeRecord) : Prop :=
  ∃ sb, sb ∈ sbs ∧ ((∃ va, va ∈ MountedVolumes sb ∧ va_Name va = vr_Name r) ∨
                    SandboxID_String (ID sb) ∈ attached_ids r).

Lemma existsb_elem {A} (f : A → bool) l : existsb f l = true ↔ ∃ x, x ∈ l ∧ f x = true.
Proof. rewrite existsb_exists. by setoid_rewrite list_elem_of_In. Qed.

Lemma isLive_referenced sbs r : isLive r (liveIDs sbs) (recordRefs sbs) = true ↔ referenced sbs r.
Proof.
  unfold isLive, liveIDs, recordRefs, referenced. rewrite orb_true_iff, bool_decide_eq_true, existsb_elem. split.
  - intros [(id & Hid & _)|(a & Ha & Hlive)].
    + apply elem_of_list_to_set, list_elem_of_fmap in Hid as (sb & -> & Hsb).
      apply list_elem_of_In, filter_In in Hsb as [Hsb Hmv]. apply existsb_elem in Hmv as (va & Hva & Hn%bool_decide_eq_true).
      exists sb. split; [by apply list_elem_of_In|]. eauto.
    + apply bool_decide_eq_true, elem_of_list_to_set, list_elem_of_fmap in Hlive as (sb & Heq & Hsb).
      exists sb. split; [done|]. right. apply list_elem_of_fmap. eauto.
  - intros (sb & Hsb & [(va & Hva & Hn)|Hatt]).
    + left. exists (SandboxID_String (ID sb)). split; apply elem_of_list_to_set, list_elem_of_fmap; exists sb; split; try done.
      apply list_elem_of_In, filter_In. split; [by apply list_elem_of_In|]. apply existsb_elem. exists va. by rewrite bool_decide_true.
    + right. apply list_elem_of_fmap in Hatt as (a & Heq & Ha). exists a. split; [done|].
      apply bool_decide_eq_true, elem_of_list_to_set, list_elem_of_fmap. eauto.
Qed.

(** pruning never takes a volume that is in use.  Whatever calls fail, a dry run changes
    nothing; and with [Apply] a volume keeps its whole directory if its lock is held by
    another process (a create, attach or removal in flight), or if its record and its
    backing are there and some existing sandbox refers to it, from the sandbox's
    record or from the volume's, or detached volumes were not asked for. *)
Lemma prune_protects io opts ioRoot sbs s s' res v d :
  Prune io opts ioRoot sbs s = (s', res) → vs_dirs s !! v = Some d →
  po_Apply opts = false ∨
  (∃ i, vd_lock d = Some i ∧ i ∈ vs_held s) ∨
  (is_Some (vd_meta d) ∧ vd_disk d || vd_data d = true ∧
   (po_IncludeDetached opts = false ∨ ∃ r, vd_meta d = Some (MetaDoc r) ∧ referenced sbs r)) →
  vs_dirs s' !! v = Some d.
Proof.
  intros Hp Hd Hk. unfold Prune in Hp. destruct (ioRoot CReadDir); [by simplify_eq|].
  pose proof (prune_loop_keeps io opts (liveIDs sbs) (recordRefs sbs) (volume_names s) s no_result v d Hd) as H.
  rewrite Hp in H. apply H. destruct Hk as [?|[?|(Hm & Hb & [?|(r & Hr & Href)])]]; [by left|by right; left|..];
    right; right; do 2 (split; [done|]); [by left|]. right. exists r. by rewrite isLive_referenced.
Qed.

(** A volume of kind dir pinned to a host path has no backing in its directory: pruning
    takes it for a stub and deletes its record, also while a sandbox uses it. *)
Definition pinned_volume (id : SandboxID) : VolDir :=
  mkVolDir (Some (MetaDoc (mkVolumeRecord "src" KindDir 0 "/home/me/src"
    [mkAttachment (SandboxID_String id) 5] 1))) false false (Some 1%positive).

Lemma prune_deletes_pinned_record (sb : Sandbox) :
  let s := mkVols {["src" := pinned_volume (ID sb)]} ∅ 2 in
  ∃ s' res, Prune (λ _ _, false) (mkPruneOptions true false) (λ _, false) [sb] s = (s', Ok res) ∧
    pr_StubsDeleted res = ["src"%string] ∧ vs_dirs s' !! "src" ≫= vd_meta = None.
Proof. eexists _, _. split; [vm_compute; reflexivity|]. split; reflexivity. Qed.

(** *** Locks and records *)

Lemma lock_volume_dirs io name s s' res :
  lock_volume io name s = (s', res) →
  vs_held s' = vs_held s ∧
  (∀ v, v ≠ name → vs_dirs s' !! v = vs_dirs s !! v) ∧
  (∀ d, vs_dirs s !! name = Some d → ∃ i, vs_dirs s' !! name = Some (set_lock i d)) ∧
  (vs_dirs s !! name = None → s' = s ∧ res = Err VErrNotExist) ∧
  (∀ i, res = Ok i → i ∉ vs_held s ∧ ∃ d, vs_dirs s' !! name = Some d ∧ vd_lock d = Some i) ∧
  (vols_wf s → vols_wf s').
Proof.
  unfold lock_volume. destruct (vs_dirs s !! name) as [d|] eqn:Ed; [|by intros [= <- <-]].
  destruct (io COpenLock).
  { intros [= <- <-]. split; [done|]. split; [done|]. split; [|done]. intros d' [= <-]. exists (vd_lock d). by destruct d. }
  destruct (vd_lock d) as [i|] eqn:El.
  - assert (Hkeep : ∀ d', Some d = Some d' → ∃ i, vs_dirs s !! name = Some (set_lock i d')).
    { intros d' [= <-]. exists (Some i). rewrite Ed. destruct d. cbn in El. by subst. }
    destruct (io CFlock); [by intros [= <- <-]|].
    case_bool_decide as Hh; intros [= <- <-]; repeat (split; [done|]); [done|].
    split; [|done]. intros i' [= <-]. eauto.
  - set (s1 := mkVols _ _ _). intros Hres.
    assert (Hs1 : s' = s1) by (destruct (io CFlock); [congruence|]; case_bool_decide; congruence).
    subst s'. split; [done|]. split; [intros v Hv; cbn; by rewrite lookup_insert_ne|].
    split; [intros d' [= <-]; eexists; cbn; by rewrite lookup_insert_eq|]. split; [done|]. split.
    + intros i ->. destruct (io CFlock); [done|]. case_bool_decide; [done|]. simplify_eq. split; [done|].
      eexists. split; [cbn; by rewrite lookup_insert_eq|done].
    + intros (Hn & Hlt & Huniq). split; [|split].
      * intros v d' r. cbn. rewrite lookup_insert_Some. intros [[<- <-]|[_ ?]]; [cbn; eauto|eauto].
      * intros v d' i. cbn. rewrite lookup_insert_Some. intros [[<- <-]|[_ Hv]]; [cbn; intros [= <-]; lia|].
        intros Hi. specialize (Hlt v d' i Hv Hi). lia.
      * intros v v' d1 d2 i. cbn. rewrite !lookup_insert_Some. intros [[<- <-]|[Hne Hv]] [[<- <-]|[Hne' Hv']] H1 H2; cbn in *;
          try done; [injection H1 as <-; specialize (Hlt _ _ _ Hv' H2); lia|injection H2 as <-; specialize (Hlt _ _ _ Hv H1); lia|].
        by eapply Huniq.
Qed.

Lemma writeRecord_Ok io r s s' :
  writeRecord io r s = (s', Ok tt) →
  ∃ d, vs_dirs s !! vr_Name r = Some d ∧ s' = set_dirs (<[vr_Name r := set_meta (Some (MetaDoc r)) d]> (vs_dirs s)) s.
Proof.
  unfold writeRecord. destruct (vs_dirs s !! vr_Name r) as [d|]; [|done]. destruct (io CWriteTmp), (io CRename); try done.
  intros [= <-]. eauto.
Qed.

Lemma writeRecord_Err io r s s' e : writeRecord io r s = (s', Err e) → s' = s.
Proof. unfold writeRecord. destruct (vs_dirs s !! vr_Name r); [|congruence]. destruct (io CWriteTmp), (io CRename); congruence. Qed.

Lemma vols_wf_alter_meta s name d r :
  vols_wf s → vs_dirs s !! name = Some d → vr_Name r = name →
  vols_wf (set_dirs (<[name := set_meta (Some (MetaDoc r)) d]> (vs_dirs s)) s).
Proof.
  intros (Hn & Hlt & Huniq) Hd Hr. split; [|split].
  - intros v d' r'. cbn. rewrite lookup_insert_Some. intros [[<- <-]|[_ ?]]; [cbn; congruence|eauto].
  - intros v d' i. cbn. rewrite lookup_insert_Some. intros [[<- <-]|[_ ?]]; cbn; eauto.
  - intros v v' d1 d2 i. cbn. rewrite !lookup_insert_Some. intros [[<- <-]|[? ?]] [[<- <-]|[? ?]]; cbn; eauto.
Qed.

Lemma vols_wf_alter s name f :
  vols_wf s → (∀ d, vd_lock (f d) = vd_lock d ∨ vd_lock (f d) = None) →
  (∀ d, vd_meta (f d) = vd_meta d ∨ vd_meta (f d) = None) → vols_wf (alter_dir f name s).
Proof.
  intros (Hn & Hlt & Huniq) Hl Hm.
  assert (Hpre : ∀ v d', vs_dirs (alter_dir f name s) !! v = Some d' →
    ∃ d, vs_dirs s !! v = Some d ∧ (vd_lock d' = vd_lock d ∨ vd_lock d' = None) ∧ (vd_meta d' = vd_meta d ∨ vd_meta d' = None)).
  { intros v d' Hv. cbn in Hv. destruct (decide (v = name)) as [->|Hne].
    - rewrite lookup_alter_eq in Hv. destruct (vs_dirs s !! name) as [d|]; [|done]. injection Hv as <-. exists d. auto.
    - rewrite lookup_alter_ne in Hv by done. exists d'. auto. }
  split; [|split].
  - intros v d' r Hv Hr. destruct (Hpre v d' Hv) as (d & Hd & _ & [Hmd|Hmd]); rewrite Hmd in Hr; [eauto|done].
  - intros v d' i Hv Hi. destruct (Hpre v d' Hv) as (d & Hd & [Hld|Hld] & _); rewrite Hld in Hi; [|done].
    cbn. eauto.
  - intros v v' d1 d2 i Hv Hv' H1 H2. destruct (Hpre v d1 Hv) as (e1 & He1 & [L1|L1] & _); rewrite L1 in H1; [|done].
    destruct (Hpre v' d2 Hv') as (e2 & He2 & [L2|L2] & _); rewrite L2 in H2; [|done]. eauto.
Qed.

Lemma vols_wf_delete s name : vols_wf s → vols_wf (set_dirs (delete name (vs_dirs s)) s).
Proof.
  intros (Hn & Hlt & Huniq). split; [|split]; intros *; cbn; rewrite !lookup_delete_Some; naive_solver.
Qed.

Lemma vols_wf_new_dir s name :
  vols_wf s → vs_dirs s !! name = None → vols_wf (set_dirs (<[name := new_dir]> (vs_dirs s)) s).
Proof.
  intros (Hn & Hlt & Huniq) Hnone. split; [|split]; intros *; cbn; rewrite !lookup_insert_Some; naive_solver.
Qed.

(** ** The invariant *)

Definition vols_inv (s : VolumeStore) : Prop :=
  vols_wf s ∧ ∀ v, is_Some (vs_dirs s !! v) → validateName v = true.

Create HintDb volumes discriminated.

Lemma inv_lock io name s : vols_inv s → vols_inv (lock_volume io name s).1.
Proof.
  intros [Hwf Hn]. destruct (lock_volume io name s) as [s' res] eqn:El.
  destruct (lock_volume_dirs io name s s' res El) as (_ & Hf & Hd & Hnone & _ & Hw). split; [by apply Hw|].
  intros v Hv. destruct (decide (v = name)) as [->|Hne]; [|apply Hn; by rewrite <- Hf].
  destruct (vs_dirs s !! name) eqn:E; [apply Hn; by rewrite E|]. cbn in Hv.
  destruct (Hnone eq_refl) as [-> _]. rewrite E in Hv. by apply is_Some_None in Hv.
Qed.

Lemma inv_write io r s : vols_inv s → vols_inv (writeRecord io r s).1.
Proof.
  intros [Hwf Hn]. destruct (writeRecord io r s) as [s' [[]|e]] eqn:Ew; cbn.
  - apply writeRecord_Ok in Ew as (d & Hd & ->). split; [by apply vols_wf_alter_meta|].
    intros v. cbn. rewrite lookup_insert_is_Some. intros [<-|[_ Hv]]; apply Hn; [by rewrite Hd|done].
  - by apply writeRecord_Err in Ew as ->.
Qed.

Lemma inv_alter f name s :
  (∀ d, vd_lock (f d) = vd_lock d ∨ vd_lock (f d) = None) →
  (∀ d, vd_meta (f d) = vd_meta d ∨ vd_meta (f d) = None) → vols_inv s → vols_inv (alter_dir f name s).
Proof.
  intros Hl Hm [Hwf Hn]. split; [by apply vols_wf_alter|]. intros v. cbn. rewrite lookup_alter_is_Some. apply Hn.
Qed.

Lemma inv_delete name s : vols_inv s → vols_inv (set_dirs (delete name (vs_dirs s)) s).
Proof.
  intros [Hwf Hn]. split; [by apply vols_wf_delete|]. intros v. cbn. rewrite lookup_delete_is_Some. intros [_ ?]. by apply Hn.
Qed.

Lemma inv_held h s : vols_inv s → vols_inv (mkVols (vs_dirs s) h (vs_fresh s)).
Proof. done. Qed.

Lemma inv_run_calls io name steps s :
  Forall (λ p : vol_call * (VolDir → VolDir), ∀ d, (vd_lock (p.2 d) = vd_lock d ∨ vd_lock (p.2 d) = None) ∧
    (vd_meta (p.2 d) = vd_meta d ∨ vd_meta (p.2 d) = None)) steps →
  vols_inv s → vols_inv (run_calls io name steps s).1.
Proof.
  intros Hs. revert s. induction Hs as [|[c f] steps Hf _ IH]; intros s Hi; cbn; [done|]. destruct (io c); [done|].
  apply IH, inv_alter; [intros d; apply Hf..|done].
Qed.

Lemma inv_remove_if_empty io name s : vols_inv s → vols_inv (remove_if_empty io name s).
Proof.
  intros Hi. unfold remove_if_empty. destruct (vs_dirs s !! name) as [[[] [] [] []]|]; try done.
  destruct (io name CRemoveDir); [done|by apply inv_delete].
Qed.

#[export] Hint Resolve inv_lock inv_write inv_delete inv_held inv_remove_if_empty : volumes.

(** Rewrites a call whose invariant lemma is known. *)
Ltac inv_call H :=
  match goal with |- context [match ?c with (_, _) => _ end] =>
    let Hc := fresh "Hc" in let s := fresh "s" in let r := fresh "r" in
    assert (Hc : vols_inv c.1) by (eauto using H with volumes);
    destruct c as [s r]; cbn [fst] in Hc end.

Lemma inv_Create io free floor now name kind size path s :
  vols_inv s → vols_inv (Create io free floor now name kind size path s).1.
Proof.
  intros Hi. unfold Create. destruct (validateName name) eqn:Hv; cbn [negb]; [|done]. destruct (negb _); [done|].
  destruct (existing_or _ _ _); [done|]. destruct (io CMkdir); [done|]. set (s1 := match _ with Some _ => s | None => _ end).
  assert (Hi1 : vols_inv s1).
  { unfold s1. destruct (vs_dirs s !! name) eqn:E; [done|]. destruct Hi as [Hwf Hn]. split; [by apply vols_wf_new_dir|].
    intros v. cbn. rewrite lookup_insert_is_Some. intros [<-|[_ ?]]; [done|by apply Hn]. }
  clearbody s1. inv_call inv_lock. destruct r; [|done]. destruct (existing_or _ _ _); [done|]. cbv zeta.
  destruct (if bool_decide (kind = KindDisk) then _ else _); [|done]. inv_call inv_write. destruct r; [|done].
  assert (Hm : vols_inv (materialise io (new_record now name kind (if size <=? 0 then DefaultDiskSizeBytes else size) path) s2).1).
  { unfold materialise, preallocateFile. repeat case_bool_decide; try done.
    - destruct (io CCreateFile); [done|]. destruct (io CTruncate); cbn; [by apply inv_alter; [left..|]|].
      destruct (io CFormat); cbn; repeat (apply inv_alter; [by left|by left|]); done.
    - destruct (io CMkdirData); [done|]. cbn. by apply inv_alter; [left..|].
    - by destruct (io CMkdirData). }
  destruct (materialise _ _ _) as [s3 [u|e]]; done.
Qed.

Lemma inv_Rm io name s : vols_inv s → vols_inv (Rm io name s).1.
Proof.
  intros Hi. unfold Rm. inv_call inv_lock. destruct r; [|done]. destruct (readRecord io name s0) as [rec|]; [|done].
  destruct (attached_ids rec); [|done]. unfold remove_volume.
  assert (Hr : vols_inv (run_calls io name rm_steps s0).1).
  { apply inv_run_calls; [|done]. repeat constructor; cbn; tauto. }
  destruct (run_calls io name rm_steps s0) as [s1 [u|e]]; [|done]. destruct (io CRemoveDir); [done|]. by apply inv_delete.
Qed.

Lemma inv_Attach io now name id s : vols_inv s → vols_inv (Attach io now name id s).1.
Proof.
  intros Hi. unfold Attach. inv_call inv_lock. destruct r; [|done]. destruct (readRecord io name s0) as [rec|]; [|done].
  destruct (is_attached id rec); [done|]. by apply inv_write.
Qed.

Lemma inv_AttachLocked io now name id s : vols_inv s → vols_inv (AttachLocked io now name id s).1.
Proof.
  intros Hi. unfold AttachLocked. inv_call inv_lock. destruct r; [|done]. destruct (readRecord io name s0) as [rec|]; [|done].
  destruct (is_attached id rec); [done|]. inv_call inv_write. by destruct r.
Qed.

Lemma inv_AttachAndPrune io now name id prune s : vols_inv s → vols_inv (AttachAndPrune io now name id prune s).1.
Proof. intros Hi. unfold AttachAndPrune. destruct (readRecord io name s); [|done]. by apply inv_write. Qed.

Lemma inv_update_locked io f name s : vols_inv s → vols_inv (update_locked io f name s).1.
Proof.
  intros Hi. unfold update_locked. inv_call inv_lock. destruct r as [i|[]]; try done.
  destruct (readRecord io name s0) as [rec|[]]; try done. by apply inv_write.
Qed.

Lemma inv_pruneEntry io opts live refs name s res : vols_inv s → vols_inv (pruneEntry io opts live refs name s res).1.
Proof.
  intros Hi. unfold pruneEntry. destruct (vs_dirs s !! name) as [d|]; [|done]. destruct (negb _); [done|]. destruct res.
  destruct (_ && negb _).
  { destruct (po_Apply opts); [|done]. destruct (io name CRemoveMeta); [done|]. apply inv_remove_if_empty, inv_alter; [by left|by right|done]. }
  destruct (negb _ && _).
  { destruct (po_Apply opts); [|done]. 
    assert (Hr : vols_inv (run_calls (io name) name (orphan_steps d) s).1).
    { apply inv_run_calls; [|done]. unfold orphan_steps. destruct (vd_disk d), (vd_data d); repeat constructor; cbn; tauto. }
    destruct (run_calls _ _ _ _) as [s1 [u|e]]; [|done]. by apply inv_remove_if_empty. }
  destruct (_ && _); [|done]. destruct (readRecord _ _ _); [|done]. destruct (isLive _ _ _); [done|].
  destruct (_ && _); [|done]. destruct (io name CRemoveAll); [done|]. by apply inv_delete.
Qed.

Lemma inv_Prune io opts ioRoot sbs s : vols_inv s → vols_inv (Prune io opts ioRoot sbs s).1.
Proof.
  intros Hi. unfold Prune. destruct (ioRoot CReadDir); [done|]. generalize no_result. generalize (volume_names s).
  intros names. revert s Hi. induction names as [|name names IH]; intros s Hi res; cbn; [done|].
  pose proof (inv_pruneEntry io opts (liveIDs sbs) (recordRefs sbs) name s res Hi) as Hp.
  destruct (pruneEntry _ _ _ _ _ _ _) as [s1 [res1|e]]; [by apply IH|done].
Qed.

(** One component of a path.  [Create] checks the grammar of a name; the other operations join the name they are given to
    the root unchecked, so that a name such as a/../b acts on the directory b and .. on one outside the store.  They are
    modelled for names of one component. *)
Definition component (name : string) : bool :=
  negb (String.eqb name "") && negb (String.eqb name ".") && negb (String.eqb name "..") && negb (bool_decide ("/"%char ∈ chars name)).

(** The operations of the store, each in its critical section. *)
Inductive vol_step : VolumeStore → VolumeStore → Prop :=
| vst_create io free floor now name kind size path s : vol_step s (Create io free floor now name kind size path s).1
| vst_rm io name s : component name = true → vol_step s (Rm io name s).1
| vst_attach io now name id s : component name = true → vol_step s (Attach io now name id s).1
| vst_attach_locked io now name id s : component name = true → vol_step s (AttachLocked io now name id s).1
| vst_attach_prune io now name id prune s : component name = true → vol_step s (AttachAndPrune io now name id prune s).1
| vst_release i s : vol_step s (release_lock i s)
| vst_update io name size s : component name = true → vol_step s (UpdateSizeBytes io name size s).1
| vst_detach io name id s : component name = true → vol_step s (Detach io name id s).1
| vst_prune io opts ioRoot sbs s : vol_step s (Prune io opts ioRoot sbs s).1.

Lemma vol_step_inv s s' : vol_step s s' → vols_inv s → vols_inv s'.
Proof.
  intros Hs Hi. destruct Hs; eauto using inv_Create, inv_Rm, inv_Attach, inv_AttachLocked, inv_AttachAndPrune, inv_update_locked, inv_Prune.
Qed.

(** The names of volumes, written out: a lower-case letter or a digit, then any number of these, dots, underscores and
    hyphens. *)
Definition name_first : string := "abcdefghijklmnopqrstuvwxyz0123456789".
Definition name_rest : string := name_first +:+ "._-".
Definition volume_name (name : string) : Prop :=
  ∃ c l, chars name = c :: l ∧ c ∈ chars name_first ∧ Forall (λ c, c ∈ chars name_rest) l.

Lemma name_char_spec b c : name_char b c = true ↔ c ∈ chars (if b then name_first else name_rest).
Proof.
  assert (H : ∀ c, name_char b c = bool_decide (c ∈ chars (if b then name_first else name_rest))).
  { destruct b; intros [[] [] [] [] [] [] [] []]; vm_compute; reflexivity. }
  rewrite H. apply bool_decide_eq_true.
Qed.

Lemma validateName_grammar name : validateName name = true ↔ volume_name name.
Proof.
  unfold validateName, volume_name. destruct (chars name) as [|c l]; [split; [done|by intros (? & ? & ? & _)]|].
  rewrite andb_true_iff, forallb_forall, (name_char_spec true). split.
  - intros [Hc Hl]. exists c, l. split_and!; [done..|]. apply Forall_forall. intros x Hx%list_elem_of_In. by apply (name_char_spec false), Hl.
  - intros (c' & l' & [= <- <-] & Hc & Hl). split; [done|]. rewrite Forall_forall in Hl. intros x Hx%list_elem_of_In. by apply (name_char_spec false), Hl.
Qed.

(** Such a name is one component of a path. *)
Lemma volume_name_component name : volume_name name → component name = true.
Proof.
  intros (c & l & El & Hc & Hl). assert (Hsl : "/"%char ∉ chars name).
  { rewrite El. intros [<-|Hin]%elem_of_cons; [by apply (bool_decide_eq_true_2 _) in Hc; vm_compute in Hc|].
    rewrite Forall_forall in Hl. specialize (Hl _ Hin). apply (bool_decide_eq_true_2 _) in Hl. by vm_compute in Hl. }
  unfold component. rewrite (bool_decide_false _ Hsl).
  assert (Hdot : c ≠ "."%char) by (intros ->; apply (bool_decide_eq_true_2 _) in Hc; by vm_compute in Hc).
  assert (Hne : ∀ t, chars t = [] ∨ (∃ l', chars t = "."%char :: l') → String.eqb name t = false).
  { intros t Ht. apply String.eqb_neq. intros ->. destruct Ht as [E|[l' E]]; congruence. }
  rewrite !Hne; [done|right; by eexists..|by left].
Qed.

Definition empty_store : VolumeStore := mkVols ∅ ∅ 1.

(** C35: the invariant of the volume store.  After any sequence of its operations, on names of one path component and
    with any calls failing at any point, every readable record lies in the directory it names, the name of every
    directory is a lower-case letter or digit followed by these, dots, underscores and hyphens, and no two volumes share a
    lock. *)
Lemma volume_store_invariant s :
  rtc vol_step empty_store s →
  (∀ v d r, vs_dirs s !! v = Some d → vd_meta d = Some (MetaDoc r) → vr_Name r = v) ∧
  (∀ v d, vs_dirs s !! v = Some d → volume_name v) ∧
  (∀ v v' d d' i, vs_dirs s !! v = Some d → vs_dirs s !! v' = Some d' →
     vd_lock d = Some i → vd_lock d' = Some i → v = v').
Proof.
  intros Hs. assert (Hi : vols_inv s).
  { apply (rtc_invariant _ vols_inv vol_step_inv _ _ Hs). split; [|by intros v []]. split; [|split]; intros *; done. }
  destruct Hi as [(Hn & Hlt & Hu) Hname]. split; [done|]. split; [|done].
  intros v d Hd. apply validateName_grammar, Hname. by rewrite Hd.
Qed.

(** ** Creation *)

(** The backing a record of this kind needs, as far as it lies in the store. *)
Definition backed (r : VolumeRecord) (d : VolDir) : bool :=
  if bool_decide (vr_Kind r = KindDisk) then vd_disk d
  else if bool_decide (vr_HostPath r = "") then vd_data d else true.

Lemma existing_or_Ok name kind r x :
  existing_or name kind r = Some (Ok x) → r = Ok x ∧ vr_Kind x = kind.
Proof.
  destruct r as [y|[]]; cbn; try (intros [= H]; done). case_bool_decide; intros [= ->]. done.
Qed.

Lemma materialise_Ok io r s s' d :
  materialise io r s = (s', Ok tt) → vs_dirs s !! vr_Name r = Some d → vd_meta d = Some (MetaDoc r) →
  (vr_Kind r = KindDisk ∨ vr_Kind r = KindDir) →
  ∃ d', vs_dirs s' !! vr_Name r = Some d' ∧ vd_meta d' = Some (MetaDoc r) ∧ backed r d' = true.
Proof.
  intros Hm Hd Hmeta Hk. unfold materialise, preallocateFile in Hm. unfold backed. case_bool_decide as Hdisk.
  - destruct (io CCreateFile); [done|]. destruct (io CTruncate); [done|]. destruct (io CFormat); [done|]. injection Hm as <-.
    exists (set_disk true d). cbn. by rewrite lookup_alter_eq, Hd.
  - destruct Hk as [?|Hdir]; [done|]. rewrite (bool_decide_true _ Hdir) in Hm. destruct (io CMkdirData); [done|].
    case_bool_decide; injection Hm as <-; [exists (set_data true d); cbn; by rewrite lookup_alter_eq, Hd|eauto].
Qed.

(** creating a volume.  When [Create] reports success the volume's record is on disk, of the
    requested kind, and is the record returned; and it either was there before and nothing
    changed, or it is new, has no attachments, its backing exists, and for a disk the
    space check had passed. *)
Lemma Create_volume_spec io free floor now name kind size path s s' r :
  Create io free floor now name kind size path s = (s', Ok r) →
  vr_Kind r = kind ∧ ∃ d', vs_dirs s' !! name = Some d' ∧ vd_meta d' = Some (MetaDoc r) ∧
  (readRecord io name s = Ok r ∧ s' = s ∨
   readRecord io name s = Err VErrNotExist ∧ vr_Name r = name ∧ vr_Attachments r = [] ∧ backed r d' = true ∧
   (kind = KindDisk → floor ≤ i64 (free - vr_SizeBytes r) ∧ 0 < vr_SizeBytes r)).
Proof.
  unfold Create. destruct (negb (validateName name)); [done|].
  destruct (negb (bool_decide (kind = KindDisk) || bool_decide (kind = KindDir))) eqn:Hkind; [done|].
  assert (Hk : kind = KindDisk ∨ kind = KindDir).
  { apply negb_false_iff, orb_true_iff in Hkind. by rewrite !bool_decide_eq_true in Hkind. }
  destruct (existing_or name kind (readRecord io name s)) as [res|] eqn:Ee.
  { intros [= <- ->]. apply existing_or_Ok in Ee as [Hr ?]. split; [done|].
    destruct (readRecord_Ok _ _ _ _ Hr) as (d & Hd & Hm). eauto 10. }
  assert (Hnone : readRecord io name s = Err VErrNotExist) by (destruct (readRecord io name s) as [|[]]; by cbn in Ee).
  destruct (io CMkdir); [done|]. set (s1 := match _ with Some _ => s | None => _ end).
  destruct (lock_volume io name s1) as [s2 [i|]] eqn:El; [|done].
  apply readRecord_NotExist in Hnone as Hn.
  assert (Hd2 : ∃ d, vs_dirs s2 !! name = Some d ∧ vd_meta d = None).
  { assert (Hd1 : ∃ d, vs_dirs s1 !! name = Some d ∧ vd_meta d = None).
    { unfold s1. destruct (vs_dirs s !! name) as [d|] eqn:E; [by eauto|]. exists new_dir. cbn. by rewrite lookup_insert_eq. }
    destruct Hd1 as (d & Hd & Hm). destruct (lock_volume_dirs _ _ _ _ _ El) as (_ & _ & Hdir & _).
    destruct (Hdir d Hd) as [j Hj]. exists (set_lock j d). done. }
  destruct Hd2 as (d2 & Hd2 & Hm2).
  assert (Hr2 : readRecord io name s2 = Err VErrNotExist) by (apply readRecord_NotExist; by rewrite Hd2).
  rewrite Hr2. cbn [existing_or]. cbv zeta. set (sz := if size <=? 0 then DefaultDiskSizeBytes else size).
  destruct (if bool_decide (kind = KindDisk) then checkFreeSpace io free floor sz else Ok tt) as [[]|] eqn:Ef; [|done].
  set (rec := new_record now name kind sz path). destruct (writeRecord io rec s2) as [s3 [[]|]] eqn:Ew; [|done].
  destruct (materialise io rec s3) as [s4 [[]|]] eqn:Emat; [|done]. intros [= <- <-]. fold rec.
  apply writeRecord_Ok in Ew as (d3 & Hd3 & ->). assert (d3 = d2) as -> by (cbn in Hd3; congruence).
  destruct (materialise_Ok io rec _ s4 (set_meta (Some (MetaDoc rec)) d2) Emat) as (d' & Hd' & Hm' & Hb);
    [cbn; by rewrite lookup_insert_eq|done|done|].
  split; [done|]. exists d'. split; [done|]. split; [done|]. right. repeat (split; [done|]).
  intros ->. rewrite bool_decide_true in Ef by done. unfold checkFreeSpace, FreeSpaceFloorBytes in Ef. destruct (io CStatfs); [done|].
  destruct (Z.ltb_spec (i64 (free - sz)) floor); [done|]. cbn. rewrite bool_decide_true by done. split; [done|].
  unfold sz. destruct (Z.leb_spec size 0); [by vm_compute|done].
Qed.

(** A creation whose backing failed leaves its record; the next one reports success for
    the volume without a backing. *)
Definition fails_only (c : vol_call) : Fails := λ c', match c, c' with CFormat, CFormat => true | _, _ => false end.

Lemma Create_retry_without_backing :
  let io := fails_only CFormat in
  ∃ s1 s2 r d, Create io (2 ^ 40) 0 1 "v" KindDisk 0 "" empty_store = (s1, Err (VErrCall CFormat)) ∧
    Create (λ _, false) (2 ^ 40) 0 2 "v" KindDisk 0 "" s1 = (s2, Ok r) ∧ vs_dirs s2 !! "v" = Some d ∧ backed r d = false.
Proof. cbv zeta. do 4 eexists. split; [vm_compute; reflexivity|]. split; [vm_compute; reflexivity|]. split; vm_compute; reflexivity. Qed.

(** ** Attachments *)

(** What an operation did to the record of a volume that it could read and lock. *)
Definition rewritten (f : VolumeRecord → VolumeRecord) (name : string) (s s' : VolumeStore) : Prop :=
  ∃ d d' r, vs_dirs s !! name = Some d ∧ vd_meta d = Some (MetaDoc r) ∧
    vs_dirs s' !! name = Some d' ∧ vd_meta d' = Some (MetaDoc (f r)) ∧ vd_disk d' = vd_disk d ∧ vd_data d' = vd_data d.

Definition attached (name : string) (s : VolumeStore) : list string :=
  match vs_dirs s !! name ≫= vd_meta with Some (MetaDoc r) => attached_ids r | _ => [] end.

Lemma rewritten_attached f name s s' :
  rewritten f name s s' →
  ∃ r, attached name s = attached_ids r ∧ attached name s' = attached_ids (f r).
Proof.
  intros (d & d' & r & Hd & Hm & Hd' & Hm' & _). exists r. unfold attached. by rewrite Hd, Hd'; cbn; rewrite Hm, Hm'.
Qed.

Lemma locked_write io f name s s1 i r s' :
  vols_wf s → lock_volume io name s = (s1, Ok i) → readRecord io name s1 = Ok r → (vr_Name (f r) = vr_Name r) →
  writeRecord io (f r) s1 = (s', Ok tt) → rewritten f name s s'.
Proof.
  intros Hwf El Hr Hname Hw. destruct (lock_volume_dirs _ _ _ _ _ El) as (_ & _ & Hdir & Hnone & _ & Hw1).
  destruct (readRecord_Ok _ _ _ _ Hr) as (d1 & Hd1 & Hm1).
  assert (Hrn : vr_Name r = name) by (destruct (Hw1 Hwf) as [Hn _]; eauto).
  destruct (vs_dirs s !! name) as [d|] eqn:Ed; [|by destruct (Hnone eq_refl)].
  destruct (Hdir d eq_refl) as [j Hj]. assert (d1 = set_lock j d) as -> by congruence.
  apply writeRecord_Ok in Hw as (d2 & Hd2 & ->). rewrite Hname, Hrn in *. assert (d2 = set_lock j d) as -> by congruence.
  exists d, (set_meta (Some (MetaDoc (f r))) (set_lock j d)), r. repeat split; try done. cbn. by rewrite lookup_insert_eq.
Qed.

Lemma is_attached_elem id r : is_attached id r = true ↔ id ∈ attached_ids r.
Proof.
  unfold is_attached, attached_ids. rewrite existsb_elem, list_elem_of_fmap.
  setoid_rewrite bool_decide_eq_true. naive_solver.
Qed.

Lemma attached_detach id r x : x ∈ attached_ids (detach_record id r) ↔ x ∈ attached_ids r ∧ x ≠ id.
Proof.
  unfold attached_ids, detach_record. cbn. rewrite !list_elem_of_fmap. split.
  - intros (a & -> & Ha). apply list_elem_of_In, filter_In in Ha as [Ha Hn]. apply negb_true_iff, bool_decide_eq_false in Hn.
    apply list_elem_of_In in Ha. eauto.
  - intros ((a & -> & Ha) & Hn). exists a. split; [done|]. apply list_elem_of_In, filter_In.
    rewrite bool_decide_false by done. by split; [apply list_elem_of_In|].
Qed.

Lemma attached_add id now r x : x ∈ attached_ids (add_attachment id now r) ↔ x ∈ attached_ids r ∨ x = id.
Proof. unfold attached_ids, add_attachment. cbn. rewrite fmap_app, elem_of_app. cbn. by rewrite list_elem_of_singleton. Qed.

(** Locking changes neither the record nor the backing of any volume. *)
Lemma lock_attached io name s s' res v : lock_volume io name s = (s', res) → attached v s' = attached v s.
Proof.
  intros El. destruct (lock_volume_dirs _ _ _ _ _ El) as (_ & Hf & Hd & Hn & _). unfold attached.
  destruct (decide (v = name)) as [->|Hne]; [|by rewrite Hf].
  destruct (vs_dirs s !! name) as [d|] eqn:Ed; [|destruct (Hn eq_refl) as [-> _]; by rewrite Ed].
  by destruct (Hd d eq_refl) as [j ->].
Qed.

Lemma attached_read io name s r : readRecord io name s = Ok r → attached name s = attached_ids r.
Proof. intros (d & Hd & Hm)%readRecord_Ok. unfold attached. by rewrite Hd; cbn; rewrite Hm. Qed.

Lemma update_locked_spec io f name s s' :
  vols_wf s → (∀ r, vr_Name (f r) = vr_Name r) → update_locked io f name s = (s', Ok tt) →
  rewritten f name s s' ∨ (attached name s = [] ∧ attached name s' = []).
Proof.
  intros Hwf Hf. unfold update_locked. destruct (lock_volume io name s) as [s1 [i|e]] eqn:El.
  - pose proof (lock_attached _ _ _ _ _ name El) as Ha. destruct (readRecord io name s1) as [r|e] eqn:Er.
    + intros Hw. left. by eapply locked_write.
    + destruct e; try done. intros [= <-]. right. apply readRecord_NotExist in Er. rewrite <- Ha. unfold attached. by rewrite Er.
  - destruct e; try done. intros [= <-]. right. pose proof (lock_attached _ _ _ _ _ name El) as Ha. rewrite <- Ha.
    destruct (lock_volume_dirs _ _ _ _ _ El) as (_ & _ & Hd & Hn & _). unfold attached.
    destruct (vs_dirs s !! name) as [d|] eqn:Ed; [|destruct (Hn eq_refl) as [-> _]; by rewrite Ed].
    exfalso. unfold lock_volume in El. rewrite Ed in El. destruct (io COpenLock); [done|].
    destruct (vd_lock d); destruct (io CFlock); try done; case_bool_decide; done.
Qed.

Lemma attached_written name r d s :
  attached name (set_dirs (<[name := set_meta (Some (MetaDoc r)) d]> (vs_dirs s)) s) = attached_ids r.
Proof. unfold attached. cbn [vs_dirs set_dirs]. by rewrite lookup_insert_eq. Qed.

Lemma AttachAndPrune_spec io now name id prune s s' :
  vols_wf s → AttachAndPrune io now name id prune s = (s', Ok tt) →
  ∀ x, x ∈ attached name s' ↔ (x ∈ attached name s ∧ x ∉ prune) ∨ x = id.
Proof.
  intros Hwf. unfold AttachAndPrune. destruct (readRecord io name s) as [r|] eqn:Er; [|done]. intros Hw x.
  destruct (readRecord_Ok _ _ _ _ Er) as (d & Hd & Hm). assert (Hrn : vr_Name r = name) by (destruct Hwf as [Hn _]; eauto).
  rewrite (attached_read _ _ _ _ Er). set (r1 := set_Attachments _ r) in Hw.
  assert (Hr1 : ∀ x, x ∈ attached_ids r1 ↔ x ∈ attached_ids r ∧ x ∉ prune).
  { intros y. unfold attached_ids, r1. cbn. rewrite !list_elem_of_fmap. split.
    - intros (a & -> & Ha). apply list_elem_of_In, filter_In in Ha as [Ha Hn]. apply negb_true_iff, bool_decide_eq_false in Hn.
      apply list_elem_of_In in Ha. eauto.
    - intros ((a & -> & Ha) & Hn). exists a. split; [done|]. apply list_elem_of_In, filter_In.
      rewrite bool_decide_false by done. by split; [apply list_elem_of_In|]. }
  apply writeRecord_Ok in Hw as (d1 & _ & ->). destruct (is_attached id r1) eqn:Ea.
  - change (vr_Name r1) with (vr_Name r). rewrite Hrn, attached_written, Hr1. apply is_attached_elem, Hr1 in Ea.
    split; [by left|]. intros [?| ->]; done.
  - change (vr_Name (add_attachment id now r1)) with (vr_Name r). by rewrite Hrn, attached_written, attached_add, Hr1.
Qed.

Lemma Rm_spec io name s s' res d :
  vs_dirs s !! name = Some d → Rm io name s = (s', res) →
  (attached name s ≠ [] → res ≠ Ok tt ∧ ∃ j, vs_dirs s' !! name = Some (set_lock j d)) ∧
  (res = Ok tt → vs_dirs s' !! name = None).
Proof.
  intros Hd. unfold Rm. destruct (lock_volume io name s) as [s1 [i|e]] eqn:El;
    destruct (lock_volume_dirs _ _ _ _ _ El) as (_ & _ & Hdir & _); destruct (Hdir d Hd) as [j Hj].
  - pose proof (lock_attached _ _ _ _ _ name El) as Ha. destruct (readRecord io name s1) as [r|e] eqn:Er; last first.
    { intros [= <- <-]. split; [intros _; split; [done|by eauto]|done]. }
    rewrite <- Ha, (attached_read _ _ _ _ Er). destruct (attached_ids r) as [|x l]; [|intros [= <- <-]; split; [intros _; split; [done|by eauto]|done]].
    intros Hr. split; [done|]. intros ->. unfold remove_volume in Hr. destruct (run_calls _ _ _ _) as [s2 [u|e]]; [|done].
    destruct (io CRemoveDir); [done|]. injection Hr as <-. cbn. apply lookup_delete_eq.
  - intros [= <- <-]. split; [intros _; split; [done|by eauto]|done].
Qed.

(** attachments behave as a set, and an attached volume cannot be removed.  When they report
    success [Attach] and [AttachLocked] add the sandbox, [Detach] removes it,
    [AttachAndPrune] adds it and drops the stale ones, and nothing else changes in the set;
    [AttachLocked] returns the volume's lock held; [Rm] never succeeds and keeps the record
    and the backing as long as any sandbox is attached, and leaves nothing when it
    succeeds. *)
Lemma attachment_ops_spec io now name id prune s :
  vols_wf s →
  (∀ s', Attach io now name id s = (s', Ok tt) → ∀ x, x ∈ attached name s' ↔ x ∈ attached name s ∨ x = id) ∧
  (∀ s' i, AttachLocked io now name id s = (s', Ok i) →
     (∀ x, x ∈ attached name s' ↔ x ∈ attached name s ∨ x = id) ∧ i ∈ vs_held s' ∧ i ∉ vs_held s) ∧
  (∀ s', Detach io name id s = (s', Ok tt) → ∀ x, x ∈ attached name s' ↔ x ∈ attached name s ∧ x ≠ id) ∧
  (∀ s', AttachAndPrune io now name id prune s = (s', Ok tt) →
     ∀ x, x ∈ attached name s' ↔ (x ∈ attached name s ∧ x ∉ prune) ∨ x = id) ∧
  (∀ s' res d, vs_dirs s !! name = Some d → Rm io name s = (s', res) →
     (attached name s ≠ [] → res ≠ Ok tt ∧ ∃ j, vs_dirs s' !! name = Some (set_lock j d)) ∧
     (res = Ok tt → vs_dirs s' !! name = None)).
Proof.
  intros Hwf. split; [|split; [|split; [|split]]].
  - intros s'. unfold Attach. destruct (lock_volume io name s) as [s1 [i|]] eqn:El; [|done].
    pose proof (lock_attached _ _ _ _ _ name El) as Ha. destruct (readRecord io name s1) as [r|] eqn:Er; [|done].
    destruct (is_attached id r) eqn:Eat.
    + intros [= <-] x. rewrite Ha. rewrite <- Ha, (attached_read _ _ _ _ Er). apply is_attached_elem in Eat.
      split; [by left|]. intros [?| ->]; done.
    + intros Hw x. destruct (rewritten_attached _ _ _ _ (locked_write io (add_attachment id now) name s s1 i r s' Hwf El Er eq_refl Hw))
        as (r' & -> & ->). apply attached_add.
  - intros s' i. unfold AttachLocked. destruct (lock_volume io name s) as [s1 [j|]] eqn:El; [|done].
    destruct (lock_volume_dirs _ _ _ _ _ El) as (_ & _ & _ & _ & Hok & _). destruct (Hok j eq_refl) as [Hfree _].
    pose proof (lock_attached _ _ _ _ _ name El) as Ha. destruct (readRecord io name s1) as [r|] eqn:Er; [|done].
    destruct (is_attached id r) eqn:Eat.
    + intros [= <- <-]. split; [|split; [set_solver|done]]. intros x. change (attached name (hold_lock j s1)) with (attached name s1).
      rewrite <- Ha, (attached_read _ _ _ _ Er). apply is_attached_elem in Eat. split; [by left|]. intros [?| ->]; done.
    + destruct (writeRecord io (add_attachment id now r) s1) as [s2 [[]|]] eqn:Ew; [|done]. intros [= <- <-].
      split; [|split; [set_solver|done]]. intros x. change (attached name (hold_lock j s2)) with (attached name s2).
      destruct (rewritten_attached _ _ _ _ (locked_write io (add_attachment id now) name s s1 j r s2 Hwf El Er eq_refl Ew))
        as (r' & -> & ->). apply attached_add.
  - intros s' Hd x. destruct (update_locked_spec io (detach_record id) name s s' Hwf (λ _, eq_refl) Hd) as [Hr|[-> ->]].
    + destruct (rewritten_attached _ _ _ _ Hr) as (r & -> & ->). apply attached_detach.
    + rewrite !elem_of_nil. tauto.
  - intros s'. by apply AttachAndPrune_spec.
  - intros s' res d. apply Rm_spec.
Qed.

(** Removing a volume unlinks its lock file.  A process that had opened it and waits gets
    the lock of the old inode, while the volume created again has a new one: two
    processes hold the lock of one volume. *)
Definition locked_volume : VolumeStore :=
  mkVols {["v" := mkVolDir (Some (MetaDoc (mkVolumeRecord "v" KindDisk 1 "" [] 1))) true false (Some 1%positive)]} ∅ 2.

Lemma volume_lock_not_exclusive :
  ∃ s1 s2 r s4 j, Rm (λ _, false) "v" locked_volume = (s1, Ok tt) ∧
    Create (λ _, false) (2 ^ 40) 0 2 "v" KindDisk 0 "" s1 = (s2, Ok r) ∧ 1%positive ∉ vs_held s2 ∧
    AttachLocked (λ _, false) 3 "v" "B" (hold_lock 1 s2) = (s4, Ok j) ∧ j ≠ 1%positive ∧ {[1%positive; j]} ⊆ vs_held s4.
Proof.
  do 5 eexists. split; [vm_compute; reflexivity|]. split; [vm_compute; reflexivity|]. split; [apply (bool_decide_unpack _); by vm_compute|].
  split; [vm_compute; reflexivity|]. split; [done|]. apply (bool_decide_unpack _). by vm_compute.
Qed.

(** ** Witnesses *)

Definition no_fails : Fails := λ _, false.

Definition example_volumes : VolumeStore := (Attach no_fails 7 "data" "A" (Create no_fails (2 ^ 40) 0 1 "data" KindDisk 0 "" empty_store).1).1.

Lemma example_volumes_reached : rtc vol_step empty_store example_volumes.
Proof. unfold example_volumes. eapply rtc_l; [apply vst_create|]. eapply rtc_l; [apply (vst_attach no_fails 7 "data" "A"); vm_compute; reflexivity|]. apply rtc_refl. Qed.

Lemma volume_store_invariant_witness :
  rtc vol_step empty_store example_volumes ∧
  ∀ d r, vs_dirs example_volumes !! "data"%string = Some d → vd_meta d = Some (MetaDoc r) → vr_Name r = "data"%string.
Proof.
  split; [exact example_volumes_reached|]. destruct (volume_store_invariant _ example_volumes_reached) as [H _].
  intros d r. apply H.
Defined.

Lemma Create_volume_spec_witness :
  ∃ s' r, Create no_fails (2 ^ 40) 0 1 "data" KindDisk 0 "" empty_store = (s', Ok r) ∧ vr_Kind r = KindDisk.
Proof.
  destruct (Create no_fails (2 ^ 40) 0 1 "data" KindDisk 0 "" empty_store) as [s' res] eqn:E.
  assert (Hres : ∃ r, res = Ok r) by (vm_compute in E; injection E as <- <-; eauto). destruct Hres as [r ->].
  exists s', r. split; [done|]. apply (Create_volume_spec _ _ _ _ _ _ _ _ _ _ _ E).
Defined.

Lemma attachment_ops_spec_witness :
  vols_wf example_volumes ∧ ∃ s', Attach no_fails 8 "data" "B" example_volumes = (s', Ok tt) ∧ "B"%string ∈ attached "data" s'.
Proof.
  assert (Hwf : vols_wf example_volumes).
  { apply (rtc_invariant _ vols_inv vol_step_inv _ _ example_volumes_reached). split; [|by intros v []].
    split; [|split]; intros *; done. }
  split; [exact Hwf|]. destruct (Attach no_fails 8 "data" "B" example_volumes) as [s' res] eqn:E.
  assert (Hres : res = Ok tt) by (apply (f_equal snd) in E; vm_compute in E; congruence). subst res.
  exists s'. split; [done|]. destruct (attachment_ops_spec no_fails 8 "data" "B" [] example_volumes Hwf) as [H _].
  apply (H s' E). by right.
Defined.

(** A volume whose lock a create holds. *)
Lemma prune_protects_witness :
  let s := hold_lock 1 example_volumes in
  ∃ d, vs_dirs s !! "data"%string = Some d ∧
    vs_dirs (Prune (λ _, no_fails) (mkPruneOptions true true) no_fails [] s).1 !! "data"%string = Some d.
Proof.
  cbv zeta. destruct (vs_dirs (hold_lock 1 example_volumes) !! "data"%string) as [d|] eqn:Ed; [|by vm_compute in Ed].
  exists d. split; [done|]. destruct (Prune _ _ _ _ _) as [s' res] eqn:E.
  apply (prune_protects _ _ _ _ _ _ _ _ _ E Ed). right. left. exists 1%positive.
  split; [vm_compute in Ed; by injection Ed as <-|]. apply (bool_decide_unpack _). by vm_compute.
Defined.
