(* ===== verification/VolumeGuard.v ===== *)
(** * internal/core/service/volume_guard.go: one writer per disk volume

    Before a sandbox may use a disk volume read-write, the guard takes the volume's
    lock, judges every sandbox the volume's record lists, and records the new one.  A
    listed sandbox blocks if its record says it is live, or if it has no record and its
    create may be in flight: that is what the lock on its create-intent file tells.

    The listing of sandboxes and the probe of an intent file are arguments; texts of the
    conflicts are constructors. *)

From stdpp Require Import prelude gmap strings list.
From Stdlib Require Import ZArith Ascii Lia.
From S2P Require Import Prelude GoStrings Domain Sandbox Volumes.

Inductive intentLeaseState := leaseFree | leaseHeld | leaseUnknown.

#[global] Instance intentLeaseState_eq_dec : EqDecision intentLeaseState.
Proof. solve_decision. Defined.

(** What opening and locking an intent file without waiting returned. *)
Inductive probe_open := OpenENOENT | OpenError | OpenOk (flock : option bool). (** [Some true]: would block *)

Definition probeIntentLease (o : probe_open) : intentLeaseState :=
  match o with
  | OpenENOENT => leaseFree
  | OpenError => leaseUnknown
  | OpenOk None => leaseFree
  | OpenOk (Some true) => leaseHeld
  | OpenOk (Some false) => leaseUnknown
  end.

Inductive guard_error :=
| ConflictLive (id : string) (st : State)
| ConflictInFlight (id : string)
| ConflictUnreadable (id : string)
| GuardVolume (e : vol_error)
| GuardList.

Definition isVolumeLiveRecord (sb : Sandbox) : bool :=
  bool_decide (SState sb = Running) || bool_decide (SState sb = Paused).

(** The verdict on one listed sandbox: a conflict, or whether the entry is stale. *)
Definition evalVerdictRows14 (lease : string → intentLeaseState) (attID : string) (sb : option Sandbox)
    : result guard_error bool :=
  match sb with
  | Some sb => if isVolumeLiveRecord sb then Err (ConflictLive attID (SState sb)) else Ok false
  | None => match lease attID with
            | leaseHeld => Err (ConflictInFlight attID)
            | leaseUnknown => Err (ConflictUnreadable attID)
            | leaseFree => Ok true
            end
  end.

(** The last record of an identifier, as the map of the source is filled. *)
Definition sbMap (sbs : list Sandbox) (id : string) : option Sandbox :=
  last (List.filter (λ sb, bool_decide (SandboxID_String (ID sb) = id)) sbs).

(** The loop over the attachments: the stale entries, or the first conflict. *)
Fixpoint verdicts (lease : string → intentLeaseState) (sbs : list Sandbox) (sandboxID : string) (ids : list string)
    : result guard_error (list string) :=
  match ids with
  | [] => Ok []
  | id :: ids =>
      if bool_decide (id = sandboxID) then verdicts lease sbs sandboxID ids
      else
        let* stale := evalVerdictRows14 lease id (sbMap sbs id) in
        let* l := verdicts lease sbs sandboxID ids in
        Ok (if stale then id :: l else l)
  end.

(** [sbs] is [None] if the listing failed. *)
Definition applyRWVerdictTable (io : Fails) (now : Time) (lease : string → intentLeaseState)
    (sbs : option (list Sandbox)) (name sandboxID : string) (s : VolumeStore) : VolumeStore * result guard_error unit :=
  match Get io name s with
  | Err e => (s, Err (GuardVolume e))
  | Ok rec =>
      match sbs with
      | None => (s, Err GuardList)
      | Some sbs =>
          match verdicts lease sbs sandboxID (attached_ids rec) with
          | Err e => (s, Err e)
          | Ok stale => match AttachAndPrune io now name sandboxID stale s with
                        | (s, Err e) => (s, Err (GuardVolume e))
                        | (s, Ok _) => (s, Ok tt)
                        end
          end
      end
  end.

(** The lock stays with the caller on success. *)
Definition checkRWAttach (io : Fails) (now : Time) (lease : string → intentLeaseState)
    (sbs : option (list Sandbox)) (name sandboxID : string) (s : VolumeStore) : VolumeStore * result guard_error positive :=
  match lock_volume io name s with
  | (s, Err e) => (s, Err (GuardVolume e))
  | (s, Ok i) =>
      match applyRWVerdictTable io now lease sbs name sandboxID s with
      | (s, Err e) => (s, Err e)
      | (s, Ok _) => (hold_lock i s, Ok i)
      end
  end.

(** Without the lock and without writing; failures to read never block. *)
Definition preCheckRWAttachUnlocked (io : Fails) (lease : string → intentLeaseState) (sbs : option (list Sandbox))
    (name sandboxID : string) (s : VolumeStore) : result guard_error unit :=
  match Get io name s, sbs with
  | Ok rec, Some sbs => let* _ := verdicts lease sbs sandboxID (attached_ids rec) in Ok tt
  | _, _ => Ok tt
  end.

(** ** What a passed guard means *)

(** A listed sandbox that blocks others. *)
Definition blocks (lease : string → intentLeaseState) (sbs : list Sandbox) (id : string) : Prop :=
  match sbMap sbs id with
  | Some sb => isVolumeLiveRecord sb = true
  | None => lease id ≠ leaseFree
  end.

Definition gone (lease : string → intentLeaseState) (sbs : list Sandbox) (id : string) : Prop :=
  sbMap sbs id = None ∧ lease id = leaseFree.

Lemma evalVerdict_Ok lease sbs id b :
  evalVerdictRows14 lease id (sbMap sbs id) = Ok b → ¬ blocks lease sbs id ∧ (b = true ↔ gone lease sbs id).
Proof.
  unfold evalVerdictRows14, blocks, gone. destruct (sbMap sbs id) as [sb|].
  - destruct (isVolumeLiveRecord sb); [done|]. intros [= <-]. naive_solver.
  - destruct (lease id); [|done|done]. intros [= <-]. naive_solver.
Qed.

Lemma evalVerdict_Err lease sbs id e : evalVerdictRows14 lease id (sbMap sbs id) = Err e → blocks lease sbs id.
Proof.
  unfold evalVerdictRows14, blocks. destruct (sbMap sbs id) as [sb|]; [by destruct (isVolumeLiveRecord sb)|].
  by destruct (lease id).
Qed.

Lemma verdicts_Ok lease sbs own ids stale :
  verdicts lease sbs own ids = Ok stale →
  (∀ id, id ∈ ids → id ≠ own → ¬ blocks lease sbs id) ∧
  (∀ id, id ∈ stale ↔ id ∈ ids ∧ id ≠ own ∧ gone lease sbs id).
Proof.
  revert stale. induction ids as [|id ids IH]; intros stale; cbn [verdicts].
  { intros [= <-]. split; intros ?; rewrite ?elem_of_nil; [done|tauto]. }
  case_bool_decide as Hown.
  - intros [IH1 IH2]%IH. split.
    + intros x [->|Hx]%elem_of_cons; [done|by apply IH1].
    + intros x. rewrite IH2, elem_of_cons. naive_solver.
  - destruct (evalVerdictRows14 lease id (sbMap sbs id)) as [b|] eqn:Ev; [|done]. cbn [rbind].
    destruct (verdicts lease sbs own ids) as [l|] eqn:El; [|done]. intros [= <-].
    destruct (evalVerdict_Ok _ _ _ _ Ev) as [Hnb Hb]. destruct (IH l eq_refl) as [IH1 IH2]. split.
    + intros x [->|Hx]%elem_of_cons Hne; [done|by apply IH1].
    + intros x. destruct b; rewrite ?elem_of_cons, IH2; [naive_solver|].
      split; [naive_solver|]. intros ([->|Hx] & Hne & Hg); [|done]. by apply Hb in Hg.
Qed.

Lemma verdicts_Err lease sbs own ids e :
  verdicts lease sbs own ids = Err e → ∃ id, id ∈ ids ∧ id ≠ own ∧ blocks lease sbs id.
Proof.
  induction ids as [|id ids IH]; cbn [verdicts]; [done|]. case_bool_decide as Hown.
  { intros (x & Hx & Hb)%IH. exists x. split; [by right|done]. }
  destruct (evalVerdictRows14 lease id (sbMap sbs id)) as [b|e'] eqn:Ev; cbn [rbind].
  - destruct (verdicts lease sbs own ids); [done|]. intros (x & Hx & Hb)%IH. exists x. split; [by right|done].
  - intros _. exists id. split; [by left|]. split; [done|]. by eapply evalVerdict_Err.
Qed.

Lemma checkRWAttach_facts io now lease sbs name id s s' res :
  vols_wf s → checkRWAttach io now lease (Some sbs) name id s = (s', res) →
  (∀ i, res = Ok i →
     i ∈ vs_held s' ∧ i ∉ vs_held s ∧
     (∀ x, x ∈ attached name s → x ≠ id → ¬ blocks lease sbs x) ∧
     (∀ x, x ∈ attached name s' ↔ (x ∈ attached name s ∧ (x ≠ id → ¬ gone lease sbs x)) ∨ x = id)) ∧
  ((∃ x, x ∈ attached name s ∧ x ≠ id ∧ blocks lease sbs x) →
     is_ok res = false ∧ ∀ v, attached v s' = attached v s).
Proof.
  intros Hwf. unfold checkRWAttach. destruct (lock_volume io name s) as [s1 [i|e]] eqn:El; last first.
  { intros [= <- <-]. split; [done|]. intros _. split; [done|]. intros v. by eapply lock_attached. }
  destruct (lock_volume_dirs _ _ _ _ _ El) as (Hh & _ & _ & _ & Hok & Hw). destruct (Hok i eq_refl) as [Hfree _].
  assert (Hat : ∀ v, attached v s1 = attached v s) by (intros v; by eapply lock_attached).
  unfold applyRWVerdictTable, Get. destruct (readRecord io name s1) as [rec|e] eqn:Er; [|by intros [= <- <-]].
  pose proof (attached_read _ _ _ _ Er) as Ha. rewrite Hat in Ha.
  destruct (verdicts lease sbs id (attached_ids rec)) as [stale|e] eqn:Ev; [|by intros [= <- <-]].
  destruct (verdicts_Ok _ _ _ _ _ Ev) as [Hnb Hst].
  destruct (AttachAndPrune io now name id stale s1) as [s2 [[]|e]] eqn:Eap; intros [= <- <-]; rewrite Ha.
  - split; [|intros (x & Hx & Hne & Hb); by destruct (Hnb x Hx Hne)]. intros i' [= <-].
    split; [set_solver|]. split; [done|]. split; [done|]. intros x.
    change (attached name (hold_lock i s2)) with (attached name s2).
    rewrite (AttachAndPrune_spec _ _ _ _ _ _ _ (Hw Hwf) Eap x), Hat, Ha, Hst.
    destruct (decide (x = id)) as [->|Hne]; [tauto|]. naive_solver.
  - split; [done|]. intros (x & Hx & Hne & Hb). by destruct (Hnb x Hx Hne).
Qed.

(** the guard of a read-write volume.  When it passes, no other sandbox listed for the volume
    is live or may be in flight, exactly the entries of vanished sandboxes are dropped and the
    caller is recorded, all under the volume's lock, which is handed on held; when
    a listed sandbox blocks it refuses and leaves every list of attachments as it was. *)
Lemma checkRWAttach_spec io now lease sbs name id s s' res :
  vols_wf s → checkRWAttach io now lease (Some sbs) name id s = (s', res) →
  (∀ i, res = Ok i →
     i ∈ vs_held s' ∧ i ∉ vs_held s ∧
     (∀ x, x ∈ attached name s → x ≠ id → ¬ blocks lease sbs x) ∧
     (∀ x, x ∈ attached name s' ↔ (x ∈ attached name s ∧ (x ≠ id → ¬ gone lease sbs x)) ∨ x = id)) ∧
  ((∃ x, x ∈ attached name s ∧ x ≠ id ∧ blocks lease sbs x) →
     is_ok res = false ∧ ∀ v, attached v s' = attached v s).
Proof. apply checkRWAttach_facts. Qed.

(** The guard keeps the store well formed and leaves the lists of the other volumes alone. *)
Lemma AttachAndPrune_other io now name id prune s s' res v :
  vols_wf s → AttachAndPrune io now name id prune s = (s', res) → v ≠ name → attached v s' = attached v s.
Proof.
  intros Hwf. unfold AttachAndPrune. destruct (readRecord io name s) as [r|] eqn:Er; [|by intros [= <- <-]].
  assert (Hrn : vr_Name r = name).
  { destruct (readRecord_Ok _ _ _ _ Er) as (d & Hd & Hm). destruct Hwf as [Hn _]. eauto. }
  cbv zeta. set (r' := if is_attached id _ then _ else _). assert (Hr' : vr_Name r' = name) by (unfold r'; by case_match).
  destruct (writeRecord io r' s) as [s1 [[]|e]] eqn:Ew; intros [= <- <-] Hne.
  - apply writeRecord_Ok in Ew as (d & _ & ->). unfold attached. cbn. by rewrite lookup_insert_ne by congruence.
  - by apply writeRecord_Err in Ew as ->.
Qed.

Lemma inv_checkRWAttach io now lease sbs name id s : vols_inv s → vols_inv (checkRWAttach io now lease sbs name id s).1.
Proof.
  intros Hinv. unfold checkRWAttach. pose proof (inv_lock io name s Hinv) as H1.
  destruct (lock_volume io name s) as [s1 [i|e]]; [|done]. cbn in H1.
  unfold applyRWVerdictTable. destruct (Get io name s1); [|done]. destruct sbs as [sbs|]; [|done].
  destruct (verdicts _ _ _ _) as [stale|]; [|done]. pose proof (inv_AttachAndPrune io now name id stale s1 H1) as H2.
  destruct (AttachAndPrune io now name id stale s1) as [s2 [[]|]]; [|done]. by apply inv_held.
Qed.

Lemma checkRWAttach_other io now lease sbs name id s s' res v :
  vols_wf s → checkRWAttach io now lease sbs name id s = (s', res) → v ≠ name → attached v s' = attached v s.
Proof.
  intros Hwf. unfold checkRWAttach. destruct (lock_volume io name s) as [s1 [i|e]] eqn:El.
  - destruct (lock_volume_dirs _ _ _ _ _ El) as (_ & _ & _ & _ & _ & Hw).
    unfold applyRWVerdictTable. rewrite <- (lock_attached _ _ _ _ _ v El).
    destruct (Get io name s1); [|by intros [= <- <-]]. destruct sbs as [sbs|]; [|by intros [= <- <-]].
    destruct (verdicts _ _ _ _) as [stale|]; [|by intros [= <- <-]].
    destruct (AttachAndPrune io now name id stale s1) as [s2 r2] eqn:Ea. intros Heq Hne.
    pose proof (AttachAndPrune_other _ _ _ _ _ _ _ _ v (Hw Hwf) Ea Hne) as <-. destruct r2; by injection Heq as <- <-.
  - intros [= <- <-] _. by eapply lock_attached.
Qed.

(** ** Witness *)

Definition running_sandbox (id : SandboxID) (st : State) : Sandbox :=
  mkSandbox id "a" "p" ∅ st (mkEnvelope "" [] "" [] [] [] false "" [] ∅) "" false false StopReasonNone None
    0 "" 0 0 "" "" 0 "" "" "" 0 "" [] [] "" [].

Definition id_A : SandboxID := replicate 16 "A"%char.
Definition id_B : SandboxID := replicate 16 "B"%char.

(** A volume used by A; B is refused while A runs. *)
Definition shared_volume : VolumeStore :=
  (Attach no_fails 7 "data" (SandboxID_String id_A) (Create no_fails (2 ^ 40) 0 1 "data" KindDisk 0 "" empty_store).1).1.

Lemma shared_volume_wf : vols_wf shared_volume.
Proof.
  apply (rtc_invariant vol_step vols_inv vol_step_inv empty_store).
  - unfold shared_volume. eapply rtc_l; [apply vst_create|]. eapply rtc_l; [apply (vst_attach no_fails 7 "data" (SandboxID_String id_A)); vm_compute; reflexivity|]. apply rtc_refl.
  - split; [|by intros v []]. split; [|split]; intros *; done.
Qed.

Lemma checkRWAttach_spec_witness :
  vols_wf shared_volume ∧
  is_ok (checkRWAttach no_fails 9 (λ _, leaseFree) (Some [running_sandbox id_A Running]) "data" (SandboxID_String id_B)
           shared_volume).2 = false.
Proof.
  split; [exact shared_volume_wf|].
  destruct (checkRWAttach no_fails 9 (λ _, leaseFree) (Some [running_sandbox id_A Running]) "data" (SandboxID_String id_B)
              shared_volume) as [s' res] eqn:E.
  apply (checkRWAttach_spec _ _ _ _ _ _ _ _ _ shared_volume_wf E). exists (SandboxID_String id_A).
  split; [apply (bool_decide_unpack _); by vm_compute|]. split; [apply (bool_decide_unpack _); by vm_compute|].
  unfold blocks. vm_compute. done.
Defined.
