(* ===== verification/Disks.v ===== *)
(** * internal/core/service, internal/core/diskname: the disks of a sandbox

    Names of the files a sandbox owns below the state root ([disk.go], [diskname.go],
    [shadow_intent.go], [intent.go], [fork_shadow_plan.go]) and the index the reaper builds
    from them ([resource_index.go]).

    A directory is the set of its file names and the set of its subdirectory names; a path is a
    directory of the index and a name in it.  The lock on an intent file is modelled where
    processes interleave, in Reap. *)

From stdpp Require Import prelude gmap strings list sorting.
From Stdlib Require Import ZArith Ascii Lia.
From S2P Require Import Prelude GoStrings Domain Sandbox.

(** ** Names *)

Definition raw_name (id : SandboxID) : string := SandboxID_String id +:+ ".raw".
Definition workspace_name (id : SandboxID) : string := SandboxID_String id +:+ "-workspace.ext4".
Definition scratch_name (id : SandboxID) : string := SandboxID_String id +:+ "-scratch.ext4".
Definition agentcfg_name (id : SandboxID) : string := SandboxID_String id +:+ "-agentcfg-lower".
(** [IntentPath] *)
Definition IntentName (id : SandboxID) : string := SandboxID_String id +:+ ".create-intent.json".

Definition shadowIntentSuffix : string := ".shadow-intent.json".

(** [strings.ReplaceAll(handle, "/", "_")] *)
Definition SafeHandle (handle : string) : string :=
  of_chars ((λ c, if Ascii.eqb c "/" then "_"%char else c) <$> chars handle).

Definition ShadowIntentName (handle : string) : string := SafeHandle handle +:+ shadowIntentSuffix.

Definition IsShadowDisk (basename : string) : bool := HasSuffix basename ".ext4" && Contains basename ".shadow.".

Definition ShadowDiskSafeHandle (basename : string) : option string :=
  if negb (IsShadowDisk basename) then None
  else if HasSuffix basename ".shadow.ext4" then None
  else match Index basename ".shadow." with
       | Some (S i) => Some (of_chars (take (S i) (chars basename)))
       | _ => None
       end.

(** The image of a shadowed directory, as [buildShadowDiskSpecs] names it. *)
Definition shadow_disk_name (handle safeName : string) : string :=
  SafeHandle handle +:+ ".shadow." +:+ safeName +:+ ".ext4".

(** ** Removing the disks of a sandbox *)

Record Dir := mkDir { d_files : gset string; d_dirs : gset string }.

(** [os.Remove] also removes an empty directory. *)
Definition rm_file (n : string) (d : Dir) : Dir := mkDir (d_files d ∖ {[n]}) (d_dirs d ∖ {[n]}).
Definition rm_dir (n : string) (d : Dir) : Dir := mkDir (d_files d) (d_dirs d ∖ {[n]}).

(** [fails n]: removing [n] fails for another reason than that it is missing. *)
Fixpoint rm_files (fails : string → bool) (ns : list string) (d : Dir) : Dir * bool :=
  match ns with
  | [] => (d, true)
  | n :: ns => if fails n then (d, false) else rm_files fails ns (rm_file n d)
  end.

Definition disk_files (id : SandboxID) : list string :=
  [raw_name id; workspace_name id; IntentName id; scratch_name id].

(** The directory after the call, and whether it succeeded. *)
Definition ReapDiskCopy (fails : string → bool) (id : SandboxID) (d : Dir) : Dir * bool :=
  match rm_files fails (disk_files id) d with
  | (d, false) => (d, false)
  | (d, true) => if fails (agentcfg_name id) then (d, false) else (rm_dir (agentcfg_name id) d, true)
  end.

(** [path.Match] patterns: a star and a question mark stand for characters other than a
    slash, which names of files do not contain. *)
Inductive glob_tok :=
| TStar
| TAny
| TChar (c : ascii)
| TClass (neg : bool) (ranges : list (ascii * ascii)).

(** One character of a class, possibly escaped. *)
Definition class_char (l : bytes) : option (ascii * bytes) :=
  match l with
  | [] => None
  | c :: l =>
      if Ascii.eqb c "-" || Ascii.eqb c "]" then None
      else if Ascii.eqb c "\" then match l with [] => None | c :: l => Some (c, l) end
      else Some (c, l)
  end.

(** The ranges up to the closing bracket, at least one; [fuel] is the length of the text. *)
Fixpoint class_ranges (fuel : nat) (l : bytes) (acc : list (ascii * ascii))
    : option (list (ascii * ascii) * bytes) :=
  match fuel with
  | O => None
  | S fuel =>
      match l with
      | [] => None
      | c :: l' =>
          if Ascii.eqb c "]" && negb (bool_decide (acc = [])) then Some (acc, l')
          else
            match class_char l with
            | None => None
            | Some (lo, l) =>
                match l with
                | d :: l' => if Ascii.eqb d "-" then
                               match class_char l' with
                               | Some (hi, l) => class_ranges fuel l (acc ++ [(lo, hi)])
                               | None => None
                               end
                             else class_ranges fuel l (acc ++ [(lo, lo)])
                | [] => None
                end
            end
      end
  end.

(** [None]: [ErrBadPattern]. *)
Fixpoint glob_parse (fuel : nat) (l : bytes) : option (list glob_tok) :=
  match fuel with
  | O => None
  | S fuel =>
      match l with
      | [] => Some []
      | c :: l =>
          if Ascii.eqb c "*" then cons TStar <$> glob_parse fuel l
          else if Ascii.eqb c "?" then cons TAny <$> glob_parse fuel l
          else if Ascii.eqb c "\" then
            match l with [] => None | c :: l => cons (TChar c) <$> glob_parse fuel l end
          else if Ascii.eqb c "[" then
            let '(neg, l) := match l with c :: l' => if Ascii.eqb c "^" then (true, l') else (false, l) | [] => (false, l) end in
            match class_ranges (length l) l [] with
            | Some (rs, l) => cons (TClass neg rs) <$> glob_parse fuel l
            | None => None
            end
          else cons (TChar c) <$> glob_parse fuel l
      end
  end.

Definition in_range (c : ascii) (r : ascii * ascii) : bool :=
  (byte_val r.1 <=? byte_val c) && (byte_val c <=? byte_val r.2).

Fixpoint glob_match (ts : list glob_tok) (l : bytes) : bool :=
  match ts with
  | [] => match l with [] => true | _ => false end
  | TStar :: ts =>
      (fix star l := glob_match ts l || match l with [] => false | _ :: l => star l end) l
  | t :: ts =>
      match l with
      | [] => false
      | c :: l =>
          match t with
          | TChar d => Ascii.eqb d c
          | TClass neg rs => xorb neg (existsb (in_range c) rs)
          | _ => true
          end && glob_match ts l
      end
  end.

Definition shadow_pattern (sandboxHandle : string) : string := SafeHandle sandboxHandle +:+ ".shadow.*.ext4".

(** [filepath.Glob] in the disk directory, sorted; a malformed pattern is an error. *)
Definition glob_le (a b : string) : Prop := String.leb a b = true.
#[global] Instance glob_le_dec : RelDecision glob_le.
Proof. intros a b. apply bool_eq_dec. Defined.

Definition Glob (pattern : string) (d : Dir) : option (list string) :=
  let l := chars pattern in
  match glob_parse (S (length l)) l with
  | None => None
  | Some ts => Some (merge_sort glob_le (List.filter (λ n, glob_match ts (chars n)) (elements (d_files d ∪ d_dirs d))))
  end.

Definition ReapShadowDisks (fails : string → bool) (sandboxHandle : string) (d : Dir) : Dir * bool :=
  match Glob (shadow_pattern sandboxHandle) d with
  | None => (d, true)
  | Some matches => rm_files fails matches d
  end.

(** ** The index of host resources *)

Inductive ResourceKind :=
| KindDiskRaw | KindDiskWorkspace | KindDiskShadow | KindCreateIntent | KindShadowIntent
| KindSocketAPI | KindSocketVSock | KindSocketIID | KindBuilderSupervisor | KindDiskScratch
| KindSupervisorState | KindNetnsProcess.

#[global] Instance ResourceKind_eq_dec : EqDecision ResourceKind.
Proof. solve_decision. Defined.

Inductive place := Disks | Sockets | BuilderSupervisors | Supervisors.

#[global] Instance place_eq_dec : EqDecision place.
Proof. solve_decision. Defined.

(** The owner is [None] where the source has the zero identifier. *)
Record HostResource := mkResource {
  hr_Kind : ResourceKind;
  hr_Path : place * string;
  hr_OwnerID : option SandboxID;
  hr_ShadowHandle : string;
}.

(** A resource whose name is an identifier and a suffix. *)
Definition owned_resource (k : ResourceKind) (p : place) (name suffix : string) : option HostResource :=
  match ParseSandboxID (TrimSuffix name suffix) with
  | Ok id => Some (mkResource k (p, name) (Some id) "")
  | Err _ => None
  end.

Definition disk_resource (name : string) : option HostResource :=
  if HasSuffix name ".raw" then owned_resource KindDiskRaw Disks name ".raw"
  else if HasSuffix name "-workspace.ext4" then owned_resource KindDiskWorkspace Disks name "-workspace.ext4"
  else if HasSuffix name "-scratch.ext4" then owned_resource KindDiskScratch Disks name "-scratch.ext4"
  else if HasSuffix name shadowIntentSuffix then
    Some (mkResource KindShadowIntent (Disks, name) None (TrimSuffix name shadowIntentSuffix))
  else if IsShadowDisk name then
    Some (mkResource KindDiskShadow (Disks, name) None (default ""%string (ShadowDiskSafeHandle name)))
  else if HasSuffix name ".create-intent.json" then owned_resource KindCreateIntent Disks name ".create-intent.json"
  else None.

Definition socket_resource (name : string) : option HostResource :=
  if HasSuffix name ".sock" then owned_resource KindSocketAPI Sockets name ".sock"
  else if HasSuffix name ".vsock" then owned_resource KindSocketVSock Sockets name ".vsock"
  else if HasSuffix name ".iid" then owned_resource KindSocketIID Sockets name ".iid"
  else None.

Definition dir_resource (k : ResourceKind) (p : place) (name : string) : option HostResource :=
  match ParseSandboxID name with
  | Ok id => Some (mkResource k (p, name) (Some id) "")
  | Err _ => None
  end.

(** [os.ReadDir] sorts by name. *)
Definition read_names (s : gset string) : list string := merge_sort glob_le (elements s).

(** The four directories; a missing one reads as empty. *)
Record StateRoot := mkStateRoot { sr_dirs : place → Dir }.

(** [List]: [None] if a directory cannot be read. *)
Definition index_list (unreadable : place → bool) (r : StateRoot) : option (list HostResource) :=
  if existsb unreadable [Disks; Sockets; BuilderSupervisors; Supervisors] then None
  else Some (
    omap disk_resource (read_names (d_files (sr_dirs r Disks))) ++
    omap socket_resource (read_names (d_files (sr_dirs r Sockets))) ++
    omap (dir_resource KindBuilderSupervisor BuilderSupervisors) (read_names (d_dirs (sr_dirs r BuilderSupervisors))) ++
    omap (dir_resource KindSupervisorState Supervisors) (read_names (d_dirs (sr_dirs r Supervisors)))).

(** ** Fork plans *)

Definition parentShadowDiskNames (handle : string) (d : Dir) : list string :=
  List.filter (λ n, bool_decide (ShadowDiskSafeHandle n = Some (SafeHandle handle))) (read_names (d_files d)).

Definition child_name (childID : SandboxID) (name : string) : string := SandboxID_String childID +:+ "-" +:+ name.

Definition childShadowPlan (childID : SandboxID) (parentNames : list string) : string * list string :=
  match parentNames with
  | [] => (""%string, [])
  | n :: _ => match ShadowDiskSafeHandle (child_name childID n) with
              | Some h => (h, child_name childID <$> parentNames)
              | None => (""%string, [])
              end
  end.

(** Every position of a dash is tried. *)
Fixpoint owner_prefix (pre l : bytes) : option SandboxID :=
  match l with
  | [] => None
  | c :: l =>
      if Ascii.eqb c "-" then
        match ParseSandboxID (of_chars pre) with
        | Ok id => Some id
        | Err _ => owner_prefix (pre ++ [c]) l
        end
      else owner_prefix (pre ++ [c]) l
  end.

Definition forkChildShadowOwner (safeHandle : string) : option SandboxID := owner_prefix [] (chars safeHandle).

(** ** Names and owners *)

Lemma id_chars id : ∃ l, chars (SandboxID_String id) = ["s"; "b"; "-"]%char ++ l ∧ length l = 26%nat ∧
  "-"%char ∉ l ∧ "."%char ∉ l ∧ "/"%char ∉ l.
Proof.
  exists (chars (crockfordEncode id)). unfold SandboxID_String. rewrite chars_app. split; [done|].
  split; [apply length_crockfordEncode|]. unfold crockfordEncode. rewrite chars_of_chars.
  assert (Ha : ∀ v, alphabet_at v ≠ "-"%char ∧ alphabet_at v ≠ "."%char ∧ alphabet_at v ≠ "/"%char).
  { intros v. unfold alphabet_at. destruct (chars crockfordAlphabet !! Z.to_nat v) as [c|] eqn:E; [|by vm_compute].
    apply list_elem_of_lookup_2 in E.
    assert (Hall : Forall (λ c, c ≠ "-"%char ∧ c ≠ "."%char ∧ c ≠ "/"%char) (chars crockfordAlphabet))
      by (apply (bool_decide_unpack _); by vm_compute).
    exact (proj1 (Forall_forall _ _) Hall c E). }
  split_and!; intros (i & Hi & _)%list_elem_of_fmap; destruct (Ha (crockford_group id (Z.of_nat i))) as (? & ? & ?); congruence.
Qed.

Lemma id_length id : length (chars (SandboxID_String id)) = 29%nat.
Proof. destruct (id_chars id) as (l & -> & Hl & _). by rewrite length_app, Hl. Qed.

Lemma id_name_inj id1 id2 s1 s2 :
  wf_id id1 → wf_id id2 → SandboxID_String id1 +:+ s1 = SandboxID_String id2 +:+ s2 → id1 = id2 ∧ s1 = s2.
Proof.
  intros H1 H2 H. apply (f_equal chars) in H. rewrite !chars_app in H.
  apply app_inj_1 in H as [Hid Hs]; [|by rewrite !id_length]. split; [|by apply chars_inj].
  apply chars_inj in Hid. pose proof (ParseSandboxID_String id1 H1) as Hp.
  rewrite Hid, ParseSandboxID_String in Hp by done. by injection Hp.
Qed.

Lemma suffix_comparable s t p : HasSuffix (s +:+ t) p = true → HasSuffix t p = true ∨ HasSuffix p t = true.
Proof.
  rewrite !HasSuffix_true. intros [r Hr]. apply (f_equal chars) in Hr. rewrite !chars_app in Hr.
  apply app_eq_inv in Hr as [(k & H1 & H2)|(k & H1 & H2)].
  - right. exists (of_chars k). apply chars_inj. by rewrite chars_app, chars_of_chars.
  - left. exists (of_chars k). apply chars_inj. by rewrite chars_app, chars_of_chars.
Qed.

Lemma HasSuffix_other s t p : HasSuffix t p = false → HasSuffix p t = false → HasSuffix (s +:+ t) p = false.
Proof. intros H1 H2. destruct (HasSuffix (s +:+ t) p) eqn:E; [|done]. apply suffix_comparable in E as []; congruence. Qed.

Lemma HasSuffix_app s t : HasSuffix (s +:+ t) t = true.
Proof. apply HasSuffix_true. eauto. Qed.

Ltac name_case :=
  repeat (rewrite HasSuffix_other by (by vm_compute)); rewrite ?HasSuffix_app;
  unfold owned_resource; rewrite ?TrimSuffix_app, ?ParseSandboxID_String by done.

(** The index finds every file of a sandbox and reads its owner back. *)
Lemma disk_resource_owned id :
  wf_id id →
  disk_resource (raw_name id) = Some (mkResource KindDiskRaw (Disks, raw_name id) (Some id) "") ∧
  disk_resource (workspace_name id) = Some (mkResource KindDiskWorkspace (Disks, workspace_name id) (Some id) "") ∧
  disk_resource (scratch_name id) = Some (mkResource KindDiskScratch (Disks, scratch_name id) (Some id) "") ∧
  disk_resource (IntentName id) = Some (mkResource KindCreateIntent (Disks, IntentName id) (Some id) "").
Proof.
  intros Hid. unfold disk_resource, raw_name, workspace_name, scratch_name, IntentName, IsShadowDisk.
  split_and!; by name_case.
Qed.

(** ** What the removals take *)

Lemma rm_files_spec fails ns d d' b :
  rm_files fails ns d = (d', b) →
  d_files d' ⊆ d_files d ∧ (∀ n, n ∈ d_files d → n ∉ ns → n ∈ d_files d') ∧
  (b = true → ∀ n, n ∈ ns → n ∉ d_files d').
Proof.
  revert d. induction ns as [|n ns IH]; intros d; cbn [rm_files].
  { intros [= <- <-]. split; [done|]. split; [auto|]. intros _ n. by rewrite elem_of_nil. }
  destruct (fails n); [intros [= <- <-]; split; [done|]; split; [auto|done]|].
  intros (H1 & H2 & H3)%IH. unfold rm_file in H1, H2. cbn in H1, H2. split; [set_solver|]. split.
  - intros x Hx Hn. apply H2; set_solver.
  - intros Hb x [->|Hx]%elem_of_cons; [|by apply H3]. intros Hx%H1. set_solver.
Qed.

Lemma ReapDiskCopy_spec fails id d d' b :
  ReapDiskCopy fails id d = (d', b) →
  d_files d' ⊆ d_files d ∧ (∀ n, n ∈ d_files d → n ∉ disk_files id → n ∈ d_files d') ∧
  (b = true → ∀ n, n ∈ disk_files id → n ∉ d_files d').
Proof.
  unfold ReapDiskCopy. destruct (rm_files fails (disk_files id) d) as [d1 b1] eqn:E.
  apply rm_files_spec in E. destruct b1; [|by intros [= <- <-]; naive_solver].
  destruct (fails _); intros [= <- <-]; cbn; naive_solver.
Qed.

(** A character that stands for itself in a pattern. *)
Definition plain (c : ascii) : bool := negb (existsb (Ascii.eqb c) ["*"; "?"; "\"; "["]%char).

Lemma plain_false c : plain c = true →
  Ascii.eqb c "*" = false ∧ Ascii.eqb c "?" = false ∧ Ascii.eqb c "\" = false ∧ Ascii.eqb c "[" = false.
Proof. unfold plain. cbn. rewrite negb_true_iff, !orb_false_iff. tauto. Qed.

Lemma glob_parse_plain l r ts fuel :
  forallb plain l = true → glob_parse fuel r = Some ts →
  glob_parse (length l + fuel) (l ++ r) = Some ((TChar <$> l) ++ ts).
Proof.
  intros Hl Hr. induction l as [|c l IH]; [done|]. cbn [forallb] in Hl. apply andb_true_iff in Hl as [Hc Hl].
  apply plain_false in Hc as (H1 & H2 & H3 & H4). cbn [app length Nat.add glob_parse].
  by rewrite H1, H2, H3, H4, (IH Hl).
Qed.

Lemma glob_match_chars l ts x : glob_match ((TChar <$> l) ++ ts) x = true ↔ (∃ y, x = l ++ y ∧ glob_match ts y = true).
Proof.
  revert x. induction l as [|c l IH]; intros x; [naive_solver|]. destruct x as [|d x]; [naive_solver|].
  cbn. rewrite andb_true_iff, IH, Ascii.eqb_eq. naive_solver.
Qed.

Lemma glob_match_star ts x : glob_match (TStar :: ts) x = true ↔ (∃ a b, x = a ++ b ∧ glob_match ts b = true).
Proof.
  split.
  - induction x as [|c x IH]; cbn; rewrite orb_true_iff.
    + intros [H|?]; [by exists [], []|done].
    + intros [H|H]; [by exists [], (c :: x)|]. destruct (IH H) as (a & b & -> & Hb). by exists (c :: a), b.
  - intros (a & b & -> & Hb). induction a as [|c a IH]; cbn; [destruct b; cbn; by rewrite Hb|].
    apply orb_true_iff. by right.
Qed.

Definition plain_handle (h : string) : bool := forallb plain (chars (SafeHandle h)).

Lemma shadow_glob h ts n :
  plain_handle h = true →
  glob_parse (S (length (chars (shadow_pattern h)))) (chars (shadow_pattern h)) = Some ts →
  glob_match ts (chars n) = true ↔ (∃ m, n = shadow_disk_name h m).
Proof.
  intros Hh. unfold shadow_pattern, shadow_disk_name.
  set (tail := [TStar; TChar "."; TChar "e"; TChar "x"; TChar "t"; TChar "4"]%char).
  assert (Hp : glob_parse (S (length (chars (SafeHandle h +:+ ".shadow.*.ext4")))) (chars (SafeHandle h +:+ ".shadow.*.ext4"))
     = Some ((TChar <$> (chars (SafeHandle h) ++ chars ".shadow.")) ++ tail)).
  { change ".shadow.*.ext4"%string with (".shadow." +:+ "*.ext4")%string. rewrite !chars_app, (assoc_L (++)).
    set (A := chars (SafeHandle h) ++ chars ".shadow.").
    assert (S (length (A ++ chars "*.ext4")) = (length A + 7)%nat) as -> by (rewrite length_app; cbn; lia).
    apply glob_parse_plain; [|done]. unfold A. by rewrite forallb_app, (Hh : forallb plain (chars (SafeHandle h)) = true). }
  rewrite Hp. clear Hp. intros H. injection H as <-. rewrite glob_match_chars. unfold tail. setoid_rewrite glob_match_star.
  change [TChar "."; TChar "e"; TChar "x"; TChar "t"; TChar "4"]%char with ((TChar <$> chars ".ext4") ++ []).
  setoid_rewrite glob_match_chars. split.
  - intros (y & Hy & a & b & -> & z & -> & Hz). destruct z; [|done]. exists (of_chars a).
    apply chars_inj. by rewrite !chars_app, Hy, chars_of_chars, app_nil_r, <- !(assoc_L (++)).
  - intros [m ->]. exists (chars m ++ chars ".ext4"). rewrite !chars_app, <- !(assoc_L (++)). split; [done|].
    exists (chars m), (chars ".ext4"). split; [done|]. exists []. by rewrite app_nil_r.
Qed.

Lemma ReapShadowDisks_spec fails h d :
  plain_handle h = true → (∀ n, fails n = false) →
  (ReapShadowDisks fails h d).2 = true ∧
  ∀ n, n ∈ d_files (ReapShadowDisks fails h d).1 ↔ n ∈ d_files d ∧ ¬ (∃ m, n = shadow_disk_name h m).
Proof.
  intros Hh Hf. unfold ReapShadowDisks, Glob.
  assert (Hok : ∀ ns d, (rm_files fails ns d).2 = true).
  { induction ns as [|n ns IH]; intros d0; [done|]. cbn. rewrite Hf. apply IH. }
  destruct (glob_parse _ _) as [ts|] eqn:Ep; last first.
  { exfalso. unfold shadow_pattern in Ep. change ".shadow.*.ext4"%string with (".shadow." +:+ "*.ext4")%string in Ep.
    rewrite !chars_app, (assoc_L (++)) in Ep. revert Ep. set (A := chars (SafeHandle h) ++ chars ".shadow.").
    assert (S (length (A ++ chars "*.ext4")) = (length A + 7)%nat) as -> by (rewrite length_app; cbn; lia).
    erewrite glob_parse_plain; [done| |reflexivity]. unfold A.
    by rewrite forallb_app, (Hh : forallb plain (chars (SafeHandle h)) = true). }
  set (ms := merge_sort glob_le _). specialize (Hok ms d). destruct (rm_files fails ms d) as [d' b] eqn:Er.
  cbn in Hok |- *. subst b. split; [done|]. destruct (rm_files_spec _ _ _ _ _ Er) as (H1 & H2 & H3).
  assert (Hms : ∀ n, n ∈ ms ↔ (∃ m, n = shadow_disk_name h m) ∧ n ∈ d_files d ∪ d_dirs d).
  { intros n. unfold ms. rewrite (merge_sort_Permutation glob_le), list_elem_of_In, filter_In,
      <- list_elem_of_In, elem_of_elements. rewrite (shadow_glob h ts n Hh Ep). tauto. }
  intros n. split.
  - intros Hn. split; [by apply H1|]. intros Hm. apply (H3 eq_refl n); [|done]. apply Hms. split; [done|].
    apply elem_of_union. left. by apply H1.
  - intros [Hn Hm]. apply H2; [done|]. rewrite Hms. tauto.
Qed.

(** Two handles, one name: removing the sandbox a/b_c takes the shadow disk of a_b/c. *)
Lemma shadow_disks_collide :
  let d := mkDir {[shadow_disk_name "a_b/c" "node_modules"]} ∅ in
  ("a_b/c" ≠ "a/b_c")%string ∧ d_files (ReapShadowDisks (λ _, false) "a/b_c" d).1 = ∅.
Proof. split; [done|]. by vm_compute. Qed.

(** ** Copies made for fork children *)

Lemma index_from_skip c sub pre l i :
  c ∉ pre → index_from (c :: sub) (pre ++ l) i = index_from (c :: sub) l (i + length pre).
Proof.
  revert i. induction pre as [|d pre IH]; intros i Hc; [cbn; by rewrite Nat.add_0_r|].
  apply not_elem_of_cons in Hc as [Hne Hc]. cbn [app index_from strip_prefix length].
  rewrite decide_False by done. rewrite IH by done. f_equal. lia.
Qed.

Lemma index_from_add sub l i : index_from sub l i = (Nat.add i) <$> index_from sub l 0.
Proof.
  revert i. induction l as [|c l IH]; intros i; cbn; destruct (strip_prefix sub _); cbn; try done.
  - f_equal. lia.
  - f_equal. lia.
  - rewrite (IH (S i)), (IH 1%nat). destruct (index_from sub l 0); cbn; f_equal. lia.
Qed.

Lemma ShadowDiskSafeHandle_inv n h :
  ShadowDiskSafeHandle n = Some h →
  ∃ i, Index n ".shadow." = Some (S i) ∧ h = of_chars (take (S i) (chars n)) ∧ HasSuffix n ".ext4" = true ∧
       HasSuffix n ".shadow.ext4" = false.
Proof.
  unfold ShadowDiskSafeHandle, IsShadowDisk. destruct (HasSuffix n ".ext4"); [|done].
  destruct (Contains n ".shadow."); [|done]. cbn [andb negb]. destruct (HasSuffix n ".shadow.ext4"); [done|].
  destruct (Index n ".shadow.") as [[|i]|]; [done| |done]. intros [= <-]. eauto.
Qed.

(** A name whose shadow infix is not at its start is no end of a bare legacy suffix. *)
Lemma not_legacy_suffix n i : Index n ".shadow." = Some (S i) → HasSuffix ".shadow.ext4" n = false.
Proof.
  intros Hi. destruct (HasSuffix ".shadow.ext4" n) eqn:E; [|done]. exfalso.
  apply HasSuffix_true in E as [r Hr]. unfold Index in Hi.
  apply index_from_Some in Hi as (pre & post & Hn & Hlen). apply (f_equal chars) in Hr.
  rewrite chars_app, Hn in Hr. set (k := chars r ++ pre).
  assert (Hk : chars ".shadow.ext4" = k ++ chars ".shadow." ++ post) by (by rewrite Hr; unfold k; rewrite <- (assoc_L (++))).
  assert (Hkl : length k ≠ 0%nat) by (unfold k; rewrite length_app; lia).
  pose proof (f_equal length Hk) as Hl. rewrite !length_app in Hl. change (length (chars ".shadow.")) with 8%nat in Hl.
  change (length (chars ".shadow.ext4")) with 12%nat in Hl.
  assert (Hs : strip_prefix (chars ".shadow.") (drop (length k) (chars ".shadow.ext4")) = Some post)
    by (rewrite Hk, drop_app_length; by apply strip_prefix_Some).
  assert (Hc : length k ∈ [1; 2; 3; 4]%nat) by (rewrite !elem_of_cons; lia).
  revert Hs. rewrite !elem_of_cons in Hc. clear -Hc. destruct Hc as [->|[->|[->|[->|[]%elem_of_nil]]]]; by vm_compute.
Qed.

Lemma child_handle childID n h :
  ShadowDiskSafeHandle n = Some h →
  ShadowDiskSafeHandle (child_name childID n) = Some (SandboxID_String childID +:+ "-" +:+ h).
Proof.
  intros (i & Hi & -> & Hext & Hleg)%ShadowDiskSafeHandle_inv.
  set (pre := chars (SandboxID_String childID +:+ "-")).
  assert (Hpre : "."%char ∉ pre).
  { unfold pre. rewrite chars_app. destruct (id_chars childID) as (l & -> & _ & _ & Hl & _). set_solver. }
  assert (Hname : chars (child_name childID n) = pre ++ chars n).
  { unfold child_name, pre. rewrite !chars_app. by rewrite (assoc_L (++)). }
  assert (Hidx : Index (child_name childID n) ".shadow." = Some (length pre + S i)%nat).
  { unfold Index in *. rewrite Hname.
    change (chars ".shadow.") with ("."%char :: chars "shadow.") in *.
    rewrite index_from_skip, index_from_add, Hi by done. done. }
  assert (Happ : child_name childID n = (SandboxID_String childID +:+ "-") +:+ n)
    by (apply chars_inj; by rewrite Hname, chars_app).
  unfold ShadowDiskSafeHandle, IsShadowDisk, Contains. rewrite Hidx, bool_decide_true by eauto.
  rewrite andb_true_r, Happ.
  rewrite (proj2 (HasSuffix_true _ _)); last first.
  { apply HasSuffix_true in Hext as [r ->]. exists ((SandboxID_String childID +:+ "-") +:+ r).
    apply chars_inj. by rewrite !chars_app, <- !(assoc_L (++)). }
  cbn [negb]. rewrite HasSuffix_other; [|done|by eapply not_legacy_suffix].
  reflexivity.
Qed.

Lemma owner_prefix_skip pre l k :
  "-"%char ∉ l → owner_prefix pre (l ++ k) = owner_prefix (pre ++ l) k.
Proof.
  revert pre. induction l as [|c l IH]; intros pre Hl; [by rewrite app_nil_r|].
  apply not_elem_of_cons in Hl as [Hne Hl]. cbn. destruct (Ascii.eqb_spec c "-"); [done|].
  rewrite IH, <- (assoc_L (++)) by done. done.
Qed.

Lemma forkChildShadowOwner_child childID h :
  wf_id childID → forkChildShadowOwner (SandboxID_String childID +:+ "-" +:+ h) = Some childID.
Proof.
  intros Hid. unfold forkChildShadowOwner. rewrite !chars_app. destruct (id_chars childID) as (l & Hl & Hlen & Hd & _).
  rewrite Hl. cbn [app]. change (owner_prefix [] ("s"%char :: "b"%char :: "-"%char :: l ++ chars "-" ++ chars h))
    with (owner_prefix ["s"; "b"; "-"]%char (l ++ chars "-" ++ chars h)).
  rewrite owner_prefix_skip by done. cbn [app chars String.list_ascii_of_string owner_prefix Ascii.eqb].
  replace (of_chars _) with (SandboxID_String childID).
  - by rewrite ParseSandboxID_String.
  - apply chars_inj. rewrite Hl. by rewrite chars_of_chars.
Qed.

Lemma SafeHandle_id s : "/"%char ∉ chars s → SafeHandle s = s.
Proof.
  intros Hs. unfold SafeHandle. apply chars_inj. rewrite chars_of_chars. induction (chars s) as [|c l IH]; [done|].
  apply not_elem_of_cons in Hs as [Hc Hl]. cbn. destruct (Ascii.eqb_spec c "/"); [by subst|]. f_equal. by apply IH.
Qed.

Lemma SafeHandle_no_slash s : "/"%char ∉ chars (SafeHandle s).
Proof.
  unfold SafeHandle. rewrite chars_of_chars. intros (c & Hc & _)%list_elem_of_fmap.
  destruct (Ascii.eqb_spec c "/"); congruence.
Qed.

Lemma elem_of_read_names n s : n ∈ read_names s ↔ n ∈ s.
Proof. unfold read_names. by rewrite (merge_sort_Permutation glob_le), elem_of_elements. Qed.

Lemma parentShadowDiskNames_elem handle d n :
  n ∈ parentShadowDiskNames handle d ↔ n ∈ d_files d ∧ ShadowDiskSafeHandle n = Some (SafeHandle handle).
Proof.
  unfold parentShadowDiskNames. rewrite list_elem_of_In, filter_In, <- list_elem_of_In.
  rewrite elem_of_read_names, bool_decide_eq_true. done.
Qed.

Lemma shadow_intent_resource h :
  "/"%char ∉ chars h →
  disk_resource (ShadowIntentName h) = Some (mkResource KindShadowIntent (Disks, ShadowIntentName h) None h).
Proof.
  intros Hh. unfold disk_resource, ShadowIntentName. rewrite (SafeHandle_id h Hh).
  repeat (rewrite HasSuffix_other by (by vm_compute)). by rewrite HasSuffix_app, TrimSuffix_app.
Qed.

(** the disks copied for a fork child can be traced back to it.  For every shadow disk of the
    parent, the name planned for the child's copy carries the handle of the child's shadow
    intent, which the index reads from the intent's own name, and the reaper finds the
    child's identifier in that handle, whatever dashes the parent's handle has. *)
Lemma fork_child_disks_resolved handle childID d n :
  wf_id childID → n ∈ parentShadowDiskNames handle d →
  let plan := childShadowPlan childID (parentShadowDiskNames handle d) in
  child_name childID n ∈ plan.2 ∧
  ShadowDiskSafeHandle (child_name childID n) = Some plan.1 ∧
  disk_resource (ShadowIntentName plan.1) = Some (mkResource KindShadowIntent (Disks, ShadowIntentName plan.1) None plan.1) ∧
  forkChildShadowOwner plan.1 = Some childID.
Proof.
  intros Hid Hn. set (h := SandboxID_String childID +:+ "-" +:+ SafeHandle handle).
  assert (Hall : ∀ m, m ∈ parentShadowDiskNames handle d → ShadowDiskSafeHandle (child_name childID m) = Some h).
  { intros m [_ Hm]%parentShadowDiskNames_elem. by apply child_handle. }
  assert (Hplan : childShadowPlan childID (parentShadowDiskNames handle d) =
                  (h, child_name childID <$> parentShadowDiskNames handle d)).
  { unfold childShadowPlan. destruct (parentShadowDiskNames handle d) as [|m ms]; [by apply elem_of_nil in Hn|].
    by rewrite (Hall m) by left. }
  cbv zeta. rewrite Hplan. cbn [fst snd]. split; [by apply list_elem_of_fmap_2|]. split; [by apply Hall|].
  split; [|by apply forkChildShadowOwner_child]. apply shadow_intent_resource. unfold h. rewrite !chars_app.
  destruct (id_chars childID) as (l & -> & _ & _ & _ & Hl). pose proof (SafeHandle_no_slash handle). set_solver.
Qed.

Lemma fork_child_disks_resolved_witness :
  forkChildShadowOwner (childShadowPlan (replicate 16 "A"%char)
    (parentShadowDiskNames "my-app/dev-1" (mkDir {["my-app_dev-1.shadow.node_modules.ext4"%string]} ∅))).1 =
    Some (replicate 16 "A"%char).
Proof.
  apply (fork_child_disks_resolved "my-app/dev-1" (replicate 16 "A"%char)
           (mkDir {["my-app_dev-1.shadow.node_modules.ext4"%string]} ∅) "my-app_dev-1.shadow.node_modules.ext4").
  - reflexivity.
  - apply parentShadowDiskNames_elem. split; [set_solver|by vm_compute].
Defined.
