(* ===== verification/Perimeter.v ===== *)
(** * internal/core/service: secrets and the perimeter of a sandbox

    Models [secret.go] (the ENV@hosts specs and the credentials they stand for) and, of
    [service.go], the guard on GitHub secrets and [startSupervisor], which turns the frozen
    envelope of a sandbox into its allow list and its proxy.

    The GitHub command line tool, the environment and the mint of placeholders answer
    through arguments; the decisions log, the CA file and the seeding of the guest, whose
    failures change nothing here, are not modelled. *)

From stdpp Require Import prelude countable gmap strings list.
From Stdlib Require Import ZArith Ascii Lia.
From S2P Require Import Prelude GoStrings GoIO GoPath GoNet Domain Sandbox Chain AllowList Broker PktLine PathPolicy Proxy.

(** ** Secrets *)

Definition BuiltinGitHubEnv : string := "GH_TOKEN".
Definition GitHubSecretHosts : list string := ["github.com"; "api.github.com"; "uploads.github.com"]%string.

Record SecretBind := mkSecretBind { sb_Env : string; sb_Hosts : list string; sb_Token : string }.

Inductive secret_error :=
| EmptySpec
| BadSpec
| BadEnvName
| EmptyHost
| TokenLookup
| NoHosts
| Registration (e : cred_error).

(** [strings.ContainsAny(env, "= \t")] *)
Definition env_char_bad (c : ascii) : bool := existsb (Ascii.eqb c) ["="; " "; "009"]%char.

Fixpoint parse_hosts (l : list string) : result secret_error (list string) :=
  match l with
  | [] => Ok []
  | h :: l =>
      let h := ToLower (TrimSpace h) in
      if String.eqb h "" then Err EmptyHost
      else let* hs := parse_hosts l in Ok (h :: hs)
  end.

Definition ParseSecretSpec (spec : string) : result secret_error SecretBind :=
  let spec := TrimSpace spec in
  if String.eqb spec "" then Err EmptySpec
  else
    match Cut spec "@"%char with
    | None => Err BadSpec
    | Some (env, hostsRaw) =>
        if String.eqb env "" || String.eqb hostsRaw "" then Err BadSpec
        else
          let env := TrimSpace env in
          if existsb env_char_bad (chars env) then Err BadEnvName
          else let* hosts := parse_hosts (Split hostsRaw ","%char) in Ok (mkSecretBind env hosts "")
    end.

(** [tok] is what [lookupGitHubToken] returned. *)
Definition BuiltinGitHubSecret (tok : result secret_error string) : result secret_error (option SecretBind) :=
  let* tok := tok in
  Ok (if String.eqb tok "" then None else Some (mkSecretBind BuiltinGitHubEnv GitHubSecretHosts tok)).

Definition isGitHubHost (h : string) : bool := IsGitHubHost h.

Definition SecretTouchesGitHub (b : SecretBind) : bool := existsb isGitHubHost (sb_Hosts b).
Definition SecretMixesGitHubHosts (b : SecretBind) : bool :=
  existsb isGitHubHost (sb_Hosts b) && existsb (λ h, negb (isGitHubHost h)) (sb_Hosts b).
Definition allGitHubHosts (hosts : list string) : bool :=
  match hosts with [] => false | _ => forallb isGitHubHost hosts end.

(** The two loops of [MergeSecrets]: an explicit bind is kept and marks its name; a builtin
    is kept unless its name is marked. *)
Fixpoint merge_extra (seen : gset string) (extra : list SecretBind) : list SecretBind :=
  match extra with
  | [] => []
  | b :: extra =>
      if String.eqb (sb_Env b) "" || bool_decide (sb_Env b ∈ seen) then merge_extra seen extra
      else b :: merge_extra ({[sb_Env b]} ∪ seen) extra
  end.

Definition MergeSecrets (explicit extra : list SecretBind) : list SecretBind :=
  let kept := List.filter (λ b, negb (String.eqb (sb_Env b) "")) explicit in
  kept ++ merge_extra (list_to_set (sb_Env <$> kept)) extra.

Definition set_Token (t : string) (b : SecretBind) : SecretBind := mkSecretBind (sb_Env b) (sb_Hosts b) t.

Fixpoint ResolveEnvelopeSecrets (lookupGitHubToken : result secret_error string) (Getenv : string → string)
    (specs : list string) : result secret_error (list SecretBind) :=
  match specs with
  | [] => Ok []
  | spec :: specs =>
      let* b := ParseSecretSpec spec in
      let rest := ResolveEnvelopeSecrets lookupGitHubToken Getenv specs in
      let emit b := if String.eqb (sb_Token b) "" then rest else let* bs := rest in Ok (b :: bs) in
      if String.eqb (sb_Env b) BuiltinGitHubEnv || String.eqb (sb_Env b) "GITHUB_TOKEN" then
        if negb (allGitHubHosts (sb_Hosts b)) then rest
        else let* tok := lookupGitHubToken in emit (set_Token tok b)
      else if String.eqb (sb_Token b) "" then emit (set_Token (TrimSpace (Getenv (sb_Env b))) b)
      else emit b
  end.

(** The further hosts of a bind share its placeholder. *)
Fixpoint alias_hosts (id : SandboxID) (ph : string) (hosts : list string) (b : Broker)
    : Broker * result secret_error unit :=
  match hosts with
  | [] => (b, Ok tt)
  | h :: hosts =>
      match RegisterPlaceholderForHost id ph h b with
      | (b, Err e) => (b, Err (Registration e))
      | (b, Ok _) => alias_hosts id ph hosts b
      end
  end.

Definition newline : string := String "010"%char "".

(** The hosts not yet listed, in order. *)
Definition add_hosts (hosts hs : list string) : list string :=
  fold_left (λ acc h, if bool_decide (h ∈ acc) then acc else acc ++ [h]) hs hosts.

(** The lines for the guest, the hosts covered (after those in [hosts]) and the broker.
    [mint] gives the outcome of the mint for each bind. *)
Fixpoint applySecrets (mint : SecretBind → option string) (id : SandboxID) (binds : list SecretBind)
    (hosts : list string) (b : Broker) : Broker * result secret_error (string * list string) :=
  match binds with
  | [] => (b, Ok (""%string, hosts))
  | bind :: binds =>
      match sb_Hosts bind with
      | [] => (b, Err NoHosts)
      | h0 :: hs =>
          if String.eqb (sb_Env bind) "" then (b, Err NoHosts)
          else
            match RegisterPlaceholder id h0 (sb_Token bind) (mint bind) b with
            | (b, Err e) => (b, Err (Registration e))
            | (b, Ok rec) =>
                match alias_hosts id (ph_Placeholder rec) hs b with
                | (b, Err e) => (b, Err e)
                | (b, Ok _) =>
                    let line := sb_Env bind +:+ "=" +:+ ph_Placeholder rec +:+ newline in
                    let line := if String.eqb (sb_Env bind) BuiltinGitHubEnv
                                then line +:+ "GITHUB_TOKEN=" +:+ ph_Placeholder rec +:+ newline else line in
                    let '(b, rest) := applySecrets mint id binds (add_hosts hosts (h0 :: hs)) b in
                    (b, let* rest := rest in Ok (line +:+ rest.1, rest.2))
                end
            end
      end
  end.

(** ** The GitHub guard and the policies of the proxy *)

Definition githubHostBoundByPolicy (h allowedRepo : string) (pp : gmap string (gmap string EgressHostPolicy)) : bool :=
  if negb (String.eqb allowedRepo "") then true
  else match pp !! ""%string with
       | Some hostMap => bool_decide (is_Some (hostMap !! ToLower h))
       | None => false
       end.

(** The loop over the secret hosts in [Start] and in [startSupervisor]; false: refuse. *)
Definition github_secrets_bound (e : Envelope) : bool :=
  forallb (λ h, negb (isGitHubHost h && negb (githubHostBoundByPolicy h (AllowedRepo e) (Sandbox.PathPolicies e))))
    (SecretHosts e).

Definition SandboxHasMITMProxy (sb : Sandbox) : bool :=
  negb (OpenEgress (SEnvelope sb)) || negb (bool_decide (SecretHosts (SEnvelope sb) = [])) ||
  negb (String.eqb (AgentName sb) "").

Definition compile_path (pat : string) : option GlobPattern :=
  match CompileGlobPattern pat with Ok gp => Some gp | Err _ => None end.

Definition host_policy (pol : EgressHostPolicy) : HostPathPolicy :=
  mkHostPathPolicy ((λ g, mkGitHubPolicy (Sandbox.gh_Owner g) (Sandbox.gh_Name g)) <$> ehp_GitHub pol)
    (omap compile_path (ehp_Paths pol)).

Definition buildMITMPathPolicies (pp : gmap string (gmap string EgressHostPolicy))
    : gmap string (gmap string HostPathPolicy) :=
  (λ hm : gmap string EgressHostPolicy, host_policy <$> hm) <$> pp.

Definition mitm_config (sb : Sandbox) : Config :=
  let e := SEnvelope sb in
  mkConfig (ID sb) (AllowedHosts e) (SecretHosts e) (SecretHostSuffixes e)
    (OpenEgress e && (negb (bool_decide (SecretHosts e = [])) || negb (String.eqb (AgentName sb) "")))
    (buildMITMPathPolicies (Sandbox.PathPolicies e)) (AllowedRepo e) (ResolvedAllowedBranches e).

(** ** Assembling the perimeter *)

Record PerimeterSupervisor := mkSupervisor {
  ps_id : SandboxID;
  ps_acl : AllowList;
  ps_proxy : option Proxy;
}.

Inductive sup_error :=
| SupFD
| SupAllowList (e : string)
| ErrUnboundGitHubSecret
| SupMITM (e : string)
| SupStart.

(** What the world answers while the perimeter is assembled: [true] makes the call fail. *)
Record SupEnv := mkSupEnv { se_fd : bool; se_ca : bool; se_start : bool; se_now : Time }.

Definition lift_err {E E' A} (f : E → E') (r : result E A) : result E' A :=
  match r with Ok a => Ok a | Err e => Err (f e) end.

Definition allowAllWindow : Duration := 72 * 3600 * Second.

(** [startSupervisor] up to the registration of the supervisor it returns. *)
Definition assemble_supervisor (env : SupEnv) (sb : Sandbox) : result sup_error PerimeterSupervisor :=
  let e := SEnvelope sb in
  if se_fd env then Err SupFD
  else
    let* al := lift_err SupAllowList (NewAllowList [] [] (AllowedHosts e ++ SecretHosts e)) in
    let al := if OpenEgress e then AllowAllFor (se_now env) allowAllWindow al else al in
    if negb (github_secrets_bound e) then Err ErrUnboundGitHubSecret
    else
      let* proxy :=
        if SandboxHasMITMProxy sb then
          if se_ca env then Err (SupMITM "ca"%string)
          else let* px := lift_err SupMITM (New (mitm_config sb)) in Ok (Some px)
        else Ok None in
      if se_start env then Err SupStart else Ok (mkSupervisor (ID sb) al proxy).

(** ** Where a token may go *)

Lemma lift_err_Ok {E E' A} (f : E → E') (r : result E A) a : lift_err f r = Ok a → r = Ok a.
Proof. destruct r; [|done]. by intros [= ->]. Qed.

Definition github_env (env : string) : bool := String.eqb env BuiltinGitHubEnv || String.eqb env "GITHUB_TOKEN".

Lemma parse_hosts_Ok l hs : parse_hosts l = Ok hs → length hs = length l ∧ Forall (λ h, h ≠ ""%string ∧ ToLower h = h) hs.
Proof.
  revert hs. induction l as [|h l IH]; intros hs; cbn [parse_hosts]; [intros [= <-]; by split|].
  cbv zeta. destruct (String.eqb_spec (ToLower (TrimSpace h)) ""); [done|].
  destruct (parse_hosts l) as [hs'|]; [|done]. intros [= <-]. destruct (IH hs' eq_refl) as [Hl Hf].
  split; [cbn; by f_equal|]. constructor; [|done]. split; [done|apply ToLower_idemp].
Qed.

Lemma Split_nonempty s c : Split s c ≠ [].
Proof. unfold Split, SplitN. cbn. by destruct (break_at c (chars s)) as [[]|]. Qed.

Lemma ParseSecretSpec_Ok spec b :
  ParseSecretSpec spec = Ok b →
  sb_Token b = ""%string ∧ sb_Hosts b ≠ [] ∧ Forall (λ h, h ≠ ""%string ∧ ToLower h = h) (sb_Hosts b).
Proof.
  unfold ParseSecretSpec. cbv zeta. destruct (String.eqb (TrimSpace spec) ""); [done|].
  destruct (Cut (TrimSpace spec) "@") as [[env raw]|]; [|done]. destruct (_ || _); [done|].
  destruct (existsb _ _); [done|]. destruct (parse_hosts _) as [hs|] eqn:Eh; [|done]. intros [= <-].
  destruct (parse_hosts_Ok _ _ Eh) as [Hl Hf]. split; [done|]. split; [|done]. cbn. intros ->.
  symmetry in Hl. apply nil_length_inv in Hl. by eapply Split_nonempty.
Qed.

Lemma allGitHubHosts_spec hosts : allGitHubHosts hosts = true → Forall (λ h, isGitHubHost h = true) hosts.
Proof.
  destruct hosts; [done|]. unfold allGitHubHosts. intros H. apply Forall_forall. intros h Hh%list_elem_of_In.
  exact (proj1 (List.forallb_forall _ _) H h Hh).
Qed.

(** the host gate on credentials.  Every secret rebuilt from the frozen specs has a
    token and at least one lower-case host, and the operator's GitHub token goes only to
    the two GitHub variables and only when every host of the spec is a GitHub host; all other
    variables get what the environment holds under their name. *)
Lemma secret_host_gate lookup getenv specs binds b :
  ResolveEnvelopeSecrets lookup getenv specs = Ok binds → b ∈ binds →
  sb_Token b ≠ ""%string ∧ sb_Hosts b ≠ [] ∧
  Forall (λ h, h ≠ ""%string ∧ ToLower h = h) (sb_Hosts b) ∧
  if github_env (sb_Env b) then lookup = Ok (sb_Token b) ∧ Forall (λ h, isGitHubHost h = true) (sb_Hosts b)
  else sb_Token b = TrimSpace (getenv (sb_Env b)).
Proof.
  revert binds. induction specs as [|spec specs IH]; intros binds; cbn [ResolveEnvelopeSecrets].
  { intros [= <-]. by intros ?%elem_of_nil. }
  destruct (ParseSecretSpec spec) as [b0|] eqn:Ep; [|done]. cbn [rbind].
  destruct (ParseSecretSpec_Ok _ _ Ep) as (Ht & Hh & Hf). rewrite Ht, String.eqb_refl.
  fold (github_env (sb_Env b0)). set (rest := ResolveEnvelopeSecrets lookup getenv specs) in *.
  assert (Hemit : ∀ t, (if String.eqb (sb_Token (set_Token t b0)) "" then rest
                        else let* bs := rest in Ok (set_Token t b0 :: bs)) = Ok binds → b ∈ binds →
            (t ≠ ""%string ∧ b = set_Token t b0) ∨ ∃ bs, rest = Ok bs ∧ b ∈ bs).
  { intros t. cbn. destruct (String.eqb_spec t ""); [eauto|]. destruct rest as [bs|]; [|done].
    intros [= <-] [->|Hin]%elem_of_cons; [by left|eauto]. }
  destruct (github_env (sb_Env b0)) eqn:Eg.
  - destruct (allGitHubHosts (sb_Hosts b0)) eqn:Ea; cbn [negb]; [|by apply IH].
    destruct lookup as [tok|] eqn:El; [|done]. cbn [rbind]. intros H1 H2.
    destruct (Hemit tok H1 H2) as [[Hne ->]|(bs & Hr & Hin)]; [|by apply (IH bs)].
    cbn. rewrite Eg. by split_and!; try apply allGitHubHosts_spec.
  - intros H1 H2. destruct (Hemit _ H1 H2) as [[Hne ->]|(bs & Hr & Hin)]; [|by apply (IH bs)].
    cbn. by rewrite Eg.
Qed.

(** ** The envelope confines the GitHub secrets *)

Lemma drop_while_fmap (p : ascii → bool) (f : ascii → ascii) (l : bytes) :
  (∀ c, p (f c) = p c) → drop_while p (f <$> l) = f <$> drop_while p l.
Proof. intros Hp. induction l as [|c l IH]; [done|]. cbn. rewrite Hp. by destruct (p c). Qed.

Lemma is_space_lower c : is_space (lower_byte c) = is_space c.
Proof. by destruct c as [[] [] [] [] [] [] [] []]; vm_compute. Qed.

Lemma TrimSpace_ToLower s : TrimSpace (ToLower s) = ToLower (TrimSpace s).
Proof.
  unfold TrimSpace, ToLower, drop_end_while. rewrite !chars_of_chars.
  rewrite (drop_while_fmap is_space lower_byte) by apply is_space_lower.
  rewrite <- fmap_reverse, (drop_while_fmap is_space lower_byte) by apply is_space_lower.
  by rewrite <- fmap_reverse.
Qed.

Lemma IsGitHubHost_ToLower h : IsGitHubHost (ToLower h) = IsGitHubHost h.
Proof. unfold IsGitHubHost. by rewrite TrimSpace_ToLower, ToLower_idemp. Qed.

(** The policy the envelope sets for a host: the one of the repository if there is one,
    else the path policy of the host. *)
Definition envelope_policy (e : Envelope) (host : string) : option HostPathPolicy :=
  if String.eqb (AllowedRepo e) "" then host_policy <$> (Sandbox.PathPolicies e !! ""%string ≫= lookup host)
  else match Cut (AllowedRepo e) "/"%char with
       | Some (owner, name) => Some (mkHostPathPolicy (Some (mkGitHubPolicy owner name)) [])
       | None => None
       end.

Lemma buildMITM_lookup pp ph :
  buildMITMPathPolicies pp !! ph = (λ hm : gmap string EgressHostPolicy, host_policy <$> hm) <$> pp !! ph.
Proof. apply lookup_fmap. Qed.

Lemma bound_lookup e pols ph h :
  buildPathPolicies (buildMITMPathPolicies (Sandbox.PathPolicies e)) (AllowedRepo e) = Ok pols →
  isGitHubHost h = true → githubHostBoundByPolicy h (AllowedRepo e) (Sandbox.PathPolicies e) = true →
  Sandbox.PathPolicies e !! ph = None ∨ ph = ""%string →
  ∃ pol, lookupPolicy pols ph (ToLower h) = Some pol ∧ envelope_policy e (ToLower h) = Some pol.
Proof.
  unfold buildPathPolicies, githubHostBoundByPolicy, envelope_policy, isGitHubHost. intros Hb Hg Hbound Hph.
  destruct (String.eqb_spec (AllowedRepo e) "") as [Hr|Hr]; cbn [negb] in Hbound.
  - injection Hb as <-. destruct (Sandbox.PathPolicies e !! ""%string) as [hm|] eqn:Ee; [|done].
    apply bool_decide_eq_true in Hbound as [hp Hhp]. exists (host_policy hp). cbn. rewrite Hhp. split; [|done].
    assert (Hin : buildMITMPathPolicies (Sandbox.PathPolicies e) !! ""%string ≫= lookupInMap (ToLower h)
                  = Some (host_policy hp)).
    { rewrite buildMITM_lookup, Ee. cbn. unfold lookupInMap. by rewrite lookup_fmap, Hhp. }
    unfold lookupPolicy. destruct (String.eqb_spec ph "") as [->|Hne].
    + by rewrite Hin.
    + destruct Hph as [Hph| ->]; [|done]. rewrite (buildMITM_lookup _ ph), Hph. cbn. exact Hin.
  - destruct (Cut (AllowedRepo e) "/") as [[o n]|]; [|done]. destruct (_ || _); [done|]. injection Hb as <-.
    eexists. split; [|done].
    assert (Hw : lookupInMap (ToLower h) {[githubWildcardHost := mkHostPathPolicy (Some (mkGitHubPolicy o n)) []]}
                 = Some (mkHostPathPolicy (Some (mkGitHubPolicy o n)) [])).
    { unfold lookupInMap. rewrite IsGitHubHost_ToLower, Hg, lookup_singleton_eq.
      destruct (decide (ToLower h = githubWildcardHost)) as [->|Hne]; [by rewrite lookup_singleton_eq|].
      by rewrite lookup_singleton_ne by done. }
    unfold lookupPolicy. revert Hw. generalize (lookupInMap (ToLower h)). intros f Hw.
    destruct (String.eqb_spec ph "") as [->|Hne].
    + rewrite lookup_insert_eq. cbn [mbind option_bind]. by rewrite Hw.
    + destruct Hph as [Hph| ->]; [|done]. rewrite lookup_insert_ne, (buildMITM_lookup _ ph), Hph by done.
      cbn [mbind option_bind fmap option_fmap option_map]. rewrite lookup_insert_eq. cbn [mbind option_bind]. exact Hw.
Qed.

Lemma assemble_Ok env sb sup :
  assemble_supervisor env sb = Ok sup →
  github_secrets_bound (SEnvelope sb) = true ∧ ps_id sup = ID sb ∧
  (∃ al, NewAllowList [] [] (AllowedHosts (SEnvelope sb) ++ SecretHosts (SEnvelope sb)) = Ok al ∧
     ps_acl sup = if OpenEgress (SEnvelope sb) then AllowAllFor (se_now env) allowAllWindow al else al) ∧
  if SandboxHasMITMProxy sb then ∃ px, New (mitm_config sb) = Ok px ∧ ps_proxy sup = Some px
  else ps_proxy sup = None.
Proof.
  unfold assemble_supervisor. cbv zeta. destruct (se_fd env); [done|].
  destruct (lift_err SupAllowList _) as [al|] eqn:Eal; [|done]. apply lift_err_Ok in Eal. cbn [rbind].
  destruct (github_secrets_bound (SEnvelope sb)); [|done]. cbn [negb].
  destruct (SandboxHasMITMProxy sb).
  - destruct (se_ca env); [done|]. destruct (lift_err SupMITM _) as [px|] eqn:Epx; [|done].
    apply lift_err_Ok in Epx. cbn [rbind]. destruct (se_start env); [done|]. intros [= <-]. eauto 10.
  - cbn [rbind]. destruct (se_start env); [done|]. intros [= <-]. eauto 10.
Qed.

Lemma New_policies cfg px :
  New cfg = Ok px →
  buildPathPolicies (cf_PathPolicies cfg) (cf_AllowedRepo cfg) = Ok (px_policies px) ∧ px_sandboxID px = cf_SandboxID cfg.
Proof. unfold New. destruct (buildPathPolicies _ _); [|done]. by intros [= <-]. Qed.

Lemma handleRequest_policy json_of px broker req req' pol :
  handleRequest json_of px broker req = Some req' →
  lookupPolicy (px_policies px) (extractPlaceholder (r_Authorization req)) (ToLower (reqHost req)) = Some pol →
  isCanonicalPath (r_Path req) (r_EscapedPath req) = true ∧
  policy_allows pol (ToLower (reqHost req)) (r_Method req) (r_Path req) = true.
Proof.
  intros Hreq Hpol. unfold handleRequest in Hreq. rewrite bool_decide_true in Hreq; last first.
  { intros He. unfold lookupPolicy in Hpol. rewrite He, !lookup_empty in Hpol. cbn in Hpol. by case_match. }
  cbn [andb] in Hreq. destruct (path_handler px req) eqn:Ep; [done|]. unfold path_handler in Ep. rewrite Hpol in Ep.
  destruct (isCanonicalPath _ _); [|done]. by apply negb_false_iff in Ep.
Qed.

(** C32: the envelope confines the GitHub secrets.  A perimeter is assembled only if it has a
    proxy for every secret, and no request to a GitHub secret host leaves it, with any
    credential but one named in the envelope's policies, unless its path is canonical
    and satisfies the policy the envelope sets: that of the allowed repository, or else
    the path policy of that host.  Without such a policy nothing is assembled. *)
Lemma github_secret_confined env sb h :
  h ∈ SecretHosts (SEnvelope sb) → isGitHubHost h = true →
  match assemble_supervisor env sb with
  | Err _ => True
  | Ok sup => ∃ px pol, ps_proxy sup = Some px ∧ px_sandboxID px = ID sb ∧
      envelope_policy (SEnvelope sb) (ToLower h) = Some pol ∧
      ∀ json_of broker req req',
        ToLower (reqHost req) = ToLower h → handleRequest json_of px broker req = Some req' →
        let ph := extractPlaceholder (r_Authorization req) in
        Sandbox.PathPolicies (SEnvelope sb) !! ph = None ∨ ph = ""%string →
        isCanonicalPath (r_Path req) (r_EscapedPath req) = true ∧
        policy_allows pol (ToLower h) (r_Method req) (r_Path req) = true
  end ∧
  (githubHostBoundByPolicy h (AllowedRepo (SEnvelope sb)) (Sandbox.PathPolicies (SEnvelope sb)) = false →
   is_ok (assemble_supervisor env sb) = false).
Proof.
  intros Hin Hg.
  assert (Hb : github_secrets_bound (SEnvelope sb) = true →
    githubHostBoundByPolicy h (AllowedRepo (SEnvelope sb)) (Sandbox.PathPolicies (SEnvelope sb)) = true).
  { unfold github_secrets_bound. rewrite List.forallb_forall. intros H. apply list_elem_of_In, H in Hin.
    rewrite Hg in Hin. by apply negb_true_iff, negb_false_iff in Hin. }
  destruct (assemble_supervisor env sb) as [sup|e] eqn:Ea; [|done].
  apply assemble_Ok in Ea as (Hsec & _ & _ & Hpx). specialize (Hb Hsec). split; [|by rewrite Hb].
  assert (Hm : SandboxHasMITMProxy sb = true).
  { unfold SandboxHasMITMProxy. rewrite (bool_decide_false (SecretHosts _ = [])).
    - by rewrite orb_true_r.
    - intros H. rewrite H in Hin. by apply elem_of_nil in Hin. }
  rewrite Hm in Hpx.
  destruct Hpx as (px & [Hpol Hid]%New_policies & Hsup).
  destruct (bound_lookup _ _ ""%string h Hpol Hg Hb ltac:(by right)) as (pol & _ & Henv).
  exists px, pol. do 3 (split; [done|]). intros json_of broker req req' Hh Hreq ph Hph.
  destruct (bound_lookup _ _ ph h Hpol Hg Hb Hph) as (pol' & Hl & Henv').
  assert (pol' = pol) as -> by congruence. rewrite <- Hh in *. by eapply handleRequest_policy.
Qed.

(** ** Setting a repository drops the path policies *)

Lemma allowed_repo_hides pp repo pols ph host :
  buildPathPolicies (buildMITMPathPolicies pp) repo = Ok pols → repo ≠ ""%string →
  pp !! ph = None ∨ ph = ""%string → IsGitHubHost host = false → host ≠ githubWildcardHost →
  lookupPolicy pols ph host = None.
Proof.
  unfold buildPathPolicies. intros Hb Hr Hph Hg Hw. destruct (String.eqb_spec repo ""); [done|].
  destruct (Cut repo "/") as [[o n']|]; [|done]. destruct (_ || _); [done|]. injection Hb as <-.
  assert (Hn : lookupInMap host {[githubWildcardHost := mkHostPathPolicy (Some (mkGitHubPolicy o n')) []]} = None).
  { unfold lookupInMap. by rewrite lookup_singleton_ne, Hg by done. }
  unfold lookupPolicy. revert Hn. generalize (lookupInMap host). intros f Hn.
  destruct (String.eqb_spec ph "") as [->|Hne].
  - rewrite lookup_insert_eq. cbn [mbind option_bind]. by rewrite Hn.
  - destruct Hph as [Hph| ->]; [|done]. rewrite lookup_insert_ne, (buildMITM_lookup _ ph), Hph by done.
    cbn [mbind option_bind fmap option_fmap option_map]. rewrite lookup_insert_eq. cbn [mbind option_bind]. exact Hn.
Qed.

Definition example_envelope (repo : string) : Envelope :=
  mkEnvelope "" [] "" ["github.com"; "api.example.com"]%string [] [] true repo []
    {[""%string := {["api.example.com"%string := mkEgressHostPolicy None ["GET /v1/**"%string];
                     "github.com"%string := mkEgressHostPolicy None ["/acme/app/**"%string]]}]}.
Definition example_secret_sandbox (repo : string) : Sandbox :=
  mkSandbox (replicate 16 "A"%char) "a" "p" ∅ Running (example_envelope repo) "" false false StopReasonNone None
    0 "" 0 0 "" "" 0 "" "" "" 0 "" [] [] "" [].
Definition example_sup_env : SupEnv := mkSupEnv false false false 0.
Definition example_delete : HTTPRequest :=
  mkHTTPRequest "DELETE" "api.example.com" "" "/admin/users" "/admin/users" "Bearer ph" None.

(** What the proxy of a sandbox lets through. *)
Definition passes (sb : Sandbox) (req : HTTPRequest) : bool :=
  match assemble_supervisor example_sup_env sb with
  | Ok sup => match ps_proxy sup with
              | Some px => bool_decide (is_Some (handleRequest (λ _, JInvalid) px None req))
              | None => false
              end
  | Err _ => false
  end.

(** With the path policies alone the request is refused; naming a repository as well, which
    says nothing about this host, lets it pass. *)
Lemma allowed_repo_drops_path_policies :
  passes (example_secret_sandbox "") example_delete = false ∧
  passes (example_secret_sandbox "acme/app") example_delete = true.
Proof. split; by vm_compute. Qed.

(** ** Witnesses *)

Lemma secret_host_gate_witness :
  ResolveEnvelopeSecrets (Ok "gho_real"%string) (λ _, "x"%string) ["GH_TOKEN@github.com"; "GH_TOKEN@evil.com"; "K@h.io"]%string =
    Ok [mkSecretBind "GH_TOKEN" ["github.com"]%string "gho_real"; mkSecretBind "K" ["h.io"]%string "x"] ∧
  isGitHubHost "github.com" = true.
Proof.
  split; [by vm_compute|].
  destruct (secret_host_gate (Ok "gho_real"%string) (λ _, "x"%string) ["GH_TOKEN@github.com"]%string
    [mkSecretBind "GH_TOKEN" ["github.com"]%string "gho_real"] (mkSecretBind "GH_TOKEN" ["github.com"]%string "gho_real")
    ltac:(by vm_compute) ltac:(by left)) as (_ & _ & _ & H).
  cbn in H. destruct H as [_ H]. by inversion H.
Defined.

Lemma github_secret_confined_witness :
  is_ok (assemble_supervisor example_sup_env (example_secret_sandbox "")) = true ∧
  ∃ pol, envelope_policy (example_envelope "") "github.com" = Some pol.
Proof.
  split; [by vm_compute|].
  destruct (github_secret_confined example_sup_env (example_secret_sandbox "") "github.com") as [H _];
    [by left|by vm_compute|].
  destruct (assemble_supervisor example_sup_env (example_secret_sandbox "")) as [sup|] eqn:E;
    [|vm_compute in E; discriminate E].
  destruct H as (px & pol & _ & _ & H & _). by exists pol.
Defined.
