(* ===== verification/Service.v ===== *)
(** * internal/core/service/service.go: the operations on sandboxes

    One definition per method of [Service]: resolution of a reference, creation, listing with the
    reaping of dead builders, start, stop, pause, resume, snapshot and removal.  The state is what
    the methods read and write: the record store, the named volumes, the broker, the
    perimeter supervisors and deregistration hooks of this process, the disk directory, the
    supervisor state directories and a log of the calls made outside.

    Failures of the store, the driver and the volumes are arguments; the driver's optional
    interfaces are the booleans of [Driver].  Contexts, timeouts and the seeding of the
    guest, which is best effort, are not modelled. *)

From stdpp Require Import prelude countable gmap strings list sorting.
From Stdlib Require Import ZArith Ascii Lia.
From S2P Require Import Prelude GoStrings Domain Lifecycle Sandbox Store Broker Volumes VolumeGuard Disks Perimeter.

(** ** State *)

Inductive event :=
| EvStart (id : SandboxID)
| EvStop (id : SandboxID)
| EvPause (id : SandboxID)
| EvResume (id : SandboxID)
| EvSnapshot (id : SandboxID)
| EvFork (children : list SandboxID)
| EvCloseSupervisor (id : SandboxID)
| EvDeregister (id : SandboxID).

#[global] Instance event_eq_dec : EqDecision event.
Proof. solve_decision. Defined.

Record Service := mkService {
  sv_fs : FS;
  sv_volumes : option VolumeStore;
  sv_broker : option Broker;
  sv_supervisors : gmap SandboxID PerimeterSupervisor;
  sv_deregistrars : gset SandboxID;
  sv_disks : Dir;
  sv_stateDirs : gset SandboxID;
  sv_log : list event;
}.

Definition set_fs (fs : FS) (s : Service) : Service :=
  mkService fs (sv_volumes s) (sv_broker s) (sv_supervisors s) (sv_deregistrars s) (sv_disks s) (sv_stateDirs s) (sv_log s).
Definition set_volumes (v : option VolumeStore) (s : Service) : Service :=
  mkService (sv_fs s) v (sv_broker s) (sv_supervisors s) (sv_deregistrars s) (sv_disks s) (sv_stateDirs s) (sv_log s).
Definition set_broker (b : option Broker) (s : Service) : Service :=
  mkService (sv_fs s) (sv_volumes s) b (sv_supervisors s) (sv_deregistrars s) (sv_disks s) (sv_stateDirs s) (sv_log s).
Definition set_supervisors (m : gmap SandboxID PerimeterSupervisor) (s : Service) : Service :=
  mkService (sv_fs s) (sv_volumes s) (sv_broker s) m (sv_deregistrars s) (sv_disks s) (sv_stateDirs s) (sv_log s).
Definition set_deregistrars (d : gset SandboxID) (s : Service) : Service :=
  mkService (sv_fs s) (sv_volumes s) (sv_broker s) (sv_supervisors s) d (sv_disks s) (sv_stateDirs s) (sv_log s).
Definition set_disks (d : Dir) (s : Service) : Service :=
  mkService (sv_fs s) (sv_volumes s) (sv_broker s) (sv_supervisors s) (sv_deregistrars s) d (sv_stateDirs s) (sv_log s).
Definition set_stateDirs (d : gset SandboxID) (s : Service) : Service :=
  mkService (sv_fs s) (sv_volumes s) (sv_broker s) (sv_supervisors s) (sv_deregistrars s) (sv_disks s) d (sv_log s).
Definition add_log (l : list event) (s : Service) : Service :=
  mkService (sv_fs s) (sv_volumes s) (sv_broker s) (sv_supervisors s) (sv_deregistrars s) (sv_disks s) (sv_stateDirs s)
    (sv_log s ++ l).

(** ** The driver and the failures of a call *)

(** [driver.NetnsState] *)
Record NetnsState := mkNetns {
  ns_ChildPID : Z;
  ns_ChildPGID : Z;
  ns_ChildStartTime : Z;
  ns_GuestTap : string;
  ns_APISocket : string;
  ns_ControlSocket : string;
  ns_ControlToken : string;
}.

(** The optional interfaces the driver implements. *)
Record Driver := mkDriver {
  dv_PauseResumer : bool;
  dv_Snapshotter : bool;
  dv_Forker : bool;
  dv_NetworkHook : bool;
  dv_NetnsStateProvider : bool;
}.

(** What the world answers during one call of a method.  [a_list v] is for the listing made by the
    guard of volume [v]. *)
Record Answers := mkAnswers {
  a_resolve : IO;
  a_marker : IO;
  a_update : IO;
  a_delete : IO;
  a_list : string → IO;
  a_start : result string string;
  a_driver : result string unit;
  a_snapshot : result string string;
  a_netns : option NetnsState;
  a_sup : SupEnv;
  a_diskDir : bool;
  a_vol : Fails;
  a_lease : string → intentLeaseState;
  a_now : Time;
  a_rm : string → bool;
}.

(** ** Errors *)

(** What a callback of [Update] returns. *)
Inductive cb_error :=
| CbIllegal (e : IllegalTransitionError)
| CbMarked
| CbDiskDir
| CbGuard (e : guard_error)
| CbDriver (e : string)
| CbVolumes (names : list string)
| CbLiveMounts (n : nat)
| CbIntegrity.

Inductive svc_error :=
| SvcExists
| SvcStore (e : store_error cb_error)
| SvcIllegal (e : IllegalTransitionError)
| SvcUnbound
| SvcNoSubstrate
| SvcNotRunning
| SvcPerimeter (e : sup_error).

Definition lift_store {E} (e : store_error Empty_set) : store_error E :=
  match e with
  | ErrCtx => ErrCtx
  | ErrNotFound => ErrNotFound
  | ErrAlreadyExists => ErrAlreadyExists
  | ErrSchemaTooNew f m => ErrSchemaTooNew f m
  | ErrDecode => ErrDecode
  | ErrInvalidState => ErrInvalidState
  | ErrIO op => ErrIO op
  | ErrCallback e => match e with end
  | ErrResolve e => ErrResolve e
  | ErrHandle => ErrHandle
  end.

(** ** Finding a sandbox *)

Definition resolve (io : IO) (ref : string) (s : Service) : result (store_error cb_error) Sandbox :=
  if Contains ref "/" then ResolveByHandle io ref (sv_fs s)
  else match ParseSandboxID ref with
       | Ok id => Store.Get io id (sv_fs s)
       | Err _ => ResolveByPrefix io ref (sv_fs s)
       end.

(** ** Create and List *)

Record CreateOptions := mkCreateOptions { co_Labels : gmap string string; co_RemoveOnExit : bool; co_AgentName : string }.

Definition empty_envelope : Envelope := mkEnvelope "" [] "" [] [] [] false "" [] ∅.

Definition new_sandbox (id : SandboxID) (project name : string) (opts : CreateOptions) : Sandbox :=
  mkSandbox id name project (co_Labels opts) Created empty_envelope "" (co_RemoveOnExit opts) false StopReasonNone None
    0 "" 0 0 "" "" 0 "" "" "" 0 "" [] [] (co_AgentName opts) [].

(** [id] is the minted identifier, [ioCreate] the faults of the write. *)
Definition Create (io ioCreate : IO) (id : SandboxID) (project name : string) (opts : CreateOptions) (s : Service)
    : Service * result svc_error Sandbox :=
  match ResolveByHandle (E:=cb_error) io (project +:+ "/" +:+ name) (sv_fs s) with
  | Ok _ => (s, Err SvcExists)
  | Err ErrNotFound =>
      let sb := new_sandbox id project name opts in
      match Store.Create ioCreate sb (sv_fs s) with
      | (fs, Err e) => (set_fs fs s, Err (SvcStore e))
      | (fs, Ok _) => (set_fs fs s, Ok sb)
      end
  | Err e => (s, Err (SvcStore e))
  end.

Definition builder_project : string := "__builder".

(** [alive pid]: signal 0 to the process does not answer that it is gone. *)
Definition is_dead_builder (alive : Z → bool) (sb : Sandbox) : bool :=
  String.eqb (Project sb) builder_project && negb (CreatorPID sb =? 0) && negb (alive (CreatorPID sb)).

Fixpoint reapBuilders (ios : SandboxID → IO) (alive : Z → bool) (all : list Sandbox) (s : Service) : Service :=
  match all with
  | [] => s
  | sb :: all =>
      if is_dead_builder alive sb then
        let s := add_log [EvStop (ID sb)] s in
        reapBuilders ios alive all (set_fs (Store.Delete (E:=cb_error) (ios (ID sb)) (ID sb) (sv_fs s)).1 s)
      else reapBuilders ios alive all s
  end.

Definition List_sandboxes (io : IO) (ios : SandboxID → IO) (alive : Z → bool) (s : Service)
    : Service * result svc_error (list Sandbox) :=
  match List_ (E:=cb_error) io (sv_fs s) with
  | Err e => (s, Err (SvcStore e))
  | Ok all => (reapBuilders ios alive all s, Ok (List.filter (λ sb, negb (String.eqb (Project sb) builder_project)) all))
  end.

(** ** Start *)

(** Assignments to the adoption fields of a record; [None] clears them. *)
Definition set_netns (ns : option NetnsState) (rec : Sandbox) : Sandbox :=
  let ns := default (mkNetns 0 0 0 "" "" "" "") ns in
  let 'mkSandbox id nm pj lb st env iid roe rm sr pv spid ssock _ _ _ _ _ _ _ cds cpid br mv lm an ean := rec in
  mkSandbox id nm pj lb st env iid roe rm sr pv spid ssock (ns_ChildPID ns) (ns_ChildPGID ns) (ns_GuestTap ns)
    (ns_APISocket ns) (ns_ChildStartTime ns) (ns_ControlSocket ns) (ns_ControlToken ns) cds cpid br mv lm an ean.

Definition rw_disk (va : VolumeAttachment) : bool := String.eqb (va_Kind va) KindDisk && negb (va_ReadOnly va).

(** The guard of each read-write disk volume, its lock released at once. *)
Fixpoint volume_guards (a : Answers) (sbs : string → option (list Sandbox)) (id : string) (vas : list VolumeAttachment)
    (v : VolumeStore) : VolumeStore * result guard_error unit :=
  match vas with
  | [] => (v, Ok tt)
  | va :: vas =>
      if rw_disk va then
        match checkRWAttach (a_vol a) (a_now a) (a_lease a) (sbs (va_Name va)) (va_Name va) id v with
        | (v, Err e) => (v, Err e)
        | (v, Ok lk) => volume_guards a sbs id vas (release_lock lk v)
        end
      else volume_guards a sbs id vas v
  end.

(** What a callback leaves in the variables it captures. *)
Record captured := mkCaptured { c_volumes : option VolumeStore; c_log : list event; c_updated : option Sandbox }.

(** The callback of [Start] up to the driver: the transition, or the error. *)
Definition start_guard (a : Answers) (sbs : string → option (list Sandbox)) (vols : option VolumeStore) (rec : Sandbox)
    : option VolumeStore * result cb_error Transition :=
  match Next (SState rec) TriggerStart with
  | Err e => (vols, Err (CbIllegal e))
  | Ok tr =>
      if RemovalMarker rec then (vols, Err CbMarked)
      else
        match vols with
        | None => (vols, Ok tr)
        | Some v =>
            if a_diskDir a then (vols, Err CbDiskDir)
            else match volume_guards a sbs (SandboxID_String (ID rec)) (MountedVolumes rec) v with
                 | (v, Err e) => (Some v, Err (CbGuard e))
                 | (v, Ok _) => (Some v, Ok tr)
                 end
        end
  end.

(** The rest of it: the boot and the new record. *)
Definition started (drv : Driver) (a : Answers) (tr : Transition) (instanceID : string) (rec : Sandbox) : Sandbox :=
  set_netns (if dv_NetnsStateProvider drv then a_netns a else None)
    (set_SStopReason StopReasonNone (set_InstanceID instanceID (set_SState (t_next tr) rec))).

Definition start_callback (drv : Driver) (a : Answers) (sbs : string → option (list Sandbox)) (vols : option VolumeStore)
    (rec : Sandbox) : captured * result cb_error Sandbox :=
  match start_guard a sbs vols rec with
  | (vols, Err e) => (mkCaptured vols [] None, Err e)
  | (vols, Ok tr) =>
      match a_start a with
      | Err e => (mkCaptured vols [EvStart (ID rec)] None, Err (CbDriver e))
      | Ok instanceID =>
          let rec' := started drv a tr instanceID rec in
          (mkCaptured vols [EvStart (ID rec)] (Some rec'), Ok rec')
      end
  end.

(** The service after an [Update] with what its callback captured. *)
Definition after_update (s : Service) (fs : FS) (out : option captured) : Service :=
  match out with
  | None => set_fs fs s
  | Some c => add_log (c_log c) (set_volumes (c_volumes c) (set_fs fs s))
  end.

Definition startSupervisor (env : SupEnv) (sb : Sandbox) (s : Service) : Service * result sup_error unit :=
  match assemble_supervisor env sb with
  | Err e => (s, Err e)
  | Ok sup => (set_supervisors (<[ID sb := sup]> (sv_supervisors s)) s, Ok tt)
  end.

(** The listing the volume guard sees. *)
Definition listing (a : Answers) (fs : FS) (v : string) : option (list Sandbox) :=
  match List_ (E:=cb_error) (a_list a v) fs with Ok l => Some l | Err _ => None end.

Definition Start (drv : Driver) (a : Answers) (ref : string) (s : Service) : Service * result svc_error Sandbox :=
  match resolve (a_resolve a) ref s with
  | Err e => (s, Err (SvcStore e))
  | Ok sb =>
      match Next (SState sb) TriggerStart with
      | Err e => (s, Err (SvcIllegal e))
      | Ok _ =>
          if negb (github_secrets_bound (SEnvelope sb)) then (s, Err SvcUnbound)
          else
            let '(fs, out, res) :=
              Update (a_update a) (ID sb) (start_callback drv a (listing a (sv_fs s)) (sv_volumes s)) (sv_fs s) in
            let s := after_update s fs out in
            match res, out ≫= c_updated with
            | Ok _, Some updated =>
                if dv_NetworkHook drv && bool_decide (is_Some (sv_broker s)) then
                  match startSupervisor (a_sup a) updated s with
                  | (s, Err e) => (s, Err (SvcPerimeter e))
                  | (s, Ok _) => (s, Ok updated)
                  end
                else (s, Ok updated)
            | Err e, _ => (s, Err (SvcStore e))
            | Ok _, None => (s, Ok sb)
            end
      end
  end.

(** [StartPerimeterOnly] *)
Definition StartPerimeterOnly (drv : Driver) (a : Answers) (sb : Sandbox) (s : Service) : Service * result svc_error unit :=
  if negb (bool_decide (SState sb = Running)) then (s, Err SvcNotRunning)
  else if negb (dv_NetworkHook drv && bool_decide (is_Some (sv_broker s))) then (s, Ok tt)
  else match startSupervisor (a_sup a) sb s with
       | (s, Err e) => (s, Err (SvcPerimeter e))
       | (s, Ok _) => (s, Ok tt)
       end.

(** ** Stop, Pause, Resume *)

Definition closeSupervisor (id : SandboxID) (s : Service) : Service :=
  match sv_supervisors s !! id with
  | None => s
  | Some _ => add_log [EvCloseSupervisor id] (set_supervisors (delete id (sv_supervisors s)) s)
  end.

(** The shape [Stop], [Pause], [Resume] and [Snapshot] share: check, then under the record's
    lock check again, call the driver and assign. *)
Definition checked_callback (t : Trigger) (ev : SandboxID → event) (guard : Sandbox → result cb_error unit)
    (ans : result string unit) (assign : Sandbox → Sandbox) (vols : option VolumeStore) (rec : Sandbox)
    : captured * result cb_error Sandbox :=
  match Next (SState rec) t with
  | Err e => (mkCaptured vols [] None, Err (CbIllegal e))
  | Ok tr =>
      match guard rec with
      | Err e => (mkCaptured vols [] None, Err e)
      | Ok _ =>
          match ans with
          | Err e => (mkCaptured vols [ev (ID rec)] None, Err (CbDriver e))
          | Ok _ =>
              let rec' := assign (set_SState (t_next tr) rec) in
              (mkCaptured vols [ev (ID rec)] (Some rec'), Ok rec')
          end
      end
  end.

Definition no_guard (rec : Sandbox) : result cb_error unit := Ok tt.

Definition stop_callback (a : Answers) : option VolumeStore → Sandbox → captured * result cb_error Sandbox :=
  checked_callback TriggerStop EvStop no_guard (a_driver a)
    (λ rec, set_netns None (set_SStopReason StopReasonClean (set_InstanceID "" rec))).

Definition checked_update (capable : bool) (t : Trigger) (cb : option VolumeStore → Sandbox → captured * result cb_error Sandbox)
    (a : Answers) (ref : string) (s : Service) : Service * result svc_error Sandbox :=
  match resolve (a_resolve a) ref s with
  | Err e => (s, Err (SvcStore e))
  | Ok sb =>
      match Next (SState sb) t with
      | Err e => (s, Err (SvcIllegal e))
      | Ok _ =>
          if negb capable then (s, Err SvcNoSubstrate)
          else
            let '(fs, out, res) := Update (a_update a) (ID sb) (cb (sv_volumes s)) (sv_fs s) in
            let s := after_update s fs out in
            match res with
            | Err e => (s, Err (SvcStore e))
            | Ok _ => (s, Ok (default sb (out ≫= c_updated)))
            end
      end
  end.

Definition Stop (a : Answers) (ref : string) (s : Service) : Service * result svc_error Sandbox :=
  match checked_update true TriggerStop (stop_callback a) a ref s with
  | (s, Err e) => (s, Err e)
  | (s, Ok updated) => (closeSupervisor (ID updated) s, Ok updated)
  end.

Definition Pause (drv : Driver) (a : Answers) (ref : string) (s : Service) : Service * result svc_error Sandbox :=
  checked_update (dv_PauseResumer drv) TriggerPause
    (checked_callback TriggerPause EvPause no_guard (a_driver a) id) a ref s.

Definition Resume (drv : Driver) (a : Answers) (ref : string) (s : Service) : Service * result svc_error Sandbox :=
  checked_update (dv_PauseResumer drv) TriggerResume
    (checked_callback TriggerResume EvResume no_guard (a_driver a) id) a ref s.

(** ** Snapshot *)

Definition snapshot_guard (rec : Sandbox) : result cb_error unit :=
  match MountedVolumes rec with
  | [] => match LiveMounts rec with [] => Ok tt | lms => Err (CbLiveMounts (length lms)) end
  | vas => Err (CbVolumes (va_Name <$> vas))
  end.

(** [valid]: the snapshot the driver returned passes [Validate]. *)
Definition snapshot_callback (a : Answers) (valid : bool) (vols : option VolumeStore) (rec : Sandbox)
    : captured * result cb_error Sandbox :=
  match Next (SState rec) TriggerSnapshot with
  | Err e => (mkCaptured vols [] None, Err (CbIllegal e))
  | Ok tr =>
      match snapshot_guard rec with
      | Err e => (mkCaptured vols [] None, Err e)
      | Ok _ =>
          match a_snapshot a with
          | Err e => (mkCaptured vols [EvSnapshot (ID rec)] None, Err (CbDriver e))
          | Ok _ =>
              if valid then
                let rec' := set_SState (t_next tr) rec in
                (mkCaptured vols [EvSnapshot (ID rec)] (Some rec'), Ok rec')
              else (mkCaptured vols [EvSnapshot (ID rec)] None, Err CbIntegrity)
          end
      end
  end.

(** The name of the snapshot is the driver's. *)
Definition Snapshot (drv : Driver) (a : Answers) (valid : bool) (ref : string) (s : Service)
    : Service * result svc_error string :=
  match checked_update (dv_Snapshotter drv) TriggerSnapshot (snapshot_callback a valid) a ref s with
  | (s, Err e) => (s, Err e)
  | (s, Ok _) => (s, Ok match a_snapshot a with Ok n => n | Err _ => ""%string end)
  end.

(** ** Remove *)

Definition storeDeregistrar (id : SandboxID) (s : Service) : Service := set_deregistrars ({[id]} ∪ sv_deregistrars s) s.

Definition dropDeregistrar (id : SandboxID) (s : Service) : Service :=
  if bool_decide (id ∈ sv_deregistrars s)
  then add_log [EvDeregister id] (set_deregistrars (sv_deregistrars s ∖ {[id]}) s)
  else s.

Definition remove_callback (a : Answers) (vols : option VolumeStore) (rec : Sandbox) : captured * result cb_error Sandbox :=
  match a_driver a with
  | Err e => (mkCaptured vols [EvStop (ID rec)] None, Err (CbDriver e))
  | Ok _ => (mkCaptured vols [EvStop (ID rec)] (Some rec), Ok rec)
  end.

(** Errors of a detach are dropped. *)
Definition detach_all (io : Fails) (id : string) (names : list string) (v : VolumeStore) : VolumeStore :=
  fold_left (λ v n, (Detach io n id v).1) names v.

(** The volumes of the record, then every other volume that lists the sandbox. *)
Definition detach_volumes (io : Fails) (id : string) (mounted : list string) (v : VolumeStore) : VolumeStore :=
  let v := detach_all io id mounted v in
  match List_volumes io v with
  | Err _ => v
  | Ok recs =>
      detach_all io id
        (vr_Name <$> List.filter (λ r, negb (bool_decide (vr_Name r ∈ mounted)) && bool_decide (id ∈ attached_ids r)) recs) v
  end.

(** After the record is deleted; failures are dropped. *)
Definition remove_leftovers (a : Answers) (sb : Sandbox) (s : Service) : Service :=
  let s := set_disks (ReapDiskCopy (a_rm a) (ID sb) (sv_disks s)).1 s in
  let s := set_disks (ReapShadowDisks (a_rm a) (Handle sb) (sv_disks s)).1 s in
  let s := if a_rm a "state dir" then s else set_stateDirs (sv_stateDirs s ∖ {[ID sb]}) s in
  match sv_volumes s with
  | None => s
  | Some v => set_volumes (Some (detach_volumes (a_vol a) (SandboxID_String (ID sb)) (va_Name <$> MountedVolumes sb) v)) s
  end.

Definition revoke_hosts (id : SandboxID) (hosts : list string) (b : Broker) : Broker :=
  fold_left (λ b h, Revoke id h b) hosts b.

(** Between the stop of the virtual machine and the deletion of the record. *)
Definition release_process_state (sb : Sandbox) (s : Service) : Service :=
  let s := dropDeregistrar (ID sb) (closeSupervisor (ID sb) s) in
  set_broker (revoke_hosts (ID sb) (AllowedHosts (SEnvelope sb)) <$> sv_broker s) s.

(** Steps 1 and 2: the durable marker, then the stop under the record's lock. *)
Definition mark_and_stop (a : Answers) (sb : Sandbox) (s : Service) : Service * result svc_error unit :=
  match SetRemovalMarker (a_marker a) (ID sb) (sv_fs s) with
  | (fs, Err e) => (set_fs fs s, Err (SvcStore (lift_store e)))
  | (fs, Ok _) =>
      let s := set_fs fs s in
      let '(fs, out, res) := Update (a_update a) (ID sb) (remove_callback a (sv_volumes s)) (sv_fs s) in
      (after_update s fs out, lift_err SvcStore res)
  end.

Definition Remove (a : Answers) (ref : string) (s : Service) : Service * result svc_error unit :=
  match resolve (a_resolve a) ref s with
  | Err e => (s, Err (SvcStore e))
  | Ok sb =>
      match mark_and_stop a sb s with
      | (s, Err e) => (s, Err e)
      | (s, Ok _) =>
          let s := release_process_state sb s in
          match Store.Delete (E:=cb_error) (a_delete a) (ID sb) (sv_fs s) with
          | (fs, Err e) => (set_fs fs s, Err (SvcStore e))
          | (fs, Ok _) => (remove_leftovers a sb (set_fs fs s), Ok tt)
          end
      end
  end.

(** ** Reading *)

Lemma Get_sound {E} io id fs sb : Store.Get (E:=E) io id fs = Ok sb → lookup_sandbox fs id = Some sb.
Proof.
  unfold Store.Get, read_at, lookup_sandbox. destruct (io_ctx io); [done|]. destruct (io_read io _); [done|].
  destruct (fs !! _) as [[|d]|]; [done| |done]. destruct (Store.readRecord (sd_record d)) as [r|] eqn:Er; [|done].
  intros [= <-]. by eapply dir_sandbox_read.
Qed.

Lemma lookup_at_own_id fs id sb :
  store_wf fs → lookup_sandbox fs id = Some sb → wf_id (ID sb) ∧ lookup_sandbox fs (ID sb) = Some sb.
Proof.
  intros Hwf Hl. destruct (lookup_sandbox_dir _ _ _ Hl) as [d Hd]. unfold lookup_sandbox in *. rewrite Hd in Hl.
  destruct (Hwf _ _ _ Hd Hl) as [Hn Hw]. split; [done|]. by rewrite <- Hn, Hd.
Qed.

Lemma List_sound {E} io fs l sb :
  store_wf fs → List_ (E:=E) io fs = Ok l → sb ∈ l → wf_id (ID sb) ∧ lookup_sandbox fs (ID sb) = Some sb.
Proof.
  intros Hwf. unfold List_. destruct (io_ctx io), (io_readdir io); try done. intros [= <-].
  intros ([n e] & Hin%dir_entries_elem & He)%list_elem_of_omap. unfold list_entry, read_at in He. cbn in He.
  destruct e as [|d]; [done|]. destruct (io_read io n); [done|]. rewrite Hin in He.
  destruct (Store.readRecord (E:=Empty_set) (sd_record d)) as [r|] eqn:Er; [|done]. injection He as <-.
  apply dir_sandbox_read in Er. destruct (Hwf _ _ _ Hin Er) as [-> Hw]. split; [done|].
  unfold lookup_sandbox. by rewrite Hin.
Qed.

Lemma resolve_sound io ref s sb :
  store_wf (sv_fs s) → resolve io ref s = Ok sb → wf_id (ID sb) ∧ lookup_sandbox (sv_fs s) (ID sb) = Some sb.
Proof.
  intros Hwf. unfold resolve. destruct (Contains ref "/").
  - unfold ResolveByHandle. destruct (ParseHandle ref) as [[p n]|]; [|done]. destruct (List_ io (sv_fs s)) as [l|] eqn:El; [|done].
    cbn [rbind]. pose proof (find_sandbox_spec (handle_matches p n) l) as Hf. destruct (find_sandbox _ l) as [sb'|]; [|done].
    intros [= <-]. eapply List_sound; [done..|]. apply Hf.
  - destruct (ParseSandboxID ref) as [id|].
    + intros H%Get_sound. by eapply lookup_at_own_id.
    + unfold ResolveByPrefix. destruct (List_ io (sv_fs s)) as [l|]; [|done]. cbn [rbind].
      destruct (ResolvePrefix _ _) as [id|]; [|done]. intros H%Get_sound. by eapply lookup_at_own_id.
Qed.

(** ** How records change *)

(** What no operation on an existing sandbox changes, the marker that is never taken back, and
    a state that moves along the lifecycle. *)
Record evolves (sb sb' : Sandbox) : Prop := {
  ev_ID : ID sb' = ID sb;
  ev_Name : Name sb' = Name sb;
  ev_Project : Project sb' = Project sb;
  ev_Labels : Labels sb' = Labels sb;
  ev_Envelope : SEnvelope sb' = SEnvelope sb;
  ev_RemoveOnExit : SRemoveOnExit sb' = SRemoveOnExit sb;
  ev_Provenance : SProvenance sb' = SProvenance sb;
  ev_Volumes : MountedVolumes sb' = MountedVolumes sb;
  ev_LiveMounts : LiveMounts sb' = LiveMounts sb;
  ev_AgentName : AgentName sb' = AgentName sb;
  ev_Marker : RemovalMarker sb = true → RemovalMarker sb' = true;
  ev_State : SState sb' = SState sb ∨ lifecycle_step (SState sb) (SState sb');
}.

Lemma evolves_refl sb : evolves sb sb.
Proof. constructor; auto. Qed.

Lemma evolves_persisted sb sb' : evolves sb sb' → evolves sb (persisted sb').
Proof. intros []. destruct sb'. by constructor. Qed.

Lemma evolves_trans_same a b c : SState b = SState a → evolves a b → evolves b c → evolves a c.
Proof.
  intros Hs [] []. rewrite Hs in *. constructor; try congruence; auto.
Qed.

Lemma set_SState_evolves t rec tr :
  Next (SState rec) t = Ok tr → t_remove tr = false → evolves rec (set_SState (t_next tr) rec).
Proof.
  intros Hn Hr. destruct rec as [??????????????????????????]. constructor; try done. right. cbn in *.
  destruct tr as [r n]. cbn in *. subst r. by econstructor.
Qed.

(** Only the exit of the primary command removes. *)
Lemma Next_keeps from t tr : Next from t = Ok tr → t ≠ TriggerPrimaryCommandExit → t_remove tr = false.
Proof. destruct from, t; vm_compute; intros [= <-] H; done. Qed.

Definition fs_evolves (created : Sandbox → Prop) (fs fs' : FS) : Prop :=
  ∀ id, wf_id id →
  match lookup_sandbox fs id, lookup_sandbox fs' id with
  | Some sb, Some sb' => evolves sb sb'
  | None, Some sb' => created sb'
  | _, None => True
  end.

Lemma fs_evolves_refl P fs : fs_evolves P fs fs.
Proof. intros id _. destruct (lookup_sandbox fs id); [apply evolves_refl|done]. Qed.

Lemma Update_evolves {A E} P io id (fn : Sandbox → A * result E Sandbox) fs :
  wf_id id → (∀ sb sb', (fn sb).2 = Ok sb' → evolves sb sb') → fs_evolves P fs (Update io id fn fs).1.1.
Proof.
  intros Hid Hfn id' Hid'. destruct (Update io id fn fs) as [[fs' out] res] eqn:Eu. cbn.
  destruct (decide (id' = id)) as [->|Hne]; last first.
  { pose proof (Update_frame io id id' fn fs Hid Hid' Hne) as Hf. rewrite Eu in Hf. cbn in Hf. rewrite Hf.
    destruct (lookup_sandbox fs id'); [apply evolves_refl|done]. }
  apply Update_effect in Eu. unfold update_effect in Eu. destruct out as [a|].
  - destruct Eu as (sb & Hb & _ & H). rewrite Hb. destruct (fn sb).2 as [sb'|e] eqn:Ef.
    + assert (Hev : evolves sb (persisted sb')) by (by apply evolves_persisted, Hfn).
      destruct res as [|e]; [destruct H as [-> _]; done|]. destruct H as [_ [->|[-> _]]]; [rewrite Hb; apply evolves_refl|done].
    + destruct H as [-> _]. rewrite Hb. apply evolves_refl.
  - destruct Eu as [-> _]. destruct (lookup_sandbox fs id); [apply evolves_refl|done].
Qed.

Lemma Delete_evolves {E} P io id fs : wf_id id → fs_evolves P fs (Store.Delete (E:=E) io id fs).1.
Proof.
  intros Hid id' Hid'. pose proof (Delete_effect (E:=E) io id fs) as He.
  pose proof (Delete_frame (E:=E) io id id' fs Hid Hid') as Hf.
  destruct (Store.Delete io id fs) as [fs' res]. cbn in *. destruct (decide (id' = id)) as [->|Hne].
  - destruct He as [[->| ->] _]; [|by destruct (lookup_sandbox fs id)].
    destruct (lookup_sandbox fs id); [apply evolves_refl|done].
  - rewrite (Hf Hne). destruct (lookup_sandbox fs id'); [apply evolves_refl|done].
Qed.

Lemma evolves_netns ns a b : evolves a b → evolves a (set_netns ns b).
Proof. intros []. destruct b. by constructor. Qed.
Lemma evolves_StopReason r a b : evolves a b → evolves a (set_SStopReason r b).
Proof. intros []. destruct b. by constructor. Qed.
Lemma evolves_InstanceID i a b : evolves a b → evolves a (set_InstanceID i b).
Proof. intros []. destruct b. by constructor. Qed.
Lemma evolves_marker a b : evolves a b → evolves a (set_RemovalMarker true b).
Proof. intros []. destruct b. by constructor. Qed.

Create HintDb evolve.
#[export] Hint Resolve evolves_refl evolves_netns evolves_StopReason evolves_InstanceID evolves_marker : evolve.

Lemma start_guard_Ok a sbs vols rec vols' tr :
  start_guard a sbs vols rec = (vols', Ok tr) → Next (SState rec) TriggerStart = Ok tr ∧ RemovalMarker rec = false.
Proof. unfold start_guard. repeat case_match; intros [= <- <-]; done. Qed.

Lemma start_callback_evolves drv a sbs vols rec rec' :
  (start_callback drv a sbs vols rec).2 = Ok rec' → evolves rec rec'.
Proof.
  unfold start_callback. destruct (start_guard a sbs vols rec) as [vols' [tr|e]] eqn:Eg; [|done].
  destruct (a_start a); [|done]. intros [= <-]. apply start_guard_Ok in Eg as [Hn _].
  unfold started. apply evolves_netns, evolves_StopReason, evolves_InstanceID.
  eapply set_SState_evolves; [done|]. by eapply Next_keeps.
Qed.

Lemma checked_callback_evolves t ev guard ans assign vols rec rec' :
  t ≠ TriggerPrimaryCommandExit → (∀ x y, evolves x y → evolves x (assign y)) →
  (checked_callback t ev guard ans assign vols rec).2 = Ok rec' → evolves rec rec'.
Proof.
  intros Ht Ha. unfold checked_callback. destruct (Next (SState rec) t) as [tr|] eqn:En; [|done].
  destruct (guard rec); [|done]. destruct ans; [|done]. intros [= <-]. apply Ha.
  eapply set_SState_evolves; [done|]. by eapply Next_keeps.
Qed.

Lemma snapshot_callback_evolves a valid vols rec rec' :
  (snapshot_callback a valid vols rec).2 = Ok rec' → evolves rec rec'.
Proof.
  unfold snapshot_callback. destruct (Next (SState rec) TriggerSnapshot) as [tr|] eqn:En; [|done].
  destruct (snapshot_guard rec); [|done]. destruct (a_snapshot a); [|done]. destruct valid; [|done]. intros [= <-].
  eapply set_SState_evolves; [done|]. by eapply Next_keeps.
Qed.

Lemma remove_callback_same a vols rec rec' : (remove_callback a vols rec).2 = Ok rec' → rec' = rec.
Proof. unfold remove_callback. destruct (a_driver a); by intros [= <-]. Qed.

(** ** The invariant of the service *)

Definition svc_wf (s : Service) : Prop := store_wf (sv_fs s) ∧ ∀ v, sv_volumes s = Some v → vols_inv v.

Lemma inv_volume_guards a sbs id vas v : vols_inv v → vols_inv (volume_guards a sbs id vas v).1.
Proof.
  revert v. induction vas as [|va vas IH]; intros v Hv; [done|]. cbn. destruct (rw_disk va); [|by apply IH].
  pose proof (inv_checkRWAttach (a_vol a) (a_now a) (a_lease a) (sbs (va_Name va)) (va_Name va) id v Hv) as H.
  destruct (checkRWAttach _ _ _ _ _ _ v) as [v' [lk|e]]; [|done]. apply IH. by apply inv_held.
Qed.

Lemma inv_start_guard a sbs vols rec :
  (∀ v, vols = Some v → vols_inv v) → ∀ v, (start_guard a sbs vols rec).1 = Some v → vols_inv v.
Proof.
  intros Hv v. unfold start_guard. destruct (Next _ _); [|by apply Hv]. destruct (RemovalMarker rec); [by apply Hv|].
  destruct vols as [v0|]; [|done]. destruct (a_diskDir a); [by apply Hv|].
  pose proof (inv_volume_guards a sbs (SandboxID_String (ID rec)) (MountedVolumes rec) v0 (Hv v0 eq_refl)) as H.
  destruct (volume_guards _ _ _ _ v0) as [v1 [u|e]]; cbn in *; by intros [= <-].
Qed.

Lemma start_callback_volumes drv a sbs vols rec :
  c_volumes (start_callback drv a sbs vols rec).1 = (start_guard a sbs vols rec).1.
Proof. unfold start_callback. destruct (start_guard a sbs vols rec) as [? [?|?]]; [|done]. by destruct (a_start a). Qed.

(** One [Update] of a record of the service. *)
Lemma update_step_wf io id (cb : Sandbox → captured * result cb_error Sandbox) s fs out res :
  svc_wf s → wf_id id → (∀ sb sb', (cb sb).2 = Ok sb' → evolves sb sb') →
  (∀ rec v, c_volumes (cb rec).1 = Some v → vols_inv v) →
  Update io id cb (sv_fs s) = (fs, out, res) → svc_wf (after_update s fs out).
Proof.
  intros [Hwf Hv] Hid Hcb Hvol Eu.
  assert (Hfs : store_wf fs).
  { change fs with ((fs, out, res).1.1). rewrite <- Eu. apply Update_store_wf; [done| |done]. intros sb sb' H. by apply Hcb in H as []. }
  apply Update_effect in Eu. unfold update_effect in Eu. destruct out as [c|]; [|by split].
  destruct Eu as (sb & _ & <- & _). split; [done|]. cbn. intros v. apply Hvol.
Qed.

Lemma after_update_fs s fs out : sv_fs (after_update s fs out) = fs.
Proof. by destruct out. Qed.

Lemma checked_update_step capable t cb a ref s P :
  svc_wf s → (∀ vols sb sb', (cb vols sb).2 = Ok sb' → evolves sb sb') →
  (∀ vols rec, c_volumes (cb vols rec).1 = vols) →
  svc_wf (checked_update capable t cb a ref s).1 ∧ fs_evolves P (sv_fs s) (sv_fs (checked_update capable t cb a ref s).1).
Proof.
  intros Hwf Hcb Hvol. unfold checked_update.
  destruct (resolve (a_resolve a) ref s) as [sb|] eqn:Er; [|split; [done|apply fs_evolves_refl]].
  destruct (resolve_sound _ _ _ _ (proj1 Hwf) Er) as [Hid _].
  destruct (Next _ t); [|split; [done|apply fs_evolves_refl]]. destruct capable; [|split; [done|apply fs_evolves_refl]]. cbn [negb].
  pose proof (Update_evolves P (a_update a) (ID sb) (cb (sv_volumes s)) (sv_fs s) Hid (Hcb _)) as Hev.
  destruct (Update (a_update a) (ID sb) (cb (sv_volumes s)) (sv_fs s)) as [[fs out] res] eqn:Eu. cbn in Hev.
  assert (H : svc_wf (after_update s fs out)).
  { eapply update_step_wf; [done|exact Hid|apply Hcb| |exact Eu]. intros rec v. rewrite Hvol. by apply Hwf. }
  destruct res; cbn; rewrite after_update_fs; done.
Qed.

Lemma startSupervisor_fs env sb s : sv_fs (startSupervisor env sb s).1 = sv_fs s ∧ sv_volumes (startSupervisor env sb s).1 = sv_volumes s
  ∧ sv_log (startSupervisor env sb s).1 = sv_log s.
Proof. unfold startSupervisor. by destruct (assemble_supervisor env sb). Qed.

Lemma closeSupervisor_fs id s : sv_fs (closeSupervisor id s) = sv_fs s ∧ sv_volumes (closeSupervisor id s) = sv_volumes s.
Proof. unfold closeSupervisor. by destruct (sv_supervisors s !! id). Qed.

Lemma svc_wf_same s s' : sv_fs s' = sv_fs s → sv_volumes s' = sv_volumes s → svc_wf s → svc_wf s'.
Proof. unfold svc_wf. by intros -> ->. Qed.

Lemma Start_step drv a ref s P :
  svc_wf s → svc_wf (Start drv a ref s).1 ∧ fs_evolves P (sv_fs s) (sv_fs (Start drv a ref s).1).
Proof.
  intros Hwf. unfold Start.
  destruct (resolve (a_resolve a) ref s) as [sb|] eqn:Er; [|split; [done|apply fs_evolves_refl]].
  destruct (resolve_sound _ _ _ _ (proj1 Hwf) Er) as [Hid _].
  destruct (Next _ _); [|split; [done|apply fs_evolves_refl]].
  destruct (github_secrets_bound _); [|split; [done|apply fs_evolves_refl]]. cbn [negb].
  set (cb := start_callback drv a (listing a (sv_fs s)) (sv_volumes s)).
  pose proof (Update_evolves P (a_update a) (ID sb) cb (sv_fs s) Hid (start_callback_evolves _ _ _ _)) as Hev.
  destruct (Update (a_update a) (ID sb) cb (sv_fs s)) as [[fs out] res] eqn:Eu. cbn in Hev.
  assert (H : svc_wf (after_update s fs out)).
  { eapply update_step_wf; [done|exact Hid|apply start_callback_evolves| |exact Eu]. intros rec v. unfold cb.
    rewrite start_callback_volumes. apply inv_start_guard. by apply Hwf. }
  cbv zeta. destruct res; [|by cbn; rewrite after_update_fs]. destruct (out ≫= c_updated) as [u|]; [|by cbn; rewrite after_update_fs].
  destruct (_ && _); [|by cbn; rewrite after_update_fs].
  destruct (startSupervisor_fs (a_sup a) u (after_update s fs out)) as (H1 & H2 & _).
  destruct (startSupervisor _ _ _) as [s1 [|]]; cbn in *; rewrite H1, after_update_fs; (split; [|done]);
    (eapply svc_wf_same; [exact H1|exact H2|done]).
Qed.

(** Changes that keep every record and its state. *)
Definition fs_marks (fs fs' : FS) : Prop :=
  ∀ id, wf_id id →
  match lookup_sandbox fs id, lookup_sandbox fs' id with
  | Some sb, Some sb' => evolves sb sb' ∧ SState sb' = SState sb
  | None, None => True
  | _, _ => False
  end.

Lemma Update_marks {A E} io id (fn : Sandbox → A * result E Sandbox) fs :
  wf_id id → (∀ sb sb', (fn sb).2 = Ok sb' → evolves sb sb' ∧ SState sb' = SState sb) → fs_marks fs (Update io id fn fs).1.1.
Proof.
  intros Hid Hfn id' Hid'. destruct (Update io id fn fs) as [[fs' out] res] eqn:Eu. cbn.
  assert (Hsame : match lookup_sandbox fs id' with Some sb => evolves sb sb ∧ SState sb = SState sb | None => True end)
    by (destruct (lookup_sandbox fs id'); [split; [apply evolves_refl|done]|done]).
  destruct (decide (id' = id)) as [->|Hne]; last first.
  { pose proof (Update_frame io id id' fn fs Hid Hid' Hne) as Hf. rewrite Eu in Hf. cbn in Hf. rewrite Hf.
    by destruct (lookup_sandbox fs id'). }
  apply Update_effect in Eu. unfold update_effect in Eu. destruct out as [a|].
  - destruct Eu as (sb & Hb & _ & H). rewrite Hb in *. destruct (fn sb).2 as [sb'|e] eqn:Ef.
    + destruct (Hfn _ _ Ef) as [Hev Hst].
      assert (Hp : evolves sb (persisted sb') ∧ SState (persisted sb') = SState sb)
        by (split; [by apply evolves_persisted|by rewrite SState_persisted]).
      destruct res as [|e]; [by destruct H as [-> _]|]. by destruct H as [_ [->|[-> _]]].
    + by destruct H as [-> _].
  - destruct Eu as [-> _]. by destruct (lookup_sandbox fs id).
Qed.

Lemma fs_marks_evolves P fs fs' fs'' : fs_marks fs fs' → fs_evolves P fs' fs'' → fs_evolves P fs fs''.
Proof.
  intros H1 H2 id Hid. specialize (H1 id Hid). specialize (H2 id Hid).
  destruct (lookup_sandbox fs id), (lookup_sandbox fs' id), (lookup_sandbox fs'' id); try done.
  destruct H1 as [He Hs]. by eapply evolves_trans_same.
Qed.

Lemma marker_facts io id fs fs' res :
  store_wf fs → wf_id id → SetRemovalMarker io id fs = (fs', res) →
  store_wf fs' ∧ fs_marks fs fs' ∧
  (res = Ok tt → ∃ sb, lookup_sandbox fs id = Some sb ∧ lookup_sandbox fs' id = Some (persisted (set_RemovalMarker true sb))).
Proof.
  intros Hwf Hid. unfold SetRemovalMarker.
  set (fn := λ sb, (tt, Ok (set_RemovalMarker true sb)) : unit * result Empty_set Sandbox).
  assert (Hfn : ∀ sb sb', (fn sb).2 = Ok sb' → evolves sb sb' ∧ SState sb' = SState sb).
  { intros sb sb' [= <-]. split; [apply evolves_marker, evolves_refl|by destruct sb]. }
  pose proof (Update_marks io id fn fs Hid Hfn) as Hm.
  assert (Hw : store_wf (Update io id fn fs).1.1)
    by (apply Update_store_wf; [done| |done]; intros sb sb' H; by apply Hfn in H as [[] _]).
  destruct (Update io id fn fs) as [[fs1 out] r] eqn:Eu. intros [= <- <-]. split; [done|]. split; [done|].
  intros ->. apply Update_effect in Eu. unfold update_effect in Eu. destruct out as [u|]; [|by destruct Eu].
  destruct Eu as (sb & Hb & _ & H). cbn in H. destruct H as [H _]. eauto.
Qed.

Lemma inv_detach_all io id ns v : vols_inv v → vols_inv (detach_all io id ns v).
Proof.
  unfold detach_all. revert v. induction ns as [|n ns IH]; intros v Hv; [done|]. cbn. apply IH. by apply inv_update_locked.
Qed.

Lemma inv_detach_volumes io id ns v : vols_inv v → vols_inv (detach_volumes io id ns v).
Proof. intros Hv. unfold detach_volumes. destruct (List_volumes _ _); by repeat apply inv_detach_all. Qed.

Lemma release_process_state_fs sb s :
  sv_fs (release_process_state sb s) = sv_fs s ∧ sv_volumes (release_process_state sb s) = sv_volumes s.
Proof.
  unfold release_process_state, dropDeregistrar. destruct (closeSupervisor_fs (ID sb) s) as [H1 H2]. cbn.
  case_bool_decide; cbn; done.
Qed.

Lemma remove_leftovers_fs a sb s : sv_fs (remove_leftovers a sb s) = sv_fs s ∧ (svc_wf s → svc_wf (remove_leftovers a sb s)).
Proof.
  unfold remove_leftovers. cbv zeta. destruct (a_rm a "state dir"); cbn; (destruct (sv_volumes s) as [v|] eqn:Ev; cbn;
    (split; [done|]); intros [Hw Hv]; (split; [done|]); cbn; [intros v' [= <-]; by apply inv_detach_volumes, Hv|by intros v'; rewrite Ev]).
Qed.

Lemma mark_and_stop_step a sb s :
  svc_wf s → wf_id (ID sb) →
  svc_wf (mark_and_stop a sb s).1 ∧ sv_volumes (mark_and_stop a sb s).1 = sv_volumes s ∧
  ∀ P fs, fs_evolves P (sv_fs (mark_and_stop a sb s).1) fs → fs_evolves P (sv_fs s) fs.
Proof.
  intros Hwf Hid. unfold mark_and_stop. destruct (SetRemovalMarker (a_marker a) (ID sb) (sv_fs s)) as [fs1 r1] eqn:Em.
  destruct (marker_facts _ _ _ _ _ (proj1 Hwf) Hid Em) as (Hw1 & Hm1 & _).
  assert (H1 : svc_wf (set_fs fs1 s)) by (split; [done|apply Hwf]).
  destruct r1 as [u|e]; [|split; [done|]; split; [done|]; intros P fs Hev; by eapply fs_marks_evolves].
  cbn [sv_volumes set_fs sv_fs]. set (cb := remove_callback a (sv_volumes s)).
  assert (Hcb : ∀ x y, (cb x).2 = Ok y → evolves x y ∧ SState y = SState x)
    by (intros x y H%remove_callback_same; subst; split; [apply evolves_refl|done]).
  assert (Hcv : ∀ x, c_volumes (cb x).1 = sv_volumes s) by (intros x; unfold cb, remove_callback; by destruct (a_driver a)).
  pose proof (Update_marks (a_update a) (ID sb) cb fs1 Hid Hcb) as Hm2.
  destruct (Update (a_update a) (ID sb) cb fs1) as [[fs2 out] r2] eqn:Eu. cbn in Hm2 |- *. split; [|split].
  - eapply update_step_wf; [exact H1|exact Hid| | |exact Eu]; [intros x y H; by apply Hcb|].
    intros rec v. rewrite Hcv. apply Hwf.
  - apply Update_effect in Eu. unfold update_effect in Eu. destruct out as [c|]; [|done].
    destruct Eu as (? & _ & <- & _). apply Hcv.
  - rewrite after_update_fs. intros P fs Hev. do 2 (eapply fs_marks_evolves; [eassumption|]). exact Hev.
Qed.

Lemma Remove_step a ref s P :
  svc_wf s → svc_wf (Remove a ref s).1 ∧ fs_evolves P (sv_fs s) (sv_fs (Remove a ref s).1).
Proof.
  intros Hwf. unfold Remove.
  destruct (resolve (a_resolve a) ref s) as [sb|] eqn:Er; [|split; [done|apply fs_evolves_refl]].
  destruct (resolve_sound _ _ _ _ (proj1 Hwf) Er) as [Hid _].
  destruct (mark_and_stop_step a sb s Hwf Hid) as (H2 & _ & Hev).
  destruct (mark_and_stop a sb s) as [s2 [u|e]]; cbn [fst] in *; [|split; [done|apply Hev, fs_evolves_refl]].
  destruct (release_process_state_fs sb s2) as [H3 H4]. rewrite H3.
  pose proof (Delete_evolves (E:=cb_error) P (a_delete a) (ID sb) (sv_fs s2) Hid) as Hd.
  pose proof (Delete_store_wf (E:=cb_error) (a_delete a) (ID sb) (sv_fs s2) (proj1 H2)) as Hdw.
  destruct (Store.Delete (a_delete a) (ID sb) (sv_fs s2)) as [fs3 r3]. cbn in Hd, Hdw.
  assert (Hw3 : svc_wf (set_fs fs3 (release_process_state sb s2))).
  { split; [done|]. intros v Hv. apply (proj2 H2). rewrite <- H4. exact Hv. }
  destruct (remove_leftovers_fs a sb (set_fs fs3 (release_process_state sb s2))) as [H5 H6].
  destruct r3; cbn [fst]; rewrite ?H5; (split; [by auto|]); apply Hev; exact Hd.
Qed.

Lemma Create_effect {E} io sb fs :
  let fs' := (Store.Create (E:=E) io sb fs).1 in
  fs' = fs ∨ lookup_sandbox fs (ID sb) = None ∧
             (lookup_sandbox fs' (ID sb) = None ∨ lookup_sandbox fs' (ID sb) = Some (persisted sb)).
Proof.
  unfold Store.Create. cbv zeta. destruct (io_ctx io); [by left|].
  destruct (validateState (SState sb)) as [[]|] eqn:Ev; [|by left]. apply validateState_ok in Ev.
  destruct (fs !! sandboxDir (ID sb)) eqn:Ed; [by left|]. destruct (io_mkdir io); [by left|]. right.
  split; [unfold lookup_sandbox; by rewrite Ed|].
  destruct (io_sync_parent io); [left; apply lookup_insert_dir|]. destruct (io_lock_init io); [left; apply lookup_insert_dir|].
  pose proof (writeRecord_spec (E:=E) (io_write io) (toRecord sb) (Store.set_lock empty_dir) Ev) as [Hw _].
  destruct (Store.writeRecord _ _ _) as [d res]. cbn. rewrite lookup_insert_dir.
  destruct res; [right; apply dir_sandbox_new, Hw|]. destruct Hw as [Hw|Hw]; [left|right; by apply dir_sandbox_new].
  unfold dir_sandbox. by rewrite Hw.
Qed.

Lemma Create_evolves {E} (P : Sandbox → Prop) io sb fs :
  wf_id (ID sb) → P (persisted sb) → fs_evolves P fs (Store.Create (E:=E) io sb fs).1.
Proof.
  intros Hid HP id Hid'. pose proof (Create_effect (E:=E) io sb fs) as He. pose proof (Create_spec (E:=E) io sb fs Hid) as Hs.
  destruct (Store.Create io sb fs) as [fs' res]. cbn in *. destruct Hs as [Hother _].
  destruct (decide (id = ID sb)) as [->|Hne]; last first.
  { rewrite (Hother id Hid' Hne). destruct (lookup_sandbox fs id); [apply evolves_refl|done]. }
  destruct He as [->|[-> [->| ->]]]; [|done|done]. destruct (lookup_sandbox fs (ID sb)); [apply evolves_refl|done].
Qed.

Lemma fs_evolves_delete {E} P io id fs fs' :
  wf_id id → fs_evolves P fs fs' → fs_evolves P fs (Store.Delete (E:=E) io id fs').1.
Proof.
  intros Hid H id' Hid'. specialize (H id' Hid'). pose proof (Delete_effect (E:=E) io id fs') as He.
  pose proof (Delete_frame (E:=E) io id id' fs' Hid Hid') as Hf. destruct (Store.Delete io id fs') as [fs'' res]. cbn in *.
  destruct (decide (id' = id)) as [->|Hne]; [|by rewrite (Hf Hne)].
  destruct He as [[->| ->] _]; [done|by destruct (lookup_sandbox fs id)].
Qed.

Lemma reapBuilders_step P ios alive all fs0 s :
  Forall (λ sb, wf_id (ID sb)) all → svc_wf s → fs_evolves P fs0 (sv_fs s) →
  svc_wf (reapBuilders ios alive all s) ∧ fs_evolves P fs0 (sv_fs (reapBuilders ios alive all s)).
Proof.
  revert s. induction all as [|sb all IH]; intros s Hall Hwf Hev; [done|]. apply Forall_cons in Hall as [Hid Hall]. cbn [reapBuilders].
  destruct (is_dead_builder alive sb); [|by apply IH]. apply IH; [done| |].
  - split; [cbn; apply Delete_store_wf, Hwf|apply Hwf].
  - cbn. by apply fs_evolves_delete.
Qed.

(** A call of a method of this file, whatever it is given and whatever fails; ServiceSteps adds the others. *)
Inductive svc_step : Service → Service → Prop :=
| sst_Create io ioc id project name opts s : wf_id id → svc_step s (Create io ioc id project name opts s).1
| sst_List io ios alive s : svc_step s (List_sandboxes io ios alive s).1
| sst_Start drv a ref s : svc_step s (Start drv a ref s).1
| sst_StartPerimeterOnly drv a sb s : svc_step s (StartPerimeterOnly drv a sb s).1
| sst_Stop a ref s : svc_step s (Stop a ref s).1
| sst_Pause drv a ref s : svc_step s (Pause drv a ref s).1
| sst_Resume drv a ref s : svc_step s (Resume drv a ref s).1
| sst_Snapshot drv a valid ref s : svc_step s (Snapshot drv a valid ref s).1
| sst_Remove a ref s : svc_step s (Remove a ref s).1.

(** A record as [Create] writes it. *)
Definition fresh_record (sb : Sandbox) : Prop :=
  SState sb = Created ∧ SEnvelope sb = empty_envelope ∧ RemovalMarker sb = false ∧ InstanceID sb = ""%string.

Lemma svc_step_facts s s' :
  svc_step s s' → svc_wf s → svc_wf s' ∧ fs_evolves fresh_record (sv_fs s) (sv_fs s').
Proof.
  intros Hs Hwf. destruct Hs.
  - unfold Create. destruct (ResolveByHandle io _ _) as [sb|[]]; try (split; [done|apply fs_evolves_refl]).
    set (sb := new_sandbox id project name opts).
    pose proof (Create_evolves (E:=cb_error) fresh_record ioc sb (sv_fs s) H ltac:(done)) as Hev.
    pose proof (Create_store_wf (E:=cb_error) ioc sb (sv_fs s) H (proj1 Hwf)) as Hw.
    destruct (Store.Create ioc sb (sv_fs s)) as [fs [|]]; (split; [split; [done|apply Hwf]|done]).
  - unfold List_sandboxes. destruct (List_ io (sv_fs s)) as [all|] eqn:El; [|split; [done|apply fs_evolves_refl]].
    apply reapBuilders_step; [|done|apply fs_evolves_refl]. apply Forall_forall. intros sb Hsb.
    by destruct (List_sound _ _ _ _ (proj1 Hwf) El Hsb).
  - by apply Start_step.
  - unfold StartPerimeterOnly. destruct (negb _); [split; [done|apply fs_evolves_refl]|].
    destruct (negb _); [split; [done|apply fs_evolves_refl]|].
    destruct (startSupervisor_fs (a_sup a) sb s) as (H1 & H2 & _). destruct (startSupervisor _ _ _) as [s1 [|]]; cbn in *;
      (split; [by eapply svc_wf_same|rewrite H1; apply fs_evolves_refl]).
  - unfold Stop. destruct (checked_update_step true TriggerStop (stop_callback a) a ref s fresh_record Hwf) as [H1 H2].
    { intros vols sb sb'. apply checked_callback_evolves; [done|]. intros. by apply evolves_netns, evolves_StopReason, evolves_InstanceID. }
    { intros vols rec. unfold stop_callback, checked_callback. by repeat case_match. }
    destruct (checked_update _ _ _ _ _ _) as [s1 [u|]]; [|done]. cbn in *. destruct (closeSupervisor_fs (ID u) s1) as [H3 H4].
    split; [by eapply svc_wf_same|by rewrite H3].
  - apply checked_update_step; [done| |]; [intros vols sb sb'; by apply checked_callback_evolves|].
    intros vols rec. unfold checked_callback. by repeat case_match.
  - apply checked_update_step; [done| |]; [intros vols sb sb'; by apply checked_callback_evolves|].
    intros vols rec. unfold checked_callback. by repeat case_match.
  - unfold Snapshot. destruct (checked_update_step (dv_Snapshotter drv) TriggerSnapshot (snapshot_callback a valid) a ref s fresh_record Hwf) as [H1 H2].
    { intros vols sb sb'. apply snapshot_callback_evolves. }
    { intros vols rec. unfold snapshot_callback. by repeat case_match. }
    by destruct (checked_update _ _ _ _ _ _) as [s1 [u|]].
  - by apply Remove_step.
Qed.

(** ** Start *)

(** No other sandbox the volume lists is live or in flight. *)
Definition unshared (a : Answers) (sbs : string → option (list Sandbox)) (id name : string) (v : VolumeStore) : Prop :=
  ∃ l, sbs name = Some l ∧ ∀ x, x ∈ attached name v → x ≠ id → ¬ blocks (a_lease a) l x.

Lemma volume_guards_Ok a sbs id vas v v' :
  vols_inv v → volume_guards a sbs id vas v = (v', Ok tt) →
  ∀ va, va ∈ vas → rw_disk va = true → unshared a sbs id (va_Name va) v.
Proof.
  revert v. induction vas as [|va0 vas IH]; intros v Hv; cbn [volume_guards]; [by intros _ va ?%elem_of_nil|].
  destruct (rw_disk va0) eqn:Erw; last first.
  { intros H va [->|Hin]%elem_of_cons Hva; [congruence|]. by eapply IH. }
  destruct (checkRWAttach _ _ _ _ _ id v) as [v1 [lk|e]] eqn:Ec; [|done].
  assert (Hl : ∃ l, sbs (va_Name va0) = Some l).
  { unfold checkRWAttach, applyRWVerdictTable in Ec. destruct (lock_volume _ _ v) as [? [?|?]]; [|done].
    destruct (Get _ _ _); [|done]. destruct (sbs (va_Name va0)); [eauto|done]. }
  destruct Hl as [l Hl]. pose proof Ec as Ec'. rewrite Hl in Ec'.
  destruct (checkRWAttach_facts _ _ _ _ _ _ _ _ _ (proj1 Hv) Ec') as [Hok _].
  destruct (Hok lk eq_refl) as (_ & _ & Hfree & _). intros Hg va Hin Hva.
  destruct (decide (va_Name va = va_Name va0)) as [Hn|Hn]; [rewrite Hn; by exists l|].
  apply elem_of_cons in Hin as [->|Hin]; [done|].
  assert (Hv1 : vols_inv v1) by (change v1 with ((v1, Ok lk : result guard_error positive).1); rewrite <- Ec; by apply inv_checkRWAttach).
  destruct (IH (release_lock lk v1) ltac:(by apply inv_held) Hg va Hin Hva) as (l' & Hl' & Hb).
  exists l'. split; [done|]. intros x Hx. apply Hb.
  change (attached (va_Name va) (release_lock lk v1)) with (attached (va_Name va) v1).
  by rewrite (checkRWAttach_other _ _ _ _ _ _ _ _ _ (va_Name va) (proj1 Hv) Ec).
Qed.

(** What must hold of a record before its machine is started. *)
Definition may_start (a : Answers) (s : Service) (sb : Sandbox) : Prop :=
  (SState sb = Created ∨ SState sb = Stopped) ∧ RemovalMarker sb = false ∧ github_secrets_bound (SEnvelope sb) = true ∧
  ∀ v va, sv_volumes s = Some v → va ∈ MountedVolumes sb → rw_disk va = true →
    unshared a (listing a (sv_fs s)) (SandboxID_String (ID sb)) (va_Name va) v.

Lemma Next_start from tr : Next from TriggerStart = Ok tr → (from = Created ∨ from = Stopped) ∧ t_next tr = Running.
Proof. destruct from; vm_compute; intros [= <-]; auto. Qed.

Lemma start_guard_may a sbs vols rec vols' tr :
  (∀ v, vols = Some v → vols_inv v) → start_guard a sbs vols rec = (vols', Ok tr) →
  t_next tr = Running ∧ (SState rec = Created ∨ SState rec = Stopped) ∧ RemovalMarker rec = false ∧
  ∀ v va, vols = Some v → va ∈ MountedVolumes rec → rw_disk va = true →
    unshared a sbs (SandboxID_String (ID rec)) (va_Name va) v.
Proof.
  intros Hv Hg. destruct (start_guard_Ok _ _ _ _ _ _ Hg) as [Hn Hm]. destruct (Next_start _ _ Hn) as [Hs Ht].
  split; [done|]. split; [done|]. split; [done|]. intros v va -> Hin Hva. unfold start_guard in Hg. rewrite Hn, Hm in Hg.
  destruct (a_diskDir a); [done|]. destruct (volume_guards _ _ _ _ v) as [v1 [[]|e]] eqn:Eg; [|done].
  eapply volume_guards_Ok; [by apply Hv|exact Eg|done|done].
Qed.

Lemma start_callback_cases drv a sbs vols rec c res :
  (∀ v, vols = Some v → vols_inv v) → start_callback drv a sbs vols rec = (c, res) →
  (c_log c = [] ∧ is_ok res = false) ∨
  (c_log c = [EvStart (ID rec)] ∧ (SState rec = Created ∨ SState rec = Stopped) ∧ RemovalMarker rec = false ∧
   (∀ v va, vols = Some v → va ∈ MountedVolumes rec → rw_disk va = true →
      unshared a sbs (SandboxID_String (ID rec)) (va_Name va) v) ∧
   ∀ rec', res = Ok rec' →
     c_updated c = Some rec' ∧ a_start a = Ok (InstanceID rec') ∧ SState rec' = Running ∧ SStopReason rec' = StopReasonNone).
Proof.
  intros Hv. unfold start_callback. destruct (start_guard a sbs vols rec) as [vols' [tr|e]] eqn:Eg; [|intros [= <- <-]; by left].
  destruct (start_guard_may _ _ _ _ _ _ Hv Eg) as (Ht & Hs & Hm & Hu).
  destruct (a_start a) as [iid|e]; intros [= <- <-]; right; (do 4 (split; [done|])); [|done].
  intros rec' [= <-]. split; [done|]. unfold started. rewrite Ht. by destruct rec.
Qed.

(** A started record is what a running machine needs; anything else is the old record. *)
Definition start_outcome (a : Answers) (sb : Sandbox) (after : option Sandbox) : Prop :=
  after = Some sb ∨
  ∃ iid sb', a_start a = Ok iid ∧ after = Some (persisted sb') ∧ evolves sb sb' ∧ SState sb' = Running ∧ InstanceID sb' = iid.

Lemma Start_update drv a s sb fs out res :
  svc_wf s → wf_id (ID sb) → lookup_sandbox (sv_fs s) (ID sb) = Some sb →
  Update (a_update a) (ID sb) (start_callback drv a (listing a (sv_fs s)) (sv_volumes s)) (sv_fs s) = (fs, out, res) →
  (∀ id, wf_id id → id ≠ ID sb → lookup_sandbox fs id = lookup_sandbox (sv_fs s) id) ∧
  ((default [] (c_log <$> out) = [] ∧ is_ok res = false ∧ lookup_sandbox fs (ID sb) = Some sb) ∨
   (default [] (c_log <$> out) = [EvStart (ID sb)] ∧ (SState sb = Created ∨ SState sb = Stopped) ∧ RemovalMarker sb = false ∧
    (∀ v va, sv_volumes s = Some v → va ∈ MountedVolumes sb → rw_disk va = true →
      unshared a (listing a (sv_fs s)) (SandboxID_String (ID sb)) (va_Name va) v) ∧
    start_outcome a sb (lookup_sandbox fs (ID sb)) ∧
    ∀ u, res = Ok u → ∃ sb', out ≫= c_updated = Some sb' ∧ lookup_sandbox fs (ID sb) = Some (persisted sb') ∧
      evolves sb sb' ∧ a_start a = Ok (InstanceID sb') ∧ SState sb' = Running ∧ SStopReason sb' = StopReasonNone)).
Proof.
  intros Hwf Hid Hsb Eu. set (cb := start_callback drv a (listing a (sv_fs s)) (sv_volumes s)) in *. split.
  { intros id Hid' Hne. pose proof (Update_frame (a_update a) (ID sb) id cb (sv_fs s) Hid Hid' Hne) as Hf. by rewrite Eu in Hf. }
  apply Update_effect in Eu. unfold update_effect in Eu. rewrite Hsb in Eu. destruct out as [c|]; cbn.
  - destruct Eu as (sb0 & [= <-] & Hc & H). destruct (cb sb) as [c' r'] eqn:Ecb. cbn in Hc, H. subst c'.
    pose proof (start_callback_evolves drv a (listing a (sv_fs s)) (sv_volumes s) sb) as Hev. fold cb in Hev. rewrite Ecb in Hev. cbn in Hev.
    destruct (start_callback_cases _ _ _ _ _ _ _ (proj2 Hwf) Ecb) as [[Hl Hr]|(Hl & Hs & Hm & Hu & Hok)].
    + left. destruct r' as [sb'|e]; [done|]. destruct H as [-> ->]. done.
    + right. destruct r' as [sb'|e].
      * destruct (Hok sb' eq_refl) as (Hup & Hst & Hrun & Hsr).
        assert (Hout : start_outcome a sb (Some (persisted sb'))) by (right; exists (InstanceID sb'), sb'; auto).
        destruct res as [u|e].
        -- destruct H as [-> _]. do 4 (split; [done|]). split; [done|]. intros _ _. exists sb'. auto 10.
        -- destruct H as [_ [->|[-> _]]]; (do 4 (split; [done|])); (split; [|done]); [by left|done].
      * destruct H as [-> ->]. do 4 (split; [done|]). split; [by left|done].
  - destruct Eu as [-> Hr]. left. split; [done|]. split; [by destruct res|done].
Qed.

(** C5: starting a sandbox.  The driver is asked to start a machine at most once, and only for a
    record that is created or stopped, not marked for removal, whose GitHub secrets are all bound by
    a policy and none of whose read-write disk volumes is used by another live or in-flight
    sandbox.  Without that call nothing changes.  With it, other records are untouched, and
    the record is the old one or says running with the instance the driver returned; it is the
    old one if the driver failed; and if the call succeeds it is the returned one, and the
    perimeter is registered wherever one is configured. *)
Lemma Start_spec drv a ref s s' res :
  svc_wf s → Start drv a ref s = (s', res) →
  (sv_log s' = sv_log s ∧ is_ok res = false ∧
   ∀ id, wf_id id → lookup_sandbox (sv_fs s') id = lookup_sandbox (sv_fs s) id) ∨
  ∃ sb, wf_id (ID sb) ∧ lookup_sandbox (sv_fs s) (ID sb) = Some sb ∧ may_start a s sb ∧
    sv_log s' = sv_log s ++ [EvStart (ID sb)] ∧
    (∀ id, wf_id id → id ≠ ID sb → lookup_sandbox (sv_fs s') id = lookup_sandbox (sv_fs s) id) ∧
    start_outcome a sb (lookup_sandbox (sv_fs s') (ID sb)) ∧
    ∀ updated, res = Ok updated →
      lookup_sandbox (sv_fs s') (ID sb) = Some (persisted updated) ∧ evolves sb updated ∧
      a_start a = Ok (InstanceID updated) ∧ SState updated = Running ∧ SStopReason updated = StopReasonNone ∧
      (dv_NetworkHook drv = true → is_Some (sv_broker s) → is_Some (sv_supervisors s' !! ID sb)).
Proof.
  intros Hwf. unfold Start. destruct (resolve (a_resolve a) ref s) as [sb|] eqn:Er; [|intros [= <- <-]; by left].
  destruct (resolve_sound _ _ _ _ (proj1 Hwf) Er) as [Hid Hsb].
  destruct (Next _ _); [|intros [= <- <-]; by left].
  destruct (github_secrets_bound (SEnvelope sb)) eqn:Eg; [|intros [= <- <-]; by left]. cbn [negb].
  destruct (Update (a_update a) (ID sb) _ _) as [[fs out] r] eqn:Eu.
  destruct (Start_update _ _ _ _ _ _ _ Hwf Hid Hsb Eu) as [Hother Hcase]. clear Eu.
  assert (Hlog : sv_log (after_update s fs out) = sv_log s ++ default [] (c_log <$> out)) by (destruct out; cbn; by rewrite ?app_nil_r).
  assert (Hbr : sv_broker (after_update s fs out) = sv_broker s) by (by destruct out).
  assert (Hf : sv_fs (after_update s fs out) = fs) by apply after_update_fs.
  set (s1 := after_update s fs out) in *. cbv zeta. intros Heq.
  assert (Hres : s' = s1 ∨ s' = (startSupervisor (a_sup a) (default sb (out ≫= c_updated)) s1).1).
  { destruct r as [u|e]; [|injection Heq as <- <-; by left]. destruct (out ≫= c_updated) as [up|]; [|injection Heq as <- <-; by left].
    destruct (_ && _); [|injection Heq as <- <-; by left].
    destruct (startSupervisor (a_sup a) up s1) as [s2 [u2|e2]] eqn:Es; injection Heq as <- <-; right; cbn; by rewrite Es. }
  assert (Hsame : sv_fs s' = fs ∧ sv_log s' = sv_log s1).
  { destruct Hres as [->| ->]; [done|].
    destruct (startSupervisor_fs (a_sup a) (default sb (out ≫= c_updated)) s1) as (-> & _ & ->). done. }
  destruct Hsame as [-> ->]. rewrite Hlog.
  destruct Hcase as [(Hl & Hr & Hsb')|(Hl & Hs & Hm & Hu & Ho & Hok)]; rewrite Hl.
  - left. rewrite app_nil_r. split; [done|]. split; [destruct r; [done|by injection Heq as _ <-]|].
    intros id Hid'. destruct (decide (id = ID sb)) as [->|Hne]; [congruence|by apply Hother].
  - right. exists sb. do 6 (split; [by (done || split_and!)|]). intros up ->.
    destruct r as [u|e]; [|done]. destruct (Hok u eq_refl) as (sb' & Hup & H1 & H2 & H3 & H4 & H5). rewrite Hup in Heq.
    rewrite Hbr in Heq. destruct (dv_NetworkHook drv && bool_decide (is_Some (sv_broker s))) eqn:Eh.
    + destruct (startSupervisor (a_sup a) sb' s1) as [s2 [u2|e2]] eqn:Es; [|done]. injection Heq as <- ->.
      do 5 (split; [done|]). intros _ _. unfold startSupervisor in Es. destruct (assemble_supervisor _ _); [|done].
      injection Es as <-. cbn. rewrite (ev_ID _ _ H2), lookup_insert_eq. eauto.
    + injection Heq as <- ->. do 5 (split; [done|]). intros H6 H7. rewrite H6, bool_decide_true in Eh by done. done.
Qed.

(** ** Two starts at once *)

Definition stopped_with (id : SandboxID) (name : string) : Sandbox :=
  mkSandbox id name "p" ∅ Stopped empty_envelope "" false false StopReasonClean None
    0 "" 0 0 "" "" 0 "" "" "" 0 "" [mkVolumeAttachment "data" "/data" KindDisk false] [] "" [].

(** Both stopped sandboxes list the same read-write disk volume. *)
Definition shared_service : Service :=
  mkService (Store.Create (E:=cb_error) io_none (stopped_with id_B "b")
               (Store.Create (E:=cb_error) io_none (stopped_with id_A "a") ∅).1).1
    (Some (Attach no_fails 8 "data" (SandboxID_String id_B) shared_volume).1) None ∅ ∅ (mkDir ∅ ∅) ∅ [].

Definition calm : Answers :=
  mkAnswers io_none io_none io_none io_none (λ _, io_none) (Ok "i-1"%string) (Ok tt) (Ok "snap-1"%string) None
    (mkSupEnv false false false 0) false no_fails (λ _, leaseFree) 9 (λ _, false).
Definition plain_driver : Driver := mkDriver true true true false false.

(** The write that ends a start whose guard has passed. *)
Definition finish_start (tr : Transition) (id : SandboxID) (fs : FS) : FS :=
  (Update (A:=unit) (E:=cb_error) io_none id (λ rec, (tt, Ok (started plain_driver calm tr "i-1" rec))) fs).1.1.

Definition runs (fs : FS) (id : SandboxID) : bool :=
  match lookup_sandbox fs id with Some sb => bool_decide (SState sb = Running) | None => false end.

(** One after the other, the second start is refused.  But the guard of each start reads the
    records under the lock of its own sandbox only, and gives the volume's lock back before
    the machine boots: if the guard of B runs while A boots, both pass and both run
    on the volume. *)
Lemma concurrent_starts_share_volume :
  let fs := sv_fs shared_service in
  let sbs := listing calm fs in
  is_ok (Start plain_driver calm (SandboxID_String id_A) shared_service).2 = true ∧
  is_ok (Start plain_driver calm (SandboxID_String id_B) (Start plain_driver calm (SandboxID_String id_A) shared_service).1).2 = false ∧
  ∃ v1 v2 tr, start_guard calm sbs (sv_volumes shared_service) (stopped_with id_A "a") = (Some v1, Ok tr) ∧
    start_guard calm sbs (Some v1) (stopped_with id_B "b") = (Some v2, Ok tr) ∧
    let fs' := finish_start tr id_B (finish_start tr id_A fs) in
    runs fs' id_A = true ∧ runs fs' id_B = true ∧
    SandboxID_String id_A ∈ attached "data" v2 ∧ SandboxID_String id_B ∈ attached "data" v2.
Proof.
  split; [by vm_compute|]. split; [by vm_compute|]. do 3 eexists.
  split; [vm_compute; reflexivity|]. split; [vm_compute; reflexivity|].
  split; [by vm_compute|]. split; [by vm_compute|]. split; apply (bool_decide_unpack _); by vm_compute.
Qed.

(** ** Remove *)

(** What a volume's data lives in. *)
Definition backing (v : string) (s : VolumeStore) : option (bool * bool) := (λ d, (vd_disk d, vd_data d)) <$> vs_dirs s !! v.

Lemma Detach_backing io n id s v : vols_inv s → backing v (Detach io n id s).1 = backing v s.
Proof.
  intros [Hwf _]. unfold Detach, update_locked. destruct (lock_volume io n s) as [s1 r1] eqn:El.
  destruct (lock_volume_dirs _ _ _ _ _ El) as (_ & Hf & Hd & Hn & _ & _).
  assert (H1 : backing v s1 = backing v s).
  { unfold backing. destruct (decide (v = n)) as [->|Hne]; [|by rewrite Hf].
    destruct (vs_dirs s !! n) as [d|] eqn:Ed; [|destruct (Hn eq_refl) as [-> _]; by rewrite Ed].
    by destruct (Hd d eq_refl) as [j ->]. }
  destruct r1 as [i|e]; [|by destruct e]. destruct (readRecord io n s1) as [r|e]; [|by destruct e].
  destruct (writeRecord io (detach_record id r) s1) as [s2 [[]|e]] eqn:Ew; cbn.
  - apply writeRecord_Ok in Ew as (d & Hd' & ->). rewrite <- H1. unfold backing. cbn.
    destruct (decide (v = vr_Name r)) as [->|Hne]; [|by rewrite lookup_insert_ne by done].
    rewrite lookup_insert_eq. cbn in Hd'. by rewrite Hd'.
  - by apply writeRecord_Err in Ew as ->.
Qed.

Lemma detach_all_backing io id ns s v : vols_inv s → backing v (detach_all io id ns s) = backing v s.
Proof.
  unfold detach_all. revert s. induction ns as [|n ns IH]; intros s Hs; [done|]. cbn.
  rewrite IH by (by apply inv_update_locked). by apply Detach_backing.
Qed.

Lemma detach_volumes_backing io id ns s v : vols_inv s → backing v (detach_volumes io id ns s) = backing v s.
Proof.
  intros Hs. unfold detach_volumes. destruct (List_volumes io (detach_all io id ns s)); [|by apply detach_all_backing].
  rewrite detach_all_backing by (by apply inv_detach_all). by apply detach_all_backing.
Qed.

(** Without failures and with no lock held elsewhere a detach takes effect. *)
Lemma Detach_quiet io n id s :
  (∀ c, io c = false) → vs_held s = ∅ → vols_inv s →
  vs_held (Detach io n id s).1 = ∅ ∧
  ∀ v x, x ∈ attached v (Detach io n id s).1 ↔ x ∈ attached v s ∧ (v = n → x ≠ id).
Proof.
  intros Hio Hheld [Hwf Hnm]. unfold Detach, update_locked. destruct (lock_volume io n s) as [s1 r1] eqn:El.
  destruct (lock_volume_dirs _ _ _ _ _ El) as (Hh & Hf & Hd & Hn & _ & Hw1). rewrite Hheld in Hh.
  assert (Ha : ∀ v, attached v s1 = attached v s) by (intros v; by eapply lock_attached).
  assert (Hnil : attached n s = [] → vs_held s1 = ∅ ∧ ∀ v x, x ∈ attached v s1 ↔ x ∈ attached v s ∧ (v = n → x ≠ id)).
  { intros Hn0. split; [done|]. intros v x. rewrite Ha. destruct (decide (v = n)) as [->|]; [rewrite Hn0; set_solver|tauto]. }
  destruct r1 as [i|e]; last first.
  { destruct (vs_dirs s !! n) as [d|] eqn:Ed.
    - exfalso. unfold lock_volume in El. rewrite Ed, !Hio in El.
      destruct (vd_lock d); rewrite Hheld in El; rewrite ?Hheld in El; cbn in El; by rewrite bool_decide_false in El by set_solver.
    - destruct (Hn eq_refl) as [_ [= ->]]. apply Hnil. unfold attached. by rewrite Ed. }
  destruct (readRecord io n s1) as [r|e] eqn:Er; last first.
  { assert (attached n s = []) as Hn0.
    { rewrite <- Ha. unfold attached. unfold readRecord in Er. rewrite Hio in Er.
      destruct (vs_dirs s1 !! n ≫= vd_meta) as [[]|]; done. }
    destruct e; by apply Hnil. }
  destruct (readRecord_Ok _ _ _ _ Er) as (d & Hd1 & Hm1).
  assert (Hrn : vr_Name r = n) by (destruct (Hw1 Hwf) as [H _]; eauto).
  unfold writeRecord. cbn [vr_Name detach_record set_Attachments]. rewrite Hrn, Hd1, !Hio. cbn. split; [done|].
  intros v x. rewrite <- Ha. destruct (decide (v = n)) as [->|Hne].
  - rewrite (attached_read _ _ _ _ Er). change (x ∈ attached n (set_dirs (<[n:=set_meta (Some (MetaDoc (detach_record id r))) d]> (vs_dirs s1)) s1) ↔ x ∈ attached_ids r ∧ (n = n → x ≠ id)).
    rewrite attached_written, attached_detach. naive_solver.
  - unfold attached. cbn. rewrite lookup_insert_ne by done. naive_solver.
Qed.

Lemma detach_all_quiet io id ns s :
  (∀ c, io c = false) → vs_held s = ∅ → vols_inv s →
  ∀ v x, x ∈ attached v (detach_all io id ns s) ↔ x ∈ attached v s ∧ (v ∈ ns → x ≠ id).
Proof.
  intros Hio. unfold detach_all. revert s. induction ns as [|n ns IH]; intros s Hh Hs v x; cbn [fold_left].
  { rewrite elem_of_nil. naive_solver. }
  destruct (Detach_quiet io n id s Hio Hh Hs) as [Hh' Ha]. rewrite IH; [|done|by apply inv_update_locked].
  rewrite Ha, elem_of_cons. naive_solver.
Qed.

Lemma detach_all_held io id ns s : (∀ c, io c = false) → vs_held s = ∅ → vols_inv s → vs_held (detach_all io id ns s) = ∅.
Proof.
  intros Hio. unfold detach_all. revert s. induction ns as [|n ns IH]; intros s Hh Hs; [done|]. cbn [fold_left].
  destruct (Detach_quiet io n id s Hio Hh Hs) as [Hh' _]. apply IH; [done|by apply inv_update_locked].
Qed.

Lemma detach_volumes_quiet io id ns s :
  (∀ c, io c = false) → vs_held s = ∅ → vols_inv s → ∀ v, id ∉ attached v (detach_volumes io id ns s).
Proof.
  intros Hio Hh Hs v. unfold detach_volumes. pose proof (detach_all_quiet io id ns s Hio Hh Hs) as H1.
  pose proof (detach_all_held io id ns s Hio Hh Hs) as Hh1. pose proof (inv_detach_all io id ns s Hs) as Hs1.
  set (s1 := detach_all io id ns s) in *. unfold List_volumes. rewrite Hio.
  rewrite detach_all_quiet by done. intros [Hin Hv]. apply Hv; [|done]. clear Hv.
  assert (Hnm : v ∉ ns) by (apply H1 in Hin as [_ Hin]; intros Hv; by apply Hin).
  unfold attached in Hin. destruct (vs_dirs s1 !! v) as [d|] eqn:Ed; [|by apply elem_of_nil in Hin].
  cbn in Hin. destruct (vd_meta d) as [[r|]|] eqn:Em; [|by apply elem_of_nil in Hin..].
  assert (Hrn : vr_Name r = v) by (destruct Hs1 as [[H _] _]; eauto).
  rewrite <- Hrn. apply list_elem_of_fmap_2, list_elem_of_In, filter_In. split.
  - apply list_elem_of_In, list_elem_of_omap. exists v. split.
    + unfold volume_names. rewrite (merge_sort_Permutation str_le). apply list_elem_of_fmap. exists (v, d). split; [done|].
      by apply elem_of_map_to_list.
    + unfold readRecord. rewrite Ed. cbn. by rewrite Em, Hio.
  - rewrite Hrn, (bool_decide_false (v ∈ ns)), bool_decide_true by done. done.
Qed.

Lemma Revoke_scope_None sb h b sc : bk_byScope b !! sc = None → bk_byScope (Revoke sb h b) !! sc = None.
Proof.
  intros H. unfold Revoke. destruct (bk_byScope b !! (sb, h)) as [l|]; [|done].
  unfold drop_host. destruct (bk_heap b !! l); cbn; (destruct (decide (sc = (sb, h))) as [->|Hne];
    [by rewrite lookup_delete_eq|by rewrite lookup_delete_ne]).
Qed.

Lemma revoke_hosts_None id hosts b :
  (∀ h, h ∈ hosts → bk_byScope (revoke_hosts id hosts b) !! (id, h) = None) ∧
  (∀ sc, bk_byScope b !! sc = None → bk_byScope (revoke_hosts id hosts b) !! sc = None).
Proof.
  unfold revoke_hosts. revert b. induction hosts as [|h0 hosts IH]; intros b; cbn [fold_left].
  { split; [by intros h ?%elem_of_nil|done]. }
  destruct (IH (Revoke id h0 b)) as [H1 H2]. split.
  - intros h [->|Hh]%elem_of_cons; [apply H2, Revoke_no_scope|by apply H1].
  - intros sc Hsc. by apply H2, Revoke_scope_None.
Qed.

Lemma release_process_state_facts sb s :
  let s' := release_process_state sb s in
  sv_supervisors s' !! ID sb = None ∧ ID sb ∉ sv_deregistrars s' ∧
  (∀ b h, sv_broker s' = Some b → h ∈ AllowedHosts (SEnvelope sb) → bk_byScope b !! (ID sb, h) = None) ∧
  (∃ evs, sv_log s' = sv_log s ++ evs) ∧ sv_disks s' = sv_disks s ∧ sv_stateDirs s' = sv_stateDirs s.
Proof.
  unfold release_process_state, dropDeregistrar, closeSupervisor. cbv zeta.
  destruct (sv_supervisors s !! ID sb) eqn:Es; cbn; case_bool_decide; cbn;
    (split; [by rewrite ?lookup_delete_eq|]); (split; [set_solver|]);
    (split; [intros b h Hb; destruct (sv_broker s) as [b0|]; [|done]; injection Hb as <-; apply revoke_hosts_None|]);
    (split; [rewrite <- ?(assoc_L (++)); eauto; exists []; by rewrite app_nil_r|done]).
Qed.

Lemma remove_leftovers_facts a sb s :
  let s' := remove_leftovers a sb s in
  sv_supervisors s' = sv_supervisors s ∧ sv_deregistrars s' = sv_deregistrars s ∧ sv_broker s' = sv_broker s ∧
  sv_log s' = sv_log s ∧
  ((∀ n, a_rm a n = false) → ID sb ∉ sv_stateDirs s' ∧ ∀ n, n ∈ disk_files (ID sb) → n ∉ d_files (sv_disks s')) ∧
  sv_volumes s' = (λ v, detach_volumes (a_vol a) (SandboxID_String (ID sb)) (va_Name <$> MountedVolumes sb) v) <$> sv_volumes s.
Proof.
  unfold remove_leftovers. cbv zeta.
  destruct (ReapDiskCopy (a_rm a) (ID sb) (sv_disks s)) as [d1 b1] eqn:E1. cbn [fst].
  change (sv_disks (set_disks d1 s)) with d1.
  destruct (ReapShadowDisks (a_rm a) (Handle sb) d1) as [d2 b2] eqn:E2. cbn [fst].
  assert (Hsub : d_files d2 ⊆ d_files d1).
  { unfold ReapShadowDisks in E2. destruct (Glob _ _); [|by injection E2 as <- _]. by apply rm_files_spec in E2 as [H _]. }
  assert (Hrm : (∀ n, a_rm a n = false) → ∀ n, n ∈ disk_files (ID sb) → n ∉ d_files d2).
  { intros Hf n Hn Hd. apply Hsub in Hd. revert Hd. apply (ReapDiskCopy_spec _ _ _ _ _ E1); [|done].
    unfold ReapDiskCopy in E1. cbn in E1. rewrite !Hf in E1. by injection E1 as _ <-. }
  destruct (a_rm a "state dir") eqn:Est; cbn; destruct (sv_volumes s) as [v|] eqn:Ev; cbn; rewrite ?Ev;
    (do 4 (split; [done|])); (split; [|done]); intros Hf; (split; [|by apply Hrm]); [by rewrite Hf in Est..| |]; set_solver.
Qed.

Lemma remove_update a s sb fs out res :
  wf_id (ID sb) → Update (a_update a) (ID sb) (remove_callback a (sv_volumes s)) (sv_fs s) = (fs, out, res) →
  (∀ id, wf_id id → id ≠ ID sb → lookup_sandbox fs id = lookup_sandbox (sv_fs s) id) ∧
  (∀ sb0, lookup_sandbox (sv_fs s) (ID sb) = Some sb0 →
     lookup_sandbox fs (ID sb) = Some sb0 ∨ lookup_sandbox fs (ID sb) = Some (persisted sb0)) ∧
  (res = Ok tt → ∃ c sb0, out = Some c ∧ a_driver a = Ok tt ∧ lookup_sandbox (sv_fs s) (ID sb) = Some sb0 ∧ c_log c = [EvStop (ID sb0)]).
Proof.
  intros Hid Eu. set (cb := remove_callback a (sv_volumes s)) in *. split.
  { intros id Hid' Hne. pose proof (Update_frame (a_update a) (ID sb) id cb (sv_fs s) Hid Hid' Hne) as Hf. by rewrite Eu in Hf. }
  apply Update_effect in Eu. unfold update_effect in Eu. destruct out as [c|].
  - destruct Eu as (sb0 & Hb & Hc & H). rewrite Hb. unfold cb, remove_callback in Hc, H.
    destruct (a_driver a) as [[]|e]; cbn in Hc, H.
    + split; [intros sb1 [= <-]; destruct res; [destruct H as [-> _]; by right|destruct H as [_ [->|[-> _]]]; [by left|by right]]|].
      intros ->. exists c, sb0. subst c. done.
    + destruct H as [-> ->]. split; [intros sb1 [= <-]; by left|done].
  - destruct Eu as [-> Hr]. split; [by left|]. intros ->. done.
Qed.

(** The record once it is marked and the machine is asked to stop. *)
Lemma mark_and_stop_facts a sb s s2 res :
  svc_wf s → wf_id (ID sb) → lookup_sandbox (sv_fs s) (ID sb) = Some sb → mark_and_stop a sb s = (s2, res) →
  (∀ id, wf_id id → id ≠ ID sb → lookup_sandbox (sv_fs s2) id = lookup_sandbox (sv_fs s) id) ∧
  (∃ sbm, lookup_sandbox (sv_fs s2) (ID sb) = Some sbm ∧ (sv_log s2 ≠ sv_log s ∨ is_ok res = true → RemovalMarker sbm = true)) ∧
  (res = Ok tt → a_driver a = Ok tt ∧ EvStop (ID sb) ∈ sv_log s2).
Proof.
  intros Hwf Hid Hsb. unfold mark_and_stop. destruct (SetRemovalMarker (a_marker a) (ID sb) (sv_fs s)) as [fs1 r1] eqn:Em.
  assert (Hoth1 : ∀ id, wf_id id → id ≠ ID sb → lookup_sandbox fs1 id = lookup_sandbox (sv_fs s) id).
  { intros id Hid' Hne. unfold SetRemovalMarker in Em.
    pose proof (Update_frame (A:=unit) (E:=Empty_set) (a_marker a) (ID sb) id (λ sb, (tt, Ok (set_RemovalMarker true sb))) (sv_fs s) Hid Hid' Hne) as H.
    destruct (Update _ _ _ _) as [[? ?] ?]. by injection Em as <- <-. }
  destruct (marker_facts _ _ _ _ _ (proj1 Hwf) Hid Em) as (Hw1 & Hm1 & Hok1). clear Em.
  destruct r1 as [[]|e].
  2:{ intros [= <- <-]. split; [done|]. split; [|done]. specialize (Hm1 _ Hid). rewrite Hsb in Hm1. cbn.
      destruct (lookup_sandbox fs1 (ID sb)) as [sbm|]; [|done]. exists sbm. split; [done|]. by intros [|]. }
  destruct (Hok1 eq_refl) as (sb0 & Hsb0 & Hfs1). assert (sb0 = sb) as -> by congruence. clear Hok1 Hsb0.
  set (s1 := set_fs fs1 s) in *. cbv zeta.
  destruct (Update (a_update a) (ID sb) (remove_callback a (sv_volumes s1)) (sv_fs s1)) as [[fs2 out] r2] eqn:Eu.
  destruct (remove_update _ _ _ _ _ _ Hid Eu) as (Hoth2 & Hkeep & Hstop). intros [= <- <-]. rewrite after_update_fs. split; [|split].
  - intros id H1 H2. rewrite Hoth2 by done. by apply Hoth1.
  - destruct (Hkeep _ Hfs1) as [H|H]; rewrite H; eexists; (split; [done|by destruct sb]).
  - intros Hr. destruct r2 as [[]|]; [|done]. destruct (Hstop eq_refl) as (c & sbr & -> & Hdrv & Hsbr & Hlog).
    split; [done|]. cbn. apply elem_of_app. right. rewrite Hlog. change (sv_fs s1) with fs1 in Hsbr. rewrite Hfs1 in Hsbr.
    injection Hsbr as <-. rewrite ID_persisted. destruct sb. by left.
Qed.

(** C6: removal is write-ahead.  If [Remove] gets as far as a record, other records are untouched; as
    long as that record can be read after anything was asked of the driver or given up, it carries the
    removal marker, so that no start can follow; and it is gone only if the machine
    was stopped.  If the call succeeds the record is gone, no supervisor, deregistration
    hook or scope of an allowed host is left, the disk files and the state directory are
    gone unless deleting them failed, and no volume lists the sandbox unless a volume
    operation failed or met a lock.  No volume ever loses its data. *)
Lemma Remove_write_ahead a ref s s' res :
  svc_wf s → Remove a ref s = (s', res) →
  (∀ v v' n, sv_volumes s = Some v → sv_volumes s' = Some v' → backing n v' = backing n v) ∧
  (s' = s ∨ ∃ sb, wf_id (ID sb) ∧ lookup_sandbox (sv_fs s) (ID sb) = Some sb ∧
    (∀ id, wf_id id → id ≠ ID sb → lookup_sandbox (sv_fs s') id = lookup_sandbox (sv_fs s) id) ∧
    (sv_log s' ≠ sv_log s → ∀ sb', lookup_sandbox (sv_fs s') (ID sb) = Some sb' → RemovalMarker sb' = true) ∧
    (lookup_sandbox (sv_fs s') (ID sb) = None → a_driver a = Ok tt ∧ EvStop (ID sb) ∈ sv_log s') ∧
    (res = Ok tt →
      lookup_sandbox (sv_fs s') (ID sb) = None ∧ sv_supervisors s' !! ID sb = None ∧ ID sb ∉ sv_deregistrars s' ∧
      (∀ b h, sv_broker s' = Some b → h ∈ AllowedHosts (SEnvelope sb) → bk_byScope b !! (ID sb, h) = None) ∧
      ((∀ n, a_rm a n = false) → ID sb ∉ sv_stateDirs s' ∧ ∀ n, n ∈ disk_files (ID sb) → n ∉ d_files (sv_disks s')) ∧
      ((∀ c, a_vol a c = false) → ∀ v v' n, sv_volumes s = Some v → vs_held v = ∅ → sv_volumes s' = Some v' →
         SandboxID_String (ID sb) ∉ attached n v'))).
Proof.
  intros Hwf. unfold Remove.
  destruct (resolve (a_resolve a) ref s) as [sb|] eqn:Er; [|intros [= <- <-]; split; [congruence|by left]].
  destruct (resolve_sound _ _ _ _ (proj1 Hwf) Er) as [Hid Hsb]. clear Er.
  destruct (mark_and_stop_step a sb s Hwf Hid) as (_ & Hvol2 & _). destruct (mark_and_stop a sb s) as [s2 r2] eqn:Ems. cbn in Hvol2.
  destruct (mark_and_stop_facts _ _ _ _ _ Hwf Hid Hsb Ems) as (Hoth & (sbm & Hsbm & Hmark) & Hstop).
  destruct r2 as [[]|e].
  2:{ intros [= <- <-]. rewrite Hvol2. split; [congruence|]. right. exists sb. do 2 (split; [done|]). split; [done|].
      split; [intros Hl sb' H; assert (sb' = sbm) as -> by congruence; auto|]. split; [congruence|done]. }
  destruct (Hstop eq_refl) as [Hdrv Hlog]. specialize (Hmark (or_intror eq_refl)).
  destruct (release_process_state_fs sb s2) as [Hf3 Hv3]. destruct (release_process_state_facts sb s2) as (P1 & P2 & P3 & [evs P4] & _).
  set (s3 := release_process_state sb s2) in *. rewrite Hf3.
  assert (Hev : EvStop (ID sb) ∈ sv_log s3) by (rewrite P4; apply elem_of_app; by left).
  pose proof (Delete_effect (E:=cb_error) (a_delete a) (ID sb) (sv_fs s2)) as Hde.
  assert (Hod : ∀ id, wf_id id → id ≠ ID sb → lookup_sandbox (Store.Delete (E:=cb_error) (a_delete a) (ID sb) (sv_fs s2)).1 id = lookup_sandbox (sv_fs s) id)
    by (intros id H1 H2; rewrite Delete_frame by done; by apply Hoth).
  destruct (Store.Delete (a_delete a) (ID sb) (sv_fs s2)) as [fs3 r3]. cbn in Hod. destruct Hde as [Hd1 Hd2]. destruct r3 as [[]|e].
  - intros [= <- <-]. destruct (remove_leftovers_fs a sb (set_fs fs3 s3)) as [Hfl _].
    destruct (remove_leftovers_facts a sb (set_fs fs3 s3)) as (Q1 & Q2 & Q3 & Q4 & Q5 & Q6).
    change (sv_volumes (set_fs fs3 s3)) with (sv_volumes s3) in Q6. rewrite Hv3, Hvol2 in Q6.
    rewrite Hfl, Q4, Q6. cbn [sv_fs set_fs sv_log].
    assert (Hgone : lookup_sandbox fs3 (ID sb) = None)
      by (destruct (Hd2 eq_refl) as [_ H]; unfold lookup_sandbox; by rewrite H).
    split; [intros v v' n Hv; rewrite Hv; intros [= <-]; by apply detach_volumes_backing, Hwf|].
    right. exists sb. do 2 (split; [done|]). split; [done|]. split; [intros _ sb' H; congruence|]. split; [done|].
    intros _. rewrite Q1, Q2, Q3. do 5 (split; [done|]).
    intros Hc v v' n Hv Hh. rewrite Hv. intros [= <-]. apply detach_volumes_quiet; [done|done|by apply Hwf].
  - intros [= <- <-]. change (sv_volumes (set_fs fs3 s3)) with (sv_volumes s3). rewrite Hv3, Hvol2. split; [congruence|].
    right. exists sb. cbn [sv_fs set_fs sv_log]. do 2 (split; [done|]). split; [done|].
    split; [|split; [done|done]]. intros _ sb' H. destruct Hd1 as [Hd1|Hd1]; rewrite Hd1 in H; congruence.
Qed.

(** ** What removal leaves in the broker *)

Definition secret_sandbox : Sandbox :=
  mkSandbox id_A "a" "p" ∅ Stopped (mkEnvelope "" ["api.anthropic.com"%string] "" ["github.com"%string] [] [] false "acme/app" [] ∅)
    "" false false StopReasonClean None 0 "" 0 0 "" "" 0 "" "" "" 0 "" [] [] "" [].

Definition secret_broker : Broker := (RegisterPlaceholder id_A "github.com" "gho_real" (Some "ph1"%string) NewBroker).1.

Definition secret_service : Service :=
  mkService (Store.Create (E:=cb_error) io_none secret_sandbox ∅).1 None (Some secret_broker) ∅ ∅ (mkDir ∅ ∅) ∅ [].

(** Only the scopes of allowed hosts are revoked: the placeholder of a secret host still
    stands for the real token after a successful removal. *)
Lemma secret_scope_survives_removal :
  let '(s', res) := Remove calm (SandboxID_String id_A) secret_service in
  res = Ok tt ∧ lookup_sandbox (sv_fs s') id_A = None ∧
  (sv_broker s' ≫= ResolveScoped "ph1" id_A "github.com") = Some "gho_real"%string.
Proof. by vm_compute. Qed.

(** ** Witnesses *)

Lemma shared_service_wf : svc_wf shared_service.
Proof.
  split.
  - apply Create_store_wf; [reflexivity|]. apply Create_store_wf; [reflexivity|]. by intros n d sb.
  - intros v [= <-]. apply inv_Attach. apply (rtc_invariant vol_step vols_inv vol_step_inv empty_store).
    + unfold shared_volume. eapply rtc_l; [apply vst_create|]. eapply rtc_l; [apply (vst_attach no_fails 7 "data" (SandboxID_String id_A)); vm_compute; reflexivity|]. apply rtc_refl.
    + split; [|by intros v []]. split; [|split]; intros *; done.
Qed.

Lemma Start_spec_witness :
  ∃ sb, lookup_sandbox (sv_fs shared_service) (ID sb) = Some sb ∧
        sv_log (Start plain_driver calm (SandboxID_String id_A) shared_service).1 = [EvStart (ID sb)].
Proof.
  destruct (Start plain_driver calm (SandboxID_String id_A) shared_service) as [s' res] eqn:E.
  destruct (Start_spec plain_driver calm (SandboxID_String id_A) shared_service s' res shared_service_wf E)
    as [(_ & H & _)|(sb & _ & H & _ & Hl & _)].
  - exfalso. revert H. change res with ((s', res).2). rewrite <- E. by vm_compute.
  - exists sb. split; [exact H|exact Hl].
Defined.

Lemma Remove_write_ahead_witness :
  (Remove calm (SandboxID_String id_A) shared_service).2 = Ok tt ∧
  ∃ id, lookup_sandbox (sv_fs (Remove calm (SandboxID_String id_A) shared_service).1) id = None ∧
        EvStop id ∈ sv_log (Remove calm (SandboxID_String id_A) shared_service).1.
Proof.
  destruct (Remove calm (SandboxID_String id_A) shared_service) as [s' res] eqn:E.
  assert (Hr : res = Ok tt) by (change res with ((s', res).2); rewrite <- E; by vm_compute). split; [exact Hr|].
  destruct (Remove_write_ahead calm (SandboxID_String id_A) shared_service s' res shared_service_wf E)
    as [_ [H|(sb & _ & _ & _ & _ & H1 & H2)]].
  - exfalso. assert (Hl : sv_log s' = []) by (by rewrite H). revert Hl.
    change s' with ((s', res).1). rewrite <- E. by vm_compute.
  - exists (ID sb). destruct (H2 Hr) as [H3 _]. split; [exact H3|]. by apply H1.
Defined.
