(* ===== verification/Fork.v ===== *)
(** * internal/core/service/service.go: fork, restore and snapshots

    [Fork] and [RestoreFromSnapshot] create running children of a snapshot.  The children's disks
    are written before their records, so each child's disks are leased first (Disks, Reap):
    the trace of leases, of the driver's work and of the records committed is part of the
    model.  [SnapshotRemove] refuses to remove a snapshot a sandbox was made from. *)

From stdpp Require Import prelude countable gmap strings list sorting.
From Stdlib Require Import ZArith Ascii Lia.
From S2P Require Import Prelude GoStrings Domain Lifecycle Sandbox Store Broker Volumes VolumeGuard Disks Perimeter Service.

(** ** Leases *)

Inductive fork_event :=
| FLease (intent : string)
| FDriver
| FRecord (id : SandboxID)
| FRelease (intent : string).

#[global] Instance fork_event_eq_dec : EqDecision fork_event.
Proof. solve_decision. Defined.

(** The service, the intents this process holds, and what it did. *)
Record Forking := mkForking { fk_svc : Service; fk_leases : gset string; fk_trace : list fork_event }.

Definition on_svc (f : Service → Service) (k : Forking) : Forking := mkForking (f (fk_svc k)) (fk_leases k) (fk_trace k).
Definition trace (e : fork_event) (k : Forking) : Forking := mkForking (fk_svc k) (fk_leases k) (fk_trace k ++ [e]).

Definition add_file (n : string) (d : Dir) : Dir := mkDir ({[n]} ∪ d_files d) (d_dirs d).

(** A failure before the rename leaves nothing behind, one of the directory's sync removes the file. *)
Inductive pub_failure := PubOk | PubBefore | PubAfter.

Definition publishLeasedIntent (f : pub_failure) (n : string) (k : Forking) : Forking * bool :=
  match f with
  | PubOk =>
      (trace (FLease n)
         (mkForking (set_disks (add_file n (sv_disks (fk_svc k))) (fk_svc k)) ({[n]} ∪ fk_leases k) (fk_trace k)), true)
  | PubBefore => (k, false)
  | PubAfter => (on_svc (λ s, set_disks (rm_file n (sv_disks s)) s) k, false)
  end.

(** [createIntentLease.release]: unlink, then close, which drops the lock. *)
Definition release_intent (n : string) (k : Forking) : Forking :=
  if bool_decide (n ∈ fk_leases k) then
    trace (FRelease n)
      (mkForking (set_disks (rm_file n (sv_disks (fk_svc k))) (fk_svc k)) (fk_leases k ∖ {[n]}) (fk_trace k))
  else k.

(** The two intents of a child; no shadow intent if the parent has no shadow disk. *)
Definition child_intents (parentNames : list string) (id : SandboxID) : list string :=
  IntentName id ::
  match (childShadowPlan id parentNames).2 with
  | [] => []
  | _ => [ShadowIntentName (childShadowPlan id parentNames).1]
  end.

Fixpoint publish_all (pub : string → pub_failure) (ns : list string) (k : Forking) : Forking * bool :=
  match ns with
  | [] => (k, true)
  | n :: ns => match publishLeasedIntent (pub n) n k with
               | (k, false) => (k, false)
               | (k, true) => publish_all pub ns k
               end
  end.

(** The scan may fail ([None]). *)
Definition leaseForkChildren (pub : string → pub_failure) (parentNames : option (list string)) (ids : list SandboxID)
    (k : Forking) : Forking * bool :=
  match parentNames with
  | None => (k, false)
  | Some ns => publish_all pub (concat (child_intents ns <$> ids)) k
  end.

Definition release_all (ns : list string) (k : Forking) : Forking := foldr release_intent k ns.

Definition releaseChildLeases (parentNames : list string) (id : SandboxID) (k : Forking) : Forking :=
  release_all (reverse (child_intents parentNames id)) k.

(** ** Children *)

Record Snapshot_ := mkSnapshot { sn_ID : string; sn_SandboxID : SandboxID; sn_valid : bool }.

(** The envelope a child gets: no secret, no path policy, no branch list. *)
Definition child_envelope (e : Envelope) : Envelope :=
  mkEnvelope (ImageDigest e) (AllowedHosts e) (SSHPublicKey e) [] [] [] (OpenEgress e) (AllowedRepo e) [] ∅.

(** [prefix] is "fork-" or "restore-"; [ns] the adoption fields, which only [Fork] fills in. *)
Definition child_sandbox (prefix : string) (parent : Sandbox) (parentID : SandboxID) (snapID instanceID : string)
    (ns : option NetnsState) (id : SandboxID) : Sandbox :=
  set_netns ns
    (mkSandbox id (prefix +:+ crockfordEncode id) (Project parent) (Labels parent) Running (child_envelope (SEnvelope parent))
       instanceID false false StopReasonNone (Some (mkProvenance parentID snapID)) 0 "" 0 0 "" "" 0 "" "" "" 0 "" [] [] "" []).

(** What the world answers: the driver's snapshot and fork, the identifiers minted, the space check, the
    intents, the faults of each child's record and the adoption state of each child. *)
Record ForkAnswers := mkForkAnswers {
  f_resolve : IO;
  f_snapshot : result string Snapshot_;
  f_mint : nat → SandboxID;
  f_diskDir : bool;
  f_noSpace : bool;
  f_scan : bool;
  f_pub : string → pub_failure;
  f_forkFrom : result string (list string);
  f_files : SandboxID → list string;
  f_create : SandboxID → IO;
  f_netns : SandboxID → option NetnsState;
  f_sup : SandboxID → SupEnv;
}.

Inductive fork_error :=
| FkCount
| FkStore (e : store_error cb_error)
| FkIllegal (e : IllegalTransitionError)
| FkVolumes (names : list string)
| FkLiveMounts
| FkNoSubstrate
| FkNoArtifacts
| FkSnapshot (e : string)
| FkIntegrity
| FkDiskDir
| FkNoSpace
| FkLease
| FkDriver (e : string)
| FkPerimeter (id : SandboxID) (e : sup_error).

(** The records, one child after the other; a child's leases are dropped once its record is durable. *)
Fixpoint persist_children (fa : ForkAnswers) (mk : SandboxID → string → Sandbox) (parentNames : list string)
    (ids : list SandboxID) (iids : list string) (k : Forking) : Forking * result fork_error (list Sandbox) :=
  match ids, iids with
  | id :: ids, iid :: iids =>
      let child := mk id iid in
      match Store.Create (f_create fa id) child (sv_fs (fk_svc k)) with
      | (fs, Err e) => (on_svc (set_fs fs) k, Err (FkStore e))
      | (fs, Ok _) =>
          let k := trace (FRecord id) (on_svc (set_fs fs) k) in
          let k := releaseChildLeases parentNames id k in
          let '(k, rest) := persist_children fa mk parentNames ids iids k in
          (k, let* rest := rest in Ok (child :: rest))
      end
  | _, _ => (k, Ok [])
  end.

Fixpoint start_perimeters (fa : ForkAnswers) (children : list Sandbox) (s : Service) : Service * result fork_error unit :=
  match children with
  | [] => (s, Ok tt)
  | c :: children =>
      match startSupervisor (f_sup fa (ID c)) c s with
      | (s, Err e) => (s, Err (FkPerimeter (ID c) e))
      | (s, Ok _) => start_perimeters fa children s
      end
  end.

(** From the leases on, shared by [Fork] and [RestoreFromSnapshot]; the deferred drain releases what is
    still held when it returns.  The driver returns one instance per child. *)
Definition fan_out (drv : Driver) (fa : ForkAnswers) (mk : SandboxID → string → Sandbox) (parentHandle : string)
    (ids : list SandboxID) (s : Service) : Forking * result fork_error (list Sandbox) :=
  let names := parentShadowDiskNames parentHandle (sv_disks s) in
  let drain '(k, r) := (release_all (concat (child_intents names <$> ids)) k, r) in
  match leaseForkChildren (f_pub fa) (if f_scan fa then None else Some names) ids (mkForking s ∅ []) with
  | (k, false) => drain (k, Err FkLease)
  | (k, true) =>
      let k := trace FDriver (on_svc (add_log [EvFork ids]) k) in
      let k := on_svc (λ s, set_disks (foldr add_file (sv_disks s) (concat (f_files fa <$> ids))) s) k in
      match f_forkFrom fa with
      | Err e => drain (k, Err (FkDriver e))
      | Ok iids =>
          match persist_children fa mk names ids iids k with
          | (k, Err e) => drain (k, Err e)
          | (k, Ok children) =>
              if dv_NetworkHook drv && bool_decide (is_Some (sv_broker (fk_svc k))) then
                let '(s, r) := start_perimeters fa children (fk_svc k) in
                drain (mkForking s (fk_leases k) (fk_trace k), let* _ := r in Ok children)
              else drain (k, Ok children)
          end
      end
  end.

Definition minted (fa : ForkAnswers) (count : Z) : list SandboxID := f_mint fa <$> seq 0 (Z.to_nat count).

Definition unchanged {A} (s : Service) (e : fork_error) : Forking * result fork_error A := (mkForking s ∅ [], Err e).

Definition Fork (drv : Driver) (fa : ForkAnswers) (ref : string) (count : Z) (s : Service)
    : Forking * result fork_error (list Sandbox) :=
  if count <? 1 then unchanged s FkCount
  else match resolve (f_resolve fa) ref s with
  | Err e => unchanged s (FkStore e)
  | Ok parent =>
      match Next (SState parent) TriggerSnapshot with
      | Err e => unchanged s (FkIllegal e)
      | Ok _ =>
          match MountedVolumes parent, LiveMounts parent with
          | [], [] =>
              if negb (dv_Snapshotter drv) || negb (dv_Forker drv) then unchanged s FkNoSubstrate
              else
                let s := add_log [EvSnapshot (ID parent)] s in
                match f_snapshot fa with
                | Err e => unchanged s (FkSnapshot e)
                | Ok snap =>
                    if negb (sn_valid snap) then unchanged s FkIntegrity
                    else if f_diskDir fa then unchanged s FkDiskDir
                    else if f_noSpace fa then unchanged s FkNoSpace
                    else
                      fan_out drv fa
                        (λ id iid, child_sandbox "fork-" parent (ID parent) (sn_ID snap) iid
                                     (if dv_NetnsStateProvider drv then f_netns fa id else None) id)
                        (Handle parent) (minted fa count) s
                end
          | [], _ => unchanged s FkLiveMounts
          | vas, _ => unchanged s (FkVolumes (va_Name <$> vas))
          end
      end
  end.

(** [artifacts]: whether an artifact store is attached; [f_snapshot] is what it reads for [snapID]. *)
Definition RestoreFromSnapshot (drv : Driver) (artifacts : bool) (fa : ForkAnswers) (snapID : string) (count : Z) (s : Service)
    : Forking * result fork_error (list Sandbox) :=
  if count <? 1 then unchanged s FkCount
  else if negb artifacts then unchanged s FkNoArtifacts
  else match f_snapshot fa with
  | Err e => unchanged s (FkSnapshot e)
  | Ok snap =>
      if negb (sn_valid snap) then unchanged s FkIntegrity
      else if negb (dv_Forker drv) then unchanged s FkNoSubstrate
      else if f_diskDir fa then unchanged s FkDiskDir
      else if f_noSpace fa then unchanged s FkNoSpace
      else match Store.Get (f_resolve fa) (sn_SandboxID snap) (sv_fs s) with
           | Err e => unchanged s (FkStore e)
           | Ok origin =>
               fan_out drv fa (λ id iid, child_sandbox "restore-" origin (sn_SandboxID snap) snapID iid None id)
                 (Handle origin) (minted fa count) s
           end
  end.

(** ** Snapshots in use *)

Definition references (snapID : string) (sb : Sandbox) : bool :=
  match SProvenance sb with Some p => String.eqb (pv_SourceSnapshot p) snapID | None => false end.

Inductive snap_error := SnNoArtifacts | SnList (e : store_error cb_error) | SnInUse (id : SandboxID) | SnDriver | SnRemove.

(** [remover] is the answer of a driver that removes snapshots itself, [arts] the artifact store. *)
Definition SnapshotRemove (io : IO) (arts : option (gset string)) (remover : option bool) (rmFails : bool) (id : string)
    (fs : FS) : option (gset string) * result snap_error unit :=
  match arts with
  | None => (arts, Err SnNoArtifacts)
  | Some a =>
      match List_ (E:=cb_error) io fs with
      | Err e => (arts, Err (SnList e))
      | Ok all =>
          match find_sandbox (references id) all with
          | Some sb => (arts, Err (SnInUse (ID sb)))
          | None =>
              match remover with
              | Some true => (arts, Err SnDriver)
              | _ => if rmFails then (arts, Err SnRemove) else (Some (a ∖ {[id]}), Ok tt)
              end
          end
      end
  end.

(** ** Leases cover the disks until the record *)

Section Leases.
Context (handle : string) (d : Dir).
Let names := parentShadowDiskNames handle d.

Lemma child_intent_prefix id n : n ∈ child_intents names id → ∃ r, n = SandboxID_String id +:+ r.
Proof.
  unfold child_intents. rewrite elem_of_cons. intros [->|Hn]; [by eexists|].
  assert (Hall : ∀ m, m ∈ names → ShadowDiskSafeHandle m = Some (SafeHandle handle))
    by (intros m Hm; by apply parentShadowDiskNames_elem in Hm as [_ ?]).
  unfold childShadowPlan in Hn. destruct names as [|m ms]; [by apply elem_of_nil in Hn|].
  rewrite (child_handle id m _ (Hall m ltac:(by left))) in Hn. cbn in Hn. apply list_elem_of_singleton in Hn as ->.
  unfold ShadowIntentName. rewrite SafeHandle_id.
  - eexists (("-" +:+ SafeHandle handle) +:+ shadowIntentSuffix). apply chars_inj. by rewrite !chars_app, <- !(assoc_L (++)).
  - rewrite !chars_app. destruct (id_chars id) as (l & -> & _ & _ & _ & Hl). pose proof (SafeHandle_no_slash handle). set_solver.
Qed.

Lemma child_intents_disjoint id1 id2 n :
  wf_id id1 → wf_id id2 → n ∈ child_intents names id1 → n ∈ child_intents names id2 → id1 = id2.
Proof.
  intros H1 H2 [r1 ->]%child_intent_prefix [r2 Hr]%child_intent_prefix. by apply id_name_inj in Hr as [? _].
Qed.

(** What a step adds to the trace and to the leases. *)
Lemma release_all_trace ns k :
  ∃ ev, fk_trace (release_all ns k) = fk_trace k ++ ev ∧ (∀ e, e ∈ ev → ∃ n, e = FRelease n ∧ n ∈ ns) ∧
        fk_leases (release_all ns k) = fk_leases k ∖ list_to_set ns ∧
        sv_fs (fk_svc (release_all ns k)) = sv_fs (fk_svc k) ∧ sv_volumes (fk_svc (release_all ns k)) = sv_volumes (fk_svc k).
Proof.
  induction ns as [|n ns IH]; cbn.
  - exists []. rewrite app_nil_r. split_and!; try done; [by intros e ?%elem_of_nil|set_solver].
  - destruct IH as (ev & Ht & Hev & Hl & Hf & Hv). fold (release_all ns k). set (k' := release_all ns k) in *.
    assert (Hin : ∀ e, e ∈ ev → ∃ m, e = FRelease m ∧ m ∈ n :: ns)
      by (intros e He; destruct (Hev e He) as (m & -> & ?); eauto using list_elem_of_further).
    destruct (decide (n ∈ fk_leases k')) as [Hn|Hn]; unfold release_intent; [rewrite bool_decide_true by done|rewrite bool_decide_false by done]; cbn.
    + exists (ev ++ [FRelease n]). rewrite Ht, Hl, Hf, Hv. split; [by rewrite (assoc_L (++))|].
      split; [|split_and!; [set_solver|done|done]]. intros e. rewrite elem_of_app, list_elem_of_singleton.
      intros [He| ->]; [by apply Hin|]. exists n. split; [done|by left].
    + exists ev. rewrite Hl, Hf, Hv. split; [done|]. split; [done|]. split_and!; [rewrite Hl in Hn; set_solver|done|done].
Qed.

Lemma publish_all_trace pub ns k :
  let r := publish_all pub ns k in
  ∃ l, fk_trace r.1 = fk_trace k ++ (FLease <$> l) ∧ l ⊆ ns ∧ fk_leases r.1 = list_to_set l ∪ fk_leases k ∧
       (r.2 = true → l = ns) ∧ sv_fs (fk_svc r.1) = sv_fs (fk_svc k) ∧ sv_volumes (fk_svc r.1) = sv_volumes (fk_svc k).
Proof.
  revert k. induction ns as [|n ns IH]; intros k; cbn.
  - exists []. rewrite app_nil_r. split_and!; try done. set_solver.
  - destruct (pub n); cbn.
    + destruct (IH (trace (FLease n) (mkForking (set_disks (add_file n (sv_disks (fk_svc k))) (fk_svc k)) ({[n]} ∪ fk_leases k) (fk_trace k))))
        as (l & Ht & Hs & Hl & Hok & Hf & Hv).
      exists (n :: l). cbn in *. rewrite Ht, Hl, Hf, Hv. split; [by rewrite <- (assoc_L (++))|]. split; [set_solver|].
      split; [set_solver|]. split; [|done]. intros H. by rewrite (Hok H).
    + exists []. rewrite app_nil_r. split_and!; try done; set_solver.
    + exists []. rewrite app_nil_r. split_and!; try done; set_solver.
Qed.

(** Children appear, nothing else changes. *)
Definition children_appear (mk : SandboxID → string → Sandbox) (ids : list SandboxID) (fs fs' : FS) : Prop :=
  ∀ id, wf_id id → lookup_sandbox fs' id = lookup_sandbox fs id ∨
    id ∈ ids ∧ lookup_sandbox fs id = None ∧ ∃ iid, lookup_sandbox fs' id = Some (persisted (mk id iid)).

Lemma Create_Ok {E} io sb fs fs' u : Store.Create (E:=E) io sb fs = (fs', Ok u) → lookup_sandbox fs' (ID sb) = Some (persisted sb).
Proof.
  unfold Store.Create. destruct (io_ctx io); [done|]. destruct (validateState (SState sb)) as [[]|] eqn:Ev; [|done].
  apply validateState_ok in Ev. destruct (fs !! _); [done|]. destruct (io_mkdir io), (io_sync_parent io), (io_lock_init io); try done.
  pose proof (writeRecord_spec (E:=E) (io_write io) (toRecord sb) (Store.set_lock empty_dir) Ev) as [Hw _].
  destruct (Store.writeRecord _ _ _) as [d0 [[]|]]; [|done]. intros [= <- <-]. rewrite lookup_insert_dir. apply dir_sandbox_new, Hw.
Qed.

Lemma children_appear_create {E} mk io id iid fs ids :
  wf_id id → ID (mk id iid) = id → id ∈ ids → children_appear mk ids fs (Store.Create (E:=E) io (mk id iid) fs).1.
Proof.
  intros Hid Hmk Hin id' Hid'. pose proof (Create_effect (E:=E) io (mk id iid) fs) as He.
  pose proof (Create_spec (E:=E) io (mk id iid) fs) as Hs. destruct (Store.Create io (mk id iid) fs) as [fs' r]. cbn in *.
  rewrite Hmk in *. destruct (Hs Hid) as [Ho _]. destruct (decide (id' = id)) as [->|Hne]; [|left; by apply Ho].
  destruct He as [->|[-> [->| ->]]]; [by left|by left|]. right. eauto.
Qed.

Lemma children_appear_trans mk id ids fs fs1 fs2 :
  id ∉ ids → children_appear mk [id] fs fs1 → children_appear mk ids fs1 fs2 → children_appear mk (id :: ids) fs fs2.
Proof.
  intros Hn H1 H2 x Hx. destruct (H1 x Hx) as [E1|(Hi & E1 & iid & E1')], (H2 x Hx) as [E2|(Hi2 & E2 & iid2 & E2')].
  - left. congruence.
  - right. rewrite <- E1. split; [by right|eauto].
  - right. rewrite E2. split; [|eauto]. apply list_elem_of_singleton in Hi as ->. by left.
  - congruence.
Qed.

Lemma persist_facts fa mk ids iids k k' r :
  NoDup ids → Forall wf_id ids → (∀ id iid, ID (mk id iid) = id) →
  persist_children fa mk names ids iids k = (k', r) →
  ∃ ev, fk_trace k' = fk_trace k ++ ev ∧ FDriver ∉ ev ∧ (∀ id, FRecord id ∈ ev → id ∈ ids) ∧
    (∀ p q id n, ev = p ++ q → FRecord id ∈ q → n ∈ child_intents names id → FRelease n ∉ p) ∧
    fk_leases k' ⊆ fk_leases k ∧ children_appear mk ids (sv_fs (fk_svc k)) (sv_fs (fk_svc k')) ∧
    (store_wf (sv_fs (fk_svc k)) → store_wf (sv_fs (fk_svc k'))) ∧ sv_volumes (fk_svc k') = sv_volumes (fk_svc k) ∧
    (∀ cs, r = Ok cs → cs = zip_with mk ids iids ∧
       ∀ i id iid, ids !! i = Some id → iids !! i = Some iid → lookup_sandbox (sv_fs (fk_svc k')) id = Some (persisted (mk id iid))).
Proof.
  intros Hnd Hwf Hmk. revert iids k k' r. induction ids as [|id ids IH]; intros iids k k' r.
  { cbn. intros [= <- <-]. exists []. rewrite app_nil_r. split_and!; try done; [set_solver|set_solver| | |].
    - intros p q id n Hpq. symmetry in Hpq. apply app_nil in Hpq as [-> ->]. set_solver.
    - intros x _. by left.
    - intros cs [= <-]. done. }
  apply NoDup_cons in Hnd as [Hni Hnd]. apply Forall_cons in Hwf as [Hid Hwf]. destruct iids as [|iid iids]; cbn [persist_children].
  { intros [= <- <-]. exists []. rewrite app_nil_r. split_and!; try done; [set_solver|set_solver| | |].
    - intros p q x n Hpq. symmetry in Hpq. apply app_nil in Hpq as [-> ->]. set_solver.
    - intros x _. by left.
    - intros cs [= <-]. split; [done|]. intros i x y _. by rewrite lookup_nil. }
  pose proof (children_appear_create (E:=cb_error) mk (f_create fa id) id iid (sv_fs (fk_svc k)) [id] Hid (Hmk id iid) ltac:(by left)) as Hc.
  pose proof (Create_store_wf (E:=cb_error) (f_create fa id) (mk id iid) (sv_fs (fk_svc k))) as Hcw. rewrite Hmk in Hcw.
  destruct (Store.Create (f_create fa id) (mk id iid) (sv_fs (fk_svc k))) as [fs [u|e]] eqn:Ec; cbn in Hc, Hcw.
  2:{ intros [= <- <-]. exists []. cbn. rewrite app_nil_r. split_and!; try done; [set_solver|set_solver| | |by intros ?%Hcw].
      - intros p q x n Hpq. symmetry in Hpq. apply app_nil in Hpq as [-> ->]. set_solver.
      - intros x Hx. destruct (Hc x Hx) as [H|(H1 & H2)]; [by left|right]. apply list_elem_of_singleton in H1 as ->. split; [by left|done]. }
  apply Create_Ok in Ec. rewrite Hmk in Ec. cbv zeta.
  set (k1 := trace (FRecord id) (on_svc (set_fs fs) k)). unfold releaseChildLeases.
  destruct (release_all_trace (reverse (child_intents names id)) k1) as (rel & Ht & Hrel & Hl & Hf & Hv).
  set (k2 := release_all (reverse (child_intents names id)) k1) in *. destruct (persist_children fa mk names ids iids k2) as [k3 r3] eqn:Ep.
  destruct (IH Hnd Hwf iids k2 k3 r3 Ep) as (ev & Ht3 & Hd3 & Hr3 & Ho3 & Hl3 & Hc3 & Hw3 & Hv3 & Hok3). intros [= <- <-].
  assert (Hrel' : ∀ n, FRelease n ∈ rel → n ∈ child_intents names id).
  { intros n Hn. destruct (Hrel _ Hn) as (m & [= ->] & Hm). by rewrite (reverse_Permutation (child_intents names id)) in Hm. }
  assert (Hrelr : ∀ x, FRecord x ∉ rel) by (intros x Hx; by destruct (Hrel _ Hx) as (m & ? & _)).
  exists (FRecord id :: rel ++ ev). rewrite Ht3, Ht. cbn [fk_trace trace on_svc k1]. split; [by rewrite <- !(assoc_L (++))|]. split_and!.
  - rewrite elem_of_cons, elem_of_app. intros [?|[Hd|?]]; [done| |done]. by destruct (Hrel _ Hd) as (m & ? & _).
  - intros x. rewrite elem_of_cons, elem_of_app. intros [[= ->]|[Hx|Hx]]; [by left|by apply Hrelr in Hx|right; by apply Hr3].
  - intros p q x n Hpq Hx Hn. destruct p as [|e p]; [apply not_elem_of_nil|]. injection Hpq as <- Hpq.
    apply not_elem_of_cons. split; [done|].
    assert (Hxi : x ∈ ids).
    { apply Hr3. assert (Hxr : FRecord x ∈ rel ++ ev) by (rewrite Hpq; apply elem_of_app; by right).
      apply elem_of_app in Hxr as [?|?]; [by destruct (Hrelr x)|done]. }
    assert (Hnrel : FRelease n ∉ rel).
    { intros Hr%Hrel'. assert (Hxw : wf_id x) by (by eapply (proj1 (Forall_forall _ _) Hwf)).
      assert (id = x) as -> by (by eapply child_intents_disjoint). done. }
    apply app_eq_inv in Hpq as [(w & -> & ->)|(w & -> & Hev)].
    + intros Hp. apply Hnrel. apply elem_of_app. by left.
    + rewrite elem_of_app. intros [Hp|Hp]; [by apply Hnrel|]. by eapply Ho3 in Hp.
  - rewrite Hl3, Hl. cbn. set_solver.
  - eapply children_appear_trans; [done|exact Hc|]. rewrite Hf in Hc3. exact Hc3.
  - intros H. apply Hw3. rewrite Hf. by apply Hcw.
  - by rewrite Hv3, Hv.
  - intros cs. destruct r3 as [rest|]; [|done]. cbn. intros [= <-]. destruct (Hok3 rest eq_refl) as [-> Hlk]. split; [done|].
    intros [|i] x y; cbn; [|by apply Hlk]. intros [= <-] [= <-]. destruct (Hc3 id Hid) as [H|(H & _)]; [|done]. rewrite H, Hf. exact Ec.
Qed.
End Leases.

Section Coverage.
Context (names : list string).

(** The property the leases exist for: between the driver's first write and a child's record, every
    intent of the child is held. *)
Definition covered (ids : list SandboxID) (tr : list fork_event) : Prop :=
  ∀ p q id n, tr = p ++ q → FDriver ∈ p → FRecord id ∈ q → n ∈ child_intents names id →
    id ∈ ids ∧ FLease n ∈ p ∧ FRelease n ∉ p.

Lemma covered_no_record ids tr : (∀ id, FRecord id ∉ tr) → covered ids tr.
Proof. intros H p q id n -> _ Hq _. destruct (H id). apply elem_of_app. by right. Qed.

Lemma covered_snoc_releases ids tr rel : (∀ e, e ∈ rel → ∃ n, e = FRelease n) → covered ids tr → covered ids (tr ++ rel).
Proof.
  intros Hrel Hc p q id n Hpq Hp Hq Hn. assert (Hno : FRecord id ∉ rel) by (intros H; by destruct (Hrel _ H)).
  apply app_eq_inv in Hpq as [(w & -> & ->)|(w & -> & ->)].
  - apply (Hc p w id n); [done|done| |done]. apply elem_of_app in Hq as [?|?]; done.
  - destruct Hno. apply elem_of_app. by right.
Qed.

Lemma covered_persisted ids l ev :
  (∀ id n, id ∈ ids → n ∈ child_intents names id → n ∈ l) → FDriver ∉ ev → (∀ id, FRecord id ∈ ev → id ∈ ids) →
  (∀ p q id n, ev = p ++ q → FRecord id ∈ q → n ∈ child_intents names id → FRelease n ∉ p) →
  covered ids (((FLease <$> l) ++ [FDriver]) ++ ev).
Proof.
  intros Hl Hd Hids Ho p q id n Hpq Hp Hq Hn.
  assert (Hno : ∀ x, FRecord x ∉ (FLease <$> l) ++ [FDriver]).
  { intros x. rewrite elem_of_app, list_elem_of_singleton, list_elem_of_fmap. by intros [(y & ? & _)|?]. }
  assert (Hnr : FRelease n ∉ (FLease <$> l) ++ [FDriver]).
  { rewrite elem_of_app, list_elem_of_singleton, list_elem_of_fmap. by intros [(y & ? & _)|?]. }
  assert (Hin : id ∈ ids).
  { apply Hids. assert (H : FRecord id ∈ ((FLease <$> l) ++ [FDriver]) ++ ev) by (rewrite Hpq; apply elem_of_app; by right).
    apply elem_of_app in H as [?|?]; [by destruct (Hno id)|done]. }
  split; [done|]. apply app_eq_inv in Hpq as [(w & Hw & ->)|(w & -> & Hev)].
  - (* the driver's event is in [p], so [w] is empty *)
    assert (w = []) as ->.
    { destruct w as [|e w] using rev_ind; [done|]. rewrite (assoc_L (++)) in Hw. apply app_inj_tail in Hw as [Hw _].
      assert (H : FDriver ∈ FLease <$> l) by (rewrite Hw; apply elem_of_app; by left).
      apply list_elem_of_fmap in H as (y & ? & _). done. }
    rewrite app_nil_r in Hw. rewrite <- Hw. split; [|done]. apply elem_of_app. left. apply list_elem_of_fmap. eauto.
  - split; [apply elem_of_app; left; apply elem_of_app; left; apply list_elem_of_fmap; eauto|].
    rewrite elem_of_app. intros [?|?]; [done|]. by eapply Ho.
Qed.
End Coverage.

Lemma start_perimeters_fs fa cs s :
  sv_fs (start_perimeters fa cs s).1 = sv_fs s ∧ sv_volumes (start_perimeters fa cs s).1 = sv_volumes s.
Proof.
  revert s. induction cs as [|c cs IH]; intros s; [done|]. cbn. destruct (startSupervisor_fs (f_sup fa (ID c)) c s) as (H1 & H2 & _).
  destruct (startSupervisor _ c s) as [s1 [|]]; cbn in *; [|done]. by destruct (IH s1) as [-> ->].
Qed.

(** What [fan_out] leaves, up to the deferred release. *)
Record fanned (names : list string) (mk : SandboxID → string → Sandbox) (ids : list SandboxID) (iids : result string (list string))
    (s : Service) (k : Forking) (r : result fork_error (list Sandbox)) : Prop := {
  fan_leases : fk_leases k ⊆ list_to_set (concat (child_intents names <$> ids));
  fan_children : children_appear mk ids (sv_fs s) (sv_fs (fk_svc k));
  fan_wf : store_wf (sv_fs s) → store_wf (sv_fs (fk_svc k));
  fan_volumes : sv_volumes (fk_svc k) = sv_volumes s;
  fan_ok : ∀ cs, r = Ok cs → ∃ insts, iids = Ok insts ∧ cs = zip_with mk ids insts ∧
    ∀ i id iid, ids !! i = Some id → insts !! i = Some iid → lookup_sandbox (sv_fs (fk_svc k)) id = Some (persisted (mk id iid));
}.

Lemma fanned_drain names mk ids iids s k r :
  fanned names mk ids iids s k r → covered names ids (fk_trace k) →
  let k' := release_all (concat (child_intents names <$> ids)) k in
  fanned names mk ids iids s k' r ∧ fk_leases k' = ∅ ∧ covered names ids (fk_trace k').
Proof.
  intros [Hl Hc Hw Hv Hok] Hcov k'. destruct (release_all_trace (concat (child_intents names <$> ids)) k) as (rel & Ht & Hrel & Hle & Hf & Hv').
  subst k'. assert (He : fk_leases (release_all (concat (child_intents names <$> ids)) k) = ∅) by (rewrite Hle; set_solver).
  split_and!; [|done|].
  - constructor; [rewrite He; set_solver|by rewrite Hf|by rewrite Hf|by rewrite Hv'|by rewrite Hf].
  - rewrite Ht. apply covered_snoc_releases; [|done]. intros e Hx. destruct (Hrel e Hx) as (n & -> & _). eauto.
Qed.

Lemma fanned_err names mk ids iids s k e :
  fk_leases k ⊆ list_to_set (concat (child_intents names <$> ids)) → sv_fs (fk_svc k) = sv_fs s →
  sv_volumes (fk_svc k) = sv_volumes s → fanned names mk ids iids s k (Err e).
Proof. intros Hl Hf Hv. constructor; [done|rewrite Hf; intros x _; by left|by rewrite Hf|done|done]. Qed.

Lemma fan_out_facts drv fa mk handle ids s :
  NoDup ids → Forall wf_id ids → (∀ id iid, ID (mk id iid) = id) →
  let names := parentShadowDiskNames handle (sv_disks s) in
  let r := fan_out drv fa mk handle ids s in
  fanned names mk ids (f_forkFrom fa) s r.1 r.2 ∧ fk_leases r.1 = ∅ ∧ covered names ids (fk_trace r.1).
Proof.
  intros Hnd Hwf Hmk names. unfold fan_out, leaseForkChildren. fold names. cbv zeta.
  destruct (f_scan fa); cbn [fst snd].
  { apply fanned_drain; [apply fanned_err; [set_solver|done|done]|]. by apply covered_no_record; intros ? ?%elem_of_nil. }
  pose proof (publish_all_trace (f_pub fa) (concat (child_intents names <$> ids)) (mkForking s ∅ [])) as Hp. cbv zeta in Hp.
  destruct (publish_all _ _ _) as [k ok]. cbn [fst snd fk_trace fk_leases fk_svc app] in Hp. destruct Hp as (l & Ht & Hsub & Hl & Hok & Hf & Hv).
  assert (Hlk : fk_leases k ⊆ list_to_set (concat (child_intents names <$> ids))) by (rewrite Hl; set_solver).
  assert (Hno : ∀ id, FRecord id ∉ fk_trace k) by (intros id; rewrite Ht, list_elem_of_fmap; by intros (? & ? & _)).
  destruct ok; cbn [fst snd].
  2:{ apply fanned_drain; [by apply fanned_err|by apply covered_no_record]. }
  specialize (Hok eq_refl) as ->. set (k1 := on_svc _ (trace FDriver _)).
  assert (Ht1 : fk_trace k1 = (FLease <$> concat (child_intents names <$> ids)) ++ [FDriver]) by (cbn; by rewrite Ht).
  destruct (f_forkFrom fa) as [iids|e]; cbn [fst snd].
  2:{ apply fanned_drain; [by apply fanned_err|]. apply covered_no_record. intros id. rewrite Ht1, elem_of_app, list_elem_of_singleton, list_elem_of_fmap.
      by intros [(? & ? & _)|?]. }
  destruct (persist_children fa mk names ids iids k1) as [k2 r2] eqn:Ep.
  destruct (persist_facts handle (sv_disks s) fa mk ids iids k1 k2 r2 Hnd Hwf Hmk Ep)
    as (ev & Ht2 & Hd & Hids & Hord & Hl2 & Hc & Hw & Hv2 & Hok). rewrite Ht1 in Ht2.
  assert (Hcov : covered names ids (fk_trace k2)).
  { rewrite Ht2. apply covered_persisted; [|done|done|done]. intros id n Hid Hn. apply list_elem_of_In, in_concat.
    exists (child_intents names id). split; apply list_elem_of_In; [|done]. apply list_elem_of_fmap. eauto. }
  replace (sv_fs (fk_svc k1)) with (sv_fs s) in Hc, Hw by (by rewrite <- Hf). replace (sv_volumes (fk_svc k1)) with (sv_volumes s) in Hv2 by (by rewrite <- Hv).
  assert (Hfan : ∀ r, (∀ cs, r = Ok cs → r2 = Ok cs) → fanned names mk ids (Ok iids) s k2 r).
  { intros r Hr. constructor; [etrans; [exact Hl2|exact Hlk]|done|done|done|]. intros cs Hcs. apply Hr in Hcs. destruct (Hok cs Hcs) as [-> ?]. eauto. }
  destruct r2 as [cs|e]; cbn [fst snd]; [|apply fanned_drain; [by apply Hfan|done]].
  destruct (_ && _); cbn [fst snd]; [|apply fanned_drain; [by apply Hfan|done]].
  destruct (start_perimeters_fs fa cs (fk_svc k2)) as [Hpf Hpv]. destruct (start_perimeters fa cs (fk_svc k2)) as [s3 r3]. cbn [fst snd] in *.
  apply fanned_drain; [|done].
  destruct (Hfan (let* _ := r3 in Ok cs)) as [F1 F2 F3 F4 F5]; [destruct r3; cbn; [by intros ? [= ->]|done]|].
  constructor; cbn [fk_svc fk_leases]; rewrite ?Hpf, ?Hpv; done.
Qed.

(** ** What a fork or a restore leaves *)

(** A running child of [parent]: allowed hosts, egress mode and repository are the parent's, without any credential of
    it. *)
Definition child_of (parent : Sandbox) (snapID : string) (id : SandboxID) (c : Sandbox) : Prop :=
  ID c = id ∧ SState c = Running ∧ Project c = Project parent ∧ RemovalMarker c = false ∧ MountedVolumes c = [] ∧
  SProvenance c = Some (mkProvenance (ID parent) snapID) ∧
  AllowedHosts (SEnvelope c) = AllowedHosts (SEnvelope parent) ∧ OpenEgress (SEnvelope c) = OpenEgress (SEnvelope parent) ∧
  AllowedRepo (SEnvelope c) = AllowedRepo (SEnvelope parent) ∧
  SecretHosts (SEnvelope c) = [] ∧ SecretHostSuffixes (SEnvelope c) = [] ∧ SecretSpecs (SEnvelope c) = [].

Lemma child_sandbox_child_of prefix parent snapID iid ns id :
  child_of parent snapID id (persisted (child_sandbox prefix parent (ID parent) snapID iid ns id)).
Proof. by destruct ns. Qed.

(** What [Fork] and [RestoreFromSnapshot] promise. *)
Record fork_result (parent : Sandbox) (snapID : string) (ids : list SandboxID) (s : Service) (k : Forking)
    (r : result fork_error (list Sandbox)) : Prop := {
  fr_leases : fk_leases k = ∅;
  fr_records : ∀ id, wf_id id → lookup_sandbox (sv_fs (fk_svc k)) id = lookup_sandbox (sv_fs s) id ∨
    id ∈ ids ∧ lookup_sandbox (sv_fs s) id = None ∧
    ∃ c, lookup_sandbox (sv_fs (fk_svc k)) id = Some c ∧ child_of parent snapID id c;
  fr_covered : covered (parentShadowDiskNames (Handle parent) (sv_disks s)) ids (fk_trace k);
  fr_volumes : sv_volumes (fk_svc k) = sv_volumes s;
  fr_wf : store_wf (sv_fs s) → store_wf (sv_fs (fk_svc k));
  fr_ok : ∀ cs, r = Ok cs → ID <$> cs = ids ∧ ∀ c, c ∈ cs → lookup_sandbox (sv_fs (fk_svc k)) (ID c) = Some (persisted c);
}.

Lemma zip_ids (mk : SandboxID → string → Sandbox) ids iids :
  (∀ id iid, ID (mk id iid) = id) → length iids = length ids → ID <$> zip_with mk ids iids = ids.
Proof.
  intros Hmk. revert iids. induction ids as [|id ids IH]; intros [|iid iids] Hl; try done. cbn. rewrite Hmk. f_equal. apply IH. by injection Hl.
Qed.

Lemma fan_out_result drv fa prefix parent snapID ns ids s s0 :
  NoDup ids → Forall wf_id ids → (∀ iids, f_forkFrom fa = Ok iids → length iids = length ids) →
  sv_fs s0 = sv_fs s → sv_volumes s0 = sv_volumes s → sv_disks s0 = sv_disks s →
  let r := fan_out drv fa (λ id iid, child_sandbox prefix parent (ID parent) snapID iid (ns id) id) (Handle parent) ids s in
  fork_result parent snapID ids s0 r.1 r.2.
Proof.
  intros Hnd Hwf Hlen Hf Hv Hd. cbv zeta. set (mk := λ id iid, _).
  assert (Hmk : ∀ id iid, ID (mk id iid) = id) by (intros id iid; by unfold mk; destruct (ns id)).
  destruct (fan_out_facts drv fa mk (Handle parent) ids s Hnd Hwf Hmk) as ([_ Hc Hw Hvol Hok] & Hl & Hcov).
  destruct (fan_out drv fa mk (Handle parent) ids s) as [k r]. cbn [fst snd] in *. constructor; rewrite ?Hf, ?Hv, ?Hd; try done.
  - intros id Hid. destruct (Hc id Hid) as [?|(Hi & Hn & iid & Hs)]; [by left|right]. split; [done|]. split; [done|].
    eexists. split; [exact Hs|]. apply child_sandbox_child_of.
  - intros cs Hcs. destruct (Hok cs Hcs) as (insts & Hi & -> & Hlk). split; [by apply zip_ids; [|apply Hlen]|].
    intros c Hin. apply list_elem_of_lookup in Hin as [i Hin]. apply lookup_zip_with_Some in Hin as (id & iid & -> & H1 & H2).
    rewrite Hmk. by eapply Hlk.
Qed.

Lemma unchanged_result parent snapID ids s0 s e :
  sv_fs s0 = sv_fs s → sv_volumes s0 = sv_volumes s → fork_result parent snapID ids s0 (unchanged (A:=list Sandbox) s e).1 (Err e).
Proof.
  intros Hf Hv. constructor; cbn; rewrite <- ?Hf, <- ?Hv; try done; [by left|]. by apply covered_no_record; intros ? ?%elem_of_nil.
Qed.

Lemma Next_snapshot from tr : Next from TriggerSnapshot = Ok tr → from = Running ∨ from = Stopped.
Proof. destruct from; vm_compute; intros [= <-]; auto. Qed.

(** Everything before the leases changes no record. *)
Definition fork_gates (drv : Driver) (parent : Sandbox) (count : Z) : Prop :=
  1 ≤ count ∧ (SState parent = Running ∨ SState parent = Stopped) ∧ MountedVolumes parent = [] ∧ LiveMounts parent = [] ∧
  dv_Snapshotter drv = true ∧ dv_Forker drv = true.

(** The world mints fresh identifiers, the driver returns one instance per child, and the identifier in
    a snapshot is an identifier. *)
Definition fair (fa : ForkAnswers) (count : Z) : Prop :=
  NoDup (minted fa count) ∧ Forall wf_id (minted fa count) ∧
  (∀ iids, f_forkFrom fa = Ok iids → length iids = length (minted fa count)) ∧
  ∀ snap, f_snapshot fa = Ok snap → wf_id (sn_SandboxID snap).

(** Refused with nothing changed, or children of a stored [parent] that passes the gates. *)
Definition forked (gates : Sandbox → Prop) (fa : ForkAnswers) (count : Z) (snapID : Snapshot_ → string) (s : Service) (k : Forking)
    (r : result fork_error (list Sandbox)) : Prop :=
  (fk_trace k = [] ∧ is_ok r = false ∧ sv_fs (fk_svc k) = sv_fs s ∧ sv_volumes (fk_svc k) = sv_volumes s ∧ fk_leases k = ∅) ∨
  ∃ parent snap, wf_id (ID parent) ∧ lookup_sandbox (sv_fs s) (ID parent) = Some parent ∧ gates parent ∧
    f_snapshot fa = Ok snap ∧ sn_valid snap = true ∧ fork_result parent (snapID snap) (minted fa count) s k r.

Lemma Fork_forked drv fa ref count s k r :
  store_wf (sv_fs s) → fair fa count → Fork drv fa ref count s = (k, r) →
  forked (λ parent, fork_gates drv parent count) fa count sn_ID s k r.
Proof.
  intros Hwf (Hnd & Hids & Hlen & _). unfold Fork, unchanged. destruct (Z.ltb_spec count 1) as [|Hc]; [intros [= <- <-]; by left|].
  destruct (resolve (f_resolve fa) ref s) as [parent|] eqn:Er; [|intros [= <- <-]; by left].
  destruct (Next (SState parent) TriggerSnapshot) as [tr|] eqn:En; [|intros [= <- <-]; by left].
  destruct (MountedVolumes parent) as [|] eqn:Em; [|intros [= <- <-]; by left].
  destruct (LiveMounts parent) as [|] eqn:El; [|intros [= <- <-]; by left].
  destruct (dv_Snapshotter drv) eqn:Es; [|intros [= <- <-]; by left]. destruct (dv_Forker drv) eqn:Ef; [|intros [= <- <-]; by left]. cbn [negb orb].
  destruct (f_snapshot fa) as [snap|] eqn:Esn; [|intros [= <- <-]; by left].
  destruct (sn_valid snap) eqn:Ev; [|intros [= <- <-]; by left]. cbn [negb].
  destruct (f_diskDir fa); [intros [= <- <-]; by left|]. destruct (f_noSpace fa); [intros [= <- <-]; by left|]. intros Heq. right.
  destruct (resolve_sound _ _ _ _ Hwf Er) as [Hid Hlk]. exists parent, snap. do 2 (split; [done|]).
  split; [split_and!; try done; by eapply Next_snapshot|]. do 2 (split; [done|]).
  pose proof (fan_out_result drv fa "fork-" parent (sn_ID snap) (λ id, if dv_NetnsStateProvider drv then f_netns fa id else None)
    (minted fa count) (add_log [EvSnapshot (ID parent)] s) s Hnd Hids Hlen eq_refl eq_refl eq_refl) as H. cbv beta zeta in H.
  rewrite Heq in H. exact H.
Qed.

Lemma Restore_forked drv arts fa snapID count s k r :
  store_wf (sv_fs s) → fair fa count → RestoreFromSnapshot drv arts fa snapID count s = (k, r) →
  forked (λ parent, 1 ≤ count ∧ dv_Forker drv = true) fa count (λ _, snapID) s k r.
Proof.
  intros Hwf (Hnd & Hids & Hlen & Hsn). unfold RestoreFromSnapshot, unchanged. destruct (Z.ltb_spec count 1) as [|Hc]; [intros [= <- <-]; by left|].
  destruct arts; [|intros [= <- <-]; by left]. cbn [negb]. destruct (f_snapshot fa) as [snap|] eqn:Esn; [|intros [= <- <-]; by left].
  destruct (sn_valid snap) eqn:Ev; [|intros [= <- <-]; by left]. destruct (dv_Forker drv) eqn:Ef; [|intros [= <- <-]; by left]. cbn [negb].
  destruct (f_diskDir fa); [intros [= <- <-]; by left|]. destruct (f_noSpace fa); [intros [= <- <-]; by left|].
  destruct (Store.Get _ _ _) as [origin|] eqn:Eg; [|intros [= <- <-]; by left]. intros Heq. right.
  pose proof (Get_sound _ _ _ _ Eg) as Hg. destruct (lookup_at_own_id _ _ _ Hwf Hg) as [Hid Hlk].
  assert (Ho : sn_SandboxID snap = ID origin).
  { destruct (lookup_sandbox_dir _ _ _ Hg) as [d Hd]. unfold lookup_sandbox in Hg. rewrite Hd in Hg.
    destruct (Hwf _ _ _ Hd Hg) as [Hn Hw]. by apply sandboxDir_inj in Hn; [|apply Hsn|]. }
  rewrite Ho in Heq. exists origin, snap. do 5 (split; [done|]).
  pose proof (fan_out_result drv fa "restore-" origin snapID (λ _, None) (minted fa count) s s Hnd Hids Hlen eq_refl eq_refl eq_refl) as H.
  cbv beta zeta in H. rewrite Heq in H. exact H.
Qed.

(** C8: forking and restoring.  Either the call is refused, before anything is leased and with no record or volume
    changed (a transient snapshot that a fork has taken by then stays), or the parent is stored, the snapshot is valid and, for a fork, the parent is running
    or stopped and has no volume and no live mount.  Then no record other than a new child's changes,
    each child is running with the allowed hosts, the egress mode and the repository of its parent and none of its
    secrets (its branch limits and path policies are not passed on, see [fork_loses_branch_limit]), from the
    moment the driver is asked until a child's record is durable every intent that covers
    the child's disks is held, all leases are gone at the end, and the children
    returned are the ones minted, as stored. *)
Lemma fork_children_covered drv fa count s :
  store_wf (sv_fs s) → fair fa count →
  (∀ ref k r, Fork drv fa ref count s = (k, r) → forked (λ parent, fork_gates drv parent count) fa count sn_ID s k r) ∧
  (∀ arts snapID k r, RestoreFromSnapshot drv arts fa snapID count s = (k, r) →
     forked (λ parent, 1 ≤ count ∧ dv_Forker drv = true) fa count (λ _, snapID) s k r).
Proof. intros Hwf Hf. split; intros *; [by apply Fork_forked|by apply Restore_forked]. Qed.

(** ** Removing snapshots *)

Lemma SnapshotRemove_in_use io a remover rmFails id fs sb :
  healthy io → store_wf fs → wf_id (ID sb) → lookup_sandbox fs (ID sb) = Some sb → references id sb = true →
  ∃ other, SnapshotRemove io (Some a) remover rmFails id fs = (Some a, Err (SnInUse other)).
Proof.
  intros Hh Hwf Hid Hlk Hr. destruct (List_lookup_all (E:=cb_error) io fs Hh Hwf) as (l & Hl & Hin).
  unfold SnapshotRemove. rewrite Hl. pose proof (find_sandbox_spec (references id) l) as Hs.
  destruct (find_sandbox (references id) l) as [sb'|]; [by eauto|]. assert (H : sb ∈ l) by (by apply Hin). apply Hs in H. congruence.
Qed.

(** ** Branches *)

Definition detached_parent : Sandbox :=
  mkSandbox id_A "a" "p" ∅ Stopped
    (mkEnvelope "" ["github.com"%string] "" [] [] [] false "o/r" [UnresolvedBranchSentinel] ∅)
    "" false false StopReasonClean None 0 "" 0 0 "" "" 0 "" "" "" 0 "" [] [] "" [].

Definition detached_service : Service :=
  mkService (Store.Create (E:=cb_error) io_none detached_parent ∅).1 None None ∅ ∅ (mkDir ∅ ∅) ∅ [].

Definition fork_ok : ForkAnswers :=
  mkForkAnswers io_none (Ok (mkSnapshot "snap-1" id_A true)) (λ _, id_B) false false false (λ _, PubOk) (Ok ["i-1"%string])
    (λ id, [raw_name id]) (λ _, io_none) (λ _, None) (λ _, mkSupEnv false false false 0).

Definition forking_driver : Driver := mkDriver true true true true false.

Lemma detached_wf : store_wf (sv_fs detached_service).
Proof. apply Create_store_wf; [done|]. intros n d sb. by rewrite lookup_empty. Qed.

Lemma fork_ok_fair : fair fork_ok 1.
Proof.
  unfold fair. split; [by apply NoDup_singleton|]. split; [by apply Forall_singleton|]. split; [by intros ? [= <-]|by intros ? [= <-]].
Qed.

(** A parent whose branch could not be derived may push nothing; its forked child, whose branch list is
    empty, may push to every branch under the default. *)
Lemma fork_loses_branch_limit :
  ∃ c, (Fork forking_driver fork_ok "p/a" 1 detached_service).2 = Ok [c] ∧ AllowedRepo (SEnvelope c) = "o/r"%string ∧
    ResolvedAllowedBranches (SEnvelope detached_parent) = [UnresolvedBranchSentinel] ∧
    ResolvedAllowedBranches (SEnvelope c) = ["refs/heads/nexus/**"%string].
Proof. eexists. split; [vm_compute; reflexivity|]. split_and!; reflexivity. Qed.

Lemma fork_children_covered_witness :
  ∃ parent snap, fork_result parent (sn_ID snap) [id_B] detached_service (Fork forking_driver fork_ok "p/a" 1 detached_service).1
    (Fork forking_driver fork_ok "p/a" 1 detached_service).2.
Proof.
  destruct (fork_children_covered forking_driver fork_ok 1 detached_service detached_wf fork_ok_fair) as [H _].
  destruct (H "p/a"%string _ _ (surjective_pairing _)) as [(_ & Hr & _)|(parent & snap & _ & _ & _ & _ & _ & Hres)].
  - vm_compute in Hr. discriminate Hr.
  - exists parent, snap. exact Hres.
Defined.
