(* ===== verification/Reap.v ===== *)
(** * internal/core/service/reap.go: reclaiming what no sandbox owns

    A reap lists the files and directories of the state root (Disks), probes the locks of the
    intent files among them, lists the records, and then classifies each resource and, if
    asked to, deletes the orphans; at last it sweeps the processes that run a sandbox's
    network namespace.  [Reap] is that sequence, over what the host answers at each point.
    Section [Race] interleaves the same steps with creators that lease, write, commit and release.

    Texts of reasons are left out; a path is its directory and its name; the zero identifier
    of a resource without an owner is [None]. *)

From stdpp Require Import prelude countable gmap strings list sorting.
From Stdlib Require Import ZArith Ascii Lia.
From S2P Require Import Prelude GoStrings GoNet Domain Sandbox Store VolumeGuard Disks.

(** ** Processes *)

(** What reading a file gave. *)
Inductive file_read := FileENOENT | FileError | FileData (s : string).

(** A directory of /proc; [pr_owner] is the uid, or why the stat failed. *)
Record Proc := mkProc {
  pr_name : string;
  pr_cmdline : file_read;
  pr_owner : result bool Z;
  pr_stat : file_read;
  pr_environ : file_read;
}.

Definition isNumeric (s : string) : bool :=
  match chars s with [] => false | l => forallb (λ c, bool_decide (is_Some (digit_val c))) l end.

Inductive procScanResult := procScanDead | procScanLive | procScanAmbiguous.

#[global] Instance procScanResult_eq_dec : EqDecision procScanResult.
Proof. solve_decision. Defined.

Definition maxCmdlineRead : nat := Z.to_nat (512 * 1024).

Definition checkPIDCmdline (f : file_read) (ulidStr : string) : procScanResult :=
  match f with
  | FileENOENT | FileError => procScanAmbiguous
  | FileData s =>
      let data := take (S maxCmdlineRead) (chars s) in
      let truncated := (maxCmdlineRead <? length data)%nat in
      let data := if truncated then take maxCmdlineRead data else data in
      if Contains (of_chars data) ulidStr then procScanLive
      else if truncated then procScanAmbiguous
      else procScanDead
  end.

Fixpoint scan_loop (ulidStr : string) (procs : list Proc) (anyAmbiguous : bool) : procScanResult :=
  match procs with
  | [] => if anyAmbiguous then procScanAmbiguous else procScanDead
  | p :: procs =>
      if negb (isNumeric (pr_name p)) then scan_loop ulidStr procs anyAmbiguous
      else match checkPIDCmdline (pr_cmdline p) ulidStr with
           | procScanLive => procScanLive
           | procScanAmbiguous => scan_loop ulidStr procs true
           | procScanDead => scan_loop ulidStr procs anyAmbiguous
           end
  end.

(** [None] if /proc cannot be read. *)
Definition scanProcForULID (procs : option (list Proc)) (ulidStr : string) : procScanResult :=
  match procs with
  | None => procScanAmbiguous
  | Some l => scan_loop ulidStr l false
  end.

(** ** Sockets *)

(** The stat of the socket, and what the request over it returned: an error's text, or a response. *)
Inductive stat_result := StatOk | StatENOENT | StatError.
Record SockAnswer := mkSock { sk_stat : stat_result; sk_do : result string unit }.

(** (alive, ambiguous). *)
Definition socketResponsive (a : SockAnswer) : bool * bool :=
  match sk_stat a with
  | StatENOENT => (false, false)
  | StatError => (false, true)
  | StatOk =>
      match sk_do a with
      | Err errStr =>
          if Contains errStr "connection refused" || Contains errStr "no such file" || Contains errStr "connect: no such file"
          then (false, false) else (false, true)
      | Ok _ => (true, false)
      end
  end.

Definition zero_id : SandboxID := replicate 16 (ascii_of_N 0).
Definition owner (res : HostResource) : SandboxID := default zero_id (hr_OwnerID res).

Definition socketPathForID (res : HostResource) : place * string :=
  match hr_Kind res with
  | KindSocketAPI | KindSocketVSock | KindSocketIID => hr_Path res
  | _ => (Sockets, SandboxID_String (owner res) +:+ ".sock")
  end.

(** ** Classification *)

Inductive ReapStatus := ReapStatusOrphan | ReapStatusLive | ReapStatusOwned | ReapStatusSuspect.

#[global] Instance ReapStatus_eq_dec : EqDecision ReapStatus.
Proof. solve_decision. Defined.

(** What the reaper knows when it classifies. *)
Record Known := mkKnown {
  recordMap : gmap SandboxID Sandbox;
  shadowHandleMap : gmap string SandboxID;
  inFlight : gset SandboxID;
  inFlightShadow : gset string;
}.

(** What the host answers while one resource is classified: /proc, the sockets, the record
    directory of the owner and the control socket of its supervisor. *)
Record HostView := mkHostView {
  hv_proc : option (list Proc);
  hv_sock : place * string → SockAnswer;
  hv_recordDir : stat_result;
  hv_supervisorSock : SockAnswer;
}.

Definition classifyResource (h : HostView) (k : Known) (res : HostResource) : ReapStatus :=
  match recordMap k !! owner res with
  | Some _ => ReapStatusOwned
  | None =>
      if bool_decide (owner res ∈ inFlight k) then ReapStatusLive
      else match scanProcForULID (hv_proc h) (SandboxID_String (owner res)) with
           | procScanLive | procScanAmbiguous => ReapStatusLive
           | procScanDead =>
               let '(alive, ambiguous) := socketResponsive (hv_sock h (socketPathForID res)) in
               if ambiguous then ReapStatusLive
               else if alive then ReapStatusLive
               else ReapStatusOrphan
           end
  end.

Definition classifyShadowDisk (k : Known) (res : HostResource) : ReapStatus :=
  let h := hr_ShadowHandle res in
  if bool_decide (h ∈ inFlightShadow k) && negb (String.eqb h "") then ReapStatusLive
  else if String.eqb h "" then ReapStatusOrphan
  else match shadowHandleMap k !! h with
       | Some _ => ReapStatusOwned
       | None =>
           match forkChildShadowOwner h with
           | Some childID => match recordMap k !! childID with Some _ => ReapStatusOwned | None => ReapStatusOrphan end
           | None => ReapStatusOrphan
           end
       end.

Definition classifySupervisorState (h : HostView) (k : Known) (res : HostResource) : ReapStatus :=
  match classifyResource h k res with
  | ReapStatusOrphan =>
      match hv_recordDir h with
      | StatOk | StatError => ReapStatusLive
      | StatENOENT =>
          let '(alive, ambiguous) := socketResponsive (hv_supervisorSock h) in
          if ambiguous then ReapStatusLive
          else if alive then ReapStatusLive
          else ReapStatusOrphan
      end
  | st => st
  end.

Definition classify (h : HostView) (k : Known) (res : HostResource) : ReapStatus :=
  match hr_Kind res with
  | KindDiskShadow | KindShadowIntent => classifyShadowDisk k res
  | KindSupervisorState => classifySupervisorState h k res
  | _ => classifyResource h k res
  end.

(** ** Deleting *)

Definition on_dir (f : Dir → Dir) (p : place) (r : StateRoot) : StateRoot :=
  mkStateRoot (λ q, if bool_decide (q = p) then f (sr_dirs r q) else sr_dirs r q).

Definition deleteResource (res : HostResource) (r : StateRoot) : StateRoot :=
  match hr_Kind res with
  | KindBuilderSupervisor | KindSupervisorState => on_dir (rm_dir (hr_Path res).2) (hr_Path res).1 r
  | _ => on_dir (rm_file (hr_Path res).2) (hr_Path res).1 r
  end.

(** ** Processes of network namespaces *)

(** [strings.Fields] on ASCII text. *)
Fixpoint fields_loop (l cur : bytes) : list bytes :=
  match l with
  | [] => match cur with [] => [] | _ => [reverse cur] end
  | c :: l =>
      if is_space c then match cur with [] => fields_loop l [] | _ => reverse cur :: fields_loop l [] end
      else fields_loop l (c :: cur)
  end.

(** The fields after the last closing parenthesis of a stat file. *)
Definition stat_fields (f : file_read) : option (list bytes) :=
  match f with
  | FileData s => (λ ab, fields_loop ab.2 []) <$> break_last ")" (chars (TrimRightByte s "010"))
  | _ => None
  end.

Definition readProcState (f : file_read) : option string :=
  match stat_fields f with Some (st :: _) => Some (of_chars st) | _ => None end.

Definition readProcPGID (f : file_read) : option Z :=
  match stat_fields f with
  | Some (_ :: _ :: pgid :: _) => match ParseInt (of_chars pgid) with Ok z => Some z | Err _ => None end
  | _ => None
  end.

(** Later bindings of a name win. *)
Definition readProcEnviron (data : string) : gmap string string :=
  fold_left (λ env kv,
    if String.eqb kv "" then env
    else match Cut kv "=" with Some (k, v) => <[k := v]> env | None => env end)
    (Split data (ascii_of_N 0)) ∅.

Definition filepath_Base (path : string) : string :=
  match chars path with
  | [] => "."%string
  | l =>
      match drop_end_while (Ascii.eqb "/") l with
      | [] => "/"%string
      | l => of_chars (match break_last "/" l with Some (_, b) => b | None => l end)
      end
  end.

Definition sandboxIDFromSocketPath (path : string) : option SandboxID :=
  if String.eqb path "" then None
  else match ParseSandboxID (TrimSuffix (filepath_Base path) ".sock") with Ok id => Some id | Err _ => None end.

Definition netnsRunEnv : string := "NEXUS_NETNS_RUN".
Definition netnsEnvAPISocket : string := "NEXUS_NETNS_API_SOCKET".

(** An entry about a process. *)
Record NetnsEntry := mkNetnsEntry {
  ne_Status : ReapStatus;
  ne_Path : string;
  ne_OwnerID : option SandboxID;
  ne_PID : Z;
  ne_PGID : Z;
}.

Record Sweep := mkSweep { sw_entries : list NetnsEntry; sw_zombies : Z; sw_inaccessible : Z }.

Definition no_sweep : Sweep := mkSweep [] 0 0.
Definition add_entry (e : NetnsEntry) (s : Sweep) : Sweep := mkSweep (e :: sw_entries s) (sw_zombies s) (sw_inaccessible s).
Definition add_zombie (s : Sweep) : Sweep := mkSweep (sw_entries s) (sw_zombies s + 1) (sw_inaccessible s).
Definition add_inaccessible (s : Sweep) : Sweep := mkSweep (sw_entries s) (sw_zombies s) (sw_inaccessible s + 1).

Definition claimedSockets (k : Known) : gset string :=
  list_to_set (List.filter (λ c, negb (String.eqb c "")) ((λ p, CHAPISocket p.2) <$> map_to_list (recordMap k))).

(** The entry of a process that runs a network namespace; the suspects without a process number are those
    whose record names another socket. *)
Definition netns_entry (k : Known) (pid : Z) (stat : file_read) (apiSocket : string) : option NetnsEntry :=
  if bool_decide (apiSocket ∈ claimedSockets k) then None
  else
    let pgid := match readProcPGID stat with Some g => if 0 <? g then g else pid | None => pid end in
    match sandboxIDFromSocketPath apiSocket with
    | None => Some (mkNetnsEntry ReapStatusSuspect apiSocket None pid pgid)
    | Some id =>
        if bool_decide (id ∈ inFlight k) then None
        else match recordMap k !! id with
             | Some _ => Some (mkNetnsEntry ReapStatusSuspect apiSocket (Some id) 0 0)
             | None => Some (mkNetnsEntry ReapStatusOrphan apiSocket (Some id) pid pgid)
             end
    end.

(** What one process adds to the sweep of the others. *)
Definition sweep_proc (euid : Z) (k : Known) (p : Proc) (rest : Sweep) : Sweep :=
  if negb (isNumeric (pr_name p)) then rest
  else match ParseInt (pr_name p) with
  | Err _ => rest
  | Ok pid =>
      match pr_owner p with
      | Err vanished => if (vanished : bool) then rest else add_inaccessible rest
      | Ok uid =>
          if negb (uid =? euid) then rest
          else if bool_decide (readProcState (pr_stat p) = Some "Z"%string) then add_zombie rest
          else match pr_environ p with
               | FileENOENT => rest
               | FileError => add_inaccessible rest
               | FileData data =>
                   let env := readProcEnviron data in
                   if negb (String.eqb (default ""%string (env !! netnsRunEnv)) "1") then rest
                   else match netns_entry k pid (pr_stat p) (default ""%string (env !! netnsEnvAPISocket)) with
                        | Some e => add_entry e rest
                        | None => rest
                        end
               end
      end
  end.

Definition sweepOrphanNetnsProcesses (euid : Z) (procs : option (list Proc)) (k : Known) : Sweep :=
  match procs with
  | None => mkSweep [mkNetnsEntry ReapStatusSuspect "" None 0 0] 0 0
  | Some l => foldr (sweep_proc euid k) no_sweep l
  end.

(** ** The whole reap *)

Record ReapOptions := mkReapOptions { opt_realProc : bool; opt_AllowRealProcKill : bool; opt_NetnsKillFn : bool }.

(** What the host answers during a reap: the listing, the probe of each intent, the listing of the
    records, the directories' resolution, each resource's view and whether its deletion fails (a
    missing file is no failure), /proc for the sweep, the kill of a group, and whether a deleted
    path is still there. *)
Record ReapAnswers := mkReapAnswers {
  ra_unreadable : place → bool;
  ra_probe : string → probe_open;
  ra_list : IO;
  ra_dirs : bool;
  ra_view : HostResource → HostView;
  ra_delete : HostResource → bool;
  ra_alloc : HostResource → Z;
  ra_euid : Z;
  ra_procs : option (list Proc);
  ra_kill : Z → bool;
  ra_stat : place * string → bool;
}.

Record ReapReport := mkReapReport {
  rp_Entries : list (HostResource * ReapStatus);
  rp_Netns : list NetnsEntry;
  rp_ReclaimableBytes : Z;
  rp_Deleted : list (place * string);
  rp_Failed : list (place * string);
  rp_FailedPGIDs : list Z;
  rp_KilledPIDs : list Z;
  rp_Zombies : Z;
  rp_Uninspectable : Z;
}.

Inductive reap_error := RpRealProc | RpEnumerate | RpList (e : store_error Empty_set) | RpDirs | RpSyntheticKill.

Definition lease_keeps (o : probe_open) : bool :=
  match probeIntentLease o with leaseHeld | leaseUnknown => true | leaseFree => false end.

Definition probe_create_intents (probe : string → probe_open) (l : list HostResource) : gset SandboxID :=
  list_to_set (owner <$> List.filter (λ r, bool_decide (hr_Kind r = KindCreateIntent) && lease_keeps (probe (hr_Path r).2)) l).

Definition probe_shadow_intents (probe : string → probe_open) (l : list HostResource) : gset string :=
  list_to_set (hr_ShadowHandle <$> List.filter (λ r, bool_decide (hr_Kind r = KindShadowIntent) && lease_keeps (probe (hr_Path r).2)) l).

Definition record_map (all : list Sandbox) : gmap SandboxID Sandbox :=
  fold_left (λ m sb, <[ID sb := sb]> m) all ∅.

Definition shadow_handle_map (all : list Sandbox) : gmap string SandboxID :=
  fold_left (λ m sb, <[SafeHandle (Handle sb) := ID sb]> m) all ∅.

(** The loop over the resources. *)
Fixpoint reap_loop (a : ReapAnswers) (apply : bool) (k : Known) (l : list HostResource) (r : StateRoot)
    : StateRoot * list (HostResource * ReapStatus) * Z * list (place * string) * list (place * string) :=
  match l with
  | [] => (r, [], 0, [], [])
  | res :: l =>
      let st := classify (ra_view a res) k res in
      let orphan := bool_decide (st = ReapStatusOrphan) in
      let failed := ra_delete a res in
      let r := if orphan && apply && negb failed then deleteResource res r else r in
      let '(r, es, bytes, del, fl) := reap_loop a apply k l r in
      (r, (res, st) :: es,
       (if orphan then ra_alloc a res else 0) + bytes,
       (if orphan && apply && negb failed then hr_Path res :: del else del),
       (if orphan && apply && failed then hr_Path res :: fl else fl))
  end.

Definition netns_orphans (es : list NetnsEntry) : list NetnsEntry :=
  List.filter (λ e, bool_decide (ne_Status e = ReapStatusOrphan)) es.

Definition verifyDeletions (stat : place * string → bool) (del fl : list (place * string)) : list (place * string) * list (place * string) :=
  (List.filter (λ p, negb (stat p)) del, fl ++ List.filter stat del).

(** Both kill the group; the production one refuses a group that is not positive.  [true]: it failed. *)
Definition killNetnsProcessFn (signal : Z → bool) (pgid : Z) : bool := (pgid <=? 0) || signal pgid.

Definition Reap (a : ReapAnswers) (opt : ReapOptions) (apply : bool) (fs : FS) (r : StateRoot)
    : StateRoot * result reap_error ReapReport :=
  if apply && opt_realProc opt && negb (opt_AllowRealProcKill opt) then (r, Err RpRealProc)
  else match index_list (ra_unreadable a) r with
  | None => (r, Err RpEnumerate)
  | Some resources =>
      let fl := probe_create_intents (ra_probe a) resources in
      let fls := probe_shadow_intents (ra_probe a) resources in
      match List_ (ra_list a) fs with
      | Err e => (r, Err (RpList e))
      | Ok all =>
          if ra_dirs a then (r, Err RpDirs)
          else
            let k := mkKnown (record_map all) (shadow_handle_map all) fl fls in
            let '(r, es, bytes, del, fl) := reap_loop a apply k resources r in
            let sw := sweepOrphanNetnsProcesses (ra_euid a) (ra_procs a) k in
            let orphans := if apply then netns_orphans (sw_entries sw) else [] in
            if negb (opt_realProc opt) && negb (opt_NetnsKillFn opt) && negb (bool_decide (orphans = [])) then (r, Err RpSyntheticKill)
            else
              let kill := if opt_NetnsKillFn opt then ra_kill a else killNetnsProcessFn (ra_kill a) in
              let '(del, fl) := if apply then verifyDeletions (ra_stat a) del fl else (del, fl) in
              (r, Ok (mkReapReport es (sw_entries sw) bytes del fl
                        (ne_PGID <$> List.filter (λ e, kill (ne_PGID e)) orphans)
                        (ne_PID <$> List.filter (λ e, negb (kill (ne_PGID e))) orphans)
                        (sw_zombies sw) (sw_inaccessible sw)))
      end
  end.

(** ** What an orphan is *)

(** Every process was read in full, and none names the sandbox. *)
Definition unnamed (procs : option (list Proc)) (ulidStr : string) : Prop :=
  ∃ l, procs = Some l ∧ ∀ p, p ∈ l → isNumeric (pr_name p) = true →
    ∃ s, pr_cmdline p = FileData s ∧ (length (chars s) ≤ maxCmdlineRead)%nat ∧ Contains s ulidStr = false.

Lemma checkPIDCmdline_dead f ulid :
  checkPIDCmdline f ulid = procScanDead →
  ∃ s, f = FileData s ∧ (length (chars s) ≤ maxCmdlineRead)%nat ∧ Contains s ulid = false.
Proof.
  destruct f as [| |s]; [done..|]. unfold checkPIDCmdline. generalize maxCmdlineRead. intros max. cbv zeta.
  destruct (Nat.ltb_spec max (length (take (S max) (chars s)))) as [Hl|Hl].
  { by destruct (Contains _ ulid). }
  rewrite length_take in Hl. rewrite take_ge by lia. rewrite of_chars_chars. destruct (Contains s ulid) eqn:E; [done|]. intros _.
  exists s. split_and!; [done|lia|done].
Qed.

Lemma scan_loop_dead ulid l amb :
  scan_loop ulid l amb = procScanDead → amb = false ∧ unnamed (Some l) ulid.
Proof.
  revert amb. induction l as [|p l IH]; intros amb; cbn [scan_loop].
  { destruct amb; [done|]. intros _. split; [done|]. exists []. split; [done|]. by intros p ?%elem_of_nil. }
  assert (Hcons : ∀ P : Prop, (isNumeric (pr_name p) = true → ∃ s, pr_cmdline p = FileData s ∧ (length (chars s) ≤ maxCmdlineRead)%nat ∧ Contains s ulid = false) →
     P ∧ unnamed (Some l) ulid → P ∧ unnamed (Some (p :: l)) ulid).
  { intros P Hp [HP (l' & [= <-] & Hl)]. split; [done|]. exists (p :: l). split; [done|]. intros q [->|Hq]%elem_of_cons; [done|by apply Hl]. }
  destruct (isNumeric (pr_name p)) eqn:En; cbn [negb].
  - destruct (checkPIDCmdline _ ulid) eqn:Ec; [|done|].
    + intros H%IH. apply Hcons; [|done]. intros _. by apply checkPIDCmdline_dead.
    + intros [H _]%IH. done.
  - intros H%IH. by apply Hcons.
Qed.

Lemma scan_dead procs ulid : scanProcForULID procs ulid = procScanDead → unnamed procs ulid.
Proof. destruct procs as [l|]; [|done]. cbn. by intros [_ H]%scan_loop_dead. Qed.

(** The socket is missing, or connecting to it was refused. *)
Definition dead_socket (a : SockAnswer) : Prop :=
  sk_stat a = StatENOENT ∨
  sk_stat a = StatOk ∧ ∃ e, sk_do a = Err e ∧ (Contains e "connection refused" ∨ Contains e "no such file" ∨ Contains e "connect: no such file").

Lemma socketResponsive_dead a : socketResponsive a = (false, false) → dead_socket a.
Proof.
  unfold socketResponsive, dead_socket. destruct (sk_stat a); [|by left|done]. destruct (sk_do a) as [|e]; [done|].
  destruct (Contains e "connection refused") eqn:E1, (Contains e "no such file") eqn:E2, (Contains e "connect: no such file") eqn:E3;
    cbn; try done; intros _; right; (split; [done|]); exists e; (split; [done|]); rewrite ?E1, ?E2, ?E3; eauto.
Qed.

(** A resource keyed by its owner: no record, no create in flight, no process, no socket. *)
Definition dead_owner (h : HostView) (k : Known) (res : HostResource) : Prop :=
  recordMap k !! owner res = None ∧ owner res ∉ inFlight k ∧ unnamed (hv_proc h) (SandboxID_String (owner res)) ∧
  dead_socket (hv_sock h (socketPathForID res)).

(** A shadow disk or intent: the old format, or no create of the handle, no record of it, no child of a fork. *)
Definition dead_handle (k : Known) (res : HostResource) : Prop :=
  hr_ShadowHandle res = ""%string ∨
  hr_ShadowHandle res ∉ inFlightShadow k ∧ shadowHandleMap k !! hr_ShadowHandle res = None ∧
  ∀ id, forkChildShadowOwner (hr_ShadowHandle res) = Some id → recordMap k !! id = None.

Definition is_shadow (res : HostResource) : bool :=
  match hr_Kind res with KindDiskShadow | KindShadowIntent => true | _ => false end.

Definition dead (h : HostView) (k : Known) (res : HostResource) : Prop :=
  if is_shadow res then dead_handle k res
  else dead_owner h k res ∧
       (hr_Kind res = KindSupervisorState → hv_recordDir h = StatENOENT ∧ dead_socket (hv_supervisorSock h)).

Lemma classifyResource_orphan h k res : classifyResource h k res = ReapStatusOrphan → dead_owner h k res.
Proof.
  unfold classifyResource, dead_owner. destruct (recordMap k !! owner res); [done|]. case_bool_decide; [done|].
  destruct (scanProcForULID _ _) eqn:Es; [|done..]. apply scan_dead in Es.
  destruct (socketResponsive _) as [[] []] eqn:Ek; try done. by apply socketResponsive_dead in Ek.
Qed.

Lemma classify_orphan h k res : classify h k res = ReapStatusOrphan → dead h k res.
Proof.
  assert (Hs : classifyShadowDisk k res = ReapStatusOrphan → dead_handle k res).
  { unfold classifyShadowDisk, dead_handle. destruct (String.eqb_spec (hr_ShadowHandle res) "") as [|Hne]; [by left|].
    rewrite andb_true_r. case_bool_decide; [done|]. destruct (shadowHandleMap k !! _); [done|]. intros Hf. right. split_and!; [done..|].
    intros id Hid. rewrite Hid in Hf. by destruct (recordMap k !! id). }
  unfold classify, dead, is_shadow. destruct (hr_Kind res) eqn:Ek; try exact Hs;
    try (intros H%classifyResource_orphan; split; [done|by intros [=]]).
  unfold classifySupervisorState. destruct (classifyResource h k res) eqn:Ec; try done. apply classifyResource_orphan in Ec.
  destruct (hv_recordDir h) eqn:Ed; try done. destruct (socketResponsive _) as [[] []] eqn:Eq; try done.
  intros _. split; [done|]. intros _. split; [done|by apply socketResponsive_dead].
Qed.

(** ** What a reap removes *)

Definition present (r : StateRoot) (path : place * string) : Prop :=
  path.2 ∈ d_files (sr_dirs r path.1) ∨ path.2 ∈ d_dirs (sr_dirs r path.1).

Lemma deleteResource_other res r path : path ≠ hr_Path res → present (deleteResource res r) path ↔ present r path.
Proof.
  intros Hne. destruct path as [p n], (hr_Path res) as [q m] eqn:Ep. unfold deleteResource, present, on_dir.
  destruct (hr_Kind res); cbn; rewrite Ep; cbn; case_bool_decide as Hp; cbn; try done; subst; assert (n ≠ m) by congruence; set_solver.
Qed.

Lemma deleteResource_sub res r path : present (deleteResource res r) path → present r path.
Proof.
  destruct path as [p n]. unfold deleteResource, present, on_dir. destruct (hr_Kind res); cbn; case_bool_decide; cbn; try done; set_solver.
Qed.

Lemma reap_loop_spec a apply k l r r' es bytes del fl :
  reap_loop a apply k l r = (r', es, bytes, del, fl) →
  (apply = false → r' = r ∧ del = []) ∧
  (∀ path, path ∈ del → ∃ res, res ∈ l ∧ hr_Path res = path ∧ classify (ra_view a res) k res = ReapStatusOrphan) ∧
  (∀ path, present r path → ¬ present r' path → path ∈ del) ∧
  (∀ path, present r' path → present r path) ∧
  es = (λ res, (res, classify (ra_view a res) k res)) <$> l.
Proof.
  revert r r' es bytes del fl. induction l as [|res l IH]; intros r r' es bytes del fl.
  { cbn. intros [= <- <- <- <- <-]. split_and!; try done. by intros path ?%elem_of_nil. }
  cbn [reap_loop]. destruct (reap_loop _ _ _ l _) as [[[[r1 es1] b1] del1] fl1] eqn:El. intros [= <- <- _ <- _].
  destruct (IH _ _ _ _ _ _ El) as (H1 & H2 & H3 & H4 & ->).
  assert (H2' : ∀ path, path ∈ del1 → ∃ res', res' ∈ res :: l ∧ hr_Path res' = path ∧ classify (ra_view a res') k res' = ReapStatusOrphan).
  { intros path Hp. destruct (H2 path Hp) as (x & ? & ? & ?). exists x. split; [by right|done]. }
  destruct (bool_decide_reflect (classify (ra_view a res) k res = ReapStatusOrphan)) as [Ho|Ho]; cbn [andb].
  2:{ split_and!; done. }
  destruct apply; cbn [andb]; [|split_and!; done].
  destruct (ra_delete a res); cbn [negb andb] in *; [split_and!; done|]. split_and!; [done| | | |done].
  - intros path [->|Hp]%elem_of_cons; [|by apply H2']. exists res. split; [by left|done].
  - intros path Hp Hnp. destruct (decide (path = hr_Path res)) as [->|Hne]; [by left|right]. apply H3; [|done]. by apply deleteResource_other.
  - intros path Hp. by eapply deleteResource_sub, H4.
Qed.

Lemma fold_insert_lookup {K V A} `{Countable K} (f : A → K) (g : A → V) l (m : gmap K V) k :
  match fold_left (λ m x, <[f x := g x]> m) l m !! k with
  | Some v => (∃ x, x ∈ l ∧ f x = k ∧ g x = v) ∨ m !! k = Some v
  | None => m !! k = None ∧ ∀ x, x ∈ l → f x ≠ k
  end.
Proof.
  revert m. induction l as [|x l IH]; intros m; cbn [fold_left].
  { destruct (m !! k); [by right|]. split; [done|]. by intros x ?%elem_of_nil. }
  specialize (IH (<[f x := g x]> m)). destruct (fold_left _ l _ !! k) as [v|].
  - destruct IH as [(y & Hy & ? & ?)|Hm]; [left; exists y; split; [by right|done]|].
    destruct (decide (f x = k)) as [Hk|Hk]; [|right; by rewrite lookup_insert_ne in Hm].
    left. exists x. split; [by left|]. split; [done|]. rewrite Hk, lookup_insert_eq in Hm. by injection Hm.
  - destruct IH as [Hm Hl]. apply lookup_insert_None in Hm as [Hm Hk]. split; [done|]. intros y [->|Hy]%elem_of_cons; [done|by apply Hl].
Qed.

Lemma record_map_spec all id :
  match record_map all !! id with Some sb => sb ∈ all ∧ ID sb = id | None => ∀ sb, sb ∈ all → ID sb ≠ id end.
Proof.
  pose proof (fold_insert_lookup ID (λ sb, sb) all ∅ id) as H. unfold record_map. destruct (fold_left _ all ∅ !! id) as [sb|].
  - destruct H as [(x & ? & ? & <-)|H]; [done|]. by rewrite lookup_empty in H.
  - apply H.
Qed.

Lemma shadow_handle_map_None all h :
  shadow_handle_map all !! h = None → ∀ sb, sb ∈ all → SafeHandle (Handle sb) ≠ h.
Proof.
  intros E. pose proof (fold_insert_lookup (λ sb, SafeHandle (Handle sb)) ID all ∅ h) as H. cbv beta in H.
  unfold shadow_handle_map in E. rewrite E in H. apply H.
Qed.

(** What the reaper knows once it has listed the records. *)
Definition known (probe : string → probe_open) (resources : list HostResource) (all : list Sandbox) : Known :=
  mkKnown (record_map all) (shadow_handle_map all) (probe_create_intents probe resources) (probe_shadow_intents probe resources).

Lemma not_in_flight probe resources all id res :
  id ∉ inFlight (known probe resources all) → res ∈ resources → hr_Kind res = KindCreateIntent → owner res = id →
  probeIntentLease (probe (hr_Path res).2) = leaseFree.
Proof.
  cbn. unfold probe_create_intents. rewrite elem_of_list_to_set, list_elem_of_fmap. intros H Hin Hk Ho.
  destruct (probeIntentLease _) eqn:E; [done|exfalso..]; apply H; exists res; (split; [done|]);
    apply list_elem_of_In, List.filter_In; (split; [by apply list_elem_of_In|]); unfold lease_keeps; rewrite E, bool_decide_true by done; done.
Qed.

Lemma not_in_flight_shadow probe resources all h res :
  h ∉ inFlightShadow (known probe resources all) → res ∈ resources → hr_Kind res = KindShadowIntent → hr_ShadowHandle res = h →
  probeIntentLease (probe (hr_Path res).2) = leaseFree.
Proof.
  cbn. unfold probe_shadow_intents. rewrite elem_of_list_to_set, list_elem_of_fmap. intros H Hin Hk Ho.
  destruct (probeIntentLease _) eqn:E; [done|exfalso..]; apply H; exists res; (split; [done|]);
    apply list_elem_of_In, List.filter_In; (split; [by apply list_elem_of_In|]); unfold lease_keeps; rewrite E, bool_decide_true by done; done.
Qed.

(** No record is kept under the identifier, or for the handle. *)
Definition unrecorded (fs : FS) (id : SandboxID) : Prop := wf_id id → lookup_sandbox fs id = None.

Definition handle_unrecorded (fs : FS) (h : string) : Prop :=
  (∀ id sb, wf_id id → lookup_sandbox fs id = Some sb → SafeHandle (Handle sb) ≠ h) ∧
  ∀ id, forkChildShadowOwner h = Some id → unrecorded fs id.

Lemma lookup_own_id fs id sb : store_wf fs → wf_id id → lookup_sandbox fs id = Some sb → ID sb = id.
Proof.
  intros Hwf Hid Hl. destruct (lookup_sandbox_dir _ _ _ Hl) as [d Hd]. unfold lookup_sandbox in Hl. rewrite Hd in Hl.
  destruct (Hwf _ _ _ Hd Hl) as [Hn Hw]. symmetry. by apply sandboxDir_inj.
Qed.

Lemma record_map_unrecorded io fs all id :
  healthy io → store_wf fs → List_ (E:=Empty_set) io fs = Ok all → record_map all !! id = None → unrecorded fs id.
Proof.
  intros Hh Hwf Hl Hm Hid. destruct (lookup_sandbox fs id) as [sb|] eqn:E; [|done]. exfalso.
  destruct (List_lookup_all (E:=Empty_set) io fs Hh Hwf) as (l & Hl' & Hin). rewrite Hl in Hl'. injection Hl' as <-.
  pose proof (record_map_spec all id) as Hs. rewrite Hm in Hs. assert (Hsb := lookup_own_id _ _ _ Hwf Hid E).
  apply (Hs sb); [|done]. apply Hin. by rewrite Hsb.
Qed.

Lemma shadow_map_unrecorded io fs all h :
  healthy io → store_wf fs → List_ (E:=Empty_set) io fs = Ok all → shadow_handle_map all !! h = None →
  (∀ id, forkChildShadowOwner h = Some id → record_map all !! id = None) → handle_unrecorded fs h.
Proof.
  intros Hh Hwf Hl Hm Hc. split; [|intros id Hid; by eapply record_map_unrecorded; eauto]. intros id sb Hid E.
  destruct (List_lookup_all (E:=Empty_set) io fs Hh Hwf) as (l & Hl' & Hin). rewrite Hl in Hl'. injection Hl' as <-.
  eapply shadow_handle_map_None; [done|]. apply Hin. by rewrite (lookup_own_id _ _ _ Hwf Hid E).
Qed.

(** What deleting a resource needs: no record, no intent of it that is locked or cannot be read, and, where
    the owner is known, no process and no socket. *)
Definition reclaimable (a : ReapAnswers) (fs : FS) (resources : list HostResource) (res : HostResource) : Prop :=
  if is_shadow res then
    hr_ShadowHandle res = ""%string ∨
    handle_unrecorded fs (hr_ShadowHandle res) ∧
    ∀ i, i ∈ resources → hr_Kind i = KindShadowIntent → hr_ShadowHandle i = hr_ShadowHandle res →
      probeIntentLease (ra_probe a (hr_Path i).2) = leaseFree
  else
    unrecorded fs (owner res) ∧
    (∀ i, i ∈ resources → hr_Kind i = KindCreateIntent → owner i = owner res →
      probeIntentLease (ra_probe a (hr_Path i).2) = leaseFree) ∧
    unnamed (hv_proc (ra_view a res)) (SandboxID_String (owner res)) ∧
    dead_socket (hv_sock (ra_view a res) (socketPathForID res)).

Lemma orphan_reclaimable a fs resources all res :
  healthy (ra_list a) → store_wf fs → List_ (E:=Empty_set) (ra_list a) fs = Ok all →
  classify (ra_view a res) (known (ra_probe a) resources all) res = ReapStatusOrphan → reclaimable a fs resources res.
Proof.
  intros Hh Hwf Hl H%classify_orphan. unfold reclaimable, dead in *. destruct (is_shadow res).
  - destruct H as [|(Hf & Hm & Hc)]; [by left|right]. split; [by eapply shadow_map_unrecorded; eauto|].
    intros i Hi Hk Heq. by eapply not_in_flight_shadow.
  - destruct H as [(Hr & Hf & Hu & Hs) _]. split; [by eapply record_map_unrecorded; eauto|]. split; [|done].
    intros i Hi Hk Heq. by eapply not_in_flight.
Qed.

(** A process may be killed: ours, marked as a network namespace, of a sandbox without a record and without a create
    in flight, on a socket no record names. *)
Definition killable (euid : Z) (k : Known) (p : Proc) (id : SandboxID) : Prop :=
  pr_owner p = Ok euid ∧ ∃ data, pr_environ p = FileData data ∧
    let env := readProcEnviron data in let sock := default ""%string (env !! netnsEnvAPISocket) in
    env !! netnsRunEnv = Some "1"%string ∧ sandboxIDFromSocketPath sock = Some id ∧
    sock ∉ claimedSockets k ∧ id ∉ inFlight k ∧ recordMap k !! id = None.

Lemma netns_entry_orphan k pid stat sock e :
  netns_entry k pid stat sock = Some e → ne_Status e = ReapStatusOrphan →
  ne_PID e = pid ∧ sock ∉ claimedSockets k ∧ ∃ id, sandboxIDFromSocketPath sock = Some id ∧ id ∉ inFlight k ∧ recordMap k !! id = None.
Proof.
  unfold netns_entry. case_bool_decide as Hc; [done|]. destruct (sandboxIDFromSocketPath sock) as [id|]; [|by intros [= <-]].
  case_bool_decide as Hf; [done|]. destruct (recordMap k !! id) eqn:E; intros [= <-]; [done|]. intros _. split; [done|]. split; [done|]. eauto.
Qed.

Lemma sweep_orphan euid procs k e :
  e ∈ sw_entries (sweepOrphanNetnsProcesses euid procs k) → ne_Status e = ReapStatusOrphan →
  ∃ l p id, procs = Some l ∧ p ∈ l ∧ ParseInt (pr_name p) = Ok (ne_PID e) ∧ killable euid k p id.
Proof.
  destruct procs as [l|]; cbn; [|by intros [->|?%elem_of_nil]%elem_of_cons].
  intros Hin Ho. enough (H : ∃ p id, p ∈ l ∧ ParseInt (pr_name p) = Ok (ne_PID e) ∧ killable euid k p id)
    by (destruct H as (p & id & ?); by exists l, p, id).
  induction l as [|p l IH]; cbn in Hin; [by apply elem_of_nil in Hin|].
  assert (Hrest : e ∈ sw_entries (foldr (sweep_proc euid k) no_sweep l) →
    ∃ q id, q ∈ p :: l ∧ ParseInt (pr_name q) = Ok (ne_PID e) ∧ killable euid k q id).
  { intros H. destruct (IH H) as (q & id & ? & ?). exists q, id. split; [by right|done]. }
  revert Hin. set (rest := foldr (sweep_proc euid k) no_sweep l) in *. unfold sweep_proc at 1.
  destruct (isNumeric _); cbn [negb]; [|done]. destruct (ParseInt (pr_name p)) as [pid|] eqn:Epid; [|done].
  destruct (pr_owner p) as [uid|[]] eqn:Eo; [|done..]. destruct (Z.eqb_spec uid euid) as [->|]; cbn [negb]; [|done].
  case_bool_decide; [done|]. destruct (pr_environ p) as [| |data] eqn:Ee; [done..|]. cbv zeta.
  destruct (String.eqb_spec (default ""%string (readProcEnviron data !! netnsRunEnv)) "1") as [Hrun|]; cbn [negb]; [|done].
  destruct (netns_entry _ _ _ _) as [e'|] eqn:En; [|done]. cbn. intros [<-|He]%elem_of_cons; [|by apply Hrest].
  destruct (netns_entry_orphan _ _ _ _ _ En Ho) as (Hpid & Hc & id & Hid & Hf & Hr). rewrite Hpid.
  exists p, id. split; [by left|]. split; [done|]. split; [done|]. exists data. split; [done|]. cbv zeta. split_and!; try done.
  destruct (readProcEnviron data !! netnsRunEnv); [|done]. by rewrite <- Hrun.
Qed.

(** A sandbox whose record can be read, or whose intent is locked, is safe from the sweep. *)
Definition kill_reclaimable (a : ReapAnswers) (fs : FS) (resources : list HostResource) (pid : Z) : Prop :=
  ∃ l p id, ra_procs a = Some l ∧ p ∈ l ∧ ParseInt (pr_name p) = Ok pid ∧ pr_owner p = Ok (ra_euid a) ∧ unrecorded fs id ∧
    (∃ data, pr_environ p = FileData data ∧ readProcEnviron data !! netnsRunEnv = Some "1"%string ∧
       sandboxIDFromSocketPath (default ""%string (readProcEnviron data !! netnsEnvAPISocket)) = Some id) ∧
    ∀ i, i ∈ resources → hr_Kind i = KindCreateIntent → owner i = id → probeIntentLease (ra_probe a (hr_Path i).2) = leaseFree.

(** C9: what a reap may destroy.  Without apply nothing changes.  With it, a file or directory that is gone
    afterwards was listed, no readable record owns it, no intent of its owner was locked or unreadable,
    and for all but shadow disks every process was read in full without naming the owner and
    its socket refused or was missing.  A path reported as deleted was listed under the same conditions and
    checked to be gone.  A process is killed only if it is ours, is marked as a namespace, and
    names a sandbox without a readable record and without a create in flight. *)
Lemma reap_only_orphans a opt apply fs r r' res :
  healthy (ra_list a) → store_wf fs → Reap a opt apply fs r = (r', res) →
  (apply = false → r' = r) ∧ (∀ path, present r' path → present r path) ∧
  ∀ resources, index_list (ra_unreadable a) r = Some resources →
    (∀ path, present r path → ¬ present r' path → ∃ hr, hr ∈ resources ∧ hr_Path hr = path ∧ reclaimable a fs resources hr) ∧
    ∀ rep, res = Ok rep →
      (∀ path, path ∈ rp_Deleted rep → ra_stat a path = false ∧ ∃ hr, hr ∈ resources ∧ hr_Path hr = path ∧ reclaimable a fs resources hr) ∧
      ∀ pid, pid ∈ rp_KilledPIDs rep → kill_reclaimable a fs resources pid.
Proof.
  intros Hh Hwf. unfold Reap. destruct (apply && _ && _); [intros [= <- <-]; naive_solver|].
  destruct (index_list (ra_unreadable a) r) as [resources|]; [|intros [= <- <-]; naive_solver].
  destruct (List_ (ra_list a) fs) as [all|] eqn:El; [|intros [= <- <-]; naive_solver].
  destruct (ra_dirs a); [intros [= <- <-]; naive_solver|]. cbv zeta.
  change (mkKnown _ _ _ _) with (known (ra_probe a) resources all). set (k := known (ra_probe a) resources all).
  destruct (reap_loop a apply k resources r) as [[[[r1 es] bytes] del] fl] eqn:Er.
  destruct (reap_loop_spec _ _ _ _ _ _ _ _ _ _ Er) as (Hdry & Hdel & Hgone & Hsub & _).
  assert (Hdel' : ∀ path, path ∈ del → ∃ hr, hr ∈ resources ∧ hr_Path hr = path ∧ reclaimable a fs resources hr).
  { intros path Hp. destruct (Hdel path Hp) as (hr & ? & ? & Ho). exists hr. split; [done|]. split; [done|]. by eapply orphan_reclaimable. }
  assert (Hg : ∀ path, present r path → ¬ present r1 path → ∃ hr, hr ∈ resources ∧ hr_Path hr = path ∧ reclaimable a fs resources hr) by eauto.
  destruct (negb (opt_realProc opt) && _ && _).
  { intros [= <- <-]. split_and!; [by intros [? _]%Hdry|done|]. intros ? [= <-]. by split. }
  set (sw := sweepOrphanNetnsProcesses _ _ k). set (kill := if opt_NetnsKillFn opt then _ else _).
  destruct (if apply then verifyDeletions (ra_stat a) del fl else (del, fl)) as [del' fl'] eqn:Ev.
  intros [= <- <-]. split_and!; [by intros [? _]%Hdry|done|]. intros ? [= <-]. split; [done|]. intros rep [= <-]. split; cbn [rp_Deleted rp_KilledPIDs].
  - intros path Hp. destruct apply; [|injection Ev as <- <-; destruct (Hdry eq_refl) as [_ ->]; by apply elem_of_nil in Hp].
    injection Ev as <- <-. apply list_elem_of_In, List.filter_In in Hp as [Hp%list_elem_of_In Hst]. split; [by destruct (ra_stat a path)|by apply Hdel'].
  - intros pid (e & -> & He)%list_elem_of_fmap. apply list_elem_of_In, List.filter_In in He as [He%list_elem_of_In _].
    destruct apply; [|by apply elem_of_nil in He]. unfold netns_orphans in He. apply list_elem_of_In, List.filter_In in He as [He%list_elem_of_In Ho%bool_decide_eq_true].
    destruct (sweep_orphan _ _ _ _ He Ho) as (l & p & id & Hl & Hp & Hpid & Hown & data & Hd & Hrun & Hid & _ & Hf & Hr).
    exists l, p, id. split_and!; try done; [by eapply record_map_unrecorded|by eauto|]. intros i Hi Hk Heq. by eapply not_in_flight.
Qed.

(** ** Records the reaper cannot read *)

(** A stopped sandbox whose record a newer version wrote: its directory is there, its disk is there, and no
    process runs for it. *)
Definition newer_store : FS :=
  {[ sandboxDir id_A := EntDir (mkSandboxDir true (Some (mkFile (DocVersion (currentSchemaVersion + 1) None) true))
                                  (Some (mkFile (DocVersion (currentSchemaVersion + 1) None) true)) None) ]}.

Definition only_disk (n : string) : StateRoot :=
  mkStateRoot (λ p, if bool_decide (p = Disks) then mkDir {[n]} ∅ else mkDir ∅ ∅).

Definition quiet_host : HostView := mkHostView (Some []) (λ _, mkSock StatENOENT (Ok tt)) StatOk (mkSock StatENOENT (Ok tt)).

Definition quiet_reap (procs : list Proc) : ReapAnswers :=
  mkReapAnswers (λ _, false) (λ _, OpenENOENT) io_none false (λ _, quiet_host) (λ _, false) (λ _, 512) 1000 (Some procs)
    (λ _, false) (λ _, false).

Definition production : ReapOptions := mkReapOptions true true false.

(** The disk is deleted: only the rule for supervisors' directories looks at the record's directory. *)
Lemma reap_deletes_disk_of_newer_record :
  (Reap (quiet_reap []) production true newer_store (only_disk (raw_name id_A))).2 =
    Ok (mkReapReport [(mkResource KindDiskRaw (Disks, raw_name id_A) (Some id_A) "", ReapStatusOrphan)] []
          512 [(Disks, raw_name id_A)] [] [] [] 0 0) ∧
  classifySupervisorState quiet_host (known (λ _, OpenENOENT) [] []) (mkResource KindSupervisorState (Supervisors, SandboxID_String id_A) (Some id_A) "")
    = ReapStatusLive.
Proof. by vm_compute. Qed.

(** The process that runs the machine of that sandbox. *)
Definition newer_vm : Proc :=
  mkProc "4242" (FileData "nexus") (Ok 1000) (FileData "4242 (nexus) S 1 4242 4242 0")
    (FileData (netnsRunEnv +:+ "=1" +:+ String (ascii_of_N 0) (netnsEnvAPISocket +:+ "=/run/n/" +:+ SandboxID_String id_A +:+ ".sock"))).

(** It is running, its record is there, and it is killed as an orphan. *)
Lemma reap_kills_vm_of_newer_record :
  rp_KilledPIDs <$> (match (Reap (quiet_reap [newer_vm]) production true newer_store (mkStateRoot (λ _, mkDir ∅ ∅))).2 with Ok r => Some r | Err _ => None end)
    = Some [4242].
Proof. by vm_compute. Qed.

Lemma reap_only_orphans_witness :
  ¬ present (Reap (quiet_reap []) production true ∅ (only_disk (raw_name id_A))).1 (Disks, raw_name id_A) ∧
  ∃ hr, hr_Path hr = (Disks, raw_name id_A) ∧ unrecorded ∅ (owner hr).
Proof.
  destruct (reap_only_orphans (quiet_reap []) production true ∅ (only_disk (raw_name id_A)) _ _ example_healthy
    ltac:(by intros n d sb) (surjective_pairing _)) as (_ & _ & H).
  assert (Hgone : ¬ present (Reap (quiet_reap []) production true ∅ (only_disk (raw_name id_A))).1 (Disks, raw_name id_A)).
  { assert (Hd : sr_dirs (Reap (quiet_reap []) production true ∅ (only_disk (raw_name id_A))).1 Disks = mkDir ∅ ∅) by (by vm_compute).
    intros [Hp|Hp]; cbn [fst snd] in Hp; rewrite Hd in Hp; by apply not_elem_of_empty in Hp. }
  split; [exact Hgone|].
  destruct (H [mkResource KindDiskRaw (Disks, raw_name id_A) (Some id_A) ""]) as [H1 _]; [by vm_compute|].
  destruct (H1 (Disks, raw_name id_A)) as (hr & Hin & Hp & Hr); [left; cbn; set_solver|exact Hgone|].
  exists hr. split; [exact Hp|]. apply list_elem_of_singleton in Hin as ->. apply Hr.
Defined.
