(* ===== verification/ReapRace.v ===== *)
(** * Reaping while sandboxes are being created

    The creators' protocol (create.go, fork_shadow_plan.go, shadow_intent.go) against the reaper's
    (reap.go, Reap), one step of one process at a time.  A key stands for what the reaper
    correlates by: a sandbox's identifier, or the handle in a shadow disk's name.  A creator publishes the locked intent
    of its key, writes files, and releases the intent only once a record covers the key; it may
    die at any point, and then the kernel drops the lock.  Any number of reapers run; the answers
    of /proc and of the sockets are arbitrary.  One [os.ReadDir] is one step. *)

From stdpp Require Import prelude countable gmap strings list sorting relations.
From Stdlib Require Import ZArith Ascii Lia.
From S2P Require Import Prelude GoStrings Domain Sandbox Store VolumeGuard Disks Reap.

(** ** Keys *)

Inductive Key := KId (id : SandboxID) | KHandle (safeHandle : string).

#[global] Instance Key_eq_dec : EqDecision Key.
Proof. solve_decision. Defined.

#[global] Program Instance Key_countable : Countable Key :=
  inj_countable' (λ k, match k with KId id => inl id | KHandle h => inr h end)
    (λ x, match x with inl id => KId id | inr h => KHandle h end) _.
Next Obligation. by intros []. Qed.

Definition key_of (res : HostResource) : Key :=
  if is_shadow res then KHandle (hr_ShadowHandle res) else KId (owner res).

Definition wf_key (k : Key) : Prop := match k with KId id => wf_id id | KHandle h => h ≠ ""%string end.

Definition intent_name (k : Key) : string :=
  match k with KId id => IntentName id | KHandle h => h +:+ shadowIntentSuffix end.

Definition intent_resource (k : Key) : HostResource :=
  match k with
  | KId id => mkResource KindCreateIntent (Disks, IntentName id) (Some id) ""
  | KHandle h => mkResource KindShadowIntent (Disks, h +:+ shadowIntentSuffix) None h
  end.

Definition is_intent (res : HostResource) : bool :=
  match hr_Kind res with KindCreateIntent | KindShadowIntent => true | _ => false end.

(** What the index makes of an entry of one of its directories. *)
Definition resource_at (path : place * string) : option HostResource :=
  match path.1 with
  | Disks => disk_resource path.2
  | Sockets => socket_resource path.2
  | BuilderSupervisors => dir_resource KindBuilderSupervisor BuilderSupervisors path.2
  | Supervisors => dir_resource KindSupervisorState Supervisors path.2
  end.

(** A readable record covers the key. *)
Definition recorded (fs : FS) (k : Key) : Prop :=
  match k with
  | KId id => wf_id id ∧ is_Some (lookup_sandbox fs id)
  | KHandle h =>
      (∃ id sb, wf_id id ∧ lookup_sandbox fs id = Some sb ∧ SafeHandle (Handle sb) = h) ∨
      ∃ id, forkChildShadowOwner h = Some id ∧ wf_id id ∧ is_Some (lookup_sandbox fs id)
  end.

(** ** Worlds *)

Inductive Reaper :=
| RProbe (resources todo : list HostResource) (fl : gset SandboxID) (fls : gset string)
| RClassify (k : Known) (todo : list HostResource).

(** [w_active]: keys whose creator runs; [w_locked]: keys whose intent is locked; [w_used]: keys that have
    been used. *)
Record World := mkWorld {
  w_fs : FS;
  w_root : StateRoot;
  w_locked : gset Key;
  w_active : gset Key;
  w_used : gset Key;
  w_reapers : gmap nat Reaper;
}.

Definition protected (w : World) (k : Key) : Prop := k ∈ w_active w ∨ recorded (w_fs w) k.

Definition add_path (path : place * string) (r : StateRoot) : StateRoot :=
  on_dir (λ d, mkDir ({[path.2]} ∪ d_files d) (d_dirs d)) path.1 r.

Definition add_dir (path : place * string) (r : StateRoot) : StateRoot :=
  on_dir (λ d, mkDir (d_files d) ({[path.2]} ∪ d_dirs d)) path.1 r.

(** ** Steps of creators and users *)

(** [reuse]: whether a key that has been used before may be used again.  [cs_commit] is any change of the store: records
    come and go, and without reuse a key that becomes recorded is one that is leased or was never used.  [cs_clean] is
    a failed create or a removal that deletes its files. *)
Inductive creator_step (reuse : bool) (w : World) : World → Prop :=
| cs_publish k :
    wf_key k → (k ∉ w_used w ∧ ¬ recorded (w_fs w) k ∨ reuse = true ∧ k ∉ w_active w) →
    creator_step reuse w
      (mkWorld (w_fs w) (add_path (Disks, intent_name k) (w_root w)) ({[k]} ∪ w_locked w) ({[k]} ∪ w_active w)
         ({[k]} ∪ w_used w) (w_reapers w))
| cs_write k path res (dir : bool) :
    protected w k → resource_at path = Some res → key_of res = k →
    creator_step reuse w
      (mkWorld (w_fs w) ((if dir then add_dir else add_path) path (w_root w)) (w_locked w) (w_active w)
         ({[k]} ∪ w_used w) (w_reapers w))
| cs_commit fs :
    store_wf fs → (∀ k, recorded fs k → recorded (w_fs w) k ∨ k ∈ w_active w ∨ k ∉ w_used w ∨ reuse = true) →
    creator_step reuse w (mkWorld fs (w_root w) (w_locked w) (w_active w) (w_used w) (w_reapers w))
| cs_release k :
    k ∈ w_active w → recorded (w_fs w) k →
    creator_step reuse w
      (mkWorld (w_fs w) (deleteResource (intent_resource k) (w_root w)) (w_locked w ∖ {[k]}) (w_active w ∖ {[k]})
         (w_used w) (w_reapers w))
| cs_die k :
    creator_step reuse w (mkWorld (w_fs w) (w_root w) (w_locked w) (w_active w ∖ {[k]}) (w_used w) (w_reapers w))
| cs_unlock k :
    k ∉ w_active w →
    creator_step reuse w (mkWorld (w_fs w) (w_root w) (w_locked w ∖ {[k]}) (w_active w) (w_used w) (w_reapers w))
| cs_clean res :
    resource_at (hr_Path res) = Some res → key_of res ∉ w_active w →
    creator_step reuse w
      (mkWorld (w_fs w) (deleteResource res (w_root w)) (w_locked w) (w_active w) (w_used w) (w_reapers w)).

(** ** Steps of reapers *)

Definition with_reaper (i : nat) (r : Reaper) (w : World) : World :=
  mkWorld (w_fs w) (w_root w) (w_locked w) (w_active w) (w_used w) (<[i := r]> (w_reapers w)).

(** A locked intent that is there is never found missing or free. *)
Definition probe_answer (w : World) (res : HostResource) (o : probe_open) : Prop :=
  key_of res ∈ w_locked w → present (w_root w) (hr_Path res) → lease_keeps o = true.

Inductive reaper_step (i : nat) (w : World) : World → Prop :=
| rs_start unreadable l :
    w_reapers w !! i = None → index_list unreadable (w_root w) = Some l →
    reaper_step i w
      (with_reaper i
         (RProbe l (List.filter (λ r, bool_decide (hr_Kind r = KindCreateIntent)) l ++
                    List.filter (λ r, bool_decide (hr_Kind r = KindShadowIntent)) l) ∅ ∅) w)
| rs_probe l res todo fl fls o :
    w_reapers w !! i = Some (RProbe l (res :: todo) fl fls) → probe_answer w res o →
    reaper_step i w
      (with_reaper i
         (RProbe l todo
            (if lease_keeps o && negb (is_shadow res) then {[owner res]} ∪ fl else fl)
            (if lease_keeps o && is_shadow res then {[hr_ShadowHandle res]} ∪ fls else fls)) w)
| rs_list l fl fls io all :
    w_reapers w !! i = Some (RProbe l [] fl fls) → healthy io → List_ (E:=Empty_set) io (w_fs w) = Ok all →
    reaper_step i w (with_reaper i (RClassify (mkKnown (record_map all) (shadow_handle_map all) fl fls) l) w)
| rs_keep k res todo :
    w_reapers w !! i = Some (RClassify k (res :: todo)) →
    reaper_step i w (with_reaper i (RClassify k todo) w)
| rs_delete k res todo h :
    w_reapers w !! i = Some (RClassify k (res :: todo)) → classify h k res = ReapStatusOrphan →
    reaper_step i w
      (with_reaper i (RClassify k todo)
         (mkWorld (w_fs w) (deleteResource res (w_root w)) (w_locked w) (w_active w) (w_used w) (w_reapers w)))
| rs_end k :
    w_reapers w !! i = Some (RClassify k []) →
    reaper_step i w
      (mkWorld (w_fs w) (w_root w) (w_locked w) (w_active w) (w_used w) (delete i (w_reapers w))).

Definition step (reuse : bool) (w w' : World) : Prop := creator_step reuse w w' ∨ ∃ i, reaper_step i w w'.

(** Before anything runs. *)
Definition init (w : World) : Prop :=
  store_wf (w_fs w) ∧ w_active w = ∅ ∧ w_reapers w = ∅ ∧
  ∀ path res, present (w_root w) path → resource_at path = Some res → key_of res ∈ w_used w.

Definition reachable (reuse : bool) (w : World) : Prop := ∃ w0, init w0 ∧ rtc (step reuse) w0 w.

(** ** The invariant *)

Lemma intent_resource_at k : wf_key k → resource_at (Disks, intent_name k) = Some (intent_resource k).
Proof.
  destruct k as [id|h]; cbn [wf_key intent_name intent_resource resource_at fst snd]; intros Hk.
  - by apply disk_resource_owned.
  - unfold disk_resource. repeat (rewrite HasSuffix_other by (by vm_compute)). by rewrite HasSuffix_app, TrimSuffix_app.
Qed.

Lemma key_of_intent k : key_of (intent_resource k) = k.
Proof. by destruct k. Qed.

Lemma resource_at_path path res : resource_at path = Some res → hr_Path res = path.
Proof.
  assert (Ho : ∀ k p n s, owned_resource k p n s = Some res → hr_Path res = (p, n))
    by (intros k p n s; unfold owned_resource; by destruct (ParseSandboxID _); intros [= <-]).
  assert (Hd : ∀ k p n, dir_resource k p n = Some res → hr_Path res = (p, n))
    by (intros k p n; unfold dir_resource; by destruct (ParseSandboxID _); intros [= <-]).
  destruct path as [[] n]; unfold resource_at, disk_resource, socket_resource; cbn [fst snd]; repeat case_match; eauto; try done; by intros [= <-].
Qed.

Lemma index_list_elem unreadable r l res :
  index_list unreadable r = Some l →
  res ∈ l ↔ ∃ path, resource_at path = Some res ∧
    match path.1 with Disks | Sockets => path.2 ∈ d_files (sr_dirs r path.1) | _ => path.2 ∈ d_dirs (sr_dirs r path.1) end.
Proof.
  unfold index_list. destruct (existsb _ _); [done|]. intros [= <-].
  rewrite !elem_of_app, !list_elem_of_omap. setoid_rewrite elem_of_read_names. split.
  - intros [(n & ? & ?)|[(n & ? & ?)|[(n & ? & ?)|(n & ? & ?)]]]; [by exists (Disks, n)|by exists (Sockets, n)|by exists (BuilderSupervisors, n)|by exists (Supervisors, n)].
  - intros ([[] n] & H1 & H2); cbn in *; eauto 6.
Qed.

(** What the reaper's knowledge keeps. *)
Definition covers (kn : Known) (k : Key) : Prop :=
  match k with
  | KId id => is_Some (recordMap kn !! id) ∨ id ∈ inFlight kn
  | KHandle h => h ∈ inFlightShadow kn ∨ is_Some (shadowHandleMap kn !! h) ∨
                 ∃ id, forkChildShadowOwner h = Some id ∧ is_Some (recordMap kn !! id)
  end.

Definition in_flight (fl : gset SandboxID) (fls : gset string) (k : Key) : Prop :=
  match k with KId id => id ∈ fl | KHandle h => h ∈ fls end.

Definition listed (w : World) (l : list HostResource) : Prop :=
  ∀ res, res ∈ l → resource_at (hr_Path res) = Some res ∧ key_of res ∈ w_used w.

Definition reaper_inv (w : World) (r : Reaper) : Prop :=
  match r with
  | RProbe l todo fl fls =>
      listed w l ∧ todo ⊆ l ∧ Forall (λ i, is_intent i = true) todo ∧
      ∀ res, res ∈ l → key_of res ∈ w_active w → in_flight fl fls (key_of res) ∨ intent_resource (key_of res) ∈ todo
  | RClassify kn todo => listed w todo ∧ ∀ res, res ∈ todo → protected w (key_of res) → covers kn (key_of res)
  end.

Record world_inv (w : World) : Prop := {
  wi_store : store_wf (w_fs w);
  wi_active : ∀ k, k ∈ w_active w →
    wf_key k ∧ k ∈ w_locked w ∧ k ∈ w_used w ∧ intent_name k ∈ d_files (sr_dirs (w_root w) Disks);
  wi_used : ∀ path res, present (w_root w) path → resource_at path = Some res → key_of res ∈ w_used w;
  wi_reapers : ∀ i r, w_reapers w !! i = Some r → reaper_inv w r;
}.

Lemma init_inv w : init w → world_inv w.
Proof. intros (Hs & Ha & Hr & Hu). split; [done| |done|]; [rewrite Ha; set_solver|intros i r; by rewrite Hr, lookup_empty]. Qed.

Lemma recorded_wf fs k : recorded fs k → wf_key k.
Proof.
  destruct k as [id|h]; cbn; [by intros [? _]|]. intros [(id & sb & _ & _ & <-)|(id & Hf & _)].
  - intros H. apply (f_equal chars) in H. unfold SafeHandle, Handle in H. rewrite chars_of_chars, !chars_app, !fmap_app in H.
    by destruct ((λ c, if Ascii.eqb c "/" then "_"%char else c) <$> chars (Project sb)).
  - by intros ->.
Qed.

Lemma protected_wf w k : world_inv w → protected w k → wf_key k.
Proof. intros Hi [Ha|Hr]; [by apply Hi|by eapply recorded_wf]. Qed.

(** An orphan is not covered. *)
Lemma orphan_uncovered h kn res : wf_key (key_of res) → classify h kn res = ReapStatusOrphan → ¬ covers kn (key_of res).
Proof.
  intros Hwf Ho%classify_orphan. unfold dead, key_of in *. destruct (is_shadow res); cbn in *.
  - destruct Ho as [?|(H1 & H2 & H3)]; [done|]. intros [?|[[x Hx]|(id & Hid & [x Hx])]]; [done|congruence|]. rewrite (H3 id Hid) in Hx. done.
  - destruct Ho as [(H1 & H2 & _) _]. intros [[x Hx]|?]; congruence.
Qed.

(** The listing of the records covers what is recorded. *)
Lemma list_covers io fs all fl fls k :
  healthy io → store_wf fs → List_ (E:=Empty_set) io fs = Ok all → recorded fs k →
  covers (mkKnown (record_map all) (shadow_handle_map all) fl fls) k.
Proof.
  intros Hh Hwf Hl Hr. destruct k as [id|h]; cbn in *.
  - destruct Hr as [Hid [sb Hsb]]. left. destruct (record_map all !! id) eqn:E; [done|].
    by rewrite (record_map_unrecorded _ _ _ _ Hh Hwf Hl E Hid) in Hsb.
  - right. destruct (shadow_handle_map all !! h) eqn:E; [by left; eauto|right].
    destruct (forkChildShadowOwner h) as [id|] eqn:Ec; [destruct (record_map all !! id) eqn:Er; [by eauto|]|].
    + exfalso. destruct (shadow_map_unrecorded _ _ _ _ Hh Hwf Hl E) as [H1 H2]; [intros x Hx; congruence|].
      destruct Hr as [(i & sb & Hi & Hlk & Hs)|(i & [= <-] & Hw & [sb Hsb])]; [by eapply H1|].
      by rewrite (H2 id Ec Hw) in Hsb.
    + exfalso. destruct (shadow_map_unrecorded _ _ _ _ Hh Hwf Hl E) as [H1 _]; [congruence|].
      destruct Hr as [(i & sb & Hi & Hlk & Hs)|(i & Hi & _)]; [by eapply H1|done].
Qed.

(** A reaper's invariant survives a change of the world that lists no used key anew. *)
Lemma reaper_inv_mono w w' r :
  w_used w ⊆ w_used w' → (∀ k, k ∈ w_active w' → k ∈ w_active w ∨ k ∉ w_used w) →
  (∀ k, protected w' k → protected w k ∨ k ∉ w_used w) → reaper_inv w r → reaper_inv w' r.
Proof.
  intros Hu Ha Hp. assert (Hl : ∀ l, listed w l → listed w' l) by (intros l H res Hres; destruct (H res Hres); split; [done|set_solver]).
  destruct r as [l todo fl fls|kn todo]; cbn.
  - intros (H1 & H2 & H3 & H4). split; [by apply Hl|]. split; [done|]. split; [done|]. intros res Hres [Hk|Hk]%Ha; [by apply H4|].
    by destruct (H1 res Hres).
  - intros (H1 & H2). split; [by apply Hl|]. intros res Hres [Hk|Hk]%Hp; [by apply H2|]. by destruct (H1 res Hres).
Qed.

Lemma present_add path p r : present (add_path p r) path → present r path ∨ path = p.
Proof.
  destruct path as [q n], p as [p m]. unfold present, add_path, on_dir. cbn. case_bool_decide as H; cbn; [|by left]. subst.
  rewrite elem_of_union, elem_of_singleton. intros [[->|?]|?]; eauto.
Qed.

Lemma present_add_dir path p r : present (add_dir p r) path → present r path ∨ path = p.
Proof.
  destruct path as [q n], p as [p m]. unfold present, add_dir, on_dir. cbn. case_bool_decide as H; cbn; [|by left]. subst.
  rewrite elem_of_union, elem_of_singleton. intros [?|[->|?]]; eauto.
Qed.

Lemma files_delete res r n :
  n ∈ d_files (sr_dirs r Disks) → hr_Path res ≠ (Disks, n) → n ∈ d_files (sr_dirs (deleteResource res r) Disks).
Proof.
  intros Hn Hp. unfold deleteResource, on_dir. destruct (hr_Path res) as [q m] eqn:E.
  destruct (hr_Kind res); cbn; case_bool_decide; cbn; try done; subst; set_solver.
Qed.

(** ** Every step keeps the invariant *)

Lemma creator_step_inv w w' : world_inv w → creator_step false w w' → world_inv w'.
Proof.
  intros Hi Hstep. pose proof Hi as [Hs Ha Hu Hr]. destruct Hstep as [k Hk Hf|k path res dir Hp Hres Hkey|fs Hwf Hrec|k Hk Hrec|k|k Hk|res Hres Hk].
  - destruct Hf as [[Hf Hnr]|[? _]]; [|done]. split; cbn [w_fs w_active w_locked w_used w_root w_reapers].
    + done.
    + intros x. rewrite elem_of_union, elem_of_singleton. intros [->|Hx].
      * split; [done|]. split; [set_solver|]. split; [set_solver|]. cbn. set_solver.
      * destruct (Ha x Hx) as (? & ? & ? & ?). split; [done|]. split; [set_solver|]. split; [set_solver|]. cbn. set_solver.
    + intros path res [Hp| ->]%present_add Hres; [set_solver|]. rewrite intent_resource_at in Hres by done. injection Hres as <-.
      rewrite key_of_intent. set_solver.
    + intros i r Hir. eapply reaper_inv_mono; [| | |by eapply Hr]; cbn; [set_solver|set_solver|].
      intros x [Hx|Hx]; [cbn in Hx|left; by right]. apply elem_of_union in Hx as [->%elem_of_singleton|Hx]; [by right|left; by left].
  - split; cbn [w_fs w_active w_locked w_used w_root w_reapers]; [done| | |].
    + intros x Hx. destruct (Ha x Hx) as (? & ? & ? & ?). split; [done|]. split; [done|]. split; [set_solver|].
      unfold add_dir, add_path, on_dir. destruct dir; cbn; case_bool_decide; cbn; set_solver.
    + intros p r Hp' Hr'. assert (Hpp : present (w_root w) p ∨ p = path) by (destruct dir; [by apply present_add_dir|by apply present_add]).
      destruct Hpp as [Hpp| ->]; [set_solver|]. rewrite Hres in Hr'. injection Hr' as <-. set_solver.
    + intros i r Hir. eapply reaper_inv_mono; [| | |by eapply Hr]; cbn; [set_solver|by left|by left].
  - split; cbn [w_fs w_active w_locked w_used w_root w_reapers]; try done.
    intros i r Hir. eapply reaper_inv_mono; [| | |by eapply Hr]; cbn; [done|by left|].
    intros x [Hx|Hx]; [left; by left|]. cbn in Hx. destruct (Hrec x Hx) as [?|[?|[?|?]]]; [left; by right|left; by left|by right|done].
  - split; cbn [w_fs w_active w_locked w_used w_root w_reapers]; try done.
    + intros x [Hx Hne]%elem_of_difference. destruct (Ha x Hx) as (Hw & ? & ? & ?). split; [done|]. split; [set_solver|]. split; [done|].
      apply files_delete; [done|]. intros Heq. apply not_elem_of_singleton in Hne. destruct (Ha k Hk) as (Hwk & _).
      assert (resource_at (hr_Path (intent_resource k)) = Some (intent_resource k)) as Hik by (destruct k; by apply (intent_resource_at _ Hwk)).
      rewrite Heq, intent_resource_at in Hik by done. apply Hne. rewrite <- (key_of_intent x), <- (key_of_intent k). by injection Hik as ->.
    + intros path res Hp%deleteResource_sub. by apply Hu.
    + intros i r Hir. eapply reaper_inv_mono; [| | |by eapply Hr]; cbn; [done|set_solver|]. intros x [Hx|Hx]; left; [left; set_solver|by right].
  - split; cbn [w_fs w_active w_locked w_used w_root w_reapers]; try done; [set_solver|].
    intros i r Hir. eapply reaper_inv_mono; [| | |by eapply Hr]; cbn; [done|set_solver|]. intros x [Hx|Hx]; left; [left; set_solver|by right].
  - split; cbn [w_fs w_active w_locked w_used w_root w_reapers]; try done.
    intros x Hx. destruct (Ha x Hx) as (? & ? & ? & ?). split_and!; try done. set_solver.
  - split; cbn [w_fs w_active w_locked w_used w_root w_reapers]; try done.
    + intros x Hx. destruct (Ha x Hx) as (Hw & ? & ? & ?). split_and!; try done. apply files_delete; [done|]. intros Heq.
      rewrite Heq, intent_resource_at in Hres by done. injection Hres as <-. by rewrite key_of_intent in Hk.
    + intros path r Hp%deleteResource_sub. by apply Hu.
Qed.

Lemma reaper_step_inv i w w' : world_inv w → reaper_step i w w' → world_inv w'.
Proof.
  intros Hi Hstep. pose proof Hi as [Hs Ha Hu Hr].
  assert (Hsame : ∀ r root', (∀ k, k ∈ w_active w → intent_name k ∈ d_files (sr_dirs root' Disks)) →
     (∀ path, present root' path → present (w_root w) path) → reaper_inv w r →
     world_inv (with_reaper i r (mkWorld (w_fs w) root' (w_locked w) (w_active w) (w_used w) (w_reapers w)))).
  { intros r root' Hf Hp Hri. split; cbn; [done| | |].
    - intros k Hk. destruct (Ha k Hk) as (? & ? & ? & _). auto.
    - intros path res ?%Hp. by apply Hu.
    - intros j x. destruct (decide (j = i)) as [->|Hne]; [rewrite lookup_insert_eq; by intros [= <-]|].
      rewrite lookup_insert_ne by done. apply Hr. }
  assert (Hroot : ∀ r, reaper_inv w r → world_inv (with_reaper i r w)).
  { intros r Hri. destruct w. apply (Hsame r w_root0); cbn in *; [|done|done]. intros k Hk. by apply Ha. }
  destruct Hstep as [unr l Hn Hl|l res todo fl fls o Hw Ho|l fl fls io all Hw Hh Hl|kn res todo Hw|kn res todo h Hw Hc|kn Hw].
  - apply Hroot. cbn. assert (Hin := λ res, index_list_elem _ _ _ res Hl). assert (Hpres : listed w l).
    { intros res (path & Hp & Hpr)%Hin. rewrite (resource_at_path _ _ Hp). split; [done|]. apply (Hu path); [|done].
      unfold present. destruct path as [[] n]; cbn in *; eauto. }
    split; [done|]. split.
    { intros x. rewrite elem_of_app, !list_elem_of_In, !List.filter_In, <- !list_elem_of_In. by intros [[? _]|[? _]]. }
    split. { apply Forall_forall. intros x. rewrite elem_of_app, !list_elem_of_In, !List.filter_In, !bool_decide_eq_true.
      unfold is_intent. by intros [[_ ->]|[_ ->]]. }
    intros res _ Hk. right. destruct (Ha _ Hk) as (Hwk & _ & _ & Hf).
    assert (Hil : intent_resource (key_of res) ∈ l) by (apply Hin; exists (Disks, intent_name (key_of res)); split; [by apply intent_resource_at|done]).
    rewrite elem_of_app, !list_elem_of_In, !List.filter_In, <- !list_elem_of_In. destruct (key_of res); [left|right]; done.
  - apply Hroot. destruct (Hr _ _ Hw) as (H1 & H2 & H3 & H4). apply Forall_cons in H3 as [Hint H3]. cbn.
    split; [done|]. split; [set_solver|]. split; [done|]. intros r Hrl Hk. destruct (H4 r Hrl Hk) as [Hf|Hin].
    { left. destruct (key_of r); cbn in *; case_match; set_solver. }
    apply elem_of_cons in Hin as [Heq|]; [|by right]. left. destruct (Ha _ Hk) as (Hwk & Hlk & _ & Hfile). rewrite <- Heq in Ho.
    assert (Hkeep : lease_keeps o = true).
    { apply Ho; rewrite Heq || idtac; [by rewrite <- Heq, key_of_intent|]. rewrite <- Heq. left. by destruct (key_of r). }
    rewrite Hkeep, <- Heq. cbn [andb]. destruct (key_of r); cbn; set_solver.
  - apply Hroot. destruct (Hr _ _ Hw) as (H1 & _ & _ & H4). split; [done|]. intros r Hrl [Hk|Hk].
    + destruct (H4 r Hrl Hk) as [Hf|Hf]; [|by apply elem_of_nil in Hf]. destruct (key_of r); cbn in *; eauto.
    + by eapply list_covers.
  - apply Hroot. destruct (Hr _ _ Hw) as (H1 & H2). split; [intros x Hx; apply H1; by right|intros x Hx; apply H2; by right].
  - destruct (Hr _ _ Hw) as (H1 & H2). destruct (H1 res ltac:(by left)) as [Hres _]. apply Hsame.
    + intros k Hk. destruct (Ha k Hk) as (Hwk & _ & _ & Hf). apply files_delete; [done|]. intros Heq.
      rewrite Heq, intent_resource_at in Hres by done. injection Hres as <-.
      assert (Hp : protected w (key_of (intent_resource k))) by (left; by rewrite key_of_intent).
      eapply orphan_uncovered; [|exact Hc|apply H2; [by left|done]]. by rewrite key_of_intent.
    + intros path. apply deleteResource_sub.
    + split; [intros x Hx; apply H1; by right|intros x Hx; apply H2; by right].
  - split; cbn; try done. intros j r. rewrite lookup_delete_Some. intros [_ ?]. by eapply Hr.
Qed.

Lemma reachable_inv w : reachable false w → world_inv w.
Proof.
  intros (w0 & H0 & Hrun). apply init_inv in H0. induction Hrun as [|w0 w1 w2 Hstep _ IH]; [done|]. apply IH.
  destruct Hstep as [H|[i H]]; [by eapply creator_step_inv|by eapply reaper_step_inv].
Qed.

(** C4: no interleaving of creators and reapers loses a disk.  If no key is used twice, then whatever the order of the
    steps, whatever /proc and the sockets answer, and however many reapers run, a file or directory that a reaper's
    step removes belongs to a key that no running creator holds and no readable record covers. *)
Lemma reap_race_safe i w w' path :
  reachable false w → reaper_step i w w' → present (w_root w) path → ¬ present (w_root w') path →
  ∃ res, resource_at path = Some res ∧ ¬ protected w (key_of res).
Proof.
  intros Hw%reachable_inv Hstep Hp Hnp. destruct Hstep as [| | | |kn res todo h Hr Hc|]; try done. cbn in Hnp.
  destruct (wi_reapers _ Hw _ _ Hr) as [H1 H2]. destruct (H1 res ltac:(by left)) as [Hres _].
  assert (path = hr_Path res) as -> by (destruct (decide (path = hr_Path res)); [done|]; by rewrite deleteResource_other in Hnp).
  exists res. split; [done|]. intros Hprot. assert (Hwf := protected_wf _ _ Hw Hprot).
  eapply orphan_uncovered; [done|exact Hc|]. apply H2; [by left|done].
Qed.

(** ** A reap is a run of these steps *)

Definition at_root (r : StateRoot) (w : World) : World :=
  mkWorld (w_fs w) r (w_locked w) (w_active w) (w_used w) (w_reapers w).

Definition kept (probe : string → probe_open) (shadow : bool) (l : list HostResource) : list HostResource :=
  List.filter (λ r, lease_keeps (probe (hr_Path r).2) && Bool.eqb (is_shadow r) shadow) l.

Lemma probe_run i probe l todo fl fls w :
  (∀ res, res ∈ todo → probe_answer w res (probe (hr_Path res).2)) →
  rtc (reaper_step i) (with_reaper i (RProbe l todo fl fls) w)
    (with_reaper i (RProbe l [] (list_to_set (owner <$> kept probe false todo) ∪ fl)
                      (list_to_set (hr_ShadowHandle <$> kept probe true todo) ∪ fls)) w).
Proof.
  revert fl fls. induction todo as [|res todo IH]; intros fl fls Hp.
  { cbn. rewrite !(left_id_L ∅ (∪)). apply rtc_refl. }
  eapply rtc_l; [eapply (rs_probe _ _ l res todo fl fls (probe (hr_Path res).2)); [cbn; apply lookup_insert_eq|apply Hp; by left]|].
  unfold with_reaper at 1. cbn [w_fs w_root w_locked w_active w_used w_reapers with_reaper]. rewrite insert_insert_eq.
  etrans; [apply IH; intros r Hr; apply Hp; by right|]. apply reflexive_eq. f_equal. f_equal.
  - unfold kept. cbn [List.filter]. destruct (lease_keeps (probe (hr_Path res).2)), (is_shadow res); cbn [andb negb Bool.eqb]; [done| |done..].
    rewrite fmap_cons. cbn [list_to_set]. set_solver.
  - unfold kept. cbn [List.filter]. destruct (lease_keeps (probe (hr_Path res).2)), (is_shadow res); cbn [andb negb Bool.eqb]; [|done..].
    rewrite fmap_cons. cbn [list_to_set]. set_solver.
Qed.

Lemma classify_run i a kn l r r' es bytes del fl w :
  reap_loop a true kn l r = (r', es, bytes, del, fl) →
  rtc (reaper_step i) (with_reaper i (RClassify kn l) (at_root r w)) (with_reaper i (RClassify kn []) (at_root r' w)).
Proof.
  revert r r' es bytes del fl. induction l as [|res l IH]; intros r r' es bytes del fl; [intros [= <- <- <- <- <-]; apply rtc_refl|].
  cbn [reap_loop]. destruct (reap_loop _ _ _ l _) as [[[[r1 es1] b1] del1] fl1] eqn:El. intros [= <- _ _ _ _].
  apply IH in El. refine (rtc_l _ _ _ _ _ El). clear El IH.
  assert (Hkeep : reaper_step i (with_reaper i (RClassify kn (res :: l)) (at_root r w)) (with_reaper i (RClassify kn l) (at_root r w))).
  { pose proof (rs_keep i (with_reaper i (RClassify kn (res :: l)) (at_root r w)) kn res l (lookup_insert_eq _ _ _)) as H.
    unfold with_reaper in H at 2 3. cbn [w_fs w_root w_locked w_active w_used w_reapers with_reaper] in H. by rewrite insert_insert_eq in H. }
  destruct (bool_decide_reflect (classify (ra_view a res) kn res = ReapStatusOrphan)) as [Eo|_]; cbn [andb]; [|done].
  destruct (ra_delete a res); cbn [negb]; [done|].
  pose proof (rs_delete i (with_reaper i (RClassify kn (res :: l)) (at_root r w)) kn res l (ra_view a res) (lookup_insert_eq _ _ _) Eo) as H.
  unfold with_reaper in H at 2. cbn [w_fs w_root w_locked w_active w_used w_reapers with_reaper at_root] in H. by rewrite insert_insert_eq in H.
Qed.

Lemma kept_create probe l :
  list_to_set (owner <$> kept probe false (List.filter (λ r, bool_decide (hr_Kind r = KindCreateIntent)) l ++
    List.filter (λ r, bool_decide (hr_Kind r = KindShadowIntent)) l)) =@{gset SandboxID} probe_create_intents probe l.
Proof.
  apply set_eq. intros x. unfold probe_create_intents, kept. rewrite !elem_of_list_to_set, !list_elem_of_fmap.
  setoid_rewrite list_elem_of_In. setoid_rewrite List.filter_In. setoid_rewrite List.in_app_iff. setoid_rewrite List.filter_In.
  setoid_rewrite andb_true_iff. setoid_rewrite bool_decide_eq_true. split.
  - intros (r & -> & [[? Hk]|[? Hk]] & Hl & He); exists r; [by rewrite Hk|]. unfold is_shadow in He. by rewrite Hk in He.
  - intros (r & -> & ? & Hk & Hl). exists r. split; [done|]. split; [by left|]. split; [done|]. unfold is_shadow. by rewrite Hk.
Qed.

Lemma kept_shadow probe l :
  list_to_set (hr_ShadowHandle <$> kept probe true (List.filter (λ r, bool_decide (hr_Kind r = KindCreateIntent)) l ++
    List.filter (λ r, bool_decide (hr_Kind r = KindShadowIntent)) l)) =@{gset string} probe_shadow_intents probe l.
Proof.
  apply set_eq. intros x. unfold probe_shadow_intents, kept. rewrite !elem_of_list_to_set, !list_elem_of_fmap.
  setoid_rewrite list_elem_of_In. setoid_rewrite List.filter_In. setoid_rewrite List.in_app_iff. setoid_rewrite List.filter_In.
  setoid_rewrite andb_true_iff. setoid_rewrite bool_decide_eq_true. split.
  - intros (r & -> & [[? Hk]|[? Hk]] & Hl & He); exists r; [|by rewrite Hk]. unfold is_shadow in He. by rewrite Hk in He.
  - intros (r & -> & ? & Hk & Hl). exists r. split; [done|]. split; [by right|]. split; [done|]. unfold is_shadow. by rewrite Hk.
Qed.

(** C33: the reap of the command line is a run of the reaper in the interleaved model.  If [Reap] runs
    with apply, with a store it can list and probes that see the world's locks, and reaches its end, then
    the reaper's steps lead from the world it started in to one that differs in the deleted
    files only, exactly those [Reap] deleted. *)
Lemma Reap_refines_steps i a opt w r' rep :
  w_reapers w !! i = None → healthy (ra_list a) → (∀ res, probe_answer w res (ra_probe a (hr_Path res).2)) →
  Reap a opt true (w_fs w) (w_root w) = (r', Ok rep) →
  rtc (reaper_step i) w (at_root r' w).
Proof.
  intros Hi Hh Hpr. unfold Reap. destruct (true && _ && _); [done|].
  destruct (index_list (ra_unreadable a) (w_root w)) as [l|] eqn:El; [|done].
  destruct (List_ (ra_list a) (w_fs w)) as [all|] eqn:Ea; [|done]. destruct (ra_dirs a); [done|]. cbv zeta.
  set (kn := mkKnown _ _ _ _). destruct (reap_loop a true kn l (w_root w)) as [[[[r1 es] bytes] del] fl] eqn:Er.
  destruct (negb (opt_realProc opt) && _ && _); [done|]. destruct (verifyDeletions _ _ _) as [d f]. intros [= <- _].
  eapply rtc_l; [by eapply rs_start|]. etrans; [apply (probe_run i (ra_probe a)); intros; apply Hpr|].
  rewrite kept_create, kept_shadow, !(right_id_L ∅ (∪)).
  pose proof (rs_list i (with_reaper i (RProbe l [] (probe_create_intents (ra_probe a) l) (probe_shadow_intents (ra_probe a) l)) w)
    l _ _ _ all (lookup_insert_eq _ _ _) Hh Ea) as Hlist.
  unfold with_reaper in Hlist at 2 3. cbn [w_fs w_root w_locked w_active w_used w_reapers with_reaper] in Hlist. rewrite insert_insert_eq in Hlist.
  eapply rtc_l; [exact Hlist|].
  replace (mkWorld _ _ _ _ _ _) with (with_reaper i (RClassify kn l) (at_root (w_root w) w)) by done.
  etrans; [by eapply classify_run|]. eapply rtc_l; [eapply (rs_end _ _ kn), lookup_insert_eq|].
  apply reflexive_eq. unfold at_root, with_reaper. cbn. f_equal. by rewrite delete_insert_id.
Qed.

(** ** Handles come back *)

(** What a create of p/a left when it died: an intent that is not locked, and a shadow disk. *)
Definition stale_intent : HostResource := intent_resource (KHandle "p_a").
Definition stale_disk : HostResource := mkResource KindDiskShadow (Disks, "p_a.shadow.deps.ext4"%string) None "p_a".
Definition stale_root : StateRoot :=
  mkStateRoot (λ p, if bool_decide (p = Disks) then mkDir {["p_a.shadow-intent.json"%string; "p_a.shadow.deps.ext4"%string]} ∅ else mkDir ∅ ∅).
Definition stale_world : World := mkWorld ∅ stale_root ∅ ∅ {[KHandle "p_a"]} ∅.

Definition nothing_known : Known := mkKnown ∅ ∅ ∅ ∅.

(** A reaper has listed these files, probed the intent and listed the records; then the create of p/a is tried
    again and publishes its intent. *)
Definition retried_world : World :=
  mkWorld ∅ (add_path (Disks, intent_name (KHandle "p_a")) stale_root) {[KHandle "p_a"]} {[KHandle "p_a"]} {[KHandle "p_a"]}
    {[ 0%nat := RClassify nothing_known [stale_disk] ]}.

Lemma stale_present path : present stale_root path → path = (Disks, "p_a.shadow-intent.json"%string) ∨ path = (Disks, "p_a.shadow.deps.ext4"%string).
Proof.
  destruct path as [[] n]; unfold present, stale_root; cbn; rewrite ?bool_decide_false by done; cbn; set_solver.
Qed.

Lemma stale_init : init stale_world.
Proof.
  split_and!; [by intros n d sb|done|done|]. intros path res [->| ->]%stale_present Hr; vm_compute in Hr; injection Hr as <-; vm_compute; set_solver.
Qed.

Lemma retried_reachable : reachable true retried_world.
Proof.
  exists stale_world. split; [apply stale_init|].
  set (L := [stale_intent; stale_disk]).
  eapply rtc_l; [right; exists 0%nat; apply (rs_start 0 stale_world (λ _, false) L); [done|by vm_compute]|].
  change (List.filter _ L ++ List.filter _ L) with [stale_intent].
  eapply rtc_l; [right; exists 0%nat; eapply (rs_probe 0 _ L stale_intent [] ∅ ∅ (OpenOk None)); [apply lookup_insert_eq|done]|].
  eapply rtc_l; [right; exists 0%nat; eapply (rs_list 0 _ L _ _ io_none []); [apply lookup_insert_eq|apply example_healthy|by vm_compute]|].
  eapply rtc_l; [right; exists 0%nat; eapply (rs_keep 0 _ _ stale_intent [stale_disk]); apply lookup_insert_eq|].
  eapply rtc_l; [left; apply (cs_publish true _ (KHandle "p_a")); [done|right; split; [done|cbn; set_solver]]|].
  apply reflexive_eq. unfold retried_world, with_reaper. cbn [w_fs w_root w_locked w_active w_used w_reapers stale_world]. f_equal.
Qed.

(** The probe ran before the new creator published, so its disk is deleted although its intent is locked. *)
Lemma reap_races_handle_reuse :
  reachable true retried_world ∧ KHandle "p_a" ∈ w_active retried_world ∧ KHandle "p_a" ∈ w_locked retried_world ∧
  present (w_root retried_world) (hr_Path stale_disk) ∧
  ∃ w', reaper_step 0 retried_world w' ∧ ¬ present (w_root w') (hr_Path stale_disk).
Proof.
  split; [apply retried_reachable|]. split; [cbn; set_solver|]. split; [cbn; set_solver|]. split; [left; cbn; set_solver|].
  eexists. split; [eapply (rs_delete 0 _ _ _ _ quiet_host); [by apply lookup_singleton_eq|by vm_compute]|].
  intros [H|H]; cbn in H; set_solver.
Qed.

(** A disk that a dead create left is reclaimed. *)
Definition left_disk : HostResource := mkResource KindDiskRaw (Disks, raw_name id_A) (Some id_A) "".
Definition left_world : World := mkWorld ∅ (only_disk (raw_name id_A)) ∅ ∅ {[KId id_A]} ∅.

Lemma left_present path : present (only_disk (raw_name id_A)) path → path = (Disks, raw_name id_A).
Proof.
  generalize (raw_name id_A). intros m. destruct path as [[] n]; unfold present, only_disk; cbn; rewrite ?bool_decide_false by done; cbn; set_solver.
Qed.

Lemma left_init : init left_world.
Proof.
  split_and!; [by intros n d sb|done|done|]. intros path res ->%left_present Hr. vm_compute in Hr. injection Hr as <-. by vm_compute.
Qed.

Lemma reap_race_safe_witness :
  ∃ res, resource_at (Disks, raw_name id_A) = Some res ∧
    ¬ protected (with_reaper 0 (RClassify nothing_known [left_disk]) left_world) (key_of res).
Proof.
  apply (reap_race_safe 0 (with_reaper 0 (RClassify nothing_known [left_disk]) left_world)
    (with_reaper 0 (RClassify nothing_known []) (at_root (deleteResource left_disk (only_disk (raw_name id_A))) left_world))).
  - exists left_world. split; [apply left_init|].
    eapply rtc_l; [right; exists 0%nat; apply (rs_start 0 left_world (λ _, false) [left_disk]); [done|by vm_compute]|].
    eapply rtc_l; [right; exists 0%nat; eapply (rs_list 0 _ [left_disk] ∅ ∅ io_none []); [apply lookup_insert_eq|apply example_healthy|by vm_compute]|].
    apply reflexive_eq. unfold with_reaper. cbn [w_fs w_root w_locked w_active w_used w_reapers left_world]. by rewrite insert_insert_eq.
  - exact (rs_delete 0 (with_reaper 0 (RClassify nothing_known [left_disk]) left_world) nothing_known left_disk [] quiet_host
      ltac:(apply lookup_insert_eq) ltac:(by vm_compute)).
  - left. cbn. set_solver.
  - intros [H|H]; cbn in H; set_solver.
Defined.

Lemma Reap_refines_steps_witness :
  rtc (reaper_step 0) left_world (at_root (Reap (quiet_reap []) production true ∅ (only_disk (raw_name id_A))).1 left_world).
Proof.
  assert (Hok : is_ok (Reap (quiet_reap []) production true ∅ (only_disk (raw_name id_A))).2 = true) by (vm_compute; reflexivity).
  destruct (Reap (quiet_reap []) production true ∅ (only_disk (raw_name id_A))) as [r' [rep|e]] eqn:E; [|discriminate Hok].
  apply (Reap_refines_steps 0 (quiet_reap []) production left_world r' rep); [reflexivity|apply example_healthy| |exact E].
  intros res Hk. destruct (not_elem_of_empty (C:=gset Key) _ Hk).
Defined.
