(* ===== verification/CreateBoot.v ===== *)
(** * internal/core/service/create.go: creating and booting a sandbox

    [CreateAndBoot] leases the sandbox's disks, writes them, attaches its volumes, commits the record,
    boots the machine and seeds it; whatever fails, its deferred functions undo what was done.  The steps
    are actions of a small state and error monad over [Creating]: the service, the variables
    the deferred functions read, and the trace of what was done.

    The image's resolution to a file, the copy tool, the workspace capture, the driver, the probe and the
    seeders are arguments ([CreateAnswers]).  [sv_volumes] stands for [opts.Volumes]. *)

From stdpp Require Import prelude countable gmap strings list sorting.
From Stdlib Require Import ZArith Ascii Lia.
From S2P Require Import Prelude GoStrings GoPath Domain Lifecycle Sandbox Store Broker Volumes VolumeGuard Disks Perimeter Service Fork.

(** ** Options *)

Record NamedVolumeMount := mkNamedVolumeMount {
  nm_Name : string;
  nm_GuestPath : string;
  nm_Kind : string;
  nm_SizeBytes : Z;
  nm_ReadOnly : bool;
}.

(** The options the modelled steps read.  [o_Workspace] is the source and the guest path; an unset identifier is
    [None]. *)
Record CreateAndBootOptions := mkCreateAndBootOptions {
  o_RootfsPath : string;
  o_Workspace : option (string * string);
  o_LiveMounts : list LiveMount;
  o_NamedVolumeMounts : list NamedVolumeMount;
  o_NoScratchDisk : bool;
  o_ForceDiskSpace : bool;
  o_PreMintedID : option SandboxID;
  o_Labels : gmap string string;
  o_AllowedHosts : list string;
  o_SSHPublicKey : string;
  o_Secrets : list SecretBind;
  o_ExtraSecretHosts : list string;
  o_ExtraSecretHostSuffixes : list string;
  o_OpenEgress : bool;
  o_AllowedRepo : string;
  o_AllowedBranches : list string;
  o_PathPolicies : gmap string (gmap string EgressHostPolicy);
  o_RemoveOnExit : bool;
  o_BaseRef : string;
  o_UseAgentSeed : bool;
  o_AgentProfile : string;
  o_ExtraAgentProfiles : list string;
}.

(** The first live mount at /workspace. *)
Definition WorkspaceMountHostPath (mounts : list LiveMount) : option string :=
  lm_HostPath <$> List.find (λ m, String.eqb (lm_GuestPath m) "/workspace" || HasPrefix (lm_GuestPath m) "/workspace/") mounts.

Definition hostWorkspacePath (o : CreateAndBootOptions) : option string :=
  match o_Workspace o with
  | Some (src, _) => if negb (String.eqb src "") then Some src else WorkspaceMountHostPath (o_LiveMounts o)
  | None => WorkspaceMountHostPath (o_LiveMounts o)
  end.

(** [git path] is the output of the symbolic-ref command, [None] if it failed. *)
Definition hostWorktreeBranch (git : string → option string) (repoPath : string) : option string :=
  match git repoPath with
  | None => None
  | Some out => let branch := TrimSpace out in if String.eqb branch "" then None else Some branch
  end.

Definition resolveAllowedBranches (git : string → option string) (o : CreateAndBootOptions) : list string :=
  match o_AllowedBranches o with
  | [] =>
      match hostWorkspacePath o with
      | None => []
      | Some hostPath =>
          match hostWorktreeBranch git hostPath with
          | None => [UnresolvedBranchSentinel]
          | Some branch => ["refs/heads/" +:+ branch]
          end
      end
  | l => l
  end.

(** In order, each once, lower case and trimmed. *)
Definition secretHostsFromBinds (binds : list SecretBind) : list string :=
  fold_left (λ out h, let h := ToLower (TrimSpace h) in
    if String.eqb h "" || bool_decide (h ∈ out) then out else out ++ [h]) (concat (sb_Hosts <$> binds)) [].

Fixpoint join_comma (l : list string) : string :=
  match l with
  | [] => ""
  | [h] => h
  | h :: l => h +:+ "," +:+ join_comma l
  end.

Definition secretSpecsFromBinds (binds : list SecretBind) : list string :=
  omap (λ b, if String.eqb (sb_Env b) "" || bool_decide (sb_Hosts b = []) then None
             else Some (sb_Env b +:+ "@" +:+ join_comma (sb_Hosts b))) binds.

Definition namedVolumeAttachments (mounts : list NamedVolumeMount) : list VolumeAttachment :=
  (λ m, mkVolumeAttachment (nm_Name m) (nm_GuestPath m) (nm_Kind m) (nm_ReadOnly m)) <$> mounts.

Definition ClaudeCodeProfile_Name : string := "claude-code".

Definition agent_name (o : CreateAndBootOptions) : string :=
  if o_UseAgentSeed o && String.eqb (o_AgentProfile o) "" then ClaudeCodeProfile_Name else o_AgentProfile o.

(** The record as it is first written. *)
Definition created_sandbox (git : string → option string) (digest : string) (id : SandboxID) (project name : string)
    (o : CreateAndBootOptions) : Sandbox :=
  mkSandbox id name project (o_Labels o) Created
    (mkEnvelope digest (o_AllowedHosts o) (o_SSHPublicKey o) (secretHostsFromBinds (o_Secrets o) ++ o_ExtraSecretHosts o)
       (o_ExtraSecretHostSuffixes o) (secretSpecsFromBinds (o_Secrets o)) (o_OpenEgress o) (o_AllowedRepo o)
       (resolveAllowedBranches git o) (o_PathPolicies o))
    "" (o_RemoveOnExit o) false StopReasonNone None 0 "" 0 0 "" "" 0 "" "" "" 0 (o_BaseRef o)
    (namedVolumeAttachments (o_NamedVolumeMounts o)) (o_LiveMounts o) (agent_name o) (o_ExtraAgentProfiles o).

(** ** State, trace and errors *)

Inductive create_event :=
| CeLease (intent : string)
| CeFile (name : string)
| CeRecord
| CeBoot
| CeStop
| CeRelease (intent : string).

#[global] Instance create_event_eq_dec : EqDecision create_event.
Proof. solve_decision. Defined.

Record Creating := mkCreating {
  cr_svc : Service;
  cr_lease : bool;
  cr_scratch : bool;
  cr_volumeLeases : list positive;
  cr_attached : list string;
  cr_trace : list create_event;
}.

Inductive create_error :=
| CrImage (e : string)
| CrExists
| CrStore (e : store_error cb_error)
| CrDiskDir
| CrNoSpace
| CrIntent
| CrGuard (e : guard_error)
| CrVolume (e : vol_error)
| CrCopy
| CrCapture
| CrScratch
| CrDriver
| CrMixedGitHub
| CrUnboundGitHub
| CrBoot (e : store_error cb_error)
| CrUnreachable
| CrSeed
| CrSSH
| CrGit.

(** Actions: the state is kept on errors too. *)
Definition Act (A : Type) : Type := Creating → Creating * result create_error A.

#[global] Instance act_ret : MRet Act := λ A x c, (c, Ok x).
#[global] Instance act_bind : MBind Act := λ A B k m c,
  match m c with (c, Ok x) => k x c | (c, Err e) => (c, Err e) end.

Definition afail {A} (e : create_error) : Act A := λ c, (c, Err e).
Definition awhen (b : bool) (m : Act unit) : Act unit := if b then m else mret tt.
Definition modify (f : Creating → Creating) : Act unit := λ c, (f c, Ok tt).

Definition on_create_svc (f : Service → Service) (c : Creating) : Creating :=
  mkCreating (f (cr_svc c)) (cr_lease c) (cr_scratch c) (cr_volumeLeases c) (cr_attached c) (cr_trace c).
Definition emit (e : create_event) (c : Creating) : Creating :=
  mkCreating (cr_svc c) (cr_lease c) (cr_scratch c) (cr_volumeLeases c) (cr_attached c) (cr_trace c ++ [e]).
Definition set_lease_held (b : bool) (c : Creating) : Creating :=
  mkCreating (cr_svc c) b (cr_scratch c) (cr_volumeLeases c) (cr_attached c) (cr_trace c).
Definition set_scratch (c : Creating) : Creating :=
  mkCreating (cr_svc c) (cr_lease c) true (cr_volumeLeases c) (cr_attached c) (cr_trace c).
Definition set_volume_leases (l : list positive) (c : Creating) : Creating :=
  mkCreating (cr_svc c) (cr_lease c) (cr_scratch c) l (cr_attached c) (cr_trace c).
Definition add_attached (lk : positive) (n : string) (c : Creating) : Creating :=
  mkCreating (cr_svc c) (cr_lease c) (cr_scratch c) (cr_volumeLeases c ++ [lk]) (cr_attached c ++ [n]) (cr_trace c).

Definition with_disks (f : Dir → Dir) : Creating → Creating := on_create_svc (λ s, set_disks (f (sv_disks s)) s).
Definition write_file (n : string) (c : Creating) : Creating := emit (CeFile n) (with_disks (add_file n) c).

(** ** What the world answers *)

(** A tool that writes a file may fail before or after it created it. *)
Inductive write_result := WroteAll | WroteNothing | WrotePart.

(** [createSparseDisk]; [ScMkdir]: the directory could not be made, before the path is noted. *)
Inductive scratch_result := ScOk | ScMkdir | ScOpen | ScTruncate.

Record CreateAnswers := mkCreateAnswers {
  ca_image : result string string;
  ca_resolve : IO;
  ca_id : SandboxID;
  ca_git : string → option string;
  ca_diskDir : bool;
  ca_noSpace : bool;
  ca_pub : pub_failure;
  ca_preList : string → IO;
  ca_vol : string → Fails;
  ca_lease : string → intentLeaseState;
  ca_list : string → IO;
  ca_free : Z;
  ca_floor : Z;
  ca_now : Time;
  ca_copy : write_result;
  ca_capture : write_result;
  ca_scratch : scratch_result;
  ca_driver : bool;
  ca_create : IO;
  ca_update : IO;
  ca_boot : result string string;
  ca_netns : option NetnsState;
  ca_probe : option bool;
  ca_seed : option Broker → option Broker * bool;
  ca_ssh : bool;
  ca_gitSeed : bool;
  ca_delete : IO;
  ca_detach : Fails;
  ca_rm : string → bool;
}.

(** ** The steps *)

Section Steps.
Context (drv : Driver) (a : CreateAnswers) (o : CreateAndBootOptions) (project name : string).

Definition new_id : SandboxID := default (ca_id a) (o_PreMintedID o).

Definition needsDisk : bool := String.eqb (o_RootfsPath o) "".
Definition needsWorkspace : bool := bool_decide (is_Some (o_Workspace o)).
Definition needsNamedVols (s : Service) : bool :=
  bool_decide (is_Some (sv_volumes s)) && negb (bool_decide (o_NamedVolumeMounts o = [])).
Definition needsScratch : bool := bool_decide (is_Some (hostWorkspacePath o)) && negb (o_NoScratchDisk o).

Definition needsIntent (s : Service) : bool := needsDisk || needsWorkspace || needsNamedVols s.

(** Step 3.6 *)
Definition write_intent : Act unit := λ c,
  match ca_pub a with
  | PubOk => (set_lease_held true (emit (CeLease (IntentName new_id)) (with_disks (add_file (IntentName new_id)) c)), Ok tt)
  | PubBefore => (c, Err CrIntent)
  | PubAfter => (with_disks (rm_file (IntentName new_id)) c, Err CrIntent)
  end.

Definition is_rw_disk (m : NamedVolumeMount) : bool := String.eqb (nm_Kind m) KindDisk && negb (nm_ReadOnly m).

(** Step 3.75 *)
Fixpoint pre_check (mounts : list NamedVolumeMount) : Act unit :=
  match mounts with
  | [] => mret tt
  | m :: mounts =>
      (λ c, if is_rw_disk m then
              match sv_volumes (cr_svc c) with
              | None => (c, Ok tt)
              | Some v =>
                  match preCheckRWAttachUnlocked (ca_vol a (nm_Name m)) (ca_lease a)
                          (match List_ (E:=cb_error) (ca_preList a (nm_Name m)) (sv_fs (cr_svc c)) with Ok l => Some l | Err _ => None end)
                          (nm_Name m) (SandboxID_String new_id) v with
                  | Err e => (c, Err (CrGuard e))
                  | Ok _ => (c, Ok tt)
                  end
              end
            else (c, Ok tt)) ≫= λ _, pre_check mounts
  end.

(** A file written by a tool. *)
Definition tool_write (n : string) (r : write_result) (e : create_error) : Act unit := λ c,
  match r with
  | WroteAll => (write_file n c, Ok tt)
  | WroteNothing => (c, Err e)
  | WrotePart => (write_file n c, Err e)
  end.

(** Step 4.7: the volumes are created, then locked in the order of their names. *)
Fixpoint create_volumes (mounts : list NamedVolumeMount) : Act unit :=
  match mounts with
  | [] => mret tt
  | m :: mounts =>
      (λ c, match sv_volumes (cr_svc c) with
            | None => (c, Ok tt)
            | Some v =>
                match Volumes.Create (ca_vol a (nm_Name m)) (ca_free a) (ca_floor a) (ca_now a) (nm_Name m) (nm_Kind m) (nm_SizeBytes m) "" v with
                | (v, Err e) => (on_create_svc (set_volumes (Some v)) c, Err (CrVolume e))
                | (v, Ok _) => (on_create_svc (set_volumes (Some v)) c, Ok tt)
                end
            end) ≫= λ _, create_volumes mounts
  end.

Definition attach_one (m : NamedVolumeMount) : Act unit := λ c,
  match sv_volumes (cr_svc c) with
  | None => (c, Ok tt)
  | Some v =>
      if is_rw_disk m then
        match checkRWAttach (ca_vol a (nm_Name m)) (ca_now a) (ca_lease a)
                (match List_ (E:=cb_error) (ca_list a (nm_Name m)) (sv_fs (cr_svc c)) with Ok l => Some l | Err _ => None end)
                (nm_Name m) (SandboxID_String new_id) v with
        | (v, Err e) => (on_create_svc (set_volumes (Some v)) c, Err (CrGuard e))
        | (v, Ok lk) => (add_attached lk (nm_Name m) (on_create_svc (set_volumes (Some v)) c), Ok tt)
        end
      else
        match AttachLocked (ca_vol a (nm_Name m)) (ca_now a) (nm_Name m) (SandboxID_String new_id) v with
        | (v, Err e) => (on_create_svc (set_volumes (Some v)) c, Err (CrVolume e))
        | (v, Ok lk) => (add_attached lk (nm_Name m) (on_create_svc (set_volumes (Some v)) c), Ok tt)
        end
  end.

Fixpoint attach_all (mounts : list NamedVolumeMount) : Act unit :=
  match mounts with
  | [] => mret tt
  | m :: mounts => attach_one m ≫= λ _, attach_all mounts
  end.

Definition mount_le (m n : NamedVolumeMount) : Prop := String.leb (nm_Name m) (nm_Name n) = true.
#[global] Instance mount_le_dec : RelDecision mount_le.
Proof. intros m n. apply bool_eq_dec. Defined.

Definition attach_volumes : Act unit :=
  create_volumes (o_NamedVolumeMounts o) ≫= λ _, attach_all (merge_sort mount_le (o_NamedVolumeMounts o)).

(** Step 4.9 *)
Definition write_scratch : Act unit := λ c,
  match ca_scratch a with
  | ScMkdir => (c, Err CrScratch)
  | ScOpen => (set_scratch c, Err CrScratch)
  | ScTruncate => (with_disks (rm_file (scratch_name new_id)) (write_file (scratch_name new_id) (set_scratch c)), Err CrScratch)
  | ScOk => (write_file (scratch_name new_id) (set_scratch c), Ok tt)
  end.

(** Step 6 *)
Definition secret_guards : Act unit :=
  if existsb SecretMixesGitHubHosts (o_Secrets o) then afail CrMixedGitHub
  else if existsb (λ b, existsb (λ h, isGitHubHost h && negb (githubHostBoundByPolicy h (o_AllowedRepo o) (o_PathPolicies o))) (sb_Hosts b)) (o_Secrets o)
       then afail CrUnboundGitHub
  else mret tt.

Definition unlock_volumes (c : Creating) : Creating :=
  set_volume_leases [] (on_create_svc (λ s, set_volumes ((λ v, foldl (λ v lk, release_lock lk v) v (cr_volumeLeases c)) <$> sv_volumes s) s) c).

Definition commit_record (sb : Sandbox) : Act unit := λ c,
  match Store.Create (ca_create a) sb (sv_fs (cr_svc c)) with
  | (fs, Err e) => (on_create_svc (set_fs fs) c, Err (CrStore e))
  | (fs, Ok _) => (unlock_volumes (emit CeRecord (on_create_svc (set_fs fs) c)), Ok tt)
  end.

(** Step 7 *)
(** What it leaves: whether the driver was asked, and the booted record. *)
Definition boot_callback (rec : Sandbox) : (bool * option Sandbox) * result cb_error Sandbox :=
  match Next (SState rec) TriggerStart with
  | Err e => ((false, None), Err (CbIllegal e))
  | Ok tr =>
      match ca_boot a with
      | Err e => ((true, None), Err (CbDriver e))
      | Ok instanceID =>
          let rec := set_SStopReason StopReasonNone (set_InstanceID instanceID (set_SState (t_next tr) rec)) in
          let rec := match ca_netns a with
                     | Some ns => if dv_NetnsStateProvider drv then set_netns (Some ns) rec else rec
                     | None => rec
                     end in
          ((true, Some rec), Ok rec)
      end
  end.

Definition delete_record (c : Creating) : Creating :=
  on_create_svc (λ s, set_fs (Store.Delete (E:=cb_error) (ca_delete a) new_id (sv_fs s)).1 s) c.

(** [booted] is what the callback captured, zero if it never ran. *)
Definition zero_sandbox : Sandbox :=
  mkSandbox [] "" "" ∅ Created empty_envelope "" false false StopReasonNone None 0 "" 0 0 "" "" 0 "" "" "" 0 "" [] [] "" [].

Definition boot : Act Sandbox := λ c,
  let '(fs, out, res) := Update (ca_update a) new_id boot_callback (sv_fs (cr_svc c)) in
  let c := on_create_svc (set_fs fs) (if default false (fst <$> out) then emit CeBoot c else c) in
  match res with
  | Ok _ => (c, Ok (default zero_sandbox (out ≫= snd)))
  | Err e => (delete_record c, Err (CrBoot e))
  end.

(** A step after the boot: on failure the machine is stopped and the record deleted. *)
Definition after_boot (ok : bool) (e : create_error) : Act unit := λ c,
  if ok then (c, Ok tt)
  else (delete_record (emit CeStop (on_create_svc (add_log [EvStop new_id]) c)), Err e).

Definition seed : Act unit := λ c,
  let '(b, ok) := ca_seed a (sv_broker (cr_svc c)) in
  after_boot ok CrSeed (on_create_svc (set_broker b) c).

Definition boot_and_seed : Act Sandbox :=
  booted ← boot;
  _ ← after_boot (default true (ca_probe a)) CrUnreachable;
  _ ← seed;
  _ ← awhen (negb (String.eqb (SSHPublicKey (SEnvelope booted)) "")) (after_boot (ca_ssh a) CrSSH);
  _ ← after_boot (ca_gitSeed a) CrGit;
  mret booted.

(** Everything between the intent and the return. *)
Definition create_body (s0 : Service) (digest : string) : Act Sandbox :=
  _ ← pre_check (o_NamedVolumeMounts o);
  _ ← awhen needsDisk (tool_write (raw_name new_id) (ca_copy a) CrCopy);
  _ ← awhen needsWorkspace (tool_write (workspace_name new_id) (ca_capture a) CrCapture);
  _ ← awhen (needsNamedVols s0) attach_volumes;
  _ ← awhen needsScratch write_scratch;
  _ ← (if ca_driver a then afail CrDriver else mret tt);
  _ ← secret_guards;
  _ ← commit_record (created_sandbox (ca_git a) digest new_id project name o);
  boot_and_seed.

(** ** The deferred functions *)

Definition rollback_volumes (ok : bool) (c : Creating) : Creating :=
  let c := unlock_volumes c in
  if ok then c
  else on_create_svc (λ s, set_volumes ((λ v, foldl (λ v n, (Detach (ca_detach a) n (SandboxID_String new_id) v).1) v (cr_attached c)) <$> sv_volumes s) s) c.

Definition rm_quiet (n : string) (c : Creating) : Creating := if ca_rm a n then c else with_disks (rm_file n) c.

Definition release_lease (c : Creating) : Creating :=
  if cr_lease c then set_lease_held false (emit (CeRelease (IntentName new_id)) (with_disks (rm_file (IntentName new_id)) c)) else c.

Definition clean_disks (ok : bool) (c : Creating) : Creating :=
  let c := release_lease c in
  if ok then c
  else
    let c := if needsDisk then rm_quiet (raw_name new_id) c else c in
    let c := if needsWorkspace then rm_quiet (workspace_name new_id) c else c in
    if cr_scratch c then rm_quiet (scratch_name new_id) c else c.

Definition deferred {A} (cr : Creating * result create_error A) : Creating * result create_error A :=
  (clean_disks (is_ok cr.2) (rollback_volumes (is_ok cr.2) cr.1), cr.2).

Definition CreateAndBoot (s : Service) : Creating * result create_error Sandbox :=
  let c := mkCreating s false false [] [] [] in
  match ca_image a with
  | Err e => (c, Err (CrImage e))
  | Ok digest =>
      match ResolveByHandle (E:=cb_error) (ca_resolve a) (project +:+ "/" +:+ name) (sv_fs s) with
      | Ok _ => (c, Err CrExists)
      | Err ErrNotFound =>
          if (needsIntent s || needsScratch) && ca_diskDir a then (c, Err CrDiskDir)
          else if negb (o_ForceDiskSpace o) && ca_noSpace a then (c, Err CrNoSpace)
          else
            match awhen (needsIntent s) write_intent c with
            | (c, Err e) => (c, Err e)
            | (c, Ok _) => deferred (create_body s digest c)
            end
      | Err e => (c, Err (CrStore e))
      end
  end.
End Steps.

(** ** Actions and invariants *)

Definition keeps {A} (P : Creating → Prop) (m : Act A) : Prop := ∀ c, P c → P (m c).1.

Lemma keeps_ret {A} P (x : A) : keeps P (mret x).
Proof. by intros c. Qed.
Lemma keeps_fail {A} P e : keeps P (afail (A:=A) e).
Proof. by intros c. Qed.
Lemma keeps_bind {A B} P (m : Act A) (k : A → Act B) : keeps P m → (∀ x, keeps P (k x)) → keeps P (m ≫= k).
Proof.
  intros Hm Hk c Hc. unfold mbind, act_bind. specialize (Hm c Hc). destruct (m c) as [c1 [x|e]]; [by apply Hk|done].
Qed.
Lemma keeps_when P b m : (b = true → keeps P m) → keeps P (awhen b m).
Proof. intros H. destruct b; [by apply H|apply keeps_ret]. Qed.

Create HintDb keeps.
#[export] Hint Resolve keeps_ret keeps_fail keeps_bind keeps_when : keeps.

Lemma bind_cases {A B} (m : Act A) (k : A → Act B) c :
  (∃ x c1, m c = (c1, Ok x) ∧ (m ≫= k) c = k x c1) ∨ (∃ e c1, m c = (c1, Err e) ∧ (m ≫= k) c = (c1, Err e)).
Proof. unfold mbind, act_bind. destruct (m c) as [c1 [x|e]]; [left|right]; eauto. Qed.

Section Spec.
Context (drv : Driver) (a : CreateAnswers) (o : CreateAndBootOptions) (project name : string) (s0 : Service) (digest : string).
Let id := new_id a o.
Let intent := IntentName id.
Let F0 := d_files (sv_disks s0).

Definition lead (s : Service) : list create_event := if needsIntent o s then [CeLease (IntentName (new_id a o))] else [].

(** The files of the sandbox that may be there. *)
Definition own_file (c : Creating) (n : string) : Prop :=
  n = intent ∧ cr_lease c = true ∨ n = raw_name id ∧ needsDisk o = true ∨ n = workspace_name id ∧ needsWorkspace o = true ∨
  n = scratch_name id ∧ cr_scratch c = true.

Definition files_inv (c : Creating) : Prop :=
  F0 ⊆ d_files (sv_disks (cr_svc c)) ∧ ∀ n, n ∈ d_files (sv_disks (cr_svc c)) → n ∈ F0 ∨ own_file c n.

(** Until the record is written. *)
Record unwritten (c : Creating) : Prop := {
  un_files : files_inv c;
  un_fs : sv_fs (cr_svc c) = sv_fs s0;
  un_lease : cr_lease c = needsIntent o s0;
  un_trace : ∃ fl, cr_trace c = lead s0 ++ (CeFile <$> fl) ∧ fl ⊆ [raw_name id; workspace_name id; scratch_name id];
}.

Lemma unwritten_svc f c :
  (∀ s, sv_fs (f s) = sv_fs s) → (∀ s, sv_disks (f s) = sv_disks s) → unwritten c → unwritten (on_create_svc f c).
Proof. intros Hf Hd [H1 H2 H3 H4]. split; cbn; [unfold files_inv in *; cbn; by rewrite Hd|by rewrite Hf|done|done]. Qed.

Lemma unwritten_attached lk n c : unwritten c → unwritten (add_attached lk n c).
Proof. by intros [H1 H2 H3 H4]. Qed.

Lemma unwritten_scratch c : unwritten c → unwritten (set_scratch c).
Proof.
  intros [[H0 H1] H2 H3 H4]. split; try done. split; [done|]. intros n [?|Hn]%H1; [by left|right].
  unfold own_file in *. cbn. destruct Hn as [?|[?|[?|[? _]]]]; eauto 10.
Qed.

Lemma unwritten_file n c :
  (n = raw_name id ∧ needsDisk o = true ∨ n = workspace_name id ∧ needsWorkspace o = true ∨ n = scratch_name id ∧ cr_scratch c = true) →
  unwritten c → unwritten (write_file n c).
Proof.
  intros Hn [[H0 H1] H2 H3 (fl & Ht & Hfl)]. split; [|done|done|].
  - split; [cbn; set_solver|]. intros m. cbn. rewrite elem_of_union, elem_of_singleton. intros [->|Hm]; [right; by right|by apply H1].
  - exists (fl ++ [n]). cbn. rewrite Ht, fmap_app, (assoc_L (++)). split; [done|]. intros x. rewrite elem_of_app, list_elem_of_singleton.
    intros [?| ->]; [by apply Hfl|]. rewrite !elem_of_cons. naive_solver.
Qed.

Lemma unwritten_rm_scratch c : scratch_name id ∉ F0 → unwritten c → unwritten (with_disks (rm_file (scratch_name id)) c).
Proof.
  intros Hf [[H0 H1] H2 H3 H4]. split; try done. split; [cbn; set_solver|]. intros m. cbn. rewrite elem_of_difference. intros [Hm _]. by apply H1.
Qed.

Lemma keeps_pre_check l : keeps unwritten (pre_check a o l).
Proof.
  induction l as [|m l IH]; cbn; [apply keeps_ret|]. apply keeps_bind; [|done]. intros c Hc.
  destruct (is_rw_disk m); [|done]. destruct (sv_volumes _); [|done]. by destruct (preCheckRWAttachUnlocked _ _ _ _ _ _).
Qed.

Lemma keeps_tool_write n r e :
  (n = raw_name id ∧ needsDisk o = true ∨ n = workspace_name id ∧ needsWorkspace o = true) → keeps unwritten (tool_write n r e).
Proof. intros Hn c Hc. destruct r; cbn [tool_write fst]; [|done|]; apply unwritten_file; [|done| |done]; tauto. Qed.

Lemma keeps_create_volumes l : keeps unwritten (create_volumes a l).
Proof.
  induction l as [|m l IH]; cbn; [apply keeps_ret|]. apply keeps_bind; [|done]. intros c Hc.
  destruct (sv_volumes _); [|done]. destruct (Volumes.Create _ _ _ _ _ _ _ _ _) as [v' [|]]; cbn [fst]; by apply unwritten_svc.
Qed.

Lemma keeps_attach_all l : keeps unwritten (attach_all a o l).
Proof.
  induction l as [|m l IH]; cbn; [apply keeps_ret|]. apply keeps_bind; [|done]. intros c Hc. unfold attach_one.
  destruct (sv_volumes _); [|done]. destruct (is_rw_disk m).
  - destruct (checkRWAttach _ _ _ _ _ _ _) as [v' [|]]; cbn [fst]; [apply unwritten_attached|]; by apply unwritten_svc.
  - destruct (AttachLocked _ _ _ _ _) as [v' [|]]; cbn [fst]; [apply unwritten_attached|]; by apply unwritten_svc.
Qed.

Lemma keeps_write_scratch : scratch_name id ∉ F0 → keeps unwritten (write_scratch a o).
Proof.
  intros Hf c Hc. assert (Hw : unwritten (write_file (scratch_name id) (set_scratch c))).
  { apply unwritten_file; [by right; right|]. by apply unwritten_scratch. }
  unfold write_scratch. destruct (ca_scratch a); cbn [fst]; [done|done|by apply unwritten_scratch|by apply unwritten_rm_scratch].
Qed.

#[local] Hint Resolve keeps_pre_check keeps_tool_write keeps_create_volumes keeps_attach_all keeps_write_scratch : keeps.

(** Everything before the record. *)
Definition prepare : Act unit :=
  _ ← pre_check a o (o_NamedVolumeMounts o);
  _ ← awhen (needsDisk o) (tool_write (raw_name id) (ca_copy a) CrCopy);
  _ ← awhen (needsWorkspace o) (tool_write (workspace_name id) (ca_capture a) CrCapture);
  _ ← awhen (needsNamedVols o s0) (attach_volumes a o);
  _ ← awhen (needsScratch o) (write_scratch a o);
  _ ← (if ca_driver a then afail CrDriver else mret tt);
  secret_guards o.

Lemma create_body_prepare c :
  create_body drv a o project name s0 digest c =
  (prepare ≫= λ _, commit_record a (created_sandbox (ca_git a) digest id project name o) ≫= λ _, boot_and_seed drv a o) c.
Proof. unfold create_body, prepare, mbind, act_bind. fold id. repeat (case_match; simplify_eq); done. Qed.

(** What the guards before the record refuse. *)
Definition secrets_bound : Prop :=
  ∀ b h, b ∈ o_Secrets o → h ∈ sb_Hosts b → SecretMixesGitHubHosts b = false ∧
    (isGitHubHost h = true → githubHostBoundByPolicy h (o_AllowedRepo o) (o_PathPolicies o) = true).

Lemma secret_guards_Ok c c' u : secret_guards o c = (c', Ok u) → c' = c ∧ secrets_bound.
Proof.
  unfold secret_guards. destruct (existsb SecretMixesGitHubHosts (o_Secrets o)) eqn:Em; [done|].
  destruct (existsb (λ b, existsb _ _) (o_Secrets o)) eqn:Eu; [done|]. intros Heq. split; [exact (eq_sym (f_equal fst Heq))|]. intros b h Hb Hh.
  assert (Hn : ∀ (f : SecretBind → bool), existsb f (o_Secrets o) = false → f b = false).
  { intros f Hf. destruct (f b) eqn:E; [|done]. rewrite <- Hf. symmetry. apply existsb_exists. exists b. split; [by apply list_elem_of_In|done]. }
  split; [by apply Hn|]. intros Hg. apply Hn in Eu. destruct (githubHostBoundByPolicy h _ _) eqn:E; [done|]. exfalso.
  assert (Ht : existsb (λ h, isGitHubHost h && negb (githubHostBoundByPolicy h (o_AllowedRepo o) (o_PathPolicies o))) (sb_Hosts b) = true).
  { apply existsb_exists. exists h. split; [by apply list_elem_of_In|]. by rewrite Hg, E. }
  congruence.
Qed.

Lemma prepare_facts c :
  scratch_name id ∉ F0 → unwritten c → unwritten (prepare c).1 ∧ ((prepare c).2 = Ok tt → secrets_bound).
Proof.
  intros Hf Hc. split.
  - assert (H : keeps unwritten prepare); [|by apply H]. unfold prepare, attach_volumes, secret_guards.
    repeat (apply keeps_bind; [|intros _]); try (apply keeps_when; intros ?); try (apply keeps_bind; [|intros _]); eauto with keeps;
      repeat case_match; auto with keeps.
  - unfold prepare. intros H.
    assert (Hlast : ∀ {A} (m : Act A) (k : Act unit) c, ((m ≫= λ _, k) c).2 = Ok tt → ∃ c1, (k c1).2 = Ok tt).
    { intros A m k c1. destruct (bind_cases m (λ _, k) c1) as [(x & c2 & _ & ->)|(e & c2 & _ & ->)]; [eauto|done]. }
    do 5 (apply Hlast in H as [? H]). apply Hlast in H as [c1 H]. destruct (secret_guards o c1) as [c2 [u|]] eqn:E; [|done]. by apply secret_guards_Ok in E as [_ ?].
Qed.

(** Once the record may have been written: the trace so far and what is stored for the sandbox. *)
Record written (tail : list create_event) (R : option Sandbox → Prop) (c : Creating) : Prop := {
  wr_files : files_inv c;
  wr_lease : cr_lease c = needsIntent o s0;
  wr_trace : ∃ fl, cr_trace c = lead s0 ++ (CeFile <$> fl) ++ tail ∧ fl ⊆ [raw_name id; workspace_name id; scratch_name id];
  wr_others : ∀ x, wf_id x → x ≠ id → lookup_sandbox (sv_fs (cr_svc c)) x = lookup_sandbox (sv_fs s0) x;
  wr_record : R (lookup_sandbox (sv_fs (cr_svc c)) id);
}.

Lemma written_weaken tail (R R' : option Sandbox → Prop) c : (∀ r, R r → R' r) → written tail R c → written tail R' c.
Proof. intros H [H1 H2 H3 H4 H5]. split; auto. Qed.

Lemma written_svc tail R f c :
  (∀ s, sv_fs (f s) = sv_fs s) → (∀ s, sv_disks (f s) = sv_disks s) → written tail R c → written tail R (on_create_svc f c).
Proof. intros Hf Hd [H1 H2 H3 H4 H5]. split; cbn; rewrite ?Hf; try done. unfold files_inv in *. cbn. by rewrite Hd. Qed.

Lemma written_emit tail R e c : written tail R c → written (tail ++ [e]) R (emit e c).
Proof.
  intros [H1 H2 (fl & Ht & Hfl) H4 H5]. split; try done. exists fl. cbn. rewrite Ht. by rewrite <- !(assoc_L (++)).
Qed.

Lemma written_leases tail R c : written tail R c → written tail R (set_volume_leases [] c).
Proof. by intros [H1 H2 H3 H4 H5]. Qed.

Lemma written_fs tail (R R' : option Sandbox → Prop) fs c :
  (∀ x, wf_id x → x ≠ id → lookup_sandbox fs x = lookup_sandbox (sv_fs (cr_svc c)) x) → R' (lookup_sandbox fs id) →
  written tail R c → written tail R' (on_create_svc (set_fs fs) c).
Proof.
  intros Ho Hr [H1 H2 H3 H4 H5]. split; try done. intros x Hx Hne. cbn. rewrite (Ho x Hx Hne). by apply H4.
Qed.

Lemma written_delete tail R c :
  wf_id id → written tail R c → written tail (λ r, healthy (ca_delete a) → r = None) (delete_record a o c).
Proof.
  intros Hid Hw. unfold delete_record. fold id.
  apply (written_fs tail R _ (Store.Delete (E:=cb_error) (ca_delete a) id (sv_fs (cr_svc c))).1); [| |done].
  - intros x Hx Hne. by apply Delete_frame.
  - intros Hh. pose proof (Delete_effect (E:=cb_error) (ca_delete a) id (sv_fs (cr_svc c))) as He.
    destruct (lookup_sandbox (sv_fs (cr_svc c)) id) as [sb|] eqn:El.
    + destruct (lookup_sandbox_dir _ _ _ El) as [d Hd]. rewrite (Delete_healthy _ _ _ _ Hh Hd). cbn. unfold lookup_sandbox. by rewrite lookup_delete_eq.
    + destruct (Store.Delete _ _ _) as [fs' r]. destruct He as [[?|?] _]; cbn; congruence.
Qed.

Let sb := created_sandbox (ca_git a) digest id project name o.

Lemma commit_facts c c' r :
  wf_id id → lookup_sandbox (sv_fs s0) id = None → unwritten c → commit_record a sb c = (c', r) →
  match r with
  | Ok _ => written [CeRecord] (λ x, x = Some (persisted sb)) c'
  | Err e => written [] (λ x, x = None ∨ x = Some (persisted sb)) c' ∧ ∃ e', e = CrStore e'
  end.
Proof.
  intros Hid Hnone [Hf Hfs Hl (fl & Ht & Hfl)]. unfold commit_record.
  pose proof (Create_effect (E:=cb_error) (ca_create a) sb (sv_fs (cr_svc c))) as He. pose proof (Create_spec (E:=cb_error) (ca_create a) sb (sv_fs (cr_svc c))) as Hs.
  destruct (Store.Create (ca_create a) sb (sv_fs (cr_svc c))) as [fs [u|e]] eqn:Ec; cbn in He; change (ID sb) with id in *; rewrite Hfs in *;
    destruct (Hs Hid) as [Ho _]; intros [= <- <-].
  - assert (Hw : written [] (λ x, x = Some (persisted sb)) (on_create_svc (set_fs fs) c)).
    { split; try done; [|exact (Create_Ok _ _ _ _ _ Ec)]. exists fl. by rewrite app_nil_r. }
    unfold unlock_volumes. apply written_leases, written_svc; [done|done|]. by apply (written_emit [] _ CeRecord).
  - split; [|eauto]. split; try done; [exists fl; by rewrite app_nil_r|]. cbn. rewrite Hnone in He. destruct He as [->|[_ ?]]; [by left|done].
Qed.

(** The sandbox that was booted is the one that was created. *)
Definition booted_from (b : Sandbox) : Prop :=
  ID b = id ∧ SState b = Running ∧ ca_boot a = Ok (InstanceID b) ∧ SEnvelope b = SEnvelope sb ∧
  MountedVolumes b = MountedVolumes sb ∧ Handle b = Handle sb ∧ RemovalMarker b = false.

Lemma boot_callback_created x rec : boot_callback drv a (persisted sb) = (x, Ok rec) → x = (true, Some rec) ∧ booted_from rec.
Proof.
  unfold boot_callback. destruct (Next (SState (persisted sb)) TriggerStart) as [tr|] eqn:En; [|done].
  assert (t_next tr = Running) as Htr by (vm_compute in En; by injection En as <-). destruct (ca_boot a) as [iid|] eqn:Eb; [|done].
  rewrite Htr. unfold booted_from. rewrite Eb. destruct (ca_netns a); [destruct (dv_NetnsStateProvider drv)|]; intros [= <- <-]; by split_and!.
Qed.

Definition deleted : option Sandbox → Prop := λ x, healthy (ca_delete a) → x = None.

Lemma boot_facts c c' r :
  wf_id id → written [CeRecord] (λ x, x = Some (persisted sb)) c → boot drv a o c = (c', r) →
  match r with
  | Ok b => written [CeRecord; CeBoot] (λ x, x = Some (persisted b)) c' ∧ booted_from b
  | Err e => written [CeRecord] deleted c' ∨ written [CeRecord; CeBoot] deleted c'
  end.
Proof.
  intros Hid Hw. unfold boot. fold id. pose proof (λ x, Update_frame (ca_update a) id x (boot_callback drv a) (sv_fs (cr_svc c)) Hid) as Hfr.
  destruct (Update (ca_update a) id (boot_callback drv a) (sv_fs (cr_svc c))) as [[fs out] res] eqn:Eu.
  apply Update_effect in Eu. rewrite (wr_record _ _ _ Hw) in Eu. cbn in Hfr.
  set (c1 := if default false (fst <$> out) then emit CeBoot c else c).
  assert (Hdel : ∀ tail R, written tail R c1 → written tail deleted (delete_record a o (on_create_svc (set_fs fs) c1))).
  { intros tail R Hw1. apply (written_delete _ (λ _, True)); [done|]. apply (written_fs _ R); [|done|done].
    intros x Hx Hne. unfold c1. destruct (default false _); by apply Hfr. }
  destruct res as [u|e]; intros [= <- <-].
  - destruct out as [x|]; [|by destruct Eu]. destruct Eu as (sb' & Hsb' & Hx & Hr). apply (inj Some) in Hsb' as <-.
    destruct (boot_callback drv a (persisted sb)) as [y [rec|]] eqn:Eb; cbn [fst snd] in Hx, Hr; [|by destruct Hr].
    subst y. destruct (boot_callback_created _ _ Eb) as [-> Hb]. destruct Hr as [Hr _]. cbn. split; [|done].
    apply (written_fs _ (λ x, x = Some (persisted sb))); [by apply Hfr|done|]. exact (written_emit _ _ CeBoot _ Hw).
  - unfold c1 in *. destruct (default false (fst <$> out)); [right; apply (Hdel _ (λ x, x = Some (persisted sb))); exact (written_emit _ _ CeBoot _ Hw)|left; by apply (Hdel _ (λ x, x = Some (persisted sb)))].
Qed.

Lemma after_boot_facts ok e c c' r R :
  wf_id id → written [CeRecord; CeBoot] R c → after_boot a o ok e c = (c', r) →
  match r with Ok _ => c' = c | Err _ => written [CeRecord; CeBoot; CeStop] deleted c' end.
Proof.
  intros Hid Hw. unfold after_boot. destruct ok; intros [= <- <-]; [done|]. apply (written_delete _ R); [done|].
  apply (written_emit [CeRecord; CeBoot] _ CeStop). by apply written_svc.
Qed.

(** How a boot that failed ended: the machine that was started was stopped, unless the update of the record failed. *)
Definition failed_boot (e : create_error) (tail : list create_event) : Prop :=
  tail ∈ [[CeRecord]; [CeRecord; CeBoot]; [CeRecord; CeBoot; CeStop]] ∧ (tail = [CeRecord; CeBoot] → ∃ e', e = CrBoot e').

Lemma boot_error c c' e : boot drv a o c = (c', Err e) → ∃ e', e = CrBoot e'.
Proof. unfold boot. destruct (Update _ _ _ _) as [[fs out] [u|e0]]; [done|]. intros [= _ <-]. eauto. Qed.

Lemma boot_and_seed_facts c c' r :
  wf_id id → written [CeRecord] (λ x, x = Some (persisted sb)) c → boot_and_seed drv a o c = (c', r) →
  match r with
  | Ok b => written [CeRecord; CeBoot] (λ x, x = Some (persisted b)) c' ∧ booted_from b
  | Err e => ∃ tail, failed_boot e tail ∧ written tail deleted c'
  end.
Proof.
  intros Hid Hw. unfold boot_and_seed. unfold mbind, act_bind. destruct (boot drv a o c) as [c1 [b|e]] eqn:Eb; pose proof (boot_facts _ _ _ Hid Hw Eb) as Hb.
  2:{ intros [= <- <-]. destruct Hb as [Hb|Hb]; eexists; (split; [|exact Hb]); (split; [set_solver|intros _; by eapply boot_error]). }
  destruct Hb as [Hb Hfrom].
  assert (Hstep : ∀ ok e c2 c3 r3, written [CeRecord; CeBoot] (λ x, x = Some (persisted b)) c2 → after_boot a o ok e c2 = (c3, r3) →
    match r3 with Ok _ => c3 = c2 | Err e => ∃ tail, failed_boot e tail ∧ written tail deleted c3 end).
  { intros ok e c2 c3 r3 H2 H3. pose proof (after_boot_facts _ _ _ _ _ _ Hid H2 H3) as H. destruct r3; [done|]. eexists. split; [|exact H]. split; [set_solver|done]. }
  destruct (after_boot a o (default true (ca_probe a)) CrUnreachable c1) as [c2 [[]|e]] eqn:E1; pose proof (Hstep _ _ _ _ _ Hb E1) as H1; [|by intros [= <- <-]].
  assert (c2 = c1) as -> by exact H1. unfold seed. destruct (ca_seed a (sv_broker (cr_svc c1))) as [br okb]. set (c2 := on_create_svc (set_broker br) c1).
  assert (Hb2 : written [CeRecord; CeBoot] (λ x, x = Some (persisted b)) c2) by (by apply written_svc).
  destruct (after_boot a o okb CrSeed c2) as [c3 [[]|e]] eqn:E2; pose proof (Hstep _ _ _ _ _ Hb2 E2) as H2; [|by intros [= <- <-]].
  assert (c3 = c2) as -> by exact H2.
  destruct (awhen _ (after_boot a o (ca_ssh a) CrSSH) c2) as [c3 r3] eqn:E3.
  assert (H3 : match r3 with Ok _ => c3 = c2 | Err e => ∃ tail, failed_boot e tail ∧ written tail deleted c3 end).
  { unfold awhen in E3. destruct (negb _); [by eapply Hstep|]. unfold mret, act_ret in E3. by injection E3 as <- <-. }
  destruct r3 as [[]|e]; [|by intros [= <- <-]]. assert (c3 = c2) as -> by exact H3.
  destruct (after_boot a o (ca_gitSeed a) CrGit c2) as [c3 [[]|e]] eqn:E4; pose proof (Hstep _ _ _ _ _ Hb2 E4) as H4; [|by intros [= <- <-]].
  assert (c3 = c2) as -> by exact H4. unfold mret, act_ret. by intros [= <- <-].
Qed.

(** ** After the deferred functions *)

(** No file of the sandbox was there before. *)
Definition fresh_files : Prop := intent ∉ F0 ∧ raw_name id ∉ F0 ∧ workspace_name id ∉ F0 ∧ scratch_name id ∉ F0.

Definition trail (s : Service) : list create_event := if needsIntent o s then [CeRelease (IntentName (new_id a o))] else [].

Record settled (ok : bool) (tail : list create_event) (R : option Sandbox → Prop) (c : Creating) : Prop := {
  st_lease : cr_lease c = false;
  st_trace : ∃ fl, cr_trace c = lead s0 ++ (CeFile <$> fl) ++ tail ++ trail s0 ∧ fl ⊆ [raw_name id; workspace_name id; scratch_name id];
  st_others : ∀ x, wf_id x → x ≠ id → lookup_sandbox (sv_fs (cr_svc c)) x = lookup_sandbox (sv_fs s0) x;
  st_record : R (lookup_sandbox (sv_fs (cr_svc c)) id);
  st_intent : intent ∉ d_files (sv_disks (cr_svc c));
  st_kept : F0 ⊆ d_files (sv_disks (cr_svc c));
  st_clean : ok = false → (∀ n, ca_rm a n = false) → d_files (sv_disks (cr_svc c)) = F0;
}.

Definition rm_all (ns : list string) (c : Creating) : Creating := foldl (λ c n, with_disks (rm_file n) c) c ns.

Lemma rm_all_facts ns c :
  d_files (sv_disks (cr_svc (rm_all ns c))) = d_files (sv_disks (cr_svc c)) ∖ list_to_set ns ∧ cr_lease (rm_all ns c) = cr_lease c ∧
  cr_trace (rm_all ns c) = cr_trace c ∧ sv_fs (cr_svc (rm_all ns c)) = sv_fs (cr_svc c) ∧ cr_scratch (rm_all ns c) = cr_scratch c.
Proof.
  revert c. induction ns as [|n ns IH]; intros c; cbn; [split_and!; try done; set_solver|].
  destruct (IH (with_disks (rm_file n) c)) as (H1 & H2 & H3 & H4 & H5). unfold rm_all in *. rewrite H1, H2, H3, H4, H5.
  split_and!; try done. cbn. set_solver.
Qed.

(** The files a failed create deletes. *)
Definition cleaned (c : Creating) : list string :=
  List.filter (λ n, negb (ca_rm a n))
    ((if needsDisk o then [raw_name id] else []) ++ (if needsWorkspace o then [workspace_name id] else []) ++
     (if cr_scratch c then [scratch_name id] else [])).

Lemma clean_disks_facts ok c :
  clean_disks a o ok c = if ok then release_lease a o c else rm_all (cleaned c) (release_lease a o c).
Proof.
  unfold clean_disks, cleaned, rm_quiet. fold id. destruct ok; [done|].
  assert (Hs : cr_scratch (release_lease a o c) = cr_scratch c) by (unfold release_lease; by destruct (cr_lease c)).
  revert Hs. generalize (release_lease a o c). intros c1 Hs.
  destruct (needsDisk o), (needsWorkspace o), (ca_rm a (raw_name id)) eqn:E1, (ca_rm a (workspace_name id)) eqn:E2; cbn; rewrite ?E1, ?E2; cbn;
    rewrite ?Hs; destruct (cr_scratch c), (ca_rm a (scratch_name id)) eqn:E3; cbn; rewrite ?E3; done.
Qed.

Lemma written_rollback ok tail R c : written tail R c → written tail R (rollback_volumes a o ok c).
Proof.
  intros Hw. unfold rollback_volumes, unlock_volumes.
  assert (H1 : written tail R (unlock_volumes c)) by (by apply written_leases, written_svc). destruct ok; [done|]. by apply written_svc.
Qed.

Lemma intent_other : intent ≠ raw_name id ∧ intent ≠ workspace_name id ∧ intent ≠ scratch_name id.
Proof. unfold intent, IntentName, raw_name, workspace_name, scratch_name. split_and!; intros H%string_app_inj_l; done. Qed.

Lemma deferred_facts {A} tail R c (r : result create_error A) :
  fresh_files → written tail R c → settled (is_ok r) tail R (deferred a o (c, r)).1.
Proof.
  intros (F1 & F2 & F3 & F4) Hw. unfold deferred. cbn [fst snd]. apply (written_rollback (is_ok r)) in Hw. set (c1 := rollback_volumes _ _ _ _) in *.
  destruct Hw as [[Hk Hf] Hl (fl & Ht & Hfl) Ho Hr]. rewrite clean_disks_facts.
  assert (Hrel : cr_lease (release_lease a o c1) = false ∧ cr_trace (release_lease a o c1) = cr_trace c1 ++ trail s0 ∧
    sv_fs (cr_svc (release_lease a o c1)) = sv_fs (cr_svc c1) ∧ cr_scratch (release_lease a o c1) = cr_scratch c1 ∧
    d_files (sv_disks (cr_svc (release_lease a o c1))) = if needsIntent o s0 then d_files (sv_disks (cr_svc c1)) ∖ {[intent]} else d_files (sv_disks (cr_svc c1))).
  { unfold release_lease, trail. rewrite Hl. destruct (needsIntent o s0); [done|]. by rewrite app_nil_r. }
  destruct Hrel as (R1 & R2 & R3 & R4 & R5).
  assert (Hin : ∀ n, n ∈ d_files (sv_disks (cr_svc (release_lease a o c1))) → n ∈ F0 ∨
     n = raw_name id ∧ needsDisk o = true ∨ n = workspace_name id ∧ needsWorkspace o = true ∨ n = scratch_name id ∧ cr_scratch c1 = true).
  { intros n. rewrite R5. unfold own_file in Hf. rewrite Hl in Hf. destruct (needsIntent o s0); [rewrite elem_of_difference, elem_of_singleton|];
      [intros [Hn Hne]|intros Hn]; destruct (Hf n Hn) as [?|[[Hi He]|?]]; by auto. }
  assert (Hint : intent ∉ d_files (sv_disks (cr_svc (release_lease a o c1)))).
  { intros H. destruct intent_other as (N1 & N2 & N3). destruct (Hin _ H) as [H'|[[H' _]|[[H' _]|[H' _]]]]; [exact (F1 H')|exact (N1 H')|exact (N2 H')|exact (N3 H')]. }
  assert (Hkept : F0 ⊆ d_files (sv_disks (cr_svc (release_lease a o c1)))).
  { intros n Hn. rewrite R5. destruct (needsIntent o s0); [|exact (Hk n Hn)]. apply elem_of_difference. split; [exact (Hk n Hn)|].
    apply not_elem_of_singleton. intros ->. exact (F1 Hn). }
  destruct (is_ok r).
  - split; rewrite ?R2, ?R3; [exact R1| |exact Ho|exact Hr|exact Hint|exact Hkept|discriminate].
    exists fl. split; [|exact Hfl]. rewrite Ht. by rewrite <- !(assoc_L (++)).
  - destruct (rm_all_facts (cleaned c1) (release_lease a o c1)) as (C1 & C2 & C3 & C4 & _).
    assert (Hcl : ∀ n, n ∈ cleaned c1 → n = raw_name id ∧ needsDisk o = true ∨ n = workspace_name id ∧ needsWorkspace o = true ∨ n = scratch_name id ∧ cr_scratch c1 = true).
    { intros n. unfold cleaned. rewrite list_elem_of_In, List.filter_In, <- list_elem_of_In, !elem_of_app. intros [Hn _].
      destruct (needsDisk o), (needsWorkspace o), (cr_scratch c1); rewrite ?list_elem_of_singleton, ?elem_of_nil in Hn; destruct Hn as [?|[?|?]]; auto; contradiction. }
    split; rewrite ?C1, ?C2, ?C3, ?C4, ?R2, ?R3; [exact R1| |exact Ho|exact Hr| | |].
    + exists fl. split; [|exact Hfl]. rewrite Ht. by rewrite <- !(assoc_L (++)).
    + intros [H _]%elem_of_difference. exact (Hint H).
    + intros n Hn. apply elem_of_difference. split; [exact (Hkept n Hn)|]. rewrite elem_of_list_to_set.
      intros H. destruct (Hcl n H) as [[-> _]|[[-> _]|[-> _]]]; [exact (F2 Hn)|exact (F3 Hn)|exact (F4 Hn)].
    + intros _ Hrm. apply set_eq. intros n. rewrite elem_of_difference, elem_of_list_to_set. split.
      * intros [Hn Hnc]. destruct (Hin n Hn) as [H|Hown]; [exact H|]. destruct Hnc. unfold cleaned. apply list_elem_of_In, List.filter_In.
        rewrite Hrm, <- list_elem_of_In, !elem_of_app. split; [|reflexivity].
        destruct Hown as [[-> ->]|[[-> ->]|[-> ->]]]; rewrite !list_elem_of_singleton; auto.
      * intros Hn. split; [exact (Hkept n Hn)|]. intros H. destruct (Hcl n H) as [[-> _]|[[-> _]|[-> _]]]; [exact (F2 Hn)|exact (F3 Hn)|exact (F4 Hn)].
Qed.
(** The start of the body. *)
Lemma unwritten_start c : intent ∉ F0 → awhen (needsIntent o s0) (write_intent a o) (mkCreating s0 false false [] [] []) = (c, Ok tt) → unwritten c.
Proof.
  intros Hf. unfold awhen, write_intent. fold id intent. destruct (needsIntent o s0) eqn:En.
  - destruct (ca_pub a); try done. intros [= <-]. split; try done.
    + split; [intros n Hn; apply elem_of_union; by right|]. intros n [H|H]%elem_of_union; [right; left; split; [exact (proj1 (elem_of_singleton _ _) H)|done]|by left].
    + exists []. split; [unfold lead; by rewrite En|intros x Hx; by apply elem_of_nil in Hx].
  - unfold mret, act_ret. intros [= <-]. split; try done.
    + split; [done|]. intros n Hn. by left.
    + exists []. split; [unfold lead; by rewrite En|intros x Hx; by apply elem_of_nil in Hx].
Qed.

(** What the whole call leaves, once the intent is published. *)
Definition outcome (c : Creating) (r : result create_error Sandbox) : Prop :=
  ∃ tail R, settled (is_ok r) tail R c ∧ (CeRecord ∈ tail → secrets_bound) ∧
  match r with
  | Ok b => tail = [CeRecord; CeBoot] ∧ lookup_sandbox (sv_fs (cr_svc c)) id = Some (persisted b) ∧ booted_from b
  | Err e =>
      tail ∈ [[]; [CeRecord]; [CeRecord; CeBoot]; [CeRecord; CeBoot; CeStop]] ∧
      (tail = [CeRecord; CeBoot] → ∃ e', e = CrBoot e') ∧
      (healthy (ca_delete a) → lookup_sandbox (sv_fs (cr_svc c)) id = None ∨
         tail = [] ∧ (∃ e', e = CrStore e') ∧ lookup_sandbox (sv_fs (cr_svc c)) id = Some (persisted sb))
  end.

Lemma body_outcome c :
  wf_id id → lookup_sandbox (sv_fs s0) id = None → fresh_files → unwritten c →
  outcome (deferred a o (create_body drv a o project name s0 digest c)).1 (create_body drv a o project name s0 digest c).2.
Proof.
  intros Hid Hnone Hfr Hc. destruct (prepare_facts c (proj2 (proj2 (proj2 Hfr))) Hc) as [Hp Hsec]. rewrite create_body_prepare. fold sb.
  unfold mbind at 1 3. unfold act_bind at 1 3. destruct (prepare c) as [c1 [[]|e]]; cbn [fst snd] in Hp, Hsec.
  2:{ assert (Hw : written [] (λ x, x = None) c1).
      { destruct Hp as [P1 P2 P3 (fl & P4 & P5)]. split; try done; [|by rewrite P2..]. exists fl. by rewrite app_nil_r. }
      exists [], (λ x, x = None). split; [by apply deferred_facts|]. cbn [is_ok snd]. split; [by intros ?%elem_of_nil|]. split; [by left|]. split; [done|].
      intros _. left. exact (st_record _ _ _ _ (deferred_facts (A:=Sandbox) _ _ _ (Err e) Hfr Hw)). }
  specialize (Hsec eq_refl). unfold mbind, act_bind. destruct (commit_record a sb c1) as [c2 r2] eqn:Ec. apply commit_facts in Ec; [|done..].
  destruct r2 as [[]|e].
  2:{ destruct Ec as [Hw He]. eexists [], _. split; [by apply deferred_facts|]. split; [done|]. cbn [snd is_ok]. split; [by left|]. split; [done|].
      intros _. destruct (st_record _ _ _ _ (deferred_facts (A:=Sandbox) _ _ _ (Err e) Hfr Hw)); [by left|right]. by split_and!. }
  destruct (boot_and_seed drv a o c2) as [c3 [b|e]] eqn:Eb; apply boot_and_seed_facts in Eb; try done.
  - destruct Eb as [Hw Hb]. eexists _, _. split; [by apply deferred_facts|]. split; [done|]. cbn [snd]. split; [done|]. split; [|done].
    exact (st_record _ _ _ _ (deferred_facts (A:=Sandbox) _ _ _ (Ok b) Hfr Hw)).
  - destruct Eb as (tail & [Ht Hbe] & Hw). eexists tail, _. split; [by apply deferred_facts|]. split; [done|]. cbn [snd]. split; [by right|]. split; [done|].
    intros Hh. left. exact (st_record _ _ _ _ (deferred_facts (A:=Sandbox) _ _ _ (Err e) Hfr Hw) Hh).
Qed.

End Spec.

(** C7: creating a sandbox.  A call refused before the intent is published changes no record and no file.  Otherwise
    the trace is: the intent leased, then files written, then at most the record, one boot and a stop, and last the
    intent released; the lease is given up and its file is gone; records of other sandboxes are
    untouched; a record is written only if no secret mixes GitHub hosts with others and every GitHub host of a secret is bound
    by a policy.  If the call succeeds the stored record is the returned one, running, with
    the policy that was asked for.  If it fails, then (as far as deleting works) no disk file and no record of the
    sandbox is left, except a record whose own write reported the failure; and a machine that was started has been asked
    to stop, unless the update of the record that started it failed. *)
Lemma CreateAndBoot_spec drv a o project name s c r :
  wf_id (new_id a o) → lookup_sandbox (sv_fs s) (new_id a o) = None → fresh_files a o s →
  CreateAndBoot drv a o project name s = (c, r) →
  (cr_trace c = [] ∧ is_ok r = false ∧ sv_fs (cr_svc c) = sv_fs s ∧ d_files (sv_disks (cr_svc c)) = d_files (sv_disks s)) ∨
  ∃ digest, ca_image a = Ok digest ∧ outcome a o project name s digest c r.
Proof.
  intros Hid Hnone Hfr. unfold CreateAndBoot.
  assert (Hearly : ∀ e, (mkCreating s false false [] [] [], Err e) = (c, r) →
    cr_trace c = [] ∧ is_ok r = false ∧ sv_fs (cr_svc c) = sv_fs s ∧ d_files (sv_disks (cr_svc c)) = d_files (sv_disks s)).
  { intros e Heq. injection Heq as <- <-. split_and!; reflexivity. }
  destruct (ca_image a) as [digest|e]; [|intros Heq; left; exact (Hearly _ Heq)].
  destruct (ResolveByHandle _ _ _) as [sb|[]]; try (intros Heq; left; exact (Hearly _ Heq)).
  destruct ((needsIntent o s || needsScratch o) && ca_diskDir a); [intros Heq; left; exact (Hearly _ Heq)|].
  destruct (negb (o_ForceDiskSpace o) && ca_noSpace a); [intros Heq; left; exact (Hearly _ Heq)|].
  destruct (awhen _ _ _) as [c0 [[]|e]] eqn:Ei.
  - intros Heq. right. exists digest. split; [reflexivity|]. pose proof (unwritten_start a o s c0 (proj1 Hfr) Ei) as Hu.
    pose proof (body_outcome drv a o project name s digest c0 Hid Hnone Hfr Hu) as H.
    unfold deferred in *. cbn [fst] in H. injection Heq as <- <-. exact H.
  - intros [= <- <-]. left. unfold awhen, write_intent in Ei. destruct (needsIntent o s); [|done]. destruct (ca_pub a); [done|by injection Ei as <- <-|].
    injection Ei as <- <-. split_and!; try done. cbn. destruct Hfr as [Hf _]. apply set_eq. intros n. rewrite elem_of_difference, elem_of_singleton.
    split; [by intros [? _]|]. intros Hn. split; [done|]. intros ->. exact (Hf Hn).
Qed.

(** ** The scratch disk *)

Definition live_rootfs : CreateAndBootOptions :=
  mkCreateAndBootOptions "/images/dev.ext4" None [mkLiveMount "/home/me/app" "/workspace" false false] [] false false None
    ∅ [] "" [] [] [] false "" [] ∅ false "" false "" [].

Definition calm_create : CreateAnswers :=
  mkCreateAnswers (Ok ""%string) io_none id_A (λ _, Some "main"%string) false false PubOk (λ _, io_none) (λ _, no_fails) (λ _, leaseFree)
    (λ _, io_none) 0 0 9 WroteAll WroteAll ScOk false io_none io_none (Ok "i-1"%string) None (Some true) (λ b, (b, true)) true true
    io_none no_fails (λ _, false).

Definition empty_service : Service := mkService ∅ None None ∅ ∅ (mkDir ∅ ∅) ∅ [].

(** A sandbox booted from a rootfs file with a live workspace gets a scratch disk, and no intent: nothing covers the disk
    until the record is there. *)
Lemma scratch_disk_without_lease :
  cr_trace (CreateAndBoot plain_driver calm_create live_rootfs "p" "a" empty_service).1 = [CeFile (scratch_name id_A); CeRecord; CeBoot].
Proof. by vm_compute. Qed.

(** The disk is full when the booted record is to be written. *)
Definition unwritable_create : CreateAnswers :=
  mkCreateAnswers (Ok ""%string) io_none id_A (λ _, Some "main"%string) false false PubOk (λ _, io_none) (λ _, no_fails) (λ _, leaseFree)
    (λ _, io_none) 0 0 9 WroteAll WroteAll ScOk false io_none
    (mkIO false false false false false false false (λ _, false) (λ _, true) false None)
    (Ok "i-1"%string) None (Some true) (λ b, (b, true)) true true io_none no_fails (λ _, false).

(** When the record of a machine that has just been started cannot be written the call fails, the record is deleted, and
    nobody stops the machine. *)
Lemma unwritten_boot_keeps_machine :
  let res := CreateAndBoot plain_driver unwritable_create live_rootfs "p" "a" empty_service in
  is_ok res.2 = false ∧ cr_trace res.1 = [CeFile (scratch_name id_A); CeRecord; CeBoot] ∧ lookup_sandbox (sv_fs (cr_svc res.1)) id_A = None.
Proof. split_and!; vm_compute; reflexivity. Qed.

(** An image and a captured workspace. *)
Definition captured_workspace : CreateAndBootOptions :=
  mkCreateAndBootOptions "" (Some ("/home/me/app", "/workspace")%string) [] [] false false None
    ∅ ["github.com"%string] "" [mkSecretBind "GH_TOKEN" ["github.com"%string] "t"] [] [] false "o/r" [] ∅ false "" false "" [].

Lemma CreateAndBoot_spec_witness :
  ∃ b, (CreateAndBoot plain_driver calm_create captured_workspace "p" "a" empty_service).2 = Ok b ∧
    lookup_sandbox (sv_fs (cr_svc (CreateAndBoot plain_driver calm_create captured_workspace "p" "a" empty_service).1)) id_A = Some (persisted b) ∧
    ResolvedAllowedBranches (SEnvelope b) = ["refs/heads/main"%string].
Proof.
  assert (Hok : is_ok (CreateAndBoot plain_driver calm_create captured_workspace "p" "a" empty_service).2 = true) by (vm_compute; reflexivity).
  destruct (CreateAndBoot_spec plain_driver calm_create captured_workspace "p" "a" empty_service
    (CreateAndBoot plain_driver calm_create captured_workspace "p" "a" empty_service).1
    (CreateAndBoot plain_driver calm_create captured_workspace "p" "a" empty_service).2 eq_refl eq_refl) as [(_ & Hr & _)|(digest & _ & tail & R & _ & _ & H)].
  - split_and!; apply not_elem_of_empty.
  - apply surjective_pairing.
  - rewrite Hok in Hr. discriminate Hr.
  - destruct (CreateAndBoot plain_driver calm_create captured_workspace "p" "a" empty_service).2 as [b|e]; [|discriminate Hok].
    destruct H as (_ & Hlk & Hb). exists b. split; [reflexivity|]. split; [exact Hlk|]. destruct Hb as (_ & _ & _ & -> & _). reflexivity.
Defined.

(** ** Secrets survive the record *)

(** No blank at either end. *)
Definition trimmed (l : bytes) : Prop :=
  (∀ c r, l = c :: r → is_space c = false) ∧ ∀ r c, l = r ++ [c] → is_space c = false.

Lemma drop_while_spec f l : (∃ p, l = p ++ drop_while f l) ∧ ∀ c r, drop_while f l = c :: r → f c = false.
Proof.
  induction l as [|c l [[p IH1] IH2]]; cbn; [split; [by exists []|done]|]. destruct (f c) eqn:E.
  - split; [exists (c :: p); cbn; by rewrite <- IH1|done].
  - split; [by exists []|]. by intros x r [= <- _].
Qed.

Lemma drop_while_id f c l : f c = false → drop_while f (c :: l) = c :: l.
Proof. cbn. by intros ->. Qed.

Lemma TrimSpace_trimmed s : trimmed (chars (TrimSpace s)).
Proof.
  unfold TrimSpace, drop_end_while. rewrite chars_of_chars. set (l := drop_while is_space (chars s)).
  destruct (drop_while_spec is_space (chars s)) as [_ Hh]. fold l in Hh.
  destruct (drop_while_spec is_space (reverse l)) as [[p Hp] Ht]. set (t := drop_while is_space (reverse l)) in *.
  assert (Hl : l = reverse t ++ reverse p) by (rewrite <- (reverse_involutive l), Hp; by rewrite reverse_app). split.
  - intros c r Hc. apply (Hh c (r ++ reverse p)). by rewrite Hl, Hc.
  - intros r c Hc. apply (Ht c (reverse r)). rewrite <- (reverse_involutive t), Hc. by rewrite reverse_snoc.
Qed.

Lemma TrimSpace_id s : trimmed (chars s) → TrimSpace s = s.
Proof.
  intros [H1 H2]. unfold TrimSpace, drop_end_while. apply chars_inj. rewrite chars_of_chars. destruct (chars s) as [|c l] eqn:E; [done|].
  rewrite drop_while_id by (by eapply H1). destruct (reverse (c :: l)) as [|x r] eqn:Er.
  - apply (f_equal reverse) in Er. by rewrite reverse_involutive in Er.
  - assert (Hl : c :: l = reverse r ++ [x]) by (rewrite <- (reverse_involutive (c :: l)), Er; by rewrite reverse_cons).
    rewrite drop_while_id by (by eapply H2). by rewrite <- Er, reverse_involutive.
Qed.

Lemma trimmed_app a m b : a ≠ [] → b ≠ [] → trimmed a → trimmed b → trimmed (a ++ m ++ b).
Proof.
  intros Ha Hb [A1 _] [_ B2]. split.
  - destruct a as [|c a]; [done|]. intros x r [= <- _]. by eapply A1.
  - destruct (exists_last Hb) as (b' & c & ->). intros r x. rewrite !(assoc_L (++)). intros [_ <-]%app_inj_tail. by eapply B2.
Qed.

Lemma ToLower_trimmed s : trimmed (chars s) → trimmed (chars (ToLower s)).
Proof.
  intros [H1 H2]. unfold ToLower. rewrite chars_of_chars. split.
  - intros c r. destruct (chars s) as [|x l]; [done|]. intros [= <- _]. rewrite is_space_lower. by eapply H1.
  - intros r c. destruct (chars s) as [|x l] eqn:E using rev_ind; [by destruct r|]. rewrite fmap_app. intros [_ <-]%app_inj_tail. rewrite is_space_lower. by eapply H2.
Qed.

(** A host as [ParseSecretSpec] leaves it. *)
Definition plain_host (h : string) : Prop :=
  h ≠ ""%string ∧ ","%char ∉ chars h ∧ trimmed (chars h) ∧ ToLower h = h.

Definition plain_bind (b : SecretBind) : Prop :=
  sb_Env b ≠ ""%string ∧ sb_Hosts b ≠ [] ∧ trimmed (chars (sb_Env b)) ∧ existsb env_char_bad (chars (sb_Env b)) = false ∧
  "@"%char ∉ chars (sb_Env b) ∧ Forall plain_host (sb_Hosts b) ∧ sb_Token b = ""%string.

Lemma chars_join_comma hosts : chars (join_comma hosts) = join_bytes "," (chars <$> hosts).
Proof.
  induction hosts as [|h [|h2 l] IH]; [done..|].
  change (join_comma (h :: h2 :: l)) with (h +:+ "," +:+ join_comma (h2 :: l))%string. by rewrite !chars_app, IH.
Qed.

Lemma split_join_comma hosts n :
  hosts ≠ [] → Forall (λ h, ","%char ∉ chars h) hosts → (length hosts ≤ n)%nat →
  split_n n "," (chars (join_comma hosts)) = chars <$> hosts.
Proof.
  intros Hne Hall Hn. rewrite chars_join_comma. apply split_n_join.
  - by apply Forall_fmap.
  - by destruct hosts.
  - by rewrite length_fmap.
Qed.

Lemma join_length hosts : hosts ≠ [] → (length hosts ≤ S (length (chars (join_comma hosts))))%nat.
Proof.
  induction hosts as [|h [|h2 l] IH]; intros Hne; [done|cbn; lia|]. change (join_comma (h :: h2 :: l)) with (h +:+ "," +:+ join_comma (h2 :: l)).
  rewrite !chars_app, !length_app. specialize (IH ltac:(done)). cbn [length chars String.list_ascii_of_string] in *. lia.
Qed.

Lemma join_edges hosts : hosts ≠ [] → Forall plain_host hosts → chars (join_comma hosts) ≠ [] ∧ trimmed (chars (join_comma hosts)).
Proof.
  assert (Hch : ∀ h, h ≠ ""%string → chars h ≠ []) by (intros h Hh Hc; apply Hh, chars_inj; by rewrite Hc).
  induction hosts as [|h [|h2 l] IH]; intros Hne Hall; [done| |].
  - apply Forall_cons in Hall as [(? & _ & ? & _) _]. split; [by apply Hch|done].
  - apply Forall_cons in Hall as [(Hh & _ & Ht & _) Hall]. destruct (IH ltac:(done) Hall) as [Hn Htr].
    change (join_comma (h :: h2 :: l)) with (h +:+ "," +:+ join_comma (h2 :: l)). rewrite !chars_app. split; [by apply Hch in Hh; destruct (chars h)|].
    apply trimmed_app; try done. by apply Hch.
Qed.

Lemma parse_hosts_plain hosts : Forall plain_host hosts → parse_hosts hosts = Ok hosts.
Proof.
  induction 1 as [|h l (Hh & _ & Ht & Hl) _ IH]; [done|]. cbn. rewrite TrimSpace_id by done. rewrite Hl. destruct (String.eqb_spec h ""); [done|]. by rewrite IH.
Qed.

Definition spec_of (b : SecretBind) : string := sb_Env b +:+ "@" +:+ join_comma (sb_Hosts b).

Lemma parse_spec_of b : plain_bind b → ParseSecretSpec (spec_of b) = Ok b.
Proof.
  intros (He & Hh & Ht & Hbad & Hat & Hall & Htok). destruct (join_edges _ Hh Hall) as [Hjn Hjt].
  assert (Hen : chars (sb_Env b) ≠ []) by (intros Hc; apply He, chars_inj; by rewrite Hc).
  assert (Hch : chars (spec_of b) = chars (sb_Env b) ++ "@"%char :: chars (join_comma (sb_Hosts b))) by (unfold spec_of; by rewrite !chars_app).
  unfold ParseSecretSpec. rewrite TrimSpace_id.
  2:{ rewrite Hch. change ("@"%char :: ?x) with (["@"%char] ++ x). by apply trimmed_app. }
  cbv zeta. destruct (String.eqb_spec (spec_of b) "") as [Heq|_]; [rewrite Heq in Hch; by destruct (chars (sb_Env b))|].
  unfold Cut. rewrite Hch, break_at_app by done. cbn [fmap option_fmap option_map fst snd]. rewrite !of_chars_chars.
  destruct (String.eqb_spec (sb_Env b) ""); [done|]. destruct (String.eqb_spec (join_comma (sb_Hosts b)) "") as [Hj|_]; [by rewrite Hj in Hjn|]. cbn [orb].
  rewrite TrimSpace_id by done. rewrite Hbad. unfold Split, SplitN. rewrite split_join_comma; [|done| |pose proof (join_length _ Hh); lia].
  2:{ eapply Forall_impl; [exact Hall|]. by intros h (_ & ? & _). }
  rewrite <- list_fmap_compose. rewrite (list_fmap_ext _ id) by (intros ? x ?; apply of_chars_chars). rewrite list_fmap_id, parse_hosts_plain by done.
  cbn. destruct b as [e h t]. cbn in *. by rewrite Htok.
Qed.

(** What a successful parse gives. *)
Lemma TrimSpace_sub s c : c ∈ chars (TrimSpace s) → c ∈ chars s.
Proof.
  unfold TrimSpace, drop_end_while. rewrite chars_of_chars, reverse_Permutation. intros H.
  destruct (drop_while_spec is_space (chars s)) as [[p Hp] _]. destruct (drop_while_spec is_space (reverse (drop_while is_space (chars s)))) as [[q Hq] _].
  rewrite Hp. apply elem_of_app. right. rewrite <- reverse_Permutation, Hq. apply elem_of_app. by right.
Qed.

Lemma split_n_no_sep c n l x : (length l < n)%nat → x ∈ split_n n c l → c ∉ x.
Proof.
  revert l. induction n as [|n IH]; intros l Hn; [lia|]. cbn [split_n]. destruct n as [|n].
  - destruct l; [|cbn in Hn; lia]. intros ->%list_elem_of_singleton. set_solver.
  - destruct (break_at c l) as [[u v]|] eqn:E.
    + apply break_at_Some in E as [-> Hu]. intros [->|Hx]%elem_of_cons; [done|]. apply (IH v); [|done]. rewrite length_app in Hn. cbn in Hn. lia.
    + intros ->%list_elem_of_singleton. by apply break_at_None.
Qed.

Lemma parse_hosts_inv l hs : parse_hosts l = Ok hs → Forall (λ h, ","%char ∉ chars h) l → Forall plain_host hs ∧ length hs = length l.
Proof.
  revert hs. induction l as [|h l IH]; intros hs; cbn; [by intros [= <-]|]. destruct (String.eqb_spec (ToLower (TrimSpace h)) "") as [|Hne]; [done|].
  destruct (parse_hosts l) as [rest|]; cbn; [|done]. intros [= <-] [Hh Hall]%Forall_cons. destruct (IH rest eq_refl Hall) as [H1 H2]. split; [|cbn; lia].
  constructor; [|done]. split; [done|]. split; [|split; [apply ToLower_trimmed, TrimSpace_trimmed|apply ToLower_idemp]].
  unfold ToLower. rewrite chars_of_chars. intros (x & Hx & Hin)%list_elem_of_fmap. apply Hh, TrimSpace_sub.
  assert (x = ","%char) as -> by (destruct x as [[] [] [] [] [] [] [] []]; by vm_compute in Hx). done.
Qed.

Lemma ParseSecretSpec_plain spec b : ParseSecretSpec spec = Ok b → plain_bind b.
Proof.
  unfold ParseSecretSpec. cbv zeta. set (s := TrimSpace spec). assert (Hs : trimmed (chars s)) by apply TrimSpace_trimmed. clearbody s.
  destruct (String.eqb s ""); [done|]. unfold Cut. destruct (break_at "@" (chars s)) as [[u v]|] eqn:E; [|done]. cbn [fmap option_fmap option_map fst snd].
  apply break_at_Some in E as [Heq Hu]. destruct (String.eqb_spec (of_chars u) "") as [|Hune]; [done|]. destruct (String.eqb_spec (of_chars v) "") as [|Hvne]; [done|]. cbn [orb].
  destruct (existsb env_char_bad _) eqn:Eb; [done|]. destruct (parse_hosts (Split (of_chars v) ",")) as [hosts|] eqn:Eh; [|done]. cbn. intros [= <-].
  destruct u as [|c u]; [done|]. assert (Hc : is_space c = false) by (eapply (proj1 Hs); by rewrite Heq).
  assert (Hsplit : Forall (λ h, ","%char ∉ chars h) (Split (of_chars v) ",") ∧ Split (of_chars v) "," ≠ []).
  { unfold Split, SplitN. rewrite chars_of_chars. split.
    - apply Forall_forall. intros h (x & -> & Hx)%list_elem_of_fmap. rewrite chars_of_chars. eapply split_n_no_sep; [|exact Hx]. lia.
    - cbn [split_n]. destruct (break_at "," v) as [[? ?]|]; done. }
  destruct (parse_hosts_inv _ _ Eh (proj1 Hsplit)) as [Hall Hlen]. unfold plain_bind. cbn [sb_Env sb_Hosts sb_Token]. split_and!; try done.
  - intros H. apply (f_equal chars) in H. unfold TrimSpace, drop_end_while in H. rewrite !chars_of_chars, drop_while_id in H by done.
    apply (f_equal reverse) in H. rewrite reverse_involutive in H.
    assert (Hd : ∀ l, c ∈ l → drop_while is_space l ≠ []) by (induction l as [|x l IH]; [by intros ?%elem_of_nil|]; intros [->|Hl]%elem_of_cons; cbn; [by rewrite Hc|]; destruct (is_space x); [by apply IH|done]).
    eapply Hd; [|exact H]. rewrite reverse_Permutation. by left.
  - destruct hosts; [|done]. destruct Hsplit as [_ Hn]. by destruct (Split (of_chars v) ",").
  - apply TrimSpace_trimmed.
  - intros H%TrimSpace_sub. rewrite chars_of_chars in H. done.
Qed.

Lemma add_host_elem out hs h :
  h ∈ fold_left (λ out h, let h := ToLower (TrimSpace h) in if String.eqb h "" || bool_decide (h ∈ out) then out else out ++ [h]) hs out →
  h ∈ out ∨ ∃ x, x ∈ hs ∧ h = ToLower (TrimSpace x).
Proof.
  revert out. induction hs as [|x hs IH]; intros out; cbn [fold_left]; [by left|]. intros [Hin|(y & ? & ?)]%IH; [|right; exists y; split; [by right|done]].
  cbv zeta in Hin. destruct (_ || _); [by left|]. apply elem_of_app in Hin as [?|Hin]; [by left|]. apply list_elem_of_singleton in Hin as ->. right. exists x. split; [by left|done].
Qed.

(** the secrets written into a record are the ones that were asked for.  For binds that come from specifications, with
    whatever tokens, reading the recorded specifications back gives the same names and hosts, one for one
    and without the tokens, and every recorded secret host is a host of one of the binds. *)
Lemma secret_specs_roundtrip binds :
  Forall (λ b, ∃ spec, ParseSecretSpec spec = Ok (set_Token "" b)) binds →
  Forall2 (λ spec b, ParseSecretSpec spec = Ok (set_Token "" b)) (secretSpecsFromBinds binds) binds ∧
  ∀ h, h ∈ secretHostsFromBinds binds → ∃ b, b ∈ binds ∧ h ∈ sb_Hosts b.
Proof.
  intros Hall. assert (Hp : Forall (λ b, plain_bind (set_Token "" b)) binds)
    by (eapply Forall_impl; [exact Hall|]; intros b [spec H]; by eapply ParseSecretSpec_plain). clear Hall. split.
  - induction Hp as [|b l Hb _ IH]; [constructor|]. unfold secretSpecsFromBinds in *. cbn [omap list_omap].
    destruct Hb as (He & Hh & Hb). cbn in He, Hh. destruct (String.eqb_spec (sb_Env b) ""); [done|]. rewrite bool_decide_false by done. cbn [orb].
    constructor; [|done]. by apply (parse_spec_of (set_Token "" b)).
  - intros h [?%elem_of_nil|(x & Hx & ->)]%add_host_elem; [done|]. apply list_elem_of_In, in_concat in Hx as (hs & Hhs & Hx).
    apply list_elem_of_In, list_elem_of_fmap in Hhs as (b & -> & Hb). exists b. split; [done|]. apply list_elem_of_In in Hx.
    pose proof (proj1 (Forall_forall _ _) Hp b Hb) as (_ & _ & _ & _ & _ & Hhosts & _). cbn in Hhosts.
    pose proof (proj1 (Forall_forall _ _) Hhosts x Hx) as (_ & _ & Ht & Hl). by rewrite TrimSpace_id, Hl.
Qed.

Lemma secret_specs_roundtrip_witness :
  Forall2 (λ spec b, ParseSecretSpec spec = Ok (set_Token "" b))
    (secretSpecsFromBinds [mkSecretBind "GH_TOKEN" ["github.com"; "api.github.com"]%string "t"]) [mkSecretBind "GH_TOKEN" ["github.com"; "api.github.com"]%string "t"].
Proof.
  apply secret_specs_roundtrip. constructor; [|constructor]. exists " GH_TOKEN@GitHub.com, api.github.com"%string. vm_compute. reflexivity.
Defined.
