(* ===== verification/ServiceSteps.v ===== *)
(** * internal/core/service: every method that writes records

    The methods of [supervisor.go], which assign the fields of a record that say who serves the sandbox, and the calls of
    all methods of the service as one step relation: those of Service, the fork and the restore of Fork, and these.
    [CreateAndBoot], a function of its own, is in CreateBoot. *)

From stdpp Require Import prelude countable gmap strings list.
From Stdlib Require Import ZArith Lia.
From S2P Require Import Prelude GoStrings Domain Lifecycle Sandbox Store Volumes VolumeGuard Service Fork.

(** ** supervisor.go *)

Definition set_CacheDiskSlot (v : string) (s : Sandbox) : Sandbox :=
  let 'mkSandbox id nm pj lb st env iid roe rm sr pv spid ssock ncpid ncpg tap chs ncst ncs nct _
    cpid br mv lm an ean := s in
  mkSandbox id nm pj lb st env iid roe rm sr pv spid ssock ncpid ncpg tap chs ncst ncs nct v cpid
    br mv lm an ean.

Inductive assign_error := AsIncomplete | AsStore (e : store_error cb_error).

(** [store.Update] with a callback that only assigns. *)
Definition assign (io : IO) (id : SandboxID) (f : Sandbox → Sandbox) (s : Service) : Service * result assign_error unit :=
  let '(fs, _, res) := Update io id (λ sb, (tt, Ok (f sb))) (sv_fs s) in
  (set_fs fs s, match res with Ok _ => Ok tt | Err e => Err (AsStore e) end).

Definition SetSupervisor (io : IO) (id : SandboxID) (pid : Z) (sock : string) : Service → Service * result assign_error unit :=
  assign io id (λ sb, set_SupervisorSock sock (set_SupervisorPID pid sb)).

Definition SetCacheDiskSlot (io : IO) (id : SandboxID) (slots : string) : Service → Service * result assign_error unit :=
  assign io id (set_CacheDiskSlot slots).

Definition ClearSupervisor (io : IO) (id : SandboxID) : Service → Service * result assign_error unit :=
  assign io id (λ sb, set_SupervisorSock "" (set_SupervisorPID 0 sb)).

Definition SetNetnsIdentity (io : IO) (id : SandboxID) (pid pgid startTime : Z) (guestTap apiSocket : string) (s : Service)
    : Service * result assign_error unit :=
  if (pid <=? 0) || (pgid <=? 0) || (startTime =? 0) || String.eqb guestTap "" || String.eqb apiSocket ""
  then (s, Err AsIncomplete)
  else assign io id (λ sb, set_CHAPISocket apiSocket (set_GuestTapName guestTap (set_NetnsChildStartTime startTime
         (set_NetnsChildPGID pgid (set_NetnsChildPID pid sb))))) s.

(** ** All methods *)

(** A call of a method, whatever it is given and whatever fails; new identifiers are well formed, and a fork mints them
    once. *)
Inductive service_step (s : Service) : Service → Prop :=
| ss_method s' : svc_step s s' → service_step s s'
| ss_Fork drv fa ref count : fair fa count → service_step s (fk_svc (Fork drv fa ref count s).1)
| ss_RestoreFromSnapshot drv arts fa snapID count :
    fair fa count → service_step s (fk_svc (RestoreFromSnapshot drv arts fa snapID count s).1)
| ss_SetSupervisor io id pid sock : wf_id id → service_step s (SetSupervisor io id pid sock s).1
| ss_SetCacheDiskSlot io id slots : wf_id id → service_step s (SetCacheDiskSlot io id slots s).1
| ss_ClearSupervisor io id : wf_id id → service_step s (ClearSupervisor io id s).1
| ss_SetNetnsIdentity io id pid pgid startTime guestTap apiSocket :
    wf_id id → service_step s (SetNetnsIdentity io id pid pgid startTime guestTap apiSocket s).1.

(** A record that appears: a fresh one of [Create], or a child of a stored parent. *)
Definition new_record_of (s : Service) (sb : Sandbox) : Prop :=
  fresh_record sb ∨
  ∃ parent snapID, lookup_sandbox (sv_fs s) (ID parent) = Some parent ∧ child_of parent snapID (ID sb) sb.

(** ** The assigning methods *)

Definition assigns (f : Sandbox → Sandbox) : Prop := ∀ sb, evolves sb (f sb) ∧ SState (f sb) = SState sb.

Lemma assign_facts P io id f s :
  wf_id id → assigns f → svc_wf s → svc_wf (assign io id f s).1 ∧ fs_evolves P (sv_fs s) (sv_fs (assign io id f s).1).
Proof.
  intros Hid Hf [Hst Hv]. unfold assign.
  assert (Hcb : ∀ sb sb' : Sandbox, (tt, Ok (E:=cb_error) (f sb)).2 = Ok sb' → evolves sb sb').
  { intros sb sb' [= <-]. apply Hf. }
  pose proof (Update_evolves P io id (λ sb, (tt, Ok (E:=cb_error) (f sb))) (sv_fs s) Hid Hcb) as He.
  pose proof (Update_store_wf io id (λ sb, (tt, Ok (E:=cb_error) (f sb))) (sv_fs s)) as Hw.
  destruct (Update io id _ (sv_fs s)) as [[fs out] res]. cbn in *. split; [|done]. split; [|done].
  apply Hw; [done| |done]. intros sb sb' [= <-]. by destruct (proj1 (Hf sb)).
Qed.

Lemma assigns_netns pid pgid st tap api :
  assigns (λ sb, set_CHAPISocket api (set_GuestTapName tap (set_NetnsChildStartTime st (set_NetnsChildPGID pgid (set_NetnsChildPID pid sb))))).
Proof. intros []. split; [by constructor; auto|done]. Qed.

Lemma assigns_supervisor pid sock : assigns (λ sb, set_SupervisorSock sock (set_SupervisorPID pid sb)).
Proof. intros []. split; [by constructor; auto|done]. Qed.

Lemma assigns_slot slots : assigns (set_CacheDiskSlot slots).
Proof. intros []. split; [by constructor; auto|done]. Qed.

(** ** Forks *)

Lemma forked_facts gates fa count snapID s k r :
  forked gates fa count snapID s k r → svc_wf s → svc_wf (fk_svc k) ∧ fs_evolves (new_record_of s) (sv_fs s) (sv_fs (fk_svc k)).
Proof.
  intros [(_ & _ & Hf & Hv & _)|(parent & snap & Hid & Hlk & _ & _ & _ & [_ Hrec _ Hvol Hwf _])] [Hs Hvi].
  - split; [split; [by rewrite Hf|intros v; rewrite Hv; apply Hvi]|]. rewrite Hf. apply fs_evolves_refl.
  - split; [split; [by apply Hwf|intros v; rewrite Hvol; apply Hvi]|]. intros id Hwid.
    destruct (Hrec id Hwid) as [->|(_ & -> & c & -> & Hc)].
    + destruct (lookup_sandbox (sv_fs s) id); [apply evolves_refl|done].
    + right. exists parent, (snapID snap). split; [done|]. destruct Hc as [Hi Hc]. by rewrite Hi.
Qed.

Lemma service_step_facts s s' : service_step s s' → svc_wf s → svc_wf s' ∧ fs_evolves (new_record_of s) (sv_fs s) (sv_fs s').
Proof.
  intros Hs Hwf. destruct Hs as [s' Hs|drv fa ref count Hf|drv arts fa snapID count Hf|io id pid sock Hid|io id slots Hid|io id Hid|io id pid pgid st tap api Hid].
  - destruct (svc_step_facts s s' Hs Hwf) as [H1 H2]. split; [done|]. intros id Hid. specialize (H2 id Hid).
    destruct (lookup_sandbox (sv_fs s) id), (lookup_sandbox (sv_fs s') id); try done. by left.
  - destruct (Fork drv fa ref count s) as [k r] eqn:E. eapply forked_facts; [by eapply Fork_forked; [apply Hwf|..]|done].
  - destruct (RestoreFromSnapshot drv arts fa snapID count s) as [k r] eqn:E. eapply forked_facts; [by eapply Restore_forked; [apply Hwf|..]|done].
  - by apply assign_facts; [|apply assigns_supervisor|].
  - by apply assign_facts; [|apply assigns_slot|].
  - by apply assign_facts; [|apply assigns_supervisor|].
  - unfold SetNetnsIdentity. destruct (_ || _); [split; [done|apply fs_evolves_refl]|]. by apply assign_facts; [|apply assigns_netns|].
Qed.

(** C31: what no method of the service does, whatever it is given and whatever fails: it keeps the store and the volumes
    well formed; it never changes the identity, the labels, the frozen envelope, the provenance, the volumes or the mounts
    of an existing record, never takes a removal marker back, and moves the state only along an edge of the lifecycle;
    and a record that appears is a fresh one in state created, with the empty envelope, or a running child of a stored
    parent, without its secrets. *)
Lemma service_respects_lifecycle s s' :
  service_step s s' → svc_wf s →
  svc_wf s' ∧
  ∀ id, wf_id id →
  match lookup_sandbox (sv_fs s) id, lookup_sandbox (sv_fs s') id with
  | Some sb, Some sb' => evolves sb sb'
  | None, Some sb' => new_record_of s sb'
  | _, None => True
  end.
Proof. intros Hs Hwf. by apply service_step_facts. Qed.

Lemma service_respects_lifecycle_witness :
  svc_wf (Stop calm (SandboxID_String id_A) (SetSupervisor io_none id_A 4242 "/run/sup.sock" (Start plain_driver calm (SandboxID_String id_A) shared_service).1).1).1.
Proof.
  destruct (service_respects_lifecycle _ _ (ss_method _ _ (sst_Start plain_driver calm (SandboxID_String id_A) shared_service))
    shared_service_wf) as [H1 _].
  destruct (service_respects_lifecycle _ _ (ss_SetSupervisor _ io_none id_A 4242 "/run/sup.sock" ltac:(reflexivity)) H1) as [H2 _].
  destruct (service_respects_lifecycle _ _ (ss_method _ _ (sst_Stop calm (SandboxID_String id_A) _)) H2) as [H3 _].
  exact H3.
Defined.
