(* ===== verification/Netns.v ===== *)
(** * internal/core/driver/cloudhypervisor/ch_netns.go, ch_netns_control.go, ch_net.go: the process that hosts a VM

    The netns child outlives the supervisor that started it.  A replacement identifies it by pid and start time
    ([ReadProcStat], [AdoptNetnsRuntime], and [BackfillNetnsIdentity] of supervisor/netns_backfill.go), obtains a
    fresh perimeter from it over an authenticated control socket ([handle], [ReacquirePerimeter]), and the child's frame pump
    goes on over the new connection ([swappableConn], [tapPump]).

    Files under /proc, the kernel's peer credentials and failing calls are arguments; descriptors are numbers.  A JSON
    message is what it decodes to. *)

From stdpp Require Import prelude gmap strings list relations.
From Stdlib Require Import ZArith Ascii Lia.
From S2P Require Import Prelude GoStrings GoIO GoNet Domain Sandbox Reap.

(** ** /proc/<pid>/stat *)

Record ProcStat := mkProcStat { ps_PPID : Z; ps_PGID : Z; ps_StartTime : Z }.

Inductive stat_error := ErrReadStat | ErrNoParen | ErrTooFewFields | ErrPPID | ErrPGID | ErrStartTime.

(** [strconv.ParseUint(s, 10, 64)]: digits only. *)
Definition ParseUint (s : string) : result num_error Z :=
  match chars s with
  | [] => Err ErrSyntax
  | l => match digits_val l 0 with
         | None => Err ErrSyntax
         | Some v => if v <? 2 ^ 64 then Ok v else Err ErrRange
         end
  end.

Definition parse_fields (fields : list bytes) : result stat_error ProcStat :=
  match fields !! 1%nat, fields !! 2%nat, fields !! 19%nat with
  | Some ppid, Some pgid, Some st =>
      match ParseInt (of_chars ppid) with
      | Err _ => Err ErrPPID
      | Ok ppid =>
          match ParseInt (of_chars pgid) with
          | Err _ => Err ErrPGID
          | Ok pgid =>
              match ParseUint (of_chars st) with
              | Err _ => Err ErrStartTime
              | Ok st => Ok (mkProcStat ppid pgid st)
              end
          end
      end
  | _, _, _ => Err ErrTooFewFields
  end.

Definition ReadProcStat (f : file_read) : result stat_error ProcStat :=
  match f with
  | FileData s =>
      match break_last ")" (chars (TrimRightByte s "010")) with
      | None => Err ErrNoParen
      | Some (_, rest) => parse_fields (fields_loop rest [])
      end
  | _ => Err ErrReadStat
  end.

Definition readProcStartTime (f : file_read) : result stat_error Z :=
  match ReadProcStat f with Ok st => Ok (ps_StartTime st) | Err e => Err e end.

(** *** What the kernel writes *)

Definition is_word (w : bytes) : Prop := w ≠ [] ∧ Forall (λ c, is_space c = false ∧ c ≠ ")"%char) w.

Fixpoint spaced (ws : list bytes) : bytes :=
  match ws with [] => [] | w :: ws => " "%char :: w ++ spaced ws end.

(** The pid, the command's name in parentheses, whatever it contains, and the remaining fields. *)
Definition stat_line (pid : string) (comm : string) (ws : list bytes) : string :=
  pid +:+ " (" +:+ comm +:+ ")" +:+ of_chars (spaced ws) +:+ of_chars ["010"%char].

(** ** Adopting a runtime this process did not start *)

(** [rt_own]: whether this process forked the child ([cmd] is not nil). *)
Record NetnsRuntime := mkRuntime {
  rt_PerimConn : Z;
  rt_APISocket : string;
  rt_GuestTap : string;
  rt_ChildPID : Z;
  rt_ChildPGID : Z;
  rt_ChildStartTime : Z;
  rt_ControlSocket : string;
  rt_ControlToken : string;
  rt_own : bool;
}.

Inductive adopt_error :=
| AdNoPerimFile | AdBadPID | AdBadPGID | AdNoAPISocket | AdNoGuestTap | AdNoStartTime
| AdGone | AdRecycled | AdFileConn | AdRegistered.

(** [stat] is the file of [childPID]; [conn] the connection [net.FileConn] makes of the descriptor, if it can. *)
Definition AdoptNetnsRuntime (stat : file_read) (conn : option Z) (childPID childPGID childStartTime : Z)
    (guestTap apiSocket : string) (perimFile : option Z) : result adopt_error NetnsRuntime :=
  match perimFile with
  | None => Err AdNoPerimFile
  | Some _ =>
      if childPID <=? 0 then Err AdBadPID
      else if childPGID <=? 0 then Err AdBadPGID
      else if String.eqb apiSocket "" then Err AdNoAPISocket
      else if String.eqb guestTap "" then Err AdNoGuestTap
      else if childStartTime =? 0 then Err AdNoStartTime
      else match readProcStartTime stat with
      | Err _ => Err AdGone
      | Ok currentST =>
          if negb (currentST =? childStartTime) then Err AdRecycled
          else match conn with
               | None => Err AdFileConn
               | Some perimConn =>
                   Ok (mkRuntime perimConn apiSocket guestTap childPID childPGID childStartTime "" "" false)
               end
      end
  end.

(** The driver's table of runtimes. *)
Record netState := mkNetState { nt_rt : NetnsRuntime; nt_perimConn : Z; nt_claimed : bool }.

Definition AdoptRuntime (id : SandboxID) (rt : NetnsRuntime) (nets : gmap SandboxID netState)
    : gmap SandboxID netState * result adopt_error unit :=
  match nets !! id with
  | Some _ => (nets, Err AdRegistered)
  | None => (<[id := mkNetState rt (rt_PerimConn rt) false]> nets, Ok tt)
  end.

(** [None]: not started, or transferred before. *)
Definition GuestNetworkFD (id : SandboxID) (nets : gmap SandboxID netState) : gmap SandboxID netState * option Z :=
  match nets !! id with
  | Some ns =>
      if nt_claimed ns then (nets, None)
      else (<[id := mkNetState (nt_rt ns) (nt_perimConn ns) true]> nets, Some (nt_perimConn ns))
  | None => (nets, None)
  end.

(** [Stop] signals the group first; the confirmation is the death channel of the parent or a poll of the group. *)
Inductive stop_event := SKill (pgid : Z) | SAwaitDeath | SPollGroup (pgid : Z) | SCloseConn (conn : Z).

Definition Runtime_Stop (stopped : bool) (rt : NetnsRuntime) : bool * list stop_event :=
  if stopped then (true, [])
  else (true,
    (if rt_ChildPGID rt =? 0 then [] else [SKill (rt_ChildPGID rt)]) ++
    (if rt_own rt then [SAwaitDeath] else if rt_ChildPGID rt =? 0 then [] else [SPollGroup (rt_ChildPGID rt)]) ++
    [SCloseConn (rt_PerimConn rt)]).

(** [waitForGroupExit] polls; [probe i] is whether the i-th probe finds nobody and [late i] whether the deadline has
    passed after it. *)
Fixpoint waitForGroupExit (probe late : nat → bool) (fuel i : nat) : option bool :=
  match fuel with
  | O => None
  | S fuel =>
      if probe i then Some true
      else if late i then Some false
      else waitForGroupExit probe late fuel (S i)
  end.

(** ** The swappable connection of the frame pump *)

(** [sc_gens] is the set of generation channels that are closed, [sc_shut] the connections that are. *)
Record swappableConn := mkSwap {
  sc_conn : Z;
  sc_gen : nat;
  sc_closed : bool;
  sc_gens : gset nat;
  sc_shut : gset Z;
}.

Definition newSwappableConn (c : Z) : swappableConn := mkSwap c 0 false ∅ ∅.

Definition current (s : swappableConn) : Z * nat * bool := (sc_conn s, sc_gen s, sc_closed s).

(** The sections of [swap]: under the lock, then the two closes. *)
Definition swap_install (newConn : Z) (s : swappableConn) : swappableConn :=
  mkSwap newConn (S (sc_gen s)) false (sc_gens s) (sc_shut s).
Definition close_gen (g : nat) (s : swappableConn) : swappableConn :=
  mkSwap (sc_conn s) (sc_gen s) (sc_closed s) ({[g]} ∪ sc_gens s) (sc_shut s).
Definition close_conn (c : Z) (s : swappableConn) : swappableConn :=
  mkSwap (sc_conn s) (sc_gen s) (sc_closed s) (sc_gens s) ({[c]} ∪ sc_shut s).
Definition mark_closed (s : swappableConn) : swappableConn :=
  mkSwap (sc_conn s) (sc_gen s) true (sc_gens s) (sc_shut s).

Definition swap (newConn : Z) (s : swappableConn) : option swappableConn :=
  if sc_closed s then None
  else Some (close_conn (sc_conn s) (close_gen (sc_gen s) (swap_install newConn s))).

Definition closePermanently (s : swappableConn) : swappableConn :=
  if sc_closed s then s else close_conn (sc_conn s) (close_gen (sc_gen s) (mark_closed s)).

(** ** The control socket of the child *)

Definition ControlProtocolVersion : Z := 1.

Record ControlRequest := mkControlRequest {
  cr_Version : Z;
  cr_Token : string;
  cr_SandboxID : string;
  cr_ExpectChildPID : Z;
  cr_ExpectChildStartTime : Z;
}.

Inductive refusal :=
| RefNoCred | RefUid | RefMalformed | RefVersion | RefToken | RefSandbox | RefPID | RefStart | RefNoFD
| RefBadFD | RefPumpClosed.

Inductive ControlResponse := CtlOK | CtlRefused (why : refusal).

Record netnsControlServer := mkControlServer {
  cs_token : bytes;
  cs_sandboxID : string;
  cs_selfPID : Z;
  cs_selfStart : Z;
  cs_pump : swappableConn;
}.

Definition with_pump (p : swappableConn) (s : netnsControlServer) : netnsControlServer :=
  mkControlServer (cs_token s) (cs_sandboxID s) (cs_selfPID s) (cs_selfStart s) p.

(** What arrives on the connection: the descriptors of the control message, if it parses, and the request. *)
Record Incoming := mkIncoming {
  in_peer : option Z;
  in_fds : option (list Z);
  in_req : option ControlRequest;
  in_conn : option Z;
}.

(** The descriptors closed, and the one received, if the message is to be used. *)
Definition parseSingleControlFD (fds : list Z) : list Z * option (option Z) :=
  match fds with
  | [] => ([], Some None)
  | [fd] => ([], Some (Some fd))
  | _ => (fds, None)
  end.

Definition fd_list (fd : option Z) : list Z := match fd with Some fd => [fd] | None => [] end.

(** The gates after the request is read, and the connection made of the descriptor. *)
Definition handle_request (s : netnsControlServer) (req : ControlRequest) (fdFile conn : option Z)
    : result refusal Z :=
  if negb (cr_Version req =? ControlProtocolVersion) then Err RefVersion
  else if negb (bool_decide (hex_decode (chars (cr_Token req)) = Some (cs_token s))) then Err RefToken
  else if negb (String.eqb (cr_SandboxID req) (cs_sandboxID s)) then Err RefSandbox
  else if negb (cr_ExpectChildPID req =? cs_selfPID s) then Err RefPID
  else if (cr_ExpectChildStartTime req =? 0) || negb (cr_ExpectChildStartTime req =? cs_selfStart s) then Err RefStart
  else match fdFile with
       | None => Err RefNoFD
       | Some _ => match conn with None => Err RefBadFD | Some c => Ok c end
       end.

(** Returns the server, the descriptors closed and the answer.  [uid] is the child's own. *)
Definition handle (uid : Z) (m : Incoming) (s : netnsControlServer) : netnsControlServer * list Z * ControlResponse :=
  match in_peer m with
  | None => (s, [], CtlRefused RefNoCred)
  | Some u =>
      if negb (u =? uid) then (s, [], CtlRefused RefUid)
      else match in_fds m with
      | None => (s, [], CtlRefused RefMalformed)
      | Some fds =>
          match parseSingleControlFD fds with
          | (closed, None) => (s, closed, CtlRefused RefMalformed)
          | (_, Some fdFile) =>
              match in_req m with
              | None => (s, fd_list fdFile, CtlRefused RefMalformed)
              | Some req =>
                  match handle_request s req fdFile (in_conn m) with
                  | Err why => (s, fd_list fdFile, CtlRefused why)
                  | Ok newConn =>
                      match swap newConn (cs_pump s) with
                      | None => (s, newConn :: fd_list fdFile, CtlRefused RefPumpClosed)
                      | Some p => (with_pump p s, fd_list fdFile, CtlOK)
                      end
                  end
              end
          end
      end
  end.

(** ** The supervisor's side *)

(** [rq_pair]: the perimeter and the pump end of the fresh socket pair; [rq_conn]: what the child makes of the pump end;
    [rq_sent], [rq_answered]: whether the request is written and the answer read. *)
Record Reacquire := mkReacquire {
  rq_token : option string;
  rq_dial : bool;
  rq_peer : option Z;
  rq_pair : option (Z * Z);
  rq_conn : option Z;
  rq_sent : bool;
  rq_answered : bool;
}.

Inductive reacquire_error :=
| RqBadPID | RqNoStartTime | RqNoSandbox | RqToken | RqDial | RqPair | RqSend | RqRead | ErrControlRefused (why : refusal).

(** Returns the server, the descriptors this process closed and the perimeter end. *)
Definition ReacquirePerimeter (uid : Z) (io : Reacquire) (sandboxID : string) (childPID childStartTime : Z)
    (srv : netnsControlServer) : netnsControlServer * list Z * result reacquire_error Z :=
  if childPID <=? 0 then (srv, [], Err RqBadPID)
  else if childStartTime =? 0 then (srv, [], Err RqNoStartTime)
  else if String.eqb sandboxID "" then (srv, [], Err RqNoSandbox)
  else match rq_token io with
  | None => (srv, [], Err RqToken)
  | Some tokenHex =>
      if negb (rq_dial io) then (srv, [], Err RqDial)
      else match rq_pair io with
      | None => (srv, [], Err RqPair)
      | Some (perim, pump) =>
          if negb (rq_sent io) then (srv, [perim; pump], Err RqSend)
          else
            let req := mkControlRequest ControlProtocolVersion tokenHex sandboxID childPID childStartTime in
            let '(srv, _, resp) := handle uid (mkIncoming (rq_peer io) (Some [pump]) (Some req) (rq_conn io)) srv in
            if negb (rq_answered io) then (srv, [perim; pump], Err RqRead)
            else match resp with
                 | CtlOK => (srv, [pump], Ok perim)
                 | CtlRefused why => (srv, [perim; pump], Err (ErrControlRefused why))
                 end
      end
  end.

(** ** Reconstructing an identity (supervisor/netns_backfill.go) *)

Record NetnsIdentity := mkIdentity {
  ni_ChildPID : Z;
  ni_ChildPGID : Z;
  ni_ChildStartTime : Z;
  ni_GuestTapName : string;
  ni_APISocket : string;
}.

Definition NetnsRunEnv : string := "NEXUS_NETNS_RUN".
Definition NetnsEnvAPISocket : string := "NEXUS_NETNS_API_SOCKET".
Definition NetnsEnvGuestTap : string := "NEXUS_NETNS_GUEST_TAP".

Definition environ_of (f : file_read) : option (gmap string string) :=
  match f with FileData s => Some (readProcEnviron s) | _ => None end.

Definition env_get (env : gmap string string) (k : string) : string := default "" (env !! k).

Inductive backfill_error :=
| BfBadPID | BfNoSocket | BfListProc | BfUnreadable (pid : Z) | BfNone | BfAmbiguous (pids : list Z) | BfNoTap
| BfVanished | BfReparented.

(** One candidate: [None] for one that is skipped. *)
Definition backfill_candidate (supervisorPID : Z) (expectedAPISocket : string) (stat environ : Z → file_read) (pid : Z)
    : result backfill_error (option (Z * string)) :=
  match ReadProcStat (stat pid) with
  | Err _ => Ok None
  | Ok st =>
      if negb (ps_PPID st =? supervisorPID) then Ok None
      else match environ_of (environ pid) with
      | None => Err (BfUnreadable pid)
      | Some env =>
          if negb (String.eqb (env_get env NetnsRunEnv) "1") then Ok None
          else if negb (String.eqb (env_get env NetnsEnvAPISocket) expectedAPISocket) then Ok None
          else Ok (Some (pid, env_get env NetnsEnvGuestTap))
      end
  end.

Fixpoint backfill_scan (supervisorPID : Z) (sock : string) (stat environ : Z → file_read) (pids : list Z)
    (matched : list (Z * string)) : result backfill_error (list (Z * string)) :=
  match pids with
  | [] => Ok matched
  | pid :: pids =>
      let* c := backfill_candidate supervisorPID sock stat environ pid in
      backfill_scan supervisorPID sock stat environ pids
        (match c with Some c => matched ++ [c] | None => matched end)
  end.

(** [pids]: the numeric names under /proc; [stat'] the files as they are read the second time. *)
Definition BackfillNetnsIdentity (supervisorPID : Z) (expectedAPISocket : string) (pids : option (list Z))
    (stat environ stat' : Z → file_read) : result backfill_error NetnsIdentity :=
  if supervisorPID <=? 0 then Err BfBadPID
  else if String.eqb expectedAPISocket "" then Err BfNoSocket
  else match pids with
  | None => Err BfListProc
  | Some pids =>
      let* matched := backfill_scan supervisorPID expectedAPISocket stat environ pids [] in
      match matched with
      | [] => Err BfNone
      | [(pid, tap)] =>
          if String.eqb tap "" then Err BfNoTap
          else match ReadProcStat (stat' pid) with
          | Err _ => Err BfVanished
          | Ok st =>
              if negb (ps_PPID st =? supervisorPID) then Err BfReparented
              else Ok (mkIdentity pid (ps_PGID st) (ps_StartTime st) tap expectedAPISocket)
          end
      | _ => Err (BfAmbiguous matched.*1)
      end
  end.

Definition listProcPIDs (names : list string) : list Z :=
  omap (λ n, match ParseInt n with Ok z => Some z | Err _ => None end) names.

(** ** The frame pump *)

Module Pump.

(** Where the goroutine from the connection to the guest is. *)
Inductive reader := AtTop | Reading (c : Z) (g : nat) | Waiting (g : nat) | Exited.

#[global] Instance reader_eq_dec : EqDecision reader.
Proof. solve_decision. Defined.

(** The closes a [swap] or [closePermanently] still has to make. *)
Inductive pending := PGen (g : nat) | PConn (c : Z).

Record PumpState := mkState {
  st_sc : swappableConn;
  st_reader : reader;
  st_pending : list pending;
}.

Definition init (c : Z) : PumpState := mkState (newSwappableConn c) AtTop [].

Section steps.
(** Connections whose other end is gone: a read of one may fail. *)
Context (dead : Z → Prop).

(** [tapPump], the loop from the connection to the guest.  A read returns a frame while the connection is open; it
    fails once it is closed or its peer is gone. *)
Inductive pump_reader_step : PumpState → PumpState → Prop :=
| rd_closed sc p : sc_closed sc = true → pump_reader_step (mkState sc AtTop p) (mkState sc Exited p)
| rd_current sc p :
    sc_closed sc = false → pump_reader_step (mkState sc AtTop p) (mkState sc (Reading (sc_conn sc) (sc_gen sc)) p)
| rd_frame sc p c g : c ∉ sc_shut sc → pump_reader_step (mkState sc (Reading c g) p) (mkState sc AtTop p)
| rd_error sc p c g :
    c ∈ sc_shut sc ∨ dead c → pump_reader_step (mkState sc (Reading c g) p) (mkState sc (Waiting g) p)
| rd_woken sc p g : g ∈ sc_gens sc → pump_reader_step (mkState sc (Waiting g) p) (mkState sc AtTop p).

(** The closes after the locked section. *)
Inductive close_step : PumpState → PumpState → Prop :=
| cl_gen sc r g p : close_step (mkState sc r (PGen g :: p)) (mkState (close_gen g sc) r p)
| cl_conn sc r c p : close_step (mkState sc r (PConn c :: p)) (mkState (close_conn c sc) r p).

(** The locked sections; the control server handles one request at a time. *)
Inductive swap_step : PumpState → PumpState → Prop :=
| sw_install sc r c :
    sc_closed sc = false → c ∉ sc_shut sc → c ≠ sc_conn sc →
    swap_step (mkState sc r []) (mkState (swap_install c sc) r [PGen (sc_gen sc); PConn (sc_conn sc)]).

Inductive shut_step : PumpState → PumpState → Prop :=
| sh_close sc r :
    sc_closed sc = false →
    shut_step (mkState sc r []) (mkState (mark_closed sc) r [PGen (sc_gen sc); PConn (sc_conn sc)]).

Definition quiet_step (x y : PumpState) : Prop := pump_reader_step x y ∨ close_step x y.
Definition step (x y : PumpState) : Prop := quiet_step x y ∨ swap_step x y ∨ shut_step x y.

(** Generations before the current one, and connections before the current one, are closed or about to be. *)
Definition gen_over (x : PumpState) (g : nat) : Prop := g ∈ sc_gens (st_sc x) ∨ PGen g ∈ st_pending x.
Definition conn_over (x : PumpState) (c : Z) : Prop := c ∈ sc_shut (st_sc x) ∨ PConn c ∈ st_pending x.

Record inv (x : PumpState) : Prop := {
  inv_gens : ∀ g, (g < sc_gen (st_sc x))%nat → gen_over x g;
  inv_closed : sc_closed (st_sc x) = true → gen_over x (sc_gen (st_sc x)) ∧ conn_over x (sc_conn (st_sc x));
  inv_reading : ∀ c g, st_reader x = Reading c g →
    (g = sc_gen (st_sc x) ∧ c = sc_conn (st_sc x)) ∨ ((g < sc_gen (st_sc x))%nat ∧ conn_over x c);
  inv_waiting : ∀ g, st_reader x = Waiting g → (g ≤ sc_gen (st_sc x))%nat;
  inv_exited : st_reader x = Exited → sc_closed (st_sc x) = true;
  inv_live : sc_closed (st_sc x) = false → ¬ conn_over x (sc_conn (st_sc x));
}.

Lemma inv_init c : inv (init c).
Proof.
  split; simpl; try done.
  - intros g Hg. lia.
  - intros _ [H|H]; simpl in H; [set_solver|by apply elem_of_nil in H].
Qed.

Lemma inv_reader_step x y : pump_reader_step x y → inv x → inv y.
Proof.
  intros Hs [Hg Hc Hr Hw He Hl]. destruct Hs; simpl in *; split; simpl; try done; unfold gen_over, conn_over in *; simpl in *;
    try (intros; simplify_eq; auto; fail).
  - intros g' [= <-]. destruct (Hr c g eq_refl) as [[-> _]|[? _]]; lia.
Qed.

Lemma inv_close_step x y : close_step x y → inv x → inv y.
Proof.
  intros Hs [Hg Hc Hr Hw He Hl].
  assert (Hgen : ∀ g, gen_over x g ↔ gen_over y g).
  { intros g. destruct Hs; unfold gen_over; simpl; rewrite elem_of_cons; set_solver. }
  assert (Hconn : ∀ c, conn_over x c ↔ conn_over y c).
  { intros c. destruct Hs; unfold conn_over; simpl; rewrite elem_of_cons; set_solver. }
  assert (Hsame : sc_gen (st_sc y) = sc_gen (st_sc x) ∧ sc_conn (st_sc y) = sc_conn (st_sc x) ∧
                  sc_closed (st_sc y) = sc_closed (st_sc x) ∧ st_reader y = st_reader x) by by destruct Hs.
  destruct Hsame as (E1 & E2 & E3 & E4).
  split; rewrite ?E1, ?E2, ?E3, ?E4.
  - intros g Hlt. apply Hgen; auto.
  - intros H. rewrite <- Hgen, <- Hconn. auto.
  - intros c g H. rewrite <- Hconn. auto.
  - auto.
  - auto.
  - intros H. rewrite <- Hconn. auto.
Qed.

Lemma inv_swap_step x y : swap_step x y ∨ shut_step x y → inv x → inv y.
Proof.
  intros Hs [Hg Hc Hr Hw He Hl].
  destruct Hs as [Hs|Hs]; [destruct Hs as [sc r c Hopen Hfresh Hne]|destruct Hs as [sc r Hopen]];
    unfold gen_over, conn_over in *; simpl in *; split; unfold gen_over, conn_over; simpl; try done.
  - intros g Hlt. destruct (decide (g = sc_gen sc)) as [->|Hd]; [right; constructor|].
    destruct (Hg g ltac:(lia)) as [?|Hn]; [by left|by apply elem_of_nil in Hn].
  - intros c' g Hrd. right. destruct (Hr c' g Hrd) as [[-> ->]|[? [?|Hn]]].
    + split; [lia|]. right. apply list_elem_of_further, list_elem_of_here.
    + split; [lia|by left].
    + by apply elem_of_nil in Hn.
  - intros g H. specialize (Hw g H). lia.
  - intros H. rewrite (He H) in Hopen. done.
  - intros _ [H|H]; [done|]. rewrite !elem_of_cons, elem_of_nil in H. naive_solver.
  - intros g Hlt. destruct (Hg g Hlt) as [?|Hn]; [by left|by apply elem_of_nil in Hn].
  - intros _. split; right; [constructor|apply list_elem_of_further, list_elem_of_here].
  - intros c g Hrd. destruct (Hr c g Hrd) as [[-> ->]|[? [?|Hn]]]; [by left|right; auto|by apply elem_of_nil in Hn].
Qed.

Lemma pump_inv_step x y : step x y → inv x → inv y.
Proof.
  intros [[H|H]|H]; eauto using inv_reader_step, inv_close_step, inv_swap_step.
Qed.

Lemma inv_reachable c y : rtc step (init c) y → inv y.
Proof. intros H. eapply (rtc_invariant step inv); [exact pump_inv_step|exact H|apply inv_init]. Qed.

(** The pump ends only when it was closed for good. *)
Lemma pump_never_exits c y : rtc step (init c) y → sc_closed (st_sc y) = false → st_reader y ≠ Exited.
Proof. intros H Hc He. apply inv_reachable, inv_exited in H; congruence. Qed.

(** *** A fresh connection is picked up *)

Definition on_current (x : PumpState) : Prop := st_reader x = Reading (sc_conn (st_sc x)) (sc_gen (st_sc x)).

#[local] Instance on_current_dec x : Decision (on_current x).
Proof. unfold on_current. apply _. Defined.

Definition behind (x : PumpState) : Prop :=
  inv x ∧ sc_closed (st_sc x) = false ∧ st_reader x ≠ Waiting (sc_gen (st_sc x)).

Definition rank (x : PumpState) : nat :=
  length (st_pending x) +
  match st_reader x with
  | AtTop => 1
  | Waiting _ => 2
  | Reading _ g => if decide (g = sc_gen (st_sc x)) then 0 else 3
  | Exited => 0
  end.

Lemma quiet_step_keeps x y :
  quiet_step x y → sc_gen (st_sc y) = sc_gen (st_sc x) ∧ sc_conn (st_sc y) = sc_conn (st_sc x) ∧
    sc_closed (st_sc y) = sc_closed (st_sc x).
Proof. by intros [[]|[]]. Qed.

(** A reader that is not on the current connection has a step, or a close is still to come. *)
Lemma behind_can_step x : behind x → on_current x ∨ ∃ y, quiet_step x y.
Proof.
  destruct x as [sc r p]. intros ([Hg Hc Hr Hw He Hl] & Hopen & Hne). unfold on_current; simpl in *.
  destruct p as [|[g|c] p]; [|right; eexists; right; constructor..].
  destruct r as [|c g|g|]; simpl in *.
  - right. eexists. left. by apply rd_current.
  - destruct (Hr c g eq_refl) as [[-> ->]|[_ [Hs|Hs]]]; [by left| |by apply elem_of_nil in Hs].
    right. eexists. left. apply rd_error. by left.
  - specialize (Hw g eq_refl). destruct (Hg g) as [Hs|Hs]; simpl in *;
      [destruct (decide (g = sc_gen sc)); [congruence|lia]| |by apply elem_of_nil in Hs].
    right. eexists. left. by apply rd_woken.
  - rewrite (He eq_refl) in Hopen. done.
Qed.

Lemma behind_step x y : behind x → ¬ on_current x → quiet_step x y → behind y ∧ (rank y < rank x)%nat.
Proof.
  intros (Hinv & Hopen & Hne) Hnot Hs.
  assert (Hinv' : inv y) by (eapply pump_inv_step; [by left|done]).
  destruct (quiet_step_keeps x y Hs) as (E1 & E2 & E3). split.
  - split; [done|]. split; [congruence|]. rewrite E1.
    destruct Hs as [Hs|Hs]; [|by destruct Hs]. destruct Hs; simpl in *; try done.
    intros [= ->]. destruct (inv_reading _ Hinv c _ eq_refl) as [[_ Hcc]|[? _]]; simpl in *; [|lia].
    apply Hnot. unfold on_current. simpl. congruence.
  - unfold rank. rewrite E1. destruct Hs as [Hs|Hs]; [|destruct Hs; simpl; lia].
    destruct Hs as [sc p Hcl|sc p Hcl|sc p c g Hc|sc p c g Hc|sc p g Hg]; simpl in *.
    + congruence.
    + rewrite decide_True by done. lia.
    + rewrite decide_False; [lia|]. intros ->.
      destruct (inv_reading _ Hinv c _ eq_refl) as [[_ Hcc]|[? _]]; simpl in *; [|lia].
      apply Hnot. unfold on_current. simpl. congruence.
    + rewrite decide_False; [lia|]. intros ->.
      destruct (inv_reading _ Hinv c _ eq_refl) as [[_ Hcc]|[? _]]; simpl in *; [|lia].
      apply Hnot. unfold on_current. simpl. congruence.
    + lia.
Qed.

(** C12: Without further swaps the reader reaches the connection a swap installed, in every run: a read of the old connection
    returns because it is closed, and the wait for the next generation is never missed. *)
Theorem swap_is_picked_up c0 x y :
  rtc step (init c0) x → swap_step x y → eventually quiet_step on_current y.
Proof.
  intros Hx Hs. apply (eventually_measure _ _ behind rank).
  - intros z Hz. destruct (behind_can_step z Hz) as [?|Hy]; [by left|].
    destruct (decide (on_current z)) as [|Hn]; [by left|right]. eauto using behind_step.
  - apply inv_reachable in Hx as Hi. split; [eapply inv_swap_step; eauto|].
    destruct Hs as [sc r c Hopen Hf Hne]; simpl. split; [done|]. intros ->.
    pose proof (inv_waiting _ Hi _ eq_refl). simpl in *. lia.
Qed.

End steps.
End Pump.

(** ** The fields of a stat file do not depend on the command's name *)

Lemma fields_loop_word w rest cur :
  Forall (λ c, is_space c = false) w → fields_loop (w ++ rest) cur = fields_loop rest (reverse w ++ cur).
Proof.
  intros Hw. revert cur. induction Hw as [|c w Hc _ IH]; intros cur; simpl; [done|].
  rewrite Hc, IH. f_equal. by rewrite reverse_cons, <- app_assoc.
Qed.

Lemma is_word_spaces w : is_word w → Forall (λ c, is_space c = false) w.
Proof. intros [_ H]. eapply Forall_impl; [exact H|]. by intros c [? _]. Qed.

(** A word that was begun before the loop ends at the next space. *)
Lemma fields_loop_spaced ws w : Forall is_word ws → w ≠ [] → fields_loop (spaced ws) (reverse w) = w :: ws.
Proof.
  intros Hws. revert w. induction Hws as [|v ws Hv _ IH]; intros w Hw; simpl.
  - destruct (reverse w) as [|c l] eqn:E; [|by rewrite <- E, reverse_involutive].
    apply (f_equal reverse) in E. by rewrite reverse_involutive in E.
  - destruct (reverse w) as [|c l] eqn:E.
    { apply (f_equal reverse) in E. by rewrite reverse_involutive in E. }
    rewrite <- E, reverse_involutive, (fields_loop_word v) by by apply is_word_spaces.
    rewrite app_nil_r, IH; [done|by destruct Hv].
Qed.

Lemma fields_loop_words ws : Forall is_word ws → fields_loop (spaced ws) [] = ws.
Proof.
  intros [|v ws' Hv Hws]; [done|]. simpl.
  rewrite (fields_loop_word v), app_nil_r by by apply is_word_spaces.
  apply fields_loop_spaced; [done|by destruct Hv].
Qed.

Lemma break_last_at c a b : c ∉ b → break_last c (a ++ c :: b) = Some (a, b).
Proof.
  intros Hb. unfold break_last. rewrite reverse_app, reverse_cons, <- app_assoc. simpl.
  rewrite break_at_app by (by rewrite elem_of_reverse). simpl. by rewrite !reverse_involutive.
Qed.

Lemma spaced_chars ws c : Forall is_word ws → c ∈ spaced ws → c = " "%char ∨ is_space c = false ∧ c ≠ ")"%char.
Proof.
  induction 1 as [|w ws Hw _ IH]; simpl; [by intros ?%elem_of_nil|].
  rewrite elem_of_cons, elem_of_app. intros [->|[Hc|Hc]]; [by left| |by apply IH].
  right. destruct Hw as [_ Hw]. rewrite Forall_forall in Hw. by apply Hw.
Qed.

Lemma drop_end_while_last f l k n :
  (∀ c, c ∈ k → f c = false) → k ≠ [] → f n = true → drop_end_while f (l ++ k ++ [n]) = l ++ k.
Proof.
  intros Hk Hne Hn. unfold drop_end_while. rewrite app_assoc, reverse_app. simpl. rewrite Hn.
  destruct k as [|c k _] using rev_ind; [done|].
  rewrite app_assoc, reverse_app. simpl. rewrite Hk by (rewrite elem_of_app, list_elem_of_singleton; auto).
  by rewrite reverse_cons, reverse_involutive.
Qed.

Theorem ReadProcStat_comm pid comm ws :
  Forall is_word ws → ReadProcStat (FileData (stat_line pid comm ws)) = parse_fields ws.
Proof.
  intros Hws. unfold ReadProcStat, stat_line, TrimRightByte. rewrite !chars_app, !chars_of_chars.
  set (front := chars pid ++ chars " (" ++ chars comm).
  replace (chars pid ++ chars " (" ++ chars comm ++ chars ")" ++ spaced ws ++ ["010"%char])
    with (front ++ (")"%char :: spaced ws) ++ ["010"%char])
    by (unfold front; rewrite <- !app_assoc; done).
  rewrite drop_end_while_last; [|intros c Hc|done|done].
  - rewrite break_last_at; [by rewrite fields_loop_words|].
    intros Hc. apply (spaced_chars ws) in Hc as [|[_ ?]]; done.
  - apply bool_decide_eq_false. intros ->. apply elem_of_cons in Hc as [|Hc]; [done|].
    by apply (spaced_chars ws) in Hc as [|[? _]].
Qed.

(** ** Adoption and the control socket *)

Lemma AdoptNetnsRuntime_spec stat conn pid pgid start tap sock perim rt :
  AdoptNetnsRuntime stat conn pid pgid start tap sock perim = Ok rt ↔
  is_Some perim ∧ 0 < pid ∧ 0 < pgid ∧ sock ≠ ""%string ∧ tap ≠ ""%string ∧ start ≠ 0 ∧
  readProcStartTime stat = Ok start ∧ conn = Some (rt_PerimConn rt) ∧
  rt = mkRuntime (rt_PerimConn rt) sock tap pid pgid start "" "" false.
Proof.
  unfold AdoptNetnsRuntime. destruct perim as [fd|]; [|split; [done|by intros [[? [=]] _]]].
  destruct (Z.leb_spec pid 0); [split; [done|lia]|]. destruct (Z.leb_spec pgid 0); [split; [done|lia]|].
  destruct (String.eqb_spec sock ""); [split; [done|tauto]|]. destruct (String.eqb_spec tap ""); [split; [done|tauto]|].
  destruct (Z.eqb_spec start 0); [split; [done|tauto]|].
  destruct (readProcStartTime stat) as [cur|e]; [|split; [done|naive_solver]].
  destruct (Z.eqb_spec cur start) as [->|]; simpl; [|split; [done|naive_solver]].
  destruct conn as [c|]; [|split; [done|naive_solver]]. split.
  - intros <-%Ok_inj. simpl. eauto 20.
  - intros (_ & _ & _ & _ & _ & _ & _ & [= ->] & ->). done.
Qed.

(** A descriptor can be claimed once. *)
Lemma AdoptRuntime_claim id rt nets nets' :
  AdoptRuntime id rt nets = (nets', Ok tt) →
  ∃ nets'', GuestNetworkFD id nets' = (nets'', Some (rt_PerimConn rt)) ∧ GuestNetworkFD id nets'' = (nets'', None).
Proof.
  unfold AdoptRuntime. destruct (nets !! id); intros [= <-]. unfold GuestNetworkFD.
  rewrite lookup_insert_eq. simpl. eexists. split; [done|]. by rewrite lookup_insert_eq.
Qed.

Definition authentic (uid : Z) (s : netnsControlServer) (m : Incoming) (c : Z) : Prop :=
  in_peer m = Some uid ∧ (∃ fd, in_fds m = Some [fd]) ∧ in_conn m = Some c ∧
  ∃ req, in_req m = Some req ∧ cr_Version req = ControlProtocolVersion ∧
    hex_decode (chars (cr_Token req)) = Some (cs_token s) ∧ cr_SandboxID req = cs_sandboxID s ∧
    cr_ExpectChildPID req = cs_selfPID s ∧ cr_ExpectChildStartTime req = cs_selfStart s ∧ cs_selfStart s ≠ 0.

Lemma handle_request_ok s req fd conn c :
  handle_request s req fd conn = Ok c ↔
  cr_Version req = ControlProtocolVersion ∧ hex_decode (chars (cr_Token req)) = Some (cs_token s) ∧
  cr_SandboxID req = cs_sandboxID s ∧ cr_ExpectChildPID req = cs_selfPID s ∧
  cr_ExpectChildStartTime req = cs_selfStart s ∧ cs_selfStart s ≠ 0 ∧ is_Some fd ∧ conn = Some c.
Proof.
  unfold handle_request. destruct (Z.eqb_spec (cr_Version req) ControlProtocolVersion); simpl; [|split; [done|tauto]].
  case_bool_decide; simpl; [|split; [done|tauto]].
  destruct (String.eqb_spec (cr_SandboxID req) (cs_sandboxID s)); simpl; [|split; [done|tauto]].
  destruct (Z.eqb_spec (cr_ExpectChildPID req) (cs_selfPID s)); simpl; [|split; [done|tauto]].
  destruct (Z.eqb_spec (cr_ExpectChildStartTime req) (cs_selfStart s)) as [->|]; simpl; [|rewrite orb_true_r; split; [done|tauto]].
  destruct (Z.eqb_spec (cs_selfStart s) 0); simpl; [split; [done|tauto]|].
  destruct fd as [fd|], conn as [c'|]; simpl; (split; [|naive_solver]); try done. intros [= ->]. eauto 10.
Qed.

(** A request that is not authentic changes nothing and closes what came with it. *)
Lemma handle_cases uid m s :
  (∃ c p fd, authentic uid s m c ∧ in_fds m = Some [fd] ∧ swap c (cs_pump s) = Some p ∧
             handle uid m s = (with_pump p s, [fd], CtlOK)) ∨
  (∃ closed why, handle uid m s = (s, closed, CtlRefused why) ∧
     (∀ fds fd, in_peer m = Some uid → in_fds m = Some fds → fd ∈ fds → fd ∈ closed) ∧
     ∀ c, authentic uid s m c → sc_closed (cs_pump s) = true ∧ c ∈ closed).
Proof.
  unfold handle. destruct (in_peer m) as [u|] eqn:Hp;
    [|right; do 2 eexists; split; [done|]; split; [done|]; intros c [Hc _]; congruence].
  destruct (Z.eqb_spec u uid) as [->|Hu]; simpl;
    [|right; do 2 eexists; split; [done|]; split; [naive_solver|]; intros c [Hc _]; congruence].
  destruct (in_fds m) as [fds|] eqn:Hf;
    [|right; do 2 eexists; split; [done|]; split; [done|]; intros c (_ & [fd Hc] & _); congruence].
  destruct fds as [|fd [|fd' fds]]; simpl.
  - right. destruct (in_req m) as [req|] eqn:Hr.
    2:{ do 2 eexists; split; [done|]; split; [naive_solver|]. intros c (_ & [fd Hc] & _); congruence. }
    destruct (handle_request s req None (in_conn m)) as [c|why] eqn:Hh.
    + apply handle_request_ok in Hh as (_ & _ & _ & _ & _ & _ & [? ?] & _). done.
    + do 2 eexists; split; [done|]; split; [naive_solver|]. intros c (_ & [fd Hc] & _); congruence.
  - destruct (in_req m) as [req|] eqn:Hr.
    2:{ right. do 2 eexists; split; [done|]; split; [naive_solver|]. intros c (_ & _ & _ & ? & Hc & _); congruence. }
    destruct (handle_request s req (Some fd) (in_conn m)) as [c|why] eqn:Hh.
    + pose proof Hh as (Hv & Ht & Hid & Hpid & Hst & Hnz & _ & Hc)%handle_request_ok.
      assert (Hauth : authentic uid s m c).
      { repeat split; eauto 20. }
      unfold swap. destruct (sc_closed (cs_pump s)) eqn:Hcl.
      * right. do 2 eexists; split; [done|]. split; [set_solver|].
        intros c' (_ & _ & Hc' & _). split; [done|]. set_solver.
      * left. exists c. eauto 10.
    + right. do 2 eexists; split; [done|]. split; [naive_solver|].
      intros c (_ & _ & Hc & req' & Hr' & ? & ? & ? & ? & ? & ?). assert (req' = req) as -> by congruence.
      assert (handle_request s req (Some fd) (in_conn m) = Ok c); [|congruence].
      apply handle_request_ok. eauto 10.
  - right. do 2 eexists; split; [done|]. split; [naive_solver|]. intros c (_ & [? Hc] & _); congruence.
Qed.

(** The supervisor obtains a perimeter only from the child its record names, which then pumps over the other end of the
    fresh pair; whenever it does not, both ends are closed and, unless the answer was lost, the child is as it was. *)
Theorem ReacquirePerimeter_spec uid io id pid start srv srv' closed r :
  ReacquirePerimeter uid io id pid start srv = (srv', closed, r) →
  match r with
  | Ok perim =>
      id = cs_sandboxID srv ∧ pid = cs_selfPID srv ∧ start = cs_selfStart srv ∧ start ≠ 0 ∧ rq_peer io = Some uid ∧
      (∃ token, rq_token io = Some token ∧ hex_decode (chars token) = Some (cs_token srv)) ∧
      ∃ pump c, rq_pair io = Some (perim, pump) ∧ closed = [pump] ∧ rq_conn io = Some c ∧
        sc_conn (cs_pump srv') = c ∧ sc_conn (cs_pump srv) ∈ sc_shut (cs_pump srv') ∧ sc_closed (cs_pump srv') = false
  | Err e =>
      (closed = [] ∨ ∃ perim pump, rq_pair io = Some (perim, pump) ∧ closed = [perim; pump]) ∧
      (srv' = srv ∨ e = RqRead ∧ sc_conn (cs_pump srv) ∈ sc_shut (cs_pump srv'))
  end.
Proof.
  unfold ReacquirePerimeter.
  destruct (Z.leb_spec pid 0); [intros [= <- <- <-]; auto|].
  destruct (Z.eqb_spec start 0); [intros [= <- <- <-]; auto|].
  destruct (String.eqb_spec id ""); [intros [= <- <- <-]; auto|].
  destruct (rq_token io) as [tok|]; [|intros [= <- <- <-]; auto].
  destruct (rq_dial io); simpl; [|intros [= <- <- <-]; auto].
  destruct (rq_pair io) as [[perim pump]|]; [|intros [= <- <- <-]; auto].
  destruct (rq_sent io); simpl; [|intros [= <- <- <-]; eauto 10].
  set (m := mkIncoming _ _ _ _).
  destruct (handle_cases uid m srv) as [(c & p & fd & Hauth & Hfd & Hsw & ->)|(cl & why & -> & _ & _)];
    destruct (rq_answered io); simpl; intros [= <- <- <-]; eauto 10;
    (unfold swap in Hsw; destruct (sc_closed (cs_pump srv)) eqn:Hcl; [done|]; injection Hsw as <-; simpl in * );
    [|split; [eauto 10|right; split; [done|set_solver]]].
  destruct Hauth as (Hp & _ & Hc & req & [= <-] & _ & Ht & Hid & Hpid & Hst & Hnz). simpl in *.
  repeat split; try congruence; eauto. exists pump, c. repeat split; try done. set_solver.
Qed.

(** The token file holds [hex.EncodeToString(token)]. *)
Lemma ReacquirePerimeter_succeeds uid perim pump c srv :
  0 < cs_selfPID srv → cs_selfStart srv ≠ 0 → cs_sandboxID srv ≠ ""%string → sc_closed (cs_pump srv) = false →
  (ReacquirePerimeter uid
     (mkReacquire (Some (of_chars (hex_encode (cs_token srv)))) true (Some uid) (Some (perim, pump)) (Some c) true true)
     (cs_sandboxID srv) (cs_selfPID srv) (cs_selfStart srv) srv).2 = Ok perim.
Proof.
  intros Hp Hs Hid Hcl. unfold ReacquirePerimeter; cbn [rq_token rq_dial rq_peer rq_pair rq_conn rq_sent rq_answered].
  destruct (Z.leb_spec (cs_selfPID srv) 0); [lia|]. destruct (Z.eqb_spec (cs_selfStart srv) 0); [done|].
  destruct (String.eqb_spec (cs_sandboxID srv) ""); [done|]. simpl.
  set (m := mkIncoming _ _ _ _).
  destruct (handle_cases uid m srv) as [(c' & p & fd & _ & _ & _ & ->)|(cl & why & _ & _ & Hno)]; [done|].
  assert (authentic uid srv m c) as [Hc _]%Hno; [|congruence].
  repeat split; simpl; eauto. eexists. repeat split; try done. simpl. by rewrite chars_of_chars, hex_decode_encode.
Qed.

(** ** Backfilling *)

Section backfill.
Context (sup : Z) (sock : string) (stat environ : Z → file_read).

Definition child_of (pid : Z) : Prop := ∃ st, ReadProcStat (stat pid) = Ok st ∧ ps_PPID st = sup.
Definition serves (pid : Z) (tap : string) : Prop :=
  child_of pid ∧ ∃ env, environ_of (environ pid) = Some env ∧ env_get env NetnsRunEnv = "1"%string ∧
    env_get env NetnsEnvAPISocket = sock ∧ env_get env NetnsEnvGuestTap = tap.

Lemma backfill_candidate_spec pid :
  match backfill_candidate sup sock stat environ pid with
  | Ok (Some c) => c.1 = pid ∧ serves pid c.2
  | Ok None => (∀ tap, ¬ serves pid tap) ∧ (child_of pid → is_Some (environ_of (environ pid)))
  | Err _ => child_of pid ∧ environ_of (environ pid) = None
  end.
Proof.
  unfold backfill_candidate. destruct (ReadProcStat (stat pid)) as [st|e] eqn:Hst.
  2:{ split; [intros tap [(st & ? & _) _]|intros (st & ? & _)]; congruence. }
  destruct (Z.eqb_spec (ps_PPID st) sup) as [Hp|Hp]; simpl.
  2:{ split; [intros tap [(st' & ? & ?) _]|intros (st' & ? & ?)]; congruence. }
  assert (Hc : child_of pid) by (exists st; done).
  destruct (environ_of (environ pid)) as [env|] eqn:He; [|done].
  destruct (String.eqb_spec (env_get env NetnsRunEnv) "1") as [H1|H1]; simpl.
  2:{ split; [|eauto]. intros tap (_ & env' & Henv & ? & _). congruence. }
  destruct (String.eqb_spec (env_get env NetnsEnvAPISocket) sock) as [H2|H2]; simpl.
  2:{ split; [|eauto]. intros tap (_ & env' & Henv & _ & ? & _). congruence. }
  split; [done|]. split; [done|]. exists env. done.
Qed.

Lemma backfill_scan_spec pids matched res :
  backfill_scan sup sock stat environ pids matched = Ok res →
  ∃ l, res = matched ++ l ∧ (∀ pid, pid ∈ pids → child_of pid → is_Some (environ_of (environ pid))) ∧
    (∀ pid tap, pid ∈ pids → serves pid tap → (pid, tap) ∈ l) ∧ ∀ pid tap, (pid, tap) ∈ l → pid ∈ pids ∧ serves pid tap.
Proof.
  revert matched. induction pids as [|pid pids IH]; intros matched; simpl.
  { intros [= <-]. exists []. rewrite app_nil_r. set_solver. }
  pose proof (backfill_candidate_spec pid) as Hc.
  destruct (backfill_candidate sup sock stat environ pid) as [[[p tap]|]|e]; simpl; [| |done];
    intros (l & -> & Hr & Hall & Hin)%IH.
  - destruct Hc as [<- Hs]; simpl in *. exists ((p, tap) :: l). rewrite <- app_assoc. split; [done|]. split; [|split].
    + intros q [->|Hq]%elem_of_cons Hch; [|eauto]. destruct Hs as (_ & env & ? & _). eauto.
    + intros q t [->|Hq]%elem_of_cons Hq'; [|apply elem_of_cons; eauto].
      destruct Hs as (_ & env & He & _ & _ & <-), Hq' as (_ & env' & He' & _ & _ & <-).
      assert (env' = env) as -> by congruence. constructor.
    + intros q t [[= -> ->]|Hq]%elem_of_cons; [set_solver|]. destruct (Hin q t Hq). set_solver.
  - destruct Hc as [Hn Hr']. exists l. split; [done|]. split; [|split].
    + intros q [->|Hq]%elem_of_cons Hch; eauto.
    + intros q t [->|Hq]%elem_of_cons Hq'; [by destruct (Hn t)|eauto].
    + intros q t Hq. destruct (Hin q t Hq). set_solver.
Qed.

(** The identity returned is that of the only child of the supervisor that serves the socket: every child was
    readable, no other one matches, and group and start time are those of a second reading in which it is still
    a child of the supervisor. *)
Theorem backfill_unique pids stat' ni :
  BackfillNetnsIdentity sup sock (Some pids) stat environ stat' = Ok ni →
  ni_ChildPID ni ∈ pids ∧ serves (ni_ChildPID ni) (ni_GuestTapName ni) ∧ ni_GuestTapName ni ≠ ""%string ∧
  ni_APISocket ni = sock ∧
  (∀ pid, pid ∈ pids → child_of pid → is_Some (environ_of (environ pid))) ∧
  (∀ pid tap, pid ∈ pids → serves pid tap → pid = ni_ChildPID ni) ∧
  ReadProcStat (stat' (ni_ChildPID ni)) = Ok (mkProcStat sup (ni_ChildPGID ni) (ni_ChildStartTime ni)).
Proof.
  unfold BackfillNetnsIdentity. destruct (sup <=? 0); [done|]. destruct (String.eqb sock ""); [done|].
  intros (matched & Hscan & Hk)%rbind_ok_inv.
  destruct (backfill_scan_spec _ _ _ Hscan) as (l & -> & Hr & Hall & Hin). simpl in Hk.
  destruct l as [|[pid tap] [|? ?]]; try done.
  destruct (String.eqb_spec tap "") as [|Htap]; [done|].
  destruct (ReadProcStat (stat' pid)) as [[pp pg st]|] eqn:Hst; simpl in Hk; [|done].
  destruct (Z.eqb_spec pp sup) as [->|]; simpl in Hk; [|done]. apply Ok_inj in Hk as <-. simpl.
  destruct (Hin pid tap ltac:(constructor)) as [Hp Hs]. repeat split; try done; try apply Hs.
  intros q t Hq Hs'. specialize (Hall q t Hq Hs'). apply list_elem_of_singleton in Hall. congruence.
Qed.
End backfill.

(** An identity that was backfilled can be adopted as long as the process is still there, by the guards of
    [AdoptNetnsRuntime]; only a group of 0 is not excluded. *)
Lemma backfill_adoptable sup sock pids stat environ stat' ni fd c :
  BackfillNetnsIdentity sup sock (Some pids) stat environ stat' = Ok ni → 0 < ni_ChildPID ni → 0 < ni_ChildPGID ni →
  ni_ChildStartTime ni ≠ 0 →
  is_ok (AdoptNetnsRuntime (stat' (ni_ChildPID ni)) (Some c) (ni_ChildPID ni) (ni_ChildPGID ni) (ni_ChildStartTime ni)
           (ni_GuestTapName ni) (ni_APISocket ni) (Some fd)) = true.
Proof.
  intros H Hpid Hpgid Hst.
  assert (Hsock : sock ≠ ""%string) by
    (intros ->; revert H; unfold BackfillNetnsIdentity; by destruct (sup <=? 0)).
  apply backfill_unique in H as (_ & _ & Ht & Hs & _ & _ & Hrd). rewrite <- Hs in Hsock.
  set (rt := mkRuntime c (ni_APISocket ni) (ni_GuestTapName ni) (ni_ChildPID ni) (ni_ChildPGID ni)
               (ni_ChildStartTime ni) "" "" false).
  replace (AdoptNetnsRuntime _ _ _ _ _ _ _ _) with (@Ok adopt_error _ rt); [done|]. symmetry.
  apply AdoptNetnsRuntime_spec. unfold readProcStartTime. rewrite Hrd. simpl. eauto 20.
Qed.

(** ** Witnesses *)

Lemma swap_is_picked_up_witness :
  eventually (Pump.quiet_step (λ _, True)) Pump.on_current
    (Pump.mkState (swap_install 2 (newSwappableConn 1)) (Pump.Waiting 0) [Pump.PGen 0; Pump.PConn 1]).
Proof.
  apply (Pump.swap_is_picked_up (λ _, True) 1 (Pump.mkState (newSwappableConn 1) (Pump.Waiting 0) [])).
  - eapply rtc_l; [left; left; exact (Pump.rd_current (λ _, True) (newSwappableConn 1) [] eq_refl)|].
    apply rtc_once. left. left. apply Pump.rd_error. by right.
  - by apply (Pump.sw_install (newSwappableConn 1) (Pump.Waiting 0) 2).
Defined.

Lemma backfill_unique_witness :
  let stat pid := FileData (stat_line "77" "nexus" (chars <$> ["S"; "100"; "77"]%string ++ replicate 16 "0"%string ++ ["9"]%string)) in
  let environ pid := FileData ("NEXUS_NETNS_RUN=1" +:+ of_chars [ascii_of_N 0] +:+ "NEXUS_NETNS_API_SOCKET=/s" +:+
                               of_chars [ascii_of_N 0] +:+ "NEXUS_NETNS_GUEST_TAP=tap0") in
  ∀ pid tap, pid ∈ [77] → serves 100 "/s" stat environ pid tap → pid = 77.
Proof.
  intros stat environ pid tap Hp Hs.
  assert (E : BackfillNetnsIdentity 100 "/s" (Some [77]) stat environ stat = Ok (mkIdentity 77 77 9 "tap0" "/s"))
    by (vm_compute; reflexivity).
  exact (proj1 (proj2 (proj2 (proj2 (proj2 (proj2 (backfill_unique 100 "/s" stat environ [77] stat _ E)))))) pid tap Hp Hs).
Defined.
