(* ===== verification/Handoff.v ===== *)
(** * internal/supervisor: handing a running VM from one supervisor to the next

    The hand-off payload and its transport (handoff/payload.go, transport.go), the outgoing side (handoff_verb.go and
    the handlers of ipc.go), the incoming side (adopt.go up to the confirmation), the crash path (reacquire.go,
    ca_outcome.go, spawn_linux.go), the checks other processes make (orphan.go, the agent health probe of ipc.go) and
    the command that drives it all (cli/cmd_supervisor_upgrade.go).

    What the peer sends, what the socket and the kernel answer and which calls fail are arguments; a JSON message is
    what it decodes to.  The processes run beside each other in HandoffRace. *)

From stdpp Require Import prelude gmap strings list relations.
From Stdlib Require Import ZArith Ascii Lia.
From S2P Require Import Prelude GoStrings GoIO Domain Sandbox Store Recovery Reap Netns.

#[local] Arguments AdoptNetnsRuntime : simpl never.

(** ** The payload *)

Definition Version1 : Z := 1.
Definition CurrentVersion : Z := Version1.

Record VirtiofsHandle := mkVirtiofs { vf_PID : Z; vf_SocketPath : string; vf_SharedDir : string; vf_ReadOnly : bool }.

Record CAMaterial := mkCA { ca_CertPEM : string; ca_KeyPEM : string }.

Record GovernorConfig := mkGovernorConfig { gc_VCPUCount : Z; gc_MemoryMB : Z }.

(** [pl_Present] is [Perimeter.Present]. *)
Record Payload := mkPayload {
  pl_Version : Z;
  pl_Present : bool;
  pl_Virtiofs : list VirtiofsHandle;
  pl_CA : CAMaterial;
  pl_Credentials : gmap string string;
  pl_Governor : GovernorConfig;
}.

(** [Some]: the reason for refusing. *)
Definition Validate (hasMITMProxy : bool) (p : Payload) : option string :=
  if hasMITMProxy && (String.eqb (ca_CertPEM (pl_CA p)) "" || String.eqb (ca_KeyPEM (pl_CA p)) "") then
    Some "handoff payload incomplete: CA.CertPEM and CA.KeyPEM must be populated for a sandbox with an MITM proxy"%string
  else None.

Record Ack := mkAck { ack_OK : bool; ack_Reason : string; ack_SupportedVersion : Z }.

(** ** The transport *)

Inductive transport_error :=
| TePresentWithoutFD | TeFDWithoutPresent | TeSend | TeReceiveAck | TeUnmarshalAck
| TeReceive | TeUnmarshal | TeControlMessage | TeTooManyFDs | TeDeclaredButNone | TeUndeclaredFD.

(** What the far end answers to a sent offer: the acknowledgement, garbage, or nothing before the deadline. *)
Inductive ack_read := AckData (a : Ack) | AckGarbage | AckNone.

Definition receiveAck (r : ack_read) : result transport_error Ack :=
  match r with AckData a => Ok a | AckGarbage => Err TeUnmarshalAck | AckNone => Err TeReceiveAck end.

(** [fd]: [None] for a negative descriptor.  [sent]: whether the write succeeds. *)
Definition Offer (p : Payload) (fd : option Z) (sent : bool) (r : ack_read) : result transport_error Ack :=
  match fd, pl_Present p with
  | None, true => Err TePresentWithoutFD
  | Some _, false => Err TeFDWithoutPresent
  | _, _ => if negb sent then Err TeSend else receiveAck r
  end.

(** The datagram: the payload unless it does not decode, and the descriptors of the control message, [None] when the
    message does not parse. *)
Record Datagram := mkDatagram { dg_payload : option Payload; dg_fds : option (list Z) }.

Definition parseSingleFD (fds : list Z) : list Z * result transport_error (option Z) :=
  match fds with
  | [] => ([], Ok None)
  | [fd] => ([], Ok (Some fd))
  | _ => (fds, Err TeTooManyFDs)
  end.

(** Returns the descriptors closed as well. *)
Definition Accept (m : option Datagram) : list Z * result transport_error (Payload * option Z) :=
  match m with
  | None => ([], Err TeReceive)
  | Some m =>
      match dg_payload m with
      | None => ([], Err TeUnmarshal)
      | Some p =>
          match dg_fds m with
          | None => ([], Err TeControlMessage)
          | Some fds =>
              match parseSingleFD fds with
              | (closed, Err e) => (closed, Err e)
              | (_, Ok f) =>
                  match pl_Present p, f with
                  | true, None => ([], Err TeDeclaredButNone)
                  | false, Some fd => ([fd], Err TeUndeclaredFD)
                  | _, _ => ([], Ok (p, f))
                  end
              end
          end
      end
  end.

Definition Confirm_ack : Ack := mkAck true "" 0.
Definition Refuse_ack (reason : string) : Ack := mkAck false reason CurrentVersion.

(** ** The outgoing side *)

(** What the live perimeter supervisor reports. *)
Record LivePerimeter := mkLive {
  lp_FD : option Z;
  lp_CAKeyPair : option (string * string);
  lp_HasMITMProxy : bool;
}.

Definition buildHandoffPayload (sup : LivePerimeter) (bootVCPUs memoryMiB : Z) : Payload * option Z :=
  let ca := match lp_CAKeyPair sup with Some (c, k) => mkCA c k | None => mkCA "" "" end in
  (mkPayload CurrentVersion (bool_decide (is_Some (lp_FD sup))) [] ca ∅ (mkGovernorConfig bootVCPUs memoryMiB),
   lp_FD sup).

Inductive handoff_result := HandedOver | HandoffRefused (reason : string) | HandoffFailed.

(** [dial]: whether the replacement is reached; [link]: whether the payload is sent and what comes back. *)
Definition performHandoff (dial : bool) (build : Payload * option Z) (hasMITMProxy : bool) (link : bool * ack_read)
    : handoff_result :=
  if negb dial then HandoffFailed
  else
    let '(payload, fd) := build in
    match Validate hasMITMProxy payload with
    | Some reason => HandoffRefused reason
    | None =>
        match Offer payload fd link.1 link.2 with
        | Err _ => HandoffFailed
        | Ok ack => if ack_OK ack then HandedOver else HandoffRefused (ack_Reason ack)
        end
    end.

Definition handoffFromLiveSupervisor (dial : bool) (sup : LivePerimeter) (bootVCPUs memoryMiB : Z) (link : bool * ack_read)
    : handoff_result :=
  performHandoff dial (buildHandoffPayload sup bootVCPUs memoryMiB) (lp_HasMITMProxy sup) link.

(** *** The handlers of the socket *)

(** The two channels of [ipcHandles]: whether they are closed. *)
Record Signals := mkSignals { sg_stop : bool; sg_detach : bool }.

Inductive http_status := StatusOK | StatusBadRequest | StatusMethodNotAllowed | StatusInternal | StatusUnavailable.

Definition handle_stop (post : bool) (s : Signals) : Signals * http_status :=
  if negb post then (s, StatusMethodNotAllowed) else (mkSignals true (sg_detach s), StatusOK).

Definition handle_detach (post : bool) (s : Signals) : Signals * http_status :=
  if negb post then (s, StatusMethodNotAllowed) else (mkSignals (sg_stop s) true, StatusOK).

(** [peer]: the [peer_sock] of the body, if it decodes; [fn]: the late-bound callback. *)
Definition handle_handoff (post : bool) (peer : option string) (fn : option (string → handoff_result)) (s : Signals)
    : Signals * http_status * option (bool * string) :=
  if negb post then (s, StatusMethodNotAllowed, None)
  else match peer with
  | None | Some EmptyString => (s, StatusBadRequest, Some (false, "peer_sock is required"%string))
  | Some sock =>
      match fn with
      | None => (s, StatusUnavailable, Some (false, "handoff not yet available"%string))
      | Some fn =>
          match fn sock with
          | HandoffFailed => (s, StatusInternal, Some (false, "error"%string))
          | HandoffRefused reason => (s, StatusOK, Some (false, reason))
          | HandedOver => (mkSignals (sg_stop s) true, StatusOK, Some (true, ""%string))
          end
      end
  end.

(** What the caller of [RequestHandoff] sees; [None] is an error of the request itself. *)
Definition RequestHandoff (answer : option (http_status * option (bool * string))) : option bool :=
  match answer with
  | Some (StatusOK, Some (ok, _)) => Some ok
  | _ => None
  end.

Inductive shutdownCause := shutdownBySignal | shutdownByStopVerb | shutdownByDetach | shutdownByVMDeath.

(** [select] takes any channel that is ready. *)
Definition awaitShutdown (sig : bool) (s : Signals) (vmDead : bool) (cause : shutdownCause) : Prop :=
  match cause with
  | shutdownByStopVerb => sg_stop s = true
  | shutdownByDetach => sg_detach s = true
  | shutdownByVMDeath => vmDead = true
  | shutdownBySignal => sig = true
  end.

(** How a supervisor ends. *)
Inductive teardown := TdNothing | TdReconcile | TdRemove | TdStop.

Definition shutdown_action (ephemeral : bool) (cause : shutdownCause) : teardown :=
  match cause with
  | shutdownByDetach => TdNothing
  | shutdownByVMDeath => TdReconcile
  | _ => if ephemeral then TdRemove else TdStop
  end.

Definition reconcileVMDeath (rec : Sandbox) : Sandbox :=
  set_CHAPISocket "" (set_GuestTapName "" (set_NetnsChildStartTime 0 (set_NetnsChildPGID 0
    (set_NetnsChildPID 0 (set_SStopReason StopReasonMemoryLost (set_SState Stopped rec)))))).

(** *** The socket's name *)

(** The inode a path names. *)
Definition removeOwnSocket (bindStat : option nat) (path : option nat) : option nat :=
  match bindStat with
  | None => path
  | Some own => match path with
                | None => None
                | Some cur => if decide (own = cur) then None else path
                end
  end.

(** [UnixListener.Close], which [srv.Shutdown] calls: it unlinks the name it was bound to once, whatever is there. *)
Definition listener_Close (unlinked : bool) (path : option nat) : bool * option nat :=
  if unlinked then (true, path) else (true, None).

(** ** The incoming side, up to the confirmation *)

(** The identity every adopting path requires of the record. *)
Definition netns_complete (sb : Sandbox) : bool :=
  (0 <? NetnsChildPID sb) && (0 <? NetnsChildPGID sb) && negb (NetnsChildStartTime sb =? 0) &&
  negb (String.eqb (GuestTapName sb) "") && negb (String.eqb (CHAPISocket sb) "").

Inductive adopt_outcome :=
| AdoptedConfirmed (p : Payload) (nets : gmap SandboxID netState)
| AdoptRefused
| AdoptSilent.

(** The host's answers while the payload is handled: the child's stat file, the connection made of the descriptor,
    and whether the confirmation is written. *)
Record AdoptIO := mkAdoptIO { ai_stat : file_read; ai_conn : option Z; ai_confirm : bool }.

(** [RunAdopt] from the accepted connection on; [nets] is the fresh driver's.  Returns the descriptors closed and the
    acknowledgement written, in this order, and how it ends: an error ends the process without any further step. *)
Definition adopt_payload (io : AdoptIO) (sb : Sandbox) (m : option Datagram) (nets : gmap SandboxID netState)
    : list Z * option Ack * adopt_outcome :=
  match Accept m with
  | (closed, Err _) => (closed, None, AdoptSilent)
  | (closed, Ok (payload, fdFile)) =>
      if negb (pl_Version payload =? CurrentVersion) then
        (closed ++ fd_list fdFile, Some (Refuse_ack "unsupported handoff version"), AdoptRefused)
      else if negb (pl_Present payload) || negb (bool_decide (is_Some fdFile)) then
        (closed ++ fd_list fdFile, Some (Refuse_ack "payload carries no perimeter fd"), AdoptRefused)
      else match AdoptNetnsRuntime (ai_stat io) (ai_conn io) (NetnsChildPID sb) (NetnsChildPGID sb)
                   (NetnsChildStartTime sb) (GuestTapName sb) (CHAPISocket sb) fdFile with
      | Err _ => (closed, Some (Refuse_ack "adopt netns runtime"), AdoptRefused)
      | Ok rt =>
          match AdoptRuntime (ID sb) rt nets with
          | (_, Err _) => (closed ++ fd_list fdFile, Some (Refuse_ack "install runtime"), AdoptRefused)
          | (nets, Ok _) =>
              if ai_confirm io then (closed ++ fd_list fdFile, Some Confirm_ack, AdoptedConfirmed payload nets)
              else (closed ++ fd_list fdFile, None, AdoptSilent)
          end
      end
  end.

(** The CA the replacement's perimeter is seeded with. *)
Definition seed_of (p : Payload) : option (string * string) :=
  if negb (String.eqb (ca_CertPEM (pl_CA p)) "") && negb (String.eqb (ca_KeyPEM (pl_CA p)) "")
  then Some (ca_CertPEM (pl_CA p), ca_KeyPEM (pl_CA p)) else None.

(** ** The crash path *)

Inductive preflight_error := PfPID | PfPGID | PfStart | PfTap | PfAPI | PfControlSocket | PfControlToken.

Definition reacquirePreflight (sb : Sandbox) : result preflight_error unit :=
  if NetnsChildPID sb <=? 0 then Err PfPID
  else if NetnsChildPGID sb <=? 0 then Err PfPGID
  else if NetnsChildStartTime sb =? 0 then Err PfStart
  else if String.eqb (GuestTapName sb) "" then Err PfTap
  else if String.eqb (CHAPISocket sb) "" then Err PfAPI
  else if String.eqb (NetnsControlSocket sb) "" then Err PfControlSocket
  else if String.eqb (NetnsControlToken sb) "" then Err PfControlToken
  else Ok tt.

Inductive reacquire_failure :=
| RfPreflight (e : preflight_error) | RfControl (e : reacquire_error) | RfAdopt (e : adopt_error).

(** Returns the child, the descriptors closed, the driver's table and the runtime. *)
Definition ReacquirePerimeterForSandbox (uid : Z) (rio : Reacquire) (stat : file_read) (conn : option Z) (sb : Sandbox)
    (srv : netnsControlServer) (nets : gmap SandboxID netState)
    : netnsControlServer * list Z * gmap SandboxID netState * result reacquire_failure NetnsRuntime :=
  match reacquirePreflight sb with
  | Err e => (srv, [], nets, Err (RfPreflight e))
  | Ok _ =>
      match ReacquirePerimeter uid rio (SandboxID_String (ID sb)) (NetnsChildPID sb) (NetnsChildStartTime sb) srv with
      | (srv, closed, Err e) => (srv, closed, nets, Err (RfControl e))
      | (srv, closed, Ok perimFile) =>
          match AdoptNetnsRuntime stat conn (NetnsChildPID sb) (NetnsChildPGID sb) (NetnsChildStartTime sb)
                  (GuestTapName sb) (CHAPISocket sb) (Some perimFile) with
          | Err e => (srv, closed ++ [perimFile], nets, Err (RfAdopt e))
          | Ok rt =>
              match AdoptRuntime (ID sb) rt nets with
              | (_, Err e) => (srv, closed ++ [perimFile], nets, Err (RfAdopt e))
              | (nets, Ok _) => (srv, closed ++ [perimFile], nets, Ok rt)
              end
          end
      end
  end.

(** *** What the replacement reports of the certificate authority *)

Inductive ca_outcome := CAOutcomeUnknown | CAOutcomeRecovered | CAOutcomeLost.

#[global] Instance ca_outcome_eq_dec : EqDecision ca_outcome.
Proof. solve_decision. Defined.

Definition ca_outcome_text (o : ca_outcome) : string :=
  match o with
  | CAOutcomeUnknown => "unknown" | CAOutcomeRecovered => "recovered" | CAOutcomeLost => "lost"
  end.

(** The two files of a supervisor's state directory that the spawner reads. *)
Record StateDir := mkStateDir { sd_pidfile : option string; sd_caOutcome : option string }.

Definition newline : string := of_chars ["010"%char].

Definition WriteCAOutcome (ok : bool) (o : ca_outcome) (d : StateDir) : StateDir :=
  if ok then mkStateDir (sd_pidfile d) (Some (ca_outcome_text o +:+ newline)) else d.

Definition ReadCAOutcome (d : StateDir) : ca_outcome :=
  match sd_caOutcome d with
  | None => CAOutcomeUnknown
  | Some data =>
      let t := TrimSpace data in
      if String.eqb t "recovered" then CAOutcomeRecovered
      else if String.eqb t "lost" then CAOutcomeLost
      else CAOutcomeUnknown
  end.

Definition recordReacquireCAOutcome (ok caLost : bool) (d : StateDir) : StateDir :=
  WriteCAOutcome ok (if caLost then CAOutcomeLost else CAOutcomeRecovered) d.

Definition ClearCAOutcome (ok : bool) (d : StateDir) : option StateDir :=
  match sd_caOutcome d with
  | None => Some d
  | Some _ => if ok then Some (mkStateDir (sd_pidfile d) None) else None
  end.

Definition caOutcomeFromSupervisor (o : ca_outcome) : CAOutcome :=
  match o with CAOutcomeRecovered => CARecovered | CAOutcomeLost => CALost | CAOutcomeUnknown => CAUnknown end.

(** The checks and clearings of [SpawnReacquireDetached] before it forks; [None]: it refuses. *)
Definition spawn_reacquire_prepare (clearOK rmOK : bool) (alive : Z → bool) (d : StateDir) : option StateDir :=
  match ClearCAOutcome clearOK d with
  | None => None
  | Some d =>
      match sd_pidfile d with
      | None => Some d
      | Some data =>
          let live := match ParseInt (TrimSpace data) with
                      | Ok pid => (0 <? pid) && alive pid
                      | Err _ => false
                      end in
          if (live : bool) then None
          else if rmOK then Some (mkStateDir None (sd_caOutcome d)) else None
      end
  end.

(** The writes of a re-acquiring supervisor to its directory, in order: the outcome, then the pidfile. *)
Inductive dir_write := WOutcome (ok caLost : bool) | WPidfile (pid : string).

Definition reacquire_writes (outcomeOK caLost : bool) (pid : string) : list dir_write :=
  [WOutcome outcomeOK caLost; WPidfile pid].

Definition do_write (w : dir_write) (d : StateDir) : StateDir :=
  match w with
  | WOutcome ok caLost => recordReacquireCAOutcome ok caLost d
  | WPidfile pid => mkStateDir (Some (pid +:+ newline)) (sd_caOutcome d)
  end.

Definition do_writes (ws : list dir_write) (d : StateDir) : StateDir := fold_left (λ d w, do_write w d) ws d.

(** [SpawnDetached] takes a non-empty pidfile for readiness. *)
Definition spawn_ready (d : StateDir) : bool :=
  match sd_pidfile d with Some data => negb (String.eqb data "") | None => false end.

(** ** Other processes *)

(** [sig]: the error of signal 0. *)
Inductive kill0 := KillOK | KillEPERM | KillESRCH | KillOther.

Definition PidAlive (sig : kill0) (pid : Z) : bool :=
  if pid <=? 0 then false else match sig with KillOK | KillEPERM => true | _ => false end.

Inductive stale_file := StalePidfile | StaleSock.

Definition CleanupStaleFiles : list stale_file := [StalePidfile; StaleSock].

Definition CheckAndReconcile (sig : kill0) (connectable : bool) (pid : Z) (sockPath : string)
    : bool * list stale_file :=
  if pid <=? 0 then (false, [])
  else
    let cleanup := if String.eqb sockPath "" then [] else CleanupStaleFiles in
    if PidAlive sig pid then
      if negb (String.eqb sockPath "") && negb connectable then (false, cleanup) else (true, [])
    else (false, cleanup).

(** The states of an agent's channel. *)
Inductive AgentChannelState := AgentChannelHealthy | AgentChannelDownGuestAlive | AgentChannelGuestGone | AgentChannelUnknown.

Definition isDefiniteGuestGone (err : string) : bool :=
  Contains err "no such file or directory" || Contains err "connection refused".

(** [dataErr]: [None] when the dial succeeded. *)
Definition classifyAgentHealth (controlErr : string) (dataErr : option string) : AgentChannelState :=
  match dataErr with
  | None => AgentChannelDownGuestAlive
  | Some d => if isDefiniteGuestGone d && isDefiniteGuestGone controlErr then AgentChannelGuestGone else AgentChannelUnknown
  end.

Definition checkAgentHealth (dialer : bool) (ping : option string) (dial : option string) : AgentChannelState :=
  if negb dialer then AgentChannelUnknown
  else match ping with
       | None => AgentChannelHealthy
       | Some controlErr => classifyAgentHealth controlErr dial
       end.

Definition Healthy (s : AgentChannelState) : bool := match s with AgentChannelHealthy => true | _ => false end.

(** ** The command *)

Inductive upgrade_refusal :=
| UpNotRunning | UpNoSupervisor | UpIncompleteNetns | UpNoop | UpNoSpawnSpec.

Definition supervisorSockLooksAlive (sig : kill0) (pid : Z) (sockPath : string) (connectable : bool) : bool :=
  PidAlive sig pid && negb (String.eqb sockPath "") && connectable.

(** [mine]: the hash of this binary; [theirs]: what the supervisor reports; [health]: its probe; all [None] on errors. *)
Definition upgrade_noop (force : bool) (mine theirs : option string) (health : option AgentChannelState) : bool :=
  negb force &&
  match mine, theirs with
  | Some m, Some t =>
      String.eqb t m && match health with Some h => Healthy h | None => false end
  | _, _ => false
  end.

(** The checks of [runSupervisorUpgradeWith] before anything is spawned. *)
Definition upgrade_checks (sb : Sandbox) (force : bool) (sig : kill0) (sockPath : string) (connectable : bool)
    (mine theirs : option string) (health : option AgentChannelState) (spawnSpec : bool) : result upgrade_refusal unit :=
  if negb (bool_decide (SState sb = Running)) then Err UpNotRunning
  else if negb (supervisorSockLooksAlive sig (SupervisorPID sb) sockPath connectable) then Err UpNoSupervisor
  else if negb (netns_complete sb) then Err UpIncompleteNetns
  else if upgrade_noop force mine theirs health then Err UpNoop
  else if negb spawnSpec then Err UpNoSpawnSpec
  else Ok tt.

(** After the request: kill the replacement, or record it. *)
Inductive upgrade_end := UpKill | UpRecord.

Definition upgrade_after (r : option bool) : upgrade_end :=
  match r with Some true => UpRecord | _ => UpKill end.

Definition SetSupervisor (pid : Z) (sock : string) (sb : Sandbox) : Sandbox :=
  set_SupervisorSock sock (set_SupervisorPID pid sb).

(** ** What the acknowledgement means *)

Lemma performHandoff_over dial p fd mitm sent r :
  performHandoff dial (p, fd) mitm (sent, r) = HandedOver ↔
  dial = true ∧ Validate mitm p = None ∧ pl_Present p = bool_decide (is_Some fd) ∧ sent = true ∧
  ∃ a, r = AckData a ∧ ack_OK a = true.
Proof.
  unfold performHandoff, Offer, receiveAck. cbn [fst snd]. split.
  - intros H. split_matches; try done; reflect_bools; simplify_eq; repeat split; eauto; by destruct sent.
  - intros (-> & -> & -> & -> & a & -> & Ha). by destruct fd; simpl; rewrite Ha.
Qed.

(** The outgoing side reports success only when the replacement's answer to this very payload was a confirmation; the
    replacement then has the runtime of the child that the record names in its driver, and, behind a proxy, the
    outgoing side's certificate authority.  [fd'] is the descriptor as it arrives. *)
Lemma handed_over_is_adopted dial sup v m sent io sb fd' closed ack out :
  adopt_payload io sb (Some (mkDatagram (Some (buildHandoffPayload sup v m).1) (Some (fd_list fd')))) ∅ = (closed, ack, out) →
  handoffFromLiveSupervisor dial sup v m (sent, match ack with Some a => AckData a | None => AckNone end) = HandedOver →
  ∃ p nets rt,
    out = AdoptedConfirmed p nets ∧ nets = {[ID sb := mkNetState rt (rt_PerimConn rt) false]} ∧
    ai_conn io = Some (rt_PerimConn rt) ∧ is_Some (lp_FD sup) ∧
    rt_ChildPID rt = NetnsChildPID sb ∧ rt_ChildPGID rt = NetnsChildPGID sb ∧ 0 < rt_ChildPGID rt ∧
    readProcStartTime (ai_stat io) = Ok (NetnsChildStartTime sb) ∧
    (lp_HasMITMProxy sup = true → seed_of p = lp_CAKeyPair sup).
Proof.
  unfold handoffFromLiveSupervisor. destruct (buildHandoffPayload sup v m) as [p fd] eqn:Hb.
  rewrite performHandoff_over. cbn [fst].
  intros Ha (_ & Hval & Hpres & _ & a & Hack & Hok).
  destruct ack as [ack|]; [injection Hack as ->|done].
  revert Ha. unfold adopt_payload, Accept. cbn [dg_payload dg_fds].
  destruct fd' as [fd'|]; simpl; [|destruct (pl_Present p); simpl; [by intros [=]|]].
  2:{ rewrite orb_true_r. destruct (negb _); simpl; intros ?; simplify_eq/=. }
  destruct (pl_Present p) eqn:Hp; simpl; [|by intros [=]].
  destruct (pl_Version p =? CurrentVersion); simpl; [|intros ?; by simplify_eq/=].
  rewrite Hp. simpl.
  destruct (AdoptNetnsRuntime _ _ _ _ _ _ _ _) as [rt|e] eqn:Hrt; [|intros ?; by simplify_eq/=].
  apply AdoptNetnsRuntime_spec in Hrt as (_ & _ & Hpg & _ & _ & _ & Hst & Hc & Hrt).
  unfold AdoptRuntime. rewrite lookup_empty. simpl. destruct (ai_confirm io); intros ?; simplify_eq/=.
  exists p. eexists. exists rt. split; [done|]. split; [done|]. split; [done|].
  unfold buildHandoffPayload in Hb. injection Hb as <- <-.
  split; [by apply bool_decide_eq_true in Hp|].
  rewrite Hrt; cbn [rt_ChildPID rt_ChildPGID]. split; [done|]. split; [done|]. split; [done|]. split; [done|].
  intros Hm. unfold Validate, seed_of in *. simpl in *.
  rewrite Hm in Hval. simpl in Hval.
  destruct (lp_CAKeyPair sup) as [[c k]|]; simpl in *; [|done].
  destruct (String.eqb c ""), (String.eqb k ""); done.
Qed.

(** A hand-off in which nothing fails succeeds. *)
Lemma handoff_succeeds sup v m io sb fd fd' c :
  lp_FD sup = Some fd → (lp_HasMITMProxy sup = true → ∃ cert key, lp_CAKeyPair sup = Some (cert, key) ∧ cert ≠ ""%string ∧ key ≠ ""%string) →
  netns_complete sb = true → readProcStartTime (ai_stat io) = Ok (NetnsChildStartTime sb) → ai_conn io = Some c →
  ai_confirm io = true →
  ∃ closed nets, adopt_payload io sb (Some (mkDatagram (Some (buildHandoffPayload sup v m).1) (Some [fd']))) ∅ =
      (closed, Some Confirm_ack, AdoptedConfirmed (buildHandoffPayload sup v m).1 nets) ∧
    handoffFromLiveSupervisor true sup v m (true, AckData Confirm_ack) = HandedOver.
Proof.
  intros Hfd Hca Hn Hst Hc Hok. unfold netns_complete in Hn. reflect_bools.
  destruct (String.eqb_spec (GuestTapName sb) ""), (String.eqb_spec (CHAPISocket sb) ""); try done.
  assert (Hrt : AdoptNetnsRuntime (ai_stat io) (ai_conn io) (NetnsChildPID sb) (NetnsChildPGID sb)
                  (NetnsChildStartTime sb) (GuestTapName sb) (CHAPISocket sb) (Some fd') =
                Ok (mkRuntime c (CHAPISocket sb) (GuestTapName sb) (NetnsChildPID sb) (NetnsChildPGID sb)
                      (NetnsChildStartTime sb) "" "" false)).
  { apply AdoptNetnsRuntime_spec. simpl. eauto 20. }
  do 2 eexists. split.
  - unfold adopt_payload, Accept, buildHandoffPayload. rewrite Hfd. simpl. rewrite Hrt. unfold AdoptRuntime.
    rewrite lookup_empty, Hok. done.
  - unfold handoffFromLiveSupervisor, buildHandoffPayload. rewrite Hfd. apply performHandoff_over.
    repeat split; [|eauto]. unfold Validate. simpl. destruct (lp_HasMITMProxy sup); [|done].
    destruct (Hca eq_refl) as (cert & key & -> & ? & ?). simpl.
    destruct (String.eqb_spec cert ""), (String.eqb_spec key ""); done.
Qed.

(** Only a confirmed hand-off detaches, and no answer to the request stops the VM. *)
Lemma handle_handoff_signals post peer fn s s' st body :
  handle_handoff post peer fn s = (s', st, body) →
  sg_stop s' = sg_stop s ∧
  (s' = s ∨ sg_detach s' = true ∧ ∃ f sock, fn = Some f ∧ peer = Some sock ∧ sock ≠ ""%string ∧ f sock = HandedOver ∧
                            RequestHandoff (Some (st, body)) = Some true).
Proof.
  unfold handle_handoff. destruct post; simpl; [|intros [= <- <- <-]; auto].
  destruct peer as [[|c sock]|]; try (intros [= <- <- <-]; by auto).
  destruct fn as [f|]; [|intros [= <- <- <-]; auto].
  destruct (f (String.String c sock)) eqn:Hf; intros [= <- <- <-]; simpl; auto. split; [done|]. right. split; [done|].
  exists f, (String.String c sock). done.
Qed.

(** ** The crash path *)

Lemma reacquirePreflight_ok sb :
  reacquirePreflight sb = Ok tt ↔
  netns_complete sb = true ∧ NetnsControlSocket sb ≠ ""%string ∧ NetnsControlToken sb ≠ ""%string.
Proof.
  unfold reacquirePreflight, netns_complete. rewrite !Z.ltb_antisym.
  destruct (Z.leb_spec (NetnsChildPID sb) 0), (Z.leb_spec (NetnsChildPGID sb) 0); simpl; try (split; [done|intuition done]).
  destruct (NetnsChildStartTime sb =? 0); simpl; [split; [done|intuition done]|].
  destruct (String.eqb_spec (GuestTapName sb) ""); simpl; [split; [done|intuition done]|].
  destruct (String.eqb_spec (CHAPISocket sb) ""); simpl; [split; [done|intuition done]|].
  destruct (String.eqb_spec (NetnsControlSocket sb) ""); simpl; [split; [done|intuition done]|].
  destruct (String.eqb_spec (NetnsControlToken sb) ""); simpl; [split; [done|intuition done]|].
  intuition done.
Qed.

(** A replacement for a dead supervisor that succeeds holds the perimeter of the child its record names, over a
    connection that child now pumps on, and its driver has that runtime and no other; when it fails its driver
    is unchanged, no descriptor of the fresh pair stays open, and the child is as it was unless it had already
    accepted. *)
Lemma reacquire_sound uid rio stat conn sb srv nets srv' closed nets' r :
  ReacquirePerimeterForSandbox uid rio stat conn sb srv nets = (srv', closed, nets', r) →
  match r with
  | Ok rt =>
      cs_sandboxID srv = SandboxID_String (ID sb) ∧ cs_selfPID srv = NetnsChildPID sb ∧
      cs_selfStart srv = NetnsChildStartTime sb ∧ rq_peer rio = Some uid ∧
      readProcStartTime stat = Ok (NetnsChildStartTime sb) ∧
      rq_conn rio = Some (sc_conn (cs_pump srv')) ∧ sc_closed (cs_pump srv') = false ∧
      nets !! ID sb = None ∧ nets' = <[ID sb := mkNetState rt (rt_PerimConn rt) false]> nets ∧
      rt_ChildPID rt = NetnsChildPID sb ∧ rt_ChildPGID rt = NetnsChildPGID sb
  | Err _ => nets' = nets
  end ∧
  (∀ perim pump, rq_pair rio = Some (perim, pump) → closed = [] ∨ (perim ∈ closed ∧ pump ∈ closed)) ∧
  (srv' = srv ∨ sc_conn (cs_pump srv) ∈ sc_shut (cs_pump srv')).
Proof.
  unfold ReacquirePerimeterForSandbox. destruct (reacquirePreflight sb) as [[]|e] eqn:Hpf.
  2:{ intros [= <- <- <- <-]. auto. }
  destruct (ReacquirePerimeter _ _ _ _ _ _) as [[srv1 cl] [perim|e]] eqn:Hrq;
    pose proof (ReacquirePerimeter_spec _ _ _ _ _ _ _ _ _ Hrq) as Hs; simpl in Hs.
  - destruct Hs as (Hid & Hpid & Hst & _ & Hpeer & _ & pump & c & Hpair & -> & Hconn & Hc & Hshut & Hcl).
    assert (Hpairs : ∀ perim' pump', rq_pair rio = Some (perim', pump') →
              [pump] ++ [perim] = [] ∨ perim' ∈ [pump] ++ [perim] ∧ pump' ∈ [pump] ++ [perim]).
    { rewrite Hpair. intros ? ? [= <- <-]. right. set_solver. }
    destruct (AdoptNetnsRuntime _ _ _ _ _ _ _ _) as [rt|e] eqn:Hrt; [|intros [= <- <- <- <-]; auto].
    apply AdoptNetnsRuntime_spec in Hrt as (_ & _ & _ & _ & _ & _ & Hrd & _ & Hrt).
    unfold AdoptRuntime. destruct (nets !! ID sb) eqn:Hn; intros [= <- <- <- <-]; [auto|].
    split; [|auto]. rewrite Hconn, Hc, Hcl. rewrite Hrt. simpl. repeat split; congruence.
  - destruct Hs as [Hcl Hsrv]. intros [= <- <- <- <-]. split; [done|]. split.
    { intros perim pump Hp. destruct Hcl as [->|(? & ? & Hp' & ->)]; [auto|right]. set_solver. }
    destruct Hsrv as [->|[_ ?]]; auto.
Qed.

(** *** The outcome a spawner reads is that of the run it spawned *)

Lemma ReadCAOutcome_written p o : ReadCAOutcome (mkStateDir p (Some (ca_outcome_text o +:+ newline))) = o.
Proof. by destruct o; vm_compute. Qed.

Lemma spawn_prepare_clears cok rok alive d d' :
  spawn_reacquire_prepare cok rok alive d = Some d' →
  sd_caOutcome d' = None ∧ sd_pidfile d' = None ∧
  ∀ data pid, sd_pidfile d = Some data → ParseInt (TrimSpace data) = Ok pid → 0 < pid → alive pid = false.
Proof.
  unfold spawn_reacquire_prepare, ClearCAOutcome. intros H.
  assert (∃ dm, sd_caOutcome dm = None ∧ sd_pidfile dm = sd_pidfile d ∧
            match sd_pidfile dm with
            | None => Some dm
            | Some data =>
                if match ParseInt (TrimSpace data) with Ok pid => (0 <? pid) && alive pid | Err _ => false end then None
                else if rok then Some (mkStateDir None (sd_caOutcome dm)) else None
            end = Some d') as (dm & Hca & Hpf & Hm).
  { destruct (sd_caOutcome d) eqn:Hc; [destruct cok; [|done]|]; eexists; (split; [|split; [|exact H]]); done. }
  clear H. rewrite <- Hpf. destruct (sd_pidfile dm) as [data|] eqn:Hd.
  - destruct (ParseInt (TrimSpace data)) as [pid|e] eqn:Hp.
    + destruct (Z.ltb_spec 0 pid), (alive pid) eqn:Ha; simpl in Hm; try done; (destruct rok; [|done]);
        injection Hm as <-; simpl; rewrite Hca; (split; [done|]); (split; [done|]);
        intros ? ? [= <-]; rewrite Hp; intros [= <-]; try done; lia.
    + destruct rok; [|done]. injection Hm as <-. simpl. rewrite Hca. split; [done|]. split; [done|].
      intros ? ? [= <-]. by rewrite Hp.
  - injection Hm as <-. rewrite Hca. done.
Qed.

(** Whatever a previous run left behind, at every point at which the pidfile shows the new supervisor ready, the outcome
    read is the one of this run, or unknown when it could not be written. *)
Lemma ca_outcome_fresh cok rok alive d d' ok caLost pid n :
  spawn_reacquire_prepare cok rok alive d = Some d' →
  spawn_ready (do_writes (take n (reacquire_writes ok caLost pid)) d') = true →
  ReadCAOutcome (do_writes (take n (reacquire_writes ok caLost pid)) d') =
    if ok then (if caLost then CAOutcomeLost else CAOutcomeRecovered) else CAOutcomeUnknown.
Proof.
  intros (Hca & Hpf & _)%spawn_prepare_clears. destruct d' as [p o]; simpl in *. subst.
  destruct n as [|[|n]]; simpl; [done| |].
  - unfold recordReacquireCAOutcome, WriteCAOutcome. by destruct ok.
  - rewrite take_nil. simpl. intros _. unfold recordReacquireCAOutcome, WriteCAOutcome.
    destruct ok; simpl; [apply ReadCAOutcome_written|done].
Qed.

(** A stale outcome would be read if it were not cleared. *)
Lemma ca_outcome_stale_without_clear :
  let d := mkStateDir None (Some "recovered"%string) in
  spawn_ready (do_writes (reacquire_writes false true "42") d) = true ∧
  ReadCAOutcome (do_writes (reacquire_writes false true "42") d) = CAOutcomeRecovered.
Proof. by vm_compute. Qed.

(** ** The socket's name *)

Lemma removeOwnSocket_keeps own other : other ≠ own → removeOwnSocket (Some own) (Some other) = Some other.
Proof. intros H. simpl. by rewrite decide_False by congruence. Qed.

(** The shutdown of the server undoes that care: its listener unlinks the replacement's name. *)
Lemma listener_unlinks_replacement own other :
  other ≠ own → (listener_Close false (removeOwnSocket (Some own) (Some other))).2 = None.
Proof. intros H. by rewrite removeOwnSocket_keeps. Qed.

(** ** Other processes *)

(** A supervisor that has not bound its socket yet is taken for a recycled pid: its record is cleared and the names it
    is about to use are removed. *)
Lemma check_takes_starting_for_stale pid sock :
  0 < pid → sock ≠ ""%string → CheckAndReconcile KillOK false pid sock = (false, CleanupStaleFiles).
Proof.
  intros Hp Hs. unfold CheckAndReconcile, PidAlive. destruct (Z.leb_spec pid 0); [lia|].
  by destruct (String.eqb_spec sock "").
Qed.

(** A guest is declared gone only when both probes were refused outright, and healthy only when it answered. *)
Lemma checkAgentHealth_spec dialer ping dial :
  match checkAgentHealth dialer ping dial with
  | AgentChannelHealthy => dialer = true ∧ ping = None
  | AgentChannelDownGuestAlive => is_Some ping ∧ dial = None
  | AgentChannelGuestGone =>
      ∃ c d, ping = Some c ∧ dial = Some d ∧ isDefiniteGuestGone c = true ∧ isDefiniteGuestGone d = true
  | AgentChannelUnknown => dialer = false ∨ is_Some ping ∧ is_Some dial
  end.
Proof.
  unfold checkAgentHealth, classifyAgentHealth. destruct dialer; simpl; [|auto].
  destruct ping as [c|]; [|done]. destruct dial as [d|]; [|eauto].
  destruct (isDefiniteGuestGone d) eqn:Hd, (isDefiniteGuestGone c) eqn:Hc; simpl; eauto 10.
Qed.

(** The command replaces only a running sandbox with a live supervisor and a complete identity, and never one whose
    supervisor runs this binary and has proven healthy, unless forced. *)
Lemma upgrade_checks_ok sb force sig sock conn mine theirs health spec :
  upgrade_checks sb force sig sock conn mine theirs health spec = Ok tt →
  SState sb = Running ∧ PidAlive sig (SupervisorPID sb) = true ∧ conn = true ∧ netns_complete sb = true ∧ spec = true ∧
  (force = true ∨ mine = None ∨ theirs ≠ mine ∨ health ≠ Some AgentChannelHealthy).
Proof.
  unfold upgrade_checks, supervisorSockLooksAlive. intros H. case_bool_decide; simpl in H; [|done].
  destruct (PidAlive sig _), (String.eqb sock ""), conn; simpl in H; try done.
  destruct (netns_complete sb); simpl in H; [|done]. destruct (upgrade_noop _ _ _ _) eqn:Hn; [done|].
  destruct spec; simpl in H; [|done]. do 5 (split; [done|]). unfold upgrade_noop in Hn.
  destruct force; [auto|]. destruct mine as [m|]; [|auto]. right. right. destruct theirs as [t|]; [|auto].
  destruct (String.eqb_spec t m); [|left; congruence]. right. destruct health as [[]|]; simpl in *; congruence.
Qed.

(** ** Witnesses *)

Definition hd_live : LivePerimeter := mkLive (Some 7) (Some ("cert"%string, "key"%string)) true.

Definition hd_stat : file_read :=
  FileData (stat_line "77" "a (b) c" (chars <$> ["S"; "100"; "77"]%string ++ replicate 16 "0"%string ++ ["1"; "0"]%string)).

Definition hd_io : AdoptIO := mkAdoptIO hd_stat (Some 11) true.

Lemma handed_over_is_adopted_witness :
  ∃ p nets rt,
    (adopt_payload hd_io example_sandbox (Some (mkDatagram (Some (buildHandoffPayload hd_live 2 512).1) (Some [9]))) ∅).2 =
      AdoptedConfirmed p nets ∧ nets = {[ID example_sandbox := mkNetState rt (rt_PerimConn rt) false]} ∧
    seed_of p = Some ("cert"%string, "key"%string).
Proof.
  destruct (handed_over_is_adopted true hd_live 2 512 true hd_io example_sandbox (Some 9) [9] (Some Confirm_ack)
              (adopt_payload hd_io example_sandbox (Some (mkDatagram (Some (buildHandoffPayload hd_live 2 512).1) (Some [9]))) ∅).2)
    as (p & nets & rt & H1 & H2 & _ & _ & _ & _ & _ & _ & H3).
  - vm_compute. reflexivity.
  - vm_compute. reflexivity.
  - exists p, nets, rt. split; [exact H1|]. split; [exact H2|]. exact (H3 eq_refl).
Defined.

Definition hd_server : netnsControlServer :=
  mkControlServer (chars "secret") (SandboxID_String (ID example_sandbox)) 77 1 (newSwappableConn 5).

Definition hd_reacquire : Reacquire :=
  mkReacquire (Some (of_chars (hex_encode (chars "secret")))) true (Some 1000) (Some (20, 21)) (Some 22) true true.

Lemma reacquire_sound_witness :
  sc_conn (cs_pump (ReacquirePerimeterForSandbox 1000 hd_reacquire hd_stat (Some 23) example_sandbox hd_server ∅).1.1.1) = 22.
Proof.
  destruct (ReacquirePerimeterForSandbox 1000 hd_reacquire hd_stat (Some 23) example_sandbox hd_server ∅)
    as [[[srv closed] nets] r] eqn:E.
  pose proof (reacquire_sound _ _ _ _ _ _ _ _ _ _ _ E) as [H _].
  assert (Hr : r = (ReacquirePerimeterForSandbox 1000 hd_reacquire hd_stat (Some 23) example_sandbox hd_server ∅).2)
    by (rewrite E; reflexivity).
  vm_compute in Hr. subst r. destruct H as (_ & _ & _ & _ & _ & H & _).
  cbn [fst]. injection H as <-. reflexivity.
Defined.

Lemma ca_outcome_fresh_witness :
  ReadCAOutcome (do_writes (reacquire_writes true true "42") (mkStateDir None None)) = CAOutcomeLost.
Proof.
  exact (ca_outcome_fresh true true (λ _, false) (mkStateDir (Some "41"%string) (Some "recovered"%string))
           (mkStateDir None None) true true "42" 2 eq_refl eq_refl).
Defined.
