(* ===== verification/HandoffRace.v ===== *)
(** * A hand-off as it happens: the command, the outgoing and the incoming supervisor

    The processes of `nexus supervisor-upgrade` one step at a time: the outgoing supervisor's request handler and its main
    loop (ipc.go, handoff_verb.go, the end of RunDetached in supervisor.go), the replacement (adopt.go, serve_adopted.go)
    and the command (cmd_supervisor_upgrade.go).  Their decisions are the functions of Handoff.  [Faults] says which
    failures may happen; requests to stop, signals and the death of the VM may always happen. *)

From stdpp Require Import prelude gmap strings list relations.
From Stdlib Require Import ZArith Lia.
From S2P Require Import Prelude GoStrings Domain Sandbox Store Reap Netns Handoff.

(** ** Worlds *)

(** The goroutine that handles the request.  An answer is first in the buffer of the HTTP server ([HBuffered]), with the detach
    signal given; it is on the wire only once it is flushed ([HAnswered]). *)
Inductive handler :=
| HIdle
| HWaiting
| HBuffered (answer : http_status * option (bool * string))
| HAnswered (answer : http_status * option (bool * string)).

(** The main goroutine, [MExited] with its cause; [MKilled] without running anything. *)
Inductive main_state := MRunning | MExited (c : shutdownCause) | MKilled.

Inductive incoming := IListening | IAdopted (nets : gmap SandboxID netState) | ITail | IServing | IGone.

Inductive command := CWaiting | CKilling | CRecording | CDone (moved : bool) | CDied.

(** [w_ack]: the acknowledgement on its way, if the replacement wrote one.  [w_asked]: the outgoing supervisor was
    asked to stop or to detach, or the VM died by itself; [w_term]: it was sent a signal.  [w_confirmed]: a confirmation has
    been written. *)
Record World := mkWorld {
  w_vm : bool;
  w_sig : Signals;
  w_handler : handler;
  w_main : main_state;
  w_inc : incoming;
  w_cli : command;
  w_ack : option Ack;
  w_asked : bool;
  w_term : bool;
  w_confirmed : bool;
}.

Definition start : World :=
  mkWorld true (mkSignals false false) HIdle MRunning IListening CWaiting None false false false.

Definition set_w_inc (i : incoming) (w : World) : World :=
  mkWorld (w_vm w) (w_sig w) (w_handler w) (w_main w) i (w_cli w) (w_ack w) (w_asked w) (w_term w) (w_confirmed w).
Definition set_w_cli (c : command) (w : World) : World :=
  mkWorld (w_vm w) (w_sig w) (w_handler w) (w_main w) (w_inc w) c (w_ack w) (w_asked w) (w_term w) (w_confirmed w).
Definition set_w_main (m : main_state) (w : World) : World :=
  mkWorld (w_vm w) (w_sig w) (w_handler w) m (w_inc w) (w_cli w) (w_ack w) (w_asked w) (w_term w) (w_confirmed w).

Definition running (w : World) : bool := match w_main w with MRunning => true | _ => false end.

(** A process that will manage the VM, or does. *)
Definition inc_owns (w : World) : bool := match w_inc w with IAdopted _ | ITail | IServing => true | _ => false end.
Definition supervised (w : World) : bool := running w || inc_owns w.

(** The answer the handler gave, flushed or not. *)
Definition given (w : World) : option (http_status * option (bool * string)) :=
  match w_handler w with HBuffered a | HAnswered a => Some a | _ => None end.

(** [ft_crash]: a supervisor is killed; [ft_command]: the request fails although the supervisor goes on, or its
    response is lost; [ft_flush]: the outgoing supervisor exits with its answer still in the buffer; [ft_deadline]: the wait for the acknowledgement or for the old process times out; [ft_tail]: the
    replacement fails after its confirmation. *)
Record Faults := mkFaults { ft_crash : bool; ft_command : bool; ft_flush : bool; ft_deadline : bool; ft_tail : bool }.

Definition no_faults : Faults := mkFaults false false false false false.

Definition keeps_vm (t : teardown) : bool := match t with TdNothing | TdReconcile => true | _ => false end.

Section steps.
(** The perimeter the outgoing side hands over, the record, and the faults that may happen. *)
Context (live : LivePerimeter) (vcpus mem : Z) (sb : Sandbox) (ephemeral : bool) (ft : Faults).

Definition payload : Payload := (buildHandoffPayload live vcpus mem).1.

(** The handler with the answer of the far end: [None] for one that never comes. *)
Definition answer_of (dial : bool) (ack : option Ack) (s : Signals) : Signals * handler :=
  let '(s, st, body) :=
    handle_handoff true (Some "handoff.sock"%string)
      (Some (λ _, handoffFromLiveSupervisor dial live vcpus mem
                    (true, match ack with Some a => AckData a | None => AckNone end))) s in
  (s, HBuffered (st, body)).

(** *** The outgoing supervisor *)

Definition offered (w : World) : World :=
  mkWorld (w_vm w) (w_sig w) HWaiting (w_main w) (w_inc w) (w_cli w) (w_ack w) (w_asked w) (w_term w) (w_confirmed w).

Definition answered (dial : bool) (ack : option Ack) (w : World) : World :=
  let '(s, h) := answer_of dial ack (w_sig w) in
  mkWorld (w_vm w) s h (w_main w) (w_inc w) (w_cli w) (w_ack w) (w_asked w) (w_term w) (w_confirmed w).

Inductive out_step : World → World → Prop :=
| o_offer w :
    w_handler w = HIdle → running w = true → w_inc w = IListening → Validate (lp_HasMITMProxy live) payload = None →
    out_step w (offered w)
| o_invalid w :
    w_handler w = HIdle → running w = true → Validate (lp_HasMITMProxy live) payload ≠ None →
    out_step w (answered true None w)
| o_unreachable w :
    w_handler w = HIdle → running w = true → w_inc w = IGone → out_step w (answered false None w)
| o_ack w a :
    w_handler w = HWaiting → running w = true → w_ack w = Some a → out_step w (answered true (Some a) w)
| o_no_ack w :
    w_handler w = HWaiting → running w = true → ft_deadline ft = true ∨ w_ack w = None ∧ w_inc w = IGone →
    out_step w (answered true None w)
| o_flush w a :
    w_handler w = HBuffered a → running w = true →
    out_step w
      (mkWorld (w_vm w) (w_sig w) (HAnswered a) (w_main w) (w_inc w) (w_cli w) (w_ack w) (w_asked w) (w_term w) (w_confirmed w))
| o_exit w cause :
    running w = true → ft_flush ft = true ∨ (∀ a, w_handler w ≠ HBuffered a) → awaitShutdown (w_term w) (w_sig w) (negb (w_vm w)) cause →
    out_step w
      (mkWorld (w_vm w && keeps_vm (shutdown_action ephemeral cause)) (w_sig w) (w_handler w) (MExited cause) (w_inc w)
         (w_cli w) (w_ack w) (w_asked w) (w_term w) (w_confirmed w)).

(** *** The replacement *)

(** The descriptor arrives under the number [fd], if the perimeter that is handed over has one. *)
Definition datagram (fd : Z) : option Datagram :=
  Some (mkDatagram (Some payload) (Some match (buildHandoffPayload live vcpus mem).2 with Some _ => [fd] | None => [] end)).

(** A confirmation can be written only while the outgoing side still waits on the connection. *)
Inductive inc_step : World → World → Prop :=
| i_decide w io fd closed ack out :
    w_inc w = IListening → w_handler w = HWaiting → (ai_confirm io = true → running w = true) →
    adopt_payload io sb (datagram fd) ∅ = (closed, ack, out) →
    inc_step w
      (mkWorld (w_vm w) (w_sig w) (w_handler w) (w_main w)
         match out with AdoptedConfirmed _ nets => IAdopted nets | _ => IGone end
         (w_cli w) ack (w_asked w) (w_term w)
         (w_confirmed w || match out with AdoptedConfirmed _ _ => true | _ => false end))
| i_accept_timeout w :
    w_inc w = IListening → is_Some (given w) ∨ running w = false → inc_step w (set_w_inc IGone w)
| i_old_gone w nets :
    w_inc w = IAdopted nets → running w = false ∨ ft_deadline ft = true → inc_step w (set_w_inc ITail w)
| i_serve w : w_inc w = ITail → inc_step w (set_w_inc IServing w)
| i_tail_fails w : w_inc w = ITail → ft_tail ft = true → inc_step w (set_w_inc IGone w).

(** *** The command *)

Inductive cli_step : World → World → Prop :=
| c_answer w a :
    w_cli w = CWaiting → w_handler w = HAnswered a →
    cli_step w (set_w_cli match upgrade_after (RequestHandoff (Some a)) with UpKill => CKilling | UpRecord => CRecording end w)
| c_error w :
    w_cli w = CWaiting → ft_command ft = true ∨ running w = false ∧ (∀ a, w_handler w ≠ HAnswered a) →
    cli_step w (set_w_cli match upgrade_after (RequestHandoff None) with UpKill => CKilling | UpRecord => CRecording end w)
| c_kill w : w_cli w = CKilling → cli_step w (set_w_cli (CDone false) (set_w_inc IGone w))
| c_record w : w_cli w = CRecording → cli_step w (set_w_cli (CDone true) w)
| c_dies w : ft_command ft = true → cli_step w (set_w_cli CDied w).

(** *** The rest of the world *)

Inductive env_step : World → World → Prop :=
| e_stop w s st :
    handle_stop true (w_sig w) = (s, st) → running w = true →
    env_step w (mkWorld (w_vm w) s (w_handler w) (w_main w) (w_inc w) (w_cli w) (w_ack w) true (w_term w) (w_confirmed w))
| e_detach w s st :
    handle_detach true (w_sig w) = (s, st) → running w = true →
    env_step w (mkWorld (w_vm w) s (w_handler w) (w_main w) (w_inc w) (w_cli w) (w_ack w) true (w_term w) (w_confirmed w))
| e_signal w :
    running w = true →
    env_step w (mkWorld (w_vm w) (w_sig w) (w_handler w) (w_main w) (w_inc w) (w_cli w) (w_ack w) true true (w_confirmed w))
| e_vm_dies w :
    env_step w (mkWorld false (w_sig w) (w_handler w) (w_main w) (w_inc w) (w_cli w) (w_ack w) true (w_term w) (w_confirmed w))
| e_crash_out w : ft_crash ft = true → running w = true → env_step w (set_w_main MKilled w)
| e_crash_inc w : ft_crash ft = true → env_step w (set_w_inc IGone w).

Definition protocol_step (w w' : World) : Prop := out_step w w' ∨ inc_step w w' ∨ cli_step w w'.
Definition step (w w' : World) : Prop := protocol_step w w' ∨ env_step w w'.
End steps.

(** ** What holds with any faults *)

Section any_faults.
Context (live : LivePerimeter) (vcpus mem : Z) (sb : Sandbox) (ephemeral : bool) (ft : Faults).

Abbreviation step := (step live vcpus mem sb ephemeral ft).

Lemma performHandoff_acked p fd mitm a :
  Validate mitm p = None → pl_Present p = bool_decide (is_Some fd) → ack_OK a = true →
  performHandoff true (p, fd) mitm (true, AckData a) = HandedOver.
Proof. intros Hv Hp Ha. apply performHandoff_over. do 4 (split; [done|]). by exists a. Qed.

Lemma answer_of_spec dial ack s s' h :
  answer_of live vcpus mem dial ack s = (s', h) →
  sg_stop s' = sg_stop s ∧ ∃ st body, h = HBuffered (st, body) ∧
  ((s' = s ∧ RequestHandoff (Some (st, body)) ≠ Some true ∧
    ∀ a, dial = true → Validate (lp_HasMITMProxy live) (payload live vcpus mem) = None → ack = Some a → ack_OK a = false) ∨
   (sg_detach s' = true ∧ st = StatusOK ∧ body = Some (true, ""%string) ∧ ∃ a, ack = Some a ∧ ack_OK a = true)).
Proof.
  unfold answer_of, handle_handoff, handoffFromLiveSupervisor, payload.
  assert (Hpres : pl_Present (buildHandoffPayload live vcpus mem).1 =
                  bool_decide (is_Some (buildHandoffPayload live vcpus mem).2)) by done.
  destruct (buildHandoffPayload live vcpus mem) as [p fd]. cbn [fst snd] in *. simpl.
  destruct (performHandoff _ _ _ _) eqn:Hp; intros [= <- <-]; simpl; (split; [done|]); do 2 eexists; (split; [done|]).
  - right. apply performHandoff_over in Hp as (_ & _ & _ & _ & a & Ha & Hok). repeat split. destruct ack; [|done].
    naive_solver.
  - left. repeat split; [done|]. intros a -> Hv ->. destruct (ack_OK a) eqn:Hok; [|done].
    rewrite (performHandoff_acked p fd _ a) in Hp; done.
  - left. repeat split; [done|]. intros a -> Hv ->. destruct (ack_OK a) eqn:Hok; [|done].
    rewrite (performHandoff_acked p fd _ a) in Hp; done.
Qed.

Lemma adopt_payload_ack io m nets closed ack out :
  adopt_payload io sb m nets = (closed, ack, out) →
  match out with
  | AdoptedConfirmed _ _ => ack = Some Confirm_ack ∧ ai_confirm io = true
  | _ => ∀ a, ack = Some a → ack_OK a = false
  end.
Proof.
  unfold adopt_payload. destruct (Accept m) as [cl [[p fd]|e]]; [|by intros [= <- <- <-]].
  destruct (negb _); [intros [= <- <- <-]; by intros ? [= <-]|].
  destruct (negb _ || _); [intros [= <- <- <-]; by intros ? [= <-]|].
  destruct (AdoptNetnsRuntime _ _ _ _ _ _ _ _); [|intros [= <- <- <-]; by intros ? [= <-]].
  destruct (AdoptRuntime _ _ _) as [n [[]|e]]; [|intros [= <- <- <-]; by intros ? [= <-]].
  destruct (ai_confirm io); by intros [= <- <- <-].
Qed.

Record inv (w : World) : Prop := {
  inv_vm : w_vm w = false → w_asked w = true;
  inv_stop : sg_stop (w_sig w) = true ∨ w_term w = true → w_asked w = true;
  inv_detach : sg_detach (w_sig w) = true → w_asked w = true ∨ w_confirmed w = true;
  inv_ack : ∀ a, w_ack w = Some a → ack_OK a = true → w_confirmed w = true;
  inv_main : ∀ c, w_main w = MExited c → w_asked w = true ∨ c = shutdownByDetach ∧ w_confirmed w = true;
}.

Lemma race_inv_start : inv start.
Proof. by split; simpl; intuition. Qed.

Lemma inv_out w w' : out_step live vcpus mem ephemeral ft w w' → inv w → inv w'.
Proof.
  intros Hs [Hv Hst Hd Ha Hm].
  assert (Hans : ∀ dial ack, (∀ a, ack = Some a → w_ack w = Some a) → inv (answered live vcpus mem dial ack w)).
  { intros dial ack Hack. unfold answered. destruct (answer_of live vcpus mem dial ack (w_sig w)) as [s h] eqn:He.
    apply answer_of_spec in He as (Es & st & body & -> & [(-> & _)|(Hdet & _ & _ & a & -> & Hok)]); split; simpl; eauto.
    rewrite Es. auto. }
  destruct Hs; try (apply Hans; naive_solver).
  - by split.
  - by split.
  - split; simpl; try done.
    + intros [?|Hk]%andb_false_iff; [auto|]. destruct cause; simpl in *; try done; apply Hst; auto.
    + intros c [= <-]. destruct cause; simpl in *; [left; apply Hst; auto|left; apply Hst; auto| |left; apply Hv].
      * destruct (Hd ltac:(done)); auto.
      * by apply negb_true_iff.
Qed.

Lemma race_inv_step w w' : step w w' → inv w → inv w'.
Proof.
  intros [[Hs|[Hs|Hs]]|Hs] Hinv; [by eapply inv_out| | |]; destruct Hinv as [Hv Hst Hd Ha Hm].
  - destruct Hs as [w io fd closed ack out _ _ _ Had| | | |]; split; simpl; try done.
    + intros Hx. destruct (Hd Hx) as [?| ->]; auto.
    + intros a Hack Hok. apply adopt_payload_ack in Had. subst. destruct out; [by rewrite orb_true_r|..];
        rewrite (Had a eq_refl) in Hok; done.
    + intros c Hc. destruct (Hm c Hc) as [?|[? ->]]; auto.
  - destruct Hs; split; simpl; done.
  - destruct Hs; split; simpl; try done; auto; try (intros; by left).
Qed.

(** C11: With any faults: a hand-off never stops the VM, and the outgoing supervisor leaves it only after a confirmation --
    unless it is asked to, or killed. *)
Theorem handoff_keeps_vm w :
  rtc step start w →
  (w_vm w = false → w_asked w = true) ∧
  (w_asked w = false → w_main w ≠ MKilled → running w = false → w_main w = MExited shutdownByDetach ∧ w_confirmed w = true).
Proof.
  intros Hr. pose proof (rtc_invariant step inv race_inv_step _ _ Hr race_inv_start) as [Hv _ _ _ Hm].
  split; [done|]. intros Hn Hk Hrun. unfold running in Hrun. destruct (w_main w) as [|c|] eqn:E; try done.
  destruct (Hm c eq_refl) as [?|[-> ?]]; [congruence|done].
Qed.
End any_faults.

(** ** What holds without faults *)

Section no_faults.
Context (live : LivePerimeter) (vcpus mem : Z) (sb : Sandbox) (ephemeral : bool).

Abbreviation step := (step live vcpus mem sb ephemeral no_faults).
Abbreviation protocol_step := (protocol_step live vcpus mem sb ephemeral no_faults).

Abbreviation ok_answer := (StatusOK, Some (true, EmptyString)).

(** The states of a hand-off nobody interferes with. *)
Record calm (w : World) : Prop := {
  cm_vm : w_vm w = true ∧ sg_stop (w_sig w) = false ∧ w_term w = false;
  cm_main : w_main w = MRunning ∨ w_main w = MExited shutdownByDetach ∧ w_handler w = HAnswered ok_answer;
  cm_detach : sg_detach (w_sig w) = true → given w = Some ok_answer;
  cm_ok : given w = Some ok_answer → w_confirmed w = true ∧ sg_detach (w_sig w) = true;
  cm_confirmed : w_confirmed w = true →
    w_ack w = Some Confirm_ack ∧ inc_owns w = true ∧ (w_handler w = HWaiting ∨ given w = Some ok_answer);
  cm_owns : inc_owns w = true → w_confirmed w = true;
  cm_ack : ∀ a, w_ack w = Some a → a = Confirm_ack ∧ w_confirmed w = true ∨ ack_OK a = false;
  cm_idle : w_handler w = HIdle → w_ack w = None ∧ w_inc w = IListening;
  cm_waiting : w_handler w = HWaiting → Validate (lp_HasMITMProxy live) (payload live vcpus mem) = None;
  cm_early : (∀ a, w_handler w ≠ HAnswered a) → w_cli w = CWaiting;
  cm_answered : ∀ a, given w = Some a → RequestHandoff (Some a) = Some true → a = ok_answer;
  cm_kill : w_cli w = CKilling ∨ w_cli w = CDone false → given w ≠ Some ok_answer;
  cm_killed : w_cli w = CDone false → w_inc w = IGone;
  cm_record : w_cli w = CRecording ∨ w_cli w = CDone true → w_handler w = HAnswered ok_answer;
  cm_died : w_cli w ≠ CDied;
}.

Lemma calm_start : calm start.
Proof. split; simpl; try done; intuition done. Qed.

Lemma calm_answered dial ack w :
  calm w → (∀ a, ack = Some a → w_ack w = Some a ∧ w_handler w = HWaiting ∧ dial = true) →
  w_main w = MRunning → w_cli w = CWaiting → (w_confirmed w = true → ack = Some Confirm_ack) →
  calm (answered live vcpus mem dial ack w).
Proof.
  intros [Hv Hm Hd Hok Hc Ho Ha Hi Hw He Hq Hk Hkd Hr Hdie] Hack Hrun Hcli Hconf. unfold answered.
  destruct (answer_of live vcpus mem dial ack (w_sig w)) as [s h] eqn:Hans.
  apply answer_of_spec in Hans as (Es & st & body & -> & [(-> & Hno & Hfalse)|(Hdet & -> & -> & a & -> & Hak)]).
  - assert (w_confirmed w = false) as Hncf.
    { destruct (w_confirmed w) eqn:E; [|done]. specialize (Hconf eq_refl). subst ack.
      destruct (Hack _ eq_refl) as (_ & Hwt & Hdl). by specialize (Hfalse _ Hdl (Hw Hwt) eq_refl). }
    assert ((st, body) ≠ ok_answer) by (intros [= -> ->]; done).
    assert (Hnd : sg_detach (w_sig w) = false).
    { destruct (sg_detach (w_sig w)) eqn:E; [|done]. destruct (Hok (Hd eq_refl)). congruence. }
    split; simpl; try done; unfold given; simpl; try (by intros; rewrite ?Hcli in *; naive_solver).
  - destruct (Hack a eq_refl) as (Hak' & Hwt & _). destruct (Ha a Hak') as [[-> Hcf]|?]; [|congruence].
    destruct (Hc Hcf) as (_ & Hown & _).
    split; simpl; try done; unfold given; simpl; try (by intros; rewrite ?Hcli in *; naive_solver).
Qed.

Lemma running_main w : running w = true → w_main w = MRunning.
Proof. unfold running. by destruct (w_main w). Qed.

Lemma calm_unconfirmed w : calm w → inc_owns w = false → w_confirmed w = false.
Proof.
  intros Hc Hn. destruct (w_confirmed w) eqn:E; [|done].
  destruct (cm_confirmed _ Hc E) as (_ & ? & _). congruence.
Qed.

(** The fields of [calm] that a step leaves as they were, or that contradict its guards. *)
Ltac calm_fields := unfold inc_owns, given in *; simpl in *; try done; auto; try (intros; intuition congruence).

Lemma calm_out w w' : out_step live vcpus mem ephemeral no_faults w w' → calm w → calm w'.
Proof.
  intros Hs Hcm. pose proof Hcm as [(Hv1 & Hv2 & Hv3) Hm Hd Hok Hc Ho Ha Hi Hw He Hq Hk Hkd Hr Hdie].
  destruct Hs as [w Hh Hrun Hin Hval|w Hh Hrun Hval|w Hh Hrun Hin|w a Hh Hrun Hak|w Hh Hrun Hno|w a Hh Hrun|w cause Hrun Hfl Haw].
  - destruct (Hi Hh) as (E1 & E2). apply running_main in Hrun. assert (E3 : w_cli w = CWaiting) by (apply He; congruence).
    assert (Hnc : w_confirmed w = false) by (apply calm_unconfirmed; [done|unfold inc_owns; by rewrite E2]).
    split; calm_fields; rewrite Hh in *; naive_solver.
  - destruct (Hi Hh) as (E1 & E2). apply running_main in Hrun. apply calm_answered; try done; [apply He; congruence|].
    rewrite (calm_unconfirmed w); [done|done|unfold inc_owns; by rewrite E2].
  - destruct (Hi Hh) as (_ & E2). congruence.
  - apply running_main in Hrun. apply calm_answered; try done.
    + intros a' [= <-]. done.
    + apply He. congruence.
    + intros Hcf. destruct (Hc Hcf) as (E' & _). congruence.
  - apply running_main in Hrun. destruct Hno as [?|[Hak Hg]]; [done|].
    apply calm_answered; try done; [apply He; congruence|]. rewrite (calm_unconfirmed w); [done|done|unfold inc_owns; by rewrite Hg].
  - apply running_main in Hrun. assert (E3 : w_cli w = CWaiting) by (apply He; congruence).
    split; calm_fields; rewrite Hh in *; naive_solver.
  - destruct Hfl as [?|Hfl]; [done|]. destruct cause; simpl in Haw; try congruence; [|by rewrite Hv1 in Haw]. pose proof (Hd Haw) as Hah.
    assert (Hans : w_handler w = HAnswered ok_answer) by (unfold given in Hah; destruct (w_handler w); naive_solver).
    split; calm_fields. by rewrite Hv1.
Qed.

Lemma calm_inc w w' : inc_step live vcpus mem sb no_faults w w' → calm w → calm w'.
Proof.
  intros Hs Hcm. pose proof Hcm as [(Hv1 & Hv2 & Hv3) Hm Hd Hok Hc Ho Ha Hi Hw He Hq Hk Hkd Hr Hdie].
  destruct Hs as [w io fd closed ack out Hin Hh Hconf Had|w Hin Hno|w nets Hin Hgone|w Hin|w Hin Ht]; [| | | |done].
  - apply adopt_payload_ack in Had. pose proof (Hw Hh) as Hval.
    assert (Hcli : w_cli w = CWaiting) by (apply He; congruence).
    assert (Hnc : w_confirmed w = false) by (apply calm_unconfirmed; [done|unfold inc_owns; by rewrite Hin]).
    assert (Hnd : sg_detach (w_sig w) = false).
    { destruct (sg_detach (w_sig w)) eqn:E; [|done]. destruct (Hok (Hd eq_refl)). congruence. }
    destruct out; [destruct Had as [-> _]|..]; split; calm_fields; rewrite ?Hh, ?Hnc in *; naive_solver.
  - assert (Hnc : w_confirmed w = false) by (apply calm_unconfirmed; [done|unfold inc_owns; by rewrite Hin]).
    split; calm_fields. intros Hh. exfalso. unfold running in Hno. destruct Hno as [[a Hg]|Hno]; [by rewrite Hh in Hg|].
    destruct Hm as [E|[_ ?]]; [by rewrite E in Hno|congruence].
  - split; calm_fields. intros _. apply Ho. by rewrite Hin.
  - split; calm_fields. intros _. apply Ho. by rewrite Hin.
Qed.

Lemma calm_cli w w' : cli_step no_faults w w' → calm w → calm w'.
Proof.
  intros Hs Hcm. pose proof Hcm as [(Hv1 & Hv2 & Hv3) Hm Hd Hok Hc Ho Ha Hi Hw He Hq Hk Hkd Hr Hdie].
  destruct Hs as [w a Hcl Hh|w Hcl Hno|w Hcl|w Hcl|w Hf]; [| | | |done].
  - assert (Hg : given w = Some a) by (unfold given; by rewrite Hh). pose proof (Hq a Hg) as Hq'. unfold upgrade_after.
    destruct (RequestHandoff (Some a)) as [[]|] eqn:Hr'; split; calm_fields; rewrite Hh in *; naive_solver.
  - destruct Hno as [?|[Hno Hna]]; [done|]. unfold running in Hno. exfalso.
    destruct Hm as [E|[_ ?]]; [by rewrite E in Hno|by eapply Hna].
  - assert (Hnk : given w ≠ Some ok_answer) by auto.
    assert (Hans : ∃ a, w_handler w = HAnswered a) by (destruct (w_handler w); eauto; rewrite He in Hcl; congruence).
    destruct Hans as [a Hans]. assert (Hnc : w_confirmed w = false).
    { destruct (w_confirmed w) eqn:E; [|done]. destruct (Hc eq_refl) as (_ & _ & [?|?]); congruence. }
    split; calm_fields.
  - split; calm_fields.
Qed.

Lemma calm_protocol w w' : protocol_step w w' → calm w → calm w'.
Proof. intros [H|[H|H]]; eauto using calm_out, calm_inc, calm_cli. Qed.

Lemma calm_supervised w : calm w → supervised w = true.
Proof.
  intros Hc. unfold supervised, running. destruct (cm_main _ Hc) as [->|[-> Hh]]; [done|]. simpl.
  assert (Hg : given w = Some ok_answer) by (unfold given; by rewrite Hh).
  apply (cm_ok _ Hc) in Hg as [Hcf _]. by apply (cm_confirmed _ Hc) in Hcf as (_ & ? & _).
Qed.

(** Nothing but a request to the outgoing supervisor leaves [calm]. *)
Lemma calm_step w w' : step w w' → (w_asked w = false → calm w) → w_asked w' = false → calm w'.
Proof.
  intros [Hp|He] Hc Hn.
  - eapply calm_protocol; [done|]. apply Hc.
    destruct Hp as [Hp|[Hp|Hp]]; destruct Hp; simpl in *; try done; revert Hn;
      unfold answered; destruct (answer_of _ _ _ _ _ _); done.
  - destruct He; done.
Qed.

(** *** Outcomes *)

Definition rank (w : World) : nat :=
  (match w_handler w with HIdle => 3 | HWaiting => 2 | HBuffered _ => 1 | HAnswered _ => 0 end +
   match w_main w with MRunning => 1 | _ => 0 end +
   match w_inc w with IListening => 4 | IAdopted _ => 3 | ITail => 2 | IServing => 1 | IGone => 0 end +
   match w_cli w with CWaiting => 2 | CKilling | CRecording => 1 | _ => 0 end)%nat.

(** The command has ended, and one supervisor is left: the one it reports. *)
Definition settled (w : World) : Prop :=
  w_cli w = CDone true ∧ w_main w = MExited shutdownByDetach ∧ w_inc w = IServing ∨
  w_cli w = CDone false ∧ w_main w = MRunning ∧ w_inc w = IGone.

Lemma rank_decreases w w' : calm w → protocol_step w w' → (rank w' < rank w)%nat.
Proof.
  intros Hc [Hs|[Hs|Hs]]; unfold rank.
  - destruct Hs; simpl; unfold answered; repeat match goal with
      | |- context [answer_of ?a ?b ?c ?d ?e ?f] =>
          let H := fresh in destruct (answer_of a b c d e f) as [? ?] eqn:H;
          apply answer_of_spec in H as (_ & ? & ? & -> & _)
      | H : w_handler _ = _ |- _ => rewrite H; clear H
      | H : running _ = true |- _ => apply running_main in H; rewrite ?H
      end; simpl; lia.
  - destruct Hs as [w io fd closed ack out Hin Hh Hconf Had|w Hin Hno|w nets Hin Hgone|w Hin|w Hin Ht];
      simpl; rewrite Hin; [destruct out; lia|lia|lia|lia|done].
  - destruct Hs as [w a Hcl Hh|w Hcl Hno|w Hcl|w Hcl|w Hf]; simpl; rewrite ?Hcl; [| | |lia|done].
    + destruct (upgrade_after _); lia.
    + lia.
    + destruct (w_inc w); lia.
Qed.

Lemma calm_progress w : calm w → settled w ∨ ∃ w', protocol_step w w'.
Proof.
  intros Hcm. pose proof Hcm as [(Hv1 & Hv2 & Hv3) Hm Hd Hok Hc Ho Ha Hi Hw He Hq Hk Hkd Hr Hdie].
  destruct (w_handler w) as [| |a|a] eqn:Hh.
  - right. destruct (Hi eq_refl) as (_ & Hin).
    assert (Hrun : running w = true) by (unfold running; destruct Hm as [->|[_ ?]]; done).
    destruct (Validate (lp_HasMITMProxy live) (payload live vcpus mem)) eqn:Hval; eexists; left;
      [apply o_invalid|apply o_offer]; congruence.
  - right. assert (Hrun : running w = true) by (unfold running; destruct Hm as [->|[_ ?]]; done).
    destruct (w_ack w) as [a|] eqn:Hak; [eexists; left; by eapply o_ack|].
    destruct (w_inc w) eqn:Hin; try (unfold inc_owns in *; rewrite Hin in *; destruct (Hc (Ho eq_refl)) as (? & _); done).
    + destruct (adopt_payload (mkAdoptIO FileENOENT None false) sb (datagram live vcpus mem 3) ∅) as [[cl ak] o] eqn:Had.
      eexists. right. left. by eapply i_decide; [..|exact Had].
    + eexists. left. apply o_no_ack; auto.
  - right. assert (Hrun : running w = true) by (unfold running; destruct Hm as [->|[_ ?]]; done). eexists. left. by eapply o_flush.
  - destruct (w_cli w) as [| | |moved|] eqn:Hcl; [right; eexists; right; right..| |done].
    + by eapply c_answer.
    + by eapply c_kill.
    + by eapply c_record.
    + assert (Hg : given w = Some a) by (unfold given; by rewrite Hh).
      destruct moved; [|left; right; split; [done|]; split; [|by apply Hkd];
        destruct Hm as [?|[_ [= ->]]]; [done|exfalso; apply Hk; auto]].
      specialize (Hr (or_intror eq_refl)). injection Hr as ->. destruct (Hok Hg) as [Hcf Hdt].
      destruct (Hc Hcf) as (_ & Hown & _). destruct Hm as [Hrun|[Hex _]].
      { right. eexists. left. apply (o_exit _ _ _ _ _ _ shutdownByDetach); [unfold running; by rewrite Hrun|right; congruence|done]. }
      unfold inc_owns in Hown. destruct (w_inc w) as [|nets| | |] eqn:Hin; try done; [right; eexists; right; left..|by left; left].
      * eapply i_old_gone; [done|]. left. unfold running. by rewrite Hex.
      * by eapply i_serve.
Qed.

(** C10: A hand-off in which nothing fails, the outgoing side flushes its answer before it exits, nobody stops, signals or
    detaches the sandbox and the machine does not end by itself, never leaves the VM without a supervisor, and every run
    of it ends: either the replacement serves, the outgoing side has gone and the replacement is the one on record, or the
    replacement has gone and the outgoing side goes on. *)
Theorem handoff_settles w :
  rtc step start w → w_asked w = false →
  w_vm w = true ∧ supervised w = true ∧ eventually protocol_step (λ w', settled w' ∧ w_vm w' = true) w.
Proof.
  intros Hr Hn.
  assert (Hc : calm w).
  { revert Hn. eapply (rtc_invariant step (λ w, w_asked w = false → calm w)); [|exact Hr|by intros _; apply calm_start].
    exact calm_step. }
  split; [by apply (cm_vm _ Hc)|]. split; [by apply calm_supervised|].
  apply (eventually_measure _ _ calm rank); [|done]. intros x Hx.
  destruct (calm_progress x Hx) as [?|Hy]; [left; split; [done|by apply (cm_vm _ Hx)]|right].
  split; [done|]. intros y Hy'. split; [by eapply calm_protocol|by apply rank_decreases].
Qed.
End no_faults.

(** ** What one fault does *)

Definition up_live : LivePerimeter := mkLive (Some 7) (Some ("cert"%string, "key"%string)) true.

Definition up_sb : Sandbox :=
  set_CHAPISocket "/run/sb.sock" (set_GuestTapName "tap0" (set_NetnsChildStartTime 99 (set_NetnsChildPGID 200
    (set_NetnsChildPID 200 (set_SState Running example_sandbox))))).

Definition up_stat : file_read :=
  FileData (stat_line "200" "nexus (netns) child" (chars <$> ["S"; "100"; "200"]%string ++ replicate 16 "0"%string ++ ["99"; "0"]%string)).

Definition up_io : AdoptIO := mkAdoptIO up_stat (Some 11) true.

Abbreviation up_step ft := (step up_live 2 512 up_sb false ft).

Definition unsupervised (w : World) : Prop := w_vm w = true ∧ w_asked w = false ∧ supervised w = false.

Definition up_nets : gmap SandboxID netState :=
  {[ID up_sb := mkNetState (mkRuntime 11 "/run/sb.sock" "tap0" 200 200 99 "" "" false) 11 false]}.

Lemma up_adopts :
  adopt_payload up_io up_sb (datagram up_live 2 512 9) ∅ =
    ([9], Some Confirm_ack, AdoptedConfirmed (payload up_live 2 512) up_nets).
Proof. vm_compute. reflexivity. Qed.

(** The world after the replacement has confirmed. *)
Definition up_confirmed : World :=
  mkWorld true (mkSignals false false) HWaiting MRunning
    (IAdopted up_nets) CWaiting (Some Confirm_ack) false false true.

Lemma up_to_confirmed ft : rtc (up_step ft) start up_confirmed.
Proof.
  eapply rtc_l; [left; left; by apply o_offer|]. apply rtc_once. left. right. left.
  exact (i_decide up_live 2 512 up_sb ft (offered start) up_io 9 _ _ _ eq_refl eq_refl (λ _, eq_refl) up_adopts).
Qed.

(** A replacement that fails after its confirmation (a cache disk that stays locked, a perimeter that does not start) leaves
    the VM to nobody: the outgoing side has been told to go. *)
Lemma late_failure_orphans : ∃ w, rtc (up_step (mkFaults false false false false true)) start w ∧ unsupervised w.
Proof.
  eexists. split.
  - etrans; [apply up_to_confirmed|].
    eapply rtc_l; [left; left; by eapply (o_ack _ _ _ _ _ up_confirmed Confirm_ack)|].
    eapply rtc_l; [left; left; by eapply o_flush|].
    eapply rtc_l; [left; left; apply (o_exit _ _ _ _ _ _ shutdownByDetach); [done|by right|done]|].
    eapply rtc_l; [left; right; left; eapply i_old_gone; [reflexivity|by left]|].
    apply rtc_once. left. right. left. by apply i_tail_fails.
  - vm_compute. done.
Qed.

(** A request that fails at the command, when it is interrupted or when the response is lost, while the supervisors go on: the
    command kills the replacement although its confirmation is on the way. *)
Lemma interrupted_upgrade_orphans : ∃ w, rtc (up_step (mkFaults false true false false false)) start w ∧ unsupervised w.
Proof.
  eexists. split.
  - etrans; [apply up_to_confirmed|].
    eapply rtc_l; [left; right; right; apply c_error; [done|by left]|].
    eapply rtc_l; [left; right; right; by apply c_kill|].
    eapply rtc_l; [left; left; by eapply o_ack|].
    eapply rtc_l; [left; left; by eapply o_flush|].
    apply rtc_once. left. left. apply (o_exit _ _ _ _ _ _ shutdownByDetach); [done|by right|done].
  - vm_compute. done.
Qed.

(** The handler signals the detach before the HTTP server has flushed its answer.  When the process is gone first, the command sees
    a failed request and kills the replacement that owns the machine: scheduling alone leaves the VM to nobody. *)
Lemma unflushed_answer_orphans : ∃ w, rtc (up_step (mkFaults false false true false false)) start w ∧ unsupervised w.
Proof.
  eexists. split.
  - etrans; [apply up_to_confirmed|].
    eapply rtc_l; [left; left; by eapply (o_ack _ _ _ _ _ up_confirmed Confirm_ack)|].
    eapply rtc_l; [left; left; apply (o_exit _ _ _ _ _ _ shutdownByDetach); [done|by left|done]|].
    eapply rtc_l; [left; right; right; apply c_error; [done|right; split; [done|by intros ?]]|].
    apply rtc_once. left. right. right. by apply c_kill.
  - vm_compute. done.
Qed.

(** A confirmation that arrives when the outgoing side has just given up waiting leaves two supervisors, if the command dies
    before it kills the replacement. *)
Lemma late_ack_two_supervisors :
  ∃ w, rtc (up_step (mkFaults false true false true false)) start w ∧ w_asked w = false ∧ running w = true ∧ w_inc w = IServing.
Proof.
  eexists. split.
  - etrans; [apply up_to_confirmed|].
    eapply rtc_l; [left; left; apply o_no_ack; [done|done|by left]|].
    eapply rtc_l; [left; right; right; by apply c_dies|].
    eapply rtc_l; [left; right; left; eapply i_old_gone; [reflexivity|by right]|].
    apply rtc_once. left. right. left. by apply i_serve.
  - vm_compute. done.
Qed.

(** ** Witnesses *)

Lemma handoff_keeps_vm_witness : w_vm up_confirmed = true ∨ w_asked up_confirmed = true.
Proof.
  destruct (w_vm up_confirmed) eqn:E; [left; reflexivity|right]. revert E.
  exact (proj1 (handoff_keeps_vm up_live 2 512 up_sb false (mkFaults true true true true true) up_confirmed
                  (up_to_confirmed (mkFaults true true true true true)))).
Defined.

Lemma handoff_settles_witness :
  eventually (protocol_step up_live 2 512 up_sb false no_faults) (λ w', settled w' ∧ w_vm w' = true) up_confirmed.
Proof.
  exact (proj2 (proj2 (handoff_settles up_live 2 512 up_sb false up_confirmed (up_to_confirmed no_faults) eq_refl))).
Defined.
