(* ===== verification/Refresher.v ===== *)
(** * internal/core/perimeter/cred: the refreshing credential ([refresher.go], [store.go], [guardian.go])

    Several supervisors share one OAuth credential: a store file under a lock, and a token endpoint that accepts each refresh
    token once.  [lockedToken] is the path they all take; [vend] pushes what it obtains into the broker.  The
    endpoint's answers, the clock and failing calls are arguments; the second part runs any number of processes against
    an endpoint that rotates its refresh token. *)

From stdpp Require Import prelude countable gmap strings list relations.
From Stdlib Require Import ZArith Ascii Lia.
From S2P Require Import Prelude GoStrings Domain Broker.

(** ** The store file *)

Record DedicatedCredStore := mkStore {
  ds_AccessToken : string;
  ds_RefreshToken : string;
  ds_ExpiresAt : Time;
  ds_TokenType : string;
  ds_ClientID : string;
  ds_ClientSecret : string;
  ds_TokenEndpoint : string;
}.

(** A file that is absent, cannot be read or parsed, or holds a document. *)
Inductive store_file := StoreAbsent | StoreBroken | StoreDoc (s : DedicatedCredStore).

Inductive load_error := ErrStoreAbsent | LoadFailed | EmptyAccessToken.

Definition LoadStore (f : store_file) : result load_error DedicatedCredStore :=
  match f with
  | StoreAbsent => Err ErrStoreAbsent
  | StoreBroken => Err LoadFailed
  | StoreDoc s => if String.eqb (ds_AccessToken s) "" then Err EmptyAccessToken else Ok s
  end.

(** The calls of [SaveStore], in order; [sv_tmp] is its temporary file. *)
Inductive save_op := SvCreateTemp | SvChmod | SvWrite | SvClose | SvRename.

Record StoreDir := mkStoreDir { sv_file : store_file; sv_tmp : option store_file }.

Definition save_do (s : DedicatedCredStore) (op : save_op) (d : StoreDir) : StoreDir :=
  match op with
  | SvCreateTemp => mkStoreDir (sv_file d) (Some StoreBroken)
  | SvWrite => mkStoreDir (sv_file d) (Some (StoreDoc s))
  | SvRename => mkStoreDir (default (sv_file d) (sv_tmp d)) None
  | _ => d
  end.

Fixpoint save_ops (fails : save_op → bool) (s : DedicatedCredStore) (ops : list save_op) (d : StoreDir)
    : StoreDir * bool :=
  match ops with
  | [] => (d, true)
  | op :: ops =>
      if fails op then (mkStoreDir (sv_file d) None, false)
      else save_ops fails s ops (save_do s op d)
  end.

Definition SaveStore (fails : save_op → bool) (s : DedicatedCredStore) (d : StoreDir) : StoreDir * bool :=
  if String.eqb (ds_AccessToken s) "" then (d, false)
  else save_ops fails s [SvCreateTemp; SvChmod; SvWrite; SvClose; SvRename] d.

(** A save installs the whole document or leaves the file as it was, and leaves no temporary file. *)
Lemma SaveStore_atomic fails s d d' ok :
  sv_tmp d = None → SaveStore fails s d = (d', ok) →
  sv_tmp d' = None ∧ sv_file d' = (if ok then StoreDoc s else sv_file d) ∧ (ok = true → ds_AccessToken s ≠ ""%string).
Proof.
  unfold SaveStore. intros Ht. destruct (String.eqb_spec (ds_AccessToken s) ""); [by intros [= <- <-]|].
  destruct d as [f t]; simpl in *; subst t.
  destruct (fails SvCreateTemp); [by intros [= <- <-]|]. destruct (fails SvChmod); [by intros [= <- <-]|]. simpl.
  destruct (fails SvWrite); [by intros [= <- <-]|]. destruct (fails SvClose); [by intros [= <- <-]|].
  destruct (fails SvRename); by intros [= <- <-].
Qed.

(** ** The refresher *)

Definition refreshExpiryDelta : Duration := 30 * Second.

Record Token := mkToken { tk_Access : string; tk_Refresh : string; tk_Expiry : Time; tk_Type : string }.

Record credStoreMeta := mkMeta {
  me_tokenType : string; me_clientID : string; me_clientSecret : string; me_tokenEndpoint : string }.

(** [rf_rt] is [base.rt]; a push error is the sandbox it is about. *)
Record Refresher := mkRefresher {
  rf_host : string;
  rf_rt : string;
  rf_meta : credStoreMeta;
  rf_sandboxes : gset SandboxID;
  rf_lastToken : string;
  rf_cachedTok : option Token;
  rf_lastPushErrs : list SandboxID;
  rf_lastPersistedRefresh : string;
  rf_lastPersistErr : bool;
}.

Definition set_rf_rt (rt : string) (r : Refresher) : Refresher :=
  mkRefresher (rf_host r) rt (rf_meta r) (rf_sandboxes r) (rf_lastToken r) (rf_cachedTok r) (rf_lastPushErrs r)
    (rf_lastPersistedRefresh r) (rf_lastPersistErr r).
Definition set_rf_sandboxes (s : gset SandboxID) (r : Refresher) : Refresher :=
  mkRefresher (rf_host r) (rf_rt r) (rf_meta r) s (rf_lastToken r) (rf_cachedTok r) (rf_lastPushErrs r)
    (rf_lastPersistedRefresh r) (rf_lastPersistErr r).
Definition set_rf_pushErrs (l : list SandboxID) (r : Refresher) : Refresher :=
  mkRefresher (rf_host r) (rf_rt r) (rf_meta r) (rf_sandboxes r) (rf_lastToken r) (rf_cachedTok r) l
    (rf_lastPersistedRefresh r) (rf_lastPersistErr r).
Definition set_rf_persist (rt : string) (failed : bool) (r : Refresher) : Refresher :=
  mkRefresher (rf_host r) (rf_rt r) (rf_meta r) (rf_sandboxes r) (rf_lastToken r) (rf_cachedTok r) (rf_lastPushErrs r)
    rt failed.
Definition set_rf_vended (tok : Token) (r : Refresher) : Refresher :=
  mkRefresher (rf_host r) (rf_rt r) (rf_meta r) (rf_sandboxes r) (tk_Access tok) (Some tok) (rf_lastPushErrs r)
    (rf_lastPersistedRefresh r) (rf_lastPersistErr r).

Inductive new_error := NwHost | NwLoad (e : load_error) | NwNoRefreshToken | NwNoEndpoint.

Definition token_of (s : DedicatedCredStore) : Token :=
  mkToken (ds_AccessToken s) (ds_RefreshToken s) (ds_ExpiresAt s) (ds_TokenType s).

Definition NewRefresher (f : store_file) (host : string) : result new_error Refresher :=
  if String.eqb host "" then Err NwHost
  else match LoadStore f with
  | Err e => Err (NwLoad e)
  | Ok s =>
      if String.eqb (ds_RefreshToken s) "" then Err NwNoRefreshToken
      else if String.eqb (ds_TokenEndpoint s) "" then Err NwNoEndpoint
      else Ok (mkRefresher host (ds_RefreshToken s)
                 (mkMeta (ds_TokenType s) (ds_ClientID s) (ds_ClientSecret s) (ds_TokenEndpoint s))
                 ∅ "" (Some (token_of s)) [] (ds_RefreshToken s) false)
  end.

Definition Register (id : SandboxID) (r : Refresher) : Refresher := set_rf_sandboxes ({[id]} ∪ rf_sandboxes r) r.
Definition Deregister (id : SandboxID) (r : Refresher) : Refresher := set_rf_sandboxes (rf_sandboxes r ∖ {[id]}) r.
Definition PushErrors (r : Refresher) : list SandboxID := rf_lastPushErrs r.

(** *** Pushing *)

Fixpoint push_all (host t : string) (ids : list SandboxID) (b : Broker) : Broker * list SandboxID :=
  match ids with
  | [] => (b, [])
  | id :: ids =>
      match SetRealToken id host t b with
      | (b, Ok _) => push_all host t ids b
      | (b, Err _) => let '(b, errs) := push_all host t ids b in (b, id :: errs)
      end
  end.

(** [order]: the registered sandboxes in the order the map is ranged over. *)
Definition vend (order : list SandboxID) (tok : Token) (r : Refresher) (b : Broker) : Refresher * Broker * string * Time :=
  let rotated := negb (String.eqb (tk_Access tok) (rf_lastToken r)) in
  let hadPushErrs := negb (bool_decide (rf_lastPushErrs r = [])) in
  let r := set_rf_vended tok (if rotated || hadPushErrs then set_rf_pushErrs [] r else r) in
  if rotated || hadPushErrs then
    let '(b, errs) := push_all (rf_host r) (tk_Access tok) order b in
    (if bool_decide (errs = []) then r else set_rf_pushErrs errs r, b, tk_Access tok, tk_Expiry tok)
  else (r, b, tk_Access tok, tk_Expiry tok).

(** *** Obtaining a token *)

Definition fresh (now expiry : Time) : bool := refreshExpiryDelta <? Sub expiry now.

Definition cached_fresh (now : Time) (r : Refresher) : option Token :=
  match rf_cachedTok r with
  | Some t => if negb (String.eqb (tk_Access t) "") && fresh now (tk_Expiry t) then Some t else None
  | None => None
  end.

(** [oauthRefreshBase.Token]: [answer] is what the endpoint grants for the refresh token presented. *)
Definition base_Token (answer : option Token) (r : Refresher) : Refresher * option Token :=
  match answer with
  | None => (r, None)
  | Some t =>
      (if negb (String.eqb (tk_Refresh t) "") && negb (String.eqb (tk_Refresh t) (rf_rt r))
       then set_rf_rt (tk_Refresh t) r else r, Some t)
  end.

(** The exchange with the endpoint, while the lock is held: the token presented, the token to vend and the document to
    save; no token for an error. *)
Definition refresh_now (answer : string → option Token) (r : Refresher)
    : Refresher * string * option (Token * option DedicatedCredStore) :=
  let presented := rf_rt r in
  match base_Token (answer presented) r with
  | (r, None) => (r, presented, None)
  | (r, Some t) =>
      if String.eqb (tk_Access t) "" then (r, presented, None)
      else
        let rt := if String.eqb (tk_Refresh t) "" then rf_rt r else tk_Refresh t in
        let tt := if String.eqb (tk_Type t) "" then me_tokenType (rf_meta r) else tk_Type t in
        (r, presented,
         Some (t, if String.eqb rt "" then None
                  else Some (mkStore (tk_Access t) rt (tk_Expiry t) tt (me_clientID (rf_meta r))
                               (me_clientSecret (rf_meta r)) (me_tokenEndpoint (rf_meta r)))))
  end.

(** The function run under the lock, on the store as it was read there. *)
Definition critical (now : Time) (disk : option DedicatedCredStore) (answer : string → option Token) (r : Refresher)
    : Refresher * option string * option (Token * option DedicatedCredStore) :=
  match disk with
  | Some s =>
      let r := if String.eqb (ds_RefreshToken s) "" then r else set_rf_rt (ds_RefreshToken s) r in
      if negb (String.eqb (ds_AccessToken s) "") && fresh now (ds_ExpiresAt s) then (r, None, Some (token_of s, None))
      else let '(r, p, res) := refresh_now answer r in (r, Some p, res)
  | None => let '(r, p, res) := refresh_now answer r in (r, Some p, res)
  end.

(** What happens during one call: the clock when the cache is checked and when the store is, whether the lock is
    obtained, the endpoint, the calls of the save, and the order of the sandboxes. *)
Record CallIO := mkCallIO {
  io_now : Time;
  io_now_locked : Time;
  io_lock : bool;
  io_answer : string → option Token;
  io_save : save_op → bool;
  io_order : list SandboxID;
}.

Inductive token_error := TkLock | TkRead (e : load_error) | TkRefresh.

Record Call := mkCall {
  cl_refresher : Refresher;
  cl_dir : StoreDir;
  cl_broker : Broker;
  cl_presented : option string;
  cl_result : result token_error (string * Time);
}.

Definition vended (order : list SandboxID) (tok : Token) (presented : option string) (r : Refresher) (d : StoreDir)
    (b : Broker) : Call :=
  let '(r, b, access, expiry) := vend order tok r b in mkCall r d b presented (Ok (access, expiry)).

Definition lockedToken (io : CallIO) (r : Refresher) (d : StoreDir) (b : Broker) : Call :=
  match cached_fresh (io_now io) r with
  | Some t => vended (io_order io) t None r d b
  | None =>
      if negb (io_lock io) then mkCall r d b None (Err TkLock)
      else
        let run disk :=
          match critical (io_now_locked io) disk (io_answer io) r with
          | (r, presented, None) => mkCall r d b presented (Err TkRefresh)
          | (r, presented, Some (tok, None)) => vended (io_order io) tok presented r d b
          | (r, presented, Some (tok, Some doc)) =>
              match SaveStore (io_save io) doc d with
              | (d, true) =>
                  vended (io_order io) tok presented (set_rf_persist (ds_RefreshToken doc) false r) d b
              | (d, false) =>
                  vended (io_order io) tok presented (set_rf_persist (rf_lastPersistedRefresh r) true r) d b
              end
          end in
        match LoadStore (sv_file d) with
        | Ok s => run (Some s)
        | Err ErrStoreAbsent => run None
        | Err e => mkCall r d b None (Err (TkRead e))
        end
  end.

Definition ForcePush (io : CallIO) (id : SandboxID) (r : Refresher) (d : StoreDir) (b : Broker) : Call :=
  let c := lockedToken io r d b in
  match cl_result c with
  | Err _ => c
  | Ok (tok, _) =>
      match SetRealToken id (rf_host r) tok (cl_broker c) with
      | (b, Ok _) => mkCall (cl_refresher c) (cl_dir c) b (cl_presented c) (cl_result c)
      | (b, Err _) =>
          mkCall (set_rf_pushErrs (rf_lastPushErrs (cl_refresher c) ++ [id]) (cl_refresher c)) (cl_dir c) b
            (cl_presented c) (Err TkRefresh)
      end
  end.

(** ** What reaches the sandboxes *)

Definition serves_token (b : Broker) (id : SandboxID) (host t : string) : Prop :=
  ∃ ph, abs_broker b !! (id, host) = Some (ph, t).

Lemma SetRealToken_spec id host t b b' res :
  broker_inv b → host ≠ ""%string → SetRealToken id host t b = (b', res) →
  broker_inv b' ∧ bk_byScope b' = bk_byScope b ∧
  (∀ id' h t', serves_token b' id' h t' → t' = t ∨ serves_token b id' h t') ∧
  (∀ id' h, serves_token b id' h t → serves_token b' id' h t) ∧
  match res with
  | Ok _ => serves_token b' id host t
  | Err _ => b' = b ∧ bk_byScope b !! (id, host) = None
  end.
Proof.
  intros Hinv Hh. unfold SetRealToken. destruct (String.eqb_spec host ""); [done|].
  destruct (bk_byScope b !! (id, host)) as [l|] eqn:Hs; intros [= <- <-].
  2:{ split; [done|]. split; [done|]. split; [by auto|]. split; [by auto|]. done. }
  destruct (bi_scope b Hinv _ _ _ Hs) as (e & He & _ & _ & _).
  pose proof (set_token_abs b id host l e t Hinv Hs He) as Habs. unfold serves_token. rewrite Habs.
  assert (Hrot : ∀ id' h ph t', rotate (e_placeholder e) t (abs_broker b) !! (id', h) = Some (ph, t') ↔
            (ph = e_placeholder e ∧ t' = t ∧ ∃ t0, abs_broker b !! (id', h) = Some (ph, t0)) ∨
            (ph ≠ e_placeholder e ∧ abs_broker b !! (id', h) = Some (ph, t'))).
  { intros id' h ph t'. unfold rotate. rewrite lookup_fmap.
    destruct (abs_broker b !! (id', h)) as [[ph0 t0]|]; simpl; [|naive_solver].
    case_bool_decide; simpl; naive_solver. }
  split; [by apply set_token_inv|]. split; [done|]. split; [|split].
  - intros id' h t' [ph H]. apply Hrot in H as [(? & ? & _)|[? ?]]; eauto.
  - intros id' h [ph H]. exists ph. apply Hrot. destruct (decide (ph = e_placeholder e)); eauto 10.
  - exists (e_placeholder e). apply Hrot. left. repeat split. exists (e_realToken e). by apply abs_lookup with l.
Qed.

Lemma push_all_spec host t ids b b' errs :
  broker_inv b → host ≠ ""%string → push_all host t ids b = (b', errs) →
  broker_inv b' ∧ bk_byScope b' = bk_byScope b ∧
  (∀ id h t', serves_token b' id h t' → t' = t ∨ serves_token b id h t') ∧
  (∀ id h, serves_token b id h t → serves_token b' id h t) ∧
  (∀ id, id ∈ ids → bk_byScope b !! (id, host) = None ∨ serves_token b' id host t) ∧
  (∀ id, id ∈ errs ↔ id ∈ ids ∧ bk_byScope b !! (id, host) = None).
Proof.
  intros Hinv Hh. revert b b' errs Hinv. induction ids as [|id ids IH]; intros b b' errs Hinv; simpl.
  { intros [= <- <-]. split; [done|]. split; [done|]. split; [eauto|]. split; [eauto|]. set_solver. }
  destruct (SetRealToken id host t b) as [b1 res] eqn:Hset.
  apply SetRealToken_spec in Hset as (Hinv1 & Hsc & Hnew & Hkeep & Hres); [|done..].
  destruct res as [[]|e].
  - intros (Hi & Hs & Hn & Hk & Hall & Herr)%IH; [|done]. rewrite Hsc in *.
    assert (Hsome : bk_byScope b !! (id, host) ≠ None).
    { intros Hnone. destruct Hres as [ph Hph]. unfold abs_broker in Hph. rewrite lookup_omap, Hsc, Hnone in Hph. done. }
    split; [done|]. split; [done|]. split; [|split; [|split]].
    + intros id' h t' H. destruct (Hn _ _ _ H) as [?|H']; [auto|eauto].
    + eauto.
    + intros id' [->|H]%elem_of_cons; [right; by apply Hk|eauto].
    + intros id'. rewrite Herr, elem_of_cons. naive_solver.
  - destruct Hres as [-> Hnone]. destruct (push_all host t ids b) as [b2 errs2] eqn:E.
    apply IH in E as (Hi & Hs & Hn & Hk & Hall & Herr); [|done]. intros [= <- <-].
    split; [done|]. split; [done|]. split; [done|]. split; [done|]. split.
    + intros id' [->|H]%elem_of_cons; eauto.
    + intros id'. rewrite !elem_of_cons, Herr. naive_solver.
Qed.

Definition must_push (tok : Token) (r : Refresher) : bool :=
  negb (String.eqb (tk_Access tok) (rf_lastToken r)) || negb (bool_decide (rf_lastPushErrs r = [])).

Lemma must_push_true tok r : must_push tok r = true ↔ rf_lastToken r ≠ tk_Access tok ∨ rf_lastPushErrs r ≠ [].
Proof.
  unfold must_push. rewrite orb_true_iff, !negb_true_iff, bool_decide_eq_false, String.eqb_neq. naive_solver.
Qed.

Lemma vend_eq order tok r b :
  vend order tok r b =
    if must_push tok r then
      ((set_rf_vended tok (set_rf_pushErrs (push_all (rf_host r) (tk_Access tok) order b).2 r),
        (push_all (rf_host r) (tk_Access tok) order b).1), tk_Access tok, tk_Expiry tok)
    else (set_rf_vended tok r, b, tk_Access tok, tk_Expiry tok).
Proof.
  unfold vend. fold (must_push tok r). destruct (must_push tok r); [|done]. simpl.
  destruct (push_all (rf_host r) (tk_Access tok) order b) as [b1 errs]. simpl.
  destruct errs; [done|]. by rewrite bool_decide_false.
Qed.

(** Whenever a token is new, or a push had failed before, every registered sandbox is served that token afterwards, or is
    listed as failed because the broker has no scope for it. *)
Lemma vend_pushes order tok r b r' b' a e :
  broker_inv b → rf_host r ≠ ""%string → (∀ id, id ∈ order ↔ id ∈ rf_sandboxes r) →
  vend order tok r b = (r', b', a, e) → rf_lastToken r ≠ tk_Access tok ∨ rf_lastPushErrs r ≠ [] →
  rf_lastToken r' = a ∧ a = tk_Access tok ∧ rf_sandboxes r' = rf_sandboxes r ∧
  (∀ id, id ∈ PushErrors r' ↔ id ∈ rf_sandboxes r ∧ bk_byScope b !! (id, rf_host r) = None) ∧
  (∀ id, id ∈ rf_sandboxes r → id ∈ PushErrors r' ∨ serves_token b' id (rf_host r) a).
Proof.
  intros Hinv Hh Hord. rewrite vend_eq. intros Hv Hc%must_push_true. rewrite Hc in Hv.
  destruct (push_all (rf_host r) (tk_Access tok) order b) as [b1 errs] eqn:Hp.
  apply push_all_spec in Hp as (_ & _ & _ & _ & Hall & Herr); [|done..].
  injection Hv as <- <- <- <-. unfold PushErrors. simpl. do 3 (split; [done|]). split.
  - intros id. rewrite Herr, Hord. done.
  - intros id Hid. apply Hord in Hid. destruct (Hall id Hid) as [Hn|?]; [left; by apply Herr|by right].
Qed.

(** ** The chain of refresh tokens *)

Lemma vend_keeps_rt order tok r b : rf_rt (vend order tok r b).1.1.1 = rf_rt r.
Proof. rewrite vend_eq. by destruct (must_push tok r). Qed.

Lemma vended_fields order tok p r d b :
  cl_presented (vended order tok p r d b) = p ∧ cl_dir (vended order tok p r d b) = d ∧
  rf_rt (cl_refresher (vended order tok p r d b)) = rf_rt r ∧
  cl_result (vended order tok p r d b) = Ok (tk_Access tok, tk_Expiry tok).
Proof. unfold vended. rewrite vend_eq. by destruct (must_push tok r). Qed.

(** The refresh token after a grant. *)
Definition next_rt (rt : string) (t : Token) : string := if String.eqb (tk_Refresh t) "" then rt else tk_Refresh t.

Lemma next_rt_nonempty rt t : rt ≠ ""%string → next_rt rt t ≠ ""%string.
Proof. unfold next_rt. by destruct (String.eqb_spec (tk_Refresh t) ""). Qed.

Lemma base_Token_rt t r : rf_rt (base_Token (Some t) r).1 = next_rt (rf_rt r) t.
Proof.
  unfold base_Token, next_rt. simpl. destruct (String.eqb_spec (tk_Refresh t) ""); simpl; [done|].
  by destruct (String.eqb_spec (tk_Refresh t) (rf_rt r)).
Qed.

Lemma refresh_now_spec answer r r' p res :
  rf_rt r ≠ ""%string → refresh_now answer r = (r', p, res) →
  p = rf_rt r ∧
  match answer p with
  | Some t =>
      if String.eqb (tk_Access t) "" then res = None
      else rf_rt r' = next_rt p t ∧ ∃ doc, res = Some (t, Some doc) ∧ ds_AccessToken doc = tk_Access t ∧
                                           ds_RefreshToken doc = next_rt p t
  | None => res = None
  end.
Proof.
  intros Hr. unfold refresh_now. destruct (answer (rf_rt r)) as [t|] eqn:Ha; [|intros [= <- <- <-]; by rewrite Ha].
  pose proof (base_Token_rt t r) as Hb. destruct (base_Token (Some t) r) as [r1 o] eqn:Eb.
  assert (o = Some t) as -> by (unfold base_Token in Eb; congruence). simpl in Hb.
  destruct (String.eqb (tk_Access t) "") eqn:Hac; intros [= <- <- <-]; rewrite Ha, Hac; [done|].
  split; [done|]. split; [done|]. rewrite Hb.
  assert (E : (if String.eqb (tk_Refresh t) "" then next_rt (rf_rt r) t else tk_Refresh t) = next_rt (rf_rt r) t)
    by (unfold next_rt; by destruct (String.eqb (tk_Refresh t) "")).
  rewrite E. destruct (String.eqb_spec (next_rt (rf_rt r) t) "") as [E'|_]; [by apply next_rt_nonempty in E'|].
  eexists. split; [done|]. done.
Qed.

Lemma save_ops_fails fails s ops d d' : save_ops fails s ops d = (d', false) → ∃ op, fails op = true.
Proof.
  revert d. induction ops as [|op ops IH]; intros d; simpl; [done|].
  destruct (fails op) eqn:E; [intros _; by exists op|apply IH].
Qed.

(** What one call does to the store, when the file holds a usable document: it presents nothing and changes nothing, or it
    presents the refresh token of the file; a grant is then saved, or not if the save fails, but vended either way. *)
Lemma lockedToken_cases io r d b s :
  sv_file d = StoreDoc s → ds_AccessToken s ≠ ""%string → ds_RefreshToken s ≠ ""%string → sv_tmp d = None →
  let c := lockedToken io r d b in
  (cl_presented c = None ∧ cl_dir c = d) ∨
  (cl_presented c = Some (ds_RefreshToken s) ∧
   match io_answer io (ds_RefreshToken s) with
   | Some t =>
       if String.eqb (tk_Access t) "" then cl_dir c = d
       else cl_result c = Ok (tk_Access t, tk_Expiry t) ∧ rf_rt (cl_refresher c) = next_rt (ds_RefreshToken s) t ∧
            sv_tmp (cl_dir c) = None ∧
            ((∃ op, io_save io op = true) ∧ sv_file (cl_dir c) = StoreDoc s ∨
             ∃ s', sv_file (cl_dir c) = StoreDoc s' ∧ ds_AccessToken s' = tk_Access t ∧
                   ds_RefreshToken s' = next_rt (ds_RefreshToken s) t)
   | None => cl_dir c = d
   end).
Proof.
  intros Hf Ha Hr Ht c. subst c. unfold lockedToken. destruct (cached_fresh (io_now io) r) as [t|].
  { left. destruct (vended_fields (io_order io) t None r d b) as (-> & -> & _). done. }
  destruct (io_lock io); simpl; [|by left]. rewrite Hf. simpl. apply String.eqb_neq in Ha as Ha'.
  rewrite Ha'. unfold critical. apply String.eqb_neq in Hr as Hr'. rewrite Ha', Hr'. simpl.
  destruct (fresh _ _); [left; split; apply vended_fields|]. right.
  destruct (refresh_now (io_answer io) (set_rf_rt (ds_RefreshToken s) r)) as [[r1 p] res] eqn:Hn.
  apply refresh_now_spec in Hn as [-> Hn]; [|done]. cbn [rf_rt set_rf_rt] in Hn |- *.
  destruct (io_answer io (ds_RefreshToken s)) as [t|]; [|by subst res].
  destruct (String.eqb_spec (tk_Access t) "") as [|Hta]; [by subst res|].
  destruct Hn as (Hrt & doc & -> & Hda & Hdr).
  destruct (SaveStore (io_save io) doc d) as [d' ok] eqn:Hsave.
  destruct (SaveStore_atomic _ _ _ _ _ Ht Hsave) as (Htmp & Hfile & _). rewrite Hf in Hfile.
  destruct ok.
  - destruct (vended_fields (io_order io) t (Some (ds_RefreshToken s)) (set_rf_persist (ds_RefreshToken doc) false r1) d' b)
      as (-> & -> & -> & ->). eauto 10.
  - destruct (vended_fields (io_order io) t (Some (ds_RefreshToken s))
                (set_rf_persist (rf_lastPersistedRefresh r1) true r1) d' b) as (-> & -> & -> & ->).
    split; [done|]. split; [done|]. split; [done|]. split; [done|]. left. split; [|done].
    unfold SaveStore in Hsave. rewrite Hda in Hsave. destruct (String.eqb_spec (tk_Access t) ""); [done|].
    by eapply save_ops_fails.
Qed.

Module Chain.

(** [w_valid]: the only refresh token the endpoint accepts; [w_minted]: all it has handed out; [w_log]: what it was presented
    with, and its verdict. *)
Inductive verdict := Granted | Refused | Unavailable.

Record World := mkWorld {
  w_procs : gmap nat (Refresher * Broker);
  w_dir : StoreDir;
  w_valid : string;
  w_minted : gset string;
  w_log : list (string * verdict);
}.

(** The endpoint accepts its valid token once and hands out the next; while it is down (no connection, an error of the
    server) it answers nothing and consumes nothing. *)
Definition endpoint (up : bool) (valid : string) (t : Token) (rt : string) : option Token :=
  if up && String.eqb rt valid then Some t else None.

Definition present (up : bool) (c : Call) (t : Token) (w : World) : string * gset string * list (string * verdict) :=
  match cl_presented c with
  | None => (w_valid w, w_minted w, w_log w)
  | Some rt =>
      if negb up then (w_valid w, w_minted w, w_log w ++ [(rt, Unavailable)])
      else if String.eqb rt (w_valid w)
      then (tk_Refresh t, {[tk_Refresh t]} ∪ w_minted w, w_log w ++ [(rt, Granted)])
      else (w_valid w, w_minted w, w_log w ++ [(rt, Refused)])
  end.

Definition set_procs (m : gmap nat (Refresher * Broker)) (w : World) : World :=
  mkWorld m (w_dir w) (w_valid w) (w_minted w) (w_log w).

(** A call of [lockedToken] is one step: the lock of the store is held from the reading of the file to the save.
    [ft_save]: a save may fail; [ft_lost]: what the endpoint has granted may be lost, with its answer or because the
    process dies before the save. *)
Inductive step (ft_save ft_lost : bool) (w : World) : World → Prop :=
| st_start p host r :
    NewRefresher (sv_file (w_dir w)) host = Ok r →
    step ft_save ft_lost w (set_procs (<[p := (r, NewBroker)]> (w_procs w)) w)
| st_exit p : step ft_save ft_lost w (set_procs (delete p (w_procs w)) w)
| st_register p r b id :
    w_procs w !! p = Some (r, b) → step ft_save ft_lost w (set_procs (<[p := (Register id r, b)]> (w_procs w)) w)
| st_deregister p r b id :
    w_procs w !! p = Some (r, b) → step ft_save ft_lost w (set_procs (<[p := (Deregister id r, b)]> (w_procs w)) w)
| st_broker p r b b' :
    w_procs w !! p = Some (r, b) → broker_step b b' → step ft_save ft_lost w (set_procs (<[p := (r, b')]> (w_procs w)) w)
| st_token p r b io up t valid minted log :
    w_procs w !! p = Some (r, b) → tk_Access t ≠ ""%string → tk_Refresh t ≠ ""%string → tk_Refresh t ∉ w_minted w →
    io_answer io = endpoint up (w_valid w) t → ft_save = true ∨ (∀ op, io_save io op = false) →
    let c := lockedToken io r (w_dir w) b in
    present up c t w = (valid, minted, log) →
    step ft_save ft_lost w (mkWorld (<[p := (cl_refresher c, cl_broker c)]> (w_procs w)) (cl_dir c) valid minted log)
| st_killed p r b io t valid minted log :
    ft_lost = true → w_procs w !! p = Some (r, b) → tk_Refresh t ≠ ""%string → tk_Refresh t ∉ w_minted w →
    present true (lockedToken io r (w_dir w) b) t w = (valid, minted, log) →
    step ft_save ft_lost w (mkWorld (delete p (w_procs w)) (w_dir w) valid minted log)
| st_answer_lost p r b io t valid minted log :
    ft_lost = true → w_procs w !! p = Some (r, b) → tk_Refresh t ≠ ""%string → tk_Refresh t ∉ w_minted w →
    (∀ rt, io_answer io rt = None) →
    let c := lockedToken io r (w_dir w) b in
    present true c t w = (valid, minted, log) →
    step ft_save ft_lost w (mkWorld (<[p := (cl_refresher c, cl_broker c)]> (w_procs w)) (cl_dir c) valid minted log).

Definition init (s : DedicatedCredStore) : World :=
  mkWorld ∅ (mkStoreDir (StoreDoc s) None) (ds_RefreshToken s) {[ds_RefreshToken s]} [].

(** The tokens that were consumed. *)
Definition granted (log : list (string * verdict)) : list string :=
  omap (λ l, match l.2 with Granted => Some l.1 | _ => None end) log.

Lemma elem_of_granted rt log : rt ∈ granted log ↔ (rt, Granted) ∈ log.
Proof.
  unfold granted. rewrite list_elem_of_omap. split; [intros ([x []] & Hin & E); by simplify_eq/=|].
  intros Hin. by exists (rt, Granted).
Qed.

(** What holds whenever the lock is free. *)
Record inv (w : World) : Prop := {
  iv_tmp : sv_tmp (w_dir w) = None;
  iv_file : ∃ s, sv_file (w_dir w) = StoreDoc s ∧ ds_AccessToken s ≠ ""%string ∧ ds_RefreshToken s = w_valid w;
  iv_valid : w_valid w ≠ ""%string ∧ w_valid w ∈ w_minted w;
  iv_log : ∀ rt v, (rt, v) ∈ w_log w → v ≠ Refused ∧ rt ∈ w_minted w ∧ (v = Granted → rt ≠ w_valid w);
  iv_once : NoDup (granted (w_log w));
}.

Lemma inv_set_procs m w : inv w → inv (set_procs m w).
Proof. by intros []. Qed.

Lemma inv_unavailable w rt d :
  inv w → rt = w_valid w → d = w_dir w →
  ∀ m, inv (mkWorld m d (w_valid w) (w_minted w) (w_log w ++ [(rt, Unavailable)])).
Proof.
  intros [Htmp Hf Hv Hlog Honce] -> -> m. split; simpl; [done|done|done| |].
  - intros rt v [Hin|[= -> ->]%list_elem_of_singleton]%elem_of_app; [by apply Hlog|]. by destruct Hv.
  - unfold granted. rewrite omap_app. simpl. by rewrite app_nil_r.
Qed.

Lemma inv_granted w t d :
  inv w → tk_Refresh t ≠ ""%string → tk_Refresh t ∉ w_minted w → sv_tmp d = None →
  (∃ s, sv_file d = StoreDoc s ∧ ds_AccessToken s ≠ ""%string ∧ ds_RefreshToken s = tk_Refresh t) →
  ∀ m, inv (mkWorld m d (tk_Refresh t) ({[tk_Refresh t]} ∪ w_minted w) (w_log w ++ [(w_valid w, Granted)])).
Proof.
  intros [Htmp Hf [Hv1 Hv2] Hlog Honce] Htr Hfresh Hd Hs m. split; simpl; [done|done| | |].
  - split; [done|]. by apply elem_of_union_l, elem_of_singleton.
  - intros rt v [Hin|Hin]%elem_of_app.
    + destruct (Hlog rt v Hin) as (? & ? & ?). split; [done|]. split; [by apply elem_of_union_r|]. intros _ ->. done.
    + apply list_elem_of_singleton in Hin as [= -> ->]. split; [done|]. split; [by apply elem_of_union_r|].
      intros _ E. by rewrite <- E in Hfresh.
  - unfold granted. rewrite omap_app. apply NoDup_app. split; [done|]. split; [|apply NoDup_singleton].
    intros rt Hrt%elem_of_granted Hin%list_elem_of_singleton. simpl in Hin. subst rt.
    destruct (Hlog _ _ Hrt) as (_ & _ & H). by apply H.
Qed.

Lemma chain_inv_step w w' : step false false w w' → inv w → inv w'.
Proof.
  intros [p host r|p|p r b id|p r b id|p r b b'|p r b io up t valid minted log Hp Hta Htr Hfresh Hans Hsave c Hpres| |]
    Hinv; [exact (inv_set_procs _ _ Hinv)..| |done|done].
  pose proof Hinv as [Htmp (s & Hf & Hsa & Hsr) [Hv1 Hv2] Hlog Honce].
  assert (Hsr' : ds_RefreshToken s ≠ ""%string) by congruence.
  destruct (lockedToken_cases io r (w_dir w) b s Hf Hsa Hsr' Htmp) as [[Hc1 Hc2]|[Hc1 Hc2]]; fold c in Hc1, Hc2;
    revert Hpres; unfold present; rewrite Hc1.
  { intros [= <- <- <-]. rewrite Hc2. split; simpl; eauto. }
  rewrite Hsr, String.eqb_refl. rewrite Hans, Hsr in Hc2. unfold endpoint in Hc2. rewrite String.eqb_refl in Hc2.
  destruct up; simpl in *; intros [= <- <- <-]; [|by apply inv_unavailable].
  apply String.eqb_neq in Hta as Hta'. rewrite Hta' in Hc2.
  destruct Hc2 as (_ & _ & Htmp' & [[[op Hop] _]|(s' & Hf' & Hsa' & Hsr'')]).
  { destruct Hsave as [?|Hs]; [done|]. by rewrite Hs in Hop. }
  unfold next_rt in Hsr''. apply String.eqb_neq in Htr as Htr'. rewrite Htr' in Hsr''.
  apply inv_granted; [done..|]. exists s'. repeat split; [done|congruence|done].
Qed.

(** C13: Any number of processes share the store through its lock.  As long as saves succeed and nothing that the endpoint
    granted is lost (an answer arrives, no process dies between grant and save), and the endpoint rotates the token with
    every grant, no refresh token is consumed twice and the endpoint never refuses one: what is presented is the valid
    token, also again after the endpoint was down.  Whenever the lock is free the file holds the valid token. *)
Theorem refresh_token_used_once s w :
  ds_AccessToken s ≠ ""%string → ds_RefreshToken s ≠ ""%string → rtc (step false false) (init s) w →
  Forall (λ l, l.2 ≠ Refused) (w_log w) ∧ NoDup (granted (w_log w)) ∧
  ∃ s', sv_file (w_dir w) = StoreDoc s' ∧ ds_RefreshToken s' = w_valid w.
Proof.
  intros Ha Hr Hrtc. assert (Hi : inv (init s)).
  { split; simpl; try done; [eauto|split; [done|set_solver]|by intros ?? ?%elem_of_nil|constructor]. }
  pose proof (rtc_invariant _ inv chain_inv_step _ _ Hrtc Hi) as [_ (s' & ? & _ & ?) _ Hlog ?].
  split; [|eauto]. apply Forall_forall. intros [rt ok] Hin. by destruct (Hlog _ _ Hin).
Qed.

End Chain.

(** *** A save that fails *)

Definition ex_store : DedicatedCredStore := mkStore "at1" "rt1" 0 "Bearer" "client" "" "https://token".

Definition ex_io (now : Time) (save : bool) (answer : string → option Token) : CallIO :=
  mkCallIO now now true answer (λ _, save) [].

(** Although the new refresh token is in memory and the process goes on, its next refresh presents the one that the endpoint
    has already consumed: it is read back from the file. *)
Lemma failed_save_reuses_consumed_token :
  ∃ r0, NewRefresher (StoreDoc ex_store) "api" = Ok r0 ∧
  let d0 := mkStoreDir (StoreDoc ex_store) None in
  let c1 := lockedToken (ex_io 100 true (Chain.endpoint true "rt1" (mkToken "at2" "rt2" 101 "Bearer"))) r0 d0 NewBroker in
  let c2 := lockedToken (ex_io 200 false (Chain.endpoint true "rt2" (mkToken "at3" "rt3" 300 "Bearer")))
              (cl_refresher c1) (cl_dir c1) (cl_broker c1) in
  cl_result c1 = Ok ("at2"%string, 101) ∧ rf_rt (cl_refresher c1) = "rt2"%string ∧
  cl_presented c2 = Some "rt1"%string ∧ cl_result c2 = Err TkRefresh.
Proof. eexists. split; [reflexivity|]. vm_compute. done. Qed.

(** When the answer to a granted refresh is lost, the next call presents the consumed token. *)
Lemma lost_answer_reuses_consumed_token :
  ∃ r0, NewRefresher (StoreDoc ex_store) "api" = Ok r0 ∧
  let d0 := mkStoreDir (StoreDoc ex_store) None in
  let c1 := lockedToken (ex_io 100 false (λ _, None)) r0 d0 NewBroker in
  let c2 := lockedToken (ex_io 200 false (Chain.endpoint true "rt2" (mkToken "at3" "rt3" 300 "Bearer")))
              (cl_refresher c1) (cl_dir c1) (cl_broker c1) in
  cl_presented c1 = Some "rt1"%string ∧ cl_presented c2 = Some "rt1"%string ∧ cl_result c2 = Err TkRefresh.
Proof. eexists. split; [reflexivity|]. vm_compute. done. Qed.

(** ** The guardian of a mounted credentials file *)

Definition guardianRefreshAhead : Duration := 40 * Minute.

(** A value of the credentials document: those the guardian reads, and anything else. *)
Inductive json_value := JStr (s : string) | JNum (z : Z) | JRaw (text : string).

(** [cf_oauth]: the fields of claudeAiOauth; [cf_rest]: the other fields of the document. *)
Record CredsDoc := mkCredsDoc { cf_oauth : gmap string json_value; cf_rest : gmap string json_value }.

Record Creds := mkCreds { cc_AccessToken : string; cc_RefreshToken : string; cc_ExpiresAt : Z }.

Definition str_field (m : gmap string json_value) (k : string) : option string :=
  match m !! k with Some (JStr s) => Some s | None => Some ""%string | _ => None end.
Definition num_field (m : gmap string json_value) (k : string) : option Z :=
  match m !! k with Some (JNum z) => Some z | None => Some 0 | _ => None end.

Definition readCreds (f : option CredsDoc) : option Creds :=
  match f with
  | None => None
  | Some d =>
      match str_field (cf_oauth d) "accessToken", str_field (cf_oauth d) "refreshToken", num_field (cf_oauth d) "expiresAt" with
      | Some a, Some r, Some e => Some (mkCreds a r e)
      | _, _, _ => None
      end
  end.

(** [UnixMilli]: milliseconds of the epoch as a time. *)
Definition epoch : Time := 62135596800 * Second.
Definition UnixMilli (ms : Z) : Time := epoch + ms * 1000000.

Definition needsRefresh (c : Creds) (now : Time) : bool :=
  if String.eqb (cc_RefreshToken c) "" then false
  else if cc_ExpiresAt c =? 0 then true
  else Sub (UnixMilli (cc_ExpiresAt c)) now <? guardianRefreshAhead.

Record GuardianResponse := mkGuardianResponse {
  gr_status_ok : bool;
  gr_AccessToken : string;
  gr_RefreshToken : string;
  gr_ExpiresIn : Z;
  gr_RefreshTokenExpiresIn : Z;
}.

Record credPatch := mkPatch { cp_AccessToken : string; cp_RefreshToken : string; cp_ExpiresAt : Z; cp_RefreshTokenExpiresAt : Z }.

Definition to_milli (t : Time) : Z := (t - epoch) / 1000000.

(** [refresh]; [resp] is [None] when the request fails or its body does not parse. *)
Definition guardian_refresh (resp : option GuardianResponse) (now : Time) : option credPatch :=
  match resp with
  | None => None
  | Some r =>
      if negb (gr_status_ok r) then None
      else if String.eqb (gr_AccessToken r) "" then None
      else Some (mkPatch (gr_AccessToken r) (gr_RefreshToken r)
                   (if 0 <? gr_ExpiresIn r then to_milli (now + i64 (gr_ExpiresIn r * Second))
                    else to_milli (now + 3600 * Second))
                   (if 0 <? gr_RefreshTokenExpiresIn r then to_milli (now + i64 (gr_RefreshTokenExpiresIn r * Second)) else 0))
  end.

Definition apply_patch (p : credPatch) (m : gmap string json_value) : gmap string json_value :=
  let m := <["accessToken"%string := JStr (cp_AccessToken p)]> m in
  let m := if String.eqb (cp_RefreshToken p) "" then m else <["refreshToken"%string := JStr (cp_RefreshToken p)]> m in
  let m := <["expiresAt"%string := JNum (cp_ExpiresAt p)]> m in
  if cp_RefreshTokenExpiresAt p =? 0 then m else <["refreshTokenExpiresAt"%string := JNum (cp_RefreshTokenExpiresAt p)]> m.

(** The document as it is read at three points, the clock, the lock, the response and the writes. *)
Record GuardIO := mkGuardIO {
  gi_read1 : option CredsDoc;
  gi_now1 : Time;
  gi_lock : bool;
  gi_read2 : option CredsDoc;
  gi_now2 : Time;
  gi_resp : option GuardianResponse;
  gi_now3 : Time;
  gi_read3 : option CredsDoc;
  gi_written : bool;
}.

(** Returns the refresh token presented and the document written. *)
Definition GuardOnce (io : GuardIO) : option string * option CredsDoc :=
  match readCreds (gi_read1 io) with
  | None => (None, None)
  | Some c =>
      if negb (needsRefresh c (gi_now1 io)) then (None, None)
      else if negb (gi_lock io) then (None, None)
      else match readCreds (gi_read2 io) with
      | None => (None, None)
      | Some c =>
          if negb (needsRefresh c (gi_now2 io)) then (None, None)
          else match guardian_refresh (gi_resp io) (gi_now3 io) with
          | None => (Some (cc_RefreshToken c), None)
          | Some p =>
              if cp_ExpiresAt p =? 0 then (Some (cc_RefreshToken c), None)
              else match gi_read3 io with
              | None => (Some (cc_RefreshToken c), None)
              | Some d =>
                  (Some (cc_RefreshToken c),
                   if gi_written io then Some (mkCredsDoc (apply_patch p (cf_oauth d)) (cf_rest d)) else None)
              end
          end
      end
  end.

(** The guardian refreshes only what is within forty minutes of its expiry when it is read under the lock, and writes the
    document it finds with nothing changed but the four fields, and never an expiry of zero. *)
Lemma GuardOnce_spec io presented written :
  GuardOnce io = (presented, written) →
  (∀ rt, presented = Some rt → ∃ c, readCreds (gi_read2 io) = Some c ∧ needsRefresh c (gi_now2 io) = true ∧
                                     rt = cc_RefreshToken c ∧ rt ≠ ""%string) ∧
  (∀ d', written = Some d' → is_Some presented ∧
     ∃ d a e, gi_read3 io = Some d ∧ cf_rest d' = cf_rest d ∧ a ≠ ""%string ∧ e ≠ 0 ∧
       cf_oauth d' !! "accessToken"%string = Some (JStr a) ∧ cf_oauth d' !! "expiresAt"%string = Some (JNum e) ∧
       ∀ k, k ∉ ["accessToken"; "refreshToken"; "expiresAt"; "refreshTokenExpiresAt"]%string →
            cf_oauth d' !! k = cf_oauth d !! k).
Proof.
  unfold GuardOnce. destruct (readCreds (gi_read1 io)) as [c1|]; [|by intros [= <- <-]].
  destruct (needsRefresh c1 (gi_now1 io)); simpl; [|by intros [= <- <-]].
  destruct (gi_lock io); simpl; [|by intros [= <- <-]].
  destruct (readCreds (gi_read2 io)) as [c|]; [|by intros [= <- <-]].
  destruct (needsRefresh c (gi_now2 io)) eqn:Hn; simpl; [|by intros [= <- <-]].
  assert (Hp : ∀ rt, Some (cc_RefreshToken c) = Some rt → ∃ c0, Some c = Some c0 ∧ needsRefresh c0 (gi_now2 io) = true ∧
                 rt = cc_RefreshToken c0 ∧ rt ≠ ""%string).
  { intros rt [= <-]. exists c. repeat split; [done|]. unfold needsRefresh in Hn.
    by destruct (String.eqb_spec (cc_RefreshToken c) ""). }
  destruct (guardian_refresh (gi_resp io) (gi_now3 io)) as [p|] eqn:Hr; [|by intros [= <- <-]].
  destruct (Z.eqb_spec (cp_ExpiresAt p) 0) as [|He]; [by intros [= <- <-]|].
  destruct (gi_read3 io) as [d|]; [|by intros [= <- <-]].
  destruct (gi_written io); intros [= <- <-]; [|by split]. split; [done|]. intros d' [= <-]. split; [done|].
  exists d, (cp_AccessToken p), (cp_ExpiresAt p). simpl. split; [done|]. split; [done|]. split; [|split; [done|]].
  { revert Hr. unfold guardian_refresh. destruct (gi_resp io) as [r|]; [|done]. destruct (negb _); [done|].
    destruct (String.eqb_spec (gr_AccessToken r) ""); [done|]. by intros [= <-]. }
  unfold apply_patch. split; [|split].
  - destruct (_ =? 0), (String.eqb _ ""); by simplify_map_eq.
  - destruct (_ =? 0), (String.eqb _ ""); by simplify_map_eq.
  - intros k Hk. rewrite !not_elem_of_cons in Hk. destruct Hk as (? & ? & ? & ? & _).
    destruct (_ =? 0), (String.eqb _ ""); by rewrite !lookup_insert_ne by done.
Qed.

(** ** Witnesses *)

Lemma refresh_token_used_once_witness :
  Forall (λ l, l.2 ≠ Chain.Refused) [("rt1"%string, Chain.Granted)] ∧ NoDup ["rt1"%string].
Proof.
  destruct (NewRefresher (StoreDoc ex_store) "api") as [r0|e] eqn:Hn; [|discriminate Hn].
  set (w1 := Chain.set_procs (<[0%nat := (r0, NewBroker)]> ∅) (Chain.init ex_store)).
  set (t := mkToken "at2" "rt2" (101 * Second) "Bearer").
  set (io := ex_io (100 * Second) false (Chain.endpoint true "rt1" t)).
  set (c := lockedToken io r0 (Chain.w_dir w1) NewBroker).
  assert (Hp : Chain.present true c t w1 = ("rt2"%string, {["rt2"; "rt1"]}%string, [("rt1"%string, Chain.Granted)])).
  { unfold Chain.present. injection Hn as <-. vm_compute. reflexivity. }
  assert (Hr : rtc (Chain.step false false) (Chain.init ex_store)
                 (Chain.mkWorld (<[0%nat := (cl_refresher c, cl_broker c)]> (Chain.w_procs w1)) (cl_dir c)
                    "rt2" {["rt2"; "rt1"]}%string [("rt1"%string, Chain.Granted)])).
  { eapply rtc_l; [exact (Chain.st_start false false (Chain.init ex_store) 0 "api" r0 Hn)|]. apply rtc_once.
    eapply (Chain.st_token false false w1 0 r0 NewBroker io true t); [|done|done| |done|by right|exact Hp].
    - unfold w1. simpl. by rewrite lookup_insert_eq.
    - simpl. by rewrite elem_of_singleton. }
  destruct (Chain.refresh_token_used_once ex_store _ ltac:(done) ltac:(done) Hr) as (H1 & H2 & _).
  split; [exact H1|exact H2].
Defined.

Lemma vend_pushes_witness :
  ∃ b', serves_token b' (replicate 16 "A"%char) "api" "at2".
Proof.
  set (id := replicate 16 "A"%char).
  set (b := (RegisterPlaceholder id "api" "old" (Some "ph"%string) NewBroker).1).
  set (r := Register id (mkRefresher "api" "rt1" (mkMeta "" "" "" "") ∅ "" None [] "rt1" false)).
  set (tok := mkToken "at2" "rt2" 100 "Bearer").
  assert (Hb : broker_inv b) by (apply (broker_step_inv NewBroker); [by apply step_register|apply NewBroker_inv]).
  destruct (vend [id] tok r b) as [[[r' b'] a] e] eqn:Hv.
  assert (Hh : rf_host r ≠ ""%string) by discriminate.
  assert (Hord : ∀ i, i ∈ [id] ↔ i ∈ rf_sandboxes r) by (intros i; unfold r; simpl; set_solver).
  assert (Hne : rf_lastToken r ≠ tk_Access tok ∨ rf_lastPushErrs r ≠ []) by (left; discriminate).
  destruct (vend_pushes [id] tok r b r' b' a e Hb Hh Hord Hv Hne) as (_ & -> & _ & Herr & Hall).
  exists b'. destruct (Hall id) as [Hin|Hs]; [unfold r; simpl; set_solver| |exact Hs].
  apply Herr in Hin as [_ Hnone]. exfalso. revert Hnone. vm_compute. discriminate.
Defined.
