(* ===== verification/ImageCache.v ===== *)
(** * internal/core/image, internal/core/service/image_gc.go: the image cache and its garbage collection

    The cache is a directory of entries keyed by content digest.  [Put] streams an artifact into a temporary file,
    checks its digest and renames it into place, then writes the metadata and takes the reference from whoever
    carried it; [Prune] removes what is neither referenced nor held by a writer.

    The state is the directory sha256/ with its entries (a name is kept with the prefix that makes it a digest, as the
    code does when it reads the directory), the pins of the running process, and the leases other processes hold.  Every
    file operation is given an outcome: it succeeds, it fails, or the process dies there, in which case no deferred
    function runs.  SHA-256 is a parameter: nothing here depends on which function it is.  Waiting for a lease, and
    processes that interleave, are the subject of ImageRace. *)

From stdpp Require Import prelude countable gmap strings list sorting.
From Stdlib Require Import ZArith Ascii Lia.
From S2P Require Import Prelude GoStrings GoIO Domain Sandbox Disks.

(** ** domain/image.go *)

Abbreviation Digest := string (only parsing).

Definition digestSHA256Prefix : string := "sha256:".
Definition sha256HexLen : nat := 64.

Inductive digest_error := ErrDigestPrefix | ErrDigestLength | ErrDigestHex.

Definition validateDigest (s : string) : result digest_error unit :=
  match CutPrefix s digestSHA256Prefix with
  | None => Err ErrDigestPrefix
  | Some hexPart =>
      if negb (Nat.eqb (length (chars hexPart)) sha256HexLen) then Err ErrDigestLength
      else match hex_decode (chars hexPart) with None => Err ErrDigestHex | Some _ => Ok tt end
  end.

Definition ParseDigest (s : string) : result digest_error Digest := let* _ := validateDigest s in Ok s.
Definition Digest_Valid (d : Digest) : bool := is_ok (validateDigest d).

Definition Algo (d : Digest) : string := match Cut d ":" with Some (a, _) => a | None => "" end.
Definition Hex (d : Digest) : string := match Cut d ":" with Some (_, h) => h | None => "" end.

(** An [ImageKind] is any integer. *)
Abbreviation ImageKind := Z (only parsing).
Definition KindBase : ImageKind := 1.
Definition KindBuilder : ImageKind := 2.
Definition Kind_Valid (k : ImageKind) : bool := (k =? KindBase) || (k =? KindBuilder).

(** The wire name of a valid kind. *)
Definition Kind_String (k : ImageKind) : string := if k =? KindBase then "base" else "builder".
Definition ParseImageKind (s : string) : option ImageKind :=
  if String.eqb s "base" then Some KindBase else if String.eqb s "builder" then Some KindBuilder else None.

Record Image := mkImage {
  im_Digest : Digest;
  im_Ref : string;
  im_Kind : ImageKind;
  im_Size : Z;
  im_CreatedAt : Time;
}.

(** ** Metadata *)

Definition currentMetaVersion : Z := 1.

Record imageRecord := mkImageRecord { ir_SchemaVersion : Z; ir_Image : Image }.

(** A JSON document: a member may be missing, and then the field keeps its zero value. *)
Record metaDoc := mkMetaDoc {
  md_version : Z;
  md_digest : option string;
  md_ref : string;
  md_kind : option string;
  md_size : Z;
  md_created : Time;
}.

Inductive meta_file := MetaDoc (d : metaDoc) | MetaBroken.

Definition marshal_record (r : imageRecord) : option metaDoc :=
  let i := ir_Image r in
  if Digest_Valid (im_Digest i) && Kind_Valid (im_Kind i) then
    Some (mkMetaDoc (ir_SchemaVersion r) (Some (im_Digest i)) (im_Ref i) (Some (Kind_String (im_Kind i))) (im_Size i) (im_CreatedAt i))
  else None.

Definition unmarshal_record (d : metaDoc) : option imageRecord :=
  match (match md_digest d with None => Some "" | Some s => if Digest_Valid s then Some s else None end),
        (match md_kind d with None => Some 0 | Some s => ParseImageKind s end) with
  | Some dg, Some k => Some (mkImageRecord (md_version d) (mkImage dg (md_ref d) k (md_size d) (md_created d)))
  | _, _ => None
  end.

Inductive cache_error :=
| ErrCtx | ErrInvalidDigest | ErrInvalidKind | ErrNotFound | ErrDigestMismatch (declared computed : Digest)
| ErrIO | ErrDecode | ErrNewerVersion (v : Z) | ErrMarshal.

Definition readMeta (f : option meta_file) : result cache_error imageRecord :=
  match f with
  | None => Err ErrNotFound
  | Some MetaBroken => Err ErrDecode
  | Some (MetaDoc d) =>
      match unmarshal_record d with
      | None => Err ErrDecode
      | Some rec => if currentMetaVersion <? ir_SchemaVersion rec then Err (ErrNewerVersion (ir_SchemaVersion rec)) else Ok rec
      end
  end.

(** ** State *)

Record Entry := mkEntry {
  en_artifact : option bytes;
  en_meta : option meta_file;
  en_tmps : list bytes;
  en_metaTmps : nat;
}.

Definition empty_entry : Entry := mkEntry None None [] 0.

Inductive node := Dir (e : Entry) | Plain.

(** A pin of this process: its reference count and the number of [Put]s that stream into the entry. *)
Record pinEntry := mkPin { pn_n : Z; pn_inflight : Z }.

Record Cache := mkCache {
  ch_entries : gmap Digest node;
  ch_pins : gmap Digest pinEntry;
  ch_leased : gset Digest;
}.

Definition set_entries (es : gmap Digest node) (c : Cache) : Cache := mkCache es (ch_pins c) (ch_leased c).
Definition set_pins (ps : gmap Digest pinEntry) (c : Cache) : Cache := mkCache (ch_entries c) ps (ch_leased c).

Definition entry (d : Digest) (c : Cache) : option Entry :=
  match ch_entries c !! d with Some (Dir e) => Some e | _ => None end.
Definition on_entry (d : Digest) (g : Entry → Entry) (c : Cache) : Cache :=
  match ch_entries c !! d with Some (Dir e) => set_entries (<[d := Dir (g e)]> (ch_entries c)) c | _ => c end.

(** ** Effects: success, an error, or the death of the process *)

Inductive outcome (A : Type) := Done (a : A) | Failed (e : cache_error) | Crashed.
Arguments Done {_} _.
Arguments Failed {_} _.
Arguments Crashed {_}.

Inductive fault := Goes | Fails | Crashes.

Definition M (A : Type) : Type := Cache → Cache * outcome A.

#[global] Instance cache_ret : MRet M := λ A a c, (c, Done a).
#[global] Instance cache_bind : MBind M := λ A B k m c,
  match m c with
  | (c', Done a) => k a c'
  | (c', Failed e) => (c', Failed e)
  | (c', Crashed) => (c', Crashed)
  end.

Definition fail {A} (e : cache_error) : M A := λ c, (c, Failed e).
Definition update (g : Cache → Cache) : M unit := λ c, (g c, Done tt).
Definition with_state {A} (k : Cache → M A) : M A := λ c, k c c.
(** An operation that succeeds, fails without effect, or is the last thing the process does. *)
Definition attempt (f : fault) (g : Cache → Cache) : M unit := λ c,
  match f with Goes => (g c, Done tt) | Fails => (c, Failed ErrIO) | Crashes => (c, Crashed) end.
(** A deferred clean-up that runs when [m] returns an error. *)
Definition on_failure {A} (m : M A) (g : Cache → Cache) : M A := λ c,
  match m c with (c', Failed e) => (g c', Failed e) | r => r end.

(** ** Pins *)

(** Taking a pin this process does not hold yet acquires the lease, which may fail. *)
Definition Pin (lease : fault) (d : Digest) : M unit := λ c,
  if negb (Digest_Valid d) then (c, Failed ErrInvalidDigest)
  else match ch_pins c !! d with
       | Some p => (set_pins (<[d := mkPin (pn_n p + 1) (pn_inflight p)]> (ch_pins c)) c, Done tt)
       | None => attempt lease (λ c, set_pins (<[d := mkPin 1 0]> (ch_pins c)) c) c
       end.

Definition markInflight (d : Digest) (delta : Z) (c : Cache) : Cache :=
  match ch_pins c !! d with
  | Some p => set_pins (<[d := mkPin (pn_n p) (pn_inflight p + delta)]> (ch_pins c)) c
  | None => c
  end.

Definition ownedPin (d : Digest) (c : Cache) : bool * bool :=
  match ch_pins c !! d with
  | Some p => (true, 0 <? pn_inflight p)
  | None => (false, false)
  end.

(** [releaseFunc]: the function [Pin] returns. *)
Definition release_pin (d : Digest) (c : Cache) : Cache :=
  match ch_pins c !! d with
  | Some p =>
      if pn_n p - 1 <=? 0 then set_pins (delete d (ch_pins c)) c
      else set_pins (<[d := mkPin (pn_n p - 1) (pn_inflight p)]> (ch_pins c)) c
  | None => c
  end.

Definition Close_cache (c : Cache) : Cache := set_pins ∅ c.

(** ** writeMeta *)

Inductive meta_op := MtTemp | MtWrite | MtSync | MtClose | MtRename | MtSyncDir.

Inductive put_op :=
| OpLease | OpMkdir | OpTemp | OpStream | OpSync | OpClose | OpRename | OpSyncDir
| OpMeta (d : Digest) (op : meta_op) | OpList.

Definition meta_temp (e : Entry) : Entry := mkEntry (en_artifact e) (en_meta e) (en_tmps e) (S (en_metaTmps e)).
Definition meta_rm (e : Entry) : Entry := mkEntry (en_artifact e) (en_meta e) (en_tmps e) (pred (en_metaTmps e)).
Definition meta_rename (doc : metaDoc) (e : Entry) : Entry :=
  mkEntry (en_artifact e) (Some (MetaDoc doc)) (en_tmps e) (pred (en_metaTmps e)).

Definition writeMeta (f : meta_op → fault) (d : Digest) (rec : imageRecord) : M unit := λ c,
  match marshal_record rec with
  | None => (c, Failed ErrMarshal)
  | Some doc =>
      match entry d c with
      | None => (c, Failed ErrIO)
      | Some _ =>
          (attempt (f MtTemp) (on_entry d meta_temp) ;;
           on_failure
             (attempt (f MtWrite) id ;; attempt (f MtSync) id ;; attempt (f MtClose) id ;;
              attempt (f MtRename) (on_entry d (meta_rename doc)))
             (on_entry d meta_rm) ;;
           attempt (f MtSyncDir) id) c
      end
  end.

(** ** Reading *)

Definition Get_image (d : Digest) (c : Cache) : result cache_error Image :=
  if negb (Digest_Valid d) then Err ErrInvalidDigest
  else match entry d c with
       | Some (mkEntry (Some _) meta _ _) => let* rec := readMeta meta in Ok (ir_Image rec)
       | _ => Err ErrNotFound
       end.

Definition Open_image (d : Digest) (c : Cache) : result cache_error bytes :=
  if negb (Digest_Valid d) then Err ErrInvalidDigest
  else match entry d c with
       | Some (mkEntry (Some a) _ _ _) => Ok a
       | _ => Err ErrNotFound
       end.

Definition list_node (c : Cache) (d : Digest) : option Image :=
  match entry d c with
  | None => None
  | Some e =>
      if negb (Digest_Valid d) then None
      else match readMeta (en_meta e) with Err _ => None | Ok rec => Some (ir_Image rec) end
  end.

Definition names (c : Cache) : list Digest := read_names (dom (ch_entries c)).
Definition List_images (c : Cache) : list Image := omap (list_node c) (names c).

(** ** Put *)

Definition clear_ref (i : Image) : Image := mkImage (im_Digest i) "" (im_Kind i) (im_Size i) (im_CreatedAt i).

Fixpoint release_loop (f : put_op → fault) (ref : string) (keep : Digest) (imgs : list Image) : M unit :=
  match imgs with
  | [] => mret tt
  | i :: imgs =>
      if negb (String.eqb (im_Ref i) ref) || String.eqb (im_Digest i) keep then release_loop f ref keep imgs
      else
        writeMeta (λ o, f (OpMeta (im_Digest i) o)) (im_Digest i) (mkImageRecord currentMetaVersion (clear_ref i)) ;;
        release_loop f ref keep imgs
  end.

Definition releaseRefFrom (f : put_op → fault) (ref : string) (keep : Digest) : M unit := λ c,
  if String.eqb ref "" then (c, Done tt)
  else (attempt (f OpList) id ;; with_state (λ c, release_loop f ref keep (List_images c))) c.

Definition art_temp (e : Entry) : Entry := mkEntry (en_artifact e) (en_meta e) ([] :: en_tmps e) (en_metaTmps e).
Definition art_write (l : bytes) (e : Entry) : Entry := mkEntry (en_artifact e) (en_meta e) (l :: tail (en_tmps e)) (en_metaTmps e).
Definition art_rm (e : Entry) : Entry := mkEntry (en_artifact e) (en_meta e) (tail (en_tmps e)) (en_metaTmps e).
Definition art_rename (l : bytes) (e : Entry) : Entry := mkEntry (Some l) (en_meta e) (tail (en_tmps e)) (en_metaTmps e).

Definition make_dir (d : Digest) (c : Cache) : Cache :=
  match ch_entries c !! d with None => set_entries (<[d := Dir empty_entry]> (ch_entries c)) c | _ => c end.

Section Hash.
(** The hexadecimal SHA-256 sum of the bytes. *)
Context (sum : bytes → string).

Definition computed_digest (l : bytes) : Digest := digestSHA256Prefix +:+ sum l.

(** [Put] up to the point from which the artifact counts as committed; [true] if it was there already.  A reader that
    fails, or a process that dies, while copying leaves the first [cut] bytes in the temporary file. *)
Definition put_artifact (f : put_op → fault) (cut : nat) (d : Digest) (data : bytes) : M bool := λ c,
  match entry d c with
  | Some (mkEntry (Some _) _ _ _) => (c, Done true)
  | _ =>
      match ch_entries c !! d with
      | Some Plain => (c, Failed ErrIO)
      | _ =>
          (attempt (f OpMkdir) (make_dir d) ;;
           attempt (f OpTemp) (on_entry d art_temp) ;;
           on_failure
             (update (on_entry d (art_write (take cut data))) ;;
              attempt (f OpStream) (on_entry d (art_write data)) ;;
              attempt (f OpSync) id ;; attempt (f OpClose) id ;;
              (if String.eqb (computed_digest data) d then mret tt else fail (ErrDigestMismatch d (computed_digest data))) ;;
              attempt (f OpRename) (on_entry d (art_rename data)))
             (on_entry d art_rm) ;;
           attempt (f OpSyncDir) id ;;
           mret false) c
      end
  end.

Definition stored_image (now : Time) (img : Image) (data : bytes) : Image :=
  mkImage (im_Digest img) (im_Ref img) (im_Kind img) (Z.of_nat (length data)) (if IsZero (im_CreatedAt img) then now else im_CreatedAt img).

Definition put_meta (f : put_op → fault) (img : Image) : M unit :=
  writeMeta (λ o, f (OpMeta (im_Digest img) o)) (im_Digest img) (mkImageRecord currentMetaVersion img) ;;
  releaseRefFrom f (im_Ref img) (im_Digest img).

(** The kernel drops the pins of a process that dies. *)
Definition crash (c : Cache) : Cache := set_pins ∅ c.

Definition Put (ctxDone : bool) (f : put_op → fault) (cut : nat) (now : Time) (img : Image) (data : bytes) : M unit := λ c,
  let d := im_Digest img in
  if ctxDone then (c, Failed ErrCtx)
  else if negb (Digest_Valid d) then (c, Failed ErrInvalidDigest)
  else if negb (Kind_Valid (im_Kind img)) then (c, Failed ErrInvalidKind)
  else
    match Pin (f OpLease) d c with
    | (c, Crashed) => (crash c, Crashed)
    | (c, Failed e) => (c, Failed e)
    | (c, Done _) =>
        match put_artifact f cut d data (markInflight d 1 c) with
        | (c, Crashed) => (crash c, Crashed)
        | (c, Failed e) => (release_pin d (markInflight d (-1) c), Failed e)
        | (c, Done true) => (markInflight d (-1) c, Done tt)
        | (c, Done false) =>
            match put_meta f (stored_image now img data) c with
            | (c, Crashed) => (crash c, Crashed)
            | (c, r) => (markInflight d (-1) c, r)
            end
        end
    end.
End Hash.

(** ** Prune *)

Inductive prune_op := PrReadDir | PrOpen (d : Digest) | PrFlock (d : Digest) | PrArtifact (d : Digest) | PrMeta (d : Digest) | PrTmps (d : Digest).

(** [os.RemoveAll] goes on after a file it cannot remove; the directory goes when all of its files went.  A
    process that dies in it leaves the files it had not come to. *)
Definition rm_left (f : prune_op → fault) (d : Digest) (e : Entry) : Entry :=
  let kept op := match f op with Goes => false | _ => true end in
  mkEntry (if kept (PrArtifact d) then en_artifact e else None) (if kept (PrMeta d) then en_meta e else None)
    (if kept (PrTmps d) then en_tmps e else []) (if kept (PrTmps d) then en_metaTmps e else 0).

Definition rm_entry (f : prune_op → fault) (d : Digest) (e : Entry) : M bool := λ c,
  let left := rm_left f d e in
  let keep := bool_decide (left.(en_artifact) ≠ None) || bool_decide (left.(en_meta) ≠ None) ||
              bool_decide (left.(en_tmps) ≠ []) || negb (Nat.eqb left.(en_metaTmps) 0) in
  let dies := existsb (λ op, match f op with Crashes => true | _ => false end) [PrArtifact d; PrMeta d; PrTmps d] in
  if dies then (set_entries (<[d := Dir left]> (ch_entries c)) c, Crashed)
  else if keep then (set_entries (<[d := Dir left]> (ch_entries c)) c, Failed ErrIO)
  else (set_entries (delete d (ch_entries c)) c, Done true).

Definition prune_node (f : prune_op → fault) (refs : list Digest) (d : Digest) : M bool := λ c,
  match entry d c with
  | None => (c, Done false)
  | Some e =>
      if negb (Digest_Valid d) then (c, Done false)
      else if bool_decide (d ∈ refs) then (c, Done false)
      else match ownedPin d c with
           | (true, true) => (c, Done false)
           | (true, false) => rm_entry f d e c
           | (false, _) =>
               match f (PrOpen d) with
               | Crashes => (c, Crashed)
               | Fails => (c, Failed ErrIO)
               | Goes =>
                   if bool_decide (d ∈ ch_leased c) then (c, Done false)
                   else match f (PrFlock d) with Goes => rm_entry f d e c | Fails => (c, Done false) | Crashes => (c, Crashed) end
               end
           end
  end.

(** The number removed so far is returned also with an error. *)
Fixpoint prune_loop (f : prune_op → fault) (refs : list Digest) (ds : list Digest) (removed : Z) (c : Cache) : Cache * Z * outcome unit :=
  match ds with
  | [] => (c, removed, Done tt)
  | d :: ds =>
      match prune_node f refs d c with
      | (c, Done b) => prune_loop f refs ds (if b then removed + 1 else removed) c
      | (c, Failed e) => (c, removed, Failed e)
      | (c, Crashed) => (crash c, removed, Crashed)
      end
  end.

Definition Prune (f : prune_op → fault) (refs : list Digest) (c : Cache) : Cache * Z * outcome unit :=
  match f PrReadDir with
  | Crashes => (crash c, 0, Crashed)
  | Fails => (c, 0, Failed ErrIO)
  | Goes => prune_loop f refs (names c) 0 c
  end.

Definition PruneCandidates (refs : list Digest) (c : Cache) : list Image :=
  List.filter (λ i, negb (bool_decide (im_Digest i ∈ refs))) (List_images c).

(** ** image_gc.go *)

Definition DefaultPinnedBaseRefs : list string := ["nexus-agent-base"; "debian:bookworm-slim"]%string.
Definition HerdrDefaultBaseRepo : string := "ghcr.io/inizio/nexus-base".
Definition DefaultPinnedBaseRepos : list string := [HerdrDefaultBaseRepo].

Definition refInRepo (ref repo : string) : bool :=
  if String.eqb ref repo then true
  else
    let rest := TrimPrefix ref repo in
    negb (String.eqb rest ref) && (HasPrefix rest ":" || HasPrefix rest "@").

(** A base image whose reference is pinned, by itself or by its repository. *)
Definition pinned_base (pinnedBaseRefs : list string) (i : Image) : bool :=
  (im_Kind i =? KindBase) &&
  (bool_decide (im_Ref i ∈ pinnedBaseRefs) || existsb (refInRepo (im_Ref i)) DefaultPinnedBaseRepos).

Definition sandbox_digest (sb : Sandbox) : option Digest :=
  let d := ImageDigest (SEnvelope sb) in
  if String.eqb d "" then None else match ParseDigest d with Ok d => Some d | Err _ => None end.

(** [readdir] fails the listing of the cache; the store may be missing, fail or answer.  The result is sorted. *)
Definition ReferencedDigestsPinned (readdir : bool) (sandboxes : option (option (list Sandbox)))
    (pinnedBaseRefs : list string) (extra : list Digest) (c : Cache) : option (list Digest) :=
  if negb readdir then None
  else
    let bases := im_Digest <$> List.filter (pinned_base pinnedBaseRefs) (List_images c) in
    let extras := List.filter Digest_Valid extra in
    let out used := Some (read_names (list_to_set (bases ++ used ++ extras))) in
    match sandboxes with
    | None => out []
    | Some None => None
    | Some (Some sbs) => out (omap sandbox_digest sbs)
    end.

Definition ReferencedDigests readdir sandboxes extra c := ReferencedDigestsPinned readdir sandboxes DefaultPinnedBaseRefs extra c.

(** Newest first. *)
Definition newer (a b : Image) : Prop := im_CreatedAt b ≤ im_CreatedAt a.
#[global] Instance newer_dec : RelDecision newer.
Proof. intros a b. apply Z_le_dec. Defined.

Definition spare_builders (refs : list Digest) (c : Cache) : list Image :=
  merge_sort newer (List.filter (λ i, (im_Kind i =? KindBuilder) && negb (bool_decide (im_Digest i ∈ refs))) (List_images c)).

Definition AutoPruneAfterBuild (f : prune_op → fault) (readdir readdir2 : bool) (sandboxes : option (option (list Sandbox)))
    (keepNewestBuilder : Z) (extra : list Digest) (c : Cache) : Cache * Z * outcome unit :=
  match ReferencedDigests readdir sandboxes extra c with
  | None => (c, 0, Failed ErrIO)
  | Some ref =>
      if 0 <? keepNewestBuilder then
        if negb readdir2 then (c, 0, Failed ErrIO)
        else
          match Prune f (ref ++ (im_Digest <$> take (Z.to_nat keepNewestBuilder) (spare_builders ref c))) c with
          | (c, n, Done u) => (c, n, Done u)
          | (c, _, r) => (c, 0, r)
          end
      else
        match Prune f ref c with
        | (c, n, Done u) => (c, n, Done u)
        | (c, _, r) => (c, 0, r)
        end
  end.

Inductive preflight_result := PfGo | PfRefs | PfPrune (e : cache_error) | PfNoSpace (shortfall : Z) | PfDied.

(** [free] and [free2] are the free bytes before and after the prune, when they can be measured. *)
Definition BuildPreflight (f : prune_op → fault) (readdir : bool) (free free2 : option Z) (floorBytes : Z)
    (sandboxes : option (option (list Sandbox))) (c : Cache) : Cache * preflight_result :=
  match free with
  | None => (c, PfGo)
  | Some n =>
      if floorBytes <=? n then (c, PfGo)
      else match ReferencedDigests readdir sandboxes [] c with
           | None => (c, PfRefs)
           | Some ref =>
               match Prune f ref c with
               | (c, _, Failed e) => (c, PfPrune e)
               | (c, _, Crashed) => (c, PfDied)
               | (c, _, Done _) =>
                   match free2 with
                   | None => (c, PfGo)
                   | Some n2 => if floorBytes <=? n2 then (c, PfGo) else (c, PfNoSpace (floorBytes - n2))
                   end
               end
           end
  end.

(** ** Builder templates *)

Definition builderTemplatePrefix : string := "nexus-builder-".
Definition builderTemplateAgentSep : string := "-agent".
Definition builderTemplateSuffix : string := ".ext4".
Definition builderAgentTagLen : nat := 16.
Definition BuilderTemplateInFlightGrace : Duration := 10 * Minute.

Definition parseBuilderTemplateName (name : string) : option string :=
  let n := chars name in
  let lp := length (chars builderTemplatePrefix) in
  let ls := length (chars builderTemplateSuffix) in
  let la := length (chars builderTemplateAgentSep) in
  if (Nat.leb (length n) (lp + ls) || negb (bool_decide (take lp n = chars builderTemplatePrefix))
      || negb (bool_decide (drop (length n - ls) n = chars builderTemplateSuffix)))%bool then None
  else
    let stem := drop lp (take (length n - ls) n) in
    if Nat.ltb (length stem) (la + builderAgentTagLen) then None
    else
      let tag := drop (length stem - builderAgentTagLen) stem in
      let sep := drop (length stem - builderAgentTagLen - la) (take (length stem - builderAgentTagLen) stem) in
      if negb (bool_decide (sep = chars builderTemplateAgentSep)) then None
      else match hex_decode tag with None => None | Some _ => Some (of_chars tag) end.

(** A file of the cache root, and whether some open description holds its lock. *)
Record RootFile := mkRootFile { rf_regular : bool; rf_blocks : Z; rf_mtime : Time; rf_locked : bool }.

Record BuilderTemplate := mkTemplate { bt_name : string; bt_Size : Z; bt_AgentTag : string; bt_ModTime : Time }.

(** [stat] fails (true) for a file that is not gone. *)
Definition template_of (root : gmap string RootFile) (name : string) : option BuilderTemplate :=
  match root !! name with
  | Some rf =>
      if negb (rf_regular rf) then None
      else match parseBuilderTemplateName name with
           | None => None
           | Some tag => Some (mkTemplate name (i64 (rf_blocks rf * 512)) tag (rf_mtime rf))
           end
  | None => None
  end.

Definition ListBuilderTemplates (readdir : bool) (stat_fails : string → bool) (root : gmap string RootFile) : option (list BuilderTemplate) :=
  if negb readdir then None
  else
    let l := omap (template_of root) (read_names (dom root)) in
    if existsb (λ t, stat_fails (bt_name t)) l then None else Some l.

Inductive template_op := TpOpen (name : string) | TpFlock (name : string) | TpRemove (name : string).

Definition builderTemplateHeld (fails : template_op → bool) (root : gmap string RootFile) (name : string) : option bool :=
  match root !! name with
  | None => None
  | Some rf => Some (fails (TpOpen name) || rf_locked rf || fails (TpFlock name))
  end.

Fixpoint sweep_templates (fails : template_op → bool) (now : Time) (currentTag : string) (dryRun : bool) (ts : list BuilderTemplate)
    (removed : list BuilderTemplate) (freed : Z) (root : gmap string RootFile)
    : gmap string RootFile * list BuilderTemplate * Z * bool :=
  match ts with
  | [] => (root, removed, freed, true)
  | t :: ts =>
      if String.eqb (bt_AgentTag t) currentTag then sweep_templates fails now currentTag dryRun ts removed freed root
      else if Sub now (bt_ModTime t) <? BuilderTemplateInFlightGrace then sweep_templates fails now currentTag dryRun ts removed freed root
      else match builderTemplateHeld fails root (bt_name t) with
           | None | Some true => sweep_templates fails now currentTag dryRun ts removed freed root
           | Some false =>
               if dryRun then sweep_templates fails now currentTag dryRun ts (removed ++ [t]) (i64 (freed + bt_Size t)) root
               else if fails (TpRemove (bt_name t)) then (root, removed, freed, false)
               else sweep_templates fails now currentTag dryRun ts (removed ++ [t]) (i64 (freed + bt_Size t)) (delete (bt_name t) root)
           end
  end.

Definition PruneBuilderTemplates (readdir : bool) (stat_fails : string → bool) (fails : template_op → bool) (now : Time)
    (currentTag : string) (dryRun : bool) (root : gmap string RootFile) : gmap string RootFile * list BuilderTemplate * Z * bool :=
  if String.eqb currentTag "" then (root, [], 0, true)
  else match ListBuilderTemplates readdir stat_fails root with
       | None => (root, [], 0, false)
       | Some ts => sweep_templates fails now currentTag dryRun ts [] 0 root
       end.

(** ** What holds of every computation *)

(** [m] only moves the cache along [R], whatever it returns. *)
Definition keeps {A} (R : relation Cache) (m : M A) : Prop := ∀ c c' r, m c = (c', r) → R c c'.

Section keeps.
Context (R : relation Cache) `{!PreOrder R}.

Lemma cache_keeps_ret {A} (a : A) : keeps R (mret a).
Proof. intros c c' r [= <- <-]. done. Qed.
Lemma cache_keeps_fail {A} e : keeps R (@fail A e).
Proof. intros c c' r [= <- <-]. done. Qed.
Lemma keeps_update g : (∀ c, R c (g c)) → keeps R (update g).
Proof. intros Hg c c' r [= <- <-]. done. Qed.
Lemma keeps_attempt f g : (∀ c, R c (g c)) → keeps R (attempt f g).
Proof. intros Hg c c' r. destruct f; intros [= <- <-]; done. Qed.
Lemma cache_keeps_bind {A B} (m : M A) (k : A → M B) : keeps R m → (∀ a, keeps R (k a)) → keeps R (m ≫= k).
Proof.
  intros Hm Hk c c' r. unfold mbind, cache_bind. destruct (m c) as [c1 [a|e|]] eqn:E; [|intros [= <- <-]; eauto..].
  intros H. etrans; [by eapply Hm|]. by eapply Hk.
Qed.
Lemma keeps_on_failure {A} (m : M A) g : keeps R m → (∀ c, R c (g c)) → keeps R (on_failure m g).
Proof.
  intros Hm Hg c c' r. unfold on_failure. destruct (m c) as [c1 [a|e|]] eqn:E; intros [= <- <-]; eauto.
  etrans; [by eapply Hm|done].
Qed.
Lemma keeps_with_state {A} (k : Cache → M A) : (∀ c, keeps R (k c)) → keeps R (with_state k).
Proof. intros Hk c c' r. apply Hk. Qed.
End keeps.

(** A computation that fails at once runs nothing of what follows. *)
Lemma bind_fail {A B} e (k : A → M B) c : (fail e ≫= k) c = (c, Failed e).
Proof. done. Qed.

Ltac keep :=
  repeat first
    [ apply cache_keeps_ret; typeclasses eauto | apply cache_keeps_fail; typeclasses eauto
    | apply cache_keeps_bind; [typeclasses eauto| |intros]
    | apply keeps_on_failure; [typeclasses eauto|..]
    | apply keeps_attempt; [typeclasses eauto|..]
    | apply keeps_update; [..]
    | apply keeps_with_state; intros ?
    | by intros ?; unfold id; reflexivity | solve [eauto] ].

Lemma entry_on_entry d g d' c : entry d' (on_entry d g c) = if decide (d' = d) then g <$> entry d c else entry d' c.
Proof.
  unfold on_entry, entry. case_decide; subst; destruct (ch_entries c !! d) as [[e|]|] eqn:E; simpl.
  - by rewrite lookup_insert_eq.
  - by rewrite E.
  - by rewrite E.
  - by rewrite lookup_insert_ne.
  - done.
  - done.
Qed.

Lemma on_entry_pins d g c : ch_pins (on_entry d g c) = ch_pins c.
Proof. unfold on_entry. by destruct (ch_entries c !! d) as [[]|]. Qed.
Lemma make_dir_pins d c : ch_pins (make_dir d c) = ch_pins c.
Proof. unfold make_dir. by destruct (ch_entries c !! d). Qed.

Lemma marshal_unmarshal r doc :
  marshal_record r = Some doc ↔ Digest_Valid (im_Digest (ir_Image r)) = true ∧ Kind_Valid (im_Kind (ir_Image r)) = true ∧
    doc = mkMetaDoc (ir_SchemaVersion r) (Some (im_Digest (ir_Image r))) (im_Ref (ir_Image r)) (Some (Kind_String (im_Kind (ir_Image r))))
      (im_Size (ir_Image r)) (im_CreatedAt (ir_Image r)).
Proof.
  unfold marshal_record. destruct (Digest_Valid _), (Kind_Valid _); simpl; intuition congruence.
Qed.

Lemma parse_kind k : Kind_Valid k = true → ParseImageKind (Kind_String k) = Some k.
Proof.
  unfold Kind_Valid, Kind_String. rewrite orb_true_iff, !Z.eqb_eq. by intros [-> | ->].
Qed.

(** Metadata that is written reads back as it was. *)
Lemma record_reads_back r doc :
  marshal_record r = Some doc → unmarshal_record doc = Some r.
Proof.
  intros (Hd & Hk & ->)%marshal_unmarshal. unfold unmarshal_record. simpl. rewrite Hd, (parse_kind _ Hk). by destruct r as [v []].
Qed.

(** ** Writing metadata *)

Section writeMeta.
Context (R : relation Cache) `{!PreOrder R} (d : Digest) (rec : imageRecord).

Lemma keeps_writeMeta f :
  (∀ c, R c (on_entry d meta_temp c)) → (∀ c, R c (on_entry d meta_rm c)) →
  (∀ c doc, marshal_record rec = Some doc → R c (on_entry d (meta_rename doc) c)) → keeps R (writeMeta f d rec).
Proof.
  intros Ht Hr Hn c c' r. unfold writeMeta. destruct (marshal_record rec) as [doc|]; [|by intros [= <- <-]].
  destruct (entry d c); [|by intros [= <- <-]]. revert c c' r. change (keeps R (attempt (f MtTemp) (on_entry d meta_temp) ;;
           on_failure
             (attempt (f MtWrite) id ;; attempt (f MtSync) id ;; attempt (f MtClose) id ;;
              attempt (f MtRename) (on_entry d (meta_rename doc)))
             (on_entry d meta_rm) ;;
           attempt (f MtSyncDir) id)). keep.
Qed.
End writeMeta.

Lemma attempt_done f g c c' : attempt f g c = (c', Done tt) → c' = g c.
Proof. destruct f; intros H; simplify_eq/=; done. Qed.

Lemma bind_done {A B} (m : M A) (k : A → M B) c c' b :
  (m ≫= k) c = (c', Done b) → ∃ c1 a, m c = (c1, Done a) ∧ k a c1 = (c', Done b).
Proof. unfold mbind, cache_bind. destruct (m c) as [c1 [a|e|]]; intros H; simplify_eq/=; eauto. Qed.

Lemma on_failure_done {A} (m : M A) g c c' a : on_failure m g c = (c', Done a) → m c = (c', Done a).
Proof. unfold on_failure. destruct (m c) as [c1 [|e|]]; intros H; simplify_eq/=; done. Qed.

Ltac run_done :=
  repeat match goal with
  | H : (_ ≫= _) _ = (_, Done _) |- _ => apply bind_done in H as (? & [] & ? & H)
  | H : on_failure _ _ _ = (_, Done _) |- _ => apply on_failure_done in H
  | H : attempt _ _ _ = (_, Done ?u) |- _ => destruct u; apply attempt_done in H; subst
  end.

Lemma writeMeta_done f d rec c c' :
  writeMeta f d rec c = (c', Done tt) →
  ∃ doc e e', marshal_record rec = Some doc ∧ entry d c = Some e ∧ entry d c' = Some e' ∧
    en_meta e' = Some (MetaDoc doc) ∧ en_artifact e' = en_artifact e ∧
    ch_pins c' = ch_pins c ∧ ∀ d', d' ≠ d → entry d' c' = entry d' c.
Proof.
  unfold writeMeta. destruct (marshal_record rec) as [doc|]; [|done]. destruct (entry d c) as [e|] eqn:He; [|done].
  intros H. run_done. unfold id. exists doc, e. rewrite !entry_on_entry, !decide_True by done. rewrite He.
  eexists. repeat split; [by rewrite !on_entry_pins|]. intros d' Hd'. by rewrite !entry_on_entry, !decide_False.
Qed.

(** ** The content-addressing invariant *)

Section content.
Context (sum : bytes → string).

(** Metadata this version wrote about the entry's own digest. *)
Definition good_meta (d : Digest) (m : meta_file) : Prop :=
  ∃ doc i, m = MetaDoc doc ∧ unmarshal_record doc = Some (mkImageRecord currentMetaVersion i) ∧ im_Digest i = d ∧
    Digest_Valid d = true ∧ Kind_Valid (im_Kind i) = true.

Definition good_entry (d : Digest) (e : Entry) : Prop :=
  (∀ a, en_artifact e = Some a → computed_digest sum a = d) ∧ (∀ m, en_meta e = Some m → good_meta d m).

Definition good (c : Cache) : Prop := ∀ d e, entry d c = Some e → good_entry d e.
Definition stays_good (c c' : Cache) : Prop := good c → good c'.

#[local] Instance stays_good_preorder : PreOrder stays_good.
Proof. split; [by intros c Hc|]. intros x y z Hxy Hyz Hx. by apply Hyz, Hxy. Qed.

Lemma good_on_entry d g c : (∀ e, good_entry d e → good_entry d (g e)) → stays_good c (on_entry d g c).
Proof.
  intros Hg Hc d' e. rewrite entry_on_entry. case_decide; subst; [|apply Hc].
  destruct (entry d c) as [e0|] eqn:E; intros [= <-]. apply Hg, Hc, E.
Qed.

Lemma good_same_entries c c' : ch_entries c' = ch_entries c → stays_good c c'.
Proof. intros E Hc d e. unfold entry. rewrite E. apply Hc. Qed.

Lemma good_meta_write d rec doc :
  marshal_record rec = Some doc → im_Digest (ir_Image rec) = d → ir_SchemaVersion rec = currentMetaVersion → good_meta d (MetaDoc doc).
Proof.
  intros Hm Hd Hv. pose proof (record_reads_back _ _ Hm) as Hu. apply marshal_unmarshal in Hm as (Hvd & Hk & _).
  exists doc, (ir_Image rec). destruct rec as [v i]; simpl in *. by subst.
Qed.

Lemma good_writeMeta f d rec :
  im_Digest (ir_Image rec) = d → ir_SchemaVersion rec = currentMetaVersion → keeps stays_good (writeMeta f d rec).
Proof.
  intros Hd Hv. apply keeps_writeMeta; [typeclasses eauto|..]; intros c; [..|intros doc Hm]; apply good_on_entry; intros e [Ha Hme]; split; try done.
  simpl. intros m [= <-]. by eapply good_meta_write.
Qed.

Lemma good_release f ref keep imgs : keeps stays_good (release_loop f ref keep imgs).
Proof.
  induction imgs as [|i imgs IH]; simpl; [apply cache_keeps_ret; typeclasses eauto|]. destruct (_ || _); [done|].
  apply cache_keeps_bind; [typeclasses eauto| |done]. by apply good_writeMeta.
Qed.

Lemma good_put_meta f img : keeps stays_good (put_meta f img).
Proof.
  apply cache_keeps_bind; [typeclasses eauto|by apply good_writeMeta|intros _].
  intros c c' r. unfold releaseRefFrom. destruct (String.eqb _ _); [by intros [= <- <-]|].
  revert c c' r. change (keeps stays_good (attempt (f OpList) id ;; with_state (λ c, release_loop f (im_Ref img) (im_Digest img) (List_images c)))).
  keep. apply good_release.
Qed.

Lemma good_put_artifact f cut d data : keeps stays_good (put_artifact sum f cut d data).
Proof.
  intros c c' r. unfold put_artifact. intros Hr.
  assert (Hgo : keeps stays_good (attempt (f OpMkdir) (make_dir d) ;;
           attempt (f OpTemp) (on_entry d art_temp) ;;
           on_failure
             (update (on_entry d (art_write (take cut data))) ;;
              attempt (f OpStream) (on_entry d (art_write data)) ;;
              attempt (f OpSync) id ;; attempt (f OpClose) id ;;
              (if String.eqb (computed_digest sum data) d then mret tt else fail (ErrDigestMismatch d (computed_digest sum data))) ;;
              attempt (f OpRename) (on_entry d (art_rename data)))
             (on_entry d art_rm) ;;
           attempt (f OpSyncDir) id ;;
           mret false)).
  { apply cache_keeps_bind; [typeclasses eauto|apply keeps_attempt; [typeclasses eauto|]|intros _].
    { intros c0. unfold make_dir. destruct (ch_entries c0 !! d) as [|] eqn:E; [done|]. intros Hc d' e. unfold entry. simpl.
      destruct (decide (d' = d)) as [->|]; [rewrite lookup_insert_eq; by intros [= <-]|rewrite lookup_insert_ne by done; apply Hc]. }
    assert (Ht : ∀ g, (∀ e, en_artifact (g e) = en_artifact e ∧ en_meta (g e) = en_meta e) → ∀ c, stays_good c (on_entry d g c)).
    { intros g Hg c0. apply good_on_entry. intros e [Ha Hm]. destruct (Hg e) as [E1 E2]. split; [by rewrite E1|by rewrite E2]. }
    apply cache_keeps_bind; [typeclasses eauto|apply keeps_attempt; [typeclasses eauto|by apply Ht]|intros _].
    apply cache_keeps_bind; [typeclasses eauto| |intros _; keep].
    apply keeps_on_failure; [typeclasses eauto| |by apply Ht].
    apply cache_keeps_bind; [typeclasses eauto|apply keeps_update; by apply Ht|intros _].
    apply cache_keeps_bind; [typeclasses eauto|apply keeps_attempt; [typeclasses eauto|by apply Ht]|intros _].
    do 2 (apply cache_keeps_bind; [typeclasses eauto|keep|intros _]).
    destruct (String.eqb_spec (computed_digest sum data) d) as [E|].
    - apply cache_keeps_bind; [typeclasses eauto|keep|intros _]. apply keeps_attempt; [typeclasses eauto|]. intros c0.
      apply good_on_entry. intros e [Ha Hm]. split; [by intros a [= <-]|done].
    - intros c0 c1 r1 [= <- <-]. done. }
  destruct (entry d c) as [[[a|] me ts mt]|]; [by injection Hr as <- <-|..];
    (destruct (ch_entries c !! d) as [[e|]|]; [exact (Hgo _ _ _ Hr)|by injection Hr as <- <-|exact (Hgo _ _ _ Hr)]).
Qed.

Lemma markInflight_entries d z c : ch_entries (markInflight d z c) = ch_entries c.
Proof. unfold markInflight. by destruct (ch_pins c !! d). Qed.
Lemma release_pin_entries d c : ch_entries (release_pin d c) = ch_entries c.
Proof. unfold release_pin. destruct (ch_pins c !! d); [by destruct (_ <=? 0)|done]. Qed.
Lemma Pin_entries l d c c' r : Pin l d c = (c', r) → ch_entries c' = ch_entries c.
Proof.
  unfold Pin. destruct (negb _); [by intros [= <- <-]|]. destruct (ch_pins c !! d); [by intros [= <- <-]|].
  destruct l; by intros [= <- <-].
Qed.

Lemma good_Put ctx f cut now img data : keeps stays_good (Put sum ctx f cut now img data).
Proof.
  intros c c' r. unfold Put. destruct ctx; [by intros [= <- <-]|]. do 2 (destruct (negb _); [by intros [= <- <-]|]).
  destruct (Pin _ _ c) as [c1 r1] eqn:Hp. pose proof (good_same_entries _ _ (Pin_entries _ _ _ _ _ Hp)) as H1.
  destruct r1 as [[]|e|]; [|by intros [= <- <-]|intros [= <- <-]; by etrans; [|apply good_same_entries]].
  set (c2 := markInflight _ _ c1). assert (H2 : stays_good c c2) by (etrans; [done|]; apply good_same_entries, markInflight_entries).
  destruct (put_artifact _ _ _ _ _ c2) as [c3 r3] eqn:Ha. pose proof (good_put_artifact _ _ _ _ _ _ _ Ha) as H3.
  destruct r3 as [[]|e|].
  - intros [= <- <-]. etrans; [exact H2|]. etrans; [exact H3|]. apply good_same_entries, markInflight_entries.
  - destruct (put_meta _ _ c3) as [c4 r4] eqn:Hm. pose proof (good_put_meta _ _ _ _ _ Hm) as H4.
    intros Hr. assert (E : ch_entries c' = ch_entries c4).
    { destruct r4; injection Hr as <- <-; try apply markInflight_entries; done. }
    etrans; [exact H2|]. etrans; [exact H3|]. etrans; [exact H4|]. by apply good_same_entries.
  - intros [= <- <-]. etrans; [exact H2|]. etrans; [exact H3|]. apply good_same_entries. by rewrite release_pin_entries, markInflight_entries.
  - intros [= <- <-]. etrans; [exact H2|]. etrans; [exact H3|]. by apply good_same_entries.
Qed.

(** ** Pruning *)

(** What [Prune] must not touch: what is referenced, what a [Put] of this process is writing, and what another process
    holds the lease of. *)
Definition protected (refs : list Digest) (c : Cache) (d : Digest) : Prop :=
  d ∈ refs ∨ (∃ p, ch_pins c !! d = Some p ∧ 0 < pn_inflight p) ∨ (ch_pins c !! d = None ∧ d ∈ ch_leased c).

Lemma rm_entry_cases f d e c c' r :
  rm_entry f d e c = (c', r) →
  (c' = set_entries (delete d (ch_entries c)) c ∧ r = Done true) ∨
  (c' = set_entries (<[d := Dir (rm_left f d e)]> (ch_entries c)) c ∧ (r = Failed ErrIO ∨ r = Crashed)).
Proof. unfold rm_entry. cbv zeta. destruct (existsb _ _); [intros [= <- <-]; auto|]. destruct (_ || _); intros [= <- <-]; auto. Qed.

Lemma prune_node_cases f refs d c c' r :
  prune_node f refs d c = (c', r) →
  (c' = c ∧ r ≠ Done true ∧
    (r = Done false → entry d c = None ∨ Digest_Valid d = false ∨ protected refs c d ∨ f (PrFlock d) = Fails)) ∨
  ∃ e, entry d c = Some e ∧ Digest_Valid d = true ∧ ¬ protected refs c d ∧ rm_entry f d e c = (c', r).
Proof.
  unfold prune_node. destruct (entry d c) as [e|] eqn:He; [|intros [= <- <-]; left; split; [done|]; split; [done|auto]].
  destruct (Digest_Valid d) eqn:Hv; simpl; [|intros [= <- <-]; left; split; [done|]; split; [done|auto]].
  case_bool_decide as Hin; [intros [= <- <-]; left; unfold protected; split; [done|]; split; [done|auto]|].
  unfold ownedPin. destruct (ch_pins c !! d) as [p|] eqn:Hp.
  - destruct (0 <? pn_inflight p) eqn:Hn; [intros H0; injection H0 as <- <-; left; split; [done|]; split; [done|]; intros _|].
    { right. right. left. right. left. eexists. split; [done|]. by apply Z.ltb_lt. }
    intros Hr. right. exists e. split; [done|]. split; [done|]. split; [|done].
    intros [?|[(p' & Hp' & ?)|[? _]]]; [done| |congruence]. rewrite Hp in Hp'. injection Hp' as <-. apply Z.ltb_ge in Hn. lia.
  - destruct (f (PrOpen d)); [|intros [= <- <-]; left; (split; [done|]); by split..].
    case_bool_decide as Hl; [intros [= <- <-]; left; split; [done|]; split; [done|]; intros _; right; right; left; right; right; done|].
    assert (Hnp : ¬ protected refs c d) by (intros [?|[(p' & Hp' & ?)|[_ ?]]]; [done|congruence|done]).
    destruct (f (PrFlock d)) eqn:Hf; [by eauto 10|intros [= <- <-]; left; (split; [done|]); split; [done|by intros _; do 3 right]|intros [= <- <-]; left; (split; [done|]); by split].
Qed.

Lemma prune_node_pins f refs d c c' r : prune_node f refs d c = (c', r) → ch_pins c' = ch_pins c ∧ ch_leased c' = ch_leased c.
Proof.
  intros [(-> & _)|(e & _ & _ & _ & [[-> _]|[-> _]]%rm_entry_cases)]%prune_node_cases; done.
Qed.

Lemma protected_same refs c c' d : ch_pins c' = ch_pins c ∧ ch_leased c' = ch_leased c → protected refs c' d ↔ protected refs c d.
Proof. intros [E1 E2]. unfold protected. by rewrite E1, E2. Qed.

Lemma set_entries_size d e c e' :
  entry d c = Some e → size (<[d := Dir e']> (ch_entries c)) = size (ch_entries c) ∧
    S (size (delete d (ch_entries c))) = size (ch_entries c).
Proof.
  unfold entry. destruct (ch_entries c !! d) as [[e0|]|] eqn:E; intros [= <-].
  split; [by apply map_size_insert_Some; eexists|]. rewrite map_size_delete_Some by eauto.
  pose proof (map_size_ne_0_lookup_2 (ch_entries c) d ltac:(eauto)). lia.
Qed.

Lemma good_rm_left f d e c : entry d c = Some e → good c → good (set_entries (<[d := Dir (rm_left f d e)]> (ch_entries c)) c).
Proof.
  intros He Hg d' e'. unfold entry. simpl.
  destruct (decide (d' = d)) as [->|]; [|rewrite lookup_insert_ne by done; apply Hg].
  rewrite lookup_insert_eq. intros [= <-]. destruct (Hg d e He) as [Ha Hm]. unfold rm_left.
  split; simpl; [destruct (f (PrArtifact d)); try done|destruct (f (PrMeta d)); try done].
Qed.

(** What the loop leaves of an entry, however it ends. *)
Lemma prune_loop_spec f refs ds removed c c' n r :
  prune_loop f refs ds removed c = (c', n, r) →
  (∀ d, d ∉ ds ∨ Digest_Valid d = false ∨ protected refs c d → ch_entries c' !! d = ch_entries c !! d) ∧
  (∀ d, ch_entries c !! d = None → ch_entries c' !! d = None) ∧
  n - removed = Z.of_nat (size (ch_entries c)) - Z.of_nat (size (ch_entries c')) ∧
  (good c → good c') ∧
  (r = Done tt → ch_pins c' = ch_pins c ∧
    ∀ d e, d ∈ ds → entry d c = Some e → Digest_Valid d = true → protected refs c d ∨ f (PrFlock d) = Fails ∨ ch_entries c' !! d = None).
Proof.
  revert removed c. induction ds as [|d ds IH]; intros removed c; simpl.
  { intros [= <- <- <-]. split; [done|]. split; [done|]. split; [lia|]. split; [done|]. intros _. split; [done|]. by intros ? ? ?%elem_of_nil. }
  destruct (prune_node f refs d c) as [c1 r1] eqn:Hn. pose proof (prune_node_pins _ _ _ _ _ _ Hn) as Hsame.
  apply prune_node_cases in Hn as [(-> & Hr1 & Hkept)|(e & He & Hv & Hnp & Hrm)].
  - destruct r1 as [[]|e|]; [done| |intros [= <- <- <-]; (do 2 (split; [done|])); (split; [simpl; lia|]); by split..].
    intros Hl. apply IH in Hl as (H1 & H2 & H3 & H4 & H5). split; [|split; [done|]; split; [done|]; split; [done|]].
    { intros d' [Hd'|Hd']; apply H1; [left; set_solver|by right]. }
    intros Hr. destruct (H5 Hr) as [Hp Hall]. split; [done|]. intros d' e' [->|Hd']%elem_of_cons He' Hv'; [|by eapply Hall].
    destruct (Hkept eq_refl) as [?|[?|[?|?]]]; [congruence..|by left|by right; left].
  - destruct (set_entries_size d e c (rm_left f d e) He) as [Hs1 Hs2].
    apply rm_entry_cases in Hrm as [[-> ->]|[-> Hr1]].
    + intros Hl. apply IH in Hl as (H1 & H2 & H3 & H4 & H5). simpl in *.
      assert (Hd : ∀ d', d' ∉ d :: ds ∨ Digest_Valid d' = false ∨ protected refs c d' → d' ≠ d).
      { intros d' [Hd'|[Hd'|Hd']] ->; [by apply Hd'; left|congruence|done]. }
      split. { intros d' Hd'. rewrite H1; [by apply lookup_delete_ne, not_eq_sym, Hd|]. destruct Hd' as [?|[?|?]]; [left; set_solver|by right; left|by right; right]. }
      split. { intros d' Hd'. apply H2. destruct (decide (d' = d)) as [->|]; [by rewrite lookup_delete_eq|by rewrite lookup_delete_ne]. }
      split; [lia|]. split.
      { intros Hg. apply H4. intros d' e'. unfold entry. simpl. destruct (decide (d' = d)) as [->|]; [by rewrite lookup_delete_eq|].
        rewrite lookup_delete_ne by done. apply Hg. }
      intros Hr. destruct (H5 Hr) as [Hp Hall]. split; [done|]. intros d' e' Hin He' Hv'. destruct (decide (d' = d)) as [->|Hne].
      { right; right. apply H2. by rewrite lookup_delete_eq. }
      apply elem_of_cons in Hin as [?|Hin]; [done|].
      apply (Hall d' e' Hin); [|done]. unfold entry in *. simpl. by rewrite lookup_delete_ne.
    + assert (Hno : ∀ d', d' ∉ d :: ds ∨ Digest_Valid d' = false ∨ protected refs c d' → d' ≠ d).
      { intros d' [Hd'|[Hd'|Hd']] ->; [by apply Hd'; left|congruence|done]. }
      assert (Hsome : ∀ d', ch_entries c !! d' = None → d' ≠ d) by (intros d' Hd' ->; unfold entry in He; by rewrite Hd' in He).
      assert (Hgood : good c → good (set_entries (<[d := Dir (rm_left f d e)]> (ch_entries c)) c)) by (intros; by apply good_rm_left).
      destruct Hr1 as [-> | ->]; intros [= <- <- <-]; simpl;
        (split; [intros d' Hd'; apply lookup_insert_ne, not_eq_sym; eauto|]);
        (split; [intros d' Hd'; rewrite lookup_insert_ne by (apply not_eq_sym; eauto); done|]); (split; [simpl; lia|]); (split; [exact Hgood|done]).
Qed.

Lemma elem_of_names d c : d ∈ names c ↔ is_Some (ch_entries c !! d).
Proof.
  unfold names, read_names. rewrite merge_sort_Permutation, elem_of_elements, elem_of_dom. done.
Qed.

(** A prune, however it ends, leaves everything protected exactly as it was, creates nothing, keeps the cache
    content-addressed and counts what it removed; when it succeeds every other entry whose lock could be probed is gone. *)
Theorem prune_spec f refs c c' n r :
  Prune f refs c = (c', n, r) →
  (∀ d, protected refs c d → ch_entries c' !! d = ch_entries c !! d) ∧
  (∀ d, ch_entries c !! d = None → ch_entries c' !! d = None) ∧
  n = Z.of_nat (size (ch_entries c)) - Z.of_nat (size (ch_entries c')) ∧
  (good c → good c') ∧
  (r = Done tt → ∀ d e, entry d c = Some e → Digest_Valid d = true →
    protected refs c d ∨ f (PrFlock d) = Fails ∨ ch_entries c' !! d = None).
Proof.
  unfold Prune. destruct (f PrReadDir); [|intros [= <- <- <-]; (do 2 (split; [done|])); (split; [simpl; lia|]); by split..].
  intros (H1 & H2 & H3 & H4 & H5)%prune_loop_spec. split; [auto|]. split; [done|]. split; [lia|]. split; [done|].
  intros Hr d e He Hv. destruct (H5 Hr) as [_ Hall]. eapply Hall; [|done..].
  apply elem_of_names. unfold entry in He. by destruct (ch_entries c !! d).
Qed.

(** ** What a successful [Put] establishes *)

Lemma entry_make_dir d c d' :
  ch_entries c !! d ≠ Some Plain →
  entry d' (make_dir d c) = if decide (d' = d) then Some (default empty_entry (entry d c)) else entry d' c.
Proof.
  unfold make_dir, entry. intros Hp. case_decide as Hd; [subst|].
  - destruct (ch_entries c !! d) as [[e|]|] eqn:E; simpl; [by rewrite E|done|by rewrite lookup_insert_eq].
  - destruct (ch_entries c !! d) as [[e|]|] eqn:E; simpl; [done..|by rewrite lookup_insert_ne].
Qed.

Lemma put_artifact_done f cut d data c c' b :
  put_artifact sum f cut d data c = (c', Done b) →
  if b then c' = c ∧ ∃ e a, entry d c = Some e ∧ en_artifact e = Some a
  else (∀ e a, entry d c = Some e → en_artifact e ≠ Some a) ∧ computed_digest sum data = d ∧ ch_pins c' = ch_pins c ∧
       (∃ e, entry d c' = Some e ∧ en_artifact e = Some data) ∧ ∀ d', d' ≠ d → entry d' c' = entry d' c.
Proof.
  unfold put_artifact. intros Hr.
  assert (Hcase : (c' = c ∧ b = true ∧ ∃ e a, entry d c = Some e ∧ en_artifact e = Some a) ∨
    (∀ e a, entry d c = Some e → en_artifact e ≠ Some a) ∧ ch_entries c !! d ≠ Some Plain ∧
    (attempt (f OpMkdir) (make_dir d) ;; attempt (f OpTemp) (on_entry d art_temp) ;;
     on_failure
       (update (on_entry d (art_write (take cut data))) ;; attempt (f OpStream) (on_entry d (art_write data)) ;;
        attempt (f OpSync) id ;; attempt (f OpClose) id ;;
        (if String.eqb (computed_digest sum data) d then mret tt else fail (ErrDigestMismatch d (computed_digest sum data))) ;;
        attempt (f OpRename) (on_entry d (art_rename data)))
       (on_entry d art_rm) ;;
     attempt (f OpSyncDir) id ;; mret false) c = (c', Done b)).
  { destruct (entry d c) as [[[a|] me ts mt]|] eqn:He; [injection Hr as <- <-; left; eauto 10|..];
      (right; split; [intros e a' [= <-] || intros e a' [=]; done|]; destruct (ch_entries c !! d) as [[e|]|]; done). }
  destruct Hcase as [(-> & -> & He)|(Hno & Hplain & Hgo)]; [done|]. clear Hr.
  apply bind_done in Hgo as (? & [] & H1 & Hgo). apply bind_done in Hgo as (? & [] & H2 & Hgo).
  apply bind_done in Hgo as (? & [] & H3 & Hgo). apply bind_done in Hgo as (? & [] & H4 & Hgo). injection Hgo as <- <-.
  apply on_failure_done in H3. apply bind_done in H3 as (? & [] & H5 & H3). injection H5 as <-.
  apply bind_done in H3 as (? & [] & H6 & H3). apply bind_done in H3 as (? & [] & H7 & H3). apply bind_done in H3 as (? & [] & H8 & H3).
  destruct (String.eqb_spec (computed_digest sum data) d) as [Hd|]; [|done]. apply bind_done in H3 as (? & [] & H9 & H3). injection H9 as <-.
  apply attempt_done in H1, H2, H3, H4, H6, H7, H8. unfold id in *. subst.
  split; [done|]. split; [done|]. split; [by rewrite !on_entry_pins, make_dir_pins|]. split.
  - rewrite !entry_on_entry, !decide_True, entry_make_dir, decide_True by done. simpl. eauto.
  - intros d' Hd'. rewrite !entry_on_entry, !decide_False, entry_make_dir, decide_False by done. done.
Qed.

Lemma list_node_entry c d : list_node c d = match entry d c with Some e => if Digest_Valid d then match readMeta (en_meta e) with Ok rec => Some (ir_Image rec) | Err _ => None end else None | None => None end.
Proof. unfold list_node. destruct (entry d c); [|done]. by destruct (Digest_Valid d). Qed.

Lemma elem_of_List_images i c : i ∈ List_images c ↔ ∃ d, list_node c d = Some i.
Proof.
  unfold List_images. rewrite list_elem_of_omap. split; [naive_solver|]. intros [d Hd]. exists d. split; [|done].
  apply elem_of_names. unfold list_node, entry in Hd. by destruct (ch_entries c !! d).
Qed.

Lemma good_list_node c d i : good c → list_node c d = Some i → im_Digest i = d ∧ Digest_Valid d = true ∧ Kind_Valid (im_Kind i) = true.
Proof.
  intros Hg. rewrite list_node_entry. destruct (entry d c) as [e|] eqn:He; [|done]. destruct (Digest_Valid d) eqn:Hv; [|done].
  destruct (en_meta e) as [m|] eqn:Hm; [|done]. destruct (Hg d e He) as [_ Hgm].
  destruct (Hgm m Hm) as (doc & i' & -> & Hu & Hd & _ & Hk). simpl. rewrite Hu. simpl. intros [= <-]. done.
Qed.

Lemma readMeta_written rec doc :
  marshal_record rec = Some doc → ir_SchemaVersion rec = currentMetaVersion → readMeta (Some (MetaDoc doc)) = Ok rec.
Proof. intros Hm Hv. simpl. rewrite (record_reads_back _ _ Hm), Hv. done. Qed.

Lemma release_loop_done f ref keep imgs c c' :
  good c → (∀ i, i ∈ imgs → Digest_Valid (im_Digest i) = true) → release_loop f ref keep imgs c = (c', Done tt) →
  ch_pins c' = ch_pins c ∧ (∀ d, en_artifact <$> entry d c' = en_artifact <$> entry d c) ∧ entry keep c' = entry keep c ∧
  ∀ d, (list_node c' d = list_node c d ∧ ¬ ∃ i, i ∈ imgs ∧ im_Digest i = d ∧ im_Ref i = ref ∧ d ≠ keep) ∨
       ∃ i, list_node c' d = Some i ∧ im_Ref i = ""%string.
Proof.
  revert c. induction imgs as [|i imgs IH]; intros c Hg Hin; simpl.
  { intros [= <-]. split; [done|]. split; [done|]. split; [done|]. intros d. left. split; [done|]. by intros (i & ?%elem_of_nil & _). }
  destruct (String.eqb_spec (im_Ref i) ref) as [Hr|Hr]; simpl; [destruct (String.eqb_spec (im_Digest i) keep) as [Hk|Hk]; simpl|].
  2:{ intros H. apply bind_done in H as (c1 & [] & Hw & H). assert (Hg1 : good c1) by (refine (good_writeMeta _ _ _ _ _ _ _ _ Hw Hg); done).
      apply writeMeta_done in Hw as (doc & e & e' & Hm & He & He' & Hme & Ha & Hp & Hoth).
      apply IH in H as (H1 & H2 & H3 & H4); [|done|intros; apply Hin; by right].
      split; [by rewrite H1|]. split.
      { intros d. rewrite H2. destruct (decide (d = im_Digest i)) as [->|]; [|by rewrite Hoth]. rewrite He, He'. simpl. by rewrite Ha. }
      split; [by rewrite H3, Hoth|]. intros d. destruct (H4 d) as [[E Hno]|?]; [|by right].
      destruct (decide (d = im_Digest i)) as [->|Hd].
      - right. rewrite E, list_node_entry, He', Hin, Hme by (by left). rewrite (readMeta_written _ _ Hm eq_refl). simpl. eauto.
      - left. rewrite E, !list_node_entry, Hoth by done. split; [done|]. intros (j & [->|Hj]%elem_of_cons & Hjd & Hjr); [done|]. apply Hno. eauto. }
  all: intros H; apply IH in H as (H1 & H2 & H3 & H4); [|done|intros; apply Hin; by right];
    split; [done|]; split; [done|]; split; [done|]; intros d; destruct (H4 d) as [[E Hno]|?]; [left; split; [done|]|by right];
    intros (j & [->|Hj]%elem_of_cons & Hjd & Hjr & Hjk); [congruence|apply Hno; eauto 10].
Qed.

Lemma put_meta_done f img c c' :
  good c → put_meta f img c = (c', Done tt) →
  ch_pins c' = ch_pins c ∧ (∀ d, en_artifact <$> entry d c' = en_artifact <$> entry d c) ∧
  list_node c' (im_Digest img) = Some img ∧
  (im_Ref img ≠ ""%string → ∀ i, i ∈ List_images c' → im_Ref i = im_Ref img → i = img).
Proof.
  intros Hg H. apply bind_done in H as (c1 & [] & Hw & H). assert (Hg1 : good c1) by (refine (good_writeMeta _ _ _ _ _ _ _ _ Hw Hg); done).
  apply writeMeta_done in Hw as (doc & e & e' & Hm & He & He' & Hme & Ha & Hp & Hoth).
  assert (Hart : ∀ d, en_artifact <$> entry d c1 = en_artifact <$> entry d c).
  { intros d. destruct (decide (d = im_Digest img)) as [->|]; [|by rewrite Hoth]. rewrite He, He'. simpl. by rewrite Ha. }
  assert (Hl : list_node c1 (im_Digest img) = Some img).
  { rewrite list_node_entry, He', Hme, (readMeta_written _ _ Hm eq_refl). simpl. apply marshal_unmarshal in Hm as (Hv & _). simpl in Hv. by rewrite Hv. }
  unfold releaseRefFrom in H. destruct (String.eqb_spec (im_Ref img) "") as [Hr|Hr].
  { injection H as <-. split; [done|]. split; [done|]. by split. }
  apply bind_done in H as (? & [] & H1 & H). apply attempt_done in H1. unfold id in H1. subst.
  apply release_loop_done in H as (E1 & E2 & E3 & E4); [|done|].
  2:{ intros i [d Hd]%elem_of_List_images. by apply good_list_node in Hd as (-> & ? & _). }
  split; [by rewrite E1|]. split; [intros d; by rewrite E2|]. split; [by rewrite list_node_entry, E3, <- list_node_entry|].
  intros _ i [d Hd]%elem_of_List_images Hi. destruct (E4 d) as [[E Hno]|(i' & Hi' & Hr')]; [|congruence].
  destruct (decide (d = im_Digest img)) as [->|Hne]; [congruence|]. exfalso. apply Hno. exists i.
  assert (list_node c1 d = Some i) by congruence. split; [apply elem_of_List_images; eauto|].
  by apply (good_list_node c1) in H as (-> & _).
Qed.

Definition inflight (d : Digest) (c : Cache) : Z := match ch_pins c !! d with Some p => pn_inflight p | None => 0 end.

Lemma Pin_done l d c c' : Pin l d c = (c', Done tt) → is_Some (ch_pins c' !! d) ∧ inflight d c' = inflight d c.
Proof.
  unfold Pin, inflight. destruct (negb _); [done|]. destruct (ch_pins c !! d) as [p|] eqn:E.
  - intros [= <-]. simpl. rewrite lookup_insert_eq. by split.
  - intros ->%attempt_done. simpl. rewrite lookup_insert_eq. by split.
Qed.

Lemma markInflight_pin d z c : is_Some (ch_pins c !! d) →
  is_Some (ch_pins (markInflight d z c) !! d) ∧ inflight d (markInflight d z c) = inflight d c + z.
Proof. intros [p Hp]. unfold markInflight, inflight. rewrite Hp. simpl. rewrite lookup_insert_eq. by split. Qed.

Lemma Open_image_entry d c a : Open_image d c = Ok a ↔ Digest_Valid d = true ∧ ∃ e, entry d c = Some e ∧ en_artifact e = Some a.
Proof.
  unfold Open_image. destruct (Digest_Valid d); simpl; [|split; [done|by intros [? _]]].
  destruct (entry d c) as [[[a'|] me ts mt]|]; split; try done.
  - intros [= <-]. eauto.
  - intros (_ & e & [= <-] & Ha). simpl in Ha. by injection Ha as ->.
  - intros (_ & e & [= <-] & Ha). done.
  - by intros (_ & e & ? & _).
Qed.

Lemma same_entries_list_node c c' d : ch_entries c' = ch_entries c → list_node c' d = list_node c d.
Proof. intros E. unfold list_node, entry. by rewrite E. Qed.

Lemma same_entries_List c c' : ch_entries c' = ch_entries c → List_images c' = List_images c.
Proof. intros E. unfold List_images, list_node, names, entry. by rewrite E. Qed.

(** A [Put] that reports success leaves the artifact readable under its digest, with content of that digest, and pinned by
    this process; no other artifact changes.  If the digest was cached nothing changes but the pin; otherwise the metadata
    is the stored image and, if it has a reference, no other listed image carries that reference. *)
Lemma put_spec ctx f cut now img data c c' :
  good c → Put sum ctx f cut now img data c = (c', Done tt) →
  let d := im_Digest img in
  (∃ a, Open_image d c' = Ok a ∧ computed_digest sum a = d) ∧
  is_Some (ch_pins c' !! d) ∧ inflight d c' = inflight d c ∧
  (∀ d', d' ≠ d → en_artifact <$> entry d' c' = en_artifact <$> entry d' c) ∧
  match Open_image d c with
  | Ok _ => ch_entries c' = ch_entries c
  | Err _ =>
      Open_image d c' = Ok data ∧ Get_image d c' = Ok (stored_image now img data) ∧
      (im_Ref img ≠ ""%string → ∀ i, i ∈ List_images c' → im_Ref i = im_Ref img → i = stored_image now img data)
  end.
Proof.
  intros Hg H d. assert (Hg' : good c') by by eapply good_Put.
  unfold Put in H. destruct ctx; [done|]. destruct (Digest_Valid (im_Digest img)) eqn:Hv; [simpl in H|done]. destruct (negb _); [done|].
  fold d in H, Hv. destruct (Pin _ d c) as [c1 [[]|e|]] eqn:Hp; [|done..].
  pose proof (Pin_entries _ _ _ _ _ Hp) as Ep. apply Pin_done in Hp as [Hpin Hfl].
  destruct (markInflight_pin d 1 c1 Hpin) as [Hpin2 Hfl2]. pose proof (markInflight_entries d 1 c1) as Em.
  set (c2 := markInflight d 1 c1) in *. assert (E2 : ∀ d', entry d' c2 = entry d' c) by (intros; unfold entry; by rewrite Em, Ep).
  destruct (put_artifact sum f cut d data c2) as [c3 [b|e|]] eqn:Ha; [|done..]. apply put_artifact_done in Ha as Hdone. destruct b.
  - injection H as <-. destruct Hdone as (-> & e & a & He & Hart).
    destruct (markInflight_pin d (-1) c2 Hpin2) as [Hpin3 Hfl3]. pose proof (markInflight_entries d (-1) c2) as Em'.
    assert (E' : ∀ d', entry d' (markInflight d (-1) c2) = entry d' c) by (intros; unfold entry; by rewrite Em', Em, Ep).
    assert (Hopen : ∀ c', entry d c' = entry d c → Open_image d c' = Ok a).
    { intros c' Hc. apply Open_image_entry. split; [done|]. exists e. by rewrite Hc, <- E2. }
    split. { exists a. split; [by apply Hopen|]. eapply (proj1 (Hg d e ltac:(by rewrite <- E2))), Hart. }
    split; [done|]. split; [lia|]. split; [intros; by rewrite E'|]. rewrite (Hopen c eq_refl). by rewrite Em', Em.
  - destruct Hdone as (Hno & Hsum & Hp3 & (e & He & Hart) & Hoth).
    assert (Hg3 : good c3). { eapply good_put_artifact; [exact Ha|]. intros d' e'. rewrite E2. apply Hg. }
    destruct (put_meta f (stored_image now img data) c3) as [c4 [[]|e'|]] eqn:Hm; [|done..]. injection H as <-.
    apply put_meta_done in Hm as (Hp4 & Hart4 & Hl & Huniq); [|done].
    assert (Hpin4 : is_Some (ch_pins c4 !! d)) by by rewrite Hp4, Hp3.
    destruct (markInflight_pin d (-1) c4 Hpin4) as [Hpin5 Hfl5]. pose proof (markInflight_entries d (-1) c4) as E5.
    assert (Hopen : Open_image d (markInflight d (-1) c4) = Ok data).
    { apply Open_image_entry. split; [done|]. assert (H4 := Hart4 d). rewrite He in H4. simpl in H4. rewrite Hart in H4.
      assert (Ee : entry d (markInflight d (-1) c4) = entry d c4) by (unfold entry; by rewrite E5).
      rewrite Ee. destruct (entry d c4) as [e4|]; [|done]. injection H4 as ?. eauto. }
    split; [eauto|]. split; [done|]. split. { unfold inflight in *. rewrite Hp4, Hp3 in Hfl5. lia. }
    split. { intros d' Hd'. unfold entry at 1. rewrite E5. fold (entry d' c4). by rewrite Hart4, Hoth, E2. }
    destruct (Open_image d c) as [a|e0] eqn:Ho.
    { apply Open_image_entry in Ho as (_ & e0 & He0 & Ha0). exfalso. apply (Hno e0 a); [by rewrite E2|done]. }
    split; [done|]. split.
    + apply Open_image_entry in Hopen as (_ & e5 & He5 & Ha5). rewrite <- (same_entries_list_node _ _ _ E5) in Hl.
      change (im_Digest (stored_image now img data)) with d in Hl. rewrite list_node_entry, He5, Hv in Hl.
      unfold Get_image. rewrite Hv, He5. cbn [negb]. destruct e5 as [[a5|] me ts mt]; [|done]. cbn [en_meta en_artifact] in *.
      destruct (readMeta me) as [rec|]; [|done]. injection Hl as Hl. by rewrite <- Hl.
    + intros Hr i. rewrite (same_entries_List _ _ E5). by apply Huniq.
Qed.

(** Operations of any number of processes, one after another; each sees its own pins and the leases of the others. *)
Inductive cache_step : relation (gmap Digest node) :=
| cs_put ctx f cut now img data es pins leased c' r :
    Put sum ctx f cut now img data (mkCache es pins leased) = (c', r) → cache_step es (ch_entries c')
| cs_prune f refs es pins leased c' n r :
    Prune f refs (mkCache es pins leased) = (c', n, r) → cache_step es (ch_entries c').

(** C15: Whatever fails and wherever processes die: what the cache serves under a digest has that digest, and what it lists or
    returns as metadata is about the digest it is filed under. *)
Lemma cache_content_addressed es pins leased :
  rtc cache_step ∅ es →
  let c := mkCache es pins leased in
  (∀ d a, Open_image d c = Ok a → computed_digest sum a = d) ∧
  (∀ d i, Get_image d c = Ok i → im_Digest i = d ∧ ∃ a, Open_image d c = Ok a) ∧
  (∀ i, i ∈ List_images c → list_node c (im_Digest i) = Some i ∧ Digest_Valid (im_Digest i) = true) ∧
  NoDup (im_Digest <$> List_images c).
Proof.
  intros Hr c. assert (Hg : good c).
  { set (P es := good (mkCache es ∅ ∅)). assert (HP : ∀ es pins leased, P es ↔ good (mkCache es pins leased)) by done.
    apply (HP es pins leased). refine (rtc_invariant cache_step P _ _ _ Hr _).
    - intros es1 es2 [ctx f cut now img data es0 pins' leased' c' r Hput|f refs es0 pins' leased' c' n r Hprune] H1.
      + pose proof (good_Put _ _ _ _ _ _ _ _ _ Hput H1) as H2. exact H2.
      + exact (proj1 (proj2 (proj2 (proj2 (prune_spec _ _ _ _ _ _ Hprune)))) H1).
    - intros d e. unfold entry. simpl. by rewrite lookup_empty. }
  split. { intros d a (_ & e & He & Ha)%Open_image_entry. by eapply Hg. }
  assert (Hlist : ∀ d i, list_node c d = Some i → list_node c (im_Digest i) = Some i ∧ Digest_Valid (im_Digest i) = true).
  { intros d i Hd. by destruct (good_list_node _ _ _ Hg Hd) as (-> & ? & _). }
  split.
  { intros d i. unfold Get_image. destruct (Digest_Valid d) eqn:Hv; [|done]. simpl. destruct (entry d c) as [[[a|] me ts mt]|] eqn:He; [|done..].
    intros Hi. assert (Hl : list_node c d = Some i).
    { rewrite list_node_entry, He, Hv. cbn [en_meta]. destruct (readMeta me) as [rec|]; [|done]. cbn [rbind] in Hi. injection Hi as Hi. by rewrite <- Hi. }
    split; [by apply good_list_node in Hl as (? & _)|]. exists a. apply Open_image_entry. eauto. }
  split. { intros i [d Hd]%elem_of_List_images. by eapply Hlist. }
  unfold List_images. assert (Hnd : NoDup (names c)).
  { unfold names, read_names. rewrite merge_sort_Permutation. apply NoDup_elements. }
  induction (names c) as [|d l IH]; [constructor|]. apply NoDup_cons in Hnd as [Hd Hnd]. simpl.
  destruct (list_node c d) as [i|] eqn:Hi; [|by apply IH]. simpl. constructor; [|by apply IH].
  intros (j & Hj & (d' & Hd' & Hl)%list_elem_of_omap)%list_elem_of_fmap.
  apply good_list_node in Hi as (E1 & _); [|done]. apply good_list_node in Hl as (E2 & _); [|done]. congruence.
Qed.
End content.

(** ** Garbage collection *)

#[global] Instance newer_trans : Transitive newer.
Proof. intros a b c. unfold newer. lia. Qed.
#[global] Instance newer_total : Total newer.
Proof. intros a b. unfold newer. lia. Qed.

(** In a list that is sorted newest first an image with at most [k] images as new as itself is among the first [k]. *)
Lemma newest_taken k l i :
  StronglySorted newer l → i ∈ l → (length (filter (λ j, (im_CreatedAt i ≤ im_CreatedAt j)%Z) l) ≤ k)%nat → i ∈ take k l.
Proof.
  intros Hs. revert k. induction Hs as [|x l Hs IH Hall]; intros k; [by intros ?%elem_of_nil|].
  intros [->|Hin]%elem_of_cons.
  - rewrite filter_cons_True by lia. destruct k as [|k]; simpl; [lia|]. intros _. left.
  - rewrite Forall_forall in Hall. pose proof (Hall i Hin) as Hx. unfold newer in Hx. rewrite filter_cons_True by done.
    destruct k as [|k]; simpl; [lia|]. intros Hk. right. apply IH; [done|lia].
Qed.

(** Builder images as new as [i]. *)
Definition rivals (c : Cache) (i : Image) : list Image :=
  List.filter (λ j, (im_Kind j =? KindBuilder) && (im_CreatedAt i <=? im_CreatedAt j)) (List_images c).

Lemma spare_builder_kept refs c i k :
  i ∈ List_images c → im_Kind i = KindBuilder → im_Digest i ∉ refs → (length (rivals c i) ≤ k)%nat → i ∈ take k (spare_builders refs c).
Proof.
  intros Hi Hk Hr Hlen. unfold spare_builders. apply newest_taken.
  - apply (StronglySorted_merge_sort newer).
  - rewrite merge_sort_Permutation. apply list_elem_of_In, filter_In. split; [by apply list_elem_of_In|].
    rewrite Hk. simpl. by rewrite bool_decide_false.
  - etrans; [|exact Hlen]. rewrite merge_sort_Permutation. unfold rivals. clear Hi Hlen. induction (List_images c) as [|j l IH]; simpl; [lia|].
    destruct (im_Kind j =? KindBuilder) eqn:Ek; simpl.
    + destruct (bool_decide (im_Digest j ∈ refs)); simpl.
      * destruct (im_CreatedAt i <=? im_CreatedAt j); simpl; lia.
      * rewrite filter_cons. destruct (Z.leb_spec (im_CreatedAt i) (im_CreatedAt j)); [rewrite decide_True by done|rewrite decide_False by lia]; simpl; lia.
    + lia.
Qed.

(** Digests a build must not lose: those of the sandbox records, the images just built, pinned base images, and the
    [keepNewestBuilder] newest builder images. *)
Definition wanted (sbs : list Sandbox) (extra : list Digest) (keepNewestBuilder : Z) (c : Cache) (d : Digest) : Prop :=
  Digest_Valid d = true ∧
  ((∃ sb, sb ∈ sbs ∧ ImageDigest (SEnvelope sb) = d) ∨ d ∈ extra ∨
   ∃ i, i ∈ List_images c ∧ im_Digest i = d ∧
     (pinned_base DefaultPinnedBaseRefs i = true ∨ im_Kind i = KindBuilder ∧ Z.of_nat (length (rivals c i)) ≤ keepNewestBuilder)).

Lemma Digest_Valid_nonempty d : Digest_Valid d = true → d ≠ ""%string.
Proof. by intros Hv ->. Qed.

Lemma sandbox_digest_valid sb d : Digest_Valid d = true → ImageDigest (SEnvelope sb) = d → sandbox_digest sb = Some d.
Proof.
  intros Hv <-. unfold sandbox_digest. destruct (String.eqb_spec (ImageDigest (SEnvelope sb)) "") as [E|]; [by rewrite E in Hv|].
  unfold ParseDigest. unfold Digest_Valid in Hv. by destruct (validateDigest _).
Qed.

Lemma ReferencedDigests_spec readdir sbs extra c ref d :
  ReferencedDigests readdir (Some (Some sbs)) extra c = Some ref → Digest_Valid d = true →
  (∃ sb, sb ∈ sbs ∧ ImageDigest (SEnvelope sb) = d) ∨ d ∈ extra ∨
    (∃ i, i ∈ List_images c ∧ im_Digest i = d ∧ pinned_base DefaultPinnedBaseRefs i = true) → d ∈ ref.
Proof.
  unfold ReferencedDigests, ReferencedDigestsPinned. destruct readdir; [|done]. simpl. intros [= <-] Hv Hcase.
  apply elem_of_read_names. rewrite elem_of_list_to_set, !elem_of_app. destruct Hcase as [(sb & Hsb & Hd)|[Hx|(i & Hi & Hd & Hp)]].
  - right; left. apply list_elem_of_omap. exists sb. split; [done|]. by apply sandbox_digest_valid.
  - right; right. apply list_elem_of_In, filter_In. split; [by apply list_elem_of_In|done].
  - left. apply list_elem_of_fmap. exists i. split; [done|]. apply list_elem_of_In, filter_In. split; [by apply list_elem_of_In|done].
Qed.

(** The collection after a build, however it ends, removes neither an image a sandbox record names, nor the image just
    built, nor a pinned base image, nor one of the newest builder images it is to keep; nor what a [Put] is writing or
    another process holds. *)
Lemma autoprune_keeps f readdir readdir2 sbs k extra c c' n r d :
  AutoPruneAfterBuild f readdir readdir2 (Some (Some sbs)) k extra c = (c', n, r) →
  wanted sbs extra k c d ∨ protected [] c d → ch_entries c' !! d = ch_entries c !! d.
Proof.
  unfold AutoPruneAfterBuild. destruct (ReferencedDigests _ _ _ _) as [ref|] eqn:Href; [|by intros [= <- <- <-]].
  intros Hr Hw.
  assert (Hcase : c' = c ∨ ∃ refs n' r', Prune f refs c = (c', n', r') ∧
    refs = if 0 <? k then ref ++ (im_Digest <$> take (Z.to_nat k) (spare_builders ref c)) else ref).
  { destruct (0 <? k).
    - destruct readdir2; simpl in Hr; [|left; by injection Hr as <- <- <-]. right.
      destruct (Prune _ _ c) as [[c1 n1] r1] eqn:Hp. eexists _, n1, r1. split; [|reflexivity]. rewrite Hp. destruct r1; by injection Hr as <- <- <-.
    - right. destruct (Prune f ref c) as [[c1 n1] r1] eqn:Hp. exists ref, n1, r1. split; [|done]. destruct r1; by injection Hr as <- <- <-. }
  destruct Hcase as [->|(refs & n' & r' & Hp & Hrefs)]; [done|].
  apply (prune_spec (λ _, ""%string)) in Hp as [Hkeep _]. apply Hkeep. destruct Hw as [[Hv Hw]|[Hx|Hx]]; [left|by apply elem_of_nil in Hx|by right].
  destruct (decide (d ∈ ref)) as [Hin|Hnin]; [subst refs; destruct (0 <? k); [by apply elem_of_app; left|done]|].
  destruct Hw as [Hsb|[Hx|(i & Hi & Hd & [Hp|[Hk Hlen]])]].
  - destruct Hnin. eapply ReferencedDigests_spec; eauto.
  - destruct Hnin. eapply ReferencedDigests_spec; eauto.
  - destruct Hnin. eapply ReferencedDigests_spec; eauto 10.
  - subst d. assert (Hpos : (0 < length (rivals c i))%nat).
    { unfold rivals. assert (Hin : In i (List.filter (λ j, (im_Kind j =? KindBuilder) && (im_CreatedAt i <=? im_CreatedAt j)) (List_images c))).
      { apply filter_In. split; [by apply list_elem_of_In|]. rewrite Hk. simpl. apply Z.leb_refl. }
      destruct (List.filter _ _); [done|]. simpl. lia. }
    subst refs. destruct (Z.ltb_spec 0 k); [|lia]. apply elem_of_app. right. apply list_elem_of_fmap. exists i. split; [done|].
    apply spare_builder_kept; [done..|lia].
Qed.

(** A build is let through when space suffices or cannot be measured; otherwise after a prune, and only then refused. *)
Lemma BuildPreflight_cases f readdir free free2 floor sandboxes c c' res :
  BuildPreflight f readdir free free2 floor sandboxes c = (c', res) →
  ((free = None ∨ ∃ n, free = Some n ∧ floor ≤ n) → c' = c ∧ res = PfGo) ∧
  (∀ s, res = PfNoSpace s → ∃ n n2, free = Some n ∧ n < floor ∧ free2 = Some n2 ∧ s = floor - n2 ∧ 0 < s ∧
    ∃ ref, ReferencedDigests readdir sandboxes [] c = Some ref ∧ ∃ k, Prune f ref c = (c', k, Done tt)).
Proof.
  unfold BuildPreflight. destruct free as [n|]; [|intros [= <- <-]; by split].
  destruct (Z.leb_spec floor n) as [Hle|Hlt]; [intros [= <- <-]; by split|].
  intros H. split; [intros [?|(m & [= <-] & ?)]; [done|lia]|]. intros s ->.
  destruct (ReferencedDigests _ _ _ _) as [ref|]; [|done]. destruct (Prune f ref c) as [[c1 k] [[]|e|]] eqn:Hp; [|done..].
  destruct free2 as [n2|]; [|done]. destruct (Z.leb_spec floor n2); [done|]. injection H as <- <-.
  exists n, n2. split; [done|]. split; [done|]. split; [done|]. split; [done|]. split; [lia|]. eauto.
Qed.

(** A pinned repository pins its tags and digests, and no other repository that merely begins with its name. *)
Lemma refInRepo_spec ref repo :
  repo ≠ ""%string → refInRepo ref repo = true ↔ ref = repo ∨ ∃ t, ref = repo +:+ ":" +:+ t ∨ ref = repo +:+ "@" +:+ t.
Proof.
  intros Hrepo. unfold refInRepo. destruct (String.eqb_spec ref repo) as [->|Hne]; [split; [by left|done]|].
  rewrite andb_true_iff, negb_true_iff, orb_true_iff, !HasPrefix_true. split.
  - unfold TrimPrefix. destruct (CutPrefix ref repo) as [rest|] eqn:Hc; simpl.
    + apply CutPrefix_Some in Hc as ->. intros [_ [[t ->]|[t ->]]]; right; exists t; auto.
    + rewrite String.eqb_refl. by intros [? _].
  - intros [?|[t Ht]]; [done|].
    assert (Hx : ∀ x, x ≠ repo +:+ x).
    { intros x E. apply (f_equal (λ s, length (chars s))) in E. rewrite chars_app, length_app in E. destruct repo; simpl in *; [done|lia]. }
    destruct Ht as [-> | ->]; rewrite TrimPrefix_app; (split; [apply String.eqb_neq, Hx|eauto]).
Qed.

(** ** Builder templates *)

(** A template's file name gives back the tag it was built with. *)
Lemma parse_template_name x tag l :
  length (chars tag) = builderAgentTagLen → hex_decode (chars tag) = Some l →
  parseBuilderTemplateName (builderTemplatePrefix +:+ x +:+ builderTemplateAgentSep +:+ tag +:+ builderTemplateSuffix) = Some tag.
Proof.
  intros Hlen Hhex. unfold parseBuilderTemplateName. rewrite !chars_app.
  set (P := chars builderTemplatePrefix). set (X := chars x). set (A := chars builderTemplateAgentSep). set (T := chars tag) in *.
  set (S' := chars builderTemplateSuffix). unfold builderAgentTagLen in *.
  assert (HP : length P = 14%nat) by done. assert (HA : length A = 6%nat) by done. assert (HS : length S' = 5%nat) by done.
  clearbody P X A S'. rewrite !length_app, HP, HA, HS, Hlen.
  replace (14 + (length X + (6 + (16 + 5))) - 5)%nat with (14 + (length X + 22))%nat by lia.
  rewrite (proj2 (Nat.leb_gt _ _)) by lia. rewrite take_app_length' by done.
  assert (E : P ++ X ++ A ++ T ++ S' = (P ++ X ++ A ++ T) ++ S') by by rewrite <- !app_assoc.
  rewrite E, drop_app_length', take_app_length' by (rewrite !length_app; lia). rewrite !bool_decide_true by done. simpl.
  rewrite drop_app_length' by done. rewrite !length_app, HA, Hlen.
  rewrite (proj2 (Nat.ltb_ge _ _)) by lia.
  replace (length X + (6 + 16) - 16 - 6)%nat with (length X) by lia. replace (length X + (6 + 16) - 16)%nat with (length X + 6)%nat by lia.
  replace (X ++ A ++ T) with ((X ++ A) ++ T) by by rewrite <- app_assoc.
  rewrite drop_app_length', take_app_length' by (rewrite length_app; lia). rewrite drop_app_length' by done.
  rewrite bool_decide_true by done. simpl. rewrite Hhex. f_equal. unfold T. apply of_chars_chars.
Qed.

Definition collectable (now : Time) (currentTag : string) (root : gmap string RootFile) (t : BuilderTemplate) : Prop :=
  bt_AgentTag t ≠ currentTag ∧ BuilderTemplateInFlightGrace ≤ Sub now (bt_ModTime t) ∧
  ∃ rf, root !! bt_name t = Some rf ∧ rf_locked rf = false.

Lemma sweep_spec fails now tag dry ts removed freed root root' removed' freed' ok :
  sweep_templates fails now tag dry ts removed freed root = (root', removed', freed', ok) →
  ∃ gone, removed' = removed ++ gone ∧ gone ⊆ ts ∧ (∀ t, t ∈ gone → collectable now tag root t) ∧
    ∀ name, root' !! name = root !! name ∨ dry = false ∧ root' !! name = None ∧ name ∈ bt_name <$> gone.
Proof.
  revert removed freed root. induction ts as [|t ts IH]; intros removed freed root; simpl.
  { intros [= <- <- <- <-]. exists []. rewrite app_nil_r. split; [done|]. split; [done|]. split; [by intros ? ?%elem_of_nil|]. by left. }
  assert (Hskip : ∀ removed freed root, sweep_templates fails now tag dry ts removed freed root = (root', removed', freed', ok) →
    ∃ gone, removed' = removed ++ gone ∧ gone ⊆ t :: ts ∧ (∀ t, t ∈ gone → collectable now tag root t) ∧
    ∀ name, root' !! name = root !! name ∨ dry = false ∧ root' !! name = None ∧ name ∈ bt_name <$> gone).
  { intros rm fr rt H. apply IH in H as (gone & ? & ? & ? & ?). exists gone. split; [done|]. split; [set_solver|]. done. }
  destruct (String.eqb_spec (bt_AgentTag t) tag) as [|Ht]; [apply Hskip|].
  destruct (Z.ltb_spec (Sub now (bt_ModTime t)) BuilderTemplateInFlightGrace) as [|Ha]; [apply Hskip|].
  unfold builderTemplateHeld. destruct (root !! bt_name t) as [rf|] eqn:Hrf; [|apply Hskip].
  destruct (fails (TpOpen (bt_name t)) || rf_locked rf || fails (TpFlock (bt_name t))) eqn:Hh; [apply Hskip|].
  apply orb_false_iff in Hh as [Hh _]. apply orb_false_iff in Hh as [_ Hlk].
  assert (Hc : collectable now tag root t) by (split; [done|]; split; [done|eauto]).
  destruct dry.
  - intros H. apply IH in H as (gone & -> & Hsub & Hg & Hroot). exists (t :: gone). rewrite <- app_assoc. split; [done|]. split; [set_solver|].
    split; [intros t' [->|]%elem_of_cons; eauto|]. intros name. destruct (Hroot name) as [?|[? _]]; [by left|done].
  - destruct (fails (TpRemove (bt_name t))).
    { intros [= <- <- <- <-]. exists []. rewrite app_nil_r. split; [done|]. split; [set_solver|]. split; [by intros ? ?%elem_of_nil|]. by left. }
    intros H. apply IH in H as (gone & -> & Hsub & Hg & Hroot). exists (t :: gone). rewrite <- app_assoc. split; [done|]. split; [set_solver|].
    split.
    + intros t' [->|Hin]%elem_of_cons; [done|]. destruct (Hg t' Hin) as (? & ? & rf' & Hrf' & ?). split; [done|]. split; [done|].
      exists rf'. split; [|done]. apply lookup_delete_Some in Hrf' as [_ ?]. done.
    + intros name. simpl. destruct (Hroot name) as [E|(_ & E & Hin)]; [|right; split; [done|]; split; [done|by right]].
      destruct (decide (name = bt_name t)) as [->|]; [|left; by rewrite E, lookup_delete_ne].
      right. split; [done|]. split; [by rewrite E, lookup_delete_eq|left].
Qed.

Lemma ListBuilderTemplates_elem readdir stat root ts t :
  ListBuilderTemplates readdir stat root = Some ts → t ∈ ts →
  ∃ rf, root !! bt_name t = Some rf ∧ rf_regular rf = true ∧ parseBuilderTemplateName (bt_name t) = Some (bt_AgentTag t) ∧ bt_ModTime t = rf_mtime rf.
Proof.
  unfold ListBuilderTemplates. destruct readdir; [|done]. simpl. destruct (existsb _ _); [done|]. intros [= <-].
  intros (name & _ & Hn)%list_elem_of_omap. unfold template_of in Hn. destruct (root !! name) as [rf|] eqn:Hrf; [|done].
  destruct (rf_regular rf) eqn:Hreg; [|done]. simpl in Hn. destruct (parseBuilderTemplateName name) as [tag|] eqn:Hp; [|done].
  injection Hn as <-. simpl. eauto.
Qed.

(** The sweep removes only regular files that are templates of another agent, old enough and locked by nobody; a dry run
    removes nothing, and without an agent tag nothing is collected. *)
Lemma templates_kept readdir stat fails now tag dry root root' removed freed ok :
  PruneBuilderTemplates readdir stat fails now tag dry root = (root', removed, freed, ok) →
  (∀ t, t ∈ removed → tag ≠ ""%string ∧ ∃ rf, root !! bt_name t = Some rf ∧ rf_regular rf = true ∧ rf_locked rf = false ∧
     BuilderTemplateInFlightGrace ≤ Sub now (rf_mtime rf) ∧
     ∃ tag', parseBuilderTemplateName (bt_name t) = Some tag' ∧ tag' ≠ tag) ∧
  ∀ name, root' !! name = root !! name ∨ dry = false ∧ root' !! name = None ∧ name ∈ bt_name <$> removed.
Proof.
  unfold PruneBuilderTemplates. destruct (String.eqb_spec tag "") as [|Htag].
  { intros [= <- <- <- <-]. split; [by intros ? ?%elem_of_nil|by left]. }
  destruct (ListBuilderTemplates readdir stat root) as [ts|] eqn:Hl; [|intros [= <- <- <- <-]; split; [by intros ? ?%elem_of_nil|by left]].
  intros (gone & -> & Hsub & Hg & Hroot)%sweep_spec. split; [|exact Hroot]. intros t Ht. simpl in Ht. split; [done|].
  destruct (Hg t Ht) as (Hne & Hage & rf & Hrf & Hlk). destruct (ListBuilderTemplates_elem _ _ _ _ t Hl) as (rf' & Hrf' & Hreg & Hp & Hmt); [set_solver|].
  rewrite Hrf in Hrf'. injection Hrf' as <-. exists rf. rewrite <- Hmt. eauto 10.
Qed.

Lemma sweep_dry_run fails now tag ts removed freed root1 root2 :
  NoDup (bt_name <$> ts) → (∀ t, t ∈ ts → fails (TpRemove (bt_name t)) = false ∧ root1 !! bt_name t = root2 !! bt_name t) →
  (sweep_templates fails now tag true ts removed freed root1).1.1.2 = (sweep_templates fails now tag false ts removed freed root2).1.1.2 ∧
  (sweep_templates fails now tag true ts removed freed root1).1.2 = (sweep_templates fails now tag false ts removed freed root2).1.2.
Proof.
  revert removed freed root1 root2. induction ts as [|t ts IH]; intros removed freed root1 root2 Hnd Hall; simpl; [done|].
  apply NoDup_cons in Hnd as [Hn Hnd]. destruct (Hall t) as [Hrm E]; [by left|].
  assert (Htl : ∀ t', t' ∈ ts → fails (TpRemove (bt_name t')) = false ∧ root1 !! bt_name t' = root2 !! bt_name t') by (intros; apply Hall; by right).
  destruct (String.eqb _ _); [by apply IH|]. destruct (_ <? _); [by apply IH|]. unfold builderTemplateHeld. rewrite E.
  destruct (root2 !! bt_name t) as [rf|]; [|by apply IH]. destruct (_ || _ || _); [by apply IH|]. rewrite Hrm. apply IH; [done|].
  intros t' Ht'. destruct (Htl t' Ht') as [? ->]. split; [done|]. symmetry. apply lookup_delete_ne. intros E'. apply Hn.
  rewrite E'. apply list_elem_of_fmap. eauto.
Qed.

(** What a dry run reports is what the sweep removes, if no removal fails. *)
Lemma dry_run_agrees readdir stat fails now tag root :
  (∀ name, fails (TpRemove name) = false) →
  let dry := PruneBuilderTemplates readdir stat fails now tag true root in
  let real := PruneBuilderTemplates readdir stat fails now tag false root in
  dry.1.1.1 = root ∧ dry.1.1.2 = real.1.1.2 ∧ dry.1.2 = real.1.2.
Proof.
  intros Hf dry real. split.
  - unfold dry. destruct (PruneBuilderTemplates _ _ _ _ _ _ _) as [[[root' rm] fr] ok] eqn:E. simpl.
    apply templates_kept in E as [_ H]. apply map_eq. intros name. by destruct (H name) as [?|[? _]].
  - unfold dry, real, PruneBuilderTemplates. destruct (String.eqb tag ""); [done|].
    destruct (ListBuilderTemplates readdir stat root) as [ts|] eqn:Hl; [|done]. apply sweep_dry_run; [|intros; split; [done|done]].
    unfold ListBuilderTemplates in Hl. destruct readdir; [|done]. simpl in Hl. destruct (existsb _ _); [done|]. injection Hl as <-.
    assert (Hnd : NoDup (read_names (dom root))) by (unfold read_names; rewrite merge_sort_Permutation; apply NoDup_elements).
    induction (read_names (dom root)) as [|n l IH]; [constructor|]. apply NoDup_cons in Hnd as [Hn Hnd]. simpl.
    destruct (template_of root n) as [t|] eqn:Ht; [|by apply IH]. simpl. constructor; [|by apply IH].
    assert (Hname : ∀ n t, template_of root n = Some t → bt_name t = n).
    { intros n' t'. unfold template_of. destruct (root !! n'); [|done]. destruct (negb _); [done|]. destruct (parseBuilderTemplateName n'); [|done]. by intros [= <-]. }
    rewrite (Hname _ _ Ht). intros (t' & -> & (n' & Hn' & Ht')%list_elem_of_omap)%list_elem_of_fmap. apply Hn. by rewrite (Hname _ _ Ht').
Qed.

(** ** Examples, and where the code departs from what it says *)

Definition ex_sum (l : bytes) : string := of_chars (replicate 64 (hex_digit (Z.of_nat (length l) mod 16))).
Definition ex_digest (n : nat) : Digest := digestSHA256Prefix +:+ of_chars (replicate 64 (hex_digit (Z.of_nat n))).
Definition ex_data (n : nat) : bytes := replicate n "x"%char.
Definition ex_image (n : nat) (ref : string) : Image := mkImage (ex_digest n) ref KindBuilder 0 (Z.of_nat n).
Definition ex_put (f : put_op → fault) (n : nat) (ref : string) (c : Cache) : Cache * outcome unit :=
  Put ex_sum false f 0 7 (ex_image n ref) (ex_data n) c.
Definition ex_empty : Cache := mkCache ∅ ∅ ∅.
Definition all_go {A} (_ : A) : fault := Goes.

(** Metadata that could not be written is never repaired: the next [Put] of the same content succeeds and does nothing. *)
Lemma missing_meta_not_repaired :
  let f op := match op with OpMeta _ _ => Fails | _ => Goes end in
  let c1 := (ex_put f 1 "base" ex_empty).1 in
  let '(c2, r) := ex_put all_go 1 "base" c1 in
  (ex_put f 1 "base" ex_empty).2 = Failed ErrIO ∧ r = Done tt ∧
  is_ok (Open_image (ex_digest 1) c2) = true ∧ Get_image (ex_digest 1) c2 = Err ErrNotFound ∧ List_images c2 = [].
Proof. vm_compute. done. Qed.

(** Storing content that is already cached does not transfer the reference: after a build that gives back earlier content
    the reference still names the other image. *)
Lemma cached_put_leaves_ref_behind :
  let c1 := (ex_put all_go 1 "app" ex_empty).1 in
  let c2 := (ex_put all_go 2 "app" c1).1 in
  let '(c3, r) := ex_put all_go 1 "app" c2 in
  r = Done tt ∧ (λ i, (im_Digest i, im_Ref i)) <$> List_images c3 = [(ex_digest 1, ""%string); (ex_digest 2, "app"%string)].
Proof. vm_compute. done. Qed.

(** A pin does not protect an image from a prune of the process that holds it. *)
Lemma own_prune_ignores_pin :
  let c1 := (ex_put all_go 1 "app" ex_empty).1 in
  let '(c2, n, r) := Prune all_go [] c1 in
  is_Some (ch_pins c1 !! ex_digest 1) ∧ n = 1 ∧ r = Done tt ∧ Open_image (ex_digest 1) c2 = Err ErrNotFound.
Proof. vm_compute. eauto. Qed.

(** Two processes that store different images under one reference: when both have written their metadata before either
    takes the reference from the other, each clears the other's and the reference names nothing. *)
Lemma concurrent_puts_lose_ref :
  let store n c := (writeMeta all_go (ex_digest n) (mkImageRecord currentMetaVersion (stored_image 7 (ex_image n "app") (ex_data n)))
                      (put_artifact ex_sum all_go 0 (ex_digest n) (ex_data n) c).1).1 in
  let c := store 2%nat (store 1%nat ex_empty) in
  let c1 := (release_loop all_go "app" (ex_digest 1) (List_images c) c).1 in
  let c2 := (release_loop all_go "app" (ex_digest 2) (List_images c) c1).1 in
  im_Ref <$> List_images c = ["app"; "app"]%string ∧ im_Ref <$> List_images c2 = [""; ""]%string.
Proof. vm_compute. done. Qed.

Definition ex_c1 : Cache := (ex_put all_go 1 "app" ex_empty).1.
Definition ex_c2 : Cache := (ex_put all_go 2 "app" ex_c1).1.
Definition ex_gc : Cache := mkCache (ch_entries (ex_put all_go 3 "c" (ex_put all_go 2 "b" (ex_put all_go 1 "a" ex_empty).1).1).1) ∅ ∅.
Definition ex_collected : Cache := (AutoPruneAfterBuild all_go true true (Some (Some [])) 1 [ex_digest 1] ex_gc).1.1.

Lemma put_spec_witness :
  Forall (λ i, im_Ref i ≠ "app"%string ∨ i = stored_image 7 (ex_image 2 "app") (ex_data 2)) (List_images ex_c2).
Proof.
  set (c1 := ex_c1). set (c2 := ex_c2). assert (Hg : good ex_sum c1).
  { refine (good_Put ex_sum false all_go 0 7 (ex_image 1 "app") (ex_data 1) ex_empty c1 (ex_put all_go 1 "app" ex_empty).2 _ _).
    - unfold c1, ex_c1. by destruct (ex_put all_go 1 "app" ex_empty) eqn:E.
    - intros d e. unfold entry, ex_empty. cbn [ch_entries]. by rewrite lookup_empty. }
  destruct (put_spec ex_sum false all_go 0 7 (ex_image 2 "app") (ex_data 2) c1 c2 Hg) as (_ & _ & _ & _ & H); [vm_compute; reflexivity|].
  replace (Open_image (im_Digest (ex_image 2 "app")) c1) with (@Err cache_error bytes ErrNotFound) in H by (vm_compute; reflexivity).
  destruct H as (_ & _ & H). apply Forall_forall. intros i Hi. destruct (decide (im_Ref i = "app"%string)) as [E|]; [right|by left].
  apply H; [discriminate|exact Hi|exact E].
Defined.

Lemma cache_content_addressed_witness :
  computed_digest ex_sum (ex_data 1) = ex_digest 1.
Proof.
  set (c1 := ex_c1). set (c2 := (Prune all_go [ex_digest 1] (mkCache (ch_entries c1) ∅ ∅)).1.1).
  destruct (cache_content_addressed ex_sum (ch_entries c2) ∅ ∅) as [H _].
  - apply (rtc_l _ _ (ch_entries c1)).
    + apply (cs_put ex_sum false all_go 0 7 (ex_image 1 "app") (ex_data 1) ∅ ∅ ∅ c1 (Done tt)). vm_compute; reflexivity.
    + apply rtc_once. apply (cs_prune ex_sum all_go [ex_digest 1] (ch_entries c1) ∅ ∅ c2 0 (Done tt)). vm_compute; reflexivity.
  - apply H. vm_compute; reflexivity.
Defined.

Lemma autoprune_keeps_witness :
  ch_entries ex_collected !! ex_digest 1 = ch_entries ex_gc !! ex_digest 1 ∧ ch_entries ex_collected !! ex_digest 3 = ch_entries ex_gc !! ex_digest 3 ∧
  ch_entries ex_collected !! ex_digest 2 = None.
Proof.
  set (c := ex_gc). set (c' := ex_collected).
  assert (E : AutoPruneAfterBuild all_go true true (Some (Some [])) 1 [ex_digest 1] c = (c', 1, Done tt)) by (vm_compute; reflexivity).
  pose proof (λ d, autoprune_keeps all_go true true [] 1 [ex_digest 1] c c' 1 (Done tt) d E) as H. split; [|split].
  - apply H. left. split; [vm_compute; reflexivity|]. right; left. left.
  - apply H. left. split; [vm_compute; reflexivity|]. right; right. exists (stored_image 7 (ex_image 3 "c") (ex_data 3)).
    split; [|split; [done|right; split; [done|vm_compute; discriminate]]]. apply elem_of_List_images. exists (ex_digest 3). vm_compute; reflexivity.
  - vm_compute; reflexivity.
Defined.
