(* ===== verification/ImageRace.v ===== *)
(** * internal/core/image/cache.go: writers and collectors interleaved

    Any number of processes, each with any number of threads, run [Put] and [Prune] on one digest that nothing references.
    A step is one action of the code: a critical section of [pinMu], the creation of the lock directory, one flock call,
    one system call on the entry's directory; [RemoveAll] may first take the artifact and stop there.  The lock directory
    is made by the first writer ([acquireLease]); a collector that finds none goes on without a lock ([tryAcquireLease]).
    A process may end at any moment; the kernel then drops its lease, and the world forgets its pins.  With [solo] a process runs one operation at
    a time, as the commands do; without it its threads overlap. *)

From stdpp Require Import prelude countable gmap strings list.
From Stdlib Require Import ZArith Lia.
From S2P Require Import Prelude GoStrings Domain Sandbox Disks ImageCache.

(** What a collector that is about to remove an entry holds: the pin of its own process, the lease it probed, or the empty
    lease of a cache without lock directory. *)
Inductive hold := OwnPin | Lease | NoLock.

(** Where a thread is. *)
Inductive pc :=
| TPin                      (** [Pin]: about to look for a pin *)
| TLockDir                  (** [acquireLease]: about to make the lock directory *)
| TWant                     (** waiting in flock *)
| TLeased                   (** has the lease, about to record the pin *)
| TPinned                   (** about to mark the write *)
| TMarked                   (** about to look at the entry *)
| TStream                   (** the directory exists, writing into it *)
| TCommitted                (** artifact in place *)
| TFailed                   (** an error; about to take the mark back *)
| TUnpin                    (** about to give the pin back *)
| TLost                     (** the directory went away under the writer *)
| TListed                   (** [Prune]: saw the directory *)
| TProbe                    (** about to probe the lease *)
| TRemove (h : hold)        (** about to remove the directory *)
| TRelease (h : hold).      (** about to give the lease back *)

#[global] Instance pc_eq_dec : EqDecision pc.
Proof. assert (EqDecision hold) by solve_decision. solve_decision. Defined.

(** [w_dir]: no directory, or whether it holds the artifact.  [w_locks]: the lock directory exists.  [w_have]: processes whose [Put] has reported the image and
    which have not removed it since. *)
Record World := mkWorld {
  w_dir : option bool;
  w_locks : bool;
  w_lock : option nat;
  w_pins : gmap nat pinEntry;
  w_thr : gmap nat (nat * pc);
  w_have : gset nat;
}.

Definition start (dir : option bool) (locks : bool) : World := mkWorld dir locks None ∅ ∅ ∅.

Definition at_pc (t p : nat) (k : pc) (w : World) : Prop := w_thr w !! t = Some (p, k).
Definition go (t p : nat) (k : pc) (w : World) : World := mkWorld (w_dir w) (w_locks w) (w_lock w) (w_pins w) (<[t := (p, k)]> (w_thr w)) (w_have w).
Definition finish (t : nat) (w : World) : World := mkWorld (w_dir w) (w_locks w) (w_lock w) (w_pins w) (delete t (w_thr w)) (w_have w).
Definition put_pin (p : nat) (n : option pinEntry) (w : World) : World :=
  mkWorld (w_dir w) (w_locks w) (w_lock w) (match n with Some n => <[p := n]> (w_pins w) | None => delete p (w_pins w) end) (w_thr w) (w_have w).
Definition put_lock (l : option nat) (w : World) : World := mkWorld (w_dir w) (w_locks w) l (w_pins w) (w_thr w) (w_have w).
Definition put_dir (d : option bool) (w : World) : World := mkWorld d (w_locks w) (w_lock w) (w_pins w) (w_thr w) (w_have w).
Definition put_locks (b : bool) (w : World) : World := mkWorld (w_dir w) b (w_lock w) (w_pins w) (w_thr w) (w_have w).
Definition put_have (h : gset nat) (w : World) : World := mkWorld (w_dir w) (w_locks w) (w_lock w) (w_pins w) (w_thr w) h.

Section steps.
Context (solo : bool).

Definition may_start (t p : nat) (w : World) : Prop :=
  w_thr w !! t = None ∧ (solo = true → ∀ t' k, w_thr w !! t' ≠ Some (p, k)).

(** [Put] *)
Inductive put_step (t p : nat) (w : World) : World → Prop :=
| p_start : may_start t p w → put_step t p w (go t p TPin w)
| p_own n : at_pc t p TPin w → w_pins w !! p = Some n →
    put_step t p w (go t p TPinned (put_pin p (Some (mkPin (pn_n n + 1) (pn_inflight n))) w))
| p_none : at_pc t p TPin w → w_pins w !! p = None → put_step t p w (go t p TLockDir w)
| p_mklocks : at_pc t p TLockDir w → put_step t p w (go t p TWant (put_locks true w))
| p_nolease k : at_pc t p k w → k = TLockDir ∨ k = TWant → put_step t p w (finish t w)
| p_lease : at_pc t p TWant w → w_locks w = true → w_lock w = None → put_step t p w (go t p TLeased (put_lock (Some p) w))
| p_raced n : at_pc t p TLeased w → w_pins w !! p = Some n →
    put_step t p w (go t p TPinned (put_lock None (put_pin p (Some (mkPin (pn_n n + 1) (pn_inflight n))) w)))
| p_record : at_pc t p TLeased w → w_pins w !! p = None → put_step t p w (go t p TPinned (put_pin p (Some (mkPin 1 0)) w))
| p_mark n : at_pc t p TPinned w → w_pins w !! p = Some n →
    put_step t p w (go t p TMarked (put_pin p (Some (mkPin (pn_n n) (pn_inflight n + 1))) w))
| p_cached : at_pc t p TMarked w → w_dir w = Some true → put_step t p w (go t p TCommitted w)
| p_mkdir : at_pc t p TMarked w → w_dir w ≠ Some true → put_step t p w (go t p TStream (put_dir (Some false) w))
| p_error k : at_pc t p k w → k = TMarked ∨ k = TStream → put_step t p w (go t p TFailed w)
| p_rename b : at_pc t p TStream w → w_dir w = Some b → put_step t p w (go t p TCommitted (put_dir (Some true) w))
| p_rename_lost : at_pc t p TStream w → w_dir w = None → put_step t p w (go t p TLost w)
| p_report n : at_pc t p TCommitted w → w_pins w !! p = Some n →
    put_step t p w (finish t (put_have ({[p]} ∪ w_have w) (put_pin p (Some (mkPin (pn_n n) (pn_inflight n - 1))) w)))
| p_unmark n : at_pc t p TFailed w → w_pins w !! p = Some n →
    put_step t p w (go t p TUnpin (put_pin p (Some (mkPin (pn_n n) (pn_inflight n - 1))) w))
| p_unpin n : at_pc t p TUnpin w → w_pins w !! p = Some n → 0 < pn_n n - 1 →
    put_step t p w (finish t (put_pin p (Some (mkPin (pn_n n - 1) (pn_inflight n))) w))
| p_unlease n : at_pc t p TUnpin w → w_pins w !! p = Some n → pn_n n - 1 ≤ 0 →
    put_step t p w (finish t (put_lock None (put_pin p None w))).

(** [Prune] of an entry that is not referenced. *)
Inductive prune_step (t p : nat) (w : World) : World → Prop :=
| r_list b : may_start t p w → w_dir w = Some b → prune_step t p w (go t p TListed w)
| r_inflight n : at_pc t p TListed w → w_pins w !! p = Some n → 0 < pn_inflight n → prune_step t p w (finish t w)
| r_own n : at_pc t p TListed w → w_pins w !! p = Some n → pn_inflight n ≤ 0 → prune_step t p w (go t p (TRemove OwnPin) w)
| r_foreign : at_pc t p TListed w → w_pins w !! p = None → prune_step t p w (go t p TProbe w)
| r_free : at_pc t p TProbe w → w_locks w = true → w_lock w = None → prune_step t p w (go t p (TRemove Lease) (put_lock (Some p) w))
| r_nolocks : at_pc t p TProbe w → w_locks w = false → prune_step t p w (go t p (TRemove NoLock) w)
| r_held q : at_pc t p TProbe w → w_locks w = true → w_lock w = Some q → prune_step t p w (finish t w)
| r_error : at_pc t p TProbe w → prune_step t p w (finish t w)
| r_unlink b h : at_pc t p (TRemove h) w → w_dir w = Some b →
    prune_step t p w (go t p (TRemove h) (put_dir (Some false) (put_have (w_have w ∖ {[p]}) w)))
| r_remove h : at_pc t p (TRemove h) w →
    prune_step t p w (go t p (TRelease h) (put_dir None (put_have (w_have w ∖ {[p]}) w)))
| r_keep h : at_pc t p (TRemove h) w → prune_step t p w (go t p (TRelease h) w)
| r_release : at_pc t p (TRelease Lease) w → prune_step t p w (finish t (put_lock None w))
| r_done h : at_pc t p (TRelease h) w → h ≠ Lease → prune_step t p w (finish t w).

(** The end of a process, and [Close] (which the code calls when no [Put] is under way). *)
Definition exit (p : nat) (w : World) : World :=
  mkWorld (w_dir w) (w_locks w) (if bool_decide (w_lock w = Some p) then None else w_lock w) (delete p (w_pins w))
    (filter (λ x, x.2.1 ≠ p) (w_thr w)) (w_have w ∖ {[p]}).

Inductive step (w : World) : World → Prop :=
| s_put t p w' : put_step t p w w' → step w w'
| s_prune t p w' : prune_step t p w w' → step w w'
| s_exit p : step w (exit p w).
End steps.

(** ** One operation at a time in each process *)

(** What a place in the code says about the lease and the pin of its process. *)
Definition holds_pin (k : pc) : bool :=
  match k with TPinned | TMarked | TStream | TCommitted | TFailed | TUnpin | TRemove OwnPin => true | _ => false end.
Definition put_holds (k : pc) : bool :=
  match k with TPinned | TMarked | TStream | TCommitted | TFailed | TUnpin => true | _ => false end.
Definition holds_lease (k : pc) : bool :=
  match k with TLeased | TRemove Lease | TRelease Lease => true | _ => false end.

Record inv (w : World) : Prop := {
  iv_solo : ∀ t t' p k k', w_thr w !! t = Some (p, k) → w_thr w !! t' = Some (p, k') → t = t';
  iv_pin : ∀ p n, w_pins w !! p = Some n → w_lock w = Some p;
  iv_lease : ∀ t p k, w_thr w !! t = Some (p, k) → holds_lease k = true → w_lock w = Some p ∧ w_pins w !! p = None;
  iv_holds : ∀ t p k, w_thr w !! t = Some (p, k) → holds_pin k = true → is_Some (w_pins w !! p);
  iv_dir : ∀ t p, w_thr w !! t = Some (p, TStream) → is_Some (w_dir w);
  iv_done : ∀ t p, w_thr w !! t = Some (p, TCommitted) → w_dir w = Some true;
  iv_lost : ∀ t p, w_thr w !! t ≠ Some (p, TLost);
  iv_want : ∀ t p k, w_thr w !! t = Some (p, k) → k = TLockDir ∨ k = TWant ∨ k = TProbe → w_pins w !! p = None;
  iv_have : ∀ p, p ∈ w_have w → is_Some (w_pins w !! p) ∧ w_dir w = Some true;
  iv_pos : ∀ p n, w_pins w !! p = Some n → 1 ≤ pn_n n;
  iv_count : ∀ p n t k, p ∈ w_have w → w_pins w !! p = Some n → w_thr w !! t = Some (p, k) → put_holds k = true → 2 ≤ pn_n n;
}.

Definition alone (p : nat) (w : World) : Prop := ∀ t k, w_thr w !! t ≠ Some (p, k).

Lemma inv_start dir locks : inv (start dir locks).
Proof. split; simpl; try (intros *; by rewrite lookup_empty); intros *; try (by intros ?%elem_of_empty); by rewrite ?lookup_empty. Qed.

Lemma inv_finish t w : inv w → inv (finish t w).
Proof.
  intros [H1 H2 H3 H4 H5 H6 H7 H8 H9 H10 H11].
  assert (Hl : ∀ t' x, w_thr (finish t w) !! t' = Some x → w_thr w !! t' = Some x) by (intros t' x; simpl; intros [_ ?]%lookup_delete_Some; done).
  split; simpl; eauto.
  intros t' p Ht. by eapply H7, Hl.
Qed.

Lemma alone_finish t p k w : inv w → w_thr w !! t = Some (p, k) → alone p (finish t w).
Proof. intros Hi Ht t' k'. simpl. intros [Hne Ht']%lookup_delete_Some. by apply Hne, (iv_solo _ Hi t t' p k k'). Qed.

Lemma alone_fresh t p w : may_start true t p w → alone p (finish t w).
Proof. intros [_ H] t' k'. simpl. intros [_ Ht']%lookup_delete_Some. by apply (H eq_refl t' k'). Qed.

(** A thread of [p] appears, or moves, to a place whose claims hold. *)
Lemma inv_go t p k w :
  inv (finish t w) → alone p (finish t w) →
  (holds_lease k = true → w_lock w = Some p ∧ w_pins w !! p = None) → (holds_pin k = true → is_Some (w_pins w !! p)) →
  (k = TStream → is_Some (w_dir w)) → (k = TCommitted → w_dir w = Some true) → k ≠ TLost →
  (k = TLockDir ∨ k = TWant ∨ k = TProbe → w_pins w !! p = None) →
  (∀ n, p ∈ w_have w → w_pins w !! p = Some n → put_holds k = true → 2 ≤ pn_n n) → inv (go t p k w).
Proof.
  intros [H1 H2 H3 H4 H5 H6 H7 H8 H9 H10 H11] Ha C1 C2 C3 C4 C5 C6 C7. simpl in *.
  assert (Hl : ∀ t' p' k', <[t := (p, k)]> (w_thr w) !! t' = Some (p', k') →
    (t' = t ∧ p' = p ∧ k' = k) ∨ (t' ≠ t ∧ delete t (w_thr w) !! t' = Some (p', k'))).
  { intros t' p' k'. destruct (decide (t' = t)) as [->|Hne]; [rewrite lookup_insert_eq; intros [= <- <-]; by left|].
    rewrite lookup_insert_ne by done. intros E. right. split; [done|]. by rewrite lookup_delete_ne. }
  split; simpl.
  - intros t1 t2 p' k1 k2 [(-> & -> & ->)|[Hn1 E1]]%Hl [(-> & E & _)|[Hn2 E2]]%Hl; [done|by destruct (Ha _ _ E2)|subst; by destruct (Ha _ _ E1)|eauto].
  - done.
  - intros t' p' k' [(-> & -> & ->)|[_ E]]%Hl; eauto.
  - intros t' p' k' [(-> & -> & ->)|[_ E]]%Hl; eauto.
  - intros t' p' [(-> & -> & <-)|[_ E]]%Hl; eauto.
  - intros t' p' [(-> & -> & <-)|[_ E]]%Hl; eauto.
  - intros t' p' [(-> & -> & <-)|[_ E]]%Hl; [done|]. by eapply H7.
  - intros t' p' k' [(-> & -> & ->)|[_ E]]%Hl; eauto.
  - done.
  - done.
  - intros p' n t' k' Hp' Hn [(-> & -> & ->)|[_ E]]%Hl; eauto.
Qed.

Section alone.
Context (p : nat) (w : World) (Hi : inv w) (Ha : alone p w).

Lemma inv_put_pin n : w_lock w = Some p → 1 ≤ pn_n n → inv (put_pin p (Some n) w).
Proof.
  intros Hl Hn. destruct Hi as [H1 H2 H3 H4 H5 H6 H7 H8 H9 H10 H11].
  assert (Hne : ∀ t q k, w_thr w !! t = Some (q, k) → q ≠ p) by (intros t q k Ht ->; by eapply Ha).
  split; simpl; try done.
  - intros q m. destruct (decide (q = p)) as [->|]; [done|]. rewrite lookup_insert_ne by done. eauto.
  - intros t q k Ht Hk. rewrite lookup_insert_ne by (intros ->; by eapply Hne). eauto.
  - intros t q k Ht Hk. rewrite lookup_insert_ne by (intros ->; by eapply Hne). eauto.
  - intros t q k Ht Hk. rewrite lookup_insert_ne by (intros ->; by eapply Hne). eauto.
  - intros q Hq. destruct (H9 q Hq) as [? ?]. split; [|done]. destruct (decide (q = p)) as [->|]; [rewrite lookup_insert_eq|rewrite lookup_insert_ne by done]; eauto.
  - intros q m. destruct (decide (q = p)) as [->|]; [rewrite lookup_insert_eq; by intros [= <-]|rewrite lookup_insert_ne by done; eauto].
  - intros q m t k Hq Hm Ht. rewrite lookup_insert_ne in Hm by (intros ->; by eapply Hne). eauto.
Qed.

Lemma inv_take_lock : w_lock w = None → inv (put_lock (Some p) w).
Proof.
  intros Hl. destruct Hi as [H1 H2 H3 H4 H5 H6 H7 H8 H9 H10 H11]. split; simpl; try done.
  - intros q n Hq. by rewrite (H2 q n Hq) in Hl.
  - intros t q k Ht Hk. destruct (H3 t q k Ht Hk). congruence.
Qed.

Lemma inv_drop_lock : w_lock w = Some p → w_pins w !! p = None → inv (put_lock None w).
Proof.
  intros Hl Hp. destruct Hi as [H1 H2 H3 H4 H5 H6 H7 H8 H9 H10 H11]. split; simpl; try done.
  - intros q n Hq. pose proof (H2 q n Hq). congruence.
  - intros t q k Ht Hk. destruct (H3 t q k Ht Hk) as [E _]. rewrite Hl in E. injection E as <-. by destruct (Ha t k).
Qed.

Lemma inv_drop_pin : p ∉ w_have w → is_Some (w_pins w !! p) → inv (put_lock None (put_pin p None w)).
Proof.
  intros Hnh [n0 Hn0]. destruct Hi as [H1 H2 H3 H4 H5 H6 H7 H8 H9 H10 H11]. pose proof (H2 p n0 Hn0) as Hl.
  assert (Hne : ∀ t q k, w_thr w !! t = Some (q, k) → q ≠ p) by (intros t q k Ht ->; by eapply Ha).
  split; simpl; try done.
  - intros q n [Hq Hn]%lookup_delete_Some. pose proof (H2 q n Hn). congruence.
  - intros t q k Ht Hk. destruct (H3 t q k Ht Hk) as [E _]. rewrite Hl in E. injection E as <-. by destruct (Hne t p k).
  - intros t q k Ht Hk. rewrite lookup_delete_ne by (intros ->; by eapply Hne). eauto.
  - intros t q k Ht Hk. rewrite lookup_delete_ne by (intros ->; by eapply Hne). eauto.
  - intros q Hq. destruct (H9 q Hq) as [[m Hm] ?]. split; [|done]. destruct (decide (q = p)) as [->|]; [done|]. rewrite lookup_delete_ne by done. eauto.
  - intros q n [_ Hn]%lookup_delete_Some. eauto.
  - intros q n t k Hq [_ Hn]%lookup_delete_Some. eauto.
Qed.

Lemma inv_put_locks b : inv (put_locks b w).
Proof. by destruct Hi. Qed.

Lemma inv_make_dir : w_dir w ≠ Some true → inv (put_dir (Some false) w).
Proof.
  intros Hd. destruct Hi as [H1 H2 H3 H4 H5 H6 H7 H8 H9 H10 H11]. split; simpl; try done.
  - intros t q Ht. by destruct (Hd (H6 t q Ht)).
  - intros q Hq. by destruct (H9 q Hq) as [_ ?].
Qed.

Lemma inv_commit : inv (put_dir (Some true) w).
Proof.
  destruct Hi as [H1 H2 H3 H4 H5 H6 H7 H8 H9 H10 H11]. split; simpl; try done. intros q Hq. by destruct (H9 q Hq).
Qed.

Lemma inv_remove d : w_lock w = Some p → inv (put_dir d (put_have (w_have w ∖ {[p]}) w)).
Proof.
  intros Hl. destruct Hi as [H1 H2 H3 H4 H5 H6 H7 H8 H9 H10 H11].
  assert (Hno : ∀ t q k, w_thr w !! t = Some (q, k) → holds_pin k = true → False).
  { intros t q k Ht Hk. destruct (H4 t q k Ht Hk) as [n Hn]. pose proof (H2 q n Hn) as E. rewrite Hl in E. injection E as <-. by destruct (Ha t k). }
  split; simpl; try done.
  - intros t q Ht. by destruct (Hno t q TStream).
  - intros t q Ht. by destruct (Hno t q TCommitted).
  - intros q [Hq Hne]%elem_of_difference. destruct (H9 q Hq) as [[n Hn] _]. pose proof (H2 q n Hn) as E. rewrite Hl in E. injection E as <-. set_solver.
  - intros q n t k [Hq _]%elem_of_difference. eauto.
Qed.

Lemma inv_report n : w_pins w !! p = Some n → w_dir w = Some true → inv (put_have ({[p]} ∪ w_have w) w).
Proof.
  intros Hn Hd. destruct Hi as [H1 H2 H3 H4 H5 H6 H7 H8 H9 H10 H11]. split; simpl; try done.
  - intros q [->%elem_of_singleton|Hq]%elem_of_union; [by eauto|eauto].
  - intros q m t k [->%elem_of_singleton|Hq]%elem_of_union Hm Ht; [by destruct (Ha t k)|eauto].
Qed.
End alone.

Ltac enter_with tac :=
  apply inv_go; simpl; [tac|..]; try solve [done|by intros [?|[?|?]]|by eauto|by eapply alone_fresh].

Lemma inv_put t p w w' : put_step true t p w w' → inv w → inv w'.
Proof.
  intros Hs Hi. pose proof (inv_finish t w Hi) as Hf.
  assert (Hal : ∀ k, at_pc t p k w → alone p (finish t w)) by (intros k Hk; by eapply alone_finish).
  assert (Hlk : ∀ n, w_pins w !! p = Some n → w_lock w = Some p) by (intros n Hn; by apply (iv_pin _ Hi p n)).
  assert (Hps : ∀ n, w_pins w !! p = Some n → 1 ≤ pn_n n) by (intros n Hn; by apply (iv_pos _ Hi p n)).
  assert (Hct : ∀ n k, at_pc t p k w → put_holds k = true → p ∈ w_have w → w_pins w !! p = Some n → 2 ≤ pn_n n) by (intros n k Hk Hh Hp Hn; by eapply (iv_count _ Hi p n t k)).
  assert (Hho : ∀ k, at_pc t p k w → holds_pin k = true → is_Some (w_pins w !! p)) by (intros; by eapply (iv_holds _ Hi)).
  assert (Hin : ∀ n, is_Some (<[p := n]> (w_pins w) !! p)) by (intros; rewrite lookup_insert_eq; eauto).
  destruct Hs as [Hs|n Hk Hn|Hk Hn|Hk|k Hk Hkk|Hk Hlk' Hl|n Hk Hn|Hk Hn|n Hk Hn|Hk Hd|Hk Hd|k Hk Hkk|b Hk Hd|Hk Hd|n Hk Hn|n Hk Hn|n Hk Hn Hc|n Hk Hn Hc].
  - enter_with ltac:(exact Hf).
  - pose proof (Hps n Hn). enter_with ltac:(apply (inv_put_pin p (finish t w)); simpl; eauto; lia).
    intros m Hp. rewrite lookup_insert_eq. intros [= <-] _. simpl. lia.
  - enter_with ltac:(exact Hf).
  - enter_with ltac:(by apply (inv_put_locks (finish t w))). intros _. by apply (iv_want _ Hi t p TLockDir Hk (or_introl eq_refl)).
  - exact Hf.
  - enter_with ltac:(apply (inv_take_lock p (finish t w)); eauto).
    intros _. split; [done|]. by eapply (iv_want _ Hi t p TWant Hk (or_intror (or_introl eq_refl))).
  - destruct (iv_lease _ Hi t p TLeased Hk eq_refl) as [_ E]. congruence.
  - destruct (iv_lease _ Hi t p TLeased Hk eq_refl) as [El _].
    enter_with ltac:(apply (inv_put_pin p (finish t w)); simpl; eauto; lia).
    intros m Hp. destruct (proj1 (iv_have _ Hi p Hp)) as [? ?]; congruence.
  - enter_with ltac:(apply (inv_put_pin p (finish t w)); simpl; eauto).
    intros m Hp. rewrite lookup_insert_eq. intros [= <-] _. simpl. by eapply Hct.
  - enter_with ltac:(exact Hf).
  - enter_with ltac:(by apply (inv_make_dir (finish t w))).
  - destruct Hkk as [-> | ->]; enter_with ltac:(exact Hf).
  - enter_with ltac:(by apply (inv_commit (finish t w))).
  - destruct (iv_dir _ Hi t p Hk) as [? E]. congruence.
  - assert (Hd := iv_done _ Hi t p Hk).
    assert (Hi2 : inv (put_pin p (Some (mkPin (pn_n n) (pn_inflight n - 1))) (finish t w))) by (apply inv_put_pin; simpl; eauto).
    refine (inv_report p _ Hi2 _ _ _ Hd); [by eapply Hal|]. simpl. apply lookup_insert_eq.
  - enter_with ltac:(apply (inv_put_pin p (finish t w)); simpl; eauto).
    intros m Hp. rewrite lookup_insert_eq. intros [= <-] _. simpl. by eapply Hct.
  - apply (inv_put_pin p (finish t w)); simpl; eauto. lia.
  - apply (inv_drop_pin p (finish t w)); simpl; eauto. intros Hp. pose proof (Hct n _ Hk eq_refl Hp Hn). lia.
Qed.

(** Without a lock directory there is nothing to collect: no directory, no lease and no collector. *)
Definition collecting (k : pc) : bool := match k with TListed | TProbe | TRemove _ | TRelease _ => true | _ => false end.
Definition unleased (k : pc) : bool := match k with TRemove NoLock | TRelease NoLock => true | _ => false end.
Definition lockdir (w : World) : Prop :=
  (w_locks w = true ∨ w_dir w = None ∧ w_lock w = None ∧ ∀ t p k, w_thr w !! t = Some (p, k) → collecting k = false) ∧
  ∀ t p k, w_thr w !! t = Some (p, k) → unleased k = false.

Lemma thr_go t p k w t' p' k' : w_thr (go t p k w) !! t' = Some (p', k') → (p' = p ∧ k' = k) ∨ w_thr w !! t' = Some (p', k').
Proof. simpl. intros [(<- & [= <- <-])|[_ E]]%lookup_insert_Some; auto. Qed.

(** A thread moves and the rest of the world changes to [v]. *)
Lemma lockdir_go t p k w v :
  lockdir w → w_thr v = w_thr w → (w_locks w = true → w_locks v = true) → unleased k = false →
  (w_locks v = true ∨ w_dir v = None ∧ w_lock v = None ∧ collecting k = false) → lockdir (go t p k v).
Proof.
  intros [[Hw|(Hd & Hl & Hc)] Hu] Et Hm Hk Hv; (split; [|intros t' p' k' [[_ ->]|E]%thr_go; [done|rewrite Et in E; eauto]]).
  - left. by apply Hm.
  - destruct Hv as [Hv|(Hd' & Hl' & Hc')]; [by left|]. right. simpl. split_and!; [done..|].
    intros t' p' k' [[_ ->]|E]%thr_go; [done|]. rewrite Et in E. eauto.
Qed.

Lemma lockdir_finish t w v :
  lockdir w → w_thr v = w_thr w → (w_locks w = true → w_locks v = true) →
  (w_locks v = true ∨ w_dir v = None ∧ w_lock v = None) → lockdir (finish t v).
Proof.
  intros [Hw Hu] Et Hm Hv. split; simpl; rewrite Et.
  - destruct Hw as [Hw|(_ & _ & Hc)]; [left; by apply Hm|]. destruct Hv as [Hv|[? ?]]; [by left|]. right. split_and!; [done..|].
    intros t' p' k' [_ E]%lookup_delete_Some. eauto.
  - intros t' p' k' [_ E]%lookup_delete_Some. eauto.
Qed.

Lemma lockdir_put s t p w w' : put_step s t p w w' → inv w → lockdir w → lockdir w'.
Proof.
  intros Hs Hi Hw. pose proof Hw as [Hc _].
  assert (Hpin : ∀ n, w_pins w !! p = Some n → w_locks w = true).
  { intros n Hn. destruct Hc as [?|(_ & Hl & _)]; [done|]. by rewrite (iv_pin _ Hi p n Hn) in Hl. }
  assert (Hho : ∀ k, at_pc t p k w → holds_pin k = true → w_locks w = true).
  { intros k Hk Hh. destruct (iv_holds _ Hi t p k Hk Hh) as [n Hn]. eauto. }
  assert (Hco : w_locks w = true ∨ w_dir w = None ∧ w_lock w = None) by (destruct Hc as [?|(? & ? & _)]; auto).
  assert (Hle : at_pc t p TLeased w → w_locks w = true).
  { intros Hk. destruct (iv_lease _ Hi t p _ Hk eq_refl) as [E _]. destruct Hco as [?|[_ ?]]; [done|congruence]. }
  destruct Hs as [Hs|n Hk Hn|Hk Hn|Hk|k Hk Hkk|Hk Hlk' Hl|n Hk Hn|Hk Hn|n Hk Hn|Hk Hd|Hk Hd|k Hk Hkk|b Hk Hd|Hk Hd|n Hk Hn|n Hk Hn|n Hk Hn Hc'|n Hk Hn Hc'];
    try (destruct Hkk as [-> | ->]); first [apply (lockdir_go t p _ w)|apply (lockdir_finish t w)]; simpl; auto;
    try (left; by eauto); destruct Hco as [?|[? ?]]; auto.
Qed.

Lemma lockdir_prune s t p w w' : prune_step s t p w w' → lockdir w → lockdir w'.
Proof.
  intros Hs Hw. pose proof Hw as [Hc Hu].
  assert (Hk' : ∀ k, at_pc t p k w → collecting k = true → w_locks w = true).
  { intros k Hk Hh. destruct Hc as [?|(_ & _ & Hn)]; [done|]. by rewrite (Hn t p k Hk) in Hh. }
  destruct Hs as [b Hs Hd|n Hk Hn Hc'|n Hk Hn Hc'|Hk Hn|Hk Hlk Hl|Hk Hl|q Hk Hlk Hl|Hk|b h Hk Hd|h Hk|h Hk|Hk|h Hk Hh];
    first [apply (lockdir_go t p _ w)|apply (lockdir_finish t w)]; simpl; auto;
    try (left; by eapply Hk'); try (by apply (Hu t p _ Hk)).
  - destruct Hc as [?|(E & _)]; [by left|congruence].
  - rewrite (Hk' _ Hk eq_refl) in Hl. done.
Qed.

Lemma lockdir_start dir locks : (is_Some dir → locks = true) → lockdir (start dir locks).
Proof.
  intros Hd. split; simpl; [|intros t p k; by rewrite lookup_empty].
  destruct locks; [by left|]. right. destruct dir; [by specialize (Hd ltac:(eauto))|]. split_and!; [done..|]. intros t p k. by rewrite lookup_empty.
Qed.

Lemma lockdir_exit p w : lockdir w → lockdir (exit p w).
Proof.
  intros [Hc Hu]. split; simpl.
  - destruct Hc as [?|(Hd & Hl & Hc)]; [by left|]. right. split_and!; [done| |].
    + rewrite Hl. by case_bool_decide.
    + intros t q k [Ht _]%map_lookup_filter_Some. eauto.
  - intros t q k [Ht _]%map_lookup_filter_Some. eauto.
Qed.

Lemma inv_prune t p w w' : prune_step true t p w w' → inv w → lockdir w → inv w'.
Proof.
  intros Hs Hi [Hld Hul]. pose proof (inv_finish t w Hi) as Hf.
  assert (Hal : ∀ k, at_pc t p k w → alone p (finish t w)) by (intros k Hk; by eapply alone_finish).
  assert (Hrm : ∀ b, at_pc t p (TRemove b) w → w_lock w = Some p).
  { intros [] Hk; [|by apply (iv_lease _ Hi t p _ Hk)|by specialize (Hul t p _ Hk)]. destruct (iv_holds _ Hi t p _ Hk eq_refl) as [n Hn]. by eapply iv_pin. }
  assert (Hrel : ∀ b, at_pc t p (TRemove b) w → holds_lease (TRelease b) = true → w_lock w = Some p ∧ w_pins w !! p = None).
  { intros [] Hk Hb; [done|by apply (iv_lease _ Hi t p _ Hk)|done]. }
  destruct Hs as [b Hs Hd|n Hk Hn Hc|n Hk Hn Hc|Hk Hn|Hk Hlk Hl|Hk Hl|q Hk Hlk Hl|Hk|b h Hk Hd|h Hk|h Hk|Hk|h Hk Hh]; try done.
  - enter_with ltac:(exact Hf).
  - enter_with ltac:(exact Hf).
  - enter_with ltac:(exact Hf).
  - enter_with ltac:(apply (inv_take_lock p (finish t w)); eauto).
    intros _. split; [done|]. by eapply (iv_want _ Hi t p TProbe Hk (or_intror (or_intror eq_refl))).
  - destruct Hld as [E|(_ & _ & Hn)]; [congruence|]. by specialize (Hn t p _ Hk).
  - pose proof (Hrel h Hk). destruct h; enter_with ltac:(apply (inv_remove p (finish t w)); simpl; eauto).
    intros _. by apply (iv_holds _ Hi t p _ Hk).
  - pose proof (Hrel h Hk). enter_with ltac:(apply (inv_remove p (finish t w)); simpl; eauto).
  - pose proof (Hrel h Hk). enter_with ltac:(exact Hf).
  - destruct (iv_lease _ Hi t p _ Hk eq_refl) as [? ?]. apply (inv_drop_lock p (finish t w)); simpl; eauto.
Qed.

Lemma inv_exit p w : inv w → inv (exit p w).
Proof.
  intros [H1 H2 H3 H4 H5 H6 H7 H8 H9 H10 H11].
  assert (Hl : ∀ t q k, filter (λ x : nat * (nat * pc), x.2.1 ≠ p) (w_thr w) !! t = Some (q, k) → w_thr w !! t = Some (q, k) ∧ q ≠ p).
  { intros t q k [Ht Hq]%map_lookup_filter_Some. done. }
  assert (Hlock : ∀ q, q ≠ p → w_lock w = Some q → (if bool_decide (w_lock w = Some p) then None else w_lock w) = Some q).
  { intros q Hq E. rewrite E. rewrite bool_decide_false; [done|congruence]. }
  split; simpl.
  - intros t t' q k k' [Ht _]%Hl [Ht' _]%Hl. eauto.
  - intros q n [Hq Hn]%lookup_delete_Some. apply Hlock; [done|]. eauto.
  - intros t q k [Ht Hq]%Hl Hk. destruct (H3 t q k Ht Hk). rewrite lookup_delete_ne by done. auto.
  - intros t q k [Ht Hq]%Hl Hk. rewrite lookup_delete_ne by done. eauto.
  - intros t q [Ht _]%Hl. eauto.
  - intros t q [Ht _]%Hl. eauto.
  - intros t q [Ht _]%Hl. by eapply H7.
  - intros t q k [Ht Hq]%Hl Hk. rewrite lookup_delete_ne by done. eauto.
  - intros q [Hq Hne]%elem_of_difference. rewrite lookup_delete_ne by set_solver. eauto.
  - intros q n [_ Hn]%lookup_delete_Some. eauto.
  - intros q n t k [Hq _]%elem_of_difference [_ Hn]%lookup_delete_Some [Ht _]%Hl. eauto.
Qed.

(** C14: When each process runs one operation at a time, and an entry that is in the cache at the start was written under a
    lease (the lock directory exists), no [Put] ever loses the directory it is writing into, and an image whose [Put] has
    reported it stays in the cache, complete, until the process that put it removes it itself or ends -- however the
    writers and collectors of all processes interleave, whatever call of theirs fails and wherever they die. *)
Lemma writers_and_collectors dir locks w :
  (is_Some dir → locks = true) → rtc (step true) (start dir locks) w →
  (∀ t p, ¬ at_pc t p TLost w) ∧ (∀ t p, at_pc t p TStream w → is_Some (w_dir w)) ∧
  (∀ p, p ∈ w_have w → w_dir w = Some true ∧ w_lock w = Some p).
Proof.
  intros Hd Hr. assert (Hi : inv w ∧ lockdir w).
  { refine (rtc_invariant (step true) (λ w, inv w ∧ lockdir w) _ _ _ Hr (conj (inv_start dir locks) (lockdir_start dir locks Hd))).
    intros x y [t p y' Hs|t p y' Hs|p] [Hx Hl].
    - split; [by eapply inv_put|by eapply lockdir_put].
    - split; [by eapply inv_prune|by eapply lockdir_prune].
    - split; [by apply inv_exit|by apply lockdir_exit]. }
  destruct Hi as [Hi _]. split; [intros t p; apply (iv_lost _ Hi)|]. split; [apply (iv_dir _ Hi)|].
  intros p Hp. destruct (iv_have _ Hi p Hp) as [[n Hn] Hd']. split; [done|]. by eapply iv_pin.
Qed.

(** ** Threads of one process that overlap *)

Ltac fact := solve [vm_compute; reflexivity | vm_compute; lia | vm_compute; discriminate | split; [vm_compute; reflexivity|discriminate] | left; reflexivity | right; reflexivity].
Ltac put_ t r := eapply rtc_l; [apply (s_put _ _ t 0%nat); eapply r; fact|].
Ltac prune_of p t r := eapply rtc_l; [apply (s_prune _ _ t p); eapply r; fact|].
Ltac prune_ t r := prune_of 0%nat t r.

(** A collector that has decided to remove an image of its own process does not see the [Put] that finds the image in the
    cache meanwhile: that [Put] reports success and the image is gone. *)
Lemma overlapping_prune_takes_image : ∃ w, rtc (step false) (start None false) w ∧ 0%nat ∈ w_have w ∧ w_dir w = None.
Proof.
  eexists. split.
  - put_ 0%nat p_start. put_ 0%nat p_none. put_ 0%nat p_mklocks. put_ 0%nat p_lease. put_ 0%nat p_record. put_ 0%nat p_mark. put_ 0%nat p_mkdir. put_ 0%nat p_rename. put_ 0%nat p_report.
    prune_ 1%nat r_list. prune_ 1%nat r_own.
    put_ 2%nat p_start. put_ 2%nat p_own. put_ 2%nat p_mark. put_ 2%nat p_cached. prune_ 1%nat r_remove. put_ 2%nat p_report.
    apply rtc_refl.
  - split; [|vm_compute; reflexivity]. apply (bool_decide_unpack _). vm_compute. exact I.
Qed.

(** Likewise a [Put] that starts streaming after the collector looked loses its directory. *)
Lemma overlapping_prune_breaks_put : ∃ w, rtc (step false) (start None false) w ∧ at_pc 4 0 TLost w.
Proof.
  eexists. split.
  - put_ 0%nat p_start. put_ 0%nat p_none. put_ 0%nat p_mklocks. put_ 0%nat p_lease. put_ 0%nat p_record. put_ 0%nat p_mark. put_ 0%nat p_mkdir. put_ 0%nat p_rename. put_ 0%nat p_report.
    prune_ 1%nat r_list. prune_ 1%nat r_own. prune_ 1%nat r_remove. prune_ 1%nat r_done.
    put_ 2%nat p_start. put_ 2%nat p_own. put_ 2%nat p_mark. put_ 2%nat p_mkdir. eapply rtc_l; [apply (s_put _ _ 2%nat 0%nat), (p_error _ _ _ _ TStream); fact|].
    put_ 2%nat p_unmark. put_ 2%nat p_unpin.
    prune_ 3%nat r_list. prune_ 3%nat r_own.
    put_ 4%nat p_start. put_ 4%nat p_own. put_ 4%nat p_mark. put_ 4%nat p_mkdir. prune_ 3%nat r_remove. put_ 4%nat p_rename_lost.
    apply rtc_refl.
  - vm_compute; reflexivity.
Qed.

(** An entry from before there were leases: the collector of another process finds no lock directory and goes on with an
    empty lease, the writer makes the directory, takes the lease, finds the image and reports it, and the collector
    removes it.  One operation runs in each process. *)
Lemma entry_without_lease_lost : ∃ w, rtc (step true) (start (Some true) false) w ∧ 0%nat ∈ w_have w ∧ w_lock w = Some 0%nat ∧ w_dir w = None.
Proof.
  eexists. split.
  - eapply rtc_l; [apply (s_prune _ _ 1%nat 1%nat); eapply r_list; [split; [vm_compute; reflexivity|intros _ t' k; simpl; by rewrite lookup_empty]|vm_compute; reflexivity]|].
    prune_of 1%nat 1%nat r_foreign. prune_of 1%nat 1%nat r_nolocks.
    eapply rtc_l; [apply (s_put _ _ 0%nat 0%nat); eapply p_start; split; [vm_compute; reflexivity|intros _ t' k; simpl; rewrite !lookup_insert_Some, lookup_empty; naive_solver]|].
    put_ 0%nat p_none. put_ 0%nat p_mklocks. put_ 0%nat p_lease. put_ 0%nat p_record. put_ 0%nat p_mark. put_ 0%nat p_cached. put_ 0%nat p_report.
    prune_of 1%nat 1%nat r_remove. apply rtc_refl.
  - split; [apply (bool_decide_unpack _); vm_compute; exact I|]. split; vm_compute; reflexivity.
Qed.

(** Two threads that both find no pin: the second waits in flock for the lease its own process keeps with the pin, so the
    branch for the loser of that race is never taken: the only step the second has is a failing flock. *)
Lemma concurrent_puts_deadlock :
  ∃ w, rtc (step false) (start None false) w ∧ at_pc 1 0 TWant w ∧ w_lock w = Some 0%nat ∧ 0%nat ∈ w_have w ∧ ∀ w', put_step false 1 0 w w' → w' = finish 1 w.
Proof.
  eexists. split.
  - put_ 0%nat p_start. put_ 0%nat p_none. put_ 1%nat p_start. put_ 1%nat p_none. put_ 1%nat p_mklocks.
    put_ 0%nat p_mklocks. put_ 0%nat p_lease. put_ 0%nat p_record. put_ 0%nat p_mark. put_ 0%nat p_mkdir. put_ 0%nat p_rename. put_ 0%nat p_report.
    apply rtc_refl.
  - assert (Hk : ∀ w k, at_pc 1 0 TWant w → at_pc 1 0 k w → k = TWant) by (unfold at_pc; intros; congruence).
    split; [vm_compute; reflexivity|]. split; [vm_compute; reflexivity|]. split; [apply (bool_decide_unpack _); vm_compute; exact I|].
    match goal with |- ∀ w', put_step false 1 0 ?w w' → _ => assert (Hat : at_pc 1 0 TWant w) by (vm_compute; reflexivity);
      assert (Hlk : w_lock w = Some 0%nat) by (vm_compute; reflexivity); set (w0 := w) in *; clearbody w0 end.
    intros w' Hs. destruct Hs as [[Hs _]| | | |k Hkk Hor| | | | | | |k Hkk [-> | ->]| | | | | |]; try done; try (rewrite Hlk in *; done);
      try (match goal with H : at_pc 1 0 ?k w0 |- _ => specialize (Hk w0 k Hat H); done end).
    unfold at_pc in Hat. congruence.
Qed.

Lemma writers_and_collectors_witness :
  ∃ w, rtc (step true) (start None false) w ∧ 0%nat ∈ w_have w ∧ w_dir w = Some true ∧ w_lock w = Some 0%nat.
Proof.
  eexists. assert (Hr : rtc (step true) (start None false)
    (finish 0 (put_have ({[0%nat]} ∪ ∅) (put_pin 0 (Some (mkPin 1 0)) (go 0 0 TCommitted (put_dir (Some true) (go 0 0 TStream (put_dir (Some false)
      (go 0 0 TMarked (put_pin 0 (Some (mkPin 1 1)) (go 0 0 TPinned (put_pin 0 (Some (mkPin 1 0)) (go 0 0 TLeased (put_lock (Some 0%nat) (go 0 0 TWant (put_locks true (go 0 0 TLockDir (go 0 0 TPin (start None false))))))))))))))))))).
  { put_ 0%nat p_start. put_ 0%nat p_none. put_ 0%nat p_mklocks. put_ 0%nat p_lease. put_ 0%nat p_record. put_ 0%nat p_mark. put_ 0%nat p_mkdir. put_ 0%nat p_rename. put_ 0%nat p_report.
    apply rtc_refl. }
  split; [exact Hr|]. split; [apply (bool_decide_unpack _); vm_compute; exact I|].
  apply (writers_and_collectors None false _ (λ Hs, match is_Some_None Hs with end) Hr). apply (bool_decide_unpack _). vm_compute. exact I.
Defined.
