(* ===== verification/PortScan.v ===== *)
(** * internal/core/portfwd: what listens where

    The parsers of [discovery.go] for the guest's /proc/net tables and of [forward.go] for the listings of ss, netstat and
    lsof on the host, the filter of forwardable ports, and the three-way answer to whether a local port is taken.  The
    commands are the answers they give. *)

From stdpp Require Import prelude countable gmap strings list pretty.
From Stdlib Require Import ZArith Ascii Lia.
From S2P Require Import Prelude GoStrings GoIO GoPath GoNet Domain Sandbox Reap Netns.

(** ** Numbers in a base *)

Fixpoint parse_base (val : ascii → option Z) (base : Z) (l : bytes) (acc : Z) : option Z :=
  match l with
  | [] => Some acc
  | c :: l => match val c with Some d => parse_base val base l (acc * base + d) | None => None end
  end.

(** [strconv.ParseUint(s, base, bits)] for bases 10 and 16. *)
Definition ParseUintB (base bits : Z) (l : bytes) : option Z :=
  match l with
  | [] => None
  | _ => match parse_base (if base =? 16 then hex_val else digit_val) base l 0 with
         | Some v => if v <? 2 ^ bits then Some v else None
         | None => None
         end
  end.

Definition lines (text : string) : list bytes := split_n (S (S (length (chars text)))) "010"%char (chars text).

(** ** discovery.go *)

Definition GuestPortBase : Z := 1024.
Definition GuestPortTop : Z := 11023.

Inductive SandboxStatus := SandboxStatusRunning | SandboxStatusStopped | SandboxStatusCreated | SandboxStatusPaused.

#[global] Instance SandboxStatus_eq_dec : EqDecision SandboxStatus.
Proof. solve_decision. Defined.

Record SandboxRef := mkSandboxRef { sr_ID : string; sr_Name : string; sr_Status : SandboxStatus }.
Record PortBind := mkPortBind { pb_Port : Z; pb_BindAddr : string }.
Record Listener := mkListener { ls_Port : Z; ls_BindAddr : string; ls_Sandbox : SandboxRef }.

Definition netstat_row (line : bytes) : option PortBind :=
  let fields := fields_loop line [] in
  match fields !! 3%nat, fields !! 5%nat with
  | Some addr, Some state =>
      if negb (bool_decide (state = chars "LISTEN")) then None
      else match break_last ":"%char addr with
           | None => None
           | Some (a, p) => match ParseUintB 10 16 p with None => None | Some p => Some (mkPortBind p (of_chars a)) end
           end
  | _, _ => None
  end.

Definition ParseNetstat (text : string) : list PortBind := omap netstat_row (lines text).

(** [byte(v), byte(v >> 8), byte(v >> 16), byte(v >> 24)] *)
Definition le_bytes (v : Z) : list Z := [v mod 256; v / 256 mod 256; v / 65536 mod 256; v / 16777216 mod 256].
Definition be_val (l : list Z) : Z := fold_left (λ acc b, acc * 256 + b) l 0.

(** [net.IP.String] of four or sixteen bytes; an IPv4-mapped address is printed as IPv4. *)
Definition IP_String (l : list Z) : string :=
  let v := be_val l in
  if Nat.eqb (length l) 4 then v4_String v
  else if is_4in6 v then v4_String (Z.land v 0xffffffff) else v6_String v.

(** The words of an IPv6 address; [None] if one is not a number. *)
Fixpoint addr_words (n : nat) (l : bytes) : option (list Z) :=
  match n with
  | O => Some []
  | S n =>
      match ParseUintB 16 32 (take 8 l) with
      | None => None
      | Some w => match addr_words n (drop 8 l) with None => None | Some ws => Some (le_bytes w ++ ws) end
      end
  end.

Definition parse_ip (addrHex : bytes) : option string :=
  if Nat.eqb (length addrHex) 8 then IP_String <$> addr_words 1 addrHex
  else if Nat.eqb (length addrHex) 32 then IP_String <$> addr_words 4 addrHex
  else None.

Definition proc_net_row (line : bytes) : option PortBind :=
  let fields := fields_loop line [] in
  match fields !! 0%nat, fields !! 1%nat, fields !! 3%nat with
  | Some sl, Some local, Some st =>
      if bool_decide (sl = chars "sl") then None
      else if negb (Nat.eqb (length st) 2) then None
      else match ParseUintB 16 8 st with
           | Some 10 =>
               match break_last ":"%char local with
               | None => None
               | Some (addrHex, portHex) =>
                   match ParseUintB 16 16 portHex with
                   | None => None
                   | Some p => match parse_ip addrHex with None => None | Some ip => Some (mkPortBind p ip) end
                   end
               end
           | _ => None
           end
  | _, _, _ => None
  end.

Definition parseProcNetFile (text : string) : list PortBind := omap proc_net_row (lines text).

Record FilterResult := mkFilterResult { fr_Forwardable : list Listener; fr_OutOfRange : list Listener; fr_Reserved : list Listener }.

Fixpoint FilterListeners (exclude : list Z) (ls : list Listener) : FilterResult :=
  match ls with
  | [] => mkFilterResult [] [] []
  | l :: ls =>
      let r := FilterListeners exclude ls in
      if (ls_Port l <? GuestPortBase) || bool_decide (ls_Port l ∈ exclude) then
        mkFilterResult (fr_Forwardable r) (fr_OutOfRange r) (l :: fr_Reserved r)
      else if GuestPortTop <? ls_Port l then mkFilterResult (fr_Forwardable r) (l :: fr_OutOfRange r) (fr_Reserved r)
      else mkFilterResult (l :: fr_Forwardable r) (fr_OutOfRange r) (fr_Reserved r)
  end.

(** [ReadProcNet] gives the two tables, or fails. *)
Definition DiscoverOne (read : option (string * string)) (ref : SandboxRef) : option (list Listener) :=
  match read with
  | None => None
  | Some (tcp, tcp6) =>
      Some ((λ b, mkListener (pb_Port b) (pb_BindAddr b) ref) <$> parseProcNetFile tcp ++ parseProcNetFile tcp6)
  end.

Fixpoint discover_all (read : string → option (string * string)) (refs : list SandboxRef) : option (list Listener) :=
  match refs with
  | [] => Some []
  | ref :: refs =>
      if negb (bool_decide (sr_Status ref = SandboxStatusRunning)) then discover_all read refs
      else match DiscoverOne (read (sr_ID ref)) ref with
           | None => None
           | Some ls => match discover_all read refs with None => None | Some all => Some (ls ++ all) end
           end
  end.

Definition DiscoverAll (refs : option (list SandboxRef)) (read : string → option (string * string)) : option (list Listener) :=
  match refs with None => None | Some refs => discover_all read refs end.

(** ** forward.go: reading listings *)

Definition is_digit (c : ascii) : bool := bool_decide (is_Some (digit_val c)).

(** The loop looks on one byte after each occurrence. *)
Fixpoint needle_loop (fuel : nat) (line needle : bytes) : bool :=
  match fuel with
  | O => false
  | S fuel =>
      match line with
      | [] => false
      | _ =>
          match index_from needle line 0 with
          | None => false
          | Some idx =>
              match drop (idx + length needle) line with
              | [] => true
              | c :: _ => if negb (is_digit c) then true else needle_loop fuel (drop (idx + 1) line) needle
              end
          end
      end
  end.

Definition hasNeedleNotFollowedByDigit (line needle : bytes) : bool := needle_loop (S (length line)) line needle.
Definition matchColonPort (line needle : bytes) : bool := hasNeedleNotFollowedByDigit line needle.
Definition matchDotPort (line needle : bytes) : bool :=
  match last (fields_loop line []) with
  | Some f => if bool_decide (f = chars "LISTEN") then hasNeedleNotFollowedByDigit line needle else false
  | None => false
  end.

Fixpoint find_line (f : bytes → bool) (ls : list bytes) : option bytes :=
  match ls with [] => None | l :: ls => if f l then Some l else find_line f ls end.

Definition portLine (output : string) (port : Z) : option bytes :=
  let n := chars (pretty port) in
  find_line (λ l, matchDotPort l ("."%char :: n) || matchColonPort l (":"%char :: n)) (lines output).

(** [pid=(\d+)], every match from the left; a match ends where its digits end. *)
Fixpoint take_digits (l : bytes) : bytes :=
  match l with [] => [] | c :: l => if is_digit c then c :: take_digits l else [] end.

Fixpoint pid_matches (fuel : nat) (l : bytes) : list bytes :=
  match fuel with
  | O => []
  | S fuel =>
      match index_from (chars "pid=") l 0 with
      | None => []
      | Some i =>
          let rest := drop (i + 4) l in
          match take_digits rest with
          | [] => pid_matches fuel (drop (i + 1) l)
          | ds => ds :: pid_matches fuel (drop (length ds) rest)
          end
      end
  end.

Definition pids_of (l : bytes) : list bytes := pid_matches (S (length l)) l.

Definition Atoi (l : bytes) : option Z := match ParseInt (of_chars l) with Ok v => Some v | Err _ => None end.

Definition ownerPIDsFromSS (line : bytes) : list Z := omap Atoi (pids_of line).

Definition lsofFieldValues (output : string) (tag : ascii) : list Z :=
  omap (λ l, match l with c :: _ :: _ => if Ascii.eqb c tag then Atoi (tail l) else None | _ => None end) (lines output).

Definition trailingPort (addr : bytes) (sep : ascii) : option Z :=
  match break_last sep addr with Some (_, p) => ParseUintB 10 16 p | None => None end.

Definition appendUniquePort (ports : list Z) (p : Z) : list Z := if bool_decide (p ∈ ports) then ports else ports ++ [p].

(** ** forward.go: whose port it is *)

Inductive Presence := PresenceAbsent | PresenceOurs | PresenceForeign.

#[global] Instance Presence_eq_dec : EqDecision Presence.
Proof. solve_decision. Defined.

(** A command that ran: its output, its error output and its exit status. *)
Record Ran := mkRan { ran_out : string; ran_err : string; ran_code : Z }.

(** [None]: an error. *)
Definition MasterPID (check : option Ran) : option Z :=
  match check with
  | None => None
  | Some r =>
      if negb (ran_code r =? 0) then Some 0
      else match pids_of (chars (ran_err r)) with [] => None | m :: _ => Some (default 0 (Atoi m)) end
  end.

Definition MasterAlive (check : option Ran) : option bool :=
  match check with
  | None => None
  | Some r => if ran_code r =? 0 then Some true else if ran_code r =? 255 then Some false else None
  end.

(** The presence, and whether an error comes with it. *)
Definition classifyOwner (myPID : Z) (check : option Ran) (owners : list Z) : Presence * bool :=
  if bool_decide (owners = []) then (PresenceForeign, true)
  else if bool_decide (myPID ∈ owners) then (PresenceOurs, true)
  else match MasterPID check with
       | None => (PresenceForeign, false)
       | Some master => if negb (master =? 0) && bool_decide (master ∈ owners) then (PresenceOurs, true) else (PresenceForeign, true)
       end.

Definition succeeded (r : option Ran) : option Ran := match r with Some r => if ran_code r =? 0 then Some r else None | None => None end.

Definition Present (myPID : Z) (ss netstat lsof check : option Ran) (port : Z) : Presence * bool :=
  match succeeded ss with
  | Some r =>
      match portLine (ran_out r) port with
      | None => (PresenceAbsent, true)
      | Some line => classifyOwner myPID check (ownerPIDsFromSS line)
      end
  | None =>
      match succeeded netstat with
      | Some r =>
          match portLine (ran_out r) port with
          | None => (PresenceAbsent, true)
          | Some _ =>
              match succeeded lsof with
              | None => (PresenceForeign, true)
              | Some l => classifyOwner myPID check (lsofFieldValues (ran_out l) "p"%char)
              end
          end
      | None => (PresenceAbsent, false)
      end
  end.

Definition ss_forward (needle line : bytes) : option Z :=
  if bool_decide (is_Some (index_from needle line 0)) then
    match fields_loop line [] !! 3%nat with Some a => trailingPort a ":"%char | None => None end
  else None.

Definition lsof_forward (line : bytes) : option Z :=
  match line with c :: l => if Ascii.eqb c "n" then trailingPort l ":"%char else None | [] => None end.

Definition MasterForwards (check ss lsof : option Ran) : option (list Z) :=
  match MasterPID check with
  | None => None
  | Some master =>
      if master =? 0 then Some []
      else match succeeded ss with
           | Some r =>
               let needle := chars "pid=" ++ chars (pretty master) ++ chars "," in
               Some (fold_left appendUniquePort (omap (ss_forward needle) (lines (ran_out r))) [])
           | None =>
               match lsof with
               | None => None
               | Some l => if negb (ran_code l =? 0) then Some []
                           else Some (fold_left appendUniquePort (omap lsof_forward (lines (ran_out l))) [])
               end
           end
  end.

(** ** The kernel's tables are read exactly *)

Definition hex_upper (d : Z) : ascii := byte_of (if d <? 10 then d + 48 else d + 55).

Lemma hex_val_upper d : 0 ≤ d < 16 → hex_val (hex_upper d) = Some d.
Proof.
  intros Hd. pose proof (digits_forall (λ d, bool_decide (hex_val (hex_upper d) = Some d)) 16 d eq_refl Hd) as H.
  by apply bool_decide_eq_true in H.
Qed.

Lemma hex_upper_plain d : 0 ≤ d < 16 → is_space (hex_upper d) = false ∧ hex_upper d ≠ ")"%char ∧ hex_upper d ≠ ":"%char ∧ hex_upper d ≠ "010"%char.
Proof.
  intros Hd. pose proof (digits_forall (λ d, negb (is_space (hex_upper d)) && bool_decide (hex_upper d ≠ ")"%char) && bool_decide (hex_upper d ≠ ":"%char) && bool_decide (hex_upper d ≠ "010"%char)) 16 d eq_refl Hd) as H.
  rewrite !andb_true_iff, negb_true_iff, !bool_decide_eq_true in H. tauto.
Qed.

(** [%02X] and [%04X], and the words of an address in memory order. *)
Definition hex_byte (b : Z) : bytes := [hex_upper (b / 16); hex_upper (b mod 16)].
Definition hex_port (p : Z) : bytes := hex_byte (p / 256) ++ hex_byte (p mod 256).
Fixpoint hex_addr (l : list Z) : bytes :=
  match l with
  | b0 :: b1 :: b2 :: b3 :: l => hex_byte b3 ++ hex_byte b2 ++ hex_byte b1 ++ hex_byte b0 ++ hex_addr l
  | _ => []
  end.

Definition is_byte (b : Z) : Prop := 0 ≤ b < 256.

Lemma hex_byte_digits b : is_byte b → ∃ d1 d2, hex_byte b = hex_upper <$> [d1; d2] ∧ 0 ≤ d1 < 16 ∧ 0 ≤ d2 < 16 ∧ b = d1 * 16 + d2.
Proof.
  intros Hb. unfold is_byte in Hb. exists (b / 16), (b mod 16). split; [done|].
  pose proof (Z.div_mod b 16 ltac:(lia)). pose proof (Z.mod_pos_bound b 16 ltac:(lia)). lia.
Qed.

Lemma parse_hex_digits ds acc :
  Forall (λ d, 0 ≤ d < 16) ds → parse_base hex_val 16 (hex_upper <$> ds) acc = Some (fold_left (λ a d, a * 16 + d) ds acc).
Proof.
  intros Hds. revert acc. induction Hds as [|d ds Hd Hds IH]; intros acc; [done|]. cbn [fmap list_fmap parse_base]. by rewrite hex_val_upper, IH.
Qed.

Lemma parse_hex_byte b : is_byte b → ParseUintB 16 8 (hex_byte b) = Some b.
Proof.
  intros Hb. destruct (hex_byte_digits b Hb) as (d1 & d2 & -> & H1 & H2 & ->). unfold is_byte in Hb.
  unfold ParseUintB. cbn [fmap list_fmap]. change [hex_upper d1; hex_upper d2] with (hex_upper <$> [d1; d2]).
  change (16 =? 16) with true. cbv iota. rewrite parse_hex_digits by (repeat constructor; lia). cbn [fold_left].
  destruct (Z.ltb_spec (0 * 16 + d1) (2 ^ 8)); rewrite (proj2 (Z.ltb_lt _ _)) by lia; f_equal; lia.
Qed.

Lemma parse_hex_port p : 0 ≤ p < 65536 → ParseUintB 16 16 (hex_port p) = Some p.
Proof.
  intros Hp. assert (H1 : is_byte (p / 256)) by (unfold is_byte; split; [apply Z.div_pos; lia|apply Z.div_lt_upper_bound; lia]).
  assert (H2 : is_byte (p mod 256)) by (apply Z.mod_pos_bound; lia). pose proof (Z.div_mod p 256 ltac:(lia)).
  unfold hex_port. destruct (hex_byte_digits _ H1) as (d1 & d2 & -> & ? & ? & E1). destruct (hex_byte_digits _ H2) as (d3 & d4 & -> & ? & ? & E2).
  rewrite <- fmap_app. unfold ParseUintB. cbn [app fmap list_fmap]. change (16 =? 16) with true. cbv iota.
  change (hex_upper d1 :: hex_upper d2 :: hex_upper d3 :: [hex_upper d4]) with (hex_upper <$> [d1; d2; d3; d4]).
  rewrite parse_hex_digits by (repeat constructor; lia). cbn [fold_left]. rewrite (proj2 (Z.ltb_lt _ _)) by lia. f_equal. lia.
Qed.

Lemma parse_hex_word b0 b1 b2 b3 :
  is_byte b0 → is_byte b1 → is_byte b2 → is_byte b3 →
  ParseUintB 16 32 (hex_byte b3 ++ hex_byte b2 ++ hex_byte b1 ++ hex_byte b0) = Some (b0 + 256 * b1 + 65536 * b2 + 16777216 * b3).
Proof.
  intros H0 H1 H2 H3.
  destruct (hex_byte_digits _ H3) as (d1 & d2 & -> & ? & ? & ->). destruct (hex_byte_digits _ H2) as (d3 & d4 & -> & ? & ? & ->).
  destruct (hex_byte_digits _ H1) as (d5 & d6 & -> & ? & ? & ->). destruct (hex_byte_digits _ H0) as (d7 & d8 & -> & ? & ? & ->).
  rewrite <- !fmap_app. unfold ParseUintB. cbn [app fmap list_fmap]. change (16 =? 16) with true. cbv iota.
  match goal with |- context[parse_base hex_val 16 ?l 0] => change l with (hex_upper <$> [d1; d2; d3; d4; d5; d6; d7; d8]) end.
  rewrite parse_hex_digits by (repeat constructor; lia). cbn [fold_left]. rewrite (proj2 (Z.ltb_lt _ _)) by lia. f_equal. lia.
Qed.

Lemma le_bytes_word b0 b1 b2 b3 :
  is_byte b0 → is_byte b1 → is_byte b2 → is_byte b3 → le_bytes (b0 + 256 * b1 + 65536 * b2 + 16777216 * b3) = [b0; b1; b2; b3].
Proof.
  unfold is_byte, le_bytes. intros H0 H1 H2 H3.
  set (v := b0 + 256 * b1 + 65536 * b2 + 16777216 * b3).
  assert (E1 : v mod 256 = b0) by (unfold v; replace (b0 + 256 * b1 + 65536 * b2 + 16777216 * b3) with (b0 + (b1 + 256 * b2 + 65536 * b3) * 256) by lia; rewrite Z.mod_add by lia; apply Z.mod_small; lia).
  assert (E2 : v / 256 = b1 + 256 * b2 + 65536 * b3) by (symmetry; apply (Z.div_unique v 256 _ b0); unfold v; lia).
  assert (E3 : v / 65536 = b2 + 256 * b3) by (symmetry; apply (Z.div_unique v 65536 _ (b0 + 256 * b1)); unfold v; lia).
  assert (E4 : v / 16777216 = b3) by (symmetry; apply (Z.div_unique v 16777216 _ (b0 + 256 * b1 + 65536 * b2)); unfold v; lia).
  rewrite E1, E2, E3, E4. f_equal. f_equal; [|f_equal].
  - symmetry. apply (Z.mod_unique _ 256 (b2 + 256 * b3)); lia.
  - symmetry. apply (Z.mod_unique _ 256 b3); lia.
  - f_equal. apply Z.mod_small. lia.
Qed.

Lemma length_hex_addr n l : length l = (4 * n)%nat → length (hex_addr l) = (8 * n)%nat.
Proof.
  revert l. induction n as [|n IH]; intros l Hl; [by destruct l|].
  destruct l as [|b0 [|b1 [|b2 [|b3 l]]]]; simpl in Hl; try lia. simpl. rewrite IH by lia. lia.
Qed.

Lemma parse_hex_addr n l : length l = (4 * n)%nat → Forall is_byte l → addr_words n (hex_addr l) = Some l.
Proof.
  revert l. induction n as [|n IH]; intros l Hl Hb; [by destruct l|].
  destruct l as [|b0 [|b1 [|b2 [|b3 l]]]]; simpl in Hl; try lia.
  rewrite !Forall_cons in Hb. destruct Hb as (H0 & H1 & H2 & H3 & Hb). cbn [hex_addr addr_words].
  replace (hex_byte b3 ++ hex_byte b2 ++ hex_byte b1 ++ hex_byte b0 ++ hex_addr l) with ((hex_byte b3 ++ hex_byte b2 ++ hex_byte b1 ++ hex_byte b0) ++ hex_addr l)
    by (by rewrite <- !app_assoc).
  rewrite take_app_length', drop_app_length' by done. rewrite parse_hex_word, IH by (done || lia). by rewrite le_bytes_word.
Qed.

(** A row of /proc/net/tcp or tcp6. *)
Record SockRow := mkSockRow {
  sk_sl : bytes;
  sk_addr : list Z;
  sk_port : Z;
  sk_remote : bytes;
  sk_state : Z;
  sk_rest : list bytes;
}.

Definition row_ok (r : SockRow) : Prop :=
  is_word (sk_sl r) ∧ sk_sl r ≠ chars "sl" ∧ (length (sk_addr r) = 4%nat ∨ length (sk_addr r) = 16%nat) ∧ Forall is_byte (sk_addr r) ∧
  0 ≤ sk_port r < 65536 ∧ is_word (sk_remote r) ∧ is_byte (sk_state r) ∧ Forall is_word (sk_rest r).

Definition row_text (r : SockRow) : bytes :=
  spaced (sk_sl r :: (hex_addr (sk_addr r) ++ ":"%char :: hex_port (sk_port r)) :: sk_remote r :: hex_byte (sk_state r) :: sk_rest r).

Definition TCP_LISTEN : Z := 10.
Definition listening (r : SockRow) : option PortBind :=
  if sk_state r =? TCP_LISTEN then Some (mkPortBind (sk_port r) (IP_String (sk_addr r))) else None.

Definition plain (w : bytes) : Prop := Forall (λ c, is_space c = false ∧ c ≠ ")"%char ∧ c ≠ ":"%char) w.

Lemma hex_byte_plain b : is_byte b → plain (hex_byte b).
Proof.
  intros Hb. destruct (hex_byte_digits b Hb) as (d1 & d2 & -> & H1 & H2 & _).
  pose proof (hex_upper_plain d1 H1). pose proof (hex_upper_plain d2 H2). repeat constructor; tauto.
Qed.

Lemma hex_addr_plain n l : length l = (4 * n)%nat → Forall is_byte l → plain (hex_addr l).
Proof.
  revert l. induction n as [|n IH]; intros l Hl Hb; [destruct l; [constructor|done]|].
  destruct l as [|b0 [|b1 [|b2 [|b3 l]]]]; simpl in Hl; try lia. rewrite !Forall_cons in Hb. destruct Hb as (H0 & H1 & H2 & H3 & Hb).
  unfold plain in *. cbn [hex_addr]. rewrite !Forall_app. repeat split; try (by apply hex_byte_plain). apply IH; [lia|done].
Qed.

Lemma plain_word w : plain w → w ≠ [] → is_word w.
Proof. intros Hw Hne. split; [done|]. eapply Forall_impl; [exact Hw|]. simpl. tauto. Qed.

Lemma hex_port_plain p : 0 ≤ p < 65536 → plain (hex_port p).
Proof.
  intros Hp. unfold plain, hex_port. rewrite Forall_app. split; apply hex_byte_plain; [split; [apply Z.div_pos; lia|apply Z.div_lt_upper_bound; lia]|apply Z.mod_pos_bound; lia].
Qed.

Lemma row_words r :
  row_ok r → ∃ n, length (sk_addr r) = (4 * n)%nat ∧ (n = 1%nat ∨ n = 4%nat) ∧
    Forall is_word (sk_sl r :: (hex_addr (sk_addr r) ++ ":"%char :: hex_port (sk_port r)) :: sk_remote r :: hex_byte (sk_state r) :: sk_rest r).
Proof.
  intros (Hsl & _ & Hlen & Hb & Hp & Hr & Hs & Hrest).
  assert (∃ n, length (sk_addr r) = (4 * n)%nat ∧ (n = 1%nat ∨ n = 4%nat)) as (n & Hn & Hcase).
  { destruct Hlen as [-> | ->]; [exists 1%nat|exists 4%nat]; lia. }
  exists n. split; [done|]. split; [done|]. rewrite !Forall_cons. split; [done|]. split.
  - split; [by destruct (hex_addr (sk_addr r))|]. rewrite Forall_app, Forall_cons. split; [|split].
    + eapply Forall_impl; [by eapply hex_addr_plain|]. simpl. tauto.
    + done.
    + eapply Forall_impl; [by apply hex_port_plain|]. simpl. tauto.
  - split; [done|]. split; [|done]. apply plain_word; [by apply hex_byte_plain|done].
Qed.

Lemma proc_net_row_text r : row_ok r → proc_net_row (row_text r) = listening r.
Proof.
  intros Hok. destruct (row_words r Hok) as (n & Hn & Hcase & Hw). destruct Hok as (_ & Hsl & _ & Hb & Hp & _ & Hs & _).
  unfold proc_net_row, row_text. rewrite (fields_loop_words _ Hw). cbn [lookup list_lookup].
  rewrite bool_decide_false by done. cbn [length hex_byte Nat.eqb negb]. rewrite (parse_hex_byte _ Hs).
  unfold listening, TCP_LISTEN. destruct (Z.eqb_spec (sk_state r) 10) as [->|Hne].
  - rewrite break_last_at.
    + rewrite (parse_hex_port _ Hp). unfold parse_ip. rewrite (length_hex_addr n) by done.
      destruct Hcase as [-> | ->]; cbn [Nat.eqb Nat.mul Nat.add]; by rewrite (parse_hex_addr _ _ Hn Hb).
    + intros Hin. pose proof (hex_port_plain _ Hp) as Hpl. unfold plain in Hpl. rewrite Forall_forall in Hpl. by destruct (Hpl _ Hin) as (_ & _ & ?).
  - destruct (sk_state r) as [|q|q]; try done. do 4 (destruct q as [q|q|]; try done).
Qed.

Definition header_text : bytes := chars "  sl  local_address rem_address   st tx_queue rx_queue tr tm->when retrnsmt   uid  timeout inode".

Definition table_line (r : option SockRow) : bytes := match r with Some r => row_text r | None => header_text end.

(** One or more tables, as they are printed. *)
Definition table_text (rows : list (option SockRow)) : string := of_chars (join_bytes "010"%char ((table_line <$> rows) ++ [[]])).

Lemma spaced_no_newline ws : Forall is_word ws → "010"%char ∉ spaced ws.
Proof.
  intros Hw Hin. destruct (spaced_chars ws _ Hw Hin) as [?|[Hs _]]; [done|]. by vm_compute in Hs.
Qed.

(** Discovery reads the kernel's tables exactly: from any sequence of headers and rows, IPv4 and IPv6, it yields the
    listening sockets with their ports and addresses, in order, and nothing else. *)
Lemma proc_net_roundtrip rows :
  Forall (λ r, match r with Some r => row_ok r | None => True end) rows →
  parseProcNetFile (table_text rows) = omap (λ r, r ≫= listening) rows.
Proof.
  intros Hok. unfold parseProcNetFile, lines, table_text. rewrite !chars_of_chars.
  set (ls := (table_line <$> rows) ++ [[]]).
  assert (Hnl : Forall (λ l, "010"%char ∉ l) ls).
  { unfold ls. apply Forall_app. split; [|repeat constructor; apply not_elem_of_nil]. apply Forall_fmap. eapply Forall_impl; [exact Hok|].
    intros [r|] Hr; simpl; [|apply (bool_decide_unpack _); by vm_compute].
    destruct (row_words r Hr) as (_ & _ & _ & Hw). by apply spaced_no_newline. }
  rewrite split_n_join; [|done|by unfold ls; destruct (table_line <$> rows)|].
  - unfold ls. rewrite omap_app. assert (E : omap proc_net_row [[]] = []) by done. rewrite E, app_nil_r. clear ls Hnl E.
    induction Hok as [|r rows Hr _ IH]; [done|]. cbn [fmap list_fmap omap list_omap]. destruct r as [r|]; cbn [table_line mbind option_bind].
    + rewrite (proc_net_row_text r Hr). destruct (listening r); [by f_equal|done].
    + assert (E : proc_net_row header_text = None) by by vm_compute. rewrite E. exact IH.
  - clear Hnl. assert (H : ∀ ls, (length ls ≤ S (length (join_bytes "010"%char ls)))%nat).
    { clear. intros ls. induction ls as [|l [|k ls] IH]; simpl; [lia|lia|]. simpl in IH. rewrite length_app. simpl. lia. }
    specialize (H ls). lia.
Qed.

(** ** The filter *)

Lemma FilterListeners_spec exclude ls :
  let r := FilterListeners exclude ls in
  fr_Forwardable r ++ fr_OutOfRange r ++ fr_Reserved r ≡ₚ ls ∧
  (∀ l, l ∈ fr_Forwardable r ↔ l ∈ ls ∧ GuestPortBase ≤ ls_Port l ≤ GuestPortTop ∧ ls_Port l ∉ exclude).
Proof.
  induction ls as [|l ls [IHp IHf]]; simpl; [split; [done|]; intros l; rewrite !elem_of_nil; tauto|].
  destruct (Z.ltb_spec (ls_Port l) GuestPortBase) as [Hlo|Hlo]; simpl; [|case_bool_decide as Hex; simpl; [|destruct (Z.ltb_spec GuestPortTop (ls_Port l)) as [Hhi|Hhi]; simpl]].
  - split; [rewrite app_assoc, <- Permutation_middle, <- app_assoc; by constructor|].
    intros k. rewrite IHf, elem_of_cons. split; [tauto|]. intros [[-> | Hk] Hr]; [lia|tauto].
  - split; [rewrite app_assoc, <- Permutation_middle, <- app_assoc; by constructor|].
    intros k. rewrite IHf, elem_of_cons. split; [tauto|]. intros [[-> | Hk] Hr]; tauto.
  - split; [rewrite <- Permutation_middle; by constructor|].
    intros k. rewrite IHf, elem_of_cons. split; [tauto|]. intros [[-> | Hk] Hr]; [lia|tauto].
  - split; [by constructor|]. intros k. rewrite !elem_of_cons, IHf. split; [|tauto]. intros [-> | Hk]; [|tauto]. split; [by left|]. split; [lia|done].
Qed.

(** ** Searching a listing *)

Lemma index_from_shift sub l i : index_from sub l i = (λ n, i + n)%nat <$> index_from sub l 0.
Proof.
  revert i. induction l as [|c l IH]; intros i; simpl; destruct (strip_prefix sub _); simpl; try done; try (by f_equal; lia).
  rewrite (IH (S i)), (IH 1%nat). destruct (index_from sub l 0); simpl; [f_equal; lia|done].
Qed.

(** The first occurrence: nothing matches before it. *)
Lemma index_from_first sub l n :
  index_from sub l 0 = Some n → strip_prefix sub (drop n l) ≠ None ∧ ∀ m, (m < n)%nat → strip_prefix sub (drop m l) = None.
Proof.
  revert n. induction l as [|c l IH]; intros n; simpl.
  - destruct (strip_prefix sub []) eqn:E; [|done]. intros [= <-]. simpl. split; [by rewrite E|lia].
  - destruct (strip_prefix sub (c :: l)) eqn:E; [intros [= <-]; simpl; split; [by rewrite E|lia]|].
    rewrite index_from_shift. destruct (index_from sub l 0) as [k|] eqn:Ek; [|done]. intros [= <-].
    destruct (IH k eq_refl) as [H1 H2]. split; [done|]. intros [|m] Hm; [done|]. simpl. apply H2. lia.
Qed.

Lemma index_from_none sub l : index_from sub l 0 = None → ∀ m, strip_prefix sub (drop m l) = None.
Proof.
  induction l as [|c l IH]; simpl.
  - destruct (strip_prefix sub []) eqn:E; [done|]. intros _ m. by rewrite drop_nil.
  - destruct (strip_prefix sub (c :: l)) eqn:E; [done|]. rewrite index_from_shift. destruct (index_from sub l 0); [done|].
    intros _ [|m]; [done|]. by apply IH.
Qed.

Definition stands_at (line needle : bytes) (m : nat) : Prop :=
  ∃ post, drop m line = needle ++ post ∧ (∀ c post', post = c :: post' → is_digit c = false).

Lemma needle_loop_spec fuel line needle :
  needle ≠ [] → (length line < fuel)%nat → needle_loop fuel line needle = true ↔ ∃ m, stands_at line needle m.
Proof.
  intros Hne. revert line. induction fuel as [|fuel IH]; intros line Hf; [lia|]. cbn [needle_loop].
  destruct line as [|c0 line0]; [|set (line := c0 :: line0) in *].
  { split; [done|]. intros (m & post & E & _). rewrite drop_nil in E. by destruct needle. }
  destruct (index_from needle line 0) as [idx|] eqn:Ei.
  - destruct (index_from_first _ _ _ Ei) as [Hat Hbefore]. destruct (strip_prefix needle (drop idx line)) as [post|] eqn:Ep; [|done].
    apply strip_prefix_Some in Ep. assert (Ed : drop (idx + length needle) line = post).
    { rewrite <- drop_drop, Ep. by apply drop_app_length. }
    rewrite Ed. destruct post as [|c post].
    { split; [|done]. intros _. exists idx, []. split; [done|]. by intros. }
    destruct (is_digit c) eqn:Hd; cbn [negb].
    2:{ split; [|done]. intros _. exists idx, (c :: post). split; [done|]. by intros ? ? [= <- <-]. }
    rewrite IH.
    2:{ rewrite length_drop. assert (Hl : length (drop idx line) = length (needle ++ c :: post)) by by rewrite Ep.
        rewrite length_drop, length_app in Hl. simpl in Hl. unfold line in *. simpl in *. lia. }
    split; intros (m & post' & E & Hp).
    + exists (idx + 1 + m)%nat, post'. split; [|done]. by rewrite drop_drop in E.
    + destruct (decide (m < idx)%nat) as [Hlt|]; [|destruct (decide (m = idx)) as [->|]].
      * exfalso. specialize (Hbefore m Hlt). rewrite (proj2 (strip_prefix_Some needle (drop m line) post') E) in Hbefore. done.
      * exfalso. rewrite Ep in E. apply app_inv_head in E. subst post'. specialize (Hp c post eq_refl). congruence.
      * exists (m - idx - 1)%nat, post'. split; [|done]. rewrite drop_drop. by replace (idx + 1 + (m - idx - 1))%nat with m by lia.
  - split; [done|]. intros (m & post & E & _). pose proof (index_from_none _ _ Ei m) as Hn.
    rewrite (proj2 (strip_prefix_Some needle (drop m line) post) E) in Hn. done.
Qed.

(** A port is found in a line exactly where it stands with no further digit behind it. *)
Lemma hasNeedle_spec line needle :
  needle ≠ [] → hasNeedleNotFollowedByDigit line needle = true ↔
    ∃ pre post, line = pre ++ needle ++ post ∧ (∀ c post', post = c :: post' → is_digit c = false).
Proof.
  intros Hne. unfold hasNeedleNotFollowedByDigit. rewrite needle_loop_spec by (done || lia). split.
  - intros (m & post & E & Hp). exists (take m line), post. split; [|done]. by rewrite <- E, take_drop.
  - intros (pre & post & -> & Hp). exists (length pre), post. split; [|done]. by rewrite drop_app_length.
Qed.

(** An IPv6 listener whose address ends in the digits of the port is taken for a listener on that port. *)
Lemma ipv6_address_mistaken_for_port :
  let ss := Some (mkRan (of_chars (chars "LISTEN 0 128 [fd00::3000]:22 [::]:* users:((sshd,pid=7,fd=3))")) "" 0) in
  Present 1 ss None None (Some (mkRan "" "" 255)) 3000 = (PresenceForeign, true) ∧
  Present 1 ss None None (Some (mkRan "" "" 255)) 300 = (PresenceAbsent, true).
Proof. vm_compute. done. Qed.

(** [Present] calls a port ours only if this process or the running master holds it. *)
Lemma classifyOwner_ours myPID check owners ok :
  classifyOwner myPID check owners = (PresenceOurs, ok) → myPID ∈ owners ∨ ∃ m, MasterPID check = Some m ∧ m ≠ 0 ∧ m ∈ owners.
Proof.
  unfold classifyOwner. case_bool_decide; [done|]. case_bool_decide; [by left|]. destruct (MasterPID check) as [m|]; [|done].
  destruct (Z.eqb_spec m 0); simpl; [done|]. case_bool_decide; [|done]. intros _. right. eauto.
Qed.

Lemma proc_net_roundtrip_witness :
  parseProcNetFile (table_text
    [None; Some (mkSockRow (chars "0:") [127; 0; 0; 1] 5173 (chars "00000000:0000") 10 []); Some (mkSockRow (chars "1:") [10; 0; 0; 2] 22 (chars "00000000:0000") 1 [])]) =
  [mkPortBind 5173 "127.0.0.1"].
Proof.
  rewrite (proc_net_roundtrip [None; Some (mkSockRow (chars "0:") [127; 0; 0; 1] 5173 (chars "00000000:0000") 10 []); Some (mkSockRow (chars "1:") [10; 0; 0; 2] 22 (chars "00000000:0000") 1 [])]).
  - vm_compute. reflexivity.
  - repeat constructor; unfold is_byte; simpl; try lia; try done.
Defined.
