(* ===== verification/PortFwd.v ===== *)
(** * internal/core/portfwd: the forwards a client keeps

    [manager.go] keeps, per remote machine, the set of forwards applied on this host: listeners of this process and forwards
    held by the ssh control master.  The host is the set of ports each of them holds; the iteration order of Go's maps is a
    parameter.  The loop of [clientagent/startup.go] that drives the managers is at the end. *)

From stdpp Require Import prelude countable gmap strings list.
From Stdlib Require Import ZArith Ascii Lia.
From S2P Require Import Prelude GoStrings GoIO PortScan.

(** ** State *)

Definition appliedKindLocal : string := "local".
Definition appliedKindMaster : string := "master".

(** [ae_local]: the entry has a listener of this process. *)
Record appliedEntry := mkEntry { ae_kind : string; ae_local : bool }.

Definition fwdKey : Type := string * Z.

Record persistedEntry := mkPersisted { pe_SandboxID : string; pe_Port : Z; pe_Kind : string }.

(** [m_file] is the content of <controlpath>.applied.json, if it is there and can be read. *)
Record Manager := mkManager {
  applied : gmap fwdKey appliedEntry;
  cancelWarnedPort : gset Z;
  persistPath : bool;
  m_file : option (list persistedEntry)
}.

(** Who listens on 127.0.0.1: this process, the control master, anyone else. *)
Record Host := mkHost { h_local : gset Z; h_master : gset Z; h_foreign : gset Z }.

(** The ports at which an operation fails, and whether the file can be written. *)
Record Faults := mkFaults { f_present : gset Z; f_bind : gset Z; f_cancel : gset Z; f_save : bool }.

Definition no_faults : Faults := mkFaults ∅ ∅ ∅ false.

Definition set_applied (m : Manager) (a : gmap fwdKey appliedEntry) : Manager := mkManager a (cancelWarnedPort m) (persistPath m) (m_file m).

(** ** The persisted set *)

Definition load_step (a : gmap fwdKey appliedEntry) (e : persistedEntry) : gmap fwdKey appliedEntry :=
  let k := if bool_decide (pe_Kind e = "") then appliedKindMaster else pe_Kind e in
  if bool_decide (k = appliedKindLocal) then a else <[(pe_SandboxID e, pe_Port e) := mkEntry k false]> a.

Definition loadApplied (m : Manager) : Manager :=
  match m_file m with None => m | Some es => set_applied m (foldl load_step (applied m) es) end.

Definition NewManager (controlPath : bool) (file : option (list persistedEntry)) : Manager :=
  let m := mkManager ∅ ∅ controlPath file in if controlPath then loadApplied m else m.

Definition persisted_of (a : gmap fwdKey appliedEntry) : list persistedEntry :=
  (λ ke, mkPersisted ke.1.1 ke.1.2 (ae_kind ke.2)) <$> map_to_list a.

Definition saveApplied (f : Faults) (m : Manager) : Manager :=
  if negb (persistPath m) then m
  else if f_save f then m
  else mkManager (applied m) (cancelWarnedPort m) (persistPath m) (Some (persisted_of (applied m))).

Definition hasPort (a : gmap fwdKey appliedEntry) (port : Z) : bool := existsb (λ ke, Z.eqb ke.1.2 port) (map_to_list a).

Definition adopt_step (a : gmap fwdKey appliedEntry) (p : Z) : gmap fwdKey appliedEntry :=
  if hasPort a p then a else <[("", p) := mkEntry appliedKindMaster false]> a.

(** [ports] is what [MasterForwards] answered; [None] its error. *)
Definition AdoptMasterForwards (f : Faults) (ports : option (list Z)) (m : Manager) : Manager * bool :=
  match ports with
  | None => (m, false)
  | Some ports =>
      let a := foldl adopt_step (applied m) ports in
      let added := negb (Nat.eqb (size a) (size (applied m))) in
      (if added then saveApplied f (set_applied m a) else m, true)
  end.

(** ** The forwarder, on the host *)

Definition fw_Present (f : Faults) (h : Host) (port : Z) : option Presence :=
  if bool_decide (port ∈ f_present f) then None
  else if bool_decide (port ∈ h_local h ∪ h_master h) then Some PresenceOurs
  else if bool_decide (port ∈ h_foreign h) then Some PresenceForeign
  else Some PresenceAbsent.

(** [Apply]: bind 127.0.0.1:port. *)
Definition fw_Apply (f : Faults) (h : Host) (port : Z) : option Host :=
  if bool_decide (port ∈ f_bind f ∨ port ∈ h_local h ∪ h_master h ∪ h_foreign h) then None
  else Some (mkHost ({[port]} ∪ h_local h) (h_master h) (h_foreign h)).

(** [Cancel]: ssh -O cancel fails for a forward the master does not hold. *)
Definition fw_Cancel (f : Faults) (h : Host) (port : Z) : option Host :=
  if bool_decide (port ∈ f_cancel f ∨ port ∉ h_master h) then None
  else Some (mkHost (h_local h) (h_master h ∖ {[port]}) (h_foreign h)).

Definition lf_Close (h : Host) (port : Z) : Host := mkHost (h_local h ∖ {[port]}) (h_master h) (h_foreign h).

(** Whether it succeeded.  Closing a listener gives its port up also when it reports an error. *)
Definition cancelEntry (f : Faults) (h : Host) (k : fwdKey) (e : appliedEntry) : Host * bool :=
  if bool_decide (ae_kind e = appliedKindLocal) && ae_local e then (lf_Close h k.2, bool_decide (k.2 ∉ f_cancel f))
  else match fw_Cancel f h k.2 with Some h => (h, true) | None => (h, false) end.

(** ** Reconcile *)

Definition is_running (l : Listener) : bool := bool_decide (sr_Status (ls_Sandbox l) = SandboxStatusRunning).

Definition key_of (l : Listener) : fwdKey := (sr_ID (ls_Sandbox l), ls_Port l).

Definition desiredSet (desired : list Listener) : gset fwdKey := list_to_set (key_of <$> filter is_running desired).

(** An entry adopted for an unknown sandbox becomes the forward of the sandbox that wants its port. *)
Definition rename_step (a : gmap fwdKey appliedEntry) (want : fwdKey) : gmap fwdKey appliedEntry :=
  match a !! ("", want.2) with
  | Some e => if bool_decide (want.1 = "") then a else <[want := e]> (delete ("", want.2) a)
  | None => a
  end.

Definition cancel_step (f : Faults) (ds : gset fwdKey) (mh : Manager * Host) (k : fwdKey) : Manager * Host :=
  let '(m, h) := mh in
  match applied m !! k with
  | Some e =>
      if bool_decide (k ∈ ds) then (m, h)
      else match cancelEntry f h k e with
           | (h, false) => (mkManager (applied m) ({[k.2]} ∪ cancelWarnedPort m) (persistPath m) (m_file m), h)
           | (h, true) => (set_applied m (delete k (applied m)), h)
           end
  | None => (m, h)
  end.

Fixpoint apply_loop (f : Faults) (m : Manager) (h : Host) (desired : list Listener) : Manager * Host * bool :=
  match desired with
  | [] => (saveApplied f m, h, true)
  | l :: rest =>
      if negb (is_running l) then apply_loop f m h rest
      else match applied m !! key_of l with
           | Some _ => apply_loop f m h rest
           | None =>
               match fw_Present f h (ls_Port l) with
               | None => (m, h, false)
               | Some PresenceForeign => apply_loop f m h rest
               | Some PresenceOurs => apply_loop f (set_applied m (<[key_of l := mkEntry appliedKindMaster false]> (applied m))) h rest
               | Some PresenceAbsent =>
                   match fw_Apply f h (ls_Port l) with
                   | None => (m, h, false)
                   | Some h => apply_loop f (set_applied m (<[key_of l := mkEntry appliedKindLocal true]> (applied m))) h rest
                   end
               end
           end
  end.

(** The order in which Go ranges over a map is any permutation of its keys. *)
Section passes.
Context (ord : list fwdKey → list fwdKey).

Definition rename_loop (ds : gset fwdKey) (a : gmap fwdKey appliedEntry) : gmap fwdKey appliedEntry := foldl rename_step a (ord (elements ds)).

Definition cancel_loop (f : Faults) (ds : gset fwdKey) (m : Manager) (h : Host) : Manager * Host :=
  foldl (cancel_step f ds) (m, h) (ord (elements (dom (applied m)))).

Definition Reconcile (f : Faults) (m : Manager) (h : Host) (desired : list Listener) : Manager * Host * bool :=
  let ds := desiredSet desired in
  let m := set_applied m (rename_loop ds (applied m)) in
  let '(m, h) := cancel_loop f ds m h in
  apply_loop f (saveApplied f m) h desired.

Fixpoint teardown_loop (f : Faults) (id : string) (m : Manager) (h : Host) (ks : list fwdKey) : Manager * Host * bool :=
  match ks with
  | [] => (saveApplied f m, h, true)
  | k :: ks =>
      match applied m !! k with
      | Some e =>
          if negb (bool_decide (k.1 = id)) then teardown_loop f id m h ks
          else match cancelEntry f h k e with
               | (h, false) => (m, h, false)
               | (h, true) => teardown_loop f id (set_applied m (delete k (applied m))) h ks
               end
      | None => teardown_loop f id m h ks
      end
  end.

Definition TeardownSandbox (f : Faults) (m : Manager) (h : Host) (ref : SandboxRef) : Manager * Host * bool :=
  teardown_loop f (sr_ID ref) m h (ord (elements (dom (applied m)))).

End passes.

(** ** The invariant of the applied set *)

Definition held (h : Host) : gset Z := h_local h ∪ h_master h.

(** The entry's forward is where its kind says. *)
Definition owns (h : Host) (p : Z) (e : appliedEntry) : Prop :=
  if ae_local e then ae_kind e = appliedKindLocal ∧ p ∈ h_local h
  else ae_kind e ≠ appliedKindLocal ∧ ae_kind e ≠ "" ∧ p ∈ h_master h.

Definition one_key (a : gmap fwdKey appliedEntry) : Prop := ∀ k k', k ∈ dom a → k' ∈ dom a → k.2 = k'.2 → k = k'.

Definition ports_of (ks : gset fwdKey) (p : Z) : Prop := ∃ k, k ∈ ks ∧ k.2 = p.

Record Inv (a : gmap fwdKey appliedEntry) (h : Host) : Prop := {
  inv_owns : ∀ k e, a !! k = Some e → owns h k.2 e;
  inv_one : one_key a;
  inv_tracked : ∀ p, p ∈ h_local h → ports_of (dom a) p;
  inv_apart : h_local h ## h_master h;
  inv_foreign : h_foreign h ## held h
}.

(** Every port of [ps] is still applied or no longer held. *)
Definition accounted (ps : Z → Prop) (a : gmap fwdKey appliedEntry) (h : Host) : Prop :=
  ∀ p, ps p → ports_of (dom a) p ∨ p ∉ held h.

Lemma owns_held h p e : owns h p e → p ∈ held h.
Proof. unfold owns, held. destruct (ae_local e); set_solver. Qed.

Lemma desiredSet_elem desired k : k ∈ desiredSet desired ↔ ∃ l, l ∈ desired ∧ is_running l = true ∧ key_of l = k.
Proof.
  unfold desiredSet. rewrite elem_of_list_to_set, list_elem_of_fmap. split.
  - intros (l & -> & Hl). rewrite list_elem_of_filter in Hl. exists l. destruct Hl as [Hr Hl]. split; [done|]. split; [|done]. by apply Is_true_eq_true.
  - intros (l & Hl & Hr & <-). exists l. split; [done|]. rewrite list_elem_of_filter. split; [by apply Is_true_eq_left|done].
Qed.

(** *** Renaming adopted entries *)

Lemma rename_step_ports a want : ∀ p, ports_of (dom (rename_step a want)) p ↔ ports_of (dom a) p.
Proof.
  intros p. unfold rename_step. destruct (a !! ("", want.2)) as [e|] eqn:E; [|done]. case_bool_decide as Hs; [done|].
  assert (Hd : ("", want.2) ∈ dom a) by by apply elem_of_dom. unfold ports_of. rewrite dom_insert_L, dom_delete_L. split.
  - intros (k & Hk & <-). destruct (decide (k = want)) as [->|]; [by eexists|]. exists k. set_solver.
  - intros (k & Hk & <-). destruct (decide (k = ("", want.2))) as [->|]; [exists want; set_solver|exists k; set_solver].
Qed.

Lemma rename_step_inv a h want : Inv a h → Inv (rename_step a want) h.
Proof.
  intros HI. pose proof (rename_step_ports a want) as Hp. destruct HI as [Ho H1 Ht Ha Hf]. split; [| |intros p; rewrite Hp; apply Ht|done|done].
  - unfold rename_step in *. destruct (a !! ("", want.2)) as [e|] eqn:E; [|done]. case_bool_decide as Hs; [done|].
    intros k e' Hk. apply lookup_insert_Some in Hk as [[<- <-]|[_ Hk]]; [apply (Ho _ _ E)|]. apply lookup_delete_Some in Hk as [_ Hk]. by apply Ho.
  - unfold rename_step in *. destruct (a !! ("", want.2)) as [e|] eqn:E; [|done]. case_bool_decide as Hs; [done|].
    assert (Hd : ("", want.2) ∈ dom a) by by apply elem_of_dom.
    assert (Hn : ∀ k, k ∈ dom a → k.2 = want.2 → k = ("", want.2)) by (intros k Hk Hkp; apply H1; done).
    intros k k'. rewrite dom_insert_L, dom_delete_L, !elem_of_union, !elem_of_singleton, !elem_of_difference, !elem_of_singleton.
    intros [-> | [Hk Hk']] [-> | [Hj Hj']] He; [done| | |by apply H1].
    + by destruct Hj'; apply Hn.
    + by destruct Hk'; apply Hn.
Qed.

Lemma rename_fold a h ks :
  Inv a h → Inv (foldl rename_step a ks) h ∧ ∀ p, ports_of (dom (foldl rename_step a ks)) p ↔ ports_of (dom a) p.
Proof.
  revert a. induction ks as [|k ks IH]; intros a HI; simpl; [done|].
  destruct (IH (rename_step a k) (rename_step_inv _ _ _ HI)) as [HI' Hp]. split; [done|]. intros p. by rewrite Hp, rename_step_ports.
Qed.

(** *** Cancelling *)

Lemma delete_inv a h h' k :
  Inv a h → k ∈ dom a → k.2 ∉ held h' → h_foreign h' = h_foreign h →
  h_local h' = h_local h ∖ {[k.2]} → h_master h' = h_master h ∖ {[k.2]} → Inv (delete k a) h'.
Proof.
  intros [Ho H1 Ht Ha Hf] Hk Hp Ef El Em. split.
  - intros k' e' Hk'. apply lookup_delete_Some in Hk' as [Hne Hk']. specialize (Ho _ _ Hk'). assert (k'.2 ≠ k.2).
    { intros E. destruct Hne. symmetry. apply H1; [by apply elem_of_dom|done|done]. }
    unfold owns in *. destruct (ae_local e'); set_solver.
  - intros k1 k2. rewrite dom_delete_L. intros ? ? ?. apply H1; set_solver.
  - intros p Hpl. rewrite El in Hpl. destruct (Ht p) as (k' & Hk' & E); [set_solver|]. exists k'. split; [|done]. rewrite dom_delete_L. set_solver.
  - rewrite El, Em. set_solver.
  - unfold held in *. rewrite Ef, El, Em. set_solver.
Qed.

Lemma cancelEntry_spec f a h k e :
  f_cancel f = ∅ → Inv a h → a !! k = Some e →
  ∃ h', cancelEntry f h k e = (h', true) ∧ k.2 ∉ held h' ∧ h_foreign h' = h_foreign h ∧
    h_local h' = h_local h ∖ {[k.2]} ∧ h_master h' = h_master h ∖ {[k.2]}.
Proof.
  intros Hf [Ho H1 Ht Ha Hfo] Hk. specialize (Ho _ _ Hk). unfold owns, cancelEntry, lf_Close, fw_Cancel in *.
  destruct (ae_local e) eqn:El.
  - destruct Ho as [-> Hp]. rewrite bool_decide_eq_true_2 by done. simpl. rewrite bool_decide_eq_true_2 by (rewrite Hf; set_solver). eexists. split; [done|]. unfold held; simpl. set_solver.
  - destruct Ho as (Hn & _ & Hp). rewrite andb_false_r. rewrite bool_decide_eq_false_2 by (rewrite Hf; set_solver).
    eexists. split; [done|]. unfold held; simpl. set_solver.
Qed.

Definition pass_ok (ps : Z → Prop) (m : Manager) (h0 : Host) (mh : Manager * Host) : Prop :=
  Inv (applied mh.1) mh.2 ∧ accounted ps (applied mh.1) mh.2 ∧ dom (applied mh.1) ⊆ dom (applied m) ∧
  h_foreign mh.2 = h_foreign h0 ∧ persistPath mh.1 = persistPath m.

Lemma cancel_step_ok f ds ps m h0 mh k : f_cancel f = ∅ → pass_ok ps m h0 mh → pass_ok ps m h0 (cancel_step f ds mh k).
Proof.
  intros Hf. destruct mh as [m' h]. intros (HI & Hacc & Hd & Hfo & Hpp). simpl in *.
  destruct (applied m' !! k) as [e|] eqn:Hk; [|done]. case_bool_decide as Hds; [done|].
  destruct (cancelEntry_spec f _ _ _ _ Hf HI Hk) as (h' & -> & Hp & Ef & El & Em). simpl.
  assert (Hkd : k ∈ dom (applied m')) by by apply elem_of_dom.
  split; [by eapply delete_inv|]. split; [|split; [simpl; rewrite dom_delete_L; set_solver|simpl; by rewrite Ef]].
  intros p Hps. destruct (Hacc p Hps) as [(k' & Hk' & <-)|Hn].
  - simpl. destruct (decide (k' = k)) as [->|]; [by right|]. left. exists k'. rewrite dom_delete_L. set_solver.
  - right. simpl. unfold held in *. rewrite El, Em. set_solver.
Qed.

Lemma cancel_step_dom f ds mh k : dom (applied (cancel_step f ds mh k).1) ⊆ dom (applied mh.1).
Proof.
  destruct mh as [m h]. simpl. destruct (applied m !! k); [|done]. case_bool_decide; [done|]. destruct (cancelEntry f h k a) as [h' []]; [|done].
  simpl. rewrite dom_delete_L. set_solver.
Qed.

Lemma cancel_fold f ds ps m h0 ks mh :
  f_cancel f = ∅ → pass_ok ps m h0 mh →
  pass_ok ps m h0 (foldl (cancel_step f ds) mh ks) ∧
  dom (applied (foldl (cancel_step f ds) mh ks).1) ⊆ dom (applied mh.1) ∧
  ∀ k, k ∈ ks → k ∈ dom (applied (foldl (cancel_step f ds) mh ks).1) → k ∈ ds.
Proof.
  intros Hf. revert mh. induction ks as [|k ks IH]; intros mh Hok; simpl; [split; [done|]; split; [done|]; set_solver|].
  destruct (IH (cancel_step f ds mh k) (cancel_step_ok _ _ _ _ _ _ _ Hf Hok)) as (Hok' & Hsub & Hall).
  split; [done|]. split; [etrans; [done|apply cancel_step_dom]|]. intros k' Hk' Hd. apply elem_of_cons in Hk' as [-> | Hk']; [|by apply Hall].
  apply Hsub in Hd. clear Hall Hsub Hok' IH. destruct mh as [m' h]. destruct Hok as (HI & _). simpl in *.
  destruct (applied m' !! k) as [e|] eqn:Hk; [|apply elem_of_dom in Hd as [x Hx]; simpl in Hx; congruence].
  case_bool_decide as Hds; [done|]. destruct (cancelEntry_spec f _ _ _ _ Hf HI Hk) as (h' & E & _). rewrite E in Hd. simpl in Hd.
  rewrite dom_delete_L in Hd. set_solver.
Qed.

Lemma cancel_fold_master f ds ks mh : h_master (foldl (cancel_step f ds) mh ks).2 ⊆ h_master mh.2.
Proof.
  revert mh. induction ks as [|k ks IH]; intros mh; simpl; [done|]. etrans; [apply IH|]. destruct mh as [m h]. simpl.
  destruct (applied m !! k) as [e|]; [|done]. case_bool_decide; [done|]. unfold cancelEntry, fw_Cancel, lf_Close.
  destruct (_ && _); simpl; [by case_bool_decide|]. case_bool_decide; simpl; set_solver.
Qed.

(** *** Applying what is missing *)

(** No two sandboxes want one port. *)
Definition distinct_ports (ds : gset fwdKey) : Prop := ∀ k k', k ∈ ds → k' ∈ ds → k.2 = k'.2 → k = k'.

Lemma insert_inv a h h' k e :
  Inv a h → (∀ k', k' ∈ dom a → k'.2 ≠ k.2) → owns h' k.2 e → h_foreign h' = h_foreign h → k.2 ∉ h_foreign h →
  h_local h' ⊆ {[k.2]} ∪ h_local h → h_local h ⊆ h_local h' → h_master h' = h_master h → h_local h' ## h_master h' → Inv (<[k := e]> a) h'.
Proof.
  intros [Ho H1 Ht Ha Hf] Hk He Ef Hkf El El' Em Hap. split.
  - intros k' e'. rewrite lookup_insert_Some. intros [[<- <-]|[Hne Hk']]; [done|]. specialize (Ho _ _ Hk').
    unfold owns in *. rewrite Em. destruct (ae_local e'); [destruct Ho; split; [done|set_solver]|done].
  - intros k1 k2. rewrite dom_insert_L, !elem_of_union, !elem_of_singleton. intros [-> | Hx] [-> | Hy] E; [done| | |by apply H1].
    + destruct (Hk k2 Hy). done.
    + destruct (Hk k1 Hx). done.
  - intros p Hp. rewrite dom_insert_L. apply El, elem_of_union in Hp as [Hp|Hp].
    + exists k. set_solver.
    + destruct (Ht p Hp) as (k' & ? & ?). exists k'. set_solver.
  - done.
  - unfold held in *. rewrite Ef, Em. apply owns_held in He. set_solver.
Qed.

Definition loop_ok (ps : Z → Prop) (ds : gset fwdKey) (h0 : Host) (a : gmap fwdKey appliedEntry) (h : Host) : Prop :=
  Inv a h ∧ accounted ps a h ∧ dom a ⊆ ds ∧ h_foreign h = h_foreign h0.

Lemma fw_Present_inv f h p r : fw_Present f h p = Some r →
  match r with
  | PresenceOurs => p ∈ held h
  | PresenceForeign => p ∈ h_foreign h
  | PresenceAbsent => p ∉ held h ∧ p ∉ h_foreign h
  end.
Proof. unfold fw_Present, held. repeat case_bool_decide; intros [= <-]; done. Qed.

Lemma saveApplied_applied f m : applied (saveApplied f m) = applied m.
Proof. unfold saveApplied. destruct (persistPath m), (f_save f); done. Qed.

Lemma loop_ok_fresh ps ds h0 a h k :
  distinct_ports ds → loop_ok ps ds h0 a h → k ∈ ds → a !! k = None → ∀ k', k' ∈ dom a → k'.2 ≠ k.2.
Proof.
  intros Hdist (_ & _ & Hsub & _) Hds Hk k' Hk' E. apply not_elem_of_dom in Hk. apply Hk. rewrite <- (Hdist k' k); auto.
Qed.

(** Binding a free port. *)
Lemma loop_ok_bind f ps ds h0 a h k h' :
  distinct_ports ds → loop_ok ps ds h0 a h → k ∈ ds → a !! k = None → fw_Apply f h k.2 = Some h' →
  loop_ok ps ds h0 (<[k := mkEntry appliedKindLocal true]> a) h' ∧ h_master h' = h_master h.
Proof.
  intros Hdist Hok Hds Hk. pose proof (loop_ok_fresh _ _ _ _ _ _ Hdist Hok Hds Hk) as Hfresh. destruct Hok as (HI & Hacc & Hsub & Hfo).
  unfold fw_Apply. case_bool_decide as Hb; [done|]. intros [= <-]. split; [|done]. split; [|split; [|split; [rewrite dom_insert_L; set_solver|done]]].
  - eapply insert_inv; [exact HI|exact Hfresh|by split; [|simpl; set_solver]|done|set_solver|simpl; set_solver|simpl; set_solver|done|].
    simpl. pose proof (inv_apart _ _ HI). set_solver.
  - intros p Hp. destruct (Hacc p Hp) as [(k' & Hk' & <-)|Hn]; [left; exists k'; rewrite dom_insert_L; set_solver|].
    destruct (decide (p = k.2)) as [->|]; [left; exists k; rewrite dom_insert_L; set_solver|]. right. unfold held in *. simpl. set_solver.
Qed.

(** Recording a forward the master already holds: no listener of this process is on the port. *)
Lemma loop_ok_adopt ps ds h0 a h k :
  distinct_ports ds → loop_ok ps ds h0 a h → k ∈ ds → a !! k = None → k.2 ∈ held h →
  loop_ok ps ds h0 (<[k := mkEntry appliedKindMaster false]> a) h.
Proof.
  intros Hdist Hok Hds Hk Hp. pose proof (loop_ok_fresh _ _ _ _ _ _ Hdist Hok Hds Hk) as Hfresh. destruct Hok as (HI & Hacc & Hsub & Hfo).
  assert (Hm : k.2 ∈ h_master h).
  { unfold held in Hp. apply elem_of_union in Hp as [Hl|]; [|done]. destruct (inv_tracked _ _ HI _ Hl) as (k' & Hk' & E). by destruct (Hfresh k'). }
  split; [|split; [|split; [rewrite dom_insert_L; set_solver|done]]].
  - eapply insert_inv; [exact HI|exact Hfresh|by repeat split|done| |set_solver|set_solver|done|apply (inv_apart _ _ HI)].
    pose proof (inv_foreign _ _ HI). set_solver.
  - intros p Hps. destruct (Hacc p Hps) as [(k' & Hk' & <-)|Hn]; [left; exists k'; rewrite dom_insert_L; set_solver|by right].
Qed.

(** What a run of the loop that started with [a] and [h] leaves. *)
Definition loop_post (f : Faults) (ps : Z → Prop) (ds : gset fwdKey) (h0 : Host) (a : gmap fwdKey appliedEntry) (h : Host)
    (desired : list Listener) (r : Manager * Host * bool) : Prop :=
  loop_ok ps ds h0 (applied r.1.1) r.1.2 ∧ dom a ⊆ dom (applied r.1.1) ∧ h_master r.1.2 = h_master h ∧
  (f_present f = ∅ → f_bind f = ∅ → r.2 = true ∧
     ∀ l, l ∈ desired → is_running l = true → key_of l ∈ dom (applied r.1.1) ∨ ls_Port l ∈ h_foreign h0).

Lemma loop_post_cons f ps ds h0 a h a1 h1 l desired r :
  dom a ⊆ dom a1 → h_master h1 = h_master h → (is_running l = true → key_of l ∈ dom a1 ∨ ls_Port l ∈ h_foreign h0) →
  loop_post f ps ds h0 a1 h1 desired r → loop_post f ps ds h0 a h (l :: desired) r.
Proof.
  intros Hsub Hm Hl (H1 & H2 & H3 & H4). split; [done|]. split; [set_solver|]. split; [congruence|]. intros Hp Hb.
  destruct (H4 Hp Hb) as [-> H5]. split; [done|]. intros l0 Hl0 Hr0. apply elem_of_cons in Hl0 as [-> | Hl0]; [|by apply H5].
  destruct (Hl Hr0); [left; set_solver|by right].
Qed.

Lemma apply_loop_ok f ps ds h0 m h desired :
  distinct_ports ds → (∀ l, l ∈ desired → is_running l = true → key_of l ∈ ds) → loop_ok ps ds h0 (applied m) h →
  loop_post f ps ds h0 (applied m) h desired (apply_loop f m h desired).
Proof.
  intros Hdist. revert m h. induction desired as [|l desired IH]; intros m h Hin Hok; cbn [apply_loop].
  { split; simpl; rewrite saveApplied_applied; [done|]. repeat split; try done. set_solver. }
  assert (Hin' : ∀ l0, l0 ∈ desired → is_running l0 = true → key_of l0 ∈ ds) by (intros; apply Hin; [by right|done]).
  destruct (is_running l) eqn:Hr; cbn [negb]; [|by eapply loop_post_cons; [| | |apply IH]; [| |congruence| |]].
  assert (Hds : key_of l ∈ ds) by (apply Hin; [left|done]).
  destruct (applied m !! key_of l) as [e|] eqn:Hk.
  { eapply loop_post_cons; [| | |by apply IH]; [done|done|]. intros _. left. by apply elem_of_dom. }
  destruct (fw_Present f h (ls_Port l)) as [r|] eqn:Hpr.
  2:{ split; [done|]. split; [done|]. split; [done|]. intros Hp. unfold fw_Present in Hpr. rewrite Hp in Hpr. repeat case_bool_decide; set_solver. }
  pose proof (fw_Present_inv _ _ _ _ Hpr) as Hpp. destruct r.
  - destruct (fw_Apply f h (ls_Port l)) as [h1|] eqn:Hb.
    + destruct (loop_ok_bind f ps ds h0 _ _ _ h1 Hdist Hok Hds Hk Hb) as [Hok1 Hm].
      eapply loop_post_cons; [| | |by apply IH]; simpl; [rewrite dom_insert_L; set_solver|done|]. intros _. left. rewrite dom_insert_L. set_solver.
    + split; [done|]. split; [done|]. split; [done|]. intros _ Hbf. unfold fw_Apply, held in *. case_bool_decide; [set_solver|done].
  - pose proof (loop_ok_adopt _ _ _ _ _ _ Hdist Hok Hds Hk Hpp) as Hok1.
    eapply loop_post_cons; [| | |by apply IH]; simpl; [rewrite dom_insert_L; set_solver|done|]. intros _. left. rewrite dom_insert_L. set_solver.
  - eapply loop_post_cons; [| | |by apply IH]; [done|done|]. intros _. right. destruct Hok as (_ & _ & _ & <-). done.
Qed.

(** ** Reconcile *)

Section reconcile.
Context (ord : list fwdKey → list fwdKey) (Hord : ∀ l, ord l ≡ₚ l).

Lemma cancel_loop_ok f ds ps m h :
  f_cancel f = ∅ → Inv (applied m) h → (∀ p, ps p ↔ ports_of (dom (applied m)) p) →
  let r := cancel_loop ord f ds m h in loop_ok ps ds h (applied r.1) r.2.
Proof.
  intros Hf HI Hps r. assert (H0 : pass_ok ps m h (m, h)).
  { split; [done|]. split; [|done]. intros p Hp. left. by apply Hps. }
  destruct (cancel_fold f ds ps m h (ord (elements (dom (applied m)))) (m, h) Hf H0) as ((HI' & Hacc & _ & Hfo & _) & Hsub & Hall).
  split; [done|]. split; [done|]. split; [|done]. intros k Hk. apply Hall; [|done]. rewrite Hord. apply elem_of_elements. by apply Hsub.
Qed.

Lemma reconcile_ok f m h desired :
  f_cancel f = ∅ → Inv (applied m) h → distinct_ports (desiredSet desired) →
  ∃ a h1, h_master h1 ⊆ h_master h ∧
    loop_post f (ports_of (dom (applied m))) (desiredSet desired) h a h1 desired (Reconcile ord f m h desired).
Proof.
  intros Hf HI Hdist. unfold Reconcile. set (ds := desiredSet desired) in *.
  destruct (rename_fold _ _ (ord (elements ds)) HI) as [HI' Hp]. fold (rename_loop ord ds (applied m)) in HI', Hp.
  set (m1 := set_applied m (rename_loop ord ds (applied m))) in *.
  pose proof (cancel_loop_ok f ds (ports_of (dom (applied m))) m1 h Hf HI' ltac:(intros p; symmetry; apply (Hp p))) as Hc.
  pose proof (cancel_fold_master f ds (ord (elements (dom (applied m1)))) (m1, h)) as Hm. fold (cancel_loop ord f ds m1 h) in Hm.
  destruct (cancel_loop ord f ds m1 h) as [m2 h2]. cbn [fst snd] in Hc, Hm. exists (applied (saveApplied f m2)), h2. split; [done|].
  apply apply_loop_ok; [done|intros l Hl Hr; apply desiredSet_elem; eauto|by rewrite saveApplied_applied].
Qed.

(** A pass over a set that is as it should be changes nothing. *)
Lemma rename_noop ds a : distinct_ports ds → dom a ⊆ ds → rename_loop ord ds a = a.
Proof.
  intros Hdist Hsub. unfold rename_loop. assert (Hks : Forall (λ k, k ∈ ds) (ord (elements ds))).
  { apply Forall_forall. intros k Hk. rewrite Hord in Hk. by apply elem_of_elements. }
  induction Hks as [|k ks Hk _ IH]; [done|]. simpl. assert (E : rename_step a k = a); [|by rewrite E].
  unfold rename_step. destruct (a !! ("", k.2)) as [e|] eqn:Ea; [|done]. rewrite bool_decide_eq_true_2; [done|].
  rewrite <- (Hdist ("", k.2) k); [done| |done|done]. apply Hsub. by apply elem_of_dom.
Qed.

Lemma cancel_noop f ds m h : dom (applied m) ⊆ ds → cancel_loop ord f ds m h = (m, h).
Proof.
  intros Hsub. unfold cancel_loop. generalize (ord (elements (dom (applied m)))). intros ks. induction ks as [|k ks IH]; [done|]. simpl.
  destruct (applied m !! k) as [e|] eqn:Hk; [|done]. rewrite bool_decide_eq_true_2; [done|]. apply Hsub. by apply elem_of_dom.
Qed.

End reconcile.

Lemma apply_noop f m h desired :
  f_present f = ∅ → (∀ l, l ∈ desired → is_running l = true → key_of l ∈ dom (applied m) ∨ ls_Port l ∈ h_foreign h) → h_foreign h ## held h →
  apply_loop f m h desired = (saveApplied f m, h, true).
Proof.
  intros Hp Hall Hap. induction desired as [|l desired IH]; [done|]. cbn [apply_loop].
  rewrite IH by (intros; apply Hall; [by right|done]). destruct (is_running l) eqn:Hr; [|done]. cbn [negb].
  destruct (applied m !! key_of l) eqn:Hk; [done|]. destruct (Hall l ltac:(left) Hr) as [Hd|Hfo]; [by apply not_elem_of_dom in Hk|].
  unfold fw_Present. rewrite bool_decide_eq_false_2 by (rewrite Hp; set_solver). rewrite bool_decide_eq_false_2 by (unfold held in Hap; set_solver).
  by rewrite bool_decide_eq_true_2.
Qed.

Lemma saveApplied_idem f m : f_save f = false → saveApplied f (saveApplied f m) = saveApplied f m.
Proof. unfold saveApplied. intros Hf. rewrite Hf. destruct (persistPath m) eqn:E; simpl; [|by rewrite E]. done. Qed.

Lemma apply_loop_saved f m h desired : let r := apply_loop f m h desired in r.2 = true → f_save f = false → saveApplied f r.1.1 = r.1.1.
Proof.
  revert m h. induction desired as [|l desired IH]; intros m h; cbn [apply_loop].
  { simpl. intros _ Hf. by apply saveApplied_idem. }
  destruct (negb (is_running l)); [apply IH|]. destruct (applied m !! key_of l); [apply IH|].
  destruct (fw_Present f h (ls_Port l)) as [[]|]; [|apply IH|apply IH|done]. destruct (fw_Apply f h (ls_Port l)); [apply IH|done].
Qed.

(** C16: One pass settles the forwards.  If no two sandboxes want one port and the master cancels what it holds, then whatever
    else fails the applied set stays consistent with the host, nothing undesired is applied and every forward that was
    applied and is no longer wanted is released; if nothing fails, every wanted port is forwarded unless another process
    has it, and the next pass, in any iteration order, changes nothing. *)
Theorem reconcile_converges ord ord' f m h desired :
  (∀ l, ord l ≡ₚ l) → (∀ l, ord' l ≡ₚ l) → f_cancel f = ∅ → Inv (applied m) h → distinct_ports (desiredSet desired) →
  let '(m', h', ok) := Reconcile ord f m h desired in
  Inv (applied m') h' ∧ dom (applied m') ⊆ desiredSet desired ∧ (∀ k, k ∈ dom (applied m') → k.2 ∈ held h') ∧
  (∀ k, k ∈ dom (applied m) → ¬ ports_of (desiredSet desired) k.2 → k.2 ∉ held h') ∧
  (f_present f = ∅ → f_bind f = ∅ → f_save f = false →
     ok = true ∧ (∀ k, k ∈ desiredSet desired → k.2 ∉ h_foreign h → k ∈ dom (applied m')) ∧
     Reconcile ord' f m' h' desired = (m', h', true)).
Proof.
  intros Hord Hord' Hf HI Hdist. destruct (reconcile_ok ord Hord f m h desired Hf HI Hdist) as (a & h1 & _ & Hpost).
  assert (Hs : let r := Reconcile ord f m h desired in r.2 = true → f_save f = false → saveApplied f r.1.1 = r.1.1).
  { unfold Reconcile. destruct (cancel_loop _ _ _ _ _) as [m2 h2]. apply apply_loop_saved. }
  destruct (Reconcile ord f m h desired) as [[m' h'] ok]. destruct Hpost as ((HI' & Hacc & Hsub & Hfo) & _ & _ & Hdone). cbn [fst snd] in *.
  split; [done|]. split; [done|]. split; [|split].
  - intros k [e Hk]%elem_of_dom. eapply owns_held, inv_owns; eauto.
  - intros k Hk Hn. destruct (Hacc k.2) as [(k' & Hk' & E)|]; [by exists k| |done]. destruct Hn. exists k'. split; [by apply Hsub|done].
  - intros Hp Hb Hsv. destruct (Hdone Hp Hb) as [-> Hall]. split; [done|]. split.
    + intros k (l & Hl & Hr & <-)%desiredSet_elem Hn. destruct (Hall l Hl Hr); [done|]. by destruct Hn.
    + unfold Reconcile. rewrite (rename_noop ord' Hord') by done. replace (set_applied m' (applied m')) with m' by by destruct m'.
      rewrite (cancel_noop ord') by done. rewrite Hs by done. rewrite apply_noop; [by rewrite Hs|done| |apply (inv_foreign _ _ HI')].
      intros l Hl Hr. rewrite Hfo. by apply Hall.
Qed.

(** ** Restart *)

Definition good_entry (e : appliedEntry) : Prop :=
  if ae_local e then ae_kind e = appliedKindLocal else ae_kind e ≠ appliedKindLocal ∧ ae_kind e ≠ "".

Lemma load_saved l a0 k e :
  NoDup l.*1 → (∀ k, k ∈ l.*1 → a0 !! k = None) → Forall (λ ke, good_entry ke.2) l →
  foldl load_step a0 ((λ ke : fwdKey * appliedEntry, mkPersisted ke.1.1 ke.1.2 (ae_kind ke.2)) <$> l) !! k = Some e ↔
    (k, e) ∈ l ∧ ae_local e = false ∨ a0 !! k = Some e.
Proof.
  revert a0. induction l as [|[k0 e0] l IH]; intros a0 Hnd Hfr Hg; cbn [fmap list_fmap foldl] in *.
  { rewrite elem_of_nil. tauto. }
  apply NoDup_cons in Hnd as [Hk0 Hnd]. apply Forall_cons in Hg as [Hg0 Hg]. unfold good_entry in Hg0. cbn [fst snd] in *.
  unfold load_step at 2. cbn [pe_Kind pe_SandboxID pe_Port fst snd]. rewrite elem_of_cons. destruct (ae_local e0) eqn:El.
  - rewrite Hg0. rewrite (bool_decide_eq_false_2 (appliedKindLocal = "")) by done. rewrite bool_decide_eq_true_2 by done.
    rewrite IH by (done || intros; apply Hfr; by right). split; [tauto|]. intros [[[[= -> ->]|?] ?]|?]; [congruence|tauto|tauto].
  - destruct Hg0 as [Hn1 Hn2]. rewrite (bool_decide_eq_false_2 (ae_kind e0 = "")) by done. rewrite (bool_decide_eq_false_2 (ae_kind e0 = _)) by done.
    assert (Ee : mkEntry (ae_kind e0) false = e0) by (destruct e0; simpl in *; congruence). rewrite Ee, <- surjective_pairing.
    rewrite IH; [|done| |done].
    + rewrite lookup_insert_Some. split; [intros [[? ?]|[[-> ->]|[? ?]]]; tauto|].
      intros [[[[= -> ->]|?] ?]|Ha]; [tauto|tauto|]. right. right. split; [|done]. intros ->. rewrite (Hfr k) in Ha by (left). done.
    + intros k' Hk'. rewrite lookup_insert_ne by (intros ->; done). apply Hfr. by right.
Qed.

Lemma owns_good h p e : owns h p e → good_entry e.
Proof. unfold owns, good_entry. destruct (ae_local e); tauto. Qed.

(** What the next process reads is the entries the master holds. *)
Lemma load_persisted a h k e :
  Inv a h → applied (NewManager true (Some (persisted_of a))) !! k = Some e ↔ a !! k = Some e ∧ ae_local e = false.
Proof.
  intros HI. unfold NewManager, loadApplied, persisted_of. cbn [m_file applied set_applied]. rewrite load_saved.
  - rewrite elem_of_map_to_list, lookup_empty. naive_solver.
  - apply NoDup_fst_map_to_list.
  - intros. apply lookup_empty.
  - apply Forall_forall. intros [k' e'] Hin. apply elem_of_map_to_list in Hin. eapply owns_good, inv_owns; eauto.
Qed.

Lemma hasPort_spec a p : hasPort a p = true ↔ ports_of (dom a) p.
Proof.
  unfold hasPort, ports_of. rewrite existsb_exists. split.
  - intros ([k e] & Hin & E). apply list_elem_of_In, elem_of_map_to_list in Hin. exists k. split; [by apply elem_of_dom|]. by apply Z.eqb_eq in E.
  - intros (k & [e Hk]%elem_of_dom & <-). exists (k, e). split; [by apply list_elem_of_In, elem_of_map_to_list|by apply Z.eqb_refl].
Qed.

Lemma adopt_step_inv a h p : Inv a h → p ∈ h_master h → Inv (adopt_step a p) h ∧ ports_of (dom (adopt_step a p)) p ∧ dom a ⊆ dom (adopt_step a p).
Proof.
  intros HI Hp. unfold adopt_step. destruct (hasPort a p) eqn:Ep; [split; [done|]; split; [by apply hasPort_spec|done]|].
  rewrite dom_insert_L. split; [|split; [exists ("", p); set_solver|set_solver]].
  eapply insert_inv; [exact HI| |by repeat split|done| |set_solver|set_solver|done|apply (inv_apart _ _ HI)].
  - intros k Hk E. assert (Ht : hasPort a p = true) by (apply hasPort_spec; by exists k). congruence.
  - pose proof (inv_foreign _ _ HI). unfold held in *. simpl. set_solver.
Qed.

Lemma adopt_fold a h ps :
  Inv a h → (∀ p, p ∈ ps → p ∈ h_master h) →
  Inv (foldl adopt_step a ps) h ∧ (∀ p, p ∈ ps → ports_of (dom (foldl adopt_step a ps)) p) ∧ dom a ⊆ dom (foldl adopt_step a ps).
Proof.
  revert a. induction ps as [|p ps IH]; intros a HI Hps; cbn [foldl]; [split; [done|]; split; [set_solver|done]|].
  destruct (adopt_step_inv a h p HI) as (HI1 & Hp1 & Hd1); [apply Hps; left|].
  destruct (IH _ HI1) as (HI2 & Hp2 & Hd2); [intros; apply Hps; by right|]. split; [done|]. split; [|set_solver].
  intros q [-> | Hq]%elem_of_cons; [|by apply Hp2]. destruct Hp1 as (k & ? & ?). exists k. split; [by apply Hd2|done].
Qed.

Lemma AdoptMasterForwards_applied f ps m : applied (AdoptMasterForwards f (Some ps) m).1 = foldl adopt_step (applied m) ps.
Proof.
  unfold AdoptMasterForwards. destruct (Nat.eqb_spec (size (foldl adopt_step (applied m) ps)) (size (applied m))) as [E|E]; cbn [negb fst].
  - assert (Hsub : applied m ⊆ foldl adopt_step (applied m) ps).
    { clear E. generalize (applied m). induction ps as [|p ps IH]; intros a; simpl; [done|]. etrans; [|apply IH]. unfold adopt_step.
      destruct (hasPort a p) eqn:Ep; [done|]. apply insert_subseteq. apply not_elem_of_dom. intros Hd.
      assert (Ht : hasPort a p = true) by (apply hasPort_spec; by exists ("", p)). congruence. }
    apply map_subseteq_size_eq; [done|lia].
  - by rewrite saveApplied_applied.
Qed.

(** The process is gone and its listeners with it; the master keeps running. *)
Definition process_gone (h : Host) : Host := mkHost ∅ (h_master h) (h_foreign h).

Definition restarted (f : Faults) (ports : list Z) (m : Manager) : Manager := (AdoptMasterForwards f (Some ports) (NewManager true (m_file m))).1.

Lemma restart_inv f ports m h :
  Inv (applied m) h → m_file m = Some (persisted_of (applied m)) → (∀ p, p ∈ ports ↔ p ∈ h_master h) →
  Inv (applied (restarted f ports m)) (process_gone h) ∧ ∀ p, p ∈ h_master h → ports_of (dom (applied (restarted f ports m))) p.
Proof.
  intros HI Hfile Hports. unfold restarted. rewrite AdoptMasterForwards_applied, Hfile.
  assert (H0 : Inv (applied (NewManager true (Some (persisted_of (applied m))))) (process_gone h)).
  { split.
    - intros k e Hk. apply (load_persisted _ h) in Hk as [Hk El]; [|done]. pose proof (inv_owns _ _ HI _ _ Hk) as Ho. unfold owns in *. by rewrite El in *.
    - intros k k' [e Hk]%elem_of_dom [e' Hk']%elem_of_dom E. apply (load_persisted _ h) in Hk as [Hk _]; [|done]. apply (load_persisted _ h) in Hk' as [Hk' _]; [|done].
      apply (inv_one _ _ HI); [by apply elem_of_dom|by apply elem_of_dom|done].
    - intros p Hp. by apply elem_of_empty in Hp.
    - simpl. set_solver.
    - pose proof (inv_foreign _ _ HI). unfold held in *. simpl. set_solver. }
  destruct (adopt_fold _ _ ports H0) as (H1 & H2 & _); [intros p Hp; by apply Hports|]. split; [done|]. intros p Hp. by apply H2, Hports.
Qed.

(** A restarted client takes over where the last one left off: it adopts every forward the control master still holds, and
    after its first pass the ports forwarded on this host are the ones the sandboxes want, less those another process has. *)
Lemma restart_reconciles ord ports m h desired :
  (∀ l, ord l ≡ₚ l) → Inv (applied m) h → m_file m = Some (persisted_of (applied m)) → (∀ p, p ∈ ports ↔ p ∈ h_master h) →
  distinct_ports (desiredSet desired) →
  let '(m', h', ok) := Reconcile ord no_faults (restarted no_faults ports m) (process_gone h) desired in
  ok = true ∧ Inv (applied m') h' ∧ ∀ p, p ∈ held h' ↔ ports_of (desiredSet desired) p ∧ p ∉ h_foreign h.
Proof.
  intros Hord HI Hfile Hports Hdist. destruct (restart_inv no_faults ports m h HI Hfile Hports) as [HI1 Hall1].
  destruct (reconcile_ok ord Hord no_faults _ _ desired eq_refl HI1 Hdist) as (a & h1 & Hmas & Hpost).
  destruct (Reconcile _ _ _ _ _) as [[m' h'] ok]. destruct Hpost as ((HI' & Hacc & Hsub & Hfo) & _ & Hm & Hdone). cbn [fst snd] in *.
  destruct (Hdone eq_refl eq_refl) as [-> Hall]. split; [done|]. split; [done|]. intros p. split.
  - intros Hp. assert (Hpo : ports_of (dom (applied m')) p).
    { pose proof Hp as Hp'. unfold held in Hp'. apply elem_of_union in Hp' as [Hl|Hl]; [by apply (inv_tracked _ _ HI')|].
      destruct (Hacc p) as [|Hn]; [|done|done]. apply Hall1. rewrite Hm in Hl. by apply Hmas. }
    split; [destruct Hpo as (k & ? & ?); exists k; split; [by apply Hsub|done]|]. pose proof (inv_foreign _ _ HI') as Hd. rewrite Hfo in Hd. simpl in Hd. set_solver.
  - intros [(k & (l & Hl & Hr & <-)%desiredSet_elem & <-) Hn]. destruct (Hall l Hl Hr) as [[e He]%elem_of_dom|]; [|done].
    eapply owns_held, inv_owns; eauto.
Qed.

(** A pass that succeeds leaves the file as the restart needs it. *)
Lemma reconcile_saves ord f m h desired :
  persistPath m = true → f_save f = false →
  let '(m', _, ok) := Reconcile ord f m h desired in ok = true → m_file m' = Some (persisted_of (applied m')).
Proof.
  intros Hpp Hs. assert (Hsave : ∀ m', persistPath m' = true → m_file (saveApplied f m') = Some (persisted_of (applied (saveApplied f m')))).
  { intros m' E. unfold saveApplied. by rewrite E, Hs. }
  assert (Hloop : ∀ m h, persistPath m = true → let r := apply_loop f m h desired in r.2 = true → m_file r.1.1 = Some (persisted_of (applied r.1.1))).
  { induction desired as [|l desired IH]; intros m1 h1 E; cbn [apply_loop]; [intros _; by apply Hsave|].
    destruct (negb (is_running l)); [by apply IH|]. destruct (applied m1 !! key_of l); [by apply IH|].
    destruct (fw_Present f h1 (ls_Port l)) as [[]|]; [|by apply IH|by apply IH|done]. destruct (fw_Apply f h1 (ls_Port l)); [by apply IH|done]. }
  assert (Hfold : ∀ ds ks mh, persistPath (foldl (cancel_step f ds) mh ks).1 = persistPath mh.1).
  { intros ds ks. induction ks as [|k ks IH]; intros [m1 h1]; simpl; [done|]. rewrite IH. simpl. destruct (applied m1 !! k) as [e|]; [|done].
    case_bool_decide; [done|]. by destruct (cancelEntry f h1 k e) as [h' []]. }
  unfold Reconcile. set (m1 := set_applied m _). destruct (cancel_loop ord f (desiredSet desired) m1 h) as [m2 h2] eqn:E.
  assert (Hp2 : persistPath m2 = true) by (pose proof (Hfold (desiredSet desired) (ord (elements (dom (applied m1)))) (m1, h)) as Hx; unfold cancel_loop in E; rewrite E in Hx; cbn [fst] in Hx; by rewrite Hx).
  specialize (Hloop (saveApplied f m2) h2). destruct (apply_loop _ _ _ _) as [[m' h'] ok]. apply Hloop. unfold saveApplied. by rewrite Hp2, Hs.
Qed.

(** ** Teardown *)

Lemma teardown_loop_ok f id m h ks :
  f_cancel f = ∅ → Inv (applied m) h →
  let '(m', h', ok) := teardown_loop f id m h ks in
  ok = true ∧ Inv (applied m') h' ∧ dom (applied m') ⊆ dom (applied m) ∧ (∀ k, k ∈ ks → k.1 = id → k ∉ dom (applied m')) ∧
  held h' ⊆ held h ∧ (∀ k, k ∈ ks → k ∈ dom (applied m) → k.1 = id → k.2 ∉ held h').
Proof.
  intros Hf. revert m h. induction ks as [|k ks IH]; intros m h HI; cbn [teardown_loop].
  { rewrite saveApplied_applied. repeat split; try done; try apply HI; set_solver. }
  destruct (applied m !! k) as [e|] eqn:Hk.
  2:{ specialize (IH m h HI). destruct (teardown_loop f id m h ks) as [[m' h'] ok]. destruct IH as (H1 & H2 & H3 & H4 & H5 & H6).
      apply not_elem_of_dom in Hk. repeat (split; [done|]). split; [|split; [done|]].
      - intros k' [-> | Hk']%elem_of_cons E; [set_solver|by apply H4].
      - intros k' [-> | Hk']%elem_of_cons Hd E; [done|by apply H6]. }
  case_bool_decide as Hid; cbn [negb].
  - destruct (cancelEntry_spec f _ _ _ _ Hf HI Hk) as (h1 & -> & Hp & Ef & El & Em).
    assert (Hkd : k ∈ dom (applied m)) by by apply elem_of_dom.
    assert (HI1 : Inv (applied (set_applied m (delete k (applied m)))) h1) by by eapply delete_inv.
    specialize (IH _ _ HI1). destruct (teardown_loop _ _ _ _ ks) as [[m' h'] ok]. destruct IH as (H1 & H2 & H3 & H4 & H5 & H6).
    cbn [applied set_applied] in *. rewrite dom_delete_L in H3, H6. repeat (split; [done|]). split; [set_solver|]. split; [|split].
    + intros k' [-> | Hk']%elem_of_cons E; [set_solver|by apply H4].
    + unfold held in *. rewrite El, Em in H5. set_solver.
    + intros k' Hk' Hd E. destruct (decide (k' = k)) as [->|]; [set_solver|]. apply H6; set_solver.
  - specialize (IH m h HI). destruct (teardown_loop f id m h ks) as [[m' h'] ok]. destruct IH as (H1 & H2 & H3 & H4 & H5 & H6).
    repeat (split; [done|]). split; [|split; [done|]].
    + intros k' [-> | Hk']%elem_of_cons E; [done|by apply H4].
    + intros k' [-> | Hk']%elem_of_cons Hd E; [done|by apply H6].
Qed.

(** Tearing a sandbox down releases all its forwards and keeps the rest consistent. *)
Lemma TeardownSandbox_releases ord f m h ref :
  (∀ l, ord l ≡ₚ l) → f_cancel f = ∅ → Inv (applied m) h →
  let '(m', h', ok) := TeardownSandbox ord f m h ref in
  ok = true ∧ Inv (applied m') h' ∧ (∀ k, k ∈ dom (applied m') → k.1 ≠ sr_ID ref) ∧
  (∀ k, k ∈ dom (applied m) → k.1 = sr_ID ref → k.2 ∉ held h').
Proof.
  intros Hord Hf HI. unfold TeardownSandbox. pose proof (teardown_loop_ok f (sr_ID ref) m h (ord (elements (dom (applied m)))) Hf HI) as H.
  assert (Hall : ∀ k, k ∈ dom (applied m) → k ∈ ord (elements (dom (applied m)))) by (intros k Hk; rewrite Hord; by apply elem_of_elements).
  destruct (teardown_loop _ _ _ _ _) as [[m' h'] ok]. destruct H as (H1 & H2 & H3 & H4 & _ & H6). split; [done|]. split; [done|]. split.
  - intros k Hk E. by apply (H4 k); [apply Hall, H3| |].
  - intros k Hk E. apply H6; auto.
Qed.

(** ** What the hypotheses exclude *)

Definition listener (id : string) (p : Z) : Listener := mkListener p "127.0.0.1" (mkSandboxRef id id SandboxStatusRunning).
Definition empty_manager : Manager := NewManager true None.
Definition state_of {A B C} (r : A * B * C) : A * B := r.1.

(** Two managers in one process, for two machines that both forward port 3000: the second takes the first's listener for a
    forward of its control master.  When the first lets go the port is dead, the second never binds it, and its entry can
    never be cancelled. *)
Lemma second_machine_loses_port :
  let '(ma, h1) := state_of (Reconcile id no_faults empty_manager (mkHost ∅ ∅ ∅) [listener "a" 3000]) in
  let '(mb, h2) := state_of (Reconcile id no_faults empty_manager h1 [listener "b" 3000]) in
  let '(ma, h3) := state_of (Reconcile id no_faults ma h2 []) in
  let '(mb', h4) := state_of (Reconcile id no_faults mb h3 [listener "b" 3000]) in
  let '(mb2, h5) := state_of (Reconcile id no_faults mb' h4 []) in
  held h2 = {[3000]} ∧ mb' = mb ∧ held h4 = ∅ ∧ applied mb2 = applied mb ∧ ("b", 3000) ∈ dom (applied mb2).
Proof. vm_compute. repeat split; try done. Qed.

(** A forward adopted from a control master that has since been restarted is never put back. *)
Lemma restarted_master_loses_forward :
  let m := NewManager true (Some [mkPersisted "a" 3000 "master"]) in
  let '(m', h') := state_of (Reconcile id no_faults m (mkHost ∅ ∅ ∅) [listener "a" 3000]) in
  applied m' = applied m ∧ held h' = ∅.
Proof. vm_compute. done. Qed.

(** ** Witnesses *)

Definition w_manager : Manager := mkManager {[("", 3000) := mkEntry "master" false; ("a", 4000) := mkEntry "local" true]} ∅ true
  (Some (persisted_of {[("", 3000) := mkEntry "master" false; ("a", 4000) := mkEntry "local" true]})).
Definition w_host : Host := mkHost {[4000]} {[3000; 3500]} {[22; 5000]}.
Definition w_desired : list Listener := [listener "b" 3000; listener "b" 5000; listener "b" 6000].

Lemma w_inv : Inv (applied w_manager) w_host.
Proof.
  split.
  - intros k e. cbn [applied w_manager]. rewrite lookup_insert_Some, lookup_singleton_Some. unfold owns, w_host; simpl.
    intros [[<- <-]|[_ [<- <-]]]; simpl; repeat split; try done; set_solver.
  - intros k k'. cbn [applied w_manager]. rewrite dom_insert_L, dom_singleton_L. intros Hk Hk' E.
    assert (k = ("", 3000) ∨ k = ("a", 4000)) as [-> | ->] by set_solver; assert (k' = ("", 3000) ∨ k' = ("a", 4000)) as [-> | ->] by set_solver; done.
  - intros p. simpl. rewrite elem_of_singleton. intros ->. exists ("a", 4000). split; [|done]. simpl. rewrite dom_insert_L, dom_singleton_L. set_solver.
  - apply (bool_decide_unpack _). by vm_compute.
  - apply (bool_decide_unpack _). by vm_compute.
Qed.

Lemma w_distinct : distinct_ports (desiredSet w_desired).
Proof.
  intros k k' (l & Hl & _ & <-)%desiredSet_elem (l' & Hl' & _ & <-)%desiredSet_elem. unfold w_desired in *.
  rewrite !elem_of_cons, elem_of_nil in Hl, Hl'. destruct Hl as [-> | [-> | [-> | []]]], Hl' as [-> | [-> | [-> | []]]]; intros E; done.
Qed.

Lemma reconcile_converges_witness :
  match Reconcile id no_faults w_manager w_host w_desired with
  | (m', h', ok) => ok = true ∧ ("b", 3000) ∈ dom (applied m') ∧ 4000 ∉ held h'
  end.
Proof.
  pose proof (reconcile_converges id (@rev _) no_faults w_manager w_host w_desired (λ l, reflexivity l)
    (λ l, Permutation_sym (Permutation_rev l)) eq_refl w_inv w_distinct) as H.
  destruct (Reconcile id no_faults w_manager w_host w_desired) as [[m' h'] ok]. destruct H as (_ & _ & _ & Hrel & Hdone).
  destruct (Hdone eq_refl eq_refl eq_refl) as (Hok & Hall & _). split; [exact Hok|]. split.
  - apply Hall; [apply (bool_decide_unpack _); vm_compute; exact I|apply (bool_decide_unpack _); vm_compute; exact I].
  - apply (Hrel ("a", 4000)).
    + apply (bool_decide_unpack _); vm_compute; exact I.
    + intros (k & (l & Hl & _ & <-)%desiredSet_elem & E). unfold w_desired in Hl. rewrite !elem_of_cons, elem_of_nil in Hl.
      destruct Hl as [-> | [-> | [-> | []]]]; discriminate E.
Defined.

Lemma restart_reconciles_witness :
  match Reconcile id no_faults (restarted no_faults [3000; 3500] w_manager) (process_gone w_host) w_desired with
  | (m', h', ok) => ok = true ∧ 6000 ∈ held h' ∧ 3500 ∉ held h'
  end.
Proof.
  pose proof (restart_reconciles id [3000; 3500] w_manager w_host w_desired (λ l, reflexivity l) w_inv eq_refl) as H.
  destruct (Reconcile id no_faults (restarted no_faults [3000; 3500] w_manager) (process_gone w_host) w_desired) as [[m' h'] ok].
  destruct H as (Hok & _ & Hheld); [intros p; unfold w_host; simpl; set_solver|exact w_distinct|]. split; [exact Hok|]. split.
  - apply Hheld. split; [exists ("b", 6000); split; [apply (bool_decide_unpack _); vm_compute; exact I|reflexivity]|apply (bool_decide_unpack _); vm_compute; exact I].
  - intros Hp. apply Hheld in Hp as [(k & (l & Hl & _ & <-)%desiredSet_elem & E) _]. unfold w_desired in Hl. rewrite !elem_of_cons, elem_of_nil in Hl.
    destruct Hl as [-> | [-> | [-> | []]]]; discriminate E.
Defined.
