(* ===== verification/PortState.v ===== *)
(** * Port forwarding between supervisor and client

    [core/portfwd/statefile.go]: each supervisor owns one file of forwards.d, forwards.state is their merge.
    [supervisor/portfwd.go]: the loop that binds the guest's listening ports on the host and writes that file.
    [clientagent/startup.go]: what a client makes of forwards.state and focus.state.  A time is its nanoseconds, the zero
    time 0; a file of forwards.d holds a state or, [None], text that is not one. *)

From stdpp Require Import prelude countable gmap strings list sorting.
From Stdlib Require Import ZArith Ascii Lia.
From S2P Require Import Prelude GoStrings GoIO Disks PortScan PortFwd.

(** ** statefile.go *)

Definition StaleAfter : Duration := 60 * 1000000000.

Record FwdEntry := mkFwdEntry { fe_Port : Z; fe_Sandbox : string; fe_Status : string; fe_ConfirmedAt : Time; fe_Error : string }.

#[global] Instance FwdEntry_eq_dec : EqDecision FwdEntry.
Proof. solve_decision. Defined.

Record FwdState := mkFwdState { fs_WrittenBy : string; fs_UpdatedAt : Time; fs_Forwards : list FwdEntry }.

Record FwdDir := mkFwdDir { fd_files : gmap string (option FwdState); fd_merged : option FwdState }.

Definition is_safe (c : ascii) : bool :=
  let n := Z.of_nat (nat_of_ascii c) in
  ((97 <=? n) && (n <=? 122)) || ((65 <=? n) && (n <=? 90)) || ((48 <=? n) && (n <=? 57)) || (n =? 45) || (n =? 95).

(** [strings.Map] on UTF-8 text: a rune outside the set becomes one underscore, so the continuation bytes of a longer rune
    are dropped. *)
Definition safe_rune (c : ascii) : option ascii :=
  let n := Z.of_nat (nat_of_ascii c) in
  if (128 <=? n) && (n <? 192) then None else Some (if is_safe c then c else "_"%char).

Definition perSandboxFile (sandboxID : string) : string := of_chars (omap safe_rune (chars sandboxID) ++ chars ".state").

(** [filepath.Glob] of forwards.d/*.state. *)
Definition state_names (d : FwdDir) : list string :=
  List.filter (λ n, bool_decide (strip_suffix (chars ".state") (chars n) ≠ None)) (read_names (dom (fd_files d))).

Record mergeCandidate := mkCand { mc_entry : FwdEntry; mc_fileAt : Time }.

Definition newerThan (c o : mergeCandidate) : bool :=
  if negb (mc_fileAt c =? mc_fileAt o) then mc_fileAt o <? mc_fileAt c
  else fe_ConfirmedAt (mc_entry o) <? fe_ConfirmedAt (mc_entry c).

Definition cand_key (c : mergeCandidate) : fwdKey := (fe_Sandbox (mc_entry c), fe_Port (mc_entry c)).

Definition consider (best : gmap fwdKey mergeCandidate) (c : mergeCandidate) : gmap fwdKey mergeCandidate :=
  match best !! cand_key c with
  | Some prev => if negb (newerThan c prev) then best else <[cand_key c := c]> best
  | None => <[cand_key c := c]> best
  end.

(** The rows of one file, unless it is unreadable or its writer has gone silent. *)
Definition file_cands (now : Time) (st : option FwdState) : list mergeCandidate :=
  match st with
  | None => []
  | Some st => if StaleAfter <? Sub now (fs_UpdatedAt st) then [] else (λ e, mkCand e (fs_UpdatedAt st)) <$> fs_Forwards st
  end.

Definition fresh_cands (d : FwdDir) (now : Time) : list mergeCandidate :=
  n ← state_names d; file_cands now (fd_files d !! n ≫= id).

(** A row of the previous forwards.state that has no file of its own and whose writer still confirms it. *)
Definition carried (d : FwdDir) (now : Time) (owned : string → bool) (excludeSandbox : string) (e : FwdEntry) : bool :=
  negb (owned (fe_Sandbox e) || bool_decide (fe_Sandbox e = excludeSandbox)) &&
  negb (bool_decide (perSandboxFile (fe_Sandbox e) ∈ dom (fd_files d))) &&
  negb (IsZero (fe_ConfirmedAt e) || (StaleAfter <? Sub now (fe_ConfirmedAt e))).

Definition carried_cands (d : FwdDir) (now : Time) (owned : string → bool) (excludeSandbox : string) : list mergeCandidate :=
  match fd_merged d with
  | None => []
  | Some prev => (λ e, mkCand e (fs_UpdatedAt prev)) <$> List.filter (carried d now owned excludeSandbox) (fs_Forwards prev)
  end.

Definition owns_rows (cs : list mergeCandidate) (s : string) : bool := existsb (λ c, bool_decide (fe_Sandbox (mc_entry c) = s)) cs.

Definition row_le (a b : FwdEntry) : Prop :=
  fe_Port a < fe_Port b ∨ (fe_Port a = fe_Port b ∧ String.leb (fe_Sandbox a) (fe_Sandbox b) = true).

#[global] Instance row_le_dec a b : Decision (row_le a b).
Proof. unfold row_le. apply _. Defined.

Definition merge (d : FwdDir) (now : Time) (excludeSandbox : string) : FwdState :=
  let fresh := fresh_cands d now in
  let best := foldl consider ∅ (fresh ++ carried_cands d now (owns_rows fresh) excludeSandbox) in
  mkFwdState "nexus/merge" now (merge_sort row_le (mc_entry <$> (map_to_list best).*2)).

Definition Merge (d : FwdDir) (now : Time) : FwdState := merge d now "".

Definition mergeLocked (d : FwdDir) (now : Time) (excludeSandbox : string) (writes : bool) : FwdDir * bool :=
  if writes then (mkFwdDir (fd_files d) (Some (merge d now excludeSandbox)), true) else (d, false).

(** Where a write of the state can fail. *)
Record StateFaults := mkStateFaults { sf_mkdir : bool; sf_own : bool; sf_lock : bool; sf_merged : bool }.

Definition no_state_faults : StateFaults := mkStateFaults false false false false.

Definition WriteSandboxState (f : StateFaults) (d : FwdDir) (sandboxID : string) (entries : list FwdEntry) (now : Time) : FwdDir * bool :=
  if bool_decide (sandboxID = "") then (d, false)
  else if sf_mkdir f then (d, false)
  else if sf_own f then (d, false)
  else
    let st := mkFwdState ("nexus/" +:+ sandboxID) now entries in
    let d := mkFwdDir (<[perSandboxFile sandboxID := Some st]> (fd_files d)) (fd_merged d) in
    if sf_lock f then (d, false) else mergeLocked d now "" (negb (sf_merged f)).

Definition RemoveSandboxState (f : StateFaults) (d : FwdDir) (sandboxID : string) (now : Time) : FwdDir * bool :=
  if sf_own f then (d, false)
  else
    let d := mkFwdDir (delete (perSandboxFile sandboxID) (fd_files d)) (fd_merged d) in
    if sf_lock f then (d, false) else mergeLocked d now sandboxID (negb (sf_merged f)).

(** ** supervisor/portfwd.go *)

Definition portFwdStatusLive : string := "live".
Definition portFwdStatusError : string := "error".

Record PortSup := mkPortSup {
  ps_sandboxRef : string;
  ps_listeners : gset Z;
  ps_bindErrs : gmap Z string;
  ps_reporter : bool;
  ps_lastReportedSet : gset Z
}.

(** Who listens on each port of 127.0.0.1. *)
Abbreviation Loopback := (gmap Z string).

(** [net.Listen]: fails on a taken port, and where [lf] says so. *)
Definition listen (lf : gmap Z string) (w : Loopback) (p : Z) : option string :=
  match lf !! p with
  | Some err => Some err
  | None => match w !! p with Some _ => Some "bind: address already in use"%string | None => None end
  end.

Definition set_ports (p : PortSup) (ls : gset Z) (errs : gmap Z string) : PortSup :=
  mkPortSup (ps_sandboxRef p) ls errs (ps_reporter p) (ps_lastReportedSet p).

(** The listeners of ports no longer wanted are closed and their errors forgotten. *)
Definition drop_undesired (desired : gset Z) (p : PortSup) (w : Loopback) : PortSup * Loopback :=
  let gone := ps_listeners p ∖ desired in
  (set_ports p (ps_listeners p ∩ desired) (filter (λ pe, pe.1 ∈ desired) (ps_bindErrs p)), filter (λ pe, pe.1 ∉ gone) w).

Fixpoint bind_loop (lf : gmap Z string) (p : PortSup) (w : Loopback) (ls : list Listener) : PortSup * Loopback :=
  match ls with
  | [] => (p, w)
  | l :: ls =>
      if bool_decide (ls_Port l ∈ ps_listeners p) then bind_loop lf p w ls
      else match listen lf w (ls_Port l) with
           | Some err => bind_loop lf (set_ports p (ps_listeners p) (<[ls_Port l := err]> (ps_bindErrs p))) w ls
           | None => bind_loop lf (set_ports p ({[ls_Port l]} ∪ ps_listeners p) (delete (ls_Port l) (ps_bindErrs p)))
                       (<[ls_Port l := ps_sandboxRef p]> w) ls
           end
  end.

Definition state_row (p : PortSup) (now : Time) (port : Z) : FwdEntry :=
  if bool_decide (port ∈ ps_listeners p) then mkFwdEntry port (ps_sandboxRef p) portFwdStatusLive now ""
  else mkFwdEntry port (ps_sandboxRef p) portFwdStatusError zero_time (default "" (ps_bindErrs p !! port)).

Fixpoint state_rows (p : PortSup) (now : Time) (seen : gset Z) (ls : list Listener) : list FwdEntry * gset Z :=
  match ls with
  | [] => ([], seen)
  | l :: ls =>
      if bool_decide (ls_Port l ∈ seen) then state_rows p now seen ls
      else let '(es, seen) := state_rows p now ({[ls_Port l]} ∪ seen) ls in (state_row p now (ls_Port l) :: es, seen)
  end.

(** [portSetsEqual] and the report: [Some] the ports sent to the reporter. *)
Definition writeState (f : StateFaults) (p : PortSup) (d : FwdDir) (forwardable : list Listener) (now : Time) : PortSup * FwdDir * option (list Z) * bool :=
  let '(entries, seen) := state_rows p now ∅ forwardable in
  let '(d, ok) := WriteSandboxState f d (ps_sandboxRef p) entries now in
  if ok && ps_reporter p && negb (bool_decide (seen = ps_lastReportedSet p))
  then (mkPortSup (ps_sandboxRef p) (ps_listeners p) (ps_bindErrs p) (ps_reporter p) seen, d, Some (merge_sort Z.le (elements seen)), ok)
  else (p, d, None, ok).

Definition desired_ports (ls : list Listener) : gset Z := list_to_set (ls_Port <$> ls).

(** One tick; [None] is a discovery that failed or timed out. *)
Definition reconcile_tick (lf : gmap Z string) (f : StateFaults) (p : PortSup) (w : Loopback) (d : FwdDir) (disc : option (list Listener)) (now : Time)
    : PortSup * Loopback * FwdDir * option (list Z) * bool :=
  match disc with
  | None => (p, w, d, None, false)
  | Some ls =>
      let fwd := fr_Forwardable (FilterListeners [] ls) in
      let '(p, w) := drop_undesired (desired_ports fwd) p w in
      let '(p, w) := bind_loop lf p w fwd in
      let '(p, d, rep, ok) := writeState f p d fwd now in
      (p, w, d, rep, ok)
  end.

Definition teardownAll (f : StateFaults) (p : PortSup) (w : Loopback) (d : FwdDir) (now : Time) : PortSup * Loopback * FwdDir :=
  (set_ports p ∅ (ps_bindErrs p), filter (λ pe, pe.1 ∉ ps_listeners p) w, (RemoveSandboxState f d (ps_sandboxRef p) now).1).

(** ** clientagent/startup.go *)

Definition sanitized (c : ascii) : ascii :=
  if bool_decide (c ∈ ["@"%char; "."%char; ":"%char; "/"%char; "-"%char]) then "_"%char else c.

Definition SanitizeSSHTarget (target : string) : string := of_chars (sanitized <$> chars target).

(** [rc_focus]: the sandbox_id of focus.state; [None] if the file is missing or unreadable. *)
Record RemoteCombinedState := mkCombined { rc_forwards : list FwdEntry; rc_focus : option string }.

Definition filterToFocused (forwards : list FwdEntry) (sandboxID : string) : list FwdEntry :=
  if bool_decide (sandboxID = "") then [] else List.filter (λ f, bool_decide (fe_Sandbox f = sandboxID)) forwards.

Definition focusFromCombined (c : RemoteCombinedState) : string := default "" (rc_focus c).

Definition desired_of (c : RemoteCombinedState) : list Listener :=
  (λ f, mkListener (fe_Port f) "" (mkSandboxRef (fe_Sandbox f) "" SandboxStatusRunning)) <$>
  List.filter (λ f, bool_decide (fe_Status f = "live"%string) || bool_decide (fe_Status f = "pending"%string))
    (filterToFocused (rc_forwards c) (focusFromCombined c)).

(** ** The merge *)

Lemma newerThan_spec c o :
  newerThan c o = true ↔ mc_fileAt o < mc_fileAt c ∨ (mc_fileAt c = mc_fileAt o ∧ fe_ConfirmedAt (mc_entry o) < fe_ConfirmedAt (mc_entry c)).
Proof. unfold newerThan. destruct (Z.eqb_spec (mc_fileAt c) (mc_fileAt o)); simpl; rewrite Z.ltb_lt; lia. Qed.

Lemma not_newer_trans a b c : newerThan a b = false → newerThan b c = false → newerThan a c = false.
Proof. rewrite <- !not_true_iff_false, !newerThan_spec. lia. Qed.

Lemma newerThan_asym a b : newerThan a b = true → newerThan b a = false.
Proof. rewrite <- not_true_iff_false, !newerThan_spec. lia. Qed.

(** The best candidate of every key: there is one if there is any, and no candidate of the key is newer. *)
Definition best_of (cs : list mergeCandidate) (best : gmap fwdKey mergeCandidate) : Prop :=
  (∀ k c, best !! k = Some c → c ∈ cs ∧ cand_key c = k ∧ ∀ c', c' ∈ cs → cand_key c' = k → newerThan c' c = false) ∧
  (∀ c, c ∈ cs → is_Some (best !! cand_key c)).

Lemma newerThan_irrefl c : newerThan c c = false.
Proof. rewrite <- not_true_iff_false, newerThan_spec. lia. Qed.

Lemma best_of_snoc cs best c : best_of cs best → best_of (cs ++ [c]) (consider best c).
Proof.
  intros [H1 H2]. unfold consider. destruct (best !! cand_key c) as [prev|] eqn:E.
  - destruct (H1 _ _ E) as (Hin & Hk & Hmax). destruct (newerThan c prev) eqn:En; cbn [negb].
    + split.
      * intros k c0. rewrite lookup_insert_Some. intros [[<- <-]|[Hne Hk0]].
        { split; [set_solver|]. split; [done|]. intros c'. rewrite elem_of_app, list_elem_of_singleton. intros [Hc'| ->] Hkc; [|apply newerThan_irrefl].
          eapply not_newer_trans; [by apply Hmax|by apply newerThan_asym]. }
        destruct (H1 _ _ Hk0) as (? & ? & Hm). split; [set_solver|]. split; [done|]. intros c'. rewrite elem_of_app, list_elem_of_singleton.
        intros [Hc'| ->] Hkc; [by apply Hm|congruence].
      * intros c'. rewrite elem_of_app, list_elem_of_singleton. intros Hc'. destruct (decide (cand_key c = cand_key c')) as [<-|]; [by rewrite lookup_insert_eq; eauto|].
        rewrite lookup_insert_ne by done. destruct Hc' as [?| ->]; [by apply H2|done].
    + split.
      * intros k c0 Hk0. destruct (H1 _ _ Hk0) as (? & ? & Hm). split; [set_solver|]. split; [done|]. intros c'. rewrite elem_of_app, list_elem_of_singleton.
        intros [Hc'| ->] Hkc; [by apply Hm|]. assert (c0 = prev) as -> by congruence. done.
      * intros c'. rewrite elem_of_app, list_elem_of_singleton. intros [?| ->]; [by apply H2|by rewrite E; eauto].
  - split.
    + intros k c0. rewrite lookup_insert_Some. intros [[<- <-]|[Hne Hk0]].
      { split; [set_solver|]. split; [done|]. intros c'. rewrite elem_of_app, list_elem_of_singleton. intros [Hc'| ->] Hkc; [|apply newerThan_irrefl].
        destruct (H2 _ Hc') as [x Hx]. rewrite Hkc in Hx. congruence. }
      destruct (H1 _ _ Hk0) as (? & ? & Hm). split; [set_solver|]. split; [done|]. intros c'. rewrite elem_of_app, list_elem_of_singleton.
      intros [Hc'| ->] Hkc; [by apply Hm|congruence].
    + intros c'. rewrite elem_of_app, list_elem_of_singleton. intros Hc'. destruct (decide (cand_key c = cand_key c')) as [<-|]; [by rewrite lookup_insert_eq; eauto|].
      rewrite lookup_insert_ne by done. destruct Hc' as [?| ->]; [by apply H2|done].
Qed.

Lemma best_of_fold cs : best_of cs (foldl consider ∅ cs).
Proof.
  induction cs as [|c cs IH] using rev_ind; [split; [simpl; intros k c; rewrite lookup_empty; done|set_solver]|].
  rewrite foldl_app. by apply best_of_snoc.
Qed.

Definition all_cands (d : FwdDir) (now : Time) (ex : string) : list mergeCandidate :=
  fresh_cands d now ++ carried_cands d now (owns_rows (fresh_cands d now)) ex.

Lemma merge_rows d now ex e :
  e ∈ fs_Forwards (merge d now ex) ↔ ∃ c, foldl consider ∅ (all_cands d now ex) !! cand_key c = Some c ∧ mc_entry c = e.
Proof.
  unfold merge. cbn [fs_Forwards]. fold (all_cands d now ex). rewrite (merge_sort_Permutation row_le), list_elem_of_fmap. split.
  - intros (c & -> & Hc). apply list_elem_of_fmap in Hc as ([k c'] & -> & Hin). apply elem_of_map_to_list in Hin. exists c'. split; [|done].
    destruct (best_of_fold (all_cands d now ex)) as [H1 _]. destruct (H1 _ _ Hin) as (_ & <- & _). done.
  - intros (c & Hc & <-). exists c. split; [done|]. apply list_elem_of_fmap. exists (cand_key c, c). split; [done|]. by apply elem_of_map_to_list.
Qed.

Definition row_key (e : FwdEntry) : fwdKey := (fe_Sandbox e, fe_Port e).

(** One row for each sandbox and port. *)
Lemma merge_one_row d now ex e e' :
  e ∈ fs_Forwards (merge d now ex) → e' ∈ fs_Forwards (merge d now ex) → row_key e = row_key e' → e = e'.
Proof.
  rewrite !merge_rows. intros (c & Hc & <-) (c' & Hc' & <-) E. change (cand_key c = cand_key c') in E. rewrite E in Hc. congruence.
Qed.

Lemma fresh_cands_elem d now c :
  c ∈ fresh_cands d now ↔ ∃ n st, n ∈ state_names d ∧ fd_files d !! n = Some (Some st) ∧ Sub now (fs_UpdatedAt st) ≤ StaleAfter ∧
    mc_entry c ∈ fs_Forwards st ∧ mc_fileAt c = fs_UpdatedAt st.
Proof.
  unfold fresh_cands. rewrite list_elem_of_bind. split.
  - intros (n & Hc & Hn). destruct (fd_files d !! n) as [[st|]|] eqn:E; simpl in Hc; [|by apply elem_of_nil in Hc|by apply elem_of_nil in Hc].
    destruct (Z.ltb_spec StaleAfter (Sub now (fs_UpdatedAt st))); [by apply elem_of_nil in Hc|].
    apply list_elem_of_fmap in Hc as (e & -> & He). exists n, st. done.
  - intros (n & st & Hn & E & Hs & He & Hat). exists n. split; [|done]. rewrite E. simpl. destruct (Z.ltb_spec StaleAfter (Sub now (fs_UpdatedAt st))); [lia|].
    apply list_elem_of_fmap. exists (mc_entry c). split; [|done]. destruct c; simpl in *. by subst.
Qed.

Lemma state_names_elem d n : n ∈ state_names d ↔ n ∈ dom (fd_files d) ∧ strip_suffix (chars ".state") (chars n) ≠ None.
Proof. unfold state_names. rewrite list_elem_of_In, filter_In, <- list_elem_of_In, elem_of_read_names, bool_decide_eq_true. done. Qed.

Lemma perSandboxFile_suffix s : strip_suffix (chars ".state") (chars (perSandboxFile s)) ≠ None.
Proof.
  unfold perSandboxFile. rewrite chars_of_chars. by rewrite (proj2 (strip_suffix_Some _ _ _) eq_refl).
Qed.

(** Every row of a file of forwards.d is of the sandbox whose file it is. *)
Definition own_files (d : FwdDir) : Prop :=
  ∀ n st e, fd_files d !! n = Some (Some st) → e ∈ fs_Forwards st → perSandboxFile (fe_Sandbox e) = n.

Definition one_row (st : FwdState) : Prop := ∀ e e', e ∈ fs_Forwards st → e' ∈ fs_Forwards st → row_key e = row_key e' → e = e'.

Lemma all_cands_own d now ex c st :
  own_files d → fd_files d !! perSandboxFile (fe_Sandbox (mc_entry c)) = Some (Some st) → c ∈ all_cands d now ex → mc_entry c ∈ fs_Forwards st.
Proof.
  intros Hown Hf. unfold all_cands. rewrite elem_of_app, fresh_cands_elem. intros [(n & st' & _ & Hn & _ & He & _)|Hc].
  - rewrite <- (Hown n st' _ Hn He) in Hn. congruence.
  - exfalso. unfold carried_cands in Hc. destruct (fd_merged d) as [prev|]; [|by apply elem_of_nil in Hc].
    apply list_elem_of_fmap in Hc as (e & -> & He). apply list_elem_of_In, filter_In in He as [_ He]. unfold carried in He. simpl in Hf.
    assert (Hd : perSandboxFile (fe_Sandbox e) ∈ dom (fd_files d)) by by apply elem_of_dom. rewrite (bool_decide_eq_true_2 _ Hd) in He.
    simpl in He. by rewrite andb_false_r in He.
Qed.

(** While a sandbox's file is fresh, its rows in the merge are those of its file, whoever merges. *)
Lemma merge_own d now ex s st e :
  own_files d → fd_files d !! perSandboxFile s = Some (Some st) → Sub now (fs_UpdatedAt st) ≤ StaleAfter → one_row st →
  fe_Sandbox e = s → e ∈ fs_Forwards (merge d now ex) ↔ e ∈ fs_Forwards st.
Proof.
  intros Hown Hf Hs Hone <-. rewrite merge_rows. destruct (best_of_fold (all_cands d now ex)) as [H1 H2]. split.
  - intros (c & Hc & <-). eapply all_cands_own; eauto. by apply H1 in Hc as (? & _).
  - intros He. set (c := mkCand e (fs_UpdatedAt st)).
    assert (Hc : c ∈ all_cands d now ex).
    { unfold all_cands. rewrite elem_of_app. left. apply fresh_cands_elem. exists (perSandboxFile (fe_Sandbox e)), st.
      split; [apply state_names_elem; split; [by apply elem_of_dom|apply perSandboxFile_suffix]|]. done. }
    destruct (H2 _ Hc) as [c' Hc']. destruct (H1 _ _ Hc') as (Hin & Hk & _). exists c'.
    assert (mc_entry c' = e) as Ee; [|split; [by rewrite Hk|done]]. unfold cand_key in Hk. simpl in Hk.
    apply Hone; [|done|exact Hk]. eapply all_cands_own; [done| |exact Hin]. injection Hk as -> _. done.
Qed.

(** What another supervisor does to the directory. *)
Inductive DirOp :=
| OpWrite (f : StateFaults) (id : string) (entries : list FwdEntry) (now : Time)
| OpRemove (f : StateFaults) (id : string) (now : Time).

Definition run_op (d : FwdDir) (o : DirOp) : FwdDir :=
  match o with
  | OpWrite f id entries now => (WriteSandboxState f d id entries now).1
  | OpRemove f id now => (RemoveSandboxState f d id now).1
  end.

(** The operation is of a sandbox with another file, and no later than a minute after [at_]. *)
Definition other_op (s : string) (at_ : Time) (o : DirOp) : Prop :=
  match o with
  | OpWrite _ id entries now => perSandboxFile id ≠ perSandboxFile s ∧ Sub now at_ ≤ StaleAfter ∧ Forall (λ e, fe_Sandbox e = id) entries
  | OpRemove _ id now => perSandboxFile id ≠ perSandboxFile s ∧ Sub now at_ ≤ StaleAfter
  end.

Definition rows_exact (d : FwdDir) (s : string) (st : FwdState) : Prop :=
  ∃ m, fd_merged d = Some m ∧ (∀ e, fe_Sandbox e = s → e ∈ fs_Forwards m ↔ e ∈ fs_Forwards st) ∧
    ∀ e e', e ∈ fs_Forwards m → e' ∈ fs_Forwards m → row_key e = row_key e' → e = e'.

Definition published (d : FwdDir) (s : string) (st : FwdState) : Prop :=
  own_files d ∧ fd_files d !! perSandboxFile s = Some (Some st) ∧ rows_exact d s st.

Lemma mergeLocked_published d now ex writes s st :
  own_files d → fd_files d !! perSandboxFile s = Some (Some st) → Sub now (fs_UpdatedAt st) ≤ StaleAfter → one_row st →
  (writes = false → rows_exact d s st) → published (mergeLocked d now ex writes).1 s st.
Proof.
  intros Hown Hf Hs Hone Hw. unfold mergeLocked. destruct writes; [|by split; [|split; [|apply Hw]]]. split; [exact Hown|]. split; [done|].
  exists (merge d now ex). split; [done|]. split; [|apply merge_one_row]. intros e He. by eapply merge_own.
Qed.

Lemma own_files_insert d id st m :
  own_files d → Forall (λ e, fe_Sandbox e = id) (fs_Forwards st) → own_files (mkFwdDir (<[perSandboxFile id := Some st]> (fd_files d)) m).
Proof.
  intros Hown Hall n st' e. cbn [fd_files]. rewrite lookup_insert_Some. intros [[<- [= <-]]|[_ Hn]] He; [|by eapply Hown].
  rewrite Forall_forall in Hall. by rewrite (Hall _ He).
Qed.

Lemma run_op_published s st o d :
  published d s st → one_row st → other_op s (fs_UpdatedAt st) o → published (run_op d o) s st.
Proof.
  intros (Hown & Hf & Hex) Hone Ho. destruct o as [f id entries now|f id now]; simpl in *.
  - destruct Ho as (Hne & Hs & Hall). unfold WriteSandboxState. case_bool_decide; [done|]. destruct (sf_mkdir f); [done|]. destruct (sf_own f); [done|].
    assert (Hown' : own_files (mkFwdDir (<[perSandboxFile id := Some (mkFwdState ("nexus/" +:+ id) now entries)]> (fd_files d)) (fd_merged d))) by by apply own_files_insert.
    assert (Hf' : <[perSandboxFile id := Some (mkFwdState ("nexus/" +:+ id) now entries)]> (fd_files d) !! perSandboxFile s = Some (Some st)) by by rewrite lookup_insert_ne.
    destruct (sf_lock f); [done|]. by apply mergeLocked_published.
  - destruct Ho as (Hne & Hs). unfold RemoveSandboxState. destruct (sf_own f); [done|].
    assert (Hown' : own_files (mkFwdDir (delete (perSandboxFile id) (fd_files d)) (fd_merged d))).
    { intros n st' e. cbn [fd_files]. rewrite lookup_delete_Some. intros [_ Hn]. by apply Hown. }
    assert (Hf' : delete (perSandboxFile id) (fd_files d) !! perSandboxFile s = Some (Some st)) by by rewrite lookup_delete_ne.
    destruct (sf_lock f); [done|]. by apply mergeLocked_published.
Qed.

Lemma run_ops_published s st ops d :
  published d s st → one_row st → Forall (other_op s (fs_UpdatedAt st)) ops → published (foldl run_op d ops) s st.
Proof. intros Hp Hone Hall. revert d Hp. induction Hall as [|o ops Ho _ IH]; intros d Hp; simpl; [done|]. apply IH. by apply run_op_published. Qed.

(** ** The supervisor's tick *)

Definition sup_inv (p : PortSup) (w : Loopback) : Prop := ∀ q, q ∈ ps_listeners p → w !! q = Some (ps_sandboxRef p).

Lemma elem_of_desired_ports q ls : q ∈ desired_ports ls ↔ ∃ l, l ∈ ls ∧ ls_Port l = q.
Proof. unfold desired_ports. rewrite elem_of_list_to_set, list_elem_of_fmap. naive_solver. Qed.

Lemma desired_ports_cons l ls : desired_ports (l :: ls) = {[ls_Port l]} ∪ desired_ports ls.
Proof. done. Qed.

Record bound_by (lf : gmap Z string) (ls : list Listener) (p : PortSup) (w : Loopback) (p' : PortSup) (w' : Loopback) : Prop := {
  bb_ref : ps_sandboxRef p' = ps_sandboxRef p;
  bb_listeners : ∀ q, q ∈ ps_listeners p' ↔ q ∈ ps_listeners p ∨ (q ∈ desired_ports ls ∧ listen lf w q = None);
  bb_new : ∀ q, q ∈ ps_listeners p' → q ∉ ps_listeners p → w' !! q = Some (ps_sandboxRef p);
  bb_same : ∀ q, q ∉ ps_listeners p' ∨ q ∈ ps_listeners p → w' !! q = w !! q;
  bb_errs : ∀ q, q ∈ desired_ports ls → q ∉ ps_listeners p' → ps_bindErrs p' !! q = listen lf w q
}.

Lemma listen_insert lf w q r x : q ≠ r → listen lf (<[r := x]> w) q = listen lf w q.
Proof. intros. unfold listen. by rewrite lookup_insert_ne. Qed.

Lemma bind_loop_bound lf p w ls : let '(p', w') := bind_loop lf p w ls in bound_by lf ls p w p' w' ∧ ∀ q, q ∉ desired_ports ls → ps_bindErrs p' !! q = ps_bindErrs p !! q.
Proof.
  revert p w. induction ls as [|l ls IH]; intros p w; cbn [bind_loop]; [split; [split; set_solver|done]|].
  case_bool_decide as Hin; [|destruct (listen lf w (ls_Port l)) as [err|] eqn:El].
  - specialize (IH p w). destruct (bind_loop lf p w ls) as [p' w']. destruct IH as [[H1 H2 H3 H4 H5] H6]. split; [|intros q Hq; apply H6; set_solver].
    split; [done| |done|done|].
    + intros q. rewrite H2, desired_ports_cons. set_solver.
    + intros q. rewrite desired_ports_cons. intros Hq Hn. apply H5; [|done]. rewrite H2 in Hn. set_solver.
  - set (p1 := set_ports p _ _). specialize (IH p1 w). destruct (bind_loop lf p1 w ls) as [p' w']. destruct IH as [[H1 H2 H3 H4 H5] H6]. cbn in *.
    split; [|intros q Hq; rewrite H6 by set_solver; simpl; rewrite lookup_insert_ne; [done|set_solver]]. split; [done| |done|done|].
    + intros q. rewrite H2, desired_ports_cons, elem_of_union, elem_of_singleton. split; [tauto|]. intros [?|[[-> | ?] E]]; [tauto|congruence|tauto].
    + intros q. rewrite desired_ports_cons. intros Hq Hn. destruct (decide (q ∈ desired_ports ls)) as [Hd|Hd]; [by apply H5|].
      assert (q = ls_Port l) as -> by set_solver. rewrite H6 by done. unfold p1. cbn [set_ports ps_bindErrs]. by rewrite lookup_insert_eq.
  - set (p1 := set_ports p _ _). set (w1 := <[ls_Port l := ps_sandboxRef p]> w). specialize (IH p1 w1). destruct (bind_loop lf p1 w1 ls) as [p' w'].
    destruct IH as [[H1 H2 H3 H4 H5] H6]. cbn in *.
    assert (Hl : ls_Port l ∈ ps_listeners p') by (apply H2; set_solver).
    split; [|intros q Hq; rewrite H6 by set_solver; simpl; rewrite lookup_delete_ne; [done|set_solver]]. split; [done| | | |].
    + intros q. rewrite H2, desired_ports_cons, !elem_of_union, !elem_of_singleton. unfold w1. destruct (decide (q = ls_Port l)) as [->|Hne]; [tauto|].
      rewrite listen_insert by done. tauto.
    + intros q Hq Hn. destruct (decide (q = ls_Port l)) as [->|Hne]; [|by apply H3; [|set_solver]]. rewrite H4 by set_solver. unfold w1. by rewrite lookup_insert_eq.
    + intros q Hq. assert (q ≠ ls_Port l) by (destruct Hq; [congruence|intros ->; done]). rewrite H4 by set_solver. unfold w1. by rewrite lookup_insert_ne.
    + intros q. rewrite desired_ports_cons. intros Hq Hn. assert (q ≠ ls_Port l) by congruence. rewrite H5 by set_solver. unfold w1. by rewrite listen_insert.
Qed.

Lemma state_rows_spec p now seen ls :
  let '(es, seen') := state_rows p now seen ls in
  seen' = seen ∪ desired_ports ls ∧ ∀ e, e ∈ es ↔ ∃ q, q ∈ desired_ports ls ∧ q ∉ seen ∧ e = state_row p now q.
Proof.
  revert seen. induction ls as [|l ls IH]; intros seen; cbn [state_rows].
  { split; [unfold desired_ports; set_solver|]. intros e. rewrite elem_of_nil. split; [done|]. intros (q & Hq & _). by apply elem_of_desired_ports in Hq as (l & Hl & _); apply elem_of_nil in Hl. }
  rewrite desired_ports_cons. case_bool_decide as Hs.
  - specialize (IH seen). destruct (state_rows p now seen ls) as [es seen']. destruct IH as [-> H]. split; [set_solver|]. intros e. rewrite H. split.
    + intros (q & ? & ? & ?). exists q. set_solver.
    + intros (q & Hq & Hn & ?). exists q. split; [|done]. apply elem_of_union in Hq as [Hq|]; [|done]. apply elem_of_singleton in Hq. congruence.
  - specialize (IH ({[ls_Port l]} ∪ seen)). destruct (state_rows p now _ ls) as [es seen']. destruct IH as [-> H]. split; [set_solver|].
    intros e. rewrite elem_of_cons, H. split.
    + intros [-> | (q & ? & Hn & ->)]; [exists (ls_Port l)|exists q]; set_solver.
    + intros (q & Hq & Hn & ->). destruct (decide (q = ls_Port l)) as [->|Hne]; [by left|]. right. exists q. set_solver.
Qed.

Lemma state_row_port p now q : fe_Port (state_row p now q) = q ∧ fe_Sandbox (state_row p now q) = ps_sandboxRef p.
Proof. unfold state_row. case_bool_decide; done. Qed.

Lemma state_row_live p now q : fe_Status (state_row p now q) = "live" ↔ q ∈ ps_listeners p.
Proof. unfold state_row. case_bool_decide; simpl; [done|]. split; [|done]. unfold portFwdStatusError. intros E. by vm_compute in E. Qed.

(** What a tick that discovered [ls] leaves of the supervisor and the loopback. *)
Lemma tick_bound lf f p w d ls now :
  let fwd := fr_Forwardable (FilterListeners [] ls) in
  let '(p1, w1) := drop_undesired (desired_ports fwd) p w in
  let '(p2, w2) := bind_loop lf p1 w1 fwd in
  let '(p', w', _, _, _) := reconcile_tick lf f p w d (Some ls) now in
  w' = w2 ∧ ps_sandboxRef p' = ps_sandboxRef p2 ∧ ps_listeners p' = ps_listeners p2 ∧ ps_bindErrs p' = ps_bindErrs p2.
Proof.
  cbv zeta. unfold reconcile_tick. destruct (drop_undesired _ p w) as [p1 w1]. destruct (bind_loop lf p1 w1 _) as [p2 w2].
  unfold writeState. destruct (state_rows p2 now ∅ _) as [es seen]. destruct (WriteSandboxState _ _ _ _ _) as [d' ok].
  destruct (ok && _ && _); done.
Qed.

(** A tick of the supervisor binds exactly the forwardable ports the guest listens on that it had or that are free, releases the
    others, touches no port of another process, and remembers why a wanted port could not be bound. *)
Lemma supervisor_tick lf f p w d ls now :
  sup_inv p w →
  let want := desired_ports (fr_Forwardable (FilterListeners [] ls)) in
  let '(p', w', _, _, _) := reconcile_tick lf f p w d (Some ls) now in
  sup_inv p' w' ∧ ps_sandboxRef p' = ps_sandboxRef p ∧
  (∀ q, q ∈ ps_listeners p' ↔ q ∈ want ∧ (q ∈ ps_listeners p ∨ listen lf w q = None)) ∧
  (∀ q, q ∈ ps_listeners p → q ∉ want → w' !! q = None) ∧
  (∀ q, q ∉ ps_listeners p → q ∉ ps_listeners p' → w' !! q = w !! q) ∧
  (∀ q, q ∈ want → q ∉ ps_listeners p' → ps_bindErrs p' !! q = listen lf w q).
Proof.
  intros Hinv want. pose proof (tick_bound lf f p w d ls now) as Ht. cbv zeta in Ht. fold want in Ht.
  unfold drop_undesired in Ht. set (p1 := set_ports p _ _) in Ht. set (w1 := filter _ w) in Ht.
  pose proof (bind_loop_bound lf p1 w1 (fr_Forwardable (FilterListeners [] ls))) as Hb. destruct (bind_loop lf p1 w1 _) as [p2 w2].
  destruct (reconcile_tick _ _ _ _ _ _ _) as [[[[p' w'] d'] rep] ok]. destruct Ht as (-> & Er & El & Ee). destruct Hb as [[H1 H2 H3 H4 H5] _].
  fold want in H2, H5. rewrite <- El in H2, H3, H4, H5. rewrite <- Ee in H5. rewrite H1 in Er. cbn [p1 set_ports ps_sandboxRef ps_listeners] in *.
  (* the loopback after the undesired listeners are closed *)
  assert (Hw1 : ∀ q, ¬ (q ∈ ps_listeners p ∧ q ∉ want) → w1 !! q = w !! q).
  { intros q Hq. unfold w1. destruct (w !! q) eqn:E; [|by rewrite map_lookup_filter, E]. apply map_lookup_filter_Some. split; [done|]. simpl. set_solver. }
  assert (Hli : ∀ q, ¬ (q ∈ ps_listeners p ∧ q ∉ want) → listen lf w1 q = listen lf w q) by (intros q Hq; unfold listen; by rewrite Hw1).
  assert (Hmem : ∀ q, q ∈ ps_listeners p' ↔ q ∈ want ∧ (q ∈ ps_listeners p ∨ listen lf w q = None)).
  { intros q. rewrite H2, elem_of_intersection. destruct (decide (q ∈ want)); [rewrite Hli by tauto; tauto|tauto]. }
  split; [|split; [done|split; [exact Hmem|split; [|split]]]].
  - intros q Hq. rewrite Er. destruct (decide (q ∈ ps_listeners p ∩ want)) as [Hi|Hi]; [|by apply H3].
    rewrite H4 by (by right). rewrite Hw1 by set_solver. apply Hinv. set_solver.
  - intros q Hq Hn. rewrite H4 by (left; rewrite Hmem; tauto). unfold w1. apply map_lookup_filter_None_2. right. intros x _. simpl. set_solver.
  - intros q Hq Hn. rewrite H4 by (by left). apply Hw1. tauto.
  - intros q Hq Hn. rewrite H5 by done. apply Hli. tauto.
Qed.

(** ** From the guest's listener to the client's forward *)

Lemma writeState_dir f p d fwd now :
  let '(_, d', _, ok) := writeState f p d fwd now in (d', ok) = WriteSandboxState f d (ps_sandboxRef p) (state_rows p now ∅ fwd).1 now.
Proof.
  unfold writeState. destruct (state_rows p now ∅ fwd) as [es seen]. cbn [fst]. destruct (WriteSandboxState _ _ _ _ _) as [d' ok]. by destruct (ok && _ && _).
Qed.

(** The rows a tick writes. *)
Definition tick_rows (p : PortSup) (now : Time) (ls : list Listener) (rows : list FwdEntry) : Prop :=
  ∀ e, e ∈ rows ↔ ∃ q, q ∈ desired_ports (fr_Forwardable (FilterListeners [] ls)) ∧ e = state_row p now q.

Lemma tick_published lf p w d ls now :
  own_files d → ps_sandboxRef p ≠ "" →
  let '(p', _, d', _, ok) := reconcile_tick lf no_state_faults p w d (Some ls) now in
  ok = true ∧ ps_sandboxRef p' = ps_sandboxRef p ∧
  ∃ st, published d' (ps_sandboxRef p) st ∧ fs_UpdatedAt st = now ∧ one_row st ∧ tick_rows p' now ls (fs_Forwards st).
Proof.
  intros Hown Hne. unfold reconcile_tick. set (fwd := fr_Forwardable _).
  destruct (drop_undesired (desired_ports fwd) p w) as [p1 w1] eqn:E1. pose proof (bind_loop_bound lf p1 w1 fwd) as Hb.
  destruct (bind_loop lf p1 w1 fwd) as [p2 w2]. destruct Hb as [[H1 _ _ _ _] _].
  assert (Eref : ps_sandboxRef p2 = ps_sandboxRef p) by (rewrite H1; unfold drop_undesired in E1; by injection E1 as <- <-).
  pose proof (writeState_dir no_state_faults p2 d fwd now) as Hd. pose proof (state_rows_spec p2 now ∅ fwd) as Hrows.
  assert (Hp' : let '(p', _, _, _) := writeState no_state_faults p2 d fwd now in ps_sandboxRef p' = ps_sandboxRef p2 ∧ ps_listeners p' = ps_listeners p2 ∧ ps_bindErrs p' = ps_bindErrs p2).
  { unfold writeState. destruct (state_rows p2 now ∅ fwd). destruct (WriteSandboxState _ _ _ _ _). by destruct (_ && _ && _). }
  destruct (writeState no_state_faults p2 d fwd now) as [[[p' d'] rep] ok]. destruct Hp' as (Er & El & Ee).
  destruct (state_rows p2 now ∅ fwd) as [es seen]. destruct Hrows as [_ Hes]. cbn [fst] in Hd. rewrite Eref in Hd.
  set (st := mkFwdState ("nexus/" +:+ ps_sandboxRef p) now es).
  assert (Hall : Forall (λ e, fe_Sandbox e = ps_sandboxRef p) es).
  { apply Forall_forall. intros e (q & _ & _ & ->)%Hes. rewrite <- Eref. apply state_row_port. }
  assert (Hone : one_row st).
  { intros e e' (q & _ & _ & ->)%Hes (q' & _ & _ & ->)%Hes [= _ E]. destruct (state_row_port p2 now q) as [P _], (state_row_port p2 now q') as [P' _]. congruence. }
  assert (Hpub : published (mergeLocked (mkFwdDir (<[perSandboxFile (ps_sandboxRef p) := Some st]> (fd_files d)) (fd_merged d)) now "" true).1 (ps_sandboxRef p) st).
  { apply mergeLocked_published; [by apply own_files_insert|by apply lookup_insert_eq| |done|done].
    unfold Sub. rewrite Z.sub_diag. by vm_compute. }
  unfold WriteSandboxState in Hd. rewrite bool_decide_eq_false_2 in Hd by done. cbn [sf_mkdir sf_own sf_lock sf_merged no_state_faults negb mergeLocked] in Hd.
  injection Hd as -> ->. split; [done|]. split; [congruence|]. exists st. split; [exact Hpub|]. split; [done|]. split; [done|].
  intros e. unfold st. cbn [fs_Forwards]. rewrite Hes. assert (Erow : ∀ q, state_row p' now q = state_row p2 now q) by (intros q; unfold state_row; by rewrite El, Er, Ee).
  setoid_rewrite Erow. split; [intros (q & ? & _ & ->); eauto|intros (q & ? & ->); exists q; set_solver].
Qed.

Definition client_view (d : FwdDir) (focus : string) : list Listener :=
  desired_of (mkCombined (match fd_merged d with Some m => fs_Forwards m | None => [] end) (Some focus)).

Lemma desired_of_elem rows s l :
  s ≠ "" → l ∈ desired_of (mkCombined rows (Some s)) ↔
    ∃ e, e ∈ rows ∧ fe_Sandbox e = s ∧ (fe_Status e = "live" ∨ fe_Status e = "pending") ∧
      l = mkListener (fe_Port e) "" (mkSandboxRef s "" SandboxStatusRunning).
Proof.
  intros Hs. unfold desired_of, filterToFocused. change (focusFromCombined (mkCombined rows (Some s))) with s. cbn [rc_forwards]. rewrite bool_decide_eq_false_2 by done.
  rewrite list_elem_of_fmap. setoid_rewrite list_elem_of_In. setoid_rewrite filter_In. setoid_rewrite filter_In.
  setoid_rewrite orb_true_iff. setoid_rewrite bool_decide_eq_true. setoid_rewrite <- list_elem_of_In. split.
  - intros (e & -> & (He & <-) & Hst). exists e. done.
  - intros (e & He & <- & Hst & ->). exists e. done.
Qed.

(** C17: What the supervisor of a sandbox forwards is what a client focused on it forwards: for a minute after a tick whose
    calls on the state directory work, whatever the supervisors of sandboxes with other files (see
    [colliding_sandboxes_flap]) write, remove or fail to write, the client wants exactly the ports
    this supervisor has bound, each once. *)
Theorem forwards_reach_client lf p w d ls now ops :
  sup_inv p w → own_files d → ps_sandboxRef p ≠ "" → Forall (other_op (ps_sandboxRef p) now) ops →
  let '(p', _, d', _, ok) := reconcile_tick lf no_state_faults p w d (Some ls) now in
  let desired := client_view (foldl run_op d' ops) (ps_sandboxRef p) in
  ok = true ∧ distinct_ports (desiredSet desired) ∧
  ∀ k, k ∈ desiredSet desired ↔ k.1 = ps_sandboxRef p ∧ k.2 ∈ ps_listeners p'.
Proof.
  intros Hinv Hown Hne Hops. pose proof (tick_published lf p w d ls now Hown Hne) as Ht.
  assert (Hsub : let '(p', _, _, _, _) := reconcile_tick lf no_state_faults p w d (Some ls) now in
    ∀ q, q ∈ ps_listeners p' → q ∈ desired_ports (fr_Forwardable (FilterListeners [] ls))).
  { pose proof (tick_bound lf no_state_faults p w d ls now) as Hb. cbv zeta in Hb. set (fwd := fr_Forwardable _) in *. unfold drop_undesired in Hb.
    set (p1 := set_ports p _ _) in Hb. set (w1 := filter _ w) in Hb. pose proof (bind_loop_bound lf p1 w1 fwd) as Hbb. destruct (bind_loop lf p1 w1 fwd) as [p2 w2].
    destruct (reconcile_tick _ _ _ _ _ _ _) as [[[[p' ?] ?] ?] ?]. destruct Hb as (_ & _ & El & _). destruct Hbb as [[_ H2 _ _ _] _]. intros q. rewrite El, H2.
    unfold p1. simpl. set_solver. }
  destruct (reconcile_tick _ _ _ _ _ _ _) as [[[[p' w'] d'] rep] ok]. destruct Ht as (-> & Er & st & Hpub & Eat & Hone & Hrows).
  cbv zeta. split; [done|]. rewrite <- Eat in Hops. destruct (run_ops_published _ _ _ _ Hpub Hone Hops) as (_ & _ & m & Hm & Hex & _).
  set (desired := client_view _ _).
  assert (Hmem : ∀ k, k ∈ desiredSet desired ↔ k.1 = ps_sandboxRef p ∧ k.2 ∈ ps_listeners p').
  { intros k. rewrite desiredSet_elem. unfold desired, client_view. rewrite Hm. setoid_rewrite (desired_of_elem _ _ _ Hne). split.
    - intros (l & (e & He & Hse & Hst & ->) & _ & <-). split; [done|]. apply (Hex e Hse), Hrows in He as (q & Hq & ->).
      cbn. rewrite (proj1 (state_row_port p' now q)). apply (state_row_live p' now q). destruct Hst as [?|Hst]; [done|].
      exfalso. unfold state_row in Hst. case_bool_decide; by vm_compute in Hst.
    - destruct k as [s q]. cbn [fst snd]. intros [-> Hq]. destruct (state_row_port p' now q) as [Hp Hs]. rewrite Er in Hs.
      exists (mkListener q "" (mkSandboxRef (ps_sandboxRef p) "" SandboxStatusRunning)). split; [|done]. exists (state_row p' now q).
      split; [apply (Hex _ Hs), Hrows; exists q; split; [by apply Hsub|done]|]. split; [done|]. rewrite Hp. split; [left; by apply state_row_live|done]. }
  split; [|exact Hmem]. intros [s q] [s' q'] [E _]%Hmem [E' _]%Hmem. cbn in *. congruence.
Qed.

(** ** Files that collide *)

(** Two handles can have one file: the supervisors of [a/b_c] and [a_b/c] overwrite each other's forwards and the client's
    view flaps between them at every tick. *)
Lemma perSandboxFile_collision : perSandboxFile "a/b_c" = perSandboxFile "a_b/c" ∧ ("a/b_c" : string) ≠ "a_b/c".
Proof. split; [vm_compute; reflexivity|done]. Qed.

Definition live_row (s : string) (port : Z) (now : Time) : FwdEntry := mkFwdEntry port s portFwdStatusLive now "".

Lemma colliding_sandboxes_flap :
  let d1 := (WriteSandboxState no_state_faults (mkFwdDir ∅ None) "a/b_c" [live_row "a/b_c" 3000 5] 5).1 in
  let d2 := (WriteSandboxState no_state_faults d1 "a_b/c" [live_row "a_b/c" 4000 6] 6).1 in
  let d3 := (WriteSandboxState no_state_faults d2 "a/b_c" [live_row "a/b_c" 3000 7] 7).1 in
  (ls_Port <$> client_view d1 "a/b_c") = [3000] ∧ (ls_Port <$> client_view d2 "a/b_c") = [] ∧ (ls_Port <$> client_view d3 "a/b_c") = [3000].
Proof. vm_compute. done. Qed.

(** Two machines can have one control socket: the second machine's state is then read from the first, through its master. *)
Lemma SanitizeSSHTarget_collision : SanitizeSSHTarget "me@build-1" = SanitizeSSHTarget "me@build.1" ∧ ("me@build-1" : string) ≠ "me@build.1".
Proof. split; [vm_compute; reflexivity|done]. Qed.

(** ** Witnesses *)

Definition w_sup : PortSup := mkPortSup "proj/dev" {[3000; 4000]} ∅ true ∅.
Definition w_loopback : Loopback := {[3000 := "proj/dev"; 4000 := "proj/dev"; 5000 := "another process"]}%string.
Definition w_listeners : list Listener := [listener "proj/dev" 3000; listener "proj/dev" 5000; listener "proj/dev" 6000; listener "proj/dev" 22].
Definition w_ops : list DirOp :=
  [OpWrite no_state_faults "proj/ci" [live_row "proj/ci" 7000 2000000000] 2000000000; OpRemove no_state_faults "proj/old" 3000000000].
Definition w_dir : FwdDir := mkFwdDir ∅ (Some (mkFwdState "nexus/merge" 5 [live_row "proj/dev" 9000 5])).

Lemma w_sup_inv : sup_inv w_sup w_loopback.
Proof. intros q. unfold w_sup, w_loopback. cbn [ps_listeners ps_sandboxRef]. rewrite elem_of_union, !elem_of_singleton. intros [-> | ->]; vm_compute; reflexivity. Qed.

Lemma supervisor_tick_witness :
  match reconcile_tick ∅ no_state_faults w_sup w_loopback w_dir (Some w_listeners) 1000000000 with
  | (p', w', _, _, _) => 6000 ∈ ps_listeners p' ∧ 5000 ∉ ps_listeners p' ∧ w' !! 4000 = None ∧ w' !! 5000 = Some "another process"%string
  end.
Proof.
  pose proof (supervisor_tick ∅ no_state_faults w_sup w_loopback w_dir w_listeners 1000000000 w_sup_inv) as H. cbv zeta in H.
  destruct (reconcile_tick ∅ no_state_faults w_sup w_loopback w_dir (Some w_listeners) 1000000000) as [[[[p' w'] d'] rep] ok].
  destruct H as (_ & _ & Hl & Hgone & Hsame & _).
  assert (H5 : 5000 ∉ ps_listeners p') by (rewrite Hl; intros [_ [Hc|Hc]]; revert Hc; [apply (bool_decide_unpack _); vm_compute; exact I|vm_compute; discriminate]).
  split; [apply Hl; split; [apply (bool_decide_unpack _); vm_compute; exact I|right; reflexivity]|]. split; [exact H5|]. split.
  - apply Hgone; apply (bool_decide_unpack _); vm_compute; exact I.
  - rewrite (Hsame 5000); [reflexivity| |exact H5]. apply (bool_decide_unpack _); vm_compute; exact I.
Defined.

Lemma forwards_reach_client_witness :
  match reconcile_tick ∅ no_state_faults w_sup w_loopback w_dir (Some w_listeners) 1000000000 with
  | (p', _, d', _, ok) =>
      ok = true ∧ (("proj/dev"%string, 3000) ∈ desiredSet (client_view (foldl run_op d' w_ops) "proj/dev") ∨ 3000 ∉ ps_listeners p')
  end.
Proof.
  pose proof (forwards_reach_client ∅ w_sup w_loopback w_dir w_listeners 1000000000 w_ops w_sup_inv) as H. cbv zeta in H.
  destruct (reconcile_tick ∅ no_state_faults w_sup w_loopback w_dir (Some w_listeners) 1000000000) as [[[[p' w'] d'] rep] ok].
  destruct H as (Hok & _ & Hmem).
  - intros n st e Hn. discriminate Hn.
  - discriminate.
  - repeat constructor; vm_compute; discriminate.
  - split; [exact Hok|]. destruct (decide (3000 ∈ ps_listeners p')) as [Hq|Hq]; [left|right; exact Hq]. apply Hmem. split; [reflexivity|exact Hq].
Defined.
