(* ===== verification/Hypervisor.v ===== *)
(** * internal/core/driver/cloudhypervisor: the driver

    [client.go], [driver.go] and [ch_virtiofs.go]: the client of the hypervisor's API, the configuration of a machine, and
    Start, Stop, Observe, Pause and Resume.  The hypervisor process is not part of the program: it is an interface
    ([Hypervisor]) with the documented behaviour the driver relies on as its laws ([HypervisorLaws]).  Files are the
    sandboxes that have one, processes their pids. *)

From stdpp Require Import prelude countable gmap strings list pretty.
From Stdlib Require Import ZArith Ascii Lia.
From S2P Require Import Prelude GoStrings GoIO Domain Sandbox Lifecycle StoreIface Store Recovery Netns.

(** ** client.go *)

Record vmInfoConfig := mkInfoConfig { ic_memory : option (Z * Z); ic_balloon : option Z }.
Record vmInfoResponse := mkInfo { vi_State : string; vi_Config : option vmInfoConfig }.

(** The body of an answer: an error array, an info document, or anything else. *)
Inductive Body := BOther | BError (causes : list string) | BInfo (i : vmInfoResponse).

(** [Refused]: ENOENT or ECONNREFUSED; [NoReply]: every other failure of the transport, a timeout included. *)
Inductive Reply := Refused | NoReply | Answer (status : Z) (body : Body).

Inductive call_error := CallAbsent | CallFailed.

#[global] Instance call_error_eq_dec : EqDecision call_error.
Proof. solve_decision. Defined.

Definition isAbsent (e : call_error) : bool := bool_decide (e = CallAbsent).

Definition isNoVM (causes : list string) : bool := bool_decide (causes !! 2%nat = Some "VM is not created"%string).
Definition isNotRunning (causes : list string) : bool := bool_decide (causes !! 2%nat = Some "VM is not running"%string).

(** A call that wants one of the given status codes. *)
Definition expect (codes : list Z) (r : Reply) : result call_error unit :=
  match r with
  | Refused => Err CallAbsent
  | NoReply => Err CallFailed
  | Answer s _ => if bool_decide (s ∈ codes) then Ok tt else Err CallFailed
  end.

Definition Ping : Reply → result call_error unit := expect [200].
Definition put204 : Reply → result call_error unit := expect [204].
Definition VMMShutdown : Reply → result call_error unit := expect [200; 204].

Definition VMShutdown (r : Reply) : result call_error unit :=
  match r with
  | Answer s b =>
      if s =? 500 then match b with BError cs => if isNotRunning cs || isNoVM cs then Ok tt else Err CallFailed | _ => Err CallFailed end
      else expect [204; 404; 405] r
  | _ => expect [204; 404; 405] r
  end.

Definition mapCHState (chState : string) : RunState * bool :=
  if String.eqb chState "Running" then (RSRunning, true)
  else if String.eqb chState "Paused" then (RSPaused, true)
  else (RSUnknown, false).

(** The information if there is a machine, its state, and the error if any. *)
Definition VMInfoFull (r : Reply) : option vmInfoResponse * RunState * option call_error :=
  match r with
  | Refused => (None, RSUnknown, Some CallAbsent)
  | NoReply => (None, RSUnknown, Some CallFailed)
  | Answer s b =>
      if s =? 200 then
        match b with
        | BInfo i => let '(st, ok) := mapCHState (vi_State i) in (Some i, st, if (ok : bool) then None else Some CallFailed)
        | _ => (None, RSUnknown, Some CallFailed)
        end
      else if s =? 500 then
        match b with BError cs => if isNoVM cs then (None, RSAbsent, None) else (None, RSUnknown, Some CallFailed) | _ => (None, RSUnknown, Some CallFailed) end
      else (None, RSUnknown, Some CallFailed)
  end.

(** ** The configuration of a machine *)

Record Config := mkConfig {
  cf_KernelPath : string;
  cf_InitramfsPath : string;
  cf_DiskImagePath : string;
  cf_DiskDir : string;
  cf_ExtraDisks : list string;
  cf_LiveMounts : list LiveMount;
  cf_Cmdline : string;
  cf_SerialOutputPath : string;
  cf_VCPUs : Z;
  cf_VCPUMax : Z;
  cf_MemoryMiB : Z;
  cf_MemoryMaxMiB : Z;
  cf_FreePageReporting : bool;
  cf_VirtiofsdPath : string;
  cf_NestedVirt : bool
}.

Record vmCPUsConfig := mkCPUs { vc_BootVCPUs : Z; vc_MaxVCPUs : Z; vc_Nested : bool }.
Record vmMemoryConfig := mkMemory { vm_SizeBytes : Z; vm_Shared : bool }.
Record balloonConfig := mkBalloon { bl_SizeBytes : Z; bl_DeflateOnOOM : bool; bl_FreePageReporting : bool }.
Record vmDiskConfig := mkDisk { vd_Path : string; vd_ImageType : string; vd_Direct : bool }.

Record vmConfig := mkVmConfig {
  vg_Kernel : string;
  vg_Cmdline : string;
  vg_Initramfs : string;
  vg_CPUs : vmCPUsConfig;
  vg_Memory : vmMemoryConfig;
  vg_Balloon : option balloonConfig;
  vg_Disks : list vmDiskConfig;
  vg_SerialFile : option string;
  vg_Tap : string;
  vg_Fs : list (string * nat)
}.

Definition defaultCmdline : string := "console=ttyS0".
Definition diskBootCmdline : string := "root=/dev/vda rw init=/sbin/nexus-agent console=ttyS0".
Definition memHotplugCmdline : string := " memhp_default_state=online memory_hotplug.online_policy=auto-movable".

Definition buildCmdline (base : string) (memoryMaxMiB : Z) : string :=
  if memoryMaxMiB =? 0 then base
  else match index_from (chars " --") (chars base) 0 with
       | Some idx => of_chars (take idx (chars base)) +:+ memHotplugCmdline +:+ of_chars (drop idx (chars base))
       | None => base +:+ memHotplugCmdline
       end.

Definition MiB : Z := 1024 * 1024.

Definition buildMemoryConfig (cfg : Config) (memMiB : Z) : vmMemoryConfig :=
  mkMemory (u64 ((if u32 memMiB <? cf_MemoryMaxMiB cfg then cf_MemoryMaxMiB cfg else memMiB) * MiB)) (bool_decide (cf_LiveMounts cfg ≠ [])).

Definition boot_vcpus (cfg : Config) : Z := if cf_VCPUs cfg =? 0 then 1 else cf_VCPUs cfg.
Definition boot_mem (cfg : Config) : Z := if cf_MemoryMiB cfg =? 0 then 512 else cf_MemoryMiB cfg.
Definition init_balloon (cfg : Config) : Z := if boot_mem cfg <? cf_MemoryMaxMiB cfg then cf_MemoryMaxMiB cfg - boot_mem cfg else 0.

Definition VirtiofsTag (idx : nat) : string := "nxfs" +:+ pretty idx.

(** [disk]: the resolved root disk; [fs]: the virtiofs devices. *)
Definition start_config (cfg : Config) (disk : string) (tap : string) (fs : list (string * nat)) : vmConfig :=
  let cmdline := if String.eqb (cf_Cmdline cfg) "" then if String.eqb disk "" then defaultCmdline else diskBootCmdline else cf_Cmdline cfg in
  mkVmConfig (cf_KernelPath cfg) (buildCmdline cmdline 0) (cf_InitramfsPath cfg)
    (mkCPUs (boot_vcpus cfg) (if boot_vcpus cfg <? cf_VCPUMax cfg then cf_VCPUMax cfg else boot_vcpus cfg) (cf_NestedVirt cfg))
    (buildMemoryConfig cfg (boot_mem cfg))
    (if boot_mem cfg <? cf_MemoryMaxMiB cfg then Some (mkBalloon (u64 (init_balloon cfg * MiB)) true true)
     else if cf_FreePageReporting cfg then Some (mkBalloon 0 true true) else None)
    (if String.eqb disk "" then [] else mkDisk disk "Raw" false :: ((λ p, mkDisk p "Raw" true) <$> cf_ExtraDisks cfg))
    (if String.eqb (cf_SerialOutputPath cfg) "" then None else Some (cf_SerialOutputPath cfg)) tap fs.

(** ** The hypervisor *)

Inductive Request := RPing | RInfo | RCreate (c : vmConfig) | RBoot | RPause | RResume | RShutdown | RDelete | RVmmShutdown.

(** One process per sandbox; [hv_spawn] is its start by the netns child, [hv_kill] its death. *)
Class Hypervisor (V : Type) := {
  hv_call : SandboxID → Request → V → V * Reply;
  hv_spawn : SandboxID → V → V;
  hv_kill : SandboxID → V → V;
  hv_alive : V → SandboxID → bool;
  hv_vm : V → SandboxID → option string
}.

Class HypervisorLaws (V : Type) `{!Hypervisor V} := {
  law_refused id r v v' : hv_call id r v = (v', Refused) → hv_alive v' id = false;
  law_vm_alive v id st : hv_vm v id = Some st → hv_alive v id = true;
  law_info id v v' i : hv_call id RInfo v = (v', Answer 200 (BInfo i)) → hv_vm v id = Some (vi_State i);
  law_info_none id v v' cs : hv_call id RInfo v = (v', Answer 500 (BError cs)) → isNoVM cs = true → hv_vm v id = None;
  law_get id id' r v : r = RPing ∨ r = RInfo → hv_alive (hv_call id r v).1 id' = hv_alive v id' ∧ hv_vm (hv_call id r v).1 id' = hv_vm v id';
  law_spawn_others id id' v : id' ≠ id → hv_alive (hv_spawn id v) id' = hv_alive v id' ∧ hv_vm (hv_spawn id v) id' = hv_vm v id';
  law_vmm_shutdown id v v' s b : hv_call id RVmmShutdown v = (v', Answer s b) → s ∈ [200; 204] → hv_alive v' id = false;
  law_kill id v : hv_alive (hv_kill id v) id = false;
  law_others id id' r v : id' ≠ id → hv_alive (hv_call id r v).1 id' = hv_alive v id' ∧ hv_vm (hv_call id r v).1 id' = hv_vm v id';
  law_kill_others id id' v : id' ≠ id → hv_alive (hv_kill id v) id' = hv_alive v id' ∧ hv_vm (hv_kill id v) id' = hv_vm v id'
}.

(** ** The driver's state *)

(** What [driver_resize.go] remembers of a machine's memory; its operations are in DriverResize. *)
Inductive MemoryMode := MemoryModeFlat | MemoryModeVirtioMem | MemoryModeBalloon.

#[global] Instance MemoryMode_eq_dec : EqDecision MemoryMode.
Proof. solve_decision. Defined.

Record vmMemState := mkMemState {
  ms_mode : MemoryMode;
  ms_bootMiB : Z;
  ms_totalMiB : Z;
  ms_balloon : Z;
  ms_driftFirstSeen : Time;
  ms_driftCount : Z
}.

(** A virtiofsd: its pid and the mount whose stage directory it owns, if any. *)
Record vfs_proc := mkVfs { vp_pid : Z; vp_stage : option nat }.

Record CHDriver := mkDriver {
  dv_nets : gmap SandboxID netState;
  dv_vfs : gmap SandboxID (list vfs_proc);
  dv_mem : gmap SandboxID vmMemState
}.

(** The files under the socket directory and the live processes. *)
Record Host := mkHost {
  ho_sock : gset SandboxID;
  ho_vsock : gset SandboxID;
  ho_iid : gmap SandboxID string;
  ho_vfsock : gset (SandboxID * nat);
  ho_stage : gset (SandboxID * nat);
  ho_procs : gset Z
}.

Record World (V : Type) := mkWorld { wo_driver : CHDriver; wo_host : Host; wo_hv : V }.
Arguments mkWorld {V}.
Arguments wo_driver {V}.
Arguments wo_host {V}.
Arguments wo_hv {V}.

Definition set_nets (d : CHDriver) n := mkDriver n (dv_vfs d) (dv_mem d).
Definition set_vfs (d : CHDriver) x := mkDriver (dv_nets d) x (dv_mem d).
Definition set_mem (d : CHDriver) x := mkDriver (dv_nets d) (dv_vfs d) x.
Definition with_procs (h : Host) (p : gset Z) := mkHost (ho_sock h) (ho_vsock h) (ho_iid h) (ho_vfsock h) (ho_stage h) p.

Definition add_vsock (id : SandboxID) (h : Host) : Host := mkHost (ho_sock h) ({[id]} ∪ ho_vsock h) (ho_iid h) (ho_vfsock h) (ho_stage h) (ho_procs h).

Definition storeMemState (id : SandboxID) (bootMiB totalMiB initBalloonMiB : Z) (d : CHDriver) : CHDriver :=
  set_mem d (<[id := mkMemState (if bootMiB <? totalMiB then MemoryModeBalloon else MemoryModeFlat) bootMiB totalMiB initBalloonMiB zero_time 0]> (dv_mem d)).

Section driver.
Context {V : Type} `{!Hypervisor V}.

Definition call (id : SandboxID) (r : Request) (w : World V) : World V * Reply :=
  let '(v, rep) := hv_call id r (wo_hv w) in (mkWorld (wo_driver w) (wo_host w) v, rep).

(** [teardownSandboxNet]: the child's group dies, and the hypervisor with it. *)
Definition teardownSandboxNet (id : SandboxID) (w : World V) : World V :=
  match dv_nets (wo_driver w) !! id with
  | None => w
  | Some ns =>
      mkWorld (set_nets (wo_driver w) (delete id (dv_nets (wo_driver w))))
        (with_procs (wo_host w) (ho_procs (wo_host w) ∖ {[rt_ChildPID (nt_rt ns)]})) (hv_kill id (wo_hv w))
  end.

Definition clear_files (id : SandboxID) (h : Host) : Host :=
  mkHost (ho_sock h ∖ {[id]}) (ho_vsock h ∖ {[id]}) (delete id (ho_iid h)) (ho_vfsock h) (ho_stage h) (ho_procs h).

(** The virtiofsd processes with their sockets and stage directories. *)
Definition clear_vfs (id : SandboxID) (ps : list vfs_proc) (h : Host) : Host :=
  mkHost (ho_sock h) (ho_vsock h) (ho_iid h)
    (ho_vfsock h ∖ list_to_set ((λ i, (id, i)) <$> seq 0 (length ps)))
    (ho_stage h ∖ list_to_set ((λ i, (id, i)) <$> omap vp_stage ps))
    (ho_procs h ∖ list_to_set (vp_pid <$> ps)).

(** The driver drops the errors of [os.Remove] here; the removals are taken to work. *)
Definition clearState (id : SandboxID) (w : World V) : World V :=
  let d := wo_driver w in
  let h := clear_files id (wo_host w) in
  let ps := default [] (dv_vfs d !! id) in
  let w := teardownSandboxNet id (mkWorld (set_vfs d (delete id (dv_vfs d))) (clear_vfs id ps h) (wo_hv w)) in
  let d := wo_driver w in
  mkWorld (set_mem d (delete id (dv_mem d))) (wo_host w) (wo_hv w).

(** ** Observe, Pause, Resume *)

Definition readInstanceID (id : SandboxID) (w : World V) : string := default "" (ho_iid (wo_host w) !! id).

Definition Observe (id : SandboxID) (w : World V) : Observation * option string :=
  let '(_, state, err) := VMInfoFull (call id RInfo w).2 in
  match err with
  | Some CallAbsent => (mkObservation RSAbsent "", None)
  | Some CallFailed => (mkObservation RSUnknown "", Some "observe"%string)
  | None => (mkObservation state (match state with RSRunning | RSPaused => readInstanceID id w | _ => "" end), None)
  end.

Definition Pause (id : SandboxID) (w : World V) : World V * result call_error unit := let '(w, r) := call id RPause w in (w, put204 r).
Definition Resume (id : SandboxID) (w : World V) : World V * result call_error unit := let '(w, r) := call id RResume w in (w, put204 r).

(** ** Stop *)

Definition Stop (id : SandboxID) (w : World V) : World V * bool :=
  let '(w, r) := call id RShutdown w in
  match VMShutdown r with
  | Err CallAbsent => (clearState id w, true)
  | _ =>
      let '(w, _) := call id RDelete w in
      let '(w, r) := call id RVmmShutdown w in
      match VMMShutdown r with
      | Err CallFailed => (w, false)
      | _ => (clearState id w, true)
      end
  end.

(** ** Start *)

Inductive start_error :=
| SeNoKernel | SeRootDisk | SeAlreadyBound | SePreflight | SeNetns | SeNotReady | SeNested | SeVirtiofs | SeCreate | SeBoot | SeInstanceID.

(** What the operating system answers: whether a path exists, the started child, how many pings fit into the timeout, and the
    outcome of each further step. *)
Record StartIO := mkStartIO {
  io_stat : string → bool;
  io_netns : option NetnsRuntime;
  io_pings : nat;
  io_nested : bool;
  io_unshare : bool;
  io_stage : nat → bool;
  io_spawn : nat → option Z;
  io_iid : option string;
  io_write_iid : bool
}.

Definition root_disk (cfg : Config) (io : StartIO) (id : SandboxID) : string :=
  let candidate := cf_DiskDir cfg +:+ "/" +:+ SandboxID_String id +:+ ".raw" in
  if String.eqb (cf_DiskImagePath cfg) "" && negb (String.eqb (cf_DiskDir cfg) "") && io_stat io candidate then candidate else cf_DiskImagePath cfg.

(** [spawnVirtiofsdForMounts] from mount [i] on: each process is registered as soon as it runs. *)
Fixpoint spawn_mounts (io : StartIO) (id : SandboxID) (i : nat) (mounts : list LiveMount) (w : World V) (acc : list (string * nat))
    : World V * result start_error (list (string * nat)) :=
  match mounts with
  | [] => (w, Ok acc)
  | lm :: mounts =>
      let d := wo_driver w in let h := wo_host w in
      if lm_IsFile lm && negb (io_stage io i) then (w, Err SeVirtiofs)
      else
        match io_spawn io i with
        | None => (mkWorld d (mkHost (ho_sock h) (ho_vsock h) (ho_iid h) (ho_vfsock h ∖ {[(id, i)]}) (ho_stage h ∖ (if lm_IsFile lm then {[(id, i)]} else ∅)) (ho_procs h)) (wo_hv w),
                   Err SeVirtiofs)
        | Some pid =>
            let p := mkVfs pid (if lm_IsFile lm then Some i else None) in
            let h := mkHost (ho_sock h) (ho_vsock h) (ho_iid h) ({[(id, i)]} ∪ ho_vfsock h)
                       ((if lm_IsFile lm then {[(id, i)]} else ∅) ∪ ho_stage h) ({[pid]} ∪ ho_procs h) in
            let d := set_vfs d (<[id := default [] (dv_vfs d !! id) ++ [p]]> (dv_vfs d)) in
            spawn_mounts io id (S i) mounts (mkWorld d h (wo_hv w)) (acc ++ [(VirtiofsTag i, i)])
        end
  end.

Definition spawnVirtiofsdForMounts (cfg : Config) (io : StartIO) (id : SandboxID) (w : World V) : World V * result start_error (list (string * nat)) :=
  match cf_LiveMounts cfg with
  | [] => (w, Ok [])
  | mounts =>
      if String.eqb (cf_VirtiofsdPath cfg) "" then (w, Err SeVirtiofs)
      else if existsb lm_IsFile mounts && negb (io_unshare io) then (w, Err SeVirtiofs)
      else spawn_mounts io id 0 mounts w []
  end.

(** Pings until one succeeds or the time is up. *)
Fixpoint poll (id : SandboxID) (n : nat) (w : World V) : World V * bool :=
  match n with
  | O => (w, false)
  | S n => let '(w, r) := call id RPing w in match Ping r with Ok _ => (w, true) | Err _ => poll id n w end
  end.

(** From the registered child to the stored instance. *)
Definition start_vm (cfg : Config) (io : StartIO) (id : SandboxID) (disk : string) (rt : NetnsRuntime) (w : World V) : World V * result start_error string :=
  let '(w, ready) := poll id (io_pings io) w in
  if negb ready then (clearState id w, Err SeNotReady)
  else if cf_NestedVirt cfg && negb (io_nested io) then (clearState id w, Err SeNested)
  else
    let '(w, fs) := spawnVirtiofsdForMounts cfg io id w in
    match fs with
    | Err e => (clearState id w, Err e)
    | Ok fs =>
        let '(w, r) := call id (RCreate (start_config cfg disk (rt_GuestTap rt) fs)) w in
        match put204 r with
        | Err _ => (clearState id w, Err SeCreate)
        | Ok _ =>
            let w := mkWorld (wo_driver w) (add_vsock id (wo_host w)) (wo_hv w) in
            let '(w, r) := call id RBoot w in
            match put204 r with
            | Err _ => (clearState id w, Err SeBoot)
            | Ok _ =>
                match io_iid io with
                | None => (clearState id w, Err SeInstanceID)
                | Some iid =>
                    if negb (io_write_iid io) then (clearState id w, Err SeInstanceID)
                    else
                      let h := wo_host w in
                      let h := mkHost (ho_sock h) (ho_vsock h) (<[id := iid]> (ho_iid h)) (ho_vfsock h) (ho_stage h) (ho_procs h) in
                      (mkWorld (storeMemState id (boot_mem cfg) (cf_MemoryMaxMiB cfg) (init_balloon cfg) (wo_driver w)) h (wo_hv w), Ok iid)
                end
            end
        end
    end.

Definition Start (cfg : Config) (io : StartIO) (id : SandboxID) (w : World V) : World V * result start_error string :=
  if String.eqb (cf_KernelPath cfg) "" then (w, Err SeNoKernel)
  else
    let disk := root_disk cfg io id in
    if negb (String.eqb disk "") && negb (io_stat io disk) then (w, Err SeRootDisk)
    else
      let '(w, r) := call id RPing w in
      match Ping r with
      | Ok _ => (w, Err SeAlreadyBound)
      | Err CallFailed => (w, Err SePreflight)
      | Err CallAbsent =>
          let h := wo_host w in
          let w := mkWorld (wo_driver w) (mkHost (ho_sock h ∖ {[id]}) (ho_vsock h) (ho_iid h) (ho_vfsock h) (ho_stage h) (ho_procs h)) (wo_hv w) in
          match io_netns io with
          | None => (w, Err SeNetns)
          | Some rt =>
              let d := wo_driver w in let h := wo_host w in
              start_vm cfg io id disk rt
                (mkWorld (set_nets d (<[id := mkNetState rt (rt_PerimConn rt) false]> (dv_nets d)))
                   (mkHost ({[id]} ∪ ho_sock h) (ho_vsock h) (ho_iid h) (ho_vfsock h) (ho_stage h) ({[rt_ChildPID rt]} ∪ ho_procs h)) (hv_spawn id (wo_hv w)))
          end
      end.

End driver.

(** ** What concerns one sandbox only *)

Section facts.
Context {V : Type} `{!Hypervisor V}.

Implicit Types (w : World V) (id : SandboxID).

(** Nothing of any other sandbox differs, the hypervisor's part included. *)
Record same_others (id : SandboxID) (w w' : World V) : Prop := {
  so_nets : ∀ id', id' ≠ id → dv_nets (wo_driver w') !! id' = dv_nets (wo_driver w) !! id';
  so_vfs : ∀ id', id' ≠ id → dv_vfs (wo_driver w') !! id' = dv_vfs (wo_driver w) !! id';
  so_mem : ∀ id', id' ≠ id → dv_mem (wo_driver w') !! id' = dv_mem (wo_driver w) !! id';
  so_sock : ∀ id', id' ≠ id → id' ∈ ho_sock (wo_host w') ↔ id' ∈ ho_sock (wo_host w);
  so_vsock : ∀ id', id' ≠ id → id' ∈ ho_vsock (wo_host w') ↔ id' ∈ ho_vsock (wo_host w);
  so_iid : ∀ id', id' ≠ id → ho_iid (wo_host w') !! id' = ho_iid (wo_host w) !! id';
  so_vfsock : ∀ id' i, id' ≠ id → (id', i) ∈ ho_vfsock (wo_host w') ↔ (id', i) ∈ ho_vfsock (wo_host w);
  so_stage : ∀ id' i, id' ≠ id → (id', i) ∈ ho_stage (wo_host w') ↔ (id', i) ∈ ho_stage (wo_host w);
  so_hv : ∀ id', id' ≠ id → hv_alive (wo_hv w') id' = hv_alive (wo_hv w) id' ∧ hv_vm (wo_hv w') id' = hv_vm (wo_hv w) id'
}.

#[global] Instance same_others_refl id : Reflexive (same_others id).
Proof. intros w. by split. Qed.

#[global] Instance same_others_trans id : Transitive (same_others id).
Proof.
  intros w1 w2 w3 [A1 A2 A3 A4 A5 A6 A7 A8 A9] [B1 B2 B3 B4 B5 B6 B7 B8 B9]. split; intros.
  1-3,6: by rewrite B1 + rewrite B2 + rewrite B3 + rewrite B6; auto.
  1-2: by rewrite B4 + rewrite B5; auto.
  1-2: by rewrite B7 + rewrite B8; auto.
  destruct (A9 id') as [E1 E2]; [done|]. destruct (B9 id') as [E3 E4]; [done|]. by rewrite E3, E4.
Qed.

(** No table, file or socket of the sandbox is left. *)
Record nothing_of (id : SandboxID) (w : World V) : Prop := {
  no_nets : dv_nets (wo_driver w) !! id = None;
  no_vfs : dv_vfs (wo_driver w) !! id = None;
  no_mem : dv_mem (wo_driver w) !! id = None;
  no_sock : id ∉ ho_sock (wo_host w);
  no_vsock : id ∉ ho_vsock (wo_host w);
  no_iid : ho_iid (wo_host w) !! id = None;
  no_vfsock : ∀ i, (id, i) ∉ ho_vfsock (wo_host w);
  no_stage : ∀ i, (id, i) ∉ ho_stage (wo_host w)
}.

(** The sockets and stage directories of the sandbox belong to registered processes. *)
Definition tracked (id : SandboxID) (w : World V) : Prop :=
  let ps := default [] (dv_vfs (wo_driver w) !! id) in
  (∀ i, (id, i) ∈ ho_vfsock (wo_host w) → (i < length ps)%nat) ∧ (∀ i, (id, i) ∈ ho_stage (wo_host w) → i ∈ omap vp_stage ps).

(** The processes the driver has registered for the sandbox. *)
Definition procs_of (id : SandboxID) (w : World V) : gset Z :=
  (match dv_nets (wo_driver w) !! id with Some ns => {[rt_ChildPID (nt_rt ns)]} | None => ∅ end) ∪
  list_to_set (vp_pid <$> default [] (dv_vfs (wo_driver w) !! id)).

Lemma elem_of_indexed id id' i (l : list nat) : (id', i) ∈ (list_to_set ((λ j, (id, j)) <$> l) : gset (SandboxID * nat)) ↔ id' = id ∧ i ∈ l.
Proof. rewrite elem_of_list_to_set, list_elem_of_fmap. naive_solver. Qed.

Context `{!HypervisorLaws V}.

Lemma call_world id r w :
  let '(w', rep) := call id r w in
  hv_call id r (wo_hv w) = (wo_hv w', rep) ∧ wo_driver w' = wo_driver w ∧ wo_host w' = wo_host w ∧ same_others id w w'.
Proof.
  unfold call. destruct (hv_call id r (wo_hv w)) as [v rep] eqn:E. do 3 (split; [done|]). split; try done.
  intros id' Hne. simpl. pose proof (law_others id id' r (wo_hv w) Hne) as H. by rewrite E in H.
Qed.

Lemma poll_world id n w :
  let '(w', ok) := poll id n w in wo_driver w' = wo_driver w ∧ wo_host w' = wo_host w ∧ same_others id w w'.
Proof.
  revert w. induction n as [|n IH]; intros w; cbn [poll]; [done|]. pose proof (call_world id RPing w) as Hc. destruct (call id RPing w) as [w1 r].
  destruct Hc as (_ & Hd & Hh & Hs). destruct (Ping r); [done|]. specialize (IH w1). destruct (poll id n w1) as [w' ok].
  destruct IH as (-> & -> & ?). split; [done|]. split; [done|]. by etrans.
Qed.

Lemma teardown_world id w :
  let w' := teardownSandboxNet id w in
  dv_nets (wo_driver w') = delete id (dv_nets (wo_driver w)) ∧ dv_vfs (wo_driver w') = dv_vfs (wo_driver w) ∧ dv_mem (wo_driver w') = dv_mem (wo_driver w) ∧
  wo_host w' = with_procs (wo_host w) (ho_procs (wo_host w) ∖ match dv_nets (wo_driver w) !! id with Some ns => {[rt_ChildPID (nt_rt ns)]} | None => ∅ end) ∧
  same_others id w w' ∧ (hv_alive (wo_hv w) id = false ∨ is_Some (dv_nets (wo_driver w) !! id) → hv_alive (wo_hv w') id = false).
Proof.
  unfold teardownSandboxNet. destruct (dv_nets (wo_driver w) !! id) as [ns|] eqn:E; simpl.
  - do 4 (split; [done|]). split; [|intros _; apply law_kill]. split; simpl; try done; intros; [by rewrite lookup_delete_ne|]. by apply law_kill_others.
  - split; [by rewrite delete_id|]. do 2 (split; [done|]). split; [|split; [done|by intros [?|[? ?]]]].
    rewrite difference_empty_L. by destruct (wo_host w).
Qed.

Lemma clearState_spec id w :
  tracked id w →
  let w' := clearState id w in
  nothing_of id w' ∧ same_others id w w' ∧ ho_procs (wo_host w') = ho_procs (wo_host w) ∖ procs_of id w ∧
  (hv_alive (wo_hv w) id = false ∨ is_Some (dv_nets (wo_driver w) !! id) → hv_alive (wo_hv w') id = false).
Proof.
  intros [Hv Hs]. unfold clearState. set (ps := default [] (dv_vfs (wo_driver w) !! id)) in *.
  set (w1 := mkWorld (set_vfs _ _) _ _). destruct (teardown_world id w1) as (Hn & Hvf & Hm & Hh & Hso & Ha).
  assert (Hso1 : same_others id w w1).
  { split; simpl; try done; intros; rewrite ?lookup_delete_ne by done; try done.
    1-2: rewrite elem_of_difference, elem_of_singleton; tauto.
    all: rewrite elem_of_difference, elem_of_indexed; tauto. }
  split; [|split; [|split]].
  - split; simpl; rewrite ?Hn, ?Hvf, ?Hm, ?Hh; unfold w1; simpl; try (by apply lookup_delete_eq).
    1-2: rewrite elem_of_difference, elem_of_singleton; by intros [_ []].
    + intros i. rewrite elem_of_difference, elem_of_indexed. intros [Hi Hni]. apply Hni. split; [done|]. apply elem_of_seq. specialize (Hv i Hi). lia.
    + intros i. rewrite elem_of_difference, elem_of_indexed. intros [Hi Hni]. apply Hni. split; [done|]. by apply Hs.
  - etrans; [exact Hso1|]. etrans; [exact Hso|]. split; simpl; try done. intros. by rewrite lookup_delete_ne.
  - simpl. rewrite Hh. simpl. unfold procs_of. fold ps. rewrite difference_difference_l_L. f_equal. apply (comm_L (∪)).
  - intros H. simpl. apply Ha. exact H.
Qed.

(** ** Starting *)

(** Between the registration of the child and the answer: what differs from [w0] is of the sandbox and registered. *)
Record starting (id : SandboxID) (rt : NetnsRuntime) (w0 w : World V) : Prop := {
  sg_nets : ∃ ns, dv_nets (wo_driver w) !! id = Some ns ∧ nt_rt ns = rt;
  sg_others : same_others id w0 w;
  sg_tracked : tracked id w;
  sg_procs : ho_procs (wo_host w) ⊆ ho_procs (wo_host w0) ∪ procs_of id w
}.

Lemma starting_same id rt w0 w w' :
  wo_driver w' = wo_driver w → wo_host w' = wo_host w → same_others id w w' → starting id rt w0 w → starting id rt w0 w'.
Proof.
  intros Hd Hh Hs [H1 H2 H3 H4]. split.
  - by rewrite Hd.
  - by etrans.
  - unfold tracked. by rewrite Hd, Hh.
  - unfold procs_of. by rewrite Hd, Hh.
Qed.

(** Failing from there leaves nothing behind. *)
Definition clean_failure (id : SandboxID) (w0 w : World V) : Prop :=
  nothing_of id w ∧ same_others id w0 w ∧ ho_procs (wo_host w) ⊆ ho_procs (wo_host w0) ∧ hv_alive (wo_hv w) id = false.

Lemma starting_cleared id rt w0 w : starting id rt w0 w → clean_failure id w0 (clearState id w).
Proof.
  intros [(ns & Hns & _) Ho Ht Hp]. destruct (clearState_spec id w Ht) as (Hn & Hs & Hpr & Ha). split; [done|]. split; [by etrans|].
  split; [rewrite Hpr; set_solver|]. apply Ha. right. eauto.
Qed.

Lemma starting_spawned id rt w0 w i lm pid :
  starting id rt w0 w → length (default [] (dv_vfs (wo_driver w) !! id)) = i →
  let d := wo_driver w in let h := wo_host w in
  let p := mkVfs pid (if lm_IsFile lm then Some i else None) in
  let w' := mkWorld (set_vfs d (<[id := default [] (dv_vfs d !! id) ++ [p]]> (dv_vfs d)))
    (mkHost (ho_sock h) (ho_vsock h) (ho_iid h) ({[(id, i)]} ∪ ho_vfsock h) ((if lm_IsFile lm then {[(id, i)]} else ∅) ∪ ho_stage h) ({[pid]} ∪ ho_procs h)) (wo_hv w) in
  starting id rt w0 w'.
Proof.
  intros [H1 H2 H3 H4] Hlen d h p w'. split; [done| | |].
  - etrans; [exact H2|]. split; simpl; try done; intros; rewrite ?lookup_insert_ne by done; try done; [|destruct (lm_IsFile lm)]; set_solver.
  - destruct H3 as [Hv Hs]. unfold tracked. simpl. rewrite lookup_insert_eq. simpl. rewrite length_app. simpl. fold d. split.
    + intros j. rewrite elem_of_union, elem_of_singleton. intros [[= ->]|Hj]; [subst i; unfold d; lia|]. specialize (Hv j Hj). unfold d. lia.
    + intros j. rewrite omap_app, elem_of_app. simpl. destruct (lm_IsFile lm); simpl.
      * rewrite elem_of_union, elem_of_singleton. intros [[= ->]|Hj]; [right; left|left; by apply Hs].
      * rewrite union_empty_l_L. intros Hj. left. by apply Hs.
  - unfold procs_of. simpl. rewrite lookup_insert_eq. simpl. rewrite fmap_app, list_to_set_app_L. simpl. unfold procs_of in H4. fold d in H4. fold h in H4. set_solver.
Qed.

Lemma spawn_mounts_spec io id rt w0 i mounts w acc :
  starting id rt w0 w → length (default [] (dv_vfs (wo_driver w) !! id)) = i →
  let '(w', r) := spawn_mounts io id i mounts w acc in
  starting id rt w0 w' ∧ wo_hv w' = wo_hv w ∧
  match r with
  | Ok fs => fs = acc ++ ((λ j, (VirtiofsTag j, j)) <$> seq i (length mounts)) ∧
      length (default [] (dv_vfs (wo_driver w') !! id)) = (i + length mounts)%nat ∧
      ∀ j, (i ≤ j < i + length mounts)%nat → (id, j) ∈ ho_vfsock (wo_host w')
  | Err e => e = SeVirtiofs
  end.
Proof.
  assert (Hkeep : ∀ io id i mounts w acc, let '(w', _) := spawn_mounts io id i mounts w acc in ∀ j, (j < i)%nat → (id, j) ∈ ho_vfsock (wo_host w) → (id, j) ∈ ho_vfsock (wo_host w')).
  { clear. intros io id i mounts. revert i. induction mounts as [|lm mounts IH]; intros i w acc; cbn [spawn_mounts]; [done|].
    destruct (lm_IsFile lm && negb (io_stage io i)); [done|]. destruct (io_spawn io i) as [pid|]; [|simpl; intros j Hj; rewrite elem_of_difference, elem_of_singleton; intros Hin; split; [done|naive_solver lia]].
    set (w1 := mkWorld _ _ _). specialize (IH (S i) w1 (acc ++ [(VirtiofsTag i, i)])). destruct (spawn_mounts io id (S i) mounts w1 _) as [w' r].
    intros j Hj Hin. apply IH; [lia|]. simpl. set_solver. }
  revert i w acc. induction mounts as [|lm mounts IH]; intros i w acc Hs Hlen; cbn [spawn_mounts].
  { split; [done|]. split; [done|]. rewrite app_nil_r. split; [done|]. split; [rewrite Hlen; simpl; lia|]. simpl. intros j. lia. }
  destruct (lm_IsFile lm && negb (io_stage io i)); [done|]. destruct (io_spawn io i) as [pid|].
  - pose proof (starting_spawned id rt w0 w i lm pid Hs Hlen) as Hs1. cbv zeta in Hs1. set (w1 := mkWorld _ _ _) in Hs1 |- *.
    assert (Hlen1 : length (default [] (dv_vfs (wo_driver w1) !! id)) = S i) by (simpl; rewrite lookup_insert_eq; simpl; rewrite length_app; simpl; lia).
    specialize (IH (S i) w1 (acc ++ [(VirtiofsTag i, i)]) Hs1 Hlen1). pose proof (Hkeep io id (S i) mounts w1 (acc ++ [(VirtiofsTag i, i)])) as Hk.
    destruct (spawn_mounts io id (S i) mounts w1 _) as [w' [fs|e]]; destruct IH as (H1 & H2 & H3); (split; [done|]; split; [done|]); [|done].
    destruct H3 as (-> & Hl & Hall). split; [simpl; by rewrite <- app_assoc|]. split; [simpl; lia|]. intros j Hj. simpl in Hj.
    destruct (decide (j = i)) as [->|]; [apply Hk; [lia|simpl; set_solver]|apply Hall; lia].
  - split; [|done]. destruct Hs as [H1 H2 [Hv Hst] H4]. split; simpl; try done.
    + etrans; [exact H2|]. split; simpl; try done; intros; [|destruct (lm_IsFile lm)]; set_solver.
    + split; simpl; intros j Hj; [apply Hv|apply Hst]; [set_solver|destruct (lm_IsFile lm); set_solver].
Qed.

Lemma spawnVirtiofsd_spec cfg io id rt w0 w :
  starting id rt w0 w → default [] (dv_vfs (wo_driver w) !! id) = [] →
  let '(w', r) := spawnVirtiofsdForMounts cfg io id w in
  starting id rt w0 w' ∧ wo_hv w' = wo_hv w ∧
  match r with
  | Ok fs => fs = (λ j, (VirtiofsTag j, j)) <$> seq 0 (length (cf_LiveMounts cfg)) ∧
      length (default [] (dv_vfs (wo_driver w') !! id)) = length (cf_LiveMounts cfg) ∧
      ∀ j, (j < length (cf_LiveMounts cfg))%nat → (id, j) ∈ ho_vfsock (wo_host w')
  | Err e => e = SeVirtiofs
  end.
Proof.
  intros Hs He. unfold spawnVirtiofsdForMounts. destruct (cf_LiveMounts cfg) as [|lm mounts] eqn:El.
  { split; [done|]. split; [done|]. split; [done|]. split; [by rewrite He|]. simpl. intros j. lia. }
  destruct (String.eqb (cf_VirtiofsdPath cfg) ""); [done|]. destruct (existsb lm_IsFile (lm :: mounts) && negb (io_unshare io)); [done|].
  pose proof (spawn_mounts_spec io id rt w0 0 (lm :: mounts) w [] Hs ltac:(by rewrite He)) as H.
  destruct (spawn_mounts io id 0 (lm :: mounts) w []) as [w' [fs|e]]; destruct H as (H1 & H2 & H3); [|done].
  split; [done|]. split; [done|]. destruct H3 as (-> & Hl & Hall). split; [done|]. split; [done|]. intros j Hj. apply Hall. lia.
Qed.

(** What a successful start leaves: the machine was created with the configuration of the sandbox once all its virtiofs sockets
    were served, then booted; child, instance and memory are recorded. *)
Record started_ok (cfg : Config) (io : StartIO) (id : SandboxID) (rt : NetnsRuntime) (w0 w : World V) (iid : string) : Prop := {
  sk_others : same_others id w0 w;
  sk_tracked : tracked id w;
  sk_nets : ∃ ns, dv_nets (wo_driver w) !! id = Some ns ∧ nt_rt ns = rt;
  sk_vfs : length (default [] (dv_vfs (wo_driver w) !! id)) = length (cf_LiveMounts cfg);
  sk_vfsock : ∀ j, (j < length (cf_LiveMounts cfg))%nat → (id, j) ∈ ho_vfsock (wo_host w);
  sk_created : ∃ v b, let fs := (λ j, (VirtiofsTag j, j)) <$> seq 0 (length (cf_LiveMounts cfg)) in
    let '(v1, r1) := hv_call id (RCreate (start_config cfg (root_disk cfg io id) (rt_GuestTap rt) fs)) v in
    put204 r1 = Ok tt ∧ hv_call id RBoot v1 = (wo_hv w, b) ∧ put204 b = Ok tt;
  sk_iid : io_iid io = Some iid ∧ ho_iid (wo_host w) !! id = Some iid;
  sk_mem : dv_mem (wo_driver w) !! id =
    Some (mkMemState (if boot_mem cfg <? cf_MemoryMaxMiB cfg then MemoryModeBalloon else MemoryModeFlat) (boot_mem cfg) (cf_MemoryMaxMiB cfg) (init_balloon cfg) zero_time 0)
}.

Lemma start_vm_spec cfg io id rt w0 w :
  starting id rt w0 w → default [] (dv_vfs (wo_driver w) !! id) = [] →
  let '(w', r) := start_vm cfg io id (root_disk cfg io id) rt w in
  match r with Ok iid => started_ok cfg io id rt w0 w' iid | Err _ => clean_failure id w0 w' end.
Proof.
  intros Hs He. unfold start_vm. pose proof (poll_world id (io_pings io) w) as Hp. destruct (poll id (io_pings io) w) as [w1 ready].
  destruct Hp as (Hd & Hh & Ho). assert (Hs1 : starting id rt w0 w1) by by eapply starting_same. rewrite <- Hd in He. clear Hs Hd Hh Ho.
  destruct ready; cbn [negb]; [|by eapply starting_cleared]. destruct (cf_NestedVirt cfg && negb (io_nested io)); [by eapply starting_cleared|].
  pose proof (spawnVirtiofsd_spec cfg io id rt w0 w1 Hs1 He) as Hv. destruct (spawnVirtiofsdForMounts cfg io id w1) as [w2 [fs|e]]; [|by eapply starting_cleared; apply Hv].
  destruct Hv as (Hs2 & _ & -> & Hlen & Hsock). set (c := start_config _ _ _ _).
  pose proof (call_world id (RCreate c) w2) as Hc. destruct (call id (RCreate c) w2) as [w3 r]. destruct Hc as (Ec & Hd & Hh & Ho).
  assert (Hs3 : starting id rt w0 w3) by by eapply starting_same. destruct (put204 r) as [[]|] eqn:Er; [|by eapply starting_cleared].
  set (w3' := mkWorld (wo_driver w3) (add_vsock id (wo_host w3)) (wo_hv w3)).
  assert (Hs3' : starting id rt w0 w3').
  { destruct Hs3 as [A1 A2 A3 A4]. split; try done. etrans; [exact A2|]. split; simpl; try done. intros id' Hne. rewrite elem_of_union, elem_of_singleton. tauto. }
  pose proof (call_world id RBoot w3') as Hb. destruct (call id RBoot w3') as [w4 b]. destruct Hb as (Eb & Hd4 & Hh4 & Ho4).
  assert (Hs4 : starting id rt w0 w4) by by eapply starting_same. destruct (put204 b) as [[]|] eqn:Ebr; [|by eapply starting_cleared].
  destruct (io_iid io) as [iid|] eqn:Ei; [|by eapply starting_cleared]. destruct (io_write_iid io); cbn [negb]; [|by eapply starting_cleared].
  destruct Hs4 as [A1 A2 A3 A4]. split; simpl; try done.
  - etrans; [exact A2|]. split; simpl; try done; intros; by rewrite lookup_insert_ne.
  - rewrite Hd4. simpl. by rewrite Hd.
  - intros j Hj. rewrite Hh4. simpl. rewrite Hh. by apply Hsock.
  - exists (wo_hv w2), b. unfold c in Ec. rewrite Ec. split; [done|]. split; [exact Eb|done].
  - split; [done|]. by rewrite lookup_insert_eq.
  - by rewrite lookup_insert_eq.
Qed.

(** Errors that are raised only once the child exists. *)
Definition late (e : start_error) : bool :=
  match e with SeNoKernel | SeRootDisk | SeAlreadyBound | SePreflight | SeNetns => false | _ => true end.

Lemma spawnVirtiofsd_error cfg io id w : match (spawnVirtiofsdForMounts cfg io id w).2 with Ok _ => True | Err e => e = SeVirtiofs end.
Proof.
  unfold spawnVirtiofsdForMounts. destruct (cf_LiveMounts cfg) as [|lm mounts]; [done|]. destruct (String.eqb _ _); [done|].
  destruct (existsb _ _ && _); [done|]. generalize (lm :: mounts), 0%nat, (@nil (string * nat)), w. clear. intros l. induction l as [|lm l IH]; intros i acc w; [done|].
  cbn [spawn_mounts]. destruct (lm_IsFile lm && negb (io_stage io i)); [done|]. destruct (io_spawn io i); [apply IH|done].
Qed.

Lemma start_vm_late cfg io id disk rt w : match (start_vm cfg io id disk rt w).2 with Ok _ => True | Err e => late e = true end.
Proof.
  unfold start_vm. destruct (poll id (io_pings io) w) as [w1 []]; cbn [negb]; [|done]. destruct (cf_NestedVirt cfg && negb (io_nested io)); [done|].
  pose proof (spawnVirtiofsd_error cfg io id w1) as Hsv. destruct (spawnVirtiofsdForMounts cfg io id w1) as [w2 [fs|e0]]; [|simpl in *; by subst].
  destruct (call id (RCreate _) _) as [w3 r1]. destruct (put204 r1); [|done]. destruct (call id RBoot _) as [w4 r2]. destruct (put204 r2); [|done].
  destruct (io_iid io); [|done]. by destruct (io_write_iid io).
Qed.

Lemma Start_cases cfg io id w :
  tracked id w → dv_vfs (wo_driver w) !! id = None →
  let '(w', r) := Start cfg io id w in
  same_others id w w' ∧
  match r with
  | Ok iid => ∃ rt, io_netns io = Some rt ∧ started_ok cfg io id rt w w' iid
  | Err (SeNoKernel | SeRootDisk | SeAlreadyBound | SePreflight) =>
      wo_driver w' = wo_driver w ∧ wo_host w' = wo_host w ∧ hv_alive (wo_hv w') id = hv_alive (wo_hv w) id ∧ hv_vm (wo_hv w') id = hv_vm (wo_hv w) id
  | Err SeNetns => wo_driver w' = wo_driver w ∧ ho_procs (wo_host w') = ho_procs (wo_host w) ∧ ho_iid (wo_host w') = ho_iid (wo_host w) ∧ hv_alive (wo_hv w') id = false
  | Err _ => nothing_of id w' ∧ ho_procs (wo_host w') ⊆ ho_procs (wo_host w) ∧ hv_alive (wo_hv w') id = false
  end.
Proof.
  intros Ht Hv. unfold Start. destruct (String.eqb (cf_KernelPath cfg) ""); [done|].
  destruct (negb (String.eqb (root_disk cfg io id) "") && negb (io_stat io (root_disk cfg io id))); [done|].
  pose proof (call_world id RPing w) as Hc. destruct (call id RPing w) as [w1 r] eqn:E1. destruct Hc as (Ec & Hd & Hh & Ho).
  assert (Hg : hv_alive (wo_hv w1) id = hv_alive (wo_hv w) id ∧ hv_vm (wo_hv w1) id = hv_vm (wo_hv w) id).
  { pose proof (law_get id id RPing (wo_hv w) (or_introl eq_refl)) as Hg. by rewrite Ec in Hg. }
  destruct (Ping r) as [[]|[]] eqn:Er; [done| |done].
  assert (Hdead : hv_alive (wo_hv w1) id = false).
  { destruct r as [| |s b]; [by eapply law_refused|done|]. unfold Ping, expect in Er. by case_bool_decide. }
  set (w2 := mkWorld (wo_driver w1) _ _).
  assert (Ho2 : same_others id w w2).
  { etrans; [exact Ho|]. split; simpl; try done. intros id' Hne. rewrite elem_of_difference, elem_of_singleton. tauto. }
  destruct (io_netns io) as [rt|] eqn:En; [|simpl; by rewrite Hd, Hh]. set (w3 := mkWorld _ _ _).
  assert (Hs3 : starting id rt w w3).
  { split.
    - eexists. split; [by apply lookup_insert_eq|done].
    - etrans; [exact Ho2|]. split; simpl; try done; intros; [by rewrite lookup_insert_ne| |by apply law_spawn_others]. rewrite elem_of_union, elem_of_singleton. tauto.
    - unfold tracked. simpl. by rewrite Hd, Hh.
    - unfold procs_of. simpl. rewrite lookup_insert_eq, Hh. simpl. set_solver. }
  pose proof (start_vm_spec cfg io id rt w w3 Hs3 ltac:(simpl; by rewrite Hd, Hv)) as Hvm. unfold w3, w2 in Hvm. cbn [wo_driver wo_host wo_hv ho_sock ho_vsock ho_iid ho_vfsock ho_stage ho_procs] in Hvm |- *.
  pose proof (start_vm_late cfg io id (root_disk cfg io id) rt w3) as Hne. unfold w3, w2 in Hne. cbn [wo_driver wo_host wo_hv ho_sock ho_vsock ho_iid ho_vfsock ho_stage ho_procs] in Hne.
  destruct (start_vm _ _ _ _ _ _) as [w' [iid|e]]; [split; [by apply sk_others in Hvm|by exists rt]|].
  destruct Hvm as (H1 & H2 & H3 & H4). split; [done|]. by destruct e.
Qed.

(** C18: Starting a machine is all or nothing.  A refusal before the child exists changes nothing but the removal of a socket nobody
    listens on; any later failure leaves no process, table entry, file or listening hypervisor of the sandbox; success
    means that the machine was created with its configuration after every virtiofs socket was served and then booted, with
    the child, the instance and the memory recorded.  Other sandboxes are never touched. *)
Lemma driver_start_spec cfg io id w :
  tracked id w → dv_vfs (wo_driver w) !! id = None →
  let '(w', r) := Start cfg io id w in
  same_others id w w' ∧
  match r with
  | Ok iid => ∃ rt, io_netns io = Some rt ∧ started_ok cfg io id rt w w' iid
  | Err (SeNoKernel | SeRootDisk | SeAlreadyBound | SePreflight) =>
      wo_driver w' = wo_driver w ∧ wo_host w' = wo_host w ∧ hv_alive (wo_hv w') id = hv_alive (wo_hv w) id ∧ hv_vm (wo_hv w') id = hv_vm (wo_hv w) id
  | Err SeNetns => wo_driver w' = wo_driver w ∧ ho_procs (wo_host w') = ho_procs (wo_host w) ∧ ho_iid (wo_host w') = ho_iid (wo_host w) ∧ hv_alive (wo_hv w') id = false
  | Err _ => nothing_of id w' ∧ ho_procs (wo_host w') ⊆ ho_procs (wo_host w) ∧ hv_alive (wo_hv w') id = false
  end.
Proof. apply Start_cases. Qed.

(** Stopping a machine that answers or is gone ends with no hypervisor listening and nothing of the sandbox left; if its
    process neither confirms its own shutdown nor is gone, Stop fails and nothing of the driver's state or files changes.
    Other sandboxes are never touched. *)
Lemma driver_stop_spec id w :
  tracked id w →
  let '(w', ok) := Stop id w in
  same_others id w w' ∧
  if ok then nothing_of id w' ∧ hv_alive (wo_hv w') id = false ∧ ho_procs (wo_host w') = ho_procs (wo_host w) ∖ procs_of id w
  else wo_driver w' = wo_driver w ∧ wo_host w' = wo_host w.
Proof.
  intros Ht. unfold Stop. pose proof (call_world id RShutdown w) as Hc. destruct (call id RShutdown w) as [w1 r]. destruct Hc as (Ec & Hd & Hh & Ho).
  assert (Hclear : ∀ w2, wo_driver w2 = wo_driver w → wo_host w2 = wo_host w → same_others id w w2 → hv_alive (wo_hv w2) id = false →
    same_others id w (clearState id w2) ∧ nothing_of id (clearState id w2) ∧ hv_alive (wo_hv (clearState id w2)) id = false ∧
    ho_procs (wo_host (clearState id w2)) = ho_procs (wo_host w) ∖ procs_of id w).
  { intros w2 Hd2 Hh2 Ho2 Ha. assert (Ht2 : tracked id w2) by (unfold tracked; by rewrite Hd2, Hh2).
    destruct (clearState_spec id w2 Ht2) as (H1 & H2 & H3 & H4). split; [by etrans|]. split; [done|]. split; [apply H4; by left|].
    rewrite H3, Hh2. unfold procs_of. by rewrite Hd2. }
  assert (Hrest : let '(w', ok) := (let '(w2, _) := call id RDelete w1 in let '(w3, r2) := call id RVmmShutdown w2 in
      match VMMShutdown r2 with Err CallFailed => (w3, false) | _ => (clearState id w3, true) end) in
    same_others id w w' ∧ if ok then nothing_of id w' ∧ hv_alive (wo_hv w') id = false ∧ ho_procs (wo_host w') = ho_procs (wo_host w) ∖ procs_of id w
      else wo_driver w' = wo_driver w ∧ wo_host w' = wo_host w).
  { pose proof (call_world id RDelete w1) as Hc2. destruct (call id RDelete w1) as [w2 r1]. destruct Hc2 as (_ & Hd2 & Hh2 & Ho2).
    pose proof (call_world id RVmmShutdown w2) as Hc3. destruct (call id RVmmShutdown w2) as [w3 r2]. destruct Hc3 as (E3 & Hd3 & Hh3 & Ho3).
    assert (Hd' : wo_driver w3 = wo_driver w) by congruence. assert (Hh' : wo_host w3 = wo_host w) by congruence.
    assert (Ho' : same_others id w w3) by (etrans; [exact Ho|]; by etrans).
    destruct (VMMShutdown r2) as [[]|[]] eqn:Er.
    - apply Hclear; try done. destruct r2 as [| |s b]; [done|done|]. unfold VMMShutdown, expect in Er. case_bool_decide; [|done]. by eapply law_vmm_shutdown.
    - apply Hclear; try done. destruct r2 as [| |s b]; [by eapply law_refused|done|]. unfold VMMShutdown, expect in Er. by case_bool_decide.
    - done. }
  destruct (VMShutdown r) as [[]|[]] eqn:Er; [exact Hrest| |exact Hrest].
  apply Hclear; try done. destruct r as [| |s b]; [by eapply law_refused|done|].
  exfalso. unfold VMShutdown, expect in Er. repeat case_match; try done; by case_bool_decide.
Qed.

(** ** Observing *)

Lemma Observe_absent id w : (Observe id w).2 = None → o_State (Observe id w).1 = RSAbsent → hv_vm (wo_hv w) id = None.
Proof.
  unfold Observe, call. destruct (hv_call id RInfo (wo_hv w)) as [v r] eqn:E. cbn [fst snd].
  pose proof (law_get id id RInfo (wo_hv w) (or_intror eq_refl)) as [Hg1 Hg2]. rewrite E in Hg1, Hg2. cbn [fst] in Hg1, Hg2.
  assert (Hr : r = Refused → hv_vm (wo_hv w) id = None).
  { intros ->. apply law_refused in E. destruct (hv_vm (wo_hv w) id) eqn:Ev; [|done]. apply law_vm_alive in Ev. congruence. }
  destruct r as [| |s b]; [by intros; apply Hr|done|]. unfold VMInfoFull. destruct (Z.eqb_spec s 200) as [->|H2].
  { destruct b as [| |i]; [done|done|]. unfold mapCHState. destruct (String.eqb (vi_State i) "Running"); [done|]. by destruct (String.eqb (vi_State i) "Paused"). }
  destruct (Z.eqb_spec s 500) as [->|H5].
  { destruct b as [|cs|]; [done| |done]. destruct (isNoVM cs) eqn:Ecs; [|done]. intros _ _. by eapply law_info_none. }
  done.
Qed.

(** What the driver reports running or paused is, with the instance recorded at its start. *)
Lemma Observe_live id w st :
  (Observe id w).2 = None → o_State (Observe id w).1 = st → st = RSRunning ∨ st = RSPaused →
  hv_vm (wo_hv w) id = Some (match st with RSRunning => "Running" | _ => "Paused" end)%string ∧ o_InstanceID (Observe id w).1 = readInstanceID id w.
Proof.
  unfold Observe, call. destruct (hv_call id RInfo (wo_hv w)) as [v r] eqn:E. cbn [fst snd]. intros Hn <- Hst.
  destruct r as [| |s b]; [by destruct Hst|done|]. unfold VMInfoFull in *. destruct (Z.eqb_spec s 200) as [->|H2].
  { destruct b as [| |i]; [done|done|]. apply law_info in E. unfold mapCHState in *.
    destruct (String.eqb_spec (vi_State i) "Running") as [E1|]; [by rewrite E, E1|]. destruct (String.eqb_spec (vi_State i) "Paused") as [E1|]; [by rewrite E, E1|done]. }
  destruct (Z.eqb_spec s 500) as [->|H5].
  { destruct b as [|cs|]; [done| |done]. destruct (isNoVM cs); [|done]. by destruct Hst. }
  done.
Qed.

End facts.

(** ** Recovery on this driver *)

Section recovery.
Context {V : Type} `{!Hypervisor V, !HypervisorLaws V}.
Context {St IO : Type} `{!RecordStore St IO}.

Lemma Observe_of_vm id (w : World V) ch :
  hv_vm (wo_hv w) id = Some ch →
  (Observe id w).2 ≠ None ∨ o_State (Observe id w).1 = RSUnknown ∨ o_State (Observe id w).1 = RSRunning ∨ o_State (Observe id w).1 = RSPaused.
Proof.
  intros Hvm. destruct ((Observe id w).2) eqn:E; [by left|]. right. destruct (o_State (Observe id w).1) eqn:Es; auto.
  apply Observe_absent in Es; [congruence|done].
Qed.

(** C2: As long as the hypervisor holds a machine for a sandbox, in whatever state and whether or not it answers, recovery on this
    driver neither stops nor deletes anything of it, and its record stays. *)
Lemma recovery_spares_machine (env : Env (S:=St)) io1 io2 id s (w : World V) ch :
  wf_id id → env_observe env id = Observe id w → hv_vm (wo_hv w) id = Some ch →
  let '(log, out, s') := recoverByID env io1 io2 id s in
  Forall (λ e, destructive e = false) log ∧
  ((∀ spawn sb s0, env_spawn env = Some spawn → is_Some (st_lookup s0 id) → is_Some (st_lookup (spawn sb s0).1 id)) →
   is_Some (st_lookup s id) → is_Some (st_lookup s' id)).
Proof.
  intros Hid Henv Hvm.
  assert (Hobs : observed env id = None ∨ observed env id = Some RSUnknown ∨ observed env id = Some RSRunning ∨ observed env id = Some RSPaused).
  { unfold observed. rewrite Henv. pose proof (Observe_of_vm id w ch Hvm) as H. destruct (Observe id w) as [o [e|]]; [by left|].
    right. cbn [fst snd] in H. destruct H as [H|[-> | [-> | ->]]]; [done|auto|auto|auto]. }
  destruct Hobs as [Hu|[Hu|[Hl|Hl]]].
  1-2: pose proof (recover_unknown_no_action env io1 io2 id s Hid ltac:(auto)) as H; destruct (recoverByID env io1 io2 id s) as [[log out] s'];
    destruct H as (Hlk & Hlog & _); (split; [eapply Forall_impl; [exact Hlog|]; by intros e ->|intros _; by rewrite Hlk]).
  - by apply (live_run_safe env io1 io2 id s RSRunning Running).
  - by apply (live_run_safe env io1 io2 id s RSPaused Paused).
Qed.

End recovery.

(** ** A hypervisor that satisfies the laws *)

Module Toy.

(** A process per key; its value is the state of its machine. *)
Abbreviation VMM := (gmap SandboxID (option string)).

Definition no_vm : Body := BError ["Error from API"; "The VM info is not available"; "VM is not created"]%string.
Definition not_running : Body := BError ["Error from API"; "The VM could not shutdown"; "VM is not running"]%string.

Definition toy_call (id : SandboxID) (r : Request) (v : VMM) : VMM * Reply :=
  match v !! id with
  | None => (v, Refused)
  | Some vm =>
      match r, vm with
      | RPing, _ => (v, Answer 200 BOther)
      | RInfo, Some st => (v, Answer 200 (BInfo (mkInfo st None)))
      | RInfo, None => (v, Answer 500 no_vm)
      | RCreate _, None => (<[id := Some "Created"%string]> v, Answer 204 BOther)
      | RBoot, Some _ => (<[id := Some "Running"%string]> v, Answer 204 BOther)
      | RPause, Some _ => (<[id := Some "Paused"%string]> v, Answer 204 BOther)
      | RResume, Some _ => (<[id := Some "Running"%string]> v, Answer 204 BOther)
      | RShutdown, Some _ => (<[id := Some "Shutdown"%string]> v, Answer 204 BOther)
      | RShutdown, None => (v, Answer 500 not_running)
      | RDelete, _ => (<[id := None]> v, Answer 204 BOther)
      | RVmmShutdown, _ => (delete id v, Answer 200 BOther)
      | _, _ => (v, Answer 500 BOther)
      end
  end.

#[global] Instance toy_hypervisor : Hypervisor VMM := {
  hv_call := toy_call;
  hv_spawn id v := <[id := None]> v;
  hv_kill id v := delete id v;
  hv_alive v id := bool_decide (is_Some (v !! id));
  hv_vm v id := v !! id ≫= (λ vm, vm)
}.

#[global] Instance toy_laws : HypervisorLaws VMM.
Proof.
  split; simpl.
  - intros id r v v'. unfold toy_call. destruct (v !! id) as [[st|]|] eqn:E; [destruct r; intros [=]|destruct r; intros [=]|].
    intros [= <-]. by rewrite E.
  - intros v id st. destruct (v !! id) as [vm|]; [done|done].
  - intros id v v' i. unfold toy_call. destruct (v !! id) as [[st|]|]; [intros [= _ <-]; done|done|done].
  - intros id v v' cs. unfold toy_call. destruct (v !! id) as [[st|]|]; done.
  - intros id id' r v [-> | ->]; unfold toy_call; by destruct (v !! id) as [[st|]|].
  - intros id id' v Hne. by rewrite lookup_insert_ne.
  - intros id v v' s b. unfold toy_call. destruct (v !! id) as [vm|] eqn:E; [|done]. intros [= <- _ _] _.
    by rewrite lookup_delete_eq.
  - intros id v. by rewrite lookup_delete_eq.
  - intros id id' r v Hne. unfold toy_call. destruct (v !! id) as [[st|]|]; destruct r; simpl; rewrite ?lookup_insert_ne, ?lookup_delete_ne by done; done.
  - intros id id' v Hne. by rewrite lookup_delete_ne.
Qed.

Definition idle : World VMM := mkWorld (mkDriver ∅ ∅ ∅) (mkHost ∅ ∅ ∅ ∅ ∅ ∅) ∅.

End Toy.

Definition w_config : Config :=
  mkConfig "/boot/vmlinux" "" "" "" [] [mkLiveMount "/home/me/src" "/work" false false; mkLiveMount "/home/me/.gitconfig" "/root/.gitconfig" true true]
    "" "" 2 4 512 2048 false "/usr/bin/virtiofsd" false.
Definition w_runtime : NetnsRuntime := mkRuntime 7 "/run/api.sock" "nxg-0" 100 100 5 "" "" false.
Definition w_start_io (boots : bool) : StartIO :=
  mkStartIO (λ _, true) (Some w_runtime) 3 true true (λ _, true) (λ i, Some (200 + Z.of_nat i)) (if boots then Some "ab12"%string else None) true.

Definition w_started : World Toy.VMM := (Start w_config (w_start_io true) example_id Toy.idle).1.

Lemma w_idle_tracked : tracked example_id Toy.idle ∧ dv_vfs (wo_driver Toy.idle) !! example_id = None.
Proof. split; [split; intros i Hi; by apply elem_of_empty in Hi|reflexivity]. Qed.

Lemma driver_start_spec_witness :
  (Start w_config (w_start_io true) example_id Toy.idle).2 = Ok "ab12"%string ∧
  hv_vm (wo_hv w_started) example_id = Some "Running"%string ∧
  nothing_of example_id (Start w_config (w_start_io false) example_id Toy.idle).1.
Proof.
  split; [vm_compute; reflexivity|]. split; [vm_compute; reflexivity|].
  pose proof (driver_start_spec w_config (w_start_io false) example_id Toy.idle (proj1 w_idle_tracked) (proj2 w_idle_tracked)) as H.
  assert (E : (Start w_config (w_start_io false) example_id Toy.idle).2 = Err SeInstanceID) by (vm_compute; reflexivity).
  destruct (Start w_config (w_start_io false) example_id Toy.idle) as [w' r]. cbn [snd] in E. subst r. destruct H as (_ & H & _). exact H.
Defined.

Lemma driver_stop_spec_witness : hv_alive (wo_hv (Stop example_id w_started).1) example_id = false ∧ nothing_of example_id (Stop example_id w_started).1.
Proof.
  assert (Ht : tracked example_id w_started).
  { pose proof (Start_cases w_config (w_start_io true) example_id Toy.idle (proj1 w_idle_tracked) (proj2 w_idle_tracked)) as H. unfold w_started.
    assert (E : (Start w_config (w_start_io true) example_id Toy.idle).2 = Ok "ab12"%string) by (vm_compute; reflexivity).
    destruct (Start w_config (w_start_io true) example_id Toy.idle) as [w' r]. cbn [snd] in E. subst r. destruct H as (_ & rt & _ & H). exact (sk_tracked _ _ _ _ _ _ _ H). }
  pose proof (driver_stop_spec example_id w_started Ht) as H.
  assert (E : (Stop example_id w_started).2 = true) by (vm_compute; reflexivity).
  destruct (Stop example_id w_started) as [w' ok]. cbn [snd] in E. subst ok. destruct H as (_ & Hn & Ha & _). split; [exact Ha|exact Hn].
Defined.

(** The machine is shut down but not deleted: the record says running and carries a removal marker, and recovery leaves it. *)
Definition w_half_stopped : World Toy.VMM := (call example_id RShutdown w_started).1.

Definition w_recovery_env : Env (S:=FS) :=
  mkEnv (λ id, Observe id w_half_stopped) (Some (λ _ _, Ok false)) None (λ _, None) (λ _, ""%string).

Lemma recovery_spares_machine_witness :
  is_Some (lookup_sandbox (recoverByID w_recovery_env io_none io_none example_id example_fs).2 example_id).
Proof.
  pose proof (recovery_spares_machine w_recovery_env io_none io_none example_id example_fs w_half_stopped "Shutdown"%string eq_refl eq_refl
    ltac:(vm_compute; reflexivity)) as H.
  destruct (recoverByID _ _ _ _ _) as [[log out] s']. apply H.
  - intros spawn sb s0 Hn. discriminate Hn.
  - exists (persisted example_sandbox). exact example_lookup.
Defined.

(** ** A hypervisor that hangs *)

(** A process that accepts connections and never answers: Stop neither kills it nor clears anything, though it holds the
    handle of the child it could kill. *)
#[local] Instance wedged : Hypervisor unit := {
  hv_call _ _ v := (v, NoReply);
  hv_spawn _ v := v;
  hv_kill _ v := v;
  hv_alive _ _ := true;
  hv_vm _ _ := Some "Running"%string
}.

Lemma wedged_is_not_killed id ns :
  let w := mkWorld (mkDriver {[id := ns]} ∅ ∅) (mkHost {[id]} ∅ ∅ ∅ ∅ {[rt_ChildPID (nt_rt ns)]}) tt in
  Stop id w = (w, false).
Proof. reflexivity. Qed.

(** ** The configuration *)

(** The hot-plug tokens are never sent: the ceiling of the memory is held back by a balloon from the start. *)
Lemma start_config_memory cfg disk tap fs :
  0 ≤ cf_MemoryMiB cfg < 2 ^ 32 → 0 ≤ cf_MemoryMaxMiB cfg < 2 ^ 32 →
  let c := start_config cfg disk tap fs in
  vm_SizeBytes (vg_Memory c) = Z.max (boot_mem cfg) (cf_MemoryMaxMiB cfg) * MiB ∧
  vm_SizeBytes (vg_Memory c) - match vg_Balloon c with Some b => bl_SizeBytes b | None => 0 end = boot_mem cfg * MiB ∧
  vc_Nested (vg_CPUs c) = cf_NestedVirt cfg ∧ vc_BootVCPUs (vg_CPUs c) ≤ vc_MaxVCPUs (vg_CPUs c) ∧
  (cf_Cmdline cfg = "" → vg_Cmdline c = if String.eqb disk "" then defaultCmdline else diskBootCmdline).
Proof.
  intros Hm Hx. unfold start_config. cbn [vg_Memory vg_Balloon vg_CPUs vg_Cmdline vc_Nested vc_BootVCPUs vc_MaxVCPUs]. unfold buildMemoryConfig. cbn [vm_SizeBytes].
  assert (Hb : 0 ≤ boot_mem cfg < 2 ^ 32) by (unfold boot_mem; destruct (Z.eqb_spec (cf_MemoryMiB cfg) 0); lia).
  rewrite (wrap_u_small 32 (boot_mem cfg)) by lia. unfold init_balloon. assert (HM : MiB = 2 ^ 20) by done.
  assert (Hw : ∀ x, 0 ≤ x < 2 ^ 32 → u64 (x * MiB) = x * MiB) by (intros x Hx'; apply wrap_u_small; rewrite HM; lia).
  destruct (Z.ltb_spec (boot_mem cfg) (cf_MemoryMaxMiB cfg)) as [Hlt|Hge]; cbn [bl_SizeBytes].
  - rewrite !Hw by lia. split; [f_equal; lia|]. split; [lia|]. split; [done|]. split; [destruct (Z.ltb_spec (boot_vcpus cfg) (cf_VCPUMax cfg)); lia|]. by intros ->.
  - rewrite Hw by lia. split; [f_equal; lia|]. split; [destruct (cf_FreePageReporting cfg); cbn [bl_SizeBytes]; lia|]. split; [done|].
    split; [destruct (Z.ltb_spec (boot_vcpus cfg) (cf_VCPUMax cfg)); lia|]. by intros ->.
Qed.
