(* ===== verification/DriverResize.v ===== *)
(** * internal/core/driver/cloudhypervisor/driver_resize.go: resizing a running machine

    The memory state of a machine with its three modes, the drift correction of the balloon, the clamped operations of
    [SandboxResizer], and growing a disk on the host, in the hypervisor and in the guest.  The calls of the hypervisor and
    the guest are the answers they give. *)

From stdpp Require Import prelude countable gmap strings list pretty.
From Stdlib Require Import ZArith Ascii Lia.
From S2P Require Import Prelude GoStrings GoIO Domain Sandbox Resize Recovery Netns Hypervisor.

(** ** The memory of a machine *)

Definition memHotplugAlignBytes : Z := 256 * 1024 * 1024.

Definition with_balloon (st : vmMemState) (b : Z) (first : Time) (count : Z) : vmMemState :=
  mkMemState (ms_mode st) (ms_bootMiB st) (ms_totalMiB st) b first count.

(** Read off a machine this process did not start. *)
Definition adoptMemState (info : vmInfoResponse) : vmMemState :=
  match vi_Config info with
  | Some (mkInfoConfig (Some (size, hotplug)) balloon) =>
      let sizeMiB := u32 (size / MiB) in
      let b := default 0 balloon in
      if 0 <? b then
        let balloonMiB := u32 (b / MiB) in
        mkMemState MemoryModeBalloon (u32 (sizeMiB - balloonMiB)) sizeMiB balloonMiB zero_time 0
      else if 0 <? hotplug then mkMemState MemoryModeVirtioMem sizeMiB (u32 (sizeMiB + u32 (hotplug / MiB))) 0 zero_time 0
      else mkMemState MemoryModeFlat sizeMiB sizeMiB 0 zero_time 0
  | _ => mkMemState MemoryModeFlat 0 0 0 zero_time 0
  end.

(** The remembered state, or the one of the live machine; [None] if it cannot be loaded. *)
Definition getOrLoadMemState (known : option vmMemState) (r : Reply) : option vmMemState :=
  match known with
  | Some st => Some st
  | None =>
      match VMInfoFull r with
      | (_, _, Some _) => None
      | (None, _, None) => None
      | (Some info, _, None) => Some (adoptMemState info)
      end
  end.

Definition MemoryMode_of (st : option vmMemState) : MemoryMode := match st with Some st => ms_mode st | None => MemoryModeFlat end.

Definition BalloonBytes (st : option vmMemState) : Z :=
  match st with
  | Some st => if bool_decide (ms_mode st = MemoryModeBalloon) then i64 (ms_balloon st * MiB) else 0
  | None => 0
  end.

Definition CurrentMemoryBytes (st : option vmMemState) : Z :=
  match st with
  | None => 0
  | Some st =>
      match ms_mode st with
      | MemoryModeBalloon => i64 (u32 (ms_totalMiB st - ms_balloon st) * MiB)
      | MemoryModeFlat => i64 (ms_bootMiB st * MiB)
      | MemoryModeVirtioMem => 0
      end
  end.

(** The balloon the hypervisor is asked for, in MiB. *)
Definition balloon_target (st : vmMemState) (targetBytes : Z) : Z :=
  let targetMiB := u32 (targetBytes ÷ MiB) in
  let targetMiB := if targetMiB <? ms_bootMiB st then ms_bootMiB st else targetMiB in
  let targetMiB := if ms_totalMiB st <? targetMiB then ms_totalMiB st else targetMiB in
  let b := u32 (ms_totalMiB st - targetMiB) in
  let max := u32 (ms_totalMiB st - ms_bootMiB st) in
  if max <? b then max else b.

(** [ok]: the hypervisor answered the resize with 204. *)
Definition resizeMemoryBalloon (st : vmMemState) (targetBytes : Z) (ok : bool) : vmMemState * Z * bool :=
  let b := balloon_target st targetBytes in
  if negb ok then (st, i64 (u32 (ms_totalMiB st - ms_balloon st) * MiB), false)
  else (with_balloon st b zero_time 0, i64 (u32 (ms_totalMiB st - b) * MiB), true).

(** The size the hypervisor is asked for: aligned up, unless that passes the total. *)
Definition virtio_target (st : vmMemState) (targetBytes : Z) : Z :=
  let rem := Z.rem targetBytes memHotplugAlignBytes in
  if rem =? 0 then targetBytes
  else
    let up := i64 (targetBytes + (memHotplugAlignBytes - rem)) in
    if i64 (ms_totalMiB st * MiB) <? up then i64 (up - memHotplugAlignBytes) else up.

Definition resizeMemoryVirtioMem (st : vmMemState) (targetBytes : Z) (ok : bool) : Z * bool :=
  if ok then (virtio_target st targetBytes, true) else (0, false).

Definition ResizeMemory (st : option vmMemState) (targetBytes : Z) (ok : bool) : option vmMemState * Z * bool :=
  match st with
  | None => (None, 0, false)
  | Some s =>
      match ms_mode s with
      | MemoryModeBalloon => let '(s, got, done) := resizeMemoryBalloon s targetBytes ok in (Some s, got, done)
      | MemoryModeVirtioMem => let '(got, done) := resizeMemoryVirtioMem s targetBytes ok in (Some s, got, done)
      | MemoryModeFlat => (Some s, 0, false)
      end
  end.

(** ** Drift of the balloon *)

Inductive DriftStatus := DriftOK | DriftSuspect | DriftCorrected.

Definition driftMinSamples : Z := 3.
Definition driftMinWindow : Duration := 15 * 1000000000.

Definition used_mib (memTotal memAvail : Z) : Z := if memAvail <? memTotal then u32 ((memTotal - memAvail) / MiB) else 0.

Definition observeSample (now : Time) (memTotal memAvail : Z) (st : vmMemState) : vmMemState * (DriftStatus * Z) :=
  if memTotal <? MiB then (st, (DriftOK, ms_balloon st))
  else
    let usedMiB := used_mib memTotal memAvail in
    let cur := ms_balloon st in
    if cur <=? usedMiB then (with_balloon st cur zero_time 0, (DriftOK, cur))
    else
      let first := if ms_driftCount st =? 0 then now else ms_driftFirstSeen st in
      let count := ms_driftCount st + 1 in
      if (driftMinSamples <=? count) && (driftMinWindow <=? Sub now first)
      then (with_balloon st usedMiB zero_time 0, (DriftCorrected, usedMiB))
      else (with_balloon st cur first count, (if count =? 1 then DriftSuspect else DriftOK, cur)).

(** ** SandboxResizer *)

Record Resizer := mkResizer { rz_bounds : Bounds; rz_memBytes : Z; rz_vcpus : Z }.

Definition clamp (lo hi x : Z) : Z := let x := if x <? lo then lo else x in if hi <? x then hi else x.

Definition resizer_ResizeMemory (r : Resizer) (st : option vmMemState) (targetBytes : Z) (ok : bool) : Resizer * option vmMemState * Z * bool :=
  let t := clamp (MemMinBytes (rz_bounds r)) (MemMaxBytes (rz_bounds r)) targetBytes in
  let '(st, got, done) := ResizeMemory st t ok in
  if done then (mkResizer (rz_bounds r) got (rz_vcpus r), st, got, true) else (r, st, rz_memBytes r, false).

(** The second component is what the hypervisor is asked for. *)
Definition resizer_ResizeCPU (r : Resizer) (targetVCPUs : Z) (ok : bool) : Resizer * Z * Z * bool :=
  let t := clamp (VCPUMin (rz_bounds r)) (VCPUMax (rz_bounds r)) targetVCPUs in
  if ok then (mkResizer (rz_bounds r) (rz_memBytes r) t, u32 t, t, true) else (r, u32 t, rz_vcpus r, false).

(** ** Growing a disk *)

(** The size of a disk as the host's file, the hypervisor's device and the guest's file system have it, and the size in the
    volume's record if it is a named volume. *)
Record DiskSizes := mkSizes { dz_file : Z; dz_vmm : Z; dz_fs : Z; dz_record : option Z }.

Inductive grow_error := GrIndex | GrRange | GrNamespace | GrNotRunning | GrStat | GrNoSpace | GrTruncate | GrVmm | GrUnknown | GrGuestUnreachable | GrGuestFailed.

(** Whether the socket is there, whether the file can be read, the space (allocated and free, [None] unreadable), and the
    outcome of each step. *)
Record GrowIO := mkGrowIO {
  gi_socket : bool;
  gi_stat : bool;
  gi_space : option (Z * Z);
  gi_truncate : bool;
  gi_vmm : bool;
  gi_rollback : bool;
  gi_dial : bool;
  gi_guest : bool;
  gi_record : bool
}.

Definition checkFreeSpace (space : option (Z * Z)) (targetBytes : Z) : bool :=
  match space with
  | None => false
  | Some (actual, free) => let needed := Z.max 0 (targetBytes - actual) in negb (free <? needed)
  end.

(** From the dial to the guest on. *)
Definition grow_guest (io : GrowIO) (targetBytes : Z) (z : DiskSizes) : DiskSizes * result grow_error unit :=
  if negb (gi_dial io) then (z, Err GrGuestUnreachable)
  else if negb (gi_guest io) then (z, Err GrGuestFailed)
  else (mkSizes (dz_file z) (dz_vmm z) (Z.min targetBytes (dz_vmm z))
          (match dz_record z with Some s => Some (if gi_record io then targetBytes else s) | None => None end), Ok tt).

(** The checks of the index. *)
Definition grow_index_error (extraDisks : nat) (diskIndex : Z) : option grow_error :=
  if diskIndex <? 0 then Some GrIndex
  else if Z.of_nat extraDisks <=? diskIndex then Some GrRange
  else if 25 <? diskIndex then Some GrNamespace
  else None.

(** The host's part, then the guest's. *)
Definition grow_host (io : GrowIO) (targetBytes : Z) (z : DiskSizes) : DiskSizes * result grow_error unit :=
  let currentSize := dz_file z in
  if targetBytes <=? currentSize then grow_guest io currentSize z
  else if negb (checkFreeSpace (gi_space io) targetBytes) then (z, Err GrNoSpace)
  else if negb (gi_truncate io) then (z, Err GrTruncate)
  else if negb (gi_vmm io) then
    if gi_rollback io then (z, Err GrVmm) else (mkSizes targetBytes (dz_vmm z) (dz_fs z) (dz_record z), Err GrUnknown)
  else grow_guest io targetBytes (mkSizes targetBytes targetBytes (dz_fs z) (dz_record z)).

Definition GrowDisk (io : GrowIO) (extraDisks : nat) (diskIndex targetBytes : Z) (z : DiskSizes) : DiskSizes * result grow_error unit :=
  match grow_index_error extraDisks diskIndex with
  | Some e => (z, Err e)
  | None =>
      if negb (gi_socket io) then (z, Err GrNotRunning)
      else if negb (gi_stat io) then (z, Err GrStat)
      else grow_host io targetBytes z
  end.

Definition diskIndexToCHID (diskIndex : Z) : string := "_disk" +:+ pretty (diskIndex + 1).
Definition diskIndexToGuestDev (diskIndex : Z) : string := of_chars (chars "/dev/vd" ++ [byte_of (98 + diskIndex)]).

(** ** The memory stays within what the machine was created with *)

Record mem_wf (st : vmMemState) : Prop := {
  mw_boot : 0 ≤ ms_bootMiB st ≤ ms_totalMiB st;
  mw_total : ms_totalMiB st < 2 ^ 32;
  mw_balloon : 0 ≤ ms_balloon st ≤ ms_totalMiB st - ms_bootMiB st
}.

(** The guest's share in bytes. *)
Definition guest_bytes (st : vmMemState) : Z := (ms_totalMiB st - ms_balloon st) * MiB.

Lemma guest_bytes_exact st b : mem_wf st → 0 ≤ b ≤ ms_totalMiB st → i64 (u32 (ms_totalMiB st - b) * MiB) = (ms_totalMiB st - b) * MiB.
Proof.
  intros [H1 H2 H3] Hb. rewrite wrap_u_small by lia. apply i64_small. unfold MiB. lia.
Qed.

(** In the range the bounds allow, the balloon is what leaves the guest the clamped target. *)
Lemma balloon_target_exact st t :
  mem_wf st → 0 ≤ t < 2 ^ 52 →
  ms_totalMiB st - balloon_target st t = Z.min (ms_totalMiB st) (Z.max (ms_bootMiB st) (t / MiB)) ∧ 0 ≤ balloon_target st t ≤ ms_totalMiB st - ms_bootMiB st.
Proof.
  intros [H1 H2 H3] Ht. unfold balloon_target. rewrite Z.quot_div_nonneg by (unfold MiB; lia).
  assert (Hq : 0 ≤ t / MiB < 2 ^ 32) by (unfold MiB; split; [apply Z.div_pos; lia|apply Z.div_lt_upper_bound; lia]).
  rewrite (wrap_u_small 32 (t / MiB)) by lia. rewrite (wrap_u_small 32 (ms_totalMiB st - ms_bootMiB st)) by lia.
  destruct (Z.ltb_spec (t / MiB) (ms_bootMiB st)) as [Ha|Ha]; [destruct (Z.ltb_spec (ms_totalMiB st) (ms_bootMiB st)); [lia|]|destruct (Z.ltb_spec (ms_totalMiB st) (t / MiB))].
  all: rewrite wrap_u_small by lia; match goal with |- context[?x <? ?y] => destruct (Z.ltb_spec x y) end; lia.
Qed.

Lemma resizeMemoryBalloon_spec st t ok :
  mem_wf st → 0 ≤ t < 2 ^ 52 →
  let '(st', got, done) := resizeMemoryBalloon st t ok in
  mem_wf st' ∧ done = ok ∧ got = guest_bytes st' ∧
  (if ok then got = Z.min (ms_totalMiB st) (Z.max (ms_bootMiB st) (t / MiB)) * MiB else st' = st).
Proof.
  intros Hwf Ht. destruct (balloon_target_exact st t Hwf Ht) as [Hb Hr]. unfold resizeMemoryBalloon. destruct ok; cbn [negb].
  - split; [destruct Hwf as [H1 H2 H3]; split; simpl; lia|]. split; [done|]. rewrite guest_bytes_exact by (done || destruct Hwf; lia).
    split; [done|]. by rewrite Hb.
  - split; [done|]. split; [done|]. split; [|done]. destruct Hwf as [H1 H2 H3]. rewrite guest_bytes_exact; [done|by split|lia].
Qed.

Lemma observeSample_wf now tot avail st :
  mem_wf st → mem_wf (observeSample now tot avail st).1 ∧ ms_balloon (observeSample now tot avail st).1 ≤ ms_balloon st ∧
    (ms_bootMiB (observeSample now tot avail st).1, ms_totalMiB (observeSample now tot avail st).1, ms_mode (observeSample now tot avail st).1) =
    (ms_bootMiB st, ms_totalMiB st, ms_mode st).
Proof.
  intros [H1 H2 H3]. unfold observeSample. destruct (tot <? MiB); [repeat split; simpl; lia|].
  assert (Hu : 0 ≤ used_mib tot avail) by (unfold used_mib; destruct (avail <? tot); [apply Z.mod_pos_bound; lia|lia]).
  destruct (Z.leb_spec (ms_balloon st) (used_mib tot avail)); [repeat split; simpl; lia|].
  destruct ((driftMinSamples <=? _) && _); repeat split; simpl; lia.
Qed.

(** What happens to the memory of one machine: a resize, which the hypervisor carries out or not, or a sample of the guest. *)
Inductive mem_event := EvResize (targetBytes : Z) (ok : bool) | EvSample (now : Time) (memTotal memAvail : Z).

Definition mem_step (b : Bounds) (st : vmMemState) (e : mem_event) : vmMemState :=
  match e with
  | EvResize t ok => default st (resizer_ResizeMemory (mkResizer b 0 0) (Some st) t ok).1.1.2
  | EvSample now tot avail => (observeSample now tot avail st).1
  end.

Lemma clamp_spec lo hi x : lo ≤ hi → lo ≤ clamp lo hi x ≤ hi ∧ (lo ≤ x ≤ hi → clamp lo hi x = x).
Proof. intros H. unfold clamp. destruct (Z.ltb_spec x lo); match goal with |- context[hi <? ?y] => destruct (Z.ltb_spec hi y) end; lia. Qed.

Lemma mem_step_wf b st e :
  0 ≤ MemMinBytes b ≤ MemMaxBytes b → MemMaxBytes b < 2 ^ 52 → ms_mode st = MemoryModeBalloon → mem_wf st →
  mem_wf (mem_step b st e) ∧ ms_mode (mem_step b st e) = MemoryModeBalloon ∧
  ms_bootMiB (mem_step b st e) = ms_bootMiB st ∧ ms_totalMiB (mem_step b st e) = ms_totalMiB st.
Proof.
  intros Hb Hm Hmode Hwf. destruct e as [t ok|now tot avail]; simpl.
  - unfold resizer_ResizeMemory, ResizeMemory. rewrite Hmode. cbn [rz_bounds]. set (t' := clamp _ _ _).
    assert (Ht : 0 ≤ t' < 2 ^ 52) by (unfold t'; destruct (clamp_spec (MemMinBytes b) (MemMaxBytes b) t); lia).
    pose proof (resizeMemoryBalloon_spec st t' ok Hwf Ht) as H. unfold resizeMemoryBalloon in *. destruct ok; simpl in *; [|done].
    destruct H as (H & _). done.
  - destruct (observeSample_wf now tot avail st Hwf) as (H & _ & E). injection E as -> -> ->. done.
Qed.

(** C19: Under any sequence of resizes, whatever targets the governor asks for and whichever the hypervisor carries out, and of
    samples that correct the balloon, the guest keeps at least its boot memory and at most the memory the machine was
    created with; a resize that is carried out gives exactly the clamped target in whole MiB and the driver reports it, one
    that fails changes nothing. *)
Lemma balloon_within_bounds b st events t ok :
  0 ≤ MemMinBytes b ≤ MemMaxBytes b → MemMaxBytes b < 2 ^ 52 → ms_mode st = MemoryModeBalloon → mem_wf st →
  let st1 := foldl (mem_step b) st events in
  let '(r', st2, got, done) := resizer_ResizeMemory (mkResizer b (guest_bytes st1) 0) (Some st1) t ok in
  (ms_bootMiB st * MiB ≤ guest_bytes st1 ≤ ms_totalMiB st * MiB) ∧ done = ok ∧ CurrentMemoryBytes st2 = got ∧ rz_memBytes r' = got ∧
  got = (if ok then Z.min (ms_totalMiB st) (Z.max (ms_bootMiB st) (Z.max (MemMinBytes b) (Z.min (MemMaxBytes b) t) / MiB)) * MiB else guest_bytes st1).
Proof.
  intros Hb Hm Hmode Hwf.
  assert (Hinv : let st1 := foldl (mem_step b) st events in mem_wf st1 ∧ ms_mode st1 = MemoryModeBalloon ∧ ms_bootMiB st1 = ms_bootMiB st ∧ ms_totalMiB st1 = ms_totalMiB st).
  { cbv zeta. revert st Hmode Hwf. induction events as [|e events IH]; intros st Hmode Hwf; [done|]. cbn [foldl].
    destruct (mem_step_wf b st e Hb Hm Hmode Hwf) as (H1 & H2 & H3 & H4). destruct (IH _ H2 H1) as (? & ? & ? & ?). split; [done|]. split; [done|]. split; congruence. }
  cbv zeta in *. set (st1 := foldl (mem_step b) st events) in *. destruct Hinv as (Hw & Hmd & Eb & Et).
  unfold resizer_ResizeMemory, ResizeMemory. rewrite Hmd. cbn [rz_bounds rz_memBytes rz_vcpus]. set (t' := clamp _ _ _).
  assert (Et' : t' = Z.max (MemMinBytes b) (Z.min (MemMaxBytes b) t)) by (unfold t', clamp; destruct (Z.ltb_spec t (MemMinBytes b)); match goal with |- context[MemMaxBytes b <? ?y] => destruct (Z.ltb_spec (MemMaxBytes b) y) end; lia).
  assert (Ht : 0 ≤ t' < 2 ^ 52) by lia. pose proof (resizeMemoryBalloon_spec st1 t' ok Hw Ht) as H. rewrite <- Et', <- Eb, <- Et.
  assert (Hcur : ∀ s, mem_wf s → ms_mode s = MemoryModeBalloon → CurrentMemoryBytes (Some s) = guest_bytes s).
  { intros s Hs Hsm. unfold CurrentMemoryBytes. rewrite Hsm. apply guest_bytes_exact; [done|]. destruct Hs; lia. }
  assert (Hmode' : ms_mode (resizeMemoryBalloon st1 t' ok).1.1 = MemoryModeBalloon) by (unfold resizeMemoryBalloon; by destruct ok).
  destruct (resizeMemoryBalloon st1 t' ok) as [[st2 got] done]. destruct H as (Hw2 & -> & Hgot & Hres). cbn [fst] in Hmode'.
  assert (Hg : ms_bootMiB st1 * MiB ≤ guest_bytes st1 ≤ ms_totalMiB st1 * MiB) by (unfold guest_bytes, MiB; destruct Hw; lia).
  destruct ok; cbn [rz_memBytes]; (split; [exact Hg|]).
  - split; [done|]. rewrite Hcur by done. done.
  - subst st2. split; [done|]. rewrite Hcur by done. done.
Qed.

(** ** Drift *)

(** A run of samples of one machine. *)
Definition sample : Type := Time * Z * Z.
Definition observe (st : vmMemState) (s : sample) : vmMemState := (observeSample s.1.1 s.1.2 s.2 st).1.
Definition drifting (balloon : Z) (s : sample) : Prop := MiB ≤ s.1.2 ∧ used_mib s.1.2 s.2 < balloon.

(** The samples since the count was last zero. *)
Definition run_of (st : vmMemState) (run : list sample) : Prop :=
  Z.of_nat (length run) = ms_driftCount st ∧ Forall (drifting (ms_balloon st)) run ∧
  match run with [] => True | s :: _ => ms_driftFirstSeen st = s.1.1 end.

(** The evidence a correction needs: three samples in a row that count, the first a window before the last. *)
Definition drift_evidence (balloon : Z) (run : list sample) (s : sample) : Prop :=
  Forall (drifting balloon) (run ++ [s]) ∧ 3 ≤ Z.of_nat (length (run ++ [s])) ∧
  ∃ s0, (run ++ [s]) !! 0%nat = Some s0 ∧ driftMinWindow ≤ Sub s.1.1 s0.1.1.

Lemma observe_run st run s :
  run_of st run →
  let '(st', (d, _)) := observeSample s.1.1 s.1.2 s.2 st in
  (∃ run', run_of st' run' ∧ (run' = run ∨ run' = [] ∨ run' = run ++ [s])) ∧ (d = DriftCorrected → drift_evidence (ms_balloon st) run s).
Proof.
  intros (Hlen & Hall & Hfirst). unfold observeSample. destruct (Z.ltb_spec s.1.2 MiB) as [Hs|Hs].
  { split; [|done]. exists run. split; [done|]. by left. }
  destruct (Z.leb_spec (ms_balloon st) (used_mib s.1.2 s.2)) as [Hu|Hu].
  { split; [|done]. exists []. split; [done|]. right. by left. }
  set (first := if ms_driftCount st =? 0 then s.1.1 else ms_driftFirstSeen st).
  assert (Hf : ∃ s0, (run ++ [s]) !! 0%nat = Some s0 ∧ first = s0.1.1).
  { unfold first. destruct run as [|s0 run]; simpl in *; [exists s; split; [done|by rewrite <- Hlen]|]. exists s0. split; [done|]. destruct (Z.eqb_spec (ms_driftCount st) 0); [lia|done]. }
  assert (Hall' : Forall (drifting (ms_balloon st)) (run ++ [s])) by (apply Forall_app; split; [done|]; repeat constructor; lia).
  assert (Hlen' : Z.of_nat (length (run ++ [s])) = ms_driftCount st + 1) by (rewrite length_app; simpl; lia).
  destruct ((driftMinSamples <=? ms_driftCount st + 1) && (driftMinWindow <=? Sub s.1.1 first)) eqn:Ec.
  - apply andb_prop in Ec as [E1%Z.leb_le E2%Z.leb_le]. split; [exists []; split; [done|right; by left]|]. intros _. unfold driftMinSamples in E1.
    split; [done|]. split; [eapply Z.le_trans; [exact E1|]; apply Z.eq_le_incl; symmetry; exact Hlen'|]. destruct Hf as (s0 & H0 & E0). exists s0. split; [done|]. by rewrite <- E0.
  - split; [|by destruct (ms_driftCount st + 1 =? 1)]. exists (run ++ [s]). split; [|by right; right].
    split; [exact Hlen'|]. split; [done|]. destruct Hf as (s0 & H0 & E0). destruct run as [|s1 run]; simpl in *; by simplify_eq.
Qed.

(** The driver lets air out of its idea of the balloon only on evidence: among the samples so far there are, since the last that
    contradicted it, enough that say the guest cannot have given up that much, over a long enough time. *)
Lemma drift_corrected_on_evidence st ss s :
  ms_driftCount st = 0 →
  let st1 := foldl observe st ss in
  (observeSample s.1.1 s.1.2 s.2 st1).2.1 = DriftCorrected → ∃ run, sublist run ss ∧ drift_evidence (ms_balloon st1) run s.
Proof.
  intros H0. assert (Hrun : ∃ run, sublist run ss ∧ run_of (foldl observe st ss) run).
  { induction ss as [|s1 ss IH] using rev_ind; [exists []; split; [apply sublist_nil_l|]; split; [simpl; by rewrite H0|]; split; [constructor|done]|].
    destruct IH as (run & Hsub & Hr). rewrite foldl_app. cbn [foldl]. pose proof (observe_run _ _ s1 Hr) as Ho. unfold observe at 1.
    destruct (observeSample s1.1.1 s1.1.2 s1.2 (foldl observe st ss)) as [st' [d b]]. destruct Ho as [(run' & Hr' & Hc) _]. exists run'. split; [|done].
    destruct Hc as [-> | [-> | ->]]; [by apply sublist_inserts_r|apply sublist_nil_l|by apply sublist_app]. }
  destruct Hrun as (run & Hsub & Hr). pose proof (observe_run _ _ s Hr) as Ho. cbv zeta.
  destruct (observeSample s.1.1 s.1.2 s.2 (foldl observe st ss)) as [st' [d b]]. destruct Ho as [_ Ho]. intros Hd. exists run. split; [done|]. by apply Ho.
Qed.

(** ** Disks *)







(** A grow that is cut off after the file was extended, or whose rollback fails, never reaches the hypervisor: the next call finds
    the file large enough, skips the device, and reports success although the guest cannot use the space. *)
Lemma interrupted_grow_is_lost io n i t z :
  grow_index_error n i = None → gi_socket io = true → gi_stat io = true → gi_dial io = true → gi_guest io = true →
  dz_vmm z < t → dz_file z = t →
  let '(z', r) := GrowDisk io n i t z in r = Ok tt ∧ dz_vmm z' = dz_vmm z ∧ dz_fs z' ≤ dz_vmm z.
Proof.
  intros Hi Hs Hst Hd Hg Hlt Hf. unfold GrowDisk. rewrite Hi, Hs, Hst. cbn [negb]. unfold grow_host. destruct (Z.leb_spec t (dz_file z)); [|lia].
  unfold grow_guest. rewrite Hd, Hg. simpl. split; [done|]. split; [done|]. lia.
Qed.

(** ** Adoption *)

(** The state read off a machine that was just started is the state its starter remembers, if it has a balloon. *)
Lemma adopt_fresh cfg disk tap fs ch hp :
  0 < boot_mem cfg < cf_MemoryMaxMiB cfg → cf_MemoryMaxMiB cfg < 2 ^ 32 → 0 ≤ cf_MemoryMiB cfg →
  let c := start_config cfg disk tap fs in
  Some (adoptMemState (mkInfo ch (Some (mkInfoConfig (Some (vm_SizeBytes (vg_Memory c), hp)) (bl_SizeBytes <$> vg_Balloon c))))) =
  dv_mem (storeMemState [] (boot_mem cfg) (cf_MemoryMaxMiB cfg) (init_balloon cfg) (mkDriver ∅ ∅ ∅)) !! ([] : SandboxID).
Proof.
  intros Hb Hx Hm. cbn [dv_mem storeMemState set_mem]. rewrite lookup_insert_eq. unfold start_config, adoptMemState, init_balloon, buildMemoryConfig.
  cbn [vg_Memory vg_Balloon vi_Config vm_SizeBytes fmap option_fmap option_map]. rewrite (wrap_u_small 32 (boot_mem cfg)) by lia.
  destruct (Z.ltb_spec (boot_mem cfg) (cf_MemoryMaxMiB cfg)); [|lia]. cbn [fmap option_fmap option_map bl_SizeBytes default from_option id].
  assert (HM : MiB = 2 ^ 20) by done. rewrite !(wrap_u_small 64) by (rewrite HM; lia). rewrite !Z.div_mul by done. unfold default, id.
  destruct (Z.ltb_spec 0 ((cf_MemoryMaxMiB cfg - boot_mem cfg) * MiB)); [|rewrite HM in *; lia].
  rewrite !(wrap_u_small 32) by (rewrite ?(wrap_u_small 32) by lia; lia). f_equal. f_equal. lia.
Qed.

(** After the guest was given all its memory a replacement supervisor takes the machine for one that cannot be resized; after it
    was given part of it, that part is the new floor. *)
Lemma adoption_loses_floor :
  let info b := mkInfo "Running" (Some (mkInfoConfig (Some (2048 * MiB, 0)) (Some (b * MiB)))) in
  ms_mode (adoptMemState (info 0)) = MemoryModeFlat ∧ ResizeMemory (Some (adoptMemState (info 0))) (1024 * MiB) true = (Some (adoptMemState (info 0)), 0, false) ∧
  ms_bootMiB (adoptMemState (info 1536)) = 512 ∧ ms_bootMiB (adoptMemState (info 512)) = 1536.
Proof. vm_compute. done. Qed.

(** ** Witnesses *)

Definition w_bounds : Bounds := mkBounds (256 * MiB) (4096 * MiB) 1 4 0.
Definition w_mem : vmMemState := mkMemState MemoryModeBalloon 512 2048 1536 zero_time 0.

Lemma balloon_within_bounds_witness :
  (resizer_ResizeMemory (mkResizer w_bounds 0 0) (Some w_mem) (9000 * MiB) true).1.2 = 2048 * MiB ∧
  (let st1 := foldl (mem_step w_bounds) w_mem [EvResize (1024 * MiB) true; EvSample 5 (2048 * MiB) (2000 * MiB)] in
   ms_bootMiB w_mem * MiB ≤ guest_bytes st1 ≤ ms_totalMiB w_mem * MiB).
Proof.
  split; [vm_compute; reflexivity|].
  pose proof (balloon_within_bounds w_bounds w_mem [EvResize (1024 * MiB) true; EvSample 5 (2048 * MiB) (2000 * MiB)] 0 true) as H. cbv zeta in H |- *.
  destruct (resizer_ResizeMemory _ _ 0 true) as [[[r' st2] got] done]. apply H; [vm_compute; split; discriminate|vm_compute; reflexivity|reflexivity|].
  split; vm_compute; try split; (discriminate || reflexivity).
Defined.


