(* ===== verification/GoJson.v ===== *)
(** * encoding/json

    The JSON text the program writes and reads.  A document is a tree ([json]); a number keeps its literal, as
    [json.RawMessage] and the decoder's number path do.  [json_print] is the compact form [json.Marshal] writes,
    [Unmarshal] the syntax check and the tree.  Text is taken to be valid UTF-8.  The round trip is
    [Unmarshal_print]; [Unmarshal_torn] is that no proper prefix of an object's text is a document. *)

From stdpp Require Import prelude strings list pretty.
From Stdlib Require Import ZArith Ascii Lia.
From S2P Require Import Prelude GoStrings GoIO.

Inductive json :=
| JNull
| JBool (b : bool)
| JNum (lit : bytes)
| JStr (s : string)
| JArr (l : list json)
| JObj (l : list (string * json)).

(** The induction principle that goes through the lists. *)
Section json_ind.
Variable P : json → Prop.
Hypotheses (Hnull : P JNull) (Hbool : ∀ b, P (JBool b)) (Hnum : ∀ lit, P (JNum lit)) (Hstr : ∀ s, P (JStr s))
  (Harr : ∀ l, Forall P l → P (JArr l)) (Hobj : ∀ l, Forall (λ kv, P kv.2) l → P (JObj l)).

Fixpoint json_nested_ind (v : json) : P v :=
  match v with
  | JNull => Hnull
  | JBool b => Hbool b
  | JNum lit => Hnum lit
  | JStr s => Hstr s
  | JArr l => Harr l ((fix go l := match l return Forall P l with [] => Forall_nil_2 P | v :: l => Forall_cons_2 P v l (json_nested_ind v) (go l) end) l)
  | JObj l => Hobj l ((fix go l := match l return Forall (λ kv, P kv.2) l with
                       [] => Forall_nil_2 _ | kv :: l => Forall_cons_2 (λ kv, P kv.2) kv l (json_nested_ind kv.2) (go l) end) l)
  end.
End json_ind.

(** ** Printing *)

Definition quote : ascii := byte_of 34.
Definition bslash : ascii := byte_of 92.

Definition escape_byte (c : ascii) : bytes :=
  let n := byte_val c in
  if (n =? 34) || (n =? 92) then [bslash; c]
  else if n =? 8 then [bslash; "b"%char]
  else if n =? 12 then [bslash; "f"%char]
  else if n =? 10 then [bslash; "n"%char]
  else if n =? 13 then [bslash; "r"%char]
  else if n =? 9 then [bslash; "t"%char]
  else if (n <? 32) || (n =? 60) || (n =? 62) || (n =? 38) then
    [bslash; "u"; "0"; "0"; hex_digit (n / 16); hex_digit (n mod 16)]%char
  else [c].

Fixpoint escape (l : bytes) : bytes := match l with [] => [] | c :: l => escape_byte c ++ escape l end.

Definition print_string (s : string) : bytes := quote :: escape (chars s) ++ [quote].

Fixpoint sep_by (ls : list bytes) : bytes :=
  match ls with [] => [] | [l] => l | l :: ls => l ++ ","%char :: sep_by ls end.

Fixpoint json_print (v : json) : bytes :=
  match v with
  | JNull => chars "null"
  | JBool b => chars (if b then "true" else "false")
  | JNum lit => lit
  | JStr s => print_string s
  | JArr l => "["%char :: sep_by (map json_print l) ++ ["]"%char]
  | JObj l => "{"%char :: sep_by (map (λ kv, print_string kv.1 ++ ":"%char :: json_print kv.2) l) ++ ["}"%char]
  end.

(** ** Scanning *)

Definition is_ws (c : ascii) : bool := let n := byte_val c in (n =? 32) || (n =? 9) || (n =? 10) || (n =? 13).
Definition skip_ws : bytes → bytes := drop_while is_ws.

(** A scanned string: bytes and the 16-bit units of [\u] escapes. *)
Inductive token := TByte (c : ascii) | TUnit (z : Z).

Definition hex4 (a b c d : ascii) : option Z :=
  match hex_val a, hex_val b, hex_val c, hex_val d with
  | Some w, Some x, Some y, Some z => Some (w * 4096 + x * 256 + y * 16 + z)
  | _, _, _, _ => None
  end.

Definition simple_escape (c : ascii) : option ascii :=
  let n := byte_val c in
  if (n =? 34) || (n =? 92) || (n =? 47) then Some c
  else if n =? 98 then Some (byte_of 8)
  else if n =? 102 then Some (byte_of 12)
  else if n =? 110 then Some (byte_of 10)
  else if n =? 114 then Some (byte_of 13)
  else if n =? 116 then Some (byte_of 9)
  else None.

Definition push (t : token) (r : option (list token * bytes)) : option (list token * bytes) :=
  match r with Some (ts, rest) => Some (t :: ts, rest) | None => None end.

(** After the opening quote, up to and including the closing one. *)
Fixpoint scan_string (l : bytes) : option (list token * bytes) :=
  match l with
  | [] => None
  | c :: l =>
      if byte_val c =? 34 then Some ([], l)
      else if byte_val c =? 92 then
        match l with
        | [] => None
        | e :: l =>
            if byte_val e =? 117 then
              match l with
              | w :: x :: y :: z :: l => match hex4 w x y z with Some u => push (TUnit u) (scan_string l) | None => None end
              | _ => None
              end
            else match simple_escape e with Some b => push (TByte b) (scan_string l) | None => None end
        end
      else if byte_val c <? 32 then None
      else push (TByte c) (scan_string l)
  end.

(** The UTF-8 encoding of a code point. *)
Definition utf8 (z : Z) : bytes :=
  byte_of <$> (if z <? 128 then [z]
               else if z <? 2048 then [192 + z / 64; 128 + z mod 64]
               else if z <? 65536 then [224 + z / 4096; 128 + z / 64 mod 64; 128 + z mod 64]
               else [240 + z / 262144; 128 + z / 4096 mod 64; 128 + z / 64 mod 64; 128 + z mod 64]).

Definition is_high (z : Z) : bool := (55296 <=? z) && (z <? 56320).
Definition is_low (z : Z) : bool := (56320 <=? z) && (z <? 57344).

(** Pairs of surrogates are one code point, single ones the replacement character. *)
Fixpoint join_tokens (ts : list token) : bytes :=
  match ts with
  | [] => []
  | TByte c :: ts => c :: join_tokens ts
  | TUnit h :: ts =>
      if is_high h then
        match ts with
        | TUnit z :: ts' => if is_low z then utf8 (65536 + (h - 55296) * 1024 + (z - 56320)) ++ join_tokens ts' else utf8 65533 ++ join_tokens ts
        | _ => utf8 65533 ++ join_tokens ts
        end
      else utf8 (if is_low h then 65533 else h) ++ join_tokens ts
  end.

Definition num_char (c : ascii) : bool := (bool_decide (is_Some (digit_val c))) || bool_decide (c ∈ ["-"; "+"; "."; "e"; "E"]%char).

Fixpoint span (f : ascii → bool) (l : bytes) : bytes * bytes :=
  match l with
  | [] => ([], [])
  | c :: r => if f c then let '(a, b) := span f r in (c :: a, b) else ([], l)
  end.

Definition is_digit (c : ascii) : bool := bool_decide (is_Some (digit_val c)).

(** The grammar of numbers: sign, integer part without leading zeros, fraction, exponent. *)
Definition exponent_ok (l : bytes) : bool :=
  match l with
  | [] => true
  | c :: l =>
      bool_decide (c ∈ ["e"; "E"]%char) &&
      match l with
      | s :: l' => let d := if bool_decide (s ∈ ["+"; "-"]%char) then l' else l in negb (bool_decide (d = [])) && forallb is_digit d
      | [] => false
      end
  end.

Definition fraction_ok (l : bytes) : bool :=
  match l with
  | "."%char :: l => let '(d, l) := span is_digit l in negb (bool_decide (d = [])) && exponent_ok l
  | _ => exponent_ok l
  end.

Definition valid_num (lit : bytes) : bool :=
  let l := match lit with "-"%char :: l => l | _ => lit end in
  let '(d, l) := span is_digit l in
  negb (bool_decide (d = [])) && (bool_decide (length d = 1%nat) || negb (bool_decide (head d = Some "0"%char))) && fraction_ok l.

Fixpoint parse_value (fuel : nat) (l : bytes) {struct fuel} : option (json * bytes) :=
  match fuel with
  | O => None
  | S fuel =>
      match skip_ws l with
      | [] => None
      | c :: r =>
          if byte_val c =? 34 then match scan_string r with Some (ts, r) => Some (JStr (of_chars (join_tokens ts)), r) | None => None end
          else if byte_val c =? 123 then
            match skip_ws r with
            | c' :: r' => if byte_val c' =? 125 then Some (JObj [], r')
                          else match parse_members fuel (c' :: r') with Some (kvs, r) => Some (JObj kvs, r) | None => None end
            | [] => None
            end
          else if byte_val c =? 91 then
            match skip_ws r with
            | c' :: r' => if byte_val c' =? 93 then Some (JArr [], r')
                          else match parse_elems fuel (c' :: r') with Some (vs, r) => Some (JArr vs, r) | None => None end
            | [] => None
            end
          else
            match strip_prefix (chars "null") (c :: r), strip_prefix (chars "true") (c :: r), strip_prefix (chars "false") (c :: r) with
            | Some r, _, _ => Some (JNull, r)
            | _, Some r, _ => Some (JBool true, r)
            | _, _, Some r => Some (JBool false, r)
            | _, _, _ => let '(lit, r) := span num_char (c :: r) in if valid_num lit then Some (JNum lit, r) else None
            end
      end
  end
with parse_elems (fuel : nat) (l : bytes) {struct fuel} : option (list json * bytes) :=
  match fuel with
  | O => None
  | S fuel =>
      match parse_value fuel l with
      | None => None
      | Some (v, r) =>
          match skip_ws r with
          | [] => None
          | c :: r =>
              if byte_val c =? 93 then Some ([v], r)
              else if byte_val c =? 44 then match parse_elems fuel r with Some (vs, r) => Some (v :: vs, r) | None => None end
              else None
          end
      end
  end
with parse_members (fuel : nat) (l : bytes) {struct fuel} : option (list (string * json) * bytes) :=
  match fuel with
  | O => None
  | S fuel =>
      match skip_ws l with
      | [] => None
      | c :: r =>
          if negb (byte_val c =? 34) then None
          else
            match scan_string r with
            | None => None
            | Some (ts, r) =>
                match skip_ws r with
                | [] => None
                | c :: r =>
                    if negb (byte_val c =? 58) then None
                    else
                      match parse_value fuel r with
                      | None => None
                      | Some (v, r) =>
                          match skip_ws r with
                          | [] => None
                          | c :: r =>
                              let kv := (of_chars (join_tokens ts), v) in
                              if byte_val c =? 125 then Some ([kv], r)
                              else if byte_val c =? 44 then match parse_members fuel r with Some (kvs, r) => Some (kv :: kvs, r) | None => None end
                              else None
                          end
                      end
                end
            end
      end
  end.

(** Every call but the one for an element or a value consumes a byte. *)
Definition json_fuel (l : bytes) : nat := 2 * length l + 2.

Definition Unmarshal (l : bytes) : option json :=
  match parse_value (json_fuel l) l with
  | Some (v, r) => match skip_ws r with [] => Some v | _ => None end
  | None => None
  end.

(** ** Unfolding *)

(** The fuel a tree needs, and that its text is longer. *)
Fixpoint jfuel (v : json) : nat :=
  S (match v with
     | JArr l => foldr (λ v n, S (jfuel v + n)%nat) 1%nat l
     | JObj l => foldr (λ kv n, S (jfuel kv.2 + n)%nat) 1%nat l
     | _ => 0
     end).

Fixpoint wf_json (v : json) : bool :=
  match v with
  | JNum lit => valid_num lit && forallb num_char lit
  | JArr l => forallb wf_json l
  | JObj l => forallb (λ kv, wf_json kv.2) l
  | _ => true
  end.

Definition is_num (v : json) : bool := match v with JNum _ => true | _ => false end.

Lemma scan_escape_byte c l :
  scan_string (escape_byte c ++ l) = push (match escape_byte c with [_; _; _; _; _; _] => TUnit (byte_val c) | _ => TByte c end) (scan_string l).
Proof. destruct c as [[] [] [] [] [] [] [] []]; reflexivity. Qed.

Lemma join_escape_byte c ts :
  join_tokens ((match escape_byte c with [_; _; _; _; _; _] => TUnit (byte_val c) | _ => TByte c end) :: ts) = c :: join_tokens ts.
Proof. destruct c as [[] [] [] [] [] [] [] []]; reflexivity. Qed.

Lemma scan_print s r : ∃ ts, scan_string (escape (chars s) ++ quote :: r) = Some (ts, r) ∧ join_tokens ts = chars s.
Proof.
  induction (chars s) as [|c l (ts & IH & Hj)]; [by exists []|].
  cbn [escape]. rewrite <- app_assoc, scan_escape_byte, IH. cbn [push]. eexists. split; [done|]. by rewrite join_escape_byte, Hj.
Qed.

(** ** Text that follows does not matter *)

Lemma skip_ws_app l s c r : skip_ws l = c :: r → skip_ws (l ++ s) = c :: r ++ s.
Proof.
  unfold skip_ws. induction l as [|d l IH]; [done|]. simpl. destruct (is_ws d); [done|]. by intros [= <- <-].
Qed.

Lemma strip_prefix_app p l s r : strip_prefix p l = Some r → strip_prefix p (l ++ s) = Some (r ++ s).
Proof. rewrite !strip_prefix_Some. intros ->. by rewrite app_assoc. Qed.

Lemma span_app f l s a c b : span f l = (a, c :: b) → span f (l ++ s) = (a, c :: b ++ s).
Proof.
  revert a. induction l as [|d l IH]; [done|]. intros a. simpl. destruct (f d); [|by intros [= <- <- <-]].
  destruct (span f l) as [a' b'] eqn:E. intros [= <- ->]. by rewrite (IH a' eq_refl).
Qed.

Lemma scan_string_app l s ts r : scan_string l = Some (ts, r) → scan_string (l ++ s) = Some (ts, r ++ s).
Proof.
  revert ts. induction l as [l IH] using (well_founded_ind (well_founded_ltof _ length)). unfold ltof in IH.
  intros ts. destruct l as [|c l]; [done|]. cbn [scan_string app].
  assert (Hp : ∀ t k ts, (length k < length (c :: l))%nat → push t (scan_string k) = Some (ts, r) → push t (scan_string (k ++ s)) = Some (ts, r ++ s)).
  { intros t k ts' Hk. unfold push. destruct (scan_string k) as [[ts0 r0]|] eqn:E; [|done]. intros [= <- ->]. by rewrite (IH k Hk ts0 E). }
  destruct (byte_val c =? 34); [by intros [= <- <-]|]. destruct (byte_val c =? 92).
  - destruct l as [|e l]; [done|]. cbn [app]. destruct (byte_val e =? 117).
    + destruct l as [|w [|x [|y [|z l]]]]; try done. cbn [app]. destruct (hex4 w x y z); [|done]. apply Hp. simpl. lia.
    + destruct (simple_escape e); [|done]. apply Hp. simpl. lia.
  - destruct (byte_val c <? 32); [done|]. apply Hp. simpl. lia.
Qed.

Lemma num_char_keywords c l :
  num_char c = true → strip_prefix (chars "null") (c :: l) = None ∧ strip_prefix (chars "true") (c :: l) = None ∧ strip_prefix (chars "false") (c :: l) = None.
Proof. destruct c as [[] [] [] [] [] [] [] []]; try (intros H; exfalso; revert H; vm_compute; discriminate); by intros _. Qed.

Lemma span_head f c l a b : span f (c :: l) = (a, b) → a ≠ [] → f c = true.
Proof. simpl. destruct (f c); [done|]. by intros [= <- _]. Qed.

Definition extends {A} (P : nat → bytes → option (A * bytes)) (num : A → bool) (n : nat) : Prop :=
  ∀ m l s v r, (n ≤ m)%nat → P n l = Some (v, r) → (num v = true → r ≠ []) → P m (l ++ s) = Some (v, r ++ s).

Lemma elems_extends n : extends parse_value is_num n → extends parse_elems (λ _, false) n → extends parse_elems (λ _, false) (S n).
Proof.
  intros Hv He [|m] l s vs r Hm; [lia|]. cbn [parse_elems]. destruct (parse_value n l) as [[v r1]|] eqn:E; [|done].
  destruct (skip_ws r1) as [|c r2] eqn:Hw; [done|]. intros H _.
  rewrite (Hv m l s v r1) by (lia || done || by intros _ ->). rewrite (skip_ws_app _ s _ _ Hw).
  destruct (byte_val c =? 93); [by simplify_eq|]. destruct (byte_val c =? 44); [|done].
  destruct (parse_elems n r2) as [[vs' r3]|] eqn:E2; [|done]. rewrite (He m r2 s vs' r3) by (lia || done). by simplify_eq.
Qed.

Lemma members_extends n : extends parse_value is_num n → extends parse_members (λ _, false) n → extends parse_members (λ _, false) (S n).
Proof.
  intros Hv He [|m] l s kvs r Hm; [lia|]. cbn [parse_members]. destruct (skip_ws l) as [|c l1] eqn:Hw; [done|]. intros H _.
  rewrite (skip_ws_app _ s _ _ Hw). destruct (negb (byte_val c =? 34)); [done|].
  destruct (scan_string l1) as [[ts l2]|] eqn:Hs; [|done]. rewrite (scan_string_app _ s _ _ Hs).
  destruct (skip_ws l2) as [|c2 l3] eqn:Hw2; [done|]. rewrite (skip_ws_app _ s _ _ Hw2). destruct (negb (byte_val c2 =? 58)); [done|].
  destruct (parse_value n l3) as [[v r1]|] eqn:E; [|done]. destruct (skip_ws r1) as [|c3 r2] eqn:Hw3; [done|].
  rewrite (Hv m l3 s v r1) by (lia || done || by intros _ ->). rewrite (skip_ws_app _ s _ _ Hw3). cbv zeta in *.
  destruct (byte_val c3 =? 125); [by simplify_eq|]. destruct (byte_val c3 =? 44); [|done].
  destruct (parse_members n r2) as [[vs' r3]|] eqn:E2; [|done]. rewrite (He m r2 s vs' r3) by (lia || done). by simplify_eq.
Qed.

Lemma value_extends n : extends parse_elems (λ _, false) n → extends parse_members (λ _, false) n → extends parse_value is_num (S n).
Proof.
  intros He Hms [|m] l s v r Hm; [lia|]. cbn [parse_value]. destruct (skip_ws l) as [|c l1] eqn:Hw; [done|]. intros H Hn.
  rewrite (skip_ws_app _ s _ _ Hw).
  destruct (byte_val c =? 34). { destruct (scan_string l1) as [[ts l2]|] eqn:Hs; [|done]. rewrite (scan_string_app _ s _ _ Hs). by simplify_eq. }
  destruct (byte_val c =? 123).
  { destruct (skip_ws l1) as [|c2 l2] eqn:Hw2; [done|]. rewrite (skip_ws_app _ s _ _ Hw2). destruct (byte_val c2 =? 125); [by simplify_eq|].
    destruct (parse_members n (c2 :: l2)) as [[kvs r1]|] eqn:E; [|done].
    pose proof (Hms m (c2 :: l2) s kvs r1 ltac:(lia) E ltac:(done)) as Hx. cbn [app] in Hx. rewrite Hx. by simplify_eq. }
  destruct (byte_val c =? 91).
  { destruct (skip_ws l1) as [|c2 l2] eqn:Hw2; [done|]. rewrite (skip_ws_app _ s _ _ Hw2). destruct (byte_val c2 =? 93); [by simplify_eq|].
    destruct (parse_elems n (c2 :: l2)) as [[kvs r1]|] eqn:E; [|done].
    pose proof (He m (c2 :: l2) s kvs r1 ltac:(lia) E ltac:(done)) as Hx. cbn [app] in Hx. rewrite Hx. by simplify_eq. }
  rewrite app_comm_cons.
  destruct (strip_prefix (chars "null") (c :: l1)) as [r1|] eqn:E1. { rewrite (strip_prefix_app _ _ s _ E1). by simplify_eq. }
  destruct (strip_prefix (chars "true") (c :: l1)) as [r1|] eqn:E2.
  { pose proof E2 as ?%strip_prefix_Some. simplify_eq/=. done. }
  destruct (strip_prefix (chars "false") (c :: l1)) as [r1|] eqn:E3.
  { pose proof E3 as ?%strip_prefix_Some. simplify_eq/=. done. }
  destruct (span num_char (c :: l1)) as [lit r1] eqn:Hsp. destruct (valid_num lit) eqn:Hv; [|done]. simplify_eq.
  assert (lit ≠ []) by (by intros ->). pose proof (span_head _ _ _ _ _ Hsp ltac:(done)) as Hc.
  destruct r as [|d r]; [by specialize (Hn eq_refl)|]. pose proof (span_app _ _ s _ _ _ Hsp) as Hsp'. rewrite Hsp', Hv.
  destruct (num_char_keywords c (l1 ++ s) Hc) as (K1 & K2 & K3). cbn [app]. by rewrite K1, K2, K3.
Qed.

(** The parser reads a value the same way whatever follows it, a number excepted at the very end. *)
Lemma parse_extends n : extends parse_value is_num n ∧ extends parse_elems (λ _, false) n ∧ extends parse_members (λ _, false) n.
Proof.
  induction n as [|n (IHv & IHe & IHm)]; [by repeat split; intros m l s v r _ [=]|].
  split_and!; [by apply value_extends|by apply elems_extends|by apply members_extends].
Qed.

(** ** The round trip *)

Lemma span_all f a b : forallb f a = true → match b with c :: _ => f c = false | [] => True end → span f (a ++ b) = (a, b).
Proof.
  intros Ha Hb. induction a as [|c a IH]; simpl in *.
  - destruct b as [|c b]; [done|]. simpl. by rewrite Hb.
  - apply andb_true_iff in Ha as [-> Ha]. by rewrite (IH Ha).
Qed.

Lemma num_char_head c : num_char c = true → is_ws c = false ∧ byte_val c ≠ 34 ∧ byte_val c ≠ 123 ∧ byte_val c ≠ 91 ∧ byte_val c ≠ 93.
Proof. destruct c as [[] [] [] [] [] [] [] []]; try (intros H; exfalso; revert H; vm_compute; discriminate); intros _; by vm_compute. Qed.

Lemma print_head v : wf_json v = true → ∃ c k, json_print v = c :: k ∧ is_ws c = false ∧ byte_val c ≠ 93.
Proof.
  destruct v as [|[]|lit|s|l|l]; intros Hwf; try (by eexists _, _).
  simpl in *. apply andb_true_iff in Hwf as [Hv Hc]. destruct lit as [|c lit]; [done|]. simpl in Hc.
  apply andb_true_iff in Hc as [Hc _]. exists c, lit. destruct (num_char_head c Hc) as (? & ? & ? & ? & ?). done.
Qed.

Lemma skip_ws_head c k : is_ws c = false → skip_ws (c :: k) = c :: k.
Proof. intros H. unfold skip_ws. simpl. by rewrite H. Qed.

Definition stops (r : bytes) : Prop := match r with c :: _ => num_char c = false | [] => True end.

Definition reads (v : json) : Prop :=
  wf_json v = true → ∀ n r, (jfuel v ≤ n)%nat → (is_num v = true → stops r) → parse_value n (json_print v ++ r) = Some (v, r).

Lemma parse_elems_print l n r :
  l ≠ [] → Forall reads l → forallb wf_json l = true → (foldr (λ v n, S (jfuel v + n)%nat) 1%nat l ≤ n)%nat →
  parse_elems n (sep_by (map json_print l) ++ "]"%char :: r) = Some (l, r).
Proof.
  intros Hne Hl. revert n. induction Hl as [|v l Hv Hl IH]; [done|]. intros n. simpl forallb. intros [Hw Hws]%andb_true_iff. cbn [foldr]. intros Hn.
  destruct n as [|n]; [lia|]. cbn [parse_elems map sep_by]. destruct l as [|v' l].
  - cbn [map foldr] in *. rewrite (Hv Hw n ("]"%char :: r)) by (lia || done). done.
  - cbn [map]. rewrite <- app_assoc. cbn [app]. rewrite (Hv Hw n) by (lia || done). rewrite skip_ws_head by done.
    change (byte_val ","%char =? 93) with false. change (byte_val ","%char =? 44) with true. cbn match.
    change (json_print v' :: map json_print l) with (map json_print (v' :: l)). by rewrite (IH ltac:(done) n Hws) by lia.
Qed.

Lemma parse_members_print l n r :
  l ≠ [] → Forall (λ kv, reads kv.2) l → forallb (λ kv, wf_json kv.2) l = true → (foldr (λ kv n, S (jfuel kv.2 + n)%nat) 1%nat l ≤ n)%nat →
  parse_members n (sep_by (map (λ kv, print_string kv.1 ++ ":"%char :: json_print kv.2) l) ++ "}"%char :: r) = Some (l, r).
Proof.
  intros Hne Hl. revert n. induction Hl as [|[k v] l Hv Hl IH]; [done|]. intros n. simpl forallb. intros [Hw Hws]%andb_true_iff. cbn [foldr]. intros Hn.
  simpl in Hv, Hw, Hn. destruct n as [|n]; [lia|].
  assert (Hone : ∀ tail, tail ≠ [] → stops tail → parse_members (S n) ((print_string k ++ ":"%char :: json_print v) ++ tail) =
    match skip_ws tail with
    | [] => None
    | c :: r => if byte_val c =? 125 then Some ([(k, v)], r)
                else if byte_val c =? 44 then match parse_members n r with Some (kvs, r) => Some ((k, v) :: kvs, r) | None => None end else None
    end).
  { intros tail Ht Hst. unfold print_string. rewrite <- !app_assoc. cbn [parse_members app]. rewrite <- !app_assoc.
    rewrite skip_ws_head by done. change (negb (byte_val quote =? 34)) with false. cbn match.
    destruct (scan_print k (":"%char :: json_print v ++ tail)) as (ts & Hs & Hj). cbn [app] in *. rewrite Hs.
    rewrite skip_ws_head by done. cbn. rewrite (Hv Hw n tail) by (lia || done). rewrite Hj, of_chars_chars. done. }
  cbn [map sep_by fst snd]. destruct l as [|kv' l].
  - cbn [map]. by rewrite Hone.
  - cbn [map]. rewrite <- app_assoc, <- app_comm_cons, Hone by done. rewrite skip_ws_head by done.
    change (byte_val ","%char =? 125) with false. change (byte_val ","%char =? 44) with true. cbn match.
    specialize (IH ltac:(done) n Hws ltac:(lia)). cbn [map] in IH. by rewrite IH.
Qed.

Lemma parse_print v : reads v.
Proof.
  induction v using json_nested_ind; intros Hwf n r Hn Hst; simpl in Hn; (destruct n as [|n]; [lia|]).
  - done.
  - by destruct b.
  - simpl in Hwf. apply andb_true_iff in Hwf as [Hv Hc]. cbn [json_print parse_value is_num] in *.
    pose proof (span_all num_char lit r Hc (Hst eq_refl)) as Hsp. destruct lit as [|c lit]; [done|]. cbn [app forallb] in *.
    apply andb_true_iff in Hc as [Hc _]. destruct (num_char_head c Hc) as (H1 & H2 & H3 & H4 & _).
    destruct (num_char_keywords c (lit ++ r) Hc) as (K1 & K2 & K3). rewrite skip_ws_head, K1, K2, K3, Hsp, Hv by done.
    by rewrite (proj2 (Z.eqb_neq _ _) H2), (proj2 (Z.eqb_neq _ _) H3), (proj2 (Z.eqb_neq _ _) H4).
  - cbn [json_print parse_value]. unfold print_string. cbn [app]. rewrite skip_ws_head by done. change (byte_val quote =? 34) with true. cbn match.
    rewrite <- app_assoc. destruct (scan_print s r) as (ts & Hs & Hj). cbn [app]. by rewrite Hs, Hj, of_chars_chars.
  - cbn [json_print parse_value app]. rewrite skip_ws_head by done. cbn -[skip_ws parse_elems sep_by]. rewrite <- app_assoc. cbn [app].
    destruct l as [|v l]; [done|]. cbn [wf_json] in Hwf. pose proof Hwf as Hwf'. simpl in Hwf'. apply andb_true_iff in Hwf' as [Hv _].
    destruct (print_head v Hv) as (c & k & Hp & Hws & H93).
    assert (Hh : ∃ k', sep_by (map json_print (v :: l)) ++ "]"%char :: r = c :: k').
    { cbn [map sep_by]. rewrite Hp. destruct (map json_print l); eexists; by simpl. }
    destruct Hh as [k' Hk]. pose proof (parse_elems_print (v :: l) n r ltac:(done) H Hwf ltac:(cbn [foldr] in *; lia)) as He.
    rewrite Hk in *. rewrite skip_ws_head by done. rewrite (proj2 (Z.eqb_neq _ _) H93), He. done.
  - cbn [json_print parse_value app]. rewrite skip_ws_head by done. cbn -[skip_ws parse_members sep_by print_string]. rewrite <- app_assoc. cbn [app].
    destruct l as [|[k v] l]; [done|]. cbn [wf_json] in Hwf.
    assert (Hh : ∃ k', sep_by (map (λ kv, print_string kv.1 ++ ":"%char :: json_print kv.2) ((k, v) :: l)) ++ "}"%char :: r = quote :: k').
    { cbn [map sep_by]. unfold print_string. destruct (map _ l); eexists; by simpl. }
    destruct Hh as [k' Hk]. pose proof (parse_members_print ((k, v) :: l) n r ltac:(done) H Hwf ltac:(cbn [foldr] in *; lia)) as He.
    rewrite Hk in *. rewrite skip_ws_head by done. change (byte_val quote =? 125) with false. cbn match. by rewrite He.
Qed.

Lemma length_sep_by ls : (sum_list (map length ls) ≤ length (sep_by ls))%nat.
Proof. induction ls as [|a [|b ls] IH]; simpl in *; try lia. rewrite length_app. simpl in *. lia. Qed.

Lemma jfuel_length v : wf_json v = true → (S (jfuel v) ≤ 2 * length (json_print v))%nat.
Proof.
  induction v using json_nested_ind; intros Hwf; [simpl; lia|destruct b; simpl; lia| | | |].
  - simpl in *. apply andb_true_iff in Hwf as [Hv _]. destruct lit; [done|]. simpl. lia.
  - simpl. rewrite length_app. simpl. lia.
  - cbn [jfuel json_print wf_json length] in *. rewrite length_app. pose proof (length_sep_by (map json_print l)) as Hs.
    assert (foldr (λ v n, S (jfuel v + n)%nat) 1%nat l ≤ 1 + 2 * sum_list (map length (map json_print l)))%nat; [|cbn [length]; lia].
    clear Hs. induction H as [|v l Hv Hl IH]; [done|]. simpl in *. apply andb_true_iff in Hwf as [Hw Hws]. specialize (Hv Hw). specialize (IH Hws). lia.
  - cbn [jfuel json_print wf_json length] in *. rewrite length_app.
    pose proof (length_sep_by (map (λ kv, print_string kv.1 ++ ":"%char :: json_print kv.2) l)) as Hs.
    assert (foldr (λ kv n, S (jfuel kv.2 + n)%nat) 1%nat l ≤ 1 + 2 * sum_list (map length (map (λ kv, print_string kv.1 ++ ":"%char :: json_print kv.2) l)))%nat; [|cbn [length]; lia].
    clear Hs. induction H as [|v l Hv Hl IH]; [done|]. simpl in *. apply andb_true_iff in Hwf as [Hw Hws]. specialize (Hv Hw). specialize (IH Hws).
    rewrite !length_app. simpl. lia.
Qed.

Lemma Unmarshal_print v : wf_json v = true → Unmarshal (json_print v) = Some v.
Proof.
  intros Hwf. unfold Unmarshal. pose proof (jfuel_length v Hwf).
  pose proof (parse_print v Hwf (json_fuel (json_print v)) [] ltac:(unfold json_fuel; lia) ltac:(done)) as Hp.
  rewrite app_nil_r in Hp. by rewrite Hp.
Qed.

(** A text that was cut off is not a document. *)
Lemma Unmarshal_torn v p s : wf_json v = true → is_num v = false → json_print v = p ++ s → s ≠ [] → Unmarshal p = None.
Proof.
  intros Hwf Hnum Heq Hs. unfold Unmarshal. destruct (parse_value (json_fuel p) p) as [[v' r]|] eqn:E; [|done].
  destruct (skip_ws r) as [|c r'] eqn:Hr; [exfalso|done]. pose proof (jfuel_length v Hwf) as Hj.
  pose proof (parse_print v Hwf (json_fuel (json_print v)) [] ltac:(unfold json_fuel; lia) ltac:(done)) as Hp. rewrite app_nil_r in Hp.
  destruct (is_num v' && bool_decide (r = [])) eqn:Hn.
  - apply andb_true_iff in Hn as [Hn ->%bool_decide_eq_true]. destruct v' as [| |lit| | |]; try done.
    destruct v as [|b| |str|l|l]; try done.
    all: destruct p as [|c p]; [done|]; cbn [json_print app chars] in Heq.
    all: try (destruct b). all: try (apply (f_equal head) in Heq; injection Heq as <-).
    all: revert E; unfold json_fuel; cbn [Nat.mul Nat.add length]; rewrite Nat.add_succ_r; cbn [parse_value].
    all: rewrite skip_ws_head by done.
    all: cbn -[skip_ws parse_members parse_elems strip_prefix]; repeat case_match; try done; naive_solver.
  - pose proof (proj1 (parse_extends (json_fuel p)) (json_fuel (json_print v)) p s v' r) as Hx. rewrite <- Heq, Hp in Hx.
    assert (Hx' : Some (v, []) = Some (v', r ++ s)).
    { apply Hx; [unfold json_fuel; rewrite Heq, length_app; lia|done|]. intros Hv ->. by rewrite Hv in Hn. }
    injection Hx' as _ Hx'. symmetry in Hx'. apply app_eq_nil in Hx' as [_ ?]. done.
Qed.

(** ** Integers and the fields of a structure *)

Lemma digit_char d : (d < 10)%N → digit_val (pretty_N_char d) = Some (Z.of_N d) ∧ (d ≠ 0%N → pretty_N_char d ≠ "0"%char).
Proof.
  intros Hd. assert (d ∈ (N.of_nat <$> seq 0 10)) as Hin.
  { apply list_elem_of_fmap. exists (N.to_nat d). split; [lia|]. apply elem_of_seq. lia. }
  cbn in Hin. rewrite !elem_of_cons in Hin. repeat (destruct Hin as [-> | Hin]; [by vm_compute|]). by apply not_elem_of_nil in Hin.
Qed.

Record decimal (x : N) (ds : bytes) : Prop := {
  dec_digits : forallb is_digit ds = true;
  dec_zero : x = 0%N → ds = [];
  dec_head : head ds ≠ Some "0"%char;
  dec_val : ∀ r, digits_val (ds ++ r) 0 = digits_val r (Z.of_N x);
  dec_pos : (0 < x)%N → ds ≠ []
}.

Lemma pretty_go_decimal x s : ∃ ds, chars (pretty_N_go x s) = ds ++ chars s ∧ decimal x ds.
Proof.
  revert s. induction (N.lt_wf_0 x) as [x _ IH]. intros s. destruct (decide (x = 0%N)) as [-> | Hx].
  { exists []. rewrite pretty_N_go_0. split; [done|]. by split. }
  assert (Hpos : (0 < x)%N) by lia. rewrite (pretty_N_go_step x) by done.
  destruct (IH (x `div` 10)%N ltac:(apply N.div_lt; lia) (String (pretty_N_char (x `mod` 10)%N) s)) as (ds & Heq & Hd).
  destruct (digit_char (x `mod` 10)%N ltac:(apply N.mod_lt; lia)) as [Hv Hnz].
  exists (ds ++ [pretty_N_char (x `mod` 10)%N]). rewrite Heq. split; [by rewrite <- app_assoc|].
  destruct Hd as [Hd1 Hd2 Hd3 Hd4 Hd5]. split; [| lia | | |intros _; by destruct ds].
  - rewrite forallb_app, Hd1. simpl. unfold is_digit. by rewrite Hv.
  - destruct ds as [|c ds]; [|done]. simpl. intros [= Hc]. apply Hnz; [|done]. intros Hm.
    destruct (decide (x / 10 = 0)%N) as [H0|H0]; [|exfalso; by apply (Hd5 (proj1 (N.neq_0_lt_0 _) H0))].
    pose proof (N.div_mod' x 10) as Hdm. rewrite H0, Hm in Hdm. lia.
  - intros r. rewrite <- app_assoc, Hd4. simpl. rewrite Hv. f_equal. rewrite N2Z.inj_div, N2Z.inj_mod.
    pose proof (Z.div_mod (Z.of_N x) 10 ltac:(lia)). simpl. lia.
Qed.

Lemma span_digits ds : forallb is_digit ds = true → span is_digit ds = (ds, []).
Proof. intros H. pose proof (span_all is_digit ds [] H I) as Hs. by rewrite app_nil_r in Hs. Qed.

Lemma digit_not_sign c : is_digit c = true → c ≠ "-"%char ∧ byte_val c ≠ 45 ∧ byte_val c ≠ 43 ∧ num_char c = true.
Proof. destruct c as [[] [] [] [] [] [] [] []]; try (intros H; exfalso; revert H; vm_compute; discriminate); intros _; by vm_compute. Qed.

Lemma digits_num ds : forallb is_digit ds = true → forallb num_char ds = true.
Proof.
  induction ds as [|c ds IH]; [done|]. simpl. intros [Hc Hd]%andb_true_iff. destruct (digit_not_sign c Hc) as (_ & _ & _ & ->). by apply IH.
Qed.

(** A decimal, the minus sign in front of it or not, is a number and reads back. *)
Lemma decimal_literal x ds :
  decimal x ds → (0 < x)%N → - 2 ^ 63 < Z.of_N x < 2 ^ 63 →
  wf_json (JNum ds) = true ∧ ParseInt (of_chars ds) = Ok (Z.of_N x) ∧
  wf_json (JNum ("-"%char :: ds)) = true ∧ ParseInt (of_chars ("-"%char :: ds)) = Ok (- Z.of_N x).
Proof.
  intros [Hd _ Hh Hv Hp] Hx Hr. specialize (Hp Hx). specialize (Hv []). rewrite app_nil_r in Hv. cbn [digits_val] in Hv.
  destruct ds as [|c ds]; [done|]. pose proof (digits_num _ Hd) as Hn. pose proof (span_digits _ Hd) as Hs. pose proof Hd as Hc. simpl in Hc.
  apply andb_true_iff in Hc as [Hc _]. destruct (digit_not_sign c Hc) as (H1 & H2 & H3 & _).
  assert (Hok : negb (bool_decide (c :: ds = [])) && (bool_decide (length (c :: ds) = 1%nat) || negb (bool_decide (head (c :: ds) = Some "0"%char))) && fraction_ok [] = true).
  { rewrite (bool_decide_eq_false_2 (head (c :: ds) = Some "0"%char)) by done. by rewrite orb_true_r. }
  assert (Hval : ∀ z, (z = Z.of_N x ∨ z = - Z.of_N x) → (- 2 ^ 63 <=? z) && (z <? 2 ^ 63) = true).
  { intros z Hz. apply andb_true_iff. split; [apply Z.leb_le|apply Z.ltb_lt]; lia. }
  split_and!.
  - cbn [wf_json]. rewrite Hn. unfold valid_num. replace (match c :: ds with "-"%char :: l => l | _ => c :: ds end) with (c :: ds).
    + rewrite Hs. by rewrite Hok.
    + destruct c as [[] [] [] [] [] [] [] []]; done.
  - unfold ParseInt. rewrite chars_of_chars. rewrite (proj2 (Z.eqb_neq _ _) H2), (proj2 (Z.eqb_neq _ _) H3), Hv. cbv zeta. by rewrite Hval by auto.
  - cbn [wf_json forallb]. cbn [forallb] in Hn. rewrite Hn. unfold valid_num. rewrite Hs, Hok. done.
  - unfold ParseInt. rewrite chars_of_chars. change (byte_val "-"%char =? 45) with true. cbn match. rewrite Hv. cbv zeta. by rewrite Hval by auto.
Qed.

Definition JInt (z : Z) : json := JNum (chars (pretty z)).

Lemma JInt_reads z : - 2 ^ 63 < z < 2 ^ 63 → wf_json (JInt z) = true ∧ ParseInt (of_chars (chars (pretty z))) = Ok z.
Proof.
  intros Hz. unfold JInt. destruct z as [|p|p]; [by vm_compute| |].
  - change (pretty (Z.pos p)) with (pretty (N.pos p)). unfold pretty, pretty_N. rewrite decide_False by done.
    destruct (pretty_go_decimal (N.pos p) "") as (ds & -> & Hd). rewrite app_nil_r.
    destruct (decimal_literal _ _ Hd ltac:(lia) ltac:(lia)) as (? & ? & _). done.
  - change (pretty (Z.neg p)) with (String "-" (pretty (N.pos p))). unfold pretty, pretty_N. rewrite decide_False by done.
    cbn [chars String.list_ascii_of_string]. fold chars.
    destruct (pretty_go_decimal (N.pos p) "") as (ds & -> & Hd). rewrite app_nil_r.
    destruct (decimal_literal _ _ Hd ltac:(lia) ltac:(lia)) as (_ & _ & ? & ?). done.
Qed.

(** Decoding one value: [None] is a type error, [Some None] leaves the field alone (null). *)
Definition dec_string (v : json) : option (option string) :=
  match v with JStr s => Some (Some s) | JNull => Some None | _ => None end.
Definition dec_int64 (v : json) : option (option Z) :=
  match v with JNum lit => match ParseInt (of_chars lit) with Ok z => Some (Some z) | Err _ => None end | JNull => Some None | _ => None end.

(** The members of an object in turn; names match whatever their case, a later member overrides. *)
Fixpoint decode_field {A} (d : json → option (option A)) (name : string) (a : A) (kvs : list (string * json)) : option A :=
  match kvs with
  | [] => Some a
  | (k, v) :: kvs =>
      if EqualFold k name then match d v with None => None | Some None => decode_field d name a kvs | Some (Some a) => decode_field d name a kvs end
      else decode_field d name a kvs
  end.

(** A structure is decoded from an object; null leaves it as it is. *)
Definition decode_members (v : json) : option (list (string * json)) :=
  match v with JObj kvs => Some kvs | JNull => Some [] | _ => None end.

Lemma dec_int64_JInt z : - 2 ^ 63 < z < 2 ^ 63 → dec_int64 (JInt z) = Some (Some z).
Proof. intros Hz. unfold dec_int64, JInt. by rewrite (proj2 (JInt_reads z Hz)). Qed.

(** The members of that name. *)
Definition named (name : string) (kvs : list (string * json)) : list json := omap (λ kv, if EqualFold kv.1 name then Some kv.2 else None) kvs.

Lemma decode_named {A} (d : json → option (option A)) name a kvs v x : named name kvs = [v] → d v = Some (Some x) → decode_field d name a kvs = Some x.
Proof.
  intros Hn Hd. assert (Hnil : ∀ kvs a, named name kvs = [] → decode_field d name a kvs = Some a).
  { clear. induction kvs as [|[k v] kvs IH]; intros a; [done|]. unfold named. simpl. destruct (EqualFold k name); [done|]. apply IH. }
  induction kvs as [|[k u] kvs IH]; [done|]. unfold named in Hn. simpl in *. destruct (EqualFold k name); [|by apply IH].
  injection Hn as -> Hn. rewrite Hd. by apply Hnil.
Qed.

(** ** What was parsed can be printed *)

Definition parses_wf {A} (P : nat → bytes → option (A * bytes)) (wf : A → bool) (n : nat) : Prop := ∀ l v r, P n l = Some (v, r) → wf v = true.

Lemma span_forallb f l a b : span f l = (a, b) → forallb f a = true.
Proof.
  revert a. induction l as [|c l IH]; intros a; simpl; [by intros [= <- _]|]. destruct (f c) eqn:Hc; [|by intros [= <- _]].
  destruct (span f l) as [a' b'] eqn:E. intros [= <- <-]. simpl. rewrite Hc. by apply IH.
Qed.

Lemma parse_wf n : parses_wf parse_value wf_json n ∧ parses_wf parse_elems (forallb wf_json) n ∧ parses_wf parse_members (forallb (λ kv, wf_json kv.2)) n.
Proof.
  induction n as [|n (IHv & IHe & IHm)]; [by repeat split; intros l v r [=]|]. split_and!; intros l v r.
  - cbn [parse_value]. destruct (skip_ws l) as [|c r1]; [done|]. destruct (byte_val c =? 34); [by destruct (scan_string r1) as [[]|]; intros; simplify_eq|].
    destruct (byte_val c =? 123).
    { destruct (skip_ws r1) as [|c' r']; [done|]. destruct (byte_val c' =? 125); [by intros [= <- _]|].
      destruct (parse_members n (c' :: r')) as [[kvs r2]|] eqn:E; [|done]. intros [= <- _]. exact (IHm _ _ _ E). }
    destruct (byte_val c =? 91).
    { destruct (skip_ws r1) as [|c' r']; [done|]. destruct (byte_val c' =? 93); [by intros [= <- _]|].
      destruct (parse_elems n (c' :: r')) as [[kvs r2]|] eqn:E; [|done]. intros [= <- _]. exact (IHe _ _ _ E). }
    destruct (strip_prefix (chars "null") (c :: r1)); [by intros [= <- _]|]. destruct (strip_prefix (chars "true") (c :: r1)); [by intros [= <- _]|].
    destruct (strip_prefix (chars "false") (c :: r1)); [by intros [= <- _]|]. destruct (span num_char (c :: r1)) as [lit r2] eqn:E.
    destruct (valid_num lit) eqn:Hv; [|done]. intros [= <- _]. cbn [wf_json]. by rewrite Hv, (span_forallb _ _ _ _ E).
  - cbn [parse_elems]. destruct (parse_value n l) as [[v1 r1]|] eqn:E; [|done]. pose proof (IHv _ _ _ E) as Hv.
    destruct (skip_ws r1) as [|c r2]; [done|]. destruct (byte_val c =? 93); [intros [= <- _]; simpl; by rewrite Hv|].
    destruct (byte_val c =? 44); [|done]. destruct (parse_elems n r2) as [[vs r3]|] eqn:E2; [|done]. intros [= <- _]. simpl. by rewrite Hv, (IHe _ _ _ E2).
  - cbn [parse_members]. destruct (skip_ws l) as [|c r1]; [done|]. destruct (negb _); [done|]. destruct (scan_string r1) as [[ts r2]|]; [|done].
    destruct (skip_ws r2) as [|c2 r3]; [done|]. destruct (negb _); [done|]. destruct (parse_value n r3) as [[v1 r4]|] eqn:E; [|done].
    pose proof (IHv _ _ _ E) as Hv. destruct (skip_ws r4) as [|c3 r5]; [done|]. cbv zeta.
    destruct (byte_val c3 =? 125); [intros [= <- _]; simpl; by rewrite Hv|]. destruct (byte_val c3 =? 44); [|done].
    destruct (parse_members n r5) as [[vs r6]|] eqn:E2; [|done]. intros [= <- _]. simpl. by rewrite Hv, (IHm _ _ _ E2).
Qed.

Lemma Unmarshal_wf l v : Unmarshal l = Some v → wf_json v = true.
Proof.
  unfold Unmarshal. destruct (parse_value (json_fuel l) l) as [[v' r]|] eqn:E; [|done]. destruct (skip_ws r); [|done]. intros [= <-].
  exact (proj1 (parse_wf _) _ _ _ E).
Qed.
