(* ===== verification/Artifact.v ===== *)
(** * internal/core/artifact: snapshot records

    [snapshot.go] and [store.go].  A path is the list of its segments, the file system a map from paths to files with
    a flag that says whether the contents reached the disk; a run keeps every state it went through, so that a power
    cut can be put at any point.  [crash] is what the disk may hold afterwards: an entry may be gone, contents that
    were not synchronised may be cut off. *)

From stdpp Require Import prelude countable gmap strings list pretty sorting.
From Stdlib Require Import ZArith Ascii Lia.
From S2P Require Import Prelude GoStrings GoIO GoPath GoJson Domain Disks.

(** ** Paths and files *)

Abbreviation path := (list string) (only parsing).

(** [filepath.Join] of a clean absolute path and a relative one. *)
Definition Join (dir : path) (name : string) : path := reverse (fold_left (clean_step true) (Split name "/"%char) (reverse dir)).

Record file := mkFile { fi_data : bytes; fi_synced : bool }.
Abbreviation FS := (gmap (list string) file).

(** The part of a path below another. *)
Fixpoint strip (dir p : path) : option path :=
  match dir, p with
  | [], _ => Some p
  | d :: dir, e :: p => if String.eqb d e then strip dir p else None
  | _, [] => None
  end.

(** [os.RemoveAll] *)
Definition RemoveAll (p : path) (fs : FS) : FS := filter (λ kv : list string * file, ¬ p `prefix_of` kv.1) fs.

(** The state and those the run went through. *)
Record Run := mkRun { rn_fs : FS; rn_seen : list FS }.
Definition start (fs : FS) : Run := mkRun fs [fs].
Definition step (f : FS → FS) (r : Run) : Run := mkRun (f (rn_fs r)) (rn_seen r ++ [f (rn_fs r)]).

(** What a power cut leaves. *)
Definition crash (fs fs' : FS) : Prop :=
  ∀ p f', fs' !! p = Some f' → ∃ f, fs !! p = Some f ∧ if fi_synced f then fi_data f' = fi_data f else fi_data f' `prefix_of` fi_data f.

(** ** snapshot.go *)

Definition KindTransient : string := "transient".
Definition KindRetained : string := "retained".
Definition SnapshotKind_Valid (k : string) : bool := String.eqb k KindTransient || String.eqb k KindRetained.

Record Snapshot := mkSnapshot {
  sn_ID : string;
  sn_SandboxID : SandboxID;
  sn_Kind : string;
  sn_Size : Z;
  sn_CommitMarker : string;
  sn_CreatedAt : Time
}.

Inductive snapshot_invalid := SiEmptyID | SiKind | SiNegative | SiNoMarker | SiZeroCreated.

Definition Snapshot_Validate (s : Snapshot) : result snapshot_invalid unit :=
  if String.eqb (sn_ID s) "" then Err SiEmptyID
  else if negb (SnapshotKind_Valid (sn_Kind s)) then Err SiKind
  else if sn_Size s <? 0 then Err SiNegative
  else if String.eqb (sn_CommitMarker s) "" then Err SiNoMarker
  else if IsZero (sn_CreatedAt s) then Err SiZeroCreated
  else Ok tt.

(** ** store.go *)

Section store.
(** [time.Time.MarshalJSON], which refuses years out of range, and [UnmarshalJSON]. *)
Context (time_text : Time → option string) (time_parse : string → option Time).

(** The text of the commit marker. *)
Definition commit_json (s : Snapshot) (created : string) : json :=
  JObj [("id", JStr (sn_ID s)); ("sandbox_id", JStr (SandboxID_String (sn_SandboxID s))); ("kind", JStr (sn_Kind s));
        ("size", JInt (sn_Size s)); ("created_at", JStr created); ("commit_marker", JStr (sn_CommitMarker s))]%string.

Definition marshal_commit (s : Snapshot) : option bytes := (λ t, json_print (commit_json s t)) <$> time_text (sn_CreatedAt s).

Definition dec_SandboxID (v : json) : option (option SandboxID) :=
  match v with
  | JStr s => match ParseSandboxID s with Ok id => Some (Some id) | Err _ => None end
  | JNull => match ParseSandboxID "" with Ok id => Some (Some id) | Err _ => None end
  | _ => None
  end.

Definition dec_time (v : json) : option (option Time) :=
  match v with JStr s => Some <$> time_parse s | JNull => Some None | _ => None end.

Definition unmarshal_commit (data : bytes) : option Snapshot :=
  kvs ← Unmarshal data ≫= decode_members;
  id ← decode_field dec_string "id" "" kvs;
  sb ← decode_field dec_SandboxID "sandbox_id" (replicate 16 "000"%char) kvs;
  kind ← decode_field dec_string "kind" "" kvs;
  size ← decode_field dec_int64 "size" 0 kvs;
  created ← decode_field dec_time "created_at" zero_time kvs;
  marker ← decode_field dec_string "commit_marker" "" kvs;
  Some (mkSnapshot id sb kind size marker created).

Definition payloadPath (dir : path) (id : string) : path := Join dir (id +:+ ".payload").
Definition markerPath (dir : path) (id : string) : path := Join dir (id +:+ ".commit").

(** How far [writeAndSync] gets: it fails to create, to write after some bytes, to sync, or not at all. *)
Inductive outcome := WCreate | WWrite (n : nat) | WSync | WOk.

Definition writeAndSync (o : outcome) (p : path) (data : bytes) (r : Run) : Run * bool :=
  match o with
  | WCreate => (r, false)
  | _ =>
      let r := step <[p := mkFile [] false]> r in
      match o with
      | WWrite n => (step <[p := mkFile (take n data) false]> r, false)
      | _ =>
          let r := step <[p := mkFile data false]> r in
          match o with WOk => (step <[p := mkFile data true]> r, true) | _ => (r, false) end
      end
  end.

(** [os.Remove] with its error dropped. *)
Definition remove (works : path → bool) (p : path) (r : Run) : Run := if works p then step (delete p) r else r.

Record WriteIO := mkWriteIO { wi_payload : outcome; wi_marker : outcome; wi_remove : path → bool }.

Inductive write_error := WrLength | WrPayload | WrMarshal | WrMarker.

Definition Write (io : WriteIO) (dir : path) (s : Snapshot) (payload : bytes) (r : Run) : Run * result write_error unit :=
  if negb (Z.of_nat (length payload) =? sn_Size s) then (r, Err WrLength)
  else
    let pp := payloadPath dir (sn_ID s) in
    let mp := markerPath dir (sn_ID s) in
    let '(r, ok) := writeAndSync (wi_payload io) pp payload r in
    if negb ok then (remove (wi_remove io) pp r, Err WrPayload)
    else
      match marshal_commit s with
      | None => (remove (wi_remove io) pp r, Err WrMarshal)
      | Some data =>
          let '(r, ok) := writeAndSync (wi_marker io) mp data r in
          if negb ok then (remove (wi_remove io) mp (remove (wi_remove io) pp r), Err WrMarker) else (r, Ok tt)
      end.

Inductive read_error := RdMarkerAbsent | RdMarkerUnreadable | RdParse | RdEmptyMarker | RdPayloadAbsent | RdStat | RdSize.

(** [broken p]: reading or examining [p] fails for another reason than its absence. *)
Definition Read (broken : path → bool) (dir : path) (id : string) (fs : FS) : result read_error Snapshot :=
  if broken (markerPath dir id) then Err RdMarkerUnreadable
  else
    match fs !! markerPath dir id with
    | None => Err RdMarkerAbsent
    | Some m =>
        match unmarshal_commit (fi_data m) with
        | None => Err RdParse
        | Some rec =>
            if String.eqb (sn_CommitMarker rec) "" then Err RdEmptyMarker
            else if broken (payloadPath dir id) then Err RdStat
            else
              match fs !! payloadPath dir id with
              | None => Err RdPayloadAbsent
              | Some p => if Z.of_nat (length (fi_data p)) =? sn_Size rec then Ok rec else Err RdSize
              end
        end
    end.

(** The names of the files directly in [dir], sorted. *)
Definition dir_files (dir : path) (fs : FS) : list string :=
  read_names (list_to_set (omap (λ kv : list string * file, match strip dir kv.1 with Some [n] => Some n | _ => None end) (map_to_list fs))).

Definition List (broken : path → bool) (dir : path) (fs : FS) : list Snapshot :=
  omap (λ name, if HasSuffix name ".commit" then match Read broken dir (TrimSuffix name ".commit") fs with Ok s => Some s | Err _ => None end else None)
    (dir_files dir fs).

(** [broken p]: [os.Remove] of [p] fails although it exists. *)
Inductive remove_error := RmPayload | RmMarker.

Definition Remove (broken : path → bool) (dir : path) (id : string) (r : Run) : Run * result remove_error unit :=
  let pp := payloadPath dir id in
  let mp := markerPath dir id in
  let payloadErr := broken pp && bool_decide (is_Some (rn_fs r !! pp)) in
  let markerErr := broken mp && bool_decide (is_Some (rn_fs r !! mp)) in
  let r := remove (λ p, negb (broken p)) mp (remove (λ p, negb (broken p)) pp r) in
  (r, if payloadErr then Err RmPayload else if markerErr then Err RmMarker else Ok tt).

End store.

(** ** Names *)

Lemma Split_single s : "/"%char ∉ chars s → Split s "/"%char = [s].
Proof. intros H. pose proof (Split_concat [s] ltac:(by apply Forall_singleton) ltac:(done)) as Hs. exact Hs. Qed.

Lemma Join_plain dir name : plain_segment name → Join dir name = dir ++ [name].
Proof.
  intros Hp. unfold Join. destruct Hp as (H1 & H2 & H3 & H4). rewrite Split_single by done. cbn [fold_left]. unfold clean_step.
  destruct (String.eqb_spec name ""), (String.eqb_spec name "."), (String.eqb_spec name ".."); try done.
  cbn [orb]. by rewrite reverse_cons, reverse_involutive.
Qed.

(** What the driver's identifiers are. *)
Definition plain_id (id : string) : Prop := "/"%char ∉ chars id.

Lemma suffixed_plain id suf : plain_id id → "/"%char ∉ chars suf → (3 ≤ length (chars suf))%nat → plain_segment (id +:+ suf).
Proof.
  intros Hid Hs Hl. unfold plain_segment. rewrite chars_app.
  assert (Hn : ∀ s, id +:+ suf = s → (3 ≤ length (chars s))%nat) by (intros s <-; rewrite chars_app, length_app; lia).
  split_and!; try (intros H; apply Hn in H; simpl in H; lia). rewrite not_elem_of_app. by split.
Qed.

Lemma payloadPath_plain dir id : plain_id id → payloadPath dir id = dir ++ [id +:+ ".payload"].
Proof. intros H. apply Join_plain, suffixed_plain; [done|apply (bool_decide_eq_true_1 _); by vm_compute|simpl; lia]. Qed.

Lemma markerPath_plain dir id : plain_id id → markerPath dir id = dir ++ [id +:+ ".commit"].
Proof. intros H. apply Join_plain, suffixed_plain; [done|apply (bool_decide_eq_true_1 _); by vm_compute|simpl; lia]. Qed.

Lemma suffix_clash a b : a +:+ ".payload" ≠ b +:+ ".commit".
Proof. intros H%(f_equal (last ∘ chars)). simpl in H. by rewrite !chars_app, !last_app in H. Qed.

Lemma payload_marker dir a b : plain_id a → plain_id b → payloadPath dir a ≠ markerPath dir b.
Proof.
  intros Ha Hb. rewrite payloadPath_plain, markerPath_plain by done. intros [_ [= H]]%app_inj_tail. by apply suffix_clash in H.
Qed.

(** ** The marker's text *)

Section facts.
Context (time_text : Time → option string) (time_parse : string → option Time).
Hypothesis time_reads : ∀ t s, time_text t = Some s → time_parse s = Some t.

Definition wf_snapshot (s : Snapshot) : Prop := wf_id (sn_SandboxID s) ∧ 0 ≤ sn_Size s < 2 ^ 63.

Lemma commit_wf s t : wf_snapshot s → wf_json (commit_json s t) = true.
Proof. intros [_ Hs]. cbn [commit_json wf_json forallb snd]. rewrite (proj1 (JInt_reads (sn_Size s) ltac:(lia))). done. Qed.

(** A written marker reads back. *)
Lemma commit_roundtrip s data : wf_snapshot s → marshal_commit time_text s = Some data → unmarshal_commit time_parse data = Some s.
Proof.
  intros Hwf (t & Ht & ->)%fmap_Some.
  unfold unmarshal_commit. rewrite (Unmarshal_print _ (commit_wf s t Hwf)). cbn [mbind option_bind decode_members commit_json].
  destruct Hwf as [Hid Hs]. pose proof (dec_int64_JInt (sn_Size s) ltac:(lia)) as Hi.
  rewrite (decode_named dec_string "id" _ _ (JStr (sn_ID s)) (sn_ID s)) by done.
  rewrite (decode_named dec_SandboxID "sandbox_id" _ _ (JStr (SandboxID_String (sn_SandboxID s))) (sn_SandboxID s))
    by (reflexivity || (cbn [dec_SandboxID]; by rewrite (ParseSandboxID_String _ Hid))).
  rewrite (decode_named dec_string "kind" _ _ (JStr (sn_Kind s)) (sn_Kind s)) by done.
  rewrite (decode_named dec_int64 "size" _ _ (JInt (sn_Size s)) (sn_Size s)) by done.
  rewrite (decode_named (dec_time time_parse) "created_at" _ _ (JStr t) (sn_CreatedAt s)) by (reflexivity || (simpl; by rewrite (time_reads _ _ Ht))).
  rewrite (decode_named dec_string "commit_marker" _ _ (JStr (sn_CommitMarker s)) (sn_CommitMarker s)) by done. by destruct s.
Qed.

Lemma commit_torn s data p : wf_snapshot s → marshal_commit time_text s = Some data → p `prefix_of` data → p = data ∨ unmarshal_commit time_parse p = None.
Proof.
  intros Hwf Hm [k Hk]. destruct k as [|c k]; [left; by rewrite app_nil_r in Hk|right].
  apply fmap_Some in Hm as (t & _ & ->).
  unfold unmarshal_commit. by rewrite (Unmarshal_torn _ p (c :: k) (commit_wf s t Hwf) ltac:(done) ltac:(done) ltac:(done)).
Qed.

(** ** Writing *)

Section write.
Context (dir : list string) (s : Snapshot) (payload : bytes) (fs0 : FS) (seen0 : list FS).
Let pp := payloadPath dir (sn_ID s).
Let mp := markerPath dir (sn_ID s).
Hypothesis Hplain : plain_id (sn_ID s).
Hypothesis Hfresh : fs0 !! mp = None.

(** While there is a marker, it is the beginning of the right one and the payload is on the disk. *)
Definition marker_ok (fs : FS) : Prop := ∀ m, fs !! mp = Some m →
  (∃ data, marshal_commit time_text s = Some data ∧ fi_data m `prefix_of` data) ∧ ∀ f, fs !! pp = Some f → f = mkFile payload true.

(** What holds at every moment of a write. *)
Record writing (fs : FS) : Prop := {
  wr_others : ∀ p, p ≠ pp → p ≠ mp → fs !! p = fs0 !! p;
  wr_marker : marker_ok fs
}.

Lemma pp_mp : pp ≠ mp.
Proof. by apply payload_marker. Qed.

Definition seen_ok (r : Run) : Prop := writing (rn_fs r) ∧ ∃ tail, rn_seen r = seen0 ++ tail ∧ Forall writing tail.

Lemma seen_step f r : seen_ok r → writing (f (rn_fs r)) → seen_ok (step f r).
Proof.
  intros [_ (tail & Heq & Hs)] Hf. split; [done|]. exists (tail ++ [f (rn_fs r)]). cbn [step rn_seen]. rewrite Heq, app_assoc. split; [done|].
  apply Forall_app. split; [done|]. by apply Forall_singleton.
Qed.

Lemma remove_seen works p r : (p = pp ∨ p = mp) → seen_ok r → seen_ok (remove works p r).
Proof.
  intros Hp Hr. unfold remove. destruct (works p); [|done]. apply seen_step; [done|]. destruct Hr as [[Ho Hm] _]. pose proof pp_mp. split.
  - intros q Hq1 Hq2. rewrite lookup_delete_ne by (intros ->; naive_solver). by apply Ho.
  - intros m [Hne Hl]%lookup_delete_Some. destruct (Hm m Hl) as [? Hf]. split; [done|]. intros f [_ Hl']%lookup_delete_Some. by apply Hf.
Qed.

(** While there is no marker, the payload may be anything. *)
Lemma writing_payload f fs : writing fs → fs !! mp = None → writing (<[pp := f]> fs) ∧ <[pp := f]> fs !! mp = None.
Proof.
  intros [Ho _] Hn. pose proof pp_mp. assert (Hn' : <[pp := f]> fs !! mp = None) by by rewrite lookup_insert_ne.
  split; [|done]. split; [|intros m; by rewrite Hn']. intros q Hq1 Hq2. rewrite lookup_insert_ne by done. by apply Ho.
Qed.

Lemma writing_marker data d b fs :
  writing fs → fs !! pp = Some (mkFile payload true) → marshal_commit time_text s = Some data → d `prefix_of` data →
  writing (<[mp := mkFile d b]> fs) ∧ <[mp := mkFile d b]> fs !! pp = Some (mkFile payload true).
Proof.
  intros [Ho _] Hp Hm Hd. pose proof pp_mp. assert (Hp' : <[mp := mkFile d b]> fs !! pp = Some (mkFile payload true)) by by rewrite lookup_insert_ne.
  split; [|done]. split; [intros q Hq1 Hq2; rewrite lookup_insert_ne by done; by apply Ho|].
  intros m. rewrite lookup_insert_eq. intros [= <-]. split; [by eauto|]. rewrite Hp'. by intros f [= <-].
Qed.

Lemma write_payload_seen o r r' ok :
  writeAndSync o pp payload r = (r', ok) → seen_ok r → rn_fs r !! mp = None →
  seen_ok r' ∧ rn_fs r' !! mp = None ∧ (ok = true → rn_fs r' !! pp = Some (mkFile payload true)).
Proof.
  intros Hw Hr Hn. pose proof pp_mp as Hne. pose proof (writing_payload) as Hstep.
  assert (Hone : ∀ f r, seen_ok r → rn_fs r !! mp = None → seen_ok (step <[pp := f]> r) ∧ rn_fs (step <[pp := f]> r) !! mp = None).
  { intros f r1 H1 H2. destruct (Hstep f (rn_fs r1) (proj1 H1) H2). split; [by apply seen_step|done]. }
  destruct o; simpl in Hw; simplify_eq; [by split_and!| | |].
  all: destruct (Hone (mkFile [] false) r Hr Hn) as [Hr1 Hn1].
  - destruct (Hone (mkFile (take n payload) false) _ Hr1 Hn1). by split_and!.
  - destruct (Hone (mkFile payload false) _ Hr1 Hn1). by split_and!.
  - destruct (Hone (mkFile payload false) _ Hr1 Hn1) as [Hr2 Hn2]. destruct (Hone (mkFile payload true) _ Hr2 Hn2).
    split_and!; [done..|]. intros _. cbn [step rn_fs]. by rewrite lookup_insert_eq.
Qed.

Lemma write_marker_seen o data r r' ok :
  writeAndSync o mp data r = (r', ok) → seen_ok r → marshal_commit time_text s = Some data → rn_fs r !! pp = Some (mkFile payload true) →
  seen_ok r' ∧ rn_fs r' !! pp = Some (mkFile payload true) ∧ (ok = true → rn_fs r' !! mp = Some (mkFile data true)).
Proof.
  intros Hw Hr Hm Hp. pose proof (writing_marker data) as Hstep.
  assert (Hone : ∀ d b r, d `prefix_of` data → seen_ok r → rn_fs r !! pp = Some (mkFile payload true) →
    seen_ok (step <[mp := mkFile d b]> r) ∧ rn_fs (step <[mp := mkFile d b]> r) !! pp = Some (mkFile payload true)).
  { intros d b r1 Hd H1 H2. destruct (Hstep d b (rn_fs r1) (proj1 H1) H2 Hm Hd). split; [by apply seen_step|done]. }
  destruct o; simpl in Hw; simplify_eq; [by split_and!| | |].
  all: destruct (Hone [] false r (prefix_nil _) Hr Hp) as [Hr1 Hp1].
  - destruct (Hone (take n data) false _ (prefix_take _ _) Hr1 Hp1). by split_and!.
  - destruct (Hone data false _ ltac:(done) Hr1 Hp1). by split_and!.
  - destruct (Hone data false _ ltac:(done) Hr1 Hp1) as [Hr2 Hp2]. destruct (Hone data true _ ltac:(done) Hr2 Hp2).
    split_and!; [done..|]. intros _. cbn [step rn_fs]. by rewrite lookup_insert_eq.
Qed.

Lemma writing_start : writing fs0.
Proof. split; [done|]. intros m. by rewrite Hfresh. Qed.

Lemma seen_start : seen_ok (mkRun fs0 seen0).
Proof. split; [apply writing_start|]. exists []. by rewrite app_nil_r. Qed.

(** Every moment of a write, and what a successful one leaves. *)
Lemma Write_moments io r res :
  Write time_text io dir s payload (mkRun fs0 seen0) = (r, res) →
  seen_ok r ∧ (res = Ok tt → Z.of_nat (length payload) = sn_Size s ∧
    ∃ data, marshal_commit time_text s = Some data ∧ rn_fs r !! mp = Some (mkFile data true) ∧ rn_fs r !! pp = Some (mkFile payload true)).
Proof.
  unfold Write. destruct (Z.eqb_spec (Z.of_nat (length payload)) (sn_Size s)) as [Hlen|]; cbn [negb]; [|intros [= <- <-]; by split; [apply seen_start|]].
  fold pp mp. destruct (writeAndSync (wi_payload io) pp payload (mkRun fs0 seen0)) as [r1 ok] eqn:E1.
  destruct (write_payload_seen _ _ _ _ E1 seen_start Hfresh) as (Hr1 & Hn1 & Hp1).
  destruct ok; cbn [negb]; [|intros [= <- <-]; split; [|done]; apply remove_seen; auto].
  specialize (Hp1 eq_refl). destruct (marshal_commit time_text s) as [data|] eqn:Hm; [|intros [= <- <-]; split; [|done]; apply remove_seen; auto].
  destruct (writeAndSync (wi_marker io) mp data r1) as [r2 ok] eqn:E2.
  destruct (write_marker_seen _ _ _ _ _ E2 Hr1 Hm Hp1) as (Hr2 & Hp2 & Hm2).
  destruct ok; cbn [negb]; intros [= <- <-].
  - split; [done|]. intros _. split; [done|]. exists data. auto.
  - split; [|done]. apply remove_seen; [auto|]. apply remove_seen; auto.
Qed.

End write.

(** ** What survives *)

(** A marker that reads as a snapshot is the whole one, and its payload is the one written. *)
Lemma crash_reads dir s payload fs fs' broken t :
  wf_snapshot s → marker_ok dir s payload fs → crash fs fs' → Read time_parse broken dir (sn_ID s) fs' = Ok t →
  t = s ∧ fi_data <$> fs' !! payloadPath dir (sn_ID s) = Some payload.
Proof.
  intros Hwf Hm Hc. unfold Read. destruct (broken (markerPath dir (sn_ID s))); [done|].
  destruct (fs' !! markerPath dir (sn_ID s)) as [m|] eqn:Em; [|done]. destruct (Hc _ _ Em) as (m0 & Em0 & Hd).
  destruct (Hm m0 Em0) as [(data & Hdata & Hpre) Hpay].
  assert (Hpre' : fi_data m `prefix_of` data) by (destruct (fi_synced m0); [by rewrite Hd|by etrans]).
  destruct (commit_torn s data _ Hwf Hdata Hpre') as [-> | ->]; [|done]. rewrite (commit_roundtrip s data Hwf Hdata).
  destruct (String.eqb _ _); [done|]. destruct (broken _); [done|]. destruct (fs' !! payloadPath dir (sn_ID s)) as [f|] eqn:Ef; [|done].
  destruct (_ =? _); [|done]. intros [= <-]. split; [done|]. destruct (Hc _ _ Ef) as (f0 & Ef0 & Hd0). specialize (Hpay f0 Ef0). subst f0. simpl in *. by rewrite Hd0.
Qed.

Lemma remove_gone works p q r : works p = true → rn_fs (remove works p r) !! q = if decide (p = q) then None else rn_fs r !! q.
Proof. intros Hw. unfold remove. rewrite Hw. cbn [step rn_fs]. case_decide as Hd; [subst; by rewrite lookup_delete_eq|by rewrite lookup_delete_ne]. Qed.

Lemma writeAndSync_others o p data r r' ok q : writeAndSync o p data r = (r', ok) → q ≠ p → rn_fs r' !! q = rn_fs r !! q.
Proof. intros Hw Hq. destruct o; simpl in Hw; simplify_eq; [done|..]; cbn [step rn_fs]; by rewrite !lookup_insert_ne. Qed.

(** A write that fails takes its files away, if removing them works. *)
Lemma Write_failed io dir s payload fs0 seen0 r e :
  plain_id (sn_ID s) → (∀ p, wi_remove io p = true) → fs0 !! markerPath dir (sn_ID s) = None →
  Write time_text io dir s payload (mkRun fs0 seen0) = (r, Err e) → e = WrLength ∧ rn_fs r = fs0 ∨
  rn_fs r !! payloadPath dir (sn_ID s) = None ∧ rn_fs r !! markerPath dir (sn_ID s) = None.
Proof.
  intros Hid Hrm Hfresh. pose proof (payload_marker dir _ _ Hid Hid) as Hne. unfold Write.
  destruct (negb _); [intros [= <- <-]; by left|].
  destruct (writeAndSync (wi_payload io) _ payload (mkRun fs0 seen0)) as [r1 ok1] eqn:E1.
  pose proof (writeAndSync_others _ _ _ _ _ _ (markerPath dir (sn_ID s)) E1 ltac:(done)) as Hm1. simpl in Hm1. rewrite Hfresh in Hm1.
  destruct ok1; simpl. 2:{ intros [= <- _]. right. rewrite !remove_gone by done. rewrite decide_True, decide_False by done. done. }
  destruct (marshal_commit time_text s) as [data|]. 2:{ intros [= <- _]. right. rewrite !remove_gone by done. rewrite decide_True, decide_False by done. done. }
  destruct (writeAndSync (wi_marker io) _ data r1) as [r2 ok2]. destruct ok2; [done|]. simpl. intros [= <- _]. right.
  rewrite !remove_gone by done. repeat case_decide; done.
Qed.

(** A snapshot's record is all or nothing: whenever a power cut falls into a write, what reads back afterwards is the
    snapshot that was written with its whole payload; a write that succeeds reads back; a write that fails leaves
    neither file, if removing works, and refuses a payload of another length before it touches anything. *)
Lemma write_atomic io dir s payload fs0 r res :
  wf_snapshot s → plain_id (sn_ID s) → fs0 !! markerPath dir (sn_ID s) = None → Write time_text io dir s payload (start fs0) = (r, res) →
  (∀ fs fs' broken t, fs ∈ rn_seen r → crash fs fs' → Read time_parse broken dir (sn_ID s) fs' = Ok t →
     t = s ∧ fi_data <$> fs' !! payloadPath dir (sn_ID s) = Some payload) ∧
  (∀ p fs, fs ∈ rn_seen r → p ≠ payloadPath dir (sn_ID s) → p ≠ markerPath dir (sn_ID s) → fs !! p = fs0 !! p) ∧
  match res with
  | Ok _ => sn_CommitMarker s ≠ ""%string → Read time_parse (λ _, false) dir (sn_ID s) (rn_fs r) = Ok s
  | Err WrLength => rn_fs r = fs0
  | Err _ => (∀ p, wi_remove io p = true) → rn_fs r !! payloadPath dir (sn_ID s) = None ∧ rn_fs r !! markerPath dir (sn_ID s) = None
  end.
Proof.
  intros Hwf Hid Hfresh Hw. destruct (Write_moments dir s payload fs0 [fs0] Hid Hfresh _ _ _ Hw) as [[_ (tail & Heq & Ht)] Hok].
  assert (Hs : ∀ fs, fs ∈ rn_seen r → writing dir s payload fs0 fs).
  { intros fs Hin. rewrite Heq in Hin. cbn [app] in Hin. apply elem_of_cons in Hin as [-> | Hin]; [by apply writing_start|]. by eapply Forall_forall in Ht. }
  split; [|split].
  - intros fs fs' broken t Hin Hc Hr. eapply crash_reads; [done|exact (wr_marker _ _ _ _ _ (Hs fs Hin))|done|done].
  - intros p fs Hin Hp Hq. by apply (wr_others _ _ _ _ _ (Hs fs Hin)).
  - destruct res as [[]|e].
    + intros Hmk. destruct (Hok eq_refl) as (Hlen & data & Hd & Hm & Hp). unfold Read. rewrite Hm. cbn [fi_data].
      rewrite (commit_roundtrip s data Hwf Hd), (proj2 (String.eqb_neq _ _) Hmk), Hp. cbn [fi_data]. by rewrite (proj2 (Z.eqb_eq _ _) Hlen).
    + destruct e; try (intros Hrm; destruct (Write_failed io dir s payload fs0 [fs0] r _ Hid Hrm Hfresh Hw) as [[? _]|?]; done).
      unfold Write in Hw. destruct (negb _); [by injection Hw as <-|]. repeat case_match; simplify_eq.
Qed.

(** ** Removing and listing *)

(** Removing what is there, or is not there, leaves neither file; other snapshots stay. *)
Lemma Remove_spec dir id r r' res :
  plain_id id → Remove (λ _, false) dir id r = (r', res) →
  res = Ok tt ∧ rn_fs r' !! payloadPath dir id = None ∧ rn_fs r' !! markerPath dir id = None ∧
  ∀ p, p ≠ payloadPath dir id → p ≠ markerPath dir id → rn_fs r' !! p = rn_fs r !! p.
Proof.
  intros Hid. pose proof (payload_marker dir id id Hid Hid). unfold Remove. cbn [andb]. intros [= <- <-]. split; [done|].
  split_and!; [..|intros p Hp Hq]; rewrite !remove_gone by done; repeat case_decide; done.
Qed.

Lemma strip_app dir p : strip dir (dir ++ p) = Some p.
Proof. induction dir as [|d dir IH]; [done|]. simpl. by rewrite String.eqb_refl. Qed.

Lemma strip_Some dir p q : strip dir p = Some q → p = dir ++ q.
Proof.
  revert p. induction dir as [|d dir IH]; intros p; simpl; [by intros [= ->]|]. destruct p as [|e p]; [done|].
  destruct (String.eqb_spec d e) as [->|]; [|done]. intros H. by rewrite (IH _ H).
Qed.

Lemma elem_of_dir_files dir n fs : n ∈ dir_files dir fs ↔ is_Some (fs !! (dir ++ [n])).
Proof.
  unfold dir_files. rewrite elem_of_read_names, elem_of_list_to_set, list_elem_of_omap. split.
  - intros ([p f] & Hin%elem_of_map_to_list & Heq). simpl in Heq. destruct (strip dir p) as [[|m [|]]|] eqn:E; simplify_eq.
    apply strip_Some in E as ->. eauto.
  - intros [f Hf]. exists (dir ++ [n], f). split; [by apply elem_of_map_to_list|]. simpl. by rewrite strip_app.
Qed.

(** The listing has exactly the snapshots that read. *)
Lemma List_spec broken dir fs t :
  (∀ p f, fs !! (dir ++ [p]) = Some f → plain_segment p) →
  t ∈ List time_parse broken dir fs ↔ ∃ id, plain_id id ∧ Read time_parse broken dir id fs = Ok t.
Proof.
  intros Hpl. unfold List. rewrite list_elem_of_omap. split.
  - intros (n & [f Hn]%elem_of_dir_files & Heq). destruct (HasSuffix n ".commit") eqn:Es; [|done].
    apply HasSuffix_true in Es as [id ->]. rewrite TrimSuffix_app in Heq. exists id. split.
    + destruct (Hpl _ _ Hn) as (_ & _ & _ & Hc). rewrite chars_app, not_elem_of_app in Hc. apply Hc.
    + by destruct (Read _ _ _ _ _); simplify_eq.
  - intros (id & Hid & Hr). exists (id +:+ ".commit"). rewrite (proj2 (HasSuffix_true _ _)) by eauto. rewrite TrimSuffix_app, Hr.
    split; [|done]. apply elem_of_dir_files. unfold Read in Hr. destruct (broken _); [done|].
    destruct (fs !! markerPath dir id) as [m|] eqn:Em; [|done]. rewrite markerPath_plain in Em by done. eauto.
Qed.

End facts.

(** ** Examples *)

(** A text for instants within an [int64]. *)
Module Decimal.

Definition text (t : Time) : option string := if (- 2 ^ 63 <? t) && (t <? 2 ^ 63) then Some (pretty t) else None.
Definition parse (s : string) : option Time := match ParseInt s with Ok z => Some z | Err _ => None end.

Lemma reads (t : Time) s : text t = Some s → parse s = Some t.
Proof.
  unfold text, parse. destruct (Z.ltb_spec (- 2 ^ 63) t), (Z.ltb_spec t (2 ^ 63)); try done. intros [= <-].
  destruct (JInt_reads t ltac:(lia)) as [_ H']. rewrite of_chars_chars in H'. by rewrite H'.
Qed.

End Decimal.

Definition w_store : list string := ["state"; "snapshots"]%string.
Definition w_snapshot : Snapshot := mkSnapshot "5a5a" (replicate 16 "A"%char) KindRetained 3 "committed" 77.
Definition w_write_io (o : outcome) : WriteIO := mkWriteIO WOk o (λ _, true).

(** A write cut off in the middle of the marker reads as torn, a whole one reads back. *)
Lemma write_atomic_witness :
  Read Decimal.parse (λ _, false) w_store "5a5a" (rn_fs (Write Decimal.text (w_write_io WOk) w_store w_snapshot (chars "abc") (start ∅)).1) = Ok w_snapshot ∧
  rn_fs (Write Decimal.text (w_write_io (WWrite 9)) w_store w_snapshot (chars "abc") (start ∅)).1 !! markerPath w_store "5a5a" = None.
Proof.
  assert (Hwf : wf_snapshot w_snapshot) by (split; [reflexivity|vm_compute; split; congruence]).
  assert (Hpl : plain_id (sn_ID w_snapshot)) by (apply (bool_decide_eq_true_1 _); vm_compute; reflexivity).
  split.
  - destruct (Write Decimal.text (w_write_io WOk) w_store w_snapshot (chars "abc") (start ∅)) as [r res] eqn:E.
    assert (Hres : res = Ok tt) by (change res with (r, res).2; rewrite <- E; vm_compute; reflexivity).
    destruct (write_atomic Decimal.text Decimal.parse Decimal.reads _ _ _ _ _ _ _ Hwf Hpl (lookup_empty _) E) as (_ & _ & H).
    rewrite Hres in H. exact (H ltac:(discriminate)).
  - destruct (Write Decimal.text (w_write_io (WWrite 9)) w_store w_snapshot (chars "abc") (start ∅)) as [r res] eqn:E.
    assert (Hres : res = Err WrMarker) by (change res with (r, res).2; rewrite <- E; vm_compute; reflexivity).
    destruct (write_atomic Decimal.text Decimal.parse Decimal.reads _ _ _ _ _ _ _ Hwf Hpl (lookup_empty _) E) as (_ & _ & H).
    rewrite Hres in H. exact (proj2 (H (λ _, eq_refl))).
Defined.
