(* ===== verification/ForkConfig.v ===== *)
(** * internal/core/driver/cloudhypervisor: the configuration of a forked machine

    [fork_disk.go], [fork_net.go] and the names of [fork.go]: finding the disks, the network device and the vsock socket
    in the hypervisor's [config.json], and rewriting them to the child's.  A [map[string]json.RawMessage] is a map from
    keys to trees; a function of bytes parses, changes the map and prints it with its keys sorted. *)

From stdpp Require Import prelude countable gmap strings list pretty sorting.
From Stdlib Require Import ZArith Ascii Lia.
From S2P Require Import Prelude GoStrings GoIO GoPath GoJson Domain Disks.

(** ** Objects *)

Abbreviation obj := (gmap string json).

(** The last of several members of one name counts; null is the empty map. *)
Definition to_obj (v : json) : option obj :=
  match v with JObj kvs => Some (list_to_map (reverse kvs)) | JNull => Some ∅ | _ => None end.

Definition key_le (a b : string * json) : Prop := glob_le a.1 b.1.
#[local] Instance key_le_dec : RelDecision key_le.
Proof. intros a b. unfold key_le. apply _. Defined.

(** [json.Marshal] of a map sorts its keys. *)
Definition of_obj (m : obj) : json := JObj (merge_sort key_le (map_to_list m)).

Definition to_objs (v : json) : option (list obj) :=
  match v with JArr l => mapM to_obj l | JNull => Some [] | _ => None end.
Definition of_objs (l : list obj) : json := JArr (of_obj <$> l).

Definition parse_top (config : bytes) : option obj := Unmarshal config ≫= to_obj.
Definition print_top (top : obj) : bytes := json_print (of_obj top).

(** [json.Unmarshal] of a raw value into a string. *)
Definition to_string (v : json) : option string := match v with JStr s => Some s | JNull => Some ""%string | _ => None end.

(** ** Paths *)

(** [filepath.Base]: trailing slashes dropped, then the last element. *)
Definition filepath_Base (p : string) : string :=
  if String.eqb p "" then "."
  else match last (Split (TrimRightByte p "/"%char) "/"%char) with
       | Some e => if String.eqb (TrimRightByte p "/"%char) "" then "/" else e
       | None => "/"
       end.

(** [filepath.Dir]: what stands before the last slash, cleaned. *)
Definition filepath_Dir (p : string) : string :=
  let segs := Split p "/"%char in
  match segs with
  | [_] => "."
  | _ => path_Clean (String.concat "/" (take (length segs - 1) segs) +:+ "/")
  end.

(** [filepath.Join] of two non-empty elements. *)
Definition filepath_Join (dir name : string) : string := path_Clean (dir +:+ "/" +:+ name).

Definition ChildExtraDiskPath (childID : SandboxID) (parentPath : string) : string :=
  let dir := filepath_Dir parentPath in
  if HasSuffix parentPath "-workspace.ext4" then filepath_Join dir (SandboxID_String childID +:+ "-workspace.ext4")
  else if HasSuffix parentPath "-scratch.ext4" then filepath_Join dir (SandboxID_String childID +:+ "-scratch.ext4")
  else filepath_Join dir (SandboxID_String childID +:+ "-" +:+ filepath_Base parentPath).

(** ** fork_disk.go *)

Definition diskEntryPath (d : obj) : option string := d !! "path"%string ≫= to_string.

Inductive find_error := ErrNone | ErrMalformed | ErrNoRoot.

(** [ErrNone] is errNoDisks, errNoNet or errNoVsock. *)
Definition disks_of (top : obj) : result find_error (list obj) :=
  match top !! "disks"%string with
  | None => Err ErrNone
  | Some raw => match to_objs raw with None => Err ErrMalformed | Some [] => Err ErrNone | Some disks => Ok disks end
  end.

Definition with_top {A} (config : bytes) (f : obj → result find_error A) : result find_error A :=
  match parse_top config with None => Err ErrMalformed | Some top => f top end.

Definition find_basename (base : string) (paths : list string) : option string := head (List.filter (λ p, String.eqb (filepath_Base p) base) paths).

Definition findRootDiskPath (config : bytes) (parentID : SandboxID) : result find_error string :=
  with_top config (λ top,
    let* disks := disks_of top in
    match find_basename (SandboxID_String parentID +:+ ".raw") (omap diskEntryPath disks) with
    | Some p => Ok p
    | None =>
        match disks with
        | [d] => match diskEntryPath d with Some p => Ok p | None => Err ErrMalformed end
        | _ => Err ErrNoRoot
        end
    end).

Definition findAllDiskPaths (config : bytes) : result find_error (list string) :=
  with_top config (λ top,
    let* disks := disks_of top in
    match mapM diskEntryPath disks with Some ps => Ok ps | None => Err ErrMalformed end).

Definition collectExtraDiskPaths (config : bytes) (rootDiskPath : string) : result find_error (list string) :=
  match findAllDiskPaths config with
  | Err ErrNone => Ok []
  | Err e => Err e
  | Ok ps => Ok (List.filter (λ p, negb (String.eqb p rootDiskPath)) ps)
  end.

Abbreviation rewrites := (gmap string string) (only parsing).

(** One entry, and whether its path was rewritten. *)
Definition rewrite_disk (rw : gmap string string) (d : obj) : obj * bool :=
  match diskEntryPath d with
  | None => (d, false)
  | Some p => match rw !! p with Some p' => (<["path"%string := JStr p']> d, true) | None => (d, false) end
  end.

Inductive rewrite_error := RwMalformed | RwAbsent | RwUnmatched.

Definition rewriteAllConfigDiskPaths (config : bytes) (rw : gmap string string) : result rewrite_error bytes :=
  if bool_decide (rw = ∅) then Ok config
  else
    match parse_top config with
    | None => Err RwMalformed
    | Some top =>
        match top !! "disks"%string with
        | None => Err RwAbsent
        | Some raw =>
            match to_objs raw with
            | None => Err RwMalformed
            | Some disks =>
                let disks' := rewrite_disk rw <$> disks in
                if bool_decide (length (List.filter snd disks') = size rw) then Ok (print_top (<["disks"%string := of_objs disks'.*1]> top))
                else Err RwUnmatched
            end
        end
    end.

(** ** fork_net.go *)

Definition findNetTap (config : bytes) : result find_error string :=
  with_top config (λ top,
    match top !! "net"%string with
    | None => Err ErrNone
    | Some raw =>
        match to_objs raw with
        | None => Err ErrMalformed
        | Some [] => Err ErrNone
        | Some (n :: _) => match n !! "tap"%string ≫= to_string with Some t => Ok t | None => Err ErrMalformed end
        end
    end).

(** The first entry whose tap is [oldTap]. *)
Fixpoint rewrite_tap (oldTap newTap : string) (nets : list obj) : option (list obj) :=
  match nets with
  | [] => None
  | n :: nets =>
      if bool_decide (n !! "tap"%string ≫= to_string = Some oldTap) then Some (<["tap"%string := JStr newTap]> n :: nets)
      else (n ::.) <$> rewrite_tap oldTap newTap nets
  end.

Definition rewriteConfigNetTap (config : bytes) (oldTap newTap : string) : result rewrite_error bytes :=
  match parse_top config with
  | None => Err RwMalformed
  | Some top =>
      match top !! "net"%string with
      | None => Err RwAbsent
      | Some raw =>
          match to_objs raw with
          | None => Err RwMalformed
          | Some nets =>
              match rewrite_tap oldTap newTap nets with
              | Some nets => Ok (print_top (<["net"%string := of_objs nets]> top))
              | None => Err RwUnmatched
              end
          end
      end
  end.

Definition findVsockPath (config : bytes) : result find_error string :=
  with_top config (λ top,
    match top !! "vsock"%string with
    | None => Err ErrNone
    | Some raw => match to_obj raw ≫= λ v, v !! "socket"%string ≫= to_string with Some p => Ok p | None => Err ErrMalformed end
    end).

Definition rewriteConfigVsockPath (config : bytes) (oldSocket newSocket : string) : result rewrite_error bytes :=
  match parse_top config with
  | None => Err RwMalformed
  | Some top =>
      match top !! "vsock"%string with
      | None => Err RwAbsent
      | Some raw =>
          match to_obj raw with
          | None => Err RwMalformed
          | Some v =>
              match v !! "socket"%string ≫= to_string with
              | None => Err RwMalformed
              | Some socket =>
                  if String.eqb socket oldSocket then Ok (print_top (<["vsock"%string := of_obj (<["socket"%string := JStr newSocket]> v)]> top))
                  else Err RwUnmatched
              end
          end
      end
  end.

(** ** The rewrites of [prepareChildRestoreDir] *)

Record ChildPaths := mkChildPaths {
  cp_disks : gmap string string;
  cp_parentTap : string;
  cp_childTap : string;
  cp_parentVsock : string;
  cp_childVsock : string
}.

Definition rewrite_config (cp : ChildPaths) (config : bytes) : result rewrite_error bytes :=
  let* config := if bool_decide (cp_disks cp = ∅) then Ok config else rewriteAllConfigDiskPaths config (cp_disks cp) in
  let* config := if String.eqb (cp_parentTap cp) "" then Ok config else rewriteConfigNetTap config (cp_parentTap cp) (cp_childTap cp) in
  if String.eqb (cp_parentVsock cp) "" then Ok config else rewriteConfigVsockPath config (cp_parentVsock cp) (cp_childVsock cp).

(** ** Maps and their text *)

Definition wf_obj (m : obj) : Prop := map_Forall (λ _ v, wf_json v = true) m.

Lemma to_of_obj m : to_obj (of_obj m) = Some m.
Proof.
  unfold of_obj, to_obj. f_equal. assert (Hp : reverse (merge_sort key_le (map_to_list m)) ≡ₚ map_to_list m).
  { rewrite reverse_Permutation. apply merge_sort_Permutation. }
  rewrite <- (list_to_map_to_list m) at 2. apply list_to_map_proper; [|done].
  rewrite Hp. apply NoDup_fst_map_to_list.
Qed.

Lemma of_obj_wf m : wf_obj m → wf_json (of_obj m) = true.
Proof.
  intros Hm. unfold of_obj. cbn [wf_json]. apply forallb_forall. intros [k v] Hin%list_elem_of_In. simpl.
  rewrite merge_sort_Permutation in Hin. apply elem_of_map_to_list in Hin. by apply (Hm k).
Qed.

Lemma to_obj_wf v m : wf_json v = true → to_obj v = Some m → wf_obj m.
Proof.
  destruct v as [| | | | |kvs]; try done; [by intros _ [= <-]|]. cbn [wf_json to_obj]. intros Hwf [= <-] k v Hk.
  apply elem_of_list_to_map_2 in Hk. rewrite elem_of_reverse in Hk. rewrite forallb_forall in Hwf. apply (Hwf (k, v)). by apply list_elem_of_In.
Qed.

Lemma to_of_objs l : to_objs (of_objs l) = Some l.
Proof. unfold to_objs, of_objs. apply mapM_fmap_Some. intros m. apply to_of_obj. Qed.

Lemma of_objs_wf l : Forall wf_obj l → wf_json (of_objs l) = true.
Proof. intros Hl. cbn [of_objs wf_json]. apply forallb_forall. intros v (m & -> & Hm)%list_elem_of_In%list_elem_of_fmap. apply of_obj_wf. rewrite Forall_forall in Hl. by apply Hl. Qed.

Lemma to_objs_wf v l : wf_json v = true → to_objs v = Some l → Forall wf_obj l.
Proof.
  destruct v as [| | | |vs|]; try done; [by intros _ [= <-]|]. cbn [wf_json to_objs]. intros Hwf Hm. apply mapM_Some_1 in Hm.
  rewrite forallb_forall in Hwf. induction Hm as [|v m vs l Hv Hm IH]; constructor.
  - eapply to_obj_wf; [|exact Hv]. apply Hwf. by left.
  - apply IH. intros x Hx. apply Hwf. by right.
Qed.

Lemma parse_top_wf config top : parse_top config = Some top → wf_obj top.
Proof. unfold parse_top. intros (v & Hv & Ht)%bind_Some. eapply to_obj_wf; [|exact Ht]. by eapply Unmarshal_wf. Qed.

Lemma parse_print_top top : wf_obj top → parse_top (print_top top) = Some top.
Proof. intros Hwf. unfold parse_top, print_top. rewrite (Unmarshal_print _ (of_obj_wf _ Hwf)). apply to_of_obj. Qed.

(** ** What a configuration names *)

Definition disk_paths (top : obj) : list string := omap diskEntryPath (default [] (top !! "disks"%string ≫= to_objs)).
Definition first_tap (top : obj) : option string := n ← head (default [] (top !! "net"%string ≫= to_objs)); (n : obj) !! "tap"%string ≫= to_string.
Definition vsock_of (top : obj) : option string := m ← top !! "vsock"%string ≫= to_obj; (m : obj) !! "socket"%string ≫= to_string.

(** A rewrite that succeeds replaces the value of one key. *)
Definition replaces (k : string) (P : json → json → Prop) (config out : bytes) : Prop :=
  ∃ top v v', parse_top config = Some top ∧ top !! k = Some v ∧ P v v' ∧ parse_top out = Some (<[k := v']> top).

Lemma replaces_intro k (P : json → json → Prop) config top v v' :
  parse_top config = Some top → top !! k = Some v → P v v' → wf_json v' = true → replaces k P config (print_top (<[k := v']> top)).
Proof.
  intros Ht Hk HP Hwf. exists top, v, v'. split_and!; [done..|]. apply parse_print_top. apply map_Forall_insert_2; [done|]. by eapply parse_top_wf.
Qed.

Lemma rewrite_disk_wf rw d : wf_obj d → wf_obj (rewrite_disk rw d).1.
Proof. intros Hd. unfold rewrite_disk. destruct (diskEntryPath d); [|done]. destruct (rw !! s); [|done]. by apply map_Forall_insert_2. Qed.

Lemma rewrite_disk_path rw d : diskEntryPath (rewrite_disk rw d).1 = (λ p, default p (rw !! p)) <$> diskEntryPath d.
Proof.
  unfold rewrite_disk. destruct (diskEntryPath d) as [p|] eqn:E; [|simpl; by rewrite E]. simpl. destruct (rw !! p) as [p'|] eqn:Ep; simpl; [|by rewrite E].
  unfold diskEntryPath. by rewrite lookup_insert_eq.
Qed.

Lemma omap_rewrite rw ds : omap diskEntryPath (rewrite_disk rw <$> ds).*1 = (λ p, default p (rw !! p)) <$> omap diskEntryPath ds.
Proof.
  induction ds as [|d ds IH]; [done|]. cbn [fmap list_fmap omap list_omap]. change (list_fmap _ _ fst (list_fmap _ _ (rewrite_disk rw) ds)) with ((rewrite_disk rw <$> ds).*1).
  rewrite rewrite_disk_path. destruct (diskEntryPath d) as [p|]; simpl; [f_equal|]; apply IH.
Qed.

Lemma rewrite_disks_replaces config rw out :
  rewriteAllConfigDiskPaths config rw = Ok out → rw ≠ ∅ →
  replaces "disks" (λ v v', ∃ ds, to_objs v = Some ds ∧ v' = of_objs (rewrite_disk rw <$> ds).*1) config out.
Proof.
  intros Hr Hne. unfold rewriteAllConfigDiskPaths in Hr. rewrite bool_decide_eq_false_2 in Hr by done.
  destruct (parse_top config) as [top|] eqn:Ht; [|done]. destruct (top !! "disks"%string) as [raw|] eqn:Hd; [|done].
  destruct (to_objs raw) as [ds|] eqn:Ho; [|done]. destruct (bool_decide _); [|done]. injection Hr as <-. apply (replaces_intro _ _ _ _ raw); [done|done|by eauto|].
  apply of_objs_wf. assert (Hf : Forall wf_obj ds) by (eapply to_objs_wf; [|exact Ho]; by apply (parse_top_wf _ _ Ht "disks"%string)).
  clear -Hf. induction Hf as [|d ds Hd Hf IH]; [constructor|]. cbn [fmap list_fmap]. constructor; [by apply rewrite_disk_wf|]. exact IH.
Qed.

Lemma rewrite_tap_wf a b nets nets' : Forall wf_obj nets → rewrite_tap a b nets = Some nets' → Forall wf_obj nets'.
Proof.
  intros Hn. revert nets'. induction Hn as [|n nets Hn Hns IH]; intros nets'; [done|]. simpl. destruct (bool_decide _).
  - intros [= <-]. constructor; [by apply map_Forall_insert_2|done].
  - intros (l & Hl & ->)%fmap_Some. constructor; [done|]. by apply IH.
Qed.

Lemma rewrite_net_replaces config a b out :
  rewriteConfigNetTap config a b = Ok out →
  replaces "net" (λ v v', ∃ ns ns', to_objs v = Some ns ∧ rewrite_tap a b ns = Some ns' ∧ v' = of_objs ns') config out.
Proof.
  unfold rewriteConfigNetTap. destruct (parse_top config) as [top|] eqn:Ht; [|done]. destruct (top !! "net"%string) as [raw|] eqn:Hd; [|done].
  destruct (to_objs raw) as [ns|] eqn:Ho; [|done]. destruct (rewrite_tap a b ns) as [ns'|] eqn:Hr; [|done]. intros [= <-].
  apply (replaces_intro _ _ _ _ raw); [done|done|by eauto 10|]. apply of_objs_wf. eapply rewrite_tap_wf; [|exact Hr].
  eapply to_objs_wf; [|exact Ho]. by apply (parse_top_wf _ _ Ht "net"%string).
Qed.

Lemma rewrite_vsock_replaces config a b out :
  rewriteConfigVsockPath config a b = Ok out →
  replaces "vsock" (λ v v', ∃ m, to_obj v = Some m ∧ v' = of_obj (<["socket"%string := JStr b]> m)) config out.
Proof.
  unfold rewriteConfigVsockPath. destruct (parse_top config) as [top|] eqn:Ht; [|done]. destruct (top !! "vsock"%string) as [raw|] eqn:Hd; [|done].
  destruct (to_obj raw) as [m|] eqn:Ho; [|done]. destruct (m !! "socket"%string ≫= to_string) as [so|]; [|done]. destruct (String.eqb so a); [|done].
  intros [= <-]. apply (replaces_intro _ _ _ _ raw); [done|done|by eauto|]. apply of_obj_wf, map_Forall_insert_2; [done|].
  eapply to_obj_wf; [|exact Ho]. by apply (parse_top_wf _ _ Ht "vsock"%string).
Qed.

(** What the child's configuration has in place of the parent's. *)
Record child_config (cp : ChildPaths) (top top' : obj) : Prop := {
  cc_disks : disk_paths top' = (λ p, default p (cp_disks cp !! p)) <$> disk_paths top;
  cc_taps : cp_parentTap cp ≠ ""%string → first_tap top = Some (cp_parentTap cp) → first_tap top' = Some (cp_childTap cp);
  cc_vsock : cp_parentVsock cp ≠ ""%string → vsock_of top' = Some (cp_childVsock cp);
  cc_rest : ∀ k, k ≠ "disks"%string → k ≠ "net"%string → k ≠ "vsock"%string → top' !! k = top !! k
}.

Lemma disks_step cp config out :
  (if bool_decide (cp_disks cp = ∅) then Ok config else rewriteAllConfigDiskPaths config (cp_disks cp)) = Ok out →
  ∀ top, parse_top config = Some top → ∃ top', parse_top out = Some top' ∧
    disk_paths top' = (λ p, default p (cp_disks cp !! p)) <$> disk_paths top ∧ ∀ k, k ≠ "disks"%string → top' !! k = top !! k.
Proof.
  destruct (bool_decide_reflect (cp_disks cp = ∅)) as [->|Hne].
  - intros [= <-] top Ht. exists top. split_and!; [done| |done]. rewrite <- (list_fmap_id (disk_paths top)) at 1. apply list_fmap_ext. intros i p _. by rewrite lookup_empty.
  - intros (top0 & v & v' & Ht0 & Hd & (ds & Hds & ->) & Hout)%rewrite_disks_replaces top Ht; [|done]. simplify_eq. eexists. split_and!; [done| |].
    + unfold disk_paths. rewrite lookup_insert_eq, Hd. cbn [mbind option_bind]. rewrite to_of_objs, Hds. cbn [default from_option]. apply omap_rewrite.
    + intros k Hk. by rewrite lookup_insert_ne.
Qed.

Lemma net_step cp config out :
  (if String.eqb (cp_parentTap cp) "" then Ok config else rewriteConfigNetTap config (cp_parentTap cp) (cp_childTap cp)) = Ok out →
  ∀ top, parse_top config = Some top → ∃ top', parse_top out = Some top' ∧
    (cp_parentTap cp ≠ ""%string → first_tap top = Some (cp_parentTap cp) → first_tap top' = Some (cp_childTap cp)) ∧ ∀ k, k ≠ "net"%string → top' !! k = top !! k.
Proof.
  destruct (String.eqb_spec (cp_parentTap cp) "") as [He|Hne].
  - intros [= <-] top Ht. exists top. by split_and!.
  - intros (top0 & v & v' & Ht0 & Hd & (ns & ns' & Hns & Hr & ->) & Hout)%rewrite_net_replaces top Ht. simplify_eq. eexists. split_and!; [done| |].
    + intros _. unfold first_tap. rewrite lookup_insert_eq, Hd. cbn [mbind option_bind]. rewrite to_of_objs, Hns. cbn [default from_option].
      destruct ns as [|n ns]; [done|]. cbn [head mbind option_bind rewrite_tap] in *. intros Hh. rewrite bool_decide_eq_true_2 in Hr by done. injection Hr as <-.
      cbn [id head mbind option_bind]. by rewrite lookup_insert_eq.
    + intros k Hk. by rewrite lookup_insert_ne.
Qed.

Lemma vsock_step cp config out :
  (if String.eqb (cp_parentVsock cp) "" then Ok config else rewriteConfigVsockPath config (cp_parentVsock cp) (cp_childVsock cp)) = Ok out →
  ∀ top, parse_top config = Some top → ∃ top', parse_top out = Some top' ∧
    (cp_parentVsock cp ≠ ""%string → vsock_of top' = Some (cp_childVsock cp)) ∧ ∀ k, k ≠ "vsock"%string → top' !! k = top !! k.
Proof.
  destruct (String.eqb_spec (cp_parentVsock cp) "") as [He|Hne].
  - intros [= <-] top Ht. exists top. by split_and!.
  - intros (top0 & v & v' & Ht0 & Hd & (m & Hm & ->) & Hout)%rewrite_vsock_replaces top Ht. simplify_eq. eexists. split_and!; [done| |].
    + intros _. unfold vsock_of. rewrite lookup_insert_eq. cbn [mbind option_bind]. rewrite to_of_obj. cbn [mbind option_bind]. by rewrite lookup_insert_eq.
    + intros k Hk. by rewrite lookup_insert_ne.
Qed.

(** All three rewrites, in the order they are made. *)
Lemma rewrite_config_spec cp config out top :
  rewrite_config cp config = Ok out → parse_top config = Some top → ∃ top', parse_top out = Some top' ∧ child_config cp top top'.
Proof.
  unfold rewrite_config. intros (c1 & H1 & (c2 & H2 & H3)%rbind_ok_inv)%rbind_ok_inv Ht.
  destruct (disks_step _ _ _ H1 _ Ht) as (t1 & Ht1 & Hd1 & Hk1). destruct (net_step _ _ _ H2 _ Ht1) as (t2 & Ht2 & Hn2 & Hk2).
  destruct (vsock_step _ _ _ H3 _ Ht2) as (t3 & Ht3 & Hv3 & Hk3). exists t3. split; [done|]. split.
  - unfold disk_paths. rewrite Hk3, Hk2 by done. exact Hd1.
  - intros Hne Hf. unfold first_tap. rewrite Hk3 by done. apply Hn2; [done|]. unfold first_tap. by rewrite Hk1.
  - done.
  - intros k ? ? ?. by rewrite Hk3, Hk2, Hk1.
Qed.

(** ** The child's names *)

Lemma concat_snoc_cons a l : l ≠ [] → String.concat "/" (a :: l) = a +:+ "/" +:+ String.concat "/" l.
Proof. by destruct l. Qed.

Lemma chars_concat_snoc l b : l ≠ [] → String.concat "/" (l ++ [b]) = String.concat "/" l +:+ "/" +:+ b.
Proof.
  induction l as [|a [|a' l] IH]; [done|done|]. intros _. change ((a :: a' :: l) ++ [b]) with (a :: ((a' :: l) ++ [b])).
  rewrite !concat_snoc_cons by done. rewrite IH by done. by rewrite !str_app_assoc.
Qed.

Lemma Split_parts s : Split s "/"%char ≠ [].
Proof.
  intros H. pose proof (concat_Split s) as Hs. rewrite H in Hs. simpl in Hs. subst s. by vm_compute in H.
Qed.

Lemma Split_snoc a b : "/"%char ∉ chars b → Split (a +:+ "/" +:+ b) "/"%char = Split a "/"%char ++ [b].
Proof.
  intros Hb. rewrite <- (concat_Split a) at 1. rewrite <- chars_concat_snoc by apply Split_parts.
  apply Split_concat; [|by destruct (Split a "/"%char)]. apply Forall_app. split; [apply Split_notin|by apply Forall_singleton].
Qed.

Lemma Split_cons q : Split ("/" +:+ q) "/"%char = ""%string :: Split q "/"%char.
Proof.
  pose proof (Split_parts q) as Hne. rewrite <- (concat_Split q) at 1. change ("/" +:+ ?x) with ("" +:+ "/" +:+ x).
  rewrite <- concat_snoc_cons by done. apply Split_concat; [|done]. constructor; [apply not_elem_of_nil|apply Split_notin].
Qed.

Lemma Join_rooted dir name :
  HasPrefix dir "/" = true → plain_segment name → ∃ ss, Forall plain_segment ss ∧ filepath_Join dir name = "/" +:+ String.concat "/" (ss ++ [name]).
Proof.
  intros Hd Hn. pose proof Hn as (H1 & H2 & H3 & H4). unfold filepath_Join, path_Clean.
  assert (HasPrefix (dir +:+ "/" +:+ name) "/" = true) as ->.
  { apply HasPrefix_true in Hd as [r ->]. rewrite !str_app_assoc. apply HasPrefix_app. }
  rewrite Split_snoc by done. rewrite fold_left_app. cbn [fold_left].
  set (st := fold_left (clean_step true) (Split dir "/"%char) []).
  assert (Hst : Forall plain_segment st) by (apply clean_fold_plain; [done|apply Split_notin]).
  replace (clean_step true st name) with (name :: st).
  - exists (reverse st). split; [by apply Forall_reverse|]. by rewrite reverse_cons.
  - unfold clean_step. destruct (String.eqb_spec name ""), (String.eqb_spec name "."), (String.eqb_spec name ".."); done.
Qed.

Lemma drop_end_while_id f l c : last l = Some c → f c = false → drop_end_while f l = l.
Proof.
  intros Hl Hf. apply last_Some in Hl as [k ->]. unfold drop_end_while. rewrite reverse_app. simpl. rewrite Hf.
  change (c :: reverse k) with (reverse [c] ++ reverse k). by rewrite <- reverse_app, reverse_involutive.
Qed.

Lemma Base_joined ss name : Forall plain_segment ss → plain_segment name → filepath_Base ("/" +:+ String.concat "/" (ss ++ [name])) = name.
Proof.
  intros Hs Hn. pose proof Hn as (H1 & _ & _ & H4). unfold filepath_Base. set (p := "/" +:+ String.concat "/" (ss ++ [name])).
  assert (Hp : ∃ k, chars p = k ++ chars name).
  { subst p. destruct ss as [|a ss]; [by exists ["/"%char]|]. rewrite chars_concat_snoc, !chars_app by done. eexists. rewrite !app_assoc. done. }
  destruct Hp as [k Hk].
  assert (Hl : ∃ c, last (chars p) = Some c ∧ c ≠ "/"%char).
  { rewrite Hk, last_app. destruct (last (chars name)) as [c|] eqn:Hc.
    - exists c. split; [done|]. intros ->. apply H4. apply last_Some in Hc as [l' ->]. rewrite elem_of_app, list_elem_of_singleton. by right.
    - apply last_None in Hc. destruct H1. by apply chars_inj. }
  destruct Hl as (c & Hl & Hc).
  assert (HT : TrimRightByte p "/"%char = p).
  { unfold TrimRightByte. rewrite (drop_end_while_id _ _ c); [by rewrite of_chars_chars|done|by apply bool_decide_eq_false]. }
  rewrite HT. assert (Hne : String.eqb p "" = false) by (apply String.eqb_neq; intros He; rewrite He in Hl; done). rewrite Hne.
  unfold p at 1. rewrite Split_rooted, last_cons, last_snoc; [done| |by destruct ss]. apply Forall_app. split; [|by apply Forall_singleton].
  eapply Forall_impl; [exact Hs|]. by intros x (_ & _ & _ & ?).
Qed.

Lemma Dir_rooted p : HasPrefix p "/" = true → HasPrefix (filepath_Dir p) "/" = true.
Proof.
  intros [q ->]%HasPrefix_true. unfold filepath_Dir. rewrite Split_cons. pose proof (Split_parts q) as Hne.
  destruct (Split q "/"%char) as [|a l]; [done|]. cbn [length]. replace (S (S (length l)) - 1)%nat with (S (length l)) by lia.
  cbn [take]. unfold path_Clean.
  assert (HasPrefix (String.concat "/" (""%string :: take (length l) (a :: l)) +:+ "/") "/" = true) as ->.
  { destruct (take (length l) (a :: l)) as [|b k]; [done|]. rewrite concat_snoc_cons by done. rewrite !str_app_assoc. apply HasPrefix_true. by eexists. }
  apply HasPrefix_app.
Qed.

Lemma id_noslash id : "/"%char ∉ chars (SandboxID_String id).
Proof.
  destruct (id_chars id) as (l & -> & _ & _ & _ & H). rewrite not_elem_of_app. split; [|done].
  apply (bool_decide_eq_true_1 _). by vm_compute.
Qed.

Lemma id_name_plain id s : "/"%char ∉ chars s → plain_segment (SandboxID_String id +:+ s).
Proof.
  intros Hs. assert (Hl : ∀ t, SandboxID_String id +:+ s = t → (29 ≤ length (chars t))%nat) by (intros t <-; rewrite chars_app, length_app, id_length; lia).
  split_and!; try (intros H; apply Hl in H; simpl in H; lia). rewrite chars_app, not_elem_of_app. split; [apply id_noslash|done].
Qed.

(** The basename of a child's disk begins with the child's identifier. *)
Definition childs (childID : SandboxID) (p : string) : Prop := ∃ s, filepath_Base p = SandboxID_String childID +:+ s.

Lemma Join_childs childID dir s : HasPrefix dir "/" = true → "/"%char ∉ chars s → childs childID (filepath_Join dir (SandboxID_String childID +:+ s)).
Proof.
  intros Hd Hs. destruct (Join_rooted dir _ Hd (id_name_plain childID s Hs)) as (ss & Hss & ->). exists s. apply Base_joined; [done|by apply id_name_plain].
Qed.

Lemma ChildExtraDiskPath_childs childID p :
  HasPrefix p "/" = true → "/"%char ∉ chars (filepath_Base p) → childs childID (ChildExtraDiskPath childID p).
Proof.
  intros Hp Hb. apply Dir_rooted in Hp. unfold ChildExtraDiskPath. destruct (HasSuffix p "-workspace.ext4"); [|destruct (HasSuffix p "-scratch.ext4")].
  - apply Join_childs; [done|]. apply (bool_decide_eq_true_1 _). by vm_compute.
  - apply Join_childs; [done|]. apply (bool_decide_eq_true_1 _). by vm_compute.
  - apply Join_childs; [done|]. rewrite chars_app, not_elem_of_app. split; [|done]. apply (bool_decide_eq_true_1 _). by vm_compute.
Qed.

(** No path is a disk of two children. *)
Lemma childs_disjoint a b p : wf_id a → wf_id b → childs a p → childs b p → a = b.
Proof. intros Ha Hb [s Hs] [t Ht]. rewrite Hs in Ht. by apply id_name_inj in Ht as [-> _]. Qed.

(** ** Isolation *)

(** The parent's disks and the child's copies: the root disk first, then the others in order. *)
Definition child_pairs (childID : SandboxID) (root : string) (extras : list string) : list (string * string) :=
  (if String.eqb root "" then [] else [(root, filepath_Join (filepath_Dir root) (SandboxID_String childID +:+ ".raw"))]) ++
  ((λ p, (p, ChildExtraDiskPath childID p)) <$> extras).

Definition disk_rewrites (pairs : list (string * string)) : gmap string string := list_to_map (reverse pairs).

Lemma disk_rewrites_lookup pairs p : p ∈ pairs.*1 → ∃ c, disk_rewrites pairs !! p = Some c ∧ (p, c) ∈ pairs.
Proof.
  intros Hp. unfold disk_rewrites. destruct (list_to_map (M:=gmap string string) (reverse pairs) !! p) as [c|] eqn:E.
  - exists c. split; [done|]. apply elem_of_list_to_map_2 in E. by rewrite elem_of_reverse in E.
  - apply not_elem_of_list_to_map_2 in E. destruct E. rewrite fmap_reverse. by rewrite elem_of_reverse.
Qed.

(** What a fork's disks must look like: absolute paths of files. *)
Definition proper (p : string) : Prop := HasPrefix p "/" = true ∧ "/"%char ∉ chars (filepath_Base p).

Lemma child_pairs_childs childID root extras p c :
  proper root → Forall proper extras → (p, c) ∈ child_pairs childID root extras → childs childID c.
Proof.
  intros [Hr _] He. unfold child_pairs. rewrite elem_of_app. intros [Hin|Hin].
  - destruct (String.eqb root ""); [by apply not_elem_of_nil in Hin|]. apply list_elem_of_singleton in Hin as [= -> ->].
    apply Join_childs; [by apply Dir_rooted|]. apply (bool_decide_eq_true_1 _). by vm_compute.
  - apply list_elem_of_fmap in Hin as (q & [= -> ->] & Hq). rewrite Forall_forall in He. destruct (He q Hq). by apply ChildExtraDiskPath_childs.
Qed.

Lemma findAll_disk_paths config ps : findAllDiskPaths config = Ok ps → ∃ top, parse_top config = Some top ∧ disk_paths top = ps.
Proof.
  unfold findAllDiskPaths, with_top. destruct (parse_top config) as [top|]; [|done]. intros (ds & Hd & Hm)%rbind_ok_inv. exists top. split; [done|].
  unfold disks_of in Hd. unfold disk_paths. destruct (top !! "disks"%string) as [raw|]; [|done]. cbn [mbind option_bind]. destruct (to_objs raw) as [ds'|]; [|done].
  destruct ds' as [|d ds']; [done|]. injection Hd as <-. cbn [default from_option id]. destruct (mapM diskEntryPath (d :: ds')) as [ps'|] eqn:E; [|done].
  injection Hm as ->. apply mapM_Some_1 in E. clear -E. induction E as [|x y k l Hx Hk IH]; [done|]. simpl. rewrite Hx. by f_equal.
Qed.

(** The configuration a child is restored from names only disks of the child. *)
Lemma fork_disks_isolated parentID childID config root extras cp out :
  findRootDiskPath config parentID = Ok root → root ≠ ""%string → collectExtraDiskPaths config root = Ok extras →
  Forall proper (root :: extras) → cp_disks cp = disk_rewrites (child_pairs childID root extras) → rewrite_config cp config = Ok out →
  ∃ top', parse_top out = Some top' ∧ disk_paths top' ≠ [] ∧ Forall (childs childID) (disk_paths top').
Proof.
  intros Hroot Hne Hex [Hpr Hpe]%Forall_cons Hcp Hrw. unfold collectExtraDiskPaths in Hex.
  assert (Hnn : findAllDiskPaths config ≠ Err ErrNone).
  { intros Hf. revert Hroot Hf. unfold findRootDiskPath, findAllDiskPaths, with_top. destruct (parse_top config) as [top|]; [|done].
    destruct (disks_of top) as [ds|e]; simpl; [|by intros [=]]. by destruct (mapM diskEntryPath ds). }
  destruct (findAllDiskPaths config) as [ps|e] eqn:Hall; [|by destruct e]. injection Hex as <-.
  destruct (findAll_disk_paths _ _ Hall) as (top & Ht & Hps). destruct (rewrite_config_spec _ _ _ _ Hrw Ht) as (top' & Ht' & Hc).
  exists top'. split; [done|]. rewrite (cc_disks _ _ _ Hc), Hps. split.
  - destruct ps as [|p ps]; [|done]. exfalso. revert Hall. unfold findAllDiskPaths, with_top. rewrite Ht. unfold disks_of.
    destruct (top !! "disks"%string) as [raw|]; [|done]. destruct (to_objs raw) as [[|d ds]|]; try done. simpl.
    destruct (diskEntryPath d); [|done]. simpl. by destruct (mapM diskEntryPath ds).
  - apply Forall_fmap, Forall_forall. intros p Hp. simpl. rewrite Hcp.
    set (extras := List.filter _ ps) in *.
    assert (Hin : p ∈ (child_pairs childID root extras).*1).
    { unfold child_pairs. rewrite (proj2 (String.eqb_neq _ _) Hne). cbn [app fmap list_fmap fst]. apply elem_of_cons.
      destruct (String.eqb_spec p root) as [->|Hd]; [by left|right]. rewrite <- list_fmap_compose. apply list_elem_of_fmap. exists p. split; [done|].
      unfold extras. apply list_elem_of_In, filter_In. split; [by apply list_elem_of_In|]. by rewrite (proj2 (String.eqb_neq _ _) Hd). }
    destruct (disk_rewrites_lookup _ _ Hin) as (c & -> & Hc'). simpl. by eapply child_pairs_childs.
Qed.
