(* ===== verification/Snapshots.v ===== *)
(** * internal/core/driver/cloudhypervisor: snapshots and forks

    [snapshot.go] and [fork.go]: TakeSnapshot, RemoveSnapshot, the checks before a restore, and the spawning of
    children.  The hypervisor writes the files of a snapshot and reads those of a restore ([SnapHypervisor]); the file
    system, the record store and the power cut are those of Artifact, the rewritten configuration that of ForkConfig. *)

From stdpp Require Import prelude countable gmap strings list pretty sorting.
From Stdlib Require Import ZArith Ascii Lia.
From S2P Require Import Prelude GoStrings GoIO GoPath GoJson Domain Sandbox Lifecycle StoreIface Store Recovery Netns Disks Hypervisor Artifact ForkConfig.

(** ** The hypervisor's part *)

(** Files by their path below the directory of the request. *)
Abbreviation tree := (gmap (list string) bytes).

Class SnapHypervisor (V : Type) `{!Hypervisor V} := {
  hv_snapshot : SandboxID → V → V * Reply * tree;
  hv_restore : SandboxID → tree → V → V * Reply
}.

Class SnapLaws (V : Type) `{!Hypervisor V, !SnapHypervisor V} := {
  law_resumed id v v' b : hv_call id RResume v = (v', Answer 204 b) → hv_vm v' id = Some "Running"%string;
  law_tree id v rel : rel ∈ dom (hv_snapshot id v).2 → rel ≠ [] ∧ Forall plain_segment rel;
  law_snapshot_others id id' v : id' ≠ id → hv_alive (hv_snapshot id v).1.1 id' = hv_alive v id' ∧ hv_vm (hv_snapshot id v).1.1 id' = hv_vm v id';
  law_restore_others id id' t v : id' ≠ id → hv_alive (hv_restore id t v).1 id' = hv_alive v id' ∧ hv_vm (hv_restore id t v).1 id' = hv_vm v id'
}.

(** ** The manifest *)

Record snapshotManifest := mkManifest { sm_Dir : string; sm_Files : list (string * Z) }.

Definition path_string (p : list string) : string := "/" +:+ String.concat "/" p.

(** The files below [dir] by their relative paths. *)
Definition below (dir : list string) (fs : FS) : gmap (list string) file :=
  list_to_map (omap (λ kv : list string * file, match strip dir kv.1 with Some (e :: rel) => Some (e :: rel, kv.2) | _ => None end) (map_to_list fs)).

Definition entry_le (a b : string * Z) : Prop := glob_le a.1 b.1.
#[local] Instance entry_le_dec : RelDecision entry_le.
Proof. intros a b. unfold entry_le. apply _. Defined.

Definition buildManifest (dir : list string) (fs : FS) : snapshotManifest :=
  mkManifest (path_string dir)
    (merge_sort entry_le ((λ kv, (String.concat "/" kv.1, Z.of_nat (length (fi_data kv.2)))) <$> map_to_list (below dir fs))).

(** A nil slice is null. *)
Definition manifest_json (m : snapshotManifest) : json :=
  JObj [("dir", JStr (sm_Dir m));
        ("files", match sm_Files m with [] => JNull | l => JArr ((λ e, JObj [("path", JStr e.1); ("size", JInt e.2)]) <$> l) end)]%string.

Definition dec_entry (v : json) : option (string * Z) :=
  kvs ← decode_members v;
  p ← decode_field dec_string "path" "" kvs;
  n ← decode_field dec_int64 "size" 0 kvs;
  Some (p, n).

Definition dec_files (v : json) : option (option (list (string * Z))) :=
  match v with JNull => Some None | JArr l => Some <$> mapM dec_entry l | _ => None end.

Definition unmarshal_manifest (data : bytes) : option snapshotManifest :=
  kvs ← Unmarshal data ≫= decode_members;
  dir ← decode_field dec_string "dir" "" kvs;
  files ← decode_field dec_files "files" [] kvs;
  Some (mkManifest dir files).

(** Every file there with its size; [dir] is the directory the driver derives, not the recorded one. *)
Definition verifyManifest (dir : list string) (m : snapshotManifest) (fs : FS) : bool :=
  forallb (λ e, match fs !! Join dir e.1 with Some f => Z.of_nat (length (fi_data f)) =? e.2 | None => false end) (sm_Files m).

(** ** TakeSnapshot *)

Record Machine (V : Type) := mkMachine { mc_world : World V; mc_fs : FS; mc_procs : gmap SandboxID Z }.
Arguments mkMachine {V}.
Arguments mc_world {V}.
Arguments mc_fs {V}.
Arguments mc_procs {V}.

(** When the caller's context ends, before the resume call is answered: before the pause, while the snapshot is taken (the
    request may have gone out), or after it.  Calls under an ended context are not sent. *)
Inductive cancelled := Never | AtPause | AtSnapshot (sent : bool) | AtResume.

(** What the operating system answers: the random identifier, the directory, how many files the fsync walk gets through,
    the walk of the manifest, the clock, the store's writes, and whether [os.RemoveAll] works; and the caller's context. *)
Record TakeIO := mkTakeIO {
  ti_ctx : cancelled;
  ti_id : option string;
  ti_mkdir : bool;
  ti_fsync : option nat;
  ti_walk : bool;
  ti_now : Time;
  ti_write : WriteIO;
  ti_rmall : bool
}.

Inductive take_error := TkID | TkMkdir | TkPause | TkSnapshot | TkResume | TkFsync | TkManifest | TkWrite (e : write_error).

Definition place_files (dir : list string) (t : tree) (fs : FS) : FS :=
  kmap (app dir) ((λ b, mkFile b false) <$> t) ∪ fs.

Definition fsync_file (p : list string) (fs : FS) : FS := alter (λ f, mkFile (fi_data f) true) p fs.

(** The files in the order of the walk. *)
Definition fsyncSnapDir (stop : option nat) (dir : list string) (r : Run) : Run * bool :=
  let ps := (λ kv, dir ++ kv.1) <$> map_to_list (below dir (rn_fs r)) in
  match stop with
  | Some n => (foldl (λ r p, step (fsync_file p) r) r (take n ps), false)
  | None => (foldl (λ r p, step (fsync_file p) r) r ps, true)
  end.

Section driver.
Context {V : Type} `{!Hypervisor V, !SnapHypervisor V}.
Context (time_text : Time → option string) (time_parse : string → option Time).
(** [cfg.SnapshotDir] *)
Context (root : list string).

Definition snapshotDirPath (snapID : string) : list string := Join root snapID.

Definition rmall (works : bool) (p : list string) (r : Run) : Run := if works then step (RemoveAll p) r else r.

(** From the fsync of the hypervisor's files on. *)
Definition commit_snapshot (io : TakeIO) (snapID : string) (id : SandboxID) (kind : string) (r : Run) : Run * result take_error Snapshot :=
  let dir := snapshotDirPath snapID in
  let '(r, ok) := fsyncSnapDir (ti_fsync io) dir r in
  if negb ok then (rmall (ti_rmall io) dir r, Err TkFsync)
  else if negb (ti_walk io) then (rmall (ti_rmall io) dir r, Err TkManifest)
  else
    let payload := json_print (manifest_json (buildManifest dir (rn_fs r))) in
    let snap := mkSnapshot snapID id kind (Z.of_nat (length payload)) "committed" (ti_now io) in
    match Write time_text (ti_write io) root snap payload r with
    | (r, Err e) => (rmall (ti_rmall io) dir r, Err (TkWrite e))
    | (r, Ok _) => (r, Ok snap)
    end.

(** A call whose context has ended fails without being sent. *)
Definition send (alive : bool) (id : SandboxID) (q : Request) (w : World V) : World V * Reply :=
  if alive then call id q w else (w, NoReply).

Definition send_snapshot (ctx : cancelled) (id : SandboxID) (v : V) : V * Reply * tree :=
  match ctx with
  | AtSnapshot false => (v, NoReply, ∅)
  | AtSnapshot true => let '(v, _, files) := hv_snapshot id v in (v, NoReply, files)
  | _ => hv_snapshot id v
  end.

Definition pause_sent (ctx : cancelled) : bool := match ctx with AtPause => false | _ => true end.
Definition resume_sent (ctx : cancelled) : bool := match ctx with Never => true | _ => false end.

(** The states of the disk the call went through, the machine after it, and the result. *)
Definition TakeSnapshot (io : TakeIO) (id : SandboxID) (kind : string) (m : Machine V) : list FS * Machine V * result take_error Snapshot :=
  let w := mc_world m in
  let ret (r : Run) (w : World V) res := (rn_seen r, mkMachine w (rn_fs r) (mc_procs m), res) in
  let r := start (mc_fs m) in
  match ti_id io with
  | None => ret r w (Err TkID)
  | Some snapID =>
      if negb (ti_mkdir io) then ret r w (Err TkMkdir)
      else
        let dir := snapshotDirPath snapID in
        let '(w, pauseReply) := send (pause_sent (ti_ctx io)) id RPause w in
        match put204 pauseReply with
        | Err _ => ret (rmall (ti_rmall io) dir r) w (Err TkPause)
        | Ok _ =>
            let '(v, snapReply, files) := send_snapshot (ti_ctx io) id (wo_hv w) in
            let r := step (place_files dir files) r in
            let '(w, resumeReply) := send (resume_sent (ti_ctx io)) id RResume (mkWorld (wo_driver w) (wo_host w) v) in
            match put204 snapReply, put204 resumeReply with
            | Err _, _ => ret (rmall (ti_rmall io) dir r) w (Err TkSnapshot)
            | Ok _, Err _ => ret r w (Err TkResume)
            | Ok _, Ok _ => let '(r, res) := commit_snapshot io snapID id kind r in ret r w res
            end
        end
  end.

(** ** RemoveSnapshot *)

Inductive rms_error := RmsStore (e : remove_error) | RmsDir.

Definition RemoveSnapshot (broken : list string → bool) (rmFails : bool) (id : string) (fs : FS) : FS * result rms_error unit :=
  let '(r, res) := Remove broken root id (start fs) in
  match res with
  | Err e => (rn_fs r, Err (RmsStore e))
  | Ok _ => if rmFails then (rn_fs r, Err RmsDir) else (RemoveAll (snapshotDirPath id) (rn_fs r), Ok tt)
  end.

(** ** The checks before a restore *)

Inductive source_error := SeRecord (e : read_error) | SePayload | SeManifest | SeVerify.

Definition check_source (broken : list string → bool) (snapID : string) (fs : FS) : result source_error snapshotManifest :=
  match Read time_parse broken root snapID fs with
  | Err e => Err (SeRecord e)
  | Ok _ =>
      if broken (payloadPath root snapID) then Err SePayload
      else
        match fs !! payloadPath root snapID with
        | None => Err SePayload
        | Some f =>
            match unmarshal_manifest (fi_data f) with
            | None => Err SeManifest
            | Some m => if verifyManifest (snapshotDirPath snapID) m fs then Ok m else Err SeVerify
            end
        end
  end.

End driver.

(** ** Files of a directory *)

Lemma below_entries dir (l : list (list string * file)) rel :
  rel ∈ (omap (λ kv : list string * file, match strip dir kv.1 with Some (e :: rel) => Some (e :: rel, kv.2) | _ => None end) l).*1 → (dir ++ rel) ∈ l.*1.
Proof.
  intros ([r f] & -> & ([p g] & Hin & Heq)%list_elem_of_omap)%list_elem_of_fmap. simpl in *.
  destruct (strip dir p) as [[|e q]|] eqn:E; simplify_eq. apply strip_Some in E as ->. apply list_elem_of_fmap. by eexists (_, _).
Qed.

Lemma below_lookup dir fs rel f : below dir fs !! rel = Some f ↔ rel ≠ [] ∧ fs !! (dir ++ rel) = Some f.
Proof.
  unfold below. rewrite <- elem_of_list_to_map.
  - rewrite list_elem_of_omap. split.
    + intros ([p g] & Hin%elem_of_map_to_list & Heq). simpl in Heq. destruct (strip dir p) as [[|e q]|] eqn:E; simplify_eq. by apply strip_Some in E as ->.
    + intros [Hne Hl]. destruct rel as [|e rel]; [done|]. exists (dir ++ e :: rel, f). split; [by apply elem_of_map_to_list|]. simpl. by rewrite strip_app.
  - pose proof (NoDup_fst_map_to_list fs) as Hnd. induction (map_to_list fs) as [|[p f'] l IH]; [constructor|].
    cbn [fmap list_fmap fst] in Hnd. apply NoDup_cons in Hnd as [Hni Hnd]. specialize (IH Hnd). simpl.
    destruct (strip dir p) as [[|e q]|] eqn:E; [done| |done]. cbn [fmap list_fmap fst]. apply NoDup_cons. split; [|done].
    intros Hin%below_entries. apply strip_Some in E as ->. done.
Qed.

Lemma place_files_in dir t fs rel b : t !! rel = Some b → place_files dir t fs !! (dir ++ rel) = Some (mkFile b false).
Proof.
  intros Ht. unfold place_files. apply lookup_union_Some_l. rewrite (lookup_kmap (app dir)). by rewrite lookup_fmap, Ht.
Qed.

Lemma place_files_out dir t fs rel : t !! rel = None → place_files dir t fs !! (dir ++ rel) = fs !! (dir ++ rel).
Proof. intros Ht. unfold place_files. rewrite lookup_union_r; [done|]. rewrite (lookup_kmap (app dir)). by rewrite lookup_fmap, Ht. Qed.

Lemma place_files_other dir t fs p : ¬ dir `prefix_of` p → place_files dir t fs !! p = fs !! p.
Proof.
  intros Hp. unfold place_files. rewrite lookup_union_r; [done|]. apply lookup_kmap_None; [apply _|]. intros rel ->. destruct Hp. by exists rel.
Qed.

Lemma RemoveAll_lookup p fs q : RemoveAll p fs !! q = if decide (p `prefix_of` q) then None else fs !! q.
Proof.
  unfold RemoveAll. case_decide as Hd.
  - apply map_lookup_filter_None. right. intros f Hf Hn. by apply Hn.
  - destruct (fs !! q) as [f|] eqn:E; [by apply map_lookup_filter_Some|]. apply map_lookup_filter_None. by left.
Qed.

Lemma Join_concat dir rel : Forall plain_segment rel → rel ≠ [] → Join dir (String.concat "/" rel) = dir ++ rel.
Proof.
  intros Hp Hne. unfold Join. rewrite Split_concat; [|by eapply Forall_impl; [exact Hp|]; intros x (_ & _ & _ & ?)|done].
  rewrite clean_fold_id by done. by rewrite reverse_app, !reverse_involutive.
Qed.

(** The walk that synchronises keeps the contents, and marks every file it reached. *)
Lemma fsync_lookup p fs q : fsync_file p fs !! q = (if decide (p = q) then (λ f, mkFile (fi_data f) true) <$> fs !! q else fs !! q).
Proof. unfold fsync_file. case_decide as Hd; [subst; by rewrite lookup_alter_eq|by rewrite lookup_alter_ne]. Qed.

Lemma fsync_walk ps r :
  let r' := foldl (λ r p, step (fsync_file p) r) r ps in
  (∀ q, rn_fs r' !! q = if decide (q ∈ ps) then (λ f, mkFile (fi_data f) true) <$> rn_fs r !! q else rn_fs r !! q) ∧
  ∃ tail, rn_seen r' = rn_seen r ++ tail ∧ ∀ fs q, fs ∈ tail → rn_fs r !! q = None → fs !! q = None.
Proof.
  revert r. induction ps as [|p ps IH]; intros r; cbn [foldl].
  { split; [intros q; by rewrite decide_False by apply not_elem_of_nil|]. exists []. rewrite app_nil_r. split; [done|]. by intros fs q ?%not_elem_of_nil. }
  destruct (IH (step (fsync_file p) r)) as [Hl (tail & Hs & Hn)]. split.
  - intros q. rewrite Hl. cbn [step rn_fs]. rewrite fsync_lookup.
    destruct (decide (q ∈ ps)) as [Hq|Hq], (decide (p = q)) as [->|Hp]; destruct (decide (q ∈ _ :: ps)) as [Hc|Hc]; try done.
    all: try (exfalso; apply Hc, elem_of_cons; first [by left | by right]).
    all: try (exfalso; apply elem_of_cons in Hc as [?|?]; congruence). by destruct (rn_fs r !! q).
  - exists (fsync_file p (rn_fs r) :: tail). rewrite Hs. cbn [step rn_seen]. rewrite <- app_assoc. split; [done|].
    intros fs q [-> | Hin]%elem_of_cons Hq.
    + rewrite fsync_lookup, Hq. by destruct (decide (p = q)).
    + apply (Hn fs q Hin). cbn [step rn_fs]. rewrite fsync_lookup, Hq. by destruct (decide (p = q)).
Qed.

(** ** The manifest's text *)

Definition sizes_ok (l : list (string * Z)) : Prop := Forall (λ e, 0 ≤ e.2 < 2 ^ 63) l.

Definition entry_json (e : string * Z) : json := JObj [("path", JStr e.1); ("size", JInt e.2)]%string.

Lemma dec_entry_json e : 0 ≤ e.2 < 2 ^ 63 → dec_entry (entry_json e) = Some e.
Proof.
  intros He. unfold dec_entry, entry_json. cbn [decode_members mbind option_bind].
  rewrite (decode_named dec_string "path" _ _ (JStr e.1) e.1) by done.
  rewrite (decode_named dec_int64 "size" _ _ (JInt e.2) e.2) by (reflexivity || (apply dec_int64_JInt; lia)). by destruct e.
Qed.

Lemma manifest_wf m : sizes_ok (sm_Files m) → wf_json (manifest_json m) = true.
Proof.
  intros Hs. unfold manifest_json. cbn [wf_json forallb snd andb]. rewrite andb_true_r. destruct (sm_Files m) as [|e l]; [done|].
  cbn [wf_json]. apply forallb_forall. intros v (x & -> & Hx)%list_elem_of_In%list_elem_of_fmap. cbn [wf_json forallb snd andb]. rewrite andb_true_r.
  apply JInt_reads. eapply Forall_forall in Hs; [|exact Hx]. simpl in Hs. lia.
Qed.

Lemma manifest_roundtrip m : sizes_ok (sm_Files m) → unmarshal_manifest (json_print (manifest_json m)) = Some m.
Proof.
  intros Hs. unfold unmarshal_manifest. rewrite (Unmarshal_print _ (manifest_wf m Hs)). unfold manifest_json. cbn [mbind option_bind decode_members].
  rewrite (decode_named dec_string "dir" _ _ (JStr (sm_Dir m)) (sm_Dir m)) by done. destruct m as [d l]. cbn [sm_Dir sm_Files] in *. destruct l as [|e l]; [done|].
  rewrite (decode_named dec_files "files" _ _ (JArr (entry_json <$> e :: l)) (e :: l)); [done|done|].
  unfold dec_files. assert (Hm : mapM dec_entry (entry_json <$> e :: l) = Some (e :: l)); [|by rewrite Hm].
  apply mapM_Some_2. induction Hs as [|x k Hx Hk IH]; constructor; [by apply dec_entry_json|done].
Qed.

(** ** Taking a snapshot *)

Section take.
Context {V : Type} `{!Hypervisor V, !SnapHypervisor V, !SnapLaws V}.
Context (time_text : Time → option string) (time_parse : string → option Time).
Hypothesis time_reads : ∀ t s, time_text t = Some s → time_parse s = Some t.
Context (root : list string) (snapID : string).
Let dir := snapshotDirPath root snapID.
Let pp := payloadPath root snapID.
Let mp := markerPath root snapID.
Hypothesis Hplain : plain_segment snapID.

Lemma snap_plain_id : plain_id snapID.
Proof. by destruct Hplain as (_ & _ & _ & H). Qed.

Lemma dir_eq : dir = root ++ [snapID].
Proof. by apply Join_plain. Qed.

Lemma dir_not_prefix (suf : string) : suf ≠ ""%string → ¬ dir `prefix_of` (root ++ [snapID +:+ suf]).
Proof.
  rewrite dir_eq. intros Hs [k Hk]. rewrite <- app_assoc in Hk. apply app_inv_head in Hk. injection Hk as Hk _.
  apply Hs. apply (f_equal chars) in Hk. rewrite chars_app in Hk. apply chars_inj. apply (app_inv_head (chars snapID)). by rewrite Hk, app_nil_r.
Qed.

Lemma mp_outside : ¬ dir `prefix_of` mp.
Proof. unfold mp. rewrite markerPath_plain by apply snap_plain_id. by apply dir_not_prefix. Qed.

Lemma pp_outside : ¬ dir `prefix_of` pp.
Proof. unfold pp. rewrite payloadPath_plain by apply snap_plain_id. by apply dir_not_prefix. Qed.

(** What the hypervisor wrote, and the disk before. *)
Context (t : tree) (fs0 : FS).
Hypothesis Htree : ∀ rel, rel ∈ dom t → rel ≠ [] ∧ Forall plain_segment rel.
Hypothesis Hsmall : ∀ rel b, t !! rel = Some b → Z.of_nat (length b) < 2 ^ 63.
Hypothesis Hempty : ∀ rel, fs0 !! (dir ++ rel) = None.
Hypothesis Hfresh : fs0 !! mp = None.

(** The disk once the hypervisor's files are synchronised. *)
Record synced (fs : FS) : Prop := {
  sy_in : ∀ rel b, t !! rel = Some b → fs !! (dir ++ rel) = Some (mkFile b true);
  sy_only : ∀ rel f, fs !! (dir ++ rel) = Some f → ∃ b, t !! rel = Some b ∧ f = mkFile b true;
  sy_marker : fs !! mp = None;
  sy_other : ∀ p, ¬ dir `prefix_of` p → fs !! p = fs0 !! p
}.

Lemma placed rel f : place_files dir t fs0 !! (dir ++ rel) = Some f ↔ ∃ b, t !! rel = Some b ∧ f = mkFile b false.
Proof.
  destruct (t !! rel) as [b|] eqn:Ht; [rewrite (place_files_in _ _ _ _ _ Ht)|rewrite (place_files_out _ _ _ _ Ht), Hempty]; naive_solver.
Qed.

Lemma fsync_ok r r' :
  rn_fs r = place_files dir t fs0 → (∀ fs, fs ∈ rn_seen r → fs !! mp = None) → ∀ stop ok, fsyncSnapDir stop dir r = (r', ok) →
  (∀ fs, fs ∈ rn_seen r' → fs !! mp = None) ∧ rn_fs r' !! mp = None ∧ (ok = true → synced (rn_fs r')).
Proof.
  intros Hr Hseen stop ok Hf. assert (Hm : rn_fs r !! mp = None) by (rewrite Hr, place_files_other; [done|apply mp_outside]).
  assert (Hgen : ∀ ps, ps = (λ kv : list string * file, dir ++ kv.1) <$> map_to_list (below dir (rn_fs r)) ∨ ok = false →
    r' = foldl (λ r p, step (fsync_file p) r) r ps →
    (∀ fs, fs ∈ rn_seen r' → fs !! mp = None) ∧ rn_fs r' !! mp = None ∧ (ok = true → synced (rn_fs r'))).
  2:{ unfold fsyncSnapDir in Hf. destruct stop; simplify_eq; eapply Hgen; eauto. }
  intros ps Hps ->. destruct (fsync_walk ps r) as [Hl (tail & Hs & Hn)]. split_and!.
  - intros fs. rewrite Hs, elem_of_app. intros [?|?]; [by apply Hseen|by apply (Hn fs mp)].
  - rewrite Hl, Hm. by case_decide.
  - intros Hok. destruct Hps as [Hps|?]; [|congruence].
    assert (Hin : ∀ rel, (dir ++ rel) ∈ ps ↔ is_Some (t !! rel)).
    { intros rel. rewrite Hps, list_elem_of_fmap. split.
      - intros ([rel' f] & Heq & Hin%elem_of_map_to_list). simpl in Heq. apply app_inv_head in Heq as <-. apply below_lookup in Hin as [_ Hin].
        rewrite Hr, placed in Hin. naive_solver.
      - intros [b Hb]. exists (rel, mkFile b false). split; [done|]. apply elem_of_map_to_list, below_lookup. split.
        + apply (Htree rel). by apply elem_of_dom.
        + rewrite Hr. apply placed. eauto. }
    split.
    + intros rel b Hb. rewrite Hl, decide_True by (apply Hin; eauto). rewrite Hr, (place_files_in _ _ _ _ _ Hb). done.
    + intros rel f. rewrite Hl, Hr. destruct (decide _) as [Hd|Hd].
      * intros (f0 & (b & Hb & ->)%placed & ->)%fmap_Some. eauto.
      * intros (b & Hb & ->)%placed. exfalso. apply Hd, Hin. eauto.
    + rewrite Hl, Hm. by case_decide.
    + intros p Hp. rewrite Hl, Hr, place_files_other by done. rewrite decide_False; [done|]. rewrite Hps.
      intros (kv & -> & _)%list_elem_of_fmap. apply Hp. by exists kv.1.
Qed.

(** The manifest of the hypervisor's files. *)
Definition manifest_of : snapshotManifest :=
  mkManifest (path_string dir) (merge_sort entry_le ((λ kv, (String.concat "/" kv.1, Z.of_nat (length kv.2))) <$> map_to_list t)).
Definition payload_of : bytes := json_print (manifest_json manifest_of).
Hypothesis Hpayload : Z.of_nat (length payload_of) < 2 ^ 63.

Lemma below_synced fs : synced fs → below dir fs = (λ b, mkFile b true) <$> t.
Proof.
  intros [Hin Honly _ _]. apply map_eq. intros rel. apply option_eq. intros f. rewrite below_lookup, lookup_fmap, fmap_Some. split.
  - intros [_ (b & Hb & ->)%Honly]. eauto.
  - intros (b & Hb & ->). split; [|by apply Hin]. apply (Htree rel). by apply elem_of_dom.
Qed.

Lemma buildManifest_synced fs : synced fs → buildManifest dir fs = manifest_of.
Proof.
  intros Hs. unfold buildManifest, manifest_of. rewrite (below_synced fs Hs), map_to_list_fmap, <- list_fmap_compose. done.
Qed.

Lemma manifest_entries e : e ∈ sm_Files manifest_of ↔ ∃ rel b, t !! rel = Some b ∧ e = (String.concat "/" rel, Z.of_nat (length b)).
Proof.
  unfold manifest_of. cbn [sm_Files]. rewrite merge_sort_Permutation, list_elem_of_fmap. split.
  - intros ([rel b] & -> & Hin%elem_of_map_to_list). eauto.
  - intros (rel & b & Hb & ->). exists (rel, b). split; [done|]. by apply elem_of_map_to_list.
Qed.

Lemma manifest_sizes : sizes_ok (sm_Files manifest_of).
Proof. apply Forall_forall. intros e (rel & b & Hb & ->)%manifest_entries. simpl. pose proof (Hsmall _ _ Hb). lia. Qed.

Lemma verify_spec fs :
  verifyManifest dir manifest_of fs = true ↔ ∀ rel b, t !! rel = Some b → ∃ f, fs !! (dir ++ rel) = Some f ∧ length (fi_data f) = length b.
Proof.
  unfold verifyManifest. rewrite forallb_forall. split.
  - intros Hall rel b Hb. assert (Hin : (String.concat "/" rel, Z.of_nat (length b)) ∈ sm_Files manifest_of) by (apply manifest_entries; eauto).
    apply list_elem_of_In, Hall in Hin. destruct (Htree rel ltac:(by apply elem_of_dom)) as [Hne Hp]. cbn [fst snd] in Hin. rewrite Join_concat in Hin by done.
    destruct (fs !! (dir ++ rel)) as [f|]; [|done]. exists f. split; [done|]. apply Z.eqb_eq in Hin. lia.
  - intros Hall e (rel & b & Hb & ->)%list_elem_of_In%manifest_entries. destruct (Htree rel ltac:(by apply elem_of_dom)) as [Hne Hp]. cbn [fst snd].
    rewrite Join_concat by done. destruct (Hall rel b Hb) as (f & -> & Hl). apply Z.eqb_eq. lia.
Qed.

(** A moment at which a power cut does no harm. *)
Definition safe (fs : FS) : Prop :=
  fs !! mp = None ∨
  ∃ s, sn_ID s = snapID ∧ wf_snapshot s ∧ marker_ok time_text root s payload_of fs ∧
       ∀ rel f, fs !! (dir ++ rel) = Some f → ∃ b, t !! rel = Some b ∧ f = mkFile b true.

(** Whatever passes the checks of a restore after a power cut has the hypervisor's files, byte for byte. *)
Lemma safe_restores fs fs' broken m :
  safe fs → crash fs fs' → check_source time_parse root broken snapID fs' = Ok m →
  m = manifest_of ∧ ∀ rel b, t !! rel = Some b → fi_data <$> fs' !! (dir ++ rel) = Some b.
Proof.
  intros Hsafe Hc. unfold check_source. destruct (Read time_parse broken root snapID fs') as [s'|] eqn:Hr; [|done].
  destruct Hsafe as [Hn|(s & Hid & Hwf & Hm & Hfiles)].
  { exfalso. revert Hr. unfold Read. destruct (broken _); [done|]. fold mp. destruct (fs' !! mp) as [f|] eqn:E; [|done].
    apply Hc in E as (? & ? & _). congruence. }
  rewrite <- Hid in Hr. destruct (crash_reads time_text time_parse time_reads root s payload_of fs fs' broken s' Hwf Hm Hc Hr) as [-> Hp]. rewrite Hid in Hp.
  destruct (broken _); [done|]. destruct (fs' !! payloadPath root snapID) as [f|]; [|done]. injection Hp as ->.
  unfold payload_of. rewrite (manifest_roundtrip manifest_of manifest_sizes). destruct (verifyManifest _ _ _) eqn:Hv; [|done]. intros [= <-]. split; [done|].
  intros rel b Hb. destruct (proj1 (verify_spec fs') Hv rel b Hb) as (f' & Hf' & _). rewrite Hf'. destruct (Hc _ _ Hf') as (f0 & Hf0 & Hd).
  destruct (Hfiles rel f0 Hf0) as (b' & Hb' & ->). simpl in *. congruence.
Qed.

Lemma safe_removed fs : safe fs → safe (RemoveAll dir fs).
Proof.
  assert (Hmp : ∀ p, ¬ dir `prefix_of` p → RemoveAll dir fs !! p = fs !! p) by (intros p Hp; rewrite RemoveAll_lookup; by rewrite decide_False).
  intros [Hn|(s & Hid & Hwf & Hm & Hf)]; [left; rewrite Hmp; [done|apply mp_outside]|right]. exists s. split_and!; [done|done| |].
  - intros m. unfold marker_ok in *. rewrite Hid in *. rewrite !Hmp by (apply mp_outside || apply pp_outside). apply Hm.
  - intros rel f. rewrite RemoveAll_lookup, decide_True by by exists rel. done.
Qed.

Lemma rmall_safe works r : (∀ fs, fs ∈ rn_seen r → safe fs) → safe (rn_fs r) → (∀ fs, fs ∈ rn_seen (rmall works dir r) → safe fs) ∧ safe (rn_fs (rmall works dir r)).
Proof.
  intros Hs Hc. unfold rmall. destruct works; [|done]. cbn [step rn_seen rn_fs]. split; [|by apply safe_removed].
  intros fs [?| ->%list_elem_of_singleton]%elem_of_app; [by apply Hs|by apply safe_removed].
Qed.

Definition nothing_left (fs : FS) : Prop := (∀ rel, fs !! (dir ++ rel) = None) ∧ fs !! mp = None ∧ (fs0 !! pp = None → fs !! pp = None).

Lemma nothing_left_rmall r : rn_fs r !! mp = None → (fs0 !! pp = None → rn_fs r !! pp = None) → nothing_left (rn_fs (rmall true dir r)).
Proof.
  intros Hm Hp. unfold rmall. cbn [step rn_fs]. split_and!.
  - intros rel. rewrite RemoveAll_lookup. rewrite decide_True; [done|]. by exists rel.
  - rewrite RemoveAll_lookup. by rewrite decide_False by apply mp_outside.
  - intros H0. rewrite RemoveAll_lookup. rewrite decide_False by apply pp_outside. by apply Hp.
Qed.

(** What a snapshot's end leaves: on success a record that reads and a source that verifies, with the files on the disk;
    on failure nothing, if removing works. *)
Definition committed (io : TakeIO) (snap : Snapshot) (fs : FS) : Prop :=
  Read time_parse (λ _, false) root snapID fs = Ok snap ∧ check_source time_parse root (λ _, false) snapID fs = Ok manifest_of ∧
  ∀ rel b, t !! rel = Some b → fs !! (dir ++ rel) = Some (mkFile b true).

Lemma commit_safe io id kind r r' res :
  rn_fs r = place_files dir t fs0 → (∀ fs, fs ∈ rn_seen r → fs !! mp = None) → wf_id id →
  commit_snapshot time_text root io snapID id kind r = (r', res) →
  (∀ fs, fs ∈ rn_seen r' → safe fs) ∧
  match res with
  | Ok snap => snap = mkSnapshot snapID id kind (Z.of_nat (length payload_of)) "committed" (ti_now io) ∧ committed io snap (rn_fs r')
  | Err e => (∀ p, wi_remove (ti_write io) p = true) → ti_rmall io = true → nothing_left (rn_fs r')
  end.
Proof.
  intros Hr Hseen Hid. unfold commit_snapshot. fold dir. destruct (fsyncSnapDir (ti_fsync io) dir r) as [r1 ok] eqn:Ef.
  destruct (fsync_ok r r1 Hr Hseen _ _ Ef) as (Hs1 & Hm1 & Hok).
  assert (Hpp1 : fs0 !! pp = None → rn_fs r1 !! pp = None).
  { intros H0. unfold fsyncSnapDir in Ef. assert (Hp : rn_fs r !! pp = None) by (rewrite Hr, place_files_other; [done|apply pp_outside]).
    destruct (ti_fsync io); simplify_eq; rewrite (proj1 (fsync_walk _ _)), Hp; by case_decide. }
  assert (Hsafe1 : (∀ fs, fs ∈ rn_seen r1 → safe fs) ∧ safe (rn_fs r1)) by (split; [intros fs Hfs; left; by apply Hs1|by left]).
  assert (Hbad : ∀ e, (∀ fs, fs ∈ rn_seen (rmall (ti_rmall io) dir r1) → safe fs) ∧
    match (@Err take_error Snapshot e) with Ok _ => False | Err _ => (∀ p, wi_remove (ti_write io) p = true) → ti_rmall io = true → nothing_left (rn_fs (rmall (ti_rmall io) dir r1)) end).
  { intros e. split; [apply (rmall_safe _ _ (proj1 Hsafe1) (proj2 Hsafe1))|]. intros _ ->. by apply nothing_left_rmall. }
  destruct ok; cbn [negb]; [|intros [= <- <-]; apply (Hbad TkFsync)]. destruct (ti_walk io); cbn [negb]; [|intros [= <- <-]; apply (Hbad TkManifest)].
  specialize (Hok eq_refl). rewrite (buildManifest_synced _ Hok). fold payload_of.
  set (snap := mkSnapshot snapID id kind (Z.of_nat (length payload_of)) "committed" (ti_now io)).
  assert (Hwf : wf_snapshot snap) by (split; [done|split; [apply Nat2Z.is_nonneg|exact Hpayload]]). destruct r1 as [f1 s1]. cbn [rn_fs rn_seen] in *.
  destruct (Write time_text (ti_write io) root snap payload_of (mkRun f1 s1)) as [r2 res2] eqn:Ew.
  destruct (Write_moments time_text root snap payload_of f1 s1 snap_plain_id Hm1 _ _ _ Ew) as [[Hw2 (tail & Hs2 & Htail)] Hres].
  assert (Hwsafe : ∀ fs, writing time_text root snap payload_of f1 fs → safe fs).
  { intros fs [Ho Hmk]. right. exists snap. split_and!; [done|done|exact Hmk|]. intros rel f. rewrite Ho.
    - apply (sy_only _ Hok).
    - intros Hc. apply pp_outside. exists rel. symmetry. exact Hc.
    - intros Hc. apply mp_outside. exists rel. symmetry. exact Hc. }
  assert (Hsafe2 : (∀ fs, fs ∈ rn_seen r2 → safe fs) ∧ safe (rn_fs r2)).
  { split; [|by apply Hwsafe]. intros fs. rewrite Hs2, elem_of_app. intros [?|Hin]; [by apply Hsafe1|]. eapply Forall_forall in Htail; [|exact Hin]. by apply Hwsafe. }
  destruct res2 as [[]|e]; intros [= <- <-].
  - split; [apply Hsafe2|]. split; [done|]. destruct (Hres eq_refl) as (Hlen & data & Hd & Hm2 & Hp2).
    assert (Hfiles : ∀ rel b, t !! rel = Some b → rn_fs r2 !! (dir ++ rel) = Some (mkFile b true)).
    { intros rel b Hb. rewrite (wr_others _ _ _ _ _ _ Hw2).
      - by apply (sy_in _ Hok).
      - intros Hc. apply pp_outside. exists rel. symmetry. exact Hc.
      - intros Hc. apply mp_outside. exists rel. symmetry. exact Hc. }
    assert (HR : Read time_parse (λ _, false) root snapID (rn_fs r2) = Ok snap).
    { unfold Read. cbn [snap sn_ID] in Hm2, Hp2. rewrite Hm2. cbn [fi_data]. rewrite (commit_roundtrip _ _ time_reads snap data Hwf Hd). cbn [sn_CommitMarker snap].
      change (String.eqb "committed" "") with false. cbn match. rewrite Hp2. cbn [fi_data]. by rewrite (proj2 (Z.eqb_eq _ _) Hlen). }
    split_and!; [done| |done]. unfold check_source. rewrite HR. cbn [snap sn_ID] in Hp2. rewrite Hp2. cbn [fi_data]. unfold payload_of.
    rewrite (manifest_roundtrip manifest_of manifest_sizes). fold dir. rewrite (proj2 (verify_spec (rn_fs r2))); [done|].
    intros rel b Hb. rewrite (Hfiles rel b Hb). by eexists.
  - split; [apply (rmall_safe _ _ (proj1 Hsafe2) (proj2 Hsafe2))|]. intros Hrm ->.
    destruct (Write_failed time_text (ti_write io) root snap payload_of f1 s1 r2 e snap_plain_id Hrm Hm1 Ew) as [[_ Heq]|[Hp Hm]];
      apply nothing_left_rmall; rewrite ?Heq; done.
Qed.

Lemma nothing_left_start : nothing_left fs0.
Proof. split_and!; done. Qed.

End take.

Section spec.
Context {V : Type} `{!Hypervisor V, !SnapHypervisor V, !SnapLaws V}.
Context (time_text : Time → option string) (time_parse : string → option Time).
Hypothesis time_reads : ∀ t s, time_text t = Some s → time_parse s = Some t.
Context (root : list string).

(** The machine after the pause, and the files the hypervisor then writes. *)
Definition paused (id : SandboxID) (m : Machine V) : V := wo_hv (call id RPause (mc_world m)).1.
Definition image (id : SandboxID) (m : Machine V) : tree := (hv_snapshot id (paused id m)).2.

(** An identifier nobody used, and files whose sizes an [int64] can hold. *)
Record fresh_take (snapID : string) (id : SandboxID) (m : Machine V) : Prop := {
  ft_plain : plain_segment snapID;
  ft_dir : ∀ rel, mc_fs m !! (snapshotDirPath root snapID ++ rel) = None;
  ft_marker : mc_fs m !! markerPath root snapID = None;
  ft_small : ∀ rel b, image id m !! rel = Some b → Z.of_nat (length b) < 2 ^ 63;
  ft_payload : Z.of_nat (length (payload_of root snapID (image id m))) < 2 ^ 63;
  ft_id : wf_id id
}.

Lemma call_hv id q (w : World V) : (call id q w).1 = mkWorld (wo_driver w) (wo_host w) (hv_call id q (wo_hv w)).1 ∧ (call id q w).2 = (hv_call id q (wo_hv w)).2.
Proof. unfold call. by destruct (hv_call id q (wo_hv w)). Qed.

Lemma commit_not_resume io snapID id kind r r' : commit_snapshot time_text root io snapID id kind r ≠ (r', Err TkResume).
Proof.
  unfold commit_snapshot. destruct (fsyncSnapDir _ _ _) as [r1 ok]. destruct ok; cbn [negb]; [|done]. destruct (ti_walk io); cbn [negb]; [|done].
  cbv zeta. match goal with |- context [Write ?a ?b ?c ?d ?e ?f] => destruct (Write a b c d e f) as [r2 [u|we]] end; congruence.
Qed.

Lemma resumed_runs (alive : bool) id (w w' : World V) rr u :
  send alive id RResume w = (w', rr) → put204 rr = Ok u → hv_vm (wo_hv w') id = Some "Running"%string.
Proof.
  intros Es Hr. destruct alive; cbn [send] in Es; [|by simplify_eq]. unfold put204, expect in Hr. destruct rr as [| |s b]; try done.
  destruct (bool_decide_reflect (s ∈ [204])) as [->%list_elem_of_singleton|]; [|done].
  destruct (call_hv id RResume w) as [Hw2 Hr2]. rewrite Es in Hw2, Hr2. cbn [fst snd] in *. subst w'. cbn [wo_hv].
  destruct (hv_call id RResume (wo_hv w)) as [v' rep] eqn:Ev. cbn [fst snd] in *. subst rep. by eapply law_resumed.
Qed.

(** C24: Taking a snapshot.  Whenever a power cut falls into the call, a source that passes the checks of a restore afterwards
    has the files the hypervisor wrote, byte for byte.  On success the record reads back, the source passes the checks,
    and the machine runs again.  After every other end the machine has been asked to resume if the hypervisor answered the
    pause and the caller's context did not end before ([cancelled_snapshot_stays_paused]), and nothing is left, if removing
    works, except when resuming fails: then the files stay without a record. *)
Lemma take_snapshot_spec io id kind (m : Machine V) snapID seen m' res :
  ti_id io = Some snapID → fresh_take snapID id m → TakeSnapshot time_text root io id kind m = (seen, m', res) →
  (∀ fs fs' broken mf, fs ∈ seen → crash fs fs' → check_source time_parse root broken snapID fs' = Ok mf →
     ∀ rel b, image id m !! rel = Some b → fi_data <$> fs' !! (snapshotDirPath root snapID ++ rel) = Some b) ∧
  (put204 (hv_call id RPause (wo_hv (mc_world m))).2 = Ok tt → ti_mkdir io = true → ti_ctx io = Never →
     wo_hv (mc_world m') = (hv_call id RResume (hv_snapshot id (paused id m)).1.1).1) ∧
  match res with
  | Ok snap => sn_ID snap = snapID ∧ sn_Kind snap = kind ∧ sn_SandboxID snap = id ∧
               committed time_parse root snapID (image id m) io snap (mc_fs m') ∧ hv_vm (wo_hv (mc_world m')) id = Some "Running"%string
  | Err TkResume => (∀ rel b, image id m !! rel = Some b → mc_fs m' !! (snapshotDirPath root snapID ++ rel) = Some (mkFile b false)) ∧
                    mc_fs m' !! markerPath root snapID = None
  | Err _ => (∀ p, wi_remove (ti_write io) p = true) → ti_rmall io = true → nothing_left root snapID (mc_fs m) (mc_fs m')
  end.
Proof.
  intros Hid [Hpl Hdir Hmk Hsm Hpay Hwf]. unfold TakeSnapshot. rewrite Hid.
  assert (Htree : ∀ rel, rel ∈ dom (image id m) → rel ≠ [] ∧ Forall plain_segment rel) by (intros rel; apply law_tree).
  assert (Hcut : ∀ fs fs' broken mf, safe time_text root snapID (image id m) fs → crash fs fs' → check_source time_parse root broken snapID fs' = Ok mf →
     ∀ rel b, image id m !! rel = Some b → fi_data <$> fs' !! (snapshotDirPath root snapID ++ rel) = Some b).
  { intros fs fs' broken mf Hs Hc Hk. eapply (safe_restores time_text time_parse time_reads root snapID (image id m) Htree Hsm); eauto. }
  assert (Hstart : safe time_text root snapID (image id m) (mc_fs m)) by by left.
  pose proof (nothing_left_start root snapID (mc_fs m) Hdir Hmk) as Hnone.
  destruct (ti_mkdir io) eqn:Hmd; cbn [negb].
  2:{ intros [= <- <- <-]. split_and!; [|done|done]. intros fs fs' broken mf ->%list_elem_of_singleton. by apply Hcut. }
  destruct (call_hv id RPause (mc_world m)) as [Hw1 Hr1].
  destruct (send (pause_sent (ti_ctx io)) id RPause (mc_world m)) as [w1 pr] eqn:Esend.
  destruct (put204 pr) as [[]|e] eqn:Epr.
  2:{ intros [= <- <- <-]. split_and!.
      - intros fs fs' broken mf Hin. apply Hcut. refine (proj1 (rmall_safe time_text root snapID Hpl (image id m) (ti_rmall io) (start (mc_fs m)) _ Hstart) _ Hin). by intros ? ->%list_elem_of_singleton.
      - intros Ha _ Hn. rewrite Hn in Esend. cbn [send pause_sent] in Esend. rewrite Esend in Hr1. cbn [snd] in Hr1. by rewrite <- Hr1, Epr in Ha.
      - intros _ ->. by apply nothing_left_rmall. }
  assert (Hw : w1 = (call id RPause (mc_world m)).1 ∧ wo_hv w1 = paused id m).
  { unfold send in Esend. destruct (pause_sent (ti_ctx io)); [|injection Esend as <- <-; discriminate Epr]. unfold paused. by rewrite Esend. }
  destruct Hw as [_ Hp]. rewrite Hp.
  destruct (send_snapshot (ti_ctx io) id (paused id m)) as [[v sr] t] eqn:Es.
  destruct (send (resume_sent (ti_ctx io)) id RResume (mkWorld (wo_driver w1) (wo_host w1) v)) as [w2 rr] eqn:Er.
  assert (Hnever : ti_ctx io = Never → wo_hv w2 = (hv_call id RResume (hv_snapshot id (paused id m)).1.1).1).
  { intros Hn. rewrite Hn in Es, Er. cbn [send send_snapshot resume_sent] in Es, Er. rewrite Es. cbn [fst].
    destruct (call_hv id RResume (mkWorld (wo_driver w1) (wo_host w1) v)) as [H2 _]. rewrite Er in H2. cbn [fst] in H2. by rewrite H2. }
  set (r1 := step (place_files (snapshotDirPath root snapID) t) (start (mc_fs m))).
  assert (Hm1 : ∀ fs, fs ∈ rn_seen r1 → fs !! markerPath root snapID = None).
  { cbn [r1 step start rn_seen rn_fs app]. intros fs [-> | [-> | ?%not_elem_of_nil]%elem_of_cons]%elem_of_cons; [done| |done].
    rewrite place_files_other; [done|]. by apply mp_outside. }
  assert (Hsafe1 : (∀ fs, fs ∈ rn_seen r1 → safe time_text root snapID (image id m) fs) ∧ safe time_text root snapID (image id m) (rn_fs r1)).
  { split; [intros fs Hin; left; by apply Hm1|]. left. apply Hm1. cbn [r1 step start rn_seen rn_fs app]. apply elem_of_cons. right. by apply list_elem_of_singleton. }
  destruct (put204 sr) as [[]|e] eqn:Esr.
  2:{ intros [= <- <- <-]. split_and!; [|intros _ _; exact Hnever|].
      - intros fs fs' broken mf Hin. apply Hcut. exact (proj1 (rmall_safe time_text root snapID Hpl (image id m) (ti_rmall io) r1 (proj1 Hsafe1) (proj2 Hsafe1)) _ Hin).
      - intros _ ->. apply nothing_left_rmall; [done|..]; cbn [r1 step rn_fs start]; rewrite place_files_other by (by apply mp_outside || by apply pp_outside); done. }
  assert (Hst : hv_snapshot id (paused id m) = (v, sr, t)).
  { revert Es. unfold send_snapshot. destruct (ti_ctx io) as [| |[]|]; [done|done| | |done].
    - destruct (hv_snapshot id (paused id m)) as [[v0 s0] t0]. intros [= <- <- <-]. discriminate Esr.
    - intros [= <- <- <-]. discriminate Esr. }
  assert (Himg : image id m = t) by (unfold image; by rewrite Hst). rewrite Himg in *.
  destruct (put204 rr) as [[]|e] eqn:Err'.
  2:{ intros [= <- <- <-]. split_and!; [|intros _ _; exact Hnever|..].
      - intros fs fs' broken mf Hin. apply Hcut. by apply Hsafe1.
      - intros rel b Hb. by apply place_files_in.
      - cbn [mc_fs r1 step rn_fs start]. rewrite place_files_other by by apply mp_outside. done. }
  destruct (commit_snapshot time_text root io snapID id kind r1) as [r2 res2] eqn:Ec. intros [= <- <- <-].
  destruct (commit_safe time_text time_parse time_reads root snapID Hpl t (mc_fs m) Htree Hsm Hdir Hmk Hpay io id kind r1 r2 res2 eq_refl Hm1 Hwf Ec) as [Hs2 Hres].
  split_and!; [|intros _ _; exact Hnever|].
  - intros fs fs' broken mf Hin. apply Hcut. by apply Hs2.
  - destruct res2 as [snap|e].
    + destruct Hres as [-> Hcom]. split_and!; try done. cbn [mc_world]. by apply (resumed_runs _ _ _ _ _ _ Er Err').
    + destruct e; try done. exfalso. revert Ec. apply commit_not_resume.
Qed.

(** A caller whose context ends between the pause and the resume leaves the machine as the snapshot left it: no resume is
    sent. *)
Lemma cancelled_snapshot_stays_paused io id kind (m : Machine V) snapID :
  ti_id io = Some snapID → ti_mkdir io = true → ti_ctx io = AtResume →
  put204 (hv_call id RPause (wo_hv (mc_world m))).2 = Ok tt →
  wo_hv (mc_world (TakeSnapshot time_text root io id kind m).1.2) = (hv_snapshot id (paused id m)).1.1.
Proof.
  intros Hid Hmd Hctx Hp. unfold TakeSnapshot, paused. rewrite Hid, Hmd, Hctx. cbn [negb send pause_sent send_snapshot resume_sent].
  destruct (call_hv id RPause (mc_world m)) as [_ H2]. rewrite <- H2 in Hp. destruct (call id RPause (mc_world m)) as [w pr]. cbn [fst snd] in *. rewrite Hp.
  destruct (hv_snapshot id (wo_hv w)) as [[v sr] t]. cbn [fst snd]. destruct (put204 sr); done.
Qed.

(** ** Removing a snapshot *)

(** The record and the directory go, nothing else does. *)
Lemma remove_snapshot_spec snapID fs :
  plain_segment snapID →
  ∃ fs', RemoveSnapshot root (λ _, false) false snapID fs = (fs', Ok tt) ∧
  fs' !! payloadPath root snapID = None ∧ fs' !! markerPath root snapID = None ∧ (∀ rel, fs' !! (snapshotDirPath root snapID ++ rel) = None) ∧
  ∀ p, p ≠ payloadPath root snapID → p ≠ markerPath root snapID → ¬ snapshotDirPath root snapID `prefix_of` p → fs' !! p = fs !! p.
Proof.
  intros Hp. unfold RemoveSnapshot. destruct (Remove (λ _, false) root snapID (start fs)) as [r res] eqn:E.
  destruct (Remove_spec root snapID (start fs) r res ltac:(by destruct Hp as (_ & _ & _ & ?)) E) as (-> & Hpp & Hmp & Ho).
  eexists. split; [done|]. split_and!.
  - rewrite RemoveAll_lookup. by case_decide.
  - rewrite RemoveAll_lookup. by case_decide.
  - intros rel. rewrite RemoveAll_lookup. rewrite decide_True; [done|]. by exists rel.
  - intros p H1 H2 H3. rewrite RemoveAll_lookup. rewrite decide_False by done. by apply Ho.
Qed.

(** The identifier is not checked: the empty one takes every snapshot away, the parent directory the whole state. *)
Lemma remove_snapshot_unchecked base name fs :
  root = base ++ [name] → plain_segment name →
  (∀ p, base `prefix_of` p → (RemoveSnapshot root (λ _, false) false ".." fs).1 !! p = None) ∧
  (∀ p, root `prefix_of` p → (RemoveSnapshot root (λ _, false) false "" fs).1 !! p = None).
Proof.
  intros Hr (_ & _ & Hdd & _). assert (H1 : snapshotDirPath root ".." = base).
  { unfold snapshotDirPath, Join. change (Split ".." "/"%char) with [".."]%string. cbn [fold_left]. rewrite Hr, reverse_app. cbn.
    rewrite (proj2 (String.eqb_neq _ _) Hdd). apply reverse_involutive. }
  assert (H2 : snapshotDirPath root "" = root).
  { unfold snapshotDirPath, Join. change (Split "" "/"%char) with [""]%string. cbn [fold_left clean_step]. apply reverse_involutive. }
  split; intros p Hp; unfold RemoveSnapshot; cbn [Remove andb fst]; rewrite RemoveAll_lookup, ?H1, ?H2; by rewrite decide_True.
Qed.

(** A stopped machine has no hypervisor to pause: its snapshot always fails. *)
Lemma stopped_snapshot_fails io id kind (m : Machine V) snapID :
  ti_id io = Some snapID → ti_mkdir io = true → (hv_call id RPause (wo_hv (mc_world m))).2 = Refused →
  (TakeSnapshot time_text root io id kind m).2 = Err TkPause.
Proof.
  intros Hid Hmd Hr. unfold TakeSnapshot. rewrite Hid, Hmd. cbn [negb]. destruct (call_hv id RPause (mc_world m)) as [_ H2].
  unfold send. destruct (pause_sent (ti_ctx io)); [|done].
  destruct (call id RPause (mc_world m)) as [w pr]. cbn [snd] in H2. subst pr. by rewrite Hr.
Qed.

End spec.

(** ** Examples *)

Module ToySnap.

(** The configuration the toy hypervisor writes: one disk, one network device, a vsock. *)
Definition config : json :=
  JObj [("disks", JArr [JObj [("path", JStr ("/disks/" +:+ SandboxID_String example_id +:+ ".raw"))]]);
        ("net", JArr [JObj [("mac", JStr "52:54:00:00:00:01"); ("tap", JStr "nxg-0")]]); ("vsock", JObj [("socket", JStr "/run/parent.vsock")])]%string.

Definition files : tree := <[["config.json"%string] := json_print config]> {[["memory-ranges"%string] := chars "pages"]}.

Definition snapshot (id : SandboxID) (v : Toy.VMM) : Toy.VMM * Reply * tree :=
  match v !! id with Some (Some _) => (v, Answer 204 BOther, files) | _ => (v, Answer 500 BOther, ∅) end.
Definition restore (id : SandboxID) (t : tree) (v : Toy.VMM) : Toy.VMM * Reply :=
  match v !! id with Some _ => (<[id := Some "Paused"%string]> v, Answer 204 BOther) | None => (v, Refused) end.

#[global] Instance toy_snap : SnapHypervisor Toy.VMM := { hv_snapshot := snapshot; hv_restore := restore }.

Lemma config_plain : plain_segment "config.json" ∧ plain_segment "memory-ranges".
Proof. split; (split_and!; try done); apply (bool_decide_eq_true_1 _); vm_compute; reflexivity. Qed.

#[global] Instance toy_snap_laws : SnapLaws Toy.VMM.
Proof.
  split; simpl.
  - intros id v v' b. unfold Toy.toy_call. destruct (v !! id) as [[st|]|] eqn:E; try done. intros [= <- <-]. by rewrite lookup_insert_eq.
  - intros id v rel. unfold snapshot. destruct config_plain as [Hc Hm]. destruct (v !! id) as [[st|]|]; simpl; try (intros H; by apply elem_of_dom in H as [b Hb]; rewrite lookup_empty in Hb).
    intros [b Hb]%elem_of_dom. unfold files in Hb. apply lookup_insert_Some in Hb as [[<- _]|[_ [<- _]%lookup_singleton_Some]]; (split; [done|by apply Forall_singleton]).
  - intros id id' v Hne. unfold snapshot. by destruct (v !! id) as [[st|]|].
  - intros id id' t v Hne. unfold restore. destruct (v !! id); simpl; [|done]. by rewrite lookup_insert_ne.
Qed.

End ToySnap.

Definition w_root : list string := ["state"; "snapshots"]%string.
Definition w_disk : list string := ["disks"; SandboxID_String example_id +:+ ".raw"]%string.
Definition w_machine : Machine Toy.VMM := mkMachine w_started {[w_disk := mkFile (chars "old") true]} ∅.
Definition w_take_io : TakeIO := mkTakeIO Never (Some "5a5a"%string) true None true 77 (mkWriteIO WOk WOk (λ _, true)) true.

Lemma w_fresh_take : fresh_take w_root "5a5a" example_id w_machine.
Proof.
  assert (Hpl : plain_segment "5a5a") by (split_and!; try done; apply (bool_decide_eq_true_1 _); vm_compute; reflexivity).
  split; [done| | | | |reflexivity].
  - intros rel. unfold snapshotDirPath. rewrite (Join_plain _ _ Hpl). by apply lookup_singleton_ne.
  - by apply lookup_singleton_ne.
  - assert (Him : image example_id w_machine = ToySnap.files) by (vm_compute; reflexivity). rewrite Him. unfold ToySnap.files. intros rel b Hb.
    apply lookup_insert_Some in Hb as [[_ <-]|[_ [_ <-]%lookup_singleton_Some]]; vm_compute; reflexivity.
  - vm_compute. reflexivity.
Qed.

(** A snapshot of a running machine succeeds, and the machine runs afterwards. *)
Lemma take_snapshot_spec_witness :
  hv_vm (wo_hv (mc_world (TakeSnapshot Decimal.text w_root w_take_io example_id KindTransient w_machine).1.2)) example_id = Some "Running"%string ∧
  is_ok (check_source Decimal.parse w_root (λ _, false) "5a5a" (mc_fs (TakeSnapshot Decimal.text w_root w_take_io example_id KindTransient w_machine).1.2)) = true.
Proof.
  destruct (TakeSnapshot Decimal.text w_root w_take_io example_id KindTransient w_machine) as [[seen m'] res] eqn:E.
  assert (Hres : is_ok res = true) by (change res with (seen, m', res).2; rewrite <- E; vm_compute; reflexivity).
  destruct (take_snapshot_spec Decimal.text Decimal.parse Decimal.reads w_root w_take_io example_id KindTransient w_machine "5a5a" seen m' res eq_refl w_fresh_take E) as (_ & _ & H).
  destruct res as [snap|]; [|discriminate Hres]. destruct H as (_ & _ & _ & (_ & Hc & _) & Hr). cbn [fst snd]. rewrite Hc. exact (conj Hr eq_refl).
Defined.
