(* ===== verification/Forks.v ===== *)
(** * internal/core/driver/cloudhypervisor: forking

    The rest of [fork.go] and [prepareChildRestoreDir] of [fork_disk.go]: the per-child copies of the disks, the restore
    directory with its rewritten configuration, the two ways a child is started, and ForkFrom. *)

From stdpp Require Import prelude countable gmap strings list pretty sorting.
From Stdlib Require Import ZArith Ascii Lia.
From S2P Require Import Prelude GoStrings GoIO GoPath GoJson Domain Sandbox Lifecycle StoreIface Store Recovery Netns Disks Hypervisor Artifact ForkConfig Snapshots.

(** ** Copies *)

(** The path an absolute name stands for. *)
Definition abs (p : string) : list string := Join [] p.

(** What the operating system answers a child: how far each copy gets ([None] is all the way), and the outcome of each
    further step. *)
Record SpawnIO := mkSpawnIO {
  si_copy : string → option nat;
  si_mkdir : bool;
  si_read : bool;
  si_link : string → bool;
  si_writecfg : bool;
  si_netns : option NetnsRuntime;
  si_polls : nat;
  si_vmm : option Z;
  si_iid : option string;
  si_write_iid : bool
}.

Definition reflinkCopy (io : SpawnIO) (src dst : string) (fs : FS) : FS * bool :=
  match fs !! abs src with
  | None => (fs, false)
  | Some f =>
      match si_copy io src with
      | None => (<[abs dst := mkFile (fi_data f) false]> fs, true)
      | Some n => (<[abs dst := mkFile (take n (fi_data f)) false]> fs, false)
      end
  end.

Definition remove_children (pairs : list (string * string)) (fs : FS) : FS := foldl (λ fs pc, delete (abs pc.2) fs) fs pairs.

(** On a failure the copies made so far are removed. *)
Fixpoint copy_disks (io : SpawnIO) (made pairs : list (string * string)) (fs : FS) : FS * bool :=
  match pairs with
  | [] => (fs, true)
  | (p, c) :: pairs =>
      let '(fs, ok) := reflinkCopy io p c fs in
      if ok then copy_disks io (made ++ [(p, c)]) pairs fs else (remove_children made (delete (abs c) fs), false)
  end.

(** ** The restore directory *)

Inductive spawn_error :=
| SpCopy | SpPrepare | SpNetns | SpNotRunning | SpVMM | SpRestore | SpResume | SpInstanceID.

Fixpoint link_files (io : SpawnIO) (snapDir restoreDir : list string) (names : list string) (fs : FS) : FS * bool :=
  match names with
  | [] => (fs, true)
  | n :: names =>
      if String.eqb n "config.json" then link_files io snapDir restoreDir names fs
      else
        match fs !! (snapDir ++ [n]) with
        | Some f => if si_link io n then link_files io snapDir restoreDir names (<[restoreDir ++ [n] := f]> fs) else (fs, false)
        | None => (fs, false)
        end
  end.

(** The outcome and whether the directory was made. *)
Definition prepareChildRestoreDir (io : SpawnIO) (snapDir restoreDir : list string) (cp : ChildPaths) (fs : FS) : FS * bool * bool :=
  if negb (si_mkdir io) then (fs, false, false)
  else
    match fs !! (snapDir ++ ["config.json"%string]) with
    | None => (fs, true, false)
    | Some f =>
        if negb (si_read io) then (fs, true, false)
        else
          match rewrite_config cp (fi_data f) with
          | Err _ => (fs, true, false)
          | Ok out =>
              let '(fs, ok) := link_files io snapDir restoreDir (dir_files snapDir fs) fs in
              if negb ok then (fs, true, false)
              else if negb (si_writecfg io) then (fs, true, false)
              else (<[restoreDir ++ ["config.json"%string] := mkFile out false]> fs, true, true)
          end
    end.

Definition tapIfNames (id : SandboxID) : string * string * string :=
  let suffix := of_chars (hex_encode (take 5 id)) in ("nxg-" +:+ suffix, "nxh-" +:+ suffix, "nxb-" +:+ suffix).

Definition tree_of (dir : list string) (fs : FS) : tree := fi_data <$> below dir fs.

Section fork.
Context {V : Type} `{!Hypervisor V, !SnapHypervisor V}.
Context (time_parse : string → option Time).
(** [cfg.SnapshotDir] and [cfg.SocketDir] *)
Context (root : list string) (sockDir : string).

Definition vsockPath (id : SandboxID) : string := filepath_Join sockDir (SandboxID_String id +:+ ".vsock").

Definition restore_dir (snapID : string) (childID : SandboxID) : list string := Join root (snapID +:+ "-restore-" +:+ SandboxID_String childID).

(** The re-executed child starts the hypervisor, restores and resumes; it gives up if the restore is refused. *)
Definition child_restore (id : SandboxID) (t : tree) (v : V) : V :=
  let '(v, r) := hv_restore id t (hv_spawn id v) in
  match put204 r with Ok _ => (hv_call id RResume v).1 | Err _ => v end.

(** Until the machine reports that it runs or the time is up. *)
Fixpoint poll_running (id : SandboxID) (n : nat) (w : World V) : World V * bool :=
  match n with
  | O => (w, false)
  | S n =>
      let '(w, r) := call id RInfo w in
      match VMInfoFull r with (_, RSRunning, None) => (w, true) | _ => poll_running id n w end
  end.

Definition with_fs (f : FS → FS) (m : Machine V) : Machine V := mkMachine (mc_world m) (f (mc_fs m)) (mc_procs m).
Definition with_world (w : World V) (m : Machine V) : Machine V := mkMachine w (mc_fs m) (mc_procs m).
Definition with_host (h : Host) (w : World V) : World V := mkWorld (wo_driver w) h (wo_hv w).

Definition remove_vsock (id : SandboxID) (h : Host) : Host := mkHost (ho_sock h) (ho_vsock h ∖ {[id]}) (ho_iid h) (ho_vfsock h) (ho_stage h) (ho_procs h).
Definition remove_sock (id : SandboxID) (h : Host) : Host := mkHost (ho_sock h ∖ {[id]}) (ho_vsock h) (ho_iid h) (ho_vfsock h) (ho_stage h) (ho_procs h).
Definition set_iid (id : SandboxID) (iid : string) (h : Host) : Host := mkHost (ho_sock h) (ho_vsock h) (<[id := iid]> (ho_iid h)) (ho_vfsock h) (ho_stage h) (ho_procs h).

(** What a child is spawned from. *)
Record ChildPlan := mkPlan {
  pl_snapID : string;
  pl_pairs : list (string * string);
  pl_tap : string;
  pl_vsock : string
}.

Definition needsChildDir (pl : ChildPlan) : bool :=
  negb (bool_decide (pl_pairs pl = [])) || negb (String.eqb (pl_tap pl) "") || negb (String.eqb (pl_vsock pl) "").

Definition plan_paths (pl : ChildPlan) (childID : SandboxID) : ChildPaths :=
  mkChildPaths (disk_rewrites (pl_pairs pl)) (pl_tap pl) (if String.eqb (pl_tap pl) "" then "" else (tapIfNames childID).1.1)
    (pl_vsock pl) (if String.eqb (pl_vsock pl) "" then "" else vsockPath childID).

Definition cleanupDisk (pl : ChildPlan) (childID : SandboxID) (m : Machine V) : Machine V :=
  let m := with_fs (λ fs, remove_children (pl_pairs pl) (if needsChildDir pl then RemoveAll (restore_dir (pl_snapID pl) childID) fs else fs)) m in
  if String.eqb (pl_vsock pl) "" then m else with_world (with_host (remove_vsock childID (wo_host (mc_world m))) (mc_world m)) m.

Definition drop_restore_dir (pl : ChildPlan) (childID : SandboxID) : FS → FS :=
  if needsChildDir pl then RemoveAll (restore_dir (pl_snapID pl) childID) else λ fs, fs.

(** The world once the child of the new namespace runs: it restores from [src] on its own. *)
Definition registered (pl : ChildPlan) (childID : SandboxID) (src : tree) (rt : NetnsRuntime) (w : World V) : World V :=
  let d := wo_driver w in let h := wo_host w in
  mkWorld (set_nets d (<[childID := mkNetState rt (rt_PerimConn rt) false]> (dv_nets d)))
    (mkHost ({[childID]} ∪ ho_sock h) (if String.eqb (pl_vsock pl) "" then ho_vsock h else {[childID]} ∪ ho_vsock h) (ho_iid h) (ho_vfsock h) (ho_stage h) ({[rt_ChildPID rt]} ∪ ho_procs h))
    (child_restore childID src (wo_hv w)).

(** The child with a network device. *)
Definition spawn_netns (io : SpawnIO) (pl : ChildPlan) (childID : SandboxID) (src : tree) (m : Machine V) : Machine V * result spawn_error string :=
  match si_netns io with
  | None => (cleanupDisk pl childID m, Err SpNetns)
  | Some rt =>
      let '(w, running) := poll_running childID (si_polls io) (registered pl childID src rt (mc_world m)) in
      if negb running then (cleanupDisk pl childID (with_world (clearState childID w) m), Err SpNotRunning)
      else
        let m := with_fs (drop_restore_dir pl childID) m in
        match si_iid io with
        | None => (with_fs (remove_children (pl_pairs pl)) (with_world (clearState childID w) m), Err SpInstanceID)
        | Some iid => (with_world (if si_write_iid io then with_host (set_iid childID iid (wo_host w)) w else w) m, Ok iid)
        end
  end.

(** The child without one: the parent restores and resumes. *)
Definition spawn_plain (io : SpawnIO) (pl : ChildPlan) (childID : SandboxID) (src : tree) (m : Machine V) : Machine V * result spawn_error string :=
  match si_vmm io with
  | None => (cleanupDisk pl childID m, Err SpVMM)
  | Some pid =>
      let w := mc_world m in let h := wo_host w in
      let kill (w : World V) := mkWorld (wo_driver w) (with_procs (remove_sock childID (wo_host w)) (ho_procs (wo_host w) ∖ {[pid]})) (hv_kill childID (wo_hv w)) in
      let w := mkWorld (wo_driver w) (mkHost ({[childID]} ∪ ho_sock h) (ho_vsock h) (ho_iid h) (ho_vfsock h) (ho_stage h) ({[pid]} ∪ ho_procs h)) (hv_spawn childID (wo_hv w)) in
      let '(v, r) := hv_restore childID src (wo_hv w) in
      let w := mkWorld (wo_driver w) (wo_host w) v in
      match put204 r with
      | Err _ => (cleanupDisk pl childID (with_world (kill w) m), Err SpRestore)
      | Ok _ =>
          let w := if String.eqb (pl_vsock pl) "" then w else with_host (add_vsock childID (wo_host w)) w in
          let '(w, r) := call childID RResume w in
          match put204 r with
          | Err _ => (cleanupDisk pl childID (with_world (kill w) m), Err SpResume)
          | Ok _ =>
              let m := with_fs (drop_restore_dir pl childID) m in
              match si_iid io with
              | None => (with_fs (remove_children (pl_pairs pl)) (with_world (kill w) m), Err SpInstanceID)
              | Some iid =>
                  let w := if si_write_iid io then with_host (set_iid childID iid (wo_host w)) w else w in
                  (mkMachine w (mc_fs m) (<[childID := pid]> (mc_procs m)), Ok iid)
              end
          end
      end
  end.

Definition spawnChildFromSnapshot (io : SpawnIO) (pl : ChildPlan) (childID : SandboxID) (m : Machine V) : Machine V * result spawn_error string :=
  let snapDir := snapshotDirPath root (pl_snapID pl) in
  let restoreDir := restore_dir (pl_snapID pl) childID in
  let go src m := if String.eqb (pl_tap pl) "" then spawn_plain io pl childID src m else spawn_netns io pl childID src m in
  if negb (needsChildDir pl) then go (tree_of snapDir (mc_fs m)) m
  else
    let '(fs, ok) := copy_disks io [] (pl_pairs pl) (mc_fs m) in
    if negb ok then (with_fs (λ _, fs) m, Err SpCopy)
    else
      let '(fs, made, ok) := prepareChildRestoreDir io snapDir restoreDir (plan_paths pl childID) fs in
      if negb ok then (with_fs (λ _, let fs := remove_children (pl_pairs pl) fs in if (made : bool) then RemoveAll restoreDir fs else fs) m, Err SpPrepare)
      else go (tree_of restoreDir fs) (with_fs (λ _, fs) m).

(** ** ForkFrom *)

Inductive fork_error := FkSource (e : source_error) | FkConfig | FkRootDisk | FkNetTap | FkVsock | FkExtra | FkChild (i : nat) (e : spawn_error).

(** An absent device is the empty name. *)
Definition optional {A} (r : result find_error A) (none : A) (e : fork_error) : result fork_error A :=
  match r with Ok a => Ok a | Err ErrNone => Ok none | Err _ => Err e end.

Definition fork_plan (broken : list string → bool) (snap : Snapshot) (fs : FS) : result fork_error (string * list string * string * string) :=
  match check_source time_parse root broken (sn_ID snap) fs with
  | Err e => Err (FkSource e)
  | Ok _ =>
      let cfg := snapshotDirPath root (sn_ID snap) ++ ["config.json"%string] in
      match (if broken cfg then None else fs !! cfg) with
      | None => Err FkConfig
      | Some f =>
          let* rootDisk := optional (findRootDiskPath (fi_data f) (sn_SandboxID snap)) ""%string FkRootDisk in
          let* tap := optional (findNetTap (fi_data f)) ""%string FkNetTap in
          let* vsock := optional (findVsockPath (fi_data f)) ""%string FkVsock in
          let* extras := if String.eqb rootDisk "" then Ok [] else match collectExtraDiskPaths (fi_data f) rootDisk with Ok l => Ok l | Err _ => Err FkExtra end in
          Ok (rootDisk, extras, tap, vsock)
      end
  end.

(** From child [i] on; the identifiers of the children not reached stay empty. *)
Fixpoint fork_children (ios : nat → SpawnIO) (mk : SandboxID → ChildPlan) (i : nat) (ids : list SandboxID) (m : Machine V)
    : Machine V * list string * option fork_error :=
  match ids with
  | [] => (m, [], None)
  | id :: ids =>
      match spawnChildFromSnapshot (ios i) (mk id) id m with
      | (m, Err e) => (m, replicate (S (length ids)) ""%string, Some (FkChild i e))
      | (m, Ok iid) => let '(m, iids, e) := fork_children ios mk (S i) ids m in (m, iid :: iids, e)
      end
  end.

Definition reapTransientSnapshot (snap : Snapshot) (fs : FS) : FS :=
  if String.eqb (sn_Kind snap) KindTransient then RemoveAll (snapshotDirPath root (sn_ID snap)) (rn_fs (Remove (λ _, false) root (sn_ID snap) (start fs)).1) else fs.

Definition ForkFrom (broken : list string → bool) (ios : nat → SpawnIO) (snap : Snapshot) (childIDs : list SandboxID) (m : Machine V)
    : Machine V * list string * option fork_error :=
  match fork_plan broken snap (mc_fs m) with
  | Err e => (m, [], Some e)
  | Ok (rootDisk, extras, tap, vsock) =>
      let mk id := mkPlan (sn_ID snap) (child_pairs id rootDisk extras) tap vsock in
      match fork_children ios mk 0 childIDs m with
      | (m, iids, Some e) => (m, iids, Some e)
      | (m, iids, None) => (with_fs (reapTransientSnapshot snap) m, iids, None)
      end
  end.

End fork.

(** ** The copies *)

Definition kids (pairs : list (string * string)) : list (list string) := (λ pc, abs pc.2) <$> pairs.

Lemma remove_children_lookup pairs fs q : remove_children pairs fs !! q = if decide (q ∈ kids pairs) then None else fs !! q.
Proof.
  revert fs. induction pairs as [|[p c] pairs IH]; intros fs.
  { rewrite decide_False; [done|]. apply not_elem_of_nil. }
  change (remove_children ((p, c) :: pairs) fs) with (remove_children pairs (delete (abs c) fs)). rewrite IH. destruct (decide (q ∈ kids pairs)) as [Hq|Hq].
  - rewrite decide_True; [done|]. apply elem_of_cons. by right.
  - destruct (decide (q = abs c)) as [->|Hne].
    + rewrite lookup_delete_eq, decide_True; [done|]. apply elem_of_cons. by left.
    + rewrite lookup_delete_ne by done. rewrite decide_False; [done|]. intros [?|?]%elem_of_cons; done.
Qed.

Definition copied (fs0 fs : FS) (pc : string * string) : Prop := ∃ f, fs0 !! abs pc.1 = Some f ∧ fs !! abs pc.2 = Some (mkFile (fi_data f) false).

Lemma copy_disks_spec io made pairs fs0 fs fs' ok :
  (∀ q, q ∉ kids made → fs !! q = fs0 !! q) → (∀ q, q ∈ kids (made ++ pairs) → fs0 !! q = None) → NoDup (kids (made ++ pairs)) →
  (∀ p, p ∈ pairs.*1 → abs p ∉ kids (made ++ pairs)) → copy_disks io made pairs fs = (fs', ok) →
  if ok then (∀ q, q ∉ kids (made ++ pairs) → fs' !! q = fs0 !! q) ∧ (∀ q, q ∈ kids made → fs' !! q = fs !! q) ∧ ∀ pc, pc ∈ pairs → copied fs0 fs' pc
  else fs' = fs0.
Proof.
  revert made fs. induction pairs as [|[p c] pairs IH]; intros made fs Hfs H0 Hnd Hpar; cbn [copy_disks].
  { rewrite app_nil_r in *. intros [= <- <-]. split_and!; [done|done|]. by intros pc ?%not_elem_of_nil. }
  assert (Happ : made ++ (p, c) :: pairs = (made ++ [(p, c)]) ++ pairs) by by rewrite <- app_assoc.
  assert (Hp : abs p ∉ kids made). { intros Hin. apply (Hpar p); [apply elem_of_cons; by left|]. unfold kids. rewrite fmap_app. apply elem_of_app. by left. }
  assert (Hfail : ∀ d, remove_children made (delete (abs c) (match d with Some f => <[abs c := f]> fs | None => fs end)) = fs0).
  { intros d. apply map_eq. intros q. rewrite remove_children_lookup. destruct (decide (q ∈ kids made)) as [Hq|Hq].
    - symmetry. apply H0. unfold kids in *. rewrite fmap_app. apply elem_of_app. by left.
    - destruct (decide (q = abs c)) as [->|Hne].
      + rewrite lookup_delete_eq. symmetry. apply H0. unfold kids. rewrite fmap_app. apply elem_of_app. right. apply elem_of_cons. by left.
      + rewrite lookup_delete_ne by done. destruct d; [rewrite lookup_insert_ne by done|]; by apply Hfs. }
  unfold reflinkCopy. rewrite (Hfs (abs p)) by done. destruct (fs0 !! abs p) as [f|] eqn:Ef; [|intros [= <- <-]; apply (Hfail None)].
  destruct (si_copy io p) as [n|]; [intros [= <- <-]; apply (Hfail (Some (mkFile (take n (fi_data f)) false)))|].
  intros Hc. rewrite Happ in *. apply IH in Hc; [|..].
  - destruct ok; [|done]. destruct Hc as (H1 & H2 & H3). split_and!; [done| |].
    + intros q Hq. rewrite H2 by (unfold kids in *; rewrite fmap_app; apply elem_of_app; by left). rewrite lookup_insert_ne; [done|].
      intros <-. unfold kids in Hnd. rewrite <- Happ, fmap_app in Hnd. apply NoDup_app in Hnd as (_ & Hd & _). apply (Hd _ Hq). apply elem_of_cons. by left.
    + intros pc [-> | Hin]%elem_of_cons; [|by apply H3]. exists f. split; [done|]. cbn [snd]. rewrite H2; [by rewrite lookup_insert_eq|].
      unfold kids. rewrite fmap_app. apply elem_of_app. right. by apply list_elem_of_singleton.
  - intros q Hq. unfold kids in Hq. rewrite fmap_app, not_elem_of_app in Hq. destruct Hq as [Hq1 Hq2]. rewrite lookup_insert_ne by (intros <-; apply Hq2; by apply list_elem_of_singleton). by apply Hfs.
  - done.
  - done.
  - intros p' Hp'. apply Hpar. apply elem_of_cons. by right.
Qed.

(** ** The restore directory *)

Lemma link_files_spec io snapDir restoreDir names fs fs' ok :
  (∀ n k, snapDir ++ [n] ≠ restoreDir ++ [k]) → link_files io snapDir restoreDir names fs = (fs', ok) →
  (∀ q, ¬ restoreDir `prefix_of` q → fs' !! q = fs !! q) ∧ (∀ n, fs' !! (snapDir ++ [n]) = fs !! (snapDir ++ [n])) ∧
  (ok = true → ∀ n, n ∈ names → n ≠ "config.json"%string → ∃ f, fs !! (snapDir ++ [n]) = Some f ∧ fs' !! (restoreDir ++ [n]) = Some f) ∧
  (∀ n, n ∉ names → fs' !! (restoreDir ++ [n]) = fs !! (restoreDir ++ [n])).
Proof.
  intros Hne. revert fs. induction names as [|n names IH]; intros fs; cbn [link_files].
  { intros [= <- <-]. split_and!; try done. by intros _ n ?%not_elem_of_nil. }
  destruct (String.eqb_spec n "config.json") as [->|Hn].
  { intros H. destruct (IH fs H) as (H1 & H2 & H3 & H4). split_and!; [done|done| |].
    - intros Hok n [-> | Hin]%elem_of_cons Hc; [done|by apply H3].
    - intros k Hk. apply H4. intros Hin. apply Hk, elem_of_cons. by right. }
  destruct (fs !! (snapDir ++ [n])) as [f|] eqn:Ef; [|by intros [= <- <-]; split_and!]. destruct (si_link io n); [|by intros [= <- <-]; split_and!].
  intros H. destruct (IH _ H) as (H1 & H2 & H3 & H4). split_and!.
  - intros q Hq. rewrite H1 by done. rewrite lookup_insert_ne; [done|]. intros <-. apply Hq. by eexists.
  - intros k. rewrite H2, lookup_insert_ne; [done|]. symmetry. apply Hne.
  - intros Hok k Hk Hc. destruct (decide (k ∈ names)) as [Hin|Hni].
    + destruct (H3 Hok k Hin Hc) as (g & Hg & Hg'). rewrite lookup_insert_ne in Hg by (symmetry; apply Hne). eauto.
    + apply elem_of_cons in Hk as [-> | ?]; [|done]. exists f. split; [done|]. rewrite H4 by done. by rewrite lookup_insert_eq.
  - intros k Hk. rewrite H4 by (intros ?; apply Hk, elem_of_cons; by right). rewrite lookup_insert_ne; [done|].
    intros Hc. apply app_inv_head in Hc as [= ->]. apply Hk, elem_of_cons. by left.
Qed.

(** What the restore directory holds: the configuration rewritten, every other file of the snapshot as it is. *)
Record prepared (snapDir restoreDir : list string) (cp : ChildPaths) (fs fs' : FS) : Prop := {
  pr_config : ∃ f out, fs !! (snapDir ++ ["config.json"%string]) = Some f ∧ rewrite_config cp (fi_data f) = Ok out ∧
                       fs' !! (restoreDir ++ ["config.json"%string]) = Some (mkFile out false);
  pr_files : ∀ n f, n ≠ "config.json"%string → fs !! (snapDir ++ [n]) = Some f → fs' !! (restoreDir ++ [n]) = Some f
}.

Lemma prepare_spec io snapDir restoreDir cp fs fs' made ok :
  (∀ n k, snapDir ++ [n] ≠ restoreDir ++ [k]) → prepareChildRestoreDir io snapDir restoreDir cp fs = (fs', made, ok) →
  (∀ q, ¬ restoreDir `prefix_of` q → fs' !! q = fs !! q) ∧ (made = false → fs' = fs) ∧ (ok = true → prepared snapDir restoreDir cp fs fs').
Proof.
  intros Hne. unfold prepareChildRestoreDir. destruct (si_mkdir io); cbn [negb]; [|by intros [= <- <- <-]].
  destruct (fs !! (snapDir ++ ["config.json"%string])) as [f|] eqn:Ef; [|by intros [= <- <- <-]]. destruct (si_read io); cbn [negb]; [|by intros [= <- <- <-]].
  destruct (rewrite_config cp (fi_data f)) as [out|] eqn:Er; [|by intros [= <- <- <-]].
  destruct (link_files io snapDir restoreDir (dir_files snapDir fs) fs) as [fs1 lk] eqn:El.
  destruct (link_files_spec _ _ _ _ _ _ _ Hne El) as (H1 & _ & H3 & _).
  destruct lk; cbn [negb]; [|by intros [= <- <- <-]; split_and!]. destruct (si_writecfg io); cbn [negb]; [|by intros [= <- <- <-]; split_and!].
  intros [= <- <- <-]. split_and!; [|done|].
  - intros q Hq. rewrite lookup_insert_ne; [by apply H1|]. intros <-. apply Hq. by eexists.
  - intros _. split; [exists f, out; split_and!; [done|done|by rewrite lookup_insert_eq]|]. intros n g Hn Hg. rewrite lookup_insert_ne.
    + destruct (H3 eq_refl n) as (g' & Hg' & Hl); [apply elem_of_dir_files; eauto|done|]. congruence.
    + intros Hc. apply app_inv_head in Hc. congruence.
Qed.

(** ** A child *)

Section child.
Context {V : Type} `{!Hypervisor V, !SnapHypervisor V, !HypervisorLaws V, !SnapLaws V}.
Context (root : list string) (sockDir : string).

Lemma info_running r i : VMInfoFull r = (i, RSRunning, None) → ∃ j, r = Answer 200 (BInfo j) ∧ vi_State j = "Running"%string.
Proof.
  destruct r as [| |s b]; try done. cbn [VMInfoFull]. destruct (Z.eqb_spec s 200) as [->|].
  - destruct b as [|cs|j]; try done. destruct (mapCHState (vi_State j)) as [st ok] eqn:E. intros [= _ -> Hok]. exists j. split; [done|].
    unfold mapCHState in E. destruct (String.eqb_spec (vi_State j) "Running"); [done|]. destruct (String.eqb (vi_State j) "Paused"); congruence.
  - destruct (s =? 500); [|done]. destruct b as [|cs|j]; try done. by destruct (isNoVM cs).
Qed.

Lemma poll_running_world id n (w : World V) w' ok :
  poll_running id n w = (w', ok) →
  wo_driver w' = wo_driver w ∧ wo_host w' = wo_host w ∧ same_others id w w' ∧ (ok = true → hv_vm (wo_hv w') id = Some "Running"%string).
Proof.
  revert w. induction n as [|n IH]; intros w; cbn [poll_running]; [by intros [= <- <-]|].
  pose proof (call_world id RInfo w) as Hc. destruct (call id RInfo w) as [w1 r]. destruct Hc as (Hcall & Hd & Hh & Hs).
  assert (Hgo : poll_running id n w1 = (w', ok) → wo_driver w' = wo_driver w ∧ wo_host w' = wo_host w ∧ same_others id w w' ∧ (ok = true → hv_vm (wo_hv w') id = Some "Running"%string)).
  { intros Hp. destruct (IH w1 Hp) as (H1 & H2 & H3 & H4). split_and!; [congruence|congruence|by etrans|done]. }
  destruct (VMInfoFull r) as [[i st] e] eqn:Ei. destruct st; try exact Hgo. destruct e; [exact Hgo|]. intros [= <- <-]. split_and!; [done..|].
  intros _. apply info_running in Ei as (j & -> & Hj). pose proof (law_info _ _ _ _ Hcall) as Hv. pose proof (law_get id id RInfo (wo_hv w) ltac:(by right)) as [_ Hg].
  rewrite Hcall in Hg. cbn [fst] in Hg. by rewrite Hg, Hv, Hj.
Qed.

Lemma child_restore_others id id' t v : id' ≠ id → hv_alive (child_restore (V:=V) id t v) id' = hv_alive v id' ∧ hv_vm (child_restore id t v) id' = hv_vm v id'.
Proof.
  intros Hne. unfold child_restore. destruct (law_restore_others id id' t (hv_spawn id v) Hne) as [H1 H2]. destruct (law_spawn_others id id' v Hne) as [H3 H4].
  destruct (hv_restore id t (hv_spawn id v)) as [v1 r]. cbn [fst] in *. destruct (put204 r); [|by rewrite H1, H2].
  destruct (law_others id id' RResume v1 Hne) as [H5 H6]. by rewrite H5, H6, H1, H2.
Qed.

Lemma registered_starting pl id src rt (w : World V) : nothing_of id w → starting id rt w (registered pl id src rt w).
Proof.
  intros [H1 H2 H3 H4 H5 H6 H7 H8]. split.
  - eexists. split; [apply lookup_insert_eq|done].
  - split; cbn [registered wo_driver wo_host wo_hv set_nets dv_nets dv_vfs dv_mem ho_sock ho_vsock ho_iid ho_vfsock ho_stage]; intros; try done.
    + by rewrite lookup_insert_ne.
    + set_solver.
    + destruct (String.eqb (pl_vsock pl) ""); set_solver.
    + by apply child_restore_others.
  - split; intros i Hi; exfalso; [by apply (H7 i)|by apply (H8 i)].
  - unfold procs_of. cbn [registered wo_driver wo_host set_nets dv_nets ho_procs]. rewrite lookup_insert_eq. cbn [nt_rt]. set_solver.
Qed.

(** Nothing of a child that has not been started. *)
Definition unborn (id : SandboxID) (m : Machine V) : Prop := nothing_of id (mc_world m) ∧ hv_alive (wo_hv (mc_world m)) id = false.

(** The names a child needs are free, and apart from each other. *)
Record fresh_child (pl : ChildPlan) (id : SandboxID) (fs : FS) : Prop := {
  fc_kids : ∀ q, q ∈ kids (pl_pairs pl) → fs !! q = None;
  fc_nodup : NoDup (kids (pl_pairs pl));
  fc_parents : ∀ p, p ∈ (pl_pairs pl).*1 → abs p ∉ kids (pl_pairs pl);
  fc_dir : ∀ rel, fs !! (restore_dir root (pl_snapID pl) id ++ rel) = None;
  fc_outside : ∀ q, q ∈ kids (pl_pairs pl) → ¬ restore_dir root (pl_snapID pl) id `prefix_of` q ∧ ¬ snapshotDirPath root (pl_snapID pl) `prefix_of` q;
  fc_snap : plain_segment (pl_snapID pl)
}.

(** A child that runs: its disks are copies of the parent's as they are now, it was restored from the configuration
    rewritten to them, and nothing else on the disk or of another sandbox changed. *)
Record child_ok (io : SpawnIO) (pl : ChildPlan) (id : SandboxID) (m m' : Machine V) (iid : string) : Prop := {
  ck_copies : ∀ pc, pc ∈ pl_pairs pl → copied (mc_fs m) (mc_fs m') pc;
  ck_rest : ∀ q, q ∉ kids (pl_pairs pl) → mc_fs m' !! q = mc_fs m !! q;
  ck_others : same_others id (mc_world m) (mc_world m');
  ck_running : hv_vm (wo_hv (mc_world m')) id = Some "Running"%string;
  ck_source : ∃ rt src f out, si_netns io = Some rt ∧ mc_fs m !! (snapshotDirPath root (pl_snapID pl) ++ ["config.json"%string]) = Some f ∧
      rewrite_config (plan_paths sockDir pl id) (fi_data f) = Ok out ∧ src !! ["config.json"%string] = Some out ∧
      wo_hv (mc_world m') = wo_hv (poll_running id (si_polls io) (registered pl id src rt (mc_world m))).1;
  ck_iid : si_iid io = Some iid
}.

Lemma restore_dir_eq snapID id : plain_segment snapID → restore_dir root snapID id = root ++ [snapID +:+ "-restore-" +:+ SandboxID_String id].
Proof.
  intros Hp. unfold restore_dir. apply Join_plain, suffixed_plain.
  - by destruct Hp as (_ & _ & _ & ?).
  - rewrite chars_app, not_elem_of_app. split; [|apply id_noslash]. apply (bool_decide_eq_true_1 _). by vm_compute.
  - rewrite chars_app, length_app. simpl. lia.
Qed.

Lemma snap_restore_apart snapID id n k : plain_segment snapID → snapshotDirPath root snapID ++ [n] ≠ restore_dir root snapID id ++ [k].
Proof.
  intros Hp. rewrite restore_dir_eq by done. unfold snapshotDirPath. rewrite (Join_plain _ _ Hp). intros [H _]%app_inj_tail.
  apply app_inj_tail in H as [_ H]. apply (f_equal chars) in H. rewrite !chars_app in H. apply (f_equal length) in H. rewrite !length_app in H. simpl in H. lia.
Qed.

Lemma unborn_clean id m : unborn id m → clean_failure id (mc_world m) (mc_world m).
Proof. intros [Hn Ha]. by split_and!. Qed.

Lemma clean_vsock id (w0 w : World V) : clean_failure id w0 w → clean_failure id w0 (with_host (remove_vsock id (wo_host w)) w).
Proof.
  intros ([H1 H2 H3 H4 H5 H6 H7 H8] & Hs & Hp & Ha). split_and!; [|etrans; [exact Hs|]|done|done].
  - split; cbn [with_host remove_vsock wo_driver wo_host ho_sock ho_vsock ho_iid ho_vfsock ho_stage]; try done. set_solver.
  - split; cbn [with_host remove_vsock wo_driver wo_host wo_hv ho_sock ho_vsock ho_iid ho_vfsock ho_stage]; intros; try done. set_solver.
Qed.

(** Taking the copies and the restore directory away gives the disk back. *)
Lemma undone (pl : ChildPlan) (id : SandboxID) (fs0 fsA fsB : FS) :
  fresh_child pl id fs0 → (∀ q, q ∉ kids (pl_pairs pl) → fsA !! q = fs0 !! q) → (∀ q, ¬ restore_dir root (pl_snapID pl) id `prefix_of` q → fsB !! q = fsA !! q) →
  remove_children (pl_pairs pl) (RemoveAll (restore_dir root (pl_snapID pl) id) fsB) = fs0 ∧
  RemoveAll (restore_dir root (pl_snapID pl) id) (remove_children (pl_pairs pl) fsB) = fs0.
Proof.
  intros Hf HA HB. assert (Hq : ∀ q, (if decide (q ∈ kids (pl_pairs pl)) then None else if decide (restore_dir root (pl_snapID pl) id `prefix_of` q) then None else fsB !! q) = fs0 !! q).
  { intros q. case_decide as H1; [symmetry; by apply (fc_kids _ _ _ Hf)|]. case_decide as H2; [|rewrite HB by done; by apply HA].
    destruct H2 as [k ->]. symmetry. apply (fc_dir _ _ _ Hf). }
  split; apply map_eq; intros q; rewrite <- Hq, ?remove_children_lookup, ?RemoveAll_lookup, ?remove_children_lookup; repeat case_decide; done.
Qed.

Lemma cleanup_undone (pl : ChildPlan) (id : SandboxID) (m : Machine V) (fsA : FS) :
  fresh_child pl id (mc_fs m) → needsChildDir pl = true → (∀ q, q ∉ kids (pl_pairs pl) → fsA !! q = mc_fs m !! q) →
  ∀ m2 w, (∀ q, ¬ restore_dir root (pl_snapID pl) id `prefix_of` q → mc_fs m2 !! q = fsA !! q) → mc_world m2 = w → clean_failure id (mc_world m) w →
  mc_fs (cleanupDisk root pl id m2) = mc_fs m ∧ clean_failure id (mc_world m) (mc_world (cleanupDisk root pl id m2)).
Proof.
  intros Hf Hn HA m2 w HB Hw Hc. destruct (undone pl id _ fsA (mc_fs m2) Hf HA HB) as [Hu _]. unfold cleanupDisk. rewrite Hn.
  destruct (String.eqb (pl_vsock pl) ""); cbn [with_fs with_world mc_fs mc_world]; (split; [done|]); rewrite Hw; [done|by apply clean_vsock].
Qed.

(** One networked child.  Either it runs as described, or the call leaves the disk as it was and nothing of the child:
    no process, socket, table entry or hypervisor. *)
Lemma spawn_child_spec io pl id (m m' : Machine V) res :
  pl_tap pl ≠ ""%string → fresh_child pl id (mc_fs m) → unborn id m → spawnChildFromSnapshot root sockDir io pl id m = (m', res) →
  match res with Ok iid => child_ok io pl id m m' iid | Err _ => mc_fs m' = mc_fs m ∧ clean_failure id (mc_world m) (mc_world m') end.
Proof.
  intros Htap Hf Hu. pose proof (unborn_clean id m Hu) as Hclean. unfold spawnChildFromSnapshot.
  assert (Hn : needsChildDir pl = true) by (unfold needsChildDir; rewrite (proj2 (String.eqb_neq _ _) Htap); by rewrite orb_true_r).
  rewrite Hn, (proj2 (String.eqb_neq _ _) Htap). cbn [negb]. destruct (copy_disks io [] (pl_pairs pl) (mc_fs m)) as [fsA okA] eqn:EA.
  pose proof (copy_disks_spec io [] (pl_pairs pl) (mc_fs m) (mc_fs m) fsA okA ltac:(done) (fc_kids _ _ _ Hf) (fc_nodup _ _ _ Hf) (fc_parents _ _ _ Hf) EA) as HA.
  destruct okA; cbn [negb]; [|intros [= <- <-]; done]. destruct HA as (HA & _ & Hcop). cbn [app] in HA.
  set (sd := snapshotDirPath root (pl_snapID pl)) in *. set (rd := restore_dir root (pl_snapID pl) id) in *.
  destruct (prepareChildRestoreDir io sd rd (plan_paths sockDir pl id) fsA) as [[fsB made] okB] eqn:EB.
  destruct (prepare_spec _ _ _ _ _ _ _ _ (λ n k, snap_restore_apart (pl_snapID pl) id n k (fc_snap _ _ _ Hf)) EB) as (HB & Hmade & Hprep).
  pose proof (undone pl id _ fsA fsB Hf HA HB) as [Hu1 Hu2]. destruct okB; cbn [negb].
  2:{ intros [= <- <-]. split; [|done]. cbn [with_fs mc_fs]. destruct made; [done|].
      rewrite (Hmade eq_refl) in *. rewrite <- Hu1. apply map_eq. intros q. rewrite !remove_children_lookup, RemoveAll_lookup.
      repeat case_decide; try done. destruct H0 as [k ->]. rewrite HA by done. apply (fc_dir _ _ _ Hf). }
  specialize (Hprep eq_refl). set (src := tree_of rd fsB). unfold spawn_netns. destruct (si_netns io) as [rt|] eqn:Ert.
  2:{ intros [= <- <-]. by apply (cleanup_undone pl id m fsA Hf Hn HA (with_fs (λ _, fsB) m) (mc_world m)). }
  cbn [with_fs mc_world]. destruct (poll_running id (si_polls io) (registered pl id src rt (mc_world m))) as [w1 ok1] eqn:Ep.
  destruct (poll_running_world _ _ _ _ _ Ep) as (Hd & Hh & Hs & Hrun).
  pose proof (starting_same _ _ _ _ _ Hd Hh Hs (registered_starting pl id src rt (mc_world m) (proj1 Hu))) as Hst.
  destruct ok1; cbn [negb].
  2:{ intros [= <- <-]. apply (cleanup_undone pl id m fsA Hf Hn HA (with_world (clearState id w1) (with_fs (λ _, fsB) m)) (clearState id w1)); [done|done|].
      by eapply starting_cleared. }
  unfold drop_restore_dir. rewrite Hn. destruct (si_iid io) as [iid|] eqn:Ei.
  2:{ intros [= <- <-]. split; [exact Hu1|]. by eapply starting_cleared. }
  intros [= <- <-].
  assert (Hfs : ∀ q, q ∉ kids (pl_pairs pl) → RemoveAll rd fsB !! q = mc_fs m !! q).
  { intros q Hq. rewrite RemoveAll_lookup. case_decide as Hp; [destruct Hp as [k ->]; symmetry; apply (fc_dir _ _ _ Hf)|]. rewrite HB by done. by apply HA. }
  split.
  - intros pc Hin. destruct (Hcop pc Hin) as (f & Hf1 & Hf2). exists f. split; [done|]. cbn [with_world with_fs mc_fs]. rewrite RemoveAll_lookup.
    assert (Hk : abs pc.2 ∈ kids (pl_pairs pl)) by (apply list_elem_of_fmap; by exists pc). destruct (fc_outside _ _ _ Hf _ Hk) as [Ho _].
    rewrite decide_False by done. by rewrite HB.
  - done.
  - cbn [with_world mc_world]. etrans; [apply (sg_others _ _ _ _ Hst)|]. destruct (si_write_iid io); [|done]. split; try done. intros id' Hne. cbn. by rewrite lookup_insert_ne.
  - cbn [with_world mc_world]. destruct (si_write_iid io); by apply Hrun.
  - destruct (pr_config _ _ _ _ _ Hprep) as (f & out & Hc1 & Hc2 & Hc3). exists rt, src, f, out. rewrite Ep. split_and!; [done| |done| |].
    + rewrite <- HA; [done|]. intros Hk. destruct (fc_outside _ _ _ Hf _ Hk) as [_ Ho]. apply Ho. by eexists.
    + unfold src, tree_of. rewrite lookup_fmap, (proj2 (below_lookup rd fsB _ (mkFile out false))); [done|]. by split.
    + cbn [with_world mc_world fst]. by destruct (si_write_iid io).
  - done.
Qed.

End child.

(** ** Isolation and partial failure *)

Section isolation.
Context {V : Type} `{!Hypervisor V, !SnapHypervisor V, !HypervisorLaws V, !SnapLaws V}.
Context (time_parse : string → option Time) (root : list string) (sockDir : string).

Lemma fork_plan_config broken snap fs rootDisk extras tap vsock :
  fork_plan time_parse root broken snap fs = Ok (rootDisk, extras, tap, vsock) → rootDisk ≠ ""%string → tap ≠ ""%string →
  ∃ f, fs !! (snapshotDirPath root (sn_ID snap) ++ ["config.json"%string]) = Some f ∧
    findRootDiskPath (fi_data f) (sn_SandboxID snap) = Ok rootDisk ∧ collectExtraDiskPaths (fi_data f) rootDisk = Ok extras ∧ findNetTap (fi_data f) = Ok tap.
Proof.
  unfold fork_plan. intros H Hr Ht. destruct (check_source _ _ _ _ _); [|done]. destruct (broken _); [done|].
  destruct (fs !! _) as [f|] eqn:Ef; [|done]. apply rbind_ok_inv in H as (rd & H1 & (tp & H2 & (vs & H3 & (ex & H4 & H5)%rbind_ok_inv)%rbind_ok_inv)%rbind_ok_inv).
  injection H5 as -> -> -> ->. exists f. split; [done|]. rewrite (proj2 (String.eqb_neq _ _) Hr) in H4. split_and!.
  - unfold optional in H1. destruct (findRootDiskPath _ _) as [?|[]]; congruence.
  - by destruct (collectExtraDiskPaths _ _); simplify_eq.
  - unfold optional in H2. destruct (findNetTap _) as [?|[]]; congruence.
Qed.

Lemma findNetTap_first config tap : findNetTap config = Ok tap → ∃ top, parse_top config = Some top ∧ first_tap top = Some tap.
Proof.
  unfold findNetTap, with_top. destruct (parse_top config) as [top|]; [|done]. intros H. exists top. split; [done|]. unfold first_tap.
  destruct (top !! "net"%string) as [raw|]; [|done]. cbn [mbind option_bind]. destruct (to_objs raw) as [[|n ns]|]; [done| |done]. cbn [default from_option id head mbind option_bind].
  by destruct (n !! "tap"%string ≫= to_string); simplify_eq.
Qed.

(** C25: A child of a networked machine with a root disk, when ForkFrom starts it: it runs, restored from a configuration in
    which every disk is a copy named after the child, the network device is the child's tap and the vsock the child's
    socket; every copy has the contents the parent's disk has now. *)
Lemma fork_child_isolated broken snap io id (m m' : Machine V) rootDisk extras tap vsock iid :
  fork_plan time_parse root broken snap (mc_fs m) = Ok (rootDisk, extras, tap, vsock) → rootDisk ≠ ""%string → tap ≠ ""%string →
  Forall proper (rootDisk :: extras) → let pl := mkPlan (sn_ID snap) (child_pairs id rootDisk extras) tap vsock in
  fresh_child root pl id (mc_fs m) → unborn id m → spawnChildFromSnapshot root sockDir io pl id m = (m', Ok iid) →
  hv_vm (wo_hv (mc_world m')) id = Some "Running"%string ∧ same_others id (mc_world m) (mc_world m') ∧
  (∀ pc, pc ∈ child_pairs id rootDisk extras → copied (mc_fs m) (mc_fs m') pc) ∧
  (∀ q, q ∉ kids (child_pairs id rootDisk extras) → mc_fs m' !! q = mc_fs m !! q) ∧
  ∃ rt src out top, src !! ["config.json"%string] = Some out ∧ parse_top out = Some top ∧
    wo_hv (mc_world m') = wo_hv (poll_running id (si_polls io) (registered pl id src rt (mc_world m))).1 ∧
    disk_paths top ≠ [] ∧ Forall (childs id) (disk_paths top) ∧ first_tap top = Some (tapIfNames id).1.1 ∧
    (vsock ≠ ""%string → vsock_of top = Some (vsockPath sockDir id)).
Proof.
  intros Hpl Hr Ht Hprop pl Hf Hu Hs. pose proof (spawn_child_spec root sockDir io pl id m m' (Ok iid) Ht Hf Hu Hs) as [Hcop Hrest Hoth Hrun Hsrc _].
  split_and!; [done..|]. destruct Hsrc as (rt & src & f & out & _ & Hf1 & Hrw & Hsrc & Hv). exists rt, src, out.
  destruct (fork_plan_config _ _ _ _ _ _ _ Hpl Hr Ht) as (f' & Hf' & Hroot & Hex & Htap). cbn [pl pl_snapID] in Hf1. rewrite Hf' in Hf1. injection Hf1 as ->.
  destruct (fork_disks_isolated _ id _ _ _ (plan_paths sockDir pl id) out Hroot Hr Hex Hprop eq_refl Hrw) as (top' & Ht' & Hne & Hall).
  exists top'. split_and!; try done.
  - destruct (findNetTap_first _ _ Htap) as (top & Htop & Hft). destruct (rewrite_config_spec _ _ _ _ Hrw Htop) as (top2 & Ht2 & Hc). rewrite Ht' in Ht2. injection Ht2 as ->.
    pose proof (cc_taps _ _ _ Hc) as Hct. cbn [plan_paths cp_parentTap cp_childTap pl pl_tap] in Hct. rewrite (proj2 (String.eqb_neq _ _) Ht) in Hct. by apply Hct.
  - intros Hvs. destruct (findNetTap_first _ _ Htap) as (top & Htop & _). destruct (rewrite_config_spec _ _ _ _ Hrw Htop) as (top2 & Ht2 & Hc). rewrite Ht' in Ht2. injection Ht2 as ->.
    pose proof (cc_vsock _ _ _ Hc) as Hcv. cbn [plan_paths cp_parentVsock cp_childVsock pl pl_vsock] in Hcv. rewrite (proj2 (String.eqb_neq _ _) Hvs) in Hcv. by apply Hcv.
Qed.

(** A fork whose second child fails keeps the first one running, and the transient snapshot. *)
Lemma partial_fork_orphans ios mk (id1 id2 : SandboxID) (m m1 m2 : Machine V) iid e :
  id1 ≠ id2 → pl_tap (mk id1) ≠ ""%string → pl_tap (mk id2) ≠ ""%string →
  fresh_child root (mk id1) id1 (mc_fs m) → unborn id1 m → spawnChildFromSnapshot root sockDir (ios 0%nat) (mk id1) id1 m = (m1, Ok iid) →
  fresh_child root (mk id2) id2 (mc_fs m1) → unborn id2 m1 → spawnChildFromSnapshot root sockDir (ios 1%nat) (mk id2) id2 m1 = (m2, Err e) →
  fork_children root sockDir ios mk 0 [id1; id2] m = (m2, [iid; ""%string], Some (FkChild 1 e)) ∧
  hv_vm (wo_hv (mc_world m2)) id1 = Some "Running"%string ∧ mc_fs m2 = mc_fs m1.
Proof.
  intros Hne T1 T2 F1 U1 S1 F2 U2 S2. cbn [fork_children]. rewrite S1, S2. split; [done|].
  pose proof (spawn_child_spec root sockDir _ _ _ _ _ _ T1 F1 U1 S1) as H1. destruct (spawn_child_spec root sockDir _ _ _ _ _ _ T2 F2 U2 S2) as [Hfs (_ & Hs & _)].
  split; [|done]. destruct (so_hv _ _ _ Hs id1 Hne) as [_ ->]. apply (ck_running _ _ _ _ _ _ _ _ H1).
Qed.

(** After a fork a transient snapshot is gone, a retained one is as it was. *)
Lemma reap_transient snap fs :
  plain_segment (sn_ID snap) →
  if String.eqb (sn_Kind snap) KindTransient then
    reapTransientSnapshot root snap fs !! markerPath root (sn_ID snap) = None ∧ ∀ rel, reapTransientSnapshot root snap fs !! (snapshotDirPath root (sn_ID snap) ++ rel) = None
  else reapTransientSnapshot root snap fs = fs.
Proof.
  intros Hp. unfold reapTransientSnapshot. destruct (String.eqb (sn_Kind snap) KindTransient); [|done].
  destruct (Remove (λ _, false) root (sn_ID snap) (start fs)) as [r res] eqn:E.
  destruct (Remove_spec root (sn_ID snap) (start fs) r res ltac:(by destruct Hp as (_ & _ & _ & ?)) E) as (_ & _ & Hm & _). cbn [fst]. split.
  - rewrite RemoveAll_lookup. by case_decide.
  - intros rel. rewrite RemoveAll_lookup. rewrite decide_True; [done|]. by exists rel.
Qed.

End isolation.

(** ** Examples *)

Definition w_child : SandboxID := replicate 16 "B"%char.
Definition w_took : list FS * Machine Toy.VMM * result take_error Snapshot := TakeSnapshot Decimal.text w_root w_take_io example_id KindTransient w_machine.
Definition w_snap : Snapshot := match w_took.2 with Ok s => s | Err _ => w_snapshot end.
(** The parent writes to its disk after the snapshot. *)
Definition w_later : Machine Toy.VMM := with_fs (<[w_disk := mkFile (chars "new") true]>) w_took.1.2.
Definition w_spawn_io (polls : nat) : SpawnIO := mkSpawnIO (λ _, None) true true (λ _, true) true (Some (mkRuntime 9 "/run/c.sock" "nxg-1" 200 200 6 "" "" false)) polls None (Some "iid-1"%string) true.
Definition w_root_disk : string := "/disks/" +:+ SandboxID_String example_id +:+ ".raw".
Definition w_plan : ChildPlan := mkPlan "5a5a" (child_pairs w_child w_root_disk []) "nxg-0" "/run/parent.vsock".

Lemma absent_below (dir : list string) (fs : FS) : bool_decide (map_Forall (λ p _, ¬ dir `prefix_of` p) fs) = true → ∀ rel, fs !! (dir ++ rel) = None.
Proof. intros H%bool_decide_eq_true rel. destruct (fs !! (dir ++ rel)) as [f|] eqn:E; [|done]. destruct (H _ _ E). by exists rel. Qed.

Lemma w_fresh_child : fresh_child w_root w_plan w_child (mc_fs w_later).
Proof.
  assert (Hk : kids (pl_pairs w_plan) = [abs ("/disks/" +:+ SandboxID_String w_child +:+ ".raw")]) by (vm_compute; reflexivity).
  split; rewrite ?Hk.
  - intros q ->%list_elem_of_singleton. vm_compute. reflexivity.
  - apply NoDup_singleton.
  - intros p Hp. apply (bool_decide_eq_true_1 _). assert (Hp' : p ∈ [w_root_disk]) by exact Hp. apply list_elem_of_singleton in Hp' as ->. vm_compute. reflexivity.
  - apply absent_below. vm_compute. reflexivity.
  - intros q ->%list_elem_of_singleton. split; apply (bool_decide_eq_true_1 _); vm_compute; reflexivity.
  - split_and!; try done. apply (bool_decide_eq_true_1 _). vm_compute. reflexivity.
Qed.

Lemma w_unborn : unborn w_child w_later.
Proof.
  assert (Hh : wo_host (mc_world w_later) = wo_host w_started) by (vm_compute; reflexivity).
  assert (Hd : wo_driver (mc_world w_later) = wo_driver w_started) by (vm_compute; reflexivity).
  assert (Hv : set_Forall (λ x, x.1 ≠ w_child) (ho_vfsock (wo_host w_started)) ∧ set_Forall (λ x, x.1 ≠ w_child) (ho_stage (wo_host w_started)))
    by (split; apply (bool_decide_eq_true_1 _); vm_compute; reflexivity).
  destruct Hv as [Hv Hg].
  split; [|vm_compute; reflexivity]. split; rewrite ?Hh, ?Hd.
  1-3, 6: vm_compute; reflexivity.
  1-2: apply (bool_decide_eq_true_1 _); vm_compute; reflexivity.
  - intros i Hi. by apply (Hv _ Hi).
  - intros i Hi. by apply (Hg _ Hi).
Qed.

Lemma w_proper : Forall proper [w_root_disk].
Proof. apply Forall_singleton. split; [vm_compute; reflexivity|]. apply (bool_decide_eq_true_1 _). vm_compute. reflexivity. Qed.

Lemma fork_child_isolated_witness :
  hv_vm (wo_hv (mc_world (spawnChildFromSnapshot w_root "/run" (w_spawn_io 3) w_plan w_child w_later).1)) w_child = Some "Running"%string ∧
  ∀ pc, pc ∈ child_pairs w_child w_root_disk [] → copied (mc_fs w_later) (mc_fs (spawnChildFromSnapshot w_root "/run" (w_spawn_io 3) w_plan w_child w_later).1) pc.
Proof.
  destruct (spawnChildFromSnapshot w_root "/run" (w_spawn_io 3) w_plan w_child w_later) as [m' res] eqn:E.
  assert (Hres : res = Ok "iid-1"%string) by (change res with (m', res).2; rewrite <- E; vm_compute; reflexivity). rewrite Hres in E.
  destruct (fork_child_isolated Decimal.parse w_root "/run" (λ _, false) w_snap (w_spawn_io 3) w_child w_later m' w_root_disk [] "nxg-0" "/run/parent.vsock" "iid-1"
    ltac:(vm_compute; reflexivity) ltac:(discriminate) ltac:(discriminate) w_proper w_fresh_child w_unborn E) as (H1 & _ & H3 & _).
  exact (conj H1 H3).
Defined.

(** The disk of a child is the parent's at the time of the fork, not of the snapshot: the snapshot was taken over "old". *)
Lemma fork_takes_later_disk :
  fi_data <$> mc_fs w_machine !! w_disk = Some (chars "old") ∧
  let '(m, iids, e) := ForkFrom Decimal.parse w_root "/run" (λ _, false) (λ _, w_spawn_io 3) w_snap [w_child] w_later in
  e = None ∧ iids = ["iid-1"%string] ∧ fi_data <$> mc_fs m !! abs ("/disks/" +:+ SandboxID_String w_child +:+ ".raw") = Some (chars "new").
Proof. vm_compute. repeat split. Qed.

(** Two extra disks of one kind in one directory would share the child's copy. *)
Lemma ChildExtraDiskPath_collision :
  ChildExtraDiskPath w_child "/disks/a-workspace.ext4" = ChildExtraDiskPath w_child "/disks/b-workspace.ext4".
Proof. vm_compute. reflexivity. Qed.
