(* ===== verification/ProjectConfig.v ===== *)
(** * internal/core/config: the project's and the user's settings

    [config.go], [resolve.go] and [userconfig.go].  The YAML library is not part of the program: a file is the node it
    parses to, a scalar carries its text and what the library decodes it to.  Decoding into the program's structures,
    the hand-written decoders of the lists, the checks, the search for the file and the precedence are modelled. *)

From stdpp Require Import prelude countable gmap strings list pretty.
From Stdlib Require Import ZArith Ascii Lia.
From S2P Require Import Prelude GoStrings GoIO GoPath.

(** ** Nodes *)

(** A scalar: its text, whether it is null, and what the library decodes it to as an integer and as a boolean. *)
Record scalar := mkScalar { y_text : string; y_null : bool; y_int : option Z; y_bool : option bool }.

Inductive node :=
| Scalar (s : scalar)
| Sequence (items : list node)
| Mapping (entries : list (string * node))
| Alias.

(** Null leaves a field alone. *)
Definition is_null (n : node) : bool := match n with Scalar s => y_null s | _ => false end.
Definition dec_str (n : node) : option string := match n with Scalar s => Some (if y_null s then ""%string else y_text s) | _ => None end.
Definition dec_int (n : node) : option Z := match n with Scalar s => if y_null s then Some 0 else y_int s | _ => None end.
Definition dec_bool (n : node) : option bool := match n with Scalar s => if y_null s then Some false else y_bool s | _ => None end.
Definition dec_strs (n : node) : option (list string) := match n with Scalar s => if y_null s then Some [] else None | Sequence l => mapM dec_str l | _ => None end.

(** A mapping decoded into a structure: keys are unique, and with [KnownFields] all of them are fields. *)
Definition entries_of (n : node) : option (list (string * node)) := match n with Mapping l => Some l | Scalar s => if y_null s then Some [] else None | _ => None end.

Fixpoint lookup_key (k : string) (l : list (string * node)) : option node :=
  match l with [] => None | (k', n) :: l => if String.eqb k k' then Some n else lookup_key k l end.

Definition unique (l : list (string * node)) : bool := bool_decide (NoDup l.*1).
Definition all_known (keys : list string) (l : list (string * node)) : bool := forallb (λ e, bool_decide (e.1 ∈ keys)) l.

Definition field {A} (d : node → option A) (zero : A) (k : string) (l : list (string * node)) : option A :=
  match lookup_key k l with None => Some zero | Some n => if is_null n then Some zero else d n end.

(** ** The lists *)

Record EgressSecret := mkEgressSecret { es_Env : string; es_Hosts : list string }.
Record EgressPolicy := mkEgressPolicy { ep_Host : string; ep_Paths : list string }.

Definition splitComma (s : string) : list string := Split s ","%char.

Definition parseEgressSecretShort (spec : string) : option EgressSecret :=
  if String.eqb spec "" then None
  else
    match Cut spec "@"%char with
    | None => None
    | Some (env, hostPart) =>
        if String.eqb env "" then None
        else if String.eqb hostPart "" then None
        else let hosts := splitComma hostPart in if existsb (λ h, String.eqb h "") hosts then None else Some (mkEgressSecret env hosts)
    end.

Definition secret_entry (n : node) : option EgressSecret :=
  match n with
  | Scalar s => parseEgressSecretShort (y_text s)
  | Mapping l =>
      if negb (all_known ["env"; "hosts"]%string l) || negb (unique l) then None
      else
        env ← field dec_str "" "env" l;
        hosts ← field dec_strs [] "hosts" l;
        if String.eqb env "" then None else if bool_decide (hosts = []) then None else Some (mkEgressSecret env hosts)
  | _ => None
  end.

Definition EgressSecrets_Unmarshal (n : node) : option (list EgressSecret) :=
  match n with Sequence l => mapM secret_entry l | _ => None end.

Definition policy_entry (n : node) : option EgressPolicy :=
  match n with
  | Mapping l =>
      if negb (all_known ["host"; "paths"]%string l) || negb (unique l) then None
      else
        host ← field dec_str "" "host" l;
        paths ← field dec_strs [] "paths" l;
        if String.eqb host "" then None else if bool_decide (paths = []) then None else Some (mkEgressPolicy host paths)
  | _ => None
  end.

Definition EgressPolicies_Unmarshal (n : node) : option (list EgressPolicy) :=
  match n with Sequence l => mapM policy_entry l | _ => None end.

(** A mount's mapping is decoded without a check of its keys. *)
Definition mount_entry (n : node) : option string :=
  match n with
  | Scalar s => Some (y_text s)
  | Mapping l =>
      if negb (unique l) then None
      else
        source ← field dec_str "" "source" l;
        target ← field dec_str "" "target" l;
        ro ← field dec_bool false "read_only" l;
        if String.eqb source "" then None else if String.eqb target "" then None
        else Some (source +:+ ":" +:+ target +:+ (if ro : bool then ":ro" else ""))
  | _ => None
  end.

Definition Mounts_Unmarshal (n : node) : option (list string) :=
  match n with Sequence l => mapM mount_entry l | _ => None end.

(** ** The file *)

Record EgressConfig := mkEgress { eg_Allow : list string; eg_Policy : list EgressPolicy; eg_Secrets : list EgressSecret }.
Record SandboxConfig := mkSandboxConfig {
  sc_Image : string; sc_Memory : Z; sc_VCPUs : Z; sc_Mounts : list string; sc_Agent : string; sc_Agents : list string; sc_MemoryMax : Z; sc_Nested : bool
}.
Record ImageGCConfig := mkImageGC { ig_FreeSpaceFloorGiB : Z; ig_KeepNewestBuilderImages : Z }.
Record Config := mkConfig { co_Egress : EgressConfig; co_Sandbox : SandboxConfig; co_Image : ImageGCConfig; co_BuilderMemoryMiB : Z }.

Definition zero_egress : EgressConfig := mkEgress [] [] [].
Definition zero_sandbox : SandboxConfig := mkSandboxConfig "" 0 0 [] "" [] 0 false.
Definition zero_gc : ImageGCConfig := mkImageGC 0 0.
Definition zero_config : Config := mkConfig zero_egress zero_sandbox zero_gc 0.

Definition SupportedVersion : Z := 1.
Definition MinSupportedVersion : Z := 1.

(** A structure under [KnownFields]. *)
Definition strict {A} (keys : list string) (d : list (string * node) → option A) (n : node) : option A :=
  l ← entries_of n; if all_known keys l && unique l then d l else None.

Definition egress_keys : list string := ["allow"; "policy"; "secrets"].
Definition sandbox_keys : list string := ["image"; "memory"; "vcpus"; "mounts"; "agent"; "agents"; "memory_max"; "nested"].
Definition image_keys : list string := ["free_space_floor_gib"; "keep_newest_builder_images"].
Definition builder_keys : list string := ["memory_mib"].
Definition file_keys : list string := ["version"; "egress"; "sandbox"; "image"; "builder"].

Definition dec_egress : node → option EgressConfig := strict egress_keys (λ l,
  allow ← field dec_strs [] "allow" l;
  policy ← field EgressPolicies_Unmarshal [] "policy" l;
  secrets ← field EgressSecrets_Unmarshal [] "secrets" l;
  Some (mkEgress allow policy secrets)).

Definition dec_sandbox : node → option SandboxConfig := strict sandbox_keys (λ l,
  image ← field dec_str "" "image" l;
  memory ← field dec_int 0 "memory" l;
  vcpus ← field dec_int 0 "vcpus" l;
  mounts ← field Mounts_Unmarshal [] "mounts" l;
  agent ← field dec_str "" "agent" l;
  agents ← field dec_strs [] "agents" l;
  memmax ← field dec_int 0 "memory_max" l;
  nested ← field dec_bool false "nested" l;
  Some (mkSandboxConfig image memory vcpus mounts agent agents memmax nested)).

Definition dec_image : node → option ImageGCConfig := strict image_keys (λ l,
  floor ← field dec_int 0 "free_space_floor_gib" l;
  keep ← field dec_int 0 "keep_newest_builder_images" l;
  Some (mkImageGC floor keep)).

Definition dec_builder : node → option Z := strict builder_keys (field dec_int 0 "memory_mib").

Definition dec_file : node → option (option Z * Config) := strict file_keys (λ l,
  version ← field (λ n, Some <$> dec_int n) None "version" l;
  egress ← field dec_egress zero_egress "egress" l;
  sandbox ← field dec_sandbox zero_sandbox "sandbox" l;
  image ← field dec_image zero_gc "image" l;
  builder ← field dec_builder 0 "builder" l;
  Some (version, mkConfig egress sandbox image builder)).

Inductive config_error := CeDecode | CeNoVersion | CeVersion (v : Z) | CeOverlap (host : string) (policy : bool).

(** The gated hosts, in lower case, and whether a policy names them. *)
Definition gated_hosts (eg : EgressConfig) : gmap string bool :=
  let pol : gmap string bool := list_to_map ((λ p, (ToLower (ep_Host p), true)) <$> eg_Policy eg) in
  foldl (λ g h, match g !! ToLower h with Some _ => g | None => <[ToLower h := false]> g end) pol (mjoin (es_Hosts <$> eg_Secrets eg)).

Definition validateEgressHostOverlap (eg : EgressConfig) : option (string * bool) :=
  let gated := gated_hosts eg in
  head (omap (λ h, (h,.) <$> gated !! ToLower h) (eg_Allow eg)).

(** [None] is a file the library cannot parse, an empty one included. *)
Definition parse (doc : option node) : result config_error Config :=
  match doc ≫= dec_file with
  | None => Err CeDecode
  | Some (None, _) => Err CeNoVersion
  | Some (Some v, c) =>
      if (v <? MinSupportedVersion) || (SupportedVersion <? v) then Err (CeVersion v)
      else match validateEgressHostOverlap (co_Egress c) with Some (h, p) => Err (CeOverlap h p) | None => Ok c end
  end.

(** ** Finding it *)

Inductive read_result := ReadOk (doc : option node) | ReadNotExist | ReadFails.

Inductive load_error := LeParse (e : config_error) | LeRead.

(** [dir] is the path from the root, reversed: the directory first, then its parents. *)
Fixpoint load_from (read : list string → read_result) (git : list string → bool) (dir : list string) : result load_error (option (list string * Config)) :=
  match read dir with
  | ReadOk doc => match parse doc with Ok c => Ok (Some (dir, c)) | Err e => Err (LeParse e) end
  | ReadFails => Err LeRead
  | ReadNotExist => if git dir then Ok None else match dir with [] => Ok None | _ :: parent => load_from read git parent end
  end.

Definition Load (read : list string → read_result) (git : list string → bool) (dir : list string) : result load_error (Config * option (list string)) :=
  let* r := load_from read git dir in
  Ok (match r with Some (d, c) => (c, Some d) | None => (zero_config, None) end).

(** [home]: the home directory if there is one; [xdg]: the variable. *)
Definition userConfigDir (xdg : string) (home : option string) : option string :=
  if negb (String.eqb xdg "") then Some xdg else (λ h, h +:+ "/.config") <$> home.

Inductive user_error := UeDir | UeRead | UeParse (e : config_error).

Definition LoadUserGlobal (xdg : string) (home : option string) (read : string → read_result) : result user_error Config :=
  match userConfigDir xdg home with
  | None => Err UeDir
  | Some dir =>
      match read dir with
      | ReadNotExist => Ok zero_config
      | ReadFails => Err UeRead
      | ReadOk doc => match parse doc with Ok c => Ok c | Err e => Err (UeParse e) end
      end
  end.

(** ** Precedence *)

Record Defaults := mkDefaults { df_Image : string; df_Memory : Z; df_VCPUs : Z }.
Record Flags := mkFlags { fl_Image : string; fl_Memory : option Z; fl_VCPUs : option Z; fl_EgressAllow : list string; fl_Mounts : option (list string) }.
Record Resolved := mkResolved { re_Image : string; re_MemoryMiB : Z; re_VCPUs : Z; re_EgressAllow : list string; re_Mounts : list string }.

Definition Resolve (f : Flags) (cfg : Config) (d : Defaults) : Resolved :=
  let sc := co_Sandbox cfg in
  mkResolved
    (if negb (String.eqb (fl_Image f) "") then fl_Image f else if negb (String.eqb (sc_Image sc) "") then sc_Image sc else df_Image d)
    (match fl_Memory f with Some m => m | None => if negb (sc_Memory sc =? 0) then sc_Memory sc else df_Memory d end)
    (match fl_VCPUs f with Some n => n | None => if negb (sc_VCPUs sc =? 0) then sc_VCPUs sc else df_VCPUs d end)
    (fl_EgressAllow f ++ eg_Allow (co_Egress cfg))
    (match fl_Mounts f with Some m => m | None => sc_Mounts sc end).

Definition IsAbs (p : string) : bool := HasPrefix p "/".

Definition expand_home (home : option string) (host : string) : option string :=
  if String.eqb host "~" then home
  else if HasPrefix host "~/" then (λ h, h +:+ of_chars (drop 1 (chars host))) <$> home
  else Some host.

(** [configDir] is absolute or empty. *)
Definition resolve_mount (home : option string) (configDir m : string) : option string :=
  match Cut m ":"%char with
  | None => Some m
  | Some (host, guest) =>
      host ← expand_home home host;
      let host := if negb (IsAbs host) && negb (String.eqb configDir "") then path_Clean (configDir +:+ "/" +:+ host) else host in
      Some (host +:+ ":" +:+ guest)
  end.

Definition ResolveMounts (home : option string) (configDir : string) (mounts : list string) : option (list string) := mapM (resolve_mount home configDir) mounts.

(** ** What a file that parses is *)

Lemma strict_Some {A} keys (d : list (string * node) → option A) n a :
  strict keys d n = Some a ↔ ∃ l, entries_of n = Some l ∧ Forall (λ e, e.1 ∈ keys) l ∧ NoDup l.*1 ∧ d l = Some a.
Proof.
  unfold strict, unique. rewrite bind_Some. split.
  - intros (l & Hl & Hd). exists l. destruct (all_known keys l) eqn:Hk; [|done]. destruct (bool_decide_reflect (NoDup l.*1)); [|done]. split_and!; try done.
    apply Forall_forall. intros e He. unfold all_known in Hk. rewrite forallb_forall in Hk. apply list_elem_of_In, Hk in He. by apply bool_decide_eq_true in He.
  - intros (l & Hl & Hk & Hn & Hd). exists l. split; [done|]. assert (all_known keys l = true) as ->.
    { apply forallb_forall. intros e He. apply bool_decide_eq_true. eapply Forall_forall in Hk; [exact Hk|]. by apply list_elem_of_In. }
    by rewrite bool_decide_eq_true_2.
Qed.

(** The mapping under a key, if there is one, has only the given keys. *)
Definition section_known (keys : list string) (k : string) (l : list (string * node)) : Prop :=
  ∀ n, lookup_key k l = Some n → is_null n = false → ∃ l', entries_of n = Some l' ∧ Forall (λ e, e.1 ∈ keys) l'.

Lemma field_strict {A} keys (d : list (string * node) → option A) z k l a : field (strict keys d) z k l = Some a → section_known keys k l.
Proof.
  unfold field. intros Hf n Hn Hnull. rewrite Hn, Hnull in Hf. apply strict_Some in Hf as (l' & Hl & Hk & _). eauto.
Qed.

Lemma field_Forall {A} (P : A → Prop) (d : node → option (list A)) k l xs :
  (∀ n xs, d n = Some xs → Forall P xs) → field d [] k l = Some xs → Forall P xs.
Proof. intros Hd. unfold field. destruct (lookup_key k l) as [n|]; [|by intros [= <-]]. destruct (is_null n); [by intros [= <-]|]. apply Hd. Qed.

Lemma mapM_Forall {A B} (P : B → Prop) (f : A → option B) l xs : (∀ a b, f a = Some b → P b) → mapM f l = Some xs → Forall P xs.
Proof. intros Hf Hm. apply mapM_Some_1 in Hm. induction Hm; constructor; eauto. Qed.

Definition good_secret (s : EgressSecret) : Prop := es_Env s ≠ ""%string ∧ es_Hosts s ≠ [].
Definition good_policy (p : EgressPolicy) : Prop := ep_Host p ≠ ""%string ∧ ep_Paths p ≠ [].

Lemma Split_some s c : Split s c ≠ [].
Proof.
  unfold Split, SplitN. destruct (chars s) as [|a l]; [done|]. cbn [length]. change (split_n (S (S ?n)) c ?k) with (match break_at c k with Some (a, b) => a :: split_n (S n) c b | None => [k] end).
  by destruct (break_at c (a :: l)) as [[]|].
Qed.

Lemma short_good spec s : parseEgressSecretShort spec = Some s → good_secret s.
Proof.
  unfold parseEgressSecretShort. destruct (String.eqb spec ""); [done|]. destruct (Cut spec "@"%char) as [[env hp]|]; [|done].
  destruct (String.eqb_spec env ""); [done|]. destruct (String.eqb hp ""); [done|]. destruct (existsb _ _); [done|]. intros [= <-]. split; [done|]. apply Split_some.
Qed.

Lemma secret_good n s : secret_entry n = Some s → good_secret s.
Proof.
  destruct n as [t|?|l|]; simpl; [apply short_good|done| |done]. destruct (_ || _); [done|]. intros (env & _ & (hosts & _ & H)%bind_Some)%bind_Some.
  destruct (String.eqb_spec env ""); [done|]. destruct (bool_decide_reflect (hosts = [])); [done|]. by injection H as <-.
Qed.

Lemma policy_good n p : policy_entry n = Some p → good_policy p.
Proof.
  destruct n as [t|?|l|]; simpl; try done. destruct (_ || _); [done|]. intros (host & _ & (paths & _ & H)%bind_Some)%bind_Some.
  destruct (String.eqb_spec host ""); [done|]. destruct (bool_decide_reflect (paths = [])); [done|]. by injection H as <-.
Qed.

(** The hosts behind a policy or a credential. *)
Definition gated_by (eg : EgressConfig) (h : string) : Prop :=
  (∃ p, p ∈ eg_Policy eg ∧ ToLower (ep_Host p) = ToLower h) ∨ ∃ s h', s ∈ eg_Secrets eg ∧ h' ∈ es_Hosts s ∧ ToLower h' = ToLower h.

Lemma gated_fold hs (g : gmap string bool) k :
  is_Some (foldl (λ g h, match g !! ToLower h with Some _ => g | None => <[ToLower h := false]> g end) g hs !! k) ↔ is_Some (g !! k) ∨ ∃ h, h ∈ hs ∧ ToLower h = k.
Proof.
  revert g. induction hs as [|h hs IH]; intros g; cbn [foldl].
  { split; [by left|]. intros [?|(h & ?%not_elem_of_nil & _)]; done. }
  rewrite IH. destruct (g !! ToLower h) as [b|] eqn:E.
  - split; [|intros [?|(x & [-> | Hx]%elem_of_cons & <-)]; [by left|left; eauto|right; eauto]].
    intros [?|(x & Hx & <-)]; [by left|]. right. exists x. split; [|done]. apply elem_of_cons. by right.
  - rewrite lookup_insert_is_Some'. split.
    + intros [[<-|?]|(x & Hx & <-)]; [|by left|].
      * right. exists h. split; [|done]. apply elem_of_cons. by left.
      * right. exists x. split; [|done]. apply elem_of_cons. by right.
    + intros [?|(x & [-> | Hx]%elem_of_cons & <-)]; [by left; right|by left; left|]. right. eauto.
Qed.

Lemma gated_spec eg h : is_Some (gated_hosts eg !! ToLower h) ↔ gated_by eg h.
Proof.
  assert (Hp : ∀ k, is_Some ((list_to_map ((λ p, (ToLower (ep_Host p), true)) <$> eg_Policy eg) : gmap string bool) !! k) ↔ ∃ p, p ∈ eg_Policy eg ∧ ToLower (ep_Host p) = k).
  { intros k. rewrite <- not_eq_None_Some, <- not_elem_of_list_to_map, <- list_fmap_compose. split.
    - intros Hn. destruct (decide (k ∈ (fst ∘ (λ p, (ToLower (ep_Host p), true))) <$> eg_Policy eg)) as [Hin|]; [|done].
      apply list_elem_of_fmap in Hin as (p & -> & Hp). eauto.
    - intros (p & Hp & <-) Hn. apply Hn, list_elem_of_fmap. by exists p. }
  unfold gated_hosts. rewrite gated_fold, Hp. unfold gated_by.
  assert (Hs : (∃ h0, h0 ∈ mjoin (es_Hosts <$> eg_Secrets eg) ∧ ToLower h0 = ToLower h) ↔ ∃ s h', s ∈ eg_Secrets eg ∧ h' ∈ es_Hosts s ∧ ToLower h' = ToLower h).
  { split.
    - intros (h0 & (l & Hl & (s & -> & Hs)%list_elem_of_fmap)%list_elem_of_join & He). eauto 10.
    - intros (s & h' & Hs & Hh & He). exists h'. split; [|done]. apply list_elem_of_join. exists (es_Hosts s). split; [done|]. apply list_elem_of_fmap. eauto. }
  by rewrite Hs.
Qed.

Lemma no_overlap eg : validateEgressHostOverlap eg = None ↔ ∀ h, h ∈ eg_Allow eg → ¬ gated_by eg h.
Proof.
  unfold validateEgressHostOverlap. rewrite head_None. split.
  - intros Hn h Hin [b Hg]%gated_spec. assert (Hx : (h, b) ∈ omap (λ h, (h,.) <$> gated_hosts eg !! ToLower h) (eg_Allow eg)).
    { apply list_elem_of_omap. exists h. split; [done|]. by rewrite Hg. }
    rewrite Hn in Hx. by apply not_elem_of_nil in Hx.
  - intros Hall. destruct (omap _ (eg_Allow eg)) as [|[h b] l] eqn:E; [done|]. exfalso.
    assert (Hin : (h, b) ∈ omap (λ h, (h,.) <$> gated_hosts eg !! ToLower h) (eg_Allow eg)) by (rewrite E; apply elem_of_cons; by left).
    apply list_elem_of_omap in Hin as (h' & Hh & (b' & Hg & [= -> ->])%fmap_Some). apply (Hall h' Hh), gated_spec. eauto.
Qed.

(** What a configuration that parses promises.  No key is misspelt in the file or its sections, the version is known,
    every credential and every policy is complete, and no host is open and gated at once, whatever the case. *)
Record strict_config (n : node) (c : Config) : Prop := {
  st_keys : ∃ l, entries_of n = Some l ∧ Forall (λ e, e.1 ∈ file_keys) l ∧
    section_known egress_keys "egress" l ∧ section_known sandbox_keys "sandbox" l ∧ section_known image_keys "image" l ∧ section_known builder_keys "builder" l ∧
    ∃ v z, lookup_key "version" l = Some v ∧ dec_int v = Some z ∧ MinSupportedVersion ≤ z ≤ SupportedVersion;
  st_secrets : Forall good_secret (eg_Secrets (co_Egress c));
  st_policies : Forall good_policy (eg_Policy (co_Egress c));
  st_disjoint : ∀ h, h ∈ eg_Allow (co_Egress c) → ¬ gated_by (co_Egress c) h
}.

Lemma dec_egress_good n eg : dec_egress n = Some eg → Forall good_secret (eg_Secrets eg) ∧ Forall good_policy (eg_Policy eg).
Proof.
  intros (l & _ & _ & _ & (allow & _ & (pol & Hp & (sec & Hs & [= <-])%bind_Some)%bind_Some)%bind_Some)%strict_Some. simpl. split.
  - eapply field_Forall; [|exact Hs]. intros n' xs. unfold EgressSecrets_Unmarshal. destruct n'; try done. by apply mapM_Forall, secret_good.
  - eapply field_Forall; [|exact Hp]. intros n' xs. unfold EgressPolicies_Unmarshal. destruct n'; try done. by apply mapM_Forall, policy_good.
Qed.

Lemma parse_strict doc c : parse doc = Ok c → ∃ n, doc = Some n ∧ strict_config n c.
Proof.
  unfold parse. destruct (doc ≫= dec_file) as [[[v|] c']|] eqn:Hd; try done. destruct ((v <? MinSupportedVersion) || (SupportedVersion <? v)) eqn:Hv; [done|].
  destruct (validateEgressHostOverlap (co_Egress c')) as [[]|] eqn:Ho; [done|]. intros [= <-]. apply bind_Some in Hd as (n & -> & Hd). exists n. split; [done|].
  apply strict_Some in Hd as (l & Hl & Hk & _ & (ver & Hver & (eg & Heg & (sb & Hsb & (im & Him & (bu & Hbu & [= -> <-])%bind_Some)%bind_Some)%bind_Some)%bind_Some)%bind_Some).
  assert (Hgood : Forall good_secret (eg_Secrets eg) ∧ Forall good_policy (eg_Policy eg)).
  { unfold field in Heg. destruct (lookup_key "egress" l) as [e|]; [|injection Heg as <-; by split]. destruct (is_null e); [injection Heg as <-; by split|]. by apply (dec_egress_good e). }
  split; [|apply Hgood|apply Hgood|by apply no_overlap]. exists l. split_and!; [done|done|by eapply field_strict|by eapply field_strict|by eapply field_strict|by eapply field_strict|].
  unfold field in Hver. destruct (lookup_key "version" l) as [vn|]; [|done]. destruct (is_null vn); [done|]. apply fmap_Some in Hver as (z & Hz & [= ->]).
  exists vn, z. split_and!; [done|done|..]; unfold MinSupportedVersion, SupportedVersion in *; apply orb_false_iff in Hv as [?%Z.ltb_ge ?%Z.ltb_ge]; lia.
Qed.

(** ** The search *)

(** The directory and its parents, nearest first, up to the root of the repository. *)
Fixpoint up_to_repo (git : list string → bool) (dir : list string) : list (list string) :=
  dir :: (if git dir then [] else match dir with [] => [] | _ :: parent => up_to_repo git parent end).

(** The file of the first of these directories that has one, or cannot be read. *)
Definition nearest (read : list string → read_result) (dirs : list (list string)) : result load_error (option (list string * Config)) :=
  match head (List.filter (λ d, match read d with ReadNotExist => false | _ => true end) dirs) with
  | None => Ok None
  | Some d => match read d with ReadOk doc => match parse doc with Ok c => Ok (Some (d, c)) | Err e => Err (LeParse e) end | _ => Err LeRead end
  end.

Lemma load_nearest read git dir : load_from read git dir = nearest read (up_to_repo git dir).
Proof.
  induction dir as [|d dir IH]; cbn [load_from up_to_repo]; unfold nearest; cbn [List.filter].
  - destruct (read []) as [doc| |] eqn:E; [by simpl; rewrite E|by destruct (git [])|by simpl; rewrite E].
  - destruct (read (d :: dir)) as [doc| |] eqn:E; [by simpl; rewrite E| |by simpl; rewrite E]. destruct (git (d :: dir)); [done|exact IH].
Qed.

(** ** Mounts *)

Lemma Cut_break m host guest : Cut m ":"%char = Some (host, guest) → m = host +:+ ":" +:+ guest.
Proof.
  unfold Cut. destruct (break_at ":" (chars m)) as [[a b]|] eqn:E; [|done]. intros [= <- <-]. apply break_at_Some in E as [E _]. apply chars_inj.
  by rewrite E, !chars_app, !chars_of_chars.
Qed.

(** With an absolute project directory every mount of the form host:guest gets an absolute host path and keeps its guest part. *)
Lemma resolve_mount_absolute home configDir m m' :
  IsAbs configDir = true → (∀ h, home = Some h → IsAbs h = true) → resolve_mount home configDir m = Some m' →
  match Cut m ":"%char with None => m' = m | Some (_, guest) => ∃ host', IsAbs host' = true ∧ m' = host' +:+ ":" +:+ guest end.
Proof.
  intros Hc Hh. unfold resolve_mount. destruct (Cut m ":"%char) as [[host guest]|]; [|by intros [= <-]].
  intros (host' & He & [= <-])%bind_Some. eexists. split; [|done]. destruct (IsAbs host') eqn:Ha; cbn [negb andb]; [done|].
  destruct (String.eqb_spec configDir "") as [->|]; [done|]. cbn [negb]. unfold IsAbs, path_Clean. apply HasPrefix_true in Hc as [r ->].
  rewrite str_app_assoc, HasPrefix_app. apply HasPrefix_app.
Qed.

(** ** Examples *)

Definition text (s : string) : node := Scalar (mkScalar s false None None).
Definition int (z : Z) : node := Scalar (mkScalar (pretty z) false (Some z) None).
Definition yes : node := Scalar (mkScalar "true" false None (Some true)).

Definition w_file (mount : list (string * node)) (allow : list node) : node :=
  Mapping [("version", int 1);
           ("egress", Mapping [("allow", Sequence allow); ("secrets", Sequence [text "TOKEN@api.example.com,b.example.com"])]);
           ("sandbox", Mapping [("mounts", Sequence [Mapping mount])])]%string.

Lemma parse_strict_witness :
  ∃ c, parse (Some (w_file [("source", text "."); ("target", text "/work"); ("read_only", yes)]%string [text "proxy.example.com"])) = Ok c ∧
       sc_Mounts (co_Sandbox c) = [".:/work:ro"%string] ∧ ¬ gated_by (co_Egress c) "proxy.example.com".
Proof.
  destruct (parse (Some (w_file [("source", text "."); ("target", text "/work"); ("read_only", yes)]%string [text "proxy.example.com"]))) as [c|e] eqn:E; [|discriminate E].
  destruct (parse_strict _ _ E) as (n & _ & Hs). exists c. split; [reflexivity|].
  assert (Hm : sc_Mounts (co_Sandbox c) = [".:/work:ro"%string] ∧ eg_Allow (co_Egress c) = ["proxy.example.com"%string]).
  { vm_compute in E. injection E as <-. split; reflexivity. }
  destruct Hm as [Hm Ha]. split; [exact Hm|]. apply (st_disjoint _ _ Hs). rewrite Ha. by apply list_elem_of_singleton.
Defined.

(** A misspelt key of a mount is not refused, and the mount becomes writable. *)
Lemma mount_typo_writable :
  ∃ c, parse (Some (w_file [("source", text "."); ("target", text "/work"); ("readonly", yes)]%string [])) = Ok c ∧ sc_Mounts (co_Sandbox c) = [".:/work"%string].
Proof. eexists. split; vm_compute; reflexivity. Qed.

(** The host named in another case is found behind the credential. *)
Lemma overlap_example : parse (Some (w_file [("source", text "."); ("target", text "/work")]%string [text "API.Example.com"])) = Err (CeOverlap "API.Example.com" false).
Proof. vm_compute. reflexivity. Qed.
