(* ===== verification/CacheLease.v ===== *)
(** * internal/core/builder/cachedisk.go, internal/supervisor/cachedisk_lease.go: leases on cache-disk slots

    A builder machine attaches cache disks; a disk belongs to one machine at a time.  The lease on a disk is an exclusive
    flock on a file beside it that is never unlinked.  An flock belongs to an open file description: descriptors that are
    copies of each other, in one process or across a spawn, hold the same lock, and it is gone when the last of them is
    closed.  Within a process a registry counts the leases on one descriptor, because a second probe of the
    process's own lock would fail.

    The kernel's part is modelled with inodes, descriptions, descriptors per process and close-on-exec flags; the
    registry and the lease objects (by their position, the pointer) belong to a process.  Processes take leases, hand
    descriptors to children, adopt them, release and die in any order ([step]).  Descriptors of other files are not part of
    the state. *)

From stdpp Require Import prelude countable gmap strings list relations pretty.
From Stdlib Require Import ZArith Ascii Lia.
From S2P Require Import Prelude GoStrings GoPath ForkConfig.

(** ** The kernel *)

(** [k_inode]: lock files by path.  [k_desc]: the inode of an open file description.  [k_flock]: the description that holds
    the lock of an inode.  [k_fds]: what the descriptor of a process refers to. *)
Record Kernel := mkKernel {
  k_inode : gmap string nat;
  k_desc : gmap nat nat;
  k_flock : gmap nat nat;
  k_fds : gmap (nat * nat) nat;
  k_cloexec : gset (nat * nat);
  k_fresh : nat;
}.

Definition referenced (fds : gmap (nat * nat) nat) (d : nat) : Prop := map_Exists (λ _ d', d' = d) fds.

#[global] Instance referenced_dec fds d : Decision (referenced fds d).
Proof. unfold referenced. apply _. Defined.

(** A description, and with it its lock, goes when its last descriptor does. *)
Definition set_fds (fds : gmap (nat * nat) nat) (k : Kernel) : Kernel :=
  mkKernel (k_inode k) (filter (λ di, referenced fds di.1) (k_desc k)) (filter (λ id, referenced fds id.2) (k_flock k))
    fds (k_cloexec k) (k_fresh k).

Definition sys_close (p fd : nat) (k : Kernel) : Kernel := set_fds (delete (p, fd) (k_fds k)) k.

(** [open] with O_CREATE on descriptor [fd], which Go opens with O_CLOEXEC. *)
Definition sys_open (p fd : nat) (path : string) (k : Kernel) : Kernel :=
  let '(ino, fresh) := match k_inode k !! path with Some i => (i, k_fresh k) | None => (k_fresh k, S (k_fresh k)) end in
  mkKernel (<[path := ino]> (k_inode k)) (<[fresh := ino]> (k_desc k)) (k_flock k) (<[(p, fd) := fresh]> (k_fds k))
    ({[(p, fd)]} ∪ k_cloexec k) (S fresh).

Definition inode_of (p fd : nat) (k : Kernel) : option nat := k_fds k !! (p, fd) ≫= λ d, k_desc k !! d.

(** [flock] with LOCK_EX and LOCK_NB. *)
Definition sys_flock (p fd : nat) (k : Kernel) : option Kernel :=
  d ← k_fds k !! (p, fd);
  i ← k_desc k !! d;
  match k_flock k !! i with
  | Some d' => if decide (d' = d) then Some k else None
  | None => Some (mkKernel (k_inode k) (k_desc k) (<[i := d]> (k_flock k)) (k_fds k) (k_cloexec k) (k_fresh k))
  end.

Definition set_cloexec (p fd : nat) (k : Kernel) : Kernel :=
  mkKernel (k_inode k) (k_desc k) (k_flock k) (k_fds k) ({[(p, fd)]} ∪ k_cloexec k) (k_fresh k).

(** What a child finds open: the files passed to it as 3, 4, ... ([None] for one that is not a lock file), and what its parent
    had open without close-on-exec. *)
Definition extra_fds (p c : nat) (extra : list (option nat)) (k : Kernel) : gmap (nat * nat) nat :=
  list_to_map (omap id (imap (λ i f, f ≫= λ fd, k_fds k !! (p, fd) ≫= λ d, Some ((c, 3 + i)%nat, d)) extra)).

Definition kept_fds (p c : nat) (extra : list (option nat)) (k : Kernel) : gmap (nat * nat) nat :=
  list_to_map (omap (λ e : nat * nat * nat,
    let '(q, fd, d) := e in
    if bool_decide (q = p ∧ (q, fd) ∉ k_cloexec k ∧ ¬ (3 ≤ fd < 3 + length extra)%nat) then Some ((c, fd), d) else None)
    (map_to_list (k_fds k))).

Definition sys_spawn (p c : nat) (extra : list (option nat)) (k : Kernel) : Kernel :=
  mkKernel (k_inode k) (k_desc k) (k_flock k) (extra_fds p c extra k ∪ kept_fds p c extra k ∪ k_fds k)
    (filter (λ e, e.1 ≠ c) (k_cloexec k)) (k_fresh k).

Definition sys_exit (p : nat) (k : Kernel) : Kernel := set_fds (filter (λ e, e.1.1 ≠ p) (k_fds k)) k.

(** ** The registry of a process and its leases *)

Record slotPin := mkPin { pin_f : nat; pin_refs : Z }.

Record CacheDiskLease := mkLease { ls_imagePath : string; ls_lockPath : string; ls_released : bool }.

Record Proc := mkProc { pr_pinned : gmap string slotPin; pr_leases : list CacheDiskLease }.

Definition newProc : Proc := mkProc ∅ [].

Definition CacheDiskLockPath (imagePath : string) : string := imagePath +:+ ".lock".

Inductive slot_error :=
| ErrCacheDiskSlotBusy
| SErrOpen
| SErrFd
| SErrFstat
| SErrStat
| SErrOtherFile
| SErrFcntl
| SErrUnknownKey
| SErrMkdir
| SErrEnsure
| SErrAllBusy
| SErrContext.

(** The answers of one acquisition: the number [open] gives, and whether [flock] fails for a reason of its own. *)
Record AcquireIO := mkAIO { a_open : option nat; a_flockErr : bool }.

Definition newLease (imagePath : string) (pin : slotPin) (pr : Proc) : Proc * nat :=
  (mkProc (<[CacheDiskLockPath imagePath := pin]> (pr_pinned pr))
     (pr_leases pr ++ [mkLease imagePath (CacheDiskLockPath imagePath) false]), length (pr_leases pr)).

Definition acquireCacheDiskSlot (p : nat) (io : AcquireIO) (imagePath : string) (allowOwnPin : bool) (s : Kernel * Proc)
    : Kernel * Proc * result slot_error nat :=
  let '(k, pr) := s in
  let lockPath := CacheDiskLockPath imagePath in
  match pr_pinned pr !! lockPath with
  | Some pin =>
      if negb allowOwnPin then (k, pr, Err ErrCacheDiskSlotBusy)
      else let '(pr, l) := newLease imagePath (mkPin (pin_f pin) (pin_refs pin + 1)) pr in (k, pr, Ok l)
  | None =>
      match a_open io with
      | None => (k, pr, Err SErrOpen)
      | Some fd =>
          let k := sys_open p fd lockPath k in
          match (if a_flockErr io then None else sys_flock p fd k) with
          | None => (sys_close p fd k, pr, Err ErrCacheDiskSlotBusy)
          | Some k => let '(pr, l) := newLease imagePath (mkPin fd 1) pr in (k, pr, Ok l)
          end
      end
  end.

Definition AcquireCacheDiskSlot (p : nat) (io : AcquireIO) (imagePath : string) (s : Kernel * Proc)
    : Kernel * Proc * result slot_error nat := acquireCacheDiskSlot p io imagePath true s.

(** [fcntlErr]: whether setting FD_CLOEXEC fails. *)
Definition AdoptCacheDiskLeaseFD (p : nat) (fcntlErr : bool) (fd : Z) (imagePath : string) (s : Kernel * Proc)
    : Kernel * Proc * result slot_error nat :=
  let '(k, pr) := s in
  let lockPath := CacheDiskLockPath imagePath in
  if fd <? 0 then (k, pr, Err SErrFd)
  else match inode_of p (Z.to_nat fd) k with
  | None => (k, pr, Err SErrFstat)
  | Some got =>
      match k_inode k !! lockPath with
      | None => (k, pr, Err SErrStat)
      | Some want =>
          if negb (Nat.eqb got want) then (k, pr, Err SErrOtherFile)
          else if fcntlErr then (k, pr, Err SErrFcntl)
          else
            let k := set_cloexec p (Z.to_nat fd) k in
            match pr_pinned pr !! lockPath with
            | Some pin =>
                let '(pr, l) := newLease imagePath (mkPin (pin_f pin) (pin_refs pin + 1)) pr in
                (sys_close p (Z.to_nat fd) k, pr, Ok l)
            | None => let '(pr, l) := newLease imagePath (mkPin (Z.to_nat fd) 1) pr in (k, pr, Ok l)
            end
      end
  end.

(** A lease pointer that is nil is none of the process's. *)
Definition Release (p l : nat) (s : Kernel * Proc) : Kernel * Proc :=
  let '(k, pr) := s in
  match pr_leases pr !! l with
  | None => (k, pr)
  | Some le =>
      if ls_released le then (k, pr)
      else
        let leases := <[l := mkLease (ls_imagePath le) (ls_lockPath le) true]> (pr_leases pr) in
        match pr_pinned pr !! ls_lockPath le with
        | None => (k, mkProc (pr_pinned pr) leases)
        | Some pin =>
            if 0 <? pin_refs pin - 1
            then (k, mkProc (<[ls_lockPath le := mkPin (pin_f pin) (pin_refs pin - 1)]> (pr_pinned pr)) leases)
            else (sys_close p (pin_f pin) k, mkProc (delete (ls_lockPath le) (pr_pinned pr)) leases)
        end
  end.

Definition ReleaseCacheDiskLeases (p : nat) (ls : list nat) (s : Kernel * Proc) : Kernel * Proc :=
  fold_left (λ s l, Release p l s) ls s.

Definition ImagePath (l : nat) (pr : Proc) : string :=
  match pr_leases pr !! l with Some le => ls_imagePath le | None => "" end.

Definition CacheDiskSlotPaths (ls : list nat) (pr : Proc) : list string := (λ l, ImagePath l pr) <$> ls.

Definition lease_File (l : nat) (pr : Proc) : option nat :=
  le ← pr_leases pr !! l; pin ← pr_pinned pr !! ls_lockPath le; Some (pin_f pin).

(** ** Selecting slots *)

Record ecosystemEntry := mkEco { eco_mountPath : string; eco_subpaths : list string }.

Definition ecosystemRegistry : list (string * ecosystemEntry) :=
  [("npm", mkEco "/root/.npm" []); ("pnpm", mkEco "/root/.local/share/pnpm/store" []);
   ("yarn", mkEco "/root/.cache/yarn" []); ("pip", mkEco "/root/.cache/pip" []);
   ("cargo", mkEco "/root/.cargo" ["registry"; "git"]); ("go", mkEco "/root/.cache/go-build" ["/root/go/pkg/mod"]);
   ("apt", mkEco "/var/cache/apt" []); ("buildkit", mkEco "/var/lib/buildkit" [])]%string.

Definition ecosystem (key : string) : option ecosystemEntry :=
  snd <$> List.find (λ e, String.eqb e.1 key) ecosystemRegistry.

Definition MaxCacheDiskSlots : nat := 8.

Definition slotImagePath (cacheDir ecosystemKey : string) (slot : nat) : string :=
  if Nat.eqb slot 0 then filepath_Join cacheDir (ecosystemKey +:+ ".ext4")
  else filepath_Join cacheDir (ecosystemKey +:+ "-" +:+ pretty slot +:+ ".ext4").

Section Select.
(** [D] is the state of the disks and [ensure] what [ensureCacheDiskAt] does to them; an acquisition of slot [n] for the
    [i]-th key gets the answers [io i n k] in the kernel's state [k]. *)
Context {D Spec : Type} (ensure : nat → string → ecosystemEntry → nat → D → D * result slot_error Spec).
Context (p : nat) (io : nat → nat → Kernel → AcquireIO).

Fixpoint slot_loop (i : nat) (cacheDir key : string) (entry : ecosystemEntry) (slots : list nat) (s : Kernel * Proc) (dk : D)
    : Kernel * Proc * D * result slot_error (Spec * nat) :=
  match slots with
  | [] => (s, dk, Err SErrAllBusy)
  | slot :: rest =>
      match acquireCacheDiskSlot p (io i slot s.1) (slotImagePath cacheDir key slot) false s with
      | (s, Err ErrCacheDiskSlotBusy) => slot_loop i cacheDir key entry rest s dk
      | (s, Err e) => (s, dk, Err e)
      | (s, Ok l) =>
          match ensure i key entry slot dk with
          | (dk, Err e) => (Release p l s, dk, Err e)
          | (dk, Ok spec) => (s, dk, Ok (spec, l))
          end
      end
  end.

Definition leaseCacheDiskSlot (i : nat) (cacheDir key : string) (entry : ecosystemEntry) (s : Kernel * Proc) (dk : D)
    : Kernel * Proc * D * result slot_error (Spec * nat) :=
  slot_loop i cacheDir key entry (seq 0 MaxCacheDiskSlots) s dk.

Fixpoint select_loop (i : nat) (cacheDir : string) (keys : list (string * ecosystemEntry)) (held : list nat) (specs : list Spec)
    (s : Kernel * Proc) (dk : D) : Kernel * Proc * D * result slot_error (list Spec * list nat) :=
  match keys with
  | [] => (s, dk, Ok (specs, held))
  | (key, entry) :: rest =>
      match leaseCacheDiskSlot i cacheDir key entry s dk with
      | (s, dk, Err e) => (ReleaseCacheDiskLeases p held s, dk, Err e)
      | (s, dk, Ok (spec, l)) => select_loop (S i) cacheDir rest (held ++ [l]) (specs ++ [spec]) s dk
      end
  end.

Definition SelectCacheDisks (mkdirErr : bool) (dataDir : string) (keys : list string) (s : Kernel * Proc) (dk : D)
    : Kernel * Proc * D * result slot_error (list Spec * list nat) :=
  match mapM (λ k, ecosystem k ≫= λ e, Some (k, e)) keys with
  | None => (s, dk, Err SErrUnknownKey)
  | Some entries =>
      if mkdirErr then (s, dk, Err SErrMkdir) else select_loop 0 (filepath_Join dataDir "caches") entries [] [] s dk
  end.
End Select.

(** ** The record's field *)

Definition EncodeCacheDiskSlots (paths : list string) : string := String.concat "," paths.

Definition DecodeCacheDiskSlots (s : string) : list string :=
  if String.eqb s "" then []
  else omap (λ part, let part := TrimSpace part in if String.eqb part "" then None else Some part) (Split s ","%char).

(** ** The supervisor's side *)

(** One turn of the polling loop: the answers of the acquisition, whether the deadline has passed, whether the context is
    done, and what the other processes do to the kernel's state meanwhile. *)
Record WaitTurn := mkTurn { t_io : AcquireIO; t_late : bool; t_done : bool; t_env : Kernel → Kernel }.

(** [None]: still waiting when the turns end. *)
Fixpoint AcquireCacheDiskSlotWait (p : nat) (imagePath : string) (turns : list WaitTurn) (s : Kernel * Proc)
    : Kernel * Proc * option (result slot_error nat) :=
  match turns with
  | [] => (s, None)
  | t :: rest =>
      match acquireCacheDiskSlot p (t_io t) imagePath true s with
      | (s, Err ErrCacheDiskSlotBusy) =>
          if t_late t then (s, Some (Err ErrCacheDiskSlotBusy))
          else if t_done t then (s, Some (Err SErrContext))
          else AcquireCacheDiskSlotWait p imagePath rest (t_env t s.1, s.2)
      | (s, r) => (s, Some r)
      end
  end.

(** [turns i]: the polling for the [i]-th slot; [None] as above. *)
Fixpoint leases_loop (p : nat) (fcntlErr : nat → bool) (turns : nat → list WaitTurn) (leaseFDs : list Z) (i : nat)
    (slots : list string) (held : list nat) (s : Kernel * Proc) : Kernel * Proc * option (result slot_error (list nat)) :=
  match slots with
  | [] => (s, Some (Ok held))
  | slot :: rest =>
      let '(s, r) :=
        match leaseFDs !! i with
        | Some fd => if 0 <? fd then let '(s, r) := AdoptCacheDiskLeaseFD p (fcntlErr i) fd slot s in (s, Some r)
                     else AcquireCacheDiskSlotWait p slot (turns i) s
        | None => AcquireCacheDiskSlotWait p slot (turns i) s
        end in
      match r with
      | None => (s, None)
      | Some (Err e) => (ReleaseCacheDiskLeases p held s, Some (Err e))
      | Some (Ok l) => leases_loop p fcntlErr turns leaseFDs (S i) rest (held ++ [l]) s
      end
  end.

Definition acquireCacheDiskLeases (p : nat) (fcntlErr : nat → bool) (turns : nat → list WaitTurn) (slots : list string)
    (leaseFDs : list Z) (s : Kernel * Proc) : Kernel * Proc * option (result slot_error (list nat)) :=
  leases_loop p fcntlErr turns leaseFDs 0 slots [] s.

(** The part of [SpawnDetached] that places the files: the watchdog pipe first when there is one, then the leases that have a
    file, and the numbers the child is told. *)
Definition place_lease_files (pipe : bool) (files : list (option nat)) : list (option nat) * list Z :=
  fold_left (λ acc lf,
    match lf with
    | None => acc
    | Some f => let extra := acc.1 ++ [Some f] in (extra, acc.2 ++ [Z.of_nat (3 + length extra - 1)])
    end) files (if pipe then [None] else [], []).

(** ** Processes *)

Record World := mkWorld { w_kernel : Kernel; w_procs : gmap nat Proc }.

Definition put (p : nat) (s : Kernel * Proc) (w : World) : World := mkWorld s.1 (<[p := s.2]> (w_procs w)).

(** [open] answers with a number that is not in use. *)
Definition open_ok (p : nat) (io : AcquireIO) (k : Kernel) : Prop := ∀ fd, a_open io = Some fd → k_fds k !! (p, fd) = None.

(** A descriptor that the registry already holds is not adopted a second time: the numbers a supervisor is given are those of the
    files it inherited. *)
Definition not_pinned (fd : Z) (pr : Proc) : Prop := ∀ lp pin, pr_pinned pr !! lp = Some pin → Z.of_nat (pin_f pin) ≠ fd.

(** A step of one process. *)
Inductive step (p : nat) (w : World) : World → Prop :=
| st_acquire pr io imagePath allowOwnPin :
    w_procs w !! p = Some pr → open_ok p io (w_kernel w) →
    step p w (put p (acquireCacheDiskSlot p io imagePath allowOwnPin (w_kernel w, pr)).1 w)
| st_adopt pr fcntlErr fd imagePath :
    w_procs w !! p = Some pr → not_pinned fd pr →
    step p w (put p (AdoptCacheDiskLeaseFD p fcntlErr fd imagePath (w_kernel w, pr)).1 w)
| st_release pr l :
    w_procs w !! p = Some pr → step p w (put p (Release p l (w_kernel w, pr)) w)
| st_spawn c pr extra :
    w_procs w !! p = Some pr → w_procs w !! c = None →
    step p w (mkWorld (sys_spawn p c extra (w_kernel w)) (<[c := newProc]> (w_procs w)))
| st_exit :
    step p w (mkWorld (sys_exit p (w_kernel w)) (delete p (w_procs w))).

Definition any_step (w w' : World) : Prop := ∃ p, step p w w'.

(** Steps of the processes other than [s]. *)
Definition others_step (s : nat) (w w' : World) : Prop := ∃ p, p ≠ s ∧ step p w w'.

Definition boot (procs : gset nat) : World := mkWorld (mkKernel ∅ ∅ ∅ ∅ ∅ 0) (gset_to_gmap newProc procs).

Definition reachable (w : World) : Prop := ∃ procs, rtc any_step (boot procs) w.

(** Process [p] has a lease on the image that it has not released. *)
Definition holds (w : World) (p : nat) (imagePath : string) : Prop :=
  ∃ pr l le, w_procs w !! p = Some pr ∧ pr_leases pr !! l = Some le ∧ ls_released le = false ∧ ls_imagePath le = imagePath.

(** Some descriptor of process [p] is on the lock file. *)
Definition has_descriptor (k : Kernel) (p : nat) (imagePath : string) : Prop :=
  ∃ fd i, inode_of p fd k = Some i ∧ k_inode k !! CacheDiskLockPath imagePath = Some i.

(** ** The kernel's invariant *)

(** Every open description of a lock file holds its lock, and lock files stay where they are. *)
Record kinv (k : Kernel) : Prop := {
  kinv_inj a b i : k_inode k !! a = Some i → k_inode k !! b = Some i → a = b;
  kinv_locked d i : k_desc k !! d = Some i → k_flock k !! i = Some d;
  kinv_flock i d : k_flock k !! i = Some d → k_desc k !! d = Some i;
  kinv_used d i : k_desc k !! d = Some i → referenced (k_fds k) d;
  kinv_fds e d : k_fds k !! e = Some d → is_Some (k_desc k !! d);
  kinv_inode_fresh a i : k_inode k !! a = Some i → (i < k_fresh k)%nat;
  kinv_desc_fresh d i : k_desc k !! d = Some i → (d < k_fresh k ∧ i < k_fresh k)%nat;
}.

Lemma referenced_intro fds (e : nat * nat) d : fds !! e = Some d → referenced fds d.
Proof. intros H. by exists e, d. Qed.

Lemma referenced_elim fds d : referenced fds d → ∃ e, fds !! e = Some d.
Proof. intros (e & d' & H & <-). eauto. Qed.

Create HintDb lease.
#[global] Hint Resolve referenced_intro kinv_inj kinv_locked kinv_flock kinv_used kinv_fds kinv_inode_fresh : lease.

Lemma inode_of_Some p fd k i : inode_of p fd k = Some i ↔ ∃ d, k_fds k !! (p, fd) = Some d ∧ k_desc k !! d = Some i.
Proof. unfold inode_of. by rewrite bind_Some. Qed.

(** Closing descriptors keeps the invariant. *)
Lemma kinv_set_fds fds k : fds ⊆ k_fds k → kinv k → kinv (set_fds fds k).
Proof.
  intros Hsub [Hinj Hl Hf Hu Hfd Hi Hd]. split; cbn; eauto.
  - intros d i (H & Href)%map_lookup_filter_Some. apply map_lookup_filter_Some. eauto.
  - intros i d (H & Href)%map_lookup_filter_Some. apply map_lookup_filter_Some. eauto.
  - by intros d i (H & Href)%map_lookup_filter_Some.
  - intros e d H. destruct (Hfd e d) as [i Hdi]; [by eapply lookup_weaken|]. exists i. apply map_lookup_filter_Some.
    split; [done|]. cbn. eauto with lease.
  - intros d i (H & Href)%map_lookup_filter_Some. eauto.
Qed.

Lemma inode_of_set_fds p fd fds k :
  fds ⊆ k_fds k → inode_of p fd (set_fds fds k) = fds !! (p, fd) ≫= λ d, k_desc k !! d.
Proof.
  intros Hsub. unfold inode_of. cbn. destruct (fds !! (p, fd)) as [d|] eqn:E; [|done]. cbn.
  destruct (k_desc k !! d) as [i|] eqn:Ei.
  - apply map_lookup_filter_Some. split; [done|]. cbn. eauto with lease.
  - apply map_lookup_filter_None. by left.
Qed.

(** [open] and [close] of a lock file only create it. *)
Definition touch_inode (path : string) (k : Kernel) : gmap string nat :=
  <[path := default (k_fresh k) (k_inode k !! path)]> (k_inode k).

Lemma open_close_spec p fd path k :
  kinv k → k_fds k !! (p, fd) = None →
  ∃ fresh', (k_fresh k < fresh')%nat ∧ (default (k_fresh k) (k_inode k !! path) < fresh')%nat ∧
    sys_close p fd (sys_open p fd path k) =
    mkKernel (touch_inode path k) (k_desc k) (k_flock k) (k_fds k) ({[(p, fd)]} ∪ k_cloexec k) fresh'.
Proof.
  intros Hk Hfd. unfold sys_close, sys_open, touch_inode, set_fds.
  assert (Hfilt : ∀ fresh' ino, (k_fresh k ≤ fresh')%nat →
    filter (λ di, referenced (k_fds k) di.1) (<[fresh' := ino]> (k_desc k)) = k_desc k ∧
    filter (λ id, referenced (k_fds k) id.2) (k_flock k) = k_flock k).
  { intros fresh' ino Hle. split.
    - rewrite map_filter_insert_False; cbn.
      + rewrite map_filter_delete, map_filter_id; [apply delete_id|cbn; by eapply kinv_used].
        destruct (k_desc k !! fresh') as [i|] eqn:E; [|done]. apply (kinv_desc_fresh _ Hk) in E. lia.
      + intros [e He]%referenced_elim. destruct (kinv_fds _ Hk _ _ He) as [i Hi]. apply (kinv_desc_fresh _ Hk) in Hi. lia.
    - apply map_filter_id. cbn. intros i d H. eapply kinv_used; [done|]. by apply kinv_flock. }
  destruct (k_inode k !! path) as [i|] eqn:Ei; cbn; rewrite delete_insert_id by done.
  - exists (S (k_fresh k)). destruct (Hfilt (k_fresh k) i) as [-> ->]; [done|]. apply (kinv_inode_fresh _ Hk) in Ei. split_and!; [lia..|done].
  - exists (S (S (k_fresh k))). destruct (Hfilt (S (k_fresh k)) (k_fresh k)) as [-> ->]; [lia|]. split_and!; [lia..|done].
Qed.

Lemma touch_inj k path a b i :
  kinv k → touch_inode path k !! a = Some i → touch_inode path k !! b = Some i → a = b.
Proof.
  intros Hk. unfold touch_inode. rewrite !lookup_insert_Some. destruct (k_inode k !! path) as [j|] eqn:Ej; cbn;
    intros [[<- <-]|[? Ha]] [[<- Hi]|[? Hb]]; simplify_eq; eauto with lease.
  - apply (kinv_inode_fresh _ Hk) in Hb. lia.
  - apply (kinv_inode_fresh _ Hk) in Ha. lia.
Qed.

Lemma touch_fresh k path a i n :
  kinv k → (k_fresh k < n)%nat → (default (k_fresh k) (k_inode k !! path) < n)%nat → touch_inode path k !! a = Some i → (i < n)%nat.
Proof.
  intros Hk H1 H2. unfold touch_inode. rewrite lookup_insert_Some. intros [[<- <-]|[? Ha]]; [done|].
  apply (kinv_inode_fresh _ Hk) in Ha. lia.
Qed.

(** [open] and [flock] on a lock file: refused iff the lock is held; otherwise a new description holds it. *)
Lemma open_flock_spec p fd path k :
  kinv k → k_fds k !! (p, fd) = None →
  let ino := default (k_fresh k) (k_inode k !! path) in
  match sys_flock p fd (sys_open p fd path k) with
  | None => is_Some (k_flock k !! ino)
  | Some k' => ∃ d n, k_flock k !! ino = None ∧ (k_fresh k ≤ d < n)%nat ∧ (ino < n)%nat ∧
      k' = mkKernel (touch_inode path k) (<[d := ino]> (k_desc k)) (<[ino := d]> (k_flock k)) (<[(p, fd) := d]> (k_fds k))
             ({[(p, fd)]} ∪ k_cloexec k) n
  end.
Proof.
  intros Hk Hfd. cbv zeta. unfold sys_flock, sys_open, touch_inode.
  assert (Hnot : ∀ i d, k_flock k !! i = Some d → (d < k_fresh k)%nat).
  { intros i d H. apply (kinv_flock _ Hk) in H. apply (kinv_desc_fresh _ Hk) in H. lia. }
  destruct (k_inode k !! path) as [i|] eqn:Ei; cbn; rewrite lookup_insert_eq; cbn; rewrite lookup_insert_eq; cbn.
  - destruct (k_flock k !! i) as [d'|] eqn:El.
    + apply Hnot in El. rewrite decide_False by lia. done.
    + exists (k_fresh k), (S (k_fresh k)). apply (kinv_inode_fresh _ Hk) in Ei. split_and!; [done|lia..|done].
  - destruct (k_flock k !! k_fresh k) as [d'|] eqn:El.
    + apply (kinv_flock _ Hk), (kinv_desc_fresh _ Hk) in El. lia.
    + exists (S (k_fresh k)), (S (S (k_fresh k))). split_and!; [done|lia..|done].
Qed.

Lemma kinv_open_close p fd path k : kinv k → k_fds k !! (p, fd) = None → kinv (sys_close p fd (sys_open p fd path k)).
Proof.
  intros Hk Hfd. destruct (open_close_spec p fd path k Hk Hfd) as (n & Hn & Hi & ->). split; cbn; eauto with lease.
  - eauto using touch_inj.
  - eauto using touch_fresh.
  - intros d i H. apply (kinv_desc_fresh _ Hk) in H. lia.
Qed.

Lemma kinv_open_flock p fd path k k' :
  kinv k → k_fds k !! (p, fd) = None → sys_flock p fd (sys_open p fd path k) = Some k' → kinv k'.
Proof.
  intros Hk Hfd E. pose proof (open_flock_spec p fd path k Hk Hfd) as H. cbv zeta in H. rewrite E in H.
  destruct H as (d & n & Hfree & Hd & Hn & ->). set (ino := default _ _) in *.
  assert (Hold : ∀ d' i, k_desc k !! d' = Some i → d' ≠ d ∧ i ≠ ino).
  { intros d' i H. split; [apply (kinv_desc_fresh _ Hk) in H; lia|]. intros ->. apply (kinv_locked _ Hk) in H. congruence. }
  split; cbn.
  - eauto using touch_inj.
  - intros d' i. rewrite !lookup_insert_Some. intros [[<- <-]|[? H]]; [by left|]. right. pose proof (Hold _ _ H) as [_ ?]. eauto with lease.
  - intros i d'. rewrite !lookup_insert_Some. intros [[<- <-]|[? H]]; [by left|]. right.
    apply (kinv_flock _ Hk) in H. pose proof (Hold _ _ H) as [? _]. eauto.
  - intros d' i. rewrite lookup_insert_Some. intros [[<- <-]|[? H]]; [eapply referenced_intro; apply lookup_insert_eq|].
    destruct (referenced_elim _ _ (kinv_used _ Hk _ _ H)) as [e He]. apply (referenced_intro _ e). rewrite lookup_insert_ne; [done|congruence].
  - intros e d'. rewrite lookup_insert_Some. intros [[<- <-]|[? H]]; [rewrite lookup_insert_eq; eauto|].
    destruct (kinv_fds _ Hk _ _ H) as [i Hi]. exists i. rewrite lookup_insert_ne; [done|]. pose proof (Hold _ _ Hi) as []. done.
  - intros a i. apply touch_fresh; [done|lia|done].
  - intros d' i. rewrite lookup_insert_Some. intros [[<- <-]|[? H]]; [lia|]. apply (kinv_desc_fresh _ Hk) in H. lia.
Qed.

(** ** What a child inherits *)

Lemma extra_fds_Some p c extra k e d :
  extra_fds p c extra k !! e = Some d →
  ∃ i f, e = (c, 3 + i)%nat ∧ extra !! i = Some (Some f) ∧ k_fds k !! (p, f) = Some d.
Proof.
  unfold extra_fds. intros H%elem_of_list_to_map_2. apply list_elem_of_omap in H as (x & Hx & Hid). cbn in Hid. subst x.
  apply elem_of_lookup_imap_1 in Hx as (i & o & Heq & Ho). destruct o as [f|]; [|done]. cbn in Heq.
  destruct (k_fds k !! (p, f)) as [d'|] eqn:E; [|done]. cbn in Heq. simplify_eq. eauto 10.
Qed.

Lemma extra_fds_passed p c extra k i f d :
  extra !! i = Some (Some f) → k_fds k !! (p, f) = Some d → extra_fds p c extra k !! (c, 3 + i)%nat = Some d.
Proof.
  intros Hi Hf. unfold extra_fds.
  assert (Hin : ∀ j d', ((c, 3 + j)%nat, d') ∈ omap id (imap (λ i f, f ≫= λ fd, k_fds k !! (p, fd) ≫= λ d, Some ((c, 3 + i)%nat, d)) extra) ↔
    ∃ g, extra !! j = Some (Some g) ∧ k_fds k !! (p, g) = Some d').
  { intros j d'. rewrite list_elem_of_omap. split.
    - intros (x & Hx & Hid). cbn in Hid. subst x. apply elem_of_lookup_imap_1 in Hx as (j' & o & Heq & Ho).
      destruct o as [g|]; [|done]. cbn in Heq. destruct (k_fds k !! (p, g)) eqn:E; [|done]. cbn in Heq.
      injection Heq as Hj Hd'. assert (j' = j) as -> by lia. subst. eauto.
    - intros (g & Hg & Hd'). eexists. split; [|reflexivity]. apply elem_of_lookup_imap. exists j, (Some g). split; [|done].
      cbn. by rewrite Hd'. }
  apply elem_of_list_to_map_1'; [|by apply Hin; eauto]. intros d' (g & Hg & Hd')%Hin. congruence.
Qed.

Lemma kept_fds_Some p c extra k e d :
  kept_fds p c extra k !! e = Some d →
  ∃ f, e = (c, f) ∧ k_fds k !! (p, f) = Some d ∧ (p, f) ∉ k_cloexec k.
Proof.
  unfold kept_fds. intros H%elem_of_list_to_map_2. apply list_elem_of_omap in H as ([[q fd] d'] & Hx & Hc).
  destruct (bool_decide_reflect (q = p ∧ (q, fd) ∉ k_cloexec k ∧ ¬ (3 ≤ fd < 3 + length extra)%nat)) as [(-> & Hn & _)|]; [|done].
  simplify_eq. apply elem_of_map_to_list in Hx. eauto.
Qed.

Lemma spawn_fds_Some p c extra k q fd d :
  k_fds (sys_spawn p c extra k) !! (q, fd) = Some d →
  k_fds k !! (q, fd) = Some d ∨ q = c ∧ ∃ f, k_fds k !! (p, f) = Some d ∧
    ((p, f) ∉ k_cloexec k ∨ ∃ i, fd = (3 + i)%nat ∧ extra !! i = Some (Some f)).
Proof.
  cbn. intros [[(i & f & ? & ? & ?)%extra_fds_Some|[_ (f & ? & ? & ?)%kept_fds_Some]]%lookup_union_Some_raw|[_ ?]]%lookup_union_Some_raw;
    simplify_eq; eauto 10.
Qed.

Lemma spawn_fds_ne p c extra k q fd : q ≠ c → k_fds (sys_spawn p c extra k) !! (q, fd) = k_fds k !! (q, fd).
Proof.
  intros Hq. cbn. rewrite lookup_union_r; [done|]. apply lookup_union_None. split.
  - destruct (extra_fds p c extra k !! (q, fd)) eqn:E; [|done]. apply extra_fds_Some in E as (? & ? & ? & _). simplify_eq.
  - destruct (kept_fds p c extra k !! (q, fd)) eqn:E; [|done]. apply kept_fds_Some in E as (? & ? & _). simplify_eq.
Qed.

Lemma spawn_fds_passed p c extra k i f d :
  extra !! i = Some (Some f) → k_fds k !! (p, f) = Some d → k_fds (sys_spawn p c extra k) !! (c, 3 + i)%nat = Some d.
Proof. intros Hi Hf. cbn. apply lookup_union_Some_l, lookup_union_Some_l. by apply (extra_fds_passed _ _ _ _ _ f). Qed.

Lemma kinv_spawn p c extra k : (∀ fd, k_fds k !! (c, fd) = None) → kinv k → kinv (sys_spawn p c extra k).
Proof.
  intros Hc Hk. pose proof Hk as [Hinj Hl Hf Hu Hfd Hi Hd]. split; try by (cbn; eauto).
  - intros d i H. destruct (referenced_elim _ _ (Hu _ _ H)) as [[q fd] He]. apply (referenced_intro _ (q, fd)).
    rewrite spawn_fds_ne; [done|]. intros ->. by rewrite Hc in He.
  - intros [q fd] d [H|(-> & f & H & _)]%spawn_fds_Some; eauto.
Qed.

(** ** The registry's invariant *)

Definition live (lp : string) (ls : list CacheDiskLease) : nat :=
  length (filter (λ le, ls_lockPath le = lp ∧ ls_released le = false) ls).

(** A pin refers to an open descriptor on its lock file that children do not inherit, and counts the leases that are not
    released; a descriptor that children do not inherit is one of a pin. *)
Record pinv (k : Kernel) (p : nat) (pr : Proc) : Prop := {
  pinv_pin lp pin : pr_pinned pr !! lp = Some pin →
    (p, pin_f pin) ∈ k_cloexec k ∧ ∃ i, k_inode k !! lp = Some i ∧ inode_of p (pin_f pin) k = Some i;
  pinv_refs lp : match pr_pinned pr !! lp with
                 | Some pin => pin_refs pin = Z.of_nat (live lp (pr_leases pr)) ∧ 0 < pin_refs pin
                 | None => live lp (pr_leases pr) = 0%nat
                 end;
  pinv_cloexec fd d : k_fds k !! (p, fd) = Some d → (p, fd) ∈ k_cloexec k → ∃ lp pin, pr_pinned pr !! lp = Some pin ∧ pin_f pin = fd;
  pinv_path le : le ∈ pr_leases pr → ls_lockPath le = CacheDiskLockPath (ls_imagePath le);
}.

Record inv (w : World) : Prop := {
  inv_kernel : kinv (w_kernel w);
  inv_proc p pr : w_procs w !! p = Some pr → pinv (w_kernel w) p pr;
  inv_alive p fd d : k_fds (w_kernel w) !! (p, fd) = Some d → is_Some (w_procs w !! p);
}.

(** Nothing changes for process [q]. *)
Record same_for (q : nat) (k k' : Kernel) : Prop := {
  same_fds fd : k_fds k' !! (q, fd) = k_fds k !! (q, fd);
  same_inode fd : inode_of q fd k' = inode_of q fd k;
  same_cloexec fd d : k_fds k !! (q, fd) = Some d → (q, fd) ∈ k_cloexec k' ↔ (q, fd) ∈ k_cloexec k;
  same_path lp i : k_inode k !! lp = Some i → k_inode k' !! lp = Some i;
}.

Lemma pinv_same q k k' pr : same_for q k k' → pinv k q pr → pinv k' q pr.
Proof.
  intros [Hf Hi Hc Hp] [H1 H2 H3 H4]. split; [|done| |done].
  - intros lp pin H. apply H1 in H as (Hcl & i & Hlp & Hino). pose proof Hino as (d & Hd & _)%inode_of_Some. rewrite Hi. split; [by apply (Hc _ d)|eauto].
  - intros fd d. rewrite Hf. intros H Hin. eapply H3; [done|]. by apply (Hc _ d).
Qed.

Lemma live_app lp ls le : live lp (ls ++ [le]) = (live lp ls + if bool_decide (ls_lockPath le = lp ∧ ls_released le = false) then 1 else 0)%nat.
Proof.
  unfold live. rewrite filter_app, length_app. f_equal. rewrite filter_cons. by destruct (bool_decide_reflect (ls_lockPath le = lp ∧ ls_released le = false)) as [?|?]; [rewrite decide_True|rewrite decide_False].
Qed.

Lemma live_release lp ls l le :
  ls !! l = Some le → ls_released le = false →
  live lp ls = (live lp (<[l := mkLease (ls_imagePath le) (ls_lockPath le) true]> ls) + if bool_decide (ls_lockPath le = lp) then 1 else 0)%nat.
Proof.
  intros Hl Hr. rewrite <- (take_drop_middle ls l le Hl) at 1. rewrite insert_take_drop by (by eapply lookup_lt_Some).
  unfold live. rewrite !filter_app, !length_app, !filter_cons. rewrite (decide_False (P := _ ∧ true = false)) by (intros [_ ?]; done).
  case_bool_decide; [rewrite decide_True by done|rewrite decide_False by (by intros [])]; cbn [length]; lia.
Qed.

Lemma live_pos lp ls le : le ∈ ls → ls_lockPath le = lp → ls_released le = false → (0 < live lp ls)%nat.
Proof.
  intros Hin H1 H2. unfold live. assert (le ∈ filter (λ le, ls_lockPath le = lp ∧ ls_released le = false) ls) as H by (by apply list_elem_of_filter).
  destruct (filter _ ls); [by apply not_elem_of_nil in H|cbn; lia].
Qed.

Lemma same_set_fds q fds k : fds ⊆ k_fds k → (∀ fd, fds !! (q, fd) = k_fds k !! (q, fd)) → same_for q k (set_fds fds k).
Proof. intros Hsub Hq. split; [done| |done|done]. intros fd. rewrite inode_of_set_fds by done. by rewrite Hq. Qed.

Lemma same_close q p fd k : q ≠ p → same_for q k (sys_close p fd k).
Proof. intros Hq. apply same_set_fds; [apply delete_subseteq|]. intros fd'. apply lookup_delete_ne. congruence. Qed.

Lemma same_exit q p k : q ≠ p → same_for q k (sys_exit p k).
Proof.
  intros Hq. apply same_set_fds; [apply map_filter_subseteq|]. intros fd'. destruct (k_fds k !! (q, fd')) as [d|] eqn:E.
  - by apply map_lookup_filter_Some.
  - apply map_lookup_filter_None. by left.
Qed.

Lemma touch_keeps path k lp i : k_inode k !! lp = Some i → touch_inode path k !! lp = Some i.
Proof.
  intros H. unfold touch_inode. destruct (decide (path = lp)) as [->|]; [by rewrite lookup_insert_eq, H|by rewrite lookup_insert_ne].
Qed.

Lemma same_open_close q p fd path k : kinv k → k_fds k !! (p, fd) = None → same_for q k (sys_close p fd (sys_open p fd path k)).
Proof.
  intros Hk Hfd. destruct (open_close_spec p fd path k Hk Hfd) as (n & _ & _ & ->). split; [done|done| |cbn; eauto using touch_keeps].
  intros fd' d H. cbn. assert ((q, fd') ≠ (p, fd)) by congruence. set_solver.
Qed.

Lemma same_open_flock q p fd path k k' :
  kinv k → k_fds k !! (p, fd) = None → sys_flock p fd (sys_open p fd path k) = Some k' → q ≠ p → same_for q k k'.
Proof.
  intros Hk Hfd E Hq. pose proof (open_flock_spec p fd path k Hk Hfd) as H. cbv zeta in H. rewrite E in H.
  destruct H as (d & n & Hfree & Hd & Hn & ->).
  assert (Hne : ∀ fd', (q, fd') ≠ (p, fd)) by (intros ? [=]; done).
  split; cbn; eauto using touch_keeps; intros fd'; specialize (Hne fd'); [by rewrite lookup_insert_ne| |set_solver].
  unfold inode_of. cbn. rewrite lookup_insert_ne by done. destruct (k_fds k !! (q, fd')) as [d'|] eqn:Ed; [|done]. cbn.
  destruct (kinv_fds _ Hk _ _ Ed) as [i Hi]. pose proof (kinv_desc_fresh _ Hk _ _ Hi). rewrite lookup_insert_ne by lia. done.
Qed.

Lemma same_spawn q p c extra k : q ≠ c → same_for q k (sys_spawn p c extra k).
Proof.
  intros Hq. split; [intros; by apply spawn_fds_ne| | |done].
  - intros fd. unfold inode_of. by rewrite spawn_fds_ne.
  - intros fd d H. cbn. rewrite elem_of_filter. cbn. naive_solver.
Qed.

Lemma same_set_cloexec q p fd k : q ≠ p → same_for q k (set_cloexec p fd k).
Proof. intros Hq. split; [done|done| |done]. intros fd' d H. cbn. assert ((q, fd') ≠ (p, fd)) by congruence. set_solver. Qed.

Lemma same_trans q k1 k2 k3 : same_for q k1 k2 → same_for q k2 k3 → same_for q k1 k3.
Proof.
  intros [Ha Hb Hc Hd] [Ha' Hb' Hc' Hd']. split; [intros; by rewrite Ha'|intros; by rewrite Hb'| |eauto].
  intros fd d H. rewrite Hc'; [by apply Hc with d|by rewrite Ha].
Qed.

(** A new lease on a descriptor, the pins of other slots unchanged. *)
Lemma pinv_newLease k p pr imagePath pin :
  let lp0 := CacheDiskLockPath imagePath in
  (p, pin_f pin) ∈ k_cloexec k →
  (∃ i, k_inode k !! lp0 = Some i ∧ inode_of p (pin_f pin) k = Some i) →
  pin_refs pin = match pr_pinned pr !! lp0 with Some pin => pin_refs pin | None => 0 end + 1 →
  (∀ lp pin, lp ≠ lp0 → pr_pinned pr !! lp = Some pin →
    (p, pin_f pin) ∈ k_cloexec k ∧ ∃ i, k_inode k !! lp = Some i ∧ inode_of p (pin_f pin) k = Some i) →
  (∀ lp, match pr_pinned pr !! lp with
         | Some pin => pin_refs pin = Z.of_nat (live lp (pr_leases pr)) ∧ 0 < pin_refs pin
         | None => live lp (pr_leases pr) = 0%nat end) →
  (∀ fd d, k_fds k !! (p, fd) = Some d → (p, fd) ∈ k_cloexec k → fd = pin_f pin ∨ ∃ lp pin, lp ≠ lp0 ∧ pr_pinned pr !! lp = Some pin ∧ pin_f pin = fd) →
  (∀ le, le ∈ pr_leases pr → ls_lockPath le = CacheDiskLockPath (ls_imagePath le)) →
  pinv k p (newLease imagePath pin pr).1.
Proof.
  intros lp0 Hc Hi Hr Hpins Hrefs Hcl Hpath. split; unfold newLease; cbn [fst pr_pinned pr_leases].
  - intros lp pin'. rewrite lookup_insert_Some. intros [[<- <-]|[? ?]]; eauto.
  - intros lp. rewrite live_app. cbn [ls_lockPath ls_released]. specialize (Hrefs lp). fold lp0. destruct (decide (lp0 = lp)) as [<-|Hne].
    + rewrite lookup_insert_eq, bool_decide_true by done. destruct (pr_pinned pr !! lp0) as [pin'|]; lia.
    + rewrite lookup_insert_ne, bool_decide_false by naive_solver. destruct (pr_pinned pr !! lp) as [pin'|]; [split; [lia|tauto]|lia].
  - intros fd d H1 H2. destruct (Hcl fd d H1 H2) as [->|(lp & pin' & ? & ? & ?)].
    + exists lp0, pin. by rewrite lookup_insert_eq.
    + exists lp, pin'. by rewrite lookup_insert_ne.
  - intros le [? | ->%list_elem_of_singleton]%elem_of_app; [eauto|done].
Qed.

(** Two pins of a process do not share a descriptor. *)
Lemma pins_differ k p pr lp lp' pin pin' :
  kinv k → pinv k p pr → pr_pinned pr !! lp = Some pin → pr_pinned pr !! lp' = Some pin' → pin_f pin = pin_f pin' → lp = lp'.
Proof.
  intros Hk Hp H H' Heq. apply (pinv_pin _ _ _ Hp) in H as (_ & i & Hi & Ho). apply (pinv_pin _ _ _ Hp) in H' as (_ & i' & Hi' & Ho').
  rewrite Heq in Ho. simplify_eq. eauto with lease.
Qed.

Lemma acquire_inv p io imagePath own k pr :
  kinv k → pinv k p pr → open_ok p io k →
  let '(k', pr', _) := acquireCacheDiskSlot p io imagePath own (k, pr) in
  kinv k' ∧ pinv k' p pr' ∧ ∀ q, q ≠ p → same_for q k k' ∧ ∀ fd, k_fds k' !! (q, fd) = k_fds k !! (q, fd).
Proof.
  intros Hk Hp Hio. unfold acquireCacheDiskSlot. set (lp := CacheDiskLockPath imagePath).
  assert (Hrefl : ∀ q, same_for q k k) by done.
  destruct (pr_pinned pr !! lp) as [pin|] eqn:Epin.
  { destruct own; [|by split_and!]. split_and!; [done| |done]. cbn [negb]. pose proof (pinv_pin _ _ _ Hp _ _ Epin) as [Hc Hi].
    apply pinv_newLease; cbn [pin_f pin_refs]; [done|done|fold lp; by rewrite Epin|by eauto using pinv_pin|apply Hp| |apply Hp].
    - intros fd d H1 H2. destruct (pinv_cloexec _ _ _ Hp _ _ H1 H2) as (lp' & pin' & H & <-).
      destruct (decide (lp' = lp)) as [->|]; [left; congruence|eauto 10]. }
  destruct (a_open io) as [fd|] eqn:Eo; [|by split_and!]. pose proof (Hio fd Eo) as Hfd.
  assert (Hclose : kinv (sys_close p fd (sys_open p fd lp k)) ∧ pinv (sys_close p fd (sys_open p fd lp k)) p pr ∧
    ∀ q, q ≠ p → same_for q k (sys_close p fd (sys_open p fd lp k)) ∧ ∀ fd', k_fds (sys_close p fd (sys_open p fd lp k)) !! (q, fd') = k_fds k !! (q, fd')).
  { split_and!; [by apply kinv_open_close|eapply pinv_same; [by apply same_open_close|done]|].
    intros q _. pose proof (same_open_close q p fd lp k Hk Hfd) as Hs. split; [done|apply same_fds, Hs]. }
  destruct (a_flockErr io); [done|]. destruct (sys_flock p fd (sys_open p fd lp k)) as [k'|] eqn:E; [|done].
  cbn zeta iota beta. split_and!; [by eapply kinv_open_flock| |intros q Hq; pose proof (same_open_flock q p fd lp k k' Hk Hfd E Hq) as Hs; split; [done|apply same_fds, Hs]].
  pose proof (open_flock_spec p fd lp k Hk Hfd) as H. cbv zeta in H. rewrite E in H. destruct H as (d & n & Hfree & Hd & Hn & ->).
  set (ino := default _ _) in *.
  apply pinv_newLease; cbn [pin_f pin_refs k_cloexec k_inode k_fds]; [| | | |apply Hp| |apply Hp].
  - set_solver.
  - exists ino. fold lp. unfold touch_inode, inode_of. cbn. rewrite !lookup_insert_eq. cbn. by rewrite lookup_insert_eq.
  - fold lp. by rewrite Epin.
  - intros lp' pin' Hne H. apply (pinv_pin _ _ _ Hp) in H as (Hc & i & Hi & Ho). split; [set_solver|]. exists i.
    split; [by apply touch_keeps|]. apply inode_of_Some in Ho as (d' & Hd' & Hdi). apply inode_of_Some. exists d'. cbn.
    pose proof (kinv_desc_fresh _ Hk _ _ Hdi). rewrite lookup_insert_ne by congruence. rewrite lookup_insert_ne by lia. done.
  - intros fd' d'. rewrite lookup_insert_Some. intros [[[= ->] <-] | [Hne H]] Hc; [by left|right].
    destruct (pinv_cloexec _ _ _ Hp fd' d') as (lp' & pin' & H1 & H2); [done|set_solver|]. exists lp', pin'. split; [|done].
    intros ->. unfold lp in Epin. by rewrite Epin in H1.
Qed.

Lemma kinv_set_cloexec p fd k : kinv k → kinv (set_cloexec p fd k).
Proof. by intros []; split. Qed.

Lemma kinv_close p fd k : kinv k → kinv (sys_close p fd k).
Proof. apply kinv_set_fds, delete_subseteq. Qed.

Lemma inode_of_close p fd fd' k : fd' ≠ fd → inode_of p fd' (sys_close p fd k) = inode_of p fd' k.
Proof.
  intros Hne. unfold sys_close. rewrite inode_of_set_fds by apply delete_subseteq. rewrite lookup_delete_ne; [done|]. congruence.
Qed.

Lemma adopt_inv p ferr fd imagePath k pr :
  kinv k → pinv k p pr → not_pinned fd pr →
  let '(k', pr', _) := AdoptCacheDiskLeaseFD p ferr fd imagePath (k, pr) in
  kinv k' ∧ pinv k' p pr' ∧ ∀ q, q ≠ p → same_for q k k' ∧ ∀ fd, k_fds k' !! (q, fd) = k_fds k !! (q, fd).
Proof.
  intros Hk Hp Hnp. unfold AdoptCacheDiskLeaseFD. set (lp := CacheDiskLockPath imagePath).
  assert (Hsame : kinv k ∧ pinv k p pr ∧ ∀ q, q ≠ p → same_for q k k ∧ ∀ fd, k_fds k !! (q, fd) = k_fds k !! (q, fd)) by done.
  destruct (Z.ltb_spec fd 0); [done|]. destruct (inode_of p (Z.to_nat fd) k) as [got|] eqn:Egot; [|done].
  destruct (k_inode k !! lp) as [want|] eqn:Ewant; [|done]. destruct (Nat.eqb_spec got want) as [->|]; [|done]. cbn [negb].
  destruct ferr; [done|]. set (n := Z.to_nat fd) in *. set (k1 := set_cloexec p n k).
  assert (Hnp' : ∀ lp pin, pr_pinned pr !! lp = Some pin → pin_f pin ≠ n) by (intros lp' pin' H' Heq; apply Hnp in H'; unfold n in Heq; lia).
  assert (Hk1 : kinv k1) by by apply kinv_set_cloexec.
  assert (Hs1 : ∀ q, q ≠ p → same_for q k k1) by (intros; by apply same_set_cloexec).
  assert (Hpins : ∀ lp pin, pr_pinned pr !! lp = Some pin →
    (p, pin_f pin) ∈ k_cloexec k1 ∧ ∃ i, k_inode k1 !! lp = Some i ∧ inode_of p (pin_f pin) k1 = Some i).
  { intros lp' pin' H'. apply (pinv_pin _ _ _ Hp) in H' as (? & i & ? & ?). split; [set_solver|eauto]. }
  destruct (pr_pinned pr !! lp) as [pin|] eqn:Epin; cbn zeta iota beta.
  - split_and!; [by apply kinv_close| |].
    + assert (Hpins2 : ∀ lp pin, pr_pinned pr !! lp = Some pin →
        (p, pin_f pin) ∈ k_cloexec (sys_close p n k1) ∧ ∃ i, k_inode (sys_close p n k1) !! lp = Some i ∧ inode_of p (pin_f pin) (sys_close p n k1) = Some i).
      { intros lp' pin' H'. rewrite inode_of_close by eauto. by apply Hpins. }
      destruct (Hpins2 _ _ Epin) as [Hc Hi].
      apply pinv_newLease; cbn [pin_f pin_refs]; [done|done|fold lp; by rewrite Epin|by eauto|apply Hp| |apply Hp].
      intros fd' d H1 H2. cbn in H1, H2. apply lookup_delete_Some in H1 as [Hne H1].
      destruct (pinv_cloexec _ _ _ Hp fd' d) as (lp' & pin' & H' & <-); [done|set_solver|].
      destruct (decide (lp' = lp)) as [->|]; [left; congruence|eauto 10].
    + intros q Hq. assert (same_for q k (sys_close p n k1)) as Hs by eauto using same_trans, same_close.
      split; [done|apply same_fds, Hs].
  - split_and!; [done| |intros q Hq; by split; [apply Hs1|]].
    apply pinv_newLease; cbn [pin_f pin_refs]; [set_solver|by eauto|fold lp; by rewrite Epin|by eauto|apply Hp| |apply Hp].
    intros fd' d H1 H2. destruct (decide (fd' = n)) as [|Hne]; [by left|right].
    destruct (pinv_cloexec _ _ _ Hp fd' d) as (lp' & pin' & H' & <-); [done|set_solver|]. exists lp', pin'. split; [|done].
    intros ->. unfold lp in Epin. by rewrite Epin in H'.
Qed.

Lemma release_inv p l k pr :
  kinv k → pinv k p pr →
  let '(k', pr') := Release p l (k, pr) in
  kinv k' ∧ pinv k' p pr' ∧ ∀ q, q ≠ p → same_for q k k' ∧ ∀ fd, k_fds k' !! (q, fd) = k_fds k !! (q, fd).
Proof.
  intros Hk Hp. unfold Release. destruct (pr_leases pr !! l) as [le|] eqn:El; [|done]. destruct (ls_released le) eqn:Er; [done|].
  set (leases := <[l := _]> (pr_leases pr)).
  pose proof (λ lp, live_release lp (pr_leases pr) l le El Er) as Hlive. fold leases in Hlive.
  assert (Hpath : ∀ le, le ∈ leases → ls_lockPath le = CacheDiskLockPath (ls_imagePath le)).
  { intros le' [j Hj]%list_elem_of_lookup_1. apply list_lookup_insert_Some in Hj as [(_ & <- & _)|[_ Hj]]; cbn;
      by eapply pinv_path, list_elem_of_lookup_2. }
  pose proof (pinv_refs _ _ _ Hp (ls_lockPath le)) as Hr. destruct (pr_pinned pr !! ls_lockPath le) as [pin|] eqn:Epin.
  2:{ rewrite Hlive, bool_decide_true in Hr by done. lia. }
  destruct (Z.ltb_spec 0 (pin_refs pin - 1)) as [Hlt|Hge]; cbn zeta iota beta.
  - split_and!; [done| |done]. split; cbn [pr_pinned pr_leases]; [| | |done].
    + intros lp' pin'. rewrite lookup_insert_Some. intros [[<- <-]|[? ?]]; [|by eapply pinv_pin]. cbn [pin_f]. by eapply pinv_pin.
    + intros lp'. pose proof (pinv_refs _ _ _ Hp lp') as Hr'. rewrite Hlive in Hr'. destruct (decide (ls_lockPath le = lp')) as [<-|Hne].
      * rewrite lookup_insert_eq. rewrite Hlive, bool_decide_true in Hr by done. cbn [pin_refs]. lia.
      * rewrite lookup_insert_ne by done. rewrite bool_decide_false in Hr' by done. by rewrite Nat.add_0_r in Hr'.
    + intros fd d H1 H2. destruct (pinv_cloexec _ _ _ Hp _ _ H1 H2) as (lp' & pin' & H' & <-).
      destruct (decide (ls_lockPath le = lp')) as [<-|Hne].
      * eexists _, _. rewrite lookup_insert_eq. split; [done|]. cbn. congruence.
      * exists lp', pin'. by rewrite lookup_insert_ne.
  - split_and!; [by apply kinv_close| |].
    + assert (Hother : ∀ lp' pin', lp' ≠ ls_lockPath le → pr_pinned pr !! lp' = Some pin' → pin_f pin' ≠ pin_f pin).
      { intros lp' pin' Hne H' Heq. apply Hne. by apply (pins_differ k p pr lp' (ls_lockPath le) pin' pin). }
      split; cbn [pr_pinned pr_leases]; [| | |done].
      * intros lp' pin' [Hne H']%lookup_delete_Some. rewrite inode_of_close by eauto. exact (pinv_pin _ _ _ Hp _ _ H').
      * intros lp'. pose proof (pinv_refs _ _ _ Hp lp') as Hr'. rewrite Hlive in Hr'. destruct (decide (ls_lockPath le = lp')) as [<-|Hne].
        -- rewrite lookup_delete_eq. rewrite Hlive, bool_decide_true in Hr by done. lia.
        -- rewrite lookup_delete_ne by done. rewrite bool_decide_false in Hr' by done. by rewrite Nat.add_0_r in Hr'.
      * intros fd d H1 H2. cbn in H1. apply lookup_delete_Some in H1 as [Hne H1]. destruct (pinv_cloexec _ _ _ Hp _ _ H1 H2) as (lp' & pin' & H' & <-).
        exists lp', pin'. split; [|done]. rewrite lookup_delete_ne; [done|]. intros <-. congruence.
    + intros q Hq. pose proof (same_close q p (pin_f pin) k Hq) as Hs. split; [done|apply same_fds, Hs].
Qed.

(** ** The invariant of the world *)

Lemma world_put p pr w k' pr' :
  inv w → w_procs w !! p = Some pr → kinv k' → pinv k' p pr' →
  (∀ q, q ≠ p → same_for q (w_kernel w) k' ∧ ∀ fd, k_fds k' !! (q, fd) = k_fds (w_kernel w) !! (q, fd)) →
  inv (put p (k', pr') w).
Proof.
  intros [Hk Hp Ha] Hpr Hk' Hp' Hq. split; cbn; [done| |].
  - intros q prq. rewrite lookup_insert_Some. intros [[<- <-]|[Hne H]]; [done|]. eapply pinv_same; [by apply Hq|by apply Hp].
  - intros q fd d H. destruct (decide (q = p)) as [->|Hne]; [rewrite lookup_insert_eq; eauto|rewrite lookup_insert_ne by done].
    destruct (Hq q Hne) as [_ Hf]. rewrite Hf in H. eauto.
Qed.

Lemma inv_spawn p c extra w : inv w → w_procs w !! c = None → inv (mkWorld (sys_spawn p c extra (w_kernel w)) (<[c := newProc]> (w_procs w))).
Proof.
  intros [Hk Hp Ha] Hc.
  assert (Hnone : ∀ fd, k_fds (w_kernel w) !! (c, fd) = None).
  { intros fd. destruct (k_fds (w_kernel w) !! (c, fd)) eqn:E; [|done]. apply Ha in E as [? ?]. congruence. }
  split; cbn [w_kernel w_procs]; [by apply kinv_spawn| |].
  - intros q prq. rewrite lookup_insert_Some. intros [[<- <-]|[Hne H]].
    + split; [done|done| |by intros ? ?%not_elem_of_nil]. intros fd d _ H. cbn in H. by apply elem_of_filter in H as [[]%(.$ eq_refl) _].
    + eapply pinv_same; [by apply same_spawn|by apply Hp].
  - intros q fd d [H|(-> & _)]%spawn_fds_Some; [|rewrite lookup_insert_eq; eauto].
    destruct (decide (c = q)) as [->|]; [rewrite lookup_insert_eq; eauto|rewrite lookup_insert_ne by done; eauto].
Qed.

Lemma world_exit p w : inv w → inv (mkWorld (sys_exit p (w_kernel w)) (delete p (w_procs w))).
Proof.
  intros [Hk Hp Ha]. split; cbn [w_kernel w_procs].
  - apply kinv_set_fds; [apply map_filter_subseteq|done].
  - intros q prq [Hne H]%lookup_delete_Some. eapply pinv_same; [by apply same_exit|by apply Hp].
  - intros q fd d H. cbn in H. apply map_lookup_filter_Some in H as [H Hne]. cbn in Hne. rewrite lookup_delete_ne by done. eauto.
Qed.

Lemma inv_step p w w' : step p w w' → inv w → inv w'.
Proof.
  intros Hstep Hw. destruct Hstep as [pr io img own Hpr Hio|pr ferr fd img Hpr Hnp|pr l Hpr|c pr extra Hpr Hc|].
  - pose proof (acquire_inv p io img own (w_kernel w) pr (inv_kernel _ Hw) (inv_proc _ Hw _ _ Hpr) Hio) as H.
    destruct (acquireCacheDiskSlot p io img own (w_kernel w, pr)) as [[k' pr'] r]. destruct H as (? & ? & ?). by eapply world_put.
  - pose proof (adopt_inv p ferr fd img (w_kernel w) pr (inv_kernel _ Hw) (inv_proc _ Hw _ _ Hpr) Hnp) as H.
    destruct (AdoptCacheDiskLeaseFD p ferr fd img (w_kernel w, pr)) as [[k' pr'] r]. destruct H as (? & ? & ?). by eapply world_put.
  - pose proof (release_inv p l (w_kernel w) pr (inv_kernel _ Hw) (inv_proc _ Hw _ _ Hpr)) as H.
    destruct (Release p l (w_kernel w, pr)) as [k' pr']. destruct H as (? & ? & ?). by eapply world_put.
  - by apply inv_spawn.
  - by apply world_exit.
Qed.

Lemma inv_boot procs : inv (boot procs).
Proof.
  split; cbn; [split; cbn; by intros *; rewrite ?lookup_empty|..].
  - intros p pr [_ <-]%lookup_gset_to_gmap_Some. split; cbn; intros *; rewrite ?lookup_empty; [done..|by intros ?%not_elem_of_nil].
  - by intros p fd d; rewrite lookup_empty.
Qed.

Lemma reachable_world_inv w : reachable w → inv w.
Proof. intros [procs H]. eapply (rtc_invariant any_step inv); [|done|apply inv_boot]. intros x y [p Hs] Hx. by eapply inv_step. Qed.

(** ** What holding a lease means *)

Lemma holds_pinned w p img :
  inv w → holds w p img → ∃ pr pin, w_procs w !! p = Some pr ∧ pr_pinned pr !! CacheDiskLockPath img = Some pin.
Proof.
  intros Hw (pr & l & le & Hpr & Hl & Hr & <-). exists pr. pose proof (inv_proc _ Hw _ _ Hpr) as Hp.
  assert (Hin : le ∈ pr_leases pr) by by eapply list_elem_of_lookup_2.
  pose proof (pinv_refs _ _ _ Hp (CacheDiskLockPath (ls_imagePath le))) as Hrefs.
  destruct (pr_pinned pr !! _) as [pin|]; [by exists pin|].
  pose proof (live_pos (CacheDiskLockPath (ls_imagePath le)) _ le Hin (pinv_path _ _ _ Hp _ Hin) Hr). lia.
Qed.

Lemma pinned_holds w p pr pin img :
  inv w → w_procs w !! p = Some pr → pr_pinned pr !! CacheDiskLockPath img = Some pin → holds w p img.
Proof.
  intros Hw Hpr Hpin. pose proof (inv_proc _ Hw _ _ Hpr) as Hp. pose proof (pinv_refs _ _ _ Hp (CacheDiskLockPath img)) as Hrefs.
  rewrite Hpin in Hrefs. unfold live in Hrefs. destruct (filter _ (pr_leases pr)) as [|le ls] eqn:E; [cbn in Hrefs; lia|].
  assert (Hin : le ∈ filter (λ le, ls_lockPath le = CacheDiskLockPath img ∧ ls_released le = false) (pr_leases pr)) by (rewrite E; by left).
  apply list_elem_of_filter in Hin as [[Hlp Hr] Hin]. pose proof (pinv_path _ _ _ Hp _ Hin) as Hpath.
  apply list_elem_of_lookup_1 in Hin as [l Hl]. exists pr, l, le. split_and!; [done..|]. rewrite Hlp in Hpath.
  unfold CacheDiskLockPath in Hpath. assert (Some (ls_imagePath le) = Some img) as [=]; [|done].
  transitivity (CutSuffix (ls_imagePath le +:+ ".lock") ".lock"); [symmetry|rewrite <- Hpath]; by apply CutSuffix_Some.
Qed.

(** The lock of a slot is held by the description that every descriptor on it refers to. *)
Lemma descriptor_locked k p fd img i :
  kinv k → inode_of p fd k = Some i → k_inode k !! CacheDiskLockPath img = Some i →
  ∃ d, k_flock k !! i = Some d ∧ k_fds k !! (p, fd) = Some d.
Proof. intros Hk (d & Hd & Hi)%inode_of_Some Hino. eauto with lease. Qed.

Lemma holds_descriptor w p img : inv w → holds w p img → has_descriptor (w_kernel w) p img.
Proof.
  intros Hw H. destruct (holds_pinned _ _ _ Hw H) as (pr & pin & Hpr & Hpin).
  destruct (pinv_pin _ _ _ (inv_proc _ Hw _ _ Hpr) _ _ Hpin) as (_ & i & ? & ?). by exists (pin_f pin), i.
Qed.

(** A probe of a slot whose lock file some process has open is refused and changes no process. *)
Lemma probe_refused k p q io img own pr :
  kinv k → has_descriptor k q img → pr_pinned pr !! CacheDiskLockPath img = None → open_ok p io k →
  ∃ k', acquireCacheDiskSlot p io img own (k, pr) =
    (k', pr, Err (match a_open io with None => SErrOpen | Some _ => ErrCacheDiskSlotBusy end)) ∧ ∀ q', same_for q' k k'.
Proof.
  intros Hk (fdq & i & Hi & Hino) Hpin Hio. destruct (descriptor_locked _ _ _ _ _ Hk Hi Hino) as (d & Hd & _).
  unfold acquireCacheDiskSlot. rewrite Hpin. destruct (a_open io) as [fd|] eqn:Eo; [|by exists k].
  pose proof (Hio fd Eo) as Hfd. exists (sys_close p fd (sys_open p fd (CacheDiskLockPath img) k)).
  split; [|intros q'; by apply same_open_close]. destruct (a_flockErr io); [done|].
  pose proof (open_flock_spec p fd (CacheDiskLockPath img) k Hk Hfd) as H. cbv zeta in H.
  destruct (sys_flock p fd (sys_open p fd (CacheDiskLockPath img) k)) as [k'|]; [|done].
  destruct H as (d' & n & Hfree & _). rewrite Hino in Hfree. cbn in Hfree. congruence.
Qed.

(** A probe of a slot whose lock file nobody has open succeeds. *)
Lemma probe_free k p fd img own pr :
  kinv k → (∀ q, ¬ has_descriptor k q img) → pr_pinned pr !! CacheDiskLockPath img = None → k_fds k !! (p, fd) = None →
  ∃ k', acquireCacheDiskSlot p (mkAIO (Some fd) false) img own (k, pr) =
    (k', (newLease img (mkPin fd 1) pr).1, Ok (length (pr_leases pr))).
Proof.
  intros Hk Hfree Hpin Hfd. unfold acquireCacheDiskSlot. rewrite Hpin. cbn [a_open a_flockErr].
  pose proof (open_flock_spec p fd (CacheDiskLockPath img) k Hk Hfd) as H. cbv zeta in H.
  destruct (sys_flock p fd (sys_open p fd (CacheDiskLockPath img) k)) as [k'|]; [by exists k'|]. exfalso.
  destruct H as [d Hd]. apply (kinv_flock _ Hk) in Hd. pose proof (kinv_desc_fresh _ Hk _ _ Hd) as [_ Hlt].
  destruct (k_inode k !! CacheDiskLockPath img) as [i|] eqn:Ei; cbn in Hd, Hlt; [|lia].
  destruct (referenced_elim _ _ (kinv_used _ Hk _ _ Hd)) as [[q fdq] Hq]. apply (Hfree q). exists fdq, i. split; [|done].
  apply inode_of_Some. eauto.
Qed.

(** ** Steps of others *)

Lemma step_same p s w w' :
  inv w → step p w w' → p ≠ s → is_Some (w_procs w !! s) → same_for s (w_kernel w) (w_kernel w') ∧ w_procs w' !! s = w_procs w !! s.
Proof.
  intros Hw Hstep Hne Hs. destruct Hstep as [pr io img own Hpr Hio|pr ferr fd img Hpr Hnp|pr l Hpr|c pr extra Hpr Hc|].
  - pose proof (acquire_inv p io img own (w_kernel w) pr (inv_kernel _ Hw) (inv_proc _ Hw _ _ Hpr) Hio) as H.
    destruct (acquireCacheDiskSlot p io img own (w_kernel w, pr)) as [[k' pr'] r]. destruct H as (_ & _ & H).
    split; [by apply H|]. by apply lookup_insert_ne.
  - pose proof (adopt_inv p ferr fd img (w_kernel w) pr (inv_kernel _ Hw) (inv_proc _ Hw _ _ Hpr) Hnp) as H.
    destruct (AdoptCacheDiskLeaseFD p ferr fd img (w_kernel w, pr)) as [[k' pr'] r]. destruct H as (_ & _ & H).
    split; [by apply H|]. by apply lookup_insert_ne.
  - pose proof (release_inv p l (w_kernel w) pr (inv_kernel _ Hw) (inv_proc _ Hw _ _ Hpr)) as H.
    destruct (Release p l (w_kernel w, pr)) as [k' pr']. destruct H as (_ & _ & H). split; [by apply H|]. by apply lookup_insert_ne.
  - assert (c ≠ s) by (intros ->; rewrite Hc in Hs; by destruct Hs). split; [by apply same_spawn|]. by apply lookup_insert_ne.
  - split; [by apply same_exit|]. by apply lookup_delete_ne.
Qed.

Lemma others_same s w w' :
  rtc (others_step s) w w' → inv w → is_Some (w_procs w !! s) →
  inv w' ∧ same_for s (w_kernel w) (w_kernel w') ∧ w_procs w' !! s = w_procs w !! s.
Proof.
  induction 1 as [w|w w1 w2 (p & Hne & Hs) _ IH]; intros Hw Halive; [done|].
  destruct (step_same p s w w1 Hw Hs Hne Halive) as [H1 H2]. destruct IH as (? & ? & ?); [by eapply inv_step|by rewrite H2|].
  split_and!; [done|by eapply same_trans|congruence].
Qed.

(** ** Handing leases to a supervisor *)

Lemma place_lease_files_all pipe (fs : list nat) :
  place_lease_files pipe (Some <$> fs) =
  ((if pipe then [None] else []) ++ (Some <$> fs), imap (λ i _, Z.of_nat (3 + (if pipe then 1 else 0) + i)) fs).
Proof.
  unfold place_lease_files. set (pre := if pipe then [None] else []). set (m := if pipe then 1%nat else 0%nat).
  assert (Hm : length pre = m) by by destruct pipe.
  assert (Hgen : ∀ done_, fold_left (λ (acc : list (option nat) * list Z) lf, match lf with None => acc | Some f =>
       let extra := acc.1 ++ [Some f] in (extra, acc.2 ++ [Z.of_nat (3 + length extra - 1)]) end) (Some <$> fs)
       (pre ++ (Some <$> done_), imap (λ i _, Z.of_nat (3 + m + i)) done_) =
     (pre ++ (Some <$> done_ ++ fs), imap (λ i _, Z.of_nat (3 + m + i)) (done_ ++ fs))).
  { induction fs as [|f fs IH]; intros done_; [by rewrite app_nil_r|]. cbn [fmap list_fmap fold_left fst snd].
    replace (done_ ++ f :: fs) with ((done_ ++ [f]) ++ fs) by (by rewrite <- app_assoc). rewrite <- (IH (done_ ++ [f])). f_equal.
    rewrite fmap_app, imap_app, <- app_assoc. f_equal. f_equal. cbn. rewrite !length_app, length_fmap, Hm. cbn. do 2 f_equal. lia. }
  specialize (Hgen []). cbn [fmap list_fmap imap app] in Hgen. by rewrite app_nil_r in Hgen.
Qed.

(** Descriptors of lock files that are inherited and not yet adopted. *)
Definition inherited (k : Kernel) (p : nat) (pr : Proc) (fd : Z) (img : string) : Prop :=
  0 < fd ∧ not_pinned fd pr ∧ ∃ i, inode_of p (Z.to_nat fd) k = Some i ∧ k_inode k !! CacheDiskLockPath img = Some i.

Lemma adopt_inherited k p pr fd img :
  inherited k p pr fd img →
  ∃ k' pr' l, AdoptCacheDiskLeaseFD p false fd img (k, pr) = (k', pr', Ok l) ∧ is_Some (pr_pinned pr' !! CacheDiskLockPath img) ∧
    (∀ lp, is_Some (pr_pinned pr !! lp) → is_Some (pr_pinned pr' !! lp)) ∧
    ∀ fd' img', fd' ≠ fd → inherited k p pr fd' img' → inherited k' p pr' fd' img'.
Proof.
  intros (Hpos & Hnp & i & Hi & Hlp). unfold AdoptCacheDiskLeaseFD. rewrite (proj2 (Z.ltb_ge fd 0)) by lia.
  rewrite Hi, Hlp, Nat.eqb_refl. cbn [negb]. set (n := Z.to_nat fd).
  destruct (pr_pinned pr !! CacheDiskLockPath img) as [pin|] eqn:Epin; cbn zeta iota beta; eexists _, _, _; (split; [reflexivity|]); cbn.
  - rewrite lookup_insert_eq. split_and!; [done| |].
    + intros lp H. destruct (decide (CacheDiskLockPath img = lp)) as [<-|]; [by rewrite lookup_insert_eq|by rewrite lookup_insert_ne].
    + intros fd' img' Hne (Hpos' & Hnp' & i' & Hi' & Hlp'). split; [done|]. split.
      * intros lp pin'. cbn. rewrite lookup_insert_Some. intros [[<- <-]|[_ H]]; [cbn; by apply (Hnp' _ _ Epin)|by apply (Hnp' _ _ H)].
      * exists i'. split; [|done]. rewrite inode_of_close; [done|]. unfold n. lia.
  - rewrite lookup_insert_eq. split_and!; [done| |].
    + intros lp H. destruct (decide (CacheDiskLockPath img = lp)) as [<-|]; [by rewrite lookup_insert_eq|by rewrite lookup_insert_ne].
    + intros fd' img' Hne (Hpos' & Hnp' & i' & Hi' & Hlp'). split; [done|]. split; [|by exists i'].
      intros lp pin'. cbn. rewrite lookup_insert_Some. intros [[<- <-]|[_ H]]; [cbn; unfold n; lia|by apply (Hnp' _ _ H)].
Qed.

Lemma leases_loop_adopts p turns fds slots : ∀ i held k pr,
  (∀ a b fd, fds !! a = Some fd → fds !! b = Some fd → a = b) →
  (∀ j slot, slots !! j = Some slot → ∃ fd, fds !! (i + j)%nat = Some fd ∧ inherited k p pr fd slot) →
  ∃ k' pr' ls, leases_loop p (λ _, false) turns fds i slots held (k, pr) = (k', pr', Some (Ok (held ++ ls))) ∧
    length ls = length slots ∧ (∀ slot, slot ∈ slots → is_Some (pr_pinned pr' !! CacheDiskLockPath slot)) ∧
    ∀ lp, is_Some (pr_pinned pr !! lp) → is_Some (pr_pinned pr' !! lp).
Proof.
  induction slots as [|slot slots IH]; intros i held k pr Hinj Hall.
  { exists k, pr, []. cbn. rewrite app_nil_r. split_and!; [done..|by intros ? ?%not_elem_of_nil|done]. }
  destruct (Hall 0%nat slot eq_refl) as (fd & Hfd & Hin). rewrite Nat.add_0_r in Hfd.
  destruct (adopt_inherited _ _ _ _ _ Hin) as (k1 & pr1 & l & Hadopt & Hpin & Hmono & Hrest).
  destruct (IH (S i) (held ++ [l]) k1 pr1 Hinj) as (k' & pr' & ls & Hloop & Hlen & Hpins & Hmono').
  { intros j slot' Hj. destruct (Hall (S j) slot' Hj) as (fd' & Hfd' & Hin'). exists fd'.
    assert ((i + S j)%nat = (S i + j)%nat) as Heq by lia. split; [by rewrite <- Heq|]. apply Hrest; [|done].
    intros ->. pose proof (Hinj _ _ _ Hfd' Hfd). lia. }
  exists k', pr', (l :: ls). cbn [leases_loop]. rewrite Hfd. rewrite (proj2 (Z.ltb_lt 0 fd)) by apply Hin. rewrite Hadopt.
  cbn zeta iota beta. rewrite Hloop. split_and!; [by rewrite <- app_assoc|cbn; by f_equal| |eauto].
  intros slot' [-> | H]%elem_of_cons; eauto.
Qed.

(** ** Theorems *)

(** C21: In every reachable state, while a process holds the lease on a slot, an acquisition by a process that has none is
    refused and takes nothing from anybody; two processes that both hold it share one open file description, which only a
    hand-off gives them. *)
Theorem lease_exclusive w p q img :
  reachable w → holds w q img →
  (∀ pr io own, w_procs w !! p = Some pr → ¬ holds w p img → open_ok p io (w_kernel w) →
    ∃ k', acquireCacheDiskSlot p io img own (w_kernel w, pr) =
      (k', pr, Err (match a_open io with None => SErrOpen | Some _ => ErrCacheDiskSlotBusy end)) ∧
    ∀ q' img', holds (put p (k', pr) w) q' img' ↔ holds w q' img') ∧
  (holds w p img → ∃ d fdp fdq, k_fds (w_kernel w) !! (p, fdp) = Some d ∧ k_fds (w_kernel w) !! (q, fdq) = Some d).
Proof.
  intros Hw%reachable_world_inv Hq. pose proof (inv_kernel _ Hw) as Hk. split.
  - intros pr io own Hpr Hnot Hio.
    assert (Hnone : pr_pinned pr !! CacheDiskLockPath img = None).
    { destruct (pr_pinned pr !! CacheDiskLockPath img) eqn:E; [|done]. by destruct Hnot; eapply pinned_holds. }
    destruct (probe_refused _ p q io img own pr Hk (holds_descriptor _ _ _ Hw Hq) Hnone Hio) as (k' & Heq & _).
    exists k'. split; [done|]. intros q' img'. unfold holds, put. cbn. by rewrite insert_id.
  - intros Hp. destruct (holds_descriptor _ _ _ Hw Hp) as (fdp & i & Hi & Hino). destruct (holds_descriptor _ _ _ Hw Hq) as (fdq & i' & Hi' & Hino').
    destruct (descriptor_locked _ _ _ _ _ Hk Hi Hino) as (d & Hd & Hfp). destruct (descriptor_locked _ _ _ _ _ Hk Hi' Hino') as (d' & Hd' & Hfq).
    exists d, fdp, fdq. simplify_eq. done.
Qed.

(** The files of leases that are not released are open on the lock files. *)
Lemma lease_files_open w c pr ls :
  inv w → w_procs w !! c = Some pr → (∀ l, l ∈ ls → ∃ le, pr_leases pr !! l = Some le ∧ ls_released le = false) →
  ∃ fs, (λ l, lease_File l pr) <$> ls = Some <$> fs ∧
    Forall2 (λ l f, ∃ i, k_inode (w_kernel w) !! CacheDiskLockPath (ImagePath l pr) = Some i ∧ inode_of c f (w_kernel w) = Some i) ls fs.
Proof.
  intros Hw Hc Hls. induction ls as [|l ls IH]; [exists []; by split|]. destruct IH as (fs & Hfs & Hall); [intros; apply Hls; by right|].
  destruct (Hls l) as (le & Hle & Hr); [by left|]. destruct (holds_pinned w c (ls_imagePath le)) as (pr' & pin & Hpr' & Hpin); [done|by exists pr, l, le|].
  assert (pr' = pr) as -> by congruence. pose proof (inv_proc _ Hw _ _ Hc) as Hp.
  pose proof (pinv_path _ _ _ Hp le (list_elem_of_lookup_2 _ _ _ Hle)) as Hpath.
  exists (pin_f pin :: fs). cbn. rewrite Hfs. unfold lease_File. rewrite Hle. cbn. rewrite Hpath, Hpin. split; [done|]. constructor; [|done].
  destruct (pinv_pin _ _ _ Hp _ _ Hpin) as (_ & i & Hi & Ho). exists i. unfold ImagePath. by rewrite Hle.
Qed.

(** C22: Hand-off: a process that holds leases spawns a supervisor with their files; whatever the other processes do then (the
    spawner may release its leases or die), the supervisor's acquisition takes over every slot, and until it does no probe by a
    process without the lease succeeds. *)
Theorem handoff_keeps_leases w c s pr ls pipe turns w2 extra fds :
  reachable w → w_procs w !! c = Some pr → w_procs w !! s = None →
  (∀ l, l ∈ ls → ∃ le, pr_leases pr !! l = Some le ∧ ls_released le = false) →
  place_lease_files pipe ((λ l, lease_File l pr) <$> ls) = (extra, fds) →
  rtc (others_step s) (mkWorld (sys_spawn c s extra (w_kernel w)) (<[s := newProc]> (w_procs w))) w2 →
  (∃ k' pr' ls', acquireCacheDiskLeases s (λ _, false) turns (CacheDiskSlotPaths ls pr) fds (w_kernel w2, newProc) = (k', pr', Some (Ok ls')) ∧
     length ls' = length ls ∧ ∀ img, img ∈ CacheDiskSlotPaths ls pr → is_Some (pr_pinned pr' !! CacheDiskLockPath img)) ∧
  ∀ img q prq io own, img ∈ CacheDiskSlotPaths ls pr → w_procs w2 !! q = Some prq → ¬ holds w2 q img → open_ok q io (w_kernel w2) →
    ∃ k' e, acquireCacheDiskSlot q io img own (w_kernel w2, prq) = (k', prq, Err e).
Proof.
  intros Hw%reachable_world_inv Hc Hs Hls Hplace Hrun. pose proof (inv_kernel _ Hw) as Hk.
  destruct (lease_files_open w c pr ls Hw Hc Hls) as (fs & Hfs & Hall). rewrite Hfs, place_lease_files_all in Hplace. injection Hplace as <- <-. set (m := if pipe then 1%nat else 0%nat) in *.
  destruct (others_same s _ _ Hrun) as (Hw2 & Hsame & Hproc); [by apply inv_spawn|cbn; rewrite lookup_insert_eq; eauto|]. cbn in Hsame, Hproc.
  rewrite lookup_insert_eq in Hproc.
  assert (Hdesc : ∀ j l, ls !! j = Some l → ∃ i, inode_of s (3 + m + j)%nat (w_kernel w2) = Some i ∧
    k_inode (w_kernel w2) !! CacheDiskLockPath (ImagePath l pr) = Some i).
  { intros j l Hj. destruct (Forall2_lookup_l _ _ _ _ _ Hall Hj) as (f & Hf & i & Hi & (d & Hd & Hdi)%inode_of_Some). exists i.
    rewrite (same_inode _ _ _ Hsame). split; [|by eapply same_path]. apply inode_of_Some. exists d. split; [|done].
    rewrite <- Nat.add_assoc. apply (spawn_fds_passed _ _ _ _ _ f); [|done].
    rewrite lookup_app_r by (unfold m; destruct pipe; cbn; lia).
    replace (m + j - length (if pipe then [None] else []))%nat with j by (unfold m; destruct pipe; cbn; lia). by rewrite list_lookup_fmap, Hf. }
  assert (Hlenfs : length fs = length ls) by (symmetry; by eapply Forall2_length).
  split.
  - destruct (leases_loop_adopts s turns (imap (λ i _, Z.of_nat (3 + m + i)) fs) (CacheDiskSlotPaths ls pr) 0 [] (w_kernel w2) newProc) as (k' & pr' & ls' & Hloop & Hlen & Hpins & _).
    + intros a b fd. rewrite !list_lookup_imap. destruct (fs !! a), (fs !! b); cbn; intros [= <-] [=]. lia.
    + intros j slot Hj. unfold CacheDiskSlotPaths in Hj. rewrite list_lookup_fmap in Hj. destruct (ls !! j) as [l|] eqn:El; [|done]. cbn in Hj. injection Hj as <-.
      destruct (lookup_lt_is_Some_2 fs j) as [f Hf]; [rewrite Hlenfs; by eapply lookup_lt_Some|].
      exists (Z.of_nat (3 + m + j)). rewrite list_lookup_imap. cbn [Nat.add]. rewrite Hf. split; [done|]. split; [lia|]. split; [by intros lp pin H|].
      rewrite Nat2Z.id. by apply Hdesc.
    + exists k', pr', ls'. unfold CacheDiskSlotPaths in Hlen. rewrite length_fmap in Hlen. split; [exact Hloop|done].
  - intros img q prq io own (l & -> & Hl)%list_elem_of_fmap Hq Hnot Hio. apply list_elem_of_lookup_1 in Hl as [j Hj]. destruct (Hdesc j l Hj) as (i & Hi & Hino).
    destruct (probe_refused (w_kernel w2) q s io (ImagePath l pr) own prq) as (k' & Heq & _); [apply Hw2|by exists (3 + m + j)%nat, i| |done|eauto].
    destruct (pr_pinned prq !! CacheDiskLockPath (ImagePath l pr)) eqn:E; [|done]. by destruct Hnot; eapply pinned_holds.
Qed.

(** The lease dies with its owner: when the only process with the lock file open is one that holds the lease, and it starts a child
    without passing it the file, then once the owner is gone the slot is free although the child lives on. *)
Theorem lease_dies_with_supervisor w s n img pr extra :
  reachable w → w_procs w !! s = Some pr → w_procs w !! n = None → holds w s img →
  (∀ q fd, inode_of q fd (w_kernel w) = k_inode (w_kernel w) !! CacheDiskLockPath img → q = s ∧ (s, fd) ∈ k_cloexec (w_kernel w)) →
  Forall (λ f, f = None) extra →
  let k2 := sys_exit s (sys_spawn s n extra (w_kernel w)) in
  ∀ p prp fd own, p ≠ s → (w_procs w !! p = Some prp ∨ p = n ∧ prp = newProc) → k_fds k2 !! (p, fd) = None →
  ∃ k', acquireCacheDiskSlot p (mkAIO (Some fd) false) img own (k2, prp) = (k', (newLease img (mkPin fd 1) prp).1, Ok (length (pr_leases prp))).
Proof.
  intros Hw%reachable_world_inv Hs Hn Hholds Hsole Hextra k2 p prp fd own Hne Hp Hfd. pose proof (inv_spawn s n extra w Hw Hn) as Hw1.
  pose proof (world_exit s _ Hw1) as Hw2. cbn [w_kernel w_procs] in Hw2. fold k2 in Hw2.
  destruct (holds_descriptor _ _ _ Hw Hholds) as (fds & i & Hi & Hino).
  apply probe_free; [apply Hw2| | |done].
  - intros q (fdq & i' & Hi' & Hino'). cbn in Hino'. assert (i' = i) as -> by congruence.
    unfold k2, sys_exit in Hi'. rewrite inode_of_set_fds in Hi' by apply map_filter_subseteq. apply bind_Some in Hi' as (d & Hd & Hdi).
    apply map_lookup_filter_Some in Hd as [Hd Hqs]. cbn in Hqs, Hdi. apply spawn_fds_Some in Hd as [Hd|(-> & f & Hf & Hor)].
    + destruct (Hsole q fdq) as [-> _]; [|done]. rewrite Hino. apply inode_of_Some. eauto.
    + destruct (Hsole s f) as [_ Hcl]; [rewrite Hino; apply inode_of_Some; eauto|]. destruct Hor as [?|(j & _ & Hj)]; [done|].
      rewrite Forall_lookup in Hextra. by apply Hextra in Hj.
  - destruct Hp as [Hp|[-> ->]]; [|done]. destruct (pr_pinned prp !! CacheDiskLockPath img) as [pin|] eqn:E; [|done].
    destruct (pinv_pin _ _ _ (inv_proc _ Hw _ _ Hp) _ _ E) as (_ & i' & Hi' & Ho). destruct (Hsole p (pin_f pin)) as [-> _]; [congruence|done].
Qed.

(** ** Selection *)

(** Beside what the registry held before ([pr0]), the process has exactly the leases [ls], each on a slot of its own. *)
Definition owns (pr0 : Proc) (ls : list nat) (pr : Proc) : Prop :=
  ∃ paths, Forall2 (λ l lp, ∃ le, pr_leases pr !! l = Some le ∧ ls_released le = false ∧ ls_lockPath le = lp ∧ lp = CacheDiskLockPath (ls_imagePath le)) ls paths ∧ NoDup paths ∧
    ∀ lp, (lp ∉ paths → pr_pinned pr !! lp = pr_pinned pr0 !! lp) ∧
          (lp ∈ paths → pr_pinned pr0 !! lp = None ∧ ∃ pin, pr_pinned pr !! lp = Some pin ∧ pin_refs pin = 1).

Lemma owns_nil pr : owns pr [] pr.
Proof. exists []. split_and!; [constructor|constructor|]. intros lp. split; [done|by intros ?%not_elem_of_nil]. Qed.

Lemma acquire_owns p io img k pr k' pr' l pr0 ls :
  owns pr0 ls pr → acquireCacheDiskSlot p io img false (k, pr) = (k', pr', Ok l) →
  owns pr0 (ls ++ [l]) pr' ∧ ImagePath l pr' = img ∧ ∀ l', l' ∈ ls → ImagePath l' pr' = ImagePath l' pr.
Proof.
  intros (paths & Hall & Hnd & Hpins) Hacq.
  assert (Hnew : pr_pinned pr !! CacheDiskLockPath img = None ∧ ∃ fd, pr' = (newLease img (mkPin fd 1) pr).1 ∧ l = length (pr_leases pr)).
  { unfold acquireCacheDiskSlot in Hacq. split_matches; eauto. }
  destruct Hnew as (Hnone & fd & -> & ->). cbn.
  assert (Hlt : ∀ l, l ∈ ls → (l < length (pr_leases pr))%nat).
  { intros l Hl. destruct (list_elem_of_lookup_1 _ _ Hl) as [j Hj]. destruct (Forall2_lookup_l _ _ _ _ _ Hall Hj) as (? & _ & le & Hle & _).
    by eapply lookup_lt_Some. }
  assert (Hnin : CacheDiskLockPath img ∉ paths) by (intros Hin; apply Hpins in Hin as (_ & pin & Hpin & _); congruence).
  split_and!.
  - exists (paths ++ [CacheDiskLockPath img]). split_and!.
    + apply Forall2_app.
      * eapply Forall2_impl; [done|]. intros l lp (le & Hle & H). exists le. cbn. split; [|done]. by apply lookup_app_l_Some.
      * constructor; [|done]. eexists. cbn. rewrite lookup_app_r, Nat.sub_diag by done. by split.
    + apply NoDup_app. split_and!; [done| |apply NoDup_singleton]. by intros lp Hin ->%list_elem_of_singleton.
    + intros lp. cbn. rewrite elem_of_app, list_elem_of_singleton. destruct (Hpins lp) as [H1 H2]. destruct (decide (CacheDiskLockPath img = lp)) as [<-|Hne].
      * rewrite lookup_insert_eq. split; [tauto|]. intros _. rewrite <- H1 by done. eauto.
      * rewrite lookup_insert_ne by done. split; [tauto|]. intros [H| ->]; [by apply H2|done].
  - unfold ImagePath. cbn. by rewrite lookup_app_r, Nat.sub_diag by done.
  - intros l' Hl'. unfold ImagePath. cbn. by rewrite lookup_app_l by eauto.
Qed.

Lemma Forall2_impl_right {A B} (P Q : A → B → Prop) l k :
  Forall2 P l k → (∀ x y, y ∈ k → P x y → Q x y) → Forall2 Q l k.
Proof. induction 1 as [|x y l k Hxy _ IH]; intros H; constructor; [apply H; [by left|done]|]. apply IH. intros; apply H; [by right|done]. Qed.

Lemma release_owns p l k pr pr0 ls1 ls2 :
  owns pr0 (ls1 ++ l :: ls2) pr → owns pr0 (ls1 ++ ls2) (Release p l (k, pr)).2.
Proof.
  intros (paths & Hall & Hnd & Hpins). apply Forall2_app_inv_l in Hall as (ps1 & ps' & Hall1 & Hall' & ->).
  apply Forall2_cons_inv_l in Hall' as (lp & ps2 & (le & Hle & Hr & Hlp & Himg) & Hall2 & ->). subst lp.
  apply NoDup_app in Hnd as (Hnd1 & Hdis & Hnd2). apply NoDup_cons in Hnd2 as [Hn2 Hnd2].
  destruct (proj2 (Hpins (ls_lockPath le))) as (Hnone & pin & Hpin & Hrefs); [apply elem_of_app; right; by left|].
  unfold Release. rewrite Hle, Hr, Hpin, Hrefs. cbn [snd]. change (0 <? 1 - 1) with false. cbv iota. cbn [snd].
  assert (Hn1 : ls_lockPath le ∉ ps1) by (intros Hin; eapply Hdis; [done|by left]).
  assert (Hkeep : ∀ l' lp, lp ≠ ls_lockPath le →
    (∃ le, pr_leases pr !! l' = Some le ∧ ls_released le = false ∧ ls_lockPath le = lp ∧ lp = CacheDiskLockPath (ls_imagePath le)) →
    ∃ le', (<[l := mkLease (ls_imagePath le) (ls_lockPath le) true]> (pr_leases pr)) !! l' = Some le' ∧ ls_released le' = false ∧ ls_lockPath le' = lp ∧ lp = CacheDiskLockPath (ls_imagePath le')).
  { intros l' lp Hne (le' & Hle' & H). exists le'. split; [|done]. rewrite list_lookup_insert_ne; [done|]. naive_solver. }
  exists (ps1 ++ ps2). split_and!.
  - apply Forall2_app; (eapply Forall2_impl_right; [eassumption|]); intros l' lp Hin H; cbn; (apply Hkeep; [congruence|done]).
  - apply NoDup_app. split_and!; [done| |done]. intros lp Hin Hin2. eapply Hdis; [done|by right].
  - intros lp. cbn. rewrite elem_of_app. destruct (Hpins lp) as [H1 H2]. rewrite elem_of_app, elem_of_cons in H1, H2.
    destruct (decide (ls_lockPath le = lp)) as [<-|Hne]; [rewrite lookup_delete_eq|rewrite lookup_delete_ne by done]; split; [done|tauto|..].
    + intros H. apply H1. naive_solver.
    + intros H. apply H2. tauto.
Qed.

Lemma release_all_owns p ls : ∀ s pr0, owns pr0 ls s.2 → owns pr0 [] (ReleaseCacheDiskLeases p ls s).2.
Proof.
  induction ls as [|l ls IH]; intros [k pr] pr0 H; [done|]. cbn [ReleaseCacheDiskLeases fold_left].
  apply IH. by apply (release_owns p l k pr pr0 [] ls).
Qed.

Lemma refused_same p io img own k pr k' pr' e : acquireCacheDiskSlot p io img own (k, pr) = (k', pr', Err e) → pr' = pr.
Proof. unfold acquireCacheDiskSlot, newLease. intros H. split_matches; done. Qed.

Section SelectSpec.
Context {D Spec : Type} (ensure : nat → string → ecosystemEntry → nat → D → D * result slot_error Spec).
Context (p : nat) (io : nat → nat → Kernel → AcquireIO).

(** One slot: either one more lease, on one of the key's images that [ensure] prepared, or none. *)
Lemma slot_loop_spec i dir key entry slots pr0 ls : ∀ s dk s' dk' r,
  owns pr0 ls s.2 → slot_loop ensure p io i dir key entry slots s dk = (s', dk', r) →
  match r with
  | Ok (spec, l) => owns pr0 (ls ++ [l]) s'.2 ∧ (∀ l', l' ∈ ls → ImagePath l' s'.2 = ImagePath l' s.2) ∧
      ∃ slot dk0, slot ∈ slots ∧ ImagePath l s'.2 = slotImagePath dir key slot ∧ ensure i key entry slot dk0 = (dk', Ok spec)
  | Err _ => owns pr0 ls s'.2
  end.
Proof.
  induction slots as [|slot slots IH]; intros [k pr] dk s' dk' r Hown Hloop; cbn [slot_loop] in Hloop; [by simplify_eq|].
  destruct (acquireCacheDiskSlot p (io i slot (k, pr).1) (slotImagePath dir key slot) false (k, pr)) as [[k1 pr1] [l|e]] eqn:Ea.
  - destruct (acquire_owns _ _ _ _ _ _ _ _ _ _ Hown Ea) as (Hown' & Himg & Hkeep).
    destruct (ensure i key entry slot dk) as [dk1 [spec|e]] eqn:Ee; simplify_eq; cbn.
    + split_and!; [done|done|]. exists slot, dk. split_and!; [by left|done|done].
    + pose proof (release_owns p l k1 pr1 pr0 ls [] Hown') as H. by rewrite app_nil_r in H.
  - pose proof (refused_same _ _ _ _ _ _ _ _ _ Ea) as ->.
    assert (Hsame : (k1, pr, dk, Err e) = (s', dk', r) ∨ slot_loop ensure p io i dir key entry slots (k1, pr) dk = (s', dk', r))
      by (destruct e; auto).
    destruct Hsame as [|Hrest]; [by simplify_eq|]. pose proof (IH (k1, pr) dk s' dk' r Hown Hrest) as H.
    destruct r as [[spec l]|]; [|done]. destruct H as (? & ? & slot' & dk0 & ? & ?). split_and!; [done..|]. exists slot', dk0. split; [by right|done].
Qed.

Lemma select_loop_spec dir pr0 : ∀ keys i held specs s dk s' dk' r,
  owns pr0 held s.2 → select_loop ensure p io i dir keys held specs s dk = (s', dk', r) →
  match r with
  | Ok (specs', ls) => owns pr0 ls s'.2 ∧ ∃ new, ls = held ++ new ∧ (∀ l, l ∈ held → ImagePath l s'.2 = ImagePath l s.2) ∧
      Forall2 (λ l e, ∃ slot, (slot < MaxCacheDiskSlots)%nat ∧ ImagePath l s'.2 = slotImagePath dir e.1 slot) new keys
  | Err _ => owns pr0 [] s'.2
  end.
Proof.
  induction keys as [|[key entry] keys IH]; intros i held specs s dk s' dk' r Hown Hsel; cbn [select_loop] in Hsel.
  { simplify_eq. split; [done|]. exists []. by rewrite app_nil_r. }
  unfold leaseCacheDiskSlot in Hsel. destruct (slot_loop ensure p io i dir key entry _ s dk) as [[s1 dk1] [[spec l]|e]] eqn:El.
  - apply (slot_loop_spec _ _ _ _ _ _ _ _ _ _ _ _ Hown) in El as (Hown1 & Hkeep & slot & dk0 & Hslot & Himg & _).
    pose proof (IH _ _ _ _ _ _ _ _ Hown1 Hsel) as H. destruct r as [[specs' ls]|]; [|done].
    destruct H as (Hown' & new & -> & Hkeep' & Hall). split; [done|]. exists (l :: new). split_and!.
    + by rewrite <- app_assoc.
    + intros l' Hl'. rewrite Hkeep'; [by apply Hkeep|]. apply elem_of_app. by left.
    + constructor; [|done]. exists slot. split; [by apply elem_of_seq in Hslot as [_ ?]|]. rewrite Hkeep'; [done|]. apply elem_of_app. right. by left.
  - apply (slot_loop_spec _ _ _ _ _ _ _ _ _ _ _ _ Hown) in El. simplify_eq. by apply release_all_owns.
Qed.

(** Selecting disks takes, for every key, one lease on one of the eight images of its ecosystem, all images different; or it
    fails and the process holds what it held before. *)
Theorem select_all_or_nothing mkdirErr dataDir keys s dk s' dk' r :
  SelectCacheDisks ensure p io mkdirErr dataDir keys s dk = (s', dk', r) →
  match r with
  | Ok (specs, ls) =>
      owns s.2 ls s'.2 ∧ NoDup (CacheDiskSlotPaths ls s'.2) ∧
      Forall2 (λ l key, ∃ slot, (slot < MaxCacheDiskSlots)%nat ∧ ImagePath l s'.2 = slotImagePath (filepath_Join dataDir "caches") key slot) ls keys
  | Err _ => pr_pinned s'.2 = pr_pinned s.2
  end.
Proof.
  unfold SelectCacheDisks. destruct (mapM _ keys) as [entries|] eqn:Em; [|intros; by simplify_eq]. destruct mkdirErr; [intros; by simplify_eq|].
  intros Hsel. pose proof (select_loop_spec _ (s.2) _ _ _ _ _ _ _ _ _ (owns_nil s.2) Hsel) as H. destruct r as [[specs ls]|].
  - destruct H as (Hown & new & -> & _ & Hall). cbn [app] in *. split_and!; [done| |].
    + destruct Hown as (paths & Hp & Hnd & _). assert (paths = CacheDiskLockPath <$> CacheDiskSlotPaths new s'.2) as ->.
      { clear -Hp. induction Hp as [|l lp ls paths (le & Hle & _ & Hlp & Himg) _ IH]; [done|]. cbn. f_equal; [|done].
        unfold ImagePath. by rewrite Hle, <- Himg. }
      by apply NoDup_fmap_1 in Hnd.
    + apply mapM_Some in Em. clear -Hall Em. revert new Hall. induction Em as [|key e keys es He _ IH]; intros new Hall.
      * apply Forall2_nil_inv_r in Hall as ->. constructor.
      * apply Forall2_cons_inv_r in Hall as (l & new' & Hl & Hall & ->). constructor; [|by apply IH].
        apply bind_Some in He as (en & _ & [= <-]). done.
  - destruct H as (paths & Hp & _ & Hpins). apply Forall2_nil_inv_l in Hp as ->. apply map_eq. intros lp. by apply Hpins, not_elem_of_nil.
Qed.
End SelectSpec.

(** Polling for a slot ends with the deadline. *)
Lemma wait_ends p img turns : ∀ s, Exists (λ t, t_late t = true) turns → is_Some (AcquireCacheDiskSlotWait p img turns s).2.
Proof.
  induction turns as [|t turns IH]; intros s Hex; [by apply Exists_nil in Hex|]. cbn [AcquireCacheDiskSlotWait].
  destruct (acquireCacheDiskSlot p (t_io t) img true s) as [s1 [l|e]]; [done|]. destruct e; try done.
  destruct (t_late t) eqn:El; [done|]. destruct (t_done t); [done|]. apply IH. apply Exists_cons in Hex as [?|?]; [congruence|done].
Qed.

(** ** The record's field *)

Lemma chars_concat_comma ss : chars (String.concat "," ss) = join_bytes ","%char (chars <$> ss).
Proof.
  induction ss as [|s [|t ss] IH]; [done|done|].
  change (String.concat "," (s :: t :: ss)) with (s +:+ "," +:+ String.concat "," (t :: ss)). by rewrite !chars_app, IH.
Qed.

(** The slots on a record are those that were leased, when no path holds a comma or has white space at its ends. *)
Theorem cache_slots_roundtrip paths :
  Forall (λ p, ","%char ∉ chars p ∧ TrimSpace p = p ∧ p ≠ ""%string) paths → DecodeCacheDiskSlots (EncodeCacheDiskSlots paths) = paths.
Proof.
  intros Hall. unfold DecodeCacheDiskSlots, EncodeCacheDiskSlots. destruct paths as [|q paths]; [done|]. set (ps := q :: paths) in *.
  assert (Hne : String.concat "," ps ≠ ""%string).
  { apply Forall_cons in Hall as [(_ & _ & Hq) _]. destruct paths; [done|]. unfold ps. cbn. by destruct q. }
  rewrite (proj2 (String.eqb_neq _ _) Hne). unfold Split, SplitN. rewrite chars_concat_comma, split_n_join.
  - clear Hne. induction Hall as [|p l (_ & Ht & Hp) _ IH]; [done|]. cbn. rewrite of_chars_chars, Ht, (proj2 (String.eqb_neq _ _) Hp). by f_equal.
  - apply Forall_fmap. eapply Forall_impl; [done|]. by intros p (H & _).
  - done.
  - pose proof (length_join_bytes ","%char (chars <$> ps)). lia.
Qed.

Lemma cache_slots_roundtrip_witness :
  DecodeCacheDiskSlots (EncodeCacheDiskSlots ["/data/caches/npm.ext4"; "/data/caches/buildkit-1.ext4"]) =
  ["/data/caches/npm.ext4"; "/data/caches/buildkit-1.ext4"]%string.
Proof.
  apply cache_slots_roundtrip. repeat constructor; try (apply (bool_decide_eq_true_1 _); by vm_compute); done.
Defined.

(** ** A concrete run *)

Module Run.
Definition img : string := "/data/caches/buildkit.ext4".

(** Process 1 (the command) and process 9 (another build); the command takes the slot on descriptor 5. *)
Definition w0 : World := boot {[1%nat; 9%nat]}.
Definition w1 : World := put 1 (acquireCacheDiskSlot 1 (mkAIO (Some 5%nat) false) img false (w_kernel w0, newProc)).1 w0.
Definition cli : Proc := (newLease img (mkPin 5 1) newProc).1.

(** The command starts its supervisor, process 2, with the watchdog pipe and the lease, and dies. *)
Definition w2 : World :=
  mkWorld (sys_spawn 1 2 (place_lease_files true [Some 5%nat]).1 (w_kernel w1)) (<[2%nat := newProc]> (w_procs w1)).
Definition w3 : World := mkWorld (sys_exit 1 (w_kernel w2)) (delete 1%nat (w_procs w2)).
Definition w4 : World := put 2 (AdoptCacheDiskLeaseFD 2 false 4 img (w_kernel w3, newProc)).1 w3.
Definition sup : Proc := (newLease img (mkPin 4 1) newProc).1.
End Run.

Lemma run_w1 : reachable Run.w1 ∧ w_procs Run.w1 !! 1%nat = Some Run.cli ∧ w_procs Run.w1 !! 9%nat = Some newProc.
Proof.
  split; [|by vm_compute]. exists {[1%nat; 9%nat]}. eapply rtc_l; [|apply rtc_refl]. exists 1%nat. by eapply st_acquire.
Qed.

Lemma run_w4 : reachable Run.w4 ∧ w_procs Run.w4 !! 2%nat = Some Run.sup.
Proof.
  split; [|by vm_compute]. destruct run_w1 as ((procs & H) & Hcli & _). exists procs. etransitivity; [exact H|].
  eapply rtc_l; [exists 1%nat; by apply (st_spawn 1 Run.w1 2 Run.cli (place_lease_files true [Some 5%nat]).1)|].
  eapply rtc_l; [exists 1%nat; apply st_exit|].
  eapply rtc_l; [exists 2%nat; by apply (st_adopt 2 Run.w3 newProc false 4 Run.img)|]. apply rtc_refl.
Qed.

Lemma run_cli_holds : holds Run.w1 1 Run.img.
Proof. exists Run.cli, 0%nat. eexists. by vm_compute. Qed.

Lemma lease_exclusive_witness :
  ∃ k', acquireCacheDiskSlot 9 (mkAIO (Some 3%nat) false) Run.img false (w_kernel Run.w1, newProc) = (k', newProc, Err ErrCacheDiskSlotBusy).
Proof.
  destruct run_w1 as (Hr & _ & H9). destruct (lease_exclusive Run.w1 9 1 Run.img Hr run_cli_holds) as [H _].
  destruct (H newProc (mkAIO (Some 3%nat) false) false H9) as (k' & Hk' & _); [| |by exists k'].
  - intros (pr & l & le & Hpr & Hl & _). rewrite H9 in Hpr. by simplify_eq.
  - intros fd [= <-]. by vm_compute.
Defined.

Lemma handoff_keeps_leases_witness :
  ∃ k' pr' ls', acquireCacheDiskLeases 2 (λ _, false) (λ _, []) [Run.img] [4] (w_kernel Run.w3, newProc) = (k', pr', Some (Ok ls')) ∧
    length ls' = 1%nat.
Proof.
  destruct run_w1 as (Hr & Hcli & _).
  destruct (handoff_keeps_leases Run.w1 1 2 Run.cli [0%nat] true (λ _, []) Run.w3 [None; Some 5%nat] [4]) as [(k' & pr' & ls' & H1 & H2 & _) _].
  - exact Hr.
  - exact Hcli.
  - by vm_compute.
  - intros l ->%list_elem_of_singleton. eexists. by vm_compute.
  - reflexivity.
  - eapply rtc_l; [|apply rtc_refl]. exists 1%nat. split; [done|]. apply (st_exit 1 Run.w2).
  - exists k', pr', ls'. by split.
Defined.

Lemma lease_dies_with_supervisor_witness :
  ∃ k', acquireCacheDiskSlot 9 (mkAIO (Some 3%nat) false) Run.img false
    (sys_exit 2 (sys_spawn 2 7 [None] (w_kernel Run.w4)), newProc) = (k', (newLease Run.img (mkPin 3 1) newProc).1, Ok 0%nat).
Proof.
  destruct run_w4 as [Hr Hsup].
  apply (lease_dies_with_supervisor Run.w4 2 7 Run.img Run.sup [None] Hr Hsup).
  - by vm_compute.
  - exists Run.sup, 0%nat. eexists. by vm_compute.
  - intros q fd H. assert (Hfds : map_Forall (λ e _, e = (2, 4)%nat) (k_fds (w_kernel Run.w4))) by (apply (bool_decide_eq_true_1 _); by vm_compute).
    assert (Hino : k_inode (w_kernel Run.w4) !! CacheDiskLockPath Run.img = Some 0%nat) by by vm_compute. rewrite Hino in H.
    apply inode_of_Some in H as (d & Hd & _). pose proof (Hfds _ _ Hd) as [= -> ->]. split; [done|]. apply (bool_decide_eq_true_1 _). by vm_compute.
  - by constructor.
  - done.
  - left. by vm_compute.
  - by vm_compute.
Defined.

(** Adopting a descriptor that the registry already holds closes it: the lock is lost while two leases count on it. *)
Lemma adopt_twice_loses_lock :
  let '(k, pr, r) := AdoptCacheDiskLeaseFD 2 false 4 Run.img (w_kernel Run.w4, Run.sup) in
  r = Ok 1%nat ∧ (pin_refs <$> pr_pinned pr !! CacheDiskLockPath Run.img) = Some 2 ∧ k_flock k = ∅.
Proof. by vm_compute. Qed.
