(* ===== verification/CacheDisk.v ===== *)
(** * internal/core/builder: cache disks, their fencing marker, and a build in a machine

    cachedisk.go (the marker, [ensureCacheDiskAt]), lifecycle.go and vmbuilder.go ([BuildInVM]).  A cache disk survives the
    machine that writes it.  A machine that dies without flushing leaves a disk that must not be served as it is; a marker
    file beside the disk says so.  It is written before the machine gets the disk and removed once the flush is
    confirmed; a disk that is found with its marker is checked by e2fsck, or thrown away.

    The state keeps, for every image, its size, what is in it and its marker, and whether the marker is also on the
    host's disk.  What is in an image: a file system that is not written yet, one that is, one with writes of a guest that did
    not reach the host, one whose writes did.  Every file operation is given an outcome, and a run keeps every state it goes
    through, so that the process may die at any of them; a power cut may also bring a marker back to what is on the
    disk.  Machine, guest commands and tools are answers.  That one builder at a time works on an image is the subject of
    CacheLease. *)

From stdpp Require Import prelude countable gmap strings list relations pretty.
From Stdlib Require Import ZArith Ascii Lia.
From S2P Require Import Prelude GoStrings ForkConfig CacheLease.

(** ** Images, markers, states *)

Inductive content := Raw | Fresh | Unsynced | Synced.

Record Disk := mkDisk { dk_image : option (Z * content); dk_marker : bool; dk_durable : bool }.

Definition noDisk : Disk := mkDisk None false false.

Inductive bevent :=
| EvCreate
| EvStart
| EvUpdate
| EvDial
| EvExec (argv : list string)
| EvStop
| EvDelete
| EvHarvest.

Record St := mkSt { st_disks : gmap string Disk; st_events : list bevent }.

Definition disk (path : string) (s : St) : Disk := default noDisk (st_disks s !! path).

Definition set_disk (path : string) (d : Disk) (s : St) : St := mkSt (<[path := d]> (st_disks s)) (st_events s).

Definition on_disk (path : string) (f : Disk → Disk) (s : St) : St := set_disk path (f (disk path s)) s.

Definition set_image (im : option (Z * content)) (d : Disk) : Disk := mkDisk im (dk_marker d) (dk_durable d).

Definition set_content (c : content) (d : Disk) : Disk :=
  set_image (match dk_image d with Some (size, _) => Some (size, c) | None => None end) d.

(** A run: the states it goes through, the last one, and the result. *)
Definition Run (A : Type) : Type := St → list St * St * A.

Definition ret {A} (a : A) : Run A := λ s, ([], s, a).

Definition bind {A B} (m : Run A) (k : A → Run B) : Run B := λ s,
  let '(seen, s, a) := m s in let '(seen', s, b) := k a s in (seen ++ seen', s, b).

Definition tell (f : St → St) : Run unit := λ s, ([f s], f s, tt).

Definition get {A} (f : St → A) : Run A := λ s, ([], s, f s).

Definition event (e : bevent) : Run unit := tell (λ s, mkSt (st_disks s) (st_events s ++ [e])).

Declare Scope run_scope.
Delimit Scope run_scope with run.
Notation "x <- m ;; k" := (bind m (λ x, k)) (at level 60, m at next level, k at level 200, right associativity) : run_scope.
Notation "m ;;; k" := (bind m (λ _, k)) (at level 60, k at level 200, right associativity) : run_scope.
Local Open Scope run_scope.

Fixpoint each {A} (f : A → Run unit) (l : list A) : Run unit :=
  match l with [] => ret tt | x :: l => f x ;;; each f l end.

(** ** The marker *)

Definition dirtyMarkerPath (imgPath : string) : string := imgPath +:+ ".dirty".

(** [statErr]: looking at the marker fails for another reason than that it is absent. *)
Definition cacheDiskIsDirty (statErr : bool) (imgPath : string) (s : St) : bool := negb statErr && dk_marker (disk imgPath s).

(** The calls that may fail: open, write, fsync, close, and the two of [fsyncDir]. *)
Record MarkIO := mkMarkIO { m_open : bool; m_write : bool; m_sync : bool; m_close : bool; m_dir : bool }.

Definition ok_mark : MarkIO := mkMarkIO true true true true true.

Definition markCacheDiskDirty (io : MarkIO) (imgPath : string) : Run (result slot_error unit) :=
  if negb (m_open io) then ret (Err SErrEnsure)
  else
    tell (on_disk imgPath (λ d, mkDisk (dk_image d) true (dk_durable d))) ;;;
    if negb (m_write io) then ret (Err SErrEnsure)
    else if negb (m_sync io) then ret (Err SErrEnsure)
    else if negb (m_close io) then ret (Err SErrEnsure)
    else if negb (m_dir io) then ret (Err SErrEnsure)
    else tell (on_disk imgPath (λ d, mkDisk (dk_image d) true true)) ;;; ret (Ok tt).

(** [rmErr]: the removal of a marker that is there fails; [dirErr]: [fsyncDir] fails. *)
Definition markCacheDiskClean (rmErr dirErr : bool) (imgPath : string) : Run (result slot_error unit) :=
  d <- get (disk imgPath) ;;
  if negb (dk_marker d) then ret (Ok tt)
  else if rmErr then ret (Err SErrEnsure)
  else
    tell (on_disk imgPath (λ d, mkDisk (dk_image d) false (dk_durable d))) ;;;
    if dirErr then ret (Err SErrEnsure)
    else tell (on_disk imgPath (λ d, mkDisk (dk_image d) false false)) ;;; ret (Ok tt).

(** ** Preparing an image *)

Definition cacheDiskSizeBytes : Z := 10 * 1024 * 1024 * 1024.

(** How a tool ended: it was stopped at its deadline, it exited, or it could not be run. *)
Inductive tool_end := ToolTimeout | ToolExit (code : Z) | ToolError.

Definition runE2fsck (onPath : bool) (e : tool_end) : bool :=
  onPath && match e with ToolTimeout => false | ToolExit code => (code =? 0) || (code =? 1) | ToolError => false end.

Record MkfsIO := mkMkfsIO { f_path : bool; f_truncate : bool; f_create : bool; f_truncateNew : bool; f_tool : bool }.

(** [os.Truncate] fails on a file that is not there, and may fail on one that is; then the file is created, empty. *)
Definition runMke2fs (io : MkfsIO) (dstPath : string) (sizeBytes : Z) : Run bool :=
  if negb (f_path io) then ret false
  else
    d <- get (disk dstPath) ;;
    sized <- match (if f_truncate io then dk_image d else None) with
             | Some (_, c) => tell (on_disk dstPath (set_image (Some (sizeBytes, c)))) ;;; ret true
             | None =>
                 if negb (f_create io) then ret false
                 else
                   tell (on_disk dstPath (set_image (Some (0, Raw)))) ;;;
                   if negb (f_truncateNew io) then ret false
                   else tell (on_disk dstPath (set_image (Some (sizeBytes, Raw)))) ;;; ret true
             end ;;
    if negb sized then ret false
    else
      tell (on_disk dstPath (set_content Raw)) ;;;
      if negb (f_tool io) then ret false
      else tell (on_disk dstPath (set_content Fresh)) ;;; ret true.

Record CacheDiskSpec := mkSpec { cs_EcosystemKey : string; cs_ImagePath : string; cs_MountPath : string; cs_Subpaths : list string }.

Record EnsureIO := mkEnsureIO {
  e_statErr : bool;        (** looking at the image fails *)
  e_markerErr : bool;      (** looking at the marker fails *)
  e_sizeErr : bool;        (** the second look at the image fails *)
  e_fsckPath : bool;
  e_fsck : tool_end;
  e_removeErr : bool;
  e_tmpErr : bool;
  e_mkfs : MkfsIO;
  e_rmPartialErr : bool;
  e_mark : MarkIO;
}.

(** The new image: a temporary source directory, the format, the marker. *)
Definition createCacheDisk (io : EnsureIO) (imgPath : string) (size : Z) (spec : CacheDiskSpec) : Run (result slot_error CacheDiskSpec) :=
  if e_tmpErr io then ret (Err SErrEnsure)
  else
    made <- runMke2fs (e_mkfs io) imgPath size ;;
    if negb made then
      (if e_rmPartialErr io then ret tt else tell (on_disk imgPath (set_image None))) ;;; ret (Err SErrEnsure)
    else
      r <- markCacheDiskDirty (e_mark io) imgPath ;;
      ret (match r with Ok _ => Ok spec | Err e => Err e end).

Definition ensureCacheDiskAt (io : EnsureIO) (cacheDir ecosystemKey : string) (entry : ecosystemEntry) (slot : nat)
    : Run (result slot_error CacheDiskSpec) :=
  let imgPath := slotImagePath cacheDir ecosystemKey slot in
  let spec := mkSpec ecosystemKey imgPath (eco_mountPath entry) (eco_subpaths entry) in
  d <- get (disk imgPath) ;;
  match (if e_statErr io then None else dk_image d) with
  | None => createCacheDisk io imgPath cacheDiskSizeBytes spec
  | Some (size, _) =>
      dirty <- get (cacheDiskIsDirty (e_markerErr io) imgPath) ;;
      if negb dirty then
        r <- markCacheDiskDirty (e_mark io) imgPath ;;
        ret (match r with Ok _ => Ok spec | Err e => Err e end)
      else
        let preservedSize := if negb (e_sizeErr io) && (cacheDiskSizeBytes <? size) then size else cacheDiskSizeBytes in
        if runE2fsck (e_fsckPath io) (e_fsck io) then
          tell (on_disk imgPath (set_content Synced)) ;;; ret (Ok spec)
        else if e_removeErr io then ret (Err SErrEnsure)
        else
          tell (on_disk imgPath (set_image None)) ;;;
          createCacheDisk io imgPath preservedSize spec
  end.

(** ** Commands in the guest *)

(** An execution fails with an error's text or ends with a code. *)
Inductive exec_end := ExecErr (err : string) | ExecCode (code : Z).

Definition isExecNotFound (err : string) : bool :=
  Contains err "executable file not found" || Contains err "no such file or directory".

Definition sync_bins : list string := ["/bin/sync"; "/usr/bin/sync"; "sync"]%string.

Fixpoint sync_loop (exec : string → exec_end) (bins : list string) : Run bool :=
  match bins with
  | [] => ret false
  | b :: rest =>
      event (EvExec [b]) ;;;
      match exec b with
      | ExecErr e => if isExecNotFound e then sync_loop exec rest else ret false
      | ExecCode code => ret (code =? 0)
      end
  end.

Definition guestSync (exec : string → exec_end) : Run bool := sync_loop exec sync_bins.

Definition agentInstallPath : string := "/sbin/nexus-agent".

(** [recipe]: the encoded tool recipe, when it has packages. *)
Definition builder_argv (cacheDisks : list CacheDiskSpec) (recipe : option string) (targetArch : string) : list string :=
  [agentInstallPath; "--builder-role"%string] ++
  imap (λ i cd, "--cache-disk=/dev/vd" +:+ of_chars [byte_of (100 + Z.of_nat i)] +:+ ":" +:+ cs_MountPath cd) cacheDisks ++
  match recipe with Some json => ["--tool-recipe=" +:+ json; "--target-arch=" +:+ targetArch] | None => [] end.

Definition wrapOutOfSpaceErr (err : string) : bool :=
  let s := ToLower err in Contains s "no space left on device" || Contains s "resourceexhausted".

(** The error of [guestBuild] on the output [stderr], if any. *)
Definition guestBuild_err (r : exec_end) (stderr : string) : option string :=
  match r with
  | ExecErr e =>
      Some (if String.eqb stderr "" then "exec builder role: " +:+ e
            else "exec builder role: " +:+ e +:+ of_chars ["010"%char] +:+ "in-guest output:" +:+ of_chars ["010"%char] +:+ stderr)
  | ExecCode code => if code =? 0 then None else Some ("builder role exited " +:+ pretty code +:+ ": " +:+ stderr)
  end.

(** ** One build *)

Inductive build_error :=
| BErrPersist
| BErrStart
| BErrWait
| BErrBuild (outOfSpace : bool)
| BErrTeardown
| BErrNoArtifact
| BErrHarvest.

Record BuildIO := mkBuildIO {
  b_store : option bool;          (** the record store, if there is one, and whether Create fails *)
  b_startErr : bool;
  b_waitErr : bool;
  b_build : exec_end;             (** the builder role *)
  b_stderr : string;
  b_late : bool;                  (** the role still writes after the flush *)
  b_sync : string → exec_end;
  b_stopErr : bool;
  b_ctxErr : bool;                (** the caller's context is cancelled when the machine is down *)
  b_clean : string → bool * bool; (** removing a marker, fsync of its directory *)
  b_harvest : option string;      (** the digest of the artifact disk *)
}.

(** The writes of a guest reach the host. *)
Definition flush (d : Disk) : Disk :=
  match dk_image d with Some (size, Unsynced) => set_image (Some (size, Synced)) d | _ => d end.

(** [Lifecycle.SyncAndStop], the first time: flush, then stop in any case. *)
Definition SyncAndStop (io : BuildIO) (cds : list CacheDiskSpec) : Run bool :=
  synced <- guestSync (b_sync io) ;;
  (if synced && negb (b_late io) then each (λ cd, tell (on_disk (cs_ImagePath cd) flush)) cds else ret tt) ;;;
  event EvStop ;;;
  ret (synced && negb (b_stopErr io)).

Definition clear_markers (io : BuildIO) (cds : list CacheDiskSpec) : Run unit :=
  each (λ cd, markCacheDiskClean (b_clean io (cs_ImagePath cd)).1 (b_clean io (cs_ImagePath cd)).2 (cs_ImagePath cd) ;;; ret tt) cds.

(** From the start of the machine; [artifact]: the spec has a path for the artifact disk. *)
Definition build_booted (io : BuildIO) (cds : list CacheDiskSpec) (recipe : option string) (targetArch : string) (artifact : bool)
    : Run (result build_error string) :=
  event EvStart ;;;
  if b_startErr io then clear_markers io cds ;;; ret (Err BErrStart)
  else
    match b_store io with Some _ => event EvUpdate | None => ret tt end ;;;
    event EvDial ;;;
    if b_waitErr io then clear_markers io cds ;;; SyncAndStop io cds ;;; ret (Err BErrWait)
    else
      event (EvExec (builder_argv cds recipe targetArch)) ;;;
      each (λ cd, tell (on_disk (cs_ImagePath cd) (set_content Unsynced))) cds ;;;
      torn <- SyncAndStop io cds ;;
      (if torn && negb (b_ctxErr io) then clear_markers io cds else ret tt) ;;;
      match guestBuild_err (b_build io) (b_stderr io) with
      | Some e => ret (Err (BErrBuild (wrapOutOfSpaceErr e)))
      | None =>
          if negb torn then ret (Err BErrTeardown)
          else if negb artifact then ret (Err BErrNoArtifact)
          else
            event EvHarvest ;;;
            ret (match b_harvest io with Some digest => Ok digest | None => Err BErrHarvest end)
      end.

Definition BuildInVM (io : BuildIO) (cds : list CacheDiskSpec) (recipe : option string) (targetArch : string) (artifact : bool)
    : Run (result build_error string) :=
  match b_store io with
  | Some true => ret (Err BErrPersist)
  | Some false =>
      event EvCreate ;;;
      r <- build_booted io cds recipe targetArch artifact ;;
      event EvDelete ;;; ret r
  | None => build_booted io cds recipe targetArch artifact
  end.

(** ** Sizes of a builder *)

Definition DefaultBuilderVCPUs : Z := 2.
Definition DefaultBuilderMemMiB : Z := 2048.
Definition DefaultBuilderMemMaxMiB : Z := 8192.

Definition VCPUs (vcpus : Z) : Z := if vcpus =? 0 then DefaultBuilderVCPUs else vcpus.
Definition MemMiB (memoryMiB : Z) : Z := if memoryMiB =? 0 then DefaultBuilderMemMiB else memoryMiB.
Definition MemMaxMiB (memoryMiB : Z) : Z :=
  if memoryMiB =? 0 then DefaultBuilderMemMaxMiB
  else let boot := u32 memoryMiB in if DefaultBuilderMemMaxMiB <? u32 (boot * 4) then u32 (boot * 4) else DefaultBuilderMemMaxMiB.

(** ** The whole of a round *)

(** The trace so far and the state, for the selection of disks. *)
Definition ensure_traced (io : nat → nat → EnsureIO) (cacheDir : string) (i : nat) (key : string) (entry : ecosystemEntry) (slot : nat)
    (dk : list St * St) : list St * St * result slot_error CacheDiskSpec :=
  let '(seen, s, r) := ensureCacheDiskAt (io i slot) cacheDir key entry slot dk.2 in (dk.1 ++ seen, s, r).

Record RoundIO := mkRoundIO {
  r_pid : nat;
  r_acquire : nat → nat → Kernel → AcquireIO;
  r_ensure : nat → nat → EnsureIO;
  r_mkdirErr : bool;
  r_build : BuildIO;
}.

(** Lease the disks, then build: what `sandbox create` does with a recipe to build. *)
Definition round (io : RoundIO) (dataDir : string) (keys : list string) (recipe : option string) (targetArch : string) (artifact : bool)
    (ks : Kernel * Proc) (s : St) : list St * St :=
  match SelectCacheDisks (ensure_traced (r_ensure io) (filepath_Join dataDir "caches")) (r_pid io) (r_acquire io) (r_mkdirErr io)
          dataDir keys ks ([], s) with
  | (_, (seen, s), Err _) => (seen, s)
  | (_, (seen, s), Ok (specs, _)) =>
      let '(seen', s, _) := BuildInVM (r_build io) specs recipe targetArch artifact s in (seen ++ seen', s)
  end.

(** A power cut: a marker may be what is on the disk, a format may be lost. *)
Definition cut_disk (d d' : Disk) : Prop :=
  (dk_marker d' = dk_marker d ∨ dk_marker d' = dk_durable d) ∧ dk_durable d' = dk_marker d' ∧
  match dk_image d with
  | Some (size, Fresh) => dk_image d' = Some (size, Fresh) ∨ dk_image d' = Some (size, Raw)
  | im => dk_image d' = im
  end.

(** Every marker is on the host's disk. *)
Definition settled (s : St) : Prop := ∀ path, dk_marker (disk path s) = true → dk_durable (disk path s) = true.

(** The host goes on from any state of a round, its process having died or ended there.  Looking at a marker does not fail, and a
    builder role whose execution has returned without the context being cancelled has ended.  With [cuts] there are power
    cuts as well, and then no round ends between the creation of a marker and its fsync. *)
Inductive host_step (cuts : bool) (s : St) : St → Prop :=
| hs_round io dataDir keys recipe targetArch artifact ks s' :
    (∀ i slot, e_markerErr (r_ensure io i slot) = false) → (b_late (r_build io) = true → b_ctxErr (r_build io) = true) →
    s' ∈ (round io dataDir keys recipe targetArch artifact ks s).1 → (cuts = true → settled s') →
    host_step cuts s s'
| hs_cut s' : cuts = true → (∀ path, cut_disk (disk path s) (disk path s')) → host_step cuts s s'.

Definition noDisks : St := mkSt ∅ [].

(** ** Reasoning about runs *)

Section Fencing.
Context (cuts : bool).

Definition fenced (d : Disk) : Prop := dk_marker d = true ∧ (cuts = true → dk_durable d = true).

(** A disk with writes that did not reach the host is marked, durably when there are power cuts. *)
Definition disk_safe (d : Disk) : Prop := ∀ size, dk_image d = Some (size, Unsynced) → fenced d.

Definition safe (s : St) : Prop := ∀ path, disk_safe (disk path s).

(** What a disk given to a builder is: marked, and with no writes missing. *)
Definition disk_ready (d : Disk) : Prop := fenced d ∧ ∀ size, dk_image d ≠ Some (size, Unsynced).

Definition ready (s : St) (path : string) : Prop := disk_ready (disk path s).

(** From [P], every state a run goes through is safe and it ends with [Q]. *)
Definition triple {A} (P : St → Prop) (m : Run A) (Q : A → St → Prop) : Prop :=
  ∀ s, P s → let '(seen, s', a) := m s in Forall safe seen ∧ Q a s'.

Lemma triple_ret {A} (a : A) P (Q : A → St → Prop) : (∀ s, P s → Q a s) → triple P (ret a) Q.
Proof. intros H s Hs. by split; [|apply H]. Qed.

Lemma triple_bind {A B} P (m : Run A) (k : A → Run B) R Q :
  triple P m R → (∀ a, triple (R a) (k a) Q) → triple P (bind m k) Q.
Proof.
  intros Hm Hk s Hs. unfold bind. specialize (Hm s Hs). destruct (m s) as [[seen s1] a]. destruct Hm as [Hseen HR].
  specialize (Hk a s1 HR). destruct (k a s1) as [[seen' s2] b]. destruct Hk as [Hseen' HQ]. split; [by apply Forall_app|done].
Qed.

Lemma triple_tell P f Q : (∀ s, P s → safe (f s) ∧ Q tt (f s)) → triple P (tell f) Q.
Proof. intros H s Hs. destruct (H s Hs). by split; [constructor|]. Qed.

(** After a look at the state nothing has changed. *)
Lemma triple_get {A B} P (f : St → A) (k : A → Run B) Q :
  (∀ a, triple (λ s, P s ∧ f s = a) (k a) Q) → triple P (bind (get f) k) Q.
Proof.
  intros H s Hs. unfold bind, get. specialize (H (f s) s (conj Hs eq_refl)). by destruct (k (f s) s) as [[seen s'] b].
Qed.

Lemma triple_pre {A} (P P' : St → Prop) (m : Run A) Q : (∀ s, P s → P' s) → triple P' m Q → triple P m Q.
Proof. intros HP Hm s Hs. apply Hm, HP, Hs. Qed.

Lemma triple_post {A} P (m : Run A) (Q Q' : A → St → Prop) : triple P m Q → (∀ a s, Q a s → Q' a s) → triple P m Q'.
Proof. intros Hm HQ s Hs. specialize (Hm s Hs). destruct (m s) as [[seen s'] a]. destruct Hm. split; eauto. Qed.

Lemma triple_each {A} (I : St → Prop) (f : A → Run unit) l :
  (∀ x, x ∈ l → triple I (f x) (λ _, I)) → triple I (each f l) (λ _, I).
Proof.
  induction l as [|x l IH]; intros H; cbn; [by apply triple_ret|]. apply (triple_bind _ _ _ (λ _, I)); [apply H; by left|].
  intros _. apply IH. intros y Hy. apply H. by right.
Qed.

Lemma disk_set path path' d s : disk path (set_disk path' d s) = if decide (path' = path) then d else disk path s.
Proof.
  unfold disk, set_disk. cbn. destruct (decide (path' = path)) as [->|]; [by rewrite lookup_insert_eq|by rewrite lookup_insert_ne].
Qed.

Lemma disk_on path path' f s : disk path (on_disk path' f s) = if decide (path' = path) then f (disk path' s) else disk path s.
Proof. unfold on_disk. apply disk_set. Qed.

Lemma on_disk_safe path f s : safe s → disk_safe (f (disk path s)) → safe (on_disk path f s).
Proof. intros Hs Hf path'. rewrite disk_on. destruct (decide (path = path')); [done|apply Hs]. Qed.

(** A disk that is ready stays so when a change of another or of itself keeps it ready. *)
Lemma on_disk_ready path path' f s :
  (disk_ready (disk path' s) → disk_ready (f (disk path' s))) → ready s path → ready (on_disk path' f s) path.
Proof. intros Hf Hr. unfold ready in *. rewrite disk_on. destruct (decide (path' = path)) as [->|]; [by apply Hf|done]. Qed.

(** Events do not touch the disks. *)
Lemma triple_event (P : St → Prop) e :
  (∀ s s', st_disks s = st_disks s' → P s → P s') → (∀ s, P s → safe s) → triple P (event e) (λ _, P).
Proof.
  intros HP Hsafe. apply triple_tell. intros s Hs. split; [|by apply (HP s)]. intros path. by apply (Hsafe s Hs path).
Qed.

(** ** Operations on one image *)

Section Image.
Context (img : string) (R : list string).

(** The disks are safe, those of [R] ready, and the markers of the other images settled. *)
Definition around (s : St) : Prop :=
  safe s ∧ (cuts = true → ∀ path, path ≠ img → dk_marker (disk path s) = true → dk_durable (disk path s) = true) ∧ Forall (ready s) R.

(** A triple about the disk of this image alone. *)
Definition local {A} (D : Disk → Prop) (m : Run A) (E : A → Disk → Prop) : Prop :=
  triple (λ s, around s ∧ D (disk img s)) m (λ a s, around s ∧ E a (disk img s)).

Lemma local_ret {A} (a : A) (D : Disk → Prop) (E : A → Disk → Prop) : (∀ d, D d → E a d) → local D (ret a) E.
Proof. intros H. apply triple_ret. intros s [Hs HD]. eauto. Qed.

Lemma local_bind {A B} D (m : Run A) (k : A → Run B) D' E :
  local D m D' → (∀ a, local (D' a) (k a) E) → local D (bind m k) E.
Proof. intros Hm Hk. by eapply triple_bind. Qed.

Lemma local_tell f D E :
  (∀ d, disk_safe d → D d → disk_safe (f d) ∧ (disk_ready d → disk_ready (f d)) ∧ E tt (f d)) → local D (tell (on_disk img f)) E.
Proof.
  intros H. apply triple_tell. intros s [(Hsafe & Hset & Hready) HD]. destruct (H _ (Hsafe img) HD) as (H1 & H2 & H3).
  assert (Hs' : safe (on_disk img f s)) by (by apply on_disk_safe). split; [exact Hs'|]. split; [split_and!; [exact Hs'| |]|].
  - intros Hc path Hne. rewrite disk_on, decide_False by done. by apply Hset.
  - eapply Forall_impl; [done|]. intros path Hp. by apply on_disk_ready.
  - by rewrite disk_on, decide_True.
Qed.

(** A look at this disk. *)
Lemma local_get {A B} (g : St → A) (h : Disk → A) D (k : A → Run B) E :
  (∀ s, g s = h (disk img s)) → (∀ d, local (λ d', D d' ∧ d' = d) (k (h d)) E) → local D (bind (get g) k) E.
Proof.
  intros Hg H. apply triple_get. intros a s [[Ha HD] Heq]. rewrite Hg in Heq. subst a. by apply (H (disk img s) s).
Qed.

Lemma local_pre {A} (D D' : Disk → Prop) (m : Run A) E : (∀ d, D d → D' d) → local D' m E → local D m E.
Proof. intros HD Hm. eapply triple_pre; [|exact Hm]. intros s [? ?]. split; auto. Qed.

Lemma local_post {A} D (m : Run A) (E E' : A → Disk → Prop) : local D m E → (∀ a d, E a d → E' a d) → local D m E'.
Proof. intros Hm HE. eapply triple_post; [exact Hm|]. intros a s [? ?]. split; auto. Qed.

Definition sound (d : Disk) : Prop := ∀ size, dk_image d ≠ Some (size, Unsynced).

Lemma markDirty_local io : local sound (markCacheDiskDirty io img) (λ r d, is_ok r = true → disk_ready d).
Proof.
  unfold markCacheDiskDirty. destruct (m_open io); cbn [negb]; [|by apply local_ret].
  apply (local_bind _ _ _ (λ _, sound)).
  { apply local_tell. intros d Hs Hd. split_and!; [intros size Him; by destruct (Hd size)| |exact Hd]. intros [[_ Hf] Hr]. by split. }
  intros _. destruct (m_write io), (m_sync io), (m_close io), (m_dir io); cbn [negb]; try by apply local_ret.
  apply (local_bind _ _ _ (λ _, disk_ready)); [|intros _; by apply local_ret].
  apply local_tell. intros d Hs Hd. split_and!; [intros size Him; by destruct (Hd size)|done..].
Qed.

Lemma mkfs_local io size : local (λ _, True) (runMke2fs io img size) (λ made d, made = true → sound d).
Proof.
  unfold runMke2fs. destruct (f_path io); cbn [negb]; [|by apply local_ret].
  apply (local_get _ id); [done|]. intros d. apply (local_bind _ _ _ (λ _ _, True)).
  - assert (Hraw : ∀ (d : Disk) n, disk_safe d → True → disk_safe (set_image (Some (n, Raw)) d) ∧ (disk_ready d → disk_ready (set_image (Some (n, Raw)) d)) ∧ True).
    { intros d0 n _ _. split_and!; [by intros sz|intros [? ?]; by split|done]. }
    destruct (if f_truncate io then dk_image (id d) else None) as [[sz c]|] eqn:E.
    + apply (local_bind _ _ _ (λ _ _, True)); [|intros _; by apply local_ret]. apply local_tell. intros d' Hs [_ ->].
      destruct (f_truncate io); [|done]. cbn in E. split_and!; [|intros [Hf Hr]; split; [done|]|done].
      * intros sz' [= -> ->]. by apply (Hs sz).
      * intros sz' [= -> ->]. by apply (Hr sz).
    + destruct (f_create io); cbn [negb]; [|by apply local_ret]. apply (local_bind _ _ _ (λ _ _, True)).
      { apply (local_pre _ (λ _, True)); [done|]. apply local_tell. intros d0. apply Hraw. }
      intros _. destruct (f_truncateNew io); cbn [negb]; [|by apply local_ret].
      apply (local_bind _ _ _ (λ _ _, True)); [|intros _; by apply local_ret]. apply local_tell. intros d0. apply Hraw.
  - intros sized. destruct sized; cbn [negb]; [|by apply local_ret].
    assert (Hset : ∀ c d, c ≠ Unsynced → sound (set_content c d)).
    { intros c d0 Hc sz. unfold set_content. cbn. destruct (dk_image d0) as [[]|]; [|done]. congruence. }
    assert (Htell : ∀ c, c ≠ Unsynced → local (λ _, True) (tell (on_disk img (set_content c))) (λ _, sound)).
    { intros c Hc. apply local_tell. intros d0 Hs _. split_and!; [|intros [? ?]; split; [done|]|]; [|by apply Hset..].
      intros sz Him. by destruct (Hset c d0 Hc sz). }
    apply (local_bind _ _ _ (λ _, sound)); [by apply Htell|]. intros _. destruct (f_tool io); cbn [negb]; [|by apply local_ret].
    apply (local_bind _ _ _ (λ _, sound)); [|intros _; by apply local_ret]. apply (local_pre _ (λ _, True)); [done|]. by apply Htell.
Qed.

Lemma create_local io size spec : local (λ _, True) (createCacheDisk io img size spec) (λ r d, is_ok r = true → disk_ready d).
Proof.
  unfold createCacheDisk. destruct (e_tmpErr io); [by apply local_ret|].
  eapply local_bind; [apply mkfs_local|]. intros made. destruct made; cbn [negb].
  - eapply local_bind; [eapply local_pre; [|apply markDirty_local]; by intros d H; apply H|].
    intros r. apply local_ret. intros d H Hok. apply H. by destruct r.
  - apply (local_bind _ _ _ (λ _ _, True)); [|intros _; by apply local_ret]. destruct (e_rmPartialErr io); [by apply local_ret|].
    apply local_tell. intros d Hs _. split_and!; [by intros sz|intros [? ?]; by split|done].
Qed.
End Image.

Lemma ensure_local io dir key entry slot R :
  e_markerErr io = false →
  local (slotImagePath dir key slot) R (λ d, cuts = true → dk_marker d = true → dk_durable d = true)
    (ensureCacheDiskAt io dir key entry slot) (λ r d, is_ok r = true → disk_ready d).
Proof.
  intros Hmk. unfold ensureCacheDiskAt. set (img := slotImagePath dir key slot).
  apply (local_get _ _ _ id); [done|]. intros d. destruct (if e_statErr io then None else dk_image (id d)) as [[size c]|] eqn:E.
  2:{ eapply local_pre; [|apply create_local]. done. }
  destruct (e_statErr io); [done|]. cbn in E. rewrite Hmk. apply (local_get _ _ _ dk_marker); [done|]. intros d1.
  destruct (dk_marker d1) eqn:Em; cbn [negb].
  - destruct (runE2fsck (e_fsckPath io) (e_fsck io)).
    + apply (local_bind _ _ _ _ _ (λ _, disk_ready)); [|intros _; by apply local_ret]. apply local_tell. intros d' Hs [[Hset ->] <-].
      assert (Hsound : sound (set_content Synced d)) by (intros sz; unfold set_content; cbn; rewrite E; congruence).
      split_and!; [intros sz Hsz; by destruct (Hsound sz)|intros [? ?]; by split|]. split; [|done]. split; [done|]. cbn. auto.
    + destruct (e_removeErr io); [by apply local_ret|]. apply (local_bind _ _ _ _ _ (λ _ _, True)); [|intros _; apply create_local].
      apply local_tell. intros d' Hs _. split_and!; [by intros sz|intros [? ?]; by split|done].
  - apply (local_bind _ _ _ _ _ (λ r d, is_ok r = true → disk_ready d)); [|intros r; apply local_ret; intros d' H Hok; apply H; by destruct r].
    intros s [Ha Hd]. apply (markDirty_local img R (e_mark io) s). split; [done|]. destruct Hd as [[_ Hd] Hd1]. intros sz Him.
    destruct (proj1 Ha img sz Him) as [Hm _]. rewrite Hd1 in Hm. congruence.
Qed.

(** ** A build keeps the disks safe *)

Definition all_disks (K : string → Disk → Prop) (s : St) : Prop := ∀ path, K path (disk path s).

Lemma all_tell (K K' : string → Disk → Prop) img f :
  (∀ path d, K' path d → disk_safe d) → (∀ path d, path ≠ img → K path d → K' path d) → (∀ d, K img d → K' img (f d)) →
  triple (all_disks K) (tell (on_disk img f)) (λ _, all_disks K').
Proof.
  intros Hsafe Hother Hf. apply triple_tell. intros s Hs.
  assert (HK : all_disks K' (on_disk img f s)) by (intros path; rewrite disk_on; destruct (decide (img = path)) as [<-|]; auto).
  split; [intros path; by eapply Hsafe|done].
Qed.

Lemma all_event K e : (∀ path d, K path d → disk_safe d) → triple (all_disks K) (event e) (λ _, all_disks K).
Proof.
  intros Hsafe. apply triple_event; [|intros s Hs path; by eapply Hsafe].
  intros s s' Heq Hs path. specialize (Hs path). unfold disk in *. by rewrite <- Heq.
Qed.

Lemma all_weaken {A} (K K' : string → Disk → Prop) (m : Run A) Q :
  (∀ path d, K path d → K' path d) → triple (all_disks K') m Q → triple (all_disks K) m Q.
Proof. intros HK. apply triple_pre. intros s Hs path. apply HK, Hs. Qed.

(** The images of [paths] have no writes missing, or are marked. *)
Definition all_sound (paths : list string) (path : string) (d : Disk) : Prop := disk_safe d ∧ (path ∈ paths → sound d).
Definition all_fenced (paths : list string) (path : string) (d : Disk) : Prop := disk_safe d ∧ (path ∈ paths → fenced d).

Lemma sound_safe d : sound d → disk_safe d.
Proof. intros H size Him. by destruct (H size). Qed.

Lemma flush_sound d : sound (flush d).
Proof. intros size. unfold flush. destruct (dk_image d) as [[sz []]|] eqn:E; cbn; rewrite ?E; congruence. Qed.

Lemma clear_markers_sound io cds :
  triple (all_disks (all_sound (cs_ImagePath <$> cds))) (clear_markers io cds) (λ _, all_disks (all_sound (cs_ImagePath <$> cds))).
Proof.
  apply triple_each. intros cd Hcd. set (K := all_sound _). set (img := cs_ImagePath cd).
  assert (Himg : img ∈ cs_ImagePath <$> cds) by (by apply list_elem_of_fmap_2).
  assert (HK : ∀ path d, K path d → disk_safe d) by by intros path d [].
  apply (triple_bind _ _ _ (λ _, all_disks K)); [|intros _; by apply triple_ret].
  unfold markCacheDiskClean. apply triple_get. intros d. apply (triple_pre _ (all_disks K)); [by intros s []|].
  destruct (dk_marker d); cbn [negb]; [|by apply triple_ret]. destruct (b_clean io img).1; [by apply triple_ret|].
  assert (Htell : ∀ m u, triple (all_disks K) (tell (on_disk img (λ d, mkDisk (dk_image d) m (u d)))) (λ _, all_disks K)).
  { intros m u. apply all_tell; [done|done|]. intros d0 [_ Hd0]. split; [apply sound_safe|intros _]; by apply Hd0. }
  apply (triple_bind _ _ _ (λ _, all_disks K)); [apply (Htell false dk_durable)|]. intros _.
  destruct (b_clean io img).2; [by apply triple_ret|].
  apply (triple_bind _ _ _ (λ _, all_disks K)); [apply (Htell false (λ _, false))|intros _; by apply triple_ret].
Qed.

Lemma sync_loop_all K exec bins : (∀ path d, K path d → disk_safe d) → triple (all_disks K) (sync_loop exec bins) (λ _, all_disks K).
Proof.
  intros HK. induction bins as [|b bins IH]; [by apply triple_ret|]. cbn [sync_loop].
  apply (triple_bind _ _ _ (λ _, all_disks K)); [by apply all_event|]. intros _. destruct (exec b) as [e|code]; [|by apply triple_ret].
  destruct (isExecNotFound e); [done|by apply triple_ret].
Qed.

Lemma flush_all done_ cds :
  triple (all_disks (all_sound done_)) (each (λ cd, tell (on_disk (cs_ImagePath cd) flush)) cds)
    (λ _, all_disks (all_sound (done_ ++ (cs_ImagePath <$> cds)))).
Proof.
  revert done_. induction cds as [|cd cds IH]; intros done_; cbn [each].
  { apply triple_ret. cbn. by rewrite app_nil_r. }
  apply (triple_bind _ _ _ (λ _, all_disks (all_sound (done_ ++ [cs_ImagePath cd])))).
  - apply all_tell; [by intros path d []| |].
    + intros path d Hne [Hs Hd]. split; [done|]. intros [?|?%list_elem_of_singleton]%elem_of_app; [auto|done].
    + intros d _. split; [apply sound_safe|intros _]; apply flush_sound.
  - intros _. eapply triple_post; [apply (IH (done_ ++ [cs_ImagePath cd]))|]. intros u s. by rewrite <- app_assoc.
Qed.

(** Stopping keeps what is known of the disks; a confirmed flush leaves no writes missing. *)
Lemma SyncAndStop_all K io cds :
  (∀ path d, K path d → disk_safe d) → (∀ path d, K path d → K path (flush d)) →
  triple (all_disks K) (SyncAndStop io cds)
    (λ torn s, all_disks K s ∧ (torn = true → b_late io = false → all_disks (all_sound (cs_ImagePath <$> cds)) s)).
Proof.
  intros HK HKf. unfold SyncAndStop. apply (triple_bind _ _ _ (λ _, all_disks K)); [by apply sync_loop_all|]. intros synced.
  set (K' := λ path d, K path d ∧ (synced && negb (b_late io) = true → all_sound (cs_ImagePath <$> cds) path d)).
  assert (HK' : ∀ path d, K' path d → disk_safe d) by (intros path d [? _]; eauto).
  apply (triple_bind _ _ _ (λ _, all_disks K')).
  - unfold K'. destruct (synced && negb (b_late io)).
    + assert (H1 : triple (all_disks K) (each (λ cd, tell (on_disk (cs_ImagePath cd) flush)) cds) (λ _, all_disks K)).
      { apply triple_each. intros cd _. apply all_tell; auto. }
      pose proof (flush_all [] cds) as H2. intros s Hs. specialize (H1 s Hs). specialize (H2 s).
      destruct (each (λ cd, tell (on_disk (cs_ImagePath cd) flush)) cds s) as [[seen s'] u]. destruct H1 as [H1 H1'].
      destruct H2 as [_ H2]; [intros path; split; [by eapply HK|by intros ?%not_elem_of_nil]|]. split; [done|]. intros path. split; [apply H1'|intros _; apply H2].
    + apply triple_ret. intros s Hs path. by split.
  - intros _. apply (triple_bind _ _ _ (λ _, all_disks K')); [by apply all_event|]. intros _. apply triple_ret. intros s Hs. split.
    + intros path. apply Hs.
    + intros [-> _]%andb_true_iff Hl path. apply Hs. by rewrite Hl.
Qed.

Lemma build_booted_safe io cds recipe arch artifact :
  (b_late io = true → b_ctxErr io = true) →
  triple (λ s, safe s ∧ Forall (ready s) (cs_ImagePath <$> cds)) (build_booted io cds recipe arch artifact) (λ _, safe).
Proof.
  intros Hlate. set (paths := cs_ImagePath <$> cds). set (K := λ path d, disk_safe d ∧ (path ∈ paths → disk_ready d)).
  assert (HK : ∀ path d, K path d → disk_safe d) by by intros path d [].
  assert (HKs : ∀ path d, K path d → all_sound paths path d) by (intros path d [? Hd]; split; [done|]; intros Hin; exact (proj2 (Hd Hin))).
  assert (HKf : ∀ path d, K path d → all_fenced paths path d) by (intros path d [? Hd]; split; [done|]; intros Hin; exact (proj1 (Hd Hin))).
  assert (Hsafe : ∀ s, all_disks (all_sound paths) s → safe s) by (intros s Hs path; apply Hs).
  apply (triple_pre _ (all_disks K)). { intros s [Hs Hr] path. split; [apply Hs|]. intros Hin. rewrite Forall_forall in Hr. by apply Hr. }
  unfold build_booted. apply (triple_bind _ _ _ (λ _, all_disks K)); [by apply all_event|]. intros _. destruct (b_startErr io).
  { apply (triple_bind _ _ _ (λ _, all_disks (all_sound paths))); [by eapply all_weaken, clear_markers_sound|]. intros _. by apply triple_ret. }
  apply (triple_bind _ _ _ (λ _, all_disks K)); [destruct (b_store io); [by apply all_event|by apply triple_ret]|]. intros _.
  apply (triple_bind _ _ _ (λ _, all_disks K)); [by apply all_event|]. intros _. destruct (b_waitErr io).
  { apply (triple_bind _ _ _ (λ _, all_disks (all_sound paths))); [by eapply all_weaken, clear_markers_sound|]. intros _.
    eapply triple_bind; [apply (SyncAndStop_all (all_sound paths))|].
    - by intros path d [].
    - intros path d _. split; [apply sound_safe|intros _]; apply flush_sound.
    - intros torn. apply triple_ret. intros s [Hs _]. by apply Hsafe. }
  apply (triple_bind _ _ _ (λ _, all_disks K)); [by apply all_event|]. intros _.
  apply (triple_bind _ _ _ (λ _, all_disks (all_fenced paths))).
  { eapply all_weaken; [exact HKf|]. apply triple_each. intros cd Hcd. apply all_tell; [by intros path d []|done|].
    intros d [_ Hd]. assert (fenced d) as Hf by (by apply Hd, list_elem_of_fmap_2). split; [by intros size _|done]. }
  intros _. eapply triple_bind; [apply (SyncAndStop_all (all_fenced paths))|].
  - by intros path d [].
  - intros path d [_ Hd]. split; [apply sound_safe, flush_sound|]. intros Hin. specialize (Hd Hin). unfold flush. by destruct (dk_image d) as [[? []]|].
  - intros torn. apply (triple_bind _ _ _ (λ _, safe)).
    + destruct torn, (b_ctxErr io) eqn:Ec; cbn [andb negb]; try (apply triple_ret; intros s [Hs _] path; apply Hs).
      apply (triple_post _ _ (λ _, all_disks (all_sound paths))); [|intros u s Hs; by apply Hsafe]. eapply triple_pre; [|apply clear_markers_sound]. intros s [_ Hs]. apply Hs; [done|].
      destruct (b_late io); [specialize (Hlate eq_refl); congruence|done].
    + intros _. destruct (guestBuild_err _ _); [by apply triple_ret|]. destruct torn, artifact; cbn [negb]; try by apply triple_ret.
      apply (triple_bind _ _ _ (λ _, safe)); [|intros _; by apply triple_ret]. apply (all_event (λ _, disk_safe)). done.
Qed.

Lemma BuildInVM_safe io cds recipe arch artifact :
  (b_late io = true → b_ctxErr io = true) →
  triple (λ s, safe s ∧ Forall (ready s) (cs_ImagePath <$> cds)) (BuildInVM io cds recipe arch artifact) (λ _, safe).
Proof.
  intros Hlate. unfold BuildInVM. destruct (b_store io) as [[|]|]; [by apply triple_ret; intros s []| |by apply build_booted_safe].
  apply (triple_bind _ _ _ (λ _ s, safe s ∧ Forall (ready s) (cs_ImagePath <$> cds))).
  { apply triple_event; [|by intros s []]. intros s s' Heq [Hs Hr].
    assert (Hd : ∀ path, disk path s' = disk path s) by (intros path; unfold disk; by rewrite Heq).
    split; [intros path; rewrite Hd; apply Hs|]. eapply Forall_impl; [done|]. intros path. unfold ready. by rewrite Hd. }
  intros _. eapply triple_bind; [by apply build_booted_safe|]. intros r.
  apply (triple_bind _ _ _ (λ _, safe)); [apply (all_event (λ _, disk_safe)); done|]. intros _. by apply triple_ret.
Qed.

(** ** Rounds *)

(** The states seen are safe, and this one is safe with settled markers. *)
Definition tracked (dk : list St * St) : Prop := Forall safe dk.1 ∧ safe dk.2 ∧ (cuts = true → settled dk.2).

Definition returns {A} (m : Run A) (P : A → Prop) : Prop := ∀ s, P (m s).2.

Lemma returns_bind {A B} (m : Run A) (k : A → Run B) P : (∀ a, returns (k a) P) → returns (bind m k) P.
Proof. intros H s. unfold bind. destruct (m s) as [[seen s1] a]. specialize (H a s1). by destruct (k a s1) as [[? ?] ?]. Qed.

Lemma ensure_image_path io dir key entry slot :
  returns (ensureCacheDiskAt io dir key entry slot) (λ r, ∀ spec, r = Ok spec → cs_ImagePath spec = slotImagePath dir key slot).
Proof.
  assert (Hret : ∀ r : result slot_error CacheDiskSpec, (∀ spec, r = Ok spec → cs_ImagePath spec = slotImagePath dir key slot) →
    returns (ret r) (λ r, ∀ spec, r = Ok spec → cs_ImagePath spec = slotImagePath dir key slot)) by (intros r Hr s; exact Hr).
  assert (Hcreate : ∀ size spec, cs_ImagePath spec = slotImagePath dir key slot →
    returns (createCacheDisk io (slotImagePath dir key slot) size spec) (λ r, ∀ spec, r = Ok spec → cs_ImagePath spec = slotImagePath dir key slot)).
  { intros size spec Hspec. unfold createCacheDisk. destruct (e_tmpErr io); [by apply Hret|]. apply returns_bind. intros [|]; cbn [negb].
    - apply returns_bind. intros r. apply Hret. by destruct r; intros ? [= <-].
    - apply returns_bind. intros _. by apply Hret. }
  unfold ensureCacheDiskAt. apply returns_bind. intros d. destruct (if e_statErr io then None else dk_image d) as [[size c]|]; [|by apply Hcreate].
  apply returns_bind. intros dirty. destruct dirty; cbn [negb].
  - destruct (runE2fsck _ _); [apply returns_bind; intros _; apply Hret; by intros ? [= <-]|].
    destruct (e_removeErr io); [by apply Hret|]. apply returns_bind. intros _. by apply Hcreate.
  - apply returns_bind. intros r. apply Hret. by destruct r; intros ? [= <-].
Qed.

Lemma ensure_tracked io dir i key entry slot dk dk' r :
  (∀ i slot, e_markerErr (io i slot) = false) → tracked dk → ensure_traced io dir i key entry slot dk = (dk', r) →
  match r with
  | Ok spec => tracked dk' ∧ ready dk'.2 (cs_ImagePath spec) ∧ ∀ path, ready dk.2 path → ready dk'.2 path
  | Err _ => Forall safe dk'.1
  end.
Proof.
  intros Hmk (Hseen & Hsafe & Hset) E. unfold ensure_traced in E.
  destruct (ensureCacheDiskAt (io i slot) dir key entry slot dk.2) as [[seen s'] r'] eqn:Er. simplify_eq. cbn.
  assert (HR : ∀ R, Forall (ready dk.2) R → Forall safe seen ∧ around (slotImagePath dir key slot) R s' ∧
    (is_ok r = true → disk_ready (disk (slotImagePath dir key slot) s'))).
  { intros R HR. pose proof (ensure_local (io i slot) dir key entry slot R (Hmk i slot) dk.2) as H. rewrite Er in H. apply H.
    split; [split_and!; [done|intros Hc path _; by apply Hset|done]|intros Hc; by apply Hset]. }
  destruct (HR []) as (Hseen' & (Hsafe' & Hset' & _) & Hready); [constructor|].
  assert (Hall : Forall safe (dk.1 ++ seen)) by by apply Forall_app. destruct r as [spec|e]; [|done].
  assert (Himg : cs_ImagePath spec = slotImagePath dir key slot).
  { pose proof (ensure_image_path (io i slot) dir key entry slot dk.2) as H. rewrite Er in H. by apply H. }
  specialize (Hready eq_refl). rewrite Himg. split; [split; [done|split; [done|]]|split; [done|]].
  - intros Hc path Hm. destruct (decide (path = slotImagePath dir key slot)) as [->|]; [by apply Hready|auto].
  - intros path Hp. destruct (HR [path]) as (_ & (_ & _ & H) & _); [by constructor|]. exact (Forall_inv H).
Qed.

Lemma slot_loop_tracked io dir p aio i key entry slots : ∀ ks dk ks' dk' r,
  (∀ i slot, e_markerErr (io i slot) = false) → tracked dk →
  slot_loop (ensure_traced io dir) p aio i dir key entry slots ks dk = (ks', dk', r) →
  match r with
  | Ok (spec, _) => tracked dk' ∧ ready dk'.2 (cs_ImagePath spec) ∧ ∀ path, ready dk.2 path → ready dk'.2 path
  | Err _ => Forall safe dk'.1
  end.
Proof.
  induction slots as [|slot slots IH]; intros ks dk ks' dk' r Hmk Htr H; cbn [slot_loop] in H; [simplify_eq; apply Htr|].
  destruct (acquireCacheDiskSlot p (aio i slot ks.1) _ false ks) as [ks1 [l|e]].
  - destruct (ensure_traced io dir i key entry slot dk) as [dk1 [spec|e]] eqn:E;
      pose proof (ensure_tracked _ _ _ _ _ _ _ _ _ Hmk Htr E) as Ht; simplify_eq; done.
  - assert (Hor : (ks1, dk, Err e) = (ks', dk', r) ∨ slot_loop (ensure_traced io dir) p aio i dir key entry slots ks1 dk = (ks', dk', r)) by (destruct e; auto).
    destruct Hor as [Heq|Hrest]; [simplify_eq; apply Htr|by eapply IH].
Qed.

Lemma select_loop_tracked io dir p aio : ∀ keys i held specs ks dk ks' dk' r,
  (∀ i slot, e_markerErr (io i slot) = false) → tracked dk → Forall (λ sp, ready dk.2 (cs_ImagePath sp)) specs →
  select_loop (ensure_traced io dir) p aio i dir keys held specs ks dk = (ks', dk', r) →
  match r with
  | Ok (specs', _) => tracked dk' ∧ Forall (λ sp, ready dk'.2 (cs_ImagePath sp)) specs'
  | Err _ => Forall safe dk'.1
  end.
Proof.
  induction keys as [|[key entry] keys IH]; intros i held specs ks dk ks' dk' r Hmk Htr Hsp H; cbn [select_loop] in H; [by simplify_eq|].
  unfold leaseCacheDiskSlot in H. destruct (slot_loop _ p aio i dir key entry _ ks dk) as [[ks1 dk1] [[spec l]|e]] eqn:E;
    pose proof (slot_loop_tracked _ _ _ _ _ _ _ _ _ _ _ _ _ Hmk Htr E) as Ht; [|by simplify_eq].
  destruct Ht as (Htr1 & Hr & Hkeep). eapply IH; [done|done| |exact H]. apply Forall_app. split; [|by constructor].
  eapply Forall_impl; [done|]. intros sp. apply Hkeep.
Qed.

(** Selecting disks from a safe state goes through safe states, and gives disks that are ready. *)
Lemma select_tracked io p aio mkdirErr dataDir keys ks s ks' dk' r :
  (∀ i slot, e_markerErr (io i slot) = false) → safe s → (cuts = true → settled s) →
  SelectCacheDisks (ensure_traced io (filepath_Join dataDir "caches")) p aio mkdirErr dataDir keys ks ([], s) = (ks', dk', r) →
  match r with
  | Ok (specs, _) => tracked dk' ∧ Forall (ready dk'.2) (cs_ImagePath <$> specs)
  | Err _ => Forall safe dk'.1
  end.
Proof.
  intros Hmk Hs Hset. assert (Htr : tracked ([], s)) by (split; [apply Forall_nil_2|done]). unfold SelectCacheDisks.
  destruct (mapM _ keys) as [entries|]; [|intros; simplify_eq; apply Htr]. destruct mkdirErr; [intros; simplify_eq; apply Htr|].
  intros H. pose proof (select_loop_tracked _ _ _ _ _ _ _ _ _ _ _ _ _ Hmk Htr (Forall_nil_2 _) H) as Ht. destruct r as [[specs ls]|]; [|done].
  by rewrite Forall_fmap.
Qed.

Lemma round_safe io dataDir keys recipe arch artifact ks s :
  (∀ i slot, e_markerErr (r_ensure io i slot) = false) → (b_late (r_build io) = true → b_ctxErr (r_build io) = true) →
  safe s → (cuts = true → settled s) → Forall safe (round io dataDir keys recipe arch artifact ks s).1.
Proof.
  intros Hmk Hlate Hs Hset. unfold round.
  destruct (SelectCacheDisks _ _ _ _ _ _ _ _) as [[ks' [seen s1]] [[specs ls]|e]] eqn:E;
    pose proof (select_tracked _ _ _ _ _ _ _ _ _ _ _ Hmk Hs Hset E) as H; [|done]. destruct H as ((H1 & H2 & H3) & H4).
  pose proof (BuildInVM_safe (r_build io) specs recipe arch artifact Hlate s1 (conj H2 H4)) as Hb.
  destruct (BuildInVM _ _ _ _ _ s1) as [[seen' s2] res]. destruct Hb as [Hb _]. cbn. by apply Forall_app.
Qed.
End Fencing.

Lemma cut_safe s s' : safe true s → (∀ path, cut_disk (disk path s) (disk path s')) → safe true s'.
Proof.
  intros Hs Hcut path size Him. destruct (Hcut path) as (Hm & Hd & Himg).
  assert (Hold : dk_image (disk path s) = Some (size, Unsynced)).
  { destruct (dk_image (disk path s)) as [[sz []]|]; try congruence. destruct Himg; congruence. }
  destruct (Hs path size Hold) as [H1 H2]. specialize (H2 eq_refl). assert (dk_marker (disk path s') = true) by (destruct Hm; congruence).
  split; [done|]. intros _. congruence.
Qed.

(** Reachable states are safe, and settled where there are power cuts. *)
Lemma host_safe cuts s : rtc (host_step cuts) noDisks s → safe cuts s ∧ (cuts = true → settled s).
Proof.
  intros H. apply (rtc_invariant (host_step cuts) (λ s, safe cuts s ∧ (cuts = true → settled s))) with noDisks; [|done|].
  - intros x y [io dataDir keys recipe arch artifact ks s' Hmk Hlate Hin Hset|s' Hc Hcut] [Hx Hxs].
    + split; [|done]. pose proof (round_safe cuts io dataDir keys recipe arch artifact ks x Hmk Hlate Hx Hxs) as Hr. rewrite Forall_forall in Hr. by apply Hr.
    + subst cuts. split; [by eapply cut_safe|]. intros _ path Hm. destruct (Hcut path) as (_ & Hd & _). congruence.
  - split; [intros path size|intros _ path]; unfold disk, noDisks; cbn; by rewrite lookup_empty.
Qed.

(** C23: No builder gets a poisoned cache.  Whatever rounds of builds ran before, each of them ending or dying at any point, with any
    file operation failing but the look at a marker ([unreadable_marker_serves_poisoned]), and as long as a guest whose
    execution returned under a live context has ended ([lost_execution_poisons]) (and with power cuts, when no process
    died between writing a marker and its fsync): a disk that the next selection hands out has no guest writes missing, and it is marked, so that writes the next guest loses
    will not go unnoticed either. *)
Theorem cache_never_poisoned cuts s io p aio mkdirErr dataDir keys ks ks' dk' specs ls :
  rtc (host_step cuts) noDisks s →
  (∀ i slot, e_markerErr (io i slot) = false) →
  SelectCacheDisks (ensure_traced io (filepath_Join dataDir "caches")) p aio mkdirErr dataDir keys ks ([], s) = (ks', dk', Ok (specs, ls)) →
  Forall (λ spec, let d := disk (cs_ImagePath spec) dk'.2 in
    dk_marker d = true ∧ (cuts = true → dk_durable d = true) ∧ ∀ size, dk_image d ≠ Some (size, Unsynced)) specs.
Proof.
  intros Hs Hmk Hsel. destruct (host_safe cuts s Hs) as [Hsafe Hset].
  pose proof (select_tracked cuts _ _ _ _ _ _ _ _ _ _ _ Hmk Hsafe Hset Hsel) as [_ H]. rewrite Forall_fmap in H.
  eapply Forall_impl; [exact H|]. intros spec [[? ?] ?]. by split_and!.
Qed.

(** ** What a build does, in order *)

(** The events a run adds, and its result, satisfy [Q]. *)
Definition emits {A} (m : Run A) (Q : A → list bevent → Prop) : Prop :=
  ∀ s, ∃ es, st_events (m s).1.2 = st_events s ++ es ∧ Q (m s).2 es.

Lemma emits_ret {A} (a : A) (Q : A → list bevent → Prop) : Q a [] → emits (ret a) Q.
Proof. intros H s. exists []. by rewrite app_nil_r. Qed.

Lemma emits_event e (Q : unit → list bevent → Prop) : Q tt [e] → emits (event e) Q.
Proof. intros H s. by exists [e]. Qed.

Lemma emits_tell path f (Q : unit → list bevent → Prop) : Q tt [] → emits (tell (on_disk path f)) Q.
Proof. intros H s. exists []. by rewrite app_nil_r. Qed.

Lemma emits_get {A} (f : St → A) (Q : A → list bevent → Prop) : (∀ a, Q a []) → emits (get f) Q.
Proof. intros H s. exists []. by rewrite app_nil_r. Qed.

Lemma emits_bind {A B} (m : Run A) (k : A → Run B) R Q :
  emits m R → (∀ a es, R a es → emits (k a) (λ b es', Q b (es ++ es'))) → emits (bind m k) Q.
Proof.
  intros Hm Hk s. unfold bind. specialize (Hm s). destruct (m s) as [[seen s1] a]. destruct Hm as (es & Hes & HR). cbn in Hes, HR.
  specialize (Hk a es HR s1). destruct (k a s1) as [[seen' s2] b]. destruct Hk as (es' & Hes' & HQ). cbn in *.
  exists (es ++ es'). rewrite Hes', Hes, app_assoc. done.
Qed.

Lemma emits_each {A} (f : A → Run unit) l : (∀ x, emits (f x) (λ _ es, es = [])) → emits (each f l) (λ _ es, es = []).
Proof.
  intros Hf. induction l as [|x l IH]; [by apply emits_ret|]. cbn [each]. eapply emits_bind; [apply Hf|]. by intros _ es ->.
Qed.

Lemma clean_emits r u path : emits (markCacheDiskClean r u path) (λ _ es, es = []).
Proof.
  unfold markCacheDiskClean. eapply emits_bind; [by apply (emits_get _ (λ _ es, es = []))|]. intros d es ->.
  destruct (dk_marker d); [|by apply emits_ret]. destruct r; [by apply emits_ret|]. cbn [negb].
  eapply emits_bind; [by apply (emits_tell _ _ (λ _ es, es = []))|]. intros _ es ->. destruct u; [by apply emits_ret|].
  eapply emits_bind; [by apply (emits_tell _ _ (λ _ es, es = []))|]. intros _ es ->. by apply emits_ret.
Qed.

Lemma clear_emits io cds : emits (clear_markers io cds) (λ _ es, es = []).
Proof. apply emits_each. intros cd. eapply emits_bind; [apply clean_emits|]. intros _ es ->. by apply emits_ret. Qed.

Definition is_sync (e : bevent) : Prop := ∃ b, b ∈ sync_bins ∧ e = EvExec [b].

(** Some command of the list was tried; only a command that ended with code zero counts. *)
Lemma sync_emits exec bins :
  (∀ b, b ∈ bins → b ∈ sync_bins) →
  emits (sync_loop exec bins) (λ ok es, Forall is_sync es ∧ (ok = true → ∃ b, b ∈ bins ∧ exec b = ExecCode 0)).
Proof.
  induction bins as [|b bins IH]; intros Hin; cbn [sync_loop]; [by apply emits_ret; split; [constructor|]|].
  assert (Hb : is_sync (EvExec [b])) by (exists b; split; [apply Hin; by left|done]).
  apply (emits_bind _ _ (λ _ es, es = [EvExec [b]])); [by apply emits_event|]. intros _ es ->. destruct (exec b) as [e|code] eqn:E.
  - destruct (isExecNotFound e); [|by apply emits_ret; split; [constructor|]].
    intros s. destruct (IH (λ b' H, Hin b' (list_elem_of_further _ _ _ H)) s) as (es & Hes & Hall & Hok). exists es. split; [done|].
    split; [by constructor|]. intros H. destruct (Hok H) as (b' & ? & ?). exists b'. split; [by right|done].
  - apply emits_ret. split; [by constructor|]. intros ->%Z.eqb_eq. exists b. split; [by left|done].
Qed.

Definition confirmed (io : BuildIO) : Prop := b_stopErr io = false ∧ ∃ b, b_sync io b = ExecCode 0.

Lemma stop_emits io cds :
  emits (SyncAndStop io cds) (λ torn es, ∃ syncs, es = syncs ++ [EvStop] ∧ Forall is_sync syncs ∧ (torn = true → confirmed io)).
Proof.
  unfold SyncAndStop. eapply emits_bind; [by apply sync_emits|]. intros synced syncs [Hsyncs Hok].
  apply (emits_bind _ _ (λ _ es, es = [])). { destruct (synced && _); [|by apply emits_ret]. apply emits_each. intros cd. by apply emits_tell. }
  intros _ es ->. apply (emits_bind _ _ (λ _ es, es = [EvStop])); [by apply emits_event|]. intros _ es ->. apply emits_ret.
  exists syncs. cbn. split_and!; [done|done|]. intros [Hs Hst]%andb_true_iff. destruct (Hok Hs) as (b & _ & ?). split; [by destruct (b_stopErr io)|eauto].
Qed.

(** What follows the start of a machine that came up: the stop, with nothing run in the guest after it, and a harvest only of a build
    that succeeded and was flushed. *)
Definition torn_down (io : BuildIO) (artifact : bool) (r : result build_error string) (es : list bevent) : Prop :=
  ∃ pre post, es = pre ++ [EvStop] ++ post ∧ EvStart ∈ pre ∧ EvStop ∉ pre ∧ EvHarvest ∉ pre ∧ EvDelete ∉ pre ∧
    (post = [] ∨ post = [EvHarvest] ∧ b_build io = ExecCode 0 ∧ confirmed io ∧ artifact = true) ∧
    ∀ digest, r = Ok digest → post = [EvHarvest] ∧ b_harvest io = Some digest.

Lemma not_in_prefix e e1 e2 syncs (mid : list bevent) :
  ¬ is_sync e → Forall is_sync syncs → e ∉ [e1; e2] → e ∉ mid → e ∉ e1 :: mid ++ e2 :: syncs.
Proof.
  intros Hn Hs H12 Hm. rewrite !not_elem_of_cons, not_elem_of_app, not_elem_of_cons in *. rewrite Forall_forall in Hs. naive_solver.
Qed.

Lemma build_booted_emits io cds recipe arch artifact :
  emits (build_booted io cds recipe arch artifact) (λ r es,
    if b_startErr io then es = [EvStart] ∧ r = Err BErrStart else torn_down io artifact r es).
Proof.
  unfold build_booted. apply (emits_bind _ _ (λ _ es, es = [EvStart])); [by apply emits_event|]. intros _ es ->. destruct (b_startErr io).
  { eapply emits_bind; [apply clear_emits|]. intros _ es ->. by apply emits_ret. }
  set (mid := match b_store io with Some _ => [EvUpdate] | None => [] end).
  assert (Hmid : ∀ e, e ≠ EvUpdate → e ∉ mid) by (intros e He; unfold mid; destruct (b_store io); rewrite ?list_elem_of_singleton; [done|apply not_elem_of_nil]).
  apply (emits_bind _ _ (λ _ es, es = mid)). { unfold mid. destruct (b_store io); [by apply emits_event|by apply emits_ret]. }
  intros _ es ->. apply (emits_bind _ _ (λ _ es, es = [EvDial])); [by apply emits_event|]. intros _ es ->. destruct (b_waitErr io).
  { eapply emits_bind; [apply clear_emits|]. intros _ es ->. eapply emits_bind; [apply stop_emits|].
    intros torn es (syncs & -> & Hsyncs & _). apply emits_ret. exists (EvStart :: mid ++ EvDial :: syncs), [].
    split_and!; [by rewrite ?app_nil_r; cbn; rewrite <- ?app_assoc|by left| | | |by left|done];
      (apply not_in_prefix; [intros (? & _ & [=])|done|set_solver|by apply Hmid]). }
  set (ex := EvExec _). apply (emits_bind _ _ (λ _ es, es = [ex])); [by apply emits_event|]. intros _ es ->.
  apply (emits_bind _ _ (λ _ es, es = [])). { apply emits_each. intros cd. by apply emits_tell. }
  intros _ es ->. eapply emits_bind; [apply stop_emits|]. intros torn es (syncs & -> & Hsyncs & Hconf).
  apply (emits_bind _ _ (λ _ es, es = [])). { destruct (torn && _); [apply clear_emits|by apply emits_ret]. }
  intros _ es ->.
  assert (Hdown : ∀ r post, (post = [] ∨ post = [EvHarvest] ∧ b_build io = ExecCode 0 ∧ confirmed io ∧ artifact = true) →
    (∀ digest, r = Ok digest → post = [EvHarvest] ∧ b_harvest io = Some digest) →
    torn_down io artifact r ([EvStart] ++ mid ++ [EvDial] ++ [ex] ++ [] ++ (syncs ++ [EvStop]) ++ [] ++ post)).
  { intros r post Hpost Hr. exists (EvStart :: (mid ++ [EvDial]) ++ ex :: syncs), post.
    split_and!; [by cbn; rewrite <- ?app_assoc; cbn; rewrite <- ?app_assoc|by left| | | |done|done];
      (apply not_in_prefix; [intros (? & _ & [=])|done|unfold ex; set_solver|rewrite not_elem_of_app; split; [by apply Hmid|set_solver]]). }
  destruct (guestBuild_err (b_build io) (b_stderr io)) as [e|] eqn:Eb; [apply emits_ret; apply Hdown; [by left|done]|].
  destruct torn; cbn [negb]; [|apply emits_ret; apply Hdown; [by left|done]].
  destruct artifact; cbn [negb]; [|apply emits_ret; apply Hdown; [by left|done]].
  apply (emits_bind _ _ (λ _ es, es = [EvHarvest])); [by apply emits_event|]. intros _ es ->. apply emits_ret. apply Hdown.
  - right. split_and!; [done| |by apply Hconf|done]. unfold guestBuild_err in Eb. destruct (b_build io) as [|code]; [done|].
    destruct (Z.eqb_spec code 0) as [->|]; [done|done].
  - intros digest H. destruct (b_harvest io); by simplify_eq.
Qed.

(** A machine that came up is stopped on every path, nothing runs in the guest afterwards, the artifact is read only once a
    build that succeeded was flushed and stopped, and the record, when there is one, is created first and deleted last. *)
Theorem build_tears_down io cds recipe arch artifact s :
  b_startErr io = false → b_store io ≠ Some true →
  let '(_, s', r) := BuildInVM io cds recipe arch artifact s in
  ∃ es, st_events s' = st_events s ++ match b_store io with Some _ => [EvCreate] ++ es ++ [EvDelete] | None => es end ∧
    torn_down io artifact r es.
Proof.
  intros Hstart Hst. pose proof (build_booted_emits io cds recipe arch artifact) as Hb. rewrite Hstart in Hb.
  assert (H : emits (BuildInVM io cds recipe arch artifact) (λ r es', ∃ es,
    es' = match b_store io with Some _ => [EvCreate] ++ es ++ [EvDelete] | None => es end ∧ torn_down io artifact r es)).
  { unfold BuildInVM. destruct (b_store io) as [[|]|]; [done| |].
    - apply (emits_bind _ _ (λ _ es, es = [EvCreate])); [by apply emits_event|]. intros _ es ->. eapply emits_bind; [exact Hb|]. intros r es Hes.
      apply (emits_bind _ _ (λ _ es, es = [EvDelete])); [by apply emits_event|]. intros _ es' ->. apply emits_ret. exists es. by rewrite app_nil_r.
    - intros s0. destruct (Hb s0) as (es & ? & ?). eauto. }
  destruct (H s) as (es' & Hes & es & -> & Ht). destruct (BuildInVM io cds recipe arch artifact s) as [[seen s'] r]. eauto.
Qed.

(** ** One image: reuse and size *)

(** A disk without a marker is given out as it is, marked; no tool touches it. *)
Lemma clean_disk_reused io dir key entry slot s size c :
  let img := slotImagePath dir key slot in
  disk img s = mkDisk (Some (size, c)) false (dk_durable (disk img s)) → e_statErr io = false → e_mark io = ok_mark →
  let '(_, s', r) := ensureCacheDiskAt io dir key entry slot s in
  is_ok r = true ∧ disk img s' = mkDisk (Some (size, c)) true true.
Proof.
  intros img Hd Hst Hmk. unfold ensureCacheDiskAt, bind, get. fold img. rewrite Hst. cbv beta iota zeta. rewrite Hd. cbn [dk_image].
  unfold cacheDiskIsDirty. rewrite Hd. cbn [dk_marker]. rewrite andb_false_r. cbn [negb]. rewrite Hmk. unfold markCacheDiskDirty, ok_mark, bind, tell, ret. cbn.
  split; [done|]. rewrite !disk_on, !decide_True by done. cbn. by rewrite Hd.
Qed.

(** A dirty disk that e2fsck does not recover is replaced by an empty one that is not smaller. *)
Lemma dirty_disk_replaced io dir key entry slot s size c :
  let img := slotImagePath dir key slot in
  dk_image (disk img s) = Some (size, c) → dk_marker (disk img s) = true →
  e_statErr io = false → e_markerErr io = false → e_sizeErr io = false → runE2fsck (e_fsckPath io) (e_fsck io) = false →
  let '(_, s', r) := ensureCacheDiskAt io dir key entry slot s in
  is_ok r = true → dk_image (disk img s') = Some (Z.max size cacheDiskSizeBytes, Fresh).
Proof.
  intros img Hi Hm Hst Hmk Hsz Hfsck. unfold ensureCacheDiskAt, bind, get. fold img. rewrite Hst. cbv beta iota zeta. rewrite Hi.
  unfold cacheDiskIsDirty. rewrite Hmk, Hm, Hsz, Hfsck. cbn [negb andb]. destruct (e_removeErr io); [done|].
  assert (Hsize : (if cacheDiskSizeBytes <? size then size else cacheDiskSizeBytes) = Z.max size cacheDiskSizeBytes)
    by (destruct (Z.ltb_spec cacheDiskSizeBytes size); lia). rewrite Hsize. clear Hsize.
  set (n := Z.max size cacheDiskSizeBytes). unfold createCacheDisk, tell, bind, get, ret. destruct (e_tmpErr io); [done|].
  unfold runMke2fs, tell, bind, get, ret. destruct (f_path (e_mkfs io)); cbn; [|by destruct (e_rmPartialErr io)].
  rewrite disk_on, decide_True by done. cbn.
  destruct (f_truncate (e_mkfs io)), (f_create (e_mkfs io)), (f_truncateNew (e_mkfs io)), (f_tool (e_mkfs io)); cbn; try by destruct (e_rmPartialErr io).
  all: unfold markCacheDiskDirty, bind, tell, ret; destruct (e_mark io) as [[|] [|] [|] [|] [|]]; cbn; try done.
  all: rewrite !disk_on, !decide_True by done; done.
Qed.

(** ** A concrete history, and what the code does not prevent *)

Module Demo.
Definition dir : string := "/data/caches".
Definition img : string := "/data/caches/npm.ext4".
Definition npm : ecosystemEntry := mkEco "/root/.npm" [].
Definition ks : Kernel * Proc := (mkKernel ∅ ∅ ∅ ∅ ∅ 0, newProc).

Definition ensure_ok : EnsureIO := mkEnsureIO false false false true (ToolExit 0) false false (mkMkfsIO true true true true true) false ok_mark.

Definition build_ok : BuildIO :=
  mkBuildIO (Some false) false false (ExecCode 0) "" false (λ _, ExecCode 0) false false (λ _, (false, false)) (Some "sha256:0"%string).

(** The execution of the role breaks off with its connection; the role goes on. *)
Definition build_lost : BuildIO :=
  mkBuildIO (Some false) false false (ExecErr "connection reset") "" true (λ _, ExecCode 0) false false (λ _, (false, false)) None.

Definition round_of (b : BuildIO) : RoundIO := mkRoundIO 1 (λ _ _ _, mkAIO (Some 5%nat) false) (λ _ _, ensure_ok) false b.

Definition run (b : BuildIO) (s : St) : list St := (round (round_of b) "/data" ["npm"%string] None "x64" true ks s).1.

Definition nth (n : nat) (l : list St) : St := default noDisks (l !! n).

(** Process deaths in a first round: after the image was created, after the marker was created, and in the middle of the build. *)
Definition after_create : St := nth 0 (run build_ok noDisks).
Definition after_marker : St := nth 4 (run build_ok noDisks).
Definition mid_build : St := nth 11 (run build_ok noDisks).

Definition ensure (io : EnsureIO) (s : St) : list St * St * result slot_error CacheDiskSpec := ensureCacheDiskAt io dir "npm" npm 0 s.

Definition select (s : St) : Kernel * Proc * (list St * St) * result slot_error (list CacheDiskSpec * list nat) :=
  SelectCacheDisks (ensure_traced (λ _ _, ensure_ok) (filepath_Join "/data" "caches")) 1 (λ _ _ _, mkAIO (Some 5%nat) false) false "/data" ["npm"%string] ks ([], s).
End Demo.

Example demo_states :
  disk Demo.img Demo.after_create = mkDisk (Some (0, Raw)) false false ∧
  disk Demo.img Demo.after_marker = mkDisk (Some (cacheDiskSizeBytes, Fresh)) true false ∧
  disk Demo.img Demo.mid_build = mkDisk (Some (cacheDiskSizeBytes, Unsynced)) true true.
Proof. by vm_compute. Qed.

Lemma demo_step cuts n b s : Demo.run b s !! n = Some (Demo.nth n (Demo.run b s)) →
  (b_late b = true → b_ctxErr b = true) → (cuts = true → settled (Demo.nth n (Demo.run b s))) → host_step cuts s (Demo.nth n (Demo.run b s)).
Proof.
  intros Hn Hlate Hset. apply (hs_round cuts s (Demo.round_of b) "/data" ["npm"%string] None "x64" true Demo.ks); [done|done| |done].
  by apply list_elem_of_lookup_2 with n.
Qed.

(** After a death in the middle of a build the next selection has the disk repaired. *)
Lemma cache_never_poisoned_witness :
  dk_image (disk Demo.img Demo.mid_build) = Some (cacheDiskSizeBytes, Unsynced) ∧
  ∃ ks' dk' specs ls, Demo.select Demo.mid_build = (ks', dk', Ok (specs, ls)) ∧
    Forall (λ spec, let d := disk (cs_ImagePath spec) dk'.2 in
      dk_marker d = true ∧ (false = true → dk_durable d = true) ∧ ∀ size, dk_image d ≠ Some (size, Unsynced)) specs.
Proof.
  split; [by vm_compute|]. destruct (Demo.select Demo.mid_build) as [[ks' dk'] r] eqn:E.
  destruct r as [[specs ls]|e]; [|exfalso; revert E; by vm_compute]. exists ks', dk', specs, ls. split; [done|].
  apply (cache_never_poisoned false Demo.mid_build (λ _ _, Demo.ensure_ok) 1 (λ _ _ _, mkAIO (Some 5%nat) false) false "/data" ["npm"%string] Demo.ks ks' dk' specs ls).
  - apply rtc_once. apply (demo_step false 11 Demo.build_ok); [vm_compute; reflexivity|intros Hx; discriminate Hx..].
  - done.
  - exact E.
Defined.

Lemma build_tears_down_witness :
  ∃ es, st_events (BuildInVM Demo.build_ok [] None "x64" true noDisks).1.2 = [EvCreate] ++ es ++ [EvDelete] ∧
    torn_down Demo.build_ok true (Ok "sha256:0"%string) es.
Proof. exact (build_tears_down Demo.build_ok [] None "x64" true noDisks eq_refl ltac:(done)). Defined.

(** A process that dies between creating an image and its marker leaves an image without a file system, which the next builder
    gets as a clean cache, unchecked. *)
Lemma interrupted_create_served :
  host_step true noDisks Demo.after_create ∧
  let '(_, s, r) := Demo.ensure Demo.ensure_ok Demo.after_create in is_ok r = true ∧ dk_image (disk Demo.img s) = Some (0, Raw).
Proof.
  split; [|by vm_compute]. apply (demo_step true 0 Demo.build_ok); [vm_compute; reflexivity|intros Hx; discriminate Hx|]. intros _ path Hm. exfalso. revert Hm. unfold disk.
  assert (Hall : map_Forall (λ _ d, dk_marker d = false) (st_disks (Demo.nth 0 (Demo.run Demo.build_ok noDisks)))) by (apply (bool_decide_eq_true_1 _); by vm_compute).
  destruct (st_disks _ !! path) as [d|] eqn:E; [|done]. cbn. by rewrite (Hall _ _ E).
Qed.

(** A marker that was created and not yet synced counts for the next builder, which does not sync it either: after a power cut
    during that builder's work the disk is served with writes missing. *)
Lemma marker_lost_by_power_cut :
  let s1 := Demo.after_marker in
  let s2 := Demo.nth 6 (Demo.run Demo.build_ok s1) in
  let s3 := mkSt {[Demo.img := mkDisk (Some (cacheDiskSizeBytes, Unsynced)) false false]} [] in
  host_step false noDisks s1 ∧ host_step false s1 s2 ∧ cut_disk (disk Demo.img s2) (disk Demo.img s3) ∧
  let '(_, s, r) := Demo.ensure Demo.ensure_ok s3 in is_ok r = true ∧ dk_image (disk Demo.img s) = Some (cacheDiskSizeBytes, Unsynced).
Proof.
  cbv zeta. split; [apply (demo_step false 4 Demo.build_ok); [vm_compute; reflexivity|intros Hx; discriminate Hx..]|].
  split; [apply (demo_step false 6 Demo.build_ok Demo.after_marker); [vm_compute; reflexivity|intros Hx; discriminate Hx..]|]. split; [|by vm_compute].
  split; [right; by vm_compute|]. by vm_compute.
Qed.

(** A marker that cannot be looked at counts as absent: the poisoned disk is served. *)
Lemma unreadable_marker_serves_poisoned :
  let io := mkEnsureIO false true false true (ToolExit 0) false false (mkMkfsIO true true true true true) false ok_mark in
  let '(_, s, r) := Demo.ensure io Demo.mid_build in is_ok r = true ∧ dk_image (disk Demo.img s) = Some (cacheDiskSizeBytes, Unsynced).
Proof. by vm_compute. Qed.

(** An execution that breaks off while its role goes on, with the context alive: the flush succeeds, the marker is removed, and
    the writes that came after the flush are missing from a disk that is served as clean. *)
Lemma lost_execution_poisons :
  let s1 := (round (Demo.round_of Demo.build_lost) "/data" ["npm"%string] None "x64" true Demo.ks noDisks).2 in
  let '(_, s, r) := Demo.ensure Demo.ensure_ok s1 in is_ok r = true ∧ dk_image (disk Demo.img s) = Some (cacheDiskSizeBytes, Unsynced).
Proof. by vm_compute. Qed.
