(* ===== verification/BuilderIO.v ===== *)
(** * internal/core/builder: admission of a builder and size-checked contexts

    admission.go decides whether the host has the memory for a builder machine; it reads the same file as the governor's headroom
    check (Headroom) with code of its own, and the two are proved to agree.  sizedfs.go stands between the files of a
    build context and the library that sends them: it remembers the size every file was announced with and notices a
    file that is read short, read long, opened without being announced, or that cannot be opened. *)

From stdpp Require Import prelude countable gmap strings list.
From Stdlib Require Import ZArith Ascii Lia.
From S2P Require Import Prelude GoStrings GoFloat Headroom Reap.

(** ** admission.go *)

Definition admitFloorMin : Z := 1 * 1024 * 1024 * 1024.
Definition admitFloorPct : float64 := f64_lit 5 100.

Definition admitFloor (total : Z) : Z :=
  let pct := i64_of_f64 (f64_mul (f64_of_Z total) admitFloorPct) in if admitFloorMin <? pct then pct else admitFloorMin.

(** [None]: the memory could not be read. *)
Definition AdmitBuilderBoot (bootMemMiB : Z) (mem : option (Z * Z)) : bool :=
  match mem with
  | None => true
  | Some (avail, total) =>
      let need := i64 (i64 (i64 (u32 bootMemMiB) * 1024 * 1024) + admitFloor total) in negb (avail <? need)
  end.

Fixpoint find_ceiling (fields : list bytes) : option Z :=
  match fields with
  | [] => None
  | f :: rest =>
      match CutPrefix (of_chars f) "--mem-ceiling=" with
      | Some v => match ParseInt v with Ok n => if n <=? 0 then None else Some n | Err _ => None end
      | None => find_ceiling rest
      end
  end.

Definition GuestMemCeiling (cmdline : option bytes) : option Z :=
  match cmdline with None => None | Some raw => find_ceiling (fields_loop raw []) end.

Definition InNexusGuest (cmdline : option bytes) : bool := bool_decide (is_Some (GuestMemCeiling cmdline)).

Definition parseMemKB (s : string) : result num_error Z :=
  let s := TrimSpace s in
  let s := TrimSuffix s " kB" in
  let s := TrimSpace s in
  match ParseInt s with Err e => Err e | Ok kb => Ok (i64 (kb * 1024)) end.

(** The loop with its variables: what was read, and the two flags; [None] when a value does not parse. *)
Fixpoint meminfo_loop (lines : list bytes) (avail total : Z) (gotAvail gotTotal : bool) : option (Z * Z * bool * bool) :=
  match lines with
  | [] => Some (avail, total, gotAvail, gotTotal)
  | line :: lines =>
      match Cut (of_chars line) ":"%char with
      | None => meminfo_loop lines avail total gotAvail gotTotal
      | Some (key, val) =>
          let key := TrimSpace key in
          r ← (if String.eqb key "MemAvailable" then
                 match parseMemKB val with Err _ => None | Ok v => Some (v, total, true, gotTotal) end
               else if String.eqb key "MemTotal" then
                 match parseMemKB val with Err _ => None | Ok v => Some (avail, v, gotAvail, true) end
               else Some (avail, total, gotAvail, gotTotal));
          let '(avail, total, gotAvail, gotTotal) := r in
          if gotAvail && gotTotal then Some (avail, total, gotAvail, gotTotal)
          else meminfo_loop lines avail total gotAvail gotTotal
      end
  end.

Definition ProcfsMeminfo (contents : option bytes) : option (Z * Z) :=
  text ← contents;
  r ← meminfo_loop (scan_lines text) 0 0 false false;
  let '(avail, total, gotAvail, gotTotal) := r in
  if negb gotAvail || negb gotTotal then None else Some (avail, total).

Definition AdmitBuilderBootHere (bootMemMiB : Z) (cmdline meminfo : option bytes) : bool :=
  if InNexusGuest cmdline then true else AdmitBuilderBoot bootMemMiB (ProcfsMeminfo meminfo).

(** ** sizedfs.go *)

Inductive sized_error :=
| NotWalked (path : string)
| OpenFailed (path : string)
| OverRead (path : string) (read expected : Z)
| Truncated (path : string) (read expected : Z).

(** The shared slot of a set: the first violation, and the causes the solve was cancelled with. *)
Record sizeVerifiedSet := mkSet { sv_firstErr : option sized_error; sv_cancelled : list sized_error }.

Definition newSizeVerifiedSet : sizeVerifiedSet := mkSet None [].

Definition noteErr (e : sized_error) (s : sizeVerifiedSet) : sizeVerifiedSet :=
  match sv_firstErr s with Some _ => s | None => mkSet (Some e) (sv_cancelled s ++ [e]) end.

(** One file system of the set: the sizes announced. *)
Record sizeVerifiedFS := mkSFS { sf_expected : gmap string Z }.

Definition Wrap : sizeVerifiedFS := mkSFS ∅.

(** An entry the walk reports: an error, a directory, a link, or another file with its size when that can be read. *)
Inductive walk_entry := WErr | WDir | WLink | WFile (size : option Z).

#[global] Instance walk_entry_eq_dec : EqDecision walk_entry.
Proof. solve_decision. Defined.

Definition Walk_entry (path : string) (e : walk_entry) (f : sizeVerifiedFS) : sizeVerifiedFS :=
  match e with WFile (Some size) => mkSFS (<[path := size]> (sf_expected f)) | _ => f end.

Definition Walk (entries : list (string * walk_entry)) (f : sizeVerifiedFS) : sizeVerifiedFS :=
  fold_left (λ f pe, Walk_entry pe.1 pe.2 f) entries f.

Record sizeVerifiedReader := mkReader { rd_path : string; rd_expected : Z; rd_read : Z }.

(** [innerOk]: the file itself can be opened. *)
Definition SFS_Open (path : string) (innerOk : bool) (f : sizeVerifiedFS) (s : sizeVerifiedSet) : sizeVerifiedSet * result sized_error sizeVerifiedReader :=
  match sf_expected f !! path with
  | None => (noteErr (NotWalked path) s, Err (NotWalked path))
  | Some size =>
      if negb innerOk then (noteErr (OpenFailed path) s, Err (OpenFailed path))
      else (s, Ok (mkReader path size 0))
  end.

(** How the inner read ended, and what this one returns. *)
Inductive inner_err := INil | IEOF | IFail.
Inductive read_err := RNil | REOF | RFail | RSized (e : sized_error).

Definition SFS_Read (n : nat) (err : inner_err) (r : sizeVerifiedReader) (s : sizeVerifiedSet) : sizeVerifiedReader * sizeVerifiedSet * (nat * read_err) :=
  let r := mkReader (rd_path r) (rd_expected r) (rd_read r + Z.of_nat n) in
  if rd_expected r <? rd_read r then
    let e := OverRead (rd_path r) (rd_read r) (rd_expected r) in (r, noteErr e s, (n, RSized e))
  else match err with
  | IEOF =>
      if rd_read r <? rd_expected r then
        let e := Truncated (rd_path r) (rd_read r) (rd_expected r) in (r, noteErr e s, (n, RSized e))
      else (r, s, (n, REOF))
  | INil => (r, s, (n, RNil))
  | IFail => (r, s, (n, RFail))
  end.

(** The sender reads until a read does not return nil; what it sent, and how it ended ([RNil]: the reads ran out). *)
Fixpoint send_file (reads : list (nat * inner_err)) (r : sizeVerifiedReader) (s : sizeVerifiedSet) (sent : nat) : sizeVerifiedSet * nat * read_err :=
  match reads with
  | [] => (s, sent, RNil)
  | (n, err) :: rest =>
      match SFS_Read n err r s with
      | (r, s, (n, RNil)) => send_file rest r s (sent + n)
      | (r, s, (n, e)) => (s, (sent + n)%nat, e)
      end
  end.

(** ** Admission agrees with the governor *)

Lemma admitFloor_governor total : admitFloor total = hostMemAvailFloor total.
Proof. done. Qed.

Lemma parseMemKB_governor s : parseMemKB s = parseKB s.
Proof. unfold parseMemKB, parseKB, rbind. by destruct (ParseInt _). Qed.

(** The loop variables of one parser as those of the other. *)
Definition got (v : Z) (b : bool) : option Z := if b then Some v else None.

Lemma meminfo_loop_governor lines : ∀ avail total ga gt,
  (ga && gt = false) →
  match meminfo_loop lines avail total ga gt, scan_meminfo lines (got avail ga) (got total gt) with
  | Some (a, t, ga', gt'), Ok (av, to) => av = got a ga' ∧ to = got t gt'
  | None, Err _ => True
  | _, _ => False
  end.
Proof.
  induction lines as [|line lines IH]; intros avail total ga gt Hg; cbn [meminfo_loop scan_meminfo]; [done|].
  destruct (Cut (of_chars line) ":"%char) as [[key val]|]; [|apply IH; exact Hg].
  assert (Hcont : ∀ a t ga' gt',
    match (if ga' && gt' then Some (a, t, ga', gt') else meminfo_loop lines a t ga' gt'),
          (match got a ga', got t gt' with Some _, Some _ => Ok (got a ga', got t gt') | _, _ => scan_meminfo lines (got a ga') (got t gt') end : result meminfo_error _) with
    | Some (a', t', ga'', gt''), Ok (av, to) => av = got a' ga'' ∧ to = got t' gt''
    | None, Err _ => True
    | _, _ => False
    end) by (intros a t [|] [|]; cbn [andb got]; [done|apply IH; done..]).
  rewrite parseMemKB_governor. destruct (String.eqb (TrimSpace key) "MemAvailable"); [|destruct (String.eqb (TrimSpace key) "MemTotal")].
  - destruct (parseKB val) as [v|e]; cbn; [|done]. apply (Hcont v total true gt).
  - destruct (parseKB val) as [v|e]; cbn; [|done]. apply (Hcont avail v ga true).
  - cbn. apply (Hcont avail total ga gt).
Qed.

(** The two readers of the meminfo file give the same numbers, and fail on the same files. *)
Lemma ProcfsMeminfo_governor contents :
  ProcfsMeminfo contents = match readMeminfo contents with Ok r => Some r | Err _ => None end.
Proof.
  unfold ProcfsMeminfo, readMeminfo. destruct contents as [text|]; [|done]. cbn [mbind option_bind]. unfold rbind.
  pose proof (meminfo_loop_governor (scan_lines text) 0 0 false false eq_refl) as H. cbn [got] in H.
  destruct (meminfo_loop (scan_lines text) 0 0 false false) as [[[[a t] ga] gt]|], (scan_meminfo (scan_lines text) None None) as [[av to]|e]; try done.
  destruct H as [-> ->]. cbn. by destruct ga, gt.
Qed.

(** A builder is admitted outside a guest exactly when the governor would find headroom to grow a machine by the builder's
    boot memory, or when the memory cannot be read; the numbers are those of a host (below 2^62). *)
Theorem admission_agrees_with_governor bootMemMiB cmdline meminfo :
  0 ≤ bootMemMiB < 2 ^ 32 →
  (∀ a t, readMeminfo meminfo = Ok (a, t) → 0 ≤ a < 2 ^ 62 ∧ admitFloor t < 2 ^ 62) →
  InNexusGuest cmdline = false →
  AdmitBuilderBootHere bootMemMiB cmdline meminfo =
  match HasHeadroom meminfo (bootMemMiB * 1024 * 1024) with Ok b => b | Err _ => true end.
Proof.
  intros Hb Hr Hg. unfold AdmitBuilderBootHere, HasHeadroom. rewrite Hg, ProcfsMeminfo_governor.
  destruct (readMeminfo meminfo) as [[a t]|e]; [|done]. unfold rbind, AdmitBuilderBoot. destruct (Hr a t eq_refl) as [Ha Hf].
  pose proof (hostMemAvailFloor_min t) as Hmin. rewrite <- admitFloor_governor in *. unfold hostMemAvailFloorMin in Hmin.
  rewrite (wrap_u_small 32 bootMemMiB) by lia. rewrite !(i64_small bootMemMiB) by lia.
  rewrite (i64_small (bootMemMiB * 1024 * 1024)) by lia. rewrite (i64_small (bootMemMiB * 1024 * 1024 + admitFloor t)) by lia.
  rewrite i64_small by lia. change (hostMemAvailFloor t) with (admitFloor t).
  destruct (Z.ltb_spec a (bootMemMiB * 1024 * 1024 + admitFloor t)), (Z.leb_spec (admitFloor t) (a - bootMemMiB * 1024 * 1024)); first [exfalso; lia|done].
Qed.

Module Demo.
Definition mem : bytes := chars ("MemTotal: 16777216 kB" +:+ of_chars ["010"%char] +:+ "MemAvailable: 4194304 kB" +:+ of_chars ["010"%char]).
End Demo.

Lemma admission_agrees_with_governor_witness :
  AdmitBuilderBootHere 2048 (Some (chars "init=/sbin/nexus-agent")) (Some Demo.mem) = true ∧
  AdmitBuilderBootHere 2048 (Some (chars "init=/sbin/nexus-agent")) (Some Demo.mem) =
  match HasHeadroom (Some Demo.mem) (2048 * 1024 * 1024) with Ok b => b | Err _ => true end.
Proof.
  split; [by vm_compute|]. apply admission_agrees_with_governor.
  - lia.
  - intros a t. assert (readMeminfo (Some Demo.mem) = Ok (4294967296, 17179869184)) as -> by (by vm_compute). intros [= <- <-].
    split; [lia|]. by vm_compute.
  - by vm_compute.
Defined.

(** ** No context file is sent with another length than announced *)

Lemma noteErr_recorded e s : is_Some (sv_firstErr (noteErr e s)).
Proof. unfold noteErr. destruct (sv_firstErr s) eqn:E; cbn; rewrite ?E; eauto. Qed.

Lemma Walk_last entries path size f : (∀ e, (path, WFile (Some e)) ∈ entries → e = size) → (path, WFile (Some size)) ∈ entries →
  sf_expected (Walk entries f) !! path = Some size.
Proof.
  revert f. induction entries as [|[p e] entries IH] using rev_ind; intros f Hall Hin; [by apply not_elem_of_nil in Hin|].
  unfold Walk. rewrite fold_left_app. cbn. fold (Walk entries f).
  destruct (decide ((p, e) = (path, WFile (Some size)))) as [[= -> ->]|Hne]; [cbn; apply lookup_insert_eq|].
  assert (Hrest : sf_expected (Walk entries f) !! path = Some size).
  { apply IH; [intros e' He'; apply Hall, elem_of_app; by left|]. apply elem_of_app in Hin as [?|Hin%list_elem_of_singleton]; [done|congruence]. }
  destruct e as [| | |[sz|]]; try done. cbn. destruct (decide (p = path)) as [->|]; [|by rewrite lookup_insert_ne].
  destruct Hne. do 3 f_equal. apply Hall, elem_of_app. right. by apply list_elem_of_singleton.
Qed.

Lemma SFS_Read_spec n err r s r' s' m e :
  0 ≤ rd_read r → SFS_Read n err r s = (r', s', (m, e)) →
  m = n ∧ rd_read r' = rd_read r + Z.of_nat n ∧ rd_expected r' = rd_expected r ∧ rd_path r' = rd_path r ∧
  match e with
  | RSized _ => is_Some (sv_firstErr s')
  | REOF => s' = s ∧ rd_read r' = rd_expected r'
  | RNil | RFail => s' = s ∧ rd_read r' ≤ rd_expected r'
  end.
Proof.
  intros Hr. unfold SFS_Read. cbn. destruct (Z.ltb_spec (rd_expected r) (rd_read r + Z.of_nat n)).
  { intros H'. simplify_eq/=. eauto using noteErr_recorded. }
  destruct err; [intros H'; simplify_eq/=; split_and!; done|destruct (Z.ltb_spec (rd_read r + Z.of_nat n) (rd_expected r)); intros H'; simplify_eq/=|intros H'; simplify_eq/=; split_and!; done].
  - split_and!; eauto using noteErr_recorded.
  - split_and!; [done..|]. cbn. lia.
Qed.

Lemma send_file_spec reads : ∀ r s sent s' sent' e,
  rd_read r = Z.of_nat sent → send_file reads r s sent = (s', sent', e) →
  match e with
  | REOF => s' = s ∧ Z.of_nat sent' = rd_expected r
  | RSized _ => is_Some (sv_firstErr s')
  | RNil | RFail => s' = s
  end.
Proof.
  induction reads as [|[n err] reads IH]; intros r s sent s' sent' e Hr H; cbn [send_file] in H; [by simplify_eq|].
  destruct (SFS_Read n err r s) as [[r1 s1] [m e1]] eqn:E. assert (0 ≤ rd_read r) as Hr0 by lia.
  destruct (SFS_Read_spec _ _ _ _ _ _ _ _ Hr0 E) as (-> & Hread & Hexp & _ & Hcase).
  destruct e1; simplify_eq.
  - destruct Hcase as [-> _]. rewrite <- Hexp. eapply IH; [|exact H]. rewrite Hread, Hr. lia.
  - destruct Hcase as [-> Hcase]. split; [done|]. rewrite <- Hexp, <- Hcase, Hread, Hr. lia.
  - by destruct Hcase as [-> _].
  - done.
Qed.

(** The files of a context: if no violation is recorded after a file was opened and sent to its end, as many bytes were sent as
    the walk announced; a file that was not announced, or that cannot be opened, or that is read short or long, is
    recorded, and the solve is cancelled with the first such violation. *)
Theorem context_sent_whole entries path size innerOk reads f0 s s1 o s2 sent e :
  (∀ x, (path, WFile (Some x)) ∈ entries → x = size) → (path, WFile (Some size)) ∈ entries →
  SFS_Open path innerOk (Walk entries f0) s = (s1, o) →
  match o with
  | Err _ => innerOk = false ∧ is_Some (sv_firstErr s1)
  | Ok r => send_file reads r s1 0 = (s2, sent, e) →
      match e with
      | REOF => Z.of_nat sent = size
      | RSized _ => is_Some (sv_firstErr s2)
      | RNil | RFail => True
      end
  end.
Proof.
  intros Hall Hin. unfold SFS_Open. rewrite (Walk_last entries path size f0 Hall Hin). destruct innerOk; cbn [negb]; intros H; simplify_eq.
  - intros Hs. pose proof (send_file_spec reads _ _ _ _ _ _ (eq_refl : rd_read (mkReader path size 0) = Z.of_nat 0) Hs) as H. destruct e; [done|by destruct H|done|done].
  - split; [done|apply noteErr_recorded].
Qed.

Lemma context_sent_whole_witness :
  let reads := [(3%nat, INil); (2%nat, IEOF)] in
  is_Some (sv_firstErr (send_file reads (mkReader "a" 7 0) newSizeVerifiedSet 0).1.1) ∧
  Z.of_nat (send_file reads (mkReader "a" 5 0) newSizeVerifiedSet 0).1.2 = 5.
Proof.
  split.
  - exact (context_sent_whole [("a"%string, WFile (Some 7))] "a" 7 true [(3%nat, INil); (2%nat, IEOF)] Wrap newSizeVerifiedSet newSizeVerifiedSet
      (Ok (mkReader "a" 7 0)) (mkSet (Some (Truncated "a" 5 7)) [Truncated "a" 5 7]) 5%nat (RSized (Truncated "a" 5 7))
      ltac:(intros x [= ->]%list_elem_of_singleton; done) ltac:(by left) eq_refl eq_refl).
  - exact (context_sent_whole [("a"%string, WFile (Some 5))] "a" 5 true [(3%nat, INil); (2%nat, IEOF)] Wrap newSizeVerifiedSet newSizeVerifiedSet
      (Ok (mkReader "a" 5 0)) newSizeVerifiedSet 5%nat REOF
      ltac:(intros x [= ->]%list_elem_of_singleton; done) ltac:(by left) eq_refl eq_refl).
Defined.

(** A read error of the file itself is passed on but not recorded: the slot that is consulted after the solve stays empty. *)
Lemma read_failure_not_recorded :
  send_file [(3%nat, INil); (0%nat, IFail)] (mkReader "a" 7 0) newSizeVerifiedSet 0 = (newSizeVerifiedSet, 3%nat, RFail).
Proof. done. Qed.
